(* ===== verification/_CoqProject ===== *)
-Q . S2P
Prelude.v
Text.v
Utf7.v
Registry.v
SweepReview.v
Table.v
Program.v
Pool.v
Json.v
Rules.v
RulesRun.v
Sieve.v
Outgoing.v
Scheduled.v
Merge.v
Sending.v
BackupSchedule.v
ArchivePolicy.v
AutoArchive.v
Calendar.v
Recurrence.v
RRule.v
Tasks.v
TaskLaws.v
TaskRepeat.v
TaskBoard.v
Dav.v
Todo.v
Ics.v
Vtodo.v
VtodoBody.v
VtodoWrite.v
VtodoRoundTrip.v
TaskSync.v
TaskEvolves.v
TaskSyncLaws.v
TaskReconcile.v
TaskSyncLive.v
AccountLists.v
TaskLife.v
AccountListLaws.v
SecretsMigration.v
SecretsMap.v
CredentialChunks.v
Keyset.v
ThreadList.v
Subjects.v
Cards.v
Messages.v
ConversationPage.v
CachedConversations.v
ThreadKeys.v
CachedLaws.v
FolderMove.v
FolderMoveLaws.v
ReadReceipts.v
ReceiptLaws.v
Awaiting.v
Reminders.v
ReminderLaws.v
ReminderTold.v
Mbox.v
LocalArchive.v
Pop3.v
Pop3Laws.v
Reports.v
ReportLaws.v
MailCheck.v
Categories.v
CategoryLaws.v
PersonLinks.v
PersonGroups.v
Search.v
SearchLaws.v
Unified.v
Overlap.v
Spam.v
SpamLaws.v
