(* ===== verification/Prelude.v ===== *)
(** * Oreneta's engine: a verification development

    Oreneta is a desktop and mobile mail client.  Its engine is the Rust
    crate [meron-core]; shells in other languages speak to it.  This library
    models the parts of the engine where a mistake loses mail, sends it
    twice, or moves what nobody agreed to move, and proves what makes them
    correct.

    ** The parts and their files

    Foundations:
    - [Prelude] (this file): Rust's [Result], options and iterators, the
      order of a [HashMap] as the class [HashOrder], lemmas on lists;
    - [Text]: [String] and [str], as lists of code points, with the functions
      the engine uses of them; the Unicode tables are the class [Unicode];
    - [Table]: an SQL table as a list of rows, with the statements used
      ([query_row], [update], [upsert], [delete_where], [order_by]);
    - [Json]: [serde_json]'s values, as far as the engine takes them apart;
    - [Program]: routines that can be interrupted, as trees of calls; [runs],
      which may stop before any call, [ensures], the invariants that hold
      wherever that is, and [exec] against an environment given as a function;
    - [Pool]: several such routines at once over one world, with a protocol
      that says what each may count on between its calls;
    - [Registry]: a bounded store of single-use reviews, shared by the two
      parts that have one;
    - [Utf7] ([utf7.rs]): folder names as they go to a server.

    Agreement before something happens to mail:
    - [SweepReview] ([sweep_review.rs]): a sweep is agreed to by the id of
      what was shown; [issue], [take], [look], [outcome];
    - [Rules] ([rules/mod.rs]): the reader's rules, [holds], [plan],
      [validate]; [RulesRun] ([rules/run.rs]): rules run on old mail exactly
      as previewed; [Sieve] ([rules/sieve.rs]): the rules as a Sieve script
      for the server, with the meaning of the tests it is made of.

    Sending:
    - [Outgoing] ([store/outgoing.rs]): the record of every attempt to send
      and its states; [Scheduled] (the scheduled sends of [store/mod.rs]):
      what is due and the delay after a failure; [Merge] ([merge/mod.rs]):
      personalized mailings, from the CSV file to the claim of the next
      message; [Sending] (the sending routines of [main.rs]): [perform_send],
      [send_scheduled], [scheduled_watch], [mailing_loop] and the start of
      the process as programs over those tables and a server, interleaved;
    - [ReadReceipts] and [ReceiptLaws] ([receipts/mod.rs]): read receipts
      asked for, the answers kept and the receipts sent, by routines that run
      at once;
    - [Reports] and [ReportLaws] ([receipts/report.rs]): the reports of
      deliveries and readings that come back, kept with the message they are
      about or waiting for it; [ReportRead] reads the receipts written here.

    Keeping and moving away:
    - [BackupSchedule] ([backup_schedule/mod.rs]): when a backup is written,
      what is kept of the old ones and what a restart cleans up;
    - [ArchivePolicy] and [AutoArchive] ([auto_archive/mod.rs]): the policy
      of automatic archiving and its confirmation; the plan and the run, as
      programs over the server and the local archive (the trait [Steps]);
    - [LocalArchive] and [Mbox] ([archive.rs]): messages kept byte for byte in
      the database, imported, copied, moved and deleted; mailboxes in one
      file;
    - [FolderMove] and [FolderMoveLaws] ([folder_move.rs]): a folder renamed
      with everything that names it.

    Fetching mail:
    - [Pop3] and [Pop3Laws] ([pop3/mod.rs]): the session with a POP3 server,
      what is said before it is encrypted, what is fetched and what deleted;
      [Pop3Fetch] the whole life of an account;
    - [MailCheck] ([mail_check.rs] and the loop of [main.rs]): when an account
      is checked, and the checks that run.

    Repeating tasks:
    - [Calendar]: what is relied on of [chrono]'s dates, as the class
      [CalendarLaws], with the Gregorian calendar as an instance;
    - [Recurrence] and [RRule] ([calendar/recurrence.rs]): the next date of a
      rule, and rules as RRULE text.

    Tasks:
    - [Tasks] (the task functions of [store/mod.rs], and
      [store/task_lists.rs]): the tables [task_lists] and [tasks] and every
      statement that changes them; [TaskLaws] the state they are always in
      ([wf], kept by each request of the relation [step]) and what an edit
      does; [TaskRepeat] a repeating task completed again and
      again through the rule it keeps as text; [TaskBoard] ([list_tasks],
      [due_reminders]) the tasks as the interface lists them.

    Tasks on a calendar server:
    - [Ics] ([calendar/ics.rs]: escaping, folding, unfolding) and [Vtodo]
      ([task_sync/vtodo.rs]): a task as a calendar object, read, patched line
      by line, and made new.  [Vtodo] implements the class [Todo.TodoFormat],
      which is all the synchronization knows of it.  Its theorems go through
      the modules of [VtodoBody] (the lines between BEGIN and END, and that
      each line written is read), [VtodoWrite] and [VtodoRoundTrip];
    - [Dav] ([carddav/client.rs], the conditional writes of
      [calendar/caldav.rs]): addresses, origins, [If-Match];
    - [TaskSync] ([task_sync/mod.rs]): a sync as a program over the tables
      and the server; [TaskEvolves] what may change while it waits for an
      answer; [TaskSyncLaws] what it may claim; [TaskReconcile] its
      reconciliation, row by row; [TaskSyncLive] what it gets done, with
      runs of it on small servers ([TaskSyncDemo]); [TaskLife] a whole life
      of the tables, requests and syncs together, and what a request stopped
      halfway leaves;
    - [AccountLists] and [AccountListLaws] ([task_sync/account_lists.rs]):
      the lists that come with an account, offered, read, linked, declined.

    Secrets:
    - [SecretsMigration] ([secrets_migration.rs]): what the engine does to its
      entries in the system's keychain, kept under the service [oreneta] and
      before that under [meron]: reading, storing, deleting, the key of the
      store, and the sweep at startup, as programs of the keychain's calls;
      [SecretsLaws], in the same file, the keychain as a service that may
      fail; [SecretsMap] the two services as one map; [SecretsSweep], beside
      it, the sweep and what is logged;
    - [CredentialChunks] ([secrets.rs]): a secret too long for a Windows
      credential, kept in chunks of two generations.

    Conversations:
    - [Keyset]: lists read a page at a time, each page found again by the
      position of the last row of the one before; the orders of positions;
    - [ThreadList] ([thread_list.rs]): what a list is asked for, its order,
      its cursors as text; base64 is the class [Base64];
    - [Subjects], [Cards], [Messages], [ThreadKeys] (parts of
      [store/mod.rs]): what a subject says without its marks and the keys of
      the branches of a thread; messages grouped into cards; the pages of a
      folder; the threads of messages cached before the one they answer;
    - [ConversationPage] ([conversation_page.rs]): one order over the cards of
      several folders, with cursors bound to the view; [CachedConversations]
      ([cached_conversations.rs]) collects the cards of the folders and cuts
      the page from them; [CachedLaws] what a view shows, on a small mailbox
      too ([ConversationDemo]);
    - [Unified] ([unified.rs]): the pages of several accounts as one list;
    - [Search] and [SearchLaws] ([search/mod.rs], and what [imap.rs] asks a
      server): the search box read and written; [SearchDates] its days.

    What mail is about:
    - [Categories] and [CategoryLaws] ([categories/mod.rs]): the tabs of the
      inbox; [CategoryKept] the verdicts kept, [CategoryCounts] the counts;
    - [Spam] and [SpamLaws] ([spam.rs] and the spam functions of
      [store/mod.rs]): what the reader said of messages and senders, and what
      is learned from it;
    - [Awaiting] ([awaiting/mod.rs]): messages a reply is expected to;
    - [PersonLinks] and [PersonGroups] ([store/person_links.rs]): people known
      to be the same, and those suggested; [PersonLinkLaws] what a link joins.

    Events:
    - [Reminders] ([calendar/reminders.rs], [pim/reminders.rs]): the looks
      that give reminders; [ReminderLaws] each once, [ReminderTold] none
      missed; [Overlap] ([calendar/overlap.rs]): the events a proposed time
      falls on.

    State is a record of the tables or maps a part keeps; an operation takes
    it and gives it back; fallible code is a [result], a routine that calls
    out is a [prog].  Definitions keep the names of the code; where Rocq or
    this library has the name already, a close one is used ([select_messages]
    for [select], [own_age] for a folder's [older_than]).

    ** What is shown

    - Nothing is lost.  [archiving_never_loses]: wherever a run stops, every
      message is on the server or byte for byte in the archive;
      [moving_loses_nothing]; [deleted_only_as_asked]; [a_move_renames_once];
      [newest_backup_survives]: whatever fails and wherever it stops, a good
      newest backup stays; [plan_prune_spec], [prune_keeps_unsettled]: what
      is thrown away is exactly what may be.
    - Nothing is sent twice unawares.  [record_never_lies]: in every
      interleaving and after every stop, the record of an attempt says what
      the server may have; [resolve_exactly_unsettled],
      [begin_attempt_spec], [claim_next_spec], [recover_settles], [backoff];
      [a_receipt_goes_once].  Nothing is fetched twice ([stored_once], of
      messages whose id is read alike everywhere) nor said in clear
      ([nothing_said_in_clear]).
    - What is due is done: [checked_when_due], [checked_one_at_a_time],
      [a_reminder_is_told], [a_reminder_is_given_once], [a_look_is_exact].
    - What comes in any order is said the same: [reports_in_any_order],
      [waiting_is_bounded], [our_receipt_is_read].
    - Nothing moves that was not agreed to.  [sweeps_single_use],
      [run_spent_once], [only_what_the_policy_takes],
      [save_needs_its_preview], [restored_never_archives_on_its_own].
    - Functions do what they are for: [plan_sound], [plan_runs],
      [holds_spec], [validate_spec], [accepted_policies], [fill_spec],
      [preview_ready], [next_run_spec], [every_message_is_accounted_for],
      [next_date_spec] (the least date of the calendar the rule falls on),
      [completing_follows_the_rule] (a refinement: the task moved from date
      to date goes through the dates of the rule as first written).
    - What is written is read back: [quote_lexes], [split_csv_roundtrip],
      [save_reads_back], [format_parse_roundtrip]; the Sieve tests agree with
      the engine's conditions where they are used
      ([subject_condition_agrees]).
    - Tasks stay tasks: [tasks_stay_well_formed] (over a whole life of
      requests, bindings, syncs and settlings, stopped or not), [edit_spec],
      [list_tasks_spec].
    - What a sync claims is true: [sync_claims_nothing_false] (a task with
      nothing waiting is at the server as it is here, wherever the sync stops
      and whatever is requested meanwhile, each request to its end),
      [reconcile_is_row_by_row] (the hash
      map gone through in any order comes to one pass over the rows),
      [a_willing_server_gets_everything] (of a list without conflicts, whose
      changes can be sent, nothing is left waiting),
      [nothing_leaves_the_origin], [declined_stays_declined].
    - A task written as a calendar object is read as written:
      [patch_writes_what_changed], [new_object_is_read], [written_lines];
      and [completing_through_the_text], the refinement through the text the
      table keeps.
    - Secrets are neither lost nor told: [keychain_is_a_map] (a refinement:
      whatever fails and wherever the process stops, the two services read as
      one map), [the_old_entry_goes_only_for_its_copy],
      [a_good_key_is_never_replaced], [the_sweep_moves_what_it_can],
      [nothing_is_said_of_the_values] (the log does not depend on the
      values), [a_write_cut_short_keeps_the_secrets].
    - A conversation is shown once: [one_branch_per_subject] (what is grouped
      with what), [cards_account_for_every_message],
      [pages_show_a_folder_once], [headers_read_everything] (the loop ends),
      [walking_out_settles] (the walk over references ends, circles included,
      and leaves threads together), [a_view_shows_each_conversation_once],
      [a_cursor_is_of_its_view], [the_walk_shows_every_account].
    - What is said of mail is what was decided: [judging_the_new_is_enough],
      [counted_where_the_reason_says], [counts_are_what_was_judged],
      [an_undo_restores], [verdicts_are_of_what_is_learned],
      [linking_joins], [suggestions_are_components].
    - What is asked is what was typed: [compose_reads_back],
      [the_day_typed_is_asked]; what is written to a file is read from it:
      [mailbox_reads_back]; [overlapping_is_exact].
    - Where the code and what is said of it part: [server_goes_further]
      (the Sieve script runs every move of a rule and what is written after a
      stop), [forgotten_then_sent_twice] (records are pruned at startup before
      they are reconciled), [cancel_then_deferred] (a deferral that arrives
      after a mailing was cancelled), [a_stop_can_leave_a_second_copy]
      (messages without a Message-ID), [reading_can_panic] (a weekday cut
      inside a character), [mine_over_a_series_stops_the_list] (one conflict
      settled for this side can keep a list from ever syncing again),
      [two_messages_close_a_view] (an identity a sender can choose),
      [a_failed_delete_cannot_be_read], [a_shared_list_goes_with_one_account], [a_save_goes_unnoticed] (a task
      saved from its conversation keeps its revision).  In the same vein, on
      concrete inputs: [an_implied_day_drifts], [a_kept_reminder_moves] and
      [a_completion_moves] in [VtodoRoundTrip]; in [TaskLife],
      [a_stop_leaves_it_unsent] and [a_stop_loses_a_completion] (statements
      that commit one by one); [a_comment_can_bring_a_second_copy] (two
      readers of Message-IDs); [a_deletion_leaves_its_verdict] and
      [a_stop_leaves_the_verdicts] (categories); [a_dismissed_pair_is_suggested];
      [a_message_seen_again_counts_twice] and [a_move_leaves_the_verdicts]
      (spam); [a_task_in_a_list_gone]; [two_calendars_ring_twice].

    ** Conventions and bounds

    - Times are Unix seconds, unbounded [Z] for [i64]: sums of a time and a
      delay stay far from 2^63.  Widths are kept where the code depends on
      them: the conversions of [BackupSchedule.save], the [i8] ordinals of
      [Recurrence], the [u8], [u16] and [u32] the readers of numbers accept.
    - A section of the code under one lock of the database is one step.  A
      statement may fail and then changes nothing; statements of one
      transaction are one step, others are steps of their own where a
      theorem depends on it.
    - Code that is not the engine's is a parameter with what is documented of
      it: [uuid]s, [serde_json] on whole records, SHA-256, time zones, a
      server, a file system.  Each theorem with such a hypothesis has a
      witness in which the parameter is a concrete function.
    - A hash map is gone through in an order the model is given
      ([HashOrder]); a panic is a value of the error type
      ([Recurrence.Panic], [Tasks.Panicked]), which a caller that catches
      errors does not catch.  Between the calls of a sync the tables may
      change by any step of [TaskLaws.step].
    - Recursion is structural.  Where the code loops on something else the
      fuel is stated with what makes it enough: [AutoArchive.chunks] (the
      length of the list, [chunks_from_concat]), the loops that strip a
      subject ([drain], its length), the one that reads a folder ([headers],
      as many rounds as there are rows), the walk over references ([walk],
      likewise), the roots of [PersonGroups] (as many steps as there are
      pairs), the search for a free file name ([first_free_fresh] shows it
      ends) and [Recurrence.completions], which is given how often to
      complete.  The 49 months [next_date] looks at are the code's own bound;
      [next_date_spec] shows that for the rules that are written the second
      is enough.

    ** What is not modelled

    Network protocols, MIME, HTML, encryption, the keychains themselves and
    SQLite are libraries the engine calls.  Of what is modelled, these are
    left out: the migrations of the task tables, how task lists on an
    Exchange server are made and synchronized, the reading of the XML answers
    of a calendar server, of [ics.rs] the events and invitations, of a page
    of conversations its writing as JSON, and of a search what the full text
    index of SQLite answers.  Two syncs of task lists at once, and messages
    given another thread while their verdicts are kept, are not among the
    steps.  The parts of the engine that are not modelled are listed with the
    components: invitations, contacts and cards, priority marks, chat,
    feeds, encryption, the protocols, and the handlers of requests. *)
From stdpp Require Export base tactics strings pretty list gmap sets numbers fin_maps sorting.
From Stdlib Require Export ZArith Lia.

(** ** Results

    Rust's [Result<A, E>]; the error type comes first so that [result E] is a
    monad and stdpp's [x ← e; k] stands for the [?] operator. *)
Inductive result (E A : Type) : Type :=
| Ok (a : A)
| Err (e : E).
Arguments Ok {E A} a.
Arguments Err {E A} e.

#[global] Instance result_eq_dec {E A} `{EqDecision E, EqDecision A} : EqDecision (result E A).
Proof. solve_decision. Defined.

#[global] Instance result_ret {E} : MRet (result E) := fun A a => Ok a.
#[global] Instance result_bind {E} : MBind (result E) := fun A B f r =>
  match r with Ok a => f a | Err e => Err e end.
#[global] Instance result_fmap {E} : FMap (result E) := fun A B f r =>
  match r with Ok a => Ok (f a) | Err e => Err e end.

(** [r.ok()] *)
Definition ok {E A} (r : result E A) : option A :=
  match r with Ok a => Some a | Err _ => None end.

(** [r.is_ok()] *)
Definition is_ok {E A} (r : result E A) : bool :=
  match r with Ok _ => true | Err _ => false end.

(** [o.ok_or(e)] and anyhow's [o.context(e)] *)
Definition ok_or {E A} (e : E) (o : option A) : result E A :=
  match o with Some a => Ok a | None => Err e end.

(** anyhow's [ensure!(b, e)] *)
Definition ensure {E} (b : bool) (e : E) : result E unit :=
  if b then Ok tt else Err e.

Lemma bind_Ok {E A B} (f : A -> result E B) r b :
  r ≫= f = Ok b <-> exists a, r = Ok a /\ f a = Ok b.
Proof.
  destruct r as [a|e]; cbn; split.
  - eauto.
  - intros (a' & H & Hf). injection H as ->. exact Hf.
  - discriminate.
  - intros (a' & H & _). discriminate H.
Qed.

Lemma ensure_Ok {E} b (e : E) u : ensure b e = Ok u <-> b = true.
Proof. destruct b, u; cbn; split; congruence. Qed.

Lemma ok_or_Ok {E A} (e : E) (o : option A) a : ok_or e o = Ok a <-> o = Some a.
Proof. destruct o; cbn; split; congruence. Qed.

(** ** Boolean tests

    [bools] says a boolean test in propositions: the tests of the code are
    conjunctions and disjunctions of comparisons. *)
Create HintDb bools.
#[export] Hint Rewrite andb_true_iff orb_true_iff negb_true_iff andb_false_iff orb_false_iff negb_false_iff
  Z.leb_le Z.ltb_lt Z.eqb_eq Z.leb_gt Z.ltb_ge Z.eqb_neq : bools.
#[export] Hint Rewrite @bool_decide_eq_true @bool_decide_eq_false : bools.

Ltac bools := autorewrite with bools.
Tactic Notation "bools" "in" hyp(H) := autorewrite with bools in H.

(** Boolean tests on options, as Rust's [is_some_and] and [is_none_or]. *)
Definition is_some_and {A} (p : A -> bool) (o : option A) : bool :=
  match o with Some a => p a | None => false end.

Definition is_none_or {A} (p : A -> bool) (o : option A) : bool :=
  match o with Some a => p a | None => true end.

Definition unwrap_or {A} (d : A) (o : option A) : A :=
  match o with Some a => a | None => d end.

(** ** Iterators *)

(** [iter.min_by_key(f)]: the first of the least elements. *)
Fixpoint min_by_key {A} (f : A -> Z) (l : list A) : option A :=
  match l with
  | [] => None
  | x :: r =>
      match min_by_key f r with
      | Some y => if (f y <? f x)%Z then Some y else Some x
      | None => Some x
      end
  end.

Lemma min_by_key_None {A} (f : A -> Z) l : min_by_key f l = None -> l = [].
Proof.
  destruct l as [|x l]; [done|]. cbn.
  destruct (min_by_key f l) as [y|]; [|done]. by destruct (f y <? f x)%Z.
Qed.

Lemma min_by_key_Some {A} (f : A -> Z) l a :
  min_by_key f l = Some a -> a ∈ l /\ Forall (fun b => (f a <= f b)%Z) l.
Proof.
  revert a. induction l as [|x l IH]; intros a; cbn; [done|].
  destruct (min_by_key f l) as [y|] eqn:E.
  - destruct (IH y eq_refl) as [Hin Hall].
    destruct (Z.ltb_spec (f y) (f x)); intros [= <-].
    + split; [by right|]. constructor; [lia|done].
    + split; [by left|]. constructor; [lia|].
      eapply Forall_impl; [exact Hall|]. cbn. lia.
  - intros [= <-]. apply min_by_key_None in E as ->.
    split; [by left|]. repeat constructor. lia.
Qed.

(** [vec.is_empty()] *)
Definition is_nil {A} (l : list A) : bool := match l with [] => true | _ => false end.

(** [while let]-style search: [iter.find(p)]. *)
Definition find_by {A} (p : A -> bool) (l : list A) : option A := List.find p l.

(** [iter.find_map(f)] *)
Fixpoint find_map {A B} (f : A -> option B) (l : list A) : option B :=
  match l with [] => None | a :: l' => match f a with Some b => Some b | None => find_map f l' end end.

Lemma find_map_Some {A B} (f : A -> option B) l b : find_map f l = Some b -> exists a, a ∈ l /\ f a = Some b.
Proof.
  induction l as [|a l IH]; cbn; [done|]. destruct (f a) as [b'|] eqn:E.
  - intros [= ->]. exists a. split; [by left|done].
  - intros H. destruct (IH H) as (a' & Hin & Hf). exists a'. split; [by right|done].
Qed.

(** A [HashMap] has no order of its own: whatever goes through its entries
    sees them in some order, which is all [iter] says. *)
Class HashOrder (K V : Type) `{Countable K} := {
  iter : gmap K V -> list (K * V);
  iter_perm : forall m, iter m ≡ₚ map_to_list m
}.

(** One such order, for evaluations. *)
#[export] Instance listing_order {K V} `{Countable K} : HashOrder K V | 10 :=
  {| iter := map_to_list; iter_perm := fun m => reflexivity _ |}.

Lemma elem_of_iter {K V} `{HashOrder K V} (m : gmap K V) k v :
  (k, v) ∈ iter m <-> m !! k = Some v.
Proof. rewrite iter_perm. apply elem_of_map_to_list. Qed.

(** ** Tests over lists *)

Lemma existsb_elem {A} (f : A -> bool) l : existsb f l = true <-> exists x, x ∈ l /\ f x = true.
Proof. rewrite existsb_exists. by setoid_rewrite list_elem_of_In. Qed.

Lemma existsb_none {A} (f : A -> bool) l : existsb f l = false -> forall x, x ∈ l -> f x = false.
Proof.
  intros Hf x Hx. destruct (f x) eqn:Ex; [|done].
  assert (existsb f l = true) by (apply existsb_elem; eauto). congruence.
Qed.

Lemma forallb_elem {A} (f : A -> bool) l : forallb f l = true <-> forall x, x ∈ l -> f x = true.
Proof. rewrite forallb_forall. by setoid_rewrite list_elem_of_In. Qed.

Lemma fmap_rev {A B} (f : A -> B) l : f <$> rev l = rev (f <$> l).
Proof. induction l as [|x l IH]; cbn; [done|]. by rewrite fmap_app, IH. Qed.

Lemma fmap_nil_iff {A B} (f : A -> B) l : f <$> l = [] <-> l = [].
Proof. by destruct l. Qed.

Lemma is_nil_true {A} (l : list A) : is_nil l = true <-> l = [].
Proof. by destruct l. Qed.

Lemma filter_nil_iff {A} (P : A -> Prop) `{forall x, Decision (P x)} (l : list A) :
  base.filter P l = [] <-> forall x, x ∈ l -> ~ P x.
Proof.
  split.
  - intros Hf x Hx Hp. assert (x ∈ base.filter P l) as Hin by (by apply list_elem_of_filter).
    rewrite Hf in Hin. by apply not_elem_of_nil in Hin.
  - intros Hn. destruct (base.filter P l) as [|x l'] eqn:E; [done|].
    assert (x ∈ base.filter P l) as Hin by (rewrite E; by left).
    apply list_elem_of_filter in Hin as [Hp Hx]. by apply Hn in Hx.
Qed.

Lemma filter_ext_in {A} (P Q : A -> Prop) `{forall x, Decision (P x), forall x, Decision (Q x)} (l : list A) :
  (forall x, x ∈ l -> P x <-> Q x) -> base.filter P l = base.filter Q l.
Proof.
  induction l as [|x l IH]; intros Heq; [done|]. rewrite !filter_cons.
  assert (base.filter P l = base.filter Q l) as -> by (apply IH; intros; apply Heq; by right).
  specialize (Heq x ltac:(by left)). repeat case_decide; tauto || done.
Qed.

Lemma find_by_Some {A} (p : A -> bool) l x : find_by p l = Some x -> x ∈ l /\ p x = true.
Proof. intros Hf. apply find_some in Hf as [Hx Hp]. by apply list_elem_of_In in Hx. Qed.

Lemma find_by_None {A} (p : A -> bool) l : find_by p l = None -> forall x, x ∈ l -> p x = false.
Proof. intros Hf x Hx. apply (find_none p l Hf). by apply list_elem_of_In. Qed.

(** The first found in a sorted list is before every other that could be. *)
Lemma find_by_least {A} (le : A -> A -> bool) (p : A -> bool) l x y :
  (forall a, le a a = true) -> StronglySorted (fun a b => le a b = true) l ->
  find_by p l = Some x -> y ∈ l -> p y = true -> le x y = true.
Proof.
  intros Hrefl. induction 1 as [|a l Hs IH Ha]; cbn; [done|].
  destruct (p a) eqn:E.
  - intros [= ->] [->|Hy]%elem_of_cons _; [done|]. rewrite Forall_forall in Ha. by apply Ha.
  - intros Hf [->|Hy]%elem_of_cons Hp; [congruence|]. by apply IH.
Qed.

Lemma find_by_filter {A} (p : A -> bool) l : find_by p l = head (base.filter (fun x => p x = true) l).
Proof.
  induction l as [|x l IH]; [done|]. rewrite filter_cons.
  change (find_by p (x :: l)) with (if p x then Some x else find_by p l). rewrite IH.
  destruct (p x) eqn:E; case_decide; congruence || done.
Qed.
