(* ===== verification/Text.v ===== *)
(** * Rust strings

    A [String]/[&str] is a sequence of Unicode scalar values; it is modelled
    as the list of their code points.  The functions of [str] the engine uses
    are defined here with Rust's meaning.  Byte lengths (needed where the code
    counts bytes) are the UTF-8 lengths of the code points.  Only the Unicode
    tables behind [to_lowercase] and [is_alphanumeric] are left abstract, in
    the class [Unicode]; [ascii_unicode] is the restriction of those tables to
    ASCII and is the instance concrete evaluations use. *)
From S2P Require Import Prelude.
From Stdlib Require Import Ascii.

#[local] Open Scope Z_scope.

Abbreviation text := (list Z).

(** String literals of the source. *)
Definition lit (s : string) : text :=
  (fun a => Z.of_N (N_of_ascii a)) <$> String.list_ascii_of_string s.

#[global] Arguments lit _ : simpl never.

(** ** Characters *)

(** Unicode scalar values: code points that are not surrogates. *)
Definition is_scalar (c : Z) : bool :=
  ((0 <=? c) && (c <? 0xD800)) || ((0xE000 <=? c) && (c <? 0x110000)).

(** [char::is_whitespace]: the Unicode property White_Space. *)
Definition is_whitespace (c : Z) : bool :=
  ((9 <=? c) && (c <=? 13)) || (c =? 32) || (c =? 0x85) || (c =? 0xA0) ||
  (c =? 0x1680) || ((0x2000 <=? c) && (c <=? 0x200A)) || (c =? 0x2028) ||
  (c =? 0x2029) || (c =? 0x202F) || (c =? 0x205F) || (c =? 0x3000).

Definition is_ascii_digit (c : Z) : bool := (48 <=? c) && (c <=? 57).
Definition is_ascii_upper (c : Z) : bool := (65 <=? c) && (c <=? 90).
Definition is_ascii_lower (c : Z) : bool := (97 <=? c) && (c <=? 122).
Definition is_ascii_alphanumeric (c : Z) : bool :=
  is_ascii_digit c || is_ascii_upper c || is_ascii_lower c.

Definition ascii_lower_char (c : Z) : Z := if is_ascii_upper c then c + 32 else c.
Definition ascii_upper_char (c : Z) : Z := if is_ascii_lower c then c - 32 else c.
Definition to_ascii_lowercase (s : text) : text := ascii_lower_char <$> s.
Definition to_ascii_uppercase (s : text) : text := ascii_upper_char <$> s.
Definition eq_ignore_ascii_case (a b : text) : bool :=
  bool_decide (to_ascii_lowercase a = to_ascii_lowercase b).

(** [str::is_ascii] *)
Definition is_ascii (s : text) : bool := forallb (fun c => c <? 128) s.

(** The parts of the Unicode tables the engine reaches through [str]. *)
Class Unicode := {
  to_lowercase : text -> text;
  is_alphanumeric : Z -> bool
}.

#[export] Instance ascii_unicode : Unicode := {|
  to_lowercase := to_ascii_lowercase;
  is_alphanumeric := is_ascii_alphanumeric
|}.

(** ** Lengths *)

Definition utf8_char_len (c : Z) : nat :=
  if c <? 0x80 then 1 else if c <? 0x800 then 2 else if c <? 0x10000 then 3 else 4.

(** [str::len]: bytes, not characters. *)
Definition utf8_len (s : text) : nat := list_sum (utf8_char_len <$> s).

Definition is_empty (s : text) : bool := match s with [] => true | _ => false end.

(** ** Trimming *)

Fixpoint trim_start_matches (p : Z -> bool) (s : text) : text :=
  match s with
  | c :: r => if p c then trim_start_matches p r else s
  | [] => []
  end.

Definition trim_end_matches (p : Z -> bool) (s : text) : text :=
  rev (trim_start_matches p (rev s)).

Definition trim_matches (p : Z -> bool) (s : text) : text :=
  trim_end_matches p (trim_start_matches p s).

Definition trim_start : text -> text := trim_start_matches is_whitespace.
Definition trim_end : text -> text := trim_end_matches is_whitespace.
Definition trim (s : text) : text := trim_end (trim_start s).

(** ** Searching *)

Fixpoint starts_with (p s : text) : bool :=
  match p, s with
  | [], _ => true
  | _, [] => false
  | a :: p', b :: s' => (a =? b) && starts_with p' s'
  end.

Definition ends_with (p s : text) : bool := starts_with (rev p) (rev s).

(** [s.find(p)], as a character index. *)
Fixpoint find (p s : text) : option nat :=
  if starts_with p s then Some 0%nat
  else match s with
       | [] => None
       | _ :: s' => S <$> find p s'
       end.

Definition contains (p s : text) : bool := bool_decide (is_Some (find p s)).

(** [s.contains(c)] for a character, [s.contains(|c| …)] for a predicate. *)
Definition contains_char (c : Z) (s : text) : bool := existsb (Z.eqb c) s.

(** [s.find(c)] and [s.rfind(c)] for a character. *)
Fixpoint find_char (c : Z) (s : text) : option nat :=
  match s with
  | [] => None
  | a :: s' => if a =? c then Some 0%nat else S <$> find_char c s'
  end.

Fixpoint rfind_char (c : Z) (s : text) : option nat :=
  match s with
  | [] => None
  | a :: s' =>
      match rfind_char c s' with
      | Some i => Some (S i)
      | None => if a =? c then Some 0%nat else None
      end
  end.

Definition strip_prefix (p s : text) : option text :=
  if starts_with p s then Some (drop (length p) s) else None.

Definition strip_suffix (p s : text) : option text :=
  if ends_with p s then Some (take (length s - length p) s) else None.

(** ** Splitting and joining *)

(** [s.split(p)] for a character predicate: never empty. *)
Fixpoint split_on (p : Z -> bool) (s : text) : list text :=
  match s with
  | [] => [[]]
  | c :: s' =>
      if p c then [] :: split_on p s'
      else match split_on p s' with
           | w :: ws => (c :: w) :: ws
           | [] => [[c]]
           end
  end.

Definition split_char (c : Z) : text -> list text := split_on (Z.eqb c).

(** [s.split_once(c)] and [s.rsplit_once(c)] *)
Definition split_once (c : Z) (s : text) : option (text * text) :=
  i ← find_char c s; Some (take i s, drop (S i) s).

Definition rsplit_once (c : Z) (s : text) : option (text * text) :=
  i ← rfind_char c s; Some (take i s, drop (S i) s).

(** [s.split_whitespace()] *)
Definition split_whitespace (s : text) : list text :=
  base.filter (fun w => w <> []) (split_on is_whitespace s).

(** [parts.join(sep)] *)
Fixpoint join (sep : text) (parts : list text) : text :=
  match parts with
  | [] => []
  | [w] => w
  | w :: ws => w ++ sep ++ join sep ws
  end.

(** [s.replace(c, with)] for a character. *)
Definition replace_char (c : Z) (w s : text) : text :=
  mbind (fun a => if a =? c then w else [a]) s.

(** [s.lines()]: split at newlines, a final newline adds no line, and a
    carriage return before the newline is not part of the line. *)
Definition strip_cr (s : text) : text := unwrap_or s (strip_suffix [13] s).
Definition lines (s : text) : list text :=
  let ls := split_char 10 s in
  let closed := strip_cr <$> removelast ls in
  match last ls with
  | Some [] | None => closed
  | Some w => closed ++ [w]
  end.

(** ** Numbers *)

(** [format!("{n}")] *)
Definition show_Z (n : Z) : text := lit (pretty n).
Definition show_nat (n : nat) : text := lit (pretty n).

Fixpoint digits_value (acc : Z) (s : text) : option Z :=
  match s with
  | [] => Some acc
  | c :: s' => if is_ascii_digit c then digits_value (10 * acc + (c - 48)) s' else None
  end.

Definition parse_digits (s : text) : option Z :=
  match s with [] => None | _ => digits_value 0 s end.

(** [s.parse::<uN>()]: an optional [+], at least one digit, at most [max]. *)
Definition parse_unsigned (max : Z) (s : text) : option Z :=
  let body := match s with 43 :: r => r | _ => s end in
  n ← parse_digits body; if n <=? max then Some n else None.

(** [s.parse::<iN>()] for the range [min..=max]. *)
Definition parse_signed (min max : Z) (s : text) : option Z :=
  n ← match s with
      | 45 :: r => Z.opp <$> parse_digits r
      | 43 :: r => parse_digits r
      | _ => parse_digits s
      end;
  if (min <=? n) && (n <=? max) then Some n else None.

(** ** Facts *)

Lemma starts_with_spec p s : starts_with p s = true <-> exists r, s = p ++ r.
Proof.
  revert s. induction p as [|a p IH]; intros s; cbn.
  - split; eauto.
  - destruct s as [|b s]; [split; [done|by intros []]|].
    rewrite andb_true_iff, Z.eqb_eq, IH. split.
    + intros [-> [r ->]]. by exists r.
    + intros [r [= -> ->]]. eauto.
Qed.

Lemma ends_with_spec p s : ends_with p s = true <-> exists r, s = r ++ p.
Proof.
  unfold ends_with. rewrite starts_with_spec. split.
  - intros [r Hr]. exists (rev r). rewrite <- (rev_involutive s), Hr, rev_app_distr.
    by rewrite rev_involutive.
  - intros [r ->]. exists (rev r). apply rev_app_distr.
Qed.

(** [find] answers the first place the pattern occurs. *)
Lemma find_Some p s i :
  find p s = Some i ->
  exists r, drop i s = p ++ r /\ (i <= length s)%nat /\
  forall j, (j < i)%nat -> starts_with p (drop j s) = false.
Proof.
  revert i. induction s as [|c s IH]; intros i; cbn.
  - destruct (starts_with p []) eqn:E; [|done]. intros [= <-].
    apply starts_with_spec in E as [r ->]. exists r. split; [done|]. split; [lia|].
    intros j Hj. lia.
  - destruct (starts_with p (c :: s)) eqn:E.
    + intros [= <-]. pose proof E as [r Hr]%starts_with_spec. exists r.
      split; [done|]. split; [lia|]. intros j Hj. lia.
    + intros (k & Hk & ->)%fmap_Some. destruct (IH k Hk) as (r & Hr & Hl & Hmin).
      exists r. split; [done|]. split; [lia|].
      intros [|j] Hj; [done|]. apply Hmin. lia.
Qed.

Lemma find_None p s :
  find p s = None <-> forall j, starts_with p (drop j s) = false.
Proof.
  induction s as [|c s IH]; cbn.
  - destruct (starts_with p []) eqn:E; split; try done.
    + intros H. specialize (H 0%nat). cbn in H. congruence.
    + intros _ j. by rewrite drop_nil.
  - destruct (starts_with p (c :: s)) eqn:E.
    + split; [done|]. intros H. specialize (H 0%nat). cbn in H. congruence.
    + rewrite fmap_None, IH. split; [intros H [|j]; [done|apply H]|].
      intros H j. apply (H (S j)).
Qed.

Lemma contains_spec p s : contains p s = true <-> exists a b, s = a ++ p ++ b.
Proof.
  unfold contains. rewrite bool_decide_eq_true. split.
  - intros [i Hi]. apply find_Some in Hi as (r & Hr & _ & _).
    exists (take i s), r. by rewrite <- Hr, take_drop.
  - intros (a & b & ->). destruct (find p (a ++ p ++ b)) eqn:E; [by eexists|].
    apply find_None with (j := length a) in E.
    rewrite drop_app_length in E.
    assert (starts_with p (p ++ b) = true) as Hs by (apply starts_with_spec; eauto).
    congruence.
Qed.

Lemma contains_char_spec c s : contains_char c s = true <-> c ∈ s.
Proof.
  unfold contains_char. rewrite existsb_exists. setoid_rewrite Z.eqb_eq.
  setoid_rewrite <- list_elem_of_In. naive_solver.
Qed.

Lemma find_char_Some c s i :
  find_char c s = Some i <-> s !! i = Some c /\ c ∉ take i s.
Proof.
  revert i. induction s as [|a s IH]; intros i; cbn [find_char]; [split; [done|by intros []]|].
  destruct (Z.eqb_spec a c) as [->|Hne].
  - split; [intros [= <-]; split; [done|apply not_elem_of_nil]|].
    destruct i as [|i]; [done|]. cbn. intros [_ Hn]. destruct Hn. by left.
  - rewrite fmap_Some. split.
    + intros (k & Hk & ->). apply IH in Hk as [Hk Hn]. split; [done|].
      cbn. rewrite not_elem_of_cons. split; [congruence|done].
    + intros [Hi Hn]. destruct i as [|i]; [cbn in Hi; congruence|].
      exists i. split; [|done]. apply IH. split; [done|].
      cbn in Hn. by rewrite not_elem_of_cons in Hn; destruct Hn.
Qed.

Lemma find_char_None c s : find_char c s = None <-> c ∉ s.
Proof.
  induction s as [|a s IH]; cbn; [split; [intros _; apply not_elem_of_nil|done]|].
  destruct (Z.eqb_spec a c) as [->|Hne].
  - split; [done|]. intros []. by left.
  - rewrite fmap_None, IH, not_elem_of_cons. naive_solver.
Qed.

Lemma trim_start_matches_nil p s : trim_start_matches p s = [] <-> Forall (fun c => p c = true) s.
Proof.
  induction s as [|c s IH]; cbn; [split; [constructor|done]|].
  destruct (p c) eqn:E; rewrite Forall_cons; [naive_solver|].
  split; [done|]. intros [? _]. congruence.
Qed.

Lemma trim_start_matches_suffix p s : exists a, s = a ++ trim_start_matches p s /\ Forall (fun c => p c = true) a.
Proof.
  induction s as [|c s (a & Ha & Hf)]; cbn; [by exists []|].
  destruct (p c) eqn:E; [exists (c :: a)|by exists []].
  split; [by rewrite Ha at 1|by constructor].
Qed.

Lemma trim_start_matches_idem p s :
  trim_start_matches p (trim_start_matches p s) = trim_start_matches p s.
Proof.
  induction s as [|c s IH]; cbn; [done|].
  destruct (p c) eqn:E; [done|]. cbn. by rewrite E.
Qed.

Lemma trim_nil s : trim s = [] <-> Forall (fun c => is_whitespace c = true) s.
Proof.
  unfold trim, trim_end, trim_end_matches, trim_start. split.
  - intros H. assert (trim_start_matches is_whitespace (rev (trim_start_matches is_whitespace s)) = []) as H'.
    { apply (f_equal (@rev Z)) in H. by rewrite rev_involutive in H. }
    apply trim_start_matches_nil, Forall_rev in H'. rewrite rev_involutive in H'.
    destruct (trim_start_matches_suffix is_whitespace s) as (a & -> & Ha).
    by apply Forall_app.
  - intros H. apply trim_start_matches_nil in H. rewrite H. done.
Qed.

Lemma trim_start_matches_id p s : Forall (fun c => p c = false) s -> trim_start_matches p s = s.
Proof. destruct 1 as [|c s Hc _]; cbn; [done|]. by rewrite Hc. Qed.

(** The order of strings. *)
Fixpoint text_le (a b : text) : bool :=
  match a, b with
  | [], _ => true
  | _ :: _, [] => false
  | x :: a', y :: b' => (x <? y) || ((x =? y) && text_le a' b')
  end.

Lemma text_le_refl a : text_le a a = true.
Proof. induction a as [|x a IH]; cbn; [done|]. by rewrite Z.eqb_refl, IH, orb_true_r. Qed.

Lemma text_le_total a b : text_le a b = true \/ text_le b a = true.
Proof.
  revert b. induction a as [|x a IH]; intros [|y b]; cbn; try tauto.
  destruct (Z.lt_trichotomy x y) as [H|[->|H]].
  - left. by rewrite (proj2 (Z.ltb_lt _ _) H).
  - rewrite Z.eqb_refl. cbn. rewrite !orb_true_iff. destruct (IH b); tauto.
  - right. by rewrite (proj2 (Z.ltb_lt _ _) H).
Qed.

Lemma text_le_cons x y a b :
  text_le (x :: a) (y :: b) = true <-> x < y \/ (x = y /\ text_le a b = true).
Proof. cbn. by bools. Qed.

Lemma text_le_trans a b c : text_le a b = true -> text_le b c = true -> text_le a c = true.
Proof.
  revert b c. induction a as [|x a IH]; intros [|y b] [|z c]; try done.
  rewrite !text_le_cons. intros [?|[-> ?]] [?|[-> ?]]; [left; lia|by left|by left|right].
  split; [done|]. by eapply IH.
Qed.

Lemma text_le_antisym a b : text_le a b = true -> text_le b a = true -> a = b.
Proof.
  revert b. induction a as [|x a IH]; intros [|y b]; try done.
  rewrite !text_le_cons. intros [?|[-> ?]] [?|[? ?]]; try lia. f_equal. by apply IH.
Qed.

(** [{b:02x}] *)
Definition hex_digit (d : Z) : Z := if d <? 10 then 48 + d else 87 + d.
Definition hex_byte (b : Z) : text := [hex_digit (b / 16); hex_digit (b mod 16)].

(** ** Literals and numbers are told apart *)

Lemma lit_inj s t : lit s = lit t -> s = t.
Proof.
  unfold lit. intros H. assert (Inj (=) (=) (fun a => Z.of_N (N_of_ascii a))) as Hi.
  { intros a b Hab. apply (f_equal Z.to_N) in Hab. rewrite !N2Z.id in Hab.
    by rewrite <- (ascii_N_embedding a), <- (ascii_N_embedding b), Hab. }
  apply (inj (fmap _)) in H. rewrite <- (String.string_of_list_ascii_of_string s), H.
  apply String.string_of_list_ascii_of_string.
Qed.

Lemma show_nat_inj n m : show_nat n = show_nat m -> n = m.
Proof. intros H%lit_inj. by apply (inj pretty). Qed.

(** ** Putting together and taking apart *)

Lemma find_char_app c a b : c ∉ a -> find_char c (a ++ c :: b) = Some (length a).
Proof.
  intros Ha. apply find_char_Some. rewrite list_lookup_middle by done. split; [done|].
  by rewrite take_app_length.
Qed.

Lemma split_once_app c a b : c ∉ a -> split_once c (a ++ c :: b) = Some (a, b).
Proof.
  intros Ha. unfold split_once. rewrite find_char_app by done. cbn. rewrite take_app_length.
  replace (S (length a)) with (length (a ++ [c])) by (rewrite length_app; cbn; lia).
  replace (a ++ c :: b) with ((a ++ [c]) ++ b) by by rewrite <- app_assoc. by rewrite drop_app_length.
Qed.

Lemma split_char_app c w s : c ∉ w -> split_char c (w ++ c :: s) = w :: split_char c s.
Proof.
  unfold split_char. induction w as [|x w IH]; intros Hw; cbn; [by rewrite Z.eqb_refl|].
  apply not_elem_of_cons in Hw as [Hx Hw]. destruct (Z.eqb_spec c x); [done|]. by rewrite IH.
Qed.

Lemma split_char_none c w : c ∉ w -> split_char c w = [w].
Proof.
  unfold split_char. induction w as [|x w IH]; intros Hw; cbn; [done|].
  apply not_elem_of_cons in Hw as [Hx Hw]. destruct (Z.eqb_spec c x); [done|]. by rewrite IH.
Qed.

Lemma split_char_join c parts :
  parts <> [] -> Forall (fun w => c ∉ w) parts -> split_char c (join [c] parts) = parts.
Proof.
  intros Hne Hall. induction Hall as [|w ws Hw Hws IH]; [done|]. destruct ws as [|v ws].
  - by apply split_char_none.
  - change (join [c] (w :: v :: ws)) with (w ++ c :: join [c] (v :: ws)).
    rewrite split_char_app by done. by rewrite IH.
Qed.

Lemma trim_id s : Forall (fun c => is_whitespace c = false) s -> trim s = s.
Proof.
  intros Hs. unfold trim, trim_start, trim_end, trim_end_matches.
  rewrite (trim_start_matches_id _ s) by done. rewrite trim_start_matches_id by by apply Forall_rev.
  apply rev_involutive.
Qed.

(** ** Numbers are read back *)

Lemma lit_cons a s : lit (String.String a s) = Z.of_N (N_of_ascii a) :: lit s.
Proof. done. Qed.

Lemma digit_char n : (n < 10)%N -> Z.of_N (N_of_ascii (pretty_N_char n)) = 48 + Z.of_N n.
Proof.
  intros Hn. unfold pretty_N_char.
  destruct (decide (n < 5)%N).
  - assert (n = 0 \/ n = 1 \/ n = 2 \/ n = 3 \/ n = 4)%N as Hlow by lia.
    by repeat destruct Hlow as [->|Hlow]; [..|subst].
  - assert (n = 9 \/ n = 8 \/ n = 7 \/ n = 6 \/ n = 5)%N as Hhigh by lia.
    by repeat destruct Hhigh as [->|Hhigh]; [..|subst].
Qed.

Lemma pretty_digits n : forall s,
  exists ds, lit (pretty_N_go n s) = ds ++ lit s /\ Forall (fun c => is_ascii_digit c = true) ds /\
    ((0 < n)%N -> ds <> []) /\
    forall acc, exists k, digits_value acc (ds ++ lit s) = digits_value (acc * k + Z.of_N n) (lit s) /\
                         (acc = 0 -> acc * k = 0).
Proof.
  induction n as [n IH] using (well_founded_induction N.lt_wf_0). intros s.
  destruct (decide (0 < n)%N) as [Hn|Hn].
  2: { assert (n = 0%N) as -> by lia. rewrite pretty_N_go_0. exists []. split; [done|]. split; [done|].
       split; [lia|]. intros acc. exists 1. cbn. split; [f_equal; lia|lia]. }
  rewrite pretty_N_go_step by done.
  destruct (IH (n `div` 10)%N ltac:(by apply N.div_lt) (String.String (pretty_N_char (n `mod` 10)) s))
    as (ds & Hds & Hall & _ & Hval).
  assert (n `mod` 10 < 10)%N as Hmod by by apply N.mod_lt.
  rewrite lit_cons, digit_char in Hds, Hval by done.
  assert (is_ascii_digit (48 + Z.of_N (n `mod` 10)) = true) as Hdig.
  { clear -Hmod. revert Hmod. generalize (n `mod` 10)%N. intros d Hd.
    unfold is_ascii_digit. bools. lia. }
  exists (ds ++ [48 + Z.of_N (n `mod` 10)]). rewrite <- app_assoc. split; [exact Hds|].
  split; [apply Forall_app; split; [done|by repeat constructor]|]. split; [by destruct ds|].
  intros acc. destruct (Hval acc) as (k & Hk & Hz). exists (10 * k). split; [|intros ->; lia].
  cbn [app]. rewrite Hk. cbn [digits_value]. rewrite Hdig. f_equal. pose proof (N.div_mod n 10 ltac:(lia)) as Hdm.
  apply (f_equal Z.of_N) in Hdm. rewrite N2Z.inj_add, N2Z.inj_mul in Hdm. lia.
Qed.

Lemma show_Z_digits n : 0 <= n ->
  Forall (fun c => is_ascii_digit c = true) (show_Z n) /\ parse_digits (show_Z n) = Some n.
Proof.
  intros Hn. destruct n as [|p|p]; [split; [by repeat constructor|done]| |lia].
  unfold show_Z. change (pretty (Z.pos p)) with (pretty_N_go (N.pos p) "").
  destruct (pretty_digits (N.pos p) "") as (ds & -> & Hall & Hne & Hval).
  change (lit "") with (@nil Z) in *. rewrite app_nil_r in *. split; [done|].
  destruct (Hval 0) as (k & Hk & _). rewrite Z.mul_0_l in Hk. unfold parse_digits.
  destruct ds; [by destruct Hne|]. exact Hk.
Qed.

Lemma parse_unsigned_show max n : 0 <= n <= max -> parse_unsigned max (show_Z n) = Some n.
Proof.
  intros Hn. destruct (show_Z_digits n) as [Hall Hp]; [lia|]. unfold parse_unsigned.
  assert (match show_Z n with 43 :: r => r | _ => show_Z n end = show_Z n) as ->.
  { destruct Hall as [|c s Hc _]; [done|]. destruct (decide (c = 43)) as [->|Hne]; [done|].
    by repeat (destruct c as [|c|c]; try done). }
  rewrite Hp. cbn. by rewrite (proj2 (Z.leb_le n max)) by lia.
Qed.

Lemma show_Z_neg p : show_Z (Z.neg p) = 45 :: show_Z (Z.pos p).
Proof. done. Qed.

Lemma parse_signed_show min max n : min <= n <= max -> parse_signed min max (show_Z n) = Some n.
Proof.
  intros Hn. unfold parse_signed.
  enough (match show_Z n with 45 :: r => Z.opp <$> parse_digits r | 43 :: r => parse_digits r | _ => parse_digits (show_Z n) end = Some n) as ->.
  { cbn. by rewrite (proj2 (Z.leb_le _ _)), (proj2 (Z.leb_le _ _)) by lia. }
  destruct n as [|p|p]; [done| |].
  - destruct (show_Z_digits (Z.pos p)) as [Hall Hp]; [lia|]. revert Hall Hp. generalize (show_Z (Z.pos p)). intros s Hall Hp.
    destruct Hall as [|c s Hc _]; [done|]. destruct (decide (c = 45)) as [->|Hne]; [done|].
    destruct (decide (c = 43)) as [->|Hne']; [done|]. by repeat (destruct c as [|c|c]; try done).
  - destruct (show_Z_digits (Z.pos p)) as [_ Hp]; [lia|]. rewrite show_Z_neg, Hp. done.
Qed.

(** The text of a number has digits and a sign. *)
Lemma show_Z_chars c n : c <> 45 -> is_ascii_digit c = false -> c ∉ show_Z n.
Proof.
  intros Hm Hc. assert (forall m, 0 <= m -> c ∉ show_Z m) as Hpos.
  { intros m H0 Hin. destruct (show_Z_digits m H0) as [Hd _]. rewrite Forall_forall in Hd. by rewrite (Hd c Hin) in Hc. }
  destruct n as [|p|p]; [by apply Hpos|by apply Hpos|]. rewrite show_Z_neg, elem_of_cons. intros [|Hin]; [done|].
  by apply (Hpos (Z.pos p)).
Qed.

Lemma strip_prefix_app p s : strip_prefix p (p ++ s) = Some s.
Proof.
  unfold strip_prefix. replace (starts_with p (p ++ s)) with true; [by rewrite drop_app_length|].
  symmetry. apply starts_with_spec. eauto.
Qed.

Lemma rfind_char_none c s : c ∉ s -> rfind_char c s = None.
Proof.
  induction s as [|a s IH]; cbn; [done|]. rewrite not_elem_of_cons. intros [Hne Hs]. rewrite IH by done.
  destruct (a =? c) eqn:E; [|done]. bools in E. congruence.
Qed.

Lemma rsplit_once_app c a b : c ∉ b -> rsplit_once c (a ++ c :: b) = Some (a, b).
Proof.
  intros Hb. unfold rsplit_once. assert (rfind_char c (a ++ c :: b) = Some (length a)) as ->.
  { induction a as [|x a IH]; cbn; [by rewrite rfind_char_none, Z.eqb_refl|]. by rewrite IH. }
  cbn [mbind option_bind]. rewrite take_app_length, (cons_middle c a b), app_assoc.
  replace (S (length a)) with (length (a ++ [c])) by (rewrite length_app; cbn; lia). by rewrite drop_app_length.
Qed.

(** ** Trimming around characters that stay *)

Lemma trim_blanks_app ws s : Forall (fun c => is_whitespace c = true) ws -> trim_start (ws ++ s) = trim_start s.
Proof. induction 1 as [|c ws Hc _ IH]; cbn; [done|]. unfold trim_start in *. cbn. by rewrite Hc. Qed.

Lemma trim_start_matches_stop p a c b : p c = false ->
  trim_start_matches p (a ++ c :: b) = trim_start_matches p a ++ c :: b.
Proof. intros Hc. induction a as [|x a IH]; cbn; [by rewrite Hc|]. by destruct (p x). Qed.

Lemma trim_end_stop a c b : is_whitespace c = false -> trim_end (a ++ c :: b) = a ++ c :: trim_end b.
Proof.
  intros Hc. unfold trim_end, trim_end_matches. rewrite rev_app_distr. cbn [rev]. rewrite <- app_assoc. cbn [app].
  rewrite trim_start_matches_stop, rev_app_distr by done. cbn [rev]. by rewrite rev_involutive, <- app_assoc.
Qed.

Lemma trim_end_idem s : trim_end (trim_end s) = trim_end s.
Proof. unfold trim_end, trim_end_matches. by rewrite rev_involutive, trim_start_matches_idem. Qed.

Lemma trim_end_blank s : Forall (fun c => is_whitespace c = true) s -> trim_end s = [].
Proof.
  intros Hs. unfold trim_end, trim_end_matches. apply Forall_rev, trim_start_matches_nil in Hs. by rewrite Hs.
Qed.

(** A text is blank, or blanks in front of a character that stays. *)
Lemma blank_or s : Forall (fun c => is_whitespace c = true) s \/
  exists ws c b, s = ws ++ c :: b /\ Forall (fun c => is_whitespace c = true) ws /\ is_whitespace c = false.
Proof.
  induction s as [|c s IH]; [by left|]. destruct (is_whitespace c) eqn:E.
  - destruct IH as [IH|(ws & d & b & -> & Hws & Hd)]; [left; by constructor|right].
    exists (c :: ws), d, b. split_and!; [done|by constructor|done].
  - right. by exists [], c, s.
Qed.

Lemma trim_start_stop c b : is_whitespace c = false -> trim_start (c :: b) = c :: b.
Proof. intros Hc. unfold trim_start. cbn. by rewrite Hc. Qed.

Lemma trim_start_blank s : Forall (fun c => is_whitespace c = true) s -> trim_start s = [].
Proof. apply trim_start_matches_nil. Qed.

Lemma trim_start_idem s : trim_start (trim_start s) = trim_start s.
Proof. apply trim_start_matches_idem. Qed.

Lemma trim_start_end s : trim_start (trim_end s) = trim s.
Proof.
  unfold trim. destruct (blank_or s) as [Hb|(ws & c & b & -> & Hws & Hc)].
  - by rewrite (trim_end_blank s), (trim_start_blank s).
  - rewrite trim_end_stop, !trim_blanks_app, !trim_start_stop by done. symmetry. by apply (trim_end_stop [] c b).
Qed.

Lemma trim_of_start s : trim (trim_start s) = trim s.
Proof. unfold trim. by rewrite trim_start_idem. Qed.
Lemma trim_of_end s : trim (trim_end s) = trim s.
Proof. rewrite <- !trim_start_end. by rewrite trim_end_idem. Qed.
Lemma trim_idem s : trim (trim s) = trim s.
Proof. unfold trim at 2. by rewrite trim_of_end, trim_of_start. Qed.
Lemma trim_start_trim s : trim_start (trim s) = trim s.
Proof. rewrite <- trim_start_end. by rewrite trim_start_idem. Qed.
Lemma trim_app_start ws s : Forall (fun c => is_whitespace c = true) ws -> trim (ws ++ s) = trim s.
Proof. intros Hws. unfold trim. by rewrite trim_blanks_app. Qed.

Lemma trim_start_length s : (length (trim_start s) <= length s)%nat.
Proof. unfold trim_start. induction s as [|c s IH]; cbn; [done|]. destruct (is_whitespace c); cbn; lia. Qed.
Lemma trim_end_length s : (length (trim_end s) <= length s)%nat.
Proof. unfold trim_end, trim_end_matches. rewrite length_rev, <- (length_rev s). apply trim_start_length. Qed.
Lemma trim_length s : (length (trim s) <= length s)%nat.
Proof. unfold trim. pose proof (trim_end_length (trim_start s)). pose proof (trim_start_length s). lia. Qed.

Lemma replace_char_absent c w s : c ∉ s -> replace_char c w s = s.
Proof.
  induction s as [|a s IH]; [done|]. rewrite not_elem_of_cons. intros [Ha Hs]. unfold replace_char in *.
  rewrite bind_cons, IH by done. by destruct (Z.eqb_spec a c).
Qed.
