(* ===== verification/Utf7.v ===== *)
(** * Folder names on the wire

    Models [meron-core/src/utf7.rs]: modified UTF-7 (RFC 3501, 5.1.3), in
    which a mailbox name that is not ASCII goes to a server.  UTF-16 is
    Rust's; base64 over bytes is the class [Base64Bytes]. *)
From S2P Require Import Prelude.
From S2P Require Import Text.

(** [STANDARD_NO_PAD] *)
Class Base64Bytes := { enc64 : list Z -> text; dec64 : text -> option (list Z) }.

Definition is_byte (b : Z) : Prop := (0 <= b < 256)%Z.

Class Base64BytesLaws (B : Base64Bytes) := {
  dec64_enc64 bs : Forall is_byte bs -> dec64 (enc64 bs) = Some bs;
  enc64_alphabet bs : Forall (fun c => is_ascii_alphanumeric c || (c =? 43)%Z || (c =? 47)%Z = true) (enc64 bs);
  enc64_nonempty bs : bs <> [] -> enc64 bs <> [];
}.

Module Utf7.
#[local] Open Scope Z_scope.

(** ** UTF-16 *)

Definition encode_utf16 (c : Z) : list Z :=
  if c <? 0x10000 then [c]
  else let d := c - 0x10000 in [0xD800 + d / 0x400; 0xDC00 + d mod 0x400].

(** [String::from_utf16] *)
Fixpoint from_utf16 (units : list Z) : option text :=
  match units with
  | [] => Some []
  | u :: rest =>
      if (0xD800 <=? u) && (u <=? 0xDBFF) then
        match rest with
        | v :: rest' =>
            if (0xDC00 <=? v) && (v <=? 0xDFFF) then
              s ← from_utf16 rest'; Some (0x10000 + (u - 0xD800) * 0x400 + (v - 0xDC00) :: s)
            else None
        | [] => None
        end
      else if (0xDC00 <=? u) && (u <=? 0xDFFF) then None
      else s ← from_utf16 rest; Some (u :: s)
  end.

Definition to_be_bytes (u : Z) : list Z := [u / 256; u mod 256].

(** [bytes.chunks_exact(2)], each as a unit; [None] for an odd number. *)
Fixpoint units_of (bytes : list Z) : option (list Z) :=
  match bytes with
  | [] => Some []
  | [_] => None
  | a :: b :: rest => us ← units_of rest; Some (a * 256 + b :: us)
  end.

(** ** Encoding *)

Section Codec.
Context {B : Base64Bytes}.

(** What [flush] appends. *)
Definition flush (pending : list Z) : text :=
  match pending with
  | [] => []
  | _ => [38] ++ replace_char 47 [44] (enc64 (pending ≫= to_be_bytes)) ++ [45]
  end.

Definition plain (c : Z) : bool := (32 <=? c) && (c <=? 126).

Fixpoint encode_from (pending : list Z) (s : text) : text :=
  match s with
  | [] => flush pending
  | c :: s' =>
      if c =? 38 then flush pending ++ lit "&-" ++ encode_from [] s'
      else if plain c then flush pending ++ c :: encode_from [] s'
      else encode_from (pending ++ encode_utf16 c) s'
  end.

Definition encode (name : text) : text :=
  if is_ascii name && negb (contains_char 38 name) then name else encode_from [] name.

(** ** Decoding *)

Definition decode_run (run : text) : option text :=
  bytes ← dec64 (replace_char 44 [47] run); units ← units_of bytes; from_utf16 units.

(** The loop of [decode]; each round takes a run off the name. *)
Fixpoint decode_from (fuel : nat) (name rest out : text) : text :=
  match fuel with
  | O => name
  | S n =>
      match split_once 38 rest with
      | None => out ++ rest
      | Some (before, after) =>
          match split_once 45 after with
          | None => name
          | Some ([], rest') => decode_from n name rest' (out ++ before ++ [38])
          | Some (run, rest') =>
              match decode_run run with
              | Some t => decode_from n name rest' (out ++ before ++ t)
              | None => name
              end
          end
      end
  end.

Definition decode (name : text) : text :=
  if contains_char 38 name then decode_from (S (length name)) name name [] else name.
End Codec.

(** ** What decodes what *)

Lemma from_utf16_plain u us : ~ (0xD800 <= u <= 0xDFFF) -> from_utf16 (u :: us) = (s ← from_utf16 us; Some (u :: s)).
Proof.
  intros Hu. cbn [from_utf16]. destruct ((0xD800 <=? u) && (u <=? 0xDBFF)) eqn:E1; [lia|].
  destruct ((0xDC00 <=? u) && (u <=? 0xDFFF)) eqn:E2; [lia|done].
Qed.

Lemma from_utf16_pair u v us : 0xD800 <= u <= 0xDBFF -> 0xDC00 <= v <= 0xDFFF ->
  from_utf16 (u :: v :: us) = (s ← from_utf16 us; Some (0x10000 + (u - 0xD800) * 0x400 + (v - 0xDC00) :: s)).
Proof.
  intros Hu Hv. cbn [from_utf16]. destruct ((0xD800 <=? u) && (u <=? 0xDBFF)) eqn:E1; [|lia].
  destruct ((0xDC00 <=? v) && (v <=? 0xDFFF)) eqn:E2; [done|lia].
Qed.

Lemma scalar_range c : is_scalar c = true -> 0 <= c < 0xD800 \/ 0xDFFF < c < 0x110000.
Proof. unfold is_scalar. lia. Qed.

Lemma from_utf16_encode p : Forall (fun c => is_scalar c = true) p -> from_utf16 (p ≫= encode_utf16) = Some p.
Proof.
  induction 1 as [|c p Hc%scalar_range Hp IH]; [done|]. rewrite bind_cons. unfold encode_utf16 at 1.
  destruct (Z.ltb_spec c 0x10000) as [Hlt|Hge]; cbn [app].
  - rewrite from_utf16_plain by lia. by rewrite IH.
  - rewrite from_utf16_pair, IH; [|Z.to_euclidean_division_equations; lia..].
    cbn. do 2 f_equal. Z.to_euclidean_division_equations; lia.
Qed.

Lemma units_of_bytes us : units_of (us ≫= to_be_bytes) = Some us.
Proof.
  induction us as [|u us IH]; [done|]. rewrite bind_cons. cbn [to_be_bytes app units_of].
  rewrite IH. cbn. do 2 f_equal. rewrite (Z.div_mod u 256) at 3 by lia. lia.
Qed.

Lemma utf16_units p : Forall (fun c => is_scalar c = true) p -> Forall (fun u => 0 <= u < 0x10000) (p ≫= encode_utf16).
Proof.
  induction 1 as [|c p Hc%scalar_range Hp IH]; [constructor|]. rewrite bind_cons. apply Forall_app. split; [|done].
  unfold encode_utf16. destruct (Z.ltb_spec c 0x10000); repeat constructor; Z.to_euclidean_division_equations; lia.
Qed.

Lemma be_bytes us : Forall (fun u => 0 <= u < 0x10000) us -> Forall is_byte (us ≫= to_be_bytes).
Proof.
  induction 1 as [|u us Hu Hus IH]; [constructor|]. rewrite bind_cons. apply Forall_app. split; [|done].
  unfold is_byte. repeat constructor; Z.to_euclidean_division_equations; lia.
Qed.

Lemma replace_char_back c d s : d ∉ s -> replace_char d [c] (replace_char c [d] s) = s.
Proof.
  induction s as [|a s IH]; [done|]. rewrite not_elem_of_cons. intros [Ha Hs]. unfold replace_char in *.
  rewrite bind_cons, bind_app, IH by done. destruct (Z.eqb_spec a c) as [->|]; cbn.
  - by rewrite Z.eqb_refl.
  - by destruct (Z.eqb_spec a d).
Qed.

(** ** The round trip *)

Section RoundTrip.
Context {B : Base64Bytes} `{!Base64BytesLaws B}.

Definition run_of (p : text) : text := replace_char 47 [44] (enc64 ((p ≫= encode_utf16) ≫= to_be_bytes)).

Lemma units_nonempty p : p <> [] -> p ≫= encode_utf16 <> [].
Proof. destruct p as [|c p]; [done|]. rewrite bind_cons. unfold encode_utf16 at 1. by destruct (c <? 0x10000). Qed.

Lemma flush_run p : p <> [] -> flush (p ≫= encode_utf16) = 38 :: run_of p ++ [45].
Proof. intros Hp%units_nonempty. unfold run_of, flush. by destruct (p ≫= encode_utf16). Qed.

(** A run is letters, digits, a plus sign or a comma. *)
Lemma run_alphabet p :
  Forall (fun c => (is_ascii_alphanumeric c || (c =? 43) || (c =? 44)) = true) (run_of p).
Proof.
  unfold run_of. generalize (enc64_alphabet ((p ≫= encode_utf16) ≫= to_be_bytes)).
  generalize (enc64 ((p ≫= encode_utf16) ≫= to_be_bytes)). intros s. unfold replace_char.
  induction 1 as [|c s Hc Hs IH]; [constructor|]. rewrite bind_cons. apply Forall_app. split; [|done].
  destruct (Z.eqb_spec c 47) as [->|Hne]; repeat constructor.
  cbv beta in Hc. rewrite orb_false_r in Hc. by rewrite Hc.
Qed.

Lemma run_without p c : (is_ascii_alphanumeric c || (c =? 43) || (c =? 44)) = false -> c ∉ run_of p.
Proof. intros Hc Hin. rewrite (proj1 (Forall_forall _ _) (run_alphabet p) c Hin) in Hc. done. Qed.

Lemma run_nonempty p : p <> [] -> run_of p <> [].
Proof.
  intros Hp. unfold run_of. assert ((p ≫= encode_utf16) ≫= to_be_bytes <> []) as Hb.
  { apply units_nonempty in Hp. destruct (p ≫= encode_utf16); [done|]. by rewrite bind_cons. }
  apply enc64_nonempty in Hb. destruct (enc64 _) as [|c s]; [done|]. unfold replace_char. rewrite bind_cons.
  by destruct (c =? 47).
Qed.

Lemma decode_run_of p : Forall (fun c => is_scalar c = true) p -> decode_run (run_of p) = Some p.
Proof.
  intros Hp. unfold decode_run, run_of. rewrite replace_char_back.
  2: { intros Hin. pose proof (proj1 (Forall_forall _ _) (enc64_alphabet _) 44 Hin). done. }
  rewrite dec64_enc64 by by apply be_bytes, utf16_units. cbn. rewrite units_of_bytes. cbn. by apply from_utf16_encode.
Qed.

Lemma decode_literal n name c x out : c <> 38 ->
  decode_from n name (c :: x) out = decode_from n name x (out ++ [c]).
Proof.
  intros Hc. destruct n as [|n]; [done|]. cbn [decode_from]. unfold split_once. cbn [find_char].
  destruct (Z.eqb_spec c 38) as [|_]; [done|]. destruct (find_char 38 x) as [i|]; cbn.
  - destruct (find_char 45 (drop (Datatypes.S i) x)) as [j|]; [|done]. cbn.
    destruct (take j _) as [|a run]; [by rewrite <- !app_assoc|].
    destruct (decode_run _); [|done]. by rewrite <- !app_assoc.
  - by rewrite <- app_assoc.
Qed.

Lemma decode_ampersand n name x out :
  decode_from (Datatypes.S n) name (lit "&-" ++ x) out = decode_from n name x (out ++ [38]).
Proof. change (lit "&-" ++ x) with (38 :: 45 :: x). done. Qed.

Lemma decode_flush n name p x out : p <> [] -> Forall (fun c => is_scalar c = true) p ->
  decode_from (Datatypes.S n) name (flush (p ≫= encode_utf16) ++ x) out = decode_from n name x (out ++ p).
Proof.
  intros Hne Hp. rewrite flush_run by done. cbn [app]. rewrite <- app_assoc. cbn [app decode_from].
  change (split_once 38 (38 :: run_of p ++ 45 :: x)) with (Some ([] : text, run_of p ++ 45 :: x)). cbv iota beta.
  rewrite (split_once_app 45) by by apply run_without.
  pose proof (run_nonempty p Hne) as Hr. pose proof (decode_run_of p Hp) as Hd.
  destruct (run_of p) as [|a run]; [done|]. rewrite Hd. done.
Qed.

(** What is pending, then the rest, comes back. *)
Lemma decode_encode_from name s : forall p n out,
  Forall (fun c => is_scalar c = true) (p ++ s) -> (length (p ++ s) < n)%nat ->
  decode_from n name (encode_from (p ≫= encode_utf16) s) out = out ++ p ++ s.
Proof.
  assert (forall p n x out, Forall (fun c => is_scalar c = true) p ->
    (length p < n)%nat -> exists n', (n - length p <= n')%nat /\
    decode_from n name (flush (p ≫= encode_utf16) ++ x) out = decode_from n' name x (out ++ p)) as Hflush.
  { intros [|c p] n x out Hp Hn.
    - exists n. rewrite app_nil_r. split; [lia|done].
    - destruct n as [|n]; [cbn in Hn; lia|]. exists n. split; [cbn; lia|]. by apply decode_flush. }
  induction s as [|c s IH]; intros p n out Hp Hn; cbn [encode_from].
  - rewrite app_nil_r in *. destruct (Hflush p n [] out Hp Hn) as (n' & Hn' & Heq).
    rewrite app_nil_r in Heq. rewrite Heq. destruct n'; [lia|]. cbn. by rewrite app_nil_r.
  - apply Forall_app in Hp as [Hp [Hc Hs]%Forall_cons]. rewrite length_app in Hn. cbn in Hn.
    destruct (Z.eqb_spec c 38) as [->|Hne]; [|destruct (plain c)].
    + destruct (Hflush p n (lit "&-" ++ encode_from [] s) out Hp) as (n' & Hn' & ->); [lia|].
      destruct n' as [|n']; [lia|]. rewrite decode_ampersand, (IH [] n') by (try done; cbn; lia).
      by rewrite <- !app_assoc.
    + destruct (Hflush p n (c :: encode_from [] s) out Hp) as (n' & Hn' & ->); [lia|].
      rewrite decode_literal, (IH [] n') by (try done; cbn; lia). by rewrite <- !app_assoc.
    + replace ((p ≫= encode_utf16) ++ encode_utf16 c) with ((p ++ [c]) ≫= encode_utf16)
        by (by rewrite bind_app; cbn; rewrite app_nil_r).
      rewrite IH; [by rewrite <- app_assoc| |].
      * rewrite <- app_assoc. apply Forall_app. split; [done|]. by constructor.
      * rewrite !length_app. cbn. lia.
Qed.

(** The loop ends: fuel beyond the text's length changes nothing. *)
Lemma decode_fuel name n : forall m x out,
  (length x < n)%nat -> (length x < m)%nat -> decode_from n name x out = decode_from m name x out.
Proof.
  induction n as [|n IH]; intros [|m] x out Hn Hm; try lia. cbn [decode_from].
  destruct (split_once 38 x) as [[before after]|] eqn:E1; [|done].
  destruct (split_once 45 after) as [[run rest]|] eqn:E2; [|done].
  assert (length rest < length x)%nat as Hlen.
  { destruct x as [|c x]; [done|]. unfold split_once in E1, E2. destruct (find_char 38 (c :: x)) as [i|]; [|done]. destruct (find_char 45 after) as [j|]; [|done].
    injection E1 as <- <-. injection E2 as _ <-. rewrite !length_drop. cbn [length]. lia. }
  destruct run; [apply IH; lia|]. destruct (decode_run _); [apply IH; lia|done].
Qed.

Lemma decode_loop name n : (length name < n)%nat -> decode name = decode_from n name name [].
Proof.
  intros Hn. unfold decode. destruct (contains_char 38 name) eqn:E.
  - apply decode_fuel; lia.
  - destruct n as [|n]; [lia|]. cbn [decode_from]. unfold split_once.
    assert (find_char 38 name = None) as ->; [|done]. apply find_char_None. intros Hin.
    apply contains_char_spec in Hin. congruence.
Qed.

Lemma encode_ascii pending s : is_ascii (encode_from pending s) = true.
Proof.
  assert (forall us, is_ascii (flush us) = true) as Hf.
  { intros [|u us]; [done|]. unfold flush, is_ascii. rewrite !forallb_app.
    assert (forallb (fun c => c <? 128) (replace_char 47 [44] (enc64 ((u :: us) ≫= to_be_bytes))) = true) as ->; [|done].
    generalize (enc64_alphabet ((u :: us) ≫= to_be_bytes)). generalize (enc64 ((u :: us) ≫= to_be_bytes)).
    unfold replace_char. induction 1 as [|c l Hc Hl IH]; [done|]. rewrite bind_cons, forallb_app, IH, andb_true_r.
    destruct (c =? 47); [done|]. cbn. unfold is_ascii_alphanumeric, is_ascii_digit, is_ascii_upper, is_ascii_lower in Hc. lia. }
  revert pending. induction s as [|c s IH]; intros pending; cbn [encode_from]; [apply Hf|].
  destruct (c =? 38); [|destruct (plain c) eqn:Ep]; unfold is_ascii in *.
  - rewrite !forallb_app, Hf, IH. done.
  - rewrite forallb_app, Hf. cbn. rewrite IH. unfold plain in Ep. lia.
  - apply IH.
Qed.
End RoundTrip.

(** A folder's name comes back from the wire.  What [encode] makes of any
    name is ASCII, and [decode] gives the name back. *)
Theorem names_come_back {B : Base64Bytes} `{!Base64BytesLaws B} name :
  Forall (fun c => is_scalar c = true) name ->
  is_ascii (encode name) = true /\ decode (encode name) = name.
Proof.
  intros Hs. unfold encode. destruct (is_ascii name && negb (contains_char 38 name)) eqn:E.
  - apply andb_true_iff in E as [Ha Hc]. split; [done|]. unfold decode. by destruct (contains_char 38 name).
  - split; [apply encode_ascii|].
    set (x := encode_from [] name). rewrite (decode_loop x (Datatypes.S (length x + length name))) by lia.
    apply (decode_encode_from x name [] (Datatypes.S (length x + length name)) []); [done|cbn; lia].
Qed.

(** ** The base64 the code names, for concrete names *)

Module StandardNoPad.

(** Total, as the digits of a byte are always below 64. *)
Definition sextet (d : Z) : Z :=
  let d := d mod 64 in
  if d <? 26 then 65 + d else if d <? 52 then 71 + d else if d <? 62 then d - 4 else if d =? 62 then 43 else 47.

Definition value (c : Z) : option Z :=
  if is_ascii_upper c then Some (c - 65)
  else if is_ascii_lower c then Some (c - 71)
  else if is_ascii_digit c then Some (c + 4)
  else if c =? 43 then Some 62 else if c =? 47 then Some 63 else None.

Fixpoint digits (bs : list Z) : list Z :=
  match bs with
  | [] => []
  | [a] => [a / 4; a mod 4 * 16]
  | [a; b] => [a / 4; a mod 4 * 16 + b / 16; b mod 16 * 4]
  | a :: b :: c :: bs' => a / 4 :: a mod 4 * 16 + b / 16 :: b mod 16 * 4 + c / 64 :: c mod 64 :: digits bs'
  end.

Fixpoint bytes (ds : list Z) : option (list Z) :=
  match ds with
  | [] => Some []
  | [_] => None
  | [w; x] => if x mod 16 =? 0 then Some [w * 4 + x / 16] else None
  | [w; x; y] => if y mod 4 =? 0 then Some [w * 4 + x / 16; x mod 16 * 16 + y / 4] else None
  | w :: x :: y :: z :: ds' =>
      bs ← bytes ds'; Some (w * 4 + x / 16 :: x mod 16 * 16 + y / 4 :: y mod 4 * 64 + z :: bs)
  end.

Lemma value_sextet d : 0 <= d < 64 -> value (sextet d) = Some d.
Proof.
  intros Hd. unfold value, sextet. rewrite (Z.mod_small d 64) by done. unfold is_ascii_upper, is_ascii_lower, is_ascii_digit.
  repeat (case_match; try lia); try (f_equal; lia).
Qed.

#[local] Ltac heads := repeat match goal with H : Forall _ (_ :: _) |- _ => apply Forall_cons in H as [? H] end.

Lemma digits_range bs : Forall is_byte bs -> Forall (fun d => 0 <= d < 64) (digits bs).
Proof.
  remember (length bs) as n eqn:Hn. revert bs Hn. induction n as [n IH] using lt_wf_ind. intros bs -> Hb.
  destruct bs as [|a [|b [|c bs]]]; cbn [digits]; heads; unfold is_byte in *;
    try (repeat constructor; Z.to_euclidean_division_equations; lia).
  do 4 (constructor; [Z.to_euclidean_division_equations; lia|]). eapply IH; [|done|done]. cbn. lia.
Qed.

Lemma bytes_digits bs : Forall is_byte bs -> bytes (digits bs) = Some bs.
Proof.
  remember (length bs) as n eqn:Hn. revert bs Hn. induction n as [n IH] using lt_wf_ind. intros bs -> Hb.
  destruct bs as [|a [|b [|c bs]]]; cbn [digits bytes]; heads; unfold is_byte in *; [done|..].
  - rewrite (proj2 (Z.eqb_eq _ 0)) by (Z.to_euclidean_division_equations; lia).
    repeat f_equal. Z.to_euclidean_division_equations; lia.
  - rewrite (proj2 (Z.eqb_eq _ 0)) by (Z.to_euclidean_division_equations; lia).
    do 2 f_equal; [|f_equal]; Z.to_euclidean_division_equations; lia.
  - rewrite (IH (length bs)) by (done || (cbn; lia)). cbn.
    do 2 f_equal; [|do 2 f_equal]; Z.to_euclidean_division_equations; lia.
Qed.

Definition encode64 (bs : list Z) : text := sextet <$> digits bs.
Definition decode64 (s : text) : option (list Z) := ds ← mapM value s; bytes ds.

#[global] Instance standard : Base64Bytes := {| enc64 := encode64; dec64 := decode64 |}.

#[global] Instance standard_laws : Base64BytesLaws standard.
Proof.
  split.
  - intros bs Hb. cbn. unfold decode64, encode64.
    assert (mapM value (sextet <$> digits bs) = Some (digits bs)) as ->.
    { apply mapM_Some. apply Forall2_fmap_l, Forall2_same_length_lookup_2; [done|].
      intros i x y Hx Hy. assert (x = y) as -> by congruence. apply value_sextet.
      by apply (proj1 (Forall_lookup _ _) (digits_range bs Hb) i). }
    cbn. by apply bytes_digits.
  - intros bs. cbn. unfold encode64. apply Forall_fmap, Forall_true. intros d. cbn. unfold sextet.
    pose proof (Z.mod_pos_bound d 64 eq_refl) as Hd. set (e := d mod 64) in *. clearbody e.
    unfold is_ascii_alphanumeric, is_ascii_digit, is_ascii_upper, is_ascii_lower. repeat case_match; lia.
  - intros [|a [|b [|c bs]]] Hne; done.
Qed.
End StandardNoPad.

(** The names of the code's own tests. *)
Example outlook_names :
  decode (lit "gds-&AOQA5A--envoy&AOk-s") = lit "gds-" ++ [0xE4; 0xE4] ++ lit "-envoy" ++ 0xE9 :: lit "s" /\
  decode (lit "&ZeVnLIqe-") = [0x65E5; 0x672C; 0x8A9E] /\
  encode (lit "R&D") = lit "R&-D" /\ decode (lit "R&-D") = lit "R&D" /\
  decode (lit "&AOQ") = lit "&AOQ" /\ decode (lit "&####-") = lit "&####-".
Proof. vm_compute. done. Qed.

(** A name with accents, an ampersand and a character beyond the basic plane. *)
Lemma names_come_back_witness :
  let name := 0xC9 :: lit "t" ++ 0xE9 :: lit " a&b " ++ [0x1F4EE] in
  encode name = lit "&AMk-t&AOk- a&-b &2D3c7g-" /\ decode (encode name) = name.
Proof.
  split; [by vm_compute|]. apply (names_come_back (B := StandardNoPad.standard)).
  apply (bool_decide_unpack _). vm_compute. exact I.
Defined.
End Utf7.
