(* ===== verification/Registry.v ===== *)
(** * Single-use reviews

  [sweep_review.rs] and [rules/run.rs] keep what a preview showed in the
  same kind of registry: a map from a review's id to the review, bounded in
  size and in time, from which a review is taken once.  This file holds the
  part they share: dropping what expired, making room by dropping the
  oldest, and the history of such a registry under any sequence of
  operations.  The components instantiate [Review] and prove that their
  [issue] and [take] are these operations. *)
From S2P Require Import Prelude Text.
#[local] Open Scope Z_scope.

(** What the registry needs to know of a review. *)
Class Review (R : Type) := {
review_id : R -> text;
review_account : R -> text;
review_issued_at : R -> Z
}.

Section Registry.
Context {R : Type} `{Review R, !HashOrder text R}.
Context (ttl : Z) (max_pending : nat).

(** [now - review.issued_at < REVIEW_TTL_SECONDS] *)
Definition unexpired (now : Z) (r : R) : bool := now - review_issued_at r <? ttl.

(** [pending.retain(|_, review| now - review.issued_at < TTL)] *)
Definition retain_fresh (now : Z) (m : gmap text R) : gmap text R :=
  filter (fun kr => unexpired now kr.2 = true) m.

(** [pending.values().min_by_key(|r| r.issued_at).map(|r| r.id.clone())] *)
Definition oldest (m : gmap text R) : option text :=
  review_id <$> min_by_key review_issued_at ((iter m).*2).

(** The [while pending.len() >= MAX_PENDING] loop. *)
Fixpoint make_room (fuel : nat) (m : gmap text R) : gmap text R :=
  match fuel with
  | O => m
  | S n =>
      if (max_pending <=? size m)%nat then
        match oldest m with
        | Some id => make_room n (delete id m)
        | None => m
        end
      else m
  end.

(** Recording a review: expired ones go, then the oldest while full. *)
Definition record (now : Z) (r : R) (m : gmap text R) : gmap text R :=
  let m := retain_fresh now m in
  <[review_id r := r]> (make_room (size m) m).

Inductive refusal := Missing | Expired | OtherAccount.

(** Taking a review out: an expired one is forgotten, another account's is
    left in place. *)
Definition claim (id account : text) (now : Z) (m : gmap text R)
    : gmap text R * result refusal R :=
  match m !! id with
  | None => (m, Err Missing)
  | Some r =>
      if negb (unexpired now r) then (delete id m, Err Expired)
      else if bool_decide (review_account r = account) then (delete id m, Ok r)
      else (m, Err OtherAccount)
  end.

(** Every review is kept under its own id. *)
Definition keyed (m : gmap text R) : Prop :=
  map_Forall (fun id r => review_id r = id) m.

Lemma retain_fresh_lookup now m id r :
  retain_fresh now m !! id = Some r <-> m !! id = Some r /\ unexpired now r = true.
Proof. apply map_lookup_filter_Some. Qed.

Lemma retain_fresh_keyed now m : keyed m -> keyed (retain_fresh now m).
Proof. intros Hk id r [Hr _]%retain_fresh_lookup. by apply Hk. Qed.

Lemma oldest_spec m id :
  keyed m -> oldest m = Some id ->
  exists r, m !! id = Some r /\
    forall id' r', m !! id' = Some r' -> review_issued_at r <= review_issued_at r'.
Proof.
  intros Hk Ho. unfold oldest in Ho.
  apply fmap_Some in Ho as (r & Hmin & ->).
  apply min_by_key_Some in Hmin as [Hin Hall].
  apply list_elem_of_fmap in Hin as ([k r'] & -> & Hin). cbn in *.
  apply elem_of_iter in Hin. pose proof (Hk _ _ Hin) as Hkr; cbn in Hkr. subst k.
  exists r'. split; [done|]. intros k r'' Hr''.
  rewrite Forall_forall in Hall. apply (Hall r'').
  apply list_elem_of_fmap. exists (k, r''). split; [done|]. by apply elem_of_iter.
Qed.

Lemma oldest_is_some m : (0 < size m)%nat -> is_Some (oldest m).
Proof.
  intros Hs. unfold oldest.
  destruct (min_by_key _ _) as [r|] eqn:E; [by eexists|].
  apply min_by_key_None, fmap_nil_inv in E.
  pose proof (iter_perm m) as Hp. rewrite E in Hp.
  apply Permutation_nil, map_to_list_empty_iff in Hp. subst.
  rewrite map_size_empty in Hs. lia.
Qed.

Lemma make_room_subseteq fuel m : make_room fuel m ⊆ m.
Proof.
  revert m. induction fuel as [|n IH]; intros m; cbn; [done|].
  destruct (_ <=? _)%nat; [|done]. destruct (oldest m) as [id|]; [|done].
  etrans; [apply IH|]. apply delete_subseteq.
Qed.

Lemma keyed_subseteq m m' : m' ⊆ m -> keyed m -> keyed m'.
Proof. intros Hs Hk id r Hr. apply (Hk id). eapply lookup_weaken; eauto. Qed.

(** The loop ends with room for one more: each round drops one review. *)
Lemma make_room_size fuel m :
  (0 < max_pending)%nat -> keyed m -> (size m <= fuel)%nat ->
  (size (make_room fuel m) < max_pending)%nat.
Proof.
  intros Hmax. revert m. induction fuel as [|n IH]; intros m Hk Hs; cbn; [lia|].
  destruct (Nat.leb_spec max_pending (size m)) as [Hle|]; [|lia].
  destruct (oldest_is_some m) as [id Hid]; [lia|]. rewrite Hid.
  destruct (oldest_spec m id Hk Hid) as (r & Hr & _).
  apply IH.
  - eapply keyed_subseteq; [apply delete_subseteq|done].
  - rewrite map_size_delete, Hr. cbn. lia.
Qed.

(** Nothing is dropped to make room while there is some. *)
Lemma make_room_id fuel m : (size m < max_pending)%nat -> make_room fuel m = m.
Proof.
  intros Hs. destruct fuel; cbn; [done|].
  by destruct (Nat.leb_spec max_pending (size m)); [lia|].
Qed.

(** What is dropped is never newer than what stays. *)
Lemma make_room_oldest fuel m id r id' r' :
  keyed m -> m !! id = Some r -> make_room fuel m !! id = None ->
  make_room fuel m !! id' = Some r' -> review_issued_at r <= review_issued_at r'.
Proof.
  revert m. induction fuel as [|n IH]; intros m Hk Hr; cbn; [congruence|].
  destruct (_ <=? _)%nat; [|congruence].
  destruct (oldest m) as [o|] eqn:Ho; [|congruence].
  destruct (decide (o = id)) as [->|Hne].
  - intros _ Hin. destruct (oldest_spec m id Hk Ho) as (r0 & Hr0 & Hmin).
    assert (r0 = r) as -> by congruence.
    apply (Hmin id'). eapply lookup_weaken; [exact Hin|].
    etrans; [apply make_room_subseteq|apply delete_subseteq].
  - apply IH; [eapply keyed_subseteq; [apply delete_subseteq|done]|].
    by rewrite lookup_delete_ne.
Qed.

Lemma record_subseteq now r m id r' :
  record now r m !! id = Some r' ->
  r' = r /\ id = review_id r \/ m !! id = Some r' /\ unexpired now r' = true.
Proof.
  unfold record. rewrite lookup_insert. case_decide as Hd; [intros [= <-]; by left|].
  intros Hr. right. apply retain_fresh_lookup.
  eapply lookup_weaken; [exact Hr|apply make_room_subseteq].
Qed.

Lemma record_keyed now r m : keyed m -> keyed (record now r m).
Proof.
  intros Hk id r' [[-> ->]|[Hr _]]%record_subseteq; [done|]. by apply Hk.
Qed.

Lemma record_size now r m :
  (0 < max_pending)%nat -> keyed m -> (size (record now r m) <= max_pending)%nat.
Proof.
  intros Hmax Hk. unfold record.
  set (m' := retain_fresh now m).
  pose proof (make_room_size (size m') m' Hmax (retain_fresh_keyed _ _ Hk) (le_n _)).
  rewrite map_size_insert. destruct (make_room _ _ !! _); cbn; lia.
Qed.

Lemma claim_Ok id account now m m' r :
  claim id account now m = (m', Ok r) <->
  m !! id = Some r /\ unexpired now r = true /\ review_account r = account /\
  m' = delete id m.
Proof.
  unfold claim. destruct (m !! id) as [r0|];
    [|split; [done|by intros (? & _)]].
  destruct (unexpired now r0) eqn:Hf; cbn;
    [case_bool_decide as Ha|]; split;
    try done; try (intros [= <- <-]; done);
    intros ([= ->] & Hf' & Ha' & ->); congruence.
Qed.

Lemma claim_subseteq id account now m : (claim id account now m).1 ⊆ m.
Proof.
  unfold claim. destruct (m !! id) as [r|]; [|done].
  destruct (unexpired now r); cbn; [case_bool_decide|]; cbn;
    done || apply delete_subseteq.
Qed.
End Registry.

Arguments refusal : clear implicits.

(** ** Histories

  Any sequence of recordings and claims, from an empty registry: [taken]
  collects the reviews handed out. *)
Section History.
Context {R : Type} `{Review R, !HashOrder text R}.
Context (ttl : Z) (max_pending : nat).

Inductive op :=
| Issued (now : Z) (r : R)
| Taken (id account : text) (now : Z).

Definition step (m : gmap text R) (o : op) : gmap text R * list R :=
  match o with
  | Issued now r => (record ttl max_pending now r m, [])
  | Taken id account now =>
      match claim ttl id account now m with
      | (m', Ok r) => (m', [r])
      | (m', Err _) => (m', [])
      end
  end.

Fixpoint history (m : gmap text R) (ops : list op) : gmap text R * list R :=
  match ops with
  | [] => (m, [])
  | o :: ops' =>
      let (m1, out) := step m o in
      let (m2, outs) := history m1 ops' in
      (m2, out ++ outs)
  end.

(** The reviews a sequence records. *)
Definition issued (ops : list op) : list R :=
  omap (fun o => match o with Issued _ r => Some r | Taken _ _ _ => None end) ops.

Lemma step_Taken_subseteq m id account now m1 out :
  step m (Taken id account now) = (m1, out) -> m1 ⊆ m.
Proof.
  cbn. pose proof (claim_subseteq ttl id account now m) as Hs.
  destruct (claim ttl id account now m) as [m' []]; by intros [= <- <-].
Qed.

Lemma step_keyed m o : keyed m -> keyed (step m o).1.
Proof.
  intros Hk. destruct o as [now r|id account now].
  - by apply record_keyed.
  - destruct (step m (Taken id account now)) as [m1 out] eqn:E.
    eapply keyed_subseteq; [by eapply step_Taken_subseteq|done].
Qed.

Lemma step_taken m o r :
  keyed m -> r ∈ (step m o).2 ->
  m !! review_id r = Some r /\ (step m o).1 !! review_id r = None /\
  exists now, o = Taken (review_id r) (review_account r) now /\
              unexpired ttl now r = true.
Proof.
  intros Hk. destruct o as [now r0|id account now]; cbn; [by intros ?%not_elem_of_nil|].
  destruct (claim ttl id account now m) as [m' [r1|]] eqn:E; cbn;
    [|by intros ?%not_elem_of_nil].
  intros ->%list_elem_of_singleton.
  apply claim_Ok in E as (Hr & Hf & <- & ->).
  pose proof (Hk _ _ Hr) as Hid; cbn in Hid. rewrite Hid.
  rewrite lookup_delete_eq. eauto 6.
Qed.

(** Every review a history hands out was pending at the start or was
    recorded by it, and nothing is handed out twice, as long as the ids
    recorded are new ones. *)
Lemma history_taken m ops r :
  keyed m -> r ∈ (history m ops).2 ->
  (m !! review_id r = Some r \/ r ∈ issued ops) /\
  exists now, Taken (review_id r) (review_account r) now ∈ ops /\
              unexpired ttl now r = true.
Proof.
  revert m. induction ops as [|o ops IH]; intros m Hk; cbn; [by intros ?%not_elem_of_nil|].
  destruct (step m o) as [m1 out] eqn:Es.
  destruct (history m1 ops) as [m2 outs] eqn:Eh; cbn.
  pose proof (step_keyed m o Hk) as Hk1. rewrite Es in Hk1; cbn in Hk1.
  intros [Hin|Hin]%elem_of_app.
  - destruct (step_taken m o r Hk) as (Hr & _ & now & -> & Hf); [by rewrite Es|].
    split; [by left|]. exists now. split; [by left|done].
  - destruct (IH m1 Hk1) as [Hor (now & Ht & Hf)]; [by rewrite Eh|].
    split; [|exists now; split; [by right|done]].
    destruct Hor as [Hr|Hr].
    + destruct o as [now' r'|id account now']; cbn in Es.
      * injection Es as <- <-. apply record_subseteq in Hr as [[-> _]|[Hr _]].
        { right. by left. }
        { by left. }
      * left. eapply lookup_weaken; [exact Hr|]. by eapply step_Taken_subseteq.
    + right. destruct o; cbn; [by right|done].
Qed.

Lemma history_single_use m ops :
  keyed m -> NoDup (review_id <$> issued ops) ->
  (forall r, r ∈ issued ops -> m !! review_id r = None) ->
  NoDup (review_id <$> (history m ops).2).
Proof.
  revert m. induction ops as [|o ops IH]; intros m Hk Hnd Hnew; cbn; [constructor|].
  destruct (step m o) as [m1 out] eqn:Es.
  destruct (history m1 ops) as [m2 outs] eqn:Eh; cbn.
  pose proof (step_keyed m o Hk) as Hk1. rewrite Es in Hk1; cbn in Hk1.
  assert (issued ops ⊆ issued (o :: ops)) as Hsub by (destruct o; cbn; set_solver).
  assert (forall r, r ∈ issued ops -> m1 !! review_id r = None) as Hnew1.
  { intros r Hr. destruct (m1 !! review_id r) as [r1|] eqn:E1; [exfalso|done].
    destruct o as [now' r'|id account now']; cbn in Es.
    - injection Es as <- <-. apply record_subseteq in E1 as [[-> Hid]|[E1 _]].
      + cbn in Hnd. apply NoDup_cons in Hnd as [Hni _]. apply Hni.
        rewrite <- Hid. by apply list_elem_of_fmap_2.
      + rewrite Hnew in E1; [done|]. by apply Hsub.
    - pose proof (step_Taken_subseteq _ _ _ _ _ _ Es) as Hs1.
      rewrite (lookup_weaken_None m1 m _ (Hnew r Hr) Hs1) in E1. done. }
  assert (NoDup (review_id <$> issued ops)) as Hnd1.
  { destruct o; cbn in Hnd; [by apply NoDup_cons in Hnd as [_ ?]|done]. }
  specialize (IH m1 Hk1 Hnd1 Hnew1). rewrite Eh in IH; cbn in IH.
  rewrite fmap_app. apply NoDup_app. split_and!; [|..|exact IH].
  - destruct o as [|id account now']; cbn in Es; [by injection Es as <- <-; constructor|].
    destruct (claim ttl id account now' m) as [m' []]; injection Es as <- <-;
      [apply NoDup_singleton|constructor].
  - intros id (r & -> & Hr)%list_elem_of_fmap (r' & Heq & Hr')%list_elem_of_fmap.
    destruct (step_taken m o r Hk) as (Hm & Hm1 & now & -> & _); [by rewrite Es|].
    rewrite Es in Hm1; cbn in Hm1.
    destruct (history_taken m1 ops r' Hk1) as [[Hin|Hin] _]; [by rewrite Eh|..].
    + rewrite <- Heq in Hin. congruence.
    + rewrite Heq in Hm. rewrite Hnew in Hm; [done|exact Hin].
Qed.
End History.

Arguments op : clear implicits.
