(* ===== verification/SweepReview.v ===== *)
(** * What a sweep was shown before it was agreed to

    Models [meron-core/src/sweep_review.rs]: the registry of previews, each
    confirmable once, by its own account, for a quarter of an hour, and only
    while its folder still holds the messages it listed; and the outcome of a
    confirmed sweep.  A uid and a UIDVALIDITY are [u32] numbers kept as [Z].
    [uuid::Uuid::new_v4] is an argument of [issue]. *)
From S2P Require Import Prelude Text Registry.
#[local] Open Scope Z_scope.

Module Sweep.

Definition REVIEW_TTL_SECONDS : Z := 15 * 60.
Definition MAX_PENDING : nat := 64.

Record ReviewedSweep := {
  id : text;
  account : text;
  folder : text;
  uidvalidity : Z;
  uids : list Z;
  issued_at : Z
}.

Inductive ReviewError :=
| Unknown
| WrongAccount
| FolderChanged (reviewed current : Z).

#[export] Instance ReviewedSweep_eq_dec : EqDecision ReviewedSweep.
Proof. solve_decision. Defined.
#[export] Instance ReviewError_eq_dec : EqDecision ReviewError.
Proof. solve_decision. Defined.

#[export] Instance sweep_review : Review ReviewedSweep :=
  {| review_id := id; review_account := account; review_issued_at := issued_at |}.

(** [Registry]: the pending previews by id. *)
Abbreviation Registry := (gmap text ReviewedSweep).

Section Operations.
Context `{!HashOrder text ReviewedSweep}.

Definition issue (uuid : text) (pending : Registry) (acct fold : text)
    (validity : Z) (us : list Z) (now : Z) : text * Registry :=
  let pending := retain_fresh REVIEW_TTL_SECONDS now pending in
  let pending := make_room MAX_PENDING (size pending) pending in
  let sweep_id := lit "sweep-" ++ uuid in
  (sweep_id,
   <[sweep_id := {| id := sweep_id; account := acct; folder := fold;
                    uidvalidity := validity; uids := us; issued_at := now |}]> pending).

Definition take (pending : Registry) (rid acct : text) (now : Z)
    : Registry * result ReviewError ReviewedSweep :=
  match pending !! rid with
  | None => (pending, Err Unknown)
  | Some review =>
      if REVIEW_TTL_SECONDS <=? now - issued_at review
      then (delete rid pending, Err Unknown)
      else if negb (bool_decide (account review = acct))
      then (pending, Err WrongAccount)
      else (delete rid pending, Ok review)
  end.
End Operations.

Definition check_folder_unchanged (review : ReviewedSweep)
    (current_uidvalidity : option Z) : result ReviewError unit :=
  let current := unwrap_or 0 current_uidvalidity in
  if current =? uidvalidity review then Ok tt
  else Err (FolderChanged (uidvalidity review) current).

Record SweepOutcome := { swept : list Z; unresolved : list Z }.

(** The loop of [SweepOutcome::from_remaining]. *)
Fixpoint from_remaining (reviewed remaining : list Z) : SweepOutcome :=
  match reviewed with
  | [] => {| swept := []; unresolved := [] |}
  | uid :: rest =>
      let o := from_remaining rest remaining in
      if bool_decide (uid ∈ remaining)
      then {| swept := swept o; unresolved := uid :: unresolved o |}
      else {| swept := uid :: swept o; unresolved := unresolved o |}
  end.

Definition complete (o : SweepOutcome) : bool :=
  match unresolved o with [] => true | _ => false end.

(** ** The registry as a history of single-use reviews *)

Section Facts.
Context `{!HashOrder text ReviewedSweep}.

(** A call of the registry's interface. *)
Inductive call :=
| Issue (uuid acct fold : text) (validity : Z) (us : list Z) (now : Z)
| Take (rid acct : text) (now : Z).

(** A sequence of calls: the registry at the end and the reviews taken. *)
Fixpoint run (pending : Registry) (calls : list call) : Registry * list ReviewedSweep :=
  match calls with
  | [] => (pending, [])
  | Issue uuid acct fold validity us now :: rest =>
      run (issue uuid pending acct fold validity us now).2 rest
  | Take rid acct now :: rest =>
      let (pending', out) := take pending rid acct now in
      let (final, outs) := run pending' rest in
      (final, match out with Ok r => r :: outs | Err _ => outs end)
  end.

(** The uuids a sequence of calls draws. *)
Definition uuids (calls : list call) : list text :=
  omap (fun c => match c with Issue u _ _ _ _ _ => Some u | Take _ _ _ => None end) calls.

Definition as_op (c : call) : op ReviewedSweep :=
  match c with
  | Issue uuid acct fold validity us now =>
      Issued now {| id := lit "sweep-" ++ uuid; account := acct; folder := fold;
                    uidvalidity := validity; uids := us; issued_at := now |}
  | Take rid acct now => Taken rid acct now
  end.

Lemma take_claim pending rid acct now :
  take pending rid acct now =
  match claim REVIEW_TTL_SECONDS rid acct now pending with
  | (p, Ok r) => (p, Ok r)
  | (p, Err OtherAccount) => (p, Err WrongAccount)
  | (p, Err _) => (p, Err Unknown)
  end.
Proof.
  unfold take, claim, unexpired. destruct (pending !! rid) as [r|]; [|done].
  change (review_issued_at r) with (issued_at r).
  change (review_account r) with (account r).
  rewrite Z.ltb_antisym, negb_involutive.
  destruct (_ <=? _); [done|]. by case_bool_decide.
Qed.

Lemma run_history pending calls :
  run pending calls = history REVIEW_TTL_SECONDS MAX_PENDING pending (as_op <$> calls).
Proof.
  revert pending. induction calls as [|[] calls IH]; intros pending; [done|..].
  - cbn [run fmap list_fmap as_op history step]. rewrite IH.
    unfold issue, record. cbn [snd review_id sweep_review id].
    by destruct (history _ _ _ _).
  - cbn [run fmap list_fmap as_op history step]. rewrite take_claim.
    destruct (claim _ _ _ _ _) as [p [r|[]]]; rewrite IH;
      by destruct (history _ _ _ _).
Qed.

Lemma issued_ids calls :
  review_id <$> issued (as_op <$> calls) = (lit "sweep-" ++.) <$> uuids calls.
Proof.
  induction calls as [|[] calls IH]; [done|..]; [|exact IH].
  change (review_id <$> _) with
    ((lit "sweep-" ++ uuid) :: (review_id <$> issued (as_op <$> calls))).
  by rewrite IH.
Qed.
End Facts.

Lemma keyed_empty `{!HashOrder text ReviewedSweep} : keyed (∅ : Registry).
Proof. apply map_Forall_empty. Qed.

(** A preview is confirmed at most once.  In any sequence of [issue] and
    [take] calls on a new registry, drawing distinct uuids, the reviews
    handed out all have different ids; each is exactly what some [issue]
    recorded, taken by its own account before it expired. *)
Theorem sweeps_single_use `{!HashOrder text ReviewedSweep} (calls : list call) :
  NoDup (uuids calls) ->
  NoDup (id <$> (run ∅ calls).2) /\
  forall r, r ∈ (run ∅ calls).2 ->
    (exists uuid, Issue uuid (account r) (folder r) (uidvalidity r) (uids r) (issued_at r) ∈ calls
                  /\ id r = lit "sweep-" ++ uuid) /\
    exists now, Take (id r) (account r) now ∈ calls /\ now - issued_at r < REVIEW_TTL_SECONDS.
Proof.
  intros Hnd. rewrite run_history. split.
  - change (NoDup (review_id <$> (history REVIEW_TTL_SECONDS MAX_PENDING ∅ (as_op <$> calls)).2)).
    apply history_single_use; [apply keyed_empty| |].
    + rewrite issued_ids. apply NoDup_fmap_2; [|done]. intros a b Hab. by simplify_list_eq.
    + intros r _. apply lookup_empty.
  - intros r Hr.
    destruct (history_taken (R := ReviewedSweep) _ _ ∅ _ r keyed_empty Hr)
      as [[Hr'|Hr'] (now & Ht & Hf)]; [by rewrite lookup_empty in Hr'|].
    split.
    + apply list_elem_of_omap in Hr' as (o & Ho & Heq).
      apply list_elem_of_fmap in Ho as ([] & -> & Hin); cbn in Heq; [|done].
      injection Heq as <-. cbn. eauto.
    + apply list_elem_of_fmap in Ht as ([] & Heq & Hin); [done|].
      injection Heq as -> -> ->. exists now0. split; [done|].
      unfold unexpired in Hf. by apply Z.ltb_lt in Hf.
Qed.

(** A preview confirmed twice by its account, after a try by another. *)
Lemma sweeps_single_use_witness :
  let calls := [Issue (lit "a") (lit "me") (lit "INBOX") 42 [3; 2; 1] 1000;
                Issue (lit "b") (lit "me") (lit "INBOX") 42 [5] 1010;
                Take (lit "sweep-a") (lit "other") 1020;
                Take (lit "sweep-a") (lit "me") 1030;
                Take (lit "sweep-a") (lit "me") 1031] in
  (uids <$> (run ∅ calls).2) = [[3; 2; 1]] /\ NoDup (id <$> (run ∅ calls).2).
Proof.
  split; [vm_compute; reflexivity|].
  apply (sweeps_single_use _). apply (bool_decide_unpack _). vm_compute. exact I.
Defined.

(** Recording a preview keeps the registry within its bound and keyed by
    id; the new preview is there as it was shown, everything else there is
    an unexpired preview from before, and nothing is dropped for room unless
    at least as old as all that stays. *)
Theorem issue_bounded `{!HashOrder text ReviewedSweep}
    uuid pending acct fold validity us now rid pending' :
  keyed pending ->
  pending !! (lit "sweep-" ++ uuid) = None ->
  issue uuid pending acct fold validity us now = (rid, pending') ->
  (size pending' <= MAX_PENDING)%nat /\ keyed pending' /\
  (exists r, pending' !! rid = Some r /\ account r = acct /\ folder r = fold /\
     uidvalidity r = validity /\ uids r = us /\ issued_at r = now) /\
  (forall k r, k <> rid -> pending' !! k = Some r ->
     pending !! k = Some r /\ now - issued_at r < REVIEW_TTL_SECONDS) /\
  (forall k r k' r', pending !! k = Some r -> now - issued_at r < REVIEW_TTL_SECONDS ->
     pending' !! k = None -> k' <> rid -> pending' !! k' = Some r' ->
     issued_at r <= issued_at r').
Proof.
  intros Hk Hnew [= <- <-].
  set (rec := {| id := lit "sweep-" ++ uuid; account := acct; folder := fold;
                 uidvalidity := validity; uids := us; issued_at := now |}).
  change (<[_ := _]> _) with (record REVIEW_TTL_SECONDS MAX_PENDING now rec pending).
  split_and!.
  - apply record_size; [unfold MAX_PENDING; lia|done].
  - by apply record_keyed.
  - exists rec. split; [apply lookup_insert_eq|done].
  - intros k r Hne Hr. apply record_subseteq in Hr as [[_ ->]|[Hr Hf]]; [done|].
    split; [done|]. by apply Z.ltb_lt in Hf.
  - intros k r k' r' Hr Hf Hnone Hne' Hr'. unfold record in Hnone, Hr'.
    rewrite lookup_insert_ne in Hr' by done.
    apply lookup_insert_None in Hnone as [Hnone _].
    change (review_issued_at r <= review_issued_at r').
    eapply make_room_oldest; [|..|exact Hr'];
      [by apply retain_fresh_keyed| |exact Hnone].
    apply retain_fresh_lookup. split; [done|]. by apply Z.ltb_lt.
Qed.

(** A registry with one expired and one current preview. *)
Lemma issue_bounded_witness :
  let mk i t := {| id := i; account := lit "me"; folder := lit "INBOX";
                   uidvalidity := 1; uids := [1]; issued_at := t |} in
  let m : Registry := <[lit "sweep-a" := mk (lit "sweep-a") 0]>
                      {[ lit "sweep-b" := mk (lit "sweep-b") 900 ]} in
  let m' := (issue (lit "c") m (lit "me") (lit "INBOX") 1 [9] 1000).2 in
  m' !! lit "sweep-a" = None /\ is_Some (m' !! lit "sweep-b") /\ (size m' <= MAX_PENDING)%nat.
Proof.
  split; [vm_compute; reflexivity|]. split; [eexists; vm_compute; reflexivity|].
  refine (proj1 (issue_bounded (lit "c") _ (lit "me") (lit "INBOX") 1 [9] 1000 _ _ _ _
                   (surjective_pairing _))).
  - apply map_Forall_insert_2; [reflexivity|]. by apply map_Forall_singleton.
  - vm_compute. reflexivity.
Defined.

Lemma from_remaining_spec reviewed remaining :
  swept (from_remaining reviewed remaining) = base.filter (.∉ remaining) reviewed /\
  unresolved (from_remaining reviewed remaining) = base.filter (.∈ remaining) reviewed.
Proof.
  induction reviewed as [|u us [IH1 IH2]]; [done|]. cbn [from_remaining].
  rewrite !filter_cons. case_bool_decide; repeat case_decide; cbn;
    rewrite ?IH1, ?IH2; done || tauto.
Qed.

(** The outcome of a sweep accounts for every reviewed message once:
    what left the folder is swept, what is still there is unresolved, both in
    the order shown, and a sweep is complete exactly when none of what was
    reviewed is left. *)
Theorem outcome_partition reviewed remaining :
  let o := from_remaining reviewed remaining in
  swept o ++ unresolved o ≡ₚ reviewed /\
  swept o `sublist_of` reviewed /\ unresolved o `sublist_of` reviewed /\
  (forall u, u ∈ swept o <-> u ∈ reviewed /\ u ∉ remaining) /\
  (forall u, u ∈ unresolved o <-> u ∈ reviewed /\ u ∈ remaining) /\
  (complete o = true <-> forall u, u ∈ reviewed -> u ∉ remaining).
Proof.
  destruct (from_remaining_spec reviewed remaining) as [Hs Hu]. cbn zeta.
  assert (forall u, u ∈ unresolved (from_remaining reviewed remaining) <->
                    u ∈ reviewed /\ u ∈ remaining) as Hun.
  { intros u. rewrite Hu, list_elem_of_filter. tauto. }
  split_and!; [|rewrite Hs; apply sublist_filter|rewrite Hu; apply sublist_filter| |exact Hun|].
  - rewrite Hs, Hu. clear. induction reviewed as [|u us IH]; [done|].
    rewrite !filter_cons. repeat case_decide; try tauto; cbn; [by rewrite IH|].
    by rewrite <- Permutation_middle, IH.
  - intros u. rewrite Hs, list_elem_of_filter. tauto.
  - unfold complete. destruct (unresolved _) as [|u us] eqn:E.
    + split; [|done]. intros _ u Hu' Hr.
      assert (u ∈ ([] : list Z)) as Hin by (apply Hun; done). by apply not_elem_of_nil in Hin.
    + split; [done|]. intros Hall. destruct (proj1 (Hun u)) as [Hr Hm]; [by left|].
      by apply Hall in Hm.
Qed.

End Sweep.
