(* ===== verification/Table.v ===== *)
(** * SQL tables

    A table is the list of its rows, in the order they were stored.  The
    statements the engine sends to SQLite are written with these operations:
    the [WHERE] clause is a boolean test, a primary key is the test telling
    that two rows have the same key.  A statement that fails inside SQLite
    (a disk error) changes nothing and ends the caller with an error; such
    failures are not modelled here. *)
From S2P Require Import Prelude.

Section Table.
Context {R : Type}.
Implicit Types (t : list R) (p : R -> bool) (f : R -> R).

(** [SELECT … WHERE p] *)
Definition select p t : list R := base.filter (fun r => p r = true) t.

(** [query_row(…).optional()] *)
Definition query_row p t : option R := head (select p t).

(** [UPDATE … SET f WHERE p] and the number of rows it changed. *)
Definition update p f t : list R := (fun r => if p r then f r else r) <$> t.
Definition changed p t : nat := length (select p t).

(** [DELETE … WHERE p] *)
Definition delete_where p t : list R := base.filter (fun r => p r = false) t.

(** [INSERT … ON CONFLICT(key) DO UPDATE SET f] *)
Definition upsert (same : R -> bool) (r : R) f t : list R :=
  if existsb same t then update same f t else t ++ [r].

(** [INSERT OR REPLACE] *)
Definition insert_or_replace (same : R -> bool) (r : R) t : list R :=
  delete_where same t ++ [r].

Lemma elem_of_select p t r : r ∈ select p t <-> r ∈ t /\ p r = true.
Proof. unfold select. rewrite list_elem_of_filter. tauto. Qed.

Lemma elem_of_delete_where p t r : r ∈ delete_where p t <-> r ∈ t /\ p r = false.
Proof. unfold delete_where. rewrite list_elem_of_filter. tauto. Qed.

Lemma elem_of_update p f t r :
  r ∈ update p f t <-> exists r0, r0 ∈ t /\ r = if p r0 then f r0 else r0.
Proof.
  unfold update. rewrite list_elem_of_fmap. split; intros (r0 & ? & ?); eauto.
Qed.

Lemma changed_pos p t : (0 < changed p t)%nat <-> exists r, r ∈ t /\ p r = true.
Proof.
  unfold changed. split.
  - destruct (select p t) as [|r l] eqn:E; cbn; [lia|]. intros _.
    exists r. apply elem_of_select. rewrite E. by left.
  - intros (r & Hr). apply elem_of_select in Hr.
    destruct (select p t); [by apply not_elem_of_nil in Hr|]. cbn. lia.
Qed.

Lemma update_noop p f t : changed p t = 0%nat -> update p f t = t.
Proof.
  intros Hc. unfold update. rewrite <- (list_fmap_id t) at 2.
  apply list_fmap_ext. intros k r Hr%list_elem_of_lookup_2. cbn. destruct (p r) eqn:E; [|done].
  assert (0 < changed p t)%nat by (apply changed_pos; eauto). lia.
Qed.

(** A key column keeps its values through an update that leaves it alone. *)
Lemma update_key {K} (key : R -> K) p f t :
  (forall r, key (f r) = key r) -> key <$> update p f t = key <$> t.
Proof.
  intros Hk. unfold update. rewrite <- list_fmap_compose. apply list_fmap_ext.
  intros _ r _. cbn. by destruct (p r).
Qed.

Lemma delete_where_key {K} (key : R -> K) p t :
  NoDup (key <$> t) -> NoDup (key <$> delete_where p t).
Proof. intros Hnd. eapply sublist_NoDup; [exact Hnd|]. apply fmap_sublist, sublist_filter. Qed.

Lemma query_row_Some p t r : query_row p t = Some r -> r ∈ t /\ p r = true.
Proof.
  unfold query_row. intros H. apply elem_of_select.
  destruct (select p t); [done|]. cbn in H. injection H as ->. by left.
Qed.

Lemma query_row_None p t : query_row p t = None <-> forall r, r ∈ t -> p r = false.
Proof.
  unfold query_row. split.
  - intros H r Hr. destruct (p r) eqn:E; [|done].
    assert (r ∈ select p t) as Hs by by apply elem_of_select.
    destruct (select p t); [by apply not_elem_of_nil in Hs|done].
  - intros H. destruct (select p t) as [|r l] eqn:E; [done|].
    assert (r ∈ select p t) as Hs by (rewrite E; by left).
    apply elem_of_select in Hs as [Hr Hp]. by rewrite H in Hp.
Qed.

(** The only row that passes is the one found. *)
Lemma query_row_unique p t r :
  r ∈ t -> p r = true -> (forall x, x ∈ t -> p x = true -> x = r) -> query_row p t = Some r.
Proof.
  intros Hr Hp Hu. destruct (query_row p t) as [x|] eqn:E.
  - apply query_row_Some in E as [Hx Hpx]. by rewrite (Hu x Hx Hpx).
  - rewrite query_row_None in E. rewrite (E r Hr) in Hp. done.
Qed.

(** With a primary key, the row of a key is the one [query_row] finds. *)
Lemma query_row_key {K} `{EqDecision K} (key : R -> K) k t r :
  NoDup (key <$> t) ->
  query_row (fun r => bool_decide (key r = k)) t = Some r <-> r ∈ t /\ key r = k.
Proof.
  intros Hnd. split.
  - intros [Hr Hk]%query_row_Some. split; [done|]. by apply bool_decide_eq_true in Hk.
  - intros [Hr <-]. induction t as [|x t IH]; [by apply not_elem_of_nil in Hr|].
    rewrite fmap_cons in Hnd. apply NoDup_cons in Hnd as [Hx Hnd].
    unfold query_row, select in *. rewrite filter_cons.
    case_decide as Hd; rewrite bool_decide_eq_true in Hd.
    + cbn. apply elem_of_cons in Hr as [->|Hr]; [done|].
      destruct Hx. rewrite Hd. by apply list_elem_of_fmap_2.
    + apply elem_of_cons in Hr as [->|Hr]; [done|]. by apply IH.
Qed.

(** An update that leaves what [q] looks at alone is seen through [q]. *)
Lemma query_row_update q p f t :
  (forall r, q (f r) = q r) ->
  query_row q (update p f t) = (fun r => if p r then f r else r) <$> query_row q t.
Proof.
  intros Hq. unfold query_row, select. induction t as [|r t IH]; [done|].
  change (update p f (r :: t)) with ((if p r then f r else r) :: update p f t).
  rewrite !filter_cons.
  assert (q (if p r then f r else r) = q r) as -> by by destruct (p r).
  case_decide; [done|]. exact IH.
Qed.

Lemma query_row_delete q p t :
  (forall r r', r ∈ t -> r' ∈ t -> q r = true -> q r' = true -> r = r') ->
  query_row q (delete_where p t) =
  match query_row q t with Some r => if p r then None else Some r | None => None end.
Proof.
  intros Hu. destruct (query_row q (delete_where p t)) as [r|] eqn:E.
  - apply query_row_Some in E as [[Hr Hp]%elem_of_delete_where Hq].
    destruct (query_row q t) as [r'|] eqn:E'.
    + apply query_row_Some in E' as [Hr' Hq']. rewrite (Hu r' r) by done. by rewrite Hp.
    + rewrite query_row_None in E'. rewrite E' in Hq; [done|exact Hr].
  - destruct (query_row q t) as [r|] eqn:E'; [|done].
    apply query_row_Some in E' as [Hr Hq]. destruct (p r) eqn:Ep; [done|].
    rewrite query_row_None in E. rewrite E in Hq; [done|].
    by apply elem_of_delete_where.
Qed.

(** Deleting rows a query does not look at. *)
Lemma query_row_delete_other q p t :
  (forall r, p r = true -> q r = false) -> query_row q (delete_where p t) = query_row q t.
Proof.
  intros Hpq. unfold query_row, select, delete_where. f_equal. induction t as [|r t IH]; [done|].
  rewrite !filter_cons. destruct (p r) eqn:E.
  - rewrite (decide_False (P := true = false)) by done.
    rewrite (decide_False (P := q r = true)) by by rewrite Hpq. exact IH.
  - rewrite (decide_True (P := false = false)) by done. rewrite filter_cons. by rewrite IH.
Qed.

Lemma query_row_singleton q r : query_row q [r] = if q r then Some r else None.
Proof. unfold query_row, select. rewrite filter_cons, filter_nil. by destruct (q r). Qed.

Lemma key_unique {K} `{EqDecision K} (key : R -> K) k t r r' :
  NoDup (key <$> t) -> r ∈ t -> r' ∈ t ->
  bool_decide (key r = k) = true -> bool_decide (key r' = k) = true -> r = r'.
Proof.
  intros Hnd Hr Hr' Hk%bool_decide_eq_true Hk'%bool_decide_eq_true.
  pose proof (proj2 (query_row_key key k t r Hnd) (conj Hr Hk)) as H1.
  pose proof (proj2 (query_row_key key k t r' Hnd) (conj Hr' Hk')) as H2. congruence.
Qed.

(** The row an upsert leaves, and the rows it leaves alone. *)
Lemma query_row_app q t t' :
  query_row q (t ++ t') = match query_row q t with Some r => Some r | None => query_row q t' end.
Proof. unfold query_row, select. rewrite filter_app. by destruct (base.filter _ t). Qed.

Lemma query_row_upsert same r f t :
  same r = true -> (forall x, same (f x) = same x) ->
  query_row same (upsert same r f t) = Some (match query_row same t with Some x => f x | None => r end).
Proof.
  intros Hr Hf. unfold upsert. destruct (existsb same t) eqn:E.
  - rewrite query_row_update by done. destruct (query_row same t) as [x|] eqn:Eq; cbn.
    + apply query_row_Some in Eq as [_ ->]. done.
    + rewrite query_row_None in Eq. apply existsb_elem in E as (x & Hx & Hs). by rewrite (Eq x Hx) in Hs.
  - rewrite query_row_app. destruct (query_row same t) as [x|] eqn:Eq.
    + apply query_row_Some in Eq as [Hx Hs]. by rewrite (existsb_none _ _ E x Hx) in Hs.
    + unfold query_row, select. rewrite filter_cons. by rewrite decide_True.
Qed.

Lemma query_row_upsert_other q same r f t :
  q r = false -> (forall x, same x = true -> q x = false) -> (forall x, q (f x) = q x) ->
  query_row q (upsert same r f t) = query_row q t.
Proof.
  intros Hr Hs Hf. unfold upsert. destruct (existsb same t).
  - rewrite query_row_update by done. destruct (query_row q t) as [x|] eqn:Eq; [|done]. cbn.
    apply query_row_Some in Eq as [_ Hq]. destruct (same x) eqn:E; [|done]. by rewrite (Hs x E) in Hq.
  - rewrite query_row_app. destruct (query_row q t); [done|].
    unfold query_row, select. rewrite filter_cons. rewrite decide_False; [done|]. by rewrite Hr.
Qed.
End Table.

(** ** [ORDER BY]

    Insertion in front of the first row not before it: rows that compare
    equal keep the order they had. *)
Section Sort.
Context {R : Type} (before : R -> R -> bool).

Fixpoint insert_sorted (r : R) (t : list R) : list R :=
  match t with
  | [] => [r]
  | x :: t' => if before r x then r :: t else x :: insert_sorted r t'
  end.

Fixpoint order_by (t : list R) : list R :=
  match t with
  | [] => []
  | r :: t' => insert_sorted r (order_by t')
  end.

Lemma insert_sorted_perm r t : insert_sorted r t ≡ₚ r :: t.
Proof.
  induction t as [|x t IH]; cbn; [done|]. destruct (before r x); [done|].
  rewrite IH. apply perm_swap.
Qed.

Lemma order_by_perm t : order_by t ≡ₚ t.
Proof. induction t as [|r t IH]; cbn; [done|]. by rewrite insert_sorted_perm, IH. Qed.

Context (Htotal : forall a b, before a b = true \/ before b a = true).
Context (Htrans : forall a b c, before a b = true -> before b c = true -> before a c = true).

Lemma insert_sorted_sorted r t :
  StronglySorted (fun a b => before a b = true) t ->
  StronglySorted (fun a b => before a b = true) (insert_sorted r t).
Proof.
  induction 1 as [|x t Hs IH Hx]; cbn; [repeat constructor|].
  destruct (before r x) eqn:E.
  - constructor; [by constructor|]. constructor; [done|].
    eapply Forall_impl; [exact Hx|]. eauto.
  - constructor; [exact IH|]. rewrite insert_sorted_perm. constructor; [|done].
    by destruct (Htotal r x); [congruence|].
Qed.

Lemma order_by_sorted t : StronglySorted (fun a b => before a b = true) (order_by t).
Proof. induction t as [|r t IH]; cbn; [constructor|]. by apply insert_sorted_sorted. Qed.
End Sort.

Lemma order_by_fmap {A B} (f : A -> B) (before : B -> B -> bool) l :
  order_by before (f <$> l) = f <$> order_by (fun a b => before (f a) (f b)) l.
Proof.
  assert (forall a t, insert_sorted before (f a) (f <$> t) = f <$> insert_sorted (fun a b => before (f a) (f b)) a t) as Hi.
  { intros a t. induction t as [|x t IH]; [done|]. cbn. destruct (before (f a) (f x)); [done|]. cbn. by rewrite <- IH. }
  induction l as [|a l IH]; [done|]. cbn. by rewrite IH, Hi.
Qed.
