(* ===== verification/Program.v ===== *)
(** * Programs that can be interrupted

    A routine that reads and writes outside itself (the database, a server,
    files) is a tree of calls: at each, it makes a call of the interface [E]
    and continues with the answer.  What a call may do to the world is given
    separately, as a relation, so that one program is judged against every
    environment allowed by the interface, and a stop (a crash, a lost
    process) may come between any two calls.

    [ensures I p Q w] says of a program started in [w] that [I] holds after
    every call it makes, so at every point where it can be stopped, and [Q]
    of what it returns if it gets to the end. *)
From S2P Require Import Prelude.

Section Program.
Context {E : Type -> Type}.

Inductive prog (R : Type) : Type :=
| Ret (r : R)
| Vis {X : Type} (e : E X) (k : X -> prog R).

Arguments Ret {R} r.
Arguments Vis {R X} e k.

Definition call {X} (e : E X) : prog X := Vis e Ret.

Fixpoint prog_bind {A B} (f : A -> prog B) (p : prog A) : prog B :=
  match p with
  | Ret a => f a
  | Vis e k => Vis e (fun x => prog_bind f (k x))
  end.

(** [for x in l { body }], threading an accumulator. *)
Fixpoint for_each {A S} (l : list A) (s : S) (body : A -> S -> prog S) : prog S :=
  match l with
  | [] => Ret s
  | a :: l' => prog_bind (fun s' => for_each l' s' body) (body a s)
  end.

Section Runs.
Context {W : Type} (does : forall X, E X -> W -> W -> X -> Prop).

(** Running a program: to its end, or stopped before some call. *)
Inductive runs {R} : prog R -> W -> W -> option R -> Prop :=
| runs_stop p w : runs p w w None
| runs_ret r w : runs (Ret r) w w (Some r)
| runs_call X (e : E X) k w w1 x w2 o :
    does X e w w1 x -> runs (k x) w1 w2 o -> runs (Vis e k) w w2 o.

Fixpoint ensures {R} (I : W -> Prop) (p : prog R) (Q : R -> W -> Prop) (w : W) : Prop :=
  match p with
  | Ret r => Q r w
  | Vis e k => forall w' x, does _ e w w' x -> I w' /\ ensures I (k x) Q w'
  end.

Lemma ensures_stop {R} I (p : prog R) Q w w' :
  I w -> ensures I p Q w -> runs p w w' None -> I w'.
Proof.
  intros Hi He Hr. revert Hi He. remember None as o eqn:Ho.
  induction Hr as [p w|r w|X e k w w1 x w2 o Hd Hr IH]; intros Hi He; [done|done|].
  cbn in He. destruct (He _ _ Hd) as [Hi1 He1]. by apply IH.
Qed.

Lemma ensures_end {R} I (p : prog R) Q w w' r :
  ensures I p Q w -> runs p w w' (Some r) -> Q r w'.
Proof.
  intros He Hr. revert He. remember (Some r) as o eqn:Ho. revert r Ho.
  induction Hr as [p w|r0 w|X e k w w1 x w2 o Hd Hr IH]; intros r Ho He;
    [done|by injection Ho as ->|].
  cbn in He. destruct (He _ _ Hd) as [Hi1 He1]. by apply IH.
Qed.

(** An invariant the end keeps too holds however the run ends. *)
Lemma ensures_always {R} I (p : prog R) w w' o :
  I w -> ensures I p (fun _ => I) w -> runs p w w' o -> I w'.
Proof.
  destruct o as [r|]; intros Hi He Hr; [exact (ensures_end _ _ _ _ _ _ He Hr)|exact (ensures_stop _ _ _ _ _ Hi He Hr)].
Qed.

Lemma ensures_mono {R} (I : W -> Prop) (p : prog R) (Q Q' : R -> W -> Prop) w :
  (forall r w', Q r w' -> Q' r w') -> ensures I p Q w -> ensures I p Q' w.
Proof.
  intros HQ. revert w. induction p as [r|X e k IH]; intros w; cbn; [apply HQ|].
  intros He w' x Hd. destruct (He _ _ Hd). eauto.
Qed.

Lemma ensures_and {R} (I I' : W -> Prop) (p : prog R) (Q Q' : R -> W -> Prop) w :
  ensures I p Q w -> ensures I' p Q' w ->
  ensures (fun w => I w /\ I' w) p (fun r w => Q r w /\ Q' r w) w.
Proof.
  revert w. induction p as [r|X e k IH]; intros w; cbn; [done|].
  intros He He' w' x Hd. destruct (He _ _ Hd), (He' _ _ Hd). eauto.
Qed.

Lemma ensures_True {R} (p : prog R) w : ensures (fun _ => True) p (fun _ _ => True) w.
Proof. revert w. induction p as [r|X e k IH]; intros w; cbn; eauto. Qed.

Lemma ensures_mono_inv {R} (I I' : W -> Prop) (p : prog R) (Q : R -> W -> Prop) w :
  (forall w', I w' -> I' w') -> ensures I p Q w -> ensures I' p Q w.
Proof.
  intros HI. revert w. induction p as [r|X e k IH]; intros w; cbn; [done|].
  intros He w' x Hd. destruct (He _ _ Hd). eauto.
Qed.

Lemma ensures_bind {A B} I (p : prog A) (f : A -> prog B) Q w :
  ensures I p (fun a w' => ensures I (f a) Q w') w -> ensures I (prog_bind f p) Q w.
Proof.
  revert w. induction p as [r|X e k IH]; intros w; cbn; [done|].
  intros He w' x Hd. destruct (He _ _ Hd). eauto.
Qed.

Lemma ensures_bind_inv {A B} I (p : prog A) (f : A -> prog B) Q w :
  ensures I (prog_bind f p) Q w -> ensures I p (fun a w' => ensures I (f a) Q w') w.
Proof.
  revert w. induction p as [r|X e k IH]; intros w; cbn; [done|].
  intros He w' x Hd. destruct (He _ _ Hd). eauto.
Qed.

(** A loop over two lists is one after the other. *)
Lemma ensures_for_each_app {A S} I (l l' : list A) (body : A -> S -> prog S) Q s w :
  ensures I (for_each l s body) (fun s' w' => ensures I (for_each l' s' body) Q w') w ->
  ensures I (for_each (l ++ l') s body) Q w.
Proof.
  revert s w. induction l as [|a l IH]; intros s w; cbn; [done|].
  intros He%ensures_bind_inv. apply ensures_bind. eapply ensures_mono; [|exact He].
  intros s' w'. apply IH.
Qed.

(** A loop keeps what its body keeps: [inv done s] of the items done. *)
Lemma ensures_for_each {A S} I (l : list A) (body : A -> S -> prog S)
    (inv : list A -> S -> W -> Prop) Q done s w :
  inv done s w ->
  (forall d a s w, inv d s w -> a ∈ l -> ensures I (body a s) (inv (d ++ [a])) w) ->
  (forall s w, inv (done ++ l) s w -> Q s w) ->
  ensures I (for_each l s body) Q w.
Proof.
  revert done s w. induction l as [|a l IH]; intros d s w Hi Hb Hq; cbn.
  - apply Hq. by rewrite app_nil_r.
  - apply ensures_bind. eapply ensures_mono; [|apply Hb; [exact Hi|by left]].
    intros s' w' Hi'. eapply IH; [exact Hi'| |].
    + intros d' a' s0 w0 Hi0 Ha'. apply Hb; [done|by right].
    + intros s0 w0. rewrite <- app_assoc. apply Hq.
Qed.
End Runs.

(** Running against an environment given as a function: to the end, and
    stopped after a number of calls. *)
Section Exec.
Context {W : Type} (handle : forall X, E X -> W -> W * X).

Fixpoint exec {R} (p : prog R) (w : W) : W * R :=
  match p with
  | Ret r => (w, r)
  | Vis e k => let (w', x) := handle _ e w in exec (k x) w'
  end.

Lemma exec_bind {A B} (p : prog A) (f : A -> prog B) w :
  exec (prog_bind f p) w = exec (f (exec p w).2) (exec p w).1.
Proof.
  revert w. induction p as [r|X e k IH]; intros w; cbn; [done|].
  destruct (handle X e w) as [w' x]. apply IH.
Qed.

Fixpoint exec_until {R} (n : nat) (p : prog R) (w : W) : W :=
  match n, p with
  | O, _ | _, Ret _ => w
  | S n', Vis e k => let (w', x) := handle _ e w in exec_until n' (k x) w'
  end.

Context (does : forall X, E X -> W -> W -> X -> Prop).
Context (Hdoes : forall X (e : E X) w, does X e w (handle X e w).1 (handle X e w).2).

Lemma exec_runs {R} (p : prog R) w : runs does p w (exec p w).1 (Some (exec p w).2).
Proof.
  revert w. induction p as [r|X e k IH]; intros w; cbn; [constructor|].
  pose proof (Hdoes X e w) as Hd. destruct (handle X e w) as [w' x]; cbn in *.
  econstructor; [exact Hd|]. apply IH.
Qed.

Lemma exec_until_runs {R} n (p : prog R) w : runs does p w (exec_until n p w) None.
Proof.
  revert p w. induction n as [|n IH]; intros p w; cbn; [constructor|].
  destruct p as [r|X e k]; [constructor|].
  pose proof (Hdoes X e w) as Hd. destruct (handle X e w) as [w' x]; cbn in *.
  econstructor; [exact Hd|]. apply IH.
Qed.
End Exec.
End Program.

Arguments prog : clear implicits.
Arguments Ret {E R} r.
Arguments Vis {E R X} e k.

#[global] Instance prog_mret {E} : MRet (prog E) := fun A a => Ret a.
#[global] Instance prog_mbind {E} : MBind (prog E) := fun A B f p => prog_bind f p.

(** [let x = p?; k]: the first error ends the routine. *)
Definition and_then {E : Type -> Type} {X A B} (p : prog E (result X A))
    (k : A -> prog E (result X B)) : prog E (result X B) :=
  prog_bind (fun r => match r with Ok a => k a | Err e => Ret (Err e) end) p.

Lemma ensures_and_then {E W X A B} (does : forall X, E X -> W -> W -> X -> Prop) I
    (p : prog E (result X A)) (k : A -> prog E (result X B)) Q w :
  ensures does I p (fun r w' => match r with Ok a => ensures does I (k a) Q w' | Err e => Q (Err e) w' end) w ->
  ensures does I (and_then p k) Q w.
Proof. intros H. apply ensures_bind. eapply ensures_mono; [|exact H]. by intros [a|e] w'. Qed.

Declare Scope prog_scope.
Delimit Scope prog_scope with prog.
Notation "x <-? p ;; k" := (and_then p (fun x => k))
  (at level 100, p at next level, right associativity) : prog_scope.
Notation "x <- p ;; k" := (prog_bind (fun x => k) p)
  (at level 100, p at next level, right associativity) : prog_scope.
