(* ===== verification/Pool.v ===== *)
(** * Routines at once

    Several programs of [Program.v] run at once over one world: any of them
    may make its next call at any moment, new ones start, the process may stop
    and start again, and the rest of the system may act in between.  Each
    routine stands in a phase, which says what it may count on; a protocol
    says, for each call, in which phases it may be made and in which phase it
    leaves the routine.  If every call that follows the protocol keeps the
    world consistent with the phases, so does every run ([pool_good]). *)
From S2P Require Import Prelude.
From S2P Require Import Program.

Section Protocol.
Context {E : Type -> Type} {Phase : Type}.

(** What a call asks of its routine's phase, and the phases its answers leave it in. *)
Class Protocol := {
  call_ok X : E X -> Phase -> (X -> Phase -> Prop) -> Prop;
  call_ok_mono X (e : E X) ph (K K' : X -> Phase -> Prop) :
    (forall x ph', K x ph' -> K' x ph') -> call_ok X e ph K -> call_ok X e ph K'
}.
Context `{Protocol}.

Fixpoint thread_ok {R} (ph : Phase) (p : prog E R) (Q : R -> Phase -> Prop) : Prop :=
  match p with
  | Ret r => Q r ph
  | Vis e k => call_ok _ e ph (fun x ph' => thread_ok ph' (k x) Q)
  end.

Lemma thread_ok_mono {R} ph (p : prog E R) (Q Q' : R -> Phase -> Prop) :
  (forall r ph', Q r ph' -> Q' r ph') -> thread_ok ph p Q -> thread_ok ph p Q'.
Proof.
  intros HQ. revert ph. induction p as [r|X e k IH]; intros ph; cbn; [apply HQ|].
  apply call_ok_mono. intros x ph'. apply IH.
Qed.

Lemma thread_ok_bind {A B} ph (p : prog E A) (f : A -> prog E B) Q :
  thread_ok ph p (fun a ph' => thread_ok ph' (f a) Q) -> thread_ok ph (prog_bind f p) Q.
Proof.
  revert ph. induction p as [r|X e k IH]; intros ph; cbn; [done|].
  apply call_ok_mono. intros x ph'. apply IH.
Qed.

Lemma thread_ok_and_then {X A B} ph (p : prog E (result X A)) (f : A -> prog E (result X B)) Q :
  thread_ok ph p (fun r ph' => match r with
                               | Ok a => thread_ok ph' (f a) Q
                               | Err e => Q (Err e) ph'
                               end) ->
  thread_ok ph (and_then p f) Q.
Proof.
  intros Hp. apply thread_ok_bind. eapply thread_ok_mono; [|exact Hp].
  by intros [a|e] ph'.
Qed.

(** A loop whose body comes back to the phase it started in. *)
Lemma thread_ok_for_each {A} ph (l : list A) (body : A -> prog E unit) :
  (forall a, thread_ok ph (body a) (fun _ ph' => ph' = ph)) ->
  thread_ok ph (for_each l tt (fun a _ => body a)) (fun _ ph' => ph' = ph).
Proof.
  intros Hb. induction l as [|a l IH]; cbn; [done|]. apply thread_ok_bind.
  eapply thread_ok_mono; [|apply Hb]. by intros [] ph' ->.
Qed.
End Protocol.
Arguments Protocol : clear implicits.
#[global] Arguments call_ok {E Phase _ X} e ph K.

Section Pool.
Context {E : Type -> Type} {W : Type}.

(** The process: its world and the routines under way. *)
Record System := { world : W; threads : list (prog E unit) }.

Context (does : forall X, E X -> W -> W -> X -> Prop).
Context (routine : prog E unit -> Prop) (restart elsewhere : W -> W -> Prop).

(** A routine starts; one of those under way makes its next call; the process
    stops, at any point, and starts again with none; something else happens. *)
Inductive step (s : System) : System -> Prop :=
| step_start p :
    routine p -> step s {| world := world s; threads := threads s ++ [p] |}
| step_call k X (e : E X) c w' x :
    threads s !! k = Some (Vis e c) -> does X e (world s) w' x ->
    step s {| world := w'; threads := <[k := c x]> (threads s) |}
| step_restart w' :
    restart (world s) w' -> step s {| world := w'; threads := [] |}
| step_elsewhere w' :
    elsewhere (world s) w' -> step s {| world := w'; threads := threads s |}.

Section Good.
Context {Phase : Type} (idle : Phase) `{Protocol E Phase} (consistent : W -> list Phase -> Prop).

Class PoolLaws := {
  law_routine p : routine p -> thread_ok idle p (fun _ _ => True);
  law_start w phs : consistent w phs -> consistent w (phs ++ [idle]);
  law_call X (e : E X) w w' x phs k ph K :
    consistent w phs -> phs !! k = Some ph -> call_ok e ph K -> does X e w w' x ->
    exists ph', K x ph' /\ consistent w' (<[k := ph']> phs);
  law_restart w w' phs : consistent w phs -> restart w w' -> consistent w' [];
  law_elsewhere w w' phs : consistent w phs -> elsewhere w w' -> consistent w' phs
}.
Context `{PoolLaws}.

Definition good (s : System) : Prop := exists phs,
  length phs = length (threads s) /\ consistent (world s) phs /\
  forall k p ph, threads s !! k = Some p -> phs !! k = Some ph -> thread_ok ph p (fun _ _ => True).

Lemma step_good s s' : step s s' -> good s -> good s'.
Proof using Type*.
  intros Hs (phs & Hlen & Hc & Hth). destruct Hs as [p Hp|k X e c w' x Hk Hd|w' Hr|w' He].
  - exists (phs ++ [idle]). cbn. rewrite !length_app, Hlen. split; [done|]. split; [by apply law_start|].
    intros k q ph [Hq|[Hge Hq]]%lookup_app_Some [Hph|[Hge' Hph]]%lookup_app_Some.
    + by eapply Hth.
    + apply lookup_lt_Some in Hq. lia.
    + apply lookup_lt_Some in Hph. lia.
    + apply list_lookup_singleton_Some in Hq as [_ <-], Hph as [_ <-]. by apply law_routine.
  - assert (exists ph, phs !! k = Some ph) as [ph Hph].
    { apply lookup_lt_is_Some. rewrite Hlen. by apply lookup_lt_Some in Hk. }
    pose proof (Hth _ _ _ Hk Hph) as Hok. cbn in Hok.
    destruct (law_call _ _ _ _ _ _ _ _ _ Hc Hph Hok Hd) as (ph' & HK & Hc').
    exists (<[k := ph']> phs). cbn. rewrite !length_insert. split; [done|]. split; [done|].
    intros j q pj. rewrite !list_lookup_insert_Some.
    intros [(<- & <- & _)|[Hne Hq]] [(Hj & <- & _)|[Hne' Hpj]]; try done. by eapply Hth.
  - exists []. split; [done|]. split; [by eapply law_restart|]. intros k p ph. by rewrite lookup_nil.
  - exists phs. split; [done|]. split; [by eapply law_elsewhere|done].
Qed.

(** From a world consistent with no routine, every run is. *)
Lemma pool_good s s' : threads s = [] -> consistent (world s) [] -> rtc step s s' -> good s'.
Proof using Type*.
  intros Ht Hc Hr. assert (good s) as Hs.
  { exists []. rewrite Ht. split; [done|]. split; [done|]. intros k p ph. by rewrite lookup_nil. }
  clear Ht Hc. induction Hr as [|s1 s2 s3 H12 _ IH]; [done|]. apply IH. by eapply step_good.
Qed.
End Good.

(** A routine that runs on its own, to its end, against an environment given
    as a function. *)
Section Alone.
Context (handle : forall X, E X -> W -> W * X).
Context (Hdoes : forall X (e : E X) w, does X e w (handle X e w).1 (handle X e w).2).

Lemma runs_alone w ths k (p : prog E unit) :
  ths !! k = Some p ->
  rtc step {| world := w; threads := ths |}
    {| world := (exec handle p w).1; threads := <[k := Ret (exec handle p w).2]> ths |}.
Proof using Hdoes.
  revert w ths. induction p as [r|X e c IH]; intros w ths Hk; cbn.
  - rewrite list_insert_id by done. apply rtc_refl.
  - pose proof (Hdoes X e w) as Hd. destruct (handle X e w) as [w1 x]; cbn in *.
    eapply rtc_l; [by eapply (step_call {| world := w; threads := ths |})|]. cbn.
    pose proof (IH x w1 (<[k := c x]> ths)) as Hr. rewrite list_insert_insert_eq in Hr.
    apply Hr. apply list_lookup_insert_eq. by apply lookup_lt_Some in Hk.
Qed.
End Alone.
End Pool.

Arguments System : clear implicits.
Arguments PoolLaws {E W} does routine restart elsewhere {Phase} idle {_} consistent.
