(* ===== verification/Json.v ===== *)
(** * JSON values

    The shape of [serde_json::Value] and the accessors the engine uses.  An
    object is the list of its members; numbers are kept as their text, which
    nothing here computes with.  Writing a value as text and reading it back
    belong to [serde_json] and are parameters where they are used. *)
From S2P Require Import Prelude Text.

Inductive Value : Type :=
| Null
| Bool (b : bool)
| Number (n : text)
| String (s : text)
| Array (items : list Value)
| Object (members : list (text * Value)).

(** [value.get(name)] *)
Definition get (name : text) (v : Value) : option Value :=
  match v with
  | Object ms => snd <$> find_by (fun m => bool_decide (m.1 = name)) ms
  | _ => None
  end.

(** [value.as_str()] *)
Definition as_str (v : Value) : option text :=
  match v with String s => Some s | _ => None end.

(** [value.as_bool()] *)
Definition as_bool (v : Value) : option bool :=
  match v with Bool b => Some b | _ => None end.

(** [if let Some(object) = value.as_object_mut() { object.remove(name) }] *)
Definition remove_member (name : text) (v : Value) : Value :=
  match v with
  | Object ms => Object (base.filter (fun m => m.1 <> name) ms)
  | _ => v
  end.

(** [if let Some(object) = value.as_object_mut() { object.insert(name, v) }] *)
Definition insert_member (name : text) (x v : Value) : Value :=
  match v with
  | Object ms => Object ((name, x) :: base.filter (fun m => m.1 <> name) ms)
  | _ => v
  end.

(** [req_str]-style reading: a member that is a string. *)
Definition get_str (name : text) (v : Value) : option text := get name v ≫= as_str.

Lemma find_by_filter_ne {A} (key : A -> text) name other (l : list A) :
  other <> name ->
  find_by (fun m => bool_decide (key m = other)) (base.filter (fun m => key m <> name) l) =
  find_by (fun m => bool_decide (key m = other)) l.
Proof.
  intros Hne. unfold find_by. induction l as [|m l IH]; [done|].
  rewrite filter_cons. cbn. case_decide as Hd; cbn; case_bool_decide; try done.
  destruct Hd. congruence.
Qed.

Lemma get_remove_ne name other v : other <> name -> get other (remove_member name v) = get other v.
Proof. intros Hne. destruct v; [done..|]. cbn. by rewrite (find_by_filter_ne fst). Qed.

Lemma get_remove_eq name v : get name (remove_member name v) = None.
Proof.
  destruct v as [| | | | |ms]; [done..|]. cbn. unfold find_by.
  induction ms as [|m ms IH]; [done|]. rewrite filter_cons. case_decide; [|done].
  cbn. by rewrite bool_decide_false by done.
Qed.

Lemma get_insert_eq name x ms : get name (insert_member name x (Object ms)) = Some x.
Proof. cbn. by rewrite bool_decide_true. Qed.

Lemma get_insert_ne name other x v : other <> name -> get other (insert_member name x v) = get other v.
Proof.
  intros Hne. destruct v; [done..|]. cbn. rewrite bool_decide_false by congruence.
  by rewrite (find_by_filter_ne fst).
Qed.
