(* ===== verification/Rules.v ===== *)
(** * Rules the reader writes, applied to mail as it arrives

    Models [meron-core/src/rules/mod.rs]: what a condition looks at, when a
    rule matches, what a list of rules would do to a message and in which
    order, and which rules may be saved. *)
From S2P Require Import Prelude Text.
#[local] Open Scope Z_scope.

Module Rules.

Inductive Field := From | To | Cc | Recipient | SubjectField.

Inductive Op := Contains | NotContains | Is | StartsWith | EndsWith.

Record Condition := { field : Field; op : Op; value : text }.

Inductive Match := All | Any.

Inductive Action :=
| MoveTo (folder : text)
| MarkRead
| Star
| AddLabel (label_id : text)
| Stop.

Record Rule := {
  id : text;
  account : text;
  name : text;
  enabled : bool;
  match_mode : Match;
  conditions : list Condition;
  actions : list Action
}.

Record Subject := {
  from_name : text;
  from_addr : text;
  to : list text;
  cc : list text;
  subject : text
}.

Record Planned := { rule_id : text; rule_name : text; action : Action }.

#[export] Instance Field_eq_dec : EqDecision Field.
Proof. solve_decision. Defined.
#[export] Instance Op_eq_dec : EqDecision Op.
Proof. solve_decision. Defined.
#[export] Instance Action_eq_dec : EqDecision Action.
Proof. solve_decision. Defined.
#[export] Instance Planned_eq_dec : EqDecision Planned.
Proof. solve_decision. Defined.

Definition is_move (a : Action) : bool := match a with MoveTo _ => true | _ => false end.
Definition is_stop (a : Action) : bool := match a with Stop => true | _ => false end.

Definition haystacks (s : Subject) (f : Field) : list text :=
  match f with
  | From => [from_name s ++ lit " " ++ from_addr s]
  | To => to s
  | Cc => cc s
  | Recipient => to s ++ cc s
  | SubjectField => [subject s]
  end.

Section WithUnicode.
Context `{Unicode}.

Definition holds (c : Condition) (s : Subject) : bool :=
  let needle := to_lowercase (trim (value c)) in
  if is_empty needle then false
  else
    let hs := to_lowercase <$> haystacks s (field c) in
    match op c with
    | Contains => existsb (contains needle) hs
    | NotContains => negb (existsb (contains needle) hs)
    | Is => existsb (fun t => bool_decide (trim t = needle)) hs
    | StartsWith => existsb (fun t => starts_with needle (trim_start t)) hs
    | EndsWith => existsb (fun t => ends_with needle (trim_end t)) hs
    end.

Definition matches (r : Rule) (s : Subject) : bool :=
  match conditions r with
  | [] => false
  | cs =>
      match match_mode r with
      | All => forallb (fun c => holds c s) cs
      | Any => existsb (fun c => holds c s) cs
      end
  end.

(** The actions of one matching rule: [true] when a [Stop] was met. *)
Fixpoint plan_actions (r : Rule) (acts : list Action) : list Planned * bool :=
  match acts with
  | [] => ([], false)
  | a :: rest =>
      if is_stop a then ([], true)
      else
        let (steps, stopped) := plan_actions r rest in
        ({| rule_id := id r; rule_name := name r; action := a |} :: steps, stopped)
  end.

(** Whether the loop over the rules gets as far as a rule's actions. *)
Definition applies (acct : text) (s : Subject) (r : Rule) : bool :=
  enabled r && (is_empty (account r) || bool_decide (account r = acct)) && matches r s.

Fixpoint plan_as_written (rules : list Rule) (acct : text) (s : Subject) : list Planned :=
  match rules with
  | [] => []
  | r :: rest =>
      if negb (enabled r) then plan_as_written rest acct s
      else if negb (is_empty (account r)) && negb (bool_decide (account r = acct))
      then plan_as_written rest acct s
      else if negb (matches r s) then plan_as_written rest acct s
      else
        let (steps, stopped) := plan_actions r (actions r) in
        if stopped then steps else steps ++ plan_as_written rest acct s
  end.

Definition in_running_order (planned : list Planned) : list Planned :=
  base.filter (fun p => is_move (action p) = false) planned ++
  take 1 (base.filter (fun p => is_move (action p) = true) planned).

Definition plan (rules : list Rule) (acct : text) (s : Subject) : list Planned :=
  in_running_order (plan_as_written rules acct s).

End WithUnicode.

Inductive Invalid :=
| NoName | NoConditions | EmptyCondition | NoActions | MoveWithoutFolder | LabelWithoutName.

Definition blank (t : text) : bool := is_empty (trim t).

Definition validate (r : Rule) : result Invalid unit :=
  if blank (name r) then Err NoName
  else if bool_decide (conditions r = []) then Err NoConditions
  else if existsb (fun c => blank (value c)) (conditions r) then Err EmptyCondition
  else if bool_decide (actions r = []) then Err NoActions
  else if existsb (fun a => match a with MoveTo f => blank f | _ => false end) (actions r)
  then Err MoveWithoutFolder
  else if existsb (fun a => match a with AddLabel l => blank l | _ => false end) (actions r)
  then Err LabelWithoutName
  else Ok tt.

(** ** What a plan is *)

Section Facts.
Context `{Unicode}.

(** The actions a rule contributes: those before its first [Stop]. *)
Fixpoint before_stop (acts : list Action) : list Action :=
  match acts with
  | [] => []
  | a :: rest => if is_stop a then [] else a :: before_stop rest
  end.

Definition stops (r : Rule) : bool := existsb is_stop (actions r).

Lemma plan_actions_spec r acts :
  plan_actions r acts =
  ((fun a => {| rule_id := id r; rule_name := name r; action := a |}) <$> before_stop acts,
   existsb is_stop acts).
Proof.
  induction acts as [|a acts IH]; [done|]. cbn. destruct (is_stop a); [done|].
  by rewrite IH.
Qed.

Lemma plan_as_written_cons r rest acct s :
  plan_as_written (r :: rest) acct s =
  if applies acct s r
  then ((fun a => {| rule_id := id r; rule_name := name r; action := a |})
          <$> before_stop (actions r)) ++
       (if stops r then [] else plan_as_written rest acct s)
  else plan_as_written rest acct s.
Proof.
  cbn. unfold applies, stops. rewrite plan_actions_spec.
  destruct (enabled r), (is_empty (account r)), (bool_decide (account r = acct)),
    (matches r s), (existsb is_stop (actions r)); cbn; by rewrite ?app_nil_r.
Qed.

Lemma before_stop_sub a acts : a ∈ before_stop acts -> a ∈ acts /\ is_stop a = false.
Proof.
  induction acts as [|b acts IH]; cbn; [by intros ?%not_elem_of_nil|].
  destruct (is_stop b) eqn:E; [by intros ?%not_elem_of_nil|].
  intros [->|Ha]%elem_of_cons; [split; [by left|done]|].
  destruct (IH Ha). split; [by right|done].
Qed.

(** The steps of a list of rules are those of the part up to the first
    applying rule with a [Stop]. *)
Lemma plan_as_written_app rs1 rs2 acct s :
  plan_as_written (rs1 ++ rs2) acct s =
  plan_as_written rs1 acct s ++
  (if existsb (fun r => applies acct s r && stops r) rs1 then []
   else plan_as_written rs2 acct s).
Proof.
  induction rs1 as [|r rs1 IH]; [done|].
  rewrite <- app_comm_cons, !plan_as_written_cons, IH. cbn [existsb].
  destruct (applies acct s r); cbn; [|done].
  destruct (stops r); cbn; [by rewrite !app_nil_r|]. by rewrite app_assoc.
Qed.

Lemma elem_of_plan p rules acct s :
  p ∈ plan rules acct s -> p ∈ plan_as_written rules acct s.
Proof.
  unfold plan, in_running_order. intros [Hp|Hp]%elem_of_app.
  - by apply list_elem_of_filter in Hp as [_ ?].
  - apply subseteq_take, list_elem_of_filter in Hp. by destruct Hp.
Qed.

Lemma elem_of_plan_as_written p rules acct s :
  p ∈ plan_as_written rules acct s ->
  exists rs1 r rs2, rules = rs1 ++ r :: rs2 /\
    applies acct s r = true /\
    existsb (fun r' => applies acct s r' && stops r') rs1 = false /\
    rule_id p = id r /\ rule_name p = name r /\ action p ∈ before_stop (actions r).
Proof.
  induction rules as [|r rest IH]; [by intros ?%not_elem_of_nil|].
  rewrite plan_as_written_cons. intros Hp.
  assert (p ∈ plan_as_written rest acct s -> applies acct s r && stops r = false ->
    exists rs1 r0 rs2, r :: rest = rs1 ++ r0 :: rs2 /\ applies acct s r0 = true /\
      existsb (fun r' => applies acct s r' && stops r') rs1 = false /\
      rule_id p = id r0 /\ rule_name p = name r0 /\ action p ∈ before_stop (actions r0)) as Hrest.
  { intros Hin Hns. destruct (IH Hin) as (rs1 & r0 & rs2 & -> & ? & Hs & ?).
    exists (r :: rs1), r0, rs2. split_and!; try done; [|tauto..].
    cbn. by rewrite Hns. }
  destruct (applies acct s r) eqn:Ha; [|by apply Hrest].
  apply elem_of_app in Hp as [(a & -> & Hin)%list_elem_of_fmap|Hp].
  - exists [], r, rest. by split_and!.
  - destruct (stops r) eqn:Hs; [by apply not_elem_of_nil in Hp|by apply Hrest].
Qed.

End Facts.

(** Every step a plan shows comes from a rule that is enabled, is for
    this account or for all, and matches the message; it is one of the
    actions before that rule's [Stop]; and no rule before it that applies to
    the message has a [Stop]. *)
Theorem plan_sound `{Unicode} rules acct s p :
  p ∈ plan rules acct s ->
  exists rs1 r rs2, rules = rs1 ++ r :: rs2 /\
    enabled r = true /\ (account r = [] \/ account r = acct) /\ matches r s = true /\
    rule_id p = id r /\ rule_name p = name r /\ action p ∈ actions r /\ action p <> Stop /\
    forall r', r' ∈ rs1 -> enabled r' = true -> (account r' = [] \/ account r' = acct) ->
      matches r' s = true -> Stop ∉ actions r'.
Proof.
  intros Hp%elem_of_plan.
  destruct (elem_of_plan_as_written _ _ _ _ Hp) as (rs1 & r & rs2 & -> & Ha & Hs & ? & ? & Hin).
  unfold applies in Ha. bools in Ha.
  destruct Ha as [[He Hac] Hm]. apply before_stop_sub in Hin as [Hin Hns].
  exists rs1, r, rs2. split_and!; try done.
  - destruct Hac as [Hac|Hac]; [left|by right]. by destruct (account r).
  - intros Heq. by rewrite Heq in Hns.
  - intros r' Hr' He' Hac' Hm' Hstop.
    assert (existsb (fun r0 => applies acct s r0 && stops r0) rs1 = true) as Hc; [|congruence].
    apply existsb_elem. exists r'. split; [done|]. unfold applies, stops.
    rewrite He', Hm'. replace (is_empty (account r') || _) with true.
    + cbn. apply existsb_elem. by exists Stop.
    + symmetry. apply orb_true_iff. destruct Hac' as [->| ->]; [by left|right].
      by apply bool_decide_eq_true.
Qed.

(** A rule list where the second rule stops the third. *)
Lemma plan_sound_witness :
  let c v := {| field := SubjectField; op := Contains; value := v |} in
  let mk i acts := {| id := i; account := []; name := i; enabled := true;
                      match_mode := All; conditions := [c (lit "news")]; actions := acts |} in
  let rules := [mk (lit "1") [MoveTo (lit "News"); Star]; mk (lit "2") [MarkRead; Stop];
                mk (lit "3") [MoveTo (lit "Other")]] in
  let s := {| from_name := []; from_addr := []; to := []; cc := []; subject := lit "NEWS today" |} in
  (action <$> plan rules (lit "me") s) = [Star; MarkRead; MoveTo (lit "News")] /\
  exists rs1 r rs2, rules = rs1 ++ r :: rs2 /\ id r = lit "1".
Proof.
  intros c mk rules s.
  split; [vm_compute; reflexivity|].
  destruct (plan_sound rules (lit "me") s
    {| rule_id := lit "1"; rule_name := lit "1"; action := Star |})
    as (rs1 & r & rs2 & H1 & _ & _ & _ & H2 & _).
  - vm_compute. left.
  - exists rs1, r, rs2. split; [exact H1|]. symmetry. exact H2.
Defined.

(** A plan can be carried out as it stands.  Its steps are the steps as
    written, the moves left out, followed by the first move if there is one:
    so at most one move, nothing after it, nothing else lost, and the other
    steps in the order the rules give them. *)
Theorem plan_runs `{Unicode} rules acct s :
  let written := plan_as_written rules acct s in
  exists rest moved, plan rules acct s = rest ++ moved /\
    (forall p, p ∈ rest -> is_move (action p) = false) /\
    rest `sublist_of` written /\
    (forall p, p ∈ written -> is_move (action p) = false -> p ∈ rest) /\
    ((moved = [] /\ forall p, p ∈ written -> is_move (action p) = false) \/
     exists p before after, moved = [p] /\ is_move (action p) = true /\
       written = before ++ p :: after /\ forall q, q ∈ before -> is_move (action q) = false).
Proof.
  cbn zeta. eexists _, _. split; [reflexivity|].
  split; [by intros p [? _]%list_elem_of_filter|].
  split; [apply sublist_filter|].
  split; [by intros p Hp Hm; apply list_elem_of_filter|].
  induction (plan_as_written rules acct s) as [|q w IH].
  - left. split; [done|]. by intros p ?%not_elem_of_nil.
  - rewrite filter_cons. case_decide as Hq.
    + right. exists q, [], w. split; [done|]. split; [done|]. split; [done|].
      by intros ? ?%not_elem_of_nil.
    + apply not_true_is_false in Hq.
      destruct IH as [[-> Hn]|(p & b & a & -> & Hp & -> & Hb)].
      * left. split; [done|]. intros p [->|Hp]%elem_of_cons; [done|by apply Hn].
      * right. exists p, (q :: b), a. split_and!; [done..|].
        intros p' [->|Hp']%elem_of_cons; [done|by apply Hb].
Qed.

(** What each kind of comparison means.  With nothing to look for a
    condition never holds; otherwise it holds exactly when some (for
    NotContains: no) text the field offers, lower-cased, carries the
    lower-cased value in the place asked for. *)
Theorem holds_spec `{Unicode} c s :
  let needle := to_lowercase (trim (value c)) in
  holds c s = true <->
  needle <> [] /\
  match op c with
  | Contains => exists h a b, h ∈ haystacks s (field c) /\ to_lowercase h = a ++ needle ++ b
  | NotContains => forall h, h ∈ haystacks s (field c) -> ~ exists a b, to_lowercase h = a ++ needle ++ b
  | Is => exists h, h ∈ haystacks s (field c) /\ trim (to_lowercase h) = needle
  | StartsWith => exists h b, h ∈ haystacks s (field c) /\ trim_start (to_lowercase h) = needle ++ b
  | EndsWith => exists h a, h ∈ haystacks s (field c) /\ trim_end (to_lowercase h) = a ++ needle
  end.
Proof.
  cbn zeta. unfold holds. set (n := to_lowercase (trim (value c))).
  assert (forall (q : text -> bool) (Q : text -> Prop), (forall t, q t = true <-> Q t) ->
    existsb q (to_lowercase <$> haystacks s (field c)) = true <->
    exists h, h ∈ haystacks s (field c) /\ Q (to_lowercase h)) as Hex.
  { intros q Q Hq. rewrite existsb_elem. setoid_rewrite list_elem_of_fmap. split.
    - intros (t & (h & -> & Hh) & Ht). exists h. by rewrite <- Hq.
    - intros (h & Hh & Ht). exists (to_lowercase h). rewrite Hq. eauto. }
  destruct (is_empty n) eqn:En.
  { split; [done|]. intros [Hn _]. by destruct n. }
  assert (n <> []) as Hn by by intros ->.
  transitivity (match op c with
    | Contains => exists h, h ∈ haystacks s (field c) /\ exists a b, to_lowercase h = a ++ n ++ b
    | NotContains => ~ exists h, h ∈ haystacks s (field c) /\ exists a b, to_lowercase h = a ++ n ++ b
    | Is => exists h, h ∈ haystacks s (field c) /\ trim (to_lowercase h) = n
    | StartsWith => exists h, h ∈ haystacks s (field c) /\ exists b, trim_start (to_lowercase h) = n ++ b
    | EndsWith => exists h, h ∈ haystacks s (field c) /\ exists a, trim_end (to_lowercase h) = a ++ n
    end).
  - destruct (op c).
    + apply (Hex _ (fun t => exists a b, t = a ++ n ++ b)). apply contains_spec.
    + rewrite negb_true_iff, <- not_true_iff_false.
      by rewrite (Hex _ (fun t => exists a b, t = a ++ n ++ b) (contains_spec n)).
    + apply (Hex _ (fun t => trim t = n)). intros t. apply bool_decide_eq_true.
    + apply (Hex _ (fun t => exists b, trim_start t = n ++ b)). intros t. apply starts_with_spec.
    + apply (Hex _ (fun t => exists a, trim_end t = a ++ n)). intros t. apply ends_with_spec.
  - destruct (op c); (split; [intros Hx; split; [done|]|intros [_ Hx]]); try done.
    + by destruct Hx as (h & ? & a & b & ?); exists h, a, b.
    + by destruct Hx as (h & a & b & ? & ?); exists h; split; [|exists a, b].
    + intros h Hh Hc. apply Hx. by exists h.
    + intros (h & Hh & Hc). by apply (Hx h).
    + by destruct Hx as (h & ? & b & ?); exists h, b.
    + by destruct Hx as (h & b & ? & ?); exists h; split; [|exists b].
    + by destruct Hx as (h & ? & b & ?); exists h, b.
    + by destruct Hx as (h & b & ? & ?); exists h; split; [|exists b].
Qed.

(** A rule can be saved exactly when it has a name, conditions that all
    look for something, and actions whose moves and labels all name
    something; and the reason given is the first of these that is missing. *)
Theorem validate_spec r :
  (validate r = Ok tt <->
     blank (name r) = false /\ conditions r <> [] /\
     (forall c, c ∈ conditions r -> blank (value c) = false) /\ actions r <> [] /\
     (forall f, MoveTo f ∈ actions r -> blank f = false) /\
     (forall l, AddLabel l ∈ actions r -> blank l = false)) /\
  (forall e, validate r = Err e -> match e with
     | NoName => blank (name r) = true
     | NoConditions => conditions r = []
     | EmptyCondition => exists c, c ∈ conditions r /\ blank (value c) = true
     | NoActions => actions r = []
     | MoveWithoutFolder => exists f, MoveTo f ∈ actions r /\ blank f = true
     | LabelWithoutName => exists l, AddLabel l ∈ actions r /\ blank l = true
     end).
Proof.
  unfold validate.
  destruct (blank (name r)) eqn:E1; [split; [by split; [|intros [? _]]|by intros e [= <-]]|].
  case_bool_decide as E2; [split; [by split; [|intros (_ & ? & _)]|by intros e [= <-]]|].
  destruct (existsb _ (conditions r)) eqn:E3.
  { apply existsb_elem in E3 as (c & Hc & Hb).
    split; [split; [done|intros (_ & _ & Hall & _); specialize (Hall c Hc); congruence]|].
    intros e [= <-]. by exists c. }
  case_bool_decide as E4; [split; [by split; [|intros (_ & _ & _ & ? & _)]|by intros e [= <-]]|].
  destruct (existsb _ (actions r)) eqn:E5.
  { apply existsb_elem in E5 as ([f| | | |] & Hc & Hb); [|done..].
    split; [split; [done|intros (_ & _ & _ & _ & Hall & _); specialize (Hall f Hc); congruence]|].
    intros e [= <-]. by exists f. }
  match goal with |- context [existsb ?f (actions r)] => destruct (existsb f (actions r)) eqn:E6 end.
  { apply existsb_elem in E6 as ([| | |l|] & Hc & Hb); [done..| |done].
    split; [split; [done|intros (_ & _ & _ & _ & _ & Hall); specialize (Hall l Hc); congruence]|].
    intros e [= <-]. by exists l. }
  split; [|done]. split; [intros _|done]. split_and!; try done.
  - intros c. apply (existsb_none _ _ E3).
  - intros f Hf. exact (existsb_none _ _ E5 _ Hf).
  - intros l Hl. exact (existsb_none _ _ E6 _ Hl).
Qed.

End Rules.
