(* ===== verification/RulesRun.v ===== *)
(** * Running the rules on mail already in a folder, exactly as previewed

    Models [meron-core/src/rules/run.rs]: the registry of previewed runs,
    each bound to its account, its folder's UIDVALIDITY and the rules as they
    were stored when it was shown.  The digest ([ring]) and the JSON writer
    ([serde_json]) behind [fingerprint] are parameters. *)
From S2P Require Import Prelude Text Registry Rules.
#[local] Open Scope Z_scope.

Module RulesRun.
Import Rules.

Definition REVIEW_TTL_SECONDS : Z := 15 * 60.
Definition MAX_PENDING : nat := 16.

Record ReviewedMessage := {
  uid : Z;
  msg_subject : text;
  msg_from : text;
  steps : list Planned
}.

Record ReviewedRun := {
  run_id : text;
  run_account : text;
  folder : text;
  uidvalidity : Z;
  rules_fingerprint : text;
  messages : list ReviewedMessage;
  issued_at : Z
}.

Inductive RunError := Unknown | WrongAccount | FolderChanged | RulesChanged.

#[export] Instance ReviewedMessage_eq_dec : EqDecision ReviewedMessage.
Proof. solve_decision. Defined.
#[export] Instance ReviewedRun_eq_dec : EqDecision ReviewedRun.
Proof. solve_decision. Defined.
#[export] Instance RunError_eq_dec : EqDecision RunError.
Proof. solve_decision. Defined.

#[export] Instance run_review : Review ReviewedRun :=
  {| review_id := run_id; review_account := run_account; review_issued_at := issued_at |}.

Abbreviation Registry := (gmap text ReviewedRun).

Definition fingerprint (to_json : list Rule -> text) (sha256 : text -> list Z)
    (rules : list Rule) : text :=
  mbind hex_byte (take 12 (sha256 (to_json rules))).

Section Operations.
Context `{!HashOrder text ReviewedRun}.

Definition issue (uuid : text) (pending : Registry) (acct fold : text) (validity : Z)
    (print : text) (msgs : list ReviewedMessage) (now : Z) : text * Registry :=
  let pending := retain_fresh REVIEW_TTL_SECONDS now pending in
  let pending := make_room MAX_PENDING (size pending) pending in
  let rid := lit "rules-" ++ uuid in
  (rid,
   <[rid := {| run_id := rid; run_account := acct; folder := fold; uidvalidity := validity;
               rules_fingerprint := print; messages := msgs; issued_at := now |}]> pending).

Definition take_run (pending : Registry) (rid acct : text) (current_uidvalidity : Z)
    (current_rules : text) (now : Z) : Registry * result RunError ReviewedRun :=
  match pending !! rid with
  | None => (pending, Err Unknown)
  | Some run =>
      if REVIEW_TTL_SECONDS <=? now - issued_at run
      then (delete rid pending, Err Unknown)
      else if negb (bool_decide (run_account run = acct))
      then (pending, Err WrongAccount)
      else
        let pending := delete rid pending in
        if negb (uidvalidity run =? current_uidvalidity)
        then (pending, Err FolderChanged)
        else if negb (bool_decide (rules_fingerprint run = current_rules))
        then (pending, Err RulesChanged)
        else (pending, Ok run)
  end.

Inductive call :=
| Issue (uuid acct fold : text) (validity : Z) (print : text)
        (msgs : list ReviewedMessage) (now : Z)
| Take (rid acct : text) (validity : Z) (print : text) (now : Z).

Definition after (pending : Registry) (c : call) : Registry :=
  match c with
  | Issue uuid acct fold validity print msgs now =>
      (issue uuid pending acct fold validity print msgs now).2
  | Take rid acct validity print now => (take_run pending rid acct validity print now).1
  end.

Definition after_all : Registry -> list call -> Registry := foldl after.

Lemma take_run_subseteq pending rid acct v f now :
  (take_run pending rid acct v f now).1 ⊆ pending.
Proof.
  unfold take_run. destruct (pending !! rid) as [run|]; [|done].
  repeat case_match; cbn; done || apply delete_subseteq.
Qed.

Lemma after_not_issued pending c rid :
  pending !! rid = None ->
  (forall uuid acct fold v f msgs now, c = Issue uuid acct fold v f msgs now ->
     rid <> lit "rules-" ++ uuid) ->
  after pending c !! rid = None.
Proof.
  intros Hn Hc. destruct c as [uuid acct fold v f msgs now|r acct v f now]; cbn.
  - rewrite lookup_insert_ne by (symmetry; by eapply Hc).
    eapply lookup_weaken_None; [exact Hn|].
    etrans; [apply make_room_subseteq|]. apply map_filter_subseteq.
  - eapply lookup_weaken_None; [exact Hn|]. apply take_run_subseteq.
Qed.

Lemma after_all_not_issued pending calls rid :
  pending !! rid = None ->
  (forall uuid acct fold v f msgs now, Issue uuid acct fold v f msgs now ∈ calls ->
     rid <> lit "rules-" ++ uuid) ->
  after_all pending calls !! rid = None.
Proof.
  revert pending. induction calls as [|c calls IH]; intros pending Hn Hc; [done|].
  cbn. apply IH.
  - apply after_not_issued; [done|]. intros * ->. eapply Hc. by left.
  - intros * Hin. eapply Hc. by right.
Qed.

End Operations.

(** A previewed run is spent the first time its account asks for it,
    before it expires, whatever comes of it.  What is carried out is the run
    as it was shown, and only when the folder's UIDVALIDITY and the stored
    rules are the ones it was shown with; and after that first try (done, or
    refused because the folder or the rules changed) the same id is unknown
    for good, whatever else happens in the registry, unless its uuid is
    drawn again. *)
Theorem run_spent_once `{!HashOrder text ReviewedRun} pending rid acct v f now p1 out :
  take_run pending rid acct v f now = (p1, out) ->
  out <> Err Unknown -> out <> Err WrongAccount ->
  (exists run, pending !! rid = Some run /\ run_account run = acct /\
     now - issued_at run < REVIEW_TTL_SECONDS /\
     (forall r, out = Ok r -> r = run /\ uidvalidity run = v /\ rules_fingerprint run = f) /\
     (out = Err FolderChanged <-> uidvalidity run <> v) /\
     (out = Err RulesChanged -> rules_fingerprint run <> f)) /\
  forall calls acct' v' f' now',
    (forall uuid a fo v0 f0 ms t, Issue uuid a fo v0 f0 ms t ∈ calls -> rid <> lit "rules-" ++ uuid) ->
    (take_run (after_all p1 calls) rid acct' v' f' now').2 = Err Unknown.
Proof.
  intros Ht Hu Hw. unfold take_run in Ht.
  destruct (pending !! rid) as [run|] eqn:E; [|congruence].
  destruct (Z.leb_spec REVIEW_TTL_SECONDS (now - issued_at run)) as [|Hlt]; [congruence|].
  case_bool_decide as Ha; cbn in Ht; [|congruence].
  assert (p1 = delete rid pending) as -> by (repeat case_match; congruence).
  split.
  - exists run. split; [done|]. split; [done|]. split; [done|].
    destruct (Z.eqb_spec (uidvalidity run) v) as [Hv|Hv]; cbn in Ht;
      [case_bool_decide as Hr; cbn in Ht|]; injection Ht as <-; split_and!;
      try done; by intros r [= <-].
  - intros calls acct' v' f' now' Hc. unfold take_run.
    rewrite after_all_not_issued; [done|apply lookup_delete_eq|done].
Qed.

(** A run refused because a rule changed, then asked for again. *)
Lemma run_spent_once_witness :
  let run := {| run_id := lit "rules-a"; run_account := lit "me"; folder := lit "INBOX";
                uidvalidity := 7; rules_fingerprint := lit "f1"; messages := []; issued_at := 100 |} in
  let m : Registry := {[ lit "rules-a" := run ]} in
  (take_run m (lit "rules-a") (lit "me") 7 (lit "f2") 101).2 = Err RulesChanged /\
  (take_run (after_all (take_run m (lit "rules-a") (lit "me") 7 (lit "f2") 101).1
     [Issue (lit "b") (lit "me") (lit "INBOX") 7 (lit "f2") [] 102])
     (lit "rules-a") (lit "me") 7 (lit "f1") 103).2 = Err Unknown.
Proof.
  intros run m. split; [vm_compute; reflexivity|].
  refine (proj2 (run_spent_once m (lit "rules-a") (lit "me") 7 (lit "f2") 101 _ _
    (surjective_pairing _) _ _) _ _ _ _ _ _).
  - vm_compute. discriminate.
  - vm_compute. discriminate.
  - intros * Hin%list_elem_of_singleton. injection Hin as -> _ _ _ _ _ _. discriminate.
Defined.

End RulesRun.
