(* ===== verification/Sieve.v ===== *)
(** * The reader's rules as a Sieve script

    Models [meron-core/src/rules/sieve.rs]: the strings the script is made
    of, one condition as a Sieve test, a rule's actions as Sieve commands,
    and the script for an account with the rules it leaves out.

    The second half reads what was written: [lex_quoted] is RFC 5228's quoted
    string, [globs] its [:matches] patterns, and [SieveTest] its tests, with
    the meaning a server gives them under the [i;ascii-casemap] comparator. *)
From S2P Require Import Prelude Text Rules.
#[local] Open Scope Z_scope.

Module Sieve.
Import Rules.

Record Left := { left_id : text; left_name : text; reasons : list text }.
Record Plan := { script : text; included : list text; left : list Left }.

(** The double quote, and text between two of them. *)
Definition DQ : Z := 34.
Definition dq (s : text) : text := [DQ] ++ s ++ [DQ].

Definition quote (s : text) : text :=
  dq (replace_char DQ [92; DQ] (replace_char 92 [92; 92] s)).

Definition literal_pattern (s : text) : text :=
  replace_char 63 [92; 63] (replace_char 42 [92; 42] (replace_char 92 [92; 92] s)).

Definition headers (f : Field) : text :=
  match f with
  | From => dq (lit "from")
  | To => dq (lit "to")
  | Cc => dq (lit "cc")
  | Recipient => lit "[" ++ dq (lit "to") ++ lit ", " ++ dq (lit "cc") ++ lit "]"
  | SubjectField => dq (lit "subject")
  end.

(** Typographic quotes around a value, as the messages show it. *)
Definition curly (s : text) : text := [0x201C] ++ s ++ [0x201D].

Definition test (c : Condition) : result text text :=
  let needle := trim (value c) in
  if is_empty needle then Err (lit "a condition has nothing to look for")
  else
    let address_field := negb (bool_decide (field c = SubjectField)) in
    if address_field && existsb (fun ch => is_whitespace ch || (ch =? 60) || (ch =? 62)) needle
    then Err (curly needle ++ lit " spans a name and an address, which the server reads differently")
    else
      let h := headers (field c) in
      match op c, address_field with
      | Contains, _ => Ok (lit "header :contains " ++ h ++ lit " " ++ quote needle)
      | NotContains, _ => Ok (lit "not header :contains " ++ h ++ lit " " ++ quote needle)
      | Is, false => Ok (lit "header :is " ++ h ++ lit " " ++ quote needle)
      | StartsWith, false =>
          Ok (lit "header :matches " ++ h ++ lit " " ++ quote (literal_pattern needle ++ lit "*"))
      | EndsWith, false =>
          Ok (lit "header :matches " ++ h ++ lit " " ++ quote (lit "*" ++ literal_pattern needle))
      | EndsWith, true =>
          Ok (lit "address :all :matches " ++ h ++ lit " " ++ quote (lit "*" ++ literal_pattern needle))
      | Is, true =>
          Err (curly (lit "is") ++ lit " on an address compares the name too here, which the server cannot")
      | StartsWith, true =>
          Err (curly (lit "starts with") ++ lit " on an address compares the name too here, which the server cannot")
      end.

(** Characters a flag keyword cannot hold: whitespace and any of [(){%*], the
    double quote, the backslash and the closing bracket. *)
Definition bad_keyword_char (c : Z) : bool :=
  is_whitespace c || existsb (Z.eqb c) (lit "(){%*" ++ [DQ] ++ [92; 93]).

(** The loop over a rule's actions: flags, files and whether to stop. *)
Fixpoint collect (keywords : text -> option text) (acts : list Action)
    : result text (list text * list text * bool) :=
  match acts with
  | [] => Ok ([], [], false)
  | a :: rest =>
      here ← match a with
             | MarkRead => Ok ([lit "addflag " ++ dq (lit "\\Seen") ++ lit ";"], [], false)
             | Star => Ok ([lit "addflag " ++ dq (lit "\\Flagged") ++ lit ";"], [], false)
             | AddLabel label_id =>
                 match keywords label_id with
                 | Some keyword =>
                     if negb (is_empty keyword) && negb (existsb bad_keyword_char keyword)
                     then Ok ([lit "addflag " ++ quote keyword ++ lit ";"], [], false)
                     else Err (lit "labels exist only here unless linked to a keyword of this account")
                 | None => Err (lit "labels exist only here unless linked to a keyword of this account")
                 end
             | MoveTo folder => Ok ([], [lit "fileinto " ++ quote folder ++ lit ";"], false)
             | Stop => Ok ([], [], true)
             end;
      more ← collect keywords rest;
      let '(flags, file, stop) := here in
      let '(flags', file', stop') := more in
      Ok (flags ++ flags', file ++ file', stop || stop')
  end.

(** Flags first: a message is filed with the flags set before [fileinto]. *)
Definition sieve_actions (r : Rule) (keywords : text -> option text)
    : result text (list text * bool) :=
  collected ← collect keywords (actions r);
  let '(flags, file, stop) := collected in
  Ok (flags ++ file ++ (if stop : bool then [lit "stop;"] else []), negb (bool_decide (flags = []))).

Definition has (extensions : list text) (name : text) : bool :=
  existsb (fun e => eq_ignore_ascii_case e name) extensions.

Definition files (acts : list text) : bool := existsb (starts_with (lit "fileinto")) acts.

(** What one rule comes to: its block with what it needs, or the reasons it
    has none. *)
Record Block := { commands : list text; tests : list text; flags : bool }.

Definition errors {A} (rs : list (result text A)) : list text :=
  omap (fun r => match r with Err e => Some e | Ok _ => None end) rs.

Definition block_of (extensions : list text) (keywords : text -> option text) (r : Rule)
    : result (list text) Block :=
  let tested := test <$> conditions r in
  let acts := sieve_actions r keywords in
  let why :=
    errors tested ++
    (if bool_decide (conditions r = []) then [lit "a rule needs a condition"] else []) ++
    errors [acts] ++
    match acts with
    | Ok (cmds, uses_flags) =>
        (if uses_flags && negb (has extensions (lit "imap4flags"))
         then [lit "the server cannot set flags (no imap4flags)"] else []) ++
        (if files cmds && negb (has extensions (lit "fileinto"))
         then [lit "the server cannot file into folders (no fileinto)"] else [])
    | Err _ => []
    end in
  match why, acts with
  | [], Ok (cmds, uses_flags) => Ok {| commands := cmds; tests := omap ok tested; flags := uses_flags |}
  | _, _ => Err why
  end.

Definition newline : text := [10].

(** [rule.name.replace(['\r', '\n'], " ")] *)
Definition one_line (s : text) : text :=
  (fun c => if (c =? 13) || (c =? 10) then 32 else c) <$> s.

Definition render (r : Rule) (b : Block) : text :=
  let joined := match match_mode r with
                | All => lit "allof (" ++ join (lit ", ") (tests b) ++ lit ")"
                | Any => lit "anyof (" ++ join (lit ", ") (tests b) ++ lit ")"
                end in
  lit "# " ++ one_line (name r) ++ newline ++ lit "if " ++ joined ++ lit " {" ++ newline ++
  lit "    " ++ join (newline ++ lit "    ") (commands b) ++ newline ++ lit "}".

Definition applicable (acct : text) (r : Rule) : bool :=
  enabled r && (is_empty (account r) || bool_decide (account r = acct)).

Definition preamble : text :=
  lit "# Written by Oreneta from its rules. Changes made here are not kept:" ++ newline ++
  lit "# edit the rules in Oreneta instead." ++ newline.

(** The loop over the rules: the blocks written, the ids included, the rules
    left out, and whether anything sets flags or files. *)
Fixpoint gather (extensions : list text) (keywords : text -> option text) (rules : list Rule)
    : list text * list text * list Left * bool * bool :=
  match rules with
  | [] => ([], [], [], false, false)
  | r :: rest =>
      let '(blocks, inc, lef, nf, ni) := gather extensions keywords rest in
      match block_of extensions keywords r with
      | Ok b => (render r b :: blocks, id r :: inc, lef, flags b || nf, files (commands b) || ni)
      | Err why =>
          (blocks, inc, {| left_id := id r; left_name := name r; reasons := why |} :: lef, nf, ni)
      end
  end.

Definition plan (rules : list Rule) (acct : text) (extensions : list text)
    (keywords : text -> option text) : Plan :=
  let '(blocks, inc, lef, need_flags, need_fileinto) :=
    gather extensions keywords (base.filter (fun r => applicable acct r = true) rules) in
  let require := (if need_fileinto : bool then [dq (lit "fileinto")] else []) ++
                 (if need_flags : bool then [dq (lit "imap4flags")] else []) in
  {| script := preamble ++
               (if bool_decide (require = []) then []
                else lit "require [" ++ join (lit ", ") require ++ lit "];" ++ newline) ++
               mbind (fun b => newline ++ b ++ newline) blocks;
     included := inc;
     left := lef |}.

(** ** Reading the script back *)

(** RFC 5228's quoted string: the text it stands for and what follows it. *)
Fixpoint lex_body (s : text) : option (text * text) :=
  match s with
  | [] => None
  | c :: s' =>
      if c =? DQ then Some ([], s')
      else if c =? 92 then
        match s' with
        | [] => None
        | d :: s'' => prod_map (cons d) (fun r => r) <$> lex_body s''
        end
      else prod_map (cons c) (fun r => r) <$> lex_body s'
  end.

Definition lex_quoted (s : text) : option (text * text) :=
  match s with
  | c :: s' => if c =? DQ then lex_body s' else None
  | [] => None
  end.

(** The patterns of [:matches]: a star is any text, a question mark any one
    character, and a backslash makes the next character stand for itself. *)
Inductive globs : text -> text -> Prop :=
| globs_nil : globs [] []
| globs_star p a s : globs p s -> globs (42 :: p) (a ++ s)
| globs_any p c s : globs p s -> globs (63 :: p) (c :: s)
| globs_escaped p c s : globs p s -> globs (92 :: c :: p) (c :: s)
| globs_char p c s : c <> 42 -> c <> 63 -> c <> 92 -> globs p s -> globs (c :: p) (c :: s).

Inductive MatchType := HContains | HIs | HMatches.

(** A test on the subject header. *)
Record SieveTest := { negated : bool; match_type : MatchType; key : text }.

Definition print_test (t : SieveTest) : text :=
  (if negated t then lit "not " else []) ++
  match match_type t with
  | HContains => lit "header :contains "
  | HIs => lit "header :is "
  | HMatches => lit "header :matches "
  end ++ dq (lit "subject") ++ lit " " ++ quote (key t).

(** What a server makes of the test for a subject, letters of either case
    counting as the same. *)
Definition test_holds (t : SieveTest) (header : text) : Prop :=
  let k := to_ascii_lowercase (key t) in
  let h := to_ascii_lowercase header in
  let found := match match_type t with
               | HContains => exists a b, h = a ++ k ++ b
               | HIs => h = k
               | HMatches => globs k h
               end in
  if negated t then ~ found else found.

(** ** What the strings stand for *)

Definition escape_quoted (c : Z) : text :=
  if c =? DQ then [92; DQ] else if c =? 92 then [92; 92] else [c].

Lemma quote_spec s : quote s = dq (mbind escape_quoted s).
Proof.
  unfold quote. f_equal. induction s as [|c s IH]; [done|].
  unfold replace_char in *. rewrite !bind_cons, !bind_app, IH. f_equal.
  unfold escape_quoted. destruct (Z.eqb_spec c 92) as [->|]; [done|]. cbn.
  by destruct (c =? DQ).
Qed.

Lemma lex_body_escape s rest : lex_body (mbind escape_quoted s ++ DQ :: rest) = Some (s, rest).
Proof.
  induction s as [|c s IH]; [done|]. rewrite bind_cons, <- app_assoc.
  unfold escape_quoted at 1. destruct (Z.eqb_spec c DQ) as [->|H1].
  - cbn. by rewrite IH.
  - destruct (Z.eqb_spec c 92) as [->|H2]; cbn.
    + by rewrite IH.
    + rewrite (proj2 (Z.eqb_neq _ _) H1), (proj2 (Z.eqb_neq _ _) H2). by rewrite IH.
Qed.

Definition escape_pattern (c : Z) : text :=
  if (c =? 92) || (c =? 42) || (c =? 63) then [92; c] else [c].

Lemma literal_pattern_spec s : literal_pattern s = mbind escape_pattern s.
Proof.
  unfold literal_pattern, replace_char. induction s as [|c s IH]; [done|].
  rewrite !bind_cons, !bind_app, IH. f_equal. unfold escape_pattern.
  destruct (Z.eqb_spec c 92) as [->|H1]; [done|].
  destruct (Z.eqb_spec c 42) as [->|H2]; cbn; [done|].
  rewrite (proj2 (Z.eqb_neq _ _) H2). cbn.
  by destruct (Z.eqb_spec c 63) as [->|].
Qed.

Lemma globs_escaped_app n p t :
  globs (mbind escape_pattern n ++ p) t <-> exists b, t = n ++ b /\ globs p b.
Proof.
  revert t. induction n as [|c n IH]; intros t.
  { cbn. split; [eauto|by intros (b & -> & ?)]. }
  rewrite bind_cons, <- app_assoc. unfold escape_pattern at 1. split.
  - destruct ((c =? 92) || (c =? 42) || (c =? 63)) eqn:E; cbn; intros Hg;
      inversion Hg; subst; try done;
      match goal with H : globs (_ ++ _) _ |- _ => apply IH in H as (b & -> & ?) end; eauto.
  - intros (b & -> & Hb). assert (globs (mbind escape_pattern n ++ p) (n ++ b)) as Hg
      by (apply IH; eauto). cbn.
    destruct (Z.eqb_spec c 92); [by constructor|].
    destruct (Z.eqb_spec c 42); [by constructor|].
    destruct (Z.eqb_spec c 63); [by constructor|]. by constructor.
Qed.

Lemma globs_star_inv p t : globs (42 :: p) t <-> exists a s, t = a ++ s /\ globs p s.
Proof.
  split; [intros Hg; inversion Hg; subst; eauto; done|].
  intros (a & s & -> & ?). by constructor.
Qed.

Lemma globs_prefix n t : globs (literal_pattern n ++ [42]) t <-> exists b, t = n ++ b.
Proof.
  rewrite literal_pattern_spec, globs_escaped_app. split; [naive_solver|].
  intros (b & ->). exists b. split; [done|]. apply globs_star_inv. exists b, [].
  split; [by rewrite app_nil_r|constructor].
Qed.

Lemma globs_suffix n t : globs (42 :: literal_pattern n) t <-> exists a, t = a ++ n.
Proof.
  rewrite globs_star_inv, literal_pattern_spec. split.
  - intros (a & s & -> & Hg). rewrite <- (app_nil_r (mbind _ _)), globs_escaped_app in Hg.
    destruct Hg as (b & -> & Hb). inversion Hb. exists a. by rewrite app_nil_r.
  - intros (a & ->). exists a, n. split; [done|].
    rewrite <- (app_nil_r (mbind _ _)), globs_escaped_app. exists [].
    by rewrite app_nil_r; split; [|constructor].
Qed.

Lemma ascii_lower_special c x : is_ascii_upper x = false -> is_ascii_lower x = false ->
  (ascii_lower_char c =? x) = (c =? x).
Proof.
  unfold is_ascii_lower, ascii_lower_char. intros Hu Hl.
  destruct (is_ascii_upper c) eqn:E; [|done].
  unfold is_ascii_upper in *. lia.
Qed.

Lemma ascii_lower_whitespace c : is_whitespace (ascii_lower_char c) = is_whitespace c.
Proof.
  unfold ascii_lower_char. destruct (is_ascii_upper c) eqn:E; [|done].
  unfold is_ascii_upper, is_whitespace in *. lia.
Qed.

Lemma literal_pattern_lower s :
  to_ascii_lowercase (literal_pattern s) = literal_pattern (to_ascii_lowercase s).
Proof.
  rewrite !literal_pattern_spec. unfold to_ascii_lowercase.
  induction s as [|c s IH]; [done|]. rewrite bind_cons, fmap_cons, bind_cons, fmap_app, IH. f_equal. unfold escape_pattern.
  rewrite !ascii_lower_special by done.
  by destruct ((c =? 92) || (c =? 42) || (c =? 63)).
Qed.

Lemma trim_start_lower s : trim_start (to_ascii_lowercase s) = to_ascii_lowercase (trim_start s).
Proof.
  unfold trim_start. induction s as [|c s IH]; [done|]. cbn.
  rewrite ascii_lower_whitespace. by destruct (is_whitespace c).
Qed.

Lemma trim_end_lower s : trim_end (to_ascii_lowercase s) = to_ascii_lowercase (trim_end s).
Proof.
  unfold trim_end, trim_end_matches, to_ascii_lowercase.
  rewrite fmap_rev, <- (fmap_rev _ s). f_equal. apply trim_start_lower.
Qed.

(** The test the code writes for a condition on the subject. *)
Definition subject_test (c : Condition) : SieveTest :=
  let needle := trim (value c) in
  match op c with
  | Contains => {| negated := false; match_type := HContains; key := needle |}
  | NotContains => {| negated := true; match_type := HContains; key := needle |}
  | Is => {| negated := false; match_type := HIs; key := needle |}
  | StartsWith => {| negated := false; match_type := HMatches; key := literal_pattern needle ++ [42] |}
  | EndsWith => {| negated := false; match_type := HMatches; key := 42 :: literal_pattern needle |}
  end.

(** Nothing in a rule can break out of a string of the script.  Read by
    RFC 5228's rule, [quote s] followed by anything is exactly [s], and what
    follows is left as it was. *)
Theorem quote_lexes s rest : lex_quoted (quote s ++ rest) = Some (s, rest).
Proof.
  rewrite quote_spec. unfold dq. rewrite <- !app_assoc. cbn.
  apply (lex_body_escape s rest).
Qed.

(** On the subject, the server decides what the reader's own rules do.
    A condition on the subject with something to look for is written as the
    test [subject_test] of it, and, letters compared without case, that test
    holds of a subject (with no blanks around it) exactly when the condition
    does. *)
Theorem subject_condition_agrees c s :
  field c = SubjectField -> trim (value c) <> [] ->
  trim_start (subject s) = subject s -> trim_end (subject s) = subject s ->
  test c = Ok (print_test (subject_test c)) /\
  (test_holds (subject_test c) (subject s) <-> holds c s = true).
Proof.
  intros Hf Hv Hs He. destruct (trim (value c)) as [|x n'] eqn:E; [done|].
  split.
  - unfold test, subject_test. rewrite E, Hf. cbn [is_empty].
    destruct (op c); done || (unfold print_test; cbn [negated match_type key];
      rewrite <- !app_assoc; reflexivity).
  - unfold test_holds, subject_test, holds. rewrite E, Hf. set (n := x :: n').
    change (@to_lowercase ascii_unicode) with to_ascii_lowercase. cbn [is_empty].
    assert (is_empty (to_ascii_lowercase n) = false) as -> by done.
    cbn [haystacks fmap list_fmap existsb].
    assert (trim (to_ascii_lowercase (subject s)) = to_ascii_lowercase (subject s)) as Ht.
    { unfold trim. rewrite trim_start_lower, Hs, trim_end_lower. by rewrite He. }
    destruct (op c); cbn [negated match_type key]; rewrite orb_false_r.
    + by rewrite contains_spec.
    + by rewrite negb_true_iff, <- contains_spec, not_true_iff_false.
    + by rewrite Ht, bool_decide_eq_true.
    + rewrite trim_start_lower, Hs, starts_with_spec. unfold to_ascii_lowercase at 1.
      rewrite fmap_app. fold (to_ascii_lowercase (literal_pattern n)).
      rewrite literal_pattern_lower. apply globs_prefix.
    + rewrite trim_end_lower, He, ends_with_spec. unfold to_ascii_lowercase at 1.
      cbn [fmap list_fmap]. change (ascii_lower_char 42) with 42.
      fold (to_ascii_lowercase (literal_pattern n)).
      rewrite literal_pattern_lower. apply globs_suffix.
Qed.

(** A pattern holding a star of its own. *)
Lemma subject_condition_agrees_witness :
  let c := {| field := SubjectField; op := StartsWith; value := lit " 50*OFF " |} in
  let s := {| from_name := []; from_addr := []; to := []; cc := []; subject := lit "50*off today" |} in
  holds c s = true /\ test_holds (subject_test c) (subject s).
Proof.
  intros c s. split; [vm_compute; reflexivity|].
  refine (proj2 (proj2 (subject_condition_agrees c s _ _ _ _)) _); vm_compute;
    first [reflexivity | discriminate].
Defined.

(** ** Which rules the script carries *)

Lemma block_of_reasons ext kw r why : block_of ext kw r = Err why -> why <> [].
Proof.
  unfold block_of. set (w := _ ++ _).
  destruct w eqn:E; [|intros [= <-]; done].
  destruct (sieve_actions r kw) as [[]|e] eqn:Ea; [done|].
  subst w. rewrite !app_nil in E. cbn in E. by destruct E as (_ & _ & ? & _).
Qed.

Lemma block_of_supported ext kw r b :
  block_of ext kw r = Ok b ->
  (files (commands b) = true -> has ext (lit "fileinto") = true) /\
  (flags b = true -> has ext (lit "imap4flags") = true).
Proof.
  unfold block_of. destruct (sieve_actions r kw) as [[cmds uf]|e] eqn:Ea.
  - set (w := _ ++ _). destruct w eqn:E; [|done]. intros [= <-]. cbn [commands flags].
    subst w. rewrite !app_nil in E. destruct E as (_ & _ & _ & E1 & E2).
    split; intros Hx.
    + rewrite Hx in E2. by destruct (has ext (lit "fileinto")).
    + rewrite Hx in E1. by destruct (has ext (lit "imap4flags")).
  - set (w := _ ++ _). by destruct w.
Qed.

Lemma gather_spec ext kw rules :
  let ok_rules := base.filter (fun r => is_ok (block_of ext kw r) = true) rules in
  let blocks := omap (fun r => ok (block_of ext kw r)) rules in
  gather ext kw rules =
  (omap (fun r => render r <$> ok (block_of ext kw r)) rules,
   id <$> ok_rules,
   omap (fun r => match block_of ext kw r with
                  | Err why => Some {| left_id := id r; left_name := name r; reasons := why |}
                  | Ok _ => None end) rules,
   existsb flags blocks,
   existsb (fun b => files (commands b)) blocks).
Proof.
  induction rules as [|r rules IH]; [done|]. cbn [gather]. cbn zeta in IH. rewrite IH.
  rewrite filter_cons. cbn [omap list_omap].
  destruct (block_of ext kw r); cbn; [rewrite decide_True by done|rewrite decide_False by done];
    done.
Qed.

Lemma left_ids ext kw (rules : list Rule) :
  left_id <$> omap (fun r => match block_of ext kw r with
                  | Err why => Some {| left_id := id r; left_name := name r; reasons := why |}
                  | Ok _ => None end) rules =
  id <$> base.filter (fun r => is_ok (block_of ext kw r) <> true) rules.
Proof.
  induction rules as [|r rules IH]; [done|]. rewrite filter_cons. cbn [omap list_omap].
  destruct (block_of ext kw r); cbn [is_ok].
  - rewrite decide_False by auto. exact IH.
  - rewrite decide_True by done. rewrite !fmap_cons. by f_equal.
Qed.

Lemma filter_split {A} (P : A -> Prop) `{forall x, Decision (P x)} (l : list A) :
  base.filter P l ++ base.filter (fun x => ~ P x) l ≡ₚ l.
Proof.
  induction l as [|x l IH]; [done|]. rewrite !filter_cons.
  repeat case_decide; try done; cbn; [by rewrite IH|].
  by rewrite <- Permutation_middle, IH.
Qed.

(** An extension some block needs is one the server has. *)
Lemma needs_supported ext kw (rules : list Rule) (need : Block -> bool) name :
  (forall r b, block_of ext kw r = Ok b -> need b = true -> has ext name = true) ->
  existsb need (omap (fun r => ok (block_of ext kw r)) rules) = true ->
  has ext name = true /\ exists r b, r ∈ rules /\ block_of ext kw r = Ok b /\ need b = true.
Proof.
  intros Hs (b & Hb & Hn)%existsb_elem.
  apply list_elem_of_omap in Hb as (r & Hr & Hok).
  destruct (block_of ext kw r) as [b'|] eqn:E; [|done]. injection Hok as ->.
  split; [by eapply Hs|]. eauto.
Qed.

(** Every rule for this account goes to the server whole or stays here
    with a reason.  The ids included and the ids left are together exactly
    those of the applicable rules, each kind in their order; a rule left has
    at least one reason; and the script asks for an extension only when an
    included rule uses it, which it does only if the server has it. *)
Theorem plan_partition rules acct ext kw :
  let p := plan rules acct ext kw in
  let mine := base.filter (fun r => applicable acct r = true) rules in
  included p ++ (left_id <$> left p) ≡ₚ id <$> mine /\
  included p `sublist_of` (id <$> mine) /\ (left_id <$> left p) `sublist_of` (id <$> mine) /\
  (forall l, l ∈ left p -> reasons l <> []) /\
  exists req body, script p = preamble ++ req ++ body /\
    (req = [] \/
     req = lit "require [" ++ dq (lit "fileinto") ++ lit "];" ++ newline \/
     req = lit "require [" ++ dq (lit "imap4flags") ++ lit "];" ++ newline \/
     req = lit "require [" ++ dq (lit "fileinto") ++ lit ", " ++ dq (lit "imap4flags") ++ lit "];" ++ newline) /\
    (contains (lit "fileinto") req = true ->
       has ext (lit "fileinto") = true /\
       exists r b, r ∈ mine /\ block_of ext kw r = Ok b /\ files (commands b) = true) /\
    (contains (lit "imap4flags") req = true ->
       has ext (lit "imap4flags") = true /\
       exists r b, r ∈ mine /\ block_of ext kw r = Ok b /\ flags b = true).
Proof.
  cbn zeta. unfold plan. rewrite gather_spec.
  set (mine := base.filter _ rules). cbn [included left script]. split_and!.
  - rewrite left_ids, <- fmap_app. apply fmap_Permutation, filter_split.
  - apply fmap_sublist, sublist_filter.
  - rewrite left_ids. apply fmap_sublist, sublist_filter.
  - intros l (r & Hr & Hl)%list_elem_of_omap.
    destruct (block_of ext kw r) eqn:E; [done|]. injection Hl as <-.
    by eapply block_of_reasons.
  - eexists _, _. split; [reflexivity|].
    assert (forall r b, block_of ext kw r = Ok b -> files (commands b) = true ->
      has ext (lit "fileinto") = true) as Hf by (intros r b Hb; apply (block_of_supported _ _ _ _ Hb)).
    assert (forall r b, block_of ext kw r = Ok b -> flags b = true ->
      has ext (lit "imap4flags") = true) as Hg by (intros r b Hb; apply (block_of_supported _ _ _ _ Hb)).
    pose proof (needs_supported ext kw mine _ _ Hf) as Hf'.
    pose proof (needs_supported ext kw mine _ _ Hg) as Hg'.
    destruct (existsb (fun b => files _) _), (existsb flags _);
      (split; [vm_compute; tauto|]); split;
      intros Hc; vm_compute in Hc; first [discriminate Hc | by apply Hf' | by apply Hg'].
Qed.

(** The script does more than the rules when a rule has an action after
    its [Stop] or more than one move.  Here the rules do nothing with a
    message the first rule stops at, and move a message once; on the server
    every [fileinto] of the same rule runs. *)
Theorem server_goes_further n f1 f2 s kw :
  let c := {| field := SubjectField; op := Contains; value := lit "x" |} in
  let mk acts := {| id := lit "1"; account := []; name := n; enabled := true; match_mode := All;
                    conditions := [c]; actions := acts |} in
  holds c s = true ->
  (Rules.plan [mk [Stop; MoveTo f1]] (lit "me") s = [] /\
   sieve_actions (mk [Stop; MoveTo f1]) kw =
     Ok ([lit "fileinto " ++ quote f1 ++ lit ";"; lit "stop;"], false)) /\
  ((action <$> Rules.plan [mk [MoveTo f1; MoveTo f2]] (lit "me") s) = [MoveTo f1] /\
   sieve_actions (mk [MoveTo f1; MoveTo f2]) kw =
     Ok ([lit "fileinto " ++ quote f1 ++ lit ";"; lit "fileinto " ++ quote f2 ++ lit ";"], false)).
Proof.
  intros c mk Hh. unfold Rules.plan, in_running_order.
  cbn [plan_as_written mk enabled account is_empty negb andb actions].
  unfold matches. cbn [conditions match_mode mk forallb]. rewrite Hh. cbn. auto.
Qed.

(** A message with the word looked for. *)
Lemma server_goes_further_witness :
  let s := {| from_name := []; from_addr := []; to := []; cc := []; subject := lit "tax" |} in
  (exists cmds, sieve_actions {| id := lit "1"; account := []; name := lit "n"; enabled := true;
       match_mode := All; conditions := [{| field := SubjectField; op := Contains; value := lit "x" |}];
       actions := [Stop; MoveTo (lit "A")] |} (fun _ => None) = Ok (cmds, false) /\ length cmds = 2%nat) /\
  holds {| field := SubjectField; op := Contains; value := lit "x" |} s = true.
Proof.
  intros s. split; [|vm_compute; reflexivity].
  eexists. split.
  - apply (server_goes_further (lit "n") (lit "A") (lit "B") s (fun _ => None)).
    vm_compute. reflexivity.
  - vm_compute. reflexivity.
Defined.

End Sieve.
