(* ===== verification/Outgoing.v ===== *)
(** * What became of every message this profile tried to send

    Models [meron-core/src/store/outgoing.rs]: the table [outgoing_attempts]
    with its text columns, the states an attempt goes through, and every
    statement that changes it. *)
From S2P Require Import Prelude Text Table Json.
#[local] Open Scope Z_scope.

Module Outgoing.

Inductive AttemptState := Sending | Accepted | Archived | Rejected | Uncertain | Resolved.

Inductive AttemptKind := Now | Scheduled.

#[export] Instance AttemptState_eq_dec : EqDecision AttemptState.
Proof. solve_decision. Defined.
#[export] Instance AttemptKind_eq_dec : EqDecision AttemptKind.
Proof. solve_decision. Defined.

Definition state_as_str (s : AttemptState) : text :=
  match s with
  | Sending => lit "sending"
  | Accepted => lit "accepted"
  | Archived => lit "archived"
  | Rejected => lit "rejected"
  | Uncertain => lit "uncertain"
  | Resolved => lit "resolved"
  end.

Definition state_parse (t : text) : result text AttemptState :=
  if bool_decide (t = lit "sending") then Ok Sending
  else if bool_decide (t = lit "accepted") then Ok Accepted
  else if bool_decide (t = lit "archived") then Ok Archived
  else if bool_decide (t = lit "rejected") then Ok Rejected
  else if bool_decide (t = lit "uncertain") then Ok Uncertain
  else if bool_decide (t = lit "resolved") then Ok Resolved
  else Err (lit "unknown outgoing attempt state " ++ t).

Definition may_have_gone (s : AttemptState) : bool :=
  match s with Sending | Accepted | Archived | Uncertain => true | Rejected | Resolved => false end.

Definition kind_as_str (k : AttemptKind) : text :=
  match k with Now => lit "now" | Scheduled => lit "scheduled" end.

Definition kind_parse (t : text) : result text AttemptKind :=
  if bool_decide (t = lit "now") then Ok Now
  else if bool_decide (t = lit "scheduled") then Ok Scheduled
  else Err (lit "unknown outgoing attempt kind " ++ t).

Record OutgoingAttempt := {
  id : text;
  account : text;
  kind : AttemptKind;
  message_id : text;
  subject : text;
  recipients : text;
  payload : text;
  state : AttemptState;
  error : text;
  archive_error : text;
  created_at : Z;
  updated_at : Z
}.

(** A row of the table [outgoing_attempts]. *)
Record Row := {
  r_id : text;
  r_account : text;
  r_kind : text;
  r_message_id : text;
  r_subject : text;
  r_recipients : text;
  r_payload : text;
  r_state : text;
  r_error : text;
  r_archive_error : text;
  r_created_at : Z;
  r_updated_at : Z
}.

Definition from_row (r : Row) : result text OutgoingAttempt :=
  k ← kind_parse (r_kind r);
  s ← state_parse (r_state r);
  Ok {| id := r_id r; account := r_account r; kind := k; message_id := r_message_id r;
        subject := r_subject r; recipients := r_recipients r; payload := r_payload r;
        state := s; error := r_error r; archive_error := r_archive_error r;
        created_at := r_created_at r; updated_at := r_updated_at r |}.

(** The setters of the [UPDATE] statements. *)
Definition set_cols (st : text) (err : option text) (now : Z) (r : Row) : Row :=
  {| r_id := r_id r; r_account := r_account r; r_kind := r_kind r;
     r_message_id := r_message_id r; r_subject := r_subject r;
     r_recipients := r_recipients r; r_payload := r_payload r;
     r_state := st; r_error := unwrap_or (r_error r) err;
     r_archive_error := r_archive_error r;
     r_created_at := r_created_at r; r_updated_at := now |}.

Definition set_archive_error (err : text) (now : Z) (r : Row) : Row :=
  {| r_id := r_id r; r_account := r_account r; r_kind := r_kind r;
     r_message_id := r_message_id r; r_subject := r_subject r;
     r_recipients := r_recipients r; r_payload := r_payload r;
     r_state := r_state r; r_error := r_error r; r_archive_error := err;
     r_created_at := r_created_at r; r_updated_at := now |}.

Definition has_id (i : text) (r : Row) : bool := bool_decide (r_id r = i).
Definition in_state (s : string) (r : Row) : bool := bool_decide (r_state r = lit s).

(** [id TEXT PRIMARY KEY] and the two [CHECK] clauses. *)
Definition check_row (r : Row) : bool := is_ok (kind_parse (r_kind r)) && is_ok (state_parse (r_state r)).
Definition well_formed (t : list Row) : Prop :=
  NoDup (r_id <$> t) /\ Forall (fun r => check_row r = true) t.

(** [query_row(...).optional()?]: no row is [Ok None]; a row that cannot be
    read is an error. *)
Definition attempt (t : list Row) (i : text) : result text (option OutgoingAttempt) :=
  match query_row (has_id i) t with
  | None => Ok None
  | Some r => Some <$> from_row r
  end.

(** [serde_json::to_string] is a parameter; its failure ends the call. *)
Definition begin_attempt (to_string : Value -> result text text) (t : list Row)
    (i acct : text) (k : AttemptKind) (mid : text) (request : Value) (now : Z)
    : result text (list Row) :=
  let stored := remove_member (lit "passphrase") request in
  let subj := unwrap_or [] (get_str (lit "subject") request) in
  let rcpt := unwrap_or [] (get_str (lit "to") request) in
  body ← to_string stored;
  Ok (insert_or_replace (has_id i)
        {| r_id := i; r_account := acct; r_kind := kind_as_str k; r_message_id := mid;
           r_subject := subj; r_recipients := rcpt; r_payload := body;
           r_state := lit "sending"; r_error := []; r_archive_error := [];
           r_created_at := now; r_updated_at := now |} t).

Definition set_state (t : list Row) (i : text) (s : AttemptState) (now : Z) : list Row * bool :=
  (update (has_id i) (set_cols (state_as_str s) None now) t, (0 <? changed (has_id i) t)%nat).

Definition mark_accepted (t : list Row) (i : text) (now : Z) : list Row :=
  (set_state t i Accepted now).1.

Definition mark_archived (t : list Row) (i : text) (now : Z) : list Row :=
  (set_state t i Archived now).1.

Definition mark_archive_failed (t : list Row) (i err : text) (now : Z) : list Row :=
  update (fun r => has_id i r && in_state "accepted" r) (set_archive_error err now) t.

Definition mark_rejected (t : list Row) (i err : text) (now : Z) : list Row :=
  update (has_id i) (set_cols (lit "rejected") (Some err) now) t.

Definition mark_uncertain (t : list Row) (i err : text) (now : Z) : list Row :=
  update (has_id i) (set_cols (lit "uncertain") (Some err) now) t.

(** [state = 'uncertain' OR (state = 'accepted' AND archive_error <> '')] *)
Definition needs_person (r : Row) : bool :=
  in_state "uncertain" r || (in_state "accepted" r && negb (is_empty (r_archive_error r))).

Definition resolve (t : list Row) (i : text) (now : Z) : list Row * bool :=
  let p r := has_id i r && needs_person r in
  (update p (set_cols (lit "resolved") None now) t, (0 <? changed p t)%nat).

Definition mark_interrupted_uncertain (t : list Row) (now : Z) : list Row * nat :=
  (update (in_state "sending")
     (set_cols (lit "uncertain")
        (Some (lit "the application stopped while this message was being sent")) now) t,
   changed (in_state "sending") t).

Fixpoint collect_rows (rs : list Row) : result text (list OutgoingAttempt) :=
  match rs with
  | [] => Ok []
  | r :: rs' => a ← from_row r; rest ← collect_rows rs'; Ok (a :: rest)
  end.

Definition unsettled (t : list Row) (acct : option text) : result text (list OutgoingAttempt) :=
  collect_rows (order_by (fun a b => r_created_at a <=? r_created_at b)
    (select (fun r => is_none_or (fun a => bool_decide (r_account r = a)) acct && needs_person r) t)).

Definition settled (r : Row) : bool :=
  in_state "rejected" r || in_state "archived" r || in_state "resolved" r ||
  (in_state "accepted" r && is_empty (r_archive_error r)).

Definition prune_settled (t : list Row) (before : Z) : list Row * nat :=
  let p r := (r_updated_at r <? before) && settled r in
  (delete_where p t, changed p t).

(** ** Facts *)

Lemma state_roundtrip s : state_parse (state_as_str s) = Ok s.
Proof. by destruct s. Qed.

Lemma kind_roundtrip k : kind_parse (kind_as_str k) = Ok k.
Proof. by destruct k. Qed.

Lemma state_parse_Ok t s : state_parse t = Ok s <-> t = state_as_str s.
Proof.
  split; [|intros ->; apply state_roundtrip].
  unfold state_parse. repeat (case_bool_decide; [intros [= <-]; done|]). done.
Qed.

Lemma state_as_str_inj a b : state_as_str a = state_as_str b -> a = b.
Proof. intros H. pose proof (state_roundtrip a) as Ha. rewrite H, state_roundtrip in Ha. congruence. Qed.

(** A row's state, when it is one of the six. *)
Definition row_state (r : Row) : option AttemptState := ok (state_parse (r_state r)).

Lemma check_row_state r : check_row r = true -> exists s, row_state r = Some s /\ r_state r = state_as_str s.
Proof.
  unfold check_row, row_state. rewrite andb_true_iff. intros [_ Hs].
  destruct (state_parse (r_state r)) as [s|] eqn:E; [|done]. exists s. split; [done|].
  by apply state_parse_Ok.
Qed.

Lemma update_well_formed p f t :
  (forall r, r_id (f r) = r_id r) -> (forall r, check_row r = true -> check_row (f r) = true) ->
  well_formed t -> well_formed (update p f t).
Proof.
  intros Hid Hc [Hnd Hall]. split; [by rewrite (update_key r_id)|].
  apply Forall_forall. intros r (r0 & Hr0 & ->)%elem_of_update.
  rewrite Forall_forall in Hall. specialize (Hall _ Hr0). by destruct (p r0); [apply Hc|].
Qed.

Lemma set_cols_check st err now r :
  is_ok (state_parse st) = true -> check_row r = true -> check_row (set_cols st err now r) = true.
Proof. unfold check_row. cbn. bools. tauto. Qed.

Lemma delete_well_formed p t : well_formed t -> well_formed (delete_where p t).
Proof.
  intros [Hnd Hall]. split; [by apply delete_where_key|].
  apply Forall_forall. intros r [Hr _]%elem_of_delete_where.
  rewrite Forall_forall in Hall. by apply Hall.
Qed.

Lemma begin_well_formed ts t i acct k mid req now t' :
  begin_attempt ts t i acct k mid req now = Ok t' -> well_formed t -> well_formed t'.
Proof.
  unfold begin_attempt. intros (body & _ & [= <-])%bind_Ok Hw.
  destruct (delete_well_formed (has_id i) t Hw) as [Hnd Hall].
  unfold insert_or_replace. split.
  - rewrite fmap_app. apply NoDup_app. split_and!; [done| |apply NoDup_singleton].
    intros x (r & -> & Hr)%list_elem_of_fmap Hx%list_elem_of_singleton.
    apply elem_of_delete_where in Hr as [_ Hr]. cbn in Hx. unfold has_id in Hr.
    by rewrite bool_decide_eq_false in Hr.
  - apply Forall_app. split; [done|]. repeat constructor.
    unfold check_row. cbn. by destruct k.
Qed.

(** Reading one attempt through an update of it. *)
Lemma attempt_spec t i a :
  well_formed t ->
  attempt t i = Ok (Some a) <-> exists r, r ∈ t /\ r_id r = i /\ from_row r = Ok a.
Proof.
  intros [Hnd Hall]. unfold attempt.
  destruct (query_row (has_id i) t) as [r|] eqn:E.
  - pose proof (proj1 (query_row_key r_id i t r Hnd) E) as [Hr Hi].
    split.
    + intros Ha. exists r. split; [done|]. split; [done|].
      destruct (from_row r); cbn in Ha; congruence.
    + intros (r' & Hr' & Hi' & Ha).
      assert (r' = r) as ->.
      { assert (query_row (has_id i) t = Some r') as E' by by apply (query_row_key r_id).
        congruence. }
      by rewrite Ha.
  - split; [done|]. intros (r & Hr & Hi & _).
    pose proof (proj1 (query_row_None _ _) E _ Hr) as Hf. unfold has_id in Hf.
    by rewrite bool_decide_eq_false in Hf.
Qed.

Lemma attempt_total t i : well_formed t -> exists o, attempt t i = Ok o.
Proof.
  intros [Hnd Hall]. unfold attempt. destruct (query_row _ t) as [r|] eqn:E; [|by eexists].
  apply query_row_Some in E as [Hr _]. rewrite Forall_forall in Hall.
  specialize (Hall _ Hr). unfold check_row in Hall. unfold from_row.
  destruct (kind_parse (r_kind r)); [|done]. destruct (state_parse (r_state r)); [|done].
  by eexists.
Qed.

Lemma query_row_id t i r :
  well_formed t -> query_row (has_id i) t = Some r <-> r ∈ t /\ r_id r = i.
Proof. intros [Hnd _]. by apply (query_row_key r_id). Qed.

Lemma attempt_update t i p f :
  (forall r, r_id (f r) = r_id r) ->
  attempt (update p f t) i =
  match query_row (has_id i) t with
  | None => Ok None
  | Some r => Some <$> from_row (if p r then f r else r)
  end.
Proof.
  intros Hid. unfold attempt.
  rewrite query_row_update by (intros r; unfold has_id; by rewrite Hid).
  by destruct (query_row _ t).
Qed.

Lemma attempt_delete t i p :
  well_formed t ->
  attempt (delete_where p t) i =
  match query_row (has_id i) t with
  | None => Ok None
  | Some r => if p r then Ok None else Some <$> from_row r
  end.
Proof.
  intros [Hnd _]. unfold attempt. rewrite query_row_delete.
  - destruct (query_row _ t) as [r|]; [|done]. by destruct (p r).
  - intros r r'. by apply key_unique.
Qed.

(** What is read of a well-formed row, and the tests on its columns. *)
Lemma attempt_row t i a :
  well_formed t -> attempt t i = Ok (Some a) ->
  exists r, query_row (has_id i) t = Some r /\ from_row r = Ok a /\ r_id r = i.
Proof.
  intros Hw Ha. apply attempt_spec in Ha as (r & Hr & Hi & Hf); [|done].
  exists r. split; [|done]. by apply (query_row_key r_id); [destruct Hw|].
Qed.

Lemma from_row_state r a : from_row r = Ok a -> r_state r = state_as_str (state a).
Proof.
  unfold from_row. intros (k & _ & (s & Hs & [= <-])%bind_Ok)%bind_Ok. by apply state_parse_Ok.
Qed.

Lemma from_row_cols r a : from_row r = Ok a ->
  id a = r_id r /\ account a = r_account r /\ error a = r_error r /\
  archive_error a = r_archive_error r /\ updated_at a = r_updated_at r.
Proof. unfold from_row. by intros (k & _ & (s & _ & [= <-])%bind_Ok)%bind_Ok. Qed.

Lemma in_state_from_row (s : AttemptState) r a :
  from_row r = Ok a -> bool_decide (r_state r = state_as_str s) = bool_decide (state a = s).
Proof.
  intros Hf. rewrite (from_row_state _ _ Hf). apply bool_decide_ext.
  split; [apply state_as_str_inj|by intros ->].
Qed.

Lemma needs_person_from_row r a : from_row r = Ok a ->
  needs_person r = bool_decide (state a = Uncertain) ||
                   (bool_decide (state a = Accepted) && negb (is_empty (archive_error a))).
Proof.
  intros Hf. destruct (from_row_cols _ _ Hf) as (_ & _ & _ & -> & _).
  rewrite <- (in_state_from_row Uncertain r a Hf), <- (in_state_from_row Accepted r a Hf). done.
Qed.

Lemma settled_from_row r a : from_row r = Ok a ->
  settled r = match state a with
              | Rejected | Archived | Resolved => true
              | Accepted => is_empty (archive_error a)
              | Sending | Uncertain => false
              end.
Proof.
  intros Hf. destruct (from_row_cols _ _ Hf) as (_ & _ & _ & -> & _). unfold settled.
  pose proof (in_state_from_row Rejected r a Hf) as H1.
  pose proof (in_state_from_row Archived r a Hf) as H2.
  pose proof (in_state_from_row Resolved r a Hf) as H3.
  pose proof (in_state_from_row Accepted r a Hf) as H4.
  unfold in_state. cbn [state_as_str] in *. rewrite H1, H2, H3, H4. by destruct (state a).
Qed.

Lemma from_row_set_cols s e now r a :
  from_row r = Ok a ->
  from_row (set_cols (state_as_str s) e now r) =
  Ok {| id := id a; account := account a; kind := kind a; message_id := message_id a;
        subject := subject a; recipients := recipients a; payload := payload a; state := s;
        error := unwrap_or (error a) e; archive_error := archive_error a;
        created_at := created_at a; updated_at := now |}.
Proof.
  unfold from_row. intros (k & Hk & (s0 & _ & [= <-])%bind_Ok)%bind_Ok. cbn.
  rewrite Hk. cbn. rewrite state_roundtrip. done.
Qed.

Lemma well_formed_readable t r : well_formed t -> r ∈ t -> exists a, from_row r = Ok a.
Proof.
  intros [_ Hall] Hr. rewrite Forall_forall in Hall. specialize (Hall _ Hr).
  unfold check_row in Hall. unfold from_row.
  destruct (kind_parse (r_kind r)); [|done]. destruct (state_parse (r_state r)); [|done].
  by eexists.
Qed.

Lemma collect_rows_total t rs :
  well_formed t -> (forall r, r ∈ rs -> r ∈ t) -> exists l, collect_rows rs = Ok l /\
  forall a, a ∈ l <-> exists r, r ∈ rs /\ from_row r = Ok a.
Proof.
  intros Hw. induction rs as [|r rs IH]; intros Hsub.
  - exists []. split; [done|]. intros a. split; [by intros ?%not_elem_of_nil|].
    by intros (? & ?%not_elem_of_nil & _).
  - destruct (well_formed_readable t r Hw) as [a Ha]; [apply Hsub; by left|].
    destruct IH as (l & Hl & Hin); [intros; apply Hsub; by right|].
    exists (a :: l). cbn. rewrite Ha. cbn. rewrite Hl. cbn. split; [done|].
    intros a'. rewrite elem_of_cons, Hin. split.
    + intros [->|(r' & ? & ?)]; [exists r; split; [by left|done]|exists r'; split; [by right|done]].
    + intros (r' & [->|Hr']%elem_of_cons & Hf); [left; congruence|right; eauto].
Qed.

Lemma unsettled_total t acct :
  well_formed t -> exists l, unsettled t acct = Ok l /\
  forall a, a ∈ l <-> exists r, r ∈ t /\ from_row r = Ok a /\ needs_person r = true /\
                        is_none_or (fun x => bool_decide (account a = x)) acct = true.
Proof.
  intros Hw. unfold unsettled.
  set (p := fun r => is_none_or _ acct && needs_person r).
  destruct (collect_rows_total t (order_by (fun a b => r_created_at a <=? r_created_at b) (select p t)) Hw)
    as (l & Hl & Hin).
  { intros r. rewrite order_by_perm, elem_of_select. tauto. }
  exists l. split; [done|]. intros a. rewrite Hin. setoid_rewrite order_by_perm.
  setoid_rewrite elem_of_select. subst p. cbn. setoid_rewrite andb_true_iff.
  split; intros (r & H); exists r.
  - destruct H as [[Hr [Ha Hn]] Hf]. destruct (from_row_cols _ _ Hf) as (_ & -> & _). done.
  - destruct H as (Hr & Hf & Hn & Ha). destruct (from_row_cols _ _ Hf) as (_ & Hac & _).
    rewrite Hac in Ha. done.
Qed.

(** Once settled, an attempt is not listed, and the others still are. *)
Lemma unsettled_after_resolve t i now l :
  well_formed t -> unsettled t None = Ok l ->
  exists l', unsettled (resolve t i now).1 None = Ok l' /\
  forall b, b ∈ l' <-> b ∈ l /\ id b <> i.
Proof.
  intros Hw Hl. destruct (unsettled_total t None Hw) as (l0 & Hl0 & Hin).
  assert (l0 = l) as -> by congruence. cbn.
  set (p := fun r => has_id i r && needs_person r). set (f := set_cols (lit "resolved") None now).
  assert (well_formed (update p f t)) as Hw'.
  { apply update_well_formed; [done| |done]. intros r. by apply set_cols_check. }
  assert (forall r, p r = true <-> r_id r = i /\ needs_person r = true) as Hp.
  { intros r. unfold p, has_id. by bools. }
  destruct (unsettled_total _ None Hw') as (l' & Hl' & Hin'). exists l'. split; [done|].
  intros b. rewrite Hin, Hin'. split.
  - intros (r' & (r0 & Hr0 & ->)%elem_of_update & Hf' & Hn' & _).
    destruct (p r0) eqn:E0.
    { exfalso. unfold needs_person, f in Hn'. by cbn in Hn'. }
    destruct (from_row_cols _ _ Hf') as [Hidb _]. split; [by exists r0|].
    intros Heq. apply not_true_iff_false in E0. apply E0, Hp. split; [congruence|exact Hn'].
  - intros [(r0 & Hr0 & Hf0 & Hn0 & _) Hne]. exists r0.
    destruct (from_row_cols _ _ Hf0) as [Hidb _]. split_and!; try done.
    apply elem_of_update. exists r0. split; [done|].
    assert (p r0 = false) as ->; [|done]. apply not_true_iff_false. rewrite Hp. intros [? _]. congruence.
Qed.

(** A person can settle exactly what is shown as needing one.  [resolve]
    answers [true] exactly for the attempts [unsettled] lists; then that
    attempt, and no other, becomes resolved and is not listed again;
    otherwise nothing changes. *)
Theorem resolve_exactly_unsettled t i now :
  well_formed t ->
  exists l, unsettled t None = Ok l /\
  let (t', done) := resolve t i now in
  (done = true <-> exists a, a ∈ l /\ id a = i) /\
  (done = false -> t' = t) /\
  (done = true -> exists a, attempt t' i = Ok (Some a) /\ state a = Resolved /\
     exists l', unsettled t' None = Ok l' /\ forall b, b ∈ l' <-> b ∈ l /\ id b <> i) /\
  (forall j, j <> i -> attempt t' j = attempt t j) /\ well_formed t'.
Proof.
  intros Hw. destruct (unsettled_total t None Hw) as (l & Hl & Hin).
  exists l. split; [done|]. unfold resolve.
  set (p := fun r => has_id i r && needs_person r). set (f := set_cols (lit "resolved") None now).
  set (t' := update p f t).
  assert (well_formed t') as Hw'.
  { apply update_well_formed; [done| |done]. intros r. by apply set_cols_check. }
  assert (forall r, p r = true <-> r_id r = i /\ needs_person r = true) as Hp.
  { intros r. unfold p, has_id. by bools. }
  split_and!.
  - rewrite Nat.ltb_lt, changed_pos. setoid_rewrite Hin. setoid_rewrite Hp. split.
    + intros (r & Hr & Hi & Hn). destruct (well_formed_readable t r Hw Hr) as [a Ha].
      exists a. destruct (from_row_cols _ _ Ha) as [-> _]. split; [|done]. by exists r.
    + intros (a & (r & Hr & Hf & Hn & _) & Hi).
      destruct (from_row_cols _ _ Hf) as [Hid _]. exists r. split_and!; congruence.
  - rewrite Nat.ltb_ge. intros Hc. apply update_noop. lia.
  - intros Hc%Nat.ltb_lt%changed_pos. destruct Hc as (r & Hr & Hpr).
    pose proof Hpr as [Hi Hn]%Hp. destruct (well_formed_readable t r Hw Hr) as [a Ha].
    eexists. split; [|split].
    + unfold t'. rewrite attempt_update by done.
      rewrite (proj2 (query_row_id t i r Hw) (conj Hr Hi)), Hpr.
      unfold f. change (lit "resolved") with (state_as_str Resolved).
      by rewrite (from_row_set_cols Resolved None now r a Ha).
    + done.
    + exact (unsettled_after_resolve t i now l Hw Hl).
  - intros j Hj. unfold t'. rewrite attempt_update by done. unfold attempt.
    destruct (query_row (has_id j) t) as [r|] eqn:E; [|done].
    assert (p r = false) as ->; [|done]. apply query_row_Some in E as [_ E].
    unfold has_id in E. apply bool_decide_eq_true in E. apply not_true_iff_false. rewrite Hp. intros [? _]. congruence.
  - done.
Qed.

(** A table with an uncertain send and a refused one. *)
Lemma resolve_exactly_unsettled_witness :
  let mk i s := {| r_id := i; r_account := lit "me"; r_kind := lit "now"; r_message_id := i;
                   r_subject := []; r_recipients := []; r_payload := []; r_state := s;
                   r_error := []; r_archive_error := []; r_created_at := 1; r_updated_at := 1 |} in
  let t := [mk (lit "a") (lit "uncertain"); mk (lit "b") (lit "rejected")] in
  (resolve t (lit "a") 9).2 = true /\ (resolve t (lit "b") 9).2 = false /\
  exists l, unsettled t None = Ok l.
Proof.
  intros mk t. split; [vm_compute; reflexivity|]. split; [vm_compute; reflexivity|].
  destruct (resolve_exactly_unsettled t (lit "a") 9) as (l & Hl & _); [|by exists l].
  split; [apply (bool_decide_unpack _); vm_compute; exact I|].
  repeat (constructor; [vm_compute; reflexivity|]). constructor.
Defined.

(** Forgetting old history never forgets what may need a person.  An
    attempt is gone after [prune_settled] exactly when it is older than the
    limit and rejected, archived, resolved, or accepted with its copy filed;
    every other one reads as before. *)
Theorem prune_keeps_unsettled t before j a :
  well_formed t -> attempt t j = Ok (Some a) ->
  let t' := (prune_settled t before).1 in
  let old_and_settled :=
    updated_at a < before /\
    (state a = Rejected \/ state a = Archived \/ state a = Resolved \/
     (state a = Accepted /\ archive_error a = [])) in
  (attempt t' j = Ok None <-> old_and_settled) /\
  (~ old_and_settled -> attempt t' j = Ok (Some a)).
Proof.
  intros Hw Ha. destruct (attempt_row t j a Hw Ha) as (r & Hr & Hf & Hi).
  cbn zeta. unfold prune_settled. cbn [fst]. rewrite attempt_delete, Hr, Hf by done.
  destruct (from_row_cols _ _ Hf) as (_ & _ & _ & _ & <-).
  rewrite (settled_from_row r a Hf).
  destruct (Z.ltb_spec (updated_at a) before); cbn [andb];
    [|split; [split; [done|intros [? _]; lia]|done]].
  destruct (state a); cbn;
    try (split; [split; [|tauto]; intros; split; [done|tauto]|tauto]);
    try (split; [split; [done|intros (_ & [?|[?|[?|[? ?]]]]); done]|done]).
  destruct (archive_error a) as [|x e]; cbn.
  - split; [split; [|done]; intros; split; [done|tauto]|tauto].
  - split; [split; [done|intros (_ & [?|[?|[?|[? ?]]]]); done]|done].
Qed.

(** An uncertain send from long ago. *)
Lemma prune_keeps_unsettled_witness :
  let mk i s := {| r_id := i; r_account := lit "me"; r_kind := lit "now"; r_message_id := i;
                   r_subject := []; r_recipients := []; r_payload := []; r_state := s;
                   r_error := []; r_archive_error := []; r_created_at := 1; r_updated_at := 1 |} in
  let t := [mk (lit "a") (lit "uncertain"); mk (lit "b") (lit "rejected")] in
  exists a, attempt (prune_settled t 100).1 (lit "a") = Ok (Some a) /\
            attempt (prune_settled t 100).1 (lit "b") = Ok None.
Proof.
  intros mk t. eexists. split; [|vm_compute; reflexivity].
  refine (proj2 (prune_keeps_unsettled t 100 (lit "a") _ _ _) _).
  - split; [apply (bool_decide_unpack _); vm_compute; exact I|].
    repeat (constructor; [vm_compute; reflexivity|]). constructor.
  - vm_compute. reflexivity.
  - intros [_ [H|[H|[H|[H _]]]]]; vm_compute in H; discriminate H.
Defined.

(** What a new attempt writes down.  After [begin_attempt] the attempt
    reads as sending, with no error, under the given account, kind and
    Message-ID; the stored request is the request with its passphrase taken
    out and every other member as it was; every other attempt reads as
    before; and the table stays well formed. *)
Theorem begin_attempt_spec to_string t i acct k mid request now t' :
  well_formed t -> begin_attempt to_string t i acct k mid request now = Ok t' ->
  well_formed t' /\
  (exists a stored, attempt t' i = Ok (Some a) /\
     id a = i /\ account a = acct /\ kind a = k /\ message_id a = mid /\ state a = Sending /\
     error a = [] /\ archive_error a = [] /\ created_at a = now /\ updated_at a = now /\
     to_string stored = Ok (payload a) /\ get (lit "passphrase") stored = None /\
     forall name, name <> lit "passphrase" -> get name stored = get name request) /\
  (forall j, j <> i -> attempt t' j = attempt t j).
Proof.
  intros Hw Hb. pose proof (begin_well_formed _ _ _ _ _ _ _ _ _ Hb Hw) as Hw'.
  split; [done|]. unfold begin_attempt in Hb. apply bind_Ok in Hb as (body & Hbody & [= <-]).
  set (row := {| r_id := i |}) in *. split.
  - exists {| id := i; account := acct; kind := k; message_id := mid;
             subject := r_subject row; recipients := r_recipients row; payload := body;
             state := Sending; error := []; archive_error := []; created_at := now; updated_at := now |}.
    exists (remove_member (lit "passphrase") request). split.
    + apply attempt_spec; [done|]. exists row. split_and!; [|done|].
      * apply elem_of_app. right. by left.
      * unfold from_row. cbn. by destruct k.
    + split_and!; try done; [apply get_remove_eq|]. intros name Hn. by apply get_remove_ne.
  - intros j Hj. unfold attempt. f_equal.
    assert (query_row (has_id j) (insert_or_replace (has_id i) row t) = query_row (has_id j) t) as ->; [|done].
    destruct (query_row (has_id j) t) as [r|] eqn:E.
    + apply (query_row_id t j r Hw) in E as [Hr Hid]. apply (query_row_id _ j r Hw').
      split; [|done]. apply elem_of_app. left. apply elem_of_delete_where. split; [done|].
      unfold has_id. apply bool_decide_eq_false. congruence.
    + rewrite query_row_None in *. intros r [Hr|Hr]%elem_of_app.
      * apply elem_of_delete_where in Hr as [Hr _]. by apply E.
      * apply list_elem_of_singleton in Hr as ->. unfold has_id. cbn. by apply bool_decide_eq_false.
Qed.

(** A request that carries a passphrase. *)
Lemma begin_attempt_spec_witness :
  let request := Object [(lit "to", String (lit "bob@example.com")); (lit "passphrase", String (lit "pw"))] in
  let to_string v := Ok (lit (if get_str (lit "passphrase") v then "leaked" else "clean")) in
  exists t', begin_attempt to_string [] (lit "m1") (lit "me") Now (lit "m1") request 5 = Ok t' /\
  exists a, attempt t' (lit "m1") = Ok (Some a) /\ payload a = lit "clean" /\ state a = Sending.
Proof.
  intros request to_string. eexists. split; [reflexivity|].
  destruct (begin_attempt_spec to_string [] (lit "m1") (lit "me") Now (lit "m1") request 5 _
    (conj (NoDup_nil_2 : NoDup (r_id <$> [])) (Forall_nil_2 _)) eq_refl) as (_ & (a & stored & Ha & H) & _).
  exists a. split; [exact Ha|]. split; [|apply H].
  destruct H as (_ & _ & _ & _ & _ & _ & _ & _ & _ & Hp & Hn & _).
  unfold to_string, get_str in Hp. rewrite Hn in Hp. cbn in Hp. by injection Hp as <-.
Defined.
End Outgoing.
