(* ===== verification/Scheduled.v ===== *)
(** * Messages written now and due later

    Models the [scheduled_sends] statements of [meron-core/src/store/mod.rs]:
    filing, listing, calling off, and the counting of refused tries that
    spaces the next one. *)
From S2P Require Import Prelude Text Table.
#[local] Open Scope Z_scope.

Module Scheduled.

Record ScheduledSend := {
  id : text;
  account : text;
  due_at : Z;
  subject : text;
  payload : text;
  attempts : Z;
  last_error : text;
  last_attempt : Z
}.

Definition MAX_SEND_ATTEMPTS : Z := 5.
Definition RETRY_BACKOFF_SECONDS : Z := 60.

Definition has_id (i : text) (r : ScheduledSend) : bool := bool_decide (id r = i).
Definition well_formed (t : list ScheduledSend) : Prop := NoDup (id <$> t).

Definition set_try (n : Z) (e : text) (now : Z) (r : ScheduledSend) : ScheduledSend :=
  {| id := id r; account := account r; due_at := due_at r; subject := subject r;
     payload := payload r; attempts := n; last_error := e; last_attempt := now |}.

Definition schedule_send (t : list ScheduledSend) (i acct : text) (due : Z) (subj body : text)
    : list ScheduledSend :=
  insert_or_replace (has_id i)
    {| id := i; account := acct; due_at := due; subject := subj; payload := body;
       attempts := 0; last_error := []; last_attempt := 0 |} t.

Definition scheduled_sends (t : list ScheduledSend) (acct : option text) : list ScheduledSend :=
  order_by (fun a b => due_at a <=? due_at b)
    (select (fun r => is_none_or (fun a => bool_decide (account r = a)) acct) t).

Definition scheduled_send (t : list ScheduledSend) (i : text) : option ScheduledSend :=
  query_row (has_id i) t.

Definition cancel_scheduled_send (t : list ScheduledSend) (i : text)
    : list ScheduledSend * option ScheduledSend :=
  match scheduled_send t i with
  | Some r => (delete_where (has_id i) t, Some r)
  | None => (t, None)
  end.

Definition give_up_on_send (t : list ScheduledSend) (i e : text) (now : Z) : list ScheduledSend :=
  update (has_id i) (set_try MAX_SEND_ATTEMPTS e now) t.

(** [due_at <= ?1 AND attempts < ?2 AND ?1 >= last_attempt + (?3 * (1 << attempts))] *)
Definition due (now : Z) (r : ScheduledSend) : bool :=
  (due_at r <=? now) && (attempts r <? MAX_SEND_ATTEMPTS) &&
  (last_attempt r + RETRY_BACKOFF_SECONDS * Z.shiftl 1 (attempts r) <=? now).

Definition due_scheduled_sends (t : list ScheduledSend) (now : Z) : list ScheduledSend :=
  order_by (fun a b => due_at a <=? due_at b) (select (due now) t).

Definition record_send_failure (t : list ScheduledSend) (i e : text) (now : Z)
    : list ScheduledSend * Z :=
  let t := update (has_id i) (fun r => set_try (attempts r + 1) e now r) t in
  (t, match scheduled_send t i with Some r => attempts r | None => 0 end).

(** ** Facts *)

Lemma scheduled_send_Some t i r :
  well_formed t -> scheduled_send t i = Some r <-> r ∈ t /\ id r = i.
Proof. intros Hw. by apply (query_row_key id). Qed.

Lemma scheduled_send_update t i p f :
  (forall r, id (f r) = id r) ->
  scheduled_send (update p f t) i = (fun r => if p r then f r else r) <$> scheduled_send t i.
Proof. intros Hid. apply query_row_update. intros r. unfold has_id. by rewrite Hid. Qed.

Lemma due_spec now r :
  due now r = true <->
  due_at r <= now /\ attempts r < MAX_SEND_ATTEMPTS /\
  last_attempt r + RETRY_BACKOFF_SECONDS * Z.shiftl 1 (attempts r) <= now.
Proof. unfold due. bools. tauto. Qed.

Lemma due_elem t now r : r ∈ due_scheduled_sends t now <-> r ∈ t /\ due now r = true.
Proof. unfold due_scheduled_sends. by rewrite order_by_perm, elem_of_select. Qed.

(** A refused message waits longer each time and is never tried without
    end.  Recording a refusal counts it and answers the new count; the
    message is not due again before twice the wait of the previous try, is
    due once that wait is over if its hour has come and tries are left, and
    is never due again after [MAX_SEND_ATTEMPTS] refusals or once given up
    on; calling it off hands it back and leaves every other one waiting. *)
Theorem backoff t i e now r :
  well_formed t -> scheduled_send t i = Some r -> 0 <= attempts r ->
  let (t', n) := record_send_failure t i e now in
  n = attempts r + 1 /\
  (exists r', scheduled_send t' i = Some r' /\ payload r' = payload r /\ last_error r' = e /\
     forall later, r' ∈ due_scheduled_sends t' later <->
       due_at r <= later /\ attempts r + 1 < MAX_SEND_ATTEMPTS /\
       now + 2 * (RETRY_BACKOFF_SECONDS * 2 ^ attempts r) <= later) /\
  (forall later, Forall (fun r' => id r' <> i) (due_scheduled_sends (give_up_on_send t i e now) later)) /\
  (let (left, back) := cancel_scheduled_send t i in
   back = Some r /\ scheduled_send left i = None /\
   forall j, j <> i -> scheduled_send left j = scheduled_send t j).
Proof.
  intros Hw Hr Hn. unfold record_send_failure.
  set (f := fun r0 => set_try (attempts r0 + 1) e now r0).
  pose proof (proj1 (scheduled_send_Some t i r Hw) Hr) as [Hin Hid].
  assert (scheduled_send (update (has_id i) f t) i = Some (f r)) as Hs.
  { rewrite scheduled_send_update by done. rewrite Hr. cbn. unfold has_id. by rewrite bool_decide_true. }
  rewrite Hs. split_and!; [done|exists (f r)|..].
  - split_and!; try done. intros later. rewrite due_elem, due_spec. cbn.
    assert (Z.shiftl 1 (attempts r + 1) = 2 * 2 ^ attempts r) as ->.
    { rewrite Z.shiftl_mul_pow2, Z.pow_add_r by lia. lia. }
    assert (f r ∈ update (has_id i) f t) as Hf.
    { by apply query_row_Some in Hs as [? _]. }
    unfold RETRY_BACKOFF_SECONDS. split; [intros (_ & ? & ? & ?)|intros (? & ? & ?)]; split_and!; done || lia.
  - intros later. apply Forall_forall. intros r' [Hr' Hd]%due_elem Hi.
    apply elem_of_update in Hr' as (r0 & _ & ->). apply due_spec in Hd as (_ & Hlt & _).
    destruct (has_id i r0) eqn:E; cbn in *; [lia|]. unfold has_id in E.
    by rewrite bool_decide_eq_false in E.
  - unfold cancel_scheduled_send. rewrite Hr. split_and!; [done|..].
    + unfold scheduled_send. rewrite query_row_None. intros r' [_ Hr']%elem_of_delete_where. done.
    + intros j Hj. unfold scheduled_send.
      rewrite query_row_delete by (intros r1 r2; by apply key_unique).
      destruct (query_row (has_id j) t) as [r1|] eqn:E; [|done].
      apply query_row_Some in E as [_ E]. unfold has_id in *. apply bool_decide_eq_true in E.
      by rewrite bool_decide_false by congruence.
Qed.

(** A message refused once before. *)
Lemma backoff_witness :
  let r := {| id := lit "s"; account := []; due_at := 100; subject := []; payload := []; attempts := 1;
              last_error := []; last_attempt := 200 |} in
  (record_send_failure [r] (lit "s") [] 400).2 = 2 /\
  exists r', scheduled_send (record_send_failure [r] (lit "s") [] 400).1 (lit "s") = Some r' /\
    (r' ∈ due_scheduled_sends (record_send_failure [r] (lit "s") [] 400).1 640) /\
    ~ (r' ∈ due_scheduled_sends (record_send_failure [r] (lit "s") [] 400).1 639).
Proof.
  intros r. destruct (backoff [r] (lit "s") [] 400 r) as (Hn & (r' & Hs & _ & _ & Hd) & _).
  - apply NoDup_singleton.
  - vm_compute. reflexivity.
  - cbn. lia.
  - split; [exact Hn|]. exists r'. split; [exact Hs|]. split; [apply Hd; vm_compute; intuition discriminate|].
    rewrite Hd. intros (_ & _ & H). vm_compute in H. by apply H.
Defined.

End Scheduled.
