(* ===== verification/Merge.v ===== *)
(** * Personalized mass mail

    Models [meron-core/src/merge/mod.rs]: reading the recipients, filling a
    template, the preview with its problems, and the batches kept in the
    tables [merge_batches] and [merge_items].  A [HashMap] of columns is a
    [gmap]; the [BTreeSet] of placeholders is their sorted list without
    repetitions. *)
From S2P Require Import Prelude Text Table Outgoing.
#[local] Open Scope Z_scope.

Module Merge.

Definition MAX_RECIPIENTS : nat := 500.
Definition DEFAULT_SPACING : Z := 3.

Record Recipient := {
  line : nat;
  email : text;
  name : text;
  columns : gmap text text
}.

Definition DQ : Z := 34.

(** The character loop of [split_csv]: whether inside quotes, and the field
    so far. *)
Fixpoint split_csv_from (sep : Z) (quoted : bool) (field s : text) : list text :=
  match s with
  | [] => [trim field]
  | c :: s' =>
      if c =? DQ then
        if quoted then
          match s' with
          | d :: s'' =>
              if d =? DQ then split_csv_from sep quoted (field ++ [DQ]) s''
              else split_csv_from sep false field s'
          | [] => split_csv_from sep false field s'
          end
        else split_csv_from sep true field s'
      else if (c =? sep) && negb quoted then trim field :: split_csv_from sep quoted [] s'
      else split_csv_from sep quoted (field ++ [c]) s'
  end.

Definition split_csv (line : text) (separator : Z) : list text :=
  split_csv_from separator false [] line.

(** "Name <address>" or a bare address: the name and the address. *)
Definition one_address (s : text) : text * text :=
  let s := trim s in
  match rfind_char 60 s, rfind_char 62 s with
  | Some op, Some cl =>
      if (op <? cl)%nat
      then (trim (trim_matches (Z.eqb DQ) (trim (take op s))),
            trim (drop (S op) (take cl s)))
      else ([], s)
  | _, _ => ([], s)
  end.

(** [header.zip(cells.chain(repeat(""))).collect()]: a column named twice
    keeps its last cell. *)
Fixpoint zip_columns (header cells : list text) (m : gmap text text) : gmap text text :=
  match header with
  | [] => m
  | h :: header' => zip_columns header' (tail cells) (<[h := unwrap_or [] (head cells)]> m)
  end.

Section WithUnicode.
Context `{Unicode}.

(** The lines that are not blank, with their numbers from 1. *)
Definition numbered_lines (s : text) : list (nat * text) :=
  base.filter (fun l => l.2 <> []) (imap (fun i l => (S i, trim l)) (lines s)).

Definition parse_recipients (s : text) : list Recipient :=
  let ls := numbered_lines s in
  match ls with
  | [] => []
  | (_, first) :: rest =>
      let separator := find_by (fun c => contains_char c first) [9; 59; 44] in
      let header :=
        h ← (fun c => to_lowercase <$> split_csv first c) <$> separator;
        if bool_decide (lit "email" ∈ h) then Some h else None in
      match header, separator with
      | Some header, Some sep =>
          (fun l =>
             let cols := zip_columns header (split_csv l.2 sep) ∅ in
             {| line := l.1; email := unwrap_or [] (cols !! lit "email");
                name := unwrap_or [] (cols !! lit "name"); columns := cols |}) <$> rest
      | _, _ =>
          (fun l =>
             let (n, e) := one_address l.2 in
             {| line := l.1; email := e; name := n; columns := ∅ |}) <$> ls
      end
  end.

Definition first_name (n : text) : text :=
  let n := trim n in
  let given := match find_char 44 n with
               | Some comma => trim (drop (S comma) n)
               | None => n
               end in
  unwrap_or [] (head (split_whitespace given)).

Record Sender := { me_name : text; me_email : text }.

Definition BUILT_IN : list text :=
  [lit "to.name"; lit "to.firstName"; lit "to.email"; lit "me.name"; lit "me.firstName"; lit "me.email"].

Definition value_of (n : text) (row : Recipient) (me : Sender) : option text :=
  if bool_decide (n = lit "to.name") then Some (name row)
  else if bool_decide (n = lit "to.firstName") then Some (first_name (name row))
  else if bool_decide (n = lit "to.email") then Some (email row)
  else if bool_decide (n = lit "me.name") then Some (me_name me)
  else if bool_decide (n = lit "me.firstName") then Some (first_name (me_name me))
  else if bool_decide (n = lit "me.email") then Some (me_email me)
  else columns row !! to_lowercase n.

Definition OPEN : text := lit "{{".
Definition CLOSE : text := lit "}}".

(** The loop of [placeholders]; each round leaves a shorter rest. *)
Fixpoint placeholders_from (fuel : nat) (rest : text) (found : list text) : list text :=
  match fuel with
  | O => found
  | S n =>
      match find OPEN rest with
      | None => found
      | Some op =>
          let after := drop (op + 2) rest in
          match find CLOSE after with
          | None => found
          | Some cl =>
              let nm := trim (take cl after) in
              let found := if negb (is_empty nm) && negb (bool_decide (nm ∈ found))
                           then found ++ [nm] else found in
              placeholders_from n (drop (cl + 2) after) found
          end
      end
  end.

Definition placeholders (s : text) : list text := placeholders_from (length s) s [].

(** The loop of [fill]. *)
Fixpoint fill_from (fuel : nat) (rest : text) (row : Recipient) (me : Sender) : text :=
  match fuel with
  | O => rest
  | S n =>
      match find OPEN rest with
      | None => rest
      | Some op =>
          let after := drop (op + 2) rest in
          match find CLOSE after with
          | None => rest
          | Some cl =>
              let nm := trim (take cl after) in
              take op rest ++
              match value_of nm row me with
              | Some (c :: v) => c :: v
              | _ => take (2 + cl + 2) (drop op rest)
              end ++ fill_from n (drop (cl + 2) after) row me
          end
      end
  end.

Definition fill (s : text) (row : Recipient) (me : Sender) : text := fill_from (length s) s row me.

Record Rendered := {
  index : nat;
  r_line : nat;
  r_to : text;
  r_name : text;
  r_subject : text;
  r_body : text;
  r_problems : list text
}.

Record Preview := { messages : list Rendered; problems : list text; ready : bool }.

Definition looks_like_address (addr : text) : bool :=
  match split_once 64 addr with
  | None => false
  | Some (local, domain) =>
      negb (is_empty local) && contains_char 46 domain &&
      negb (existsb (fun c => is_whitespace c || (c =? 44) || (c =? 59) || (c =? 60) || (c =? 62)) addr)
  end.

(** The placeholders used, as a [BTreeSet] lists them. *)
Definition used_names (subj body : text) : list text :=
  order_by text_le (remove_dups (placeholders subj ++ placeholders body)).

Definition known (cols : list text) (n : text) : bool :=
  bool_decide (n ∈ BUILT_IN) || bool_decide (to_lowercase n ∈ cols).

Definition all_columns (rows : list Recipient) : list text :=
  mbind (fun r => (map_to_list (columns r)).*1) rows.

(** The problems of one row, and the addresses seen once it is passed. *)
Definition row_problems (cols used : list text) (me : Sender) (seen : list text) (row : Recipient)
    : list text * list text :=
  let lower := to_lowercase (email row) in
  let '(own, seen) :=
    if negb (looks_like_address (email row)) then ([lit "invalidAddress"], seen)
    else if bool_decide (lower ∈ seen) then ([lit "duplicate"], seen)
    else ([], lower :: seen) in
  (own ++ ((fun n => lit "missing:" ++ n) <$>
           base.filter (fun n => known cols n && is_empty (trim (unwrap_or [] (value_of n row me))) = true) used),
   seen).

Fixpoint render_from (cols used : list text) (me : Sender) (subj body : text)
    (i : nat) (seen : list text) (rows : list Recipient) : list Rendered :=
  match rows with
  | [] => []
  | row :: rest =>
      let (own, seen) := row_problems cols used me seen row in
      {| index := i; r_line := line row; r_to := email row; r_name := name row;
         r_subject := fill subj row me; r_body := fill body row me; r_problems := own |}
      :: render_from cols used me subj body (S i) seen rest
  end.

Definition batch_problems (rows : list Recipient) (subj : text) (cols used : list text) : list text :=
  (if bool_decide (rows = []) then [lit "noRecipients"] else []) ++
  (if (MAX_RECIPIENTS <? length rows)%nat then [lit "tooMany"] else []) ++
  (if is_empty (trim subj) then [lit "noSubject"] else []) ++
  ((fun n => lit "unknown:" ++ n) <$> base.filter (fun n => known cols n = false) used).

Definition preview (recipients subj body : text) (me : Sender) : Preview :=
  let rows := parse_recipients recipients in
  let cols := all_columns rows in
  let used := used_names subj body in
  let probs := batch_problems rows subj cols used in
  let msgs := render_from cols used me subj body 0 [] rows in
  {| messages := msgs; problems := probs;
     ready := is_nil probs && forallb (fun m => is_nil (r_problems m)) msgs |}.

End WithUnicode.

(** ** Batches *)

Record BatchRow := {
  b_id : text;
  b_account : text;
  b_from : text;
  b_subject : text;
  b_spacing : Z;
  b_state : text;
  b_reason : text;
  b_created_at : Z
}.

Record ItemRow := {
  i_batch : text;
  i_idx : Z;
  i_to : text;
  i_name : text;
  i_subject : text;
  i_body : text;
  i_message_id : text;
  i_state : text;
  i_error : text;
  i_updated_at : Z
}.

(** The tables a batch lives in, and the attempts [recover] reads. *)
Record Store := {
  batches_t : list BatchRow;
  items_t : list ItemRow;
  attempts_t : list Outgoing.Row
}.

#[export] Instance BatchRow_eq_dec : EqDecision BatchRow.
Proof. solve_decision. Defined.
#[export] Instance ItemRow_eq_dec : EqDecision ItemRow.
Proof. solve_decision. Defined.

Definition is_batch (i : text) (b : BatchRow) : bool := bool_decide (b_id b = i).
Definition is_item (i : text) (n : Z) (r : ItemRow) : bool :=
  bool_decide (i_batch r = i) && (i_idx r =? n).
Definition batch_in (s : string) (b : BatchRow) : bool := bool_decide (b_state b = lit s).
Definition item_in (s : string) (r : ItemRow) : bool := bool_decide (i_state r = lit s).

Definition set_batch (st reason : text) (b : BatchRow) : BatchRow :=
  {| b_id := b_id b; b_account := b_account b; b_from := b_from b; b_subject := b_subject b;
     b_spacing := b_spacing b; b_state := st; b_reason := reason; b_created_at := b_created_at b |}.

(** [SET state, error, updated_at], each column kept when not given. *)
Definition set_item (st : text) (err : option text) (now : option Z) (r : ItemRow) : ItemRow :=
  {| i_batch := i_batch r; i_idx := i_idx r; i_to := i_to r; i_name := i_name r;
     i_subject := i_subject r; i_body := i_body r; i_message_id := i_message_id r;
     i_state := st; i_error := unwrap_or (i_error r) err;
     i_updated_at := unwrap_or (i_updated_at r) now |}.

Definition with_batches (f : list BatchRow -> list BatchRow) (s : Store) : Store :=
  {| batches_t := f (batches_t s); items_t := items_t s; attempts_t := attempts_t s |}.
Definition with_items (f : list ItemRow -> list ItemRow) (s : Store) : Store :=
  {| batches_t := batches_t s; items_t := f (items_t s); attempts_t := attempts_t s |}.

(** The domain after the last [@] of the sender, for Message-IDs. *)
Definition domain_of (from : text) : text :=
  match rsplit_once 64 from with
  | Some (_, d) => if is_empty d then lit "oreneta.invalid" else d
  | None => lit "oreneta.invalid"
  end.

Definition message_id_of (i from : text) (n : nat) : text :=
  lit "<merge-" ++ i ++ lit "-" ++ show_nat n ++ lit "@" ++ domain_of from ++ lit ">".

(** The transaction of [create]: [INSERT] fails on a key already there, and
    then nothing is stored. *)
Definition create (s : Store) (i acct from subject_template : text) (p : Preview)
    (reviewed : nat) (spacing now : Z) : result text Store :=
  if negb (ready p) then Err (lit "this mailing still has problems to fix before it can go")
  else if negb (length (messages p) =? reviewed)%nat
  then Err (lit "the recipients changed since the preview: review it again")
  else
    let items :=
      (fun m => {| i_batch := i; i_idx := Z.of_nat (index m); i_to := r_to m; i_name := r_name m;
                   i_subject := r_subject m; i_body := r_body m;
                   i_message_id := message_id_of i from (index m);
                   i_state := lit "pending"; i_error := []; i_updated_at := now |}) <$> messages p in
    if existsb (is_batch i) (batches_t s) ||
       existsb (fun r => existsb (fun r' => is_item (i_batch r) (i_idx r) r') (items_t s)) items
    then Err (lit "UNIQUE constraint failed")
    else
      Ok {| batches_t := batches_t s ++
              [{| b_id := i; b_account := acct; b_from := from; b_subject := subject_template;
                  b_spacing := Z.max spacing 0; b_state := lit "sending"; b_reason := [];
                  b_created_at := now |}];
            items_t := items_t s ++ items;
            attempts_t := attempts_t s |}.

(** [batch]: the head and its items in order, or nothing. *)
Definition items_of (s : Store) (i : text) : list ItemRow :=
  order_by (fun a b => i_idx a <=? i_idx b)
    (select (fun r => bool_decide (i_batch r = i)) (items_t s)).

Definition batch (s : Store) (i : text) : option (BatchRow * list ItemRow) :=
  b ← query_row (is_batch i) (batches_t s); Some (b, items_of s i).

(** The mailings, the latest first. *)
Definition batches (s : Store) : list (BatchRow * list ItemRow) :=
  omap (batch s) (b_id <$> order_by (fun a b => b_created_at b <=? b_created_at a) (batches_t s)).

Definition claim_next (s : Store) (i : text) (now : Z) : Store * option ItemRow :=
  match query_row (is_batch i) (batches_t s) with
  | Some b =>
      if negb (batch_in "sending" b) then (s, None)
      else
        match find_by (item_in "pending") (items_of s i) with
        | Some item =>
            (with_items (update (is_item i (i_idx item))
               (set_item (lit "sending") None (Some now))) s, Some item)
        | None => (with_batches (update (is_batch i) (set_batch (lit "done") [])) s, None)
        end
  | None => (s, None)
  end.

Inductive Outcome :=
| Accepted
| Rejected (e : text)
| Deferred (e : text)
| Uncertain (e : text).

Definition is_deferral `{Unicode} (e : text) : bool :=
  let lower := to_lowercase e in
  existsb (fun sign => contains sign lower)
    [lit "421"; lit "450"; lit "451"; lit "452"; lit "4.7."; lit "rate limit"; lit "too many";
     lit "try again later"; lit "throttl"].

Definition settle (s : Store) (i : text) (n : Z) (o : Outcome) (now : Z) : Store :=
  let '(st, err) := match o with
                    | Accepted => (lit "accepted", [])
                    | Rejected e => (lit "rejected", e)
                    | Deferred e => (lit "pending", e)
                    | Uncertain e => (lit "uncertain", e)
                    end in
  let s := with_items (update (is_item i n) (set_item st (Some err) (Some now))) s in
  match o with
  | Deferred reason =>
      with_batches (update (fun b => is_batch i b && batch_in "sending" b)
        (set_batch (lit "paused") (lit "the server asked to wait: " ++ reason))) s
  | _ => s
  end.

Definition cancel (s : Store) (i : text) (now : Z) : Store :=
  with_items (update (fun r => bool_decide (i_batch r = i) && item_in "pending" r)
                (set_item (lit "cancelled") None (Some now)))
    (with_batches (update (is_batch i) (set_batch (lit "cancelled") [])) s).

Definition resume (s : Store) (i : text) (retry_rejected : bool) : result text Store :=
  let p b := is_batch i b && (batch_in "paused" b || batch_in "done" b) in
  if (changed p (batches_t s) =? 0)%nat
  then Err (lit "only a paused or finished mailing can carry on")
  else
    let s := with_batches (update p (set_batch (lit "sending") [])) s in
    Ok (if retry_rejected
        then with_items (update (fun r => bool_decide (i_batch r = i) && item_in "rejected" r)
               (set_item (lit "pending") (Some []) None)) s
        else s).

(** What a stuck item's attempt says became of it: [None] when no attempt was
    begun. *)
Definition recovered (a : option Outgoing.OutgoingAttempt) : option Outcome :=
  match a with
  | None => None
  | Some a =>
      Some match Outgoing.state a with
           | Outgoing.Accepted | Outgoing.Archived => Accepted
           | Outgoing.Rejected => Rejected []
           | _ => Uncertain (lit "Oreneta stopped while this message was being sent")
           end
  end.

(** The loop of [recover] over the items that were being sent. *)
Fixpoint recover_items (s : Store) (stuck : list ItemRow) (now : Z) : result text Store :=
  match stuck with
  | [] => Ok s
  | r :: rest =>
      a ← Outgoing.attempt (attempts_t s) (i_message_id r);
      let s' := match recovered a with
                | None => with_items (update (is_item (i_batch r) (i_idx r))
                                        (set_item (lit "pending") None (Some now))) s
                | Some o => settle s (i_batch r) (i_idx r) o now
                end in
      recover_items s' rest now
  end.

Definition recover (s : Store) (now : Z) : result text (Store * list text) :=
  s' ← recover_items s (select (item_in "sending") (items_t s)) now;
  let paused := b_id <$> select (batch_in "sending") (batches_t s') in
  Ok (with_batches (update (batch_in "sending")
        (set_batch (lit "paused") (lit "Oreneta stopped while this was being sent"))) s', paused).

(** ** Reading a table back *)

(** A cell between quotes, the quotes inside it doubled. *)
Definition double_quotes (s : text) : text := mbind (fun c => if c =? DQ then [DQ; DQ] else [c]) s.
Definition csv_quote (s : text) : text := [DQ] ++ double_quotes s ++ [DQ].

Lemma split_csv_quoted sep field s rest :
  starts_with [DQ] rest = false ->
  split_csv_from sep true field (double_quotes s ++ DQ :: rest) =
  split_csv_from sep false (field ++ s) rest.
Proof.
  intros Hr. revert field. induction s as [|c s IH]; intros field.
  - rewrite app_nil_r. cbn [double_quotes mbind list_bind app split_csv_from].
    rewrite Z.eqb_refl. destruct rest as [|d rest]; [done|]. cbn [starts_with] in Hr.
    rewrite andb_true_r in Hr. rewrite Z.eqb_sym in Hr. by rewrite Hr.
  - unfold double_quotes. rewrite bind_cons, <- app_assoc. fold (double_quotes s).
    destruct (Z.eqb_spec c DQ) as [->|Hc].
    + cbn [app split_csv_from]. rewrite !Z.eqb_refl, IH, <- app_assoc. done.
    + cbn [app split_csv_from]. rewrite (proj2 (Z.eqb_neq _ _) Hc). rewrite andb_false_r.
      rewrite IH, <- app_assoc. done.
Qed.

(** A table survives being written and read.  Cells written between
    quotes, quotes doubled, and joined by the separator are read back as they
    were, whatever they hold: separators, quotes and all, blanks around a
    cell alone being lost. *)
Theorem split_csv_roundtrip sep cells :
  sep <> DQ -> cells <> [] ->
  split_csv (join [sep] (csv_quote <$> cells)) sep = trim <$> cells.
Proof.
  intros Hsep. unfold split_csv. induction cells as [|c cells IH]; [done|]. intros _.
  assert (forall rest, starts_with [DQ] rest = false ->
    split_csv_from sep false [] (csv_quote c ++ rest) = split_csv_from sep false c rest) as Hc.
  { intros rest Hr. unfold csv_quote. rewrite <- !app_assoc. cbn.
    by rewrite split_csv_quoted. }
  destruct cells as [|c' cells].
  - cbn [fmap list_fmap join]. rewrite <- (app_nil_r (csv_quote c)), Hc by done. done.
  - cbn [fmap list_fmap] in *. cbn [join]. rewrite Hc.
    + cbn [app split_csv_from]. rewrite (proj2 (Z.eqb_neq _ _) Hsep), Z.eqb_refl.
      cbn [negb andb]. f_equal. by apply IH.
    + cbn [app starts_with]. rewrite andb_true_r. apply Z.eqb_neq. congruence.
Qed.

(** Cells with a separator and a quote inside. *)
Lemma split_csv_roundtrip_witness :
  split_csv (join [44] (csv_quote <$> [lit "Doe, Jane"; [DQ; 65; DQ]; []])) 44 =
  [lit "Doe, Jane"; [DQ; 65; DQ]; []].
Proof. apply (split_csv_roundtrip 44 [lit "Doe, Jane"; [DQ; 65; DQ]; []]); discriminate. Defined.

(** ** Filling a template *)

(** A template as a person reads it: text, and holes with a name. *)
Inductive Piece := Text (t : text) | Hole (n : text).

Definition print_piece (p : Piece) : text :=
  match p with Text t => t | Hole n => OPEN ++ n ++ CLOSE end.
Definition print_template (ps : list Piece) : text := mbind print_piece ps.

(** Text without an opening brace, a name without a closing one. *)
Definition plain (p : Piece) : Prop :=
  match p with Text t => 123 ∉ t | Hole n => 125 ∉ n end.

Section Fill.
Context `{Unicode}.

(** What a piece becomes: a hole its value if it has one that is not empty. *)
Definition fill_piece (row : Recipient) (me : Sender) (p : Piece) : text :=
  match p with
  | Text t => t
  | Hole n => match value_of (trim n) row me with
              | Some (c :: v) => c :: v
              | _ => OPEN ++ n ++ CLOSE
              end
  end.

Lemma find_after c p t rest :
  head p = Some c -> c ∉ t -> find p (t ++ p ++ rest) = Some (length t).
Proof.
  intros Hp Hc. induction t as [|x t IH].
  - cbn [app length]. destruct (p ++ rest) as [|y s] eqn:E; [by destruct p|].
    assert (starts_with p (y :: s) = true) as Hs
      by (apply starts_with_spec; exists rest; by rewrite E).
    cbn [find]. by rewrite Hs.
  - rewrite not_elem_of_cons in Hc. destruct Hc as [Hx Hc].
    cbn [app find]. rewrite (IH Hc). destruct p as [|y p]; [done|]. injection Hp as ->.
    cbn [starts_with]. by rewrite (proj2 (Z.eqb_neq _ _) Hx).
Qed.

Lemma find_absent c p t : head p = Some c -> c ∉ t -> find p t = None.
Proof.
  intros Hp Hc. apply find_None. intros j. destruct p as [|y p]; [done|]. injection Hp as ->.
  destruct (drop j t) as [|x s] eqn:E; [done|]. cbn.
  destruct (Z.eqb_spec c x) as [->|]; [|done]. exfalso. apply Hc.
  rewrite <- (take_drop j t), E. apply elem_of_app. right. by left.
Qed.

Lemma fill_from_hole n fuel t rest row me :
  123 ∉ t -> 125 ∉ n ->
  fill_from (S fuel) (t ++ OPEN ++ n ++ CLOSE ++ rest) row me =
  t ++ fill_piece row me (Hole n) ++ fill_from fuel rest row me.
Proof.
  intros Ht Hn. cbn [fill_from]. rewrite (find_after 123) by done.
  assert (drop (length t + 2) (t ++ OPEN ++ n ++ CLOSE ++ rest) = n ++ CLOSE ++ rest) as ->.
  { rewrite <- drop_drop, drop_app_length. done. }
  rewrite (find_after 125) by done. rewrite !take_app_length.
  assert (drop (length n + 2) (n ++ CLOSE ++ rest) = rest) as ->.
  { rewrite <- drop_drop, drop_app_length. done. }
  rewrite drop_app_length. f_equal. f_equal. unfold fill_piece.
  destruct (value_of (trim n) row me) as [[|c v]|]; try done.
  all: replace (2 + length n + 2)%nat with (length (OPEN ++ n ++ CLOSE))
    by (rewrite !length_app; change (length OPEN) with 2%nat; change (length CLOSE) with 2%nat; lia);
    rewrite !app_assoc, <- (app_assoc _ _ CLOSE), take_app_length; done.
Qed.

Lemma fill_from_plain fuel t row me : 123 ∉ t -> fill_from fuel t row me = t.
Proof. intros Ht. destruct fuel; cbn; [done|]. by rewrite (find_absent 123). Qed.

Lemma fill_template fuel t ps row me :
  123 ∉ t -> Forall plain ps -> (length (print_template ps) <= fuel)%nat ->
  fill_from fuel (t ++ print_template ps) row me = t ++ mbind (fill_piece row me) ps.
Proof.
  intros Ht Hps. revert fuel t Ht. induction Hps as [|p ps Hp Hps IH]; intros fuel t Ht Hf.
  - unfold print_template. cbn. rewrite app_nil_r. by apply fill_from_plain.
  - unfold print_template in *. rewrite bind_cons in *. rewrite bind_cons.
    destruct p as [s|n]; cbn [print_piece plain] in *.
    + rewrite !app_assoc. rewrite IH; [done| |].
      * rewrite not_elem_of_app. done.
      * rewrite length_app in Hf. lia.
    + rewrite !length_app in Hf. change (length OPEN) with 2%nat in Hf. destruct fuel as [|fuel]; [lia|].
      rewrite <- !app_assoc, fill_from_hole by done. f_equal. f_equal.
      apply (IH fuel [] (not_elem_of_nil 123)). lia.
Qed.

(** A filled text is the template with its holes filled and nothing else
    touched.  Each hole becomes its value, or stays as written when it has
    none; the text between the holes is unchanged; and a value is never
    itself read as a template. *)
Theorem fill_spec ps row me :
  Forall plain ps -> fill (print_template ps) row me = mbind (fill_piece row me) ps.
Proof.
  intros Hps. apply (fill_template _ [] ps row me (not_elem_of_nil 123) Hps). lia.
Qed.

End Fill.

(** A value that itself looks like a hole. *)
Lemma fill_spec_witness :
  let row := {| line := 1; email := lit "jo@example.com"; name := lit "{{to.email}} X"; columns := ∅ |} in
  let me := {| me_name := lit "Me"; me_email := lit "me@example.com" |} in
  fill (print_template [Text (lit "Hi "); Hole (lit " to.name "); Text (lit ", "); Hole (lit "what")]) row me =
  lit "Hi {{to.email}} X, {{what}}".
Proof.
  intros row me. rewrite fill_spec; [vm_compute; reflexivity|].
  repeat (apply Forall_cons; split; [cbn; apply (bool_decide_unpack _); vm_compute; exact I|]).
  apply Forall_nil_2.
Defined.

(** ** The preview *)

Section PreviewFacts.
Context `{Unicode}.

Lemma render_from_lookup cols used me subj body i seen rows k :
  (fun m => (index m, r_line m, r_to m, r_name m, r_subject m, r_body m)) <$>
    render_from cols used me subj body i seen rows !! k =
  (fun row => ((i + k)%nat, line row, email row, name row, fill subj row me, fill body row me)) <$>
    rows !! k.
Proof.
  revert i seen k. induction rows as [|row rows IH]; intros i seen k; [done|]. cbn.
  destruct (row_problems cols used me seen row) as [own seen'].
  destruct k as [|k]; cbn; [by rewrite Nat.add_0_r|].
  rewrite IH. by rewrite Nat.add_succ_comm.
Qed.

(** What makes a row fit to be sent to, the addresses before it known. *)
Definition row_fits (cols used : list text) (me : Sender) (row : Recipient) : Prop :=
  looks_like_address (email row) = true /\
  forall n, n ∈ used -> known cols n = true -> trim (unwrap_or [] (value_of n row me)) <> [].

Lemma row_problems_nil cols used me seen row :
  (row_problems cols used me seen row).1 = [] <->
  row_fits cols used me row /\ to_lowercase (email row) ∉ seen /\
  (row_problems cols used me seen row).2 = to_lowercase (email row) :: seen.
Proof.
  unfold row_problems, row_fits.
  destruct (looks_like_address (email row)); cbn [negb]; [|split; [done|by intros [[? _] _]]].
  case_bool_decide as Hs; [split; [done|by intros (_ & ? & _)]|].
  cbn [fst snd app]. rewrite fmap_nil_iff, filter_nil_iff.
  split.
  - intros Hn. split; [split; [done|]|done]. intros n Hn' Hk Ht. apply (Hn n Hn').
    by rewrite Hk, Ht.
  - intros [[_ Hn] _] n Hn' Hp. apply andb_true_iff in Hp as [Hk Ht].
    apply (Hn n Hn' Hk). by destruct (trim _).
Qed.

Lemma render_from_clean cols used me subj body i seen rows :
  forallb (fun m => is_nil (r_problems m)) (render_from cols used me subj body i seen rows) = true <->
  (forall row, row ∈ rows -> row_fits cols used me row) /\
  NoDup ((to_lowercase ∘ email) <$> rows) /\
  (forall a, a ∈ (to_lowercase ∘ email) <$> rows -> a ∉ seen).
Proof.
  revert i seen. induction rows as [|row rows IH]; intros i seen.
  { cbn. split; [|done]. intros _. split_and!; [by intros ? ?%not_elem_of_nil|constructor|].
    by intros ? ?%not_elem_of_nil. }
  cbn [render_from]. pose proof (row_problems_nil cols used me seen row) as Hnil.
  destruct (row_problems cols used me seen row) as [own seen'] eqn:E. cbn [fst snd] in Hnil.
  cbn [forallb r_problems]. rewrite andb_true_iff, IH, fmap_cons, NoDup_cons.
  rewrite is_nil_true.
  rewrite Hnil. setoid_rewrite elem_of_cons. split.
  - intros ((Hf & Hs & ->) & Hall & Hnd & Hseen). split; [|split; [split; [|done]|]].
    + intros r [->|Hr]; [done|by apply Hall].
    + intros Hin. apply (Hseen _ Hin). by left.
    + intros a [->|Ha]; [done|]. specialize (Hseen a Ha).
      rewrite not_elem_of_cons in Hseen. by destruct Hseen.
  - intros (Hall & [Hni Hnd] & Hseen).
    assert (row_fits cols used me row /\ to_lowercase (email row) ∉ seen) as [Hf Hs] by
      (split; [apply Hall; by left|apply Hseen; by left]).
    assert (own = [] /\ seen' = to_lowercase (email row) :: seen) as [-> ->].
    { unfold row_problems in E. destruct Hf as [Ha Hv]. rewrite Ha in E. cbn [negb] in E.
      rewrite bool_decide_false in E by done. injection E as <- <-. split; [|done].
      cbn [app]. rewrite fmap_nil_iff, filter_nil_iff. intros n Hn Hp.
      apply andb_true_iff in Hp as [Hk Ht]. apply (Hv n Hn Hk). by destruct (trim _). }
    split_and!; [done..|intros r Hr; apply Hall; by right|done|].
    intros a Ha. rewrite not_elem_of_cons. split; [|apply Hseen; by right].
    intros ->. by apply Hni.
Qed.

Lemma batch_problems_nil rows subj cols used :
  batch_problems rows subj cols used = [] <->
  rows <> [] /\ (length rows <= MAX_RECIPIENTS)%nat /\ trim subj <> [] /\
  forall n, n ∈ used -> known cols n = true.
Proof.
  unfold batch_problems. rewrite !app_nil, fmap_nil_iff, filter_nil_iff.
  assert ((if bool_decide (rows = []) then [lit "noRecipients"] else []) = [] <-> rows <> []) as ->
    by (case_bool_decide; naive_solver).
  assert ((if (MAX_RECIPIENTS <? length rows)%nat then [lit "tooMany"] else []) = [] <->
    (length rows <= MAX_RECIPIENTS)%nat) as ->
    by (destruct (Nat.ltb_spec MAX_RECIPIENTS (length rows)); split; done || lia).
  assert ((if is_empty (trim subj) then [lit "noSubject"] else []) = [] <-> trim subj <> []) as ->
    by (destruct (trim subj); cbn; naive_solver).
  setoid_rewrite not_false_iff_true. tauto.
Qed.

End PreviewFacts.

(** A mailing can go exactly when nothing is wrong with it, and its
    messages are what will be sent.  There is one message per recipient, in
    order, addressed to that recipient alone and filled from that row alone.
    The preview is ready exactly when there are between one and
    [MAX_RECIPIENTS] recipients, a subject, only known placeholders, a
    well-formed address in every row, no address twice (case aside), and a
    value that is not blank for every placeholder in every row. *)
Theorem preview_ready `{Unicode} recipients subj body me :
  let rows := parse_recipients recipients in
  let used := used_names subj body in
  let p := preview recipients subj body me in
  length (messages p) = length rows /\
  (forall i row, rows !! i = Some row -> exists m, messages p !! i = Some m /\
     index m = i /\ r_to m = email row /\
     r_subject m = fill subj row me /\ r_body m = fill body row me) /\
  (ready p = true <->
     (0 < length rows <= MAX_RECIPIENTS)%nat /\ trim subj <> [] /\
     (forall n, n ∈ used -> known (all_columns rows) n = true) /\
     (forall row, row ∈ rows -> looks_like_address (email row) = true) /\
     NoDup ((to_lowercase ∘ email) <$> rows) /\
     (forall row n, row ∈ rows -> n ∈ used -> trim (unwrap_or [] (value_of n row me)) <> [])).
Proof.
  cbn zeta. unfold preview. cbn [messages ready].
  set (rows := parse_recipients recipients). set (used := used_names subj body).
  set (cols := all_columns rows).
  assert (forall k, is_Some (render_from cols used me subj body 0 [] rows !! k) <-> is_Some (rows !! k)) as Hk.
  { intros k. pose proof (render_from_lookup cols used me subj body 0 [] rows k) as Hl.
    destruct (_ !! k), (rows !! k); cbn in Hl; try done; split; by eexists. }
  split_and!.
  - destruct (Nat.lt_total (length (render_from cols used me subj body 0 [] rows)) (length rows))
      as [Hl|[Hl|Hl]]; [|done|]; apply lookup_lt_is_Some in Hl;
      [apply Hk in Hl|apply Hk in Hl]; apply lookup_lt_is_Some in Hl; lia.
  - intros i row Hr. pose proof (render_from_lookup cols used me subj body 0 [] rows i) as Hl.
    rewrite Hr in Hl. destruct (render_from _ _ _ _ _ _ _ _ !! i) as [m|]; [|done].
    injection Hl as ? ? ? ? ? ?. by exists m.
  - rewrite andb_true_iff, render_from_clean.
    rewrite is_nil_true, batch_problems_nil. unfold row_fits.
    assert (rows <> [] <-> (0 < length rows)%nat) as -> by (destruct rows; cbn; split; done || lia).
    split.
    + intros ((? & ? & ? & Hkn) & Hall & Hnd & _). split_and!; try done.
      * intros row Hr. by apply Hall.
      * intros row n Hr Hn. apply (Hall row Hr); [done|by apply Hkn].
    + intros ([? ?] & ? & Hkn & Ha & Hnd & Hv). split_and!; try done.
      * intros row Hr. split; [by apply Ha|]. intros n Hn _. by apply Hv.
      * intros a _. apply not_elem_of_nil.
Qed.

(** ** The batches *)

Definition i_key (r : ItemRow) : text * Z := (i_batch r, i_idx r).

(** The two primary keys, and what [Outgoing] promises of its table. *)
Definition store_ok (s : Store) : Prop :=
  NoDup (b_id <$> batches_t s) /\ NoDup (i_key <$> items_t s) /\ Outgoing.well_formed (attempts_t s).

(** What an item is, whatever becomes of it. *)
Definition i_content (r : ItemRow) : text * Z * text * text * text * text * text :=
  (i_batch r, i_idx r, i_to r, i_name r, i_subject r, i_body r, i_message_id r).

Lemma is_item_spec i n r : is_item i n r = bool_decide (i_key r = (i, n)).
Proof.
  unfold is_item, i_key. destruct (Z.eqb_spec (i_idx r) n); case_bool_decide; cbn;
    symmetry; [apply bool_decide_eq_true|apply bool_decide_eq_false..]; congruence.
Qed.

Lemma set_item_content st err now r : i_content (set_item st err now r) = i_content r.
Proof. done. Qed.

Lemma set_item_key st err now r : i_key (set_item st err now r) = i_key r.
Proof. done. Qed.

Lemma query_batch s i b :
  store_ok s -> query_row (is_batch i) (batches_t s) = Some b <-> b ∈ batches_t s /\ b_id b = i.
Proof. intros [Hb _]. by apply (query_row_key b_id). Qed.

Lemma items_of_elem s i r : r ∈ items_of s i <-> r ∈ items_t s /\ i_batch r = i.
Proof.
  unfold items_of. rewrite order_by_perm, elem_of_select, bool_decide_eq_true. done.
Qed.

Lemma items_of_sorted s i :
  StronglySorted (fun a b => (i_idx a <=? i_idx b) = true) (items_of s i).
Proof.
  apply order_by_sorted.
  - intros a b. rewrite !Z.leb_le. lia.
  - intros a b c. rewrite !Z.leb_le. lia.
Qed.

(** What is claimed is the next message and nothing else.  A message is
    handed out only from a batch that is sending; it is pending, and the
    first in order of those pending in that batch; it, and no other row,
    becomes sending.  When nothing is handed out no item changes, and a batch
    that was sending had nothing pending and is marked done. *)
Theorem claim_next_spec s i now :
  store_ok s ->
  match claim_next s i now with
  | (s', Some r) =>
      (exists b, b ∈ batches_t s /\ b_id b = i /\ b_state b = lit "sending") /\
      r ∈ items_t s /\ i_batch r = i /\ i_state r = lit "pending" /\
      (forall r', r' ∈ items_t s -> i_batch r' = i -> i_state r' = lit "pending" -> i_idx r <= i_idx r') /\
      (forall r', r' ∈ items_t s' <->
         (r' ∈ items_t s /\ r' <> r) \/ r' = set_item (lit "sending") None (Some now) r) /\
      batches_t s' = batches_t s
  | (s', None) =>
      items_t s' = items_t s /\
      forall b, b ∈ batches_t s -> b_id b = i ->
        (b_state b <> lit "sending" /\ s' = s) \/
        ((forall r, r ∈ items_t s -> i_batch r = i -> i_state r <> lit "pending") /\
         (set_batch (lit "done") [] b) ∈ batches_t s')
  end.
Proof.
  intros Hok. unfold claim_next.
  destruct (query_row (is_batch i) (batches_t s)) as [b|] eqn:Eb.
  2: { split; [done|]. intros b Hb Hi. rewrite query_row_None in Eb.
       specialize (Eb _ Hb). unfold is_batch in Eb. by rewrite bool_decide_eq_false in Eb. }
  pose proof (proj1 (query_batch s i b Hok) Eb) as [Hb Hi].
  assert (forall b', b' ∈ batches_t s -> b_id b' = i -> b' = b) as Hbu.
  { intros b' Hb' Hi'. pose proof (proj2 (query_batch s i b' Hok) (conj Hb' Hi')). congruence. }
  unfold batch_in. case_bool_decide as Hst; cbn [negb].
  2: { split; [done|]. intros b' Hb' Hi'. rewrite (Hbu b' Hb' Hi'). by left. }
  destruct (find_by (item_in "pending") (items_of s i)) as [r|] eqn:Er.
  - pose proof (find_by_Some _ _ _ Er) as [[Hr Hri]%items_of_elem Hp].
    apply bool_decide_eq_true in Hp.
    split_and!; [by exists b|done..| | |done].
    + intros r' Hr' Hi' Hp'. apply Z.leb_le.
      apply (find_by_least (fun a b => i_idx a <=? i_idx b) (item_in "pending") (items_of s i));
        [intros; apply Z.leb_refl|apply items_of_sorted|done|by apply items_of_elem|].
      by apply bool_decide_eq_true.
    + assert (forall r0, r0 ∈ items_t s -> is_item i (i_idx r) r0 = true <-> r0 = r) as Hu.
      { intros r0 Hr0. rewrite is_item_spec, bool_decide_eq_true. split.
        - intros Hk. apply (key_unique i_key (i, i_idx r) (items_t s)); try done; [apply Hok| |].
          + by apply bool_decide_eq_true.
          + apply bool_decide_eq_true. unfold i_key. by rewrite Hri.
        - intros ->. unfold i_key. by rewrite Hri. }
      intros r'. cbn [with_items items_t]. rewrite elem_of_update. split.
      * intros (r0 & Hr0 & ->). pose proof (Hu r0 Hr0) as Hr0u.
        destruct (is_item i (i_idx r) r0).
        -- right. by rewrite (proj1 Hr0u eq_refl).
        -- left. split; [done|]. intros ->. by pose proof (proj2 Hr0u eq_refl).
      * intros [[Hr' Hne]| ->].
        -- exists r'. split; [done|]. destruct (is_item i (i_idx r) r') eqn:E; [|done].
           by apply (Hu r' Hr') in E.
        -- exists r. split; [done|]. by rewrite (proj2 (Hu r Hr) eq_refl).
  - split; [done|]. intros b' Hb' Hi'. rewrite (Hbu b' Hb' Hi'). right. split.
    + intros r Hr Hri Hp. assert (item_in "pending" r = false) as Hf.
      { apply (find_by_None _ _ Er). by apply items_of_elem. }
      unfold item_in in Hf. by rewrite bool_decide_eq_false in Hf.
    + apply elem_of_update. exists b. split; [done|]. unfold is_batch. by rewrite bool_decide_true.
Qed.

(** A batch whose first message was refused. *)
Lemma claim_next_spec_witness :
  let item n st := {| i_batch := lit "b"; i_idx := n; i_to := []; i_name := []; i_subject := [];
                      i_body := []; i_message_id := []; i_state := st; i_error := []; i_updated_at := 0 |} in
  let b := {| b_id := lit "b"; b_account := []; b_from := []; b_subject := []; b_spacing := 3;
              b_state := lit "sending"; b_reason := []; b_created_at := 0 |} in
  let s := {| batches_t := [b];
              items_t := [item 2 (lit "pending"); item 0 (lit "rejected"); item 1 (lit "pending")];
              attempts_t := [] |} in
  exists s' r, claim_next s (lit "b") 5 = (s', Some r) /\
    (forall r', r' ∈ items_t s -> i_batch r' = lit "b" -> i_state r' = lit "pending" -> i_idx r <= i_idx r') /\
    i_idx r = 1.
Proof.
  intros item b s. eexists _, _. split; [reflexivity|]. split; [|reflexivity].
  refine (proj1 (proj2 (proj2 (proj2 (proj2 (claim_next_spec s (lit "b") 5 _)))))).
  split; [|split; [|split; [apply NoDup_nil_2|apply Forall_nil_2]]];
    apply (bool_decide_unpack _); vm_compute; exact I.
Defined.

(** ** Recovery *)

(** A stuck item once its attempt has been read. *)
Definition settled_item (now : Z) (o : option Outcome) (r : ItemRow) : ItemRow :=
  match o with
  | None => set_item (lit "pending") None (Some now) r
  | Some Accepted => set_item (lit "accepted") (Some []) (Some now) r
  | Some (Rejected e) => set_item (lit "rejected") (Some e) (Some now) r
  | Some (Deferred e) => set_item (lit "pending") (Some e) (Some now) r
  | Some (Uncertain e) => set_item (lit "uncertain") (Some e) (Some now) r
  end.

Lemma settled_item_content now o r : i_content (settled_item now o r) = i_content r.
Proof. by destruct o as [[]|]. Qed.

Lemma settled_item_key now o r : i_key (settled_item now o r) = i_key r.
Proof. by destruct o as [[]|]. Qed.

(** Recovery never defers. *)
Lemma recovered_not_deferred a e : recovered a <> Some (Deferred e).
Proof. destruct a as [a|]; cbn; [|done]. by destruct (Outgoing.state a). Qed.

Lemma settle_items s i n o now :
  items_t (settle s i n o now) = update (is_item i n) (settled_item now (Some o)) (items_t s) /\
  attempts_t (settle s i n o now) = attempts_t s /\
  ((forall e, o <> Deferred e) -> batches_t (settle s i n o now) = batches_t s).
Proof. destruct o; cbn; (split; [done|]; split; [done|]); try done. intros Hd. by destruct (Hd e). Qed.

(** What the attempts say of an item. *)
Definition verdict (t : list Outgoing.Row) (r : ItemRow) : option Outcome :=
  match Outgoing.attempt t (i_message_id r) with Ok a => recovered a | Err _ => None end.

(** The loop over the stuck items is one pass over the table. *)
Lemma recover_items_map now stuck s :
  Outgoing.well_formed (attempts_t s) -> NoDup (i_key <$> stuck) ->
  exists s', recover_items s stuck now = Ok s' /\
    batches_t s' = batches_t s /\ attempts_t s' = attempts_t s /\
    items_t s' = (fun r => match find_by (fun q => bool_decide (i_key q = i_key r)) stuck with
                           | Some q => settled_item now (verdict (attempts_t s) q) r
                           | None => r
                           end) <$> items_t s.
Proof.
  revert s. induction stuck as [|q stuck IH]; intros s Hw Hnd.
  { exists s. split_and!; try done. cbn. by rewrite list_fmap_id. }
  rewrite fmap_cons, NoDup_cons in Hnd. destruct Hnd as [Hq Hnd].
  destruct (Outgoing.attempt_total (attempts_t s) (i_message_id q) Hw) as [a Ha].
  set (s1 := match recovered a with
             | None => with_items (update (is_item (i_batch q) (i_idx q))
                         (set_item (lit "pending") None (Some now))) s
             | Some o => settle s (i_batch q) (i_idx q) o now
             end).
  assert (items_t s1 = update (is_item (i_batch q) (i_idx q)) (settled_item now (recovered a)) (items_t s) /\
    attempts_t s1 = attempts_t s /\ batches_t s1 = batches_t s) as (Hi1 & Ha1 & Hb1).
  { unfold s1. destruct (recovered a) as [o|] eqn:Eo; [|done].
    destruct (settle_items s (i_batch q) (i_idx q) o now) as (? & ? & Hb). split_and!; try done.
    apply Hb. intros e ->. by eapply recovered_not_deferred. }
  destruct (IH s1) as (s' & Hs' & Hb' & Ha' & Hi'); [by rewrite Ha1|done|].
  exists s'. cbn [recover_items]. rewrite Ha. cbn [mbind result_bind]. fold s1.
  split; [exact Hs'|]. split; [congruence|]. split; [congruence|].
  rewrite Hi', Hi1, Ha1. unfold update. rewrite <- list_fmap_compose. apply list_fmap_ext.
  intros _ r _. cbn. rewrite is_item_spec. unfold verdict. rewrite ?Ha.
  change (i_batch q, i_idx q) with (i_key q).
  destruct (decide (i_key r = i_key q)) as [He|Hne].
  - rewrite (bool_decide_true (i_key r = i_key q)), (bool_decide_true (i_key q = i_key r)) by done.
    destruct (find_by _ stuck) as [q'|] eqn:Ef; [|by rewrite Ha]. exfalso.
    apply find_by_Some in Ef as [Hin Hk%bool_decide_eq_true]. rewrite settled_item_key in Hk.
    apply Hq. rewrite <- He, <- Hk. by apply list_elem_of_fmap_2.
  - rewrite (bool_decide_false (i_key r = i_key q)) by done.
    by rewrite (bool_decide_false (i_key q = i_key r)) by done.
Qed.

Lemma select_key {R K} (key : R -> K) p (t : list R) : NoDup (key <$> t) -> NoDup (key <$> select p t).
Proof. intros Hnd. eapply sublist_NoDup; [exact Hnd|]. apply fmap_sublist, sublist_filter. Qed.

Lemma recover_map s now :
  store_ok s ->
  exists s', recover s now = Ok (s', b_id <$> select (batch_in "sending") (batches_t s)) /\
    attempts_t s' = attempts_t s /\
    batches_t s' = update (batch_in "sending")
      (set_batch (lit "paused") (lit "Oreneta stopped while this was being sent")) (batches_t s) /\
    items_t s' = (fun r => if item_in "sending" r then settled_item now (verdict (attempts_t s) r) r else r)
                   <$> items_t s.
Proof.
  intros (Hb & Hi & Hw). unfold recover.
  destruct (recover_items_map now (select (item_in "sending") (items_t s)) s Hw)
    as (s' & Hs' & Hb' & Ha' & Hi'); [by apply select_key|].
  rewrite Hs'. cbn [mbind result_bind]. rewrite Hb'. eexists. split; [done|]. cbn.
  split; [done|]. split; [by rewrite Hb'|]. rewrite Hi'. apply list_fmap_ext.
  intros k r Hr%list_elem_of_lookup_2.
  destruct (find_by _ _) as [q|] eqn:Ef.
  - apply find_by_Some in Ef as [[Hq Hs]%elem_of_select Hk].
    assert (q = r) as ->; [|by rewrite Hs].
    apply (key_unique i_key (i_key r) (items_t s)); try done. by apply bool_decide_eq_true.
  - destruct (item_in "sending" r) eqn:Es; [|done].
    assert (bool_decide (i_key r = i_key r) = false) as Hf.
    { apply (find_by_None _ _ Ef r). by apply elem_of_select. }
    by rewrite bool_decide_eq_false in Hf.
Qed.

(** After a restart nothing is in the middle of being sent, and no
    message is sent again on a guess.  Recovery never fails on a well-formed
    store; afterwards no item and no batch is sending; an item that was not
    being sent, and every batch that was not, is as it was; one that was
    waits its turn again only if no attempt to send it was ever recorded,
    counts as accepted or rejected if its attempt says so, and is left
    uncertain in every other case.  What each message says, and to whom, is
    unchanged. *)
Theorem recover_settles s now :
  store_ok s ->
  exists s' paused, recover s now = Ok (s', paused) /\
    (forall i, i ∈ paused <-> exists b, b ∈ batches_t s /\ b_id b = i /\ b_state b = lit "sending") /\
    (forall b, b ∈ batches_t s' -> b_state b <> lit "sending") /\
    (forall b, b ∈ batches_t s -> b_state b <> lit "sending" -> b ∈ batches_t s') /\
    (forall r, r ∈ items_t s' -> i_state r <> lit "sending") /\
    i_content <$> items_t s' = i_content <$> items_t s /\
    (forall k r, items_t s !! k = Some r -> exists r', items_t s' !! k = Some r' /\
       if bool_decide (i_state r = lit "sending")
       then exists a, Outgoing.attempt (attempts_t s) (i_message_id r) = Ok a /\
            i_state r' = match Outgoing.state <$> a with
                         | None => lit "pending"
                         | Some (Outgoing.Accepted | Outgoing.Archived) => lit "accepted"
                         | Some Outgoing.Rejected => lit "rejected"
                         | Some _ => lit "uncertain"
                         end
       else r' = r).
Proof.
  intros Hok. destruct (recover_map s now Hok) as (s' & Hs & _ & Hb & Hi).
  exists s'. eexists. split; [exact Hs|]. rewrite Hb, Hi.
  assert (forall r, item_in "sending" r = true -> exists a,
    Outgoing.attempt (attempts_t s) (i_message_id r) = Ok a /\
    i_state (settled_item now (verdict (attempts_t s) r) r) =
      match Outgoing.state <$> a with
      | None => lit "pending"
      | Some (Outgoing.Accepted | Outgoing.Archived) => lit "accepted"
      | Some Outgoing.Rejected => lit "rejected"
      | Some _ => lit "uncertain"
      end) as Hv.
  { intros r _. destruct (Outgoing.attempt_total (attempts_t s) (i_message_id r)) as [a Ha]; [apply Hok|].
    exists a. split; [done|]. unfold verdict. rewrite Ha. destruct a as [a|]; [|done].
    cbn. by destruct (Outgoing.state a). }
  split_and!.
  - intros i. rewrite list_elem_of_fmap. setoid_rewrite elem_of_select.
    unfold batch_in. setoid_rewrite bool_decide_eq_true.
    split; [intros (b & -> & ? & ?); by exists b|intros (b & ? & <- & ?); by exists b].
  - intros b (b0 & _ & ->)%elem_of_update. unfold batch_in.
    case_bool_decide; [by cbn|done].
  - intros b Hin Hne. apply elem_of_update. exists b. split; [done|].
    unfold batch_in. by rewrite bool_decide_false.
  - intros r (r0 & -> & _)%list_elem_of_fmap.
    destruct (item_in "sending" r0) eqn:E.
    + destruct (Hv r0 E) as (a & _ & ->). by destruct a as [[]|]; [destruct state|].
    + unfold item_in in E. by rewrite bool_decide_eq_false in E.
  - rewrite <- list_fmap_compose. apply list_fmap_ext. intros _ r _. cbn.
    destruct (item_in "sending" r); [apply settled_item_content|done].
  - intros k r Hk. rewrite list_lookup_fmap, Hk. cbn. eexists. split; [done|].
    pose proof (Hv r) as Hvr. unfold item_in in *. case_bool_decide; [by apply Hvr|done].
Qed.

(** Two messages that were on their way, one of them never begun. *)
Lemma recover_settles_witness :
  let item n st := {| i_batch := lit "b"; i_idx := n; i_to := []; i_name := []; i_subject := [];
                      i_body := []; i_message_id := show_Z n; i_state := st; i_error := []; i_updated_at := 0 |} in
  let a := {| Outgoing.r_id := show_Z 0; Outgoing.r_account := []; Outgoing.r_kind := lit "now";
              Outgoing.r_message_id := show_Z 0; Outgoing.r_subject := []; Outgoing.r_recipients := [];
              Outgoing.r_payload := []; Outgoing.r_state := lit "uncertain"; Outgoing.r_error := [];
              Outgoing.r_archive_error := []; Outgoing.r_created_at := 0; Outgoing.r_updated_at := 0 |} in
  let s := {| batches_t := []; items_t := [item 0 (lit "sending"); item 1 (lit "sending")];
              attempts_t := [a] |} in
  exists s' paused, recover s 7 = Ok (s', paused) /\ i_state <$> items_t s' = [lit "uncertain"; lit "pending"].
Proof.
  intros item a s. destruct (recover_settles s 7) as (s' & paused & Hr & _).
  - split; [|split; [|split]]; try (apply (bool_decide_unpack _); vm_compute; exact I).
  - exists s', paused. split; [exact Hr|]. vm_compute in Hr. injection Hr as <- _. vm_compute. reflexivity.
Defined.

(** ** Cancelling *)

Lemma is_batch_update s i p f b :
  (forall b, b_id (f b) = b_id b) -> query_row (is_batch i) (batches_t s) = Some b ->
  query_row (is_batch i) (batches_t (with_batches (update p f) s)) = Some (if p b then f b else b).
Proof.
  intros Hf Hb. cbn. rewrite query_row_update, Hb; [done|]. intros b'. unfold is_batch. by rewrite Hf.
Qed.

(** Cancelling a mailing marks cancelled what has not gone, except a
    message the server then asks to wait for.  Cancelling leaves nothing
    pending in the mailing and touches no other; but a message that was on
    its way and is answered with a deferral is pending afterwards, in a
    mailing that is cancelled, from which nothing is ever claimed and which
    cannot carry on. *)
Theorem cancel_then_deferred s i now r e later retry :
  store_ok s -> is_Some (query_row (is_batch i) (batches_t s)) ->
  r ∈ items_t s -> i_batch r = i -> i_state r = lit "sending" ->
  (forall r', r' ∈ items_t (cancel s i now) -> i_batch r' = i -> i_state r' <> lit "pending") /\
  (forall r', i_batch r' <> i -> r' ∈ items_t (cancel s i now) <-> r' ∈ items_t s) /\
  let s' := settle (cancel s i now) i (i_idx r) (Deferred e) later in
  (exists r', r' ∈ items_t s' /\ i_content r' = i_content r /\ i_state r' = lit "pending") /\
  claim_next s' i later = (s', None) /\ (exists why, resume s' i retry = Err why).
Proof.
  intros Hok [b Hb] Hr Hri Hst. split; [|split].
  - intros r' (r0 & Hr0 & ->)%elem_of_update Hi. destruct (_ && _) eqn:E; [done|].
    intros Hp. apply andb_false_iff in E. unfold item_in in E.
    destruct E as [E|E]; by rewrite bool_decide_eq_false in E.
  - intros r' Hne. unfold cancel. cbn [with_items with_batches items_t]. rewrite elem_of_update. split.
    + intros (r0 & Hr0 & ->). destruct (_ && _) eqn:E; [|done].
      apply andb_true_iff in E as [E _]. by apply bool_decide_eq_true in E.
    + intros Hr'. exists r'. split; [done|]. by rewrite bool_decide_false.
  - cbn zeta. set (s1 := cancel s i now).
    assert (query_row (is_batch i) (batches_t s1) = Some (set_batch (lit "cancelled") [] b)) as Hb1.
    { pose proof (is_batch_update s i (is_batch i) (set_batch (lit "cancelled") []) b ltac:(done) Hb) as Hq.
      apply query_row_Some in Hb as [_ Hi]. by rewrite Hi in Hq. }
    set (s2 := settle s1 i (i_idx r) (Deferred e) later).
    assert (query_row (is_batch i) (batches_t s2) = Some (set_batch (lit "cancelled") [] b)) as Hb2.
    { pose proof (is_batch_update (with_items (update (is_item i (i_idx r))
        (set_item (lit "pending") (Some e) (Some later))) s1) i
        (fun b => is_batch i b && batch_in "sending" b)
        (set_batch (lit "paused") (lit "the server asked to wait: " ++ e)) _ ltac:(done) Hb1) as Hq.
      unfold batch_in in Hq at 2. cbn [set_batch b_state] in Hq.
      rewrite (bool_decide_false (lit "cancelled" = lit "sending")), andb_false_r in Hq by done. exact Hq. }
    split_and!.
    + exists (set_item (lit "pending") (Some e) (Some later) r). split_and!; [|done..].
      apply elem_of_update. exists r. split.
      * apply elem_of_update. exists r. split; [done|]. unfold item_in. rewrite Hst.
        by rewrite (bool_decide_false (lit "sending" = lit "pending")), andb_false_r.
      * rewrite is_item_spec, bool_decide_true; [done|]. unfold i_key. by rewrite Hri.
    + unfold claim_next. rewrite Hb2. unfold batch_in. by rewrite bool_decide_false.
    + unfold resume. set (p := fun b => is_batch i b && _).
      assert (changed p (batches_t s2) = 0%nat) as ->; [|by eexists].
      destruct (changed p (batches_t s2)) as [|n] eqn:E; [done|].
      assert (0 < changed p (batches_t s2))%nat as (b' & Hb' & Hp)%changed_pos by lia.
      apply andb_true_iff in Hp as [Hi Hp].
      assert (b' = set_batch (lit "cancelled") [] b) as ->; [|done].
      apply query_row_Some in Hb2 as [Hin2 Hi2].
      apply (key_unique b_id i (batches_t s2)); try done.
      unfold s2, s1, settle, cancel. cbn [with_items with_batches batches_t].
      rewrite !(update_key b_id); [apply Hok|done..].
Qed.

(** A mailing of one message. *)
Lemma cancel_then_deferred_witness :
  let r := {| i_batch := lit "b"; i_idx := 0; i_to := []; i_name := []; i_subject := [];
              i_body := []; i_message_id := []; i_state := lit "sending"; i_error := []; i_updated_at := 0 |} in
  let b := {| b_id := lit "b"; b_account := []; b_from := []; b_subject := []; b_spacing := 3;
              b_state := lit "sending"; b_reason := []; b_created_at := 0 |} in
  let s := {| batches_t := [b]; items_t := [r]; attempts_t := [] |} in
  exists r', r' ∈ items_t (settle (cancel s (lit "b") 1) (lit "b") 0 (Deferred (lit "451")) 2) /\
             i_content r' = i_content r /\ i_state r' = lit "pending".
Proof.
  intros r b s.
  refine (proj1 (proj2 (proj2 (cancel_then_deferred s (lit "b") 1 r (lit "451") 2 false _ _ _ _ _)))).
  - split; [|split; [|split; [apply NoDup_nil_2|apply Forall_nil_2]]];
      apply (bool_decide_unpack _); vm_compute; exact I.
  - vm_compute. by eexists.
  - by left.
  - reflexivity.
  - reflexivity.
Defined.

End Merge.
