(* ===== verification/Sending.v ===== *)
(** * Sending a message

    Models the sending routines of [meron-core/src/main.rs]: [perform_send],
    [send_scheduled] and what it reads first, the watch that lets scheduled
    messages go, the loop that sends a mailing, and the reconciliation at
    startup.

    A routine is a tree of calls (see [Program]).  A section of the code
    under one lock of [engine.db] is one call, [WithDb]; between calls other
    routines run, and the process may stop.  The network is the two calls
    [Transmit] and [AppendSent]; [Transmit] carries the attempt's name only
    so that deliveries can be counted by attempt. *)
From S2P Require Import Prelude Text Table Json Program Pool Outgoing Merge Scheduled.
#[local] Open Scope Z_scope.
#[local] Open Scope prog_scope.

Module Sending.

(** The tables the sending routines touch. *)
Record Db := { store : Merge.Store; scheduled : list Scheduled.ScheduledSend }.

Definition attempts (db : Db) : list Outgoing.Row := Merge.attempts_t (store db).
Definition set_attempts (t : list Outgoing.Row) (db : Db) : Db :=
  {| store := {| Merge.batches_t := Merge.batches_t (store db);
                 Merge.items_t := Merge.items_t (store db); Merge.attempts_t := t |};
     scheduled := scheduled db |}.
Definition set_store (s : Merge.Store) (db : Db) : Db := {| store := s; scheduled := scheduled db |}.
Definition set_scheduled (t : list Scheduled.ScheduledSend) (db : Db) : Db :=
  {| store := store db; scheduled := t |}.

Record SendTransaction := {
  raw : text;
  archived_by_server : bool;
  delivery_receipt : text;
  delivery_receipt_reason : option text
}.

(** An error of the transaction: whether [UncertainSend] marks it, and its
    text. *)
Record SendError := { is_uncertain : bool; reason : text }.

Inductive Ev : Type -> Type :=
| WithDb {X} (f : Db -> result text (Db * X)) : Ev (result text X)
| Clock : Ev Z
| NewId : Ev text
| Guard (p : Value) : Ev (result text unit)
| Transmit (attempt_id : text) (p : Value) (account to : text) : Ev (result SendError SendTransaction)
| AppendSent (account raw : text) : Ev (result text unit)
| Enter (id : text) : Ev bool
| Leave (id : text) : Ev unit.

Inductive ScheduledOutcome := Sent | Uncertain (why : text) | InFlight.

Definition OUTGOING_HISTORY_SECONDS : Z := 30 * 24 * 60 * 60.

Definition req_str (p : Value) (key : text) : result text text :=
  ok_or (lit "missing string param: " ++ key) (get_str key p).

Definition str_or_empty (p : Value) (key : text) : text := unwrap_or [] (ok (req_str p key)).

Definition scheduled_outcome_of (answer : Value) : ScheduledOutcome :=
  let err := unwrap_or (lit "outcome unknown") (get_str (lit "error") answer) in
  match get_str (lit "outcome") answer with
  | Some o =>
      if bool_decide (o = lit "uncertain") then Uncertain err
      else if bool_decide (o = lit "already_attempted") then
        match get_str (lit "state") answer with
        | Some s =>
            if bool_decide (s = lit "accepted") || bool_decide (s = lit "archived") then Sent
            else if bool_decide (s = lit "sending") then InFlight
            else Uncertain (if is_empty (unwrap_or [] (get_str (lit "error") answer))
                            then lit "an earlier try of this message may already have gone" else err)
        | None => Uncertain (if is_empty (unwrap_or [] (get_str (lit "error") answer))
                             then lit "an earlier try of this message may already have gone" else err)
        end
      else Sent
  | None => Sent
  end.

Definition merge_outcome `{Unicode} (r : result text Value) : Merge.Outcome :=
  match r with
  | Ok answer =>
      match scheduled_outcome_of answer with
      | Sent => Merge.Accepted
      | Uncertain why => Merge.Uncertain why
      | InFlight => Merge.Uncertain (lit "another send of this message was under way")
      end
  | Err e => if Merge.is_deferral e then Merge.Deferred e else Merge.Rejected e
  end.

Definition scheduled_send_precheck (earlier : option Outgoing.OutgoingAttempt) : option ScheduledOutcome :=
  earlier ← earlier;
  match Outgoing.state earlier with
  | Outgoing.Accepted | Outgoing.Archived => Some Sent
  | Outgoing.Sending => Some InFlight
  | Outgoing.Uncertain =>
      Some (Uncertain (if is_empty (Outgoing.error earlier)
                       then lit "the application stopped while this message was being sent"
                       else Outgoing.error earlier))
  | Outgoing.Rejected | Outgoing.Resolved => None
  end.

(** The kind, the name given for the attempt if any, and whether the caller
    asked to send again. *)
Definition attempt_kind (p : Value) : Outgoing.AttemptKind :=
  if bool_decide (get_str (lit "attempt_kind") p = Some (lit "scheduled"))
  then Outgoing.Scheduled else Outgoing.Now.

Definition given_id (p : Value) : option text :=
  let explicit := str_or_empty p (lit "attempt_id") in
  let mid := str_or_empty p (lit "message_id") in
  if negb (is_empty (trim explicit)) then Some (trim explicit)
  else if negb (is_empty (trim mid)) then Some (trim mid)
  else None.

Definition resends (p : Value) : bool := unwrap_or false (get (lit "resend") p ≫= as_bool).

Section WithParameters.
(** [serde_json]: writing a value, and reading one. *)
Context `{Unicode} (to_string : Value -> result text text) (from_str : text -> result text Value).

(** The first section of [perform_send]: an earlier attempt that may have
    gone is answered, anything else is begun. *)
Definition look_and_begin (i acct : text) (p : Value) (now : Z) (db : Db)
    : result text (Db * option Outgoing.OutgoingAttempt) :=
  earlier ← Outgoing.attempt (attempts db) i;
  match earlier with
  | Some a =>
      if Outgoing.may_have_gone (Outgoing.state a) && negb (resends p) then Ok (db, Some a)
      else t ← Outgoing.begin_attempt to_string (attempts db) i acct (attempt_kind p)
                 (str_or_empty p (lit "message_id")) p now;
           Ok (set_attempts t db, None)
  | None =>
      t ← Outgoing.begin_attempt to_string (attempts db) i acct (attempt_kind p)
            (str_or_empty p (lit "message_id")) p now;
      Ok (set_attempts t db, None)
  end.

Definition on_attempts (f : list Outgoing.Row -> list Outgoing.Row) (db : Db) : result text (Db * unit) :=
  Ok (set_attempts (f (attempts db)) db, tt).

Definition already_attempted (i : text) (a : Outgoing.OutgoingAttempt) : Value :=
  Object [(lit "ok", Bool false); (lit "outcome", String (lit "already_attempted"));
          (lit "attempt_id", String i);
          (lit "state", String (Outgoing.state_as_str (Outgoing.state a)));
          (lit "error", String (Outgoing.error a))].

Definition answer_of (i outcome : text) (tx : SendTransaction) : Value :=
  Object ([(lit "ok", Bool true); (lit "outcome", String outcome); (lit "attempt_id", String i);
           (lit "delivery_receipt", String (delivery_receipt tx))] ++
          match delivery_receipt_reason tx with
          | Some r => [(lit "delivery_receipt_reason", String r)]
          | None => []
          end).

Definition uncertain_answer (i why : text) : Value :=
  Object [(lit "ok", Bool false); (lit "outcome", String (lit "uncertain"));
          (lit "attempt_id", String i); (lit "error", String why)].

(** What follows an accepted transmission. *)
Definition after_accepted (i acct : text) (tx : SendTransaction) : prog Ev (result text Value) :=
  now <- call Clock ;;
  _ <-? call (WithDb (on_attempts (fun t => Outgoing.mark_accepted t i now))) ;;
  copy <- call (AppendSent acct (raw tx)) ;;
  now <- call Clock ;;
  match copy with
  | Ok _ =>
      _ <-? call (WithDb (on_attempts (fun t => Outgoing.mark_archived t i now))) ;;
      Ret (Ok (answer_of i (lit "archived") tx))
  | Err e =>
      if archived_by_server tx then
        _ <-? call (WithDb (on_attempts (fun t => Outgoing.mark_archived t i now))) ;;
        Ret (Ok (answer_of i (lit "archived") tx))
      else
        _ <-? call (WithDb (on_attempts (fun t => Outgoing.mark_archive_failed t i e now))) ;;
        Ret (Ok (answer_of i (lit "accepted") tx))
  end.

(** What follows a transmission that failed. *)
Definition after_failed (i : text) (e : SendError) : prog Ev (result text Value) :=
  now <- call Clock ;;
  if is_uncertain e then
    _ <-? call (WithDb (on_attempts (fun t => Outgoing.mark_uncertain t i (reason e) now))) ;;
    Ret (Ok (uncertain_answer i (reason e)))
  else
    _ <-? call (WithDb (on_attempts (fun t => Outgoing.mark_rejected t i (reason e) now))) ;;
    Ret (Err (reason e)).

Definition send_attempt (i acct to : text) (p : Value) : prog Ev (result text Value) :=
  now <- call Clock ;;
  earlier <-? call (WithDb (look_and_begin i acct p now)) ;;
  match earlier with
  | Some a => Ret (Ok (already_attempted i a))
  | None =>
      r <- call (Transmit i p acct to) ;;
      match r with
      | Ok tx => after_accepted i acct tx
      | Err e => after_failed i e
      end
  end.

Definition perform_send (p : Value) : prog Ev (result text Value) :=
  _ <-? call (Guard p) ;;
  acct <-? Ret (req_str p (lit "account")) ;;
  to <-? Ret (req_str p (lit "to")) ;;
  i <- match given_id p with Some i => Ret i | None => call NewId end ;;
  send_attempt i acct to p.

(** The message as it is handed to [perform_send]. *)
Definition scheduled_request (i : text) (resend : bool) (message : Value) : Value :=
  insert_member (lit "resend") (Bool resend)
    (insert_member (lit "attempt_kind") (String (lit "scheduled"))
       (insert_member (lit "attempt_id") (String i) message)).

Definition send_scheduled (row : Scheduled.ScheduledSend) (message : Value) (resend : bool)
    : prog Ev (result text ScheduledOutcome) :=
  settled <-? (if resend then Ret (Ok None)
               else earlier <-? call (WithDb (fun db =>
                      a ← Outgoing.attempt (attempts db) (Scheduled.id row); Ok (db, a))) ;;
                    Ret (Ok (scheduled_send_precheck earlier))) ;;
  match settled with
  | Some o => Ret (Ok o)
  | None =>
      answer <-? perform_send (scheduled_request (Scheduled.id row) resend message) ;;
      Ret (Ok (scheduled_outcome_of answer))
  end.

Definition on_scheduled {X} (f : list Scheduled.ScheduledSend -> list Scheduled.ScheduledSend * X) (db : Db)
    : result text (Db * X) :=
  let (t, x) := f (scheduled db) in Ok (set_scheduled t db, x).

Definition stop_trying (i why : text) (now : Z) : Ev (result text unit) :=
  WithDb (on_scheduled (fun t => (Scheduled.give_up_on_send t i why now, tt))).

(** One row of the watch's pass. *)
Definition watch_row (known : text -> bool) (now : Z) (row : Scheduled.ScheduledSend) : prog Ev unit :=
  if negb (known (Scheduled.account row)) then Ret tt
  else
    match from_str (Scheduled.payload row) with
    | Err e =>
        _ <- call (stop_trying (Scheduled.id row) (lit "this message can no longer be read: " ++ e) now) ;;
        Ret tt
    | Ok message =>
        r <- send_scheduled row message false ;;
        match r with
        | Ok Sent =>
            _ <- call (WithDb (on_scheduled (fun t =>
                   Scheduled.cancel_scheduled_send t (Scheduled.id row)))) ;;
            Ret tt
        | Ok InFlight => Ret tt
        | Ok (Uncertain why) => _ <- call (stop_trying (Scheduled.id row) why now) ;; Ret tt
        | Err e =>
            _ <- call (WithDb (on_scheduled (fun t =>
                   Scheduled.record_send_failure t (Scheduled.id row) e now))) ;;
            Ret tt
        end
    end.

(** One pass of the watch over what is due, for the accounts that are open. *)
Definition scheduled_watch (known : text -> bool) : prog Ev unit :=
  now <- call Clock ;;
  due <- call (WithDb (fun db => Ok (db, Scheduled.due_scheduled_sends (scheduled db) now))) ;;
  for_each (unwrap_or [] (ok due)) tt (fun row _ => watch_row known now row).

(** The command [mail.sendScheduledNow]. *)
Definition send_scheduled_now (i : text) (resend : bool) : prog Ev (result text unit) :=
  row <-? call (WithDb (fun db => Ok (db, Scheduled.scheduled_send (scheduled db) i))) ;;
  row <-? Ret (ok_or (lit "no such scheduled message") row) ;;
  message <-? Ret (from_str (Scheduled.payload row)) ;;
  r <- send_scheduled row message resend ;;
  now <- call Clock ;;
  match r with
  | Ok Sent =>
      _ <-? call (WithDb (on_scheduled (fun t => Scheduled.cancel_scheduled_send t i))) ;;
      Ret (Ok tt)
  | Ok (Uncertain why) => _ <-? call (stop_trying i why now) ;; Ret (Ok tt)
  | Ok InFlight => Ret (Ok tt)
  | Err e =>
      _ <-? call (WithDb (on_scheduled (fun t => Scheduled.record_send_failure t i e now))) ;;
      Ret (Err e)
  end.

(** The request made for one message of a mailing. *)
Definition merge_request (b : Merge.BatchRow) (item : Merge.ItemRow) : Value :=
  let to := if is_empty (trim (Merge.i_name item)) then Merge.i_to item
            else [Merge.DQ] ++ base.filter (fun c => c <> Merge.DQ) (Merge.i_name item) ++ [Merge.DQ] ++
                 lit " <" ++ Merge.i_to item ++ lit ">" in
  Object [(lit "account", String (Merge.b_account b)); (lit "from", String (Merge.b_from b));
          (lit "to", String to); (lit "subject", String (Merge.i_subject item));
          (lit "body", String (Merge.i_body item));
          (lit "message_id", String (Merge.i_message_id item));
          (lit "attempt_id", String (Merge.i_message_id item))].

Definition on_store {X} (f : Merge.Store -> Merge.Store * X) (db : Db) : result text (Db * X) :=
  let (s, x) := f (store db) in Ok (set_store s db, x).

Definition claim (i : text) (now : Z) (s : Merge.Store)
    : Merge.Store * (option Merge.ItemRow * option (Merge.BatchRow * list Merge.ItemRow)) :=
  let (s, next) := Merge.claim_next s i now in (s, (next, Merge.batch s i)).

(** The loop of [spawn_merge], for a number of messages. *)
Fixpoint mailing_loop (n : nat) (i : text) : prog Ev unit :=
  match n with
  | O => Ret tt
  | S n =>
      now <- call Clock ;;
      r <- call (WithDb (on_store (claim i now))) ;;
      match r with
      | Ok (Some item, Some (b, _)) =>
          answer <- perform_send (merge_request b item) ;;
          now <- call Clock ;;
          _ <- call (WithDb (on_store (fun s =>
                 (Merge.settle s i (Merge.i_idx item) (merge_outcome answer) now, tt)))) ;;
          mailing_loop n i
      | _ => Ret tt
      end
  end.

Definition spawn_merge (n : nat) (i : text) : prog Ev unit :=
  entered <- call (Enter i) ;;
  if negb entered then Ret tt
  else _ <- mailing_loop n i ;; _ <- call (Leave i) ;; Ret tt.

End WithParameters.

(** Before anything can be sent: the sends that were interrupted, the old
    history, the mailings that were sending. *)
Definition startup (db : Db) (now : Z) : Db :=
  let t := (Outgoing.mark_interrupted_uncertain (attempts db) now).1 in
  let t := (Outgoing.prune_settled t (now - OUTGOING_HISTORY_SECONDS)).1 in
  let db := set_attempts t db in
  match Merge.recover (store db) now with
  | Ok (s, _) => set_store s db
  | Err _ => db
  end.

(** ** What the attempts say of one message *)

Definition att (t : list Outgoing.Row) (m : text) : option Outgoing.AttemptState :=
  match Outgoing.attempt t m with Ok (Some a) => Some (Outgoing.state a) | _ => None end.

(** The attempt says the message may have gone; that it certainly did. *)
Definition held (s : option Outgoing.AttemptState) : Prop := is_some_and Outgoing.may_have_gone s = true.
Definition gone (s : option Outgoing.AttemptState) : Prop :=
  s = Some Outgoing.Accepted \/ s = Some Outgoing.Archived.

Lemma gone_held s : gone s -> held s.
Proof. by intros [->| ->]. Qed.

Lemma att_update t m p f :
  Outgoing.well_formed t -> (forall r, Outgoing.r_id (f r) = Outgoing.r_id r) ->
  att (update p f t) m =
  match query_row (Outgoing.has_id m) t with
  | None => None
  | Some r => match Outgoing.from_row (if p r then f r else r) with
              | Ok a => Some (Outgoing.state a)
              | Err _ => None
              end
  end.
Proof.
  intros Hw Hid. unfold att. rewrite Outgoing.attempt_update by done.
  destruct (query_row _ t); [|done]. by destruct (Outgoing.from_row _).
Qed.

Lemma att_row t m :
  att t m = match query_row (Outgoing.has_id m) t with
            | None => None
            | Some r => match Outgoing.from_row r with Ok a => Some (Outgoing.state a) | Err _ => None end
            end.
Proof. unfold att, Outgoing.attempt. destruct (query_row _ t); [|done]. by destruct (Outgoing.from_row _). Qed.

(** Setting the state of the rows [p] picks. *)
Lemma att_set t m p s e now :
  Outgoing.well_formed t ->
  att (update p (Outgoing.set_cols (Outgoing.state_as_str s) e now) t) m =
  match query_row (Outgoing.has_id m) t with
  | None => None
  | Some r => if p r then Some s else att t m
  end.
Proof.
  intros Hw. rewrite att_update, att_row by done.
  destruct (query_row (Outgoing.has_id m) t) as [r|] eqn:E; [|done].
  destruct (p r); [|done]. apply query_row_Some in E as [Hr _].
  destruct (Outgoing.well_formed_readable t r Hw Hr) as [a Ha].
  by rewrite (Outgoing.from_row_set_cols s e now r a Ha).
Qed.

Lemma att_set_id t m i s e now :
  Outgoing.well_formed t ->
  att (update (Outgoing.has_id i) (Outgoing.set_cols (Outgoing.state_as_str s) e now) t) m =
  if bool_decide (m = i) then (fun _ => s) <$> att t m else att t m.
Proof.
  intros Hw. rewrite att_set, att_row by done.
  destruct (query_row (Outgoing.has_id m) t) as [r|] eqn:E; [|by case_bool_decide].
  apply query_row_Some in E as [Hr Hm]. unfold Outgoing.has_id in *. rewrite bool_decide_eq_true in Hm.
  rewrite Hm. destruct (Outgoing.well_formed_readable t r Hw Hr) as [a ->].
  by case_bool_decide.
Qed.

Lemma set_well_formed t p s e now :
  Outgoing.well_formed t ->
  Outgoing.well_formed (update p (Outgoing.set_cols (Outgoing.state_as_str s) e now) t).
Proof.
  intros Hw. apply Outgoing.update_well_formed; [done| |done]. intros r.
  apply Outgoing.set_cols_check. by rewrite Outgoing.state_roundtrip.
Qed.

Lemma archive_failed_att t m i e now :
  Outgoing.well_formed t -> att (Outgoing.mark_archive_failed t i e now) m = att t m.
Proof.
  intros Hw. unfold Outgoing.mark_archive_failed. rewrite att_update, att_row by done.
  destruct (query_row _ t) as [r|]; [|done]. destruct (_ && _); [|done].
  unfold Outgoing.from_row. cbn. destruct (Outgoing.kind_parse _); [|done]. cbn.
  by destruct (Outgoing.state_parse _).
Qed.

Lemma archive_failed_well_formed t i e now :
  Outgoing.well_formed t -> Outgoing.well_formed (Outgoing.mark_archive_failed t i e now).
Proof. intros Hw. by apply Outgoing.update_well_formed. Qed.

Lemma begin_att ts t m i acct k mid req now t' :
  Outgoing.well_formed t -> Outgoing.begin_attempt ts t i acct k mid req now = Ok t' ->
  att t' m = if bool_decide (m = i) then Some Outgoing.Sending else att t m.
Proof.
  intros Hw Hb. pose proof (Outgoing.begin_well_formed _ _ _ _ _ _ _ _ _ Hb Hw) as Hw'.
  unfold Outgoing.begin_attempt in Hb. apply bind_Ok in Hb as (body & _ & [= <-]).
  match goal with |- context [insert_or_replace _ ?r _] => set (row := r) in * end.
  rewrite att_row. case_bool_decide as Hm.
  - subst m. assert (query_row (Outgoing.has_id i) (insert_or_replace (Outgoing.has_id i) row t) = Some row) as ->.
    { apply Outgoing.query_row_id; [done|]. split; [|done]. apply elem_of_app. right. by left. }
    unfold Outgoing.from_row. cbn. by destruct k.
  - rewrite att_row. unfold insert_or_replace, query_row, select. rewrite filter_app.
    assert (base.filter (fun r => Outgoing.has_id m r = true) [row] = []) as ->.
    { apply filter_nil_iff. intros r ->%list_elem_of_singleton. unfold Outgoing.has_id. cbn.
      rewrite bool_decide_eq_true. congruence. }
    rewrite app_nil_r.
    assert (base.filter (fun r => Outgoing.has_id m r = true) (delete_where (Outgoing.has_id i) t) =
            base.filter (fun r => Outgoing.has_id m r = true) t) as ->; [|done].
    unfold delete_where. rewrite list_filter_filter. apply list_filter_iff. intros r.
    unfold Outgoing.has_id. rewrite bool_decide_eq_true, bool_decide_eq_false. split; [tauto|].
    intros <-. split; congruence.
Qed.

Lemma interrupted_att t m now :
  Outgoing.well_formed t ->
  att (Outgoing.mark_interrupted_uncertain t now).1 m =
  match att t m with Some Outgoing.Sending => Some Outgoing.Uncertain | s => s end.
Proof.
  intros Hw. cbn. change (lit "uncertain") with (Outgoing.state_as_str Outgoing.Uncertain).
  rewrite att_set, att_row by done.
  destruct (query_row _ t) as [r|] eqn:E; [|done]. apply query_row_Some in E as [Hr _].
  destruct (Outgoing.well_formed_readable t r Hw Hr) as [a Ha]. rewrite Ha.
  pose proof (Outgoing.in_state_from_row Outgoing.Sending r a Ha) as Hs. cbn in Hs.
  unfold Outgoing.in_state. rewrite Hs. by destruct (Outgoing.state a).
Qed.

Lemma prune_att t m before :
  Outgoing.well_formed t ->
  att (Outgoing.prune_settled t before).1 m = att t m \/ att (Outgoing.prune_settled t before).1 m = None.
Proof.
  intros Hw. unfold Outgoing.prune_settled, att. cbn [fst]. rewrite Outgoing.attempt_delete by done.
  unfold Outgoing.attempt. destruct (query_row _ t) as [r|]; [|by left].
  destruct (_ && _); [by right|by left].
Qed.

Lemma prune_well_formed t before :
  Outgoing.well_formed t -> Outgoing.well_formed (Outgoing.prune_settled t before).1.
Proof. apply Outgoing.delete_well_formed. Qed.

Lemma recover_keeps_attempts s now s' x :
  Merge.recover s now = Ok (s', x) -> Merge.attempts_t s' = Merge.attempts_t s.
Proof.
  unfold Merge.recover. intros (s1 & Hs1 & [= <- _])%bind_Ok. cbn.
  revert Hs1. generalize (select (Merge.item_in "sending") (Merge.items_t s)) as stuck.
  revert s s1. intros s s1 stuck. revert s. induction stuck as [|q stuck IH]; intros s; cbn.
  - by intros [= <-].
  - intros (a & _ & Hr)%bind_Ok. rewrite (IH _ Hr).
    destruct (Merge.recovered a) as [o|]; [|done]. by destruct (Merge.settle_items s (Merge.i_batch q) (Merge.i_idx q) o now) as (_ & ? & _).
Qed.

(** ** Many routines at once, and the process that may stop *)

Record World := { db : Db; running : gset text; delivered : list text }.

Definition with_db (d : Db) (w : World) : World :=
  {| db := d; running := running w; delivered := delivered w |}.

(** What one call may do.  A section of [engine.db] does what it says or
    fails with nothing done; a transmission the server accepted has been
    delivered, one that is uncertain may have been, and any other error means
    that it was not. *)
Definition does (X : Type) (e : Ev X) : World -> World -> X -> Prop :=
  match e in Ev X return World -> World -> X -> Prop with
  | WithDb f => fun w w' r =>
      (exists d x, f (db w) = Ok (d, x) /\ w' = with_db d w /\ r = Ok x) \/
      (exists e, w' = w /\ r = Err e)
  | Clock => fun w w' _ => w' = w
  | NewId => fun w w' _ => w' = w
  | Guard _ => fun w w' _ => w' = w
  | Transmit i _ _ _ => fun w w' r =>
      exists n, w' = {| db := db w; running := running w; delivered := delivered w ++ replicate n i |} /\
      match r with
      | Ok _ => n = 1%nat
      | Err e => if is_uncertain e then (n <= 1)%nat else n = 0%nat
      end
  | AppendSent _ _ => fun w w' _ => w' = w
  | Enter i => fun w w' b =>
      b = bool_decide (i ∉ running w) /\
      w' = {| db := db w; running := {[ i ]} ∪ running w; delivered := delivered w |}
  | Leave i => fun w w' _ =>
      w' = {| db := db w; running := running w ∖ {[ i ]}; delivered := delivered w |}
  end.

Definition count (m : text) (l : list text) : nat := length (base.filter (fun i => i = m) l).
#[global] Arguments count : simpl never.

Section OneMessage.
Variable m : text.

(** A routine stands in one of three places as to the message [m]: it has
    nothing to do with it, it has begun the attempt and nothing has gone, or
    it knows that the message was delivered. *)
Inductive Phase := Idle | Own | Done.

Definition status (d : Db) : option Outgoing.AttemptState := att (attempts d) m.
Definition db_ok (d : Db) : Prop := Outgoing.well_formed (attempts d).

(** What a routine in a phase may do to the attempt of [m], and the phase it
    is then in. *)
Definition allowed (ph ph' : Phase) (s s' : option Outgoing.AttemptState) : Prop :=
  match ph, ph' with
  | Idle, Idle => (held s -> held s') /\ (gone s' -> gone s)
  | Idle, Own => ~ held s /\ held s' /\ ~ gone s'
  | Own, Own => held s' /\ ~ gone s'
  | Own, Idle => ~ gone s'
  | Done, Done | Done, Idle => held s -> held s'
  | _, _ => False
  end.

(** Forgetting what one stood for is always right. *)
Definition weaker (ph ph' : Phase) : Prop := ph' = ph \/ ph' = Idle.

Definition sending_ok {X} (e : Ev X) (ph : Phase) : (X -> Phase -> Prop) -> Prop :=
  match e in Ev X return (X -> Phase -> Prop) -> Prop with
  | WithDb f => fun K =>
      (forall e, exists ph', weaker ph ph' /\ K (Err e) ph') /\
      forall d d' x, db_ok d -> f d = Ok (d', x) ->
        db_ok d' /\ exists ph', allowed ph ph' (status d) (status d') /\ K (Ok x) ph'
  | Transmit i _ _ _ => fun K =>
      if bool_decide (i = m) then
        ph = Own /\ (forall tx, K (Ok tx) Done) /\
        forall e, K (Err e) (if is_uncertain e then Idle else Own)
      else forall r, K r ph
  | _ => fun K => forall x, K x ph
  end.

Lemma sending_ok_mono {X} (e : Ev X) ph (K K' : X -> Phase -> Prop) :
  (forall x ph', K x ph' -> K' x ph') -> sending_ok e ph K -> sending_ok e ph K'.
Proof.
  intros HK. destruct e; cbn; try (intros H x; by apply HK, H).
  - intros [He Ho]. split.
    + intros e. destruct (He e) as (ph' & ? & ?). eauto.
    + intros d d' x Hd Hf. destruct (Ho d d' x Hd Hf) as (? & ph' & ? & ?). eauto.
  - case_bool_decide; [|eauto]. intros (-> & Ho & He). eauto.
Qed.

#[local] Instance sending_protocol : Protocol Ev Phase :=
  {| call_ok := @sending_ok; call_ok_mono := @sending_ok_mono |}.

Definition to_idle {R} (_ : R) (ph : Phase) : Prop := ph = Idle.

(** A section that keeps the attempts as they are. *)
Lemma call_ok_other {X} (f : Db -> result text (Db * X)) (K : result text X -> Phase -> Prop) :
  (forall d d' x, f d = Ok (d', x) -> attempts d' = attempts d) ->
  (forall r, K r Idle) -> call_ok (WithDb f) Idle K.
Proof.
  intros Hf HK. split; [intros e; exists Idle; by split; [left|]|].
  intros d d' x Hd Hfd. specialize (Hf _ _ _ Hfd). unfold db_ok, status. rewrite Hf.
  split; [done|]. by exists Idle.
Qed.

(** *** The routines keep to it *)

Context `{Unicode} (to_string : Value -> result text text) (from_str : text -> result text Value).

(** Settling an attempt whose name is [i]. *)
Lemma mark_ok (i : text) ph ph' (f : list Outgoing.Row -> list Outgoing.Row)
    (K : result text unit -> Phase -> Prop) :
  weaker ph ph' ->
  (forall t, Outgoing.well_formed t -> Outgoing.well_formed (f t) /\ allowed ph ph' (att t m) (att (f t) m)) ->
  (forall r, K r ph') -> call_ok (WithDb (on_attempts f)) ph K.
Proof.
  intros Hwk Hf HK. split; [intros e; by exists ph'|].
  intros d d' x Hd [= <- <-]. destruct (Hf _ Hd) as [Hw Ha]. split; [done|]. by exists ph'.
Qed.

Lemma after_accepted_ok i acct tx ph :
  (i = m -> ph = Done) -> (i <> m -> ph = Idle) ->
  thread_ok ph (after_accepted i acct tx) to_idle.
Proof.
  intros Hm Hi.
  assert (forall s now t, s = Outgoing.Accepted \/ s = Outgoing.Archived -> Outgoing.well_formed t ->
    let t' := update (Outgoing.has_id i) (Outgoing.set_cols (Outgoing.state_as_str s) None now) t in
    Outgoing.well_formed t' /\ allowed ph ph (att t m) (att t' m) /\ allowed ph Idle (att t m) (att t' m)) as Hset.
  { intros s now t Hs Hw t'. split; [by apply set_well_formed|]. unfold t'. rewrite att_set_id by done.
    case_bool_decide as Hmi.
    - rewrite Hm by done. destruct (att t m); cbn; [|done]. unfold held. by destruct Hs as [->| ->].
    - rewrite Hi by done. by cbn. }
  assert (forall e now t, Outgoing.well_formed t ->
    Outgoing.well_formed (Outgoing.mark_archive_failed t i e now) /\
    allowed ph Idle (att t m) (att (Outgoing.mark_archive_failed t i e now) m)) as Hfail.
  { intros e now t Hw. split; [by apply archive_failed_well_formed|].
    rewrite archive_failed_att by done. destruct (decide (i = m)); [rewrite Hm by done|rewrite Hi by done]; by cbn. }
  assert (forall now f, f = Outgoing.mark_archived \/ f = Outgoing.mark_accepted ->
    forall ph' (K : result text unit -> Phase -> Prop), ph' = ph \/ ph' = Idle -> (forall r, K r ph') ->
    call_ok (WithDb (on_attempts (fun t => f t i now))) ph K) as Hmark.
  { intros now f Hf ph' K Hph HK. apply (mark_ok i ph ph'); [exact Hph| |done].
    intros t Hw. destruct Hf as [->| ->];
      [destruct (Hset Outgoing.Archived now t (or_intror eq_refl) Hw) as (? & ? & ?)|
       destruct (Hset Outgoing.Accepted now t (or_introl eq_refl) Hw) as (? & ? & ?)];
      (split; [done|]); by destruct Hph as [->| ->]. }
  unfold after_accepted. cbn -[call_ok]. intros now.
  split.
  { intros e. exists Idle. by split; [right|]. }
  intros d d' [] Hd [= <-]. destruct (Hset Outgoing.Accepted now _ (or_introl eq_refl) Hd) as (? & ? & ?).
  split; [done|]. exists ph. split; [done|]. cbn -[call_ok]. intros copy now'.
  destruct copy as [[]|e].
  - apply (Hmark now' Outgoing.mark_archived (or_introl eq_refl) Idle); [by right|by intros [[]|]].
  - destruct (archived_by_server tx).
    + apply (Hmark now' Outgoing.mark_archived (or_introl eq_refl) Idle); [by right|by intros [[]|]].
    + apply (mark_ok i ph Idle); [by right|apply Hfail|by intros [[]|]].
Qed.

Lemma after_failed_ok i e ph :
  (i = m -> ph = if is_uncertain e then Idle else Own) -> (i <> m -> ph = Idle) ->
  thread_ok ph (after_failed i e) to_idle.
Proof.
  intros Hm Hi. unfold after_failed. cbn -[call_ok]. intros now.
  assert (forall s why t, (is_uncertain e = true /\ s = Outgoing.Uncertain) \/
      (is_uncertain e = false /\ s = Outgoing.Rejected) -> Outgoing.well_formed t ->
    let t' := update (Outgoing.has_id i) (Outgoing.set_cols (Outgoing.state_as_str s) (Some why) now) t in
    Outgoing.well_formed t' /\ allowed ph Idle (att t m) (att t' m)) as Hset.
  { intros s why t Hs Hw t'. split; [by apply set_well_formed|]. unfold t'. rewrite att_set_id by done.
    case_bool_decide as Hmi.
    - rewrite Hm by done. destruct Hs as [[-> ->]|[-> ->]]; destruct (att t m); cbn; unfold held, gone;
        try (split; [done|]); intros [?|?]; done.
    - by rewrite Hi by done. }
  destruct (is_uncertain e) eqn:Eu.
  - apply (mark_ok i ph Idle); [by right| |by intros [[]|]].
    intros t Hw. apply (Hset Outgoing.Uncertain); [by left|done].
  - apply (mark_ok i ph Idle); [by right| |by intros [[]|]].
    intros t Hw. apply (Hset Outgoing.Rejected); [by right|done].
Qed.

Lemma look_and_begin_ok i acct p now d d' x :
  (resends p = true -> i <> m) -> db_ok d ->
  look_and_begin to_string i acct p now d = Ok (d', x) ->
  db_ok d' /\
  match x with
  | Some _ => d' = d
  | None => if bool_decide (m = i) then allowed Idle Own (status d) (status d')
            else status d' = status d
  end.
Proof.
  intros Hr Hd. unfold look_and_begin. rewrite bind_Ok. intros (earlier & He & Hx).
  assert (forall d' x,
    (t ← Outgoing.begin_attempt to_string (attempts d) i acct (attempt_kind p)
           (str_or_empty p (lit "message_id")) p now;
     Ok (set_attempts t d, None)) = Ok (d', x) ->
    ~ (m = i /\ held (status d)) ->
    db_ok d' /\ x = (None : option Outgoing.OutgoingAttempt) /\
    if bool_decide (m = i) then allowed Idle Own (status d) (status d') else status d' = status d) as Hb.
  { intros d1 x1 (t & Ht & [= <- <-])%bind_Ok Hnh. unfold db_ok, status in *. cbn.
    split; [by eapply Outgoing.begin_well_formed|]. split; [done|].
    rewrite (begin_att _ _ m _ _ _ _ _ _ _ Hd Ht). case_bool_decide; [|done].
    split; [tauto|]. split; [done|]. by intros [?|?]. }
  destruct earlier as [a|].
  - destruct (Outgoing.may_have_gone (Outgoing.state a) && negb (resends p)) eqn:E.
    + injection Hx as <- <-. done.
    + destruct (Hb d' x Hx) as (? & -> & ?); [|done]. intros [Hmi Hh]. unfold held, status, att in Hh.
      rewrite Hmi, He in Hh. cbn in Hh. rewrite Hh in E. cbn in E.
      apply negb_false_iff in E. by apply Hr.
  - destruct (Hb d' x Hx) as (? & -> & ?); [|done]. intros [Hmi Hh]. unfold held, status, att in Hh.
    by rewrite Hmi, He in Hh.
Qed.

Lemma send_attempt_ok i acct to p :
  (resends p = true -> i <> m) -> thread_ok Idle (send_attempt to_string i acct to p) to_idle.
Proof.
  intros Hr. unfold send_attempt. cbn -[call_ok look_and_begin]. intros now. split.
  { intros e. exists Idle. by split; [left|]. }
  intros d d' x Hd Hf. destruct (look_and_begin_ok i acct p now d d' x Hr Hd Hf) as [Hd' Hx].
  split; [done|]. destruct x as [a|].
  { exists Idle. by subst d'. }
  case_bool_decide as Hmi.
  - exists Own. split; [done|]. cbn -[call_ok]. cbn [call_ok sending_protocol sending_ok]. rewrite bool_decide_true by done.
    split; [done|]. split.
    + intros tx. by apply after_accepted_ok.
    + intros e. by apply after_failed_ok.
  - exists Idle. split; [by rewrite Hx|]. cbn -[call_ok]. cbn [call_ok sending_protocol sending_ok]. rewrite bool_decide_false by congruence.
    intros [tx|e]; [by apply after_accepted_ok|]. apply after_failed_ok; [congruence|done].
Qed.

(** A request that asks to send [m] again whatever its attempt says. *)
Definition asks_again (p : Value) : bool :=
  resends p && match given_id p with Some i => bool_decide (i = m) | None => true end.

Lemma perform_send_ok p :
  asks_again p = false -> thread_ok Idle (perform_send to_string p) to_idle.
Proof.
  intros Ha. unfold perform_send. apply thread_ok_and_then. cbn. intros [[]|e]; [|done].
  destruct (req_str p (lit "account")) as [acct|e]; [|done].
  destruct (req_str p (lit "to")) as [to|e]; [|done]. cbn -[send_attempt].
  apply thread_ok_bind. unfold asks_again in Ha. destruct (given_id p) as [i|].
  - apply send_attempt_ok. intros Hr. rewrite Hr in Ha. cbn in Ha. by apply bool_decide_eq_false in Ha.
  - cbn -[send_attempt]. intros i. apply send_attempt_ok. intros Hr. by rewrite Hr in Ha.
Qed.

Lemma scheduled_request_id i resend ms :
  get_str (lit "attempt_id") (scheduled_request i resend (Object ms)) = Some i.
Proof.
  unfold scheduled_request, get_str. rewrite !(get_insert_ne _ (lit "attempt_id")) by done.
  by rewrite get_insert_eq.
Qed.

Lemma scheduled_request_resends i resend message :
  resends (scheduled_request i resend message) = true -> resend = true /\ exists ms, message = Object ms.
Proof.
  destruct message as [| | | | |ms]; [done..|]. unfold resends.
  assert (get (lit "resend") (scheduled_request i resend (Object ms)) = Some (Bool resend)) as ->
    by apply get_insert_eq.
  cbn. intros ->. eauto.
Qed.

Lemma scheduled_request_asks i resend message :
  (resend = true -> trim i <> [] /\ trim i <> m) -> asks_again (scheduled_request i resend message) = false.
Proof.
  intros Hi. unfold asks_again. destruct (resends _) eqn:E; [|done].
  apply scheduled_request_resends in E as [-> [ms ->]]. destruct (Hi eq_refl) as [Hne Hm].
  unfold given_id, str_or_empty, req_str. rewrite scheduled_request_id. cbn [ok_or ok unwrap_or].
  destruct (trim i) as [|c s]; [done|]. cbn. by apply bool_decide_eq_false.
Qed.

Lemma send_scheduled_ok row message resend :
  (resend = true -> trim (Scheduled.id row) <> [] /\ trim (Scheduled.id row) <> m) ->
  thread_ok Idle (send_scheduled to_string row message resend) to_idle.
Proof.
  intros Hr. unfold send_scheduled. apply thread_ok_and_then.
  assert (forall ph', ph' = Idle -> thread_ok ph'
    (answer <-? perform_send to_string (scheduled_request (Scheduled.id row) resend message) ;;
     Ret (Ok (scheduled_outcome_of answer))) to_idle) as Hsend.
  { intros ph' ->. apply thread_ok_and_then. eapply thread_ok_mono.
    2: { apply perform_send_ok. by apply scheduled_request_asks. }
    by intros [a|e] ph' ->. }
  destruct resend; [by apply Hsend|]. apply thread_ok_and_then.
  apply call_ok_other; [by intros d d' x (a & _ & [= <- _])%bind_Ok|].
  intros [earlier|e]; [|done]. cbn [thread_ok].
  destruct (scheduled_send_precheck earlier) as [o|]; [done|]. by apply Hsend.
Qed.

Lemma on_scheduled_other {X} (f : list Scheduled.ScheduledSend -> list Scheduled.ScheduledSend * X) d d' x :
  on_scheduled f d = Ok (d', x) -> attempts d' = attempts d.
Proof. unfold on_scheduled. destruct (f (scheduled d)). by intros [= <- _]. Qed.

Lemma watch_row_ok known now row :
  thread_ok Idle (watch_row to_string from_str known now row) to_idle.
Proof.
  unfold watch_row. destruct (known _); [|done]. cbn [negb].
  destruct (from_str (Scheduled.payload row)) as [message|e].
  2: { apply thread_ok_bind. by apply call_ok_other; [apply on_scheduled_other|]. }
  apply thread_ok_bind. eapply thread_ok_mono; [|by apply send_scheduled_ok].
  intros [[]|e] ph' ->; [| |done|]; apply thread_ok_bind;
    (by apply call_ok_other; [apply on_scheduled_other|]).
Qed.

Lemma scheduled_watch_ok known : thread_ok Idle (scheduled_watch to_string from_str known) to_idle.
Proof.
  unfold scheduled_watch. apply thread_ok_bind. intros now. apply thread_ok_bind.
  apply call_ok_other; [by intros d d' x [= <- _]|]. intros r.
  apply thread_ok_for_each. intros row. apply watch_row_ok.
Qed.

Lemma send_scheduled_now_ok i resend :
  (resend = true -> trim i <> [] /\ trim i <> m) ->
  thread_ok Idle (send_scheduled_now to_string from_str i resend) to_idle.
Proof.
  intros Hr. unfold send_scheduled_now. apply thread_ok_and_then.
  split; [intros e; exists Idle; by split; [left|]|].
  intros d d' row Hd [= <- <-]. split; [done|]. exists Idle. split; [done|]. cbn [thread_ok].
  destruct (Scheduled.scheduled_send (scheduled d) i) as [row|] eqn:E; [|done].
  apply query_row_Some in E as [_ E]. apply bool_decide_eq_true in E.
  apply thread_ok_and_then. cbn [thread_ok ok_or]. apply thread_ok_and_then. cbn [thread_ok].
  destruct (from_str (Scheduled.payload row)) as [message|e]; [|done].
  cbn [thread_ok]. apply thread_ok_bind.
  eapply thread_ok_mono; [|apply send_scheduled_ok; by rewrite E].
  intros r ph' ->. apply thread_ok_bind. intros now. destruct r as [[]|e]; [| |done|]; apply thread_ok_and_then;
    (apply call_ok_other; [apply on_scheduled_other|by intros [[]|]]).
Qed.

Lemma on_store_other {X} (f : Merge.Store -> Merge.Store * X) d d' x :
  (forall s, Merge.attempts_t (f s).1 = Merge.attempts_t s) ->
  on_store f d = Ok (d', x) -> attempts d' = attempts d.
Proof.
  intros Hf. unfold on_store. specialize (Hf (store d)). destruct (f (store d)).
  by intros [= <- _].
Qed.

Lemma claim_attempts i now s : Merge.attempts_t (claim i now s).1 = Merge.attempts_t s.
Proof.
  unfold claim, Merge.claim_next. destruct (query_row _ _); [|done].
  destruct (negb _); [done|]. by destruct (find_by _ _).
Qed.

Lemma mailing_loop_ok n i : thread_ok Idle (mailing_loop to_string n i) to_idle.
Proof.
  induction n as [|n IH]; [done|]. cbn [mailing_loop]. apply thread_ok_bind. intros now.
  apply thread_ok_bind. apply call_ok_other.
  { intros d d' x. apply on_store_other. intros s. apply claim_attempts. }
  intros [[[item|] [[b items]|]]|e]; try done. cbn [thread_ok]. apply thread_ok_bind.
  eapply thread_ok_mono; [|by apply perform_send_ok].
  intros answer ph' ->. apply thread_ok_bind. intros now'. apply thread_ok_bind. apply call_ok_other.
  { intros d d' x. apply on_store_other. intros s. by apply Merge.settle_items. }
  intros _. exact IH.
Qed.

Lemma spawn_merge_ok n i : thread_ok Idle (spawn_merge to_string n i) to_idle.
Proof.
  unfold spawn_merge. cbn -[mailing_loop]. intros [|]; cbn -[mailing_loop]; [|done].
  apply thread_ok_bind. eapply thread_ok_mono; [|apply mailing_loop_ok].
  intros [] ph' ->. by cbn.
Qed.

(** *** All of them together *)

(** The routines that send.  None of them asks to send [m] again. *)
Inductive routine : prog Ev unit -> Prop :=
| a_send p : asks_again p = false -> routine (_ <- perform_send to_string p ;; Ret tt)
| a_watch known : routine (scheduled_watch to_string from_str known)
| a_send_now i resend :
    (resend = true -> trim i <> [] /\ trim i <> m) ->
    routine (_ <- send_scheduled_now to_string from_str i resend ;; Ret tt)
| a_mailing n i : routine (spawn_merge to_string n i).

(** At a restart, the history of [m] is not old enough to be forgotten. *)
Definition restart (w w' : World) : Prop := exists now,
  (status (startup (db w) now) = None -> status (db w) = None) /\
  w' = {| db := startup (db w) now; running := ∅; delivered := delivered w |}.

(** Anything else is done to the database that leaves the attempt of [m] alone. *)
Definition elsewhere (w w' : World) : Prop := exists d,
  db_ok d /\ status d = status (db w) /\ w' = with_db d w.

Definition step : System Ev World -> System Ev World -> Prop := Pool.step does routine restart elsewhere.

Record consistent (w : World) (phs : list Phase) : Prop := {
  c_ok : db_ok (db w);
  c_once : (count m (delivered w) <= 1)%nat;
  c_held : count m (delivered w) = 0%nat \/ held (status (db w));
  c_gone : gone (status (db w)) -> count m (delivered w) = 1%nat;
  c_own : forall k, phs !! k = Some Own -> held (status (db w)) /\ count m (delivered w) = 0%nat;
  c_one : forall j k, phs !! j = Some Own -> phs !! k = Some Own -> j = k;
  c_done : forall k, phs !! k = Some Done -> count m (delivered w) = 1%nat
}.

Lemma consistent_weaker w phs k ph ph' :
  consistent w phs -> phs !! k = Some ph -> weaker ph ph' -> consistent w (<[k := ph']> phs).
Proof.
  intros [] Hk Hwk. split; try done.
  - intros j. rewrite list_lookup_insert_Some. intros [(-> & -> & _)|[_ Hj]]; [|by eapply c_own0].
    destruct Hwk as [<-|?]; [by eapply c_own0|done].
  - intros i j. rewrite !list_lookup_insert_Some.
    assert (ph' = Own -> ph = Own) as Ho by (destruct Hwk as [->| ->]; done).
    intros [(<- & Hi & _)|[_ Hi]] [(<- & Hj & _)|[_ Hj]]; try done; apply c_one0; try done;
      rewrite Hk; f_equal; by apply Ho.
  - intros j. rewrite list_lookup_insert_Some. intros [(-> & -> & _)|[_ Hj]]; [|by eapply c_done0].
    destruct Hwk as [<-|?]; [by eapply c_done0|done].
Qed.

Lemma consistent_db w phs k ph ph' d :
  consistent w phs -> phs !! k = Some ph -> db_ok d ->
  allowed ph ph' (status (db w)) (status d) -> consistent (with_db d w) (<[k := ph']> phs).
Proof.
  intros [] Hk Hd Ha. pose proof (gone_held (status (db w))) as Hgh.
  assert (ph = Own -> count m (delivered w) = 0%nat) as Hown by (intros ->; by eapply c_own0).
  assert (ph = Done -> count m (delivered w) = 1%nat) as Hdone by (intros ->; by eapply c_done0).
  assert (forall j, phs !! j = Some Own -> j <> k -> held (status d)) as Hoth.
  { intros j Hj Hne. destruct (c_own0 j Hj) as [Hh Hn0].
    destruct ph, ph'; cbn in Ha; try done; try tauto.
    by pose proof (c_one0 _ _ Hj Hk). }
  split; cbn; try done.
  - destruct ph, ph'; cbn in Ha; try done; try tauto;
      try (left; by apply Hown); try (right; specialize (Hdone eq_refl); destruct c_held0; [lia|tauto]).
  - intros Hg. destruct ph, ph'; cbn in Ha; try done; try tauto; by apply Hdone.
  - intros j. rewrite list_lookup_insert_Some. intros [(<- & -> & _)|[Hne Hj]].
    + destruct ph; cbn in Ha; try done; [|split; [tauto|by apply Hown]].
      split; [tauto|]. destruct c_held0; [done|tauto].
    + split; [by apply (Hoth j)|by eapply c_own0].
  - intros i j. rewrite !list_lookup_insert_Some.
    intros [(<- & -> & _)|[Hni Hi]] [(<- & ? & _)|[Hnj Hj]]; try done.
    + destruct ph; cbn in Ha; try done; [|by apply c_one0].
      destruct (c_own0 j Hj). tauto.
    + subst. destruct ph; cbn in Ha; try done; [|by apply c_one0].
      destruct (c_own0 i Hi). tauto.
    + by apply c_one0.
  - intros j. rewrite list_lookup_insert_Some. intros [(<- & -> & _)|[_ Hj]]; [|by eapply c_done0].
    destruct ph; cbn in Ha; try done. by apply Hdone.
Qed.

Lemma count_app i n l : count m (l ++ replicate n i) = (count m l + if bool_decide (i = m) then n else 0)%nat.
Proof.
  unfold count. rewrite filter_app, length_app. f_equal. case_bool_decide as Hi.
  - rewrite Hi. induction n as [|n IH]; [done|]. cbn [replicate].
    rewrite filter_cons_True by done. cbn. by rewrite IH.
  - assert (base.filter (fun j => j = m) (replicate n i) = []) as ->; [|done].
    apply filter_nil_iff. by intros x [-> _]%elem_of_replicate.
Qed.

Lemma consistent_call X (e : Ev X) w w' x phs k ph K :
  consistent w phs -> phs !! k = Some ph -> call_ok e ph K -> does X e w w' x ->
  exists ph', K x ph' /\ consistent w' (<[k := ph']> phs).
Proof.
  intros Hc Hk. assert (<[k := ph]> phs = phs) as Hsame by by apply list_insert_id.
  destruct e; cbn.
  - intros [He Ho] [(d & y & Hf & -> & ->)|(e & -> & ->)].
    + destruct (Ho _ _ _ (c_ok _ _ Hc) Hf) as (Hd & ph' & Ha & HK). exists ph'. split; [done|].
      by eapply consistent_db.
    + destruct (He e) as (ph' & Hwk & HK). exists ph'. split; [done|]. by eapply consistent_weaker.
  - intros HK ->. exists ph. by rewrite Hsame.
  - intros HK ->. exists ph. by rewrite Hsame.
  - intros HK ->. exists ph. by rewrite Hsame.
  - intros Hcall (n & -> & Hn). case_bool_decide as Hi.
    + destruct Hcall as (-> & Hok & Herr). destruct Hc. destruct (c_own0 _ Hk) as [Hh H0].
      exists (match x with Ok _ => Done | Err e => if is_uncertain e then Idle else Own end).
      split; [by destruct x|]. rewrite Hi.
      assert (n <= 1)%nat as Hn1 by (destruct x as [tx|e]; [lia|destruct (is_uncertain e); lia]).
      split; cbn; rewrite ?count_app, ?(bool_decide_true (m = m)), ?H0 by done; try done.
      * by right.
      * intros Hg. specialize (c_gone0 Hg). lia.
      * intros j. rewrite list_lookup_insert_Some. intros [(<- & Hx & _)|[Hne Hj]].
        -- split; [done|]. destruct x as [tx|e]; [done|]. by destruct (is_uncertain e).
        -- by destruct Hne; apply c_one0.
      * intros a b. rewrite !list_lookup_insert_Some.
        intros [(<- & _)|[_ Ha]] [(<- & _)|[_ Hb]]; try done; by apply c_one0.
      * intros j. rewrite list_lookup_insert_Some. intros [(<- & Hx & _)|[_ Hj]].
        -- destruct x as [tx|e]; [by subst n|]. by destruct (is_uncertain e).
        -- specialize (c_done0 j Hj). lia.
    + exists ph. split; [by apply Hcall|]. rewrite Hsame. destruct Hc.
      split; cbn; rewrite ?count_app, ?bool_decide_false, ?Nat.add_0_r by done; done.
  - intros HK ->. exists ph. by rewrite Hsame.
  - intros HK [_ ->]. exists ph. rewrite Hsame. split; [done|]. by destruct Hc; split.
  - intros HK ->. exists ph. rewrite Hsame. split; [done|]. by destruct Hc; split.
Qed.

Lemma routine_ok p : routine p -> thread_ok Idle p (fun _ _ => True).
Proof.
  intros Hp. assert (thread_ok Idle p to_idle) as Hok; [|by eapply thread_ok_mono; [|exact Hok]].
  destruct Hp.
  - apply thread_ok_bind. eapply thread_ok_mono; [|by apply perform_send_ok]. by intros r ph' ->.
  - apply scheduled_watch_ok.
  - apply thread_ok_bind. eapply thread_ok_mono; [|by apply send_scheduled_now_ok]. by intros r ph' ->.
  - apply spawn_merge_ok.
Qed.

(** The history is not forgotten: a restart only turns what was being sent
    into what may have gone. *)
Lemma startup_status d now :
  db_ok d -> (status (startup d now) = None -> status d = None) ->
  db_ok (startup d now) /\
  status (startup d now) = match status d with Some Outgoing.Sending => Some Outgoing.Uncertain | s => s end.
Proof.
  unfold db_ok, status. intros Hd.
  set (t := (Outgoing.prune_settled (Outgoing.mark_interrupted_uncertain (attempts d) now).1
               (now - OUTGOING_HISTORY_SECONDS)).1).
  assert (attempts (startup d now) = t) as ->.
  { unfold startup. destruct (Merge.recover _ now) as [[s x]|e] eqn:E; [|done].
    by apply recover_keeps_attempts in E. }
  assert (Outgoing.well_formed (Outgoing.mark_interrupted_uncertain (attempts d) now).1) as Hw
    by (apply (set_well_formed _ _ Outgoing.Uncertain); done).
  intros Hkeep. split; [by apply prune_well_formed|].
  destruct (prune_att _ m (now - OUTGOING_HISTORY_SECONDS) Hw) as [Hp|Hp]; fold t in Hp.
  - by rewrite Hp, interrupted_att.
  - rewrite Hp. by rewrite (Hkeep Hp).
Qed.

Lemma consistent_start w phs : consistent w phs -> consistent w (phs ++ [Idle]).
Proof.
  intros []. split; try done.
  - intros j [Hj|[_ Hj]]%lookup_app_Some; [by eapply c_own0|].
    by apply list_lookup_singleton_Some in Hj as [_ ?].
  - intros i j [Hi|[_ Hi]]%lookup_app_Some [Hj|[_ Hj]]%lookup_app_Some; [by apply c_one0|..];
      by (apply list_lookup_singleton_Some in Hi as [_ ?] || apply list_lookup_singleton_Some in Hj as [_ ?]).
  - intros j [Hj|[_ Hj]]%lookup_app_Some; [by eapply c_done0|].
    by apply list_lookup_singleton_Some in Hj as [_ ?].
Qed.

Lemma consistent_restart w w' phs : consistent w phs -> restart w w' -> consistent w' [].
Proof.
  intros [] (now & Hkeep & ->). destruct (startup_status _ now c_ok0 Hkeep) as [Hd Hst].
  split; cbn; try done; rewrite Hst.
  - destruct c_held0 as [?|Hh]; [by left|right]. revert Hh. by destruct (status (db w)) as [[]|].
  - intros Hg. apply c_gone0. revert Hg. by destruct (status (db w)) as [[]|]; intros [?|?]; try done; [left|right].
Qed.

#[local] Instance sending_laws : PoolLaws does routine restart elsewhere Idle consistent.
Proof.
  split.
  - apply routine_ok.
  - apply consistent_start.
  - apply consistent_call.
  - apply consistent_restart.
  - intros w w' phs [] (d & Hd & Hst & ->). split; cbn; rewrite ?Hst; done.
Qed.

(** C1: the record never lies, and no message goes twice.  Whatever the
    interleaving of the routines that send, however often the process stops,
    whatever the server answers and whichever write to the database fails: a
    message nobody asks to send again, and whose history is not forgotten, is
    delivered at most once; it was delivered if its attempt says accepted or
    archived; and it was not if there is no attempt or it says rejected. *)
Theorem record_never_lies s s' :
  threads s = [] -> delivered (world s) = [] -> db_ok (db (world s)) ->
  ~ gone (status (db (world s))) ->
  rtc step s s' ->
  (count m (delivered (world s')) <= 1)%nat /\
  (status (db (world s')) = Some Outgoing.Accepted \/ status (db (world s')) = Some Outgoing.Archived ->
     count m (delivered (world s')) = 1%nat) /\
  (status (db (world s')) = None \/ status (db (world s')) = Some Outgoing.Rejected ->
     count m (delivered (world s')) = 0%nat).
Proof.
  intros Ht Hd Hw Hg Hsteps. destruct (pool_good does routine restart elsewhere Idle consistent s s' Ht) as (phs & _ & [] & _); [|done|].
  { split; rewrite ?Hd; try done; [unfold count; cbn; lia|by left]. }
  split; [done|]. split; [done|]. intros Hst. destruct c_held0 as [?|Hh]; [done|].
  by destruct Hst as [Hst|Hst]; rewrite Hst in Hh.
Qed.

End OneMessage.

(** ** A world that answers *)

(** The server accepts and files everything, the clock stands at [now]. *)
Definition handle (now : Z) (X : Type) (e : Ev X) (w : World) : World * X :=
  match e in Ev X return World * X with
  | WithDb f => match f (db w) with Ok (d, x) => (with_db d w, Ok x) | Err e => (w, Err e) end
  | Clock => (w, now)
  | NewId => (w, lit "new")
  | Guard _ => (w, Ok tt)
  | Transmit i _ _ _ =>
      ({| db := db w; running := running w; delivered := delivered w ++ [i] |},
       Ok {| raw := []; archived_by_server := true; delivery_receipt := []; delivery_receipt_reason := None |})
  | AppendSent _ _ => (w, Ok tt)
  | Enter i => ({| db := db w; running := {[ i ]} ∪ running w; delivered := delivered w |},
                bool_decide (i ∉ running w))
  | Leave i => ({| db := db w; running := running w ∖ {[ i ]}; delivered := delivered w |}, tt)
  end.

Lemma handle_does now X (e : Ev X) w : does X e w (handle now X e w).1 (handle now X e w).2.
Proof.
  destruct e; cbn; try done.
  - destruct (f (db w)) as [[d x]|e] eqn:E; cbn; [left; by exists d, x|right; by exists e].
  - exists 1%nat. done.
Qed.

(** C1 at a message sent to its end. *)
Lemma record_never_lies_witness :
  let p := Object [(lit "account", String (lit "a")); (lit "to", String (lit "b@c.d"));
                   (lit "message_id", String (lit "<m>"))] in
  let send : prog Ev unit := _ <- perform_send (fun _ => Ok []) p ;; Ret tt in
  let w := {| db := {| store := {| Merge.batches_t := []; Merge.items_t := []; Merge.attempts_t := [] |};
                       scheduled := [] |}; running := ∅; delivered := [] |} in
  count (lit "<m>") (delivered (exec (handle 5) send w).1) = 1%nat.
Proof.
  intros p send w.
  refine (proj1 (proj2 (record_never_lies (lit "<m>") (fun _ => Ok []) (fun _ => Err [])
    {| world := w; threads := [] |}
    {| world := (exec (handle 5) send w).1; threads := [Ret (exec (handle 5) send w).2] |}
    eq_refl eq_refl _ _ _)) _).
  - split; [apply NoDup_nil_2|apply Forall_nil_2].
  - intros [H|H]; vm_compute in H; discriminate H.
  - eapply rtc_l; [apply (step_start _ _ _ _ {| world := w; threads := [] |} send)|].
    + apply a_send. vm_compute. reflexivity.
    + apply (runs_alone _ _ _ _ (handle 5) (handle_does 5) w [send] 0 send eq_refl).
  - right. vm_compute. reflexivity.
Defined.

(** ** When the history is forgotten too soon *)

Section Forgotten.

Definition one_item : Merge.ItemRow :=
  {| Merge.i_batch := lit "b"; Merge.i_idx := 0; Merge.i_to := lit "bob@example.com"; Merge.i_name := [];
     Merge.i_subject := lit "Hello"; Merge.i_body := lit "Hi"; Merge.i_message_id := lit "<merge-b-0@x>";
     Merge.i_state := lit "pending"; Merge.i_error := []; Merge.i_updated_at := 0 |}.

(** A mailing of one message, ready to go. *)
Definition one_mailing : World :=
  {| db := {| store := {| Merge.batches_t := [{| Merge.b_id := lit "b"; Merge.b_account := lit "a";
                                                Merge.b_from := lit "me@x"; Merge.b_subject := lit "Hello";
                                                Merge.b_spacing := 3; Merge.b_state := lit "sending";
                                                Merge.b_reason := []; Merge.b_created_at := 0 |}];
                         Merge.items_t := [one_item]; Merge.attempts_t := [] |};
              scheduled := [] |};
     running := ∅; delivered := [] |}.

Definition a_day : Z := 86400.

(** The mailing is sent at time 0, the process stopped after a number of
    calls and started again later; the person carries on with the mailing. *)
Definition stopped_and_resumed (calls : nat) (later : Z) : option World :=
  let w := exec_until (handle 0) calls (mailing_loop (H:=ascii_unicode) (fun _ => Ok []) 1 (lit "b")) one_mailing in
  let d := startup (db w) later in
  s ← ok (Merge.resume (store d) (lit "b") false);
  Some (exec (handle later) (mailing_loop (H:=ascii_unicode) (fun _ => Ok []) 1 (lit "b"))
          (with_db (set_store s d) w)).1.

End Forgotten.

(** A restart after more than [OUTGOING_HISTORY_SECONDS] sends again a
    message that has gone.  If the process stops after the server accepted a
    mailing's message and before the mailing recorded it, then restarting the
    next day and carrying on delivers it at most once, whatever the call it stopped
    at; restarting 31 days later forgets the attempt before the mailing is
    reconciled with it, takes the message for one never begun, and delivers
    it twice. *)
Theorem forgotten_then_sent_twice :
  (forall calls, (calls <= 11)%nat -> is_Some (stopped_and_resumed calls a_day) ->
     exists w, stopped_and_resumed calls a_day = Some w /\
       (length (delivered w) <= 1)%nat) /\
  delivered <$> stopped_and_resumed 11 (31 * a_day) = Some [lit "<merge-b-0@x>"; lit "<merge-b-0@x>"].
Proof.
  split; [|vm_compute; reflexivity].
  assert (forallb (fun calls => match stopped_and_resumed calls a_day with
    Some w => (length (delivered w) <=? 1)%nat | None => true end) (seq 0 12) = true) as Hall
    by (vm_compute; reflexivity).
  rewrite forallb_elem in Hall. intros calls Hc [w Hw]. exists w. split; [done|].
  specialize (Hall calls). rewrite Hw in Hall. apply Nat.leb_le, Hall, list_elem_of_In, in_seq. lia.
Qed.

End Sending.
