(* ===== verification/BackupSchedule.v ===== *)
(** * Scheduled backups of the profile

    Models [meron-core/src/backup_schedule/mod.rs]: the schedule and when it
    runs next, the record of the backups written, which of them retention
    removes, a run with its writing and checking given, and what is put right
    at startup.

    A run is a tree of calls (see [Program]).  The files are a map from path
    to contents; the archive writer may leave anything at the path it is
    given and at its [.part] file, and the check answers yes only for
    contents that open ([sound]). *)
From S2P Require Import Prelude Text Table Program.
#[local] Open Scope Z_scope.
#[local] Open Scope prog_scope.

Module BackupSchedule.

Definition PREFIX : text := lit "oreneta-scheduled-".
Definition EXTENSION : text := lit "oreneta-profile".
Definition RETRY_SECONDS : Z := 3600.
Definition MIN_HOURS : Z := 6.
Definition MAX_HOURS : Z := 24 * 30.
Definition MAX_KEEP : Z := 30.

Record Schedule := {
  enabled : bool;
  folder : text;
  every_hours : Z;
  keep : Z;
  max_bytes : option Z
}.

Definition default_schedule : Schedule :=
  {| enabled := false; folder := []; every_hours := 24; keep := 7; max_bytes := None |}.

(** The one row of [backup_schedule]: integers are 64-bit, signed. *)
Record Row := {
  r_enabled : Z;
  r_folder : text;
  r_every_hours : Z;
  r_keep : Z;
  r_max_bytes : option Z;
  r_last_attempt : option Z;
  r_last_success : option Z;
  r_last_error : option text
}.

(** A row of [scheduled_backups]. *)
Record Backup := { b_path : text; b_created_at : Z; b_bytes : Z; b_verified : Z }.

Record Kept := { path : text; created_at : Z; bytes : Z; verified : bool; present : bool }.

Record Store := { schedule_t : option Row; backups_t : list Backup }.

(** [b as i64] of a [u64]. *)
Definition as_i64 (b : Z) : Z := if b <? 2 ^ 63 then b else b - 2 ^ 64.

Definition load (s : Store) : Schedule :=
  match schedule_t s with
  | Some r => {| enabled := negb (r_enabled r =? 0); folder := r_folder r;
                 every_hours := r_every_hours r; keep := r_keep r;
                 max_bytes := (fun b => Z.max b 0) <$> r_max_bytes r |}
  | None => default_schedule
  end.

Definition times (s : Store) : option Z * option Z * option text :=
  match schedule_t s with
  | Some r => (r_last_attempt r, r_last_success r, r_last_error r)
  | None => (None, None, None)
  end.

Definition default_row : Row :=
  {| r_enabled := 0; r_folder := []; r_every_hours := 24; r_keep := 7; r_max_bytes := None;
     r_last_attempt := None; r_last_success := None; r_last_error := None |}.

Definition store_schedule (c : Schedule) (s : Store) : Store :=
  let old := unwrap_or default_row (schedule_t s) in
  {| schedule_t := Some {| r_enabled := if enabled c then 1 else 0; r_folder := folder c;
                           r_every_hours := every_hours c; r_keep := keep c;
                           r_max_bytes := as_i64 <$> max_bytes c;
                           r_last_attempt := r_last_attempt old; r_last_success := r_last_success old;
                           r_last_error := r_last_error old |};
     backups_t := backups_t s |}.

(** [check_folder] asks the file system; its answer is a parameter. *)
Definition save (check_folder : text -> result text text) (s : Store) (c : Schedule)
    : result text (Schedule * Store) :=
  _ ← ensure ((MIN_HOURS <=? every_hours c) && (every_hours c <=? MAX_HOURS))
        (lit "backups run every 6 hours at most and every 30 days at least");
  _ ← ensure ((1 <=? keep c) && (keep c <=? MAX_KEEP)) (lit "keep between 1 and 30 backups");
  _ ← ensure (is_none_or (fun b => 0 <? b) (max_bytes c)) (lit "the space limit must be more than nothing");
  c ← (if enabled c || negb (is_empty (trim (folder c)))
       then f ← check_folder (folder c);
            Ok {| enabled := enabled c; folder := f; every_hours := every_hours c;
                  keep := keep c; max_bytes := max_bytes c |}
       else Ok c);
  Ok (c, store_schedule c s).

Definition next_run (c : Schedule) (last_attempt last_success : option Z) : option Z :=
  if negb (enabled c) || is_empty (folder c) then None
  else
    let by_schedule := match last_success with Some t => t + every_hours c * 3600 | None => 0 end in
    let failed_last := match last_attempt, last_success with
                       | Some a, Some s => s <? a
                       | Some _, None => true
                       | None, _ => false
                       end in
    let by_retry := if failed_last then unwrap_or 0 last_attempt + RETRY_SECONDS else 0 in
    Some (Z.max by_schedule by_retry).

(** [ORDER BY created_at DESC, path DESC] *)
Definition newer (a b : Backup) : bool :=
  (b_created_at b <? b_created_at a) ||
  ((b_created_at a =? b_created_at b) && text_le (b_path b) (b_path a)).

Definition kept_of (is_file : text -> bool) (b : Backup) : Kept :=
  {| path := b_path b; created_at := b_created_at b; bytes := Z.max (b_bytes b) 0;
     verified := negb (b_verified b =? 0); present := is_file (b_path b) |}.

Definition records (is_file : text -> bool) (s : Store) : list Kept :=
  kept_of is_file <$> order_by newer (backups_t s).

(** The loop of [plan_prune] after the newest verified backup: the index of
    the next one and the size of those kept so far. *)
Fixpoint prune_from (keep : Z) (max : option Z) (index total : Z) (l : list Kept) : list text :=
  match l with
  | [] => []
  | b :: rest =>
      if (keep <=? index) || is_some_and (fun m => m <? total + bytes b) max
      then path b :: prune_from keep max (index + 1) total rest
      else prune_from keep max (index + 1) (total + bytes b) rest
  end.

Definition plan_prune (kept : list Kept) (keep : Z) (max : option Z) : list text :=
  match base.filter (fun k => verified k = true) kept with
  | [] => []
  | b :: rest => rev (prune_from keep max 1 (bytes b) rest)
  end.

(** [folder.join(name)], and [path.file_name()]. *)
Definition join_path (dir name : text) : text :=
  if ends_with (lit "/") dir then dir ++ name else dir ++ lit "/" ++ name.

Definition file_name_of (p : text) : text :=
  match rfind_char 47 p with Some i => drop (S i) p | None => p end.

Definition ours (p : text) : bool := starts_with PREFIX (file_name_of p).

(** The name for a run, not already in the folder: the stamp alone, then
    with a number from 2 on. *)
Definition candidate (dir stamp : text) (n : nat) : text :=
  join_path dir (PREFIX ++ stamp ++
    (if (n =? 1)%nat then [] else lit "-" ++ show_nat n) ++ lit "." ++ EXTENSION).

Fixpoint first_free (exists_ : text -> bool) (dir stamp : text) (fuel n : nat) : text :=
  match fuel with
  | O => candidate dir stamp n
  | S f => if exists_ (candidate dir stamp n) then first_free exists_ dir stamp f (S n)
           else candidate dir stamp n
  end.

Record Outcome := { o_path : text; o_bytes : Z; o_removed : list text }.

(** ** What a run calls *)

Record World := { store : Store; files : gmap text text; writing : bool }.

Inductive Ev : Type -> Type :=
| Db {X} (f : Store -> Store * X) : Ev (result text X)
| Records : Ev (result text (list Kept))
| TryCapture : Ev bool
| Release : Ev unit
| CheckFolder (f : text) : Ev (result text text)
| FileName (dir : text) (now : Z) : Ev text
| Write (p : text) : Ev (result text unit)
| Len (p : text) : Ev (result text Z)
| Verify (p : text) : Ev (result text unit)
| Remove (p : text) : Ev (result text unit)
| ReadDir (dir : text) : Ev (result text (list text)).

Definition set_backups (f : list Backup -> list Backup) (s : Store) : Store * unit :=
  ({| schedule_t := schedule_t s; backups_t := f (backups_t s) |}, tt).

Definition has_path (p : text) (b : Backup) : bool := bool_decide (b_path b = p).

(** The statements of a run. *)
Definition set_attempt (now : Z) (s : Store) : Store * unit :=
  let old := unwrap_or default_row (schedule_t s) in
  ({| schedule_t := Some {| r_enabled := r_enabled old; r_folder := r_folder old;
                            r_every_hours := r_every_hours old; r_keep := r_keep old;
                            r_max_bytes := r_max_bytes old; r_last_attempt := Some now;
                            r_last_success := r_last_success old; r_last_error := r_last_error old |};
      backups_t := backups_t s |}, tt).

Definition set_success (now : Z) (s : Store) : Store * unit :=
  ({| schedule_t := (fun r => {| r_enabled := r_enabled r; r_folder := r_folder r;
                                 r_every_hours := r_every_hours r; r_keep := r_keep r;
                                 r_max_bytes := r_max_bytes r; r_last_attempt := r_last_attempt r;
                                 r_last_success := Some now; r_last_error := None |}) <$> schedule_t s;
      backups_t := backups_t s |}, tt).

Definition set_error (e : text) (s : Store) : Store * unit :=
  ({| schedule_t := (fun r => {| r_enabled := r_enabled r; r_folder := r_folder r;
                                 r_every_hours := r_every_hours r; r_keep := r_keep r;
                                 r_max_bytes := r_max_bytes r; r_last_attempt := r_last_attempt r;
                                 r_last_success := r_last_success r; r_last_error := Some e |}) <$> schedule_t s;
      backups_t := backups_t s |}, tt).

Definition set_verified (p : text) : Store -> Store * unit :=
  set_backups (update (has_path p) (fun b =>
    {| b_path := b_path b; b_created_at := b_created_at b; b_bytes := b_bytes b; b_verified := 1 |})).

Definition insert_backup (p : text) (now size : Z) : Store -> Store * unit :=
  set_backups (insert_or_replace (has_path p)
    {| b_path := p; b_created_at := now; b_bytes := size; b_verified := 0 |}).

Definition forget (p : text) : Store -> Store * unit := set_backups (delete_where (has_path p)).

(** [remove_ours] *)
Definition remove_ours (p : text) (size : Z) : prog Ev (result text unit) :=
  len <- call (Len p) ;;
  _ <-? (if ours p && is_some_and (Z.eqb size) (ok len) then call (Remove p) else Ret (Ok tt)) ;;
  call (Db (forget p)).

Fixpoint remove_all (kept : list Kept) (remove : list text) : prog Ev (result text unit) :=
  match remove with
  | [] => Ret (Ok tt)
  | p :: rest =>
      _ <-? (match find_by (fun k => bool_decide (path k = p)) kept with
             | Some k => remove_ours (path k) (bytes k)
             | None => Ret (Ok tt)
             end) ;;
      remove_all kept rest
  end.

Definition prune : prog Ev (result text (list text)) :=
  c <-? call (Db (fun s => (s, load s))) ;;
  kept <-? call Records ;;
  _ <-? remove_all kept (plan_prune kept (keep c) (max_bytes c)) ;;
  Ret (Ok (plan_prune kept (keep c) (max_bytes c))).

(** The part of [run_with] whose error is recorded. *)
Definition write_and_check (c : Schedule) (now : Z) : prog Ev (result text Outcome) :=
  dir <-? call (CheckFolder (folder c)) ;;
  dest <- call (FileName dir now) ;;
  _ <-? call (Write dest) ;;
  size <-? call (Len dest) ;;
  _ <-? call (Db (insert_backup dest now size)) ;;
  checked <- call (Verify dest) ;;
  match checked with
  | Err e =>
      _ <-? remove_ours dest size ;;
      Ret (Err (lit "the new backup did not pass its check, so it was removed: " ++ e))
  | Ok _ =>
      _ <-? call (Db (set_verified dest)) ;;
      _ <-? call (Db (set_success now)) ;;
      removed <-? prune ;;
      Ret (Ok {| o_path := dest; o_bytes := size; o_removed := removed |})
  end.

Definition run_with (now : Z) : prog Ev (result text Outcome) :=
  free <- call TryCapture ;;
  if negb free then Ret (Err (lit "another backup is being written; try again when it finishes"))
  else
    r <- (c <-? call (Db (fun s => (s, load s))) ;;
          if is_empty (folder c) then Ret (Err (lit "choose a folder for the backups"))
          else
            _ <-? call (Db (set_attempt now)) ;;
            r <- write_and_check c now ;;
            match r with
            | Ok o => Ret (Ok o)
            | Err e => _ <-? call (Db (set_error e)) ;; Ret (Err e)
            end) ;;
    _ <- call Release ;; Ret r.

Fixpoint remove_unverified (kept : list Kept) : prog Ev (result text unit) :=
  match kept with
  | [] => Ret (Ok tt)
  | k :: rest =>
      _ <-? (if verified k then Ret (Ok tt) else remove_ours (path k) (bytes k)) ;;
      remove_unverified rest
  end.

Definition half_written (name : text) : bool := starts_with PREFIX name && ends_with (lit ".part") name.

Definition recover : prog Ev (result text unit) :=
  kept <-? call Records ;;
  _ <-? remove_unverified kept ;;
  c <-? call (Db (fun s => (s, load s))) ;;
  names <- call (ReadDir (folder c)) ;;
  _ <- for_each (unwrap_or [] (ok names)) tt (fun name _ =>
         if half_written name then _ <- call (Remove (join_path (folder c) name)) ;; Ret tt
         else Ret tt) ;;
  Ret (Ok tt).

(** ** The schedule *)

(** What a schedule must be to be saved. *)
Definition acceptable (c : Schedule) : Prop :=
  MIN_HOURS <= every_hours c <= MAX_HOURS /\ 1 <= keep c <= MAX_KEEP /\
  forall b, max_bytes c = Some b -> 0 < b.

Definition needs_folder (c : Schedule) : bool := enabled c || negb (is_empty (trim (folder c))).

Lemma save_cases cf s c :
  (acceptable c /\ needs_folder c = false /\ save cf s c = Ok (c, store_schedule c s)) \/
  (acceptable c /\ needs_folder c = true /\
   match cf (folder c) with
   | Ok f => let c' := {| enabled := enabled c; folder := f; every_hours := every_hours c;
                          keep := keep c; max_bytes := max_bytes c |} in
             save cf s c = Ok (c', store_schedule c' s)
   | Err e => save cf s c = Err e
   end) \/
  (~ acceptable c /\ exists e, save cf s c = Err e).
Proof.
  unfold save, acceptable, ensure. fold (needs_folder c).
  destruct (Z.leb_spec MIN_HOURS (every_hours c)); cbn [andb mbind result_bind]; [|right; right; split; [lia|by eexists]].
  destruct (Z.leb_spec (every_hours c) MAX_HOURS); cbn [mbind result_bind]; [|right; right; split; [lia|by eexists]].
  destruct (Z.leb_spec 1 (keep c)); cbn [andb mbind result_bind]; [|right; right; split; [lia|by eexists]].
  destruct (Z.leb_spec (keep c) MAX_KEEP); cbn [mbind result_bind]; [|right; right; split; [lia|by eexists]].
  destruct (is_none_or _ _) eqn:Em; cbn [mbind result_bind].
  - assert (forall b, max_bytes c = Some b -> 0 < b) as Hb.
    { intros b Hb. rewrite Hb in Em. by apply Z.ltb_lt in Em. }
    destruct (needs_folder c); [right; left|left]; (split; [done|]); (split; [done|]); [|done].
    by destruct (cf (folder c)).
  - right; right. split; [|by eexists]. intros (_ & _ & Hb).
    destruct (max_bytes c) as [b|]; cbn in Em; [|done]. apply Z.ltb_ge in Em. specialize (Hb b eq_refl). lia.
Qed.

Lemma load_stored c s :
  is_none_or (fun b => b <? 2 ^ 64) (max_bytes c) = true -> acceptable c ->
  load (store_schedule c s) =
  {| enabled := enabled c; folder := folder c; every_hours := every_hours c; keep := keep c;
     max_bytes := (fun b => if b <? 2 ^ 63 then b else 0) <$> max_bytes c |}.
Proof.
  intros Hu (_ & _ & Hpos). unfold load, store_schedule. cbn. f_equal; [by destruct (enabled c)|].
  destruct (max_bytes c) as [b|]; cbn in *; [|done]. f_equal. specialize (Hpos b eq_refl).
  apply Z.ltb_lt in Hu. unfold as_i64. destruct (Z.ltb_spec b (2 ^ 63)); lia.
Qed.

(** What is saved is what is read back.  A schedule is saved exactly when
    it runs at least every 30 days and at most every [MIN_HOURS] hours, keeps
    between one and [MAX_KEEP] backups, has a space limit of more than nothing
    if any, and its folder passes the check when it needs one; then it reads
    back as saved, with the folder the check answered, and the times of the
    runs are untouched.  A limit of 2^63 bytes or more reads back as zero. *)
Theorem save_reads_back cf s c :
  is_none_or (fun b => b <? 2 ^ 64) (max_bytes c) = true ->
  match save cf s c with
  | Ok (c', s') =>
      acceptable c /\
      (if needs_folder c then cf (folder c) = Ok (folder c') else folder c' = folder c) /\
      load s' = {| enabled := enabled c; folder := folder c'; every_hours := every_hours c; keep := keep c;
                   max_bytes := (fun b => if b <? 2 ^ 63 then b else 0) <$> max_bytes c |} /\
      times s' = times s /\ backups_t s' = backups_t s
  | Err _ => ~ acceptable c \/ (needs_folder c = true /\ exists e, cf (folder c) = Err e)
  end.
Proof.
  intros Hu. destruct (save_cases cf s c) as [(Ha & -> & ->)|[(Ha & -> & Hs)|(Ha & e & ->)]].
  - split_and!; try done; [by apply load_stored|]. unfold times. cbn. by destruct (schedule_t s).
  - destruct (cf (folder c)) as [f|e]; cbn zeta in Hs; rewrite Hs; [|right; by eauto].
    split_and!; try done; [by apply (load_stored {| folder := f; max_bytes := max_bytes c |})|]. unfold times. cbn. by destruct (schedule_t s).
  - by left.
Qed.

(** A limit that fits and one that does not. *)
Lemma save_reads_back_witness :
  let c b := {| enabled := true; folder := lit "/b"; every_hours := 24; keep := 7; max_bytes := Some b |} in
  let s := {| schedule_t := None; backups_t := [] |} in
  let back b := match save (fun f => Ok f) s (c b) with Ok (_, s') => max_bytes (load s') | Err _ => None end in
  back 1000 = Some 1000 /\ back (2 ^ 63) = Some 0.
Proof.
  intros c s back.
  pose proof (save_reads_back (fun f => Ok f) s (c 1000) eq_refl) as H1.
  pose proof (save_reads_back (fun f => Ok f) s (c (2 ^ 63)) eq_refl) as H2.
  split; [destruct H1 as (_ & _ & H & _)|destruct H2 as (_ & _ & H & _)];
    exact (f_equal max_bytes H).
Defined.

(** When the next run comes.  Never while the schedule is off or has no
    folder; otherwise at once if there was no run, an interval after the last
    success, and never sooner than [RETRY_SECONDS] after a run that failed. *)
Theorem next_run_spec c last_attempt last_success :
  match next_run c last_attempt last_success with
  | None => enabled c = false \/ folder c = []
  | Some t =>
      enabled c = true /\ folder c <> [] /\
      let due := match last_success with Some s => s + every_hours c * 3600 | None => 0 end in
      let failed := match last_attempt, last_success with
                    | Some a, Some s => s < a
                    | Some _, None => True
                    | None, _ => False
                    end in
      due <= t /\ (failed -> forall a, last_attempt = Some a -> a + RETRY_SECONDS <= t) /\
      (t = due \/ t = 0 \/ (failed /\ exists a, last_attempt = Some a /\ t = a + RETRY_SECONDS))
  end.
Proof.
  unfold next_run. destruct (enabled c); cbn [negb orb]; [|by left].
  destruct (folder c) as [|x f]; cbn [is_empty]; [by right|]. split; [done|]. split; [done|]. cbn zeta.
  set (due := match last_success with Some t => _ | None => 0 end).
  assert (forall a, let t := Z.max due (a + RETRY_SECONDS) in
    due <= t /\ a + RETRY_SECONDS <= t /\ (t = due \/ t = a + RETRY_SECONDS)) as Hretry
    by (intros a; cbn zeta; lia).
  assert (let t := Z.max due 0 in due <= t /\ (t = due \/ t = 0)) as [Hd Hz] by (cbn zeta; lia).
  destruct last_attempt as [a|]; [|split_and!; [done|done|tauto]].
  specialize (Hretry a). cbn zeta in Hretry. destruct Hretry as (Hr1 & Hr2 & Hr3).
  destruct last_success as [s|]; cbn [unwrap_or].
  - destruct (Z.ltb_spec s a).
    + split; [done|]. split; [by intros _ ? [= <-]|]. destruct Hr3; [by left|right; right]. eauto.
    + split; [done|]. split; [lia|]. tauto.
  - split; [done|]. split; [by intros _ ? [= <-]|]. destruct Hr3; [by left|right; right]. eauto.
Qed.

(** *** A name not taken *)

Lemma join_path_inj dir a b : join_path dir a = join_path dir b -> a = b.
Proof. unfold join_path. destruct (ends_with _ _); intros H; repeat apply app_inv_head in H; done. Qed.

Lemma candidate_inj dir stamp n m :
  (1 <= n)%nat -> (1 <= m)%nat -> candidate dir stamp n = candidate dir stamp m -> n = m.
Proof.
  intros Hn Hm H%join_path_inj. apply app_inv_head, app_inv_head in H.
  destruct (Nat.eqb_spec n 1), (Nat.eqb_spec m 1); subst; try done.
  rewrite <- !app_assoc in H. apply app_inv_head, app_inv_tail in H. by apply show_nat_inj.
Qed.

Lemma first_free_spec ex dir stamp fuel n :
  (exists k, (n <= k <= n + fuel)%nat /\ first_free ex dir stamp fuel n = candidate dir stamp k /\
     (forall j, (n <= j < k)%nat -> ex (candidate dir stamp j) = true) /\
     ((k < n + fuel)%nat -> ex (candidate dir stamp k) = false)).
Proof.
  revert n. induction fuel as [|f IH]; intros n; cbn.
  - exists n. split_and!; [lia|lia|done|intros; lia|intros; lia].
  - destruct (ex (candidate dir stamp n)) eqn:E.
    + destruct (IH (S n)) as (k & Hk & -> & Hall & Hfree). exists k. split_and!; [lia|lia|done| |].
      * intros j Hj. destruct (decide (j = n)) as [->|]; [done|]. apply Hall. lia.
      * intros Hlt. apply Hfree. lia.
    + exists n. split_and!; [lia|lia|done|intros; lia|done].
Qed.

(** The search for a free name ends, at a name that is free.  With no
    more tries than there are files, and one, a name not taken is found: the
    stamp alone, or the first number from 2 on that is free. *)
Theorem first_free_fresh (fs : gmap text text) dir stamp :
  exists k, (1 <= k <= S (size fs))%nat /\
    first_free (fun p => bool_decide (is_Some (fs !! p))) dir stamp (size fs) 1 = candidate dir stamp k /\
    fs !! candidate dir stamp k = None /\
    forall j, (1 <= j < k)%nat -> is_Some (fs !! candidate dir stamp j).
Proof.
  set (ex := fun p => bool_decide (is_Some (fs !! p))).
  destruct (first_free_spec ex dir stamp (size fs) 1) as (k & Hk & Hf & Hall & Hfree).
  assert (forall j, (1 <= j < k)%nat -> is_Some (fs !! candidate dir stamp j)) as Htaken.
  { intros j Hj. apply (bool_decide_eq_true_1 _ (Hall j Hj)). }
  exists k. split; [lia|]. split; [done|]. split; [|done].
  destruct (decide (k < 1 + size fs)%nat) as [Hlt|Hge].
  { specialize (Hfree Hlt). unfold ex in Hfree. apply bool_decide_eq_false in Hfree.
    by apply eq_None_not_Some. }
  destruct (fs !! candidate dir stamp k) eqn:E; [exfalso|done].
  set (names := (fun j => candidate dir stamp j) <$> seq 1 k).
  assert (NoDup names) as Hnd.
  { apply NoDup_fmap_2_strong; [|apply NoDup_seq].
    intros a b [? _]%elem_of_seq [? _]%elem_of_seq. by apply candidate_inj. }
  assert (list_to_set names ⊆@{gset text} dom fs) as Hsub.
  { intros p [j [-> Hj%elem_of_seq]]%elem_of_list_to_set%list_elem_of_fmap. apply elem_of_dom.
    destruct (decide (j = k)) as [->|]; [by rewrite E|]. apply Htaken. lia. }
  apply subseteq_size in Hsub. rewrite size_list_to_set in Hsub by done.
  unfold names in Hsub. rewrite length_fmap, length_seq, size_dom in Hsub. lia.
Qed.

(** ** Retention *)

Definition total_bytes (l : list Kept) : Z := foldr (fun k n => bytes k + n) 0 l.

(** The backups the loop keeps. *)
Fixpoint stay (keep : Z) (max : option Z) (index total : Z) (l : list Kept) : list Kept :=
  match l with
  | [] => []
  | b :: rest =>
      if (keep <=? index) || is_some_and (fun m => m <? total + bytes b) max
      then stay keep max (index + 1) total rest
      else b :: stay keep max (index + 1) (total + bytes b) rest
  end.

Lemma prune_from_sublist keep max index total l : prune_from keep max index total l `sublist_of` (path <$> l).
Proof.
  revert index total. induction l as [|b l IH]; intros index total; cbn; [done|].
  destruct (_ || _); [by apply sublist_skip|by apply sublist_cons].
Qed.

Lemma stay_filter keep max index total l :
  NoDup (path <$> l) ->
  stay keep max index total l = base.filter (fun k => path k ∉ prune_from keep max index total l) l.
Proof.
  revert index total. induction l as [|b l IH]; intros index total; cbn [stay prune_from]; [done|].
  rewrite fmap_cons, NoDup_cons. intros [Hb Hnd].
  assert (forall i n, path b ∉ prune_from keep max i n l) as Hnb.
  { intros i n Hin. apply Hb. by eapply elem_of_sublist; [|apply prune_from_sublist]. }
  destruct (_ || _).
  - rewrite filter_cons_False by (intros H; apply H; by left). rewrite IH by done.
    apply filter_ext_in. intros k Hk. rewrite not_elem_of_cons. split; [|tauto].
    intros H. split; [|done]. intros Heq. apply Hb. rewrite <- Heq. by apply list_elem_of_fmap_2.
  - rewrite filter_cons_True by done. by rewrite IH.
Qed.

Lemma stay_length keep max index total l :
  Z.of_nat (length (stay keep max index total l)) <= Z.max 0 (keep - index).
Proof.
  revert index total. induction l as [|b l IH]; intros index total; cbn [stay]; [cbn; lia|].
  destruct (Z.leb_spec keep index); cbn [orb].
  - specialize (IH (index + 1) total). lia.
  - destruct (is_some_and _ _).
    + specialize (IH (index + 1) total). lia.
    + specialize (IH (index + 1) (total + bytes b)). cbn [length]. lia.
Qed.

Lemma stay_total keep m index total l :
  total + total_bytes (stay keep (Some m) index total l) <= Z.max m total.
Proof.
  revert index total. induction l as [|b l IH]; intros index total; cbn [stay]; [cbn; lia|].
  destruct (keep <=? index); cbn [orb is_some_and]; [apply IH|].
  destruct (Z.ltb_spec m (total + bytes b)); [apply IH|].
  specialize (IH (index + 1) (total + bytes b)). cbn [total_bytes foldr] in *. unfold total_bytes in IH. lia.
Qed.

Lemma prune_from_nothing keep max index total l :
  Forall (fun k => 0 <= bytes k) l ->
  index + Z.of_nat (length l) <= keep ->
  is_none_or (fun m => total + total_bytes l <=? m) max = true ->
  prune_from keep max index total l = [].
Proof.
  revert index total. induction l as [|b l IH]; intros index total Hpos Hk Hm; [done|].
  apply Forall_cons in Hpos as [Hb Hpos].
  assert (0 <= total_bytes l) as Hl by (clear -Hpos; unfold total_bytes; induction Hpos as [|k l Hk _ IH]; cbn in *; lia).
  cbn [length] in Hk. cbn [total_bytes foldr] in Hm. fold (total_bytes l) in Hm. cbn [prune_from].
  rewrite (proj2 (Z.leb_gt _ _)) by lia. cbn [orb].
  assert (is_some_and (fun m => m <? total + bytes b) max = false) as ->.
  { destruct max as [m|]; [|done]. cbn in *. apply Z.leb_le in Hm. apply Z.ltb_ge. lia. }
  apply IH; [done|lia|]. destruct max as [m|]; [|done]. cbn in *. apply Z.leb_le in Hm. apply Z.leb_le. lia.
Qed.

(** Retention removes old verified backups and no others, as few as the
    limits ask.  The newest verified backup is never removed, nor one that is
    not verified; what is removed is listed oldest first; at most [keep] stay,
    and within the space limit, unless the newest one alone is more; and
    nothing is removed while everything is within both limits. *)
Theorem plan_prune_spec kept keep max :
  NoDup (path <$> kept) -> 1 <= keep ->
  let v := base.filter (fun k => verified k = true) kept in
  let removed := plan_prune kept keep max in
  let left := base.filter (fun k => path k ∉ removed) v in
  (forall k, head v = Some k -> k ∈ left) /\
  rev removed `sublist_of` (path <$> v) /\
  Z.of_nat (length left) <= keep /\
  (forall m newest, max = Some m -> head v = Some newest -> total_bytes left <= Z.max m (bytes newest)) /\
  (Forall (fun k => 0 <= bytes k) v -> Z.of_nat (length v) <= keep ->
   (forall m, max = Some m -> total_bytes v <= m) -> removed = []).
Proof.
  intros Hnd Hk. cbn zeta. set (v := base.filter _ kept).
  assert (NoDup (path <$> v)) as Hv.
  { eapply sublist_NoDup; [exact Hnd|]. apply fmap_sublist, sublist_filter. }
  unfold plan_prune. fold v. destruct v as [|b l]; [by split_and!; cbn; lia || done|].
  rewrite fmap_cons, NoDup_cons in Hv. destruct Hv as [Hb Hl].
  set (r := prune_from keep max 1 (bytes b) l).
  pose proof (prune_from_sublist keep max 1 (bytes b) l) as Hsub. fold r in Hsub.
  assert (path b ∉ r) as Hbr by (intros Hin; apply Hb; by eapply elem_of_sublist).
  assert (base.filter (fun k => path k ∉ rev r) (b :: l) = b :: stay keep max 1 (bytes b) l) as ->.
  { assert (forall k, path k ∉ rev r <-> path k ∉ r) as Hrev
      by (intros k; by rewrite (list_elem_of_In (rev r)), <- in_rev, <- list_elem_of_In).
    rewrite filter_cons_True by by apply Hrev. f_equal.
    rewrite (stay_filter keep max 1 (bytes b) l) by done. by apply list_filter_iff. }
  split_and!.
  - intros k [= ->]. by left.
  - rewrite rev_involutive. by apply sublist_cons.
  - pose proof (stay_length keep max 1 (bytes b) l). cbn [length]. lia.
  - intros m newest -> [= ->]. apply (stay_total keep m 1 (bytes newest) l).
  - intros Hpos Hlen Hm. apply Forall_cons in Hpos as [_ Hpos]. unfold r.
    rewrite prune_from_nothing; [done|done|cbn [length] in Hlen; lia|].
    destruct max as [m|]; [|done]. cbn. apply Z.leb_le. by apply (Hm m).
Qed.

(** Four backups, two to keep. *)
Lemma plan_prune_spec_witness :
  let k p v := {| path := lit p; created_at := 0; bytes := 10; verified := v; present := true |} in
  let kept := [k "d" true; k "c" false; k "b" true; k "a" true]%string in
  plan_prune kept 2 None = [lit "a"] /\ lit "d" ∉ plan_prune kept 2 None.
Proof.
  intros k kept. split; [vm_compute; reflexivity|].
  destruct (plan_prune_spec kept 2 None) as (Hnew & _); [apply (bool_decide_unpack _); vm_compute; exact I|lia|].
  specialize (Hnew (k "d"%string true) eq_refl). by apply list_elem_of_filter in Hnew as [? _].
Defined.

(** ** The newest backup that passed its check *)

Definition is_verified (b : Backup) : bool := negb (b_verified b =? 0).

Definition newest (bs : list Backup) : option Backup := find_by is_verified (order_by newer bs).

Lemma newer_spec a b :
  newer a b = true <->
  b_created_at b < b_created_at a \/
  (b_created_at a = b_created_at b /\ text_le (b_path b) (b_path a) = true).
Proof. unfold newer. by bools. Qed.

Lemma newer_refl a : newer a a = true.
Proof. apply newer_spec. right. split; [done|apply text_le_refl]. Qed.

Lemma newer_total a b : newer a b = true \/ newer b a = true.
Proof.
  rewrite !newer_spec. destruct (Z.lt_trichotomy (b_created_at a) (b_created_at b)) as [?|[?|?]]; [tauto| |tauto].
  destruct (text_le_total (b_path a) (b_path b)); [right; right|left; right]; by split.
Qed.

Lemma newer_trans a b c : newer a b = true -> newer b c = true -> newer a c = true.
Proof.
  rewrite !newer_spec. intros [?|[? ?]] [?|[? ?]]; [left; lia..|right].
  split; [lia|]. by eapply text_le_trans.
Qed.

Lemma newer_path a b : newer a b = true -> newer b a = true -> b_path a = b_path b.
Proof.
  rewrite !newer_spec. intros [?|[? ?]] [?|[? ?]]; try lia. by apply text_le_antisym.
Qed.

Definition unique_paths (bs : list Backup) : Prop := NoDup (b_path <$> bs).

Lemma path_unique bs a b : unique_paths bs -> a ∈ bs -> b ∈ bs -> b_path a = b_path b -> a = b.
Proof.
  intros Hu Ha Hb Hp. by apply (key_unique b_path (b_path b) bs); try done; apply bool_decide_eq_true.
Qed.

Lemma newest_spec bs k :
  unique_paths bs ->
  newest bs = Some k <->
  k ∈ bs /\ is_verified k = true /\ forall b, b ∈ bs -> is_verified b = true -> newer k b = true.
Proof.
  intros Hu. unfold newest.
  assert (forall b, b ∈ order_by newer bs <-> b ∈ bs) as Hin by (intros b; by rewrite order_by_perm).
  assert (forall b, find_by is_verified (order_by newer bs) = Some b ->
    b ∈ bs /\ is_verified b = true /\ forall c, c ∈ bs -> is_verified c = true -> newer b c = true) as Hf.
  { intros b Hb. pose proof (find_by_Some _ _ _ Hb) as [Hb' Hv]. rewrite Hin in Hb'. split_and!; try done.
    intros c Hc Hcv. apply (find_by_least newer is_verified (order_by newer bs)); try done.
    - apply newer_refl.
    - apply order_by_sorted; [apply newer_total|apply newer_trans].
    - by apply Hin. }
  split; [apply Hf|]. intros (Hk & Hv & Hall).
  destruct (find_by is_verified (order_by newer bs)) as [b|] eqn:E.
  - f_equal. destruct (Hf b eq_refl) as (Hb & Hbv & Hb'). apply (path_unique bs); try done.
    apply newer_path; [by apply Hb'|by apply Hall].
  - pose proof (find_by_None _ _ E k) as Hn. rewrite Hin in Hn. specialize (Hn Hk). congruence.
Qed.

Lemma newest_none bs : newest bs = None <-> forall b, b ∈ bs -> is_verified b = false.
Proof.
  unfold newest. split.
  - intros Hn b Hb. apply (find_by_None _ _ Hn). by rewrite order_by_perm.
  - intros Hall. destruct (find_by _ _) as [b|] eqn:E; [|done].
    apply find_by_Some in E as [Hb Hv]. rewrite order_by_perm in Hb. rewrite Hall in Hv; done.
Qed.

(** Taking away what is not the newest, and adding what is not verified. *)
Lemma newest_forget bs p :
  unique_paths bs -> (forall k, newest bs = Some k -> b_path k <> p) ->
  newest (delete_where (has_path p) bs) = newest bs.
Proof.
  intros Hu Hp. assert (unique_paths (delete_where (has_path p) bs)) as Hu' by by apply delete_where_key.
  destruct (newest bs) as [k|] eqn:E.
  - apply newest_spec; [done|]. apply newest_spec in E as (Hk & Hv & Hall); [|done].
    split_and!; [|done|].
    + apply elem_of_delete_where. split; [done|]. unfold has_path. apply bool_decide_eq_false. by apply Hp.
    + intros b [Hb _]%elem_of_delete_where. by apply Hall.
  - apply newest_none. rewrite newest_none in E. intros b [Hb _]%elem_of_delete_where. by apply E.
Qed.

Lemma insert_unique bs p r :
  b_path r = p -> unique_paths bs -> unique_paths (insert_or_replace (has_path p) r bs).
Proof.
  intros Hr Hu. unfold unique_paths, insert_or_replace. rewrite fmap_app. apply NoDup_app.
  split_and!; [by apply delete_where_key| |apply NoDup_singleton].
  intros x (b & -> & Hb)%list_elem_of_fmap Hx%list_elem_of_singleton.
  apply elem_of_delete_where in Hb as [_ Hb]. unfold has_path in Hb.
  rewrite bool_decide_eq_false in Hb. congruence.
Qed.

Lemma newest_insert bs p r :
  unique_paths bs -> b_path r = p -> is_verified r = false ->
  (forall k, newest bs = Some k -> b_path k <> p) ->
  newest (insert_or_replace (has_path p) r bs) = newest bs.
Proof.
  intros Hu Hr Hv Hp. rewrite <- (newest_forget bs p) by done.
  assert (unique_paths (delete_where (has_path p) bs)) as Hu' by by apply delete_where_key.
  pose proof (insert_unique bs p r Hr Hu) as Hu2. unfold insert_or_replace in *.
  destruct (newest (delete_where (has_path p) bs)) as [k|] eqn:E.
  - apply newest_spec; [done|]. apply newest_spec in E as (Hk & Hkv & Hall); [|done].
    split_and!; [apply elem_of_app; by left|done|].
    intros b [Hb|Hb]%elem_of_app Hbv; [by apply Hall|].
    apply list_elem_of_singleton in Hb as ->. congruence.
  - apply newest_none. rewrite newest_none in E.
    intros b [Hb|Hb]%elem_of_app; [by apply E|]. by apply list_elem_of_singleton in Hb as ->.
Qed.

(** Passing the check: the newest is then what it was, or that backup. *)
Definition passed (b : Backup) : Backup :=
  {| b_path := b_path b; b_created_at := b_created_at b; b_bytes := b_bytes b; b_verified := 1 |}.

Lemma passed_unique bs p : unique_paths bs -> unique_paths (update (has_path p) passed bs).
Proof. intros Hu. unfold unique_paths. by rewrite (update_key b_path). Qed.

Lemma newest_passed bs r :
  unique_paths bs -> r ∈ bs ->
  newest (update (has_path (b_path r)) passed bs) = newest bs \/
  newest (update (has_path (b_path r)) passed bs) = Some (passed r).
Proof.
  intros Hu Hr. set (bs' := update _ _ bs).
  assert (unique_paths bs') as Hu' by by apply passed_unique.
  assert (passed r ∈ bs') as Hpr.
  { apply elem_of_update. exists r. split; [done|]. unfold has_path. by rewrite bool_decide_true. }
  destruct (newest bs') as [k|] eqn:E.
  2: { rewrite newest_none in E. specialize (E _ Hpr). done. }
  pose proof (proj1 (newest_spec bs' k Hu') E) as (Hk & Hv & Hall).
  apply elem_of_update in Hk as (b & Hb & ->). unfold has_path in *.
  case_bool_decide as Hp; [right; by rewrite (path_unique bs b r)|left; symmetry].
  apply newest_spec; [done|]. split_and!; try done. intros c Hc Hcv.
  assert (newer b (if bool_decide (b_path c = b_path r) then passed c else c) = true) as Hn.
  { apply Hall; [apply elem_of_update; by exists c|]. by case_bool_decide. }
  by case_bool_decide.
Qed.

Lemma plan_prune_not_newest kept keep max k :
  NoDup (path <$> kept) -> find_by verified kept = Some k -> path k ∉ plan_prune kept keep max.
Proof.
  intros Hnd Hf. rewrite find_by_filter in Hf. unfold plan_prune.
  assert (NoDup (path <$> base.filter (fun k => verified k = true) kept)) as Hv.
  { eapply sublist_NoDup; [exact Hnd|]. apply fmap_sublist, sublist_filter. }
  destruct (base.filter _ kept) as [|b l]; [done|]. injection Hf as ->.
  rewrite fmap_cons, NoDup_cons in Hv. destruct Hv as [Hk _].
  rewrite list_elem_of_In, <- in_rev, <- list_elem_of_In.
  intros Hin. apply Hk. by eapply elem_of_sublist; [|apply prune_from_sublist].
Qed.

Lemma records_newest is_file s k :
  newest (backups_t s) = Some k -> find_by verified (records is_file s) = Some (kept_of is_file k).
Proof.
  unfold newest, records. induction (order_by newer (backups_t s)) as [|b l IH]; cbn; [done|].
  unfold is_verified at 1. destruct (negb _); [congruence|apply IH].
Qed.

Lemma records_path is_file s : path <$> records is_file s ≡ₚ b_path <$> backups_t s.
Proof.
  unfold records. rewrite <- list_fmap_compose.
  apply (fmap_Permutation b_path), order_by_perm.
Qed.

(** ** What the calls may do *)

Section Safety.
(** The stamp of a time in a file name, and the contents a check opens. *)
Context (stamp : Z -> text) (sound : text -> Prop).

Definition file_at (w : World) (p : text) : bool := bool_decide (is_Some (files w !! p)).

Definition set_store (s : Store) (w : World) : World := {| store := s; files := files w; writing := writing w |}.
Definition set_writing (b : bool) (w : World) : World := {| store := store w; files := files w; writing := b |}.
Definition set_files (f : gmap text text) (w : World) : World :=
  {| store := store w; files := f; writing := writing w |}.

Definition part (p : text) : text := p ++ lit ".part".

Definition does (X : Type) (e : Ev X) : World -> World -> X -> Prop :=
  match e in Ev X return World -> World -> X -> Prop with
  | Db f => fun w w' r =>
      (w' = set_store (f (store w)).1 w /\ r = Ok (f (store w)).2) \/ (exists e, w' = w /\ r = Err e)
  | Records => fun w w' r =>
      w' = w /\ (r = Ok (records (file_at w) (store w)) \/ exists e, r = Err e)
  | TryCapture => fun w w' b => w' = set_writing true w /\ b = negb (writing w)
  | Release => fun w w' _ => w' = set_writing false w
  | CheckFolder _ => fun w w' _ => w' = w
  | FileName dir now => fun w w' p =>
      w' = w /\ p = first_free (file_at w) dir (stamp now) (size (files w)) 1
  | Write p => fun w w' _ =>
      exists f, w' = set_files f w /\ forall q, q <> p -> q <> part p -> f !! q = files w !! q
  | Len p => fun w w' r =>
      w' = w /\ forall n, r = Ok n -> exists c, files w !! p = Some c /\ n = Z.of_nat (length c)
  | Verify p => fun w w' r =>
      w' = w /\ (r = Ok tt -> exists c, files w !! p = Some c /\ sound c)
  | Remove p => fun w w' r =>
      (w' = set_files (delete p (files w)) w /\ r = Ok tt) \/ (exists e, w' = w /\ r = Err e)
  | ReadDir _ => fun w w' _ => w' = w
  end.

(** A backup that can be counted on: its file is where it was written, as
    long as it was, and opens. *)
Definition good (w : World) (b : Backup) : Prop :=
  exists c, files w !! b_path b = Some c /\ Z.of_nat (length c) = b_bytes b /\ sound c.

(** A file on its way to being a backup of ours. *)
Definition temporary (q : text) : Prop :=
  exists dir name, q = join_path dir name /\ half_written name = true.

Definition tidy (bs : list Backup) : Prop :=
  unique_paths bs /\ forall b, b ∈ bs -> ends_with (lit ".part") (b_path b) = false.

(** What holds all along a run that started in [w0]. *)
Record safe (w0 w : World) : Prop := {
  s_tidy : tidy (backups_t (store w));
  s_newest : forall k, newest (backups_t (store w)) = Some k -> good w k;
  s_some : is_Some (newest (backups_t (store w0))) -> is_Some (newest (backups_t (store w)));
  s_records : forall b, b ∈ backups_t (store w) -> b ∈ backups_t (store w0) \/ files w0 !! b_path b = None;
  s_files : forall q c, files w0 !! q = Some c ->
    files w !! q = Some c \/ temporary q \/
    (ours q = true /\ exists b, b ∈ backups_t (store w0) /\ b_path b = q /\
       Z.max (b_bytes b) 0 = Z.of_nat (length c))
}.

Lemma temporary_part q : temporary q -> ends_with (lit ".part") q = true.
Proof.
  intros (dir & name & -> & Hn). unfold half_written in Hn. apply andb_true_iff in Hn as [_ Hn].
  apply ends_with_spec in Hn as [a ->]. apply ends_with_spec. unfold join_path.
  destruct (ends_with _ dir); [exists (dir ++ a)|exists (dir ++ lit "/" ++ a)]; by rewrite <- !app_assoc.
Qed.

Lemma candidate_part dir st n : temporary (part (candidate dir st n)).
Proof.
  unfold candidate, part. set (mid := st ++ _).
  exists dir, (PREFIX ++ mid ++ lit ".part"). split.
  - unfold join_path. destruct (ends_with _ _); by rewrite <- ?app_assoc.
  - unfold half_written. apply andb_true_iff. split.
    + apply starts_with_spec. by exists (mid ++ lit ".part").
    + apply ends_with_spec. exists (PREFIX ++ mid). by rewrite <- app_assoc.
Qed.

Lemma candidate_not_part dir st n : ends_with (lit ".part") (candidate dir st n) = false.
Proof.
  apply not_true_iff_false. intros [a Ha]%ends_with_spec. unfold candidate, join_path in Ha.
  assert (exists x, x ++ EXTENSION = a ++ lit ".part") as [x Hx].
  { destruct (ends_with _ dir); rewrite !app_assoc in Ha; eexists; exact Ha. }
  assert (last (x ++ EXTENSION) = last (a ++ lit ".part")) as Hl by by rewrite Hx.
  rewrite !last_app in Hl. vm_compute in Hl. discriminate Hl.
Qed.

(** A step that leaves the record of the backups and the files alone. *)
Lemma safe_same w0 w w' :
  backups_t (store w') = backups_t (store w) -> files w' = files w -> safe w0 w -> safe w0 w'.
Proof.
  intros Hb Hf []. split; rewrite ?Hb, ?Hf; try done. intros k Hk. unfold good. rewrite Hf.
  by apply s_newest0.
Qed.

Lemma safe_refl w :
  tidy (backups_t (store w)) -> (forall k, newest (backups_t (store w)) = Some k -> good w k) -> safe w w.
Proof. intros Ht Hn. split; try done; by left. Qed.

(** Removing a file that is not the newest backup's, with a reason to. *)
Lemma safe_remove w0 w p :
  (forall k, newest (backups_t (store w)) = Some k -> b_path k <> p) ->
  (forall c, files w0 !! p = Some c -> files w !! p = Some c -> temporary p \/
     (ours p = true /\ exists b, b ∈ backups_t (store w0) /\ b_path b = p /\
        Z.max (b_bytes b) 0 = Z.of_nat (length c))) ->
  safe w0 w -> safe w0 (set_files (delete p (files w)) w).
Proof.
  intros Hp Hwhy []. split; cbn; try done.
  - intros k Hk. destruct (s_newest0 k Hk) as (c & Hc & ?). exists c. cbn.
    rewrite lookup_delete_ne by (symmetry; by apply Hp). done.
  - intros q c Hq. destruct (decide (q = p)) as [->|Hne].
    + destruct (s_files0 p c Hq) as [Hw|?]; [|by right]. right. by apply Hwhy.
    + rewrite lookup_delete_ne by done. by apply s_files0.
Qed.

Lemma safe_forget w0 w p :
  (forall k, newest (backups_t (store w)) = Some k -> b_path k <> p) ->
  safe w0 w -> safe w0 (set_store (forget p (store w)).1 w).
Proof.
  intros Hp []. destruct s_tidy0 as [Hu Hpart]. pose proof (newest_forget _ p Hu Hp) as Hn.
  split; cbn; try done.
  - split; [by apply delete_where_key|]. intros b [Hb _]%elem_of_delete_where. by apply Hpart.
  - intros k Hk. apply s_newest0. by rewrite <- Hn.
  - intros Hs. destruct (s_some0 Hs) as [k Hk]. exists k. by rewrite <- Hk.
  - intros b [Hb _]%elem_of_delete_where. by apply s_records0.
Qed.

(** [remove_ours] on a backup that is not the newest verified one. *)
Lemma remove_ours_ok w0 w p size (Q : result text unit -> World -> Prop) :
  safe w0 w ->
  (forall k, newest (backups_t (store w)) = Some k -> b_path k <> p) ->
  (files w0 !! p = None \/ exists b, b ∈ backups_t (store w0) /\ b_path b = p /\ Z.max (b_bytes b) 0 = size) ->
  (forall r w', safe w0 w' -> newest (backups_t (store w')) = newest (backups_t (store w)) -> Q r w') ->
  ensures does (safe w0) (remove_ours p size) Q w.
Proof.
  intros Hs Hp Hwhy HQ. unfold remove_ours. cbn. intros w1 len [-> Hlen]. split; [done|].
  assert (forall (r : result text unit) w', w' = w \/ w' = set_files (delete p (files w)) w -> safe w0 w' ->
    ensures does (safe w0)
      (match r with Ok _ => call (Db (forget p)) | Err e => Ret (Err e) end) Q w') as Hrest.
  { intros r w' Hw' Hsafe.
    assert (newest (backups_t (store w')) = newest (backups_t (store w))) as Hnew by by destruct Hw' as [->| ->].
    destruct r as [[]|e]; [|by apply HQ]. cbn. intros w2 r [[-> ->]|(e & -> & ->)].
    - assert (forall k, newest (backups_t (store w')) = Some k -> b_path k <> p) as Hp' by by rewrite Hnew.
      pose proof (safe_forget w0 w' p Hp' Hsafe) as Hf. split; [exact Hf|]. apply HQ; [exact Hf|].
      rewrite <- Hnew. apply newest_forget; [apply Hsafe|done].
    - split; [done|]. by apply HQ. }
  destruct (ours p) eqn:Eo; cbn [andb]; [|apply (Hrest (Ok tt) w); [by left|done]].
  destruct (is_some_and (Z.eqb size) (ok len)) eqn:El; [|apply (Hrest (Ok tt) w); [by left|done]].
  destruct len as [n|e]; [|done]. cbn in El. apply Z.eqb_eq in El as ->.
  destruct (Hlen n eq_refl) as (c & Hc & ->).
  cbn. intros w2 r Hr.
  assert (safe w0 (set_files (delete p (files w)) w)) as Hdel.
  { apply safe_remove; [done| |done]. intros c' Hc' Hc''. right.
    assert (c' = c) as -> by congruence. destruct Hwhy as [Hn|Hb]; [congruence|]. by split. }
  destruct Hr as [[-> ->]|(e & -> & ->)].
  - split; [done|]. apply (Hrest (Ok tt)); [by right|done].
  - split; [done|]. apply (Hrest (Err e)); [by left|done].
Qed.

Lemma recorded_reason w0 w k :
  safe w0 w -> k ∈ records (file_at w) (store w) ->
  files w0 !! path k = None \/
  exists b, b ∈ backups_t (store w0) /\ b_path b = path k /\ Z.max (b_bytes b) 0 = bytes k.
Proof.
  intros Hs (b & -> & Hb)%list_elem_of_fmap. rewrite order_by_perm in Hb.
  destruct (s_records _ _ Hs b Hb) as [Hb0|Hn]; [right; by exists b|by left].
Qed.

Lemma remove_all_ok w0 kept remove w (Q : result text unit -> World -> Prop) :
  safe w0 w ->
  (forall k, newest (backups_t (store w)) = Some k -> b_path k ∉ remove) ->
  (forall k, k ∈ kept -> files w0 !! path k = None \/
     exists b, b ∈ backups_t (store w0) /\ b_path b = path k /\ Z.max (b_bytes b) 0 = bytes k) ->
  (forall r w', safe w0 w' -> newest (backups_t (store w')) = newest (backups_t (store w)) -> Q r w') ->
  ensures does (safe w0) (remove_all kept remove) Q w.
Proof.
  intros Hs Hnew Hk. revert w Hs Hnew. induction remove as [|p rest IH]; intros w Hs Hnew HQ; cbn [remove_all].
  { by apply HQ. }
  unfold and_then. apply ensures_bind.
  assert (forall (r : result text unit) w', safe w0 w' -> newest (backups_t (store w')) = newest (backups_t (store w)) ->
    ensures does (safe w0) (match r with Ok _ => remove_all kept rest | Err e => Ret (Err e) end) Q w') as Hrest.
  { intros [[]|e] w' Hs' Hn'; [|by apply HQ]. apply IH; [done| |].
    - rewrite Hn'. intros k Hk'. specialize (Hnew k Hk'). rewrite not_elem_of_cons in Hnew. tauto.
    - intros r w2 Hs2 Hn2. apply HQ; [done|congruence]. }
  destruct (find_by _ kept) as [k|] eqn:E; [|by apply (Hrest (Ok tt))].
  apply find_by_Some in E as [Hin Hp%bool_decide_eq_true].
  apply remove_ours_ok; [done| |by apply Hk|exact Hrest].
  intros k' Hk' Heq. apply (Hnew k' Hk'). rewrite Heq, Hp. by left.
Qed.

Lemma prune_ok w0 w (Q : result text (list text) -> World -> Prop) :
  safe w0 w ->
  (forall r w', safe w0 w' -> newest (backups_t (store w')) = newest (backups_t (store w)) -> Q r w') ->
  ensures does (safe w0) prune Q w.
Proof.
  intros Hs HQ. unfold prune. cbn -[remove_all]. intros w1 r [[-> ->]|(e & -> & ->)];
    [|by split; [|apply HQ]].
  split; [by apply (safe_same w0 w)|]. cbn -[remove_all].
  assert (set_store (store w) w = w) as -> by by destruct w.
  intros w2 rs [-> [->|[e ->]]]; (split; [done|]); [|by apply HQ].
  unfold and_then. apply ensures_bind. apply remove_all_ok; [done| | |].
  - intros k Hk. apply (records_newest (file_at w)) in Hk.
    apply (plan_prune_not_newest (records (file_at w) (store w)) _ _ (kept_of (file_at w) k)); [|done].
    rewrite records_path. apply Hs.
  - intros k. by apply recorded_reason.
  - intros [[]|e] w' Hs' Hn'; by apply HQ.
Qed.

(** A backup that has just passed its check. *)
Lemma safe_passed w0 w p now size c :
  safe w0 w -> files w0 !! p = None ->
  {| b_path := p; b_created_at := now; b_bytes := size; b_verified := 0 |} ∈ backups_t (store w) ->
  files w !! p = Some c -> size = Z.of_nat (length c) -> sound c ->
  let w' := set_store (set_verified p (store w)).1 w in
  safe w0 w' /\ is_Some (newest (backups_t (store w'))).
Proof.
  intros [] Hp0 Hr Hc Hsize Hsound. cbn zeta. destruct s_tidy0 as [Hu Hpart].
  set (r := {| b_path := p; b_created_at := now; b_bytes := size; b_verified := 0 |}) in *.
  assert (backups_t (store (set_store (set_verified p (store w)).1 w)) =
    update (has_path (b_path r)) passed (backups_t (store w))) as Hb by done.
  pose proof (newest_passed _ r Hu Hr) as Hn.
  assert (is_Some (newest (update (has_path (b_path r)) passed (backups_t (store w))))) as Hsome.
  { assert (passed r ∈ update (has_path (b_path r)) passed (backups_t (store w))) as Hin.
    { apply elem_of_update. exists r. split; [done|]. unfold has_path. by rewrite bool_decide_true. }
    destruct (newest (update _ _ _)) as [k|] eqn:E; [by eexists|].
    rewrite newest_none in E. by specialize (E _ Hin). }
  split; [|by rewrite Hb]. split; rewrite ?Hb; try done.
  - split; [by apply passed_unique|]. intros b (b0 & Hb0 & ->)%elem_of_update.
    destruct (has_path _ b0); by apply (Hpart b0).
  - intros k Hk. destruct Hn as [Hn|Hn]; rewrite Hn in Hk.
    + by apply s_newest0.
    + injection Hk as <-. exists c. by split_and!.
  - intros b (b0 & Hb0 & ->)%elem_of_update. unfold has_path. case_bool_decide as Hp; [|by apply s_records0].
    right. cbn. by rewrite Hp.
Qed.

Lemma write_and_check_ok w0 w c now :
  safe w0 w -> files w = files w0 ->
  ensures does (safe w0) (write_and_check c now)
    (fun r w' => safe w0 w' /\ forall o, r = Ok o -> is_Some (newest (backups_t (store w')))) w.
Proof.
  intros Hs Hf. unfold write_and_check. cbn -[remove_ours prune first_free].
  intros w1 dir ->. split; [done|]. destruct dir as [dir|e]; [|by split].
  cbn -[remove_ours prune first_free]. intros w1 p [-> Hp]. split; [done|].
  assert (exists st k, p = candidate dir st k /\ files w !! p = None) as (st & k & Hcand & Hfree).
  { destruct (first_free_fresh (files w) dir (stamp now)) as (k & _ & Hk & Hn & _).
    exists (stamp now), k. unfold file_at in Hp. rewrite Hk in Hp. by subst p. }
  assert (forall b, newest (backups_t (store w)) = Some b -> b_path b <> p) as Hne.
  { intros b Hb. destruct (s_newest _ _ Hs b Hb) as (x & Hx & _). intros Heq. congruence. }
  assert (ends_with (lit ".part") p = false) as Hpp by (rewrite Hcand; apply candidate_not_part).
  intros w1 r (f & -> & Hw). 
  assert (safe w0 (set_files f w)) as Hs1.
  { destruct Hs. split; cbn; try done.
    - intros b Hb. destruct (s_newest0 b Hb) as (x & Hx & ?). exists x. cbn. split; [|done].
      rewrite Hw; [done|by apply Hne|]. intros Heq.
      assert (ends_with (lit ".part") (b_path b) = false) as Hb' by
        (apply s_tidy0; by apply find_by_Some in Hb as [Hb _]; rewrite order_by_perm in Hb).
      rewrite Heq in Hb'. unfold part in Hb'. apply not_true_iff_false in Hb'. apply Hb', ends_with_spec. by exists p.
    - intros q x Hq. destruct (decide (q = p)) as [->|Hqp]; [congruence|].
      destruct (decide (q = part p)) as [->|Hqq]; [right; left; rewrite Hcand; apply candidate_part|].
      rewrite Hw by done. by apply s_files0. }
  split; [done|]. destruct r as [[]|e]; [|by split]. cbn -[remove_ours prune].
  intros w1 len [-> Hlen]. split; [done|]. destruct len as [size|e]; [|by split].
  destruct (Hlen size eq_refl) as (x & Hx & Hsize). cbn -[remove_ours prune insert_backup set_verified].
  set (row := {| b_path := p; b_created_at := now; b_bytes := size; b_verified := 0 |}).
  intros w1 r [[-> ->]|(e & -> & ->)]; [|by split]. cbn [fst snd].
  set (w2 := set_store (insert_backup p now size (store (set_files f w))).1 (set_files f w)).
  assert (newest (backups_t (store w2)) = newest (backups_t (store w))) as Hn2.
  { apply (newest_insert _ p row); try done. apply Hs. }
  assert (row ∈ backups_t (store w2)) as Hrow by (apply elem_of_app; right; by left).
  assert (safe w0 w2) as Hs2.
  { destruct Hs1. split; try done.
    - split; [apply (insert_unique _ p row); [done|apply s_tidy0]|].
      intros b [[Hb _]%elem_of_delete_where|Hb%list_elem_of_singleton]%elem_of_app;
        [by apply s_tidy0|by rewrite Hb].
    - intros b. rewrite Hn2. apply s_newest0.
    - by rewrite Hn2.
    - intros b [[Hb _]%elem_of_delete_where|Hb%list_elem_of_singleton]%elem_of_app;
        [by apply s_records0|right; rewrite Hb; cbn; by rewrite <- Hf]. }
  split; [exact Hs2|]. cbn -[remove_ours prune set_verified]. intros w3 checked [-> Hver]. split; [exact Hs2|].
  destruct checked as [[]|e].
  2: { unfold and_then. apply ensures_bind. apply remove_ours_ok; [exact Hs2| |left; by rewrite <- Hf|].
       - intros b Hb. apply Hne. by rewrite <- Hn2.
       - intros [[]|e'] w' Hs' _; by split. }
  destruct (Hver eq_refl) as (x' & Hx' & Hsound). cbn in Hx'.
  cbn -[prune set_verified]. intros w3 r [[-> ->]|(e & -> & ->)]; [|by split].
  destruct (safe_passed w0 w2 p now size x Hs2) as [Hs3 Hsome]; [by rewrite <- Hf|done|done|done|congruence|].
  split; [exact Hs3|]. cbn -[prune set_verified]. intros w4 r [[-> ->]|(e & -> & ->)]; [|by split].
  split; [by eapply safe_same; [..|exact Hs3]|].
  unfold and_then. apply ensures_bind. apply prune_ok; [by eapply safe_same; [..|exact Hs3]|].
  intros [rem|e] w' Hs' Hn'; (split; [done|]); [|done]. intros o _. rewrite Hn'. exact Hsome.
Qed.

Lemma run_with_ok w0 now :
  safe w0 w0 ->
  ensures does (safe w0) (run_with now)
    (fun r w' => safe w0 w' /\ forall o, r = Ok o -> is_Some (newest (backups_t (store w')))) w0.
Proof.
  intros Hs. unfold run_with. cbn -[write_and_check]. intros w1 free [-> ->].
  split; [by apply (safe_same w0 w0)|]. destruct (writing w0); cbn -[write_and_check]; [by split; [apply (safe_same w0 w0)|]|].
  set (Q := fun (r : result text Outcome) w' => safe w0 w' /\ forall o, r = Ok o -> is_Some (newest (backups_t (store w')))).
  assert (forall r w', Q r w' -> ensures does (safe w0) (_ <- call Release ;; Ret r) Q w') as Hend.
  { intros r w' [Hs' Ho] w2 [] ->. split; [by apply (safe_same w0 w')|]. split; [by apply (safe_same w0 w')|done]. }
  intros w1 r [[-> ->]|(e & -> & ->)].
  2: { split; [by apply (safe_same w0 w0)|]. refine (Hend (Err e) _ (conj _ _)); [by apply (safe_same w0 w0)|done]. }
  split; [by apply (safe_same w0 w0)|]. cbn -[write_and_check].
  destruct (is_empty (folder _)); cbn -[write_and_check].
  { refine (Hend (Err _) _ (conj _ _)); [by apply (safe_same w0 w0)|done]. }
  intros w1 r [[-> ->]|(e & -> & ->)].
  2: { split; [by apply (safe_same w0 w0)|]. refine (Hend (Err e) _ (conj _ _)); [by apply (safe_same w0 w0)|done]. }
  split; [by apply (safe_same w0 w0)|]. cbn -[write_and_check]. apply ensures_bind, ensures_bind.
  eapply ensures_mono; [|apply write_and_check_ok; [by apply (safe_same w0 w0)|done]].
  intros [o|e] w' [Hs' Ho]; cbn.
  - by refine (Hend (Ok o) _ (conj _ _)).
  - intros w2 r [[-> ->]|(e' & -> & ->)].
    + split; [by apply (safe_same w0 w')|]. refine (Hend (Err e) _ (conj _ _)); [by apply (safe_same w0 w')|done].
    + split; [done|]. by refine (Hend (Err e') _ (conj _ _)).
Qed.


Lemma remove_unverified_ok w0 kept w (Q : result text unit -> World -> Prop) :
  safe w0 w ->
  (forall k b, k ∈ kept -> verified k = false -> newest (backups_t (store w)) = Some b -> b_path b <> path k) ->
  (forall k, k ∈ kept -> files w0 !! path k = None \/
     exists b, b ∈ backups_t (store w0) /\ b_path b = path k /\ Z.max (b_bytes b) 0 = bytes k) ->
  (forall r w', safe w0 w' -> Q r w') ->
  ensures does (safe w0) (remove_unverified kept) Q w.
Proof.
  revert w. induction kept as [|k kept IH]; intros w Hs Hne Hwhy HQ; cbn [remove_unverified].
  { by apply HQ. }
  assert (forall (r : result text unit) w', safe w0 w' ->
    newest (backups_t (store w')) = newest (backups_t (store w)) ->
    ensures does (safe w0) (match r with Ok _ => remove_unverified kept | Err e => Ret (Err e) end) Q w') as Hrest.
  { intros [[]|e] w' Hs' Hn'; [|by apply HQ]. apply IH; [done| | |done].
    - intros k' b Hk'. rewrite Hn'. apply Hne. by right.
    - intros k' Hk'. apply Hwhy. by right. }
  unfold and_then. apply ensures_bind. destruct (verified k) eqn:Ev; [by apply (Hrest (Ok tt))|].
  apply remove_ours_ok; [done| |apply Hwhy; by left|exact Hrest].
  intros b Hb. apply (Hne k); [by left|done|done].
Qed.

Lemma recover_ok w0 :
  safe w0 w0 -> ensures does (safe w0) recover (fun _ w' => safe w0 w') w0.
Proof.
  intros Hs. unfold recover. cbn -[remove_unverified for_each]. intros w1 r [-> Hr]. split; [done|].
  destruct Hr as [->|[e ->]]; [|done]. unfold and_then. apply ensures_bind.
  apply remove_unverified_ok; [done| |intros k; by apply recorded_reason|].
  - intros k b (b0 & -> & Hb0)%list_elem_of_fmap Hv Hb Heq. rewrite order_by_perm in Hb0.
    apply (newest_spec _ _ (proj1 (s_tidy _ _ Hs))) in Hb as (Hb & Hbv & _).
    assert (b = b0) as -> by (by apply (path_unique (backups_t (store w0))); [apply Hs|..]).
    unfold is_verified in Hbv. cbn in Hv. congruence.
  - intros [[]|e] w Hw; [|done]. cbn -[for_each]. intros w1 r [[-> ->]|(e & -> & ->)]; [|done].
    assert (safe w0 (set_store (store w) w)) as Hw1 by by apply (safe_same w0 w).
    split; [done|]. cbn -[for_each]. intros w1 names ->. split; [done|].
    apply ensures_bind. set (dir := folder (load (store w))).
    generalize (unwrap_or [] (ok names)) as l. intros l. clear names Hw.
    revert Hw1. generalize (set_store (store w) w) as w1. induction l as [|n l IH]; intros w1 Hw1; [done|].
    cbn [for_each]. apply ensures_bind. destruct (half_written n) eqn:Eh; [|by apply IH].
    cbn -[for_each]. intros w2 r Hr.
    assert (temporary (join_path dir n)) as Htmp by by exists dir, n.
    assert (safe w0 w2) as Hw2; [|split; [done|by apply IH]].
    destruct Hr as [[-> _]|(e & -> & _)]; [|done]. apply safe_remove; [|by left|done].
    intros k [Hk _]%find_by_Some Heq. rewrite order_by_perm in Hk.
    pose proof (proj2 (s_tidy _ _ Hw1) k Hk) as Hpart. rewrite Heq in Hpart.
    by rewrite (temporary_part _ Htmp) in Hpart.
Qed.

(** What a person is promised between two moments. *)
Definition promise (w w' : World) : Prop :=
  (forall k, newest (backups_t (store w')) = Some k -> good w' k) /\
  (is_Some (newest (backups_t (store w))) -> is_Some (newest (backups_t (store w')))) /\
  forall q c, files w !! q = Some c ->
    files w' !! q = Some c \/ temporary q \/
    (ours q = true /\ exists b, b ∈ backups_t (store w) /\ b_path b = q /\
       Z.max (b_bytes b) 0 = Z.of_nat (length c)).

Lemma safe_promise w w' : safe w w' -> promise w w'.
Proof. by intros []. Qed.

(** C3: there is always a good backup once there was one.  Wherever a run, or
    what is put right at startup, is stopped, whichever call fails, whatever
    the archive writer leaves behind and whatever the check says: if the
    newest verified backup could be counted on before, then there still is a
    newest verified backup, its file is where and as long as it was written
    and opens; no file is touched but half-written ones of the schedule and
    those it wrote and recorded, at their recorded size; and a run that
    answers success has left a verified backup. *)
Theorem newest_backup_survives w :
  tidy (backups_t (store w)) -> (forall k, newest (backups_t (store w)) = Some k -> good w k) ->
  (forall now w' o, runs does (run_with now) w w' o -> promise w w' /\
     forall out, o = Some (Ok out) -> is_Some (newest (backups_t (store w')))) /\
  (forall w' o, runs does recover w w' o -> promise w w').
Proof.
  intros Ht Hn. pose proof (safe_refl w Ht Hn) as Hs. split.
  - intros now w' [r|] Hr.
    + destruct (ensures_end _ _ _ _ _ _ _ (run_with_ok w now Hs) Hr) as [Hs' Hok].
      split; [by apply safe_promise|]. intros out [= ->]. by eapply Hok.
    + split; [|done]. apply safe_promise. exact (ensures_stop _ _ _ _ _ _ Hs (run_with_ok w now Hs) Hr).
  - intros w' [r|] Hr; apply safe_promise.
    + exact (ensures_end _ _ _ _ _ _ _ (recover_ok w Hs) Hr).
    + exact (ensures_stop _ _ _ _ _ _ Hs (recover_ok w Hs) Hr).
Qed.

(** Everything works but the check, which fails. *)
Definition handle (X : Type) (e : Ev X) (w : World) : World * X :=
  match e in Ev X return World * X with
  | Db f => (set_store (f (store w)).1 w, Ok (f (store w)).2)
  | Records => (w, Ok (records (file_at w) (store w)))
  | TryCapture => (set_writing true w, negb (writing w))
  | Release => (set_writing false w, tt)
  | CheckFolder f => (w, Ok f)
  | FileName dir now => (w, first_free (file_at w) dir (stamp now) (size (files w)) 1)
  | Write p => (set_files (<[p := lit "archive"]> (files w)) w, Ok tt)
  | Len p => (w, match files w !! p with Some c => Ok (Z.of_nat (length c)) | None => Err [] end)
  | Verify p => (w, Err (lit "damaged"))
  | Remove p => (set_files (delete p (files w)) w, Ok tt)
  | ReadDir _ => (w, Ok [])
  end.

Lemma disk_does X (e : Ev X) w : does X e w (handle X e w).1 (handle X e w).2.
Proof.
  destruct e; cbn; try (by left); try done.
  - split; [done|by left].
  - exists (<[p := lit "archive"]> (files w)). split; [done|]. intros q Hq _. by rewrite lookup_insert_ne.
  - split; [done|]. intros n. destruct (files w !! p) as [c|]; [|done]. intros [= <-]. by exists c.
Qed.

End Safety.

(** C3 at a run whose archive does not pass its check. *)
Lemma newest_backup_survives_witness :
  let b := {| b_path := lit "/b/oreneta-scheduled-1.oreneta-profile"; b_created_at := 1;
              b_bytes := 3; b_verified := 1 |} in
  let w := {| store := {| schedule_t := Some {| r_enabled := 1; r_folder := lit "/b"; r_every_hours := 24;
                                                r_keep := 1; r_max_bytes := None; r_last_attempt := None;
                                                r_last_success := None; r_last_error := None |};
                          backups_t := [b] |};
              files := {[ b_path b := lit "old" ]}; writing := false |} in
  let w' := (exec (handle show_Z) (run_with 2) w).1 in
  is_Some (newest (backups_t (store w'))) /\ r_last_error <$> schedule_t (store w') <> Some None.
Proof.
  intros b w w'. split; [|vm_compute; discriminate].
  destruct (newest_backup_survives show_Z (fun _ => True) w) as [Hrun _].
  - split; [apply NoDup_singleton|]. intros x ->%list_elem_of_singleton. vm_compute. reflexivity.
  - intros k Hk. exists (lit "old"). vm_compute in Hk. injection Hk as <-. split_and!; [vm_compute; reflexivity|reflexivity|exact I].
  - destruct (Hrun 2 w' (Some (exec (handle show_Z) (run_with 2) w).2)) as [(_ & Hsome & _) _].
    + apply (exec_runs (handle show_Z) (does show_Z (fun _ => True))).
      intros X e w0. apply disk_does.
    + apply Hsome. vm_compute. by eexists.
Defined.
End BackupSchedule.
