(* ===== verification/ArchivePolicy.v ===== *)
(** * The policy of automatic archiving

    Models the first half of [meron-core/src/auto_archive/mod.rs]: the policy
    and what it may name ([refusal], [validate]), what it takes
    ([select_messages], the code's [select]), the confirmation it needs, the
    tables that keep it, the log of the runs and the journal of how far each
    message got, and what a restored profile does with it. *)
From S2P Require Import Prelude Text Table.
#[local] Open Scope Z_scope.

Module ArchivePolicy.

Definition EVERY_SECONDS : Z := 24 * 3600.
Definition RETRY_SECONDS : Z := 3600.
Definition MAX_DAYS : Z := 3650.
Definition MAX_MONTHS : Z := 120.
Definition KEEP_RUNS : nat := 30.
Definition MAX_LISTED_FAILURES : nat := 200.
Definition CHUNK : nat := 50.
Definition LOCAL_ROOT : text := lit "Archived".

Inductive AgeUnit := Days | Months.
Record Age := { value : Z; unit_ : AgeUnit }.
Record FolderChoice := { name : text; own_age : option Age }.
Inductive Destination := Server | Local.

Record Policy := {
  enabled : bool;
  older_than : Age;
  folders : list FolderChoice;
  destination : Destination;
  keep_server_copy : bool;
  include_starred : bool;
  include_unread : bool
}.

Definition default_policy : Policy :=
  {| enabled := false; older_than := {| value := 6; unit_ := Months |};
     folders := [{| name := lit "INBOX"; own_age := None |}]; destination := Server;
     keep_server_copy := false; include_starred := false; include_unread := false |}.

Inductive AccountKind := Imap | Graph | Ews | LocalStore.

#[export] Instance Destination_eq_dec : EqDecision Destination.
Proof. solve_decision. Defined.
#[export] Instance AccountKind_eq_dec : EqDecision AccountKind.
Proof. solve_decision. Defined.
#[export] Instance AgeUnit_eq_dec : EqDecision AgeUnit.
Proof. solve_decision. Defined.
#[export] Instance Age_eq_dec : EqDecision Age.
Proof. solve_decision. Defined.
#[export] Instance FolderChoice_eq_dec : EqDecision FolderChoice.
Proof. solve_decision. Defined.
#[export] Instance Policy_eq_dec : EqDecision Policy.
Proof. solve_decision. Defined.

Definition can_copy_locally (k : AccountKind) : bool := bool_decide (k = Imap).

(** The folder of the account, as far as archiving looks at it. *)
Record Folder := { f_name : text; special_use : option text }.

Definition one_of (names : list text) (s : text) : bool := bool_decide (to_ascii_lowercase s ∈ names).

Definition looks_like_archive : text -> bool :=
  one_of [lit "archive"; lit "archives"; lit "all mail"; lit "inbox.archive"; lit "inbox.archives";
          lit "[gmail]/all mail"; lit "[google mail]/all mail"].
Definition looks_like_trash : text -> bool :=
  one_of [lit "trash"; lit "deleted"; lit "deleted items"; lit "deleted messages"; lit "bin";
          lit "inbox.trash"; lit "inbox.deleted"; lit "inbox.deleted items"; lit "[gmail]/trash";
          lit "[gmail]/bin"].
Definition looks_like_junk : text -> bool :=
  one_of [lit "junk"; lit "spam"; lit "bulk mail"; lit "inbox.junk"; lit "inbox.spam"; lit "[gmail]/spam"].
Definition looks_like_drafts : text -> bool :=
  one_of [lit "drafts"; lit "draft"; lit "inbox.drafts"; lit "inbox.draft"; lit "[gmail]/drafts";
          lit "[gmail]/draft"].

(** [name.rsplit(['/', '.']).next()] *)
Definition last_part (s : text) : text :=
  foldl (fun part c => if (c =? 47) || (c =? 46) then [] else part ++ [c]) [] s.

Definition refusal (f : Folder) : option text :=
  let role := to_ascii_lowercase (unwrap_or [] (special_use f)) in
  let last := last_part (f_name f) in
  let any check := check (f_name f) || check last in
  if bool_decide (role = lit "drafts") || any looks_like_drafts then Some (lit "drafts")
  else if bool_decide (role = lit "trash") || any looks_like_trash then Some (lit "trash")
  else if bool_decide (role = lit "junk") || any looks_like_junk then Some (lit "junk")
  else if bool_decide (role = lit "outbox") || any (fun s => eq_ignore_ascii_case s (lit "outbox"))
  then Some (lit "outbox")
  else if bool_decide (role = lit "archive") || bool_decide (role = lit "all") || any looks_like_archive
  then Some (lit "archive")
  else None.

Definition age_ok (a : Age) : bool :=
  (1 <=? value a) && (value a <=? match unit_ a with Days => MAX_DAYS | Months => MAX_MONTHS end).

Definition check_age (a : Age) : result text unit :=
  ensure (age_ok a)
    match unit_ a with
    | Days => lit "choose between 1 and 3650 days"
    | Months => lit "choose between 1 and 120 months"
    end.

Fixpoint check_folders (fs : list Folder) (seen : list text) (choices : list FolderChoice) : result text unit :=
  match choices with
  | [] => Ok tt
  | c :: rest =>
      _ ← ensure (negb (bool_decide (name c ∈ seen))) (name c ++ lit " is chosen twice");
      _ ← match own_age c with Some a => check_age a | None => Ok tt end;
      f ← ok_or (lit "this account has no folder " ++ name c)
            (find_by (fun f => bool_decide (f_name f = name c)) fs);
      _ ← match refusal f with
          | Some why => Err (name c ++ lit " is never archived automatically (" ++ why ++ lit ")")
          | None => Ok tt
          end;
      check_folders fs (name c :: seen) rest
  end.

Definition validate (p : Policy) (kind : AccountKind) (fs : list Folder) : result text unit :=
  _ ← ensure (negb (bool_decide (kind = LocalStore)))
        (lit "this account keeps its mail on this computer already; there is nothing to archive");
  _ ← check_age (older_than p);
  _ ← ensure (negb (is_nil (folders p))) (lit "choose at least one folder to archive from");
  _ ← check_folders fs [] (folders p);
  _ ← ensure (negb (bool_decide (destination p = Local)) || can_copy_locally kind)
        (lit "this account cannot copy messages to the local archive; archive to its Archive folder instead");
  ensure (bool_decide (destination p = Local) || negb (keep_server_copy p))
    (lit "keeping the server copy only applies to the local archive").

(** What is confirmed does not say whether the policy is on, nor in which
    order its folders are. *)
Definition canonical (p : Policy) : Policy :=
  {| enabled := false; older_than := older_than p;
     folders := order_by (fun a b => text_le (name a) (name b)) (folders p);
     destination := destination p; keep_server_copy := keep_server_copy p;
     include_starred := include_starred p; include_unread := include_unread p |}.

Record Candidate := {
  uid : Z;
  date : Z;
  seen : bool;
  starred : bool;
  message_id : text;
  subject : text
}.

(** [dedup_by_key(|c| c.uid)]: of neighbours with the same uid, the first. *)
Fixpoint dedup_uid (l : list Candidate) : list Candidate :=
  match l with
  | [] => []
  | c :: rest =>
      match dedup_uid rest with
      | d :: rest' => if uid c =? uid d then c :: rest' else c :: d :: rest'
      | [] => [c]
      end
  end.

Definition taken (cutoff : Z) (p : Policy) (c : Candidate) : bool :=
  (0 <? date c) && (date c <? cutoff) && (include_starred p || negb (starred c)) &&
  (include_unread p || seen c).

Definition by_date (a b : Candidate) : bool :=
  (date a <? date b) || ((date a =? date b) && (uid a <=? uid b)).

Definition select_messages (candidates : list Candidate) (cutoff : Z) (p : Policy) : list Candidate :=
  dedup_uid (order_by by_date (base.filter (fun c => taken cutoff p c = true) candidates)).

Definition clean (s : text) : text :=
  (fun c => if (c =? 13) || (c =? 10) then 32 else c) <$> trim s.

Definition local_folder (label folder : text) : text :=
  LOCAL_ROOT ++ lit "/" ++ clean label ++ lit "/" ++ clean folder.

(** ** What is stored *)

Record PolicyRow := {
  pr_account : text;
  pr_policy : text;
  pr_confirmed : option text;
  pr_last_attempt : option Z;
  pr_last_success : option Z;
  pr_last_error : option text
}.

Record Stored := {
  policy : Policy;
  confirmed : option text;
  last_attempt : option Z;
  last_success : option Z;
  last_error : option text
}.

Inductive Stage := Copied | Verified | Kept.
#[export] Instance Stage_eq_dec : EqDecision Stage.
Proof. solve_decision. Defined.

Definition stage_as_str (s : Stage) : text :=
  match s with Copied => lit "copied" | Verified => lit "verified" | Kept => lit "kept" end.

Definition stage_parse (s : text) : option Stage :=
  if bool_decide (s = lit "copied") then Some Copied
  else if bool_decide (s = lit "verified") then Some Verified
  else if bool_decide (s = lit "kept") then Some Kept
  else None.

Record ItemRow := {
  ir_account : text;
  ir_folder : text;
  ir_uid : Z;
  ir_message_id : text;
  ir_local_folder : text;
  ir_local_uid : option Z;
  ir_state : text;
  ir_updated_at : Z
}.

Record JournalRow := {
  j_message_id : text;
  j_local_folder : text;
  j_local_uid : option Z;
  j_stage : Stage
}.

Record RunRow := { rr_id : Z; rr_account : text; rr_started_at : Z; rr_finished_at : Z; rr_log : text }.

Record Db := {
  policies_t : list PolicyRow;
  runs_t : list RunRow;
  next_id : Z;
  items_t : list ItemRow
}.

Definition is_policy (acct : text) (r : PolicyRow) : bool := bool_decide (pr_account r = acct).
Definition is_item (acct folder : text) (u : Z) (r : ItemRow) : bool :=
  bool_decide (ir_account r = acct) && bool_decide (ir_folder r = folder) && (ir_uid r =? u).

Definition with_policies (t : list PolicyRow) (d : Db) : Db :=
  {| policies_t := t; runs_t := runs_t d; next_id := next_id d; items_t := items_t d |}.
Definition with_items (t : list ItemRow) (d : Db) : Db :=
  {| policies_t := policies_t d; runs_t := runs_t d; next_id := next_id d; items_t := t |}.

Record ItemFailure := { if_folder : text; if_uid : Z; if_subject : text; if_step : text; if_error : text }.
Record FolderOutcome := { o_folder : text; o_selected : nat; o_moved : nat; o_kept : nat; o_failed : nat }.

Record RunLog := {
  l_id : Z;
  l_account : text;
  l_started_at : Z;
  l_finished_at : Z;
  l_trigger : text;
  l_destination : option Destination;
  l_target : text;
  l_moved : nat;
  l_kept : nat;
  l_failed : nat;
  l_gone : nat;
  l_folders : list FolderOutcome;
  l_failures : list ItemFailure;
  l_error : option text
}.

Record PlannedFolder := {
  p_folder : text;
  p_cutoff : Z;
  p_target : text;
  p_selected : list Candidate;
  p_count : nat;
  p_oldest : option Z;
  p_newest : option Z
}.

Record Plan := {
  plan_account : text;
  plan_destination : Destination;
  plan_target : text;
  plan_folders : list PlannedFolder;
  plan_total : nat;
  plan_fingerprint : text
}.

Record RawMessageCopy := { raw : text; m_seen : bool; m_starred : bool }.

Definition journal_get (d : Db) (acct folder : text) (u : Z) : option JournalRow :=
  r ← query_row (is_item acct folder u) (items_t d);
  stage ← stage_parse (ir_state r);
  Some {| j_message_id := ir_message_id r; j_local_folder := ir_local_folder r;
          j_local_uid := ir_local_uid r; j_stage := stage |}.

Definition journal_set (acct folder : text) (u : Z) (mid local : text) (local_uid : Z) (stage : Stage) (now : Z)
    (d : Db) : Db :=
  with_items (upsert (is_item acct folder u)
    {| ir_account := acct; ir_folder := folder; ir_uid := u; ir_message_id := mid;
       ir_local_folder := local; ir_local_uid := Some local_uid; ir_state := stage_as_str stage;
       ir_updated_at := now |}
    (fun r => {| ir_account := ir_account r; ir_folder := ir_folder r; ir_uid := ir_uid r;
                 ir_message_id := mid; ir_local_folder := local; ir_local_uid := Some local_uid;
                 ir_state := stage_as_str stage; ir_updated_at := now |}) (items_t d)) d.

Definition journal_clear (acct folder : text) (uids : list Z) (d : Db) : Db :=
  foldl (fun d u => with_items (delete_where (is_item acct folder u) (items_t d)) d) d uids.

Section WithParameters.
(** [serde_json] on policies and logs, and SHA-256 of what is confirmed. *)
Context (policy_to_json : Policy -> result text text) (policy_of_json : text -> result text Policy).
Context (log_to_json : RunLog -> result text text).
Context (confirmed_json : text * Policy -> text) (sha256 : text -> list Z).

Definition fingerprint (acct : text) (p : Policy) : text :=
  mbind hex_byte (sha256 (confirmed_json (acct, canonical p))).

Definition load (d : Db) (acct : text) : Stored :=
  match query_row (is_policy acct) (policies_t d) with
  | Some r => {| policy := unwrap_or default_policy (ok (policy_of_json (pr_policy r)));
                 confirmed := pr_confirmed r; last_attempt := pr_last_attempt r;
                 last_success := pr_last_success r; last_error := pr_last_error r |}
  | None => {| policy := default_policy; confirmed := None; last_attempt := None;
               last_success := None; last_error := None |}
  end.

Definition is_confirmed (acct : text) (s : Stored) : bool :=
  bool_decide (confirmed s = Some (fingerprint acct (policy s))).

Definition set_policy (body : text) (conf : option text) (r : PolicyRow) : PolicyRow :=
  {| pr_account := pr_account r; pr_policy := body; pr_confirmed := conf;
     pr_last_attempt := pr_last_attempt r; pr_last_success := pr_last_success r;
     pr_last_error := pr_last_error r |}.

Definition save (d : Db) (acct : text) (p : Policy) (confirm : option text) (kind : AccountKind)
    (fs : list Folder) : result text (Db * Stored) :=
  _ ← validate p kind fs;
  let print := fingerprint acct p in
  conf ← match confirm with
         | Some token =>
             _ ← ensure (bool_decide (token = print))
                   (lit "the policy changed after its preview; preview it again before confirming");
             Ok (Some print)
         | None => Ok (c ← confirmed (load d acct); if bool_decide (c = print) then Some c else None)
         end;
  _ ← ensure (negb (enabled p) || bool_decide (is_Some conf))
        (lit "preview what this policy will move and confirm it before turning it on");
  body ← policy_to_json p;
  let d := with_policies (upsert (is_policy acct)
             {| pr_account := acct; pr_policy := body; pr_confirmed := conf; pr_last_attempt := None;
                pr_last_success := None; pr_last_error := None |}
             (set_policy body conf) (policies_t d)) d in
  Ok (d, load d acct).

Definition next_run (acct : text) (s : Stored) : option Z :=
  if negb (enabled (policy s)) || negb (is_confirmed acct s) then None
  else
    let by_schedule := match last_success s with Some t => t + EVERY_SECONDS | None => 0 end in
    let failed_last := match last_attempt s, last_success s with
                       | Some a, Some t => t <? a
                       | Some _, None => true
                       | None, _ => false
                       end in
    let by_retry := if failed_last then unwrap_or 0 (last_attempt s) + RETRY_SECONDS else 0 in
    Some (Z.max by_schedule by_retry).

Definition due (d : Db) (now : Z) : list text :=
  base.filter (fun a => is_some_and (fun at_ => at_ <=? now) (next_run a (load d a)) = true)
    (order_by text_le (pr_account <$> policies_t d)).

(** A restored profile: every policy off. *)
Definition switch_off (p : Policy) : Policy :=
  {| enabled := false; older_than := older_than p; folders := folders p; destination := destination p;
     keep_server_copy := keep_server_copy p; include_starred := include_starred p;
     include_unread := include_unread p |}.

Fixpoint hold_rows (d : Db) (rows : list (text * text)) : result text Db :=
  match rows with
  | [] => Ok d
  | (acct, body) :: rest =>
      let p := switch_off (unwrap_or default_policy (ok (policy_of_json body))) in
      body' ← policy_to_json p;
      hold_rows (with_policies (update (is_policy acct) (fun r => set_policy body' (pr_confirmed r) r)
                                  (policies_t d)) d) rest
  end.

Definition hold_restored (d : Db) : result text Db :=
  hold_rows d ((fun r => (pr_account r, pr_policy r)) <$> policies_t d).

(** The log of a run: kept with the account's last [KEEP_RUNS]. *)
Definition record (l : RunLog) (body : text) (d : Db) : Db * Z :=
  let i := next_id d in
  let t := runs_t d ++ [{| rr_id := i; rr_account := l_account l; rr_started_at := l_started_at l;
                           rr_finished_at := l_finished_at l; rr_log := body |}] in
  let mine := select (fun r => bool_decide (rr_account r = l_account l)) t in
  let last := take KEEP_RUNS (rr_id <$> order_by (fun a b => rr_id b <=? rr_id a) mine) in
  ({| policies_t := policies_t d;
      runs_t := delete_where (fun r => bool_decide (rr_account r = l_account l) &&
                                       negb (bool_decide (rr_id r ∈ last))) t;
      next_id := i + 1; items_t := items_t d |}, i).


(** ** The stored policy *)

Lemma check_folders_spec fs seen choices :
  check_folders fs seen choices = Ok tt <->
  NoDup (name <$> choices) /\ (forall n, n ∈ name <$> choices -> n ∉ seen) /\
  Forall (fun c =>
    (forall a, own_age c = Some a -> age_ok a = true) /\
    exists f, find_by (fun f => bool_decide (f_name f = name c)) fs = Some f /\ refusal f = None) choices.
Proof.
  revert seen. induction choices as [|c rest IH]; intros seen; cbn [check_folders].
  { split; [intros _; split; [constructor|split; [by intros n ?%not_elem_of_nil|constructor]]|done]. }
  cbn [fmap list_fmap]. rewrite NoDup_cons, Forall_cons.
  transitivity (name c ∉ seen /\ (forall a, own_age c = Some a -> age_ok a = true) /\
    (exists f, find_by (fun f => bool_decide (f_name f = name c)) fs = Some f /\ refusal f = None) /\
    check_folders fs (name c :: seen) rest = Ok tt).
  { unfold ensure at 1. case_bool_decide as Hseen; cbn; [by split; [|intros [? _]]|].
    unfold check_age. destruct (own_age c) as [a|]; cbn; [destruct (age_ok a) eqn:Ha; cbn|].
    2: { split; [done|]. intros (_ & Hage & _). specialize (Hage a eq_refl). congruence. }
    all: destruct (find_by _ fs) as [f|]; cbn; [|split; [done|intros (_ & _ & (f & ? & _) & _); done]].
    all: destruct (refusal f) eqn:Hr; cbn; [split; [done|intros (_ & _ & (f' & [= <-] & ?) & _); congruence]|].
    all: split; [intros Hrest|by intros (_ & _ & _ & ?)].
    - split; [done|]. split; [by intros a' [= <-]|]. split; [by exists f|done].
    - split; [done|]. split; [done|]. split; [by exists f|done]. }
  rewrite IH. split.
  - intros (Hc & Ha & Hf & Hnd & Hin & Hall). split; [split; [|done]|].
    + intros Hn. apply (Hin _ Hn). by left.
    + split; [|done]. intros n [->|Hn]%elem_of_cons; [done|]. intros Hs. apply (Hin n Hn). by right.
  - intros [[Hc Hnd] [Hin [[Ha Hf] Hall]]]. split; [apply Hin; by left|]. split; [done|]. split; [done|].
    split; [done|]. split; [|done]. intros n Hn [->|Hs]%elem_of_cons; [done|]. apply (Hin n); [by right|done].
Qed.

(** A policy is accepted exactly when the account's mail is on a server,
    the ages are within their limits, at least one folder is named and none
    twice, each is a folder of the account that is not its drafts, trash,
    junk, outbox or archive, the local archive is asked for only where
    copying works, and keeping the server copy only with it. *)
Theorem accepted_policies p kind fs :
  validate p kind fs = Ok tt <->
  kind <> LocalStore /\ age_ok (older_than p) = true /\ folders p <> [] /\ NoDup (name <$> folders p) /\
  (forall c, c ∈ folders p ->
     (forall a, own_age c = Some a -> age_ok a = true) /\
     exists f, find_by (fun f => bool_decide (f_name f = name c)) fs = Some f /\ refusal f = None) /\
  (destination p = Local -> kind = Imap) /\
  (keep_server_copy p = true -> destination p = Local).
Proof.
  transitivity (kind <> LocalStore /\ age_ok (older_than p) = true /\ folders p <> [] /\
    check_folders fs [] (folders p) = Ok tt /\ (destination p = Local -> kind = Imap) /\
    (keep_server_copy p = true -> destination p = Local)).
  - unfold validate, check_age, ensure, can_copy_locally.
    destruct (decide (kind = LocalStore)) as [Hk|Hk]; [rewrite (bool_decide_true (kind = LocalStore)) by done|rewrite (bool_decide_false (kind = LocalStore)) by done].
    { by split; [|intros [? _]]. }
    destruct (age_ok (older_than p)); [|by split; [|intros (_ & ? & _)]].
    destruct (folders p) as [|c cs]; [by split; [|intros (_ & _ & ? & _)]|].
    cbn -[check_folders bool_decide]. destruct (check_folders fs [] (c :: cs)) as [[]|e];
      [|by split; [|intros (_ & _ & _ & ? & _)]].
    destruct (destination p), kind, (keep_server_copy p); cbn; split; intros H; try done;
      try (destruct H as (_ & _ & _ & _ & H1 & H2)); try (by specialize (H1 eq_refl));
      try (by specialize (H2 eq_refl)); repeat split; done.
  - rewrite check_folders_spec, Forall_forall. split.
    + intros (? & ? & ? & (? & _ & ?) & ?). done.
    + intros (? & ? & ? & ? & ? & ?). repeat (split; [done|]). split; [|done]. split; [done|]. split; [|done].
      by intros n _ ?%not_elem_of_nil.
Qed.

Lemma is_policy_set acct b o r : is_policy acct (set_policy b o r) = is_policy acct r.
Proof. done. Qed.

Lemma load_save acct body conf d other :
  load (with_policies (upsert (is_policy acct)
    {| pr_account := acct; pr_policy := body; pr_confirmed := conf; pr_last_attempt := None;
       pr_last_success := None; pr_last_error := None |} (set_policy body conf) (policies_t d)) d) other =
  if bool_decide (other = acct)
  then {| policy := unwrap_or default_policy (ok (policy_of_json body)); confirmed := conf;
          last_attempt := last_attempt (load d acct); last_success := last_success (load d acct);
          last_error := last_error (load d acct) |}
  else load d other.
Proof.
  unfold load. cbn [policies_t with_policies]. case_bool_decide as Ho.
  - subst other. rewrite query_row_upsert; [|unfold is_policy; cbn; by rewrite bool_decide_true|done].
    by destruct (query_row (is_policy acct) (policies_t d)).
  - rewrite query_row_upsert_other; [done|unfold is_policy; cbn; by rewrite bool_decide_false| |done].
    unfold is_policy. intros x ->%bool_decide_eq_true. by apply bool_decide_eq_false.
Qed.

Section Serde.
(** What is written is read back. *)
Context (Hjson : forall p s, policy_to_json p = Ok s -> policy_of_json s = Ok p).

(** A policy that is saved is one [validate] accepts and is read back as
    it was given; it counts as confirmed exactly when the confirmation given
    is its fingerprint, or none is given and the account's confirmation from
    before is still its fingerprint; a policy that is on is confirmed; what
    is known of the last runs stays, and no other account is touched. *)
Theorem save_needs_its_preview d acct p confirm kind fs d' s :
  save d acct p confirm kind fs = Ok (d', s) ->
  validate p kind fs = Ok tt /\ s = load d' acct /\ policy s = p /\
  (is_confirmed acct s = true <->
     confirm = Some (fingerprint acct p) \/
     (confirm = None /\ confirmed (load d acct) = Some (fingerprint acct p))) /\
  (enabled p = true -> is_confirmed acct s = true) /\
  (last_attempt s, last_success s, last_error s) =
    (last_attempt (load d acct), last_success (load d acct), last_error (load d acct)) /\
  (forall other, other <> acct -> load d' other = load d other) /\
  runs_t d' = runs_t d /\ items_t d' = items_t d.
Proof.
  unfold save. intros ([] & Hv & H)%bind_Ok. apply bind_Ok in H as (conf & Hconf & H).
  apply bind_Ok in H as ([] & Hon%ensure_Ok & H). apply bind_Ok in H as (body & Hbody & [= <- <-]).
  rewrite !load_save, bool_decide_true by done. rewrite (Hjson p body Hbody). cbn [ok unwrap_or].
  assert (forall s, is_confirmed acct s = true <-> confirmed s = Some (fingerprint acct (policy s))) as Hc.
  { intros s. unfold is_confirmed. by rewrite bool_decide_eq_true. }
  split; [done|]. split; [done|]. split; [done|]. rewrite !Hc. cbn [confirmed policy last_attempt last_success last_error].
  assert (conf = Some (fingerprint acct p) \/ conf = None) as Hcases.
  { destruct confirm as [token|].
    - apply bind_Ok in Hconf as (_ & _ & [= <-]). by left.
    - injection Hconf as <-. destruct (confirmed (load d acct)) as [c|]; cbn; [|by right].
      destruct (bool_decide (c = _)) eqn:E; [apply bool_decide_eq_true in E as ->; by left|by right]. }
  split; [|split; [|split; [done|split; [|done]]]].
  - destruct confirm as [token|].
    + apply bind_Ok in Hconf as (_ & Ht%ensure_Ok & [= <-]). apply bool_decide_eq_true in Ht as ->.
      split; [by left|done].
    + injection Hconf as <-. destruct (confirmed (load d acct)) as [c|]; cbn.
      * destruct (bool_decide (c = _)) eqn:E.
        { apply bool_decide_eq_true in E as ->. split; [by right|done]. }
        apply bool_decide_eq_false in E. split; [done|]. intros [?|[_ [= ?]]]; done.
      * split; [done|]. by intros [?|[_ ?]].
  - intros He. rewrite He in Hon. destruct Hcases as [->| ->]; [done|]. by cbn in Hon.
  - intros other Ho. by rewrite load_save, bool_decide_false.
Qed.

(** *** A restored profile *)

Definition off_row (r : PolicyRow) : Prop :=
  exists p, policy_of_json (pr_policy r) = Ok p /\ enabled p = false.

Lemma hold_rows_spec rows : forall d d',
  hold_rows d rows = Ok d' ->
  pr_account <$> policies_t d' = pr_account <$> policies_t d /\
  runs_t d' = runs_t d /\ items_t d' = items_t d /\
  forall r, r ∈ policies_t d' -> (r ∈ policies_t d /\ ~ pr_account r ∈ rows.*1) \/ off_row r.
Proof.
  induction rows as [|[acct body] rest IH]; intros d d'; cbn [hold_rows].
  { intros [= <-]. repeat (split; [done|]). intros r Hr. left. split; [done|]. apply not_elem_of_nil. }
  intros (body' & Hbody & H)%bind_Ok. destruct (IH _ _ H) as (Hacc & Hruns & Hitems & Hrows). clear IH H.
  cbn [policies_t runs_t items_t with_policies] in *. split.
  { rewrite Hacc. apply update_key. done. }
  split; [done|]. split; [done|]. intros r Hr. destruct (Hrows r Hr) as [[Hup Hnot]|?]; [|by right].
  apply elem_of_update in Hup as (r0 & Hr0 & ->). destruct (is_policy acct r0) eqn:Hp.
  - right. exists (switch_off (unwrap_or default_policy (ok (policy_of_json body)))). split; [|done].
    by apply Hjson.
  - left. split; [done|]. cbn. intros [Heq|?]%elem_of_cons; [|done].
    unfold is_policy in Hp. by rewrite bool_decide_true in Hp.
Qed.

(** After a profile is restored no account's archiving is due, whatever
    the time; the policies are the ones there were, and only policies change. *)
Theorem restored_never_archives_on_its_own d d' now :
  hold_restored d = Ok d' ->
  due d' now = [] /\ pr_account <$> policies_t d' = pr_account <$> policies_t d /\
  runs_t d' = runs_t d /\ items_t d' = items_t d.
Proof.
  intros H. destruct (hold_rows_spec _ _ _ H) as (Hacc & Hruns & Hitems & Hrows). split; [|done].
  unfold due. apply filter_nil_iff. intros acct Hin. assert (next_run acct (load d' acct) = None) as ->; [|done].
  unfold next_run. assert (enabled (policy (load d' acct)) = false) as ->; [|done].
  unfold load. destruct (query_row (is_policy acct) (policies_t d')) as [r|] eqn:E; [|done]. cbn [policy].
  apply query_row_Some in E as [Hr _]. destruct (Hrows r Hr) as [[Hr' Hnot]|(p & Hp & He)].
  - destruct Hnot. apply list_elem_of_fmap. exists (pr_account r, pr_policy r). split; [done|].
    apply list_elem_of_fmap. by exists r.
  - by rewrite Hp.
Qed.
End Serde.
End WithParameters.

(** ** A policy, on and off *)

Module Demo.

Definition demo_policy : Policy :=
  {| enabled := true; older_than := {| value := 6; unit_ := Months |};
     folders := [{| name := lit "INBOX"; own_age := None |}]; destination := Local;
     keep_server_copy := false; include_starred := false; include_unread := false |}.

(** What is written for the one policy, on and off. *)
Definition to_json (p : Policy) : result text text :=
  if bool_decide (p = demo_policy) then Ok (lit "on")
  else if bool_decide (p = switch_off demo_policy) then Ok (lit "off") else Err (lit "not written").
Definition of_json (s : text) : result text Policy :=
  Ok (if bool_decide (s = lit "on") then demo_policy else switch_off demo_policy).
Definition log_json (l : RunLog) : result text text := Ok [].
Definition print_of (_ : text * Policy) : text := lit "policy".
Definition hash (s : text) : list Z := s.

Lemma to_of_json p s : to_json p = Ok s -> of_json s = Ok p.
Proof.
  unfold to_json, of_json. case_bool_decide as H1; [by intros [= <-]; subst|].
  case_bool_decide as H2; [by intros [= <-]; subst|done].
Qed.

Definition me : text := lit "me".

Definition tables : Db :=
  {| policies_t := [{| pr_account := me; pr_policy := lit "on";
                       pr_confirmed := Some (fingerprint print_of hash me demo_policy);
                       pr_last_attempt := None; pr_last_success := None; pr_last_error := None |}];
     runs_t := []; next_id := 1; items_t := [] |}.

Definition inbox : Folder := {| f_name := lit "INBOX"; special_use := None |}.

End Demo.

Import Demo.

Lemma save_needs_its_preview_witness :
  exists d' s,
    save to_json of_json print_of hash tables me (switch_off demo_policy) None Imap [inbox] = Ok (d', s) /\
    validate (switch_off demo_policy) Imap [inbox] = Ok tt /\ s = load of_json d' me.
Proof.
  destruct (save to_json of_json print_of hash tables me (switch_off demo_policy) None Imap [inbox])
    as [[d' s]|e] eqn:E; [|vm_compute in E; discriminate].
  exists d', s. split; [reflexivity|].
  destruct (save_needs_its_preview to_json of_json print_of hash to_of_json tables me (switch_off demo_policy)
              None Imap [inbox] d' s E) as (Hv & Hs & _).
  split; [exact Hv|exact Hs].
Defined.

Lemma restored_never_archives_on_its_own_witness :
  due of_json print_of hash tables 5 = [me] /\
  exists d', hold_restored to_json of_json tables = Ok d' /\ due of_json print_of hash d' 5 = [].
Proof.
  split; [vm_compute; reflexivity|].
  destruct (hold_restored to_json of_json tables) as [d'|e] eqn:E; [|vm_compute in E; discriminate].
  exists d'. split; [reflexivity|].
  apply (restored_never_archives_on_its_own to_json of_json print_of hash to_of_json tables d' 5 E).
Defined.
End ArchivePolicy.
