(* ===== verification/AutoArchive.v ===== *)
(** * Automatic archiving by age

    Models the second half of [meron-core/src/auto_archive/mod.rs]: the plan
    and a run.  A run is a tree of calls (see [Program]): the trait [Steps]
    (the server and the local archive), the bookkeeping tables, the clock.
    The cutoffs, which are dates in a time zone, are given to a run as the
    code gives them. *)
From S2P Require Import Prelude Text Table Program ArchivePolicy.
#[local] Open Scope Z_scope.
#[local] Open Scope prog_scope.

Module AutoArchive.
Import ArchivePolicy.

Section WithParameters.
(** [serde_json] on policies and logs, and SHA-256 of what is confirmed. *)
Context (policy_of_json : text -> result text Policy) (log_to_json : RunLog -> result text text).
Context (confirmed_json : text * Policy -> text) (sha256 : text -> list Z).

(** ** Running *)

Inductive Ev : Type -> Type :=
| WithDb {X} (f : Db -> Db * X) : Ev (result text X)
| Candidates (folder : text) (cutoff : Z) : Ev (result text (list Candidate))
| ArchiveFolder : Ev (result text (option text))
| Fetch (folder : text) (u : Z) : Ev (result text (option RawMessageCopy))
| MoveTo (folder target : text) (uids : list Z) : Ev (result text unit)
| Delete (folder : text) (uids : list Z) : Ev (result text unit)
| StoreLocal (folder : text) (m : RawMessageCopy) : Ev (result text Z)
| ReadLocal (folder : text) (u : Z) : Ev (result text (option text))
| FindLocal (folder mid : text) : Ev (result text (list Z))
| RemoveLocal (folder : text) (u : Z) : Ev (result text unit)
| ForgetCached (folder : text) (uids : list Z) : Ev unit
| TryStart : Ev bool
| Finish : Ev unit
| Finished : Ev Z.

Definition journal (acct folder : text) (u : Z) : Ev (result text (option JournalRow)) :=
  WithDb (fun d => (d, journal_get d acct folder u)).
Definition write_journal (acct folder : text) (u : Z) (mid local : text) (lu : Z) (s : Stage) (now : Z)
    : Ev (result text unit) :=
  WithDb (fun d => (journal_set acct folder u mid local lu s now d, tt)).
Definition clear_journal (acct folder : text) (uids : list Z) : Ev (result text unit) :=
  WithDb (fun d => (journal_clear acct folder uids d, tt)).

(** An error with the step it came from. *)
Definition at_step {A} (step : text) (p : prog Ev (result text A)) : prog Ev (result (text * text) A) :=
  prog_bind (fun r => Ret match r with Ok a => Ok a | Err e => Err (step, e) end) p.

(** The first of these local messages with exactly these bytes. *)
Fixpoint same_bytes (local bytes : text) (uids : list Z) : prog Ev (result (text * text) (option Z)) :=
  match uids with
  | [] => Ret (Ok None)
  | u :: rest =>
      b <-? at_step (lit "verify") (call (ReadLocal local u)) ;;
      if bool_decide (b = Some bytes) then Ret (Ok (Some u)) else same_bytes local bytes rest
  end.

(** A copy from an earlier run: the journal's, or one with the Message-ID. *)
Definition find_existing (acct folder local : text) (c : Candidate) (m : RawMessageCopy)
    : prog Ev (result (text * text) (option Z)) :=
  j <-? at_step (lit "copy") (call (journal acct folder (uid c))) ;;
  existing <-? match j with
               | Some row =>
                   match j_local_uid row with
                   | Some u => if bool_decide (j_local_folder row = local)
                               then same_bytes local (raw m) [u] else Ret (Ok None)
                   | None => Ret (Ok None)
                   end
               | None => Ret (Ok None)
               end ;;
  match existing with
  | Some u => Ret (Ok (Some u))
  | None =>
      uids <-? at_step (lit "copy") (call (FindLocal local (message_id c))) ;;
      same_bytes local (raw m) uids
  end.

(** A new copy, read back and compared. *)
Definition store_new (acct folder local : text) (c : Candidate) (m : RawMessageCopy) (now : Z)
    : prog Ev (result (text * text) Z) :=
  u <-? at_step (lit "copy") (call (StoreLocal local m)) ;;
  _ <-? at_step (lit "copy") (call (write_journal acct folder (uid c) (message_id c) local u Copied now)) ;;
  back <- call (ReadLocal local u) ;;
  if bool_decide (back = Ok (Some (raw m))) then Ret (Ok u)
  else
    _ <- call (RemoveLocal local u) ;;
    _ <- call (clear_journal acct folder [uid c]) ;;
    Ret (Err (lit "verify",
      match back with
      | Err e => e
      | Ok _ => lit "the archived copy did not match the original, so it was removed and the message left on the server"
      end)).

Definition copy_one_local (acct folder local : text) (c : Candidate) (m : RawMessageCopy) (now : Z)
    : prog Ev (result (text * text) unit) :=
  existing <-? find_existing acct folder local c m ;;
  u <-? match existing with
        | Some u => Ret (Ok u)
        | None => store_new acct folder local c m now
        end ;;
  at_step (lit "copy") (call (write_journal acct folder (uid c) (message_id c) local u Verified now)).

(** [slice.chunks(n)] *)
Fixpoint chunks_from {A} (fuel n : nat) (l : list A) : list (list A) :=
  match fuel, l with
  | O, _ | _, [] => []
  | S f, _ => take n l :: chunks_from f n (drop n l)
  end.

Definition chunks {A} (n : nat) (l : list A) : list (list A) := chunks_from (length l) n l.

(** Already archived with the server copy kept: not again. *)
Fixpoint not_kept (acct folder : text) (l : list Candidate) : prog Ev (result text (list Candidate)) :=
  match l with
  | [] => Ret (Ok [])
  | c :: rest =>
      j <-? call (journal acct folder (uid c)) ;;
      more <-? not_kept acct folder rest ;;
      Ret (Ok (if is_some_and (fun row => bool_decide (j_stage row = Kept) &&
                                          eq_ignore_ascii_case (j_message_id row) (message_id c)) j
               then more else c :: more))
  end.

Definition least (l : list Z) : option Z :=
  match l with [] => None | x :: r => Some (foldr Z.min x r) end.
Definition greatest (l : list Z) : option Z :=
  match l with [] => None | x :: r => Some (foldr Z.max x r) end.

(** [with_context(|| format!("look in {folder}"))] *)
Definition look_in (folder : text) (cut : Z) : prog Ev (result text (list Candidate)) :=
  r <- call (Candidates folder cut) ;;
  Ret match r with Ok l => Ok l | Err e => Err (lit "look in " ++ folder ++ lit ": " ++ e) end.

Fixpoint plan_each (acct label target : text) (p : Policy) (cutoffs : list (text * Z))
    : prog Ev (result text (list PlannedFolder)) :=
  match cutoffs with
  | [] => Ret (Ok [])
  | (folder, cut) :: rest =>
      _ <-? Ret (ensure (bool_decide (destination p = Local) || negb (bool_decide (folder = target)))
                   (folder ++ lit " is the Archive folder itself")) ;;
      candidates <-? look_in folder cut ;;
      let selected := select_messages candidates cut p in
      selected <-? (if bool_decide (destination p = Local) && keep_server_copy p
                    then not_kept acct folder selected else Ret (Ok selected)) ;;
      more <-? plan_each acct label target p rest ;;
      Ret (Ok ({| p_folder := folder; p_cutoff := cut;
                  p_target := match destination p with Server => target | Local => local_folder label folder end;
                  p_selected := selected; p_count := length selected;
                  p_oldest := least (date <$> selected); p_newest := greatest (date <$> selected) |} :: more))
  end.

Definition plan (acct label : text) (p : Policy) (cutoffs : list (text * Z)) : prog Ev (result text Plan) :=
  target <-? match destination p with
             | Server =>
                 a <-? call ArchiveFolder ;;
                 Ret (ok_or (lit "this account has no Archive folder; choose the local archive instead") a)
             | Local => Ret (Ok (LOCAL_ROOT ++ lit "/" ++ trim label))
             end ;;
  planned <-? plan_each acct label target p cutoffs ;;
  Ret (Ok {| plan_account := acct; plan_destination := destination p; plan_target := target;
             plan_folders := planned; plan_total := list_sum (p_count <$> planned);
             plan_fingerprint := fingerprint confirmed_json sha256 acct p |}).

(** The counts of a folder as a run goes: the folder's and the log's. *)
Definition Counts : Type := RunLog * FolderOutcome.

Definition count_failed (folder step error : text) (st : Counts) (c : Candidate) : Counts :=
  let (l, o) := st in
  ({| l_id := l_id l; l_account := l_account l; l_started_at := l_started_at l;
      l_finished_at := l_finished_at l; l_trigger := l_trigger l; l_destination := l_destination l;
      l_target := l_target l; l_moved := l_moved l; l_kept := l_kept l; l_failed := S (l_failed l);
      l_gone := l_gone l; l_folders := l_folders l;
      l_failures := if (length (l_failures l) <? MAX_LISTED_FAILURES)%nat
                    then l_failures l ++ [{| if_folder := folder; if_uid := uid c; if_subject := subject c;
                                             if_step := step; if_error := error |}]
                    else l_failures l;
      l_error := l_error l |},
   {| o_folder := o_folder o; o_selected := o_selected o; o_moved := o_moved o; o_kept := o_kept o;
      o_failed := S (o_failed o) |}).

Definition count_moved (n : nat) (st : Counts) : Counts :=
  let (l, o) := st in
  ({| l_id := l_id l; l_account := l_account l; l_started_at := l_started_at l;
      l_finished_at := l_finished_at l; l_trigger := l_trigger l; l_destination := l_destination l;
      l_target := l_target l; l_moved := l_moved l + n; l_kept := l_kept l; l_failed := l_failed l;
      l_gone := l_gone l; l_folders := l_folders l; l_failures := l_failures l; l_error := l_error l |},
   {| o_folder := o_folder o; o_selected := o_selected o; o_moved := o_moved o + n; o_kept := o_kept o;
      o_failed := o_failed o |}).

Definition count_kept (n : nat) (st : Counts) : Counts :=
  let (l, o) := st in
  ({| l_id := l_id l; l_account := l_account l; l_started_at := l_started_at l;
      l_finished_at := l_finished_at l; l_trigger := l_trigger l; l_destination := l_destination l;
      l_target := l_target l; l_moved := l_moved l; l_kept := l_kept l + n; l_failed := l_failed l;
      l_gone := l_gone l; l_folders := l_folders l; l_failures := l_failures l; l_error := l_error l |},
   {| o_folder := o_folder o; o_selected := o_selected o; o_moved := o_moved o; o_kept := o_kept o + n;
      o_failed := o_failed o |}).

Definition count_gone (st : Counts) : Counts :=
  let (l, o) := st in
  ({| l_id := l_id l; l_account := l_account l; l_started_at := l_started_at l;
      l_finished_at := l_finished_at l; l_trigger := l_trigger l; l_destination := l_destination l;
      l_target := l_target l; l_moved := l_moved l; l_kept := l_kept l; l_failed := l_failed l;
      l_gone := S (l_gone l); l_folders := l_folders l; l_failures := l_failures l; l_error := l_error l |}, o).

(** A chunk moved on the server. *)
Definition move_chunk (acct folder target : text) (chunk : list Candidate) (st : Counts) : prog Ev Counts :=
  r <- call (MoveTo folder target (uid <$> chunk)) ;;
  match r with
  | Ok _ =>
      _ <- call (ForgetCached folder (uid <$> chunk)) ;;
      Ret (count_moved (length chunk) st)
  | Err e => Ret (foldl (count_failed folder (lit "move") e) st chunk)
  end.

(** The messages of a chunk copied and checked, and those that were. *)
Fixpoint copy_chunk (acct folder local : text) (now : Z) (chunk : list Candidate) (st : Counts)
    : prog Ev (Counts * list Candidate) :=
  match chunk with
  | [] => Ret (st, [])
  | c :: rest =>
      m <- call (Fetch folder (uid c)) ;;
      match m with
      | Ok (Some m) =>
          r <- copy_one_local acct folder local c m now ;;
          match r with
          | Ok _ =>
              more <- copy_chunk acct folder local now rest st ;;
              Ret (more.1, c :: more.2)
          | Err (step, e) => copy_chunk acct folder local now rest (count_failed folder step e st c)
          end
      | Ok None =>
          _ <- call (clear_journal acct folder [uid c]) ;;
          copy_chunk acct folder local now rest (count_gone st)
      | Err e => copy_chunk acct folder local now rest (count_failed folder (lit "fetch") e st c)
      end
  end.

(** The journal of what is kept on the server on purpose. *)
Definition keep_rows (acct folder local : text) (now : Z) (kept : list Candidate) (d : Db) : Db :=
  foldl (fun d c =>
    match journal_get d acct folder (uid c) with
    | Some row => journal_set acct folder (uid c) (message_id c) local (unwrap_or 0 (j_local_uid row)) Kept now d
    | None => d
    end) d kept.

Definition local_chunk (acct folder local : text) (p : Policy) (now : Z) (chunk : list Candidate) (st : Counts)
    : prog Ev Counts :=
  r <- copy_chunk acct folder local now chunk st ;;
  let (st, verified) := (r : Counts * list Candidate) in
  let uids := uid <$> verified in
  if is_nil verified then Ret st
  else if keep_server_copy p then
    _ <- call (WithDb (fun d => (keep_rows acct folder local now verified d, tt))) ;;
    Ret (count_kept (length uids) st)
  else
    r <- call (Delete folder uids) ;;
    match r with
    | Ok _ =>
        _ <- call (clear_journal acct folder uids) ;;
        _ <- call (ForgetCached folder uids) ;;
        Ret (count_moved (length uids) st)
    | Err e =>
        Ret (foldl (count_failed folder (lit "delete")
               (lit "the archived copy is kept, but removing it from the server failed: " ++ e)) st verified)
    end.

Definition end_folder (st : Counts) : RunLog :=
  let (l, o) := st in
  {| l_id := l_id l; l_account := l_account l; l_started_at := l_started_at l;
     l_finished_at := l_finished_at l; l_trigger := l_trigger l; l_destination := l_destination l;
     l_target := l_target l; l_moved := l_moved l; l_kept := l_kept l; l_failed := l_failed l;
     l_gone := l_gone l; l_folders := l_folders l ++ [o]; l_failures := l_failures l; l_error := l_error l |}.

Definition execute_folder (acct : text) (dest : Destination) (p : Policy) (now : Z)
    (f : PlannedFolder) (l : RunLog) : prog Ev RunLog :=
  let o := {| o_folder := p_folder f; o_selected := length (p_selected f); o_moved := 0; o_kept := 0;
              o_failed := 0 |} in
  st <- for_each (chunks CHUNK (p_selected f)) ((l, o) : Counts) (fun chunk st =>
          match dest with
          | Server => move_chunk acct (p_folder f) (p_target f) chunk st
          | Local => local_chunk acct (p_folder f) (p_target f) p now chunk st
          end) ;;
  Ret (end_folder st).

Definition empty_log (acct : text) (now : Z) (dest : option Destination) (target : text) (e : option text) : RunLog :=
  {| l_id := 0; l_account := acct; l_started_at := now; l_finished_at := 0; l_trigger := [];
     l_destination := dest; l_target := target; l_moved := 0; l_kept := 0; l_failed := 0; l_gone := 0;
     l_folders := []; l_failures := []; l_error := e |}.

Definition execute (p : Policy) (pl : Plan) (now : Z) : prog Ev RunLog :=
  for_each (plan_folders pl) (empty_log (plan_account pl) now (Some (plan_destination pl)) (plan_target pl) None)
    (execute_folder (plan_account pl) (plan_destination pl) p now).

Definition set_times (acct : text) (f : PolicyRow -> PolicyRow) (d : Db) : Db * unit :=
  (with_policies (update (is_policy acct) f (policies_t d)) d, tt).

Definition attempted (now : Z) (r : PolicyRow) : PolicyRow :=
  {| pr_account := pr_account r; pr_policy := pr_policy r; pr_confirmed := pr_confirmed r;
     pr_last_attempt := Some now; pr_last_success := pr_last_success r; pr_last_error := pr_last_error r |}.
Definition succeeded (now : Z) (r : PolicyRow) : PolicyRow :=
  {| pr_account := pr_account r; pr_policy := pr_policy r; pr_confirmed := pr_confirmed r;
     pr_last_attempt := pr_last_attempt r; pr_last_success := Some now; pr_last_error := None |}.
Definition went_wrong (e : text) (r : PolicyRow) : PolicyRow :=
  {| pr_account := pr_account r; pr_policy := pr_policy r; pr_confirmed := pr_confirmed r;
     pr_last_attempt := pr_last_attempt r; pr_last_success := pr_last_success r; pr_last_error := Some e |}.

Definition finish_log (trigger : text) (finished i : Z) (l : RunLog) : RunLog :=
  {| l_id := i; l_account := l_account l; l_started_at := l_started_at l; l_finished_at := finished;
     l_trigger := trigger; l_destination := l_destination l; l_target := l_target l; l_moved := l_moved l;
     l_kept := l_kept l; l_failed := l_failed l; l_gone := l_gone l; l_folders := l_folders l;
     l_failures := l_failures l; l_error := l_error l |}.

Definition run_guarded (acct label trigger : text) (cutoffs_at : Policy -> list (text * Z)) (now : Z)
    : prog Ev (result text RunLog) :=
  stored <-? call (WithDb (fun d => (d, load policy_of_json d acct))) ;;
  _ <-? Ret (ensure (is_confirmed confirmed_json sha256 acct stored)
               (lit "preview what this policy will move and confirm it before it runs")) ;;
  _ <-? call (WithDb (set_times acct (attempted now))) ;;
  planned <- plan acct label (policy stored) (cutoffs_at (policy stored)) ;;
  l <- match planned with
       | Ok pl => execute (policy stored) pl now
       | Err e => Ret (empty_log acct now (Some (destination (policy stored))) [] (Some e))
       end ;;
  finished <- call Finished ;;
  let l := finish_log trigger finished (l_id l) l in
  body <-? Ret (log_to_json l) ;;
  i <-? call (WithDb (record l body)) ;;
  _ <-? match l_error l with
        | None => call (WithDb (set_times acct (succeeded now)))
        | Some e => call (WithDb (set_times acct (went_wrong e)))
        end ;;
  Ret (Ok (finish_log trigger finished i l)).

Definition run (acct label trigger : text) (cutoffs_at : Policy -> list (text * Z)) (now : Z)
    : prog Ev (result text RunLog) :=
  free <- call TryStart ;;
  if negb free then Ret (Err (lit "archiving is already running; try again when it finishes"))
  else
    r <- run_guarded acct label trigger cutoffs_at now ;;
    _ <- call Finish ;;
    Ret r.

(** ** What the calls may do *)

(** The server's messages and the local archive's, by folder and uid. *)
Record World := { server : gmap (text * Z) text; local : gmap (text * Z) text; db : Db; started : bool }.

Definition set_db (d : Db) (w : World) : World :=
  {| server := server w; local := local w; db := d; started := started w |}.
Definition set_server (s : gmap (text * Z) text) (w : World) : World :=
  {| server := s; local := local w; db := db w; started := started w |}.
Definition set_local (l : gmap (text * Z) text) (w : World) : World :=
  {| server := server w; local := l; db := db w; started := started w |}.
Definition set_started (b : bool) (w : World) : World :=
  {| server := server w; local := local w; db := db w; started := b |}.

(** The Message-ID of a message's bytes, read as the candidates read it
    ([imap::normalize_message_id]) and as the archive keeps it
    ([parse::normalize_msgid]); the two differ where something follows the
    id in its header. *)
Context (mid_of stored_mid : text -> text).

(** What the server says of the message with a uid. *)
Context (header : text -> Z -> Candidate).

(** A candidate is what the server says of the message it names, and its
    Message-ID is that of the message's bytes. *)
Definition names (w : World) (folder : text) (c : Candidate) : Prop :=
  header folder (uid c) = c /\
  forall b, server w !! (folder, uid c) = Some b -> message_id c = mid_of b.

Definition does (X : Type) (e : Ev X) : World -> World -> X -> Prop :=
  match e in Ev X return World -> World -> X -> Prop with
  | WithDb f => fun w w' r =>
      (w' = set_db (f (db w)).1 w /\ r = Ok (f (db w)).2) \/ (exists e, w' = w /\ r = Err e)
  | Candidates folder _ => fun w w' r =>
      w' = w /\ forall l, r = Ok l -> forall c, c ∈ l -> names w folder c
  | ArchiveFolder => fun w w' _ => w' = w
  | Fetch folder u => fun w w' r =>
      w' = w /\ forall m, r = Ok (Some m) -> server w !! (folder, u) = Some (raw m)
  | MoveTo folder target uids => fun w w' _ =>
      exists s, w' = set_server s w /\
        forall k b, server w !! k = Some b ->
          s !! k = Some b \/ (k.1 = folder /\ k.2 ∈ uids /\ exists u, s !! (target, u) = Some b)
  | Delete folder uids => fun w w' _ =>
      exists s, w' = set_server s w /\ s ⊆ server w /\
        forall k b, server w !! k = Some b -> s !! k = Some b \/ (k.1 = folder /\ k.2 ∈ uids)
  | StoreLocal folder m => fun w w' r =>
      match r with
      | Ok u => local w !! (folder, u) = None /\
                exists b, w' = set_local (<[(folder, u) := b]> (local w)) w /\
                  (b = raw m \/ forall k, local w !! k <> Some b)
      | Err _ => w' = w
      end
  | ReadLocal folder u => fun w w' r => w' = w /\ forall b, r = Ok b -> b = local w !! (folder, u)
  | FindLocal folder mid => fun w w' r =>
      w' = w /\ forall l, r = Ok l -> trim mid <> [] ->
        forall u b, local w !! (folder, u) = Some b ->
          to_ascii_lowercase (stored_mid b) = to_ascii_lowercase mid -> u ∈ l
  | RemoveLocal folder u => fun w w' r =>
      w' = set_local (delete (folder, u) (local w)) w \/ (w' = w /\ exists e, r = Err e)
  | ForgetCached _ _ => fun w w' _ => w' = w
  | TryStart => fun w w' b => w' = set_started true w /\ b = negb (started w)
  | Finish => fun w w' _ => w' = set_started false w
  | Finished => fun w w' _ => w' = w
  end.

(** A message the archive finds again: it has a Message-ID, and the two
    readers read the same. *)
Definition findable (b : text) : Prop :=
  trim (mid_of b) <> [] /\ to_ascii_lowercase (stored_mid b) = to_ascii_lowercase (mid_of b).

(** No folder of the archive holds two copies of a message that is found
    again. *)
Definition one_copy (l : gmap (text * Z) text) : Prop :=
  forall folder b u v, findable b ->
    l !! (folder, u) = Some b -> l !! (folder, v) = Some b -> u = v.

Section Safe.
(** The messages a run may take from where they are. *)
Context (movable : text * Z -> Prop).

Record safe (w0 w : World) : Prop := {
  s_place : forall k b, server w0 !! k = Some b -> server w !! k = Some b \/ movable k;
  s_no_loss : forall k b, server w0 !! k = Some b ->
    (exists k', server w !! k' = Some b) \/ (exists k', local w !! k' = Some b);
  s_local : local w0 ⊆ local w;
  s_one : one_copy (local w0) -> one_copy (local w)
}.

Lemma kept_same w0 w w' :
  server w' = server w -> local w' = local w -> safe w0 w -> safe w0 w'.
Proof. intros Hs Hl []. split; rewrite ?Hs, ?Hl; done. Qed.

Lemma kept_refl w : safe w w.
Proof. split; [by left|intros k b Hk; left; by exists k|done..]. Qed.

Lemma names_sub w w' folder c : server w' ⊆ server w -> names w folder c -> names w' folder c.
Proof. intros Hs [He Hn]. split; [done|]. intros b Hb. apply Hn. by eapply lookup_weaken. Qed.

(** A call to the tables, whose answer does not matter. *)
Lemma ensures_db {X R} w0 w (f : Db -> Db * X) (k : result text X -> prog Ev R) Q :
  safe w0 w ->
  (forall r d, ensures does (safe w0) (k r) Q (set_db d w)) ->
  ensures does (safe w0) (Vis (WithDb f) k) Q w.
Proof.
  intros Hs Hk. cbn. intros w' r [[-> ->]|(e & -> & ->)].
  - split; [by apply (kept_same w0 w)|]. apply Hk.
  - split; [done|]. specialize (Hk (Err e) (db w)). by destruct w.
Qed.

(** *** One message *)

Definition same_store (w w' : World) : Prop := server w' = server w /\ local w' = local w.

Lemma same_bytes_ok w0 w loc bytes uids (Q : result (text * text) (option Z) -> World -> Prop) :
  safe w0 w ->
  (forall e, Q (Err e) w) ->
  (forall u, local w !! (loc, u) = Some bytes -> Q (Ok (Some u)) w) ->
  ((forall u, u ∈ uids -> local w !! (loc, u) <> Some bytes) -> Q (Ok None) w) ->
  ensures does (safe w0) (same_bytes loc bytes uids) Q w.
Proof.
  intros Hs He Hf Hn. induction uids as [|u uids IH]; cbn [same_bytes].
  { apply Hn. by intros u ?%not_elem_of_nil. }
  cbn -[same_bytes]. intros w' r [-> Hr]. split; [done|]. destruct r as [b|e]; cbn -[same_bytes]; [|apply He].
  rewrite (Hr b eq_refl). case_bool_decide as Hb; [by apply Hf|]. apply IH. intros Hall. apply Hn.
  intros v [->|Hv]%elem_of_cons; [done|by apply Hall].
Qed.

Lemma find_existing_ok w0 w acct folder loc c m (Q : result (text * text) (option Z) -> World -> Prop) :
  safe w0 w -> message_id c = mid_of (raw m) ->
  (forall e d, Q (Err e) (set_db d w)) ->
  (forall u d, local w !! (loc, u) = Some (raw m) -> Q (Ok (Some u)) (set_db d w)) ->
  (forall d, (findable (raw m) -> forall u, local w !! (loc, u) <> Some (raw m)) ->
     Q (Ok None) (set_db d w)) ->
  ensures does (safe w0) (find_existing acct folder loc c m) Q w.
Proof.
  intros Hs Hid He Hf Hn. unfold find_existing, and_then. apply ensures_bind. unfold at_step.
  apply ensures_bind. apply ensures_db; [done|]. intros r d.
  assert (safe w0 (set_db d w)) as Hs' by by apply (kept_same w0 w).
  destruct r as [j|e]; [|apply He]. cbn [ensures]. apply ensures_bind.
  assert (ensures does (safe w0)
    (uids <-? at_step (lit "copy") (call (FindLocal loc (message_id c))) ;; same_bytes loc (raw m) uids) Q
    (set_db d w)) as Hfind.
  { cbn -[same_bytes]. intros w' r [-> Hr]. split; [done|]. destruct r as [l|e]; cbn -[same_bytes]; [|apply He].
    apply same_bytes_ok; [done|intros; apply He|intros; by apply Hf|]. intros Hall. apply Hn.
    intros [Hmid Hsame] u Hu. apply (Hall u); [|done]. apply (Hr l eq_refl) with (b := raw m); [by rewrite Hid|done|by rewrite Hid]. }
  destruct j as [row|]; [|exact Hfind]. destruct (j_local_uid row) as [u|]; [|exact Hfind].
  case_bool_decide; [|exact Hfind]. apply same_bytes_ok; [done|intros; apply He|intros; by apply Hf|].
  intros _. exact Hfind.
Qed.

Lemma one_copy_insert l folder u b :
  l !! (folder, u) = None -> one_copy l ->
  (findable b -> forall v, l !! (folder, v) <> Some b) ->
  one_copy (<[(folder, u) := b]> l).
Proof.
  intros Hu Ho Hb f b' x y Hm. rewrite !lookup_insert_Some.
  intros [[Hx <-]|[_ Hx]] [[Hy Hb']|[_ Hy]].
  - congruence.
  - injection Hx as <- <-. by destruct (Hb Hm y).
  - injection Hy as <- <-. rewrite Hb' in Hb. by destruct (Hb Hm x).
  - by eapply Ho.
Qed.

Lemma safe_store w0 w folder u b :
  safe w0 w -> local w !! (folder, u) = None ->
  (findable b -> forall v, local w !! (folder, v) <> Some b) ->
  safe w0 (set_local (<[(folder, u) := b]> (local w)) w).
Proof.
  intros [] Hu Hb. split; cbn.
  - done.
  - intros k c Hk. destruct (s_no_loss0 k c Hk) as [?|[k' Hk']]; [by left|right]. exists k'.
    rewrite lookup_insert_ne; [done|]. intros <-. congruence.
  - etrans; [exact s_local0|]. by apply insert_subseteq.
  - intros H0. apply one_copy_insert; [done|by apply s_one0|done].
Qed.

Lemma store_new_ok w0 w acct folder loc c m now (Q : result (text * text) Z -> World -> Prop) :
  safe w0 w ->
  (findable (raw m) -> forall u, local w !! (loc, u) <> Some (raw m)) ->
  (forall r w', safe w0 w' -> server w' = server w -> local w ⊆ local w' ->
     (forall u, r = Ok u -> local w' !! (loc, u) = Some (raw m)) -> Q r w') ->
  ensures does (safe w0) (store_new acct folder loc c m now) Q w.
Proof.
  intros Hs Hnone HQ. unfold store_new, and_then. apply ensures_bind. cbn -[call].
  intros w1 [u|e]; [intros (Hu & b & -> & Hb)|intros ->].
  2: { split; [done|]. cbn. by apply HQ. }
  assert (safe w0 (set_local (<[(loc, u) := b]> (local w)) w)) as Hs1.
  { apply safe_store; [done..|]. destruct Hb as [->|Hb]; [done|]. intros _ v. apply Hb. }
  assert (local w ⊆ <[(loc, u) := b]> (local w)) as Hsub by by apply insert_subseteq.
  split; [done|]. cbn [ensures]. apply ensures_bind. unfold at_step. apply ensures_bind.
  apply ensures_db; [done|]. intros r d. cbn [ensures].
  set (w1 := set_db d (set_local (<[(loc, u) := b]> (local w)) w)).
  assert (safe w0 w1) as Hs2 by by eapply kept_same; [..|exact Hs1].
  destruct r as [[]|e]; [|by apply HQ]. cbn -[clear_journal]. intros w2 back [-> Hback]. split; [done|].
  case_bool_decide as Heq.
  { cbn. apply HQ; try done. intros v [= <-]. rewrite (Hback _ Heq). done. }
  intros w2 r Hr.
  assert (forall w3, w3 = set_local (delete (loc, u) (local w1)) w1 \/ w3 = w1 ->
    safe w0 w3 /\ server w3 = server w /\ local w ⊆ local w3) as Hw3.
  { intros w3 [->| ->]; [|done]. assert (delete (loc, u) (local w1) = local w) as Hdel.
    { cbn. by apply delete_insert_id. }
    rewrite Hdel. split; [|done]. by apply (kept_same w0 w). }
  assert (safe w0 w2 /\ server w2 = server w /\ local w ⊆ local w2) as (Hs3 & Hsrv & Hloc).
  { apply Hw3. destruct Hr as [->|[-> _]]; [by left|by right]. }
  split; [done|]. refine (ensures_db w0 w2 _ _ _ Hs3 _). intros r' d'. apply HQ; try done.
  by apply (kept_same w0 w2).
Qed.

Lemma copy_one_ok w0 w acct folder loc c m now (Q : result (text * text) unit -> World -> Prop) :
  safe w0 w -> message_id c = mid_of (raw m) ->
  (forall r w', safe w0 w' -> server w' = server w -> local w ⊆ local w' ->
     (r = Ok tt -> exists u, local w' !! (loc, u) = Some (raw m)) -> Q r w') ->
  ensures does (safe w0) (copy_one_local acct folder loc c m now) Q w.
Proof.
  intros Hs Hid HQ. unfold copy_one_local, and_then. apply ensures_bind.
  assert (forall u w', safe w0 w' -> server w' = server w -> local w ⊆ local w' ->
    local w' !! (loc, u) = Some (raw m) ->
    ensures does (safe w0)
      (at_step (lit "copy") (call (write_journal acct folder (uid c) (message_id c) loc u Verified now))) Q w') as Hend.
  { intros u w' Hs' Hsrv Hloc Hu. unfold at_step. apply ensures_bind. apply ensures_db; [done|].
    intros r d. cbn. apply HQ; [by apply (kept_same w0 w')|done|done|]. intros _. by exists u. }
  apply find_existing_ok; [done|done| | |].
  - intros e d. cbn. by apply HQ; [apply (kept_same w0 w)|..].
  - intros u d Hu. cbn [ensures]. apply ensures_bind. cbn [ensures]. apply Hend; try done.
    by apply (kept_same w0 w).
  - intros d Hnone. cbn [ensures]. apply ensures_bind. apply store_new_ok; [by apply (kept_same w0 w)|done|].
    intros [u|e] w' Hs' Hsrv Hloc Hu; cbn [ensures].
    + apply Hend; try done. by apply Hu.
    + by apply HQ.
Qed.

(** *** A chunk, a folder, a run *)

Lemma copy_chunk_ok w0 acct folder loc now chunk st w (Q : Counts * list Candidate -> World -> Prop) :
  safe w0 w -> (forall c, c ∈ chunk -> names w folder c) ->
  (forall st' vs w', safe w0 w' -> server w' = server w -> local w ⊆ local w' ->
     (forall c, c ∈ vs -> c ∈ chunk) ->
     (forall c b, c ∈ vs -> server w !! (folder, uid c) = Some b -> exists u, local w' !! (loc, u) = Some b) ->
     Q (st', vs) w') ->
  ensures does (safe w0) (copy_chunk acct folder loc now chunk st) Q w.
Proof.
  revert st w Q. induction chunk as [|c rest IH]; intros st w Q Hs Hn HQ; cbn [copy_chunk].
  { apply HQ; try done. by intros c b ?%not_elem_of_nil. }
  assert (forall st1 w1, safe w0 w1 -> server w1 = server w -> local w ⊆ local w1 ->
    ensures does (safe w0) (copy_chunk acct folder loc now rest st1) Q w1) as Hrest.
  { intros st1 w1 Hs1 Hsrv Hloc. apply IH; [done| |].
    - intros d Hd. eapply names_sub; [|apply Hn; by right]. by rewrite Hsrv.
    - intros st' vs w' Hs' Hsrv' Hloc' Hin Hvs. rewrite Hsrv in Hsrv', Hvs.
      apply HQ; try done; [by etrans|]. intros d Hd. right. by apply Hin. }
  apply ensures_bind. intros w1 m [-> Hm]. split; [done|]. destruct m as [[m|]|e]; cbn [ensures].
  - specialize (Hm m eq_refl). apply ensures_bind. apply copy_one_ok; [done|by apply (Hn c); [left|]|].
    intros [[]|[step e]] w' Hs' Hsrv Hloc Hc; [|by apply Hrest]. apply ensures_bind.
    apply IH; [done| |].
    + intros d Hd. eapply names_sub; [|apply Hn; by right]. by rewrite Hsrv.
    + intros st' vs w'' Hs'' Hsrv' Hloc' Hin Hvs. cbn. apply HQ; [done|by rewrite Hsrv'|by etrans| |].
      { intros d [->|Hd]%elem_of_cons; [by left|right; by apply Hin]. }
      intros d b [->|Hd]%elem_of_cons Hb.
      * rewrite Hm in Hb. injection Hb as <-. destruct (Hc eq_refl) as [u Hu]. exists u. by eapply lookup_weaken.
      * apply (Hvs d b Hd). by rewrite Hsrv.
  - refine (ensures_db w0 w _ _ _ Hs _). intros r d. apply Hrest; try done. by apply (kept_same w0 w).
  - by apply Hrest.
Qed.

Lemma safe_delete w0 w loc folder (us : list Z) s :
  safe w0 w -> s ⊆ server w ->
  (forall k b, server w !! k = Some b -> s !! k = Some b \/ (k.1 = folder /\ k.2 ∈ us)) ->
  (forall u b, u ∈ us -> server w !! (folder, u) = Some b -> exists v, local w !! (loc, v) = Some b) ->
  (forall u, u ∈ us -> movable (folder, u)) ->
  safe w0 (set_server s w).
Proof.
  intros [] Hsub Hs Hus Hm. split; [| |done..].
  { intros k b Hk. destruct (s_place0 k b Hk) as [Hk'|?]; [|by right].
    destruct (Hs k b Hk') as [?|[Hf Hu]]; [by left|right]. destruct k as [f u]; cbn in *; subst f. by apply Hm. }
  intros k b Hk.
  destruct (s_no_loss0 k b Hk) as [[k' Hk']|?]; [|by right]. destruct (Hs k' b Hk') as [?|[Hf Hu]].
  - left. by exists k'.
  - right. destruct k' as [f u]; cbn in *; subst f. destruct (Hus u b Hu Hk') as [v Hv]. by exists (loc, v).
Qed.

Lemma local_chunk_ok w0 acct folder loc p now chunk st w (Q : Counts -> World -> Prop) :
  safe w0 w -> (forall c, c ∈ chunk -> names w folder c) ->
  (forall c, c ∈ chunk -> movable (folder, uid c)) ->
  (forall st' w', safe w0 w' -> server w' ⊆ server w -> Q st' w') ->
  ensures does (safe w0) (local_chunk acct folder loc p now chunk st) Q w.
Proof.
  intros Hs Hn Hm HQ. unfold local_chunk. apply ensures_bind. apply copy_chunk_ok; [done..|].
  intros st' vs w1 Hs1 Hsrv Hloc Hin Hvs. destruct (is_nil vs); [apply HQ; [done|by rewrite Hsrv]|].
  destruct (keep_server_copy p).
  { refine (ensures_db w0 w1 _ _ _ Hs1 _). intros r d. apply HQ; [by apply (kept_same w0 w1)|cbn; by rewrite Hsrv]. }
  intros w2 r (s & -> & Hsub & Hs2).
  assert (safe w0 (set_server s w1)) as Hs3.
  { apply (safe_delete w0 w1 loc folder (uid <$> vs)); [exact Hs1|exact Hsub|exact Hs2| |].
    - intros u b (c & -> & Hc)%list_elem_of_fmap Hb. apply (Hvs c b Hc). by rewrite <- Hsrv.
    - intros u (c & -> & Hc)%list_elem_of_fmap. apply Hm. by apply Hin. }
  split; [done|]. rewrite Hsrv in Hsub. destruct r as [[]|e]; [|by apply HQ].
  refine (ensures_db w0 (set_server s w1) _ _ _ Hs3 _). intros r d.
  assert (safe w0 (set_db d (set_server s w1))) as Hs4 by by apply (kept_same w0 (set_server s w1)).
  intros w' r' ->. split; [done|]. by apply HQ.
Qed.

Lemma safe_move w0 w folder target (us : list Z) s :
  safe w0 w ->
  (forall k b, server w !! k = Some b ->
     s !! k = Some b \/ (k.1 = folder /\ k.2 ∈ us /\ exists u, s !! (target, u) = Some b)) ->
  (forall u, u ∈ us -> movable (folder, u)) ->
  safe w0 (set_server s w).
Proof.
  intros [] Hs Hm. split; [| |done..].
  { intros k b Hk. destruct (s_place0 k b Hk) as [Hk'|?]; [|by right].
    destruct (Hs k b Hk') as [?|(Hf & Hu & _)]; [by left|right].
    destruct k as [f u]; cbn in *; subst f. by apply Hm. }
  intros k b Hk. destruct (s_no_loss0 k b Hk) as [[k' Hk']|?]; [|by right].
  left. destruct (Hs k' b Hk') as [?|(_ & _ & u & Hu)]; eauto.
Qed.

Lemma move_chunk_ok w0 acct folder target chunk st w (Q : Counts -> World -> Prop) :
  safe w0 w -> (forall c, c ∈ chunk -> movable (folder, uid c)) ->
  (forall st' w', safe w0 w' -> Q st' w') ->
  ensures does (safe w0) (move_chunk acct folder target chunk st) Q w.
Proof.
  intros Hs Hm HQ w1 r (s & -> & Hmv). assert (safe w0 (set_server s w)) as Hs1.
  { eapply safe_move; [done..|]. intros u (c & -> & Hc)%list_elem_of_fmap. by apply Hm. }
  split; [done|]. destruct r as [[]|e]; [|by apply HQ]. intros w2 [] ->. split; [done|]. by apply HQ.
Qed.

Lemma chunks_from_elem {A} fuel n (l : list A) ch x : ch ∈ chunks_from fuel n l -> x ∈ ch -> x ∈ l.
Proof.
  revert l. induction fuel as [|f IH]; intros l; [by intros ?%not_elem_of_nil|].
  destruct l as [|a l]; [by intros ?%not_elem_of_nil|]. cbn [chunks_from].
  intros [->|Hch]%elem_of_cons Hx.
  - rewrite <- (take_drop n (a :: l)). apply elem_of_app. by left.
  - rewrite <- (take_drop n (a :: l)). apply elem_of_app. right. by apply IH.
Qed.

Definition all_named (w : World) (fs : list PlannedFolder) : Prop :=
  forall f c, f ∈ fs -> c ∈ p_selected f -> names w (p_folder f) c.

Lemma all_named_sub w w' fs : server w' ⊆ server w -> all_named w fs -> all_named w' fs.
Proof. intros Hs Hn f c Hf Hc. eapply names_sub; [done|by apply Hn]. Qed.

Definition all_movable (fs : list PlannedFolder) : Prop :=
  forall f c, f ∈ fs -> c ∈ p_selected f -> movable (p_folder f, uid c).

Lemma execute_ok w0 p pl now w (Q : RunLog -> World -> Prop) :
  safe w0 w -> all_named w (plan_folders pl) -> all_movable (plan_folders pl) ->
  (forall l w', safe w0 w' -> Q l w') ->
  ensures does (safe w0) (execute p pl now) Q w.
Proof.
  intros Hs Hn Hm HQ. unfold execute. destruct (plan_destination pl) eqn:Hd.
  - eapply (ensures_for_each does _ _ _ (fun _ _ w' => safe w0 w') _ []); [done| |by intros; apply HQ].
    intros _ f l w1 Hs1 Hf. unfold execute_folder. apply ensures_bind.
    eapply (ensures_for_each does _ _ _ (fun _ _ w' => safe w0 w') _ []); [done| |done].
    intros _ ch st w2 Hs2 Hch. apply move_chunk_ok; [done| |done].
    intros c Hc. apply Hm; [done|]. by eapply chunks_from_elem.
  - eapply (ensures_for_each does _ _ _ (fun _ _ w' => safe w0 w' /\ all_named w' (plan_folders pl)) _ []);
      [done| |by intros l w' [? ?]; apply HQ].
    intros _ f l w1 [Hs1 Hn1] Hf. unfold execute_folder. apply ensures_bind.
    eapply (ensures_for_each does _ _ _ (fun _ _ w' => safe w0 w' /\ all_named w' (plan_folders pl)) _ []);
      [done| |done].
    intros _ ch st w2 [Hs2 Hn2] Hch. apply local_chunk_ok; [done| | |].
    + intros c Hc. apply Hn2; [done|]. by eapply chunks_from_elem.
    + intros c Hc. apply Hm; [done|]. by eapply chunks_from_elem.
    + intros st' w' Hs' Hsub. split; [done|]. by eapply all_named_sub.
Qed.

Lemma dedup_uid_elem l c : c ∈ dedup_uid l -> c ∈ l.
Proof.
  revert c. induction l as [|a l IH]; intros c; [done|]. cbn [dedup_uid].
  destruct (dedup_uid l) as [|d r] eqn:Hd.
  { intros ->%list_elem_of_singleton. by left. }
  destruct (uid a =? uid d); intros [->|Hc]%elem_of_cons; [by left| |by left|right; by apply IH].
  right. apply IH. by right.
Qed.

Lemma select_messages_elem cs cut p c :
  c ∈ select_messages cs cut p -> c ∈ cs /\ taken cut p c = true.
Proof.
  intros Hc%dedup_uid_elem. unfold select_messages in Hc.
  rewrite order_by_perm in Hc. by apply list_elem_of_filter in Hc as [? ?].
Qed.

Lemma not_kept_ok w0 acct folder l w (Q : result text (list Candidate) -> World -> Prop) :
  safe w0 w ->
  (forall r d, (forall l' c, r = Ok l' -> c ∈ l' -> c ∈ l) -> Q r (set_db d w)) ->
  ensures does (safe w0) (not_kept acct folder l) Q w.
Proof.
  revert w Q. induction l as [|c l IH]; intros w Q Hs HQ; cbn [not_kept].
  { specialize (HQ (Ok []) (db w)). destruct w. apply HQ. by intros ? ? [= <-]. }
  unfold and_then. apply ensures_bind. refine (ensures_db w0 w _ _ _ Hs _). intros r d.
  destruct r as [j|e]; cbn [ensures].
  - apply ensures_bind. apply IH; [by apply (kept_same w0 w)|]. intros r d' Hr.
    destruct r as [more|e]; cbn [ensures]; apply (HQ _ d'); [|done].
    intros l' x [= <-]. destruct (is_some_and _ j); [intros Hx; right; by eapply Hr|].
    intros [->|Hx]%elem_of_cons; [by left|right; by eapply Hr].
  - by apply (HQ _ d).
Qed.

(** What may be taken from the folders with these cutoffs. *)
Definition of_policy (p : Policy) (cutoffs : list (text * Z)) (k : text * Z) : Prop :=
  exists cut, (k.1, cut) ∈ cutoffs /\ taken cut p (header k.1 k.2) = true.

Definition planned_ok (w0 w : World) (r : result text (list PlannedFolder)) (w' : World) : Prop :=
  safe w0 w' /\ same_store w w' /\ forall fs, r = Ok fs -> all_named w fs /\ all_movable fs.

Lemma plan_each_ok w0 acct label target p cutoffs w :
  (forall k, of_policy p cutoffs k -> movable k) -> safe w0 w ->
  ensures does (safe w0) (plan_each acct label target p cutoffs) (planned_ok w0 w) w.
Proof.
  intros Hm. revert Hm w. induction cutoffs as [|[folder cut] rest IH]; intros Hm w Hs; cbn [plan_each].
  { split; [done|]. split; [done|]. intros fs [= <-]. split; by intros f c ?%not_elem_of_nil. }
  assert (forall k, of_policy p rest k -> movable k) as Hm'.
  { intros k (cut' & Hk & Ht). apply Hm. exists cut'. split; [by right|done]. }
  assert (forall e w', safe w0 w' -> same_store w w' -> planned_ok w0 w (Err e) w') as Herr by by intros; split.
  unfold and_then at 1. apply ensures_bind. cbn [ensures]. destruct (ensure _ _) as [[]|e]; [|by apply Herr].
  unfold and_then at 1, look_in. apply ensures_bind, ensures_bind. intros w1 r [-> Hr]. split; [done|].
  destruct r as [cs|e]; cbn [ensures]; [|by apply Herr]. specialize (Hr cs eq_refl).
  assert (forall sel d, (forall c, c ∈ sel -> c ∈ select_messages cs cut p) ->
    ensures does (safe w0)
      (more <-? plan_each acct label target p rest ;;
       Ret (Ok ({| p_folder := folder; p_cutoff := cut;
          p_target := match destination p with Server => target | Local => local_folder label folder end;
          p_selected := sel; p_count := length sel;
          p_oldest := least (date <$> sel); p_newest := greatest (date <$> sel) |} :: more)))
      (planned_ok w0 w) (set_db d w)) as Hmore.
  { intros sel d Hsel. unfold and_then. apply ensures_bind.
    eapply ensures_mono; [|apply (IH Hm'); by apply (kept_same w0 w)].
    intros [more|e] w' (Hs' & [Hsrv Hloc] & Hall); cbn [ensures]; [|by apply Herr].
    split; [done|]. split; [done|]. destruct (Hall more eq_refl) as [Hnm Hmv].
    intros fs [= <-]. split; intros f c [->|Hf]%elem_of_cons Hc; [|by apply (Hnm f c)| |by apply (Hmv f c)];
      cbn in Hc; apply Hsel, select_messages_elem in Hc as [Hc Ht]; [by apply Hr|].
    apply Hm. exists cut. split; [by left|]. destruct (Hr c Hc) as [He _]. cbn. by rewrite He. }
  unfold and_then at 1. apply ensures_bind. destruct (_ && _).
  - apply not_kept_ok; [done|]. intros [l'|e] d Hl; [|by apply Herr; [apply (kept_same w0 w)|]].
    apply Hmore. intros c Hc. by eapply Hl.
  - specialize (Hmore _ (db w) (fun c Hc => Hc)). by destruct w.
Qed.

Lemma plan_ok w0 acct label p cutoffs w :
  (forall k, of_policy p cutoffs k -> movable k) -> safe w0 w ->
  ensures does (safe w0) (plan acct label p cutoffs)
    (fun r w' => safe w0 w' /\ forall pl, r = Ok pl ->
       all_named w' (plan_folders pl) /\ all_movable (plan_folders pl)) w.
Proof.
  intros Hm Hs. unfold plan.
  assert (forall target, ensures does (safe w0)
    (planned <-? plan_each acct label target p cutoffs ;;
     Ret (Ok {| plan_account := acct; plan_destination := destination p; plan_target := target;
                plan_folders := planned; plan_total := list_sum (p_count <$> planned);
                plan_fingerprint := fingerprint confirmed_json sha256 acct p |}))
    (fun r w' => safe w0 w' /\ forall pl, r = Ok pl ->
       all_named w' (plan_folders pl) /\ all_movable (plan_folders pl)) w) as Heach.
  { intros target. unfold and_then. apply ensures_bind. eapply ensures_mono; [|by apply plan_each_ok].
    intros [fs|e] w' (Hs' & [Hsrv _] & Hall); cbn [ensures]; (split; [done|]); [|done].
    intros pl [= <-]. destruct (Hall fs eq_refl) as [Hnm Hmv]. split; [|done].
    eapply all_named_sub; [|exact Hnm]. by rewrite Hsrv. }
  unfold and_then at 1. apply ensures_bind. destruct (destination p) eqn:Hdest.
  - unfold and_then. apply ensures_bind. intros w1 r ->. split; [done|]. destruct r as [a|e]; cbn [ensures]; [|done].
    destruct (ok_or _ a) as [target|e]; [|done]. apply Heach.
  - cbn [ensures]. apply Heach.
Qed.

Lemma run_ok acct label trigger cutoffs_at now w :
  (forall k, let stored := load policy_of_json (db w) acct in
     is_confirmed confirmed_json sha256 acct stored = true -> of_policy (policy stored) (cutoffs_at (policy stored)) k -> movable k) ->
  ensures does (safe w) (run acct label trigger cutoffs_at now) (fun _ w' => safe w w') w.
Proof.
  intros Hm. pose proof (kept_refl w) as H0. unfold run. apply ensures_bind. intros w1 b [-> ->].
  assert (safe w (set_started true w)) as H1 by by apply (kept_same w w). split; [done|].
  cbn [ensures]. destruct (negb (negb (started w))); [done|]. apply ensures_bind.
  apply (ensures_mono does _ _ (fun _ w' => safe w w')).
  { intros r w' Hs w2 [] ->. assert (safe w (set_started false w')) by by apply (kept_same w w'). done. }
  unfold run_guarded, and_then. apply ensures_bind.
  intros w2 r Hr. assert (safe w w2 /\ forall s, r = Ok s -> s = load policy_of_json (db w) acct) as [H2 Hload].
  { destruct Hr as [[-> ->]|(e & -> & ->)]; (split; [by apply (kept_same w w)|]); [by intros s [= <-]|done]. }
  split; [done|]. destruct r as [stored|e]; cbn [ensures]; [|done]. specialize (Hload stored eq_refl).
  apply ensures_bind. cbn [ensures]. destruct (is_confirmed confirmed_json sha256 acct stored) eqn:Hconf; cbn [ensure]; [|done].
  rewrite Hload in Hconf. apply ensures_bind. refine (ensures_db w w2 _ _ _ H2 _). intros r d2.
  assert (safe w (set_db d2 w2)) as H3 by by apply (kept_same w w2).
  revert H3. generalize (set_db d2 w2). intros w3 H3.
  destruct r as [[]|e]; cbn [ensures]; [|done]. apply ensures_bind.
  eapply ensures_mono; [|apply plan_ok; [|done]; intros k Hk; rewrite Hload in Hk; by apply Hm].
  intros pl w4 [H4 Hnames].
  apply ensures_bind. apply (ensures_mono does _ _ (fun _ w' => safe w w')).
  2: { destruct pl as [pl|e]; [|done]. destruct (Hnames pl eq_refl). by apply execute_ok. }
  intros l w5 H5. apply ensures_bind. intros w6 fin ->. split; [done|]. cbn [ensures].
  apply ensures_bind. cbn [ensures]. destruct (log_to_json _) as [body|e]; [|done].
  apply ensures_bind. refine (ensures_db w w5 _ _ _ H5 _). intros r d6.
  assert (safe w (set_db d6 w5)) as H6 by by apply (kept_same w w5).
  revert H6. generalize (set_db d6 w5). intros w6 H6. destruct r as [i|e]; cbn [ensures]; [|done].
  apply ensures_bind. destruct (l_error _) as [e|]; refine (ensures_db w w6 _ _ _ H6 _); intros r d7;
    (assert (safe w (set_db d7 w6)) as H7 by by apply (kept_same w w6)); by destruct r.
Qed.
End Safe.

(** C2: wherever a run stops, every message that was on the server is there
    still, or byte for byte in the local archive; the archive loses nothing
    it held; and no folder of the archive gets a second copy of a message
    that has a Message-ID which the two readers of the engine read alike, if
    none had one. *)
Theorem archiving_never_loses acct label trigger cutoffs_at now w w' o :
  runs does (run acct label trigger cutoffs_at now) w w' o ->
  (forall k b, server w !! k = Some b ->
     (exists k', server w' !! k' = Some b) \/ (exists k', local w' !! k' = Some b)) /\
  local w ⊆ local w' /\ (one_copy (local w) -> one_copy (local w')).
Proof.
  intros Hr. assert (safe (fun _ => True) w w') as []; [|done].
  pose proof (run_ok (fun _ => True) acct label trigger cutoffs_at now w (fun _ _ _ => I)) as Hok.
  destruct o as [r|].
  - by apply (ensures_end does _ _ _ _ _ _ Hok Hr).
  - by apply (ensures_stop does _ _ _ _ _ (kept_refl _ w) Hok Hr).
Qed.

(** Whatever a run gets to, a message leaves the place it has on the
    server only if the stored policy is the confirmed one, the policy looks
    in its folder, and the server says of it that it is older than the
    folder's cutoff, of a known date, and not starred or unread unless the
    policy takes those. *)
Theorem only_what_the_policy_takes acct label trigger cutoffs_at now w w' o folder u b :
  let stored := load policy_of_json (db w) acct in
  let c := header folder u in
  runs does (run acct label trigger cutoffs_at now) w w' o ->
  server w !! (folder, u) = Some b -> server w' !! (folder, u) <> Some b ->
  is_confirmed confirmed_json sha256 acct stored = true /\
  exists cut, (folder, cut) ∈ cutoffs_at (policy stored) /\
    0 < date c < cut /\ (starred c = true -> include_starred (policy stored) = true) /\
    (seen c = false -> include_unread (policy stored) = true).
Proof.
  intros stored c Hr Hb Hgone.
  set (movable := fun k => is_confirmed confirmed_json sha256 acct stored = true /\
    of_policy (policy stored) (cutoffs_at (policy stored)) k).
  assert (safe movable w w') as [Hplace _ _ _].
  { pose proof (run_ok movable acct label trigger cutoffs_at now w (fun k Hk1 Hk2 => conj Hk1 Hk2)) as Hok.
    destruct o as [r|].
    - by apply (ensures_end does _ _ _ _ _ _ Hok Hr).
    - by apply (ensures_stop does _ _ _ _ _ (kept_refl _ w) Hok Hr). }
  destruct (Hplace _ _ Hb) as [?|[Hconf (cut & Hcut & Ht)]]; [done|]. split; [done|].
  exists cut. split; [done|]. cbn in Ht. fold c in Ht. unfold taken in Ht.
  bools in Ht.
  destruct Ht as [[[? ?] Hst] Hse]. split; [done|]. split; intros Heq; rewrite Heq in *; by destruct Hst, Hse.
Qed.

(** ** What a log counts *)

Section Counting.
Context {W : Type} (may : forall X, Ev X -> W -> W -> X -> Prop).

(** The counts of the run and of the folder it is in, [n] messages into the
    folder; the log had [l0] before it. *)
Record counted_in (l0 : RunLog) (n : nat) (o : FolderOutcome) (l : RunLog) : Prop := {
  ci_moved : l_moved l = (l_moved l0 + o_moved o)%nat;
  ci_kept : l_kept l = (l_kept l0 + o_kept o)%nat;
  ci_failed : l_failed l = (l_failed l0 + o_failed o)%nat;
  ci_folders : l_folders l = l_folders l0;
  ci_gone : (l_gone l = l_gone l0 + (n - (o_moved o + o_kept o + o_failed o)))%nat;
  ci_le : (o_moved o + o_kept o + o_failed o <= n)%nat;
  ci_listed : length (l_failures l) = Nat.min MAX_LISTED_FAILURES (l_failed l)
}.

Definition tally (l0 : RunLog) (o0 : FolderOutcome) (n : nat) (st : Counts) : Prop :=
  counted_in l0 n st.2 st.1 /\ o_folder st.2 = o_folder o0 /\ o_selected st.2 = o_selected o0.

Lemma tally_failed l0 o0 n folder step e st c :
  tally l0 o0 n st -> tally l0 o0 (S n) (count_failed folder step e st c).
Proof.
  destruct st as [l o]. intros [[H1 H2 H3 H4 H5 H6 H7] Ho]. split; [|done]. split; cbn -[MAX_LISTED_FAILURES Nat.min Nat.ltb] in *; try lia; [done|].
  destruct (Nat.ltb_spec (length (l_failures l)) MAX_LISTED_FAILURES); [rewrite length_app; cbn [length]|]; lia.
Qed.

Lemma tally_moved l0 o0 n m st : tally l0 o0 n st -> tally l0 o0 (n + m) (count_moved m st).
Proof. destruct st as [l o]. intros [[H1 H2 H3 H4 H5 H6 H7] Ho]. split; [|done]. split; cbn in *; try lia; done. Qed.

Lemma tally_kept l0 o0 n m st : tally l0 o0 n st -> tally l0 o0 (n + m) (count_kept m st).
Proof. destruct st as [l o]. intros [[H1 H2 H3 H4 H5 H6 H7] Ho]. split; [|done]. split; cbn in *; try lia; done. Qed.

Lemma tally_gone l0 o0 n st : tally l0 o0 n st -> tally l0 o0 (S n) (count_gone st).
Proof. destruct st as [l o]. intros [[H1 H2 H3 H4 H5 H6 H7] Ho]. split; [|done]. split; cbn in *; try lia; done. Qed.

Lemma tally_all_failed l0 o0 folder step e cs : forall n st,
  tally l0 o0 n st -> tally l0 o0 (n + length cs) (foldl (count_failed folder step e) st cs).
Proof.
  induction cs as [|c cs IH]; intros n st Ht; cbn [foldl length]; [by rewrite Nat.add_0_r|].
  rewrite Nat.add_succ_r, <- Nat.add_succ_l. apply IH. by apply tally_failed.
Qed.

Lemma move_chunk_tally l0 o0 acct folder target chunk n st w :
  tally l0 o0 n st ->
  ensures may (fun _ => True) (move_chunk acct folder target chunk st)
    (fun st' _ => tally l0 o0 (n + length chunk) st') w.
Proof.
  intros Ht w' [[]|e] _; (split; [done|]).
  - intros w'' [] _. split; [done|]. by apply tally_moved.
  - by apply tally_all_failed.
Qed.

(** Of a chunk, those copied and checked are still to count. *)
Lemma copy_chunk_tally l0 o0 acct folder loc now chunk : forall n st w,
  tally l0 o0 n st ->
  ensures may (fun _ => True) (copy_chunk acct folder loc now chunk st)
    (fun r _ => (length r.2 <= length chunk)%nat /\ tally l0 o0 (n + (length chunk - length r.2)) r.1) w.
Proof.
  induction chunk as [|c rest IH]; intros n st w Ht; cbn [copy_chunk].
  { cbn. split; [lia|]. by rewrite Nat.add_0_r. }
  assert (forall st' w', tally l0 o0 (S n) st' ->
    ensures may (fun _ => True) (copy_chunk acct folder loc now rest st')
      (fun r _ => (length r.2 <= length (c :: rest))%nat /\
                  tally l0 o0 (n + (length (c :: rest) - length r.2)) r.1) w') as Hrest.
  { intros st' w' Ht'. eapply ensures_mono; [|by apply (IH (S n))]. intros [st'' vs] _ [Hle Ht'']. cbn in *.
    split; [lia|]. by replace (n + (S (length rest) - length vs))%nat with (S n + (length rest - length vs))%nat by lia. }
  apply ensures_bind. intros w1 m _. split; [done|]. destruct m as [[m|]|e]; cbn [ensures].
  - apply ensures_bind. eapply (ensures_mono may _ _ (fun _ _ => True)); [|apply ensures_True].
    intros [[]|[step e]] w' _; [|by apply Hrest, tally_failed]. apply ensures_bind.
    eapply ensures_mono; [|by apply (IH n)]. intros [st'' vs] w'' [Hle Ht'']. cbn in *. split; [lia|done].
  - intros w' r _. split; [done|]. by apply Hrest, tally_gone.
  - by apply Hrest, tally_failed.
Qed.

Lemma local_chunk_tally l0 o0 acct folder loc p now chunk n st w :
  tally l0 o0 n st ->
  ensures may (fun _ => True) (local_chunk acct folder loc p now chunk st)
    (fun st' _ => tally l0 o0 (n + length chunk) st') w.
Proof.
  intros Ht. unfold local_chunk. apply ensures_bind. eapply ensures_mono; [|by apply copy_chunk_tally].
  intros [st' vs] w' [Hle Ht']. cbn in Hle, Ht'.
  replace (n + length chunk)%nat with (n + (length chunk - length vs) + length vs)%nat by lia.
  destruct vs as [|v vs]; cbn [is_nil]; [by rewrite Nat.add_0_r|].
  destruct (keep_server_copy p).
  { intros w1 r _. split; [done|]. rewrite length_fmap. by apply tally_kept. }
  intros w1 r _. split; [done|]. destruct r as [[]|e].
  - intros w2 r2 _. split; [done|]. intros w3 r3 _. split; [done|]. rewrite length_fmap. by apply tally_moved.
  - by apply tally_all_failed.
Qed.

(** What [execute] says of each folder of its plan. *)
Definition outcome_of (f : PlannedFolder) (o : FolderOutcome) : Prop :=
  o_folder o = p_folder f /\ o_selected o = length (p_selected f) /\
  (o_moved o + o_kept o + o_failed o <= o_selected o)%nat.

Record accounted (fs : list PlannedFolder) (l : RunLog) : Prop := {
  ac_sum : (l_moved l + l_kept l + l_failed l + l_gone l)%nat = list_sum (length ∘ p_selected <$> fs);
  ac_listed : length (l_failures l) = Nat.min MAX_LISTED_FAILURES (l_failed l);
  ac_folders : Forall2 outcome_of fs (l_folders l);
  ac_moved : l_moved l = list_sum (o_moved <$> l_folders l);
  ac_kept : l_kept l = list_sum (o_kept <$> l_folders l);
  ac_failed : l_failed l = list_sum (o_failed <$> l_folders l)
}.

Lemma chunks_from_concat {A} n : (0 < n)%nat -> forall fuel (l : list A),
  (length l <= fuel)%nat -> concat (chunks_from fuel n l) = l.
Proof.
  intros Hn. induction fuel as [|f IH]; intros [|a l] Hl; cbn [length] in Hl; try done; [lia|].
  cbn [chunks_from concat]. rewrite IH; [by rewrite take_drop|]. rewrite length_drop. cbn [length]. lia.
Qed.

Lemma execute_folder_accounted fs acct dest p now f l w :
  accounted fs l ->
  ensures may (fun _ => True) (execute_folder acct dest p now f l)
    (fun l' _ => accounted (fs ++ [f]) l') w.
Proof.
  intros [Hsum Hlist Hfs Hmv Hk Hf]. unfold execute_folder. apply ensures_bind.
  set (o := {| o_folder := p_folder f; o_selected := length (p_selected f); o_moved := 0; o_kept := 0; o_failed := 0 |}).
  eapply (ensures_for_each may _ _ _ (fun done st _ => tally l o (length (concat done)) st) _ []).
  - split; [|done]. split; cbn -[MAX_LISTED_FAILURES Nat.min]; lia || done.
  - intros d ch st w1 Ht Hch. rewrite concat_app. cbn [concat]. rewrite app_nil_r, length_app.
    destruct dest; [by apply move_chunk_tally|by apply local_chunk_tally].
  - intros [l' o'] w1 [[H1 H2 H3 H4 H5 H6 H7] [H8 H9]]. cbn [app] in H5, H6.
    unfold chunks in H5, H6. rewrite chunks_from_concat in H5, H6 by (unfold CHUNK; lia).
    cbn [fst snd] in *. cbn [ensures end_folder]. split; cbn.
    + rewrite fmap_app, list_sum_app. cbn. lia.
    + done.
    + rewrite H4. apply Forall2_app; [done|]. constructor; [|done]. split; [done|]. split; [done|]. rewrite H9. cbn. lia.
    + rewrite H4, fmap_app, list_sum_app. cbn. lia.
    + rewrite H4, fmap_app, list_sum_app. cbn. lia.
    + rewrite H4, fmap_app, list_sum_app. cbn. lia.
Qed.

(** A run accounts for every message its plan selected: what it moved,
    kept, failed on and found gone add up to the selection, in whole and
    folder by folder in the plan's order, and the failures listed are those
    of the first [MAX_LISTED_FAILURES]. *)
Theorem every_message_is_accounted_for p pl now w w' l :
  runs may (execute p pl now) w w' (Some l) -> accounted (plan_folders pl) l.
Proof.
  apply (ensures_end may (fun _ => True) _ (fun l _ => accounted (plan_folders pl) l)).
  unfold execute. eapply (ensures_for_each may _ _ _ (fun done l _ => accounted done l) _ []).
  - by split.
  - intros d f l0 w1 Ha _. by apply execute_folder_accounted.
  - done.
Qed.
End Counting.
End WithParameters.

(** ** An environment *)

Module Demo.
Import ArchivePolicy.Demo.

(** A message's Message-ID: its first line. *)
Fixpoint first_line (b : text) : text :=
  match b with [] => [] | c :: b' => if c =? 10 then [] else c :: first_line b' end.

(** As the candidates read it, it ends with its [>]. *)
Fixpoint up_to_close (b : text) : text :=
  match b with [] => [] | c :: b' => if c =? 62 then [c] else c :: up_to_close b' end.
Definition candidate_id (b : text) : text := up_to_close (first_line b).

(** The message 1 has a Message-ID, the message 2 has none, the message 3 is
    younger than the cutoff; in the message 4 a comment follows the id. *)
Definition headers (folder : text) (u : Z) : Candidate :=
  {| uid := u; date := if u =? 3 then 900 else 100 + u; seen := true; starred := false;
     message_id := if u =? 1 then lit "<one@x>" else if u =? 4 then lit "<four@x>" else []; subject := [] |}.

Definition line_feed : text := [10].
Definition message_1 : text := lit "<one@x>" ++ line_feed ++ lit "first".
Definition message_2 : text := line_feed ++ lit "second".
Definition message_3 : text := line_feed ++ lit "third".
Definition message_4 : text := lit "<four@x> (a comment)" ++ line_feed ++ lit "fourth".

Definition in_folder (m : gmap (text * Z) text) (folder : text) : list (Z * text) :=
  (fun kb => (kb.1.2, kb.2)) <$> base.filter (fun kb => bool_decide (kb.1.1 = folder) = true) (map_to_list m).

Definition fresh_uid (m : gmap (text * Z) text) : Z := 1 + foldr Z.max 0 ((fun kb => kb.1.2) <$> map_to_list m).

Definition handle (X : Type) (e : Ev X) : World -> World * X :=
  match e in Ev X return World -> World * X with
  | WithDb f => fun w => (set_db (f (db w)).1 w, Ok (f (db w)).2)
  | Candidates folder _ => fun w =>
      (w, Ok (headers folder <$>
         ((fst : Z * text -> Z) <$>
            base.filter (fun ub => message_id (headers folder ub.1) = candidate_id ub.2) (in_folder (server w) folder))))
  | ArchiveFolder => fun w => (w, Ok (Some (lit "Archive")))
  | Fetch folder u => fun w =>
      (w, Ok ((fun b => {| raw := b; m_seen := true; m_starred := false |}) <$> server w !! (folder, u)))
  | MoveTo _ _ _ => fun w => (w, Err (lit "no"))
  | Delete folder uids => fun w => (set_server (foldr (fun u s => delete (folder, u) s) (server w) uids) w, Ok tt)
  | StoreLocal folder m => fun w =>
      (set_local (<[(folder, fresh_uid (local w)) := raw m]> (local w)) w, Ok (fresh_uid (local w)))
  | ReadLocal folder u => fun w => (w, Ok (local w !! (folder, u)))
  | FindLocal folder mid => fun w =>
      (w, Ok (if is_nil (trim mid) then []
              else (fst : Z * text -> Z) <$>
                base.filter (fun ub => to_ascii_lowercase (first_line ub.2) = to_ascii_lowercase mid)
                  (in_folder (local w) folder)))
  | RemoveLocal folder u => fun w => (set_local (delete (folder, u) (local w)) w, Ok tt)
  | ForgetCached _ _ => fun w => (w, tt)
  | TryStart => fun w => (set_started true w, negb (started w))
  | Finish => fun w => (set_started false w, tt)
  | Finished => fun w => (w, 1000)
  end.

Lemma in_folder_elem m folder u b : (u, b) ∈ in_folder m folder <-> m !! (folder, u) = Some b.
Proof.
  unfold in_folder. rewrite list_elem_of_fmap. setoid_rewrite list_elem_of_filter.
  setoid_rewrite bool_decide_eq_true. split.
  - intros ([[f v] c] & [= -> ->] & Hf & Hin). cbn in Hf. subst f. by apply elem_of_map_to_list.
  - intros Hm. exists ((folder, u), b). split; [done|]. split; [done|]. by apply elem_of_map_to_list.
Qed.

Lemma fresh_uid_none m folder : m !! (folder, fresh_uid m) = None.
Proof.
  destruct (m !! (folder, fresh_uid m)) as [b|] eqn:E; [|done].
  apply elem_of_map_to_list, (list_elem_of_fmap_2 (fun kb => kb.1.2)) in E. cbn in E. unfold fresh_uid in E.
  assert (forall l x, x ∈ l -> x <= foldr Z.max 0 l) as Hmax.
  { intros l x Hx. induction l as [|y l IH]; [by apply not_elem_of_nil in Hx|].
    cbn. apply elem_of_cons in Hx as [->|Hx]; [lia|]. specialize (IH Hx). lia. }
  specialize (Hmax _ _ E). lia.
Qed.

Lemma delete_all_lookup (folder : text) (us : list Z) : forall (s : gmap (text * Z) text) k b,
  s !! k = Some b ->
  foldr (fun u s => delete (folder, u) s) s us !! k = Some b \/ (k.1 = folder /\ k.2 ∈ us).
Proof.
  induction us as [|u us IH]; intros s k b Hk; cbn; [by left|].
  destruct (decide ((folder, u) = k)) as [<-|Hne]; [right; split; [done|by left]|].
  rewrite lookup_delete_ne by done. destruct (IH s k b Hk) as [?|[? ?]]; [by left|right; split; [done|by right]].
Qed.

Lemma delete_all_sub (folder : text) (us : list Z) (s : gmap (text * Z) text) :
  foldr (fun u s => delete (folder, u) s) s us ⊆ s.
Proof. induction us as [|u us IH]; cbn; [done|]. etrans; [apply delete_subseteq|done]. Qed.

Lemma archive_does X (e : Ev X) w : does candidate_id first_line headers X e w (handle X e w).1 (handle X e w).2.
Proof.
  destruct e; cbn; try done.
  - by left.
  - split; [done|]. intros l [= <-] c (u & -> & Hu)%list_elem_of_fmap. split; [done|].
    apply list_elem_of_fmap in Hu as ([u' b'] & -> & [Hid Hin]%list_elem_of_filter). cbn in *.
    apply in_folder_elem in Hin. rewrite Hin. by intros b [= <-].
  - split; [done|]. intros m. by destruct (server w !! (folder, u)); intros [= <-].
  - exists (server w). split; [by destruct w|]. by left.
  - eexists. split; [done|]. split; [apply delete_all_sub|]. apply delete_all_lookup.
  - split; [apply fresh_uid_none|]. exists (raw m). split; [done|by left].
  - split; [done|]. by intros b [= <-].
  - split; [done|]. intros l [= <-] Hmid u b Hb Hid. destruct (trim mid); [done|]. cbn.
    apply list_elem_of_fmap. exists (u, b). split; [done|]. apply list_elem_of_filter. split; [done|].
    by apply in_folder_elem.
  - by left.
Qed.

Definition before : World :=
  {| server := {[ (lit "INBOX", 1) := message_1; (lit "INBOX", 2) := message_2; (lit "INBOX", 3) := message_3 ]};
     local := ∅; db := tables; started := false |}.

Definition one_run : prog Ev (result text RunLog) :=
  run of_json log_json print_of hash me (lit "me@x") (lit "scheduled") (fun _ => [(lit "INBOX", 500)]) 1000.

Definition after : World := (exec handle one_run before).1.

Definition planned : Plan :=
  match (exec handle (plan print_of hash me (lit "me@x") demo_policy [(lit "INBOX", 500)]) before).2 with
  | Ok pl => pl
  | Err _ => {| plan_account := []; plan_destination := Server; plan_target := []; plan_folders := [];
                plan_total := 0; plan_fingerprint := [] |}
  end.

(** A process that ends and starts again. *)
Definition restarted (w : World) : World := set_started false w.

End Demo.

Import ArchivePolicy.Demo Demo.

Lemma archiving_never_loses_witness :
  (forall k b, server before !! k = Some b ->
     (exists k', server after !! k' = Some b) \/ (exists k', local after !! k' = Some b)) /\
  local before ⊆ local after /\ (one_copy candidate_id first_line (local before) -> one_copy candidate_id first_line (local after)).
Proof.
  apply (archiving_never_loses of_json log_json print_of hash candidate_id first_line headers me (lit "me@x")
           (lit "scheduled") (fun _ => [(lit "INBOX", 500)]) 1000 before after (Some (exec handle one_run before).2)).
  exact (exec_runs handle (does candidate_id first_line headers) archive_does one_run before).
Defined.

Lemma only_what_the_policy_takes_witness :
  is_confirmed print_of hash me (load of_json (db before) me) = true /\
  exists cut, (lit "INBOX", cut) ∈ [(lit "INBOX", 500)] /\
    0 < date (headers (lit "INBOX") 1) < cut /\
    (starred (headers (lit "INBOX") 1) = true -> include_starred demo_policy = true) /\
    (seen (headers (lit "INBOX") 1) = false -> include_unread demo_policy = true).
Proof.
  apply (only_what_the_policy_takes of_json log_json print_of hash candidate_id first_line headers me (lit "me@x")
           (lit "scheduled") (fun _ => [(lit "INBOX", 500)]) 1000 before after (Some (exec handle one_run before).2)
           (lit "INBOX") 1 message_1).
  - exact (exec_runs handle (does candidate_id first_line headers) archive_does one_run before).
  - reflexivity.
  - vm_compute. discriminate.
Defined.

Lemma every_message_is_accounted_for_witness :
  length (p_selected <$> plan_folders planned) = 1%nat /\
  accounted (plan_folders planned) (exec handle (execute demo_policy planned 1000) before).2.
Proof.
  split; [vm_compute; reflexivity|].
  apply (every_message_is_accounted_for (does candidate_id first_line headers) demo_policy planned 1000 before
           (exec handle (execute demo_policy planned 1000) before).1).
  exact (exec_runs handle (does candidate_id first_line headers) archive_does (execute demo_policy planned 1000) before).
Defined.

(** A run that is stopped right after a message without a Message-ID was
    copied, before that is written down, leaves a copy the next run does not
    recognise: it copies the message again, and the archive keeps both. *)
Theorem a_stop_can_leave_a_second_copy :
  exists n, let stopped := exec_until handle n one_run before in
  runs (does candidate_id first_line headers) one_run before stopped None /\
  exists last, runs (does candidate_id first_line headers) one_run (restarted stopped) last
                 (Some (exec handle one_run (restarted stopped)).2) /\
    exists u v, u <> v /\ local last !! (lit "Archived/me@x/INBOX", u) = Some message_2 /\
                local last !! (lit "Archived/me@x/INBOX", v) = Some message_2.
Proof.
  exists 15%nat. split; [by apply exec_until_runs, archive_does|].
  exists (exec handle one_run (restarted (exec_until handle 15 one_run before))).1.
  split; [by apply exec_runs, archive_does|]. exists 2, 3. split; [done|]. split; vm_compute; reflexivity.
Qed.

(** So does a run stopped there after a message with a comment behind its
    Message-ID: the archive keeps the id with the comment and does not find
    it. *)
Definition before_comment : World :=
  {| server := {[ (lit "INBOX", 4) := message_4 ]}; local := ∅; db := tables; started := false |}.

Lemma a_comment_can_bring_a_second_copy :
  exists n, let stopped := exec_until handle n one_run before_comment in
  runs (does candidate_id first_line headers) one_run before_comment stopped None /\
  exists last, runs (does candidate_id first_line headers) one_run (restarted stopped) last
                 (Some (exec handle one_run (restarted stopped)).2) /\
    exists u v, u <> v /\ local last !! (lit "Archived/me@x/INBOX", u) = Some message_4 /\
                local last !! (lit "Archived/me@x/INBOX", v) = Some message_4.
Proof.
  exists 8%nat. split; [by apply exec_until_runs, archive_does|].
  exists (exec handle one_run (restarted (exec_until handle 8 one_run before_comment))).1.
  split; [by apply exec_runs, archive_does|]. exists 1, 2. split; [done|]. split; vm_compute; reflexivity.
Qed.
End AutoArchive.
