(* ===== verification/Calendar.v ===== *)
(** * Dates and wall clocks

    What the engine relies on of the [chrono] crate: a [NaiveDate] is a day
    of the proleptic Gregorian calendar, here its number, so that the order
    of dates is the order of numbers and [Duration::days] is added to them.
    The class [Calendar] says what is documented of the conversions to year,
    month and day; [gregorian] is a calendar, for evaluations and to show that
    the class asks for nothing impossible.

    The lemmas about months that the recurrence rules need are proved for
    every [Calendar]. *)
From S2P Require Import Prelude.
#[local] Open Scope Z_scope.

Class Calendar := {
  min_year : Z;
  max_year : Z;
  first_date : Z;
  last_date : Z;
  year : Z -> Z;
  month : Z -> Z;
  day : Z -> Z;
  (** [weekday().num_days_from_monday()] *)
  weekday : Z -> Z;
  (** [NaiveDate::from_ymd_opt] *)
  from_ymd_opt : Z -> Z -> Z -> option Z;
  (** [NaiveDate::from_weekday_of_month_opt] *)
  from_weekday_of_month_opt : Z -> Z -> Z -> Z -> option Z
}.

Definition in_range `{Calendar} (t : Z) : Prop := first_date <= t <= last_date.

#[export] Instance in_range_dec `{Calendar} t : Decision (in_range t).
Proof. unfold in_range. apply _. Defined.

Class CalendarLaws `(C : Calendar) := {
  years_wide : - 2 ^ 31 <= min_year - 1 /\ min_year <= max_year /\ max_year + 1 < 2 ^ 31;
  from_ymd_spec : forall y m d t,
    from_ymd_opt y m d = Some t <-> in_range t /\ year t = y /\ month t = m /\ day t = d;
  year_bounds : forall t, in_range t -> min_year <= year t <= max_year;
  month_bounds : forall t, in_range t -> 1 <= month t <= 12;
  day_bounds : forall t, in_range t -> 1 <= day t <= 31;
  (** A month has 28 days at least. *)
  month_exists : forall y m d, min_year <= y <= max_year -> 1 <= m <= 12 -> 1 <= d <= 28 ->
    is_Some (from_ymd_opt y m d);
  (** The day after is the next of the month, or the first of the next month. *)
  day_after : forall t, in_range t -> in_range (t + 1) ->
    (year (t + 1) = year t /\ month (t + 1) = month t /\ day (t + 1) = day t + 1) \/
    (12 * year (t + 1) + month (t + 1) = 12 * year t + month t + 1 /\ day (t + 1) = 1 /\ 28 <= day t);
  weekday_bounds : forall t, 0 <= weekday t < 7;
  weekday_after : forall t, weekday (t + 1) = (weekday t + 1) mod 7;
  from_weekday_spec : forall y m w n t, 0 <= w < 7 ->
    from_weekday_of_month_opt y m w n = Some t <->
    in_range t /\ year t = y /\ month t = m /\ weekday t = w /\ 1 <= n /\ (day t - 1) / 7 + 1 = n
}.

(** ** Weekdays and months *)

Section Months.
Context `{CalendarLaws}.

Lemma weekday_add t n : weekday (t + n) = (weekday t + n) mod 7.
Proof.
  assert (forall k, 0 <= k -> forall t, weekday (t + k) = (weekday t + k) mod 7) as Hpos.
  { apply (natlike_ind (fun k => forall t, weekday (t + k) = (weekday t + k) mod 7)).
    - intros u. rewrite !Z.add_0_r. pose proof (weekday_bounds u). by rewrite Z.mod_small.
    - intros k Hk IH u. replace (u + Z.succ k) with (u + k + 1) by lia. rewrite weekday_after, IH.
      rewrite Zplus_mod_idemp_l. f_equal. lia. }
  destruct (Z.le_gt_cases 0 n) as [Hn|Hn]; [by apply Hpos|].
  assert (weekday t = (weekday (t + n) + - n) mod 7) as Ht.
  { rewrite <- Hpos by lia. f_equal. lia. }
  pose proof (weekday_bounds (t + n)). rewrite Ht, Zplus_mod_idemp_l.
  replace (weekday (t + n) + - n + n) with (weekday (t + n)) by lia. by rewrite Z.mod_small.
Qed.

(** Days of the same weekday are whole weeks apart. *)
Lemma weekday_eq t u : weekday t = weekday u <-> (t - u) mod 7 = 0.
Proof.
  replace t with (u + (t - u)) at 1 by lia. rewrite weekday_add. pose proof (weekday_bounds u).
  generalize dependent (t - u). intros n. pose proof (Z.mod_pos_bound n 7 ltac:(lia)).
  rewrite (Z.add_mod (weekday u) n 7) by lia. rewrite (Z.mod_small (weekday u)) by lia. split; intros Hw.
  - destruct (Z.lt_ge_cases (weekday u + n mod 7) 7); [rewrite Z.mod_small in Hw by lia; lia|].
    rewrite <- (Z.mod_add _ (-1) 7), Z.mod_small in Hw by lia. lia.
  - rewrite Hw, Z.add_0_r. by apply Z.mod_small.
Qed.

(** The number of a month, counted over the years. *)
Definition month_index (t : Z) : Z := 12 * year t + month t - 1.

Lemma month_index_eq t u :
  in_range t -> in_range u -> month_index t = month_index u -> year t = year u /\ month t = month u.
Proof.
  unfold month_index. intros Ht Hu. pose proof (month_bounds t Ht). pose proof (month_bounds u Hu). lia.
Qed.

Lemma from_ymd_unique t u :
  in_range t -> in_range u -> year t = year u -> month t = month u -> day t = day u -> t = u.
Proof.
  intros Ht Hu Hy Hm Hd.
  pose proof (proj2 (from_ymd_spec (year u) (month u) (day u) t) (conj Ht (conj Hy (conj Hm Hd)))) as H1.
  pose proof (proj2 (from_ymd_spec (year u) (month u) (day u) u) (conj Hu (conj eq_refl (conj eq_refl eq_refl)))) as H2.
  congruence.
Qed.

(** Going forward the months do not go back, and inside a month the day
    counts on. *)
Lemma month_forward n : 0 <= n -> forall t, in_range t -> in_range (t + n) ->
  month_index t <= month_index (t + n) /\
  (month_index (t + n) = month_index t -> day (t + n) = day t + n).
Proof.
  revert n. apply (natlike_ind (fun n => forall t, in_range t -> in_range (t + n) ->
    month_index t <= month_index (t + n) /\
    (month_index (t + n) = month_index t -> day (t + n) = day t + n))).
  - intros t _ _. rewrite !Z.add_0_r. lia.
  - intros n Hn IH t Ht Htn. assert (in_range (t + n)) as Hmid by (unfold in_range in *; lia).
    destruct (IH t Ht Hmid) as [Hle Heq]. replace (t + Z.succ n) with (t + n + 1) in * by lia.
    unfold month_index in *. destruct (day_after (t + n) Hmid Htn) as [(Hy & Hm & Hd)|(Hi & Hd & _)].
    + rewrite Hy, Hm, Hd. split; [lia|]. intros He. rewrite Heq by lia. lia.
    + split; [lia|]. intros He. lia.
Qed.

Lemma month_monotone t u : in_range t -> in_range u -> t <= u -> month_index t <= month_index u.
Proof.
  intros Ht Hu Hle. replace u with (t + (u - t)) by lia. apply month_forward; [lia|done|].
  by replace (t + (u - t)) with u by lia.
Qed.

(** Two days of the same month. *)
Lemma same_month t u : in_range t -> in_range u -> month_index t = month_index u -> u - t = day u - day t.
Proof.
  intros Ht Hu Hi. destruct (Z.le_gt_cases t u) as [Hle|Hgt].
  - destruct (month_forward (u - t) ltac:(lia) t Ht) as [_ Hd]; [by replace (t + (u - t)) with u by lia|].
    replace (t + (u - t)) with u in Hd by lia. specialize (Hd (eq_sym Hi)). lia.
  - destruct (month_forward (t - u) ltac:(lia) u Hu) as [_ Hd]; [by replace (u + (t - u)) with t by lia|].
    replace (u + (t - u)) with t in Hd by lia. specialize (Hd Hi). lia.
Qed.

(** The days of a month are those from its first on to any of its days. *)
Lemma day_of_month t d : in_range t -> 1 <= d <= day t ->
  from_ymd_opt (year t) (month t) d = Some (t - (day t - d)).
Proof.
  intros Ht Hd. pose proof (year_bounds t Ht) as Hy. pose proof (month_bounds t Ht) as Hm.
  destruct (month_exists (year t) (month t) 1 Hy Hm ltac:(lia)) as [f Hf].
  pose proof Hf as (Hfr & Hfy & Hfm & Hfd)%from_ymd_spec.
  assert (t - f = day t - 1) as Hdiff.
  { rewrite <- Hfd. apply same_month; [done|done|]. unfold month_index. congruence. }
  set (u := t - (day t - d)). assert (in_range u) as Hu by (unfold in_range, u in *; lia).
  assert (month_index f <= month_index u) by (apply month_monotone; [done|done|unfold u; lia]).
  assert (month_index u <= month_index t) by (apply month_monotone; [done|done|unfold u; lia]).
  assert (month_index f = month_index t) by (unfold month_index; congruence).
  destruct (month_index_eq u t Hu Ht ltac:(lia)) as [Huy Hum].
  apply from_ymd_spec. split; [done|]. split; [done|]. split; [done|].
  pose proof (same_month u t Hu Ht ltac:(lia)) as Hd'. unfold u in *. lia.
Qed.
End Months.

(** ** The Gregorian calendar

    Days are counted from the first of March of the year 0, and years from
    March on, so that a leap day is the last of its year. *)
Module Gregorian.

(** The days before the year [y] from March on: a leap day every fourth
    year, but not every hundredth, but every four hundredth. *)
Definition year_start (y : Z) : Z := 365 * y + y / 4 - y / 4 / 25 + y / 4 / 25 / 4.

Definition year_from_march (t : Z) : Z :=
  let e := 400 * t / 146097 in
  if year_start (e + 1) <=? t then e + 1 else if year_start e <=? t then e else e - 1.

(** The days before the month [k] from March on. *)
Definition month_start (k : Z) : Z := (153 * k + 2) / 5.

Definition month_from_march (t : Z) : Z := (5 * (t - year_start (year_from_march t)) + 2) / 153.

Definition g_day (t : Z) : Z :=
  t - year_start (year_from_march t) - month_start (month_from_march t) + 1.
Definition g_month (t : Z) : Z :=
  if month_from_march t <? 10 then month_from_march t + 3 else month_from_march t - 9.
Definition g_year (t : Z) : Z :=
  if month_from_march t <? 10 then year_from_march t else year_from_march t + 1.

Definition days_of (y m d : Z) : Z :=
  year_start (if m <=? 2 then y - 1 else y) + month_start (if m <=? 2 then m + 9 else m - 3) + d - 1.

Definition g_min_year : Z := -262143.
Definition g_max_year : Z := 262142.

Definition g_in_range (t : Z) : bool :=
  (days_of g_min_year 1 1 <=? t) && (t <=? days_of g_max_year 12 31).

Definition g_from_ymd (y m d : Z) : option Z :=
  let t := days_of y m d in
  if g_in_range t && (g_year t =? y) && (g_month t =? m) && (g_day t =? d) then Some t else None.

Definition g_weekday (t : Z) : Z := (t + 2) mod 7.

Definition g_from_weekday (y m w n : Z) : option Z :=
  f ← g_from_ymd y m 1;
  if 1 <=? n then g_from_ymd y m (7 * (n - 1) + (w - g_weekday f) mod 7 + 1) else None.

Ltac divs := unfold month_start, year_start in *; Z.to_euclidean_division_equations; lia.

Lemma div_step n k : 0 < k -> (n + 1) / k = n / k \/ (n + 1) / k = n / k + 1.
Proof. intros Hk. Z.to_euclidean_division_equations. nia. Qed.

Lemma year_length y :
  year_start (y + 1) = year_start y + 365 \/ year_start (y + 1) = year_start y + 366.
Proof.
  unfold year_start. destruct (div_step y 4 ltac:(lia)) as [->| ->]; [lia|].
  destruct (div_step (y / 4) 25 ltac:(lia)) as [->| ->]; [lia|].
  destruct (div_step (y / 4 / 25) 4 ltac:(lia)) as [->| ->]; lia.
Qed.

Lemma year_start_mono y z : y <= z -> year_start y <= year_start z.
Proof.
  intros Hyz. replace z with (y + (z - y)) by lia.
  generalize (z - y), (Z.le_0_sub y z). intros n Hn. assert (0 <= n) as H0 by (by apply Hn). clear Hn Hyz z.
  revert n H0. apply (natlike_ind (fun n => year_start y <= year_start (y + n))); [by rewrite Z.add_0_r|].
  intros n Hn IH. replace (y + Z.succ n) with (y + n + 1) by lia. destruct (year_length (y + n)); lia.
Qed.

Lemma year_from_march_spec t : year_start (year_from_march t) <= t < year_start (year_from_march t + 1).
Proof.
  unfold year_from_march. set (e := 400 * t / 146097).
  assert (146097 * e <= 400 * t < 146097 * (e + 1)) as He by (unfold e; divs). clearbody e.
  destruct (Z.leb_spec (year_start (e + 1)) t); [split; [done|divs]|].
  destruct (Z.leb_spec (year_start e) t); [by split|].
  replace (e - 1 + 1) with e by lia. split; [divs|done].
Qed.

Lemma year_from_march_eq y t : year_start y <= t < year_start (y + 1) -> year_from_march t = y.
Proof.
  intros Hy. pose proof (year_from_march_spec t) as Ht.
  destruct (Z.lt_trichotomy (year_from_march t) y) as [Hlt|[He|Hgt]]; [|done|].
  - pose proof (year_start_mono (year_from_march t + 1) y ltac:(lia)). lia.
  - pose proof (year_start_mono (y + 1) (year_from_march t) ltac:(lia)). lia.
Qed.

Lemma month_from_march_spec t :
  0 <= month_from_march t <= 11 /\
  month_start (month_from_march t) <= t - year_start (year_from_march t) < month_start (month_from_march t + 1) /\
  t - year_start (year_from_march t) < 366.
Proof.
  pose proof (year_from_march_spec t). pose proof (year_length (year_from_march t)).
  unfold month_from_march. assert (0 <= t - year_start (year_from_march t) < 366) as Hz by lia.
  revert Hz. generalize (t - year_start (year_from_march t)). intros z Hz. unfold month_start. divs.
Qed.

(** A day is where its year from March, its month from March and its place
    in the month put it. *)
Lemma split_day t :
  t = year_start (year_from_march t) + month_start (month_from_march t) + g_day t - 1.
Proof. unfold g_day. lia. Qed.

Lemma split_unique y k d t :
  0 <= k <= 11 -> 1 <= d -> t = year_start y + month_start k + d - 1 ->
  month_start k + d - 1 < month_start (k + 1) -> t < year_start (y + 1) ->
  year_from_march t = y /\ month_from_march t = k /\ g_day t = d.
Proof.
  intros Hk Hd Ht Hlt Hy. assert (0 <= month_start k) by (unfold month_start; divs).
  assert (year_from_march t = y) as He by (apply year_from_march_eq; lia).
  assert (month_from_march t = k) as Hm.
  { unfold month_from_march. rewrite He. replace (t - year_start y) with (month_start k + d - 1) by lia.
    unfold month_start in *. divs. }
  split; [done|]. split; [done|]. unfold g_day. rewrite He, Hm. lia.
Qed.

Lemma days_of_split t : days_of (g_year t) (g_month t) (g_day t) = t.
Proof.
  destruct (month_from_march_spec t) as (Hk & _ & _). unfold days_of, g_year, g_month.
  pose proof (split_day t) as Hs. destruct (Z.ltb_spec (month_from_march t) 10).
  - destruct (Z.leb_spec (month_from_march t + 3) 2); [lia|].
    replace (month_from_march t + 3 - 3) with (month_from_march t) by lia. lia.
  - destruct (Z.leb_spec (month_from_march t - 9) 2); [|lia].
    replace (month_from_march t - 9 + 9) with (month_from_march t) by lia.
    by replace (year_from_march t + 1 - 1) with (year_from_march t) by lia.
Qed.

Lemma g_from_ymd_spec y m d t :
  g_from_ymd y m d = Some t <-> g_in_range t = true /\ g_year t = y /\ g_month t = m /\ g_day t = d.
Proof.
  unfold g_from_ymd. split.
  - destruct (_ && _) eqn:E; [|done]. intros [= <-].
    bools in E. tauto.
  - intros (Hr & <- & <- & <-). by rewrite days_of_split, Hr, !Z.eqb_refl.
Qed.

Lemma month_len k : 0 <= k <= 10 -> 30 <= month_start (k + 1) - month_start k <= 31.
Proof. intros Hk. unfold month_start. divs. Qed.

Lemma g_month_bounds t : 1 <= g_month t <= 12.
Proof.
  destruct (month_from_march_spec t) as (Hk & _ & _). unfold g_month.
  destruct (Z.ltb_spec (month_from_march t) 10); lia.
Qed.

Lemma g_day_bounds t : 1 <= g_day t <= 31.
Proof.
  destruct (month_from_march_spec t) as (Hk & Hm & Hl). unfold g_day. split; [lia|].
  destruct (Z.le_gt_cases (month_from_march t) 10); [pose proof (month_len (month_from_march t)); lia|].
  assert (month_from_march t = 11) as He by lia. rewrite He in *. change (month_start 11) with 337 in *. lia.
Qed.

Lemma g_day_after t :
  (g_year (t + 1) = g_year t /\ g_month (t + 1) = g_month t /\ g_day (t + 1) = g_day t + 1) \/
  (12 * g_year (t + 1) + g_month (t + 1) = 12 * g_year t + g_month t + 1 /\
   g_day (t + 1) = 1 /\ 28 <= g_day t).
Proof.
  destruct (month_from_march_spec t) as (Hk & Hm & Hl). pose proof (split_day t) as Hs.
  pose proof (year_from_march_spec t) as Hy. pose proof (year_length (year_from_march t)) as Hlen.
  pose proof (g_day_bounds t) as Hd.
  set (y := year_from_march t) in *. set (k := month_from_march t) in *. set (d := g_day t) in *.
  destruct (Z.eq_dec (t + 1) (year_start (y + 1))) as [He|Hne].
  - (* the last of February *)
    assert (k = 11) as Hk11.
    { assert (364 <= t - year_start y) as Hz by lia. unfold k, month_from_march. fold y. divs. }
    assert (337 = month_start 11) as Hms by done. rewrite Hk11, <- Hms in Hs.
    destruct (split_unique (y + 1) 0 1 (t + 1)) as (Hy1 & Hk1 & Hd1); [lia|lia| | | |].
    { change (month_start 0) with 0. lia. }
    { by vm_compute. }
    { destruct (year_length (y + 1)); lia. }
    right. unfold g_year, g_month. rewrite Hy1, Hk1, Hd1. fold y k d. rewrite Hk11. cbn. lia.
  - destruct (Z.eq_dec (month_start k + d) (month_start (k + 1))) as [Hend|Hin].
    + (* the last of another month *)
      assert (k <= 10) as Hk10.
      { destruct (Z.le_gt_cases k 10) as [|Hgt]; [done|]. assert (k = 11) as Hk11 by lia.
        rewrite Hk11 in Hend, Hs. change (month_start 11) with 337 in Hend, Hs.
        change (month_start (11 + 1)) with 367 in Hend. lia. }
      pose proof (month_len k ltac:(lia)).
      destruct (split_unique y (k + 1) 1 (t + 1)) as (Hy1 & Hk1 & Hd1); [lia|lia|lia| |lia|].
      { replace (k + 1 + 1) with (k + 2) by lia. unfold month_start. divs. }
      right. unfold g_year, g_month. rewrite Hy1, Hk1, Hd1. fold y k d.
      destruct (Z.ltb_spec (k + 1) 10), (Z.ltb_spec k 10); lia.
    + destruct (split_unique y k (d + 1) (t + 1)) as (Hy1 & Hk1 & Hd1); [lia|lia|lia| |lia|].
      { lia. }
      left. unfold g_year, g_month. rewrite Hy1, Hk1, Hd1. done.
Qed.

Lemma g_month_exists y m d : g_min_year <= y <= g_max_year -> 1 <= m <= 12 -> 1 <= d <= 28 ->
  is_Some (g_from_ymd y m d).
Proof.
  intros Hy Hm Hd. exists (days_of y m d). apply g_from_ymd_spec.
  set (y' := if m <=? 2 then y - 1 else y). set (k := if m <=? 2 then m + 9 else m - 3).
  assert (0 <= k <= 11 /\ (m <= 2 <-> 10 <= k)) as [Hk Hmk] by (unfold k; destruct (Z.leb_spec m 2); lia).
  assert (month_start k + d - 1 < month_start (k + 1)) as Hlt.
  { destruct (Z.le_gt_cases k 10); [pose proof (month_len k); lia|].
    assert (k = 11) as -> by lia. change (337 + d - 1 < 367). lia. }
  assert (0 <= month_start k) as Hk0 by (unfold month_start; divs).
  assert (month_start k + d - 1 < 365) as Hyear by (unfold month_start; divs).
  destruct (split_unique y' k d (days_of y m d)) as (H1 & H2 & H3); [done|lia|done|done| |].
  { change (days_of y m d) with (year_start y' + month_start k + d - 1). destruct (year_length y'); lia. }
  split; [|split; [|split; [|done]]].
  - unfold g_in_range. bools.
    change (days_of y m d) with (year_start y' + month_start k + d - 1).
    change (days_of g_min_year 1 1) with (year_start (g_min_year - 1) + 306).
    change (days_of g_max_year 12 31) with (year_start g_max_year + 305).
    destruct (Z.leb_spec m 2).
    + unfold y', k in *. destruct (Z.leb_spec m 2); [|lia].
      pose proof (year_start_mono (g_min_year - 1) (y - 1) ltac:(lia)).
      pose proof (year_start_mono (y - 1 + 1) g_max_year ltac:(lia)).
      pose proof (year_length (y - 1)). split; [|lia]. assert (306 <= month_start (m + 9)); [|lia].
      unfold month_start. divs.
    + unfold y', k in *. destruct (Z.leb_spec m 2); [lia|].
      pose proof (year_start_mono (g_min_year - 1 + 1) y ltac:(lia)).
      pose proof (year_start_mono y g_max_year ltac:(lia)).
      pose proof (year_length (g_min_year - 1)). split; [lia|].
      assert (month_start (m - 3) <= 275) by (unfold month_start; divs). lia.
  - unfold g_year. rewrite H1, H2. unfold y'. destruct (Z.ltb_spec k 10), (Z.leb_spec m 2); lia.
  - unfold g_month. rewrite H2. unfold k. destruct (Z.leb_spec m 2);
      [destruct (Z.ltb_spec (m + 9) 10)|destruct (Z.ltb_spec (m - 3) 10)]; lia.
Qed.

Lemma g_year_bounds t : g_in_range t = true -> g_min_year <= g_year t <= g_max_year.
Proof.
  unfold g_in_range. bools.
  change (days_of g_min_year 1 1) with (year_start (g_min_year - 1) + 306).
  change (days_of g_max_year 12 31) with (year_start g_max_year + 305). intros [Hlo Hhi].
  pose proof (year_from_march_spec t) as Hy. pose proof (month_from_march_spec t) as (Hk & _ & Hl).
  assert (g_min_year - 1 <= year_from_march t) as Hge.
  { destruct (Z.le_gt_cases (g_min_year - 1) (year_from_march t)); [done|].
    pose proof (year_start_mono (year_from_march t + 1) (g_min_year - 1) ltac:(lia)). lia. }
  assert (year_from_march t <= g_max_year) as Hle.
  { destruct (Z.le_gt_cases (year_from_march t) g_max_year); [done|].
    pose proof (year_start_mono (g_max_year + 1) (year_from_march t) ltac:(lia)).
    pose proof (year_length g_max_year). lia. }
  unfold g_year, month_from_march in *. split.
  - destruct (Z.eq_dec (year_from_march t) (g_min_year - 1)) as [He|]; [|destruct (_ <? 10); lia].
    rewrite He in *. destruct (Z.ltb_spec ((5 * (t - year_start (g_min_year - 1)) + 2) / 153) 10) as [Hlt|]; [|lia].
    assert (306 <= t - year_start (g_min_year - 1)) by lia. divs.
  - destruct (Z.eq_dec (year_from_march t) g_max_year) as [He|]; [|destruct (_ <? 10); lia].
    rewrite He in *. destruct (Z.ltb_spec ((5 * (t - year_start g_max_year) + 2) / 153) 10) as [|Hge']; [lia|].
    assert (t - year_start g_max_year <= 305) as Hz by lia. divs.
Qed.

Lemma days_of_next y m d : days_of y m d = days_of y m 1 + (d - 1).
Proof. unfold days_of. lia. Qed.

Lemma week_shift a w x : 0 <= w < 7 -> (a + x) mod 7 = w <-> x mod 7 = (w - a mod 7) mod 7.
Proof. intros Hw. Z.to_euclidean_division_equations. lia. Qed.

Lemma g_from_weekday_spec y m w n t : 0 <= w < 7 ->
  g_from_weekday y m w n = Some t <->
  g_in_range t = true /\ g_year t = y /\ g_month t = m /\ g_weekday t = w /\ 1 <= n /\ (g_day t - 1) / 7 + 1 = n.
Proof.
  intros Hw. unfold g_from_weekday, g_weekday. split.
  - intros (f & (_ & Hfy & Hfm & Hfd)%g_from_ymd_spec & Ht)%bind_Some.
    destruct (Z.leb_spec 1 n) as [Hn|]; [|done]. apply g_from_ymd_spec in Ht as (Hr & Hy & Hm & Hd).
    assert (t = f + (g_day t - 1)) as Htf.
    { rewrite <- (days_of_split t) at 1. rewrite <- (days_of_split f) at 1.
      rewrite Hy, Hm, Hfy, Hfm, Hfd. apply days_of_next. }
    rewrite Hd in *. pose proof (Z.mod_pos_bound (w - (f + 2) mod 7) 7 ltac:(lia)) as Hs.
    split; [done|]. split; [done|]. split; [done|]. split; [|split; [done|divs]].
    replace (t + 2) with (f + 2 + (t - f)) by lia. apply week_shift; [done|].
    replace (t - f) with ((w - (f + 2) mod 7) mod 7 + (n - 1) * 7) by lia.
    rewrite Z.mod_add by lia. by apply Z.mod_small.
  - intros (Hr & Hy & Hm & Hwd & Hn & Hday).
    pose proof (g_year_bounds t Hr). pose proof (g_month_bounds t). pose proof (g_day_bounds t).
    destruct (g_month_exists y m 1) as [f Hf]; [lia|lia|lia|]. rewrite Hf. cbn.
    rewrite (proj2 (Z.leb_le 1 n)) by done. apply g_from_ymd_spec in Hf as (_ & Hfy & Hfm & Hfd).
    assert (t = f + (g_day t - 1)) as Htf.
    { rewrite <- (days_of_split t) at 1. rewrite <- (days_of_split f) at 1.
      rewrite Hy, Hm, Hfy, Hfm, Hfd. apply days_of_next. }
    apply g_from_ymd_spec. split; [done|]. split; [done|]. split; [done|].
    replace (t + 2) with (f + 2 + (g_day t - 1)) in Hwd by lia. apply week_shift in Hwd; [|done].
    rewrite <- Hwd. divs.
Qed.
End Gregorian.

#[export] Instance gregorian : Calendar := {|
  min_year := Gregorian.g_min_year;
  max_year := Gregorian.g_max_year;
  first_date := Gregorian.days_of Gregorian.g_min_year 1 1;
  last_date := Gregorian.days_of Gregorian.g_max_year 12 31;
  year := Gregorian.g_year;
  month := Gregorian.g_month;
  day := Gregorian.g_day;
  weekday := Gregorian.g_weekday;
  from_ymd_opt := Gregorian.g_from_ymd;
  from_weekday_of_month_opt := Gregorian.g_from_weekday
|}.

Lemma g_in_range_iff t : in_range t <-> Gregorian.g_in_range t = true.
Proof. unfold in_range, Gregorian.g_in_range. by bools. Qed.

#[export] Instance gregorian_laws : CalendarLaws gregorian.
Proof.
  split.
  - cbn. unfold Gregorian.g_min_year, Gregorian.g_max_year. lia.
  - intros y m d t. rewrite g_in_range_iff. apply Gregorian.g_from_ymd_spec.
  - intros t Ht%g_in_range_iff. by apply Gregorian.g_year_bounds.
  - intros t _. apply Gregorian.g_month_bounds.
  - intros t _. apply Gregorian.g_day_bounds.
  - apply Gregorian.g_month_exists.
  - intros t _ _. apply Gregorian.g_day_after.
  - intros t. apply Z.mod_pos_bound. lia.
  - intros t. cbn. unfold Gregorian.g_weekday. rewrite Zplus_mod_idemp_l. f_equal. lia.
  - intros y m w n t Hw. rewrite g_in_range_iff. by apply Gregorian.g_from_weekday_spec.
Qed.

(** The 1st of January 1970 was a Thursday, the 29th of February 2024 too. *)
Example epoch_weekday : weekday <$> from_ymd_opt 1970 1 1 = Some 3.
Proof. reflexivity. Qed.

Example leap_weekday : weekday <$> from_ymd_opt 2024 2 29 = Some 3.
Proof. reflexivity. Qed.

Example no_leap_day : from_ymd_opt 1900 2 29 = None.
Proof. reflexivity. Qed.
