(* ===== verification/Recurrence.v ===== *)
(** * Recurrence rules

    Models [meron-core/src/calendar/recurrence.rs] and the [Recurrence] of
    [calendar/mod.rs]: the next date of a repeating task, the rule as it
    stands there, and the RRULE text it is read from and written to.

    The dates are those of a [Calendar]; the time zone and the digits of
    dates and times are [chrono]'s and stand here as classes.  What a rule
    means is [falls_on]; a panic, where the code has one, is a value. *)
From S2P Require Import Prelude Text Table Calendar.
#[local] Open Scope Z_scope.

(** Arithmetic of [i8] as release builds do it. *)
Definition wrap_i8 (n : Z) : Z := (n + 128) mod 256 - 128.

(** The time zone of the machine: the wall clock, in seconds, at an instant,
    and the first instant a wall clock time names there. *)
Class Zone := { local_at : Z -> Z; earliest : Z -> option Z }.

(** Dates and times in digits, [%Y%m%d] and [%Y%m%dT%H%M%S]. *)
Class Stamps := {
  show_date : Z -> text;
  read_date : text -> option Z;
  show_time : Z -> text;
  read_time : text -> option Z
}.

Module Recurrence.

Inductive Frequency := Daily | Weekly | Monthly | Yearly.
#[export] Instance Frequency_eq_dec : EqDecision Frequency.
Proof. solve_decision. Defined.

Record Recurrence := {
  freq : Frequency;
  interval : Z;
  weekdays : list Z;
  until : option Z;
  count : option Z;
  month_week : option Z;
  month_day : option Z
}.

Definition RRULE_DAYS : list text :=
  [lit "MO"; lit "TU"; lit "WE"; lit "TH"; lit "FR"; lit "SA"; lit "SU"].

Inductive failure := Unsupported (what : text) | Panic.

Section Dates.
Context `{Calendar} `{Zone}.

(** *** Months and weekdays *)

Definition pred_opt (t : Z) : option Z := if bool_decide (in_range (t - 1)) then Some (t - 1) else None.

Definition days_in_month (y m : Z) : Z :=
  let (next_year, next_month) := if m =? 12 then (y + 1, 1) else (y, m + 1) in
  unwrap_or 28 (day <$> (from_ymd_opt next_year next_month 1 ≫= pred_opt)).

Definition clamped (y m d : Z) : option Z := from_ymd_opt y m (Z.max (Z.min d (days_in_month y m)) 1).

(** [date + Duration::days(n)] *)
Definition add_days (t n : Z) : result failure Z :=
  if bool_decide (in_range (t + n)) then Ok (t + n) else Err Panic.

Definition nth_weekday (y m w n : Z) : result failure (option Z) :=
  if n <? 0 then
    match from_ymd_opt y m (days_in_month y m) with
    | None => Ok None
    | Some last =>
        let back := (7 + weekday last - w) mod 7 in
        date ← add_days last (- (back + 7 * wrap_i8 (wrap_i8 (- n) - 1)));
        Ok (if month date =? m then Some date else None)
    end
  else Ok (from_weekday_of_month_opt y m w n).

Definition week_of_month (t : Z) : Z := (day t - 1) / 7 + 1.

Definition weekday_of (index : Z) : Z := Z.min index 6.

Definition plus_months (y m months : Z) : option (Z * Z) :=
  let total := y * 12 + m - 1 + months in
  if (- 2 ^ 31 <=? total / 12) && (total / 12 <? 2 ^ 31) then Some (total / 12, total mod 12 + 1) else None.

(** *** The zone *)

Definition epoch : Z := unwrap_or 0 (from_ymd_opt 1970 1 1).

(** [zone.timestamp_opt(t, 0).earliest()?.naive_local()] *)
Definition local_of (t : Z) : option Z :=
  if bool_decide (in_range (t / 86400 + epoch)) then Some (local_at t) else None.

Definition date_of (naive : Z) : Z := naive / 86400.

(** [start_date(instant, false)] *)
Definition start_date (instant : Z) : option Z := date_of <$> local_of instant.

Fixpoint first_existing (naive : Z) (half_hours : list Z) : option Z :=
  match half_hours with
  | [] => None
  | k :: rest =>
      match earliest (naive + 1800 * k) with
      | Some at_ => Some at_
      | None => first_existing naive rest
      end
  end.

Definition resolve (naive : Z) : option Z :=
  match earliest naive with
  | Some at_ => Some at_
  | None => first_existing naive [1; 2; 3; 4]
  end.

(** *** The next date *)

Definition until_date (rule : Recurrence) : option Z := until rule ≫= start_date.

(** [sort_unstable] and [dedup] *)
Fixpoint dedup (l : list Z) : list Z :=
  match l with
  | [] => []
  | x :: rest => match dedup rest with
                 | y :: rest' => if x =? y then y :: rest' else x :: y :: rest'
                 | [] => [x]
                 end
  end.

Definition week_days (rule : Recurrence) (today : Z) : list Z :=
  let days := base.filter (fun d => d < 7) (weekdays rule) in
  dedup (order_by Z.leb (if is_nil days then [today] else days)).

Definition in_month (rule : Recurrence) (current y m : Z) : result failure (option Z) :=
  let w := unwrap_or (weekday current) (weekday_of <$> head (weekdays rule)) in
  let d := unwrap_or (day current) (month_day rule) in
  match month_week rule with
  | Some n => nth_weekday y m w n
  | None => Ok (clamped y m d)
  end.

Fixpoint look_ahead (rule : Recurrence) (current step : Z) (ks : list Z) : result failure (option Z) :=
  match ks with
  | [] => Ok None
  | k :: rest =>
      match plus_months (year current) (month current) (step * k) with
      | None => Ok None
      | Some (y, m) =>
          candidate ← in_month rule current y m;
          if is_some_and (fun date => current <? date) candidate then Ok candidate
          else look_ahead rule current step rest
      end
  end.

Definition next_on_calendar (rule : Recurrence) (current : Z) : result failure (option Z) :=
  let interval := Z.max (interval rule) 1 in
  match freq rule with
  | Daily => Ok (if bool_decide (in_range (current + interval)) then Some (current + interval) else None)
  | Weekly =>
      let today := weekday current in
      let days := week_days rule today in
      match find_by (fun d => today <? d) days with
      | Some d => Some <$> add_days current (d - today)
      | None =>
          monday ← add_days current (- today);
          Some <$> add_days monday (7 * interval + unwrap_or 0 (head days))
      end
  | Monthly | Yearly =>
      let step := if bool_decide (freq rule = Monthly) then interval else 12 * interval in
      look_ahead rule current step (seqZ 0 49)
  end.

Definition next_date (rule : Recurrence) (current : Z) : result failure (option Z) :=
  if is_some_and (fun left => left <=? 1) (count rule) then Ok None
  else
    next ← next_on_calendar rule current;
    Ok (next ← next;
        match until_date rule with
        | Some last => if last <? next then None else Some next
        | None => Some next
        end).

Definition with_count (c : option Z) (rule : Recurrence) : Recurrence :=
  {| freq := freq rule; interval := interval rule; weekdays := weekdays rule; until := until rule;
     count := c; month_week := month_week rule; month_day := month_day rule |}.

Definition advanced (rule : Recurrence) : Recurrence :=
  with_count ((fun left => Z.max (Z.max (left - 1) 0) 1) <$> count rule) rule.

Definition next_instant (rule : Recurrence) (due : Z) : result failure (option Z) :=
  match local_of due with
  | None => Ok None
  | Some local =>
      date ← next_date rule (date_of local);
      Ok (date ← date; resolve (date * 86400 + local mod 86400))
  end.

Definition anchored (rule : Recurrence) (anchor : Z) : Recurrence :=
  let interval := Z.max (interval rule) 1 in
  let named := if is_nil (weekdays rule) then [weekday anchor] else weekdays rule in
  match freq rule with
  | Daily =>
      {| freq := Daily; interval := interval; weekdays := []; until := until rule; count := count rule;
         month_week := None; month_day := None |}
  | Weekly =>
      {| freq := Weekly; interval := interval; weekdays := named; until := until rule; count := count rule;
         month_week := None; month_day := None |}
  | Monthly | Yearly =>
      if bool_decide (is_Some (month_week rule))
      then {| freq := freq rule; interval := interval; weekdays := take 1 named; until := until rule;
              count := count rule; month_week := month_week rule; month_day := None |}
      else {| freq := freq rule; interval := interval; weekdays := []; until := until rule;
              count := count rule; month_week := month_week rule;
              month_day := Some (unwrap_or (day anchor) (month_day rule)) |}
  end.

(** Completing a repeating task again and again: each time it moves to the
    next date, with its rule advanced and anchored there. *)
Fixpoint completions (n : nat) (rule : Recurrence) (due : Z) : list Z :=
  match n with
  | O => []
  | S n' =>
      match next_date rule due with
      | Ok (Some next) => next :: completions n' (anchored (advanced rule) next) next
      | _ => []
      end
  end.
End Dates.

(** ** What a rule means *)

Section Meaning.
Context `{CalendarLaws}.

(** The Monday of a day's week. *)
Definition monday_of (t : Z) : Z := t - weekday t.

(** [n] months or weeks on, counting from the anchor. *)
Definition every (interval n : Z) : Prop := n mod interval = 0.

Definition month_step (rule : Recurrence) : Z :=
  if bool_decide (freq rule = Monthly) then Z.max (interval rule) 1 else 12 * Z.max (interval rule) 1.

(** The day a monthly or yearly rule has in the month of [d]: the nth
    weekday from its start or its end, or a day of the month, the last one
    in a month that is too short. *)
Definition on_day (rule : Recurrence) (anchor d : Z) : Prop :=
  let w := unwrap_or (weekday anchor) (weekday_of <$> head (weekdays rule)) in
  match month_week rule with
  | Some n =>
      weekday d = w /\
      (if n <? 0 then day d <= days_in_month (year d) (month d) /\
                      (days_in_month (year d) (month d) - day d) / 7 + 1 = - n
       else (day d - 1) / 7 + 1 = n)
  | None =>
      day d = Z.max (Z.min (unwrap_or (day anchor) (month_day rule)) (days_in_month (year d) (month d))) 1
  end.

Definition falls_on (rule : Recurrence) (anchor d : Z) : Prop :=
  let interval := Z.max (interval rule) 1 in
  match freq rule with
  | Daily => every interval (d - anchor)
  | Weekly => weekday d ∈ week_days rule (weekday anchor) /\ every interval ((monday_of d - monday_of anchor) / 7)
  | Monthly | Yearly => every (month_step rule) (month_index d - month_index anchor) /\ on_day rule anchor d
  end.

(** The rules the editors write and [parse] accepts. *)
Record sane (rule : Recurrence) : Prop := {
  sane_days : Forall (fun d => 0 <= d) (weekdays rule);
  sane_week : forall n, month_week rule = Some n -> n = -1 \/ 1 <= n <= 4
}.

(** *** The days of a month *)

Lemma from_ymd_year y m d t : from_ymd_opt y m d = Some t -> min_year <= y <= max_year.
Proof. intros (Ht & <- & _)%from_ymd_spec. by apply year_bounds. Qed.

Lemma in_range_between t u v : in_range t -> in_range v -> t <= u <= v -> in_range u.
Proof. unfold in_range. lia. Qed.

Lemma later_month t u : in_range t -> in_range u -> month_index t < month_index u -> t < u.
Proof.
  intros Ht Hu Hi. destruct (Z.lt_ge_cases t u); [done|].
  pose proof (month_monotone u t Hu Ht ltac:(lia)). lia.
Qed.

Lemma days_in_month_spec y m : min_year <= y <= max_year -> 1 <= m <= 12 ->
  exists l, from_ymd_opt y m (days_in_month y m) = Some l /\ 28 <= days_in_month y m <= 31.
Proof.
  intros Hy Hm. destruct (month_exists y m 28 Hy Hm ltac:(lia)) as [t28 H28].
  pose proof H28 as (Hr28 & Hy28 & Hm28 & Hd28)%from_ymd_spec. unfold days_in_month.
  set (next := if m =? 12 then (y + 1, 1) else (y, m + 1)).
  assert (12 * next.1 + next.2 = 12 * y + m + 1 /\ 1 <= next.2 <= 12) as [Hnext Hnm].
  { unfold next. destruct (Z.eqb_spec m 12); cbn; lia. }
  destruct next as [ny nm]; cbn [fst snd] in *.
  destruct (from_ymd_opt ny nm 1) as [g|] eqn:Hg; [|by exists t28].
  cbn. pose proof Hg as (Hrg & Hyg & Hmg & Hdg)%from_ymd_spec.
  assert (t28 < g) as Hlt. { apply later_month; [done|done|]. unfold month_index. lia. }
  assert (in_range (g - 1)) as Hrl. { eapply in_range_between; [exact Hr28|exact Hrg|lia]. }
  unfold pred_opt. rewrite bool_decide_true by done. cbn. exists (g - 1).
  destruct (day_after (g - 1) Hrl) as [(_ & _ & Hd)|(Hi & _ & Hd)];
    [by replace (g - 1 + 1) with g by lia|pose proof (day_bounds (g - 1) Hrl)|].
  - replace (g - 1 + 1) with g in Hd by lia. lia.
  - replace (g - 1 + 1) with g in Hi by lia. pose proof (month_bounds (g - 1) Hrl).
    pose proof (day_bounds (g - 1) Hrl). split; [|lia]. apply from_ymd_spec.
    split; [done|]. split; [lia|]. split; [lia|done].
Qed.

Lemma month_day_exists y m d : min_year <= y <= max_year -> 1 <= m <= 12 -> 1 <= d <= days_in_month y m ->
  exists t, from_ymd_opt y m d = Some t.
Proof.
  intros Hy Hm Hd. destruct (days_in_month_spec y m Hy Hm) as (l & Hl & _).
  pose proof Hl as (Hr & Hly & Hlm & Hld)%from_ymd_spec. exists (l - (day l - d)).
  rewrite <- Hly at 1. rewrite <- Hlm at 1. apply day_of_month; [done|]. by rewrite Hld.
Qed.

Lemma weekday_in_month t u :
  in_range t -> in_range u -> month_index t = month_index u ->
  weekday t = weekday u <-> (day t - day u) mod 7 = 0.
Proof.
  intros Ht Hu Hi. rewrite weekday_eq. by rewrite (same_month u t Hu Ht (eq_sym Hi)).
Qed.

Definition named_weekday (rule : Recurrence) (anchor : Z) : Z :=
  unwrap_or (weekday anchor) (weekday_of <$> head (weekdays rule)).

Lemma named_weekday_bounds rule anchor : sane rule -> 0 <= named_weekday rule anchor < 7.
Proof.
  intros [Hd _]. unfold named_weekday, weekday_of. pose proof (weekday_bounds anchor).
  destruct (weekdays rule) as [|d ds]; [done|]. cbn. apply Forall_cons in Hd as [? _]. lia.
Qed.

(** In a month of the calendar a rule has exactly one day. *)
Lemma in_month_spec rule current y m :
  sane rule -> min_year <= y <= max_year -> 1 <= m <= 12 ->
  exists c, in_month rule current y m = Ok (Some c) /\ in_range c /\ year c = y /\ month c = m /\
    on_day rule current c.
Proof.
  intros Hs Hy Hm. pose proof (named_weekday_bounds rule current Hs) as Hw.
  destruct (days_in_month_spec y m Hy Hm) as (l & Hl & Hdim).
  unfold in_month, on_day. fold (named_weekday rule current). destruct (month_week rule) as [n|] eqn:Hn.
  - pose proof (sane_week rule Hs n Hn) as Hcases. unfold nth_weekday.
    destruct (Z.ltb_spec n 0) as [Hneg|Hpos].
    + assert (n = -1) as -> by lia. change (wrap_i8 (wrap_i8 (- -1) - 1)) with 0. rewrite Hl.
      pose proof Hl as (Hrl & Hly & Hlm & Hld)%from_ymd_spec.
      set (back := (7 + weekday l - named_weekday rule current) mod 7).
      assert (0 <= back < 7) as Hb by (unfold back; apply Z.mod_pos_bound; lia).
      assert (1 <= day l - back <= day l) as Hbd by (rewrite Hld; lia).
      pose proof (day_of_month l (day l - back) Hrl Hbd) as Hc.
      rewrite Hly, Hlm in Hc. replace (l - (day l - (day l - back))) with (l - back) in Hc by lia.
      pose proof Hc as (Hrc & Hcy & Hcm & Hcd)%from_ymd_spec.
      exists (l - back). unfold add_days. replace (l + - (back + 7 * 0)) with (l - back) by lia.
      rewrite bool_decide_true by done. cbn. rewrite Hcm, Z.eqb_refl, Hcy.
      split; [done|]. split; [done|]. split; [done|]. split; [done|].
      assert (weekday (l - back) = named_weekday rule current) as Hwb.
      { replace (l - back) with (l + - back) by lia. rewrite weekday_add.
        pose proof (weekday_bounds l). unfold back. Z.to_euclidean_division_equations. lia. }
      split; [done|]. split; [lia|].
      replace (days_in_month y m - day (l - back)) with back by lia. rewrite Z.div_small by lia. lia.
    + assert (1 <= n <= 4) as Hn4 by lia. clear Hcases.
      destruct (month_exists y m 1 Hy Hm ltac:(lia)) as [f Hf].
      pose proof Hf as (Hrf & Hfy & Hfm & Hfd)%from_ymd_spec.
      set (ahead := (named_weekday rule current - weekday f) mod 7).
      assert (0 <= ahead < 7) as Hb by (unfold ahead; apply Z.mod_pos_bound; lia).
      destruct (month_day_exists y m (7 * (n - 1) + ahead + 1) Hy Hm ltac:(lia)) as [c Hc].
      pose proof Hc as (Hrc & Hcy & Hcm & Hcd)%from_ymd_spec. exists c.
      assert (weekday c = named_weekday rule current) as Hwc.
      { replace c with (f + (c - f)) by lia. rewrite weekday_add.
        rewrite (same_month f c Hrf Hrc) by (unfold month_index; lia). rewrite Hcd, Hfd.
        replace (weekday f + (7 * (n - 1) + ahead + 1 - 1)) with (weekday f + ahead + (n - 1) * 7) by lia.
        rewrite Z.mod_add by lia. unfold ahead. rewrite Zplus_mod_idemp_r.
        replace (weekday f + (named_weekday rule current - weekday f)) with (named_weekday rule current) by lia.
        by apply Z.mod_small. }
      assert ((day c - 1) / 7 + 1 = n) as Hord.
      { rewrite Hcd. replace (7 * (n - 1) + ahead + 1 - 1) with (ahead + (n - 1) * 7) by lia.
        rewrite Z.div_add by lia. rewrite Z.div_small by lia. lia. }
      split; [|done]. f_equal. apply from_weekday_spec; [done|].
      split; [done|]. split; [done|]. split; [done|]. split; [done|]. split; [lia|done].
  - set (wanted := Z.max (Z.min (unwrap_or (day current) (month_day rule)) (days_in_month y m)) 1).
    assert (1 <= wanted <= days_in_month y m) as Hwant by (unfold wanted; lia).
    destruct (month_day_exists y m wanted Hy Hm Hwant) as [c Hc].
    pose proof Hc as (Hrc & Hcy & Hcm & Hcd)%from_ymd_spec. exists c. unfold clamped. fold wanted. rewrite Hc.
    split; [done|]. split; [done|]. split; [done|]. split; [done|]. rewrite Hcy, Hcm. exact Hcd.
Qed.

Lemma on_day_unique rule anchor d d' :
  in_range d -> in_range d' -> month_index d = month_index d' ->
  on_day rule anchor d -> on_day rule anchor d' -> d = d'.
Proof.
  intros Hd Hd' Hi. destruct (month_index_eq d d' Hd Hd' Hi) as [Hy Hm].
  unfold on_day. rewrite Hy, Hm. intros H1 H2.
  assert (day d = day d') as Hday; [|by apply from_ymd_unique].
  pose proof (day_bounds d Hd). pose proof (day_bounds d' Hd').
  destruct (month_week rule) as [n|]; [|by rewrite H1, H2].
  destruct H1 as [Hw1 H1], H2 as [Hw2 H2]. rewrite <- Hw2 in Hw1.
  apply (weekday_in_month d d') in Hw1; [|done..]. destruct (n <? 0).
  - destruct H1 as [_ H1], H2 as [_ H2]. rewrite <- H2 in H1. clear H2 Hw2.
    Z.to_euclidean_division_equations. lia.
  - rewrite <- H2 in H1. clear H2 Hw2. Z.to_euclidean_division_equations. lia.
Qed.

(** *** Monthly and yearly rules *)

(** Past the last year of the calendar there is no day. *)
Lemma in_month_out rule current y m :
  sane rule -> max_year < y -> in_month rule current y m = Ok None.
Proof.
  intros Hs Hy. pose proof (named_weekday_bounds rule current Hs) as Hw. unfold in_month, clamped, nth_weekday.
  assert (forall m d, from_ymd_opt y m d = None) as Hnone.
  { intros m' d. destruct (from_ymd_opt y m' d) eqn:E; [|done]. apply from_ymd_year in E. lia. }
  fold (named_weekday rule current). rewrite !Hnone. destruct (month_week rule) as [n|]; [|done].
  destruct (n <? 0); [done|]. destruct (from_weekday_of_month_opt y m _ n) eqn:E; [|done].
  apply from_weekday_spec in E as (Hr & <- & _); [|done]. apply year_bounds in Hr. lia.
Qed.

Lemma look_ahead_out rule current step ks :
  sane rule -> in_range current -> 1 <= step -> Forall (fun k => 1 <= k) ks ->
  12 * max_year + 11 < month_index current + step ->
  look_ahead rule current step ks = Ok None.
Proof.
  intros Hs Hc Hstep Hks Hout. unfold month_index in Hout. induction Hks as [|k ks Hk _ IH]; cbn; [done|].
  unfold plus_months. destruct (_ && _); [|done]. rewrite in_month_out; [done|done|].
  assert (step <= step * k) by nia. Z.to_euclidean_division_equations. lia.
Qed.

Lemma plus_months_in t n :
  in_range t -> 0 <= n -> month_index t + n <= 12 * max_year + 11 ->
  exists y m, plus_months (year t) (month t) n = Some (y, m) /\
    min_year <= y <= max_year /\ 1 <= m <= 12 /\ 12 * y + m - 1 = month_index t + n.
Proof.
  intros Ht Hn Hmax. pose proof (year_bounds t Ht). pose proof (month_bounds t Ht). pose proof years_wide.
  unfold month_index, plus_months in *. set (total := year t * 12 + month t - 1 + n) in *.
  exists (total / 12), (total mod 12 + 1).
  assert (12 * (total / 12) + total mod 12 = total /\ 0 <= total mod 12 < 12) as [Hdiv Hmod].
  { clearbody total. Z.to_euclidean_division_equations. lia. }
  assert (min_year <= total / 12 <= max_year) as Hyear by (unfold total in *; lia).
  rewrite (proj2 (Z.leb_le _ _)) by lia. rewrite (proj2 (Z.ltb_lt _ _)) by lia.
  split; [done|]. split; [done|]. split; [lia|]. unfold total in *. lia.
Qed.

(** What is found: the least of the days after [current] with a property,
    or none because there is none. *)
Definition least_after (good : Z -> Prop) (current : Z) (found : option Z) : Prop :=
  match found with
  | Some d => in_range d /\ current < d /\ good d /\ (forall d', current < d' -> d' < d -> ~ good d')
  | None => forall d', in_range d' -> current < d' -> ~ good d'
  end.

Lemma month_index_max d : in_range d -> month_index d <= 12 * max_year + 11.
Proof. intros Hd. unfold month_index. pose proof (year_bounds d Hd). pose proof (month_bounds d Hd). lia. Qed.

Lemma every_step_ge step i j : 1 <= step -> every step (i - j) -> j < i -> j + step <= i.
Proof.
  unfold every. intros Hs [q Hq]%Z.mod_divide Hi; [|lia]. assert (1 <= q) by nia. nia.
Qed.

Lemma look_ahead_spec rule current step :
  sane rule -> in_range current -> 1 <= step ->
  exists found, look_ahead rule current step (seqZ 0 49) = Ok found /\
    least_after (fun d => every step (month_index d - month_index current) /\ on_day rule current d) current found.
Proof.
  intros Hs Hc Hstep. change (seqZ 0 49) with (0 :: 1 :: seqZ 2 47). cbn [look_ahead].
  rewrite Z.mul_0_r, Z.mul_1_r.
  assert (month_index current + 0 <= 12 * max_year + 11) as Hin0 by (rewrite Z.add_0_r; by apply month_index_max).
  destruct (plus_months_in current 0 Hc ltac:(done) Hin0) as (y0 & m0 & -> & Hy0 & Hm0 & Hi0).
  destruct (in_month_spec rule current y0 m0 Hs Hy0 Hm0) as (c0 & -> & Hr0 & Hcy0 & Hcm0 & Hon0).
  assert (month_index c0 = month_index current) as Hic0 by (unfold month_index in *; lia).
  cbn [mbind result_bind is_some_and]. destruct (Z.ltb_spec current c0) as [Hlt|Hge].
  { exists (Some c0). split; [done|]. split; [done|]. split; [done|]. split.
    - split; [|done]. rewrite Hic0, Z.sub_diag. apply Z.mod_0_l. lia.
    - intros d' Hlo Hhi [_ Hon]. assert (in_range d') as Hd' by (unfold in_range in *; lia).
      pose proof (month_monotone current d' Hc Hd' ltac:(lia)).
      pose proof (month_monotone d' c0 Hd' Hr0 ltac:(lia)).
      assert (d' = c0) by (eapply on_day_unique; [done|done| |done|done]; lia). lia. }
  assert (forall d, in_range d -> current < d -> every step (month_index d - month_index current) ->
    on_day rule current d -> month_index current + step <= month_index d) as Hlater.
  { intros d Hd Hcd He Hon. apply every_step_ge; [done|done|].
    pose proof (month_monotone current d Hc Hd ltac:(lia)).
    destruct (Z.eq_dec (month_index d) (month_index current)); [|lia].
    assert (d = c0) by (eapply on_day_unique; [done|done| |done|done]; lia). lia. }
  destruct (Z.le_gt_cases (month_index current + step) (12 * max_year + 11)) as [Hin|Hout].
  - destruct (plus_months_in current step Hc) as (y1 & m1 & -> & Hy1 & Hm1 & Hi1); [lia|done|].
    destruct (in_month_spec rule current y1 m1 Hs Hy1 Hm1) as (c1 & -> & Hr1 & Hcy1 & Hcm1 & Hon1).
    assert (month_index c1 = month_index current + step) as Hic1 by (unfold month_index in *; lia).
    assert (current < c1) as Hlt by (apply later_month; [done|done|lia]).
    cbn [mbind result_bind is_some_and]. rewrite (proj2 (Z.ltb_lt _ _)) by done.
    exists (Some c1). split; [done|]. split; [done|]. split; [done|]. split.
    + split; [|done]. rewrite Hic1. replace (month_index current + step - month_index current) with step by lia.
      apply Z.mod_same. lia.
    + intros d' Hlo Hhi [He Hon]. assert (in_range d') as Hd' by (unfold in_range in *; lia).
      pose proof (Hlater d' Hd' Hlo He Hon). pose proof (month_monotone d' c1 Hd' Hr1 ltac:(lia)).
      assert (d' = c1) by (eapply on_day_unique; [done|done| |done|done]; lia). lia.
  - exists None. split.
    + transitivity (look_ahead rule current step (1 :: seqZ 2 47)); [cbn [look_ahead]; by rewrite Z.mul_1_r|].
      apply look_ahead_out; [done|done|done| |lia]. constructor; [lia|]. apply Forall_forall. intros k Hk%elem_of_seqZ. lia.
    + intros d' Hd' Hcd [He Hon]. pose proof (Hlater d' Hd' Hcd He Hon). pose proof (month_index_max d' Hd'). lia.
Qed.

(** *** Weekly rules *)

Lemma dedup_elem l x : x ∈ dedup l <-> x ∈ l.
Proof.
  induction l as [|y l IH]; [done|]. cbn [dedup]. rewrite elem_of_cons, <- IH.
  destruct (dedup l) as [|z r].
  { rewrite list_elem_of_singleton. split; [by left|]. intros [Hx|Hx]; [done|]. by apply not_elem_of_nil in Hx. }
  destruct (Z.eqb_spec y z) as [->|]; rewrite !elem_of_cons; tauto.
Qed.

Lemma dedup_sorted l : StronglySorted (fun a b => Z.leb a b = true) l ->
  StronglySorted (fun a b => Z.leb a b = true) (dedup l).
Proof.
  induction 1 as [|x l Hs IH Hx]; [constructor|]. cbn [dedup].
  assert (Forall (fun y => (x <=? y) = true) (dedup l)) as Hd.
  { apply Forall_forall. intros y Hy. rewrite dedup_elem in Hy.
    exact (proj1 (Forall_forall _ _) Hx y Hy). }
  destruct (dedup l) as [|y r]; [constructor; constructor|]. destruct (Z.eqb_spec x y); [done|]. by constructor.
Qed.

Lemma week_days_spec rule today :
  let days := week_days rule today in
  StronglySorted (fun a b => Z.leb a b = true) days /\ days <> [] /\
  forall d, d ∈ days <-> (d ∈ weekdays rule /\ d < 7) \/
    (d = today /\ forall e, e ∈ weekdays rule -> ~ e < 7).
Proof.
  cbn zeta. unfold week_days. set (named := base.filter (fun d => d < 7) (weekdays rule)).
  set (l := if is_nil named then [today] else named).
  assert (forall d, d ∈ dedup (order_by Z.leb l) <-> d ∈ l) as Hin.
  { intros d. by rewrite dedup_elem, order_by_perm. }
  assert (forall d, d ∈ l <-> (d ∈ weekdays rule /\ d < 7) \/
    (d = today /\ forall e, e ∈ weekdays rule -> ~ e < 7)) as Hl.
  { intros d. unfold l. destruct (is_nil named) eqn:E.
    - apply is_nil_true in E. unfold named in E. rewrite filter_nil_iff in E. rewrite list_elem_of_singleton.
      split; [by right|]. intros [[Hd Hlt]|[-> _]]; [by destruct (E d Hd)|done].
    - unfold named at 1. rewrite list_elem_of_filter. split; [intros [? ?]; by left|].
      intros [[? ?]|[-> Hno]]; [done|]. destruct named as [|e r] eqn:En; [done|].
      assert (e ∈ named) as He by (rewrite En; by left). unfold named in He.
      apply list_elem_of_filter in He as [Hlt He]. by destruct (Hno e He). }
  split; [|split].
  - apply dedup_sorted, order_by_sorted; intros; rewrite ?Z.leb_le in *; lia.
  - intros Hnil. assert (exists d, d ∈ l) as [d Hd].
    { unfold l. destruct named as [|e r]; cbn; [exists today|exists e]; by left. }
    rewrite <- Hin, Hnil in Hd. by apply not_elem_of_nil in Hd.
  - intros d. by rewrite Hin, Hl.
Qed.

Lemma monday_spec t : monday_of t <= t < monday_of t + 7 /\ forall u, (monday_of u - monday_of t) mod 7 = 0.
Proof.
  unfold monday_of. split; [pose proof (weekday_bounds t); lia|]. intros u. rewrite <- weekday_eq.
  assert (forall v, weekday (v - weekday v) = 0) as H0.
  { intros v. replace (v - weekday v) with (v + - weekday v) by lia. rewrite weekday_add.
    by replace (weekday v + - weekday v) with 0 by lia. }
  by rewrite !H0.
Qed.

Lemma week_of_day m d : 0 <= d < 7 -> (exists t, m = monday_of t) ->
  weekday (m + d) = d /\ monday_of (m + d) = m.
Proof.
  intros Hd [t ->]. assert (weekday (monday_of t + d) = d) as Hw.
  { unfold monday_of. replace (t - weekday t + d) with (t + (d - weekday t)) by lia. rewrite weekday_add.
    replace (weekday t + (d - weekday t)) with d by lia. by apply Z.mod_small. }
  split; [done|]. unfold monday_of at 1. rewrite Hw. lia.
Qed.

Lemma add_days_Ok t n r : add_days t n = Ok r <-> in_range (t + n) /\ r = t + n.
Proof.
  unfold add_days. case_bool_decide; split; [by intros [= <-]|by intros [_ ->]|done|by intros [? _]].
Qed.

Lemma week_days_bounds rule anchor d :
  sane rule -> d ∈ week_days rule (weekday anchor) -> 0 <= d < 7.
Proof.
  intros [Hd _] Hin. apply week_days_spec in Hin as [[Hin ?]|[-> _]]; [|apply weekday_bounds].
  rewrite Forall_forall in Hd. specialize (Hd d Hin). lia.
Qed.

(** The days of a weekly rule after [current]: later this week, or
    [interval] weeks on and then on. *)
Lemma weekly_later rule current d :
  let interval := Z.max (interval rule) 1 in
  current < d -> weekday d ∈ week_days rule (weekday current) ->
  every interval ((monday_of d - monday_of current) / 7) ->
  (monday_of d = monday_of current /\ weekday current < weekday d) \/
  monday_of current + 7 * interval <= monday_of d.
Proof.
  cbn zeta. intros Hlt Hin He. destruct (monday_spec current) as [Hc Hm]. specialize (Hm d).
  destruct (monday_spec d) as [Hd _]. set (w := (monday_of d - monday_of current) / 7) in *.
  assert (monday_of d - monday_of current = 7 * w) as Hw by (unfold w; Z.to_euclidean_division_equations; lia).
  clearbody w. destruct (Z.eq_dec w 0) as [->|Hne].
  - left. split; [lia|]. unfold monday_of in *. lia.
  - right. assert (0 < w) by lia. unfold every in He. replace w with (w - 0) in He by lia.
    apply every_step_ge in He; [|lia|done]. nia.
Qed.

Lemma next_weekly rule current :
  sane rule -> in_range current -> freq rule = Weekly ->
  match next_on_calendar rule current with
  | Ok (Some d) => in_range d /\ current < d /\ falls_on rule current d /\
                   (forall d', current < d' -> d' < d -> ~ falls_on rule current d')
  | Ok None => False
  | Err e => e = Panic /\ (current - 6 < first_date \/ last_date < current + 7 * Z.max (interval rule) 1 + 6)
  end.
Proof.
  intros Hs Hc Hf. unfold next_on_calendar, falls_on. rewrite Hf. cbn zeta.
  destruct (week_days_spec rule (weekday current)) as (Hsort & Hne & Hin). clear Hin.
  pose proof (week_days_bounds rule current) as Hb. set (days := week_days rule (weekday current)) in *.
  set (int := Z.max (interval rule) 1). pose proof (weekday_bounds current) as Hw.
  pose proof (monday_spec current) as [Hmon _].
  assert (exists t, monday_of current = monday_of t) as Hism by by exists current.
  destruct (find_by _ days) as [d|] eqn:Hfind.
  - pose proof (find_by_Some _ _ _ Hfind) as [Hd Hgt%Z.ltb_lt]. specialize (Hb d Hs Hd).
    destruct (week_of_day _ d Hb Hism) as [Hwd Hmd].
    assert (current + (d - weekday current) = monday_of current + d) as Hnext by (unfold monday_of; lia).
    destruct (add_days current (d - weekday current)) as [r|e] eqn:Ha; cbn.
    + apply add_days_Ok in Ha as [Hr ->]. rewrite Hnext in *. split; [done|]. split; [unfold monday_of; lia|].
      split; [split; [by rewrite Hwd|]|].
      { rewrite Hmd, Z.sub_diag. unfold every. apply Z.mod_0_l. unfold int. lia. }
      intros d' Hlo Hhi [Hin' He']. destruct (weekly_later rule current d' Hlo Hin' He') as [[Hm' Hw']|Hm'].
      * assert ((d <=? weekday d') = true) as Hle%Z.leb_le.
        { eapply (find_by_least Z.leb (fun d => weekday current <? d)); [by intros; apply Z.leb_refl|exact Hsort|exact Hfind|done|].
          by apply Z.ltb_lt. }
        unfold monday_of in *. lia.
      * fold int in Hm'. assert (1 <= int) by (unfold int; lia). pose proof (monday_spec d') as [? _]. lia.
    + unfold add_days in Ha. case_bool_decide as Hr; [done|]. injection Ha as <-. split; [done|]. right.
      unfold in_range in *. unfold int. lia.
  - destruct days as [|h rest] eqn:Hdays; [done|]. cbn [head unwrap_or].
    assert (h ∈ h :: rest) as Hh by by left. specialize (Hb h Hs Hh) as Hhb.
    assert (exists t, monday_of current + 7 * int = monday_of t) as Hism2.
    { exists (current + 7 * int). unfold monday_of. rewrite weekday_add.
      replace (weekday current + 7 * int) with (weekday current + int * 7) by lia.
      rewrite Z.mod_add by lia. rewrite Z.mod_small by lia. lia. }
    destruct (week_of_day _ h Hhb Hism2) as [Hwd Hmd].
    destruct (add_days current (- weekday current)) as [m|e] eqn:Hm; cbn.
    2: { unfold add_days in Hm. case_bool_decide as Hr; [done|]. injection Hm as <-. split; [done|]. left.
         unfold in_range in *. lia. }
    apply add_days_Ok in Hm as [Hrm ->].
    assert (current + - weekday current + (7 * int + h) = monday_of current + 7 * int + h) as Hnext
      by (unfold monday_of; lia).
    destruct (add_days (current + - weekday current) (7 * int + h)) as [r|e] eqn:Ha; cbn.
    + apply add_days_Ok in Ha as [Hr ->]. rewrite Hnext in *. split; [done|].
      assert (1 <= int) by (unfold int; lia). split; [lia|]. split; [split; [by rewrite Hwd|]|].
      { rewrite Hmd. replace ((monday_of current + 7 * int - monday_of current)) with (int * 7) by lia.
        rewrite Z.div_mul by lia. apply Z.mod_same. lia. }
      intros d' Hlo Hhi [Hin' He'].
      assert (weekday d' ∈ week_days rule (weekday current)) as Hin''.
      { change (weekday d' ∈ days). by rewrite Hdays. }
      destruct (weekly_later rule current d' Hlo Hin'' He') as [[Hm' Hw']|Hm'].
      * pose proof (find_by_None _ _ Hfind _ Hin') as Hlt%Z.ltb_ge. lia.
      * fold int in Hm'. assert (h <= weekday d') as Hle.
        { apply elem_of_cons in Hin' as [->|Hin']; [done|]. apply StronglySorted_inv in Hsort as [_ Hsort].
          rewrite Forall_forall in Hsort. by apply Z.leb_le, Hsort. }
        unfold monday_of in *. lia.
    + unfold add_days in Ha. case_bool_decide as Hr; [done|]. injection Ha as <-. split; [done|]. right.
      unfold in_range in *. fold int. lia.
Qed.

(** *** The next date *)

Context `{Zone}.

(** The series goes on to [d]: occurrences are left after this one, and its
    last day is not passed. *)
Definition open (rule : Recurrence) (d : Z) : Prop :=
  (forall left, count rule = Some left -> 1 < left) /\
  (forall last, until_date rule = Some last -> d <= last).

Definition near_an_end (rule : Recurrence) (current : Z) : Prop :=
  freq rule = Weekly /\
  (current - 6 < first_date \/ last_date < current + 7 * Z.max (interval rule) 1 + 6).

Lemma next_on_calendar_spec rule current :
  sane rule -> in_range current ->
  match next_on_calendar rule current with
  | Ok found => least_after (falls_on rule current) current found
  | Err e => e = Panic /\ near_an_end rule current
  end.
Proof.
  intros Hs Hc. unfold near_an_end. destruct (freq rule) eqn:Hf.
  - unfold next_on_calendar, falls_on. rewrite Hf. cbn zeta. set (int := Z.max (interval rule) 1).
    assert (1 <= int) as Hint by (unfold int; lia).
    assert (forall d, current < d -> every int (d - current) -> current + int <= d) as Hge.
    { intros d Hd He. by apply every_step_ge. }
    case_bool_decide as Hr; cbn.
    + split; [done|]. split; [lia|]. split.
      * unfold every. replace (current + int - current) with int by lia. apply Z.mod_same. lia.
      * intros d' Hlo Hhi He. specialize (Hge d' Hlo He). lia.
    + intros d' Hd' Hlo He. specialize (Hge d' Hlo He). unfold in_range in *. lia.
  - pose proof (next_weekly rule current Hs Hc Hf) as Hw.
    destruct (next_on_calendar rule current) as [[d|]|e]; [exact Hw|done|]. destruct Hw. by split.
  - destruct (look_ahead_spec rule current (month_step rule) Hs Hc) as (found & Hl & Hleast).
    { unfold month_step. rewrite bool_decide_true by done. lia. }
    unfold next_on_calendar. rewrite Hf. unfold month_step in Hl. rewrite Hf in Hl. rewrite Hl.
    unfold falls_on. rewrite Hf. exact Hleast.
  - destruct (look_ahead_spec rule current (month_step rule) Hs Hc) as (found & Hl & Hleast).
    { unfold month_step. destruct (bool_decide _); lia. }
    unfold next_on_calendar. rewrite Hf. unfold month_step in Hl. rewrite Hf in Hl. rewrite Hl.
    unfold falls_on. rewrite Hf. exact Hleast.
Qed.

Lemma next_date_least rule current :
  sane rule -> in_range current ->
  match next_date rule current with
  | Ok found => least_after (fun d => falls_on rule current d /\ open rule d) current found
  | Err e => e = Panic /\ near_an_end rule current
  end.
Proof.
  intros Hs Hc. unfold next_date, open. pose proof (next_on_calendar_spec rule current Hs Hc) as Hn.
  destruct (is_some_and (fun left => left <=? 1) (count rule)) eqn:Hcount.
  { destruct (count rule) as [left|]; [|done]. apply Z.leb_le in Hcount.
    intros d' _ _ [_ [Hopen _]]. specialize (Hopen left eq_refl). lia. }
  assert (forall left, count rule = Some left -> 1 < left) as Hleft.
  { intros left Hl. rewrite Hl in Hcount. by apply Z.leb_gt in Hcount. }
  destruct (next_on_calendar rule current) as [found|e]; [|done]. cbn.
  destruct found as [d|]; cbn.
  2: { intros d' Hd' Hlo [Hf _]. by apply (Hn d'). }
  destruct Hn as (Hd & Hlt & Hf & Hmin). destruct (until_date rule) as [last|] eqn:Hu.
  - destruct (Z.ltb_spec last d) as [Hl|Hl].
    + intros d' Hd' Hlo [Hf' [_ Hopen]]. specialize (Hopen last eq_refl). apply (Hmin d'); [done|lia|done].
    + split; [done|]. split; [done|]. split; [split; [done|split; [done|by intros ? [= <-]]]|].
      intros d' Hlo Hhi [Hf' _]. by apply (Hmin d').
  - split; [done|]. split; [done|]. split; [done|]. intros d' Hlo Hhi [Hf' _]. by apply (Hmin d').
Qed.

(** The next date of a rule is the least date of the calendar after
    [current] that the rule falls on while the series goes on, and none is
    given only when there is none; what is left is a weekly rule within an
    interval of the first or last day of the calendar, which panics. *)
Theorem next_date_spec rule current :
  sane rule -> in_range current ->
  match next_date rule current with
  | Ok (Some d) =>
      in_range d /\ current < d /\ falls_on rule current d /\ open rule d /\
      (forall d', current < d' < d -> ~ falls_on rule current d')
  | Ok None => forall d', in_range d' -> current < d' -> open rule d' -> ~ falls_on rule current d'
  | Err e => e = Panic /\ near_an_end rule current
  end.
Proof.
  intros Hs Hc. pose proof (next_date_least rule current Hs Hc) as Hn.
  destruct (next_date rule current) as [[d|]|e]; [|intros d' Hd' Hlo Ho Hf; by apply (Hn d')|done].
  destruct Hn as (Hd & Hlt & [Hf Ho] & Hmin). repeat (split; [done|]). intros d' [Hlo Hhi] Hf'.
  apply (Hmin d'); [done|done|]. split; [done|]. destruct Ho as [Hleft Hlast]. split; [done|].
  intros last Hl. specialize (Hlast last Hl). lia.
Qed.

(** *** Completing a task again and again *)

Lemma every_trans int i j k : 1 <= int -> every int (j - i) -> every int (k - j) <-> every int (k - i).
Proof.
  unfold every. intros Hint Hji. replace (k - i) with ((k - j) + (j - i)) by lia.
  rewrite Z.add_mod, Hji, Z.add_0_r, Z.mod_mod by lia. done.
Qed.

Lemma week_days_anchored rule a b :
  freq rule = Weekly -> b = a \/ weekday b ∈ week_days rule (weekday a) ->
  week_days (anchored rule a) (weekday b) = week_days rule (weekday a).
Proof.
  intros Hf Hb.
  assert (weekday b = weekday a \/ exists e, e ∈ weekdays rule /\ e < 7) as Hb'.
  { destruct Hb as [->|Hb]; [by left|]. apply week_days_spec in Hb as [[? ?]|[-> _]]; [right; eauto|by left]. }
  clear Hb. unfold week_days, anchored. rewrite Hf. cbn [weekdays].
  destruct (weekdays rule) as [|d ds] eqn:Hw; cbn [is_nil].
  - rewrite filter_cons. pose proof (weekday_bounds a). rewrite decide_True by lia. by rewrite filter_nil.
  - destruct (is_nil (base.filter _ (d :: ds))) eqn:E; [|done]. apply is_nil_true in E.
    rewrite filter_nil_iff in E. destruct Hb' as [->|(e & Hin & Hlt)]; [done|by destruct (E _ Hin)].
Qed.

Lemma on_day_anchored rule a b d :
  freq rule = Monthly \/ freq rule = Yearly -> on_day (anchored rule a) b d <-> on_day rule a d.
Proof.
  intros Hf. unfold on_day.
  assert (month_week (anchored rule a) = month_week rule /\ (month_week rule = None ->
      unwrap_or (day b) (month_day (anchored rule a)) = unwrap_or (day a) (month_day rule)) /\
    (is_Some (month_week rule) -> named_weekday (anchored rule a) b = named_weekday rule a)) as (Hw & Hd & Hn).
  { unfold anchored, named_weekday. destruct Hf as [-> | ->]; case_bool_decide as Hsome; cbn;
      (split; [done|]); (split; [intros Hno; try done; destruct Hsome as [? Hs]; congruence|]);
      intros Hs; try done; destruct (weekdays rule) as [|x l]; cbn; try done;
      unfold weekday_of; pose proof (weekday_bounds a); lia. }
  fold (named_weekday (anchored rule a) b) (named_weekday rule a). rewrite Hw.
  destruct (month_week rule) as [n|] eqn:E; [by rewrite Hn by eauto|by rewrite Hd].
Qed.

(** Anchored where it starts, a rule keeps all its dates, seen from there
    or from any of them. *)
Lemma falls_on_anchored rule a b d :
  b = a \/ falls_on rule a b -> falls_on (anchored rule a) b d <-> falls_on rule a d.
Proof.
  unfold falls_on. intros Hb.
  assert (freq (anchored rule a) = freq rule /\ Z.max (interval (anchored rule a)) 1 = Z.max (interval rule) 1)
    as [Hf Hi].
  { unfold anchored. destruct (freq rule) eqn:E; try case_bool_decide; cbn; rewrite ?E; lia || (split; [done|lia]). }
  assert (month_step (anchored rule a) = month_step rule) as Hstep by (unfold month_step; by rewrite Hf, Hi).
  assert (1 <= month_step rule) as Hms by (unfold month_step; destruct (bool_decide _); lia).
  assert (forall int n, 1 <= int -> every int (n - n)) as Hzero.
  { intros int n Hint. unfold every. rewrite Z.sub_diag. apply Z.mod_0_l. lia. }
  rewrite Hf, Hi, Hstep. destruct (freq rule) eqn:Hfreq.
  - apply every_trans; [lia|]. destruct Hb as [->|Hb]; [apply Hzero; lia|done].
  - rewrite week_days_anchored; [|done|tauto]. apply and_iff_compat_l.
    assert (forall x y, 7 * ((monday_of x - monday_of y) / 7) = monday_of x - monday_of y) as H7.
    { intros x y. destruct (monday_spec y) as [_ Hm]. specialize (Hm x). Z.to_euclidean_division_equations. lia. }
    pose proof (H7 d b). pose proof (H7 d a). pose proof (H7 b a).
    replace ((monday_of d - monday_of b) / 7) with
      ((monday_of d - monday_of a) / 7 - (monday_of b - monday_of a) / 7) by lia.
    replace ((monday_of d - monday_of a) / 7) with ((monday_of d - monday_of a) / 7 - 0) at 2 by lia.
    apply every_trans; [lia|]. rewrite Z.sub_0_r. destruct Hb as [->|[_ Hb]]; [|done].
    rewrite Z.sub_diag. apply (Hzero _ 0). lia.
  - rewrite on_day_anchored by by left. apply and_iff_compat_r. apply every_trans; [done|].
    destruct Hb as [->|[Hb _]]; [by apply Hzero|done].
  - rewrite on_day_anchored by by right. apply and_iff_compat_r. apply every_trans; [done|].
    destruct Hb as [->|[Hb _]]; [by apply Hzero|done].
Qed.

(** A rule that names its days is not changed by anchoring it again. *)
Definition spelled_out (rule : Recurrence) : Prop := exists rule0 a0, rule = anchored rule0 a0.

Lemma anchored_again rule b : spelled_out rule -> anchored rule b = rule.
Proof.
  intros (r & a & ->). unfold anchored at 2 3. destruct (freq r) eqn:Hf.
  - unfold anchored. cbn. f_equal. lia.
  - unfold anchored. cbn. f_equal; try lia; by destruct (weekdays r).
  - case_bool_decide as Hw; unfold anchored; cbn; rewrite ?Hf; [rewrite bool_decide_true by done|
      rewrite bool_decide_false by done]; (f_equal; try lia; try done; by destruct (weekdays r)).
  - case_bool_decide as Hw; unfold anchored; cbn; rewrite ?Hf; [rewrite bool_decide_true by done|
      rewrite bool_decide_false by done]; (f_equal; try lia; try done; by destruct (weekdays r)).
Qed.

Lemma spelled_advanced rule : spelled_out rule -> spelled_out (advanced rule).
Proof.
  intros (r & a & ->). exists (advanced r), a. unfold anchored. cbn.
  destruct (freq r); try case_bool_decide; done.
Qed.

Lemma falls_on_advanced rule a d : falls_on (advanced rule) a d <-> falls_on rule a d.
Proof. done. Qed.

Lemma sane_anchored rule a : sane rule -> sane (anchored rule a).
Proof.
  intros [Hd Hw]. pose proof (weekday_bounds a) as Ha. unfold anchored.
  destruct (freq rule); try case_bool_decide; split; cbn; try done; try (by intros n ?);
    destruct (weekdays rule) as [|x l]; cbn; repeat constructor; try lia; try done;
    apply Forall_cons in Hd as [? ?]; try done; by constructor.
Qed.

(** The dates a task has gone through follow a rule from its first date. *)
Record follows (rule : Recurrence) (a : Z) (dates : list Z) : Prop := {
  fo_sorted : StronglySorted Z.lt (a :: dates);
  fo_on : forall d, d ∈ dates -> falls_on rule a d;
  fo_none_skipped : forall d e, e ∈ dates -> a < d -> d < e -> falls_on rule a d -> d ∈ dates;
  fo_until : forall last d, until_date rule = Some last -> d ∈ dates -> d <= last;
  fo_count : forall left, count rule = Some left -> Z.of_nat (length dates) <= Z.max 0 (left - 1)
}.

Lemma follows_nil r b : follows r b [].
Proof.
  split.
  - constructor; constructor.
  - by intros d ?%not_elem_of_nil.
  - by intros d e ?%not_elem_of_nil.
  - by intros last d _ ?%not_elem_of_nil.
  - cbn. lia.
Qed.

Lemma follows_cons r b next dates :
  spelled_out r ->
  b < next -> falls_on r b next -> open r next -> (forall d, b < d < next -> ~ falls_on r b d) ->
  follows (advanced r) next dates -> follows r b (next :: dates).
Proof.
  intros Hsp Hlt Hon [Hleft Hlast] Hmin [Hsort Hall Hskip Huntil Hcount].
  assert (forall d, falls_on (advanced r) next d <-> falls_on r b d) as Hsame.
  { intros d. rewrite falls_on_advanced. rewrite <- (anchored_again r b Hsp) at 1.
    apply falls_on_anchored. by right. }
  split.
  - constructor; [done|]. constructor; [done|]. apply StronglySorted_inv in Hsort as [_ Hsort].
    eapply Forall_impl; [exact Hsort|]. cbn. lia.
  - intros d [->|Hd]%elem_of_cons; [done|]. by apply Hsame, Hall.
  - intros d e He Hbd Hde Hf. destruct (Z.lt_trichotomy d next) as [Hd|[->|Hd]].
    + by destruct (Hmin d (conj Hbd Hd)).
    + by left.
    + apply elem_of_cons in He as [->|He]; [lia|]. right. apply (Hskip d e); [done|done|done|]. by apply Hsame.
  - intros last d Hl [->|Hd]%elem_of_cons; [by apply Hlast|]. by apply (Huntil last d).
  - intros left Hl. specialize (Hleft left Hl). cbn [length].
    specialize (Hcount (left - 1)). cbn in Hcount. rewrite Hl in Hcount. cbn in Hcount.
    specialize (Hcount ltac:(f_equal; lia)). lia.
Qed.

Lemma completions_follow n : forall r b,
  spelled_out r -> sane r -> in_range b -> follows r b (completions n r b).
Proof.
  induction n as [|n IH]; intros r b Hsp Hs Hb; cbn [completions]; [apply follows_nil|].
  pose proof (next_date_least r b Hs Hb) as Hn.
  destruct (next_date r b) as [[next|]|e]; [|apply follows_nil|apply follows_nil].
  destruct Hn as (Hr & Hlt & [Hon Hopen] & Hmin). apply follows_cons; [done|done|done|done| |].
  - intros d [Hlo Hhi] Hf. apply (Hmin d); [done|done|]. split; [done|].
    destruct Hopen as [Hleft Hlast]. split; [done|]. intros last Hl. specialize (Hlast last Hl). lia.
  - apply spelled_advanced in Hsp. rewrite anchored_again by done.
    apply IH; [done| |done]. destruct Hs. by split.
Qed.

(** Completing a repeating task again and again, its rule stored
    anchored as the code stores it, takes it through dates the rule falls on
    as it was given with its first date, in order and with none left out,
    never past the last day and never more often than the count says. *)
Theorem completing_follows_the_rule n rule a :
  sane rule -> in_range a -> follows rule a (completions n (anchored rule a) a).
Proof.
  intros Hs Ha. assert (spelled_out (anchored rule a)) as Hsp by (by exists rule, a).
  destruct (completions_follow n _ a Hsp (sane_anchored rule a Hs) Ha) as [Hsort Hon Hskip Huntil Hcount].
  assert (forall d, falls_on (anchored rule a) a d <-> falls_on rule a d) as Hsame.
  { intros d. apply falls_on_anchored. by left. }
  assert (until_date (anchored rule a) = until_date rule /\ count (anchored rule a) = count rule) as [Hu Hc].
  { unfold until_date, anchored. destruct (freq rule); try case_bool_decide; done. }
  split.
  - done.
  - intros d Hd. by apply Hsame, Hon.
  - intros d e He Hlo Hhi Hf. apply (Hskip d e); [done|done|done|]. by apply Hsame.
  - intros last d Hl. apply Huntil. by rewrite Hu.
  - intros left Hl. apply Hcount. by rewrite Hc.
Qed.
End Meaning.

(** ** A task on the last day of every month *)

Module Demo.

(** A machine whose wall clock shows UTC. *)
Definition utc : Zone := {| local_at := fun t => t + 86400 * epoch; earliest := fun n => Some (n - 86400 * epoch) |}.

Definition month_end : Recurrence :=
  {| freq := Monthly; interval := 1; weekdays := []; until := None; count := Some 3;
     month_week := None; month_day := Some 31 |}.

Definition on (y m d : Z) : Z := unwrap_or 0 (from_ymd_opt y m d).

Lemma month_end_sane : sane month_end.
Proof. by split. Qed.

Lemma on_in_range : in_range (on 2024 1 31).
Proof. vm_compute. split; congruence. Qed.

(** The 29th of February, the 31st of March, and the count is spent. *)
Example goes_through :
  @completions _ utc 5 (anchored month_end (on 2024 1 31)) (on 2024 1 31) = [on 2024 2 29; on 2024 3 31].
Proof. vm_compute. reflexivity. Qed.
End Demo.

Lemma next_date_spec_witness :
  @next_date _ Demo.utc Demo.month_end (Demo.on 2024 1 31) = Ok (Some (Demo.on 2024 2 29)) /\
  falls_on Demo.month_end (Demo.on 2024 1 31) (Demo.on 2024 2 29).
Proof.
  pose proof (@next_date_spec _ _ Demo.utc Demo.month_end (Demo.on 2024 1 31) Demo.month_end_sane Demo.on_in_range) as H.
  assert (@next_date _ Demo.utc Demo.month_end (Demo.on 2024 1 31) = Ok (Some (Demo.on 2024 2 29))) as E
    by (vm_compute; reflexivity).
  split; [exact E|]. rewrite E in H. destruct H as (_ & _ & Hf & _). exact Hf.
Defined.

Lemma completing_follows_the_rule_witness :
  @follows _ Demo.utc Demo.month_end (Demo.on 2024 1 31)
    (@completions _ Demo.utc 5 (anchored Demo.month_end (Demo.on 2024 1 31)) (Demo.on 2024 1 31)).
Proof.
  exact (@completing_follows_the_rule _ _ Demo.utc 5 Demo.month_end (Demo.on 2024 1 31)
           Demo.month_end_sane Demo.on_in_range).
Defined.
End Recurrence.
