(* ===== verification/RRule.v ===== *)
(** * Recurrence rules as text

    Models the reading and writing of RRULE values in
    [meron-core/src/calendar/recurrence.rs]: [parse], [parse_with_month],
    [read_until] and [format].  Reading is strict, and a part the code cannot
    cut in two panics, which is a value here ([Recurrence.Panic]). *)
From S2P Require Import Prelude Text Table Calendar Recurrence.
#[local] Open Scope Z_scope.

Module RRule.
Import Recurrence.

Section Parsing.
Context `{Calendar} `{Zone} `{Stamps}.

Definition bad {A} (what : text) : result failure A := Err (Unsupported what).

Definition some_or_bad {A} (part : text) (o : option A) : result failure A := ok_or (Unsupported part) o.

Definition day_code_in (codes : list text) (s : text) : option Z :=
  Z.of_nat <$> (fst <$> list_find (fun code => eq_ignore_ascii_case code s = true) codes).

Definition day_code : text -> option Z := day_code_in RRULE_DAYS.

(** [s.split_at(n)], which panics when the byte [n] is inside a character. *)
Fixpoint split_at (n : nat) (s : text) : result failure (text * text) :=
  match n, s with
  | O, _ => Ok ([], s)
  | _, [] => Err Panic
  | _, c :: rest =>
      if (utf8_char_len c <=? n)%nat
      then r ← split_at (n - utf8_char_len c) rest; Ok (c :: r.1, r.2)
      else Err Panic
  end.

(** What the parts read so far say. *)
Record Reading := {
  r_freq : option Frequency;
  r_interval : Z;
  r_until : option Z;
  r_count : option Z;
  r_month_day : option Z;
  r_days : list (option Z * Z);
  r_month : option Z
}.

Definition nothing_read : Reading :=
  {| r_freq := None; r_interval := 1; r_until := None; r_count := None; r_month_day := None;
     r_days := []; r_month := None |}.

Definition read_until (s : text) : option Z :=
  date ← (if bool_decide (utf8_len s = 8%nat) then read_date s
          else
            let (body, utc) := match strip_suffix (lit "Z") s with
                               | Some body => (body, true)
                               | None => (s, false)
                               end in
            naive ← read_time body;
            Some (if utc : bool then date_of (local_at (naive - 86400 * epoch)) else date_of naive));
  resolve (date * 86400 + 86340).

(** One day of BYDAY: an ordinal, if any, and a weekday. *)
Definition read_day (part d : text) : result failure (option Z * Z) :=
  let d := trim d in
  _ ← ensure (2 <=? utf8_len d)%nat (Unsupported part);
  cut ← split_at (utf8_len d - 2) d;
  code ← some_or_bad part (day_code cut.2);
  match cut.1 with
  | [] => Ok (None, code)
  | ordinal =>
      n ← some_or_bad part (parse_signed (-128) 127 (trim_start_matches (Z.eqb 43) ordinal));
      Ok (Some n, code)
  end.

Fixpoint read_days (part : text) (ds : list text) (so_far : list (option Z * Z))
    : result failure (list (option Z * Z)) :=
  match ds with
  | [] => Ok so_far
  | d :: rest => r ← read_day part d; read_days part rest (so_far ++ [r])
  end.

(** A number between [lo] and [hi] in [bits] bits. *)
Definition number (part : text) (max lo hi : Z) (value : text) : result failure Z :=
  n ← some_or_bad part (parse_unsigned max value);
  _ ← ensure ((lo <=? n) && (n <=? hi)) (Unsupported part);
  Ok n.

Definition read_freq (value : text) : result failure Frequency :=
  let v := to_ascii_uppercase value in
  if bool_decide (v = lit "DAILY") then Ok Daily
  else if bool_decide (v = lit "WEEKLY") then Ok Weekly
  else if bool_decide (v = lit "MONTHLY") then Ok Monthly
  else if bool_decide (v = lit "YEARLY") then Ok Yearly
  else bad (lit "FREQ=" ++ v).

Definition read_part (st : Reading) (part : text) : result failure Reading :=
  nv ← some_or_bad part (split_once 61 part);
  let name := to_ascii_uppercase (trim nv.1) in
  let value := trim nv.2 in
  let with_ f i u c md ds m :=
    {| r_freq := f; r_interval := i; r_until := u; r_count := c; r_month_day := md; r_days := ds; r_month := m |} in
  if bool_decide (name = lit "FREQ") then
    f ← read_freq value;
    Ok (with_ (Some f) (r_interval st) (r_until st) (r_count st) (r_month_day st) (r_days st) (r_month st))
  else if bool_decide (name = lit "INTERVAL") then
    n ← number part 65535 1 65535 value;
    Ok (with_ (r_freq st) n (r_until st) (r_count st) (r_month_day st) (r_days st) (r_month st))
  else if bool_decide (name = lit "COUNT") then
    n ← number part 65535 1 65535 value;
    Ok (with_ (r_freq st) (r_interval st) (r_until st) (Some n) (r_month_day st) (r_days st) (r_month st))
  else if bool_decide (name = lit "UNTIL") then
    u ← some_or_bad part (read_until value);
    Ok (with_ (r_freq st) (r_interval st) (Some u) (r_count st) (r_month_day st) (r_days st) (r_month st))
  else if bool_decide (name = lit "BYDAY") then
    ds ← read_days part (split_char 44 value) (r_days st);
    Ok (with_ (r_freq st) (r_interval st) (r_until st) (r_count st) (r_month_day st) ds (r_month st))
  else if bool_decide (name = lit "BYMONTHDAY") then
    n ← number part 255 1 31 value;
    Ok (with_ (r_freq st) (r_interval st) (r_until st) (r_count st) (Some n) (r_days st) (r_month st))
  else if bool_decide (name = lit "BYMONTH") then
    n ← number part (2 ^ 32 - 1) 1 12 value;
    Ok (with_ (r_freq st) (r_interval st) (r_until st) (r_count st) (r_month_day st) (r_days st) (Some n))
  else if bool_decide (name = lit "WKST") && eq_ignore_ascii_case value (lit "MO") then Ok st
  else bad part.

Fixpoint read_parts (st : Reading) (parts : list text) : result failure Reading :=
  match parts with
  | [] => Ok st
  | p :: rest => st ← read_part st p; read_parts st rest
  end.

Definition rule_of (st : Reading) (f : Frequency) (days : list Z) (month_week : option Z) : Recurrence :=
  {| freq := f; interval := r_interval st; weekdays := days; until := r_until st; count := r_count st;
     month_week := month_week; month_day := r_month_day st |}.

(** The parts taken together. *)
Definition conclude (st : Reading) : result failure (Recurrence * option Z) :=
  f ← some_or_bad (lit "no FREQ") (r_freq st);
  _ ← ensure (negb (bool_decide (is_Some (r_until st)) && bool_decide (is_Some (r_count st))))
        (Unsupported (lit "UNTIL with COUNT"));
  match f with
  | Daily | Weekly =>
      _ ← ensure (negb (bool_decide (is_Some (r_month_day st)) || bool_decide (is_Some (r_month st)) ||
                        existsb (fun d => bool_decide (is_Some d.1)) (r_days st)))
            (Unsupported (lit "a day of the month on a daily or weekly rule"));
      let days := snd <$> r_days st in
      if bool_decide (f = Daily) && negb (is_nil days) then
        _ ← ensure (r_interval st =? 1) (Unsupported (lit "BYDAY on a rule every few days"));
        Ok (rule_of st Weekly days None, r_month st)
      else Ok (rule_of st f days None, r_month st)
  | Monthly | Yearly =>
      _ ← ensure (negb (bool_decide (f = Monthly) && bool_decide (is_Some (r_month st))))
            (Unsupported (lit "BYMONTH on a monthly rule"));
      wd ← match r_days st with
           | [] => Ok (None, [])
           | [(Some n, d)] =>
               if ((1 <=? n) && (n <=? 4)) || (n =? -1) then
                 _ ← ensure (negb (bool_decide (is_Some (r_month_day st))))
                       (Unsupported (lit "both a weekday and a day of the month"));
                 Ok (Some n, [d])
               else bad (lit "BYDAY")
           | _ => bad (lit "BYDAY")
           end;
      _ ← ensure (negb (bool_decide (f = Yearly) && negb (bool_decide (is_Some (r_month st))) &&
                        (bool_decide (is_Some (r_month_day st)) || bool_decide (is_Some (wd.1 : option Z)))))
            (Unsupported (lit "a yearly rule with no month"));
      Ok (rule_of st f wd.2 wd.1, r_month st)
  end.

Definition rule_body (s : text) : text :=
  let body := trim s in
  match strip_prefix (lit "RRULE:") body with
  | Some b => b
  | None => unwrap_or body (strip_prefix (lit "rrule:") body)
  end.

Definition parse_with_month (s : text) : result failure (Recurrence * option Z) :=
  st ← read_parts nothing_read (base.filter (fun p => trim p <> []) (split_char 59 (rule_body s)));
  conclude st.

Definition parse (s : text) : result failure Recurrence := fst <$> parse_with_month s.

(** ** Writing *)

Definition rrule_day (d : Z) : text := unwrap_or [] (RRULE_DAYS !! Z.to_nat d).

Definition freq_name (f : Frequency) : text :=
  match f with
  | Daily => lit "DAILY"
  | Weekly => lit "WEEKLY"
  | Monthly => lit "MONTHLY"
  | Yearly => lit "YEARLY"
  end.

Definition day_parts (rule : Recurrence) (anchor : Z) : list text :=
  match freq rule with
  | Daily => []
  | Weekly => [lit "BYDAY=" ++ join (lit ",") (rrule_day <$> week_days rule (weekday anchor))]
  | Monthly | Yearly =>
      (if bool_decide (freq rule = Yearly) then [lit "BYMONTH=" ++ show_Z (month anchor)] else []) ++
      [match month_week rule with
       | Some n =>
           let d := unwrap_or (weekday anchor) (base.filter (fun d => d < 7) (take 1 (weekdays rule)) !! 0%nat) in
           lit "BYDAY=" ++ show_Z n ++ rrule_day d
       | None => lit "BYMONTHDAY=" ++ show_Z (unwrap_or (day anchor) (month_day rule))
       end]
  end.

(** [DateTime::<Utc>::from_timestamp(at, 0).unwrap_or_default()] *)
Definition utc_of (at_ : Z) : Z :=
  if bool_decide (in_range (at_ / 86400 + epoch)) then at_ + 86400 * epoch else 86400 * epoch.

Definition end_parts (rule : Recurrence) (all_day : bool) : list text :=
  match until rule, count rule with
  | Some u, _ =>
      match start_date u with
      | None => []
      | Some d =>
          if all_day then [lit "UNTIL=" ++ show_date d]
          else match resolve (d * 86400 + 86399) with
               | Some at_ => [lit "UNTIL=" ++ show_time (utc_of at_) ++ lit "Z"]
               | None => []
               end
      end
  | None, Some c => [lit "COUNT=" ++ show_Z (Z.max c 1)]
  | None, None => []
  end.

Definition format_parts (rule : Recurrence) (anchor : Z) (all_day : bool) : list text :=
  let interval := Z.max (interval rule) 1 in
  [lit "FREQ=" ++ freq_name (freq rule)] ++
  (if 1 <? interval then [lit "INTERVAL=" ++ show_Z interval] else []) ++
  day_parts rule anchor ++ end_parts rule all_day.

Definition format (rule : Recurrence) (anchor : Z) (all_day : bool) : text :=
  join (lit ";") (format_parts rule anchor all_day).
End Parsing.

(** ** What is written is read back *)

(** What [chrono] promises: a wall clock time names an instant at which the
    wall clock shows it, and digits are read as they are written. *)
Class StampLaws `{Calendar} (Z0 : Zone) (S : Stamps) := {
  earliest_local : forall n t, earliest n = Some t -> local_at t = n;
  date_digits : forall d, in_range d -> 0 <= year d <= 9999 ->
    read_date (show_date d) = Some d /\ length (show_date d) = 8%nat /\
    Forall (fun c => is_ascii_alphanumeric c = true) (show_date d);
  time_digits : forall n, in_range (n / 86400) -> 0 <= year (n / 86400) <= 9999 ->
    read_time (show_time n) = Some n /\ length (show_time n) = 15%nat /\
    Forall (fun c => is_ascii_alphanumeric c = true) (show_time n)
}.

Section RoundTrip.
Context `{C : Calendar} {CL : CalendarLaws C} `{Z0 : Zone} `{S : Stamps} {SL : StampLaws Z0 S}.

(** Characters a value is written with: neither spaces nor separators. *)
Definition plain (c : Z) : Prop := is_whitespace c = false /\ c <> 59 /\ c <> 44.
Definition no_break (c : Z) : Prop := is_whitespace c = false /\ c <> 59.

Lemma plain_alnum c : is_ascii_alphanumeric c = true -> plain c.
Proof.
  unfold is_ascii_alphanumeric, is_ascii_digit, is_ascii_upper, is_ascii_lower, plain, is_whitespace.
  bools. lia.
Qed.

Lemma plain_no_break c : plain c -> no_break c.
Proof. by intros (? & ? & _). Qed.

Lemma plain_lit s : Forall (fun c => is_ascii_alphanumeric c = true) (lit s) -> Forall plain (lit s).
Proof. intros Hs. eapply Forall_impl; [exact Hs|]. apply plain_alnum. Qed.

Lemma plain_number n : 0 <= n -> Forall plain (show_Z n).
Proof.
  intros Hn. destruct (show_Z_digits n Hn) as [Hs _]. eapply Forall_impl; [exact Hs|]. intros c Hc.
  apply plain_alnum. unfold is_ascii_alphanumeric. by rewrite Hc.
Qed.

Lemma trim_no_break v : Forall no_break v -> trim v = v.
Proof. intros Hv. apply trim_id. eapply Forall_impl; [exact Hv|]. by intros c []. Qed.

Ltac names := repeat (rewrite bool_decide_false by (vm_compute; discriminate));
  try rewrite bool_decide_true by reflexivity.
Ltac absent :=
  match goal with |- ?c ∉ ?s => apply (bool_decide_eq_true_1 (c ∉ s)); vm_compute; reflexivity end.

Definition set_freq f (st : Reading) : Reading :=
  {| r_freq := Some f; r_interval := r_interval st; r_until := r_until st; r_count := r_count st;
     r_month_day := r_month_day st; r_days := r_days st; r_month := r_month st |}.
Definition set_interval n (st : Reading) : Reading :=
  {| r_freq := r_freq st; r_interval := n; r_until := r_until st; r_count := r_count st;
     r_month_day := r_month_day st; r_days := r_days st; r_month := r_month st |}.
Definition set_until u (st : Reading) : Reading :=
  {| r_freq := r_freq st; r_interval := r_interval st; r_until := Some u; r_count := r_count st;
     r_month_day := r_month_day st; r_days := r_days st; r_month := r_month st |}.
Definition set_count n (st : Reading) : Reading :=
  {| r_freq := r_freq st; r_interval := r_interval st; r_until := r_until st; r_count := Some n;
     r_month_day := r_month_day st; r_days := r_days st; r_month := r_month st |}.
Definition set_month_day n (st : Reading) : Reading :=
  {| r_freq := r_freq st; r_interval := r_interval st; r_until := r_until st; r_count := r_count st;
     r_month_day := Some n; r_days := r_days st; r_month := r_month st |}.
Definition set_days ds (st : Reading) : Reading :=
  {| r_freq := r_freq st; r_interval := r_interval st; r_until := r_until st; r_count := r_count st;
     r_month_day := r_month_day st; r_days := ds; r_month := r_month st |}.
Definition set_month n (st : Reading) : Reading :=
  {| r_freq := r_freq st; r_interval := r_interval st; r_until := r_until st; r_count := r_count st;
     r_month_day := r_month_day st; r_days := r_days st; r_month := Some n |}.

Lemma read_freq_part st v : Forall no_break v ->
  read_part st (lit "FREQ=" ++ v) =
  (f ← read_freq v; Ok (set_freq f st)).
Proof.
  intros Hv. unfold read_part. change (lit "FREQ=" ++ v) with (lit "FREQ" ++ 61 :: v).
  rewrite split_once_app by absent. cbn [some_or_bad ok_or mbind result_bind fst snd].
  rewrite (trim_no_break v Hv). change (to_ascii_uppercase (trim (lit "FREQ"))) with (lit "FREQ").
  names. done.
Qed.

Lemma read_interval st v : Forall no_break v ->
  read_part st (lit "INTERVAL=" ++ v) =
  (n ← number (lit "INTERVAL=" ++ v) 65535 1 65535 v; Ok (set_interval n st)).
Proof.
  intros Hv. unfold read_part. change (lit "INTERVAL=" ++ v) with (lit "INTERVAL" ++ 61 :: v).
  rewrite split_once_app by absent. cbn [some_or_bad ok_or mbind result_bind fst snd].
  rewrite (trim_no_break v Hv). change (to_ascii_uppercase (trim (lit "INTERVAL"))) with (lit "INTERVAL").
  names. done.
Qed.

Lemma read_count st v : Forall no_break v ->
  read_part st (lit "COUNT=" ++ v) =
  (n ← number (lit "COUNT=" ++ v) 65535 1 65535 v; Ok (set_count n st)).
Proof.
  intros Hv. unfold read_part. change (lit "COUNT=" ++ v) with (lit "COUNT" ++ 61 :: v).
  rewrite split_once_app by absent. cbn [some_or_bad ok_or mbind result_bind fst snd].
  rewrite (trim_no_break v Hv). change (to_ascii_uppercase (trim (lit "COUNT"))) with (lit "COUNT").
  names. done.
Qed.

Lemma read_until_part st v : Forall no_break v ->
  read_part st (lit "UNTIL=" ++ v) =
  (u ← some_or_bad (lit "UNTIL=" ++ v) (read_until v); Ok (set_until u st)).
Proof.
  intros Hv. unfold read_part. change (lit "UNTIL=" ++ v) with (lit "UNTIL" ++ 61 :: v).
  rewrite split_once_app by absent. cbn [some_or_bad ok_or mbind result_bind fst snd].
  rewrite (trim_no_break v Hv). change (to_ascii_uppercase (trim (lit "UNTIL"))) with (lit "UNTIL").
  names. done.
Qed.

Lemma read_byday st v : Forall no_break v ->
  read_part st (lit "BYDAY=" ++ v) =
  (ds ← read_days (lit "BYDAY=" ++ v) (split_char 44 v) (r_days st); Ok (set_days ds st)).
Proof.
  intros Hv. unfold read_part. change (lit "BYDAY=" ++ v) with (lit "BYDAY" ++ 61 :: v).
  rewrite split_once_app by absent. cbn [some_or_bad ok_or mbind result_bind fst snd].
  rewrite (trim_no_break v Hv). change (to_ascii_uppercase (trim (lit "BYDAY"))) with (lit "BYDAY").
  names. done.
Qed.

Lemma read_month_day st v : Forall no_break v ->
  read_part st (lit "BYMONTHDAY=" ++ v) =
  (n ← number (lit "BYMONTHDAY=" ++ v) 255 1 31 v; Ok (set_month_day n st)).
Proof.
  intros Hv. unfold read_part. change (lit "BYMONTHDAY=" ++ v) with (lit "BYMONTHDAY" ++ 61 :: v).
  rewrite split_once_app by absent. cbn [some_or_bad ok_or mbind result_bind fst snd].
  rewrite (trim_no_break v Hv). change (to_ascii_uppercase (trim (lit "BYMONTHDAY"))) with (lit "BYMONTHDAY").
  names. done.
Qed.

Lemma read_month st v : Forall no_break v ->
  read_part st (lit "BYMONTH=" ++ v) =
  (n ← number (lit "BYMONTH=" ++ v) (2 ^ 32 - 1) 1 12 v; Ok (set_month n st)).
Proof.
  intros Hv. unfold read_part. change (lit "BYMONTH=" ++ v) with (lit "BYMONTH" ++ 61 :: v).
  rewrite split_once_app by absent. cbn [some_or_bad ok_or mbind result_bind fst snd].
  rewrite (trim_no_break v Hv). change (to_ascii_uppercase (trim (lit "BYMONTH"))) with (lit "BYMONTH").
  names. done.
Qed.

Lemma number_show part max lo hi n :
  0 <= lo -> lo <= n <= hi -> hi <= max -> number part max lo hi (show_Z n) = Ok n.
Proof.
  intros H0 Hn Hmax. unfold number. rewrite parse_unsigned_show by lia. cbn.
  rewrite (proj2 (Z.leb_le lo n)), (proj2 (Z.leb_le n hi)) by lia. done.
Qed.

Lemma Forall_no_break v : Forall plain v -> Forall no_break v.
Proof. intros Hv. eapply Forall_impl; [exact Hv|]. apply plain_no_break. Qed.

(** *** Weekdays *)

Lemma weekday_cases d : 0 <= d < 7 -> d = 0 \/ d = 1 \/ d = 2 \/ d = 3 \/ d = 4 \/ d = 5 \/ d = 6.
Proof. lia. Qed.

Ltac each_weekday Hd := apply weekday_cases in Hd; repeat destruct Hd as [->|Hd]; [..|subst].

Lemma plain_rrule_day d : 0 <= d < 7 -> Forall plain (rrule_day d).
Proof. intros Hd. each_weekday Hd; apply (plain_lit _); repeat constructor. Qed.

Lemma read_code part d : 0 <= d < 7 -> read_day part (rrule_day d) = Ok (None, d).
Proof. intros Hd. each_weekday Hd; reflexivity. Qed.

Lemma read_codes part ds so_far : Forall (fun d => 0 <= d < 7) ds ->
  read_days part (rrule_day <$> ds) so_far = Ok (so_far ++ ((fun d => (None, d)) <$> ds)).
Proof.
  intros Hds. revert so_far. induction Hds as [|d ds Hd Hds IH]; intros so_far; cbn; [by rewrite app_nil_r|].
  rewrite read_code by done. cbn. rewrite IH. by rewrite <- app_assoc.
Qed.

Lemma split_codes ds : ds <> [] -> Forall (fun d => 0 <= d < 7) ds ->
  split_char 44 (join (lit ",") (rrule_day <$> ds)) = rrule_day <$> ds.
Proof.
  intros Hne Hds. change (lit ",") with [44]. apply split_char_join; [by destruct ds|].
  apply Forall_fmap. eapply Forall_impl; [exact Hds|]. intros d Hd%plain_rrule_day. cbn.
  intros Hc. rewrite Forall_forall in Hd. by destruct (Hd 44 Hc) as (_ & _ & ?).
Qed.

Lemma no_break_join ds : Forall (fun d => 0 <= d < 7) ds ->
  Forall no_break (join (lit ",") (rrule_day <$> ds)).
Proof.
  induction 1 as [|d ds Hd Hds IH]; [constructor|]. apply plain_rrule_day, Forall_no_break in Hd.
  destruct ds as [|e ds]; [done|]. cbn [fmap list_fmap join] in *. apply Forall_app. split; [done|].
  apply Forall_app. split; [|exact IH]. by repeat constructor.
Qed.

(** The nth weekday of a month. *)
Lemma read_nth part n d : n = -1 \/ 1 <= n <= 4 -> 0 <= d < 7 ->
  Forall no_break (show_Z n ++ rrule_day d) /\
  read_days part (split_char 44 (show_Z n ++ rrule_day d)) [] = Ok [(Some n, d)].
Proof.
  intros Hn Hd. assert (n = -1 \/ n = 1 \/ n = 2 \/ n = 3 \/ n = 4) as Hcases by lia. split.
  - apply Forall_app. split; [|by apply Forall_no_break, plain_rrule_day].
    destruct Hcases as [->|Hc]; [by repeat constructor|]. apply Forall_no_break, plain_number. lia.
  - clear Hn. repeat destruct Hcases as [->|Hcases]; [..|subst]; each_weekday Hd; reflexivity.
Qed.

(** *** The last day *)

(** The last day of a series has an end here, in four-digit years. *)
Definition ends_here (u t : Z) : Prop :=
  exists d s, start_date u = Some d /\ in_range d /\ 0 <= year d <= 9999 /\
    earliest (d * 86400 + 86340) = Some t /\ earliest (d * 86400 + 86399) = Some s /\
    in_range (s / 86400 + epoch) /\ 0 <= year (s / 86400 + epoch) <= 9999.

Lemma utf8_len_ascii v : Forall (fun c => is_ascii_alphanumeric c = true) v -> utf8_len v = length v.
Proof.
  unfold utf8_len. induction 1 as [|c v Hc Hv IH]; [done|]. cbn [fmap list_fmap list_sum foldr] in *.
  cbn. unfold list_sum in IH. rewrite IH. unfold utf8_char_len.
  assert (c < 128) as Hlt.
  { unfold is_ascii_alphanumeric, is_ascii_digit, is_ascii_upper, is_ascii_lower in Hc.
    bools in Hc. lia. }
  by rewrite (proj2 (Z.ltb_lt _ _) Hlt).
Qed.

Lemma resolve_earliest n t : earliest n = Some t -> resolve n = Some t.
Proof. intros Hn. unfold resolve. by rewrite Hn. Qed.

Lemma read_date_until d t :
  in_range d -> 0 <= year d <= 9999 -> earliest (d * 86400 + 86340) = Some t ->
  read_until (show_date d) = Some t /\ Forall no_break (show_date d).
Proof.
  intros Hd Hy Ht. destruct (date_digits d Hd Hy) as (Hr & Hl & Ha). split.
  - unfold read_until. rewrite utf8_len_ascii, Hl, bool_decide_true by done. rewrite Hr. cbn.
    by apply resolve_earliest.
  - eapply Forall_impl; [exact Ha|]. intros c Hc. by apply plain_no_break, plain_alnum.
Qed.

Lemma read_time_until d s t :
  earliest (d * 86400 + 86399) = Some s -> earliest (d * 86400 + 86340) = Some t ->
  in_range (s / 86400 + epoch) -> 0 <= year (s / 86400 + epoch) <= 9999 ->
  read_until (show_time (utc_of s) ++ lit "Z") = Some t /\ Forall no_break (show_time (utc_of s) ++ lit "Z").
Proof.
  intros Hs Ht Hr Hy. unfold utc_of. rewrite bool_decide_true by done.
  assert ((s + 86400 * epoch) / 86400 = s / 86400 + epoch) as Hdiv.
  { replace (s + 86400 * epoch) with (s + epoch * 86400) by lia. by rewrite Z.div_add. }
  destruct (time_digits (s + 86400 * epoch)) as (Hread & Hl & Ha); [by rewrite Hdiv|by rewrite Hdiv|].
  assert (Forall (fun c => is_ascii_alphanumeric c = true) (show_time (s + 86400 * epoch) ++ lit "Z")) as Haz.
  { apply Forall_app. split; [done|by repeat constructor]. }
  split.
  - unfold read_until. rewrite utf8_len_ascii by done. rewrite length_app, Hl. cbn [length lit].
    rewrite bool_decide_false by (vm_compute; discriminate).
    assert (strip_suffix (lit "Z") (show_time (s + 86400 * epoch) ++ lit "Z") = Some (show_time (s + 86400 * epoch)))
      as ->.
    { unfold strip_suffix. rewrite (proj2 (ends_with_spec _ _)) by eauto. f_equal.
      rewrite length_app. replace (_ + _ - _)%nat with (length (show_time (s + 86400 * epoch))) by lia.
      by rewrite take_app_length. }
    rewrite Hread. cbn [mbind option_bind]. replace (s + 86400 * epoch - 86400 * epoch) with s by lia.
    rewrite (earliest_local _ _ Hs). unfold date_of. rewrite Z.div_add_l by lia.
    change (86399 / 86400) with 0. rewrite Z.add_0_r. by apply resolve_earliest.
  - eapply Forall_impl; [exact Haz|]. intros c Hc. by apply plain_no_break, plain_alnum.
Qed.

(** *** The whole rule *)

(** A rule within the widths of the code, of the kind the editors write. *)
Record writable (rule : Recurrence) : Prop := {
  wr_sane : sane rule;
  wr_days : Forall (fun d => d < 7) (weekdays rule);
  wr_interval : interval rule <= 65535;
  wr_count : forall c, count rule = Some c -> c <= 65535;
  wr_day : forall d, month_day rule = Some d -> 1 <= d <= 31;
  wr_until : forall u, until rule = Some u -> exists t, ends_here u t
}.

Definition first_weekday (rule : Recurrence) (anchor : Z) : Z :=
  unwrap_or (weekday anchor) (base.filter (fun d => d < 7) (take 1 (weekdays rule)) !! 0%nat).

(** What is read back: the rule with its days spelled out, and its last day
    at its last minute. *)
Definition days_back (rule : Recurrence) (anchor : Z) : list Z :=
  match freq rule with
  | Daily => []
  | Weekly => week_days rule (weekday anchor)
  | Monthly | Yearly => if bool_decide (is_Some (month_week rule)) then [first_weekday rule anchor] else []
  end.

Definition until_back (rule : Recurrence) : option Z :=
  u ← until rule; d ← start_date u; resolve (d * 86400 + 86340).

Definition monthly (rule : Recurrence) : bool :=
  bool_decide (freq rule = Monthly) || bool_decide (freq rule = Yearly).

Definition read_back (rule : Recurrence) (anchor : Z) : Recurrence :=
  {| freq := freq rule; interval := Z.max (interval rule) 1; weekdays := days_back rule anchor;
     until := until_back rule;
     count := if bool_decide (is_Some (until rule)) then None else (fun c => Z.max c 1) <$> count rule;
     month_week := if monthly rule then month_week rule else None;
     month_day := if monthly rule && negb (bool_decide (is_Some (month_week rule)))
                  then Some (unwrap_or (day anchor) (month_day rule)) else None |}.

Lemma read_parts_app st a b : read_parts st (a ++ b) = (st' ← read_parts st a; read_parts st' b).
Proof.
  revert st. induction a as [|p a IH]; intros st; [done|]. cbn [app read_parts].
  destruct (read_part st p) as [st'|e]; cbn; [apply IH|done].
Qed.

Lemma read_freq_name f : read_freq (freq_name f) = Ok f.
Proof. by destruct f. Qed.

Lemma no_break_freq f : Forall no_break (freq_name f).
Proof. apply Forall_no_break. destruct f; apply (plain_lit _); repeat constructor. Qed.

Lemma no_break_app a b : Forall no_break a -> Forall no_break b -> Forall no_break (a ++ b).
Proof. intros. by apply Forall_app. Qed.

Ltac no_break_name := repeat constructor; vm_compute; congruence.

(** A part: something, and no separator in it. *)
Definition good_part (v : text) : Prop := Forall no_break v /\ v <> [].

Lemma good_name n v : Forall no_break n -> n <> [] -> Forall no_break v -> good_part (n ++ v).
Proof. intros Hn Hne Hv. split; [by apply no_break_app|]. by destruct n. Qed.

Ltac good := apply good_name; [no_break_name|done|done].

Lemma head_read rule : writable rule ->
  let parts := [lit "FREQ=" ++ freq_name (freq rule)] ++
    (if 1 <? Z.max (interval rule) 1 then [lit "INTERVAL=" ++ show_Z (Z.max (interval rule) 1)] else []) in
  Forall good_part parts /\
  read_parts nothing_read parts = Ok (set_interval (Z.max (interval rule) 1) (set_freq (freq rule) nothing_read)).
Proof.
  intros Hw. pose proof (wr_interval rule Hw) as Hi. cbn zeta. pose proof (no_break_freq (freq rule)) as Hf.
  assert (good_part (lit "FREQ=" ++ freq_name (freq rule))) as Hf' by good.
  cbn [app read_parts]. rewrite read_freq_part, read_freq_name by done. cbn [mbind result_bind].
  destruct (Z.ltb_spec 1 (Z.max (interval rule) 1)) as [Hlt|Hle].
  - assert (Forall no_break (show_Z (Z.max (interval rule) 1))) as Hs by (apply Forall_no_break, plain_number; lia).
    split; [constructor; [done|constructor; [|done]]; good|].
    cbn [read_parts]. rewrite read_interval by done. rewrite number_show by lia. done.
  - split; [by constructor|]. cbn [read_parts]. by replace (Z.max (interval rule) 1) with 1 by lia.
Qed.

Definition with_days (rule : Recurrence) (anchor : Z) (st : Reading) : Reading :=
  match freq rule with
  | Daily => st
  | Weekly => set_days ((fun d => (None, d)) <$> week_days rule (weekday anchor)) st
  | Monthly | Yearly =>
      let st := if bool_decide (freq rule = Yearly) then set_month (month anchor) st else st in
      match month_week rule with
      | Some n => set_days [(Some n, first_weekday rule anchor)] st
      | None => set_month_day (unwrap_or (day anchor) (month_day rule)) st
      end
  end.

Lemma first_weekday_bounds rule anchor : sane rule -> 0 <= first_weekday rule anchor < 7.
Proof.
  intros [Hd _]. unfold first_weekday. pose proof (weekday_bounds anchor).
  destruct (weekdays rule) as [|d ds]; [done|]. apply Forall_cons in Hd as [Hd _].
  cbn [take]. rewrite filter_cons. case_decide; cbn; [lia|done].
Qed.

Lemma days_read rule anchor st : writable rule -> in_range anchor -> r_days st = [] ->
  Forall good_part (day_parts rule anchor) /\
  read_parts st (day_parts rule anchor) = Ok (with_days rule anchor st).
Proof.
  intros Hw Ha Hst. pose proof (wr_sane rule Hw) as Hs.
  pose proof (month_bounds anchor Ha) as Hm. pose proof (day_bounds anchor Ha) as Hday.
  unfold day_parts, with_days.
  assert (forall st, r_days st = [] ->
    let part := match month_week rule with
                | Some n => lit "BYDAY=" ++ show_Z n ++ rrule_day (first_weekday rule anchor)
                | None => lit "BYMONTHDAY=" ++ show_Z (unwrap_or (day anchor) (month_day rule))
                end in
    good_part part /\
    read_parts st [part] = Ok match month_week rule with
      | Some n => set_days [(Some n, first_weekday rule anchor)] st
      | None => set_month_day (unwrap_or (day anchor) (month_day rule)) st
      end) as Hlast.
  { clear st Hst. intros st Hst. cbn zeta. destruct (month_week rule) as [n|] eqn:Hn.
    - destruct (read_nth (lit "BYDAY=" ++ show_Z n ++ rrule_day (first_weekday rule anchor)) n
                  (first_weekday rule anchor)) as [Hnb Hread];
        [by apply (sane_week rule Hs)|by apply first_weekday_bounds|].
      split; [good|]. cbn [read_parts].
      rewrite read_byday by done. rewrite Hst, Hread. done.
    - assert (1 <= unwrap_or (day anchor) (month_day rule) <= 31) as Hb.
      { destruct (month_day rule) as [d|] eqn:Hd; cbn; [by apply (wr_day rule Hw)|done]. }
      assert (Forall no_break (show_Z (unwrap_or (day anchor) (month_day rule)))) as Hs'
        by (apply Forall_no_break, plain_number; lia).
      split; [good|]. cbn [read_parts].
      rewrite read_month_day by done. by rewrite number_show by lia. }
  destruct (freq rule) eqn:Hf.
  - by split.
  - pose proof (week_days_bounds rule anchor) as Hb. destruct (week_days_spec rule (weekday anchor)) as (_ & Hne & _).
    assert (Forall (fun d => 0 <= d < 7) (week_days rule (weekday anchor))) as Hds.
    { apply Forall_forall. intros d Hd. by apply Hb. }
    pose proof (no_break_join _ Hds) as Hj.
    split; [constructor; [|done]; good|]. cbn [read_parts].
    rewrite read_byday by done. rewrite split_codes, read_codes by done. by rewrite Hst.
  - rewrite bool_decide_false by done. destruct (Hlast st Hst) as [Hnb Hread]. by split; [constructor|].
  - rewrite bool_decide_true by done. cbn [app].
    assert (Forall no_break (show_Z (month anchor))) as Hs' by (apply Forall_no_break, plain_number; lia).
    destruct (Hlast (set_month (month anchor) st) Hst) as [Hnb Hread].
    split; [constructor; [good|by constructor]|].
    cbn [read_parts] in *. rewrite read_month by done. rewrite number_show by lia. exact Hread.
Qed.

Definition with_end (rule : Recurrence) (st : Reading) : Reading :=
  match until_back rule, count rule with
  | Some t, _ => set_until t st
  | None, Some c => set_count (Z.max c 1) st
  | None, None => st
  end.

Lemma until_back_Some rule u : writable rule -> until rule = Some u ->
  exists d s t, start_date u = Some d /\ until_back rule = Some t /\ in_range d /\ 0 <= year d <= 9999 /\
    earliest (d * 86400 + 86340) = Some t /\ earliest (d * 86400 + 86399) = Some s /\
    in_range (s / 86400 + epoch) /\ 0 <= year (s / 86400 + epoch) <= 9999.
Proof.
  intros Hw Hu. destruct (wr_until rule Hw u Hu) as (t & d & s & Hd & Hr & Hy & Ht & Hs).
  exists d, s, t. unfold until_back. rewrite Hu. cbn. rewrite Hd. cbn.
  rewrite (resolve_earliest _ _ Ht). done.
Qed.

Lemma end_read rule all_day st : writable rule ->
  Forall good_part (end_parts rule all_day) /\
  read_parts st (end_parts rule all_day) = Ok (with_end rule st).
Proof.
  intros Hw. unfold end_parts, with_end. destruct (until rule) as [u|] eqn:Hu.
  - destruct (until_back_Some rule u Hw Hu) as (d & s & t & Hd & -> & Hr & Hy & Ht & Hs & Hrs & Hys).
    rewrite Hd. destruct all_day.
    + destruct (read_date_until d t Hr Hy Ht) as [Hread Hnb].
      split; [constructor; [good|done]|]. cbn [read_parts].
      rewrite read_until_part by done. by rewrite Hread.
    + rewrite (resolve_earliest _ _ Hs). destruct (read_time_until d s t Hs Ht Hrs Hys) as [Hread Hnb].
      split; [constructor; [good|done]|]. cbn [read_parts].
      rewrite read_until_part by done. by rewrite Hread.
  - unfold until_back. rewrite Hu. cbn [mbind option_bind]. destruct (count rule) as [c|] eqn:Hc; [|by split].
    pose proof (wr_count rule Hw c Hc).
    assert (Forall no_break (show_Z (Z.max c 1))) as Hs by (apply Forall_no_break, plain_number; lia).
    split; [constructor; [good|done]|]. cbn [read_parts].
    rewrite read_count by done. by rewrite number_show by lia.
Qed.

Lemma conclude_back rule anchor : writable rule ->
  conclude (with_end rule (with_days rule anchor
    (set_interval (Z.max (interval rule) 1) (set_freq (freq rule) nothing_read)))) =
  Ok (read_back rule anchor, if bool_decide (freq rule = Yearly) then Some (month anchor) else None).
Proof.
  intros Hw. assert (until_back rule = None -> until rule = None) as Hu.
  { intros Hn. destruct (until rule) as [u|] eqn:Hu; [|done].
    destruct (until_back_Some rule u Hw Hu) as (d & s & t & _ & Hb & _). congruence. }
  unfold with_end, read_back, conclude, with_days, days_back, monthly.
  assert (forall (n : Z), n = -1 \/ 1 <= n <= 4 -> ((1 <=? n) && (n <=? 4)) || (n =? -1) = true) as Hn.
  { intros n Hn. bools. lia. }
  pose proof (sane_week rule (wr_sane rule Hw)) as Hweek.
  assert (forall l : list Z, existsb (fun d : option Z * Z => bool_decide (is_Some d.1)) ((fun d => (None, d)) <$> l) = false)
    as Hex by by induction l.
  assert (forall l : list Z, snd <$> ((fun d => (None : option Z, d)) <$> l) = l) as Hsnd.
  { intros l. rewrite <- list_fmap_compose. apply list_fmap_id. }
  assert (bool_decide (is_Some (until rule)) = bool_decide (is_Some (until_back rule))) as ->.
  { apply bool_decide_ext. split; [|intros [t Ht]].
    - intros [u Hu']. destruct (until_back rule); [by eexists|]. by rewrite Hu in Hu'.
    - unfold until_back in Ht. by destruct (until rule). }
  clear Hu. generalize (until_back rule). intros ub.
  destruct ub as [t|], (count rule) as [c|], (freq rule) eqn:Hf, (month_week rule) as [n|] eqn:Hmw;
    cbn -[Z.max]; rewrite ?Hex, ?Hsnd; try (rewrite (Hn n (Hweek n eq_refl))); cbn -[Z.max]; reflexivity.
Qed.

Lemma no_break_parts rule anchor all_day : writable rule -> in_range anchor ->
  Forall good_part (format_parts rule anchor all_day) /\
  read_parts nothing_read (format_parts rule anchor all_day) =
    Ok (with_end rule (with_days rule anchor
          (set_interval (Z.max (interval rule) 1) (set_freq (freq rule) nothing_read)))).
Proof.
  intros Hw Ha. destruct (head_read rule Hw) as [Hnb1 Hr1].
  set (st1 := set_interval _ _) in *. destruct (days_read rule anchor st1 Hw Ha eq_refl) as [Hnb2 Hr2].
  destruct (end_read rule all_day (with_days rule anchor st1) Hw) as [Hnb3 Hr3].
  unfold format_parts. rewrite app_assoc. split.
  - apply Forall_app. split; [done|]. by apply Forall_app.
  - rewrite read_parts_app, Hr1. cbn [mbind result_bind]. rewrite read_parts_app, Hr2. exact Hr3.
Qed.

Lemma no_space_join parts : Forall good_part parts ->
  Forall (fun c => is_whitespace c = false) (join (lit ";") parts).
Proof.
  induction 1 as [|v vs [Hv _] Hvs IH]; [constructor|].
  assert (Forall (fun c => is_whitespace c = false) v) as Hv' by (eapply Forall_impl; [exact Hv|]; by intros c []).
  destruct vs as [|v' vs]; [done|]. cbn [join] in *. apply Forall_app. split; [done|].
  apply Forall_app. split; [by repeat constructor|done].
Qed.

Lemma filter_good parts : Forall good_part parts -> base.filter (fun p => trim p <> []) parts = parts.
Proof.
  induction 1 as [|v vs [Hv Hne] Hvs IH]; [done|].
  rewrite filter_cons, trim_no_break, decide_True by done. by rewrite IH.
Qed.

Lemma body_of_format p rest :
  let parts := (lit "FREQ=" ++ p) :: rest in
  Forall good_part parts ->
  base.filter (fun p => trim p <> []) (split_char 59 (rule_body (join (lit ";") parts))) = parts.
Proof.
  cbn zeta. intros Hg. unfold rule_body. rewrite trim_id by by apply no_space_join.
  assert (exists s, join (lit ";") ((lit "FREQ=" ++ p) :: rest) = 70 :: s) as [s Hs].
  { destruct rest; cbn [join]; eexists; reflexivity. }
  assert (strip_prefix (lit "RRULE:") (join (lit ";") ((lit "FREQ=" ++ p) :: rest)) = None) as -> by by rewrite Hs.
  assert (strip_prefix (lit "rrule:") (join (lit ";") ((lit "FREQ=" ++ p) :: rest)) = None) as -> by by rewrite Hs.
  cbn [unwrap_or]. change (lit ";") with [59]. rewrite split_char_join; [by apply filter_good|done|].
  eapply Forall_impl; [exact Hg|]. intros v [Hv _] Hin. rewrite Forall_forall in Hv. by destruct (Hv 59 Hin).
Qed.

(** What is read back falls on the same days. *)
Lemma first_weekday_named rule anchor : writable rule ->
  weekday_of (first_weekday rule anchor) = unwrap_or (weekday anchor) (weekday_of <$> head (weekdays rule)).
Proof.
  intros Hw. pose proof (weekday_bounds anchor). pose proof (wr_days rule Hw) as Hd. unfold first_weekday, weekday_of.
  destruct (weekdays rule) as [|d ds]; cbn; [lia|]. apply Forall_cons in Hd as [Hd _].
  rewrite decide_True by done. cbn. lia.
Qed.

Lemma on_day_back rule anchor d : writable rule -> monthly rule = true ->
  on_day (read_back rule anchor) anchor d <-> on_day rule anchor d.
Proof.
  intros Hw Hm. unfold on_day, read_back. cbn [weekdays month_week month_day]. rewrite Hm.
  unfold days_back. pose proof (first_weekday_named rule anchor Hw) as Hfw.
  destruct (month_week rule) as [n|] eqn:Hn; [|done].
  assert (match freq rule with
          | Daily => []
          | Weekly => week_days rule (weekday anchor)
          | Monthly | Yearly => if bool_decide (is_Some (Some n)) then [first_weekday rule anchor] else []
          end = [first_weekday rule anchor]) as ->.
  { unfold monthly in Hm. by destruct (freq rule). }
  cbn [head fmap option_fmap option_map unwrap_or]. by rewrite Hfw.
Qed.

Lemma read_back_falls_on rule anchor d :
  writable rule -> falls_on (read_back rule anchor) anchor d <-> falls_on rule anchor d.
Proof.
  intros Hw. pose proof (on_day_back rule anchor d Hw) as Hon. unfold falls_on, month_step, monthly in *.
  change (freq (read_back rule anchor)) with (freq rule).
  change (interval (read_back rule anchor)) with (Z.max (interval rule) 1).
  replace (Z.max (Z.max (interval rule) 1) 1) with (Z.max (interval rule) 1) by lia.
  destruct (freq rule) eqn:Hf; [done| | |].
  - apply and_iff_compat_r. destruct (week_days_spec rule (weekday anchor)) as (_ & Hne & _).
    pose proof (fun d => week_days_bounds rule anchor d (wr_sane rule Hw)) as Hb.
    destruct (week_days_spec (read_back rule anchor) (weekday anchor)) as (_ & _ & Hin). rewrite Hin. clear Hin.
    unfold read_back, days_back. rewrite Hf. cbn [weekdays]. split.
    + intros [[Hd _]|[_ Hno]]; [done|]. destruct (week_days rule (weekday anchor)) as [|e l]; [done|].
      destruct (Hno e ltac:(by left)). apply (Hb e). by left.
    + intros Hd. left. split; [done|]. by apply Hb.
  - apply and_iff_compat_l. by apply Hon.
  - apply and_iff_compat_l. by apply Hon.
Qed.

Lemma parse_format rule anchor all_day :
  writable rule -> in_range anchor ->
  parse_with_month (format rule anchor all_day) =
    Ok (read_back rule anchor, if bool_decide (freq rule = Yearly) then Some (month anchor) else None).
Proof.
  intros Hw Ha. destruct (no_break_parts rule anchor all_day Hw Ha) as [Hg Hr]. unfold parse_with_month, format.
  unfold format_parts in *. cbn [app] in *. rewrite body_of_format by done.
  rewrite Hr. cbn [mbind result_bind]. by apply conclude_back.
Qed.

(** A rule written as text is read back, whichever form its last day is
    written in: the same rule with its days spelled out, a count only where
    there is no last day, and the last day at its last minute; the month it
    names is the anchor's for a yearly rule.  It falls on the same days. *)
Theorem format_parse_roundtrip rule anchor all_day :
  writable rule -> in_range anchor ->
  parse_with_month (format rule anchor all_day) =
    Ok (read_back rule anchor, if bool_decide (freq rule = Yearly) then Some (month anchor) else None) /\
  forall d, falls_on (read_back rule anchor) anchor d <-> falls_on rule anchor d.
Proof.
  intros Hw Ha. split; [by apply parse_format|]. intros d. by apply read_back_falls_on.
Qed.
End RoundTrip.

(** ** Reading that panics *)

Section Panics.
Context `{C : Calendar} `{Z0 : Zone} `{S : Stamps}.

Definition ascii (s : text) : Prop := forall c, c ∈ s -> c < 128.

Lemma ascii_sub s t : (forall c, c ∈ t -> c ∈ s) -> ascii s -> ascii t.
Proof. intros Hsub Hs c Hc. by apply Hs, Hsub. Qed.

Lemma trim_start_elem p s c : c ∈ trim_start_matches p s -> c ∈ s.
Proof.
  destruct (trim_start_matches_suffix p s) as (a & Ha & _). intros Hc. rewrite Ha. apply elem_of_app. by right.
Qed.

Lemma rev_elem (s : text) c : c ∈ rev s -> c ∈ s.
Proof. rewrite !list_elem_of_In. apply in_rev. Qed.

Lemma trim_elem s c : c ∈ trim s -> c ∈ s.
Proof.
  unfold trim, trim_end, trim_end_matches. intros Hc. apply rev_elem, trim_start_elem, rev_elem in Hc.
  by apply trim_start_elem in Hc.
Qed.

Lemma split_char_elem k s w c : w ∈ split_char k s -> c ∈ w -> c ∈ s.
Proof.
  unfold split_char. revert w. induction s as [|x s IH]; intros w; cbn.
  { intros ->%list_elem_of_singleton. done. }
  destruct (k =? x).
  - intros [->|Hw]%elem_of_cons Hc; [by apply not_elem_of_nil in Hc|]. right. by eapply IH.
  - destruct (split_on (Z.eqb k) s) as [|v vs] eqn:E.
    + intros ->%list_elem_of_singleton ->%list_elem_of_singleton. by left.
    + intros [->|Hw]%elem_of_cons Hc.
      * apply elem_of_cons in Hc as [->|Hc]; [by left|]. right. apply (IH v); [by left|done].
      * right. apply (IH w); [by right|done].
Qed.

Lemma split_once_elem k s a b c : split_once k s = Some (a, b) -> c ∈ a \/ c ∈ b -> c ∈ s.
Proof.
  unfold split_once. intros (i & _ & [= <- <-])%bind_Some [Hc|Hc].
  - rewrite <- (take_drop i s). apply elem_of_app. by left.
  - rewrite <- (take_drop (Datatypes.S i) s). apply elem_of_app. by right.
Qed.

Lemma strip_prefix_elem p s t c : strip_prefix p s = Some t -> c ∈ t -> c ∈ s.
Proof.
  unfold strip_prefix. destruct (starts_with p s); [|done]. intros [= <-] Hc.
  rewrite <- (take_drop (length p) s). apply elem_of_app. by right.
Qed.

Definition no_panic {A} (r : result failure A) : Prop := r <> Err Panic.

Lemma no_panic_bind {A B} (r : result failure A) (k : A -> result failure B) :
  no_panic r -> (forall a, r = Ok a -> no_panic (k a)) -> no_panic (r ≫= k).
Proof. unfold no_panic. destruct r as [a|e]; cbn; [intros _ Hk; by apply Hk|congruence]. Qed.

Lemma no_panic_ensure b what : no_panic (ensure b (Unsupported what)).
Proof. by destruct b. Qed.

Lemma no_panic_some {A} part (o : option A) : no_panic (some_or_bad part o).
Proof. by destruct o. Qed.

Lemma split_at_ascii n s : ascii s -> (n <= length s)%nat -> exists a b, split_at n s = Ok (a, b).
Proof.
  revert n. induction s as [|c s IH]; intros n Hs Hn; cbn in Hn.
  { assert (n = 0)%nat as -> by lia. by exists [], []. }
  destruct n as [|n]; [by exists [], (c :: s)|]. cbn [split_at].
  assert (utf8_char_len c = 1%nat) as ->.
  { unfold utf8_char_len. rewrite (proj2 (Z.ltb_lt c 0x80)); [done|]. apply Hs. by left. }
  cbn [Nat.leb]. replace (Datatypes.S n - 1)%nat with n by lia.
  destruct (IH n) as (a & b & ->); [eapply ascii_sub; [|exact Hs]; by right|lia|]. by exists (c :: a), b.
Qed.

Lemma utf8_len_le s : ascii s -> utf8_len s = length s.
Proof.
  unfold utf8_len, list_sum. induction s as [|c s IH]; intros Hs; [done|]. cbn.
  unfold list_sum in IH. rewrite IH by (eapply ascii_sub; [|exact Hs]; by right).
  unfold utf8_char_len. rewrite (proj2 (Z.ltb_lt c 0x80)); [done|]. apply Hs. by left.
Qed.

Lemma read_day_no_panic part d : ascii d -> no_panic (read_day part d).
Proof.
  intros Hd. unfold read_day. assert (ascii (trim d)) as Ht by (eapply ascii_sub; [apply trim_elem|done]).
  apply no_panic_bind; [apply no_panic_ensure|]. intros _ _. rewrite utf8_len_le by done.
  destruct (split_at_ascii (length (trim d) - 2) (trim d) Ht ltac:(lia)) as (a & b & ->).
  cbn [mbind result_bind fst snd]. apply no_panic_bind; [apply no_panic_some|]. intros code _.
  destruct a; [done|]. apply no_panic_bind; [apply no_panic_some|done].
Qed.

Lemma read_days_no_panic part ds so_far : (forall d, d ∈ ds -> ascii d) -> no_panic (read_days part ds so_far).
Proof.
  revert so_far. induction ds as [|d ds IH]; intros so_far Hds; [done|]. cbn [read_days].
  apply no_panic_bind; [apply read_day_no_panic, Hds; by left|]. intros r _. apply IH. intros. apply Hds. by right.
Qed.

Lemma number_no_panic part max lo hi v : no_panic (number part max lo hi v).
Proof.
  unfold number. apply no_panic_bind; [apply no_panic_some|]. intros n _.
  by apply no_panic_bind; [apply no_panic_ensure|].
Qed.

Lemma read_part_no_panic st part : ascii part -> no_panic (read_part st part).
Proof.
  intros Hp. unfold read_part. apply no_panic_bind; [apply no_panic_some|]. intros [name v] Hnv.
  unfold some_or_bad in Hnv. apply ok_or_Ok in Hnv. cbn [fst snd].
  assert (ascii (trim v)) as Hv.
  { eapply ascii_sub; [|exact Hp]. intros c Hc%trim_elem. eapply split_once_elem; [done|by right]. }
  repeat case_bool_decide; try (apply no_panic_bind; [|done]); try apply number_no_panic; try apply no_panic_some.
  - unfold read_freq. repeat case_bool_decide; done.
  - apply read_days_no_panic. intros d Hd. eapply ascii_sub; [|exact Hv]. intros c. by eapply split_char_elem.
  - destruct (_ && _); done.
  - destruct (_ && _); done.
Qed.

Lemma conclude_no_panic st : no_panic (conclude st).
Proof.
  unfold conclude. apply no_panic_bind; [apply no_panic_some|]. intros f _.
  apply no_panic_bind; [apply no_panic_ensure|]. intros _ _. destruct f.
  1,2: apply no_panic_bind; [apply no_panic_ensure|]; intros _ _; destruct (_ && _); [|done];
    by apply no_panic_bind; [apply no_panic_ensure|].
  all: apply no_panic_bind; [apply no_panic_ensure|]; intros _ _; apply no_panic_bind;
    [|by intros wd _; apply no_panic_bind; [apply no_panic_ensure|]].
  all: destruct (r_days st) as [|[[n|] d] [|]]; try done; destruct (_ || _); [|done];
    by apply no_panic_bind; [apply no_panic_ensure|].
Qed.

(** Reading a rule panics on some text that is not ASCII, where the two
    bytes of a weekday's code would begin inside a character, and on no text
    that is. *)
Theorem reading_can_panic :
  parse (lit "FREQ=WEEKLY;BYDAY=" ++ [0x20AC]) = Err Panic /\
  forall s, is_ascii s = true -> parse s <> Err Panic.
Proof.
  split; [reflexivity|]. intros s Hs. assert (ascii s) as Ha.
  { intros c Hc. unfold is_ascii in Hs. rewrite forallb_elem in Hs. by apply Z.ltb_lt, Hs. }
  unfold parse. assert (no_panic (parse_with_month s)) as Hp.
  2: { unfold no_panic in Hp. destruct (parse_with_month s); cbn; congruence. }
  assert (ascii (rule_body s)) as Hb.
  { eapply ascii_sub; [|exact Ha]. intros c. unfold rule_body.
    destruct (strip_prefix (lit "RRULE:") (trim s)) as [t|] eqn:E1.
    - intros Hc. by eapply trim_elem, strip_prefix_elem.
    - destruct (strip_prefix (lit "rrule:") (trim s)) as [t|] eqn:E2; cbn; intros Hc.
      + by eapply trim_elem, strip_prefix_elem.
      + by apply trim_elem. }
  unfold parse_with_month. apply no_panic_bind; [|intros st _; apply conclude_no_panic].
  assert (forall p, p ∈ base.filter (fun p => trim p <> []) (split_char 59 (rule_body s)) -> ascii p) as Hparts.
  { intros p [_ Hp]%list_elem_of_filter. eapply ascii_sub; [|exact Hb]. intros c. by eapply split_char_elem. }
  revert Hparts. generalize nothing_read. induction (base.filter _ _) as [|p ps IH]; intros st Hparts; [done|].
  cbn [read_parts]. apply no_panic_bind; [apply read_part_no_panic, Hparts; by left|]. intros st' _.
  apply IH. intros. apply Hparts. by right.
Qed.
End Panics.

(** ** Digits, for an evaluation *)

Module Demo.
Import Recurrence.Demo.

Definition two (n : Z) : text := [48 + n / 10; 48 + n mod 10].
Definition of_two (a b : Z) : option Z :=
  if is_ascii_digit a && is_ascii_digit b then Some (10 * (a - 48) + (b - 48)) else None.

Lemma of_two_two n : 0 <= n < 100 -> of_two (48 + n / 10) (48 + n mod 10) = Some n.
Proof.
  intros Hn. pose proof (Z.div_mod n 10 ltac:(lia)). pose proof (Z.mod_pos_bound n 10 ltac:(lia)).
  assert (0 <= n / 10 < 10) by (split; [apply Z.div_pos; lia|apply Z.div_lt_upper_bound; lia]).
  unfold of_two, is_ascii_digit. rewrite !(proj2 (Z.leb_le _ _)) by lia. cbn. f_equal. lia.
Qed.

Lemma two_digits n : 0 <= n < 100 -> Forall (fun c => is_ascii_alphanumeric c = true) (two n).
Proof.
  intros Hn. pose proof (Z.mod_pos_bound n 10 ltac:(lia)).
  assert (0 <= n / 10 < 10) by (split; [apply Z.div_pos; lia|apply Z.div_lt_upper_bound; lia]).
  assert (forall c, 48 <= c <= 57 -> is_ascii_alphanumeric c = true) as Hd.
  { intros c Hc. unfold is_ascii_alphanumeric, is_ascii_digit. rewrite !(proj2 (Z.leb_le _ _)) by lia. done. }
  repeat constructor; apply Hd; lia.
Qed.

Definition digits_of_date (d : Z) : text :=
  two (year d / 100) ++ two (year d mod 100) ++ two (month d) ++ two (day d).

Definition date_of_digits (s : text) : option Z :=
  match s with
  | [y1; y2; y3; y4; m1; m2; d1; d2] =>
      c ← of_two y1 y2; y ← of_two y3 y4; m ← of_two m1 m2; d ← of_two d1 d2; from_ymd_opt (100 * c + y) m d
  | _ => None
  end.

Definition digits_of_time (n : Z) : text :=
  digits_of_date (n / 86400) ++ [84] ++ two (n mod 86400 / 3600) ++ two (n mod 86400 / 60 mod 60) ++ two (n mod 60).

Definition time_of_digits (s : text) : option Z :=
  d ← date_of_digits (take 8 s);
  match drop 8 s with
  | [84; h1; h2; m1; m2; s1; s2] =>
      h ← of_two h1 h2; m ← of_two m1 m2; sec ← of_two s1 s2; Some (d * 86400 + h * 3600 + m * 60 + sec)
  | _ => None
  end.

Definition digits : Stamps :=
  {| show_date := digits_of_date; read_date := date_of_digits; show_time := digits_of_time; read_time := time_of_digits |}.

Lemma date_digits_ok d : in_range d -> 0 <= year d <= 9999 ->
  date_of_digits (digits_of_date d) = Some d /\ length (digits_of_date d) = 8%nat /\
  Forall (fun c => is_ascii_alphanumeric c = true) (digits_of_date d).
Proof.
  intros Hd Hy. pose proof (month_bounds d Hd). pose proof (day_bounds d Hd).
  pose proof (Z.mod_pos_bound (year d) 100 ltac:(lia)).
  assert (0 <= year d / 100 < 100) by (split; [apply Z.div_pos; lia|apply Z.div_lt_upper_bound; lia]).
  split; [|split; [done|]].
  - unfold digits_of_date, two. cbn [app date_of_digits]. rewrite !of_two_two by lia. cbn [mbind option_bind].
    rewrite <- Z.div_mod by lia. apply from_ymd_spec. done.
  - unfold digits_of_date. repeat (apply Forall_app; split); apply two_digits; lia.
Qed.

Lemma time_digits_ok n : in_range (n / 86400) -> 0 <= year (n / 86400) <= 9999 ->
  time_of_digits (digits_of_time n) = Some n /\ length (digits_of_time n) = 15%nat /\
  Forall (fun c => is_ascii_alphanumeric c = true) (digits_of_time n).
Proof.
  intros Hd Hy. destruct (date_digits_ok _ Hd Hy) as (Hr & Hl & Ha).
  pose proof (Z.mod_pos_bound n 86400 ltac:(lia)). pose proof (Z.mod_pos_bound n 60 ltac:(lia)).
  pose proof (Z.mod_pos_bound (n mod 86400 / 60) 60 ltac:(lia)).
  assert (0 <= n mod 86400 / 3600 < 24) by (split; [apply Z.div_pos; lia|apply Z.div_lt_upper_bound; lia]).
  split; [|split].
  - unfold time_of_digits, digits_of_time. rewrite <- Hl at 1. rewrite take_app_length. rewrite Hr.
    cbn [mbind option_bind]. rewrite <- Hl at 1. rewrite drop_app_length. unfold two. cbn [app].
    rewrite !of_two_two by lia. cbn [mbind option_bind]. f_equal.
    Z.to_euclidean_division_equations. lia.
  - unfold digits_of_time. rewrite length_app, Hl. done.
  - unfold digits_of_time. apply Forall_app. split; [done|]. apply Forall_app. split; [by repeat constructor|].
    repeat (apply Forall_app; split); apply two_digits; lia.
Qed.

Lemma digits_laws : StampLaws utc digits.
Proof.
  split; [|exact date_digits_ok|exact time_digits_ok].
  intros n t [= <-]. cbn. unfold local_at, utc. lia.
Qed.

(** Every other month on its last Friday, up to the end of 2025. *)
Definition last_friday : Recurrence :=
  {| freq := Monthly; interval := 2; weekdays := [4]; until := Some 1767225540; count := None;
     month_week := Some (-1); month_day := None |}.

Lemma last_friday_writable : @writable _ utc last_friday.
Proof.
  split; [split|..]; cbn; try done.
  - by repeat constructor.
  - intros n [= <-]. by left.
  - by repeat constructor.
  - intros u [= <-]. exists 1767225540, (on 2025 12 31), 1767225599.
    repeat split; vm_compute; congruence.
Qed.

Example last_friday_written :
  @format _ utc digits last_friday (on 2025 1 31) false =
  lit "FREQ=MONTHLY;INTERVAL=2;BYDAY=-1FR;UNTIL=20251231T235959Z".
Proof. vm_compute. reflexivity. Qed.
End Demo.

Lemma format_parse_roundtrip_witness :
  @parse_with_month _ Recurrence.Demo.utc Demo.digits
    (@format _ Recurrence.Demo.utc Demo.digits Demo.last_friday (Recurrence.Demo.on 2025 1 31) false) =
  Ok (Demo.last_friday, None).
Proof.
  assert (in_range (Recurrence.Demo.on 2025 1 31)) as Hr by (vm_compute; split; congruence).
  destruct (@format_parse_roundtrip _ _ Recurrence.Demo.utc Demo.digits Demo.digits_laws Demo.last_friday
              (Recurrence.Demo.on 2025 1 31) false Demo.last_friday_writable Hr) as [H _].
  etransitivity; [exact H|]. vm_compute. reflexivity.
Defined.

Lemma reading_can_panic_witness :
  @parse _ Recurrence.Demo.utc Demo.digits (lit "FREQ=WEEKLY;BYDAY=" ++ [0x20AC]) = Err Panic.
Proof. exact (proj1 (@reading_can_panic _ Recurrence.Demo.utc Demo.digits)). Defined.
End RRule.
