(* ===== verification/Tasks.v ===== *)
(** * Task lists and tasks

    Models [meron-core/src/store/task_lists.rs] and the task functions of
    [meron-core/src/store/mod.rs]: the tables [task_lists] and [tasks], every
    statement that changes them, and what the interface reads of them.  Dates
    and rules are those of [Recurrence] and [RRule], which a repeating task
    keeps as text and reads back when one occurrence is completed.

    An operation answers with the database it leaves.  One that fails leaves
    none: each writes in one transaction or in one statement, and fails, if
    it does, before it. *)
From S2P Require Import Prelude Text Calendar Recurrence RRule.
From coqutil Require Import Datatypes.RecordSetters.
From S2P Require Import Table.
Import TriangleBracketNotations.
#[local] Open Scope record_set.
#[local] Open Scope Z_scope.

Module Tasks.

(** ** The tables *)

Record Task := {
  id : Z;
  account : text;
  thread_key : text;
  folder : text;
  note : text;
  due_at : option Z;
  completed_at : option Z;
  created_at : Z;
  list_id : text;
  title : text;
  priority : Z;
  reminder_at : option Z;
  reminded_at : option Z;
  revision : Z;
  remote_href : text;
  remote_etag : text;
  remote_ics : text;
  pending : text;
  conflict : text;
  recurring : bool;
  sync_seq : Z;
  rrule : text
}.

(** A row of [task_lists]. *)
Record ListRow := {
  l_id : text;
  l_name : text;
  l_position : Z;
  l_created_at : Z;
  remote_url : text;
  remote_user : text;
  synced_at : option Z;
  last_error : text;
  ews_account : text
}.

(** [last_id] is SQLite's own record of the largest id given
    ([AUTOINCREMENT]): an id is never given twice. *)
Record Db := { tasks : list Task; lists : list ListRow; last_id : Z }.

Inductive error := Bail (message : text) | Panicked.

Abbreviation op A := (result error (Db * A)).

Definition bail {A} (message : text) : result error A := Err (Bail message).

Definition lift {A} (r : result Recurrence.failure A) : result error A :=
  match r with
  | Ok a => Ok a
  | Err (Recurrence.Unsupported what) => Err (Bail what)
  | Err Recurrence.Panic => Err Panicked
  end.

Definition MAIL_LIST : text := lit "mail".

(** The columns an [INSERT INTO tasks] leaves out take their defaults. *)
Definition new_task (i : Z) : Task :=
  {| id := i; account := []; thread_key := []; folder := []; note := []; due_at := None;
     completed_at := None; created_at := 0; list_id := MAIL_LIST; title := []; priority := 1;
     reminder_at := None; reminded_at := None; revision := 1; remote_href := []; remote_etag := [];
     remote_ics := []; pending := []; conflict := []; recurring := false; sync_seq := 0; rrule := [] |}.

Definition new_list (i name : text) (position now : Z) : ListRow :=
  {| l_id := i; l_name := name; l_position := position; l_created_at := now; remote_url := [];
     remote_user := []; synced_at := None; last_error := []; ews_account := [] |}.

Definition with_id (i : Z) (t : Task) : bool := id t =? i.
Definition deleting (t : Task) : bool := bool_decide (pending t = lit "delete").
Definition open (t : Task) : bool := bool_decide (completed_at t = None).
Definition linked (t : Task) : bool := negb (is_nil (thread_key t)).
Definition in_list (i : text) (t : Task) : bool := bool_decide (list_id t = i).
Definition is_list (i : text) (l : ListRow) : bool := bool_decide (l_id l = i).

(** Inserting a task: the row its columns make, under the next id. *)
Definition insert (columns : Task -> Task) (db : Db) : Db * Z :=
  let i := last_id db + 1 in
  ({| tasks := tasks db ++ [columns (new_task i)]; lists := lists db; last_id := i |}, i).

(** [UPDATE tasks SET … WHERE …], and [DELETE]. *)
Definition update_tasks (p : Task -> bool) (f : Task -> Task) (db : Db) : Db :=
  db <| tasks := update p f (tasks db) |>.

Definition delete_tasks (p : Task -> bool) (db : Db) : Db := db <| tasks := delete_where p (tasks db) |>.

(** ** Lists *)

(** What the interface is told of a list. *)
Record TaskList := {
  tl_id : text;
  name : text;
  position : Z;
  open_count : Z;
  tl_remote_url : text;
  tl_remote_user : text;
  tl_synced_at : option Z;
  tl_last_error : text;
  conflicts : Z;
  tl_ews_account : text
}.

(** [ORDER BY l.position, l.created_at, l.name] *)
Definition list_before (a b : ListRow) : bool :=
  (l_position a <? l_position b)
  || ((l_position a =? l_position b)
      && ((l_created_at a <? l_created_at b)
          || ((l_created_at a =? l_created_at b) && text_le (l_name a) (l_name b)))).

Definition task_lists (db : Db) : list TaskList :=
  (fun l =>
     {| tl_id := l_id l; name := l_name l; position := l_position l;
        open_count := Z.of_nat (changed (fun t => in_list (l_id l) t && open t && negb (deleting t)) (tasks db));
        tl_remote_url := remote_url l; tl_remote_user := remote_user l; tl_synced_at := synced_at l;
        tl_last_error := last_error l;
        conflicts := Z.of_nat (changed (fun t => in_list (l_id l) t && negb (is_nil (conflict t))) (tasks db));
        tl_ews_account := ews_account l |}) <$> order_by list_before (lists db).

Definition list_exists (db : Db) (i : text) : bool := existsb (is_list i) (lists db).

Definition max_position (ls : list ListRow) : Z :=
  match ls with
  | [] => 0
  | l :: rest => foldr (fun l m => Z.max (l_position l) m) (l_position l) rest
  end.

Definition new_list_id (uuid : text) : text := lit "list:" ++ uuid.

(** An id already there is refused by the primary key. *)
Definition create_list_with_id (db : Db) (i list_name : text) (now : Z) : op unit :=
  let trimmed := trim list_name in
  if is_nil trimmed then bail (lit "a list needs a name")
  else if list_exists db i then bail (lit "UNIQUE constraint failed: task_lists.id")
  else Ok (db <| lists := lists db ++ [new_list i trimmed (max_position (lists db) + 1) now] |>, tt).

Definition create_list (db : Db) (uuid list_name : text) (now : Z) : op text :=
  let i := new_list_id uuid in
  '(db', _) ← create_list_with_id db i list_name now;
  Ok (db', i).

Definition rename_list (db : Db) (i list_name : text) : op unit :=
  let trimmed := trim list_name in
  if is_nil trimmed then bail (lit "a list needs a name")
  else if Nat.eqb (changed (is_list i) (lists db)) 0 then bail (lit "that list no longer exists")
  else Ok (db <| lists := update (is_list i) (fun l => l <| l_name := trimmed |>) (lists db) |>, tt).

Definition delete_list_rows (db : Db) (i : text) : Db :=
  delete_tasks (in_list i) db <| lists := delete_where (is_list i) (lists db) |>.

Definition delete_list (db : Db) (i : text) : op unit :=
  if bool_decide (i = MAIL_LIST) then bail (lit "the mail follow-up list cannot be deleted")
  else Ok (delete_list_rows db i, tt).

(** ** Where a list is kept *)

Definition on_server (l : ListRow) : bool := negb (is_nil (remote_url l)) || negb (is_nil (ews_account l)).

(** [list_id IN (SELECT id FROM task_lists WHERE remote_url <> '' OR …)] *)
Definition kept_on_server (db : Db) (i : text) : bool := existsb (fun l => is_list i l && on_server l) (lists db).

Definition remote_of_list (db : Db) (i : text) : text :=
  match query_row (is_list i) (lists db) with
  | Some l => if is_nil (ews_account l) then remote_url l else lit "ews:" ++ ews_account l
  | None => []
  end.

(** The list a task is in, whether that list is on a server, and whether
    the task repeats in a way this client does not change. *)
Definition sync_state (db : Db) (i : Z) : option (text * bool * bool) :=
  t ← query_row (fun t => with_id i t && negb (deleting t)) (tasks db);
  Some (list_id t, kept_on_server db (list_id t), recurring t).

Definition check_editable (db : Db) (i : Z) : result error unit :=
  match sync_state db i with
  | Some (_, true, true) =>
      bail (lit "this task repeats in a way Oreneta does not change; change it in the app that made it")
  | _ => Ok tt
  end.

(** A change made here to a task of a list kept on a server waits to be sent. *)
Definition to_send (t : Task) : Task := t <| pending := lit "put" |> <| sync_seq := sync_seq t + 1 |>.

Definition touched (db : Db) (i : Z) : Db :=
  update_tasks (fun t => with_id i t && negb (deleting t) && kept_on_server db (list_id t)) to_send db.

(** ** Tasks of their own *)

Record TaskFields := {
  f_list_id : text;
  f_title : text;
  f_note : text;
  f_due_at : option Z;
  f_reminder_at : option Z;
  f_priority : Z;
  recurrence : option Recurrence.Recurrence
}.

Section Operations.
Context `{Calendar} `{Zone} `{Stamps}.

Definition check (fs : TaskFields) (is_linked : bool) : result error unit :=
  if negb is_linked && is_nil (trim (f_title fs)) then bail (lit "a task needs a title")
  else if negb ((0 <=? f_priority fs) && (f_priority fs <=? 2)) then bail (lit "unknown priority")
  else match recurrence fs with
       | None => Ok tt
       | Some _ =>
           if is_linked then bail (lit "a task tied to a conversation does not repeat")
           else match f_due_at fs with
                | None => bail (lit "a repeating task needs a due date to repeat from")
                | Some _ => Ok tt
                end
       end.

(** The date a due instant falls on here, and whether it is midnight. *)
Definition due_day (instant : Z) : option (Z * bool) :=
  n ← Recurrence.local_of instant; Some (Recurrence.date_of n, n mod 86400 =? 0).

(** The rule as stored: an RRULE value spelled out from the due date. *)
Definition stored_rule (fs : TaskFields) : text :=
  match recurrence fs, f_due_at fs ≫= due_day with
  | Some rule, Some (day, all_day) => RRule.format (Recurrence.anchored rule day) day all_day
  | _, _ => []
  end.

Definition recurrence_of (stored : text) : result error (option Recurrence.Recurrence) :=
  if is_nil stored then Ok None
  else match RRule.parse stored with
       | Ok rule => Ok (Some rule)
       | Err (Recurrence.Unsupported _) => Ok None
       | Err Recurrence.Panic => Err Panicked
       end.

Definition MOVE_REFUSED : text :=
  lit "moving a task between a list kept on a server and another list is not supported yet; nothing was changed".

Definition created (fs : TaskFields) (target : text) (now : Z) (t : Task) : Task :=
  t <| note := trim (f_note fs) |> <| due_at := f_due_at fs |> <| created_at := now |>
    <| list_id := target |> <| title := trim (f_title fs) |> <| priority := f_priority fs |>
    <| reminder_at := f_reminder_at fs |> <| rrule := stored_rule fs |>.

(** A new task is one statement, and what marks it to be sent another, each
    committed on its own. *)
Definition create_row (db : Db) (fs : TaskFields) (now : Z) : op Z :=
  _ ← check fs false;
  let target := if is_nil (f_list_id fs) then MAIL_LIST else f_list_id fs in
  if negb (list_exists db target) then bail (lit "that list no longer exists")
  else Ok (insert (created fs target now) db).

Definition create (db : Db) (fs : TaskFields) (now : Z) : op Z :=
  '(db', i) ← create_row db fs now;
  Ok (touched db' i, i).

Inductive Edit :=
| Saved (new_revision : Z)
| Conflict (current : option TaskFields) (now_at : Z).

Definition fields_of (t : Task) : result error TaskFields :=
  rule ← recurrence_of (rrule t);
  Ok {| f_list_id := list_id t; f_title := title t; f_note := note t; f_due_at := due_at t;
        f_reminder_at := reminder_at t; f_priority := priority t; recurrence := rule |}.

Definition get (db : Db) (i : Z) : result error (option (TaskFields * Z * bool)) :=
  match query_row (fun t => with_id i t && negb (deleting t)) (tasks db) with
  | None => Ok None
  | Some t => fs ← fields_of t; Ok (Some (fs, revision t, linked t))
  end.

Definition without_month_day (rule : Recurrence.Recurrence) : Recurrence.Recurrence :=
  {| Recurrence.freq := Recurrence.freq rule; Recurrence.interval := Recurrence.interval rule;
     Recurrence.weekdays := Recurrence.weekdays rule; Recurrence.until := Recurrence.until rule;
     Recurrence.count := Recurrence.count rule; Recurrence.month_week := Recurrence.month_week rule;
     Recurrence.month_day := None |}.

(** A new due date is a new anchor. *)
Definition anchored_anew (fs current : TaskFields) : TaskFields :=
  if bool_decide (f_due_at fs = f_due_at current) then fs
  else fs <| recurrence := without_month_day <$> recurrence fs |>.

(** A new reminder time is a new reminder. *)
Definition edit (fs : TaskFields) (target : text) (t : Task) : Task :=
  t <| list_id := target |> <| title := trim (f_title fs) |> <| note := trim (f_note fs) |>
    <| due_at := f_due_at fs |> <| priority := f_priority fs |> <| reminder_at := f_reminder_at fs |>
    <| reminded_at := if bool_decide (reminder_at t = f_reminder_at fs) then reminded_at t else None |>
    <| rrule := stored_rule fs |> <| revision := revision t + 1 |>.

Definition update (db : Db) (i read_at : Z) (fs : TaskFields) : op Edit :=
  row ← get db i;
  match row with
  | None => Ok (db, Conflict None 0)
  | Some (current, at_revision, is_linked) =>
      if negb (at_revision =? read_at) then Ok (db, Conflict (Some current) at_revision)
      else
        _ ← check fs is_linked;
        let target := if is_nil (f_list_id fs) then f_list_id current else f_list_id fs in
        if negb (list_exists db target) then bail (lit "that list no longer exists")
        else if negb (bool_decide (target = f_list_id current))
                && (negb (is_nil (remote_of_list db target))
                    || negb (is_nil (remote_of_list db (f_list_id current))))
        then bail MOVE_REFUSED
        else
          _ ← check_editable db i;
          let db' := update_tasks (with_id i) (edit (anchored_anew fs current) target) db in
          Ok (touched db' i, Saved (at_revision + 1))
  end.

(** ** Completing *)

Record Completed := { next_due : option Z; record : option Z }.

Definition done_now : Completed := {| next_due := None; record := None |}.

(** The completed copy kept of the occurrence done. *)
Definition occurrence_done (t : Task) (now : Z) (r : Task) : Task :=
  r <| note := note t |> <| due_at := due_at t |> <| created_at := now |> <| list_id := list_id t |>
    <| title := title t |> <| priority := priority t |> <| reminder_at := reminder_at t |>
    <| reminded_at := Some (unwrap_or now (reminded_at t)) |> <| completed_at := Some now |>.

(** The task moved on to its next occurrence. *)
Definition moved_on (rule : Recurrence.Recurrence) (due next : Z) (t : Task) : Task :=
  let (day, all_day) := unwrap_or (Recurrence.epoch, false) (due_day next) in
  t <| due_at := Some next |> <| reminder_at := (fun at_ => at_ + (next - due)) <$> reminder_at t |>
    <| reminded_at := None |>
    <| rrule := RRule.format (Recurrence.anchored (Recurrence.advanced rule) day) day all_day |>
    <| revision := revision t + 1 |>.

Definition series_over (now : Z) (t : Task) : Task :=
  t <| completed_at := Some now |> <| revision := revision t + 1 |>.

Definition complete_occurrence (db : Db) (i now : Z) : op (option Completed) :=
  match query_row (fun t => with_id i t && negb (deleting t) && negb (linked t)) (tasks db) with
  | None => Ok (db, None)
  | Some t =>
      match due_at t, completed_at t with
      | Some due, None =>
          rule ← recurrence_of (rrule t);
          match rule with
          | None => Ok (db, None)
          | Some rule =>
              _ ← check_editable db i;
              next ← lift (Recurrence.next_instant rule due);
              match next with
              | None =>
                  let db' := update_tasks (with_id i) (series_over now) db in
                  Ok (touched db' i, Some done_now)
              | Some next =>
                  let (db1, copy) := insert (occurrence_done t now) db in
                  let db2 := touched db1 copy in
                  let db3 := update_tasks (with_id i) (moved_on rule due next) db2 in
                  Ok (touched db3 i, Some {| next_due := Some next; record := Some copy |})
              end
          end
      | _, _ => Ok (db, None)
      end
  end.

Definition stopped (now : Z) (t : Task) : Task :=
  t <| rrule := [] |> <| completed_at := Some (unwrap_or now (completed_at t)) |>
    <| revision := revision t + 1 |>.

(** Two statements again. *)
Definition stop_repeating_row (db : Db) (i now : Z) : op unit :=
  _ ← check_editable db i;
  let here t := with_id i t && negb (deleting t) in
  if Nat.eqb (changed here (tasks db)) 0 then bail (lit "this task no longer exists")
  else Ok (update_tasks here (stopped now) db, tt).

Definition stop_repeating (db : Db) (i now : Z) : op unit :=
  '(db', _) ← stop_repeating_row db i now;
  Ok (touched db' i, tt).

(** Two open tasks of one conversation: what [idx_tasks_open_thread] refuses. *)
Definition same_conversation (a b : Task) : bool :=
  bool_decide (account a = account b) && bool_decide (thread_key a = thread_key b) && linked a
  && open a && open b && negb (id a =? id b).

Definition marked (completed : bool) (now : Z) (t : Task) : Task :=
  t <| completed_at := if completed then Some now else None |>.

Definition reopening_refused (db : Db) (i : Z) : bool :=
  existsb (fun t => with_id i t && negb (deleting t)
             && existsb (same_conversation (marked false 0 t)) (tasks db)) (tasks db).

(** The row written, and whether it is still to be marked to be sent: a
    repeating task moved on is marked in the transaction that moves it. *)
Definition set_task_completed_row (db : Db) (i : Z) (completed : bool) (now : Z) : op bool :=
  _ ← check_editable db i;
  '(db', moved) ← (if completed then complete_occurrence db i now else Ok (db, None));
  match moved with
  | Some _ => Ok (db', false)
  | None =>
      let here t := with_id i t && negb (deleting t) in
      if negb completed && reopening_refused db' i
      then bail (lit "this conversation already has an open task; finish or delete that one before reopening this one")
      else if Nat.eqb (changed here (tasks db')) 0 then bail (lit "this task no longer exists")
      else Ok (update_tasks here (marked completed now) db', true)
  end.

Definition set_task_completed (db : Db) (i : Z) (completed : bool) (now : Z) : op unit :=
  '(db', unmarked) ← set_task_completed_row db i completed now;
  Ok (if unmarked : bool then touched db' i else db', tt).

Definition set_completed (db : Db) (i : Z) (completed stop : bool) (now : Z) : op Completed :=
  if completed && stop then
    '(db', _) ← stop_repeating db i now;
    Ok (db', done_now)
  else
    '(db', outcome) ← (if completed then complete_occurrence db i now else Ok (db, None));
    match outcome with
    | Some c => Ok (db', c)
    | None =>
        '(db'', _) ← set_task_completed db' i completed now;
        Ok (db'', done_now)
    end.

(** ** Tasks made from a conversation *)

(** The upsert over the partial index: the task open on the conversation is
    edited, or a new one made.  A conversation without a key has no such
    index entry. *)
Definition open_on (acct key : text) (t : Task) : bool :=
  bool_decide (account t = acct) && bool_decide (thread_key t = key) && open t.

Definition noted (folder_ note_ : text) (due : option Z) (t : Task) : Task :=
  t <| note := note_ |> <| due_at := due |> <| folder := folder_ |>.

Definition made_from (acct key folder_ note_ : text) (due : option Z) (now : Z) (t : Task) : Task :=
  noted folder_ note_ due (t <| account := acct |> <| thread_key := key |> <| created_at := now |>).

Definition save_task (db : Db) (acct key folder_ : text) (due : option Z) (note_ : text) (now : Z) : op Z :=
  let same t := open_on acct key t && linked t in
  let db' :=
    if existsb same (tasks db)
    then update_tasks same (noted folder_ note_ due) db
    else (insert (made_from acct key folder_ note_ due now) db).1 in
  match query_row (open_on acct key) (tasks db') with
  | Some t => Ok (db', id t)
  | None => bail (lit "Query returned no rows")
  end.

Definition get_task (db : Db) (i : Z) : option (option Z * text) :=
  t ← query_row (with_id i) (tasks db); Some (due_at t, note t).

Definition to_delete (t : Task) : Task := t <| pending := lit "delete" |> <| sync_seq := sync_seq t + 1 |>.

Definition delete_task (db : Db) (i : Z) : Db :=
  let on_it t := with_id i t && negb (is_nil (remote_etag t)) && kept_on_server db (list_id t) in
  if Nat.eqb (changed on_it (tasks db)) 0 then delete_tasks (with_id i) db
  else update_tasks on_it to_delete db.

(** [HashMap::insert] over the rows found: the last of a key stays. *)
Definition open_tasks_for_threads (db : Db) (acct : text) (keys : list text) : gmap text (Z * option Z) :=
  foldl (fun out t => if existsb (fun k => bool_decide (k = thread_key t)) keys
                      then <[thread_key t := (id t, due_at t)]> out else out) ∅
    (select (fun t => bool_decide (account t = acct) && open t) (tasks db)).

(** ** Reminders *)

Definition due_reminder (now : Z) (t : Task) : bool :=
  open t && negb (deleting t) && is_some_and (fun at_ => at_ <=? now) (reminder_at t)
  && bool_decide (reminded_at t = None).

Definition reminded (now : Z) (t : Task) : Task := t <| reminded_at := Some now |>.

Definition mark_reminded (db : Db) (i now : Z) : Db :=
  update_tasks (with_id i) (reminded now) db.

End Operations.

End Tasks.
