(* ===== verification/TaskLaws.v ===== *)
(** * What every operation on the tasks keeps

    The state the tables are always in ([wf]) and that every operation of
    [Tasks] keeps it, and every statement of one that commits on its own
    ([TaskLife] puts them together with the syncs); and what an edit
    does. *)
From S2P Require Import Prelude Text Calendar Recurrence RRule Tasks.
From coqutil Require Import Datatypes.RecordSetters.
From S2P Require Import Table.
Import TriangleBracketNotations.
#[local] Open Scope record_set.
#[local] Open Scope Z_scope.

Module TaskLaws.
Import Tasks.

(** ** The invariant *)

Section Laws.

(** Whether a task may be left in a list that is gone: the operations here
    never leave one, but see [TaskSyncLaws]. *)
Context (orphans : bool).

(** What each task keeps, given the lists. *)
Record task_ok (db : Db) (t : Task) : Prop := {
  ok_placed : orphans = false -> list_exists db (list_id t) = true;
  ok_linked : linked t = true ->
    rrule t = [] /\ recurring t = false /\ kept_on_server db (list_id t) = false /\ remote_href t = [];
  ok_due : rrule t <> [] -> is_Some (due_at t);
  ok_waiting : pending t <> [] -> kept_on_server db (list_id t) = true
}.

Record wf (db : Db) : Prop := {
  wf_ids : NoDup (id <$> tasks db);
  wf_given : forall t, t ∈ tasks db -> id t <= last_id db;
  wf_lists : NoDup (l_id <$> lists db);
  wf_mail : list_exists db MAIL_LIST = true;
  wf_mail_here : kept_on_server db MAIL_LIST = false;
  wf_tasks : forall t, t ∈ tasks db -> task_ok db t;
  wf_one : forall a b, a ∈ tasks db -> b ∈ tasks db -> same_conversation a b = false
}.

(** Two states with the same lists say the same of a task. *)
Lemma list_exists_lists db db' i : lists db' = lists db -> list_exists db' i = list_exists db i.
Proof. unfold list_exists. by intros ->. Qed.

Lemma kept_lists db db' i : lists db' = lists db -> kept_on_server db' i = kept_on_server db i.
Proof. unfold kept_on_server. by intros ->. Qed.

Lemma task_ok_lists db db' t : lists db' = lists db -> task_ok db t -> task_ok db' t.
Proof.
  intros Hl [Hp Hk Hd Hw]. split.
  - intros Ho. rewrite (list_exists_lists db); [by apply Hp|done].
  - by rewrite (kept_lists db).
  - done.
  - by rewrite (kept_lists db).
Qed.

(** What an update of tasks may change and what it must keep. *)
Record keeps (db : Db) (t t' : Task) : Prop := {
  k_id : id t' = id t;
  k_conversation : account t' = account t /\ thread_key t' = thread_key t;
  k_open : open t' = true -> open t = true \/ existsb (same_conversation t') (tasks db) = false;
  k_ok : task_ok db t'
}.

Lemma linked_key t t' : thread_key t' = thread_key t -> linked t' = linked t.
Proof. unfold linked. by intros ->. Qed.

Lemma same_conversation_kept a a' b b' :
  id a' = id a -> account a' = account a -> thread_key a' = thread_key a ->
  id b' = id b -> account b' = account b -> thread_key b' = thread_key b ->
  same_conversation a' b' = true -> open a = true -> open b = true -> same_conversation a b = true.
Proof.
  intros Ia Aa Ka Ib Ab Kb. unfold same_conversation, linked.
  rewrite Ia, Aa, Ka, Ib, Ab, Kb. intros H Ho Ho'. rewrite Ho, Ho'. bools in H. bools. tauto.
Qed.

Lemma same_conversation_sym a b : same_conversation a b = same_conversation b a.
Proof.
  unfold same_conversation, linked. apply eq_true_iff_eq. bools. intuition congruence.
Qed.

Lemma not_same_self a : same_conversation a a = false.
Proof. unfold same_conversation. rewrite Z.eqb_refl. by rewrite andb_false_r. Qed.

Lemma wf_update db p f : wf db ->
  (forall t, t ∈ tasks db -> p t = true -> keeps db t (f t)) ->
  (forall t u, t ∈ tasks db -> u ∈ tasks db -> p t = true -> p u = true -> id t = id u) ->
  wf (update_tasks p f db).
Proof.
  intros [Hn Hg Hl Hm Hmh Ht H1] Hk Hp.
  assert (forall t', t' ∈ tasks (update_tasks p f db) -> exists t, t ∈ tasks db /\
    ((p t = true /\ t' = f t /\ keeps db t t') \/ (p t = false /\ t' = t))) as Hrow.
  { intros t' (t & Hin & ->)%elem_of_update. exists t. split; [done|].
    destruct (p t) eqn:E; [left|right]; [|done]. split; [done|]. split; [done|]. by apply Hk. }
  assert (id <$> tasks (update_tasks p f db) = id <$> tasks db) as Hids.
  { change (tasks (update_tasks p f db)) with (Table.update p f (tasks db)). unfold Table.update.
    rewrite <- list_fmap_compose. apply list_fmap_ext. intros k t Hkt. cbn. destruct (p t) eqn:E; [|done]. apply (k_id _ _ _ (Hk t (list_elem_of_lookup_2 _ _ _ Hkt) E)). }
  split.
  - by rewrite Hids.
  - intros t' Hin. destruct (Hrow t' Hin) as (t & Ht0 & [(_ & -> & K)|(_ & ->)]); cbn;
      [rewrite (k_id _ _ _ K)|]; by apply Hg.
  - done.
  - done.
  - done.
  - intros t' Hin. destruct (Hrow t' Hin) as (t & Ht0 & [(_ & -> & K)|(_ & ->)]);
      apply (task_ok_lists db); [done|apply K|done|by apply Ht].
  - intros a' b' Ha Hb. destruct (same_conversation a' b') eqn:E; [exfalso|done].
    assert (id a' <> id b') as Hne.
    { intros Heq. unfold same_conversation in E. rewrite Heq, Z.eqb_refl, andb_false_r in E. done. }
    assert (open a' = true /\ open b' = true) as [Oa Ob] by (unfold same_conversation in E; bools in E; tauto).
    destruct (Hrow a' Ha) as (a & Ha0 & [(Pa & Ea & Ka)|(Pa & ->)]);
      destruct (Hrow b' Hb) as (b & Hb0 & [(Pb & Eb & Kb)|(Pb & ->)]).
    + apply Hne. rewrite (k_id _ _ _ Ka), (k_id _ _ _ Kb). by apply Hp.
    + destruct (k_conversation _ _ _ Ka) as [Aa Ta].
      destruct (k_open _ _ _ Ka Oa) as [Oa0|Hno].
      * pose proof (same_conversation_kept a a' b b (k_id _ _ _ Ka) Aa Ta eq_refl eq_refl eq_refl E Oa0 Ob) as Hs.
        by rewrite (H1 a b Ha0 Hb0) in Hs.
      * by rewrite (existsb_none _ _ Hno b Hb0) in E.
    + destruct (k_conversation _ _ _ Kb) as [Ab Tb]. rewrite same_conversation_sym in E.
      destruct (k_open _ _ _ Kb Ob) as [Ob0|Hno].
      * pose proof (same_conversation_kept b b' a a (k_id _ _ _ Kb) Ab Tb eq_refl eq_refl eq_refl E Ob0 Oa) as Hs.
        by rewrite (H1 b a Hb0 Ha0) in Hs.
      * by rewrite (existsb_none _ _ Hno a Ha0) in E.
    + by rewrite (H1 a b Ha0 Hb0) in E.
Qed.

Lemma wf_insert db columns :
  wf db -> (forall i, id (columns (new_task i)) = i) ->
  (forall i, task_ok db (columns (new_task i))) ->
  (forall i, existsb (same_conversation (columns (new_task i))) (tasks db) = false) ->
  wf (insert columns db).1.
Proof.
  intros [Hn Hg Hl Hm Hmh Ht H1] Hid Hok Hone. set (n := columns (new_task (last_id db + 1))).
  assert (forall t, t ∈ tasks (insert columns db).1 <-> t ∈ tasks db \/ t = n) as Hrow.
  { intros t. cbn. rewrite elem_of_app, list_elem_of_singleton. done. }
  split.
  - cbn. rewrite fmap_app. apply NoDup_app. split; [done|]. split; [|apply NoDup_singleton].
    intros x (t & -> & Hin)%list_elem_of_fmap. cbn. rewrite list_elem_of_singleton, Hid.
    specialize (Hg t Hin). lia.
  - intros t [Hin| ->]%Hrow; cbn; [specialize (Hg t Hin); lia|]. unfold n. rewrite Hid. lia.
  - done.
  - done.
  - done.
  - intros t [Hin| ->]%Hrow; apply (task_ok_lists db); [done|by apply Ht|done|apply Hok].
  - intros a b [Ha| ->]%Hrow [Hb| ->]%Hrow.
    + by apply H1.
    + rewrite same_conversation_sym. by apply (existsb_none _ _ (Hone _)).
    + by apply (existsb_none _ _ (Hone _)).
    + apply not_same_self.
Qed.

Lemma wf_delete db p : wf db -> wf (delete_tasks p db).
Proof.
  intros [Hn Hg Hl Hm Hmh Ht H1]. split; try done.
  - by apply delete_where_key.
  - intros t [Hin _]%elem_of_delete_where. by apply Hg.
  - intros t [Hin _]%elem_of_delete_where. apply (task_ok_lists db); [done|by apply Ht].
  - intros a b [Ha _]%elem_of_delete_where [Hb _]%elem_of_delete_where. by apply H1.
Qed.

(** An unlinked task is in nobody's way. *)
Lemma unlinked_alone db t : linked t = false -> existsb (same_conversation t) (tasks db) = false.
Proof.
  intros Hl. apply not_true_is_false. intros (u & _ & Hs)%existsb_elem.
  unfold same_conversation in Hs. rewrite Hl in Hs. bools in Hs. intuition discriminate.
Qed.

Lemma with_id_one db : wf db -> forall i t u, t ∈ tasks db -> u ∈ tasks db ->
  with_id i t = true -> with_id i u = true -> id t = id u.
Proof. intros _ i t u _ _. unfold with_id. bools. congruence. Qed.

(** Every write of a task ends in [touched]. *)
Lemma wf_touched db i : wf db -> wf (touched db i).
Proof.
  intros Hw. apply wf_update; [done| |].
  - intros t Ht Hp. bools in Hp. destruct (wf_tasks _ Hw t Ht) as [Hpl Hl Hd Hwt].
    split; try done; [by left|]. split; try done. intros _. apply Hp.
  - intros t u Ht Hu Hp Hq. apply (with_id_one db Hw i); [done..| |]; by repeat apply andb_true_iff in Hp as [Hp _]; repeat apply andb_true_iff in Hq as [Hq _].
Qed.

(** ** The lists *)

Lemma row_of_list (ls : list ListRow) i l :
  NoDup (l_id <$> ls) -> query_row (is_list i) ls = Some l <-> l ∈ ls /\ l_id l = i.
Proof. apply (query_row_key l_id). Qed.

Lemma existsb_is_list_iff (ls : list ListRow) i : existsb (is_list i) ls = true <-> i ∈ l_id <$> ls.
Proof.
  rewrite existsb_elem, list_elem_of_fmap. unfold is_list. setoid_rewrite bool_decide_eq_true.
  split; intros (l & H1 & H2); exists l; split; congruence || done.
Qed.

Lemma existsb_app_iff {A} (f : A -> bool) l k : existsb f (l ++ k) = existsb f l || existsb f k.
Proof. apply existsb_app. Qed.

(** Where a list is kept, as the statement that asks it and as the one that
    marks a task see it. *)
Lemma remote_of_list_nil db i : NoDup (l_id <$> lists db) ->
  is_nil (remote_of_list db i) = negb (kept_on_server db i).
Proof.
  intros Hnd. unfold remote_of_list, kept_on_server. apply eq_true_iff_eq. rewrite negb_true_iff.
  destruct (query_row (is_list i) (lists db)) as [l|] eqn:E.
  - apply row_of_list in E as [Hin <-]; [|done]. split.
    + intros Hnil. apply not_true_is_false. intros (k & Hk & Hs)%existsb_elem.
      apply andb_true_iff in Hs as [Hs Hon]. unfold is_list in Hs. apply bool_decide_eq_true in Hs.
      assert (k = l) as -> by (eapply (key_unique l_id (l_id l)); [done|done|done|by apply bool_decide_eq_true..]).
      unfold on_server in Hon. destruct (ews_account l); cbn in *; [|done]. by rewrite Hnil in Hon.
    + intros Hno. pose proof (existsb_none _ _ Hno l Hin) as Hl. cbn in Hl.
      unfold is_list in Hl. rewrite bool_decide_eq_true_2 in Hl by done. unfold on_server in Hl. cbn in Hl.
      destruct (remote_url l), (ews_account l); done.
  - split; [|done]. intros _. apply not_true_is_false. intros (k & Hk & Hs)%existsb_elem.
    rewrite query_row_None in E. rewrite (E k Hk) in Hs. done.
Qed.

Lemma wf_lists_change db (ls : list ListRow) :
  wf db -> NoDup (l_id <$> ls) ->
  (forall i, existsb (is_list i) (lists db) = true -> existsb (is_list i) ls = true) ->
  (forall i, existsb (fun l => is_list i l && on_server l) ls = existsb (fun l => is_list i l && on_server l) (lists db)) ->
  wf (db <| lists := ls |>).
Proof.
  intros [Hn Hg Hl Hm Hmh Ht H1] Hnd He Hk. split; try done.
  - by apply He.
  - unfold kept_on_server. cbn. rewrite Hk. exact Hmh.
  - intros t Hin. destruct (Ht t Hin) as [Hp Hlk Hd Hw].
    assert (kept_on_server (db <| lists := ls |>) (list_id t) = kept_on_server db (list_id t)) as Heq by (by apply Hk).
    split; [intros Ho; by apply He, Hp|by rewrite Heq|done|by rewrite Heq].
Qed.

Lemma fresh_list (ls : list ListRow) l : existsb (is_list (l_id l)) ls = false ->
  NoDup (l_id <$> ls) -> NoDup (l_id <$> (ls ++ [l])).
Proof.
  intros Hno Hnd. rewrite fmap_app. apply NoDup_app. split; [done|]. split; [|apply NoDup_singleton].
  intros i Hi. cbn. rewrite list_elem_of_singleton. intros ->. apply existsb_is_list_iff in Hi. congruence.
Qed.

Lemma wf_add_list db l : wf db -> existsb (is_list (l_id l)) (lists db) = false -> on_server l = false ->
  wf (db <| lists := lists db ++ [l] |>).
Proof.
  intros Hw Hno Hon. apply wf_lists_change; [done|by apply fresh_list, Hw| |]; intros i; rewrite existsb_app.
  - by intros ->.
  - cbn. by rewrite Hon, andb_false_r, !orb_false_r.
Qed.

(** A change of a list's row that leaves what it is alone. *)
Lemma wf_update_lists db p (f : ListRow -> ListRow) : wf db ->
  (forall l, l_id (f l) = l_id l) -> (forall l, on_server (f l) = on_server l) ->
  wf (db <| lists := Table.update p f (lists db) |>).
Proof.
  intros Hw Hid Hon.
  assert (forall q : ListRow -> bool, (forall l, q (f l) = q l) ->
    existsb q (Table.update p f (lists db)) = existsb q (lists db)) as Hq.
  { intros q Hq. unfold Table.update. induction (lists db) as [|l ls IH]; [done|]. cbn. rewrite <- IH.
    f_equal. by destruct (p l). }
  apply wf_lists_change; [done| | |].
  - rewrite update_key by done. apply Hw.
  - intros i. rewrite Hq; [done|]. intros l. unfold is_list. by rewrite Hid.
  - intros i. apply Hq. intros l. unfold is_list. by rewrite Hid, Hon.
Qed.

Lemma wf_delete_list db i : wf db -> i <> MAIL_LIST -> wf (delete_list_rows db i).
Proof.
  intros Hw Hne. destruct Hw as [Hn Hg Hl Hm Hmh Ht H1].
  assert (forall (q : ListRow -> bool) j, j <> i -> (forall l, q l = true -> l_id l = j) ->
    existsb q (delete_where (is_list i) (lists db)) = existsb q (lists db)) as Hq.
  { intros q j Hj Hql. apply eq_true_iff_eq. rewrite !existsb_elem. split.
    - intros (l & [Hin _]%elem_of_delete_where & Hl'). eauto.
    - intros (l & Hin & Hl'). exists l. split; [|done]. apply elem_of_delete_where. split; [done|].
      unfold is_list. apply bool_decide_eq_false. rewrite (Hql l Hl'). done. }
  assert (forall j, j <> i -> list_exists (delete_list_rows db i) j = list_exists db j /\
    kept_on_server (delete_list_rows db i) j = kept_on_server db j) as Hj.
  { intros j Hj. split; apply (Hq _ j Hj); intros l; unfold is_list; bools; tauto. }
  split.
  - by apply delete_where_key.
  - intros t [Hin _]%elem_of_delete_where. by apply Hg.
  - by apply delete_where_key.
  - by rewrite (proj1 (Hj MAIL_LIST (not_eq_sym Hne))).
  - by rewrite (proj2 (Hj MAIL_LIST (not_eq_sym Hne))).
  - intros t [Hin Hnot]%elem_of_delete_where. unfold in_list in Hnot. apply bool_decide_eq_false in Hnot.
    destruct (Ht t Hin) as [Hp Hlk Hd Hw]. destruct (Hj _ Hnot) as [He Hk].
    split; [by rewrite He|by rewrite Hk|done|by rewrite Hk].
  - intros a b [Ha _]%elem_of_delete_where [Hb _]%elem_of_delete_where. by apply H1.
Qed.

(** ** Every operation keeps it *)

Section Kept.
Context `{Calendar} `{Zone} `{Stamps}.

Lemma stored_rule_due fs : stored_rule fs <> [] -> is_Some (f_due_at fs).
Proof. unfold stored_rule. destruct (recurrence fs); [|done]. by destruct (f_due_at fs). Qed.

Lemma check_linked fs u : check fs true = Ok u -> recurrence fs = None.
Proof. unfold check. cbn. destruct (negb _); [done|]. by destruct (recurrence fs). Qed.

Lemma anchored_anew_none fs current : recurrence fs = None -> stored_rule (anchored_anew fs current) = [].
Proof. unfold anchored_anew, stored_rule. destruct (bool_decide _); cbn; by intros ->. Qed.

Lemma list_exists_mail_or db i :
  wf db -> list_exists db i = true -> list_exists db (if is_nil i then MAIL_LIST else i) = true.
Proof. intros Hw Hi. destruct (is_nil i); [apply Hw|done]. Qed.

Lemma wf_create_row db fs now db' i : wf db -> create_row db fs now = Ok (db', i) -> wf db'.
Proof.
  intros Hw. unfold create_row. intros (u & _ & Hc)%bind_Ok. destruct (list_exists _ _) eqn:He; [|done].
  cbn [negb] in Hc. assert (E : Ok (insert (created fs (if is_nil (f_list_id fs) then MAIL_LIST else f_list_id fs) now) db) =
    (Ok (db', i) : op Z)) by exact Hc. injection E as <- _.
  apply (wf_insert db (created fs _ now)); [done|done| |].
  - intros j. split; [done|done|apply stored_rule_due|done].
  - intros j. by apply unlinked_alone.
Qed.

Lemma wf_create db fs now db' i : wf db -> create db fs now = Ok (db', i) -> wf db'.
Proof.
  intros Hw. unfold create. intros ([db1 k] & Hc & [= <- _])%bind_Ok. apply wf_touched. by eapply wf_create_row.
Qed.

Lemma get_row db i fs at_revision is_linked :
  get db i = Ok (Some (fs, at_revision, is_linked)) ->
  exists t, t ∈ tasks db /\ with_id i t = true /\ deleting t = false /\ fields_of t = Ok fs /\
    revision t = at_revision /\ linked t = is_linked.
Proof.
  unfold get. destruct (query_row _ _) as [t|] eqn:E; [|done].
  apply query_row_Some in E as [Hin Hp]. intros (fs' & Hf & [= -> <- <-])%bind_Ok. exists t.
  apply andb_true_iff in Hp as [Hp Hd%negb_true_iff]. done.
Qed.

Lemma fields_of_list t fs : fields_of t = Ok fs -> f_list_id fs = list_id t.
Proof. unfold fields_of. by intros (r & _ & [= <-])%bind_Ok. Qed.

Lemma same_row db i t u : wf db -> t ∈ tasks db -> u ∈ tasks db ->
  with_id i t = true -> with_id i u = true -> t = u.
Proof.
  intros Hw Ht Hu Et Eu. unfold with_id in *. rewrite Z.eqb_eq in Et, Eu.
  apply (key_unique id i (tasks db)); [apply Hw|done|done|by apply bool_decide_eq_true..].
Qed.

Lemma wf_edit db i read_at fs db' e : wf db -> update db i read_at fs = Ok (db', e) -> wf db'.
Proof.
  intros Hw. unfold update. intros (row & Hrow & Hc)%bind_Ok.
  destruct row as [[[cur rev] lk]|]; [|by injection Hc as <- <-].
  destruct (negb (rev =? read_at)); [by injection Hc as <- <-|].
  apply bind_Ok in Hc as (u & Hck & Hc).
  set (target := if is_nil (f_list_id fs) then f_list_id cur else f_list_id fs) in *.
  destruct (list_exists db target) eqn:He; [|done]. cbn [negb] in Hc.
  destruct (negb (bool_decide (target = _)) && _) eqn:Emove; [done|].
  apply bind_Ok in Hc as ([] & _ & Hc). injection Hc as <- <-.
  apply get_row in Hrow as (t & Hin & Hi & _ & Hf & _ & Hlk).
  apply fields_of_list in Hf. rewrite Hf in *.
  apply wf_touched, wf_update; [done| |apply (with_id_one db Hw)].
  intros t' Hin' Hi'. assert (t' = t) as -> by by apply (same_row db i).
  destruct (wf_tasks _ Hw t Hin) as [Hpl Hl Hd Hwt].
  assert (stored_rule (anchored_anew fs cur) <> [] -> lk = false) as Hnl.
  { intros Hs. destruct lk; [|done]. destruct Hs. by apply anchored_anew_none, (check_linked fs u). }
  assert (target <> list_id t -> kept_on_server db target = false /\ kept_on_server db (list_id t) = false) as Hmv.
  { intros Hne. rewrite bool_decide_eq_false_2 in Emove by done. cbn in Emove.
    rewrite !remote_of_list_nil, !negb_involutive in Emove by apply Hw. by apply orb_false_iff. }
  split; [done|done|by left|]. split.
  - done.
  - cbn. intros Hlt. change (linked t = true) in Hlt.
    destruct (Hl Hlt) as (Hr & Hrec & Hk & Hh). split; [|split; [done|split; [|done]]].
    + destruct (decide (stored_rule (anchored_anew fs cur) = [])) as [->|Hs]; [done|].
      specialize (Hnl Hs). congruence.
    + destruct (decide (target = list_id t)) as [->|Hne]; [done|]. by apply Hmv.
  - cbn. apply stored_rule_due.
  - cbn. intros Hp. change (pending t <> []) in Hp. specialize (Hwt Hp).
    destruct (decide (target = list_id t)) as [->|Hne]; [done|]. destruct (Hmv Hne). congruence.
Qed.

(** A change of what a task says, its place, conversation and rule kept. *)
Lemma keeps_plain db t t' : wf db -> t ∈ tasks db ->
  id t' = id t -> account t' = account t -> thread_key t' = thread_key t -> remote_href t' = remote_href t ->
  (open t' = true -> open t = true) -> list_id t' = list_id t -> recurring t' = recurring t ->
  (rrule t' = [] \/ linked t = false /\ is_Some (due_at t') \/ rrule t' = rrule t /\ due_at t' = due_at t) ->
  pending t' = pending t -> keeps db t t'.
Proof.
  intros Hw Hin Hi Ha Hk Hh Ho Hl Hrc Hr Hp. destruct (wf_tasks _ Hw t Hin) as [Opl Olk Od Ow].
  split; [done|done|intros Ho'; left; by apply Ho|]. split.
  - by rewrite Hl.
  - rewrite (linked_key t t' Hk). intros Hlt. destruct (Olk Hlt) as (Or & Orc & Ok).
    rewrite Hl, Hrc, Hh. split; [|done]. destruct Hr as [->|[[Hf _]|[-> _]]]; [done|congruence|done].
  - intros Hne. destruct Hr as [E|[[_ Hd]|[Er Ed]]]; [by destruct Hne|done|]. rewrite Ed. apply Od. by rewrite <- Er.
  - rewrite Hl, Hp. exact Ow.
Qed.

Lemma occurrence_row db i t : query_row (fun t => with_id i t && negb (deleting t) && negb (linked t)) (tasks db) = Some t ->
  t ∈ tasks db /\ with_id i t = true /\ deleting t = false /\ linked t = false.
Proof. intros [Hin Hp]%query_row_Some. rewrite !andb_true_iff, !negb_true_iff in Hp. tauto. Qed.

Lemma moved_on_cols rule due next t :
  let t' := moved_on rule due next t in
  id t' = id t /\ account t' = account t /\ thread_key t' = thread_key t /\ completed_at t' = completed_at t /\
  list_id t' = list_id t /\ recurring t' = recurring t /\ due_at t' = Some next /\ pending t' = pending t /\
  remote_href t' = remote_href t.
Proof. unfold moved_on. by destruct (unwrap_or _ _). Qed.

Lemma wf_complete_occurrence db i now db' o : wf db -> complete_occurrence db i now = Ok (db', o) -> wf db'.
Proof.
  intros Hw. unfold complete_occurrence. destruct (query_row _ _) as [t|] eqn:Eq; [|by intros [= <- <-]].
  apply occurrence_row in Eq as (Hin & Hi & _ & Hlk).
  destruct (due_at t) as [due|] eqn:Ed; [|by intros [= <- <-]].
  destruct (completed_at t) eqn:Ec; [by intros [= <- <-]|].
  intros (rule & _ & Hc)%bind_Ok. destruct rule as [rule|]; [|by injection Hc as <- <-].
  apply bind_Ok in Hc as ([] & _ & Hc). apply bind_Ok in Hc as (next & _ & Hc).
  destruct next as [next|].
  - destruct (insert (occurrence_done t now) db) as [db1 copy] eqn:Ei. injection Hc as <- <-.
    apply (f_equal fst) in Ei. cbn [fst] in Ei. subst db1.
    assert (wf (touched (insert (occurrence_done t now) db).1 copy)) as Hw2.
    { apply wf_touched, wf_insert; [done|done| |intros j; by apply unlinked_alone].
      intros j. split; [apply (ok_placed db t), Hw, Hin|done|done|done]. }
    apply wf_touched, wf_update; [done| |apply (with_id_one _ Hw2)]. intros u Hu Eu.
    assert (linked u = false) as Hlu.
    { revert Hu. cbn [touched update_tasks]. intros (u0 & Hu0 & ->)%elem_of_update.
      assert (u0 ∈ tasks db \/ u0 = occurrence_done t now (new_task (last_id db + 1))) as [Hu1| ->].
      { revert Hu0. cbn. rewrite elem_of_app, list_elem_of_singleton. done. }
      - assert (u0 = t) as ->; [|by destruct (_ && _)].
        apply (same_row db i); [done..| |done]. revert Eu. by destruct (_ && _).
      - by destruct (_ && _). }
    destruct (moved_on_cols rule due next u) as (E1 & E2 & E3 & E4 & E5 & E6 & E7 & E8 & E9).
    apply keeps_plain; [done..|unfold open; by rewrite E4|done|done| |done].
    right. left. split; [done|]. by rewrite E7.
  - injection Hc as <- <-. apply wf_touched, wf_update; [done| |apply (with_id_one _ Hw)].
    intros u Hu _. apply keeps_plain; [done..|done|done|done|by right; right|done].
Qed.

Lemma wf_here db i (f : Task -> Task) : wf db ->
  (forall t, t ∈ tasks db -> with_id i t && negb (deleting t) = true -> keeps db t (f t)) ->
  wf (update_tasks (fun t => with_id i t && negb (deleting t)) f db).
Proof.
  intros Hw Hk. apply wf_update; [done|done|].
  intros t v Ht Hv [Ei _]%andb_true_iff [Ej _]%andb_true_iff. by apply (with_id_one db Hw i).
Qed.

Lemma wf_stop_repeating_row db i now db' u : wf db -> stop_repeating_row db i now = Ok (db', u) -> wf db'.
Proof.
  intros Hw. unfold stop_repeating_row. intros ([] & _ & Hc)%bind_Ok. destruct (Nat.eqb _ _); [done|].
  injection Hc as <- _. apply wf_here; [done|]. intros t Ht _. apply keeps_plain; [done..|done|done|done|by left|done].
Qed.

Lemma wf_stop_repeating db i now db' u : wf db -> stop_repeating db i now = Ok (db', u) -> wf db'.
Proof.
  intros Hw. unfold stop_repeating. intros ([db1 v] & Hc & [= <- _])%bind_Ok. apply wf_touched.
  by eapply wf_stop_repeating_row.
Qed.

Lemma wf_set_task_completed_row db i completed now db' u :
  wf db -> set_task_completed_row db i completed now = Ok (db', u) -> wf db'.
Proof.
  intros Hw. unfold set_task_completed_row. intros ([] & _ & Hc)%bind_Ok.
  apply bind_Ok in Hc as ([db1 moved] & Hm & Hc).
  assert (wf db1) as Hw1.
  { destruct completed; [by eapply wf_complete_occurrence|by injection Hm as <- <-]. }
  destruct moved; [by injection Hc as <- _|].
  destruct (negb completed && _) eqn:Er; [done|]. destruct (Nat.eqb _ _); [done|]. injection Hc as <- _.
  apply wf_here; [done|]. intros t Ht Hp. destruct completed; cbn [negb andb] in Er.
  - apply keeps_plain; [done..|done|done|done|by right; right|done].
  - destruct (wf_tasks _ Hw1 t Ht) as [Hpl Hl Hd Hwt]. split; [done|done| |by split].
    intros _. right. apply not_true_is_false. intros Hs.
    assert (reopening_refused db1 i = true); [|congruence].
    unfold reopening_refused. apply existsb_elem. exists t. split; [done|]. by rewrite Hp.
Qed.

Lemma wf_set_task_completed db i completed now db' u :
  wf db -> set_task_completed db i completed now = Ok (db', u) -> wf db'.
Proof.
  intros Hw. unfold set_task_completed. intros ([db1 b] & Hc & [= <- _])%bind_Ok.
  assert (wf db1) by (by eapply wf_set_task_completed_row). destruct b; [by apply wf_touched|done].
Qed.

Lemma wf_set_completed db i completed stop now db' c :
  wf db -> set_completed db i completed stop now = Ok (db', c) -> wf db'.
Proof.
  intros Hw. unfold set_completed. destruct (completed && stop).
  - intros ([db1 u] & Hs & [= <- <-])%bind_Ok. by eapply wf_stop_repeating.
  - intros ([db1 o] & Ho & Hc)%bind_Ok.
    assert (wf db1) as Hw1.
    { destruct completed; [by eapply wf_complete_occurrence|by injection Ho as <- <-]. }
    destruct o; [by injection Hc as <- <-|]. apply bind_Ok in Hc as ([db2 u] & Hs & [= <- <-]).
    by apply (wf_set_task_completed db1 i completed now _ u Hw1).
Qed.

Lemma wf_save_task db acct key folder_ due note_ now db' i :
  wf db -> save_task db acct key folder_ due note_ now = Ok (db', i) -> wf db'.
Proof.
  intros Hw. unfold save_task. set (same := fun t => open_on acct key t && linked t).
  set (d := if existsb same (tasks db) then _ else _).
  destruct (query_row _ _) as [row|]; [|done]. intros [= <- _]. unfold d.
  assert (forall t, same t = true -> account t = acct /\ thread_key t = key /\ open t = true /\ linked t = true) as Hs.
  { intros t. unfold same, open_on. bools. tauto. }
  destruct (existsb same (tasks db)) eqn:E.
  - apply wf_update; [done| |].
    + intros t Ht Hp. destruct (Hs t Hp) as (_ & _ & _ & Hl).
      destruct (ok_linked _ _ (wf_tasks _ Hw t Ht) Hl) as (Hr & _).
      apply keeps_plain; [done..|done|done|done| |done]. by left.
    + intros t u Ht Hu Hp Hq. destruct (Hs t Hp) as (A & K & O & L). destruct (Hs u Hq) as (A' & K' & O' & L').
      destruct (decide (id t = id u)) as [|Hne]; [done|exfalso].
      pose proof (wf_one _ Hw t u Ht Hu) as Hno. unfold same_conversation in Hno.
      rewrite O, O', L, A, A', K, K', !bool_decide_eq_true_2 in Hno by done.
      cbn in Hno. by apply negb_false_iff, Z.eqb_eq in Hno.
  - apply wf_insert; [done|done| |].
    + intros j. split; [intros _; apply Hw|intros _; split_and!; [done|done|apply Hw|done]|done|done].
    + intros j. apply not_true_is_false. intros (t & Ht & Hsc)%existsb_elem.
      assert (same t = true); [|by rewrite (existsb_none _ _ E t Ht) in *].
      revert Hsc. unfold same_conversation, same, open_on, linked. bools. cbn. unfold constant.
      intuition congruence.
Qed.

Lemma wf_delete_task db i : wf db -> wf (delete_task db i).
Proof.
  intros Hw. unfold delete_task. destruct (Nat.eqb _ _); [by apply wf_delete|].
  apply wf_update; [done| |].
  - intros t Ht Hp. destruct (wf_tasks _ Hw t Ht) as [Hpl Hl Hd Hwt].
    split; [done|done|by left|]. split; [done|done|done|]. intros _. by apply andb_true_iff in Hp as [_ ?].
  - intros t v Ht Hv Ei Ej. rewrite !andb_true_iff in Ei, Ej. apply (with_id_one db Hw i); tauto.
Qed.

Lemma wf_mark_reminded db i now : wf db -> wf (mark_reminded db i now).
Proof.
  intros Hw. apply wf_update; [done| |apply (with_id_one _ Hw)].
  intros t Ht _. apply keeps_plain; [done..|done|done|done|by right; right|done].
Qed.

Lemma wf_create_list_with_id db i list_name now db' u :
  wf db -> create_list_with_id db i list_name now = Ok (db', u) -> wf db'.
Proof.
  intros Hw. unfold create_list_with_id. destruct (is_nil _); [done|].
  destruct (list_exists db i) eqn:E; [done|]. intros [= <- _]. by apply wf_add_list.
Qed.

Lemma wf_rename_list db i list_name db' u : wf db -> rename_list db i list_name = Ok (db', u) -> wf db'.
Proof.
  intros Hw. unfold rename_list. destruct (is_nil _); [done|]. destruct (Nat.eqb _ _); [done|].
  intros [= <- _]. by apply wf_update_lists.
Qed.

(** What the interface can do to the tables, one request at a time. *)
Inductive step (db : Db) : Db -> Prop :=
| did_create_list uuid list_name now db' i : create_list db uuid list_name now = Ok (db', i) -> step db db'
| did_rename_list i list_name db' u : rename_list db i list_name = Ok (db', u) -> step db db'
| did_delete_list i db' u : delete_list db i = Ok (db', u) -> step db db'
| did_create fs now db' i : create db fs now = Ok (db', i) -> step db db'
| did_update i read_at fs db' e : update db i read_at fs = Ok (db', e) -> step db db'
| did_set_completed i completed stop now db' c :
    set_completed db i completed stop now = Ok (db', c) -> step db db'
| did_save acct key folder_ due note_ now db' i :
    save_task db acct key folder_ due note_ now = Ok (db', i) -> step db db'
| did_delete i : step db (delete_task db i)
| did_remind i now : step db (mark_reminded db i now).

Lemma wf_step db db' : wf db -> step db db' -> wf db'.
Proof.
  intros Hw. destruct 1 as [uuid ln now db' i E|i ln db' u E|i db' u E|fs now db' i E|i r fs db' e E
    |i c s now db' o E|a k f d n now db' i E|i|i now].
  - unfold create_list in E. apply bind_Ok in E as ([db1 u] & E & [= <- _]). by eapply wf_create_list_with_id.
  - by eapply wf_rename_list.
  - unfold delete_list in E. destruct (bool_decide _) eqn:Eb; [done|]. injection E as <- _.
    apply wf_delete_list; [done|]. by apply bool_decide_eq_false in Eb.
  - by eapply wf_create.
  - by eapply wf_edit.
  - by eapply wf_set_completed.
  - by eapply wf_save_task.
  - by apply wf_delete_task.
  - by apply wf_mark_reminded.
Qed.

(** The tables as the first start makes them: the mail list, and no task. *)
Definition fresh : Db := {| tasks := []; lists := [new_list MAIL_LIST [] 0 0]; last_id := 0 |}.

Lemma wf_fresh : wf fresh.
Proof.
  split; try (intros t Ht; cbn in Ht; by apply not_elem_of_nil in Ht).
  - constructor.
  - apply NoDup_singleton.
  - done.
  - done.
  - intros a b Ha. cbn in Ha. by apply not_elem_of_nil in Ha.
Qed.

(** ** Editing from a revision *)

Lemma touched_row db i t : t ∈ tasks db ->
  (if with_id i t && negb (deleting t) && kept_on_server db (list_id t)
   then to_send t else t) ∈ tasks (touched db i).
Proof. intros Hin. apply elem_of_update. by exists t. Qed.

Lemma other_rows db p f u : p u = false -> (forall t, p t = true -> p (f t) = true) ->
  u ∈ tasks (update_tasks p f db) <-> u ∈ tasks db.
Proof.
  intros Hu Hf. split.
  - intros (t & Hin & ->)%elem_of_update. destruct (p t) eqn:E; [|done]. by rewrite (Hf t E) in Hu.
  - intros Hin. apply elem_of_update. exists u. by rewrite Hu.
Qed.

Lemma other_touched db i u : id u <> i -> u ∈ tasks (touched db i) <-> u ∈ tasks db.
Proof.
  intros Hne. assert (with_id i u = false) as Hw by by apply Z.eqb_neq.
  split.
  - intros (t & Hin & ->)%elem_of_update. destruct (_ && _) eqn:E; [|done]. exfalso. apply Hne.
    apply andb_true_iff in E as [[E _]%andb_true_iff _]. by apply Z.eqb_eq in E.
  - intros Hin. apply elem_of_update. exists u. by rewrite Hw.
Qed.

(** What an edit leaves of the task it was made on. *)
Record edited (db : Db) (fs : TaskFields) (t t' : Task) : Prop := {
  ed_title : title t' = trim (f_title fs);
  ed_note : note t' = trim (f_note fs);
  ed_due : due_at t' = f_due_at fs;
  ed_priority : priority t' = f_priority fs;
  ed_reminder : reminder_at t' = f_reminder_at fs;
  ed_rings_again : reminder_at t <> f_reminder_at fs -> reminded_at t' = None;
  ed_done : completed_at t' = completed_at t;
  ed_conversation : account t' = account t /\ thread_key t' = thread_key t;
  ed_revision : revision t' = revision t + 1;
  ed_sent : kept_on_server db (list_id t') = true -> pending t' = lit "put" /\ sync_seq t' = sync_seq t + 1
}.

(** An edit made from the revision the task is at writes every field,
    raises the revision, waits to be sent if the list is on a server, and
    leaves every other task alone; one made from another revision, or of a
    task that is gone, writes nothing and says what is there now. *)
Theorem edit_spec db i read_at fs db' e : wf db -> update db i read_at fs = Ok (db', e) ->
  match e with
  | Saved r => r = read_at + 1 /\ exists t t',
      t ∈ tasks db /\ id t = i /\ deleting t = false /\ revision t = read_at /\
      t' ∈ tasks db' /\ id t' = i /\ edited db fs t t' /\
      forall u, id u <> i -> u ∈ tasks db' <-> u ∈ tasks db
  | Conflict current now_at => db' = db /\
      match current with
      | Some cur => now_at <> read_at /\ exists t, t ∈ tasks db /\ id t = i /\ revision t = now_at /\ fields_of t = Ok cur
      | None => forall t, t ∈ tasks db -> id t = i -> deleting t = true
      end
  end.
Proof.
  intros Hw. unfold update. intros (row & Hrow & Hc)%bind_Ok.
  destruct row as [[[cur rev] lk]|].
  2: { injection Hc as <- <-. split; [done|]. intros t Hin Hi. unfold get in Hrow.
       destruct (query_row _ _) as [u|] eqn:E; [by apply bind_Ok in Hrow as (? & _ & ?)|].
       rewrite query_row_None in E. specialize (E t Hin). unfold with_id in E. rewrite Hi, Z.eqb_refl in E.
       by apply negb_false_iff in E. }
  apply get_row in Hrow as (t & Hin & Hi & Hd & Hf & <- & Hlk). pose proof Hi as Hi'. apply Z.eqb_eq in Hi'.
  destruct (revision t =? read_at) eqn:Er; cbn [negb] in Hc.
  2: { injection Hc as <- <-. split; [done|]. apply Z.eqb_neq in Er. split; [done|]. by exists t. }
  apply Z.eqb_eq in Er. apply bind_Ok in Hc as (u & Hck & Hc).
  destruct (list_exists _ _); [|done]. cbn [negb] in Hc.
  destruct (negb (bool_decide _) && _); [done|]. apply bind_Ok in Hc as ([] & _ & Hc).
  set (target := if is_nil (f_list_id fs) then f_list_id cur else f_list_id fs) in *.
  set (fs' := anchored_anew fs cur) in *.
  injection Hc as <- <-. split; [lia|].
  set (t1 := edit fs' target t).
  assert (edited db fs t (to_send t1) /\ (kept_on_server db (list_id t1) = false -> edited db fs t t1)) as [Ed1 Ed2].
  { assert (f_due_at fs' = f_due_at fs /\ f_title fs' = f_title fs /\ f_note fs' = f_note fs /\
      f_priority fs' = f_priority fs /\ f_reminder_at fs' = f_reminder_at fs) as (E1 & E2 & E3 & E4 & E5).
    { unfold fs', anchored_anew. by destruct (bool_decide _). }
    assert (reminder_at t <> f_reminder_at fs -> reminded_at t1 = None) as Hring.
    { intros Hne. unfold t1, edit. cbn. rewrite E5. by rewrite bool_decide_eq_false_2. }
    split; [|intros Hk]; split; try exact Hring; unfold t1, edit; rewrite ?E1, ?E2, ?E3, ?E4, ?E5; try done.
    intros Hk'. exfalso. revert Hk Hk'. unfold t1, edit, kept_on_server. cbn. congruence. }
  assert (t1 ∈ tasks (update_tasks (with_id i) (edit fs' target) db)) as Hin1.
  { apply elem_of_update. exists t. by rewrite Hi. }
  pose proof (touched_row _ i _ Hin1) as Hin2. set (t2 := if _ : bool then _ else t1) in Hin2.
  exists t, t2. split; [done|]. split; [done|]. split; [done|]. split; [done|]. split; [exact Hin2|].
  assert (with_id i t1 = true /\ deleting t1 = false) as [Hi1 Hd1] by done.
  unfold t2. rewrite Hi1, Hd1. cbn [negb andb]. split; [by destruct (kept_on_server _ _)|]. split.
  - destruct (kept_on_server _ (list_id t1)) eqn:Ek; [done|by apply Ed2].
  - intros v Hv. rewrite other_touched by done. apply other_rows; [by apply Z.eqb_neq|].
    intros w. done.
Qed.

Lemma linked_waits_not db t : task_ok db t -> linked t = true -> deleting t = false.
Proof.
  intros [_ Hl _ Hw] Hlk. unfold deleting. apply bool_decide_eq_false. intros Hp.
  destruct (Hl Hlk) as (_ & _ & Hk & _). rewrite Hw in Hk; [done|]. by rewrite Hp.
Qed.

Lemma row_by_id db t : wf db -> t ∈ tasks db -> deleting t = false ->
  query_row (fun u => with_id (id t) u && negb (deleting u)) (tasks db) = Some t.
Proof.
  intros Hw Hin Hd. apply query_row_unique; [done|unfold with_id; by rewrite Z.eqb_refl, Hd|].
  intros u Hu [Hi _]%andb_true_iff. apply (same_row db (id t)); [done..|]. apply Z.eqb_refl.
Qed.

(** The task open on a conversation. *)
Lemma open_on_row db t : wf db -> t ∈ tasks db -> linked t = true -> open t = true ->
  query_row (open_on (account t) (thread_key t)) (tasks db) = Some t.
Proof.
  intros Hw Hin Hl Ho. apply query_row_unique; [done| |].
  - unfold open_on. by rewrite Ho, !bool_decide_eq_true_2.
  - intros u Hu Hp. destruct (decide (id u = id t)) as [Heq|Hne].
    + apply (same_row db (id t)); [done..| |]; unfold with_id; by rewrite ?Heq, Z.eqb_refl.
    + pose proof (wf_one _ Hw t u Hin Hu) as Hno. unfold same_conversation, open_on in *.
      bools in Hp. destruct Hp as [[Ha Hk] Hou].
      rewrite Hl, Ho, Hou, !bool_decide_eq_true_2 in Hno by done. cbn [andb] in Hno.
      apply negb_false_iff, Z.eqb_eq in Hno. congruence.
Qed.

Lemma fields_of_linked db t : wf db -> t ∈ tasks db -> linked t = true ->
  exists fs, fields_of t = Ok fs /\ f_list_id fs = list_id t.
Proof.
  intros Hw Hin Hl. destruct (ok_linked _ _ (wf_tasks _ Hw t Hin) Hl) as (Hr & _).
  unfold fields_of. rewrite Hr. cbn. eexists. done.
Qed.

End Kept.
End Laws.

Section Theorems.
Context `{Calendar} `{Zone} `{Stamps}.

(** Saving a task from its conversation writes the note and the due date
    and leaves the revision: an editor that read the task before then saves
    over it, and is told nothing. *)
Theorem a_save_goes_unnoticed db t folder_ due note_ now : wf false db ->
  t ∈ tasks db -> linked t = true -> open t = true ->
  exists db1 t1, save_task db (account t) (thread_key t) folder_ due note_ now = Ok (db1, id t) /\
    t1 ∈ tasks db1 /\ id t1 = id t /\ note t1 = note_ /\ due_at t1 = due /\ revision t1 = revision t /\
    forall fs u, check fs true = Ok u -> f_list_id fs = [] ->
      exists db2, update db1 (id t) (revision t) fs = Ok (db2, Saved (revision t + 1)).
Proof.
  intros Hw Hin Hl Ho.
  set (same := fun u => open_on (account t) (thread_key t) u && linked u).
  assert (same t = true) as Hs by (unfold same, open_on; by rewrite Ho, Hl, !bool_decide_eq_true_2).
  set (db1 := update_tasks same (noted folder_ note_ due) db). set (t1 := noted folder_ note_ due t).
  assert (t1 ∈ tasks db1) as Hin1 by (apply elem_of_update; exists t; by rewrite Hs).
  assert (save_task db (account t) (thread_key t) folder_ due note_ now =
    match query_row (open_on (account t) (thread_key t)) (tasks db1) with
    | Some r => Ok (db1, id r) | None => bail (lit "Query returned no rows") end) as Hsave.
  { unfold save_task. fold same. assert (existsb same (tasks db) = true) as -> by (apply existsb_elem; eauto). done. }
  assert (wf false db1) as Hw1.
  { destruct (query_row _ (tasks db1)) eqn:E; [by apply (wf_save_task false _ _ _ _ _ _ _ _ _ Hw Hsave)|].
    rewrite query_row_None in E. specialize (E t1 Hin1). unfold open_on in E.
    change (open t1) with (open t) in E. rewrite Ho, !bool_decide_eq_true_2 in E; done. }
  pose proof (open_on_row false db1 t1 Hw1 Hin1 Hl Ho) as Hfound.
  change (account t1) with (account t) in Hfound. change (thread_key t1) with (thread_key t) in Hfound.
  exists db1, t1. rewrite Hsave, Hfound.
  do 6 (split; [done|]). intros fs u Hck Hfl.
  pose proof (wf_tasks _ _ Hw1 t1 Hin1) as Hok. pose proof (linked_waits_not _ _ _ Hok Hl) as Hdel.
  destruct (ok_linked _ _ _ Hok Hl) as (_ & _ & Hk & _).
  destruct (fields_of_linked false db1 t1 Hw1 Hin1 Hl) as (cur & Hcur & Hlist).
  pose proof (row_by_id false db1 t1 Hw1 Hin1 Hdel) as Hrow. change (id t1) with (id t) in Hrow.
  unfold update, get. rewrite Hrow, Hcur. cbn [mbind result_bind].
  change (linked t1) with (linked t). rewrite Hl. change (revision t1) with (revision t). rewrite Z.eqb_refl. cbn [negb]. rewrite Hck, Hfl. cbn [mbind result_bind is_nil].
  rewrite Hlist, (ok_placed _ _ _ Hok eq_refl), bool_decide_eq_true_2 by done. cbn [negb andb].
  unfold check_editable, sync_state. rewrite Hrow. cbn [mbind option_bind]. rewrite Hk. eauto.
Qed.
End Theorems.

(** ** Instances *)

#[local] Existing Instance Recurrence.Demo.utc.
#[local] Existing Instance RRule.Demo.digits.

Module Demo.

(** A task of a list of its own, and one made from a conversation. *)
Definition bread : TaskFields :=
  {| f_list_id := lit "list:home"; f_title := lit " Bread "; f_note := []; f_due_at := None;
     f_reminder_at := Some 900; f_priority := 1; recurrence := None |}.

Definition home : Db := unwrap_or fresh (fst <$> ok (create_list fresh (lit "home") (lit "Home") 5)).
Definition shopping : Db := unwrap_or fresh (fst <$> ok (create home bread 10)).
Definition answered : Db :=
  unwrap_or fresh (fst <$> ok (save_task shopping (lit "me@x") (lit "k1") (lit "INBOX") None (lit "reply") 20)).

Lemma answered_reached : rtc step fresh answered.
Proof.
  apply (rtc_l _ _ home); [apply (did_create_list _ (lit "home") (lit "Home") 5 _ (lit "list:home")); vm_compute; reflexivity|].
  apply (rtc_l _ _ shopping); [apply (did_create _ bread 10 _ 1); vm_compute; reflexivity|].
  apply (rtc_l _ _ answered); [|apply rtc_refl].
  apply (did_save _ (lit "me@x") (lit "k1") (lit "INBOX") None (lit "reply") 20 _ 2). vm_compute. reflexivity.
Qed.

Lemma answered_wf : wf false answered.
Proof.
  assert (forall a, rtc step a answered -> wf false a -> wf false answered) as Hall.
  { intros a. induction 1 as [|a b c Hab _ IH]; [done|]. intros Hw. apply IH. by apply (wf_step false a). }
  by apply (Hall fresh), wf_fresh; apply answered_reached.
Qed.

Definition rye : TaskFields := bread <| f_title := lit "Rye bread" |> <| f_reminder_at := Some 1000 |>.
Definition rewritten : Db := unwrap_or fresh (fst <$> ok (update answered 1 1 rye)).

Definition reply : Task := unwrap_or (new_task 0) (query_row (with_id 2) (tasks answered)).
End Demo.

Lemma edit_spec_witness :
  update Demo.answered 1 1 Demo.rye = Ok (Demo.rewritten, Saved 2) /\
  exists t', t' ∈ tasks Demo.rewritten /\ title t' = lit "Rye bread" /\ revision t' = 2.
Proof.
  assert (update Demo.answered 1 1 Demo.rye = Ok (Demo.rewritten, Saved 2)) as E by (vm_compute; reflexivity).
  split; [exact E|].
  destruct (edit_spec _ _ _ _ _ _ _ Demo.answered_wf E) as (_ & t & t' & _ & _ & _ & Hr & Hin & _ & Hed & _).
  exists t'. split; [exact Hin|]. destruct Hed as [Ht _ _ _ _ _ _ _ Hrev _]. split.
  - rewrite Ht. vm_compute. reflexivity.
  - rewrite Hrev, Hr. reflexivity.
Defined.

Lemma a_save_goes_unnoticed_witness :
  exists db1 db2, save_task Demo.answered (lit "me@x") (lit "k1") (lit "INBOX") (Some 99) (lit "call back") 30 = Ok (db1, 2) /\
    update db1 2 1 {| f_list_id := []; f_title := []; f_note := lit "reply today"; f_due_at := None;
                      f_reminder_at := None; f_priority := 1; recurrence := None |} = Ok (db2, Saved 2).
Proof.
  assert (Demo.reply ∈ tasks Demo.answered) as Hin.
  { apply (query_row_Some (with_id 2)). vm_compute. reflexivity. }
  destruct (a_save_goes_unnoticed Demo.answered Demo.reply (lit "INBOX") (Some 99) (lit "call back") 30
              Demo.answered_wf Hin eq_refl eq_refl) as (db1 & t1 & Hs & _ & _ & _ & _ & _ & Hup).
  destruct (Hup {| f_list_id := []; f_title := []; f_note := lit "reply today"; f_due_at := None;
                   f_reminder_at := None; f_priority := 1; recurrence := None |} tt eq_refl eq_refl) as [db2 H2].
  exists db1, db2. split; [exact Hs|exact H2].
Defined.
End TaskLaws.
