(* ===== verification/TaskRepeat.v ===== *)
(** * A repeating task completed again and again

    Composes [Tasks] with [Recurrence] and [RRule]: completing an occurrence
    reads the rule from the text the task keeps, finds the next date, and
    writes the rule back as text.  Through all of it the due dates are the
    ones the rule named when the task was made. *)
From S2P Require Import Prelude Text Calendar Recurrence RRule Tasks TaskLaws.
From coqutil Require Import Datatypes.RecordSetters.
From S2P Require Import Table.
Import TriangleBracketNotations.
#[local] Open Scope record_set.
#[local] Open Scope Z_scope.

(** The wall clock in a zone where no change of clocks skips the end of a
    day: every time of a date names an instant, and that instant falls on
    the date. *)
Class SameDay `{Calendar} (Z0 : Zone) := {
  same_day : forall d s t, in_range d -> 0 <= s < 86400 ->
    Recurrence.resolve (d * 86400 + s) = Some t -> Recurrence.start_date t = Some d;
  names_an_instant : forall d s, in_range d -> 0 <= s < 86400 ->
    is_Some (Recurrence.resolve (d * 86400 + s))
}.

Module TaskRepeat.
Import Tasks TaskLaws Recurrence RRule.

Section Rules.
Context `{C : Calendar} {CL : CalendarLaws C} `{Z0 : Zone} `{D : Stamps} {SL : StampLaws Z0 D} {SD : SameDay Z0}.

(** ** A rule written and read again *)

Lemma follows_ext r r' a dates :
  (forall d, falls_on r' a d <-> falls_on r a d) -> until_date r' = until_date r ->
  (forall c, count r = Some c -> exists c', count r' = Some c' /\ Z.max 0 (c' - 1) = Z.max 0 (c - 1)) ->
  follows r' a dates -> follows r a dates.
Proof.
  intros Hf Hu Hc [Hs Hon Hsk Hun Hco]. split; [done| | | |].
  - intros d Hd. by apply Hf, Hon.
  - intros d e He H1 H2 H3. apply (Hsk d e); [done..|]. by apply Hf.
  - rewrite <- Hu. done.
  - intros c Ec. destruct (Hc c Ec) as (c' & Ec' & <-). by apply Hco.
Qed.

(** A rule ends at a date or after a count, not both: the text of one that
    has both keeps the date. *)
Definition one_end (r : Recurrence) : Prop := until r = None \/ count r = None.

Lemma until_date_back r a : writable r -> until_date (read_back r a) = until_date r.
Proof.
  intros Hw. unfold until_date, read_back. cbn [until]. unfold until_back.
  destruct (until r) as [u|] eqn:Hu; [|done]. cbn.
  destruct (wr_until r Hw u Hu) as (t & d & s & Hd & Hr & Hy & Ht & Hs & _).
  rewrite Hd. cbn. rewrite (resolve_earliest _ _ Ht). cbn.
  apply (same_day d 86340); [done|lia|]. by apply resolve_earliest.
Qed.


Lemma follows_read_back r a dates : writable r -> one_end r ->
  follows (read_back r a) a dates -> follows r a dates.
Proof.
  intros Hw H1. apply follows_ext.
  - intros d. by apply read_back_falls_on.
  - by apply until_date_back.
  - intros c Ec. unfold read_back. cbn [count]. destruct H1 as [->|H1]; [|congruence].
    rewrite Ec, bool_decide_eq_false_2 by (by intros []). eexists. split; [done|]. lia.
Qed.

Lemma one_end_read_back r a : one_end (read_back r a).
Proof. unfold one_end, read_back, until_back. cbn. destruct (until r); cbn; [by right|by left]. Qed.

Lemma spelled_read_back r a : writable r -> spelled_out (read_back r a).
Proof.
  intros Hw. exists (read_back r a), a.
  assert (forall i, Z.max (Z.max i 1) 1 = Z.max i 1) as Hi by lia.
  unfold anchored, read_back, days_back, monthly. cbn. rewrite Hi.
  destruct (freq r); cbn; [done| | |].
  - destruct (week_days_spec r (weekday a)) as (_ & Hne & _).
    by destruct (week_days r (weekday a)).
  - rewrite (bool_decide_eq_true_2 (Monthly = Monthly)) by done. cbn. destruct (month_week r).
    + rewrite bool_decide_eq_true_2 by done. done.
    + rewrite bool_decide_eq_false_2 by (by intros []). done.
  - rewrite (bool_decide_eq_true_2 (Yearly = Yearly)) by done. rewrite orb_true_r. cbn. destruct (month_week r).
    + rewrite bool_decide_eq_true_2 by done. done.
    + rewrite bool_decide_eq_false_2 by (by intros []). done.
Qed.

Lemma writable_read_back r a : in_range a -> writable r -> writable (read_back r a).
Proof.
  intros Ha Hw. destruct (wr_sane r Hw) as [Hd Hm]. pose proof (day_bounds a Ha) as Hday.
  assert (Forall (fun d => 0 <= d < 7) (days_back r a)) as Hdays.
  { unfold days_back. destruct (freq r); [done| | |].
    - apply Forall_forall. intros d. apply week_days_bounds, Hw.
    - case_bool_decide; [|done]. repeat constructor; apply first_weekday_bounds, Hw.
    - case_bool_decide; [|done]. repeat constructor; apply first_weekday_bounds, Hw. }
  split; cbn.
  - split; cbn.
    + eapply Forall_impl; [exact Hdays|]. cbn. lia.
    + intros n. destruct (monthly r); [apply Hm|done].
  - eapply Forall_impl; [exact Hdays|]. cbn. lia.
  - pose proof (wr_interval r Hw). lia.
  - intros c. destruct (bool_decide _); [done|]. destruct (count r) as [k|] eqn:Ek; [|done].
    intros [= <-]. pose proof (wr_count r Hw k Ek). lia.
  - intros d. destruct (monthly r && _); [|done]. intros [= <-].
    destruct (month_day r) as [m|] eqn:Em; cbn; [by apply (wr_day r Hw)|lia].
  - intros u. unfold until_back. destruct (until r) as [u0|] eqn:Eu; [|done]. cbn.
    destruct (wr_until r Hw u0 Eu) as (t & d & s & E1 & Hr & Hy & Ht & Hs). rewrite E1. cbn.
    rewrite (resolve_earliest _ _ Ht). intros [= <-]. exists t, d, s. split; [|done].
    apply (same_day d 86340); [done|lia|]. by apply resolve_earliest.
Qed.

Lemma writable_anchored r a : in_range a -> writable r -> writable (anchored r a).
Proof.
  intros Ha [Hs Hd Hi Hc Hm Hu]. pose proof (sane_anchored r a Hs) as Hs'.
  pose proof (weekday_bounds a) as Hwd. pose proof (day_bounds a Ha) as Hday.
  split; [done| | | | |].
  - unfold anchored. destruct (freq r); try case_bool_decide; cbn; try done;
      destruct (weekdays r) as [|x l]; cbn; repeat constructor; try lia; try done;
      apply Forall_cons in Hd as [? ?]; try done; by constructor.
  - unfold anchored. destruct (freq r); try case_bool_decide; cbn; lia.
  - intros c. unfold anchored. destruct (freq r); try case_bool_decide; apply Hc.
  - intros d. unfold anchored. destruct (freq r); try case_bool_decide; try done; cbn;
      intros [= <-]; destruct (month_day r) eqn:E; cbn; lia || by apply Hm.
  - intros u. unfold anchored. destruct (freq r); try case_bool_decide; apply Hu.
Qed.

Lemma writable_advanced r : writable r -> writable (advanced r).
Proof.
  intros [[Hs Hs'] Hd Hi Hc Hm Hu]. split; try done. intros c. cbn. destruct (count r) as [k|]; [|done].
  intros [= <-]. specialize (Hc k eq_refl). lia.
Qed.

Lemma one_end_advanced r : one_end r -> one_end (advanced r).
Proof. intros [H1|H1]; [by left|right]. cbn. by rewrite H1. Qed.

Lemma one_end_anchored r a : one_end r -> one_end (anchored r a).
Proof. intros H1. unfold one_end, anchored in *. by destruct (freq r); try case_bool_decide. Qed.

(** What the stored text reads as. *)
Lemma recurrence_of_format r a all_day : writable r -> in_range a ->
  recurrence_of (format r a all_day) = Ok (Some (read_back r a)).
Proof.
  intros Hw Ha. unfold recurrence_of.
  assert (is_nil (format r a all_day) = false) as ->.
  { unfold format, format_parts. cbn [app join]. by destruct (_ ++ _ : list text). }
  unfold parse. by rewrite (parse_format r a all_day Hw Ha).
Qed.

(** A rule read back is written the same again. *)
Lemma dedup_again l : dedup (dedup l) = dedup l.
Proof.
  induction l as [|x l IH]; [done|]. cbn [dedup]. destruct (dedup l) as [|y r] eqn:E; [done|].
  destruct (Z.eqb_spec x y) as [->|Hne]; [done|]. cbn [dedup] in *. rewrite IH. apply Z.eqb_neq in Hne. by rewrite Hne.
Qed.

Lemma week_days_again r r' w : Forall (fun d => d < 7) (week_days r w) -> weekdays r' = week_days r w -> week_days r' w = week_days r w.
Proof.
  intros Hd Hr. destruct (week_days_spec r w) as (Hs & Hne & _). unfold week_days at 1. rewrite Hr.
  assert (base.filter (fun d => d < 7) (week_days r w) = week_days r w) as ->.
  { clear -Hd. induction Hd as [|x l Hx Hl IH]; [done|]. rewrite filter_cons, decide_True by done. by rewrite IH. }
  destruct (is_nil (week_days r w)) eqn:E; [by apply is_nil_true in E|].
  assert (order_by Z.leb (week_days r w) = week_days r w) as ->; [|unfold week_days; apply dedup_again].
  apply (StronglySorted_unique_strong (fun a b => Z.leb a b = true)); [intros x y _ _; rewrite !Z.leb_le; lia| |done|by rewrite order_by_perm].
  apply order_by_sorted; intros; rewrite ?Z.leb_le in *; lia.
Qed.

Lemma format_read_back r a all_day : in_range a -> writable r -> format (read_back r a) a all_day = format r a all_day.
Proof.
  intros Ha Hw. unfold format. f_equal. unfold format_parts.
  assert (Z.max (interval (read_back r a)) 1 = Z.max (interval r) 1) as -> by (cbn; lia).
  change (freq (read_back r a)) with (freq r). f_equal. f_equal. f_equal.
  - pose proof (wr_sane r Hw) as Hs. unfold day_parts. change (freq (read_back r a)) with (freq r).
    assert (month_day (read_back r a) = if monthly r && negb (bool_decide (is_Some (month_week r))) then Some (unwrap_or (day a) (month_day r)) else None) as Hmd by done.
    assert (month_week (read_back r a) = if monthly r then month_week r else None) as Hmw by done.
    assert (weekdays (read_back r a) = days_back r a) as Hwd by done. unfold days_back in Hwd.
    destruct (freq r) eqn:Ef; [done| | |].
    + rewrite (week_days_again r _ (weekday a)); [done| |exact Hwd]. apply Forall_forall. intros d Hd. pose proof (week_days_bounds r a d Hs Hd). lia.
    + assert (monthly r = true) as Hm by (unfold monthly; by rewrite Ef). rewrite Hm in Hmd, Hmw. cbn [andb] in Hmd.
      rewrite Hmw, Hmd, Hwd. destruct (month_week r) as [n|]; [|done].
      rewrite (bool_decide_eq_true_2 (is_Some (Some n))) by done. cbn [take]. rewrite filter_cons, decide_True by apply (first_weekday_bounds r a Hs). done.
    + assert (monthly r = true) as Hm by (unfold monthly; by rewrite Ef). rewrite Hm in Hmd, Hmw. cbn [andb] in Hmd.
      rewrite Hmw, Hmd, Hwd. destruct (month_week r) as [n|]; [|done].
      rewrite (bool_decide_eq_true_2 (is_Some (Some n))) by done. cbn [take]. rewrite filter_cons, decide_True by apply (first_weekday_bounds r a Hs). done.
  - unfold end_parts, read_back. cbn [until count]. unfold until_back. destruct (until r) as [u|] eqn:Eu.
    + destruct (wr_until r Hw u Eu) as (t & d & s & Hd & Hr & _ & Ht & _). cbn [mbind option_bind]. rewrite Hd. cbn [mbind option_bind]. rewrite (resolve_earliest _ _ Ht).
      rewrite (same_day d 86340 t); [done|done|lia|by apply resolve_earliest].
    + cbn. destruct (count r) as [c|]; [|done]. cbn. by rewrite (Z.max_l (Z.max c 1) 1) by lia.
Qed.

(** ** The dates of a series, and where it ends *)

Definition last_of (a : Z) (dates : list Z) : Z := default a (last dates).

(** Why there is no date after the last one: the count is spent, the rule
    has no other date before its end, or the calendar itself ends. *)
Definition ends (r : Recurrence) (a : Z) (dates : list Z) : Prop :=
  (exists c, count r = Some c /\ Z.max 0 (c - 1) <= Z.of_nat (length dates)) \/
  (forall d, in_range d -> last_of a dates < d ->
     (forall l, until_date r = Some l -> d <= l) -> ~ falls_on r a d) \/
  near_an_end r (last_of a dates).

Record series (r : Recurrence) (a : Z) (n : nat) (dates : list Z) : Prop := {
  se_follows : follows r a dates;
  se_whole : length dates = n \/ ends r a dates
}.

Lemma ends_ext r r' a dates : (forall d, falls_on r' a d <-> falls_on r a d) ->
  until_date r' = until_date r ->
  (forall c', count r' = Some c' -> exists c, count r = Some c /\ Z.max 0 (c' - 1) = Z.max 0 (c - 1)) ->
  freq r' = freq r -> Z.max (interval r') 1 = Z.max (interval r) 1 ->
  ends r' a dates -> ends r a dates.
Proof.
  intros Hf Hu Hc Hq Hi [(c' & Ec & Hl)|[He|He]].
  - left. destruct (Hc c' Ec) as (c & E & Em). exists c. split; [done|]. lia.
  - right. left. intros d Hd Hlo Hun Hon. apply (He d); [done|done|by rewrite Hu|by apply Hf].
  - right. right. unfold near_an_end in *. by rewrite <- Hq, <- Hi.
Qed.

Lemma series_read_back r a n dates : writable r -> one_end r ->
  series (read_back r a) a n dates -> series r a n dates.
Proof.
  intros Hw H1 [Hf Hn]. split; [by apply follows_read_back|]. destruct Hn as [Hn|Hn]; [by left|right].
  revert Hn. apply ends_ext.
  - intros d. by apply read_back_falls_on.
  - by apply until_date_back.
  - intros c'. unfold read_back. cbn [count]. destruct (bool_decide _); [done|].
    destruct (count r) as [c|]; [|done]. intros [= <-]. exists c. split; [done|]. lia.
  - done.
  - cbn. lia.
Qed.

Lemma series_anchored r a n dates : series (anchored r a) a n dates -> series r a n dates.
Proof.
  assert (forall d, falls_on (anchored r a) a d <-> falls_on r a d) as Hsame.
  { intros d. apply falls_on_anchored. by left. }
  assert (until_date (anchored r a) = until_date r /\ count (anchored r a) = count r /\
    freq (anchored r a) = freq r /\ Z.max (interval (anchored r a)) 1 = Z.max (interval r) 1) as (Hu & Hc & Hq & Hi).
  { unfold until_date, anchored. destruct (freq r) eqn:E; try case_bool_decide; cbn; rewrite ?E; split_and!; done || lia. }
  intros [Hf Hn]. split.
  - revert Hf. apply follows_ext; [done|done|]. rewrite Hc. eauto.
  - destruct Hn as [Hn|Hn]; [by left|right]. revert Hn. apply ends_ext; [done|done| |done|done]. rewrite Hc. eauto.
Qed.

(** The series goes on with one more date. *)
Lemma series_cons r a d n dates : spelled_out r -> a < d -> falls_on r a d -> open r d ->
  (forall d', a < d' < d -> ~ falls_on r a d') ->
  series (advanced r) d n dates -> series r a (S n) (d :: dates).
Proof.
  intros Hsp Hlt Hon Hop Hmin [Hf Hn]. split; [by apply follows_cons|].
  destruct Hn as [Hn|Hn]; [left; cbn; by rewrite Hn|right].
  assert (last_of a (d :: dates) = last_of d dates) as Hlast by (unfold last_of; rewrite last_cons; by destruct (last dates)).
  assert (forall e, falls_on (advanced r) d e <-> falls_on r a e) as Hsame.
  { intros e. rewrite falls_on_advanced. rewrite <- (anchored_again r a Hsp) at 1.
    apply falls_on_anchored. by right. }
  unfold ends. rewrite Hlast. destruct Hn as [(c' & Ec & Hl)|[He|He]].
  - left. cbn in Ec. destruct (count r) as [c|] eqn:E; [|done]. exists c. split; [done|].
    injection Ec as <-. cbn [length]. lia.
  - right. left. intros e He' Hlo Hu Hfe. by apply (He e); [..|apply Hsame].
  - right. by right.
Qed.

Lemma series_nil r a : sane r -> in_range a ->
  (forall found, next_date r a = Ok found -> found = None) -> forall n, series r a n [].
Proof.
  intros Hs Ha Hno n. split; [apply follows_nil|right]. pose proof (next_date_least r a Hs Ha) as Hl.
  destruct (next_date r a) as [found|e]; [|right; by right; apply Hl].
  rewrite (Hno found eq_refl) in Hl. cbn in Hl. unfold ends.
  destruct (count r) as [c|] eqn:Ec.
  - destruct (Z.leb_spec c 1) as [Hc|Hc].
    + left. exists c. split; [done|]. cbn. lia.
    + right. left. intros d Hd Hlo Hu Hon. apply (Hl d Hd Hlo). split; [done|]. split; [|done].
      rewrite Ec. intros k [= <-]. lia.
  - right. left. intros d Hd Hlo Hu Hon. apply (Hl d Hd Hlo). split; [done|]. split; [|done]. by rewrite Ec.
Qed.

(** ** The task itself *)

(** A task open on an occurrence of its rule, in the tables. *)
Context (orphans : bool).

Record on_occurrence (db : Db) (i : Z) (r : Recurrence) (a : Z) (t : Task) (due : Z) (all_day : bool) : Prop := {
  oo_wf : wf orphans db;
  oo_in : t ∈ tasks db;
  oo_id : id t = i;
  oo_here : deleting t = false;
  oo_own : linked t = false;
  oo_open : completed_at t = None;
  oo_editable : kept_on_server db (list_id t) && recurring t = false;
  oo_due : due_at t = Some due;
  oo_day : due_day due = Some (a, all_day);
  oo_rule : rrule t = format r a all_day
}.

Definition repeating (db : Db) (i : Z) (r : Recurrence) (a : Z) : Prop :=
  exists t due all_day, on_occurrence db i r a t due all_day.

Lemma due_day_start t : due_day t = (fun n => (date_of n, n mod 86400 =? 0)) <$> local_of t.
Proof. unfold due_day. by destruct (local_of t). Qed.

Lemma start_date_due t d : start_date t = Some d -> exists all_day, due_day t = Some (d, all_day).
Proof. rewrite due_day_start. unfold start_date. destruct (local_of t); [|done]. intros [= <-]. cbn. eauto. Qed.

Lemma editable db t : wf orphans db -> t ∈ tasks db -> deleting t = false ->
  kept_on_server db (list_id t) && recurring t = false -> check_editable db (id t) = Ok tt.
Proof.
  intros Hw Hin Hd He. unfold check_editable, sync_state. rewrite (row_by_id orphans db t Hw Hin Hd). cbn.
  by destruct (kept_on_server db (list_id t)), (recurring t).
Qed.

Lemma occurrence_found db t : wf orphans db -> t ∈ tasks db -> deleting t = false -> linked t = false ->
  query_row (fun u => with_id (id t) u && negb (deleting u) && negb (linked u)) (tasks db) = Some t.
Proof.
  intros Hw Hin Hd Hl. apply query_row_unique; [done|unfold with_id; by rewrite Z.eqb_refl, Hd, Hl|].
  intros u Hu [[Hi _]%andb_true_iff _]%andb_true_iff. apply (same_row orphans db (id t)); [done..|]. apply Z.eqb_refl.
Qed.

(** The tables after the task moved on: its row, still on an occurrence. *)
Lemma moved_on_row db i r a t due all_day rule next d now db1 copy :
  on_occurrence db i r a t due all_day -> start_date next = Some d ->
  insert (occurrence_done t now) db = (db1, copy) ->
  wf orphans (touched (update_tasks (with_id i) (moved_on rule due next) (touched db1 copy)) i) ->
  repeating (touched (update_tasks (with_id i) (moved_on rule due next) (touched db1 copy)) i) i
    (anchored (advanced rule) d) d.
Proof.
  intros [Hw Hin Hi Hd Hl Ho He Hdue Hday Hr] Hs Hins Hw'.
  destruct (start_date_due next d Hs) as [all' Hnext].
  set (db3 := update_tasks (with_id i) (moved_on rule due next) (touched db1 copy)) in *.
  set (t1 := moved_on rule due next t).
  assert (lists db3 = lists db) as Hlists by (by injection Hins as <- _).
  assert (t1 ∈ tasks db3) as Hin1.
  { apply elem_of_update. exists t. split; [|unfold with_id; by rewrite Hi, Z.eqb_refl].
    injection Hins as Hdb <-. apply elem_of_update. exists t. split; [rewrite <- Hdb; cbn; apply elem_of_app; by left|].
    assert (with_id (last_id db + 1) t = false) as ->; [|done].
    apply Z.eqb_neq. pose proof (wf_given orphans db Hw t Hin). lia. }
  pose proof (touched_row db3 i t1 Hin1) as Hin2.
  destruct (moved_on_cols rule due next t) as (E1 & E2 & E3 & E4 & E5 & E6 & E7 & E8 & _).
  fold t1 in E1, E2, E3, E4, E5, E6, E7, E8.
  assert (rrule t1 = format (anchored (advanced rule) d) d all') as Hrule
    by (unfold t1, moved_on; by rewrite Hnext).
  exists (if with_id i t1 && negb (deleting t1) && kept_on_server db3 (list_id t1) then to_send t1 else t1), next, all'.
  assert (kept_on_server (touched db3 i) (list_id t1) && recurring t1 = false) as Hed.
  { rewrite E5, E6. by rewrite (kept_lists db). }
  assert (deleting t1 = false) as Hd1 by (unfold deleting; rewrite E8; exact Hd).
  assert (linked t1 = false) as Hl1 by (by rewrite (linked_key t t1)).
  rewrite Hi in E1. rewrite Ho in E4.
  split; try done; destruct (with_id i t1 && _ && _);
    first [done | exact Hd1 | exact Hl1 | exact Hed | exact Hrule | exact E7 | exact E1 | exact E4].
Qed.

Lemma complete_repeating db i r a now : repeating db i r a -> writable r -> in_range a ->
  match next_date (read_back r a) a with
  | Ok (Some d) => exists db' copy next,
      set_completed db i true false now = Ok (db', {| next_due := Some next; record := Some copy |}) /\
      start_date next = Some d /\ repeating db' i (anchored (advanced (read_back r a)) d) d
  | Ok None => exists db', set_completed db i true false now = Ok (db', done_now)
  | Err _ => exists e, set_completed db i true false now = Err e
  end.
Proof.
  intros (t & due & all_day & Hoo) Hw Ha. pose proof Hoo as [Hwf Hin Hi Hd Hl Ho He Hdue Hday Hr].
  assert (complete_occurrence db i now =
    next ← lift (next_instant (read_back r a) due);
    match next with
    | None => Ok (touched (update_tasks (with_id i) (series_over now) db) i, Some done_now)
    | Some next =>
        let (db1, copy) := insert (occurrence_done t now) db in
        Ok (touched (update_tasks (with_id i) (moved_on (read_back r a) due next) (touched db1 copy)) i,
            Some {| next_due := Some next; record := Some copy |})
    end) as Hco.
  { unfold complete_occurrence. rewrite <- Hi, (occurrence_found db t) by done.
    rewrite Hdue, Ho, Hr, recurrence_of_format by done. cbn [mbind result_bind].
    by rewrite (editable db t). }
  rewrite due_day_start in Hday. destruct (local_of due) as [n|] eqn:Hn; [|done]. injection Hday as Hna Hnall.
  assert (next_instant (read_back r a) due =
    date ← next_date (read_back r a) a; Ok (date ← date; resolve (date * 86400 + n mod 86400))) as Hni.
  { unfold next_instant. by rewrite Hn, Hna. }
  rewrite Hni in Hco. unfold set_completed. cbn [andb]. rewrite Hco. clear Hni.
  pose proof (next_date_least (read_back r a) a (wr_sane _ (writable_read_back r a Ha Hw)) Ha) as Hleast.
  destruct (next_date (read_back r a) a) as [[d|]|e]; cbn [mbind result_bind option_bind lift].
  - destruct Hleast as (Hd' & _). pose proof (Z.mod_pos_bound n 86400 ltac:(lia)) as Hmod.
    destruct (names_an_instant d (n mod 86400) Hd' Hmod) as [next Hnext].
    pose proof (same_day d _ next Hd' Hmod Hnext) as Hstart.
    cbn [mbind option_bind] in Hco |- *. rewrite Hnext. cbn [mbind result_bind].
    destruct (insert (occurrence_done t now) db) as [db1 copy] eqn:Hins. cbn [mbind result_bind].
    do 3 eexists. split; [done|]. split; [done|].
    refine (moved_on_row db i r a t due all_day (read_back r a) next d now db1 copy Hoo Hstart Hins _).
    apply (wf_complete_occurrence orphans db i now _ (Some {| next_due := Some next; record := Some copy |}) Hwf).
    rewrite Hco. cbn. by rewrite Hnext.
  - by eexists.
  - destruct e; by eexists.
Qed.

(** The days a task is due on as it is completed at each of these times. *)
Fixpoint days_completed (nows : list Z) (db : Db) (i : Z) : list Z :=
  match nows with
  | [] => []
  | now :: rest =>
      match set_completed db i true false now with
      | Ok (db', c) =>
          match next_due c ≫= start_date with
          | Some d => d :: days_completed rest db' i
          | None => []
          end
      | Err _ => []
      end
  end.

Lemma completing_series nows : forall db i r a,
  repeating db i r a -> writable r -> one_end r -> in_range a ->
  series (read_back r a) a (length nows) (days_completed nows db i).
Proof.
  induction nows as [|now rest IH]; intros db i r a Hrep Hw H1 Ha.
  { split; [apply follows_nil|by left]. }
  pose proof (writable_read_back r a Ha Hw) as Hw'. pose proof (spelled_read_back r a Hw) as Hsp.
  pose proof (complete_repeating db i r a now Hrep Hw Ha) as Hc.
  pose proof (next_date_least (read_back r a) a (wr_sane _ Hw') Ha) as Hleast.
  cbn [days_completed length]. destruct (next_date (read_back r a) a) as [[d|]|e] eqn:En.
  - destruct Hc as (db' & copy & next & -> & Hs & Hrep'). cbn [next_due mbind option_bind]. rewrite Hs.
    destruct Hleast as (Hd & Hlt & [Hon Hop] & Hmin).
    apply series_cons; [done|done|done|done| |].
    + intros d' [Hlo Hhi] Hon'. apply (Hmin d'); [done|done|]. split; [done|]. destruct Hop as [Hc Hu].
      split; [done|]. intros l El. specialize (Hu l El). lia.
    + assert (anchored (advanced (read_back r a)) d = advanced (read_back r a)) as Hsame
        by (apply anchored_again, spelled_advanced, Hsp).
      rewrite Hsame in Hrep'. apply series_read_back.
      * by apply writable_advanced.
      * apply one_end_advanced, one_end_read_back.
      * apply IH; [done| | |done]; [by apply writable_advanced|apply one_end_advanced, one_end_read_back].
  - destruct Hc as (db' & ->). cbn. apply series_nil; [apply Hw'|done|]. by rewrite En; intros ? [= <-].
  - destruct Hc as (e' & ->). apply series_nil; [apply Hw'|done|]. by rewrite En.
Qed.

Lemma created_repeats db fs rule due a all_day now db' i : wf orphans db ->
  create db fs now = Ok (db', i) -> recurrence fs = Some rule -> f_due_at fs = Some due ->
  due_day due = Some (a, all_day) -> repeating db' i (anchored rule a) a.
Proof.
  intros Hw Hc Hrec Hdue Hday. pose proof (wf_create orphans db fs now db' i Hw Hc) as Hw'. revert Hc.
  unfold create. intros ([db1 k] & Hc & [= <- <-])%bind_Ok. revert Hc.
  unfold create_row. intros (u & _ & Hc)%bind_Ok. destruct (list_exists db _); [|done]. cbn [negb] in Hc.
  set (target := if is_nil (f_list_id fs) then MAIL_LIST else f_list_id fs) in *.
  assert (Ei : insert (created fs target now) db = (db1, k)) by (injection Hc as <- <-; reflexivity). clear Hc.
  set (t := created fs target now (new_task k)).
  assert (t ∈ tasks db1) as Hin.
  { injection Ei as <- <-. cbn. apply elem_of_app. right. by apply list_elem_of_singleton. }
  assert (rrule t = format (anchored rule a) a all_day) as Hr.
  { unfold t, created. cbn. unfold constant, stored_rule. by rewrite Hrec, Hdue; cbn; rewrite Hday. }
  pose proof (touched_row db1 k t Hin) as Hin'.
  exists (if with_id k t && negb (deleting t) && kept_on_server db1 (list_id t) then to_send t else t), due, all_day.
  split; try done; destruct (with_id k t && _ && _);
    first [done | exact Hr | (cbn; unfold constant; by rewrite ?andb_false_r)].
Qed.

(** C37. A repeating task completed again and again is due on the dates of its
    rule, in order, none skipped, never past its end nor more often than its
    count, and it goes on until the rule has no date left, though between
    completions the rule is only text. *)
Theorem completing_through_the_text db fs rule due a now db' i nows : wf orphans db ->
  create db fs now = Ok (db', i) -> recurrence fs = Some rule -> f_due_at fs = Some due ->
  start_date due = Some a -> in_range a -> writable rule -> one_end rule ->
  series rule a (length nows) (days_completed nows db' i).
Proof.
  intros Hw Hc Hrec Hdue Hday Ha Hwr H1. destruct (start_date_due due a Hday) as [all_day Hd].
  pose proof (created_repeats db fs rule due a all_day now db' i Hw Hc Hrec Hdue Hd) as Hrep.
  apply series_anchored, series_read_back.
  - by apply writable_anchored.
  - by apply one_end_anchored.
  - apply completing_series; [done| | |done]; [by apply writable_anchored|by apply one_end_anchored].
Qed.
End Rules.

(** ** Instances *)

Module Demo.
Import Recurrence.Demo RRule.Demo.

#[local] Instance utc_same_day : @SameDay gregorian utc.
Proof.
  split.
  - intros d s t Hd Hs. unfold resolve, start_date, local_of, date_of. cbn [earliest local_at utc].
    intros [= <-].
    replace ((d * 86400 + s - 86400 * epoch) / 86400) with (d - epoch)
      by (apply (Z.div_unique_pos _ _ _ s); lia).
    rewrite bool_decide_eq_true_2 by (by replace (d - epoch + epoch) with d by lia). cbn. f_equal.
    symmetry. apply (Z.div_unique_pos _ _ _ s); lia.
  - intros d s _ _. unfold resolve. cbn. by eexists.
Qed.

(** Rent, on the last Friday of every second month of 2025. *)
Definition rent : TaskFields :=
  {| f_list_id := []; f_title := lit "Rent"; f_note := []; f_due_at := Some 1738281600; f_reminder_at := None;
     f_priority := 2; recurrence := Some last_friday |}.

Definition with_rent : Db :=
  unwrap_or fresh (fst <$> ok (@create _ utc digits fresh rent 1700000000)).

Example rent_days :
  @days_completed _ utc digits [1; 2; 3; 4; 5; 6; 7] with_rent 1 =
  [on 2025 3 28; on 2025 5 30; on 2025 7 25; on 2025 9 26; on 2025 11 28].
Proof. vm_compute. reflexivity. Qed.

(** A zone whose clocks go from midnight to one o'clock on the 2nd of
    January 1970. *)
Definition change : Z := 86400.
Definition skips_midnight : Zone :=
  {| local_at := fun t => t + 86400 * epoch + (if t <? change then 0 else 3600);
     earliest := fun n =>
       let t := n - 86400 * epoch in
       if t <? change then Some t
       else if t <? change + 3600 then None else Some (t - 3600) |}.

Definition every_day : Recurrence :=
  {| freq := Daily; interval := 1; weekdays := []; until := None; count := None; month_week := None; month_day := None |}.
Definition water : TaskFields :=
  {| f_list_id := []; f_title := lit "Water the plants"; f_note := []; f_due_at := Some 0; f_reminder_at := None;
     f_priority := 1; recurrence := Some every_day |}.

Definition due_after (n : nat) (Z1 : Zone) : option (Z * bool) :=
  let db := unwrap_or fresh (fst <$> ok (@create _ Z1 digits fresh water 0)) in
  let db' := Nat.iter n (fun db => unwrap_or fresh (fst <$> ok (@set_completed _ Z1 digits db 1 true false 0))) db in
  t ← query_row (with_id 1) (tasks db'); due ← due_at t; @due_day _ Z1 due.
End Demo.

(** A task due on a date, with no time, is due at one o'clock on the day
    its midnight is skipped, and stays at one o'clock on every day after. *)
Example a_skipped_midnight_stays :
  Demo.due_after 0 Demo.skips_midnight = Some (Recurrence.Demo.on 1970 1 1, true) /\
  Demo.due_after 1 Demo.skips_midnight = Some (Recurrence.Demo.on 1970 1 2, false) /\
  Demo.due_after 2 Demo.skips_midnight = Some (Recurrence.Demo.on 1970 1 3, false) /\
  Demo.due_after 9 Demo.skips_midnight = Some (Recurrence.Demo.on 1970 1 10, false) /\
  Demo.due_after 9 Recurrence.Demo.utc = Some (Recurrence.Demo.on 1970 1 10, true).
Proof. vm_compute. split_and!; reflexivity. Qed.

Lemma completing_through_the_text_witness :
  @series _ Recurrence.Demo.utc RRule.Demo.last_friday (Recurrence.Demo.on 2025 1 31) 7
    (@days_completed _ Recurrence.Demo.utc RRule.Demo.digits [1; 2; 3; 4; 5; 6; 7] Demo.with_rent 1).
Proof.
  apply (@completing_through_the_text _ _ Recurrence.Demo.utc RRule.Demo.digits RRule.Demo.digits_laws
           Demo.utc_same_day false fresh Demo.rent RRule.Demo.last_friday 1738281600 _ 1700000000 _ 1 [1; 2; 3; 4; 5; 6; 7]).
  - exact (wf_fresh false).
  - vm_compute. reflexivity.
  - reflexivity.
  - reflexivity.
  - vm_compute. reflexivity.
  - vm_compute. split; congruence.
  - exact RRule.Demo.last_friday_writable.
  - right. reflexivity.
Defined.
End TaskRepeat.
