(* ===== verification/TaskBoard.v ===== *)
(** * The tasks as the interface lists them

    Models [list_tasks] of [meron-core/src/store/mod.rs] and [due_reminders]
    of [store/task_lists.rs]: which tasks are listed, in which order, and the
    message that stands for a task's conversation.  Of a message only the
    columns these queries read are kept; where SQL leaves the choice between
    equal rows open, the one stored first is taken. *)
From S2P Require Import Prelude Text Table Tasks.
#[local] Open Scope Z_scope.

Module TaskBoard.
Import Tasks.

Record Message := {
  m_id : Z;
  m_account : text;
  m_folder : text;
  m_uid : Z;
  m_subject : option text;
  m_from_name : option text;
  m_from_addr : option text;
  m_date : Z;
  m_thread_key : option text
}.

(** A task's own columns, and what is shown of its conversation. *)
Record TaskCard := {
  task : Task;
  card_folder : text;
  subject : text;
  from_name : text;
  from_addr : text;
  located : bool
}.

Definition uid_key (u : Z) : text := lit "uid:" ++ show_Z u.

(** [COALESCE(NULLIF(m2.thread_key, ''), 'uid:' || m2.uid)] *)
Definition conversation_of (m : Message) : text :=
  match m_thread_key m with
  | Some key => if is_nil key then uid_key (m_uid m) else key
  | None => uid_key (m_uid m)
  end.

(** [thread_key LIKE 'uid:%'], which does not mind the case of letters. *)
Definition like_uid (key : text) : bool := starts_with (lit "uid:") (to_ascii_lowercase key).

(** Lists of numbers compared from the first that differs. *)
Fixpoint lex_le (a b : list Z) : bool :=
  match a, b with
  | x :: a', y :: b' => (x <? y) || ((x =? y) && lex_le a' b')
  | [], _ => true
  | _, [] => false
  end.

Definition latest (a b : Message) : bool := lex_le [- m_date a; - m_uid a] [- m_date b; - m_uid b].

Definition in_its_folder (t : Task) (m : Message) : bool :=
  bool_decide (m_account m = account t) && bool_decide (m_folder m = folder t)
  && bool_decide (conversation_of m = thread_key t).

Definition moved_elsewhere (t : Task) (m : Message) : bool :=
  bool_decide (m_account m = account t) && negb (like_uid (thread_key t))
  && bool_decide (m_thread_key m = Some (thread_key t)).

(** The message that stands for the conversation. *)
Definition message_for (messages : list Message) (t : Task) : option Message :=
  match head (order_by latest (select (in_its_folder t) messages)) with
  | Some m => Some m
  | None => head (order_by latest (select (moved_elsewhere t) messages))
  end.

Definition card (messages : list Message) (t : Task) : TaskCard :=
  let m := message_for messages t in
  {| task := t;
     card_folder := unwrap_or (folder t) (m_folder <$> m);
     subject := unwrap_or [] (m ≫= m_subject);
     from_name := unwrap_or [] (m ≫= m_from_name);
     from_addr := unwrap_or [] (m ≫= m_from_addr);
     located := bool_decide (is_Some m) |}.

(** A task deleted here and not yet on the server is hidden, unless the
    person has to choose. *)
Definition listed (include_completed : bool) (t : Task) : bool :=
  (include_completed || open t) && (negb (deleting t) || negb (is_nil (conflict t))).

(** [ORDER BY (completed_at IS NOT NULL), due_at IS NULL, due_at ASC,
    completed_at DESC, created_at DESC] *)
Definition listing_key (t : Task) : list Z :=
  [if open t then 0 else 1; if bool_decide (due_at t = None) then 1 else 0; unwrap_or 0 (due_at t);
   - unwrap_or 0 (completed_at t); - created_at t].

Definition listed_before (a b : TaskCard) : bool := lex_le (listing_key (task a)) (listing_key (task b)).

Definition list_tasks (db : Db) (messages : list Message) (include_completed : bool) : list TaskCard :=
  order_by listed_before (card messages <$> select (listed include_completed) (tasks db)).

(** The subject shown for a task of a conversation that is due to ring. *)
Definition subject_for (messages : list Message) (t : Task) : text :=
  let of_it m := bool_decide (m_account m = account t) && bool_decide (m_thread_key m = Some (thread_key t)) in
  unwrap_or [] (head (order_by (fun a b => m_date b <=? m_date a) (select of_it messages)) ≫= m_subject).

Definition due_reminders (db : Db) (messages : list Message) (now : Z) : list (Z * text * option Z) :=
  (fun t => (id t, if is_nil (title t) then subject_for messages t else title t, due_at t))
    <$> select (due_reminder now) (tasks db).

(** ** What is listed *)

Lemma lex_cons x a y b : lex_le (x :: a) (y :: b) = true <-> x < y \/ x = y /\ lex_le a b = true.
Proof. cbn. bools. done. Qed.

Lemma lex_le_total a b : lex_le a b = true \/ lex_le b a = true.
Proof.
  revert b. induction a as [|x a IH]; intros [|y b]; cbn; [by left..|by right|].
  destruct (Z.lt_trichotomy x y) as [Hl|[->|Hl]].
  - left. apply Z.ltb_lt in Hl as ->. done.
  - rewrite Z.ltb_irrefl, Z.eqb_refl. cbn. apply IH.
  - right. apply Z.ltb_lt in Hl as ->. done.
Qed.

Lemma lex_le_trans a b c : lex_le a b = true -> lex_le b c = true -> lex_le a c = true.
Proof.
  revert b c. induction a as [|x a IH]; intros [|y b] [|z c]; cbn; try done.
  bools. intros [Hxy|[-> Hab]] [Hyz|[-> Hbc]]; [left; lia|by left|by left|right].
  split; [done|by apply (IH b)].
Qed.

Lemma head_order_by {R} (before : R -> R -> bool) (l : list R) (r : R) :
  (forall a b, before a b = true \/ before b a = true) ->
  (forall a b c, before a b = true -> before b c = true -> before a c = true) ->
  head (order_by before l) = Some r -> r ∈ l /\ forall x, x ∈ l -> before r x = true.
Proof.
  intros Ht Htr Hh. pose proof (order_by_sorted before Ht Htr l) as Hs. pose proof (order_by_perm before l) as Hp.
  destruct (order_by before l) as [|y s]; [done|]. injection Hh as ->. split.
  - rewrite <- Hp. by left.
  - intros x. rewrite <- Hp. intros [->|Hx]%elem_of_cons; [by destruct (Ht r r)|].
    apply StronglySorted_inv in Hs as [_ Hs]. rewrite Forall_forall in Hs. by apply Hs.
Qed.

Lemma head_order_by_None {R} (before : R -> R -> bool) (l : list R) : head (order_by before l) = None -> l = [].
Proof.
  intros Hh. pose proof (order_by_perm before l) as Hp. destruct (order_by before l); [|done].
  by apply Permutation_nil in Hp.
Qed.

Lemma latest_total a b : latest a b = true \/ latest b a = true.
Proof. apply lex_le_total. Qed.
Lemma latest_trans a b c : latest a b = true -> latest b c = true -> latest a c = true.
Proof. apply lex_le_trans. Qed.

Lemma latest_iff a b : latest a b = true <-> m_date b < m_date a \/ m_date b = m_date a /\ m_uid b <= m_uid a.
Proof. unfold latest, lex_le. bools. lia. Qed.

(** The message of a task, if any, is of its account and conversation: in
    the folder the task was made in while one is there, the latest. *)
Lemma message_for_spec messages t :
  match message_for messages t with
  | Some m => m ∈ messages /\ m_account m = account t /\
      (in_its_folder t m = true \/ moved_elsewhere t m = true /\ forall x, x ∈ messages -> in_its_folder t x = false) /\
      forall x, x ∈ messages -> in_its_folder t x = in_its_folder t m -> moved_elsewhere t x = true \/ in_its_folder t x = true ->
        m_date x < m_date m \/ m_date x = m_date m /\ m_uid x <= m_uid m
  | None => forall m, m ∈ messages -> in_its_folder t m = false /\ moved_elsewhere t m = false
  end.
Proof.
  unfold message_for.
  assert (forall m, in_its_folder t m = true -> m_account m = account t) as Ha1.
  { intros m. unfold in_its_folder. bools. tauto. }
  assert (forall m, moved_elsewhere t m = true -> m_account m = account t) as Ha2.
  { intros m. unfold moved_elsewhere. bools. tauto. }
  destruct (head (order_by latest (select (in_its_folder t) messages))) as [m|] eqn:E.
  - apply head_order_by in E as [[Hm Hin]%elem_of_select Hbest]; [|exact latest_total|exact latest_trans].
    split; [done|]. split; [by apply Ha1|]. split; [by left|]. intros x Hx Heq _.
    apply latest_iff, Hbest, elem_of_select. by rewrite Heq.
  - apply head_order_by_None in E.
    assert (forall x, x ∈ messages -> in_its_folder t x = false) as Hno.
    { intros x Hx. apply not_true_is_false. intros Hp. apply (not_elem_of_nil x). rewrite <- E. by apply elem_of_select. }
    destruct (head _) as [m|] eqn:E2.
    + apply head_order_by in E2 as [[Hm Hin]%elem_of_select Hbest]; [|exact latest_total|exact latest_trans].
      split; [done|]. split; [by apply Ha2|]. split; [by right|]. intros x Hx _ [Hp|Hp].
      * by apply latest_iff, Hbest, elem_of_select.
      * by rewrite Hno in Hp.
    + apply head_order_by_None in E2. intros x Hx. split; [by apply Hno|]. apply not_true_is_false. intros Hp.
      apply (not_elem_of_nil x). rewrite <- E2. by apply elem_of_select.
Qed.

(** The order of the list, in words: open tasks first; of two open or two
    completed ones, those with a due date first, soonest first; then the
    one completed last, and the newest. *)
Definition then_newest (a b : Task) : Prop :=
  unwrap_or 0 (completed_at b) < unwrap_or 0 (completed_at a) \/
  (unwrap_or 0 (completed_at b) = unwrap_or 0 (completed_at a) /\ created_at b <= created_at a).

Definition comes_before (a b : Task) : Prop :=
  (open a = true /\ open b = false) \/
  (open a = open b /\
   match due_at a, due_at b with
   | Some x, Some y => x < y \/ (x = y /\ then_newest a b)
   | Some _, None => True
   | None, Some _ => False
   | None, None => then_newest a b
   end).

Lemma listed_before_iff a b : listed_before a b = true <-> comes_before (task a) (task b).
Proof.
  unfold listed_before, listing_key, comes_before, then_newest. generalize (task a) (task b). clear a b. intros a b.
  rewrite !lex_cons. cbn [lex_le].
  destruct (due_at a) as [x|], (due_at b) as [y|]; cbn [unwrap_or];
    rewrite ?(bool_decide_eq_true_2 (None = None)) by done;
    rewrite ?(bool_decide_eq_false_2 (Some _ = None)) by done;
    destruct (open a), (open b); intuition (first [lia | congruence]).
Qed.

(** The list has every task that is to be seen, once each, in its order,
    and nothing else: whatever the messages kept, and however many of them
    share a date. *)
Theorem list_tasks_spec db messages include_completed :
  task <$> list_tasks db messages include_completed ≡ₚ select (listed include_completed) (tasks db) /\
  StronglySorted comes_before (task <$> list_tasks db messages include_completed) /\
  forall c, c ∈ list_tasks db messages include_completed -> c = card messages (task c) /\
    (located c = true <-> exists m, m ∈ messages /\ (in_its_folder (task c) m = true \/ moved_elsewhere (task c) m = true)).
Proof.
  unfold list_tasks. set (l := select _ _). pose proof (order_by_perm listed_before (card messages <$> l)) as Hp.
  assert (forall x y, listed_before x y = true \/ listed_before y x = true) as Ht
    by (intros x y; apply lex_le_total).
  assert (forall x y z, listed_before x y = true -> listed_before y z = true -> listed_before x z = true) as Htr
    by (intros x y z; apply lex_le_trans).
  pose proof (order_by_sorted listed_before Ht Htr (card messages <$> l)) as Hs.
  split; [|split].
  - rewrite Hp, <- list_fmap_compose. rewrite <- (list_fmap_id l) at 2. apply reflexive_eq, list_fmap_ext. done.
  - clear Hp. induction Hs as [|c cs Hs IH Hc]; cbn; [constructor|]. constructor; [exact IH|].
    apply Forall_fmap. eapply Forall_impl; [exact Hc|]. intros d Hd. by apply listed_before_iff.
  - intros c. rewrite Hp. intros (t & -> & _)%list_elem_of_fmap. split; [done|]. cbn.
    pose proof (message_for_spec messages t) as Hm. destruct (message_for messages t) as [m|]; cbn.
    + split; [|done]. intros _. destruct Hm as (Hin & _ & Hor & _). exists m.
      split; [done|]. destruct Hor as [|[? _]]; tauto.
    + split; [done|]. intros (m & Hin & Hor).
      destruct (Hm m Hin) as [E1 E2]. destruct Hor; congruence.
Qed.
End TaskBoard.
