(* ===== verification/Dav.v ===== *)
(** * Requests to a calendar server

    Models what [meron-core/src/carddav/client.rs] says of addresses and
    origins, the conditional writes of [calendar/caldav.rs], and
    [OriginBound] of [task_sync/account_lists.rs].  Addresses are read by the
    [url] crate, which stands here as a class; sending is a call of the
    program that uses these routines. *)
From S2P Require Import Prelude Text Program.
#[local] Open Scope Z_scope.

(** The [url] crate: reading an address, its scheme, its origin as text
    ([ascii_serialization]), whether two addresses have the same origin, and
    joining a reference to it. *)
Class Urls := {
  url : Type;
  parse_url : text -> option url;
  url_text : url -> text;
  scheme : url -> text;
  origin : url -> text;
  one_origin : url -> url -> bool;
  join_url : url -> text -> option url;
  set_path : url -> text -> url;
  path : url -> text;
  clear_fragment : url -> url
}.

Module Dav.

Record DavRequest := {
  method : text;
  to : text;
  depth : option text;
  body : option text;
  headers : list (text * text)
}.

Record HttpReply := { status : Z; reply_body : text; at_url : text; etag : option text }.

(** The outcome of a conditional write. *)
Inductive Written := Saved (new_etag : option text) | Conflict.

Section Addresses.
Context `{Urls}.

Definition same_origin (a b : text) : bool :=
  match parse_url a, parse_url b with
  | Some ua, Some ub => one_origin ua ub
  | _, _ => false
  end.

Definition is_https (u : url) : bool := bool_decide (scheme u = lit "https").

(** Whether the password may go from one address to another. *)
Definition credentials_may_follow (from dest : text) : bool :=
  match parse_url from, parse_url dest with
  | Some a, Some b =>
      if is_https a && negb (is_https b) then false
      else if one_origin a b then true
      else is_https b
  | _, _ => false
  end.

Definition resolve (base href : text) : result text text :=
  match parse_url base ≫= (fun u => join_url u (trim href)) with
  | Some u => Ok (url_text u)
  | None => Err (lit "relative URL without a base")
  end.

Definition starting_point_for (input well_known : text) : result text text :=
  let trimmed := trim input in
  if is_nil trimmed then Err (lit "no server given")
  else if starts_with (lit "http://") trimmed || starts_with (lit "https://") trimmed then
    match parse_url trimmed with
    | Some u => Ok (url_text u)
    | None => Err (lit "that does not look like a URL")
    end
  else
    let host := match rsplit_once 64 trimmed with Some (_, domain) => domain | None => trimmed end in
    match parse_url (lit "https://" ++ host) with
    | None => Err (lit "that does not look like a server")
    | Some u => match join_url u well_known with
                | Some v => Ok (url_text v)
                | None => Err (lit "that does not look like a server")
                end
    end.

(** Scheme, host and port of an address, as an origin is written. *)
Definition origin_of (address : text) : result text text :=
  match parse_url (trim address) with
  | None => Err (lit "that address is not a URL")
  | Some u =>
      if bool_decide (scheme u = lit "http") || bool_decide (scheme u = lit "https") then Ok (origin u)
      else Err (lit "that address is not a web address")
  end.

(** A URL for a new object in a collection. *)
Definition new_href (calendar_url uid : text) : result text text :=
  let safe := (fun c => if is_ascii_alphanumeric c || (c =? 45) then c else 95) <$> uid in
  resolve (trim_end_matches (Z.eqb 47) calendar_url ++ lit "/") (safe ++ lit ".ics").

(** ** Conditional writes *)

Section Writes.
Context {E : Type -> Type} (send : DavRequest -> prog E (result text HttpReply)).
#[local] Open Scope prog_scope.

(** An object is written only on its calendar's own server. *)
Definition guard (calendar_url href : text) : result text unit :=
  if same_origin calendar_url href then Ok tt
  else Err (lit "that event is not on this calendar's server; nothing was sent").

Definition http (what : text) (code : Z) : text := what ++ lit " (HTTP " ++ show_Z code ++ lit ")".

Definition refused (code : Z) : bool := (code =? 401) || (code =? 403).
Definition gone (code : Z) : bool := (code =? 404) || (code =? 410).

Definition VERSION_UNKNOWN : text :=
  lit "this event's version on the server is not known yet; refresh the calendar and try again".

Definition put_reply (reply : HttpReply) : result text Written :=
  let code := status reply in
  if code =? 412 then Ok Conflict
  else if refused code then Err (lit "the server refused to change this calendar")
  else if 300 <=? code then Err (http (lit "the server did not save the event") code)
  else Ok (Saved (etag reply)).

Definition put_request (href ics : text) (condition : text * text) : DavRequest :=
  {| method := lit "PUT"; to := href; depth := None; body := Some ics;
     headers := [(lit "Content-Type", lit "text/calendar; charset=utf-8"); condition] |}.

(** Writes an object over the version [if_match] names, or, with [None],
    only where nothing is yet. *)
Definition put_object (calendar_url href ics : text) (if_match : option text) : prog E (result text Written) :=
  match guard calendar_url href with
  | Err e => Ret (Err e)
  | Ok _ =>
      match if_match with
      | Some [] => Ret (Err VERSION_UNKNOWN)
      | _ =>
          let condition := match if_match with
                           | Some version => (lit "If-Match", version)
                           | None => (lit "If-None-Match", lit "*")
                           end in
          reply <-? send (put_request href ics condition) ;;
          Ret (put_reply reply)
      end
  end.

Definition delete_reply (reply : HttpReply) : result text Written :=
  let code := status reply in
  if code =? 412 then Ok Conflict
  else if gone code then Ok (Saved None)
  else if refused code then Err (lit "the server refused to change this calendar")
  else if 300 <=? code then Err (http (lit "the server did not delete the event") code)
  else Ok (Saved None).

Definition delete_request (href version : text) : DavRequest :=
  {| method := lit "DELETE"; to := href; depth := None; body := None; headers := [(lit "If-Match", version)] |}.

Definition delete_object (calendar_url href version : text) : prog E (result text Written) :=
  match guard calendar_url href with
  | Err e => Ret (Err e)
  | Ok _ =>
      if is_nil version then Ret (Err VERSION_UNKNOWN)
      else reply <-? send (delete_request href version) ;; Ret (delete_reply reply)
  end.

Definition get_reply (reply : HttpReply) : result text (option (text * text)) :=
  let code := status reply in
  if refused code then Err (lit "the server refused those credentials")
  else if gone code then Ok None
  else if 300 <=? code then Err (http (lit "the server would not send the event") code)
  else Ok (Some (reply_body reply, unwrap_or [] (etag reply))).

Definition get_request (href : text) : DavRequest :=
  {| method := lit "GET"; to := href; depth := None; body := None; headers := [] |}.

(** One object and its version, or [None] when it is no longer there. *)
Definition get_object (calendar_url href : text) : prog E (result text (option (text * text))) :=
  match guard calendar_url href with
  | Err e => Ret (Err e)
  | Ok _ => reply <-? send (get_request href) ;; Ret (get_reply reply)
  end.

(** ** Where the password may go *)

Definition on_origin (bound : text) (address : text) : bool :=
  match origin_of address with Ok found => bool_decide (found = bound) | Err _ => false end.

(** A transport that sends nothing outside one origin. *)
Definition bound_send (bound : text) (request : DavRequest) : prog E (result text HttpReply) :=
  if negb (on_origin bound (to request)) then
    Ret (Err (to request ++ lit " is not on " ++ bound ++ lit ", where the password may go; nothing was sent there"))
  else
    reply <-? send request ;;
    if negb (is_nil (at_url reply)) && negb (on_origin bound (at_url reply)) then
      Ret (Err (bound ++ lit " sent the request on to " ++ at_url reply ++ lit ", where the password may not go"))
    else Ret (Ok reply).
End Writes.

(** ** A transport bound to one origin *)

(** Whatever is written against a transport. *)
Inductive Net : Type -> Type :=
| Request (r : DavRequest) : Net (result text HttpReply).

(** The same over [OriginBound]. *)
Fixpoint over_bound {R} (bound : text) (p : prog Net R) : prog Net R :=
  match p with
  | Ret r => Ret r
  | Vis e k =>
      match e in Net X return (X -> prog Net R) -> prog Net R with
      | Request r => fun k' => prog_bind k' (bound_send (fun r' => call (Request r')) bound r)
      end (fun x => over_bound bound (k x))
  end.

(** A server that answers anything, and what reached it. *)
Definition logs X (e : Net X) (w w' : list DavRequest) (x : X) : Prop :=
  match e with Request r => w' = r :: w end.

Definition within (bound : text) (w : list DavRequest) : Prop := forall r, r ∈ w -> on_origin bound (to r) = true.

Lemma bound_send_within bound r w (Q : result text HttpReply -> list DavRequest -> Prop) : within bound w ->
  (forall x w', within bound w' ->
     (forall reply, x = Ok reply -> at_url reply = [] \/ on_origin bound (at_url reply) = true) -> Q x w') ->
  ensures logs (within bound) (bound_send (fun r' => call (Request r')) bound r) Q w.
Proof.
  intros Hw HQ. unfold bound_send. destruct (on_origin bound (to r)) eqn:E; cbn [negb]; [|by apply HQ].
  intros w' x Hlog. unfold logs in Hlog. subst w'.
  assert (within bound (r :: w)) as Hw' by (intros r' [->|Hr]%elem_of_cons; [done|by apply Hw]).
  split; [done|]. destruct x as [reply|e]; [|by apply HQ]. cbn [prog_bind].
  destruct (at_url reply) as [|c u] eqn:Eu; cbn [is_nil negb andb].
  - apply HQ; [done|]. intros reply' [= <-]. by left.
  - destruct (on_origin bound (c :: u)) eqn:Eo; cbn [negb]; [|by apply HQ].
    apply HQ; [done|]. intros reply' [= <-]. right. by rewrite Eu.
Qed.

(** Whatever is asked over a transport bound to one origin, and
    whatever the server answers, redirects included, no request leaves that
    origin. *)
Theorem nothing_leaves_the_origin {R} bound (p : prog Net R) w' o :
  runs logs (over_bound bound p) [] w' o -> within bound w'.
Proof.
  assert (within bound []) as H0 by (intros r Hr; by apply not_elem_of_nil in Hr). intros Hr.
  eapply ensures_always; [exact H0| |exact Hr]. clear Hr w' o. revert H0. generalize (@nil DavRequest).
  induction p as [r|X e k IH]; intros w Hw; [done|]. cbn [over_bound]. destruct e as [r].
  apply ensures_bind, bound_send_within; [done|]. intros x w' Hw' _. by apply IH.
Qed.
End Addresses.

Lemma nothing_leaves_the_origin_witness : exists (u : Urls) (w : list DavRequest),
  runs logs (over_bound (lit "https://s.org") (call (Request (get_request (lit "https://s.org"))))) [] w None /\
  w <> [] /\ within (lit "https://s.org") w.
Proof.
  exists {| url := text; parse_url := Some; url_text := fun t => t; scheme := fun _ => lit "https"; origin := fun t => t;
            one_origin := fun a b => bool_decide (a = b); join_url := fun a b => Some b; set_path := fun _ p => p;
            path := fun t => t; clear_fragment := fun t => t |}, [get_request (lit "https://s.org")].
  match goal with |- ?run /\ _ => assert run as Hrun end.
  { eapply (runs_call _ _ (Request (get_request (lit "https://s.org"))) _ _ _ (Err [])); [reflexivity|]. apply runs_stop. }
  split; [exact Hrun|]. split; [discriminate|]. exact (nothing_leaves_the_origin _ _ _ _ Hrun).
Defined.
End Dav.
