(* ===== verification/Todo.v ===== *)
(** * A task as a server keeps it: the interface

    What the synchronization of task lists knows of a calendar object: the
    fields it holds ([Fields] and [Todo] of
    [meron-core/src/task_sync/vtodo.rs]) and the three routines that read,
    change and make one, promised by the class [TodoFormat].  [Vtodo] keeps
    the promise. *)
From S2P Require Import Prelude Text.
#[local] Open Scope Z_scope.

Module Todo.

Record Fields := {
  title : text;
  note : text;
  due_at : option Z;
  priority : Z;
  completed_at : option Z;
  reminder_at : option Z;
  rrule : text
}.

#[export] Instance Fields_eq_dec : EqDecision Fields.
Proof. solve_decision. Defined.

Definition default_fields : Fields :=
  {| title := []; note := []; due_at := None; priority := 1; completed_at := None; reminder_at := None; rrule := [] |}.

(** One task read from a calendar object. *)
Record Todo := { uid : text; fields : Fields; created_at : option Z; recurring : bool }.

Definition NOT_CHANGED_HERE : text :=
  lit "this task repeats in a way Oreneta does not change; change it in the app that made it".

Class TodoFormat := {
  parse : text -> result text Todo;
  patch : text -> Fields -> Z -> result text text;
  new_object : Fields -> text -> Z -> text;
  (** An object that repeats in a way this client does not change is not
      changed. *)
  patch_refuses : forall ics todo f now,
    parse ics = Ok todo -> recurring todo = true -> patch ics f now = Err NOT_CHANGED_HERE;
  (** A rule is read only with a due date to follow it from. *)
  rule_has_due : forall ics todo,
    parse ics = Ok todo -> rrule (fields todo) <> [] -> is_Some (due_at (fields todo))
}.
End Todo.
