(* ===== verification/Ics.v ===== *)
(** * Content lines of calendar objects

    Models the lines of [meron-core/src/calendar/ics.rs], which every
    calendar object written or read goes through: [escape] for the text of a
    value, [fold] and [unfold] for lines longer than the 75 octets a server
    takes, and [render]. *)
From S2P Require Import Prelude Text.
#[local] Open Scope Z_scope.

Module Ics.

Definition PRODID : text := lit "-//Oreneta//Oreneta Calendar//EN".

Definition escape_char (c : Z) : text :=
  if c =? 92 then [92; 92]
  else if c =? 59 then [92; 59]
  else if c =? 44 then [92; 44]
  else if c =? 10 then [92; 110]
  else if c =? 13 then []
  else [c].

Definition escape (s : text) : text := mbind escape_char s.

(** The line with its breaks: [width] octets of the current physical line are
    taken, which is the first one or starts with a space. *)
Fixpoint fold_from (width : nat) (first : bool) (line : text) : text :=
  match line with
  | [] => []
  | c :: rest =>
      let limit := if first then 75%nat else 74%nat in
      if (limit <? width + utf8_char_len c)%nat
      then [13; 10; 32] ++ c :: fold_from (utf8_char_len c) false rest
      else c :: fold_from (width + utf8_char_len c) first rest
  end.

Definition fold (line : text) : text := if (utf8_len line <=? 75)%nat then line else fold_from 0 true line.

(** One raw line taken in: a continuation of the last, or a line. *)
Definition unfold_line (lines : list text) (raw : text) : list text :=
  let raw := strip_cr raw in
  let continued := match strip_prefix [32] raw with Some rest => Some rest | None => strip_prefix [9] raw end in
  match continued, last lines with
  | Some rest, Some l => List.removelast lines ++ [l ++ rest]
  | _, _ => if is_nil raw then lines else lines ++ [raw]
  end.

Definition unfold_ics (ics : text) : list text := foldl unfold_line [] (split_char 10 ics).

Definition render (lines : list text) : text := mbind (fun line : text => fold line ++ [13; 10]) lines.

(** ** What is written is read back *)

(** Lines that [unfold_ics] gives: not empty, of one line each, and none but
    the first begins with a blank. *)
Definition begins_blank (line : text) : bool := starts_with [32] line || starts_with [9] line.

Definition good_line (line : text) : Prop := line <> [] /\ 10 ∉ line.

Definition content_lines (lines : list text) : Prop :=
  Forall good_line lines /\ Forall (fun line => begins_blank line = false) (tail lines).

(** The physical lines a line is folded into. *)
Definition breaks (c0 : text) (cs : list text) : text := c0 ++ mbind (fun c : text => [13; 10; 32] ++ c) cs.

Lemma utf8_char_len_bound c : (1 <= utf8_char_len c <= 4)%nat.
Proof. unfold utf8_char_len. repeat case_match; lia. Qed.

Lemma utf8_len_cons c s : utf8_len (c :: s) = (utf8_char_len c + utf8_len s)%nat.
Proof. done. Qed.

Lemma fold_from_breaks line : forall width (first : bool), (width <= if first then 75 else 74)%nat ->
  exists c0 cs, fold_from width first line = breaks c0 cs /\ line = c0 ++ mjoin cs /\
    (width + utf8_len c0 <= if first then 75 else 74)%nat /\ Forall (fun c => utf8_len c <= 74)%nat cs /\
    (c0 = [] -> line = [] \/ (70 < width)%nat).
Proof.
  induction line as [|c line IH]; intros width first Hw.
  - exists [], []. split_and!; [done|done|cbn; lia|done|by left].
  - cbn [fold_from]. pose proof (utf8_char_len_bound c). destruct (Nat.ltb_spec (if first then 75 else 74) (width + utf8_char_len c))%nat.
    + destruct (IH (utf8_char_len c) false ltac:(cbn; lia)) as (c0 & cs & Hf & -> & Hl & Hcs & _).
      exists [], ((c :: c0) :: cs). rewrite Hf. split_and!; [done|done|cbn; lia| |].
      * constructor; [|done]. rewrite utf8_len_cons. lia.
      * intros _. right. destruct first; lia.
    + destruct (IH (width + utf8_char_len c)%nat first ltac:(destruct first; lia)) as (c0 & cs & Hf & -> & Hl & Hcs & _).
      exists (c :: c0), cs. rewrite Hf. split_and!; [done|done|rewrite utf8_len_cons; lia|done|done].
Qed.

Lemma fold_breaks line : exists c0 cs, fold line = breaks c0 cs /\ line = c0 ++ mjoin cs /\
  (utf8_len c0 <= 75)%nat /\ Forall (fun c => utf8_len c <= 74)%nat cs /\ (line <> [] -> c0 <> []).
Proof.
  unfold fold. destruct (Nat.leb_spec (utf8_len line) 75).
  - exists line, []. unfold breaks. cbn. rewrite !app_nil_r. by split_and!.
  - destruct (fold_from_breaks line 0 true ltac:(cbn; lia)) as (c0 & cs & Hf & Hl & Hw & Hcs & Hne).
    exists c0, cs. split_and!; try done. intros Hline ->. destruct (Hne eq_refl); [done|lia].
Qed.

Definition unfold_from (lines : list text) (s : text) : list text := foldl unfold_line lines (split_char 10 s).

Lemma strip_cr_added c : strip_cr (c ++ [13]) = c.
Proof.
  unfold strip_cr, strip_suffix. rewrite (proj2 (ends_with_spec _ _)) by eauto. cbn [unwrap_or].
  rewrite length_app, Nat.add_sub. apply take_app_length.
Qed.

Lemma split_physical c s : 10 ∉ c -> split_char 10 (c ++ 13 :: 10 :: s) = (c ++ [13]) :: split_char 10 s.
Proof.
  intros Hc. replace (c ++ 13 :: 10 :: s) with ((c ++ [13]) ++ 10 :: s) by by rewrite <- app_assoc.
  apply split_char_app. rewrite elem_of_app. by intros [|Hin%list_elem_of_singleton].
Qed.

Lemma unfold_first lines c s : 10 ∉ c -> c <> [] -> (lines = [] \/ begins_blank c = false) ->
  unfold_from lines (c ++ 13 :: 10 :: s) = unfold_from (lines ++ [c]) s.
Proof.
  intros Hc Hne Hb. unfold unfold_from. rewrite split_physical by done. cbn [foldl]. f_equal.
  unfold unfold_line. rewrite strip_cr_added. destruct c as [|x c]; [done|]. cbn [is_nil].
  destruct Hb as [->|[Hb1 Hb2]%orb_false_iff]; [by repeat case_match|].
  unfold strip_prefix. by rewrite Hb1, Hb2.
Qed.

Lemma unfold_next lines l c s : 10 ∉ c -> unfold_from (lines ++ [l]) (32 :: c ++ 13 :: 10 :: s) = unfold_from (lines ++ [l ++ c]) s.
Proof.
  intros Hc. unfold unfold_from. change (32 :: c ++ 13 :: 10 :: s) with ((32 :: c) ++ 13 :: 10 :: s).
  rewrite split_physical by by intros [|]%elem_of_cons. cbn [foldl]. f_equal.
  unfold unfold_line. rewrite strip_cr_added. unfold strip_prefix. cbn [starts_with length drop].
  rewrite Z.eqb_refl. cbn [andb]. by rewrite last_snoc, List.removelast_last.
Qed.

Lemma unfold_breaks cs : forall lines l s, Forall (fun c => 10 ∉ c) cs ->
  unfold_from (lines ++ [l]) (mbind (fun c : text => [32] ++ c ++ [13; 10]) cs ++ s) = unfold_from (lines ++ [l ++ mjoin cs]) s.
Proof.
  induction cs as [|c cs IH]; intros lines l s Hcs; [cbn; by rewrite app_nil_r|].
  apply Forall_cons in Hcs as [Hc Hcs].
  replace (mbind (fun c : text => [32] ++ c ++ [13; 10]) (c :: cs) ++ s)
    with (32 :: c ++ 13 :: 10 :: mbind (fun c : text => [32] ++ c ++ [13; 10]) cs ++ s)
    by (cbn; rewrite <- !app_assoc; done).
  rewrite unfold_next by done. rewrite IH by done. cbn [mjoin list_join]. by rewrite app_assoc.
Qed.

Lemma breaks_lines c0 cs : breaks c0 cs ++ [13; 10] = c0 ++ 13 :: 10 :: mbind (fun c : text => [32] ++ c ++ [13; 10]) cs.
Proof.
  unfold breaks. rewrite <- app_assoc. f_equal. induction cs as [|c cs IH]; [done|].
  cbn in *. rewrite <- !app_assoc. cbn. by rewrite IH.
Qed.

Lemma unfold_folded lines line s : good_line line -> (lines = [] \/ begins_blank line = false) ->
  unfold_from lines (fold line ++ 13 :: 10 :: s) = unfold_from (lines ++ [line]) s.
Proof.
  intros [Hne Hn] Hb. destruct (fold_breaks line) as (c0 & cs & -> & Hl & _ & _ & Hc0). specialize (Hc0 Hne).
  replace (breaks c0 cs ++ 13 :: 10 :: s) with ((breaks c0 cs ++ [13; 10]) ++ s) by by rewrite <- app_assoc.
  rewrite breaks_lines, <- app_assoc. cbn [app]. rewrite Hl in Hn.
  rewrite unfold_first; [|set_solver|done|].
  - rewrite unfold_breaks, <- Hl; [done|]. apply Forall_forall. intros c Hc Hin. apply Hn, elem_of_app. right.
    apply list_elem_of_join. by exists c.
  - destruct Hb as [|Hb]; [by left|right]. rewrite Hl in Hb. unfold begins_blank in *. by destruct c0.
Qed.

Lemma unfold_render_from lines : forall before, Forall good_line lines ->
  Forall (fun line => begins_blank line = false) (if is_nil before then tail lines else lines) ->
  unfold_from before (render lines) = before ++ lines.
Proof.
  induction lines as [|line lines IH]; intros before Hg Hb; [by rewrite app_nil_r|].
  apply Forall_cons in Hg as [Hl Hg]. unfold render. cbn [mbind list_bind]. rewrite <- !app_assoc. cbn [app].
  rewrite unfold_folded; [|done|].
  - change (unfold_from (before ++ [line]) (render lines) = before ++ line :: lines). rewrite IH; [by rewrite <- app_assoc|done|].
    destruct before; cbn in *; [done|]. by apply Forall_cons in Hb as [_ Hb].
  - destruct before; [by left|right]. cbn in Hb. by apply Forall_cons in Hb as [Hb _].
Qed.

(** Lines written are the lines read. *)
Lemma unfold_render lines : content_lines lines -> unfold_ics (render lines) = lines.
Proof. intros [Hg Hb]. by apply (unfold_render_from lines []). Qed.

(** *** No line is longer than it may be *)

Definition short (raw : text) : Prop := (utf8_len (strip_cr raw) <= 75)%nat.

Lemma split_breaks cs : forall s, Forall (fun c => 10 ∉ c) cs -> Forall (fun c => utf8_len c <= 74)%nat cs ->
  exists raws, split_char 10 (mbind (fun c : text => [32] ++ c ++ [13; 10]) cs ++ s) = raws ++ split_char 10 s /\ Forall short raws.
Proof.
  induction cs as [|c cs IH]; intros s Hn Hl; [by exists []|]. apply Forall_cons in Hn as [Hc Hn]. apply Forall_cons in Hl as [Hlc Hl].
  destruct (IH s Hn Hl) as (raws & Hs & Hr).
  replace (mbind (fun c : text => [32] ++ c ++ [13; 10]) (c :: cs) ++ s)
    with ((32 :: c) ++ 13 :: 10 :: mbind (fun c : text => [32] ++ c ++ [13; 10]) cs ++ s) by (cbn; rewrite <- !app_assoc; done).
  rewrite split_physical, Hs by by intros [|]%elem_of_cons. exists (((32 :: c) ++ [13]) :: raws). split; [done|]. constructor; [|done].
  unfold short. rewrite strip_cr_added, utf8_len_cons. cbn. lia.
Qed.

Lemma split_folded line s : good_line line ->
  exists raws, split_char 10 (fold line ++ 13 :: 10 :: s) = raws ++ split_char 10 s /\ Forall short raws.
Proof.
  intros [_ Hn]. destruct (fold_breaks line) as (c0 & cs & -> & Hl & Hw & Hcs & _). rewrite Hl in Hn.
  destruct (split_breaks cs s) as (raws & Hs & Hr); [|done|].
  { apply Forall_forall. intros c Hc Hin. apply Hn, elem_of_app. right. apply list_elem_of_join. by exists c. }
  replace (breaks c0 cs ++ 13 :: 10 :: s) with ((breaks c0 cs ++ [13; 10]) ++ s) by by rewrite <- app_assoc.
  rewrite breaks_lines, <- app_assoc. cbn [app]. rewrite split_physical by set_solver. cbn [app] in Hs. rewrite Hs.
  exists ((c0 ++ [13]) :: raws). split; [done|]. constructor; [|done]. unfold short. by rewrite strip_cr_added.
Qed.

(** Lines written are the lines read, and no line on the wire is longer
    than 75 octets, whatever characters are in it. *)
Theorem written_lines lines : content_lines lines ->
  unfold_ics (render lines) = lines /\ Forall short (split_char 10 (render lines)).
Proof.
  intros Hc. split; [by apply unfold_render|]. destruct Hc as [Hg _]. induction Hg as [|line lines Hl Hg IH].
  - constructor; [unfold short; cbn; lia|constructor].
  - unfold render. cbn [mbind list_bind]. rewrite <- app_assoc. destruct (split_folded line (render lines) Hl) as (raws & Hs & Hr).
    change ([13; 10] ++ mbind (fun line : text => fold line ++ [13; 10]) lines) with (13 :: 10 :: render lines).
    rewrite Hs. by apply Forall_app_2.
Qed.

(** A long line of characters of two octets. *)
Lemma written_lines_witness :
  let line := lit "SUMMARY:" ++ repeat 231 60 in
  length (split_char 10 (render [line])) = 3%nat /\ unfold_ics (render [line]) = [line] /\ Forall short (split_char 10 (render [line])).
Proof.
  cbv zeta. split; [vm_compute; reflexivity|]. apply written_lines. split; [|constructor].
  constructor; [|constructor]. split; [done|]. apply (bool_decide_unpack _). vm_compute. exact I.
Defined.

Lemma unfold_line_good lines raw : content_lines lines -> 10 ∉ raw -> content_lines (unfold_line lines raw).
Proof.
  intros [Hg Hb] Hr. assert (10 ∉ strip_cr raw) as Hs.
  { unfold strip_cr, strip_suffix. destruct (ends_with [13] raw); [|done]. cbn [unwrap_or]. intros Hin. by apply elem_of_take in Hin as (i & Hi%list_elem_of_lookup_2 & _). }
  unfold unfold_line. set (s := strip_cr raw) in *.
  assert (forall rest, match strip_prefix [32] s with Some rest => Some rest | None => strip_prefix [9] s end = Some rest -> 10 ∉ rest) as Hrest.
  { intros rest Hst Hin. apply Hs. unfold strip_prefix in Hst. repeat case_match; simplify_eq;
      rewrite <- (take_drop (length [32]) s); apply elem_of_app; by right. }
  assert (content_lines (if is_nil s then lines else lines ++ [s]) \/ begins_blank s = true /\ lines <> []) as Hpush.
  { destruct s as [|x s'] eqn:E; cbn [is_nil]; [by left|]. destruct lines as [|l lines]; [left; by repeat constructor|].
    destruct (begins_blank (x :: s')) eqn:Eb; [by right|left].
    assert (good_line (x :: s')) as Hgood by done. split; [apply Forall_app_2; [done|by constructor]|].
    apply Forall_app_2; [done|by constructor]. }
  destruct (match strip_prefix [32] s with Some rest => Some rest | None => strip_prefix [9] s end) as [rest|] eqn:Est.
  - destruct (last lines) as [l|] eqn:El.
    + apply last_Some in El as [ls ->]. rewrite List.removelast_last. apply Forall_app in Hg as [Hg [Hl _]%Forall_cons].
      destruct Hl as [Hne Hn]. split.
      * apply Forall_app. split; [done|]. constructor; [|done]. split; [by destruct l|]. specialize (Hrest rest eq_refl). set_solver.
      * destruct ls as [|l0 ls]; [done|]. cbn in *. apply Forall_app in Hb as [Hb [Hbl _]%Forall_cons]. apply Forall_app. split; [done|].
        constructor; [|done]. unfold begins_blank in *. by destruct l.
    + apply last_None in El as ->. destruct Hpush as [|[_ []]]; done.
  - destruct Hpush as [|[Hblank _]]; [done|]. unfold strip_prefix, begins_blank in *. by destruct (starts_with [32] s), (starts_with [9] s).
Qed.

(** What is read is made of content lines. *)
Lemma unfold_good ics : content_lines (unfold_ics ics).
Proof.
  unfold unfold_ics. assert (Forall (fun raw => 10 ∉ raw) (split_char 10 ics)) as Hall.
  { unfold split_char. induction ics as [|c s IH]; cbn [split_on]; [repeat constructor; set_solver|].
    destruct (Z.eqb_spec 10 c); [constructor; [set_solver|done]|].
    destruct (split_on (Z.eqb 10) s) as [|w ws]; [constructor; [set_solver|constructor]|].
    apply Forall_cons in IH as [Hw Hws]. constructor; [set_solver|done]. }
  assert (content_lines []) as H0 by by repeat constructor. revert H0. generalize (@nil text).
  induction (split_char 10 ics) as [|raw raws IH]; intros ls Hls; [done|]. apply Forall_cons in Hall as [Hr Hall].
  cbn [foldl]. apply (IH Hall). by apply unfold_line_good.
Qed.

Lemma escape_single s : 10 ∉ escape s.
Proof.
  unfold escape. intros Hin. apply list_elem_of_bind in Hin as (c & Hc & _). revert Hc. unfold escape_char.
  repeat case_match; rewrite ?elem_of_cons, ?elem_of_nil; rewrite ?Z.eqb_neq in *; naive_solver lia.
Qed.
End Ics.
