(* ===== verification/Vtodo.v ===== *)
(** * A task as a calendar object

    Models [meron-core/src/task_sync/vtodo.rs]: reading the one VTODO of a
    calendar object, writing changed fields over an object the server has,
    line by line, and making a new one.  [vtodo_format] keeps the promise of
    [Todo.TodoFormat], so the synchronization of [TaskSync] runs over these
    routines. *)
From S2P Require Import Prelude Text Calendar Recurrence RRule Tasks Ics Todo.
#[local] Open Scope Z_scope.

(** The zones of the [chrono-tz] database, by name. *)
Class Zones := { zone_named : text -> option Zone }.

Module Vtodo.
Import Todo.

Definition bail {A} (message : text) : result Tasks.error A := Err (Tasks.Bail message).

(** ** Lines *)

Fixpoint colon_from (quoted : bool) (line : text) : option nat :=
  match line with
  | [] => None
  | c :: rest =>
      if c =? 34 then S <$> colon_from (negb quoted) rest
      else if (c =? 58) && negb quoted then Some 0%nat
      else S <$> colon_from quoted rest
  end.

(** Where the value starts. *)
Definition colon (line : text) : option nat := colon_from false line.

Definition name_of (line : text) : text :=
  let head := take (unwrap_or (length line) (colon line)) line in
  to_ascii_uppercase (trim (unwrap_or [] (hd_error (split_char 59 head)))).

Definition value_of (line : text) : text :=
  match colon line with Some i => drop (S i) line | None => [] end.

Fixpoint param_in (key : text) (parts : list text) : option text :=
  match parts with
  | [] => None
  | part :: rest =>
      match split_once 61 part with
      | Some (k, v) => if eq_ignore_ascii_case (trim k) key then Some (trim_matches (Z.eqb 34) (trim v)) else param_in key rest
      | None => param_in key rest
      end
  end.

Definition param (line key : text) : option text :=
  i ← colon line; param_in key (tail (split_char 59 (take i line))).

Definition param_is (line key value : text) : bool := is_some_and (fun v => eq_ignore_ascii_case v value) (param line key).

Fixpoint unescape (s : text) : text :=
  match s with
  | [] => []
  | c :: rest =>
      if c =? 92 then
        match rest with
        | [] => [92]
        | d :: rest' => (if (d =? 110) || (d =? 78) then 10 else d) :: unescape rest'
        end
      else c :: unescape rest
  end.

(** A property opens or closes a component. *)
Definition upper (line : text) : text := to_ascii_uppercase (trim line).
Definition opens (line : text) : bool := starts_with (lit "BEGIN:") (upper line).
Definition closes (line : text) : bool := starts_with (lit "END:") (upper line).

(** 64-bit arithmetic. *)
Definition wrap_i64 (n : Z) : Z := (n + 2 ^ 63) mod 2 ^ 64 - 2 ^ 63.
Definition parse_i64 : text -> option Z := parse_signed (- 2 ^ 63) (2 ^ 63 - 1).

Definition unit_seconds (unit : Z) (in_time : bool) (n : Z) : option Z :=
  if (unit =? 87) && negb in_time then Some (wrap_i64 (wrap_i64 (n * 7) * 86400))
  else if (unit =? 68) && negb in_time then Some (wrap_i64 (n * 86400))
  else if (unit =? 72) && in_time then Some (wrap_i64 (n * 3600))
  else if (unit =? 77) && in_time then Some (wrap_i64 (n * 60))
  else if (unit =? 83) && in_time then Some n
  else None.

Fixpoint duration_from (rest : text) (total : Z) (number : text) (in_time : bool) : option Z :=
  match rest with
  | [] => if is_nil number then Some total else None
  | c :: rest =>
      if c =? 84 then duration_from rest total number true
      else if is_ascii_digit c then duration_from rest total (number ++ [c]) in_time
      else n ← parse_i64 number; k ← unit_seconds c in_time n; duration_from rest (wrap_i64 (total + k)) [] in_time
  end.

Definition duration (value : text) : option Z :=
  let value := trim value in
  let '(sign, rest) := match strip_prefix (lit "-") value with
                       | Some rest => (-1, rest)
                       | None => (1, unwrap_or value (strip_prefix (lit "+") value))
                       end in
  rest ← strip_prefix (lit "P") rest;
  total ← duration_from rest 0 [] false;
  Some (wrap_i64 (sign * total)).

Definition priority_from (value : option Z) : Z :=
  match value with
  | Some p => if (1 <=? p) && (p <=? 4) then 2 else if (6 <=? p) && (p <=? 9) then 0 else 1
  | None => 1
  end.

(** ** Components *)

Record Span := { begin_ : nat; end_ : nat }.

(** The lines inside. *)
Definition inside (lines : list text) (s : Span) : list text :=
  take (end_ s - S (begin_ s)) (drop (S (begin_ s)) lines).

(** Where the component that begins at [k] ends. *)
Fixpoint close_from (lines : list text) (k depth : nat) : option nat :=
  match lines with
  | [] => None
  | line :: rest =>
      if opens line then close_from rest (S k) (S depth)
      else if closes line then
        if Nat.eqb (depth - 1) 0 then Some k else close_from rest (S k) (depth - 1)
      else close_from rest (S k) depth
  end.

Fixpoint own_from (lines : list text) (k depth : nat) : list nat :=
  match lines with
  | [] => []
  | line :: rest =>
      if opens line then own_from rest (S k) (S depth)
      else if closes line then own_from rest (S k) (depth - 1)
      else if Nat.eqb depth 0 then k :: own_from rest (S k) depth
      else own_from rest (S k) depth
  end.

Definition own (lines : list text) (s : Span) : list nat := own_from (inside lines s) (S (begin_ s)) 0.

Definition line_at (lines : list text) (k : nat) : text := unwrap_or [] (lines !! k).

Definition is_named (name line : text) : bool := bool_decide (name_of line = name).

Definition begins_task (line : text) : bool := eq_ignore_ascii_case (trim line) (lit "BEGIN:VTODO").

(** [lines] are those of [all] from [i] on, of which [skip] are of a task
    found already. *)
Fixpoint todos_from (all lines : list text) (i skip : nat) : result Tasks.error (list (Span * bool)) :=
  match lines with
  | [] => Ok []
  | line :: rest =>
      match skip with
      | S skip' => todos_from all rest (S i) skip'
      | O =>
          if begins_task line then
            match close_from lines i 0 with
            | None => bail (lit "a task in this object is not closed")
            | Some e =>
                let s := {| begin_ := i; end_ := e |} in
                let exception := existsb (fun k => is_named (lit "RECURRENCE-ID") (line_at all k)) (own all s) in
                more ← todos_from all rest (S i) (e - i); Ok ((s, exception) :: more)
            end
          else todos_from all rest (S i) 0
      end
  end.

Definition todos (lines : list text) : result Tasks.error (list (Span * bool)) := todos_from lines lines 0 0.

Fixpoint alarms_from (lines : list text) (k : nat) (start : option nat) : list Span :=
  match lines with
  | [] => []
  | line :: rest =>
      if bool_decide (upper line = lit "BEGIN:VALARM") then alarms_from rest (S k) (Some k)
      else if bool_decide (upper line = lit "END:VALARM") then
        match start with
        | Some b => {| begin_ := b; end_ := k |} :: alarms_from rest (S k) None
        | None => alarms_from rest (S k) None
        end
      else alarms_from rest (S k) start
  end.

Definition alarms (lines : list text) (s : Span) : list Span := alarms_from (inside lines s) (S (begin_ s)) None.

Definition own_lines (lines : list text) (s : Span) : list text := line_at lines <$> own lines s.

Definition master (lines : list text) : result Tasks.error (Span * bool) :=
  found ← todos lines;
  match find_by (fun f => negb f.2) found with
  | None => bail (lit "this object holds no task")
  | Some (s, _) =>
      let props := own_lines lines s in
      Ok (s, (1 <? length found)%nat || (1 <? length (base.filter (fun l => is_named (lit "RRULE") l = true) props))%nat ||
             existsb (fun l => is_named (lit "RDATE") l || is_named (lit "EXDATE") l) props)
  end.

Section Format.
Context `{Calendar} `{Zone} `{Stamps} `{Zones}.

Definition utc (instant : Z) : text := show_time (RRule.utc_of instant) ++ lit "Z".

(** [value.get(..8)] *)
Definition first_eight (value : text) : option text := fst <$> ok (RRule.split_at 8 value).

Definition is_date (line value : text) : bool :=
  param_is line (lit "VALUE") (lit "DATE") || bool_decide (utf8_len value = 8%nat).

Definition time_value (line : text) : option Z :=
  let value := trim (value_of line) in
  if is_date line value then (digits ← first_eight value; day ← read_date digits; earliest (day * 86400))
  else
    let '(body, is_utc) := match strip_suffix (lit "Z") value with
                           | Some body => (body, true)
                           | None => match strip_suffix (lit "z") value with
                                     | Some body => (body, true)
                                     | None => (value, false)
                                     end
                           end in
    naive ← read_time body;
    if is_utc : bool then Some (naive - 86400 * Recurrence.epoch)
    else match param line (lit "TZID") ≫= zone_named with
         | Some tz => @earliest tz naive
         | None => earliest naive
         end.

Definition due_day : Z -> option (Z * bool) := Tasks.due_day.

(** ** Reading *)

Definition rule_of (rrule : option text) (due : option Z) : result Recurrence.failure text :=
  match rrule with
  | None => Ok []
  | Some line =>
      '(rule, in_month) ← RRule.parse_with_month (value_of line);
      '(day, all_day) ← ok_or (Recurrence.Unsupported []) (due ≫= due_day);
      if is_some_and (fun m => negb (m =? month day)) in_month then Err (Recurrence.Unsupported [])
      else Ok (RRule.format (Recurrence.anchored rule day) day all_day)
  end.

Definition trigger_of (lines : list text) (alarm : Span) : option text :=
  find_by (is_named (lit "TRIGGER")) (inside lines alarm).

Definition is_fixed (trigger : text) : bool := param_is trigger (lit "VALUE") (lit "DATE-TIME").

Definition alarm_instant (start due : option Z) (trigger : text) : option Z :=
  if is_fixed trigger then time_value trigger
  else
    offset ← duration (value_of trigger);
    anchor ← (if param_is trigger (lit "RELATED") (lit "END") then due
              else match start with Some s => Some s | None => due end);
    Some (wrap_i64 (anchor + offset)).

Fixpoint find_map {A B} (f : A -> option B) (l : list A) : option B :=
  match l with
  | [] => None
  | a :: rest => match f a with Some b => Some b | None => find_map f rest end
  end.

Definition completion (status : text) (completed modified : option text) : option Z :=
  if bool_decide (status = lit "NEEDS-ACTION") || bool_decide (status = lit "IN-PROCESS") then None
  else match completed ≫= time_value with
       | Some at_ => Some at_
       | None =>
           if bool_decide (status = lit "COMPLETED") || bool_decide (status = lit "CANCELLED")
           then Some (unwrap_or 0 (modified ≫= time_value)) else None
       end.

Definition or_else {A} (a b : option A) : option A := match a with Some x => Some x | None => b end.

Definition get_in (props : list text) (name : text) : option text := find_by (is_named name) props.
Definition text_in (props : list text) (name : text) : text :=
  unwrap_or [] ((fun line => unescape (value_of line)) <$> get_in props name).

Definition read (lines : list text) : result Tasks.error Todo.Todo :=
  '(s, complex) ← master lines;
  let props := own_lines lines s in
  let get := get_in props in
  let due := get (lit "DUE") ≫= time_value in
  let start := get (lit "DTSTART") ≫= time_value in
  let status := unwrap_or [] ((fun line => to_ascii_uppercase (trim (value_of line))) <$> get (lit "STATUS")) in
  let completed := completion status (get (lit "COMPLETED")) (or_else (get (lit "LAST-MODIFIED")) (get (lit "DTSTAMP"))) in
  let reminder := find_map (fun alarm => trigger_of lines alarm ≫= alarm_instant start due) (alarms lines s) in
  '(rule, repeats) ← match rule_of (get (lit "RRULE")) due with
                     | Ok rule => Ok (if complex : bool then ([], true) else (rule, false))
                     | Err (Recurrence.Unsupported _) => Ok ([], true)
                     | Err Recurrence.Panic => Err Tasks.Panicked
                     end;
  Ok {| uid := unwrap_or [] ((fun line => trim (value_of line)) <$> get (lit "UID"));
        fields := {| title := text_in props (lit "SUMMARY");
                     note := text_in props (lit "DESCRIPTION");
                     due_at := due;
                     priority := priority_from (get (lit "PRIORITY") ≫= fun line => parse_i64 (trim (value_of line)));
                     completed_at := completed;
                     reminder_at := reminder;
                     rrule := rule |};
        created_at := get (lit "CREATED") ≫= time_value;
        recurring := repeats |}.

Definition parse (ics : text) : result Tasks.error Todo.Todo := read (Ics.unfold_ics ics).

(** ** Writing *)

Definition matching (lines : list text) (s : Span) (name : text) : list nat :=
  base.filter (fun k => is_named name (line_at lines k) = true) (own lines s).

Definition remove_all (ks : list nat) (lines : list text) : list text := foldl (fun ls k => delete k ls) lines (rev ks).

Definition insert_at (k : nat) (new lines : list text) : list text := take k lines ++ new ++ drop k lines.

(** Before any nested component. *)
Definition place (lines : list text) (s : Span) : nat :=
  match list_find (fun line => opens line = true) (inside lines s) with
  | Some (i, _) => S (begin_ s) + i
  | None => end_ s
  end.

Definition set (name : text) (line : option text) (lines : list text) : result Tasks.error (list text) :=
  '(s, _) ← master lines;
  let found := matching lines s name in
  Ok (match line, found with
      | Some l, first :: others => remove_all others (<[first := l]> lines)
      | Some l, [] => insert_at (place lines s) [l] lines
      | None, _ => remove_all found lines
      end).

Definition get_own (name : text) (lines : list text) : result Tasks.error (option text) :=
  '(s, _) ← master lines; Ok (get_in (own_lines lines s) name).

Definition due_line (instant : Z) : text :=
  match Recurrence.local_of instant with
  | Some n => if n mod 86400 =? 0 then lit "DUE;VALUE=DATE:" ++ show_date (Recurrence.date_of n) else lit "DUE:" ++ utc instant
  | None => lit "DUE:" ++ utc instant
  end.

Definition duration_text (seconds : Z) : text :=
  let sign := if seconds <? 0 then lit "-" else [] in
  let n := Z.abs seconds in
  if n =? 0 then lit "PT0S"
  else if n mod 86400 =? 0 then sign ++ lit "P" ++ show_Z (n / 86400) ++ lit "D"
  else if n mod 60 =? 0 then sign ++ lit "PT" ++ show_Z (n / 60) ++ lit "M"
  else sign ++ lit "PT" ++ show_Z n ++ lit "S".

(** [naive + Duration::days(days)] *)
Definition days_later (naive days : Z) : result Tasks.error Z :=
  if bool_decide (in_range (naive / 86400 + days)) then Ok (naive + 86400 * days) else Err Tasks.Panicked.

Definition shift_days (line : text) (days : Z) : result Tasks.error (option text) :=
  match colon line with
  | None => Ok None
  | Some at_ =>
      let head := take at_ line in
      let value := trim (drop (S at_) line) in
      let done (value : text) : option text := Some (head ++ lit ":" ++ value) in
      if is_date line value then
        match first_eight value ≫= read_date with
        | None => Ok None
        | Some day => moved ← days_later (day * 86400) days; Ok (done (show_date (Recurrence.date_of moved)))
        end
      else match strip_suffix (lit "Z") value with
           | Some body =>
               match read_time body with
               | None => Ok None
               | Some naive =>
                   moved ← days_later (local_at (naive - 86400 * Recurrence.epoch)) days;
                   Ok (earliest moved ≫= fun instant => done (utc instant))
               end
           | None =>
               match read_time value with
               | None => Ok None
               | Some naive => moved ← days_later naive days; Ok (done (show_time moved))
               end
           end
  end.

Definition first_alarm_is_relative (lines : list text) : result Tasks.error bool :=
  '(s, _) ← master lines;
  Ok (is_some_and (fun trigger => negb (is_fixed trigger)) (hd_error (alarms lines s) ≫= trigger_of lines)).

Definition unless_empty (name value : text) : option text := if is_nil value then None else Some (name ++ [58] ++ Ics.escape value).

Definition write_if (b : bool) (f : list text -> result Tasks.error (list text)) (lines : list text) : result Tasks.error (list text) :=
  if b then f lines else Ok lines.

Section Apply.
Context (before after : Fields).

Definition differs {A} `{EqDecision A} (f : Fields -> A) : bool := negb (bool_decide (f before = f after)).

Definition repeats_anew : bool := negb (is_nil (rrule after)) && (differs due_at || is_nil (rrule before)).

(** The start of a repeating task moves with its due date. *)
Definition write_start (lines : list text) : result Tasks.error (list text) :=
  match due_at after with
  | None => Ok lines
  | Some due =>
      start ← get_own (lit "DTSTART") lines;
      moved ← match start, due_at before ≫= due_day, due_day due with
              | Some line, Some (from, _), Some (to, _) => shift_days line (to - from)
              | _, _, _ => Ok None
              end;
      let line := unwrap_or (lit "DTSTART" ++ drop 3 (due_line due)) moved in
      write_if (bool_decide (start = None) || differs due_at) (set (lit "DTSTART") (Some line)) lines
  end.

Definition priority_line (p : Z) : option text :=
  if p =? 2 then Some (lit "PRIORITY:1") else if p =? 0 then Some (lit "PRIORITY:9") else None.

Definition write_completion (lines : list text) : result Tasks.error (list text) :=
  match completed_at after with
  | Some at_ =>
      lines ← set (lit "STATUS") (Some (lit "STATUS:COMPLETED")) lines;
      lines ← set (lit "COMPLETED") (Some (lit "COMPLETED:" ++ utc at_)) lines;
      percent ← get_own (lit "PERCENT-COMPLETE") lines;
      write_if (bool_decide (is_Some percent)) (set (lit "PERCENT-COMPLETE") (Some (lit "PERCENT-COMPLETE:100"))) lines
  | None =>
      lines ← set (lit "STATUS") (Some (lit "STATUS:NEEDS-ACTION")) lines;
      lines ← set (lit "COMPLETED") None lines;
      set (lit "PERCENT-COMPLETE") None lines
  end.

Definition offset (f : Fields) : option Z := at_ ← reminder_at f; due ← due_at f; Some (wrap_i64 (at_ - due)).

Definition drop_alarm (lines : list text) (alarm : Span) : list text := take (begin_ alarm) lines ++ drop (S (end_ alarm)) lines.

Definition alarm_lines (at_ : Z) : list text :=
  [lit "BEGIN:VALARM"; lit "ACTION:DISPLAY";
   lit "DESCRIPTION:" ++ Ics.escape (if is_nil (title after) then lit "Reminder" else title after);
   match due_at after, is_nil (rrule after) with
   | Some due, false => lit "TRIGGER;RELATED=END:" ++ duration_text (wrap_i64 (at_ - due))
   | _, _ => lit "TRIGGER;VALUE=DATE-TIME:" ++ utc at_
   end;
   lit "END:VALARM"].

Definition write_reminder (lines : list text) : result Tasks.error (list text) :=
  '(s, _) ← master lines;
  let lines := foldl drop_alarm lines (rev (alarms lines s)) in
  match reminder_at after with
  | None => Ok lines
  | Some at_ => '(s, _) ← master lines; Ok (insert_at (end_ s) (alarm_lines at_) lines)
  end.

(** An alarm set relative to a repeating task that keeps its distance has
    followed it. *)
Definition follows (lines : list text) : result Tasks.error bool :=
  if negb (is_nil (rrule after)) && bool_decide (is_Some (offset before)) && bool_decide (offset before = offset after)
  then first_alarm_is_relative lines else Ok false.

Definition write_alarm (lines : list text) : result Tasks.error (list text) :=
  by_itself ← follows lines; write_if (differs reminder_at && negb by_itself) write_reminder lines.

Definition next_sequence (sequence : option text) : Z :=
  unwrap_or 1 ((fun n => wrap_i64 (n + 1)) <$> (line ← sequence; parse_i64 (trim (value_of line)))).

Definition bump_sequence (lines : list text) : result Tasks.error (list text) :=
  sequence ← get_own (lit "SEQUENCE") lines;
  set (lit "SEQUENCE") (Some (lit "SEQUENCE:" ++ show_Z (next_sequence sequence))) lines.

Definition apply (now : Z) (bump : bool) (lines : list text) : result Tasks.error (list text) :=
  lines ← write_if (differs title) (set (lit "SUMMARY") (unless_empty (lit "SUMMARY") (title after))) lines;
  lines ← write_if (differs note) (set (lit "DESCRIPTION") (unless_empty (lit "DESCRIPTION") (note after))) lines;
  lines ← write_if (differs due_at) (set (lit "DUE") (due_line <$> due_at after)) lines;
  lines ← write_if repeats_anew write_start lines;
  lines ← write_if (differs rrule)
            (set (lit "RRULE") (if is_nil (rrule after) then None else Some (lit "RRULE:" ++ rrule after))) lines;
  lines ← write_if (differs priority) (set (lit "PRIORITY") (priority_line (priority after))) lines;
  lines ← write_if (differs completed_at) write_completion lines;
  lines ← write_alarm lines;
  lines ← set (lit "DTSTAMP") (Some (lit "DTSTAMP:" ++ utc now)) lines;
  lines ← set (lit "LAST-MODIFIED") (Some (lit "LAST-MODIFIED:" ++ utc now)) lines;
  write_if bump bump_sequence lines.
End Apply.

Definition patch (ics : text) (fs : Fields) (now : Z) : result Tasks.error text :=
  let lines := Ics.unfold_ics ics in
  before ← read lines;
  if recurring before then bail NOT_CHANGED_HERE
  else lines ← apply (fields before) fs now true lines; Ok (Ics.render lines).

Definition skeleton (uid : text) (now : Z) : list text :=
  [lit "BEGIN:VCALENDAR"; lit "VERSION:2.0"; lit "PRODID:" ++ Ics.PRODID; lit "BEGIN:VTODO"; lit "UID:" ++ uid;
   lit "CREATED:" ++ utc now; lit "SEQUENCE:0"; lit "STATUS:NEEDS-ACTION"; lit "END:VTODO"; lit "END:VCALENDAR"].

Definition new_object (fs : Fields) (uid : text) (now : Z) : result Tasks.error text :=
  lines ← apply default_fields fs now false (skeleton uid now); Ok (Ics.render lines).
End Format.
End Vtodo.
