(* ===== verification/VtodoBody.v ===== *)
(** * The inside of a task's component

    The routines of [Vtodo] find a task by counting lines.  Here the same is
    said of the lines between its [BEGIN] and its [END], a list of their own:
    which are the task's properties ([props]), which belong to its alarms
    ([triggers], [strip]), and what [set] and [write_reminder] make of it.
    Two tasks with the same properties and triggers read the same. *)
From S2P Require Import Prelude Text Calendar Recurrence RRule Tasks Ics Todo Vtodo.

#[local] Open Scope Z_scope.

Module VtodoBody.
Import Todo Vtodo.

(** ** Properties *)

(** Whether each component opened is closed, from the depth [d]. *)
Fixpoint nest (d : nat) (body : list text) : option nat :=
  match body with
  | [] => Some d
  | line :: rest =>
      if opens line then nest (S d) rest
      else if closes line then match d with O => None | S d' => nest d' rest end
      else nest d rest
  end.

Definition balanced (body : list text) : Prop := nest 0 body = Some 0%nat.

(** The component's own lines. *)
Fixpoint own_of (d : nat) (body : list text) : list text :=
  match body with
  | [] => []
  | line :: rest =>
      if opens line then own_of (S d) rest
      else if closes line then own_of (d - 1) rest
      else if Nat.eqb d 0 then line :: own_of d rest
      else own_of d rest
  end.

Definition named (name : text) (ls : list text) : list text := base.filter (fun l => is_named name l = true) ls.
Definition props (name : text) (body : list text) : list text := named name (own_of 0 body).

Definition starts_alarm (line : text) : bool := bool_decide (upper line = lit "BEGIN:VALARM").
Definition ends_alarm (line : text) : bool := bool_decide (upper line = lit "END:VALARM").

(** The first trigger of each alarm. *)
Fixpoint triggers_from (open : option (option text)) (body : list text) : list (option text) :=
  match body with
  | [] => []
  | line :: rest =>
      if starts_alarm line then triggers_from (Some None) rest
      else if ends_alarm line then
        match open with Some t => t :: triggers_from None rest | None => triggers_from None rest end
      else triggers_from (match open with
                          | Some None => Some (if is_named (lit "TRIGGER") line then Some line else None)
                          | _ => open
                          end) rest
  end.

Definition triggers (body : list text) : list (option text) := triggers_from None body.

(** ** Changes *)

(** The properties of that name dropped, or all but the first, which becomes
    the line given. *)
Fixpoint replace (d : nat) (name : text) (line : option text) (body : list text) : list text :=
  match body with
  | [] => []
  | l :: rest =>
      if opens l then l :: replace (S d) name line rest
      else if closes l then l :: replace (d - 1) name line rest
      else if Nat.eqb d 0 && is_named name l then
        match line with Some new => new :: replace d name None rest | None => replace d name None rest end
      else l :: replace d name line rest
  end.

Fixpoint add (line : text) (body : list text) : list text :=
  match body with
  | [] => [line]
  | l :: rest => if opens l then line :: body else l :: add line rest
  end.

Definition put (name : text) (line : option text) (body : list text) : list text :=
  match line, props name body with
  | Some l, [] => add l body
  | _, _ => replace 0 name line body
  end.

(** The alarms dropped. *)
Fixpoint strip (inside : bool) (body : list text) : list text :=
  match body with
  | [] => []
  | line :: rest =>
      if inside then strip (negb (ends_alarm line)) rest
      else if starts_alarm line then strip true rest
      else line :: strip false rest
  end.

(** Alarms are closed components, one after another; [depth] is that of the
    component of an alarm the line is in. *)
Fixpoint tidy_from (alarm : option nat) (body : list text) : bool :=
  match body, alarm with
  | [], None => true
  | [], Some _ => false
  | line :: rest, None => if starts_alarm line then tidy_from (Some 0%nat) rest else negb (ends_alarm line) && tidy_from None rest
  | line :: rest, Some depth =>
      if ends_alarm line then Nat.eqb depth 0 && tidy_from None rest
      else if starts_alarm line then false
      else if opens line then tidy_from (Some (S depth)) rest
      else if closes line then match depth with O => false | S depth' => tidy_from (Some depth') rest end
      else tidy_from (Some depth) rest
  end.

Definition tidy (body : list text) : bool := tidy_from None body.

(** ** Lines with a name *)

Lemma starts_alarm_opens line : starts_alarm line = true -> opens line = true.
Proof. unfold starts_alarm, opens. intros ->%bool_decide_eq_true. reflexivity. Qed.

Lemma ends_alarm_closes line : ends_alarm line = true -> opens line = false /\ closes line = true.
Proof. unfold ends_alarm, opens, closes. intros ->%bool_decide_eq_true. split; reflexivity. Qed.

Lemma begins_task_opens line : begins_task line = true -> opens line = true.
Proof.
  unfold begins_task, eq_ignore_ascii_case, opens, upper. intros He%bool_decide_eq_true.
  assert (forall s, to_ascii_uppercase (to_ascii_lowercase s) = to_ascii_uppercase s) as Hup.
  { intros s. unfold to_ascii_uppercase, to_ascii_lowercase. rewrite <- list_fmap_compose. apply list_fmap_ext. intros _ c _.
    unfold compose, ascii_upper_char, ascii_lower_char, is_ascii_lower, is_ascii_upper. repeat case_match; rewrite ?andb_true_iff, ?andb_false_iff, ?Z.leb_le, ?Z.leb_gt in *; lia. }
  rewrite <- (Hup (trim line)), He. reflexivity.
Qed.

Lemma trim_start_app p s t x r : trim_start_matches p s = x :: r -> trim_start_matches p (s ++ t) = x :: r ++ t.
Proof. induction s as [|c s IH]; [done|]. cbn. destruct (p c); [apply IH|]. by intros [= -> ->]. Qed.

Lemma trim_start_head p s x r : trim_start_matches p s = x :: r -> p x = false.
Proof. induction s as [|c s IH]; [done|]. cbn. destruct (p c) eqn:E; [apply IH|]. by intros [= -> ->]. Qed.

Lemma trim_end_cons p x r : p x = false -> exists r', trim_end_matches p (x :: r) = x :: r'.
Proof.
  intros Hx. unfold trim_end_matches. cbn [rev]. destruct (trim_start_matches p (rev r)) as [|y q] eqn:E.
  - assert (trim_start_matches p (rev r ++ [x]) = [x]) as ->; [|by exists []].
    apply trim_start_matches_nil in E. induction (rev r) as [|c s IH]; cbn; [by rewrite Hx|].
    apply Forall_cons in E as [-> E]. by apply IH.
  - rewrite (trim_start_app _ _ _ _ _ E). cbn [rev app]. rewrite rev_app_distr. cbn. eauto.
Qed.

Lemma trim_cons x r line : trim_start line = x :: r -> exists r', trim line = x :: r'.
Proof. intros Hs. unfold trim. rewrite Hs. apply trim_end_cons. by apply trim_start_head in Hs. Qed.

Lemma split_head c s : exists t, s = unwrap_or [] (hd_error (split_char c s)) ++ t.
Proof.
  unfold split_char. induction s as [|a s [t IH]]; [by exists []|]. cbn [split_on]. destruct (Z.eqb_spec c a); [by exists (a :: s)|].
  destruct (split_on (Z.eqb c) s) as [|w ws]; cbn in *; [by exists s|]. exists t. by rewrite <- IH.
Qed.

(** A line whose name begins with neither [B] nor [E] opens and closes
    nothing. *)
Lemma named_plain line x n : name_of line = x :: n -> x <> 66 -> x <> 69 -> opens line = false /\ closes line = false.
Proof.
  unfold name_of. set (h := take _ line). intros Hn Hb He. destruct (split_head 59 h) as [t Ht].
  set (p := unwrap_or [] (hd_error (split_char 59 h))) in *.
  unfold to_ascii_uppercase in Hn. destruct (trim p) as [|y q] eqn:Ep; [done|]. cbn in Hn. injection Hn as Hy Hq.
  assert (exists r, trim_start p = y :: r) as [r Hr].
  { unfold trim in Ep. destruct (trim_start p) as [|z r] eqn:E; [done|].
    destruct (trim_end_cons _ z r (trim_start_head _ _ _ _ E)) as [r' Hr']. unfold trim_end in Ep. rewrite Hr' in Ep.
    injection Ep as -> _. eauto. }
  assert (exists r, trim_start line = y :: r) as [r2 Hr2].
  { rewrite <- (take_drop (unwrap_or (length line) (colon line)) line). fold h. rewrite Ht, <- app_assoc.
    unfold trim_start in *. rewrite (trim_start_app _ _ _ _ _ Hr). eauto. }
  destruct (trim_cons _ _ _ Hr2) as [r3 Hr3]. unfold opens, closes, upper. rewrite Hr3.
  change (to_ascii_uppercase (y :: r3)) with (ascii_upper_char y :: to_ascii_uppercase r3). rewrite Hy.
  change (lit "BEGIN:") with (66 :: lit "EGIN:"). change (lit "END:") with (69 :: lit "ND:"). cbn [starts_with].
  destruct (Z.eqb_spec 66 x), (Z.eqb_spec 69 x); try congruence. done.
Qed.

(** Names this client writes. *)
Definition ours (name : text) : bool :=
  match name with x :: _ => negb (x =? 66) && negb (x =? 69) | [] => false end && negb (bool_decide (name = lit "TRIGGER")).

Lemma ours_plain name line : ours name = true -> is_named name line = true ->
  opens line = false /\ closes line = false /\ starts_alarm line = false /\ ends_alarm line = false /\ is_named (lit "TRIGGER") line = false.
Proof.
  unfold ours, is_named. intros [Hx Ht]%andb_true_iff Hn%bool_decide_eq_true. destruct name as [|x n]; [done|]. bools in Hx.
  destruct (named_plain _ _ _ Hn) as [Ho Hc]; [lia|lia|]. split_and!; [done|done| | |].
  - destruct (starts_alarm line) eqn:E; [|done]. apply starts_alarm_opens in E. congruence.
  - destruct (ends_alarm line) eqn:E; [|done]. apply ends_alarm_closes in E as [_ E]. congruence.
  - rewrite Hn. by apply negb_true_iff in Ht.
Qed.

(** ** Lines counted and lines told apart *)

Lemma lookup_middle {A} (p : list A) x q : (p ++ x :: q) !! length p = Some x.
Proof. by apply list_lookup_middle. Qed.

Lemma line_at_middle p x q k : k = length p -> line_at (p ++ x :: q) k = x.
Proof. intros ->. unfold line_at. by rewrite lookup_middle. Qed.

Lemma close_nest body : forall rest k d d', nest d body = Some d' ->
  close_from (body ++ rest) k (S d) = close_from rest (k + length body) (S d').
Proof.
  induction body as [|line body IH]; intros rest k d d' Hn; cbn [nest app close_from length] in *.
  - injection Hn as ->. by rewrite Nat.add_0_r.
  - replace (k + S (length body))%nat with (S k + length body)%nat by lia.
    destruct (opens line); [by apply IH|]. destruct (closes line); [|by apply IH].
    destruct d as [|d]; [done|]. cbn [Nat.eqb Nat.sub]. rewrite ?Nat.sub_0_r. by apply IH.
Qed.

Lemma own_from_of body : forall p q k d, k = length p -> line_at (p ++ body ++ q) <$> own_from body k d = own_of d body.
Proof.
  induction body as [|line body IH]; intros p q k d Hk; [done|]. cbn [own_from own_of].
  assert (forall d, line_at (p ++ (line :: body) ++ q) <$> own_from body (S k) d = own_of d body) as Hrest.
  { intros d'. replace (p ++ (line :: body) ++ q) with ((p ++ [line]) ++ body ++ q) by by rewrite <- app_assoc.
    apply IH. rewrite length_app, Hk. cbn. lia. }
  repeat case_match; try apply Hrest. cbn [fmap list_fmap]. f_equal; [by apply line_at_middle|apply Hrest].
Qed.

Lemma find_by_snoc {A} (p : A -> bool) l x :
  find_by p (l ++ [x]) = match find_by p l with Some y => Some y | None => if p x then Some x else None end.
Proof. unfold find_by. induction l as [|a l IH]; [done|]. cbn. by destruct (p a). Qed.

Definition known (p : list text) (start : option nat) (open : option (option text)) : Prop :=
  match start, open with
  | None, None => True
  | Some b, Some t => (b < length p)%nat /\ t = find_by (is_named (lit "TRIGGER")) (drop (S b) p)
  | _, _ => False
  end.

Lemma trigger_known p q b t : (b < length p)%nat -> t = find_by (is_named (lit "TRIGGER")) (drop (S b) p) ->
  trigger_of (p ++ q) {| begin_ := b; end_ := length p |} = t.
Proof.
  intros Hb ->. unfold trigger_of, inside. cbn [begin_ end_]. f_equal.
  rewrite drop_app_le by lia. rewrite take_app_le by (rewrite length_drop; lia). apply take_ge. rewrite length_drop. lia.
Qed.

Lemma alarms_from_triggers body : forall p q k start open, k = length p -> known p start open ->
  trigger_of (p ++ body ++ q) <$> alarms_from body k start = triggers_from open body.
Proof.
  induction body as [|line body IH]; intros p q k start open Hk Ho; [done|]. cbn [alarms_from triggers_from].
  assert (forall start open, known (p ++ [line]) start open ->
    trigger_of (p ++ (line :: body) ++ q) <$> alarms_from body (S k) start = triggers_from open body) as Hrest.
  { intros start' open' Ho'. replace (p ++ (line :: body) ++ q) with ((p ++ [line]) ++ body ++ q) by by rewrite <- app_assoc.
    apply IH; [|done]. rewrite length_app, Hk. cbn. lia. }
  fold (starts_alarm line). fold (ends_alarm line). destruct (starts_alarm line).
  { apply Hrest. cbn. rewrite length_app. cbn. split; [lia|]. by rewrite drop_ge by (rewrite length_app; cbn; lia). }
  destruct (ends_alarm line).
  - destruct start as [b|], open as [t|]; try done; [|by apply Hrest]. destruct Ho as [Hb Ht].
    cbn [fmap list_fmap]. f_equal; [|by apply Hrest]. subst k. by apply trigger_known.
  - apply Hrest. destruct start as [b|], open as [t|]; try done. destruct Ho as [Hb ->]. unfold known.
    rewrite drop_app_le by lia. rewrite find_by_snoc.
    destruct (find_by (is_named (lit "TRIGGER")) (drop (S b) p)); cbn; rewrite length_app; cbn; (split; [lia|done]).
Qed.

(** Dropping by index from the back is dropping. *)
Lemma remove_all_snoc k ks lines : remove_all (k :: ks) lines = delete k (remove_all ks lines).
Proof. unfold remove_all. cbn [rev]. by rewrite foldl_app. Qed.

Definition found (all body : list text) (k d : nat) (name : text) : list nat :=
  base.filter (fun i => is_named name (line_at all i) = true) (own_from body k d).

Lemma delete_middle {A} (p : list A) x q : delete (length p) (p ++ x :: q) = p ++ q.
Proof. induction p as [|y p IH]; [done|]. cbn. f_equal. apply IH. Qed.

Lemma insert_middle {A} (p : list A) x y q : <[length p := y]> (p ++ x :: q) = p ++ y :: q.
Proof. induction p as [|z p IH]; [done|]. cbn. f_equal. apply IH. Qed.

Lemma found_cons p line body q k d name : k = length p ->
  found (p ++ (line :: body) ++ q) (line :: body) k d name =
    if opens line then found ((p ++ [line]) ++ body ++ q) body (S k) (S d) name
    else if closes line then found ((p ++ [line]) ++ body ++ q) body (S k) (d - 1) name
    else if Nat.eqb d 0 && is_named name line then k :: found ((p ++ [line]) ++ body ++ q) body (S k) d name
    else found ((p ++ [line]) ++ body ++ q) body (S k) d name.
Proof.
  intros Hk. unfold found. cbn [own_from]. replace ((p ++ [line]) ++ body ++ q) with (p ++ (line :: body) ++ q) by by rewrite <- app_assoc.
  destruct (opens line); [done|]. destruct (closes line); [done|]. destruct (Nat.eqb d 0); [|done]. cbn [andb].
  assert (line_at (p ++ (line :: body) ++ q) k = line) as Hl by by apply (line_at_middle p line (body ++ q)).
  rewrite filter_cons. case_decide as E; rewrite Hl in E; [by rewrite E|]. apply not_true_is_false in E. by rewrite E.
Qed.

(** The names of the lines not looked at any more do not matter. *)
Lemma found_ext all all' body k d name : (forall i, (k <= i)%nat -> line_at all i = line_at all' i) ->
  found all body k d name = found all' body k d name.
Proof.
  intros Hl. unfold found. apply filter_ext_in. intros i Hi. rewrite Hl; [done|].
  revert k d Hi Hl. induction body as [|line body IH]; intros k d Hi Hl; [by apply not_elem_of_nil in Hi|]. cbn [own_from] in Hi.
  assert (forall d, i ∈ own_from body (S k) d -> (k <= i)%nat) as Hrest.
  { intros d' Hi'. specialize (IH (S k) d' Hi' ltac:(intros; apply Hl; lia)). lia. }
  repeat case_match; try by eapply Hrest. apply elem_of_cons in Hi as [->|Hi]; [done|by eapply Hrest].
Qed.

Lemma remove_all_replace body : forall p q k d name, k = length p ->
  remove_all (found (p ++ body ++ q) body k d name) (p ++ body ++ q) = p ++ replace d name None body ++ q.
Proof.
  induction body as [|line body IH]; intros p q k d name Hk; [done|]. rewrite found_cons by done. cbn [replace].
  assert (forall d, remove_all (found ((p ++ [line]) ++ body ++ q) body (S k) d name) (p ++ (line :: body) ++ q)
    = p ++ line :: replace d name None body ++ q) as Hrest.
  { intros d'. replace (p ++ (line :: body) ++ q) with ((p ++ [line]) ++ body ++ q) by by rewrite <- app_assoc.
    rewrite IH by (rewrite length_app, Hk; cbn; lia). by rewrite <- app_assoc. }
  destruct (opens line); [by rewrite Hrest|]. destruct (closes line); [by rewrite Hrest|].
  destruct (Nat.eqb d 0 && is_named name line); [|by rewrite Hrest].
  rewrite remove_all_snoc, Hrest, Hk. by rewrite delete_middle.
Qed.

Lemma replace_absent body : forall d name line, named name (own_of d body) = [] -> replace d name line body = body.
Proof.
  induction body as [|l body IH]; intros d name line Hn; [done|]. cbn [own_of replace] in *.
  destruct (opens l); [by rewrite IH|]. destruct (closes l); [by rewrite IH|].
  destruct (Nat.eqb d 0); cbn [andb]; [|by rewrite IH]. unfold named in Hn. rewrite filter_cons in Hn.
  case_decide as E; [done|]. apply not_true_is_false in E. rewrite E. by rewrite IH.
Qed.

Lemma set_first body : forall p q k d name new first others, k = length p ->
  found (p ++ body ++ q) body k d name = first :: others ->
  remove_all others (<[first := new]> (p ++ body ++ q)) = p ++ replace d name (Some new) body ++ q.
Proof.
  induction body as [|line body IH]; intros p q k d name new first others Hk Hf; [done|]. rewrite found_cons in Hf by done. cbn [replace].
  assert (forall d, found ((p ++ [line]) ++ body ++ q) body (S k) d name = first :: others ->
    remove_all others (<[first := new]> (p ++ (line :: body) ++ q)) = p ++ line :: replace d name (Some new) body ++ q) as Hrest.
  { intros d' Hf'. replace (p ++ (line :: body) ++ q) with ((p ++ [line]) ++ body ++ q) by by rewrite <- app_assoc.
    rewrite (IH _ _ (S k) d' name) by (done || (rewrite length_app, Hk; cbn; lia)). by rewrite <- app_assoc. }
  destruct (opens line); [by apply Hrest|]. destruct (closes line); [by apply Hrest|].
  destruct (Nat.eqb d 0 && is_named name line); [|by apply Hrest]. injection Hf as <- <-.
  rewrite Hk. change (p ++ (line :: body) ++ q) with (p ++ line :: body ++ q). rewrite insert_middle. rewrite (found_ext _ ((p ++ [new]) ++ body ++ q)).
  - replace (p ++ new :: body ++ q) with ((p ++ [new]) ++ body ++ q) by by rewrite <- app_assoc.
    rewrite remove_all_replace by (rewrite length_app; cbn; lia). by rewrite <- !app_assoc.
  - intros i Hi. unfold line_at. rewrite <- !app_assoc. cbn [app]. f_equal. rewrite !lookup_app_r by lia.
    destruct (i - length p)%nat eqn:E; [lia|]. done.
Qed.

Lemma found_nil body : forall p q k d name, k = length p ->
  found (p ++ body ++ q) body k d name = [] <-> named name (own_of d body) = [].
Proof.
  intros p q k d name Hk. rewrite <- (own_from_of body p q k d Hk). unfold found, named.
  rewrite !filter_nil_iff. setoid_rewrite list_elem_of_fmap. naive_solver.
Qed.

(** ** What a change leaves as it was *)

Definition plain (line : text) : Prop := opens line = false /\ closes line = false.

(** A line of this name, for a property this client writes. *)
Definition fits (name : text) (line : option text) : Prop := forall l, line = Some l -> is_named name l = true.

Lemma is_named_eq name n l : is_named name l = true -> is_named n l = bool_decide (n = name).
Proof. unfold is_named. intros <-%bool_decide_eq_true. apply bool_decide_ext. split; congruence. Qed.

Lemma nest_replace body : forall d d' name line, ours name = true -> fits name line -> nest d (replace d' name line body) = nest d body.
Proof.
  induction body as [|l body IH]; intros d d' name line Ho Hf; [done|]. cbn [replace nest].
  assert (fits name None) by by intros ? [=].
  destruct (opens l) eqn:E1; [cbn [nest]; rewrite E1; by apply IH|].
  destruct (closes l) eqn:E2; [cbn [nest]; rewrite E1, E2; destruct d; [done|]; by apply IH|].
  destruct (Nat.eqb d' 0 && is_named name l); [|cbn [nest]; rewrite E1, E2; by apply IH].
  destruct line as [new|]; [|by apply IH]. destruct (ours_plain name new Ho (Hf _ eq_refl)) as (Hn1 & Hn2 & _).
  cbn [nest]. rewrite Hn1, Hn2. by apply IH.
Qed.

Lemma named_cons n l ls : named n (l :: ls) = if is_named n l then l :: named n ls else named n ls.
Proof. unfold named. rewrite filter_cons. case_decide as E; [by rewrite E|]. apply not_true_is_false in E. by rewrite E. Qed.

Lemma named_replace body : forall d n name line, ours name = true -> fits name line ->
  named n (own_of d (replace d name line body)) =
    if bool_decide (n = name) then if is_nil (named name (own_of d body)) then [] else option_list line
    else named n (own_of d body).
Proof.
  induction body as [|l body IH]; intros d n name line Ho Hf; [by case_bool_decide|]. cbn [replace own_of].
  assert (fits name None) as Hf0 by by intros ? [=].
  destruct (opens l) eqn:E1; [cbn [own_of]; rewrite E1; by apply IH|].
  destruct (closes l) eqn:E2; [cbn [own_of]; rewrite E1, E2; by apply IH|].
  destruct (Nat.eqb d 0) eqn:E3; cbn [andb]; [|cbn [own_of]; rewrite E1, E2, E3; by apply IH].
  rewrite !named_cons. destruct (is_named name l) eqn:E4.
  - rewrite (is_named_eq name n l E4). cbn [is_nil].
    assert (named n (own_of d (replace d name None body)) = if bool_decide (n = name) then [] else named n (own_of d body)) as Hn.
    { rewrite IH by done. by destruct (is_nil _). }
    destruct line as [new|].
    + destruct (ours_plain name new Ho (Hf _ eq_refl)) as (Hn1 & Hn2 & _). cbn [own_of]. rewrite Hn1, Hn2, E3, named_cons, Hn.
      rewrite (is_named_eq name n new (Hf _ eq_refl)). by case_bool_decide.
    + rewrite Hn. by case_bool_decide.
  - cbn [own_of]. rewrite E1, E2, E3, named_cons, IH by done. case_bool_decide as En; [|done]. subst n. by rewrite E4.
Qed.

Lemma triggers_skip open l rest : starts_alarm l = false -> ends_alarm l = false -> is_named (lit "TRIGGER") l = false ->
  triggers_from open (l :: rest) = triggers_from open rest.
Proof. intros H1 H2 H3. cbn [triggers_from]. rewrite H1, H2, H3. by destruct open as [[]|]. Qed.

Lemma triggers_replace body : forall open d name line, ours name = true -> fits name line ->
  triggers_from open (replace d name line body) = triggers_from open body.
Proof.
  induction body as [|l body IH]; intros open d name line Ho Hf; [done|]. cbn [replace].
  assert (fits name None) as Hf0 by by intros ? [=].
  assert (forall d line, fits name line -> triggers_from open (l :: replace d name line body) = triggers_from open (l :: body)) as Hkeep.
  { intros d' line' Hf'. cbn [triggers_from].
    destruct (starts_alarm l); [by apply IH|]. destruct (ends_alarm l); [|by apply IH]. destruct open; [f_equal|]; by apply IH. }
  destruct (opens l); [by apply Hkeep|]. destruct (closes l); [by apply Hkeep|].
  destruct (Nat.eqb d 0); cbn [andb]; [|by apply Hkeep]. destruct (is_named name l) eqn:E; [|by apply Hkeep].
  destruct (ours_plain name l Ho E) as (_ & _ & H1 & H2 & H3). rewrite (triggers_skip open l body) by done.
  destruct line as [new|]; [|by apply IH].
  destruct (ours_plain name new Ho (Hf _ eq_refl)) as (_ & _ & N1 & N2 & N3). rewrite triggers_skip by done. by apply IH.
Qed.

Lemma tidy_skip alarm l rest : plain l -> starts_alarm l = false -> ends_alarm l = false ->
  tidy_from alarm (l :: rest) = tidy_from alarm rest.
Proof. intros [H1 H2] H3 H4. cbn [tidy_from]. rewrite H1, H2, H3, H4. by destruct alarm. Qed.

Lemma tidy_replace body : forall alarm d name line, ours name = true -> fits name line ->
  tidy_from alarm (replace d name line body) = tidy_from alarm body.
Proof.
  induction body as [|l body IH]; intros alarm d name line Ho Hf; [done|]. cbn [replace].
  assert (fits name None) as Hf0 by by intros ? [=].
  assert (forall d line, fits name line -> tidy_from alarm (l :: replace d name line body) = tidy_from alarm (l :: body)) as Hkeep.
  { intros d' line' Hf'. cbn [tidy_from].
    assert (forall st, tidy_from st (replace d' name line' body) = tidy_from st body) as Hr by (intros st; by apply IH).
    destruct alarm as [[|e]|]; by rewrite !Hr. }
  destruct (opens l); [by apply Hkeep|]. destruct (closes l); [by apply Hkeep|].
  destruct (Nat.eqb d 0); cbn [andb]; [|by apply Hkeep]. destruct (is_named name l) eqn:E; [|by apply Hkeep].
  destruct (ours_plain name l Ho E) as (? & ? & ? & ? & _). rewrite (tidy_skip alarm l body) by done.
  destruct line as [new|]; [|by apply IH].
  destruct (ours_plain name new Ho (Hf _ eq_refl)) as (? & ? & ? & ? & _). rewrite tidy_skip by done. by apply IH.
Qed.

Lemma nest_add new body : plain new -> forall d, nest d (add new body) = nest d body.
Proof.
  intros [H1 H2]. induction body as [|l body IH]; intros d; cbn [add nest]; [by rewrite H1, H2|].
  destruct (opens l) eqn:E; cbn [nest]; [by rewrite H1, H2, E|]. rewrite E. destruct (closes l); [destruct d; [done|]|]; apply IH.
Qed.

Lemma named_add new body n : plain new ->
  named n (own_of 0 (add new body)) = (if is_named n new then named n (own_of 0 (add new body)) else named n (own_of 0 body)) /\
  (is_named n new = true -> named n (own_of 0 body) = [] -> named n (own_of 0 (add new body)) = [new]).
Proof.
  intros [H1 H2]. induction body as [|l body [IH1 IH2]]; cbn [add own_of].
  - rewrite H1, H2. cbn [Nat.eqb]. rewrite named_cons. destruct (is_named n new); split; done.
  - destruct (opens l) eqn:E; cbn [own_of Nat.sub].
    + rewrite H1, H2. cbn [Nat.eqb]. rewrite E, named_cons. destruct (is_named n new); split; try done. by intros _ ->.
    + rewrite E. destruct (closes l); [by split|]. cbn [Nat.eqb]. rewrite !named_cons. destruct (is_named n l); [|by split]. split; [|done].
      destruct (is_named n new); [done|]. by rewrite IH1.
Qed.

Lemma triggers_add new body : starts_alarm new = false -> ends_alarm new = false -> is_named (lit "TRIGGER") new = false ->
  triggers_from None (add new body) = triggers_from None body.
Proof.
  intros H1 H2 H3. induction body as [|l body IH]; cbn [add]; [by rewrite triggers_skip|].
  destruct (opens l) eqn:E; [by rewrite triggers_skip|]. cbn [triggers_from].
  destruct (starts_alarm l) eqn:Es; [apply starts_alarm_opens in Es; congruence|]. by destruct (ends_alarm l).
Qed.

Lemma tidy_add new body : plain new -> starts_alarm new = false -> ends_alarm new = false ->
  tidy_from None (add new body) = tidy_from None body.
Proof.
  intros Hp H1 H2. induction body as [|l body IH]; cbn [add]; [by rewrite tidy_skip|].
  destruct (opens l) eqn:E; [by rewrite tidy_skip|]. cbn [tidy_from].
  destruct (starts_alarm l) eqn:Es; [apply starts_alarm_opens in Es; congruence|]. by rewrite IH.
Qed.

(** [put] sets its property and leaves everything else. *)
Lemma put_spec name line body : ours name = true -> fits name line ->
  (forall d, nest d (put name line body) = nest d body) /\
  (forall n, props n (put name line body) = if bool_decide (n = name) then option_list line else props n body) /\
  triggers (put name line body) = triggers body /\ tidy (put name line body) = tidy body.
Proof.
  intros Ho Hf. assert (put name line body = match line with Some l => if is_nil (props name body) then add l body else replace 0 name line body
                                             | None => replace 0 name line body end) as ->.
  { unfold put. destruct line; [|done]. by destruct (props name body). }
  assert ((line = None \/ props name body <> []) ->
    (forall d, nest d (replace 0 name line body) = nest d body) /\
    (forall n, props n (replace 0 name line body) = if bool_decide (n = name) then option_list line else props n body) /\
    triggers (replace 0 name line body) = triggers body /\ tidy (replace 0 name line body) = tidy body) as Hrep.
  { intros Hne. split_and!.
    - intros d. by apply nest_replace.
    - intros n. unfold props. rewrite named_replace by done. case_bool_decide; [|done].
      destruct Hne as [->|Hne]; [by destruct (is_nil _)|]. unfold props in Hne. by destruct (named name (own_of 0 body)).
    - by apply triggers_replace.
    - by apply tidy_replace. }
  destruct line as [l|]; [|by apply Hrep; left]. destruct (is_nil (props name body)) eqn:E.
  - apply is_nil_true in E. destruct (ours_plain name l Ho (Hf _ eq_refl)) as (? & ? & ? & ? & ?). assert (plain l) by done. split_and!.
    + by apply nest_add.
    + intros n. unfold props. destruct (named_add l body n) as [Ha Hb]; [done|]. rewrite (is_named_eq name n l (Hf _ eq_refl)) in Ha, Hb.
      case_bool_decide as En; [|done]. subst n. by apply Hb.
    + by apply triggers_add.
    + by apply tidy_add.
  - apply Hrep. right. intros En. by rewrite En in E.
Qed.

(** ** Alarms dropped, and one made *)

Definition no_alarm (body : list text) : Prop := Forall (fun l => starts_alarm l = false) body.

Lemma strip_spec body :
  (tidy_from None body = true -> no_alarm (strip false body) /\ tidy (strip false body) = true /\
     forall d, nest d (strip false body) = nest d body /\ own_of d (strip false body) = own_of d body) /\
  (forall e, tidy_from (Some e) body = true -> no_alarm (strip true body) /\ tidy (strip true body) = true /\
     forall d, nest d (strip true body) = nest (S (e + d)) body /\ own_of d (strip true body) = own_of (S (e + d)) body).
Proof.
  induction body as [|l body [IH1 IH2]]; [split; [by repeat constructor|done]|]. split.
  - cbn [tidy_from strip]. destruct (starts_alarm l) eqn:Es.
    + intros Ht. destruct (IH2 _ Ht) as (Ha & Hti & Hd). split_and!; [done|done|]. intros d. cbn [nest own_of].
      rewrite (starts_alarm_opens l Es). apply Hd.
    + intros [He Ht]%andb_true_iff. destruct (IH1 Ht) as (Ha & Hti & Hd). split_and!.
      * by constructor.
      * unfold tidy. cbn [tidy_from]. by rewrite Es, He.
      * intros d. cbn [nest own_of]. destruct (opens l); [apply Hd|]. destruct (closes l).
        -- split; [destruct d; [done|]|]; apply Hd.
        -- destruct (Hd d) as [-> ->]. done.
  - intros e. cbn [tidy_from strip]. destruct (ends_alarm l) eqn:Ee; cbn [negb].
    + intros [->%Nat.eqb_eq Ht]%andb_true_iff. destruct (IH1 Ht) as (Ha & Hti & Hd). split_and!; [done|done|]. intros d. cbn [nest own_of].
      destruct (ends_alarm_closes l Ee) as [-> ->]. cbn. rewrite ?Nat.sub_0_r. apply Hd.
    + destruct (starts_alarm l) eqn:Es; [done|]. intros Ht. cbn [nest own_of]. destruct (opens l).
      * destruct (IH2 _ Ht) as (Ha & Hti & Hd). split_and!; [done|done|]. intros d. apply Hd.
      * destruct (closes l).
        -- destruct e as [|e]; [done|]. destruct (IH2 _ Ht) as (Ha & Hti & Hd). split_and!; [done|done|]. intros d.
           cbn. rewrite ?Nat.sub_0_r. apply Hd.
        -- destruct (IH2 _ Ht) as (Ha & Hti & Hd). split_and!; [done|done|]. intros d. cbn [Nat.eqb]. apply Hd.
Qed.

Lemma drop_alarms body :
  (forall p q k, tidy_from None body = true -> k = length p ->
     foldl drop_alarm (p ++ body ++ q) (rev (alarms_from body k None)) = p ++ strip false body ++ q) /\
  (forall p a q e k, tidy_from (Some e) body = true -> k = length (p ++ a) ->
     foldl drop_alarm (p ++ a ++ body ++ q) (rev (alarms_from body k (Some (length p)))) = p ++ strip true body ++ q).
Proof.
  induction body as [|l body [IH1 IH2]]; [by split|]. split.
  - intros p q k Ht Hk. cbn [tidy_from strip alarms_from] in *. fold (starts_alarm l). fold (ends_alarm l).
    destruct (starts_alarm l) eqn:Es.
    + specialize (IH2 p [l] q 0%nat (S k) Ht). subst k. apply IH2. rewrite length_app. cbn. lia.
    + apply andb_true_iff in Ht as [He Ht]. apply negb_true_iff in He. rewrite He.
      specialize (IH1 (p ++ [l]) q (S k) Ht). rewrite <- !app_assoc in IH1. apply IH1. rewrite length_app, Hk. cbn. lia.
  - intros p a q e k Ht Hk. cbn [tidy_from strip alarms_from] in *. fold (starts_alarm l). fold (ends_alarm l).
    destruct (ends_alarm l) eqn:Ee.
    + apply andb_true_iff in Ht as [_ Ht].
      assert (starts_alarm l = false) as ->.
      { destruct (starts_alarm l) eqn:Es; [|done]. apply starts_alarm_opens in Es. apply ends_alarm_closes in Ee as [Ee _]. congruence. }
      cbn [negb rev]. rewrite foldl_app. cbn [foldl]. specialize (IH1 (p ++ a ++ [l]) q (S k) Ht). rewrite <- !app_assoc in IH1.
      cbn [app] in *. rewrite IH1 by (rewrite Hk, !length_app; cbn; lia). unfold drop_alarm. cbn [begin_ end_].
      rewrite take_app_length. f_equal. rewrite Hk. replace (p ++ a ++ l :: strip false body ++ q) with ((p ++ a ++ [l]) ++ strip false body ++ q) by by rewrite <- !app_assoc.
      rewrite drop_app_length'; [done|]. rewrite !length_app. cbn. lia.
    + destruct (starts_alarm l) eqn:Es; [done|]. cbn [negb].
      assert (exists e', tidy_from (Some e') body = true) as [e' Ht'] by (repeat case_match; eauto; done).
      specialize (IH2 p (a ++ [l]) q e' (S k) Ht'). rewrite <- !app_assoc in IH2. apply IH2. rewrite Hk, !length_app. cbn. lia.
Qed.

Lemma nest_app a b d d' : nest d a = Some d' -> nest d (a ++ b) = nest d' b.
Proof.
  revert d. induction a as [|l a IH]; intros d; cbn [nest app]; [by intros [= ->]|].
  destruct (opens l); [apply IH|]. destruct (closes l); [|apply IH]. destruct d; [done|]. apply IH.
Qed.

Lemma own_of_app a b d d' : nest d a = Some d' -> own_of d (a ++ b) = own_of d a ++ own_of d' b.
Proof.
  revert d. induction a as [|l a IH]; intros d; cbn [nest app own_of]; [by intros [= ->]|].
  destruct (opens l); [apply IH|]. destruct (closes l); [destruct d; [done|]; cbn; rewrite ?Nat.sub_0_r; apply IH|].
  intros Hn. rewrite (IH _ Hn). by destruct (Nat.eqb d 0).
Qed.

Lemma triggers_app a b : no_alarm a -> triggers (a ++ b) = triggers b.
Proof.
  unfold triggers. induction 1 as [|l a Hl Ha IH]; [done|]. cbn [app triggers_from]. rewrite Hl. by destruct (ends_alarm l).
Qed.

Lemma tidy_app a b : no_alarm a -> tidy a = true -> tidy (a ++ b) = tidy b.
Proof.
  unfold tidy. induction 1 as [|l a Hl Ha IH]; [done|]. cbn [app tidy_from]. rewrite Hl. intros [-> Ht]%andb_true_iff. by apply IH.
Qed.
End VtodoBody.

(** * What is written of a task is what is read

    Of the routines of [Vtodo], through [VtodoBody]: an object changed here
    reads as what was written, whatever else it holds, and keeps every line
    of a property that was not changed. *)

#[local] Open Scope Z_scope.

Module VtodoLaws.
Import Todo Vtodo VtodoBody.

(** ** An object and its one task *)

Record Frame := { f_pre : list text; f_begin : text; f_end : text; f_post : list text }.

Record framed (fr : Frame) : Prop := {
  fr_pre : Forall (fun l => begins_task l = false) (f_pre fr);
  fr_post : Forall (fun l => begins_task l = false) (f_post fr);
  fr_begin : begins_task (f_begin fr) = true;
  fr_end : opens (f_end fr) = false /\ closes (f_end fr) = true
}.

Definition whole (fr : Frame) (body : list text) : list text := f_pre fr ++ f_begin fr :: body ++ f_end fr :: f_post fr.

Definition span (fr : Frame) (body : list text) : Span :=
  {| begin_ := length (f_pre fr); end_ := S (length (f_pre fr) + length body) |}.

(** The lines are a task with others, and it is no exception of a series. *)
Definition sound (body : list text) : Prop := balanced body /\ props (lit "RECURRENCE-ID") body = [].

Definition seen (name : text) (body : list text) : option text := hd_error (props name body).

Definition complex (body : list text) : bool :=
  (1 <? length (props (lit "RRULE") body))%nat || negb (is_nil (props (lit "RDATE") body)) || negb (is_nil (props (lit "EXDATE") body)).

Section Whole.
Context (fr : Frame) (HF : framed fr).

Lemma whole_app body : whole fr body = (f_pre fr ++ [f_begin fr]) ++ body ++ f_end fr :: f_post fr.
Proof. unfold whole. by rewrite <- app_assoc. Qed.

Lemma length_head : S (length (f_pre fr)) = length (f_pre fr ++ [f_begin fr]).
Proof. rewrite length_app. cbn. lia. Qed.

Lemma inside_whole body : inside (whole fr body) (span fr body) = body.
Proof.
  unfold inside. cbn [begin_ end_ span]. rewrite whole_app, length_head, drop_app_length.
  replace (_ - _)%nat with (length body) by (rewrite <- length_head; lia). by rewrite take_app_length.
Qed.

Lemma own_lines_whole body : own_lines (whole fr body) (span fr body) = own_of 0 body.
Proof.
  unfold own_lines, own. rewrite inside_whole. cbn [begin_ span]. rewrite whole_app. apply own_from_of, length_head.
Qed.

Lemma triggers_whole body : trigger_of (whole fr body) <$> alarms (whole fr body) (span fr body) = triggers body.
Proof.
  unfold alarms, triggers. rewrite inside_whole. cbn [begin_ span]. rewrite whole_app.
  apply alarms_from_triggers; [apply length_head|done].
Qed.

Lemma todos_skip all ls rest : forall i, todos_from all (ls ++ rest) i (length ls) = todos_from all rest (i + length ls) 0.
Proof.
  induction ls as [|l ls IH]; intros i; cbn [app length todos_from]; [by rewrite Nat.add_0_r|].
  rewrite IH. f_equal. lia.
Qed.

Lemma todos_none all ls rest : Forall (fun l => begins_task l = false) ls ->
  forall i, todos_from all (ls ++ rest) i 0 = todos_from all rest (i + length ls) 0.
Proof.
  induction 1 as [|l ls Hl Hls IH]; intros i; cbn [app length todos_from]; [by rewrite Nat.add_0_r|].
  rewrite Hl, IH. f_equal. lia.
Qed.

Lemma existsb_named name (ls : list text) : existsb (is_named name) ls = negb (is_nil (named name ls)).
Proof. induction ls as [|l ls IH]; [done|]. rewrite named_cons. cbn [existsb]. by destruct (is_named name l). Qed.

Lemma close_whole body : balanced body -> forall k,
  close_from (f_begin fr :: body ++ f_end fr :: f_post fr) k 0 = Some (S (k + length body)).
Proof.
  intros Hb k. cbn [close_from]. rewrite (begins_task_opens _ (fr_begin fr HF)). rewrite (close_nest _ _ _ 0 0 Hb).
  cbn [close_from]. destruct (fr_end fr HF) as [-> ->]. done.
Qed.

Lemma todos_whole body : balanced body ->
  todos (whole fr body) = Ok [(span fr body, negb (is_nil (props (lit "RECURRENCE-ID") body)))].
Proof.
  intros Hb. unfold todos. generalize (eq_refl (whole fr body)). generalize (whole fr body) at 1 3. intros all Hall. unfold whole.
  assert (existsb (fun k => is_named (lit "RECURRENCE-ID") (line_at all k)) (own all (span fr body)) =
    negb (is_nil (props (lit "RECURRENCE-ID") body))) as Hex.
  { rewrite Hall. unfold props. rewrite <- existsb_named, <- own_lines_whole. unfold own_lines. clear.
    induction (own _ _) as [|k ks IH]; [done|]. cbn [existsb fmap list_fmap]. by rewrite IH. }
  rewrite (todos_none all _ _ (fr_pre fr HF)). cbn [todos_from Nat.add]. rewrite (fr_begin fr HF), close_whole by done.
  replace (S (length (f_pre fr) + length body) - length (f_pre fr))%nat with (length (body ++ [f_end fr])) by (rewrite length_app; cbn; lia).
  replace (body ++ f_end fr :: f_post fr) with ((body ++ [f_end fr]) ++ f_post fr) by by rewrite <- app_assoc.
  rewrite todos_skip. rewrite <- (app_nil_r (f_post fr)), (todos_none all _ _ (fr_post fr HF)). cbn [todos_from mbind result_bind].
  change {| begin_ := length (f_pre fr); end_ := S (length (f_pre fr) + length body) |} with (span fr body). by rewrite Hex.
Qed.

Lemma master_whole body : sound body -> master (whole fr body) = Ok (span fr body, complex body).
Proof.
  intros [Hb Hr]. unfold master. rewrite todos_whole by done. rewrite Hr.
  cbn [mbind result_bind is_nil negb find_by List.find snd]. rewrite own_lines_whole. do 2 f_equal. unfold complex.
  change ((1 <? length [(span fr body, false)])%nat) with false. cbn [orb]. rewrite <- orb_assoc. f_equal. unfold props. rewrite <- !existsb_named. induction (own_of 0 body) as [|l ls IH]; [done|]. cbn [existsb].
  rewrite IH. by destruct (is_named (lit "RDATE") l), (is_named (lit "EXDATE") l), (existsb (is_named (lit "RDATE")) ls), (existsb (is_named (lit "EXDATE")) ls).
Qed.

Lemma add_place new body : add new body =
  match list_find (fun l => opens l = true) body with
  | Some (i, _) => take i body ++ new :: drop i body
  | None => body ++ [new]
  end.
Proof.
  induction body as [|l body IH]; [done|]. cbn [add list_find]. case_decide as E; [by rewrite E|].
  apply not_true_is_false in E. rewrite E, IH. destruct (list_find _ body) as [[i y]|]; done.
Qed.

Lemma set_whole name line body : sound body -> ours name = true -> fits name line ->
  set name line (whole fr body) = Ok (whole fr (put name line body)).
Proof.
  intros Hs Ho Hf. unfold set. rewrite master_whole by done. cbn [mbind result_bind].
  assert (matching (whole fr body) (span fr body) name = found (whole fr body) body (S (length (f_pre fr))) 0 name) as ->.
  { unfold matching, found, own. by rewrite inside_whole. }
  assert (remove_all (found (whole fr body) body (S (length (f_pre fr))) 0 name) (whole fr body) = whole fr (replace 0 name None body)) as Hrem.
  { rewrite !whole_app. apply remove_all_replace, length_head. }
  unfold put. destruct line as [l|]; [|by rewrite Hrem].
  destruct (found _ body _ 0 name) as [|k ks] eqn:Ef.
  - assert (props name body = []) as ->.
    { rewrite whole_app in Ef. eapply found_nil; [|exact Ef]. apply length_head. }
    rewrite add_place. unfold place. rewrite inside_whole. cbn [begin_ end_ span]. f_equal.
    assert (forall i, (i <= length body)%nat -> insert_at (S (length (f_pre fr) + i)) [l] (whole fr body) = whole fr (take i body ++ l :: drop i body)) as Hins.
    { intros i Hi. unfold insert_at. rewrite !whole_app.
      replace (S (length (f_pre fr) + i))%nat with (length ((f_pre fr ++ [f_begin fr]) ++ take i body)).
      2: { rewrite length_app, <- length_head, length_take. lia. }
      rewrite <- (take_drop i body) at 2 4. rewrite <- !app_assoc. rewrite !(app_assoc (f_pre fr)), !(app_assoc (f_pre fr ++ [f_begin fr])).
      rewrite take_app_length, drop_app_length. by rewrite <- !app_assoc. }
    destruct (list_find _ body) as [[i y]|] eqn:El.
    + apply list_find_Some in El as (Hi%lookup_lt_Some & _). apply Hins. lia.
    + rewrite Hins by lia. by rewrite take_ge, drop_ge by lia.
  - destruct (props name body) as [|x xs] eqn:Ep.
    + apply (found_nil body _ (f_end fr :: f_post fr) _ 0 name length_head) in Ep. rewrite <- whole_app in Ep. congruence.
    + f_equal. rewrite !whole_app in *. eapply set_first; [apply length_head|]. exact Ef.
Qed.

Lemma get_own_whole name body : sound body -> get_own name (whole fr body) = Ok (seen name body).
Proof.
  intros Hs. unfold get_own. rewrite master_whole by done. cbn [mbind result_bind]. rewrite own_lines_whole. f_equal. apply find_by_filter.
Qed.

Lemma relative_whole body : sound body ->
  first_alarm_is_relative (whole fr body) = Ok (is_some_and (fun t => negb (is_fixed t)) (hd_error (triggers body) ≫= fun t => t)).
Proof.
  intros Hs. unfold first_alarm_is_relative. rewrite master_whole by done. cbn [mbind result_bind]. rewrite <- triggers_whole.
  f_equal. by destruct (alarms _ _).
Qed.

Lemma strip_whole body : tidy body = true ->
  foldl drop_alarm (whole fr body) (rev (alarms (whole fr body) (span fr body))) = whole fr (strip false body).
Proof.
  intros Ht. unfold alarms. rewrite inside_whole. cbn [begin_ span]. rewrite !whole_app.
  destruct (drop_alarms body) as [Hd _]. apply Hd; [done|apply length_head].
Qed.
End Whole.

(** Every object with one task in it is of this shape. *)
Lemma close_inv ls : forall k d e, close_from ls k (S d) = Some e -> exists body el post,
  ls = body ++ el :: post /\ nest d body = Some 0%nat /\ opens el = false /\ closes el = true /\ e = (k + length body)%nat.
Proof.
  induction ls as [|l ls IH]; intros k d e Hc; [done|]. cbn [close_from] in Hc. destruct (opens l) eqn:Eo.
  - destruct (IH _ _ _ Hc) as (body & el & post & -> & Hn & H1 & H2 & ->). exists (l :: body), el, post.
    cbn [nest]. rewrite Eo. split_and!; try done. cbn. lia.
  - destruct (closes l) eqn:Ec.
    + cbn in Hc. destruct d as [|d]; cbn in Hc; [injection Hc as <-; exists [], l, ls; split_and!; try done; cbn; lia|].
      destruct (IH _ _ _ Hc) as (body & el & post & -> & Hn & H1 & H2 & ->). exists (l :: body), el, post.
      cbn [nest]. rewrite Eo, Ec. split_and!; try done. cbn. lia.
    + destruct (IH _ _ _ Hc) as (body & el & post & -> & Hn & H1 & H2 & ->). exists (l :: body), el, post.
      cbn [nest]. rewrite Eo, Ec. split_and!; try done. cbn. lia.
Qed.

Lemma todos_inv all ls : forall i fs, todos_from all ls i 0 = Ok fs ->
  (fs = [] /\ Forall (fun l => begins_task l = false) ls) \/
  exists pre bl body el post f fs' j, ls = pre ++ bl :: body ++ el :: post /\ Forall (fun l => begins_task l = false) pre /\
    begins_task bl = true /\ balanced body /\ opens el = false /\ closes el = true /\ fs = f :: fs' /\ todos_from all post j 0 = Ok fs'.
Proof.
  induction ls as [|l ls IH]; intros i fs Ht; [left; by injection Ht as <-|]. cbn [todos_from] in Ht. destruct (begins_task l) eqn:Eb.
  - right. cbn [close_from] in Ht. rewrite (begins_task_opens _ Eb) in Ht. destruct (close_from ls (S i) 1) as [e|] eqn:Ec; [|done].
    destruct (close_inv _ _ _ _ Ec) as (body & el & post & -> & Hn & H1 & H2 & ->). apply bind_Ok in Ht as (fs' & Ht & Hfs).
    replace (S i + length body - i)%nat with (length (body ++ [el])) in Ht by (rewrite length_app; cbn; lia).
    replace (body ++ el :: post) with ((body ++ [el]) ++ post) in Ht by by rewrite <- app_assoc.
    rewrite todos_skip in Ht. injection Hfs as <-. exists [], l, body, el, post. do 3 eexists. split_and!; try done; eauto.
  - destruct (IH _ _ Ht) as [[-> Hn]|(pre & bl & body & el & post & f & fs' & j & -> & Hp & Hrest)]; [left; split; [done|by constructor]|].
    right. exists (l :: pre), bl, body, el, post, f, fs', j. split_and!; try apply Hrest; [done|by constructor].
Qed.

Lemma master_inv lines s : master lines = Ok (s, false) -> exists fr body, framed fr /\ sound body /\ lines = whole fr body.
Proof.
  intros Hm. pose proof Hm as Hm'. unfold master in Hm. apply bind_Ok in Hm as (fs & Ht & Hm).
  destruct (find_by _ fs) as [[s' ex]|] eqn:Ef; [|done]. injection Hm as -> Hc. rewrite !orb_false_iff in Hc. destruct Hc as [[Hl _] _].
  unfold todos in Ht. destruct (todos_inv _ _ _ _ Ht) as [[-> _]|(pre & bl & body & el & post & f & fs' & j & Hls & Hp & Hbl & Hb & H1 & H2 & -> & Hpost)]; [done|].
  destruct fs' as [|f' fs']; [|done]. destruct (todos_inv _ _ _ _ Hpost) as [[_ Hpn]|(?&?&?&?&?&?&?&?&?&?&?&?&?&?&[=]&?)].
  set (fr := {| f_pre := pre; f_begin := bl; f_end := el; f_post := post |}). assert (framed fr) as HF by by split.
  exists fr, body. split; [done|]. split; [split; [done|]|exact Hls].
  unfold master in Hm'. rewrite Hls in Hm'. change (pre ++ bl :: body ++ el :: post) with (whole fr body) in Hm'.
  rewrite (todos_whole fr HF body Hb) in Hm'. destruct (props (lit "RECURRENCE-ID") body); [done|]. done.
Qed.
End VtodoLaws.

(** * The lines this client writes

    Each line [Vtodo] writes has the name and the value it is written with,
    and its value is read as what was written: texts, instants, dates and
    durations. *)

#[local] Open Scope Z_scope.

Module VtodoLines.
Import Todo Vtodo VtodoBody.

(** ** A head and a value *)

(** A head without quotes is read up to its colon. *)
Definition bare (h : text) : bool := forallb (fun c => negb (c =? 34) && negb (c =? 58)) h.

Lemma colon_bare h v : bare h = true -> colon (h ++ 58 :: v) = Some (length h).
Proof.
  unfold colon. induction h as [|c h IH]; [done|]. cbn [bare forallb app colon_from length]. intros [Hc Hh]%andb_true_iff. bools in Hc. destruct Hc as [H1 H2].
  apply Z.eqb_neq in H1, H2. rewrite H1, H2. cbn [andb]. by rewrite IH.
Qed.

Lemma value_of_bare h v : bare h = true -> value_of (h ++ 58 :: v) = v.
Proof.
  intros Hh. unfold value_of. rewrite colon_bare by done.
  replace (S (length h)) with (length (h ++ [58])) by (rewrite length_app; cbn; lia).
  replace (h ++ 58 :: v) with ((h ++ [58]) ++ v) by by rewrite <- app_assoc. apply drop_app_length.
Qed.

Definition head_name (h : text) : text := to_ascii_uppercase (trim (unwrap_or [] (hd_error (split_char 59 h)))).

Lemma name_of_bare h v : bare h = true -> name_of (h ++ 58 :: v) = head_name h.
Proof. intros Hh. unfold name_of. rewrite colon_bare by done. cbn [unwrap_or]. by rewrite take_app_length. Qed.

Lemma param_bare h v key : bare h = true -> param (h ++ 58 :: v) key = param_in key (tail (split_char 59 h)).
Proof. intros Hh. unfold param. rewrite colon_bare by done. cbn [mbind option_bind]. by rewrite take_app_length. Qed.

Lemma named_bare name h v : bare h = true -> head_name h = name -> is_named name (h ++ 58 :: v) = true.
Proof. intros Hh Hn. unfold is_named. rewrite name_of_bare by done. by apply bool_decide_eq_true. Qed.

(** The head of a line with another value. *)
Lemma colon_take line v : forall q i, colon_from q line = Some i ->
  colon_from q (take i line ++ 58 :: v) = Some i /\ take i (take i line ++ 58 :: v) = take i line.
Proof.
  induction line as [|c line IH]; intros q i; [done|]. cbn [colon_from].
  assert (forall q', S <$> colon_from q' line = Some i -> exists j, i = S j /\ colon_from q' line = Some j) as Hs.
  { intros q' Hq. destruct (colon_from q' line) as [j|]; [|done]. injection Hq as <-. eauto. }
  destruct (c =? 34) eqn:E1.
  - intros (j & -> & Hj)%Hs. destruct (IH _ _ Hj) as [H1 H2]. cbn [take app colon_from]. rewrite E1, H1. split; [done|]. cbn. by rewrite H2.
  - destruct ((c =? 58) && negb q) eqn:E2.
    + intros [= <-]. apply andb_true_iff in E2 as [_ Hq]. destruct q; [done|]. done.
    + intros (j & -> & Hj)%Hs. destruct (IH _ _ Hj) as [H1 H2]. cbn [take app colon_from]. rewrite E1, E2, H1. split; [done|]. cbn. by rewrite H2.
Qed.

Lemma name_of_take line i v : colon line = Some i -> name_of (take i line ++ 58 :: v) = name_of line.
Proof.
  intros Hc. destruct (colon_take line v false i Hc) as [H1 H2]. unfold name_of. change (colon (take i line ++ 58 :: v)) with (colon_from false (take i line ++ 58 :: v)).
  rewrite H1, Hc. cbn [unwrap_or]. by rewrite H2.
Qed.

(** ** Texts *)

Lemma unescape_escape s : unescape (Ics.escape s) = base.filter (fun c => c <> 13) s.
Proof.
  induction s as [|c s IH]; [done|]. change (Ics.escape (c :: s)) with (Ics.escape_char c ++ Ics.escape s).
  rewrite filter_cons. unfold Ics.escape_char.
  assert (c <> 92 -> unescape (c :: Ics.escape s) = c :: unescape (Ics.escape s)) as Hc.
  { intros Hc%Z.eqb_neq. cbn [unescape]. by rewrite Hc. }
  destruct (decide (c <> 13)) as [Hr|Hr]; [|assert (c = 13) as -> by lia; exact IH]. rewrite <- IH.
  repeat case_match; rewrite ?Z.eqb_eq, ?Z.eqb_neq in *; subst; try done. by apply Hc.
Qed.

Lemma filter_id (s : text) : 13 ∉ s -> base.filter (fun c => c <> 13) s = s.
Proof.
  induction s as [|c s IH]; [done|]. intros Hn%not_elem_of_cons. rewrite filter_cons, decide_True by naive_solver. by rewrite IH by naive_solver.
Qed.

(** ** Durations *)

Lemma show_negative n : n < 0 -> show_Z n = 45 :: show_Z (- n).
Proof. destruct n as [|p|p]; try lia. intros _. reflexivity. Qed.

Lemma duration_digits ds rest total number in_time : Forall (fun c => is_ascii_digit c = true) ds ->
  duration_from (ds ++ rest) total number in_time = duration_from rest total (number ++ ds) in_time.
Proof.
  intros Hd. revert number. induction Hd as [|c ds Hc Hds IH]; intros number; [by rewrite app_nil_r|]. cbn [app duration_from].
  destruct (Z.eqb_spec c 84) as [->|]; [done|]. rewrite Hc, IH. by rewrite <- app_assoc.
Qed.

Definition small (n : Z) : Prop := - 2 ^ 62 <= n < 2 ^ 62.

Lemma wrap_small n : - 2 ^ 63 <= n < 2 ^ 63 -> wrap_i64 n = n.
Proof. intros Hn. unfold wrap_i64. rewrite Z.mod_small; lia. Qed.

Lemma wrap_wrap_add a b : wrap_i64 (a + wrap_i64 b) = wrap_i64 (a + b).
Proof.
  unfold wrap_i64. f_equal. replace (a + ((b + 2 ^ 63) mod 2 ^ 64 - 2 ^ 63) + 2 ^ 63) with (a + (b + 2 ^ 63) mod 2 ^ 64) by lia.
  rewrite Zplus_mod_idemp_r. f_equal. lia.
Qed.

Lemma parse_show n : 0 <= n < 2 ^ 63 -> parse_i64 (show_Z n) = Some n.
Proof. intros Hn. apply parse_signed_show. lia. Qed.

Lemma duration_unit m u in_time : 0 <= m < 2 ^ 63 -> u <> 84 -> is_ascii_digit u = false ->
  duration_from (show_Z m ++ [u]) 0 [] in_time = (k ← unit_seconds u in_time m; Some (wrap_i64 k)).
Proof.
  intros Hm Hu Hd. rewrite duration_digits by (apply show_Z_digits; lia). cbn [app duration_from].
  apply Z.eqb_neq in Hu. rewrite Hu, Hd, parse_show by done. cbn [mbind option_bind]. by destruct (unit_seconds u in_time m).
Qed.

Lemma not_blank s : Forall (fun c => is_ascii_digit c = true) s -> Forall (fun c => is_whitespace c = false) s.
Proof.
  intros Hs. eapply Forall_impl; [exact Hs|]. intros c. unfold is_ascii_digit, is_whitespace. bools. lia.
Qed.

(** The parts of a duration: its sign, and what follows the [P]. *)
Lemma duration_signed k body total : Forall (fun c => is_whitespace c = false) body ->
  duration_from body 0 [] false = Some total ->
  duration ((if k <? 0 then lit "-" else []) ++ lit "P" ++ body) = Some (wrap_i64 ((if k <? 0 then -1 else 1) * total)).
Proof.
  intros Hb Hd. unfold duration. rewrite trim_id.
  2: { apply Forall_app_2; [destruct (k <? 0); by repeat constructor|]. apply Forall_app_2; [by repeat constructor|done]. }
  destruct (k <? 0).
  - change (strip_prefix (lit "-") (lit "-" ++ lit "P" ++ body)) with (Some (lit "P" ++ body)). cbn iota beta.
    change (strip_prefix (lit "P") (lit "P" ++ body)) with (Some body). cbn [mbind option_bind]. by rewrite Hd.
  - change (strip_prefix (lit "-") ([] ++ lit "P" ++ body)) with (@None text). cbn iota beta.
    change (strip_prefix (lit "+") ([] ++ lit "P" ++ body)) with (@None text). cbn [unwrap_or app].
    change (strip_prefix (lit "P") (lit "P" ++ body)) with (Some body). cbn [mbind option_bind]. by rewrite Hd.
Qed.

Lemma duration_back k : small k -> duration (duration_text k) = Some k.
Proof.
  unfold small. intros Hk. unfold duration_text.
  assert (forall u t m n, (u =? 84) = false -> is_ascii_digit u = false -> is_whitespace u = false -> 0 <= m -> m * n = Z.abs k -> 0 < n ->
    unit_seconds u t m = Some (wrap_i64 (m * n)) ->
    duration_from (show_Z m ++ [u]) 0 [] t = Some (Z.abs k) /\ Forall (fun c => is_whitespace c = false) (show_Z m ++ [u])) as Hunit.
  { intros u t m n Hu Hd Hw Hm Hmn Hn Hs. split.
    - rewrite duration_unit, Hs; [|nia|by apply Z.eqb_neq|done]. cbn. f_equal. rewrite (wrap_small (m * n)) by lia. rewrite wrap_small by lia. lia.
    - apply Forall_app_2; [by apply not_blank, show_Z_digits; lia|by repeat constructor]. }
  assert ((if k <? 0 then -1 else 1) * Z.abs k = k) as Hsign by (destruct (Z.ltb_spec k 0); lia).
  assert (forall body, Forall (fun c => is_whitespace c = false) body -> duration_from body 0 [] false = Some (Z.abs k) ->
    duration ((if k <? 0 then lit "-" else []) ++ lit "P" ++ body) = Some k) as Hall.
  { intros body Hb Hd. rewrite (duration_signed k body _ Hb Hd), Hsign. f_equal. apply wrap_small. lia. }
  destruct (Z.eqb_spec (Z.abs k) 0) as [Hz|Hz]; [assert (k = 0) as -> by lia; reflexivity|].
  destruct (Z.eqb_spec (Z.abs k mod 86400) 0) as [Hday|_].
  - destruct (Hunit 68 false (Z.abs k / 86400) 86400) as [Hd Hb]; try done; [apply Z.div_pos; lia|rewrite Z.mul_comm; symmetry; apply Z_div_exact_full_2; lia|by apply Hall].
  - destruct (Z.eqb_spec (Z.abs k mod 60) 0) as [Hmin|_].
    + destruct (Hunit 77 true (Z.abs k / 60) 60) as [Hd Hb]; try done; [apply Z.div_pos; lia|rewrite Z.mul_comm; symmetry; apply Z_div_exact_full_2; lia|].
      apply (Hall (84 :: show_Z (Z.abs k / 60) ++ [77])); [by constructor|done].
    + destruct (Hunit 83 true (Z.abs k) 1) as [Hd Hb]; try done; [lia|lia|cbn; rewrite wrap_small by lia; f_equal; lia|].
      apply (Hall (84 :: show_Z (Z.abs k) ++ [83])); [by constructor|done].
Qed.

Lemma duration_chars k : Forall (fun c => is_whitespace c = false) (duration_text k).
Proof.
  assert (forall n, 0 <= n -> Forall (fun c => is_whitespace c = false) (show_Z n)) as Hn by (intros n Hn; by apply not_blank, show_Z_digits).
  assert (Forall (fun c => is_whitespace c = false) (if k <? 0 then lit "-" else [])) as Hs by (destruct (k <? 0); by repeat constructor).
  pose proof (Z.div_pos (Z.abs k) 86400 ltac:(lia) ltac:(lia)). pose proof (Z.div_pos (Z.abs k) 60 ltac:(lia) ltac:(lia)).
  unfold duration_text. repeat case_match; repeat apply Forall_app_2; try done; try (apply Hn; lia); by repeat constructor.
Qed.

(** ** Dates and times *)

Section Times.
Context `{C : Calendar} {CL : CalendarLaws C} `{Z0 : Zone} `{S : Stamps} {SL : RRule.StampLaws Z0 S} `{Zones}.

(** An instant in a year of four digits, and one that can be written as a
    due date: no midnight that comes twice, but the first. *)
Definition stampable (i : Z) : Prop := in_range (i / 86400 + Recurrence.epoch) /\ 0 <= year (i / 86400 + Recurrence.epoch) <= 9999.

Definition dueable (i : Z) : Prop := stampable i /\ forall n, Recurrence.local_of i = Some n -> n mod 86400 = 0 ->
  earliest n = Some i /\ in_range (n / 86400) /\ 0 <= year (n / 86400) <= 9999.

Lemma alnum_no_blank s : Forall (fun c => is_ascii_alphanumeric c = true) s -> Forall (fun c => is_whitespace c = false) s.
Proof. intros Hs. eapply Forall_impl; [exact Hs|]. intros c Hc. by apply RRule.plain_alnum in Hc as (? & _). Qed.

Lemma alnum_no_ten s : Forall (fun c => is_ascii_alphanumeric c = true) s -> 10 ∉ s.
Proof. intros Hs Hin. rewrite Forall_forall in Hs. by specialize (Hs _ Hin). Qed.

Lemma utc_alnum i : stampable i -> length (utc i) = 16%nat /\ Forall (fun c => is_ascii_alphanumeric c = true) (utc i) /\
  exists body, utc i = body ++ lit "Z" /\ read_time body = Some (i + 86400 * Recurrence.epoch).
Proof.
  intros [Hr Hy]. unfold utc, RRule.utc_of. rewrite bool_decide_eq_true_2 by done.
  assert ((i + 86400 * Recurrence.epoch) / 86400 = i / 86400 + Recurrence.epoch) as Hdiv.
  { replace (i + 86400 * Recurrence.epoch) with (i + Recurrence.epoch * 86400) by lia. by rewrite Z.div_add. }
  destruct (RRule.time_digits (i + 86400 * Recurrence.epoch)) as (Hread & Hl & Ha); [by rewrite Hdiv|by rewrite Hdiv|].
  split; [rewrite length_app, Hl; done|]. split; [apply Forall_app_2; [done|by repeat constructor]|]. eauto.
Qed.

Lemma utc_instant h i : bare h = true ->
  is_some_and (fun v => eq_ignore_ascii_case v (lit "DATE")) (param_in (lit "VALUE") (tail (split_char 59 h))) = false ->
  stampable i -> time_value (h ++ 58 :: utc i) = Some i.
Proof.
  intros Hh Hp Hi. destruct (utc_alnum i Hi) as (Hl & Ha & body & Hb & Hread). unfold time_value. rewrite value_of_bare by done.
  rewrite trim_id by by apply alnum_no_blank. unfold is_date, param_is. rewrite param_bare, Hp by done.
  rewrite RRule.utf8_len_ascii, Hl by done. cbn [orb]. rewrite bool_decide_eq_false_2 by done. rewrite Hb.
  assert (strip_suffix (lit "Z") (body ++ lit "Z") = Some body) as ->.
  { unfold strip_suffix. rewrite (proj2 (ends_with_spec _ _)) by eauto. rewrite length_app, Nat.add_sub. by rewrite take_app_length. }
  rewrite Hread. cbn. f_equal. lia.
Qed.

Lemma split_at_ascii_all s n : Forall (fun c => is_ascii_alphanumeric c = true) s -> length s = n -> RRule.split_at n s = Ok (s, []).
Proof.
  intros Hs. revert n. induction Hs as [|c s Hc Hs IH]; intros n <-; [done|]. cbn [length RRule.split_at].
  assert (utf8_char_len c = 1%nat) as ->.
  { unfold is_ascii_alphanumeric, is_ascii_digit, is_ascii_upper, is_ascii_lower in Hc. unfold utf8_char_len. bools in Hc. by rewrite (proj2 (Z.ltb_lt c 128)) by lia. }
  cbn [Nat.leb Nat.sub]. rewrite Nat.sub_0_r, (IH _ eq_refl). done.
Qed.

(** A due date as it is written and read. *)
Lemma due_back i : dueable i -> time_value (due_line i) = Some i /\ time_value (lit "DTSTART" ++ drop 3 (due_line i)) = Some i /\
  exists h v, due_line i = lit "DUE" ++ h ++ 58 :: v /\ (h = [] \/ h = lit ";VALUE=DATE") /\ 10 ∉ v.
Proof.
  intros [Hs Hm]. assert (due_line i = lit "DUE:" ++ utc i ->
    time_value (due_line i) = Some i /\ time_value (lit "DTSTART" ++ drop 3 (due_line i)) = Some i /\
    exists h v, due_line i = lit "DUE" ++ h ++ 58 :: v /\ (h = [] \/ h = lit ";VALUE=DATE") /\ 10 ∉ v) as Hutc.
  { intros ->. split; [|split].
    - apply (utc_instant (lit "DUE")); done.
    - apply (utc_instant (lit "DTSTART")); done.
    - exists [], (utc i). split_and!; [done|by left|]. by apply alnum_no_ten, utc_alnum. }
  unfold due_line in *. destruct (Recurrence.local_of i) as [n|] eqn:El; [|by apply Hutc].
  destruct (Z.eqb_spec (n mod 86400) 0) as [Hz|]; [|by apply Hutc]. destruct (Hm n eq_refl Hz) as (He & Hr & Hy). clear Hutc.
  destruct (RRule.date_digits _ Hr Hy) as (Hread & Hl & Ha). unfold Recurrence.date_of.
  assert (forall h, bare h = true -> is_some_and (fun v => eq_ignore_ascii_case v (lit "DATE")) (param_in (lit "VALUE") (tail (split_char 59 h))) = true ->
    time_value (h ++ 58 :: show_date (n / 86400)) = Some i) as Hdate.
  { intros h Hh Hp. unfold time_value. rewrite value_of_bare by done. rewrite trim_id by by apply alnum_no_blank.
    unfold is_date, param_is. rewrite param_bare, Hp by done. cbn [orb]. unfold first_eight. rewrite split_at_ascii_all by done.
    cbn [ok fmap option_fmap option_map fst mbind option_bind]. rewrite Hread. cbn [mbind option_bind].
    replace (n / 86400 * 86400) with n; [done|]. rewrite Z.mul_comm. apply Z_div_exact_full_2; lia. }
  split; [|split].
  - by apply (Hdate (lit "DUE;VALUE=DATE")).
  - by apply (Hdate (lit "DTSTART;VALUE=DATE")).
  - exists (lit ";VALUE=DATE"), (show_date (n / 86400)). split_and!; [done|by right|]. by apply alnum_no_ten.
Qed.
End Times.
End VtodoLines.
