(* ===== verification/VtodoWrite.v ===== *)
(** * Writing over a task

    What each part of [Vtodo.apply] leaves as it was ([steps]) and what it
    writes, for a task anywhere in an object. *)
From S2P Require Import Prelude Text Calendar Recurrence RRule Tasks Ics Todo Vtodo VtodoBody.
#[local] Open Scope Z_scope.

Module VtodoWrite.
Import Todo Vtodo VtodoBody VtodoLaws VtodoLines.

(** ** The lines of other properties *)

(** The lines but the task's own properties of the names given. *)
Fixpoint rest (d : nat) (ns : list text) (body : list text) : list text :=
  match body with
  | [] => []
  | l :: b =>
      if opens l then l :: rest (S d) ns b
      else if closes l then l :: rest (d - 1) ns b
      else if Nat.eqb d 0 && bool_decide (name_of l ∈ ns) then rest d ns b
      else l :: rest d ns b
  end.

Lemma named_in name l (ns : list text) : is_named name l = true -> name ∈ ns -> bool_decide (name_of l ∈ ns) = true.
Proof. unfold is_named. intros <-%bool_decide_eq_true Hin. by apply bool_decide_eq_true. Qed.

Lemma rest_drop name l ns b : ours name = true -> is_named name l = true -> name ∈ ns -> rest 0 ns (l :: b) = rest 0 ns b.
Proof.
  intros Ho Hl Hin. destruct (ours_plain name l Ho Hl) as (H1 & H2 & _). cbn [rest]. rewrite H1, H2.
  by rewrite (named_in name l ns Hl Hin).
Qed.

Lemma rest_replace body : forall d name line ns, ours name = true -> fits name line -> name ∈ ns ->
  rest d ns (replace d name line body) = rest d ns body.
Proof.
  induction body as [|l body IH]; intros d name line ns Ho Hf Hin; [done|]. cbn [replace].
  assert (fits name None) as Hf0 by by intros ? [=].
  destruct (opens l) eqn:E1; [cbn [rest]; rewrite E1; f_equal; by apply IH|].
  destruct (closes l) eqn:E2; [cbn [rest]; rewrite E1, E2; f_equal; by apply IH|].
  destruct (Nat.eqb d 0) eqn:E3; cbn [andb]; [|cbn [rest]; rewrite E1, E2, E3; cbn [andb]; f_equal; by apply IH].
  apply Nat.eqb_eq in E3 as ->. destruct (is_named name l) eqn:E4.
  - rewrite (rest_drop name l) by done. destruct line as [new|]; [|by apply IH]. rewrite (rest_drop name new) by (done || by apply Hf). by apply IH.
  - cbn [rest]. rewrite E1, E2. cbn [Nat.eqb andb]. case_bool_decide; [|f_equal]; by apply IH.
Qed.

Lemma strip_replace body : forall name line ns, ours name = true -> fits name line -> name ∈ ns ->
  (tidy_from None body = true -> forall d, rest d ns (strip false (replace d name line body)) = rest d ns (strip false body)) /\
  (forall e, tidy_from (Some e) body = true ->
     forall d, rest d ns (strip true (replace (S (e + d)) name line body)) = rest d ns (strip true body)).
Proof.
  induction body as [|l body IH]; intros name line ns Ho Hf Hin; [done|].
  assert (fits name None) as Hf0 by by intros ? [=]. destruct (IH name line ns Ho Hf Hin) as [IH1 IH2]. split.
  - cbn [tidy_from replace]. destruct (starts_alarm l) eqn:Es.
    + intros Ht d. rewrite (starts_alarm_opens l Es). cbn [strip]. rewrite Es. apply (IH2 _ Ht).
    + intros [He Ht]%andb_true_iff d.
      assert (forall d', strip false (l :: replace d' name line body) = l :: strip false (replace d' name line body)) as Hs by (intros d'; cbn [strip]; by rewrite Es).
      assert (strip false (l :: body) = l :: strip false body) as Hs0 by (cbn [strip]; by rewrite Es). rewrite Hs0.
      destruct (opens l) eqn:E1; [rewrite Hs; cbn [rest]; rewrite E1; f_equal; by apply IH1|].
      destruct (closes l) eqn:E2; [rewrite Hs; cbn [rest]; rewrite E1, E2; f_equal; by apply IH1|].
      destruct (Nat.eqb d 0) eqn:E3; cbn [andb]; [|rewrite Hs; cbn [rest]; rewrite E1, E2, E3; cbn [andb]; f_equal; by apply IH1].
      apply Nat.eqb_eq in E3 as ->. destruct (is_named name l) eqn:E4.
      * rewrite (rest_drop name l) by done. destruct (IH name None ns Ho Hf0 Hin) as [IH0 _]. destruct line as [new|]; [|by apply IH0].
        destruct (ours_plain name new Ho (Hf _ eq_refl)) as (_ & _ & N1 & _). cbn [strip]. rewrite N1. rewrite (rest_drop name new) by (done || by apply Hf). by apply IH0.
      * rewrite Hs. cbn [rest]. rewrite E1, E2. cbn [Nat.eqb andb]. case_bool_decide; [|f_equal]; by apply IH1.
  - intros e. cbn [tidy_from replace]. destruct (ends_alarm l) eqn:Ee.
    + intros [->%Nat.eqb_eq Ht]%andb_true_iff d. destruct (ends_alarm_closes l Ee) as [-> ->]. cbn [strip]. rewrite Ee. cbn [negb]. cbn. rewrite ?Nat.sub_0_r. by apply IH1.
    + destruct (starts_alarm l) eqn:Es; [done|]. intros Ht d. assert (forall x, strip true (l :: x) = strip true x) as Hs by (intros x; cbn [strip]; by rewrite Ee).
      destruct (opens l); [rewrite !Hs; apply (IH2 (S e) Ht)|]. destruct (closes l).
      * destruct e as [|e]; [done|]. rewrite !Hs. cbn. rewrite ?Nat.sub_0_r. apply (IH2 e Ht).
      * cbn [Nat.eqb andb]. rewrite !Hs. apply (IH2 e Ht).
Qed.

Lemma rest_add new body name ns : ours name = true -> is_named name new = true -> name ∈ ns -> rest 0 ns (add new body) = rest 0 ns body.
Proof.
  intros Ho Hn Hin. induction body as [|l body IH]; cbn [add]; [by rewrite (rest_drop name)|].
  destruct (opens l) eqn:E; [by rewrite (rest_drop name)|]. cbn [rest Nat.sub]. rewrite E. destruct (closes l); [by rewrite IH|].
  cbn [Nat.eqb andb]. by rewrite IH.
Qed.

Lemma strip_add new body name ns : ours name = true -> is_named name new = true -> name ∈ ns ->
  rest 0 ns (strip false (add new body)) = rest 0 ns (strip false body).
Proof.
  intros Ho Hn Hin. destruct (ours_plain name new Ho Hn) as (_ & _ & N1 & _).
  assert (forall b, rest 0 ns (strip false (new :: b)) = rest 0 ns (strip false b)) as Hnew.
  { intros b. cbn [strip]. rewrite N1. by apply (rest_drop name). }
  induction body as [|l body IH]; cbn [add]; [apply Hnew|]. destruct (opens l) eqn:E; [apply Hnew|]. cbn [strip].
  destruct (starts_alarm l) eqn:Es; [apply starts_alarm_opens in Es; congruence|]. cbn [rest Nat.sub]. rewrite E.
  destruct (closes l); [by rewrite IH|]. cbn [Nat.eqb andb]. by rewrite IH.
Qed.

(** ** Steps *)

Definition good (body : list text) : Prop := Forall (fun l => Ics.good_line l /\ Ics.begins_blank l = false) body.
Definition good_opt (line : option text) : Prop := forall l, line = Some l -> Ics.good_line l /\ Ics.begins_blank l = false.

(** [body'] is [body] with the properties of the names given changed, and its
    alarms only with [alarmed]. *)
Record steps (alarmed : bool) (ns : list text) (body body' : list text) : Prop := {
  st_balanced : balanced body -> balanced body';
  st_props : forall n, n ∉ ns -> props n body' = props n body;
  st_triggers : alarmed = false -> triggers body' = triggers body;
  st_tidy : tidy body = true -> tidy body' = true;
  st_rest : tidy body = true -> forall ms, (forall n, n ∈ ns -> n ∈ ms) ->
    (alarmed = false -> rest 0 ms body' = rest 0 ms body) /\ rest 0 ms (strip false body') = rest 0 ms (strip false body);
  st_good : good body -> good body'
}.

Lemma steps_refl b : steps false [] b b.
Proof. by split. Qed.

Lemma steps_trans a1 a2 ns1 ns2 b1 b2 b3 : steps a1 ns1 b1 b2 -> steps a2 ns2 b2 b3 -> steps (a1 || a2) (ns1 ++ ns2) b1 b3.
Proof.
  intros S1 S2. split.
  - intros Hb. by apply S2, S1.
  - intros n [H1 H2]%not_elem_of_app. rewrite (st_props _ _ _ _ S2), (st_props _ _ _ _ S1) by done. done.
  - intros [-> ->]%orb_false_iff. rewrite (st_triggers _ _ _ _ S2), (st_triggers _ _ _ _ S1) by done. done.
  - intros Ht. by apply S2, S1.
  - intros Ht ms Hms. pose proof (st_tidy _ _ _ _ S1 Ht) as Ht2.
    destruct (st_rest _ _ _ _ S1 Ht ms ltac:(set_solver)) as [H1 H2]. destruct (st_rest _ _ _ _ S2 Ht2 ms ltac:(set_solver)) as [H3 H4].
    split; [|by rewrite H4]. intros [-> ->]%orb_false_iff. by rewrite H3, H1.
  - intros Hg. by apply S2, S1.
Qed.

(** More may be said to change. *)
Lemma steps_weaken a ns ns' b b' : steps a ns b b' -> (forall n, n ∈ ns -> n ∈ ns') -> steps a ns' b b'.
Proof. intros [] Hn. split; eauto. Qed.

Lemma good_put name line body : good body -> good_opt line -> good (put name line body).
Proof.
  intros Hg Hl. assert (forall d line, good_opt line -> good (replace d name line body)) as Hr.
  { clear Hl line. induction Hg as [|l body Hx Hg IH]; intros d line Hl; [constructor|]. cbn [replace].
    assert (good_opt None) by by intros ? [=].
    repeat case_match; try (constructor; [done|by apply IH]); [constructor; [by apply Hl|by apply IH]|by apply IH]. }
  unfold put. destruct line as [l|]; [|by apply Hr]. destruct (props name body); [|by apply Hr]. clear Hr. specialize (Hl _ eq_refl).
  induction Hg as [|x body Hx Hg IH]; cbn [add]; [constructor; [done|constructor]|]. destruct (opens x); [|by constructor].
  constructor; [done|by constructor].
Qed.

Lemma put_steps name line body : ours name = true -> fits name line -> good_opt line -> steps false [name] body (put name line body).
Proof.
  intros Ho Hf Hl. destruct (put_spec name line body Ho Hf) as (Hn & Hp & Ht & Hti). split.
  - unfold balanced. by rewrite Hn.
  - intros n Hin%not_elem_of_cons. rewrite Hp. rewrite bool_decide_eq_false_2; [done|]. by destruct Hin.
  - done.
  - by rewrite Hti.
  - intros Hb ms Hms. assert (name ∈ ms) as Hin by (apply Hms; set_solver). destruct (strip_replace body name line ms Ho Hf Hin) as [Hs _].
    unfold put. destruct line as [l|]; [|by split; [intros _; apply rest_replace|apply Hs]]. destruct (props name body).
    + split; [intros _; apply (rest_add _ _ name)|apply (strip_add _ _ name)]; try done; by apply Hf.
    + split; [intros _; by apply rest_replace|by apply Hs].
  - intros Hg. by apply good_put.
Qed.

Lemma sound_steps a ns b b' : steps a ns b b' -> lit "RECURRENCE-ID" ∉ ns -> sound b -> sound b'.
Proof. intros Hs Hn [Hb Hr]. split; [by apply Hs|]. by rewrite (st_props _ _ _ _ Hs). Qed.

Definition fine (b : list text) : Prop := sound b /\ good b /\ tidy b = true.

Lemma fine_steps a ns b b' : steps a ns b b' -> lit "RECURRENCE-ID" ∉ ns -> fine b -> fine b'.
Proof. intros Hs Hn (H1 & H2 & H3). split; [by eapply sound_steps|]. split; by apply Hs. Qed.

(** ** The parts of [apply] *)

Lemma seen_props name b line : props name b = option_list line -> seen name b = line.
Proof. unfold seen. intros ->. by destruct line. Qed.

Lemma own_sub b : forall d l, l ∈ own_of d b -> l ∈ b.
Proof.
  induction b as [|x b IH]; intros d l Hl; [done|]. cbn [own_of] in Hl. rewrite elem_of_cons.
  repeat case_match; try (right; by eapply IH). apply elem_of_cons in Hl as [->|Hl]; [by left|right; by eapply IH].
Qed.

Lemma seen_in name b l : seen name b = Some l -> l ∈ b /\ is_named name l = true.
Proof.
  unfold seen, props, named. intros Hh. assert (l ∈ base.filter (fun l => is_named name l = true) (own_of 0 b)) as Hl.
  { destruct (base.filter _ _); [done|]. injection Hh as ->. by left. }
  apply list_elem_of_filter in Hl as [Hn Hl]. split; [by eapply own_sub|done].
Qed.

(** A line of ours: a head without quotes, and a value of one line. *)
Lemma good_bare h v : bare h = true -> 10 ∉ h -> (match h with [] => false | c :: _ => negb (c =? 32) && negb (c =? 9) end) = true -> 10 ∉ v ->
  Ics.good_line (h ++ 58 :: v) /\ Ics.begins_blank (h ++ 58 :: v) = false.
Proof.
  intros _ Hh Hb Hv. destruct h as [|c h]; [done|]. split; [split; [done|]|].
  - intros [Hin|[Hin|Hin]%elem_of_cons]%elem_of_app; [by apply Hh|done|by apply Hv].
  - unfold Ics.begins_blank. cbn [starts_with app]. bools in Hb. rewrite !andb_true_r. apply orb_false_iff. rewrite !Z.eqb_neq. lia.
Qed.

Section Parts.
Context `{C : Calendar} {CL : CalendarLaws C} `{Z0 : Zone} `{D : Stamps} {SL : RRule.StampLaws Z0 D} `{Zones}.
Context (fr : Frame) (HF : framed fr).

Definition does (alarmed : bool) (ns : list text) (f : list text -> result Tasks.error (list text)) (b : list text) (Q : list text -> Prop) : Prop :=
  exists b', f (whole fr b) = Ok (whole fr b') /\ steps alarmed ns b b' /\ Q b'.

Lemma set_does name line b : fine b -> ours name = true -> fits name line -> good_opt line ->
  does false [name] (set name line) b (fun b' => props name b' = option_list line).
Proof.
  intros (Hs & _) Ho Hf Hg. exists (put name line b). split; [by apply set_whole|]. split; [by apply put_steps|].
  destruct (put_spec name line b Ho Hf) as (_ & Hp & _). by rewrite Hp, bool_decide_eq_true_2.
Qed.

Lemma write_if_does (c : bool) ns a f b (Q : list text -> Prop) : (c = true -> does a ns f b Q) -> (c = false -> Q b) ->
  does a (if c then ns else []) (write_if c f) b Q.
Proof.
  intros Ht Hfa. destruct c; [by apply Ht|]. exists b. split; [done|]. split; [|by apply Hfa].
  pose proof (steps_refl b) as []. by split; eauto.
Qed.

Lemma bare_does name h v b : fine b -> ours name = true -> bare h = true -> head_name h = name -> 10 ∉ h ->
  (match h with [] => false | c :: _ => negb (c =? 32) && negb (c =? 9) end) = true -> 10 ∉ v ->
  does false [name] (set name (Some (h ++ 58 :: v))) b (fun b' => props name b' = [h ++ 58 :: v]).
Proof.
  intros Hb Ho Hh Hn H10 Hw Hv. apply set_does; [done|done| |].
  - intros l [= <-]. by apply named_bare.
  - intros l [= <-]. by apply good_bare.
Qed.

Definition text_seen (name : text) (b : list text) : text := unwrap_or [] ((fun line => unescape (value_of line)) <$> seen name b).

Lemma text_does name (c : bool) (value : text) b : fine b -> ours name = true -> bare name = true -> head_name name = name -> 10 ∉ name ->
  (match name with [] => false | x :: _ => negb (x =? 32) && negb (x =? 9) end) = true -> 13 ∉ value -> (c = false -> text_seen name b = value) ->
  does false (if c then [name] else []) (write_if c (set name (unless_empty name value))) b (fun b' => text_seen name b' = value).
Proof.
  intros Hb Ho Hh Hn H10 Hw Hv Hc. apply write_if_does; [intros _|done]. unfold unless_empty. destruct (is_nil value) eqn:E.
  - apply is_nil_true in E as ->. destruct (set_does name None b Hb Ho) as (b' & Hset & Hst & Hp); [by intros ? [=]|by intros ? [=]|].
    exists b'. split; [done|]. split; [done|]. unfold text_seen. by rewrite (seen_props _ _ _ Hp).
  - destruct (bare_does name name (Ics.escape value) b Hb Ho Hh Hn H10 Hw (Ics.escape_single value)) as (b' & Hset & Hst & Hp).
    exists b'. split; [exact Hset|]. split; [done|]. unfold text_seen. rewrite (seen_props _ _ (Some _) Hp). cbn [fmap option_fmap option_map unwrap_or].
    rewrite value_of_bare, unescape_escape by done. by apply filter_id.
Qed.

Definition instant_seen (name : text) (b : list text) : option Z := seen name b ≫= time_value.

Lemma due_does (c : bool) (due : option Z) b : fine b -> (forall i, due = Some i -> dueable i) -> (c = false -> instant_seen (lit "DUE") b = due) ->
  does false (if c then [lit "DUE"] else []) (write_if c (set (lit "DUE") (due_line <$> due))) b (fun b' => instant_seen (lit "DUE") b' = due).
Proof.
  intros Hb Hd Hc. apply write_if_does; [intros _|done]. destruct due as [i|]; cbn [fmap option_fmap option_map].
  - destruct (due_back i (Hd i eq_refl)) as (Hr & _ & h & v & Hl & Hh & Hv). rewrite Hl in *. rewrite app_assoc in *.
    destruct (bare_does (lit "DUE") (lit "DUE" ++ h) v b Hb) as (b' & Hset & Hst & Hp);
      [done|by destruct Hh as [->| ->]|by destruct Hh as [->| ->]| |by destruct Hh as [->| ->]|exact Hv|].
    { destruct Hh as [->| ->]; apply (bool_decide_unpack _); vm_compute; exact I. }
    exists b'. split; [exact Hset|]. split; [done|]. unfold instant_seen. by rewrite (seen_props _ _ (Some _) Hp).
  - destruct (set_does (lit "DUE") None b Hb) as (b' & Hset & Hst & Hp); [done|by intros ? [=]|by intros ? [=]|].
    exists b'. split; [done|]. split; [done|]. unfold instant_seen. by rewrite (seen_props _ _ _ Hp).
Qed.

Lemma does_bind a1 a2 ns1 ns2 f g b (Q1 Q : list text -> Prop) : does a1 ns1 f b Q1 ->
  (forall b1, steps a1 ns1 b b1 -> Q1 b1 -> does a2 ns2 g b1 Q) ->
  does (a1 || a2) (ns1 ++ ns2) (fun ls => ls' ← f ls; g ls') b Q.
Proof.
  intros (b1 & Hf & Hs1 & Hq1) Hg. destruct (Hg b1 Hs1 Hq1) as (b2 & Hg2 & Hs2 & Hq). exists b2. rewrite Hf. split; [done|].
  split; [|done]. by eapply steps_trans.
Qed.

Lemma drops_does name b : fine b -> ours name = true -> does false [name] (set name None) b (fun b' => seen name b' = None).
Proof.
  intros Hb Ho. destruct (set_does name None b Hb Ho) as (b' & Hset & Hst & Hp); [by intros ? [=]|by intros ? [=]|].
  exists b'. split; [done|]. split; [done|]. by apply (seen_props _ _ _ Hp).
Qed.

Context (before after : Fields).

(** *** The start *)

Lemma shift_form line days l : shift_days line days = Ok (Some l) -> exists at_ v, colon line = Some at_ /\ l = take at_ line ++ 58 :: v.
Proof.
  unfold shift_days. destruct (colon line) as [at_|]; [|done]. intros Hs. exists at_.
  assert (exists v, Some (take at_ line ++ lit ":" ++ v) = Some l) as [v [= <-]]; [|by exists v].
  destruct (is_date line _).
  - destruct (first_eight _ ≫= read_date); [|done]. apply bind_Ok in Hs as (m & _ & [= Hs]). rewrite <- Hs. eauto.
  - destruct (strip_suffix _ _).
    + destruct (read_time _); [|done]. apply bind_Ok in Hs as (m & _ & [= Hs]). destruct (earliest m); [|done]. rewrite <- Hs. cbn. eauto.
    + destruct (read_time _); [|done]. apply bind_Ok in Hs as (m & _ & [= Hs]). rewrite <- Hs. eauto.
Qed.

(** The start line can be moved as far as the due date is. *)
Definition movable (b : list text) : Prop := forall line from fd to td due,
  seen (lit "DTSTART") b = Some line -> due_at before ≫= due_day = Some (from, fd) -> due_at after = Some due -> due_day due = Some (to, td) ->
  exists moved, shift_days line (to - from) = Ok moved /\ forall l, moved = Some l -> 10 ∉ l.

Lemma start_line_does line b : fine b -> is_named (lit "DTSTART") line = true -> Ics.good_line line -> Ics.begins_blank line = false ->
  does false [lit "DTSTART"] (set (lit "DTSTART") (Some line)) b (fun b' => seen (lit "DTSTART") b' = Some line).
Proof.
  intros Hb Hn Hg Hbl. destruct (set_does (lit "DTSTART") (Some line) b Hb) as (b' & Hset & Hst & Hp); [done|by intros ? [= <-]|by intros ? [= <-]|].
  exists b'. split; [done|]. split; [done|]. by apply (seen_props _ _ _ Hp).
Qed.

Lemma start_does b : fine b -> movable b -> (forall i, due_at after = Some i -> dueable i) ->
  does false [lit "DTSTART"] (write_start before after) b (fun b' => due_at before = due_at after ->
    forall t, alarm_instant (instant_seen (lit "DTSTART") b') (due_at after) t = alarm_instant (instant_seen (lit "DTSTART") b) (due_at after) t).
Proof.
  intros Hb Hm Hd. pose proof Hb as (Hs & Hg & _).
  assert (forall (Q : list text -> Prop), Q b -> forall f, f (whole fr b) = Ok (whole fr b) -> does false [lit "DTSTART"] f b Q) as Hstay.
  { intros Q HQ f Hf. exists b. split; [done|]. split; [|done]. eapply steps_weaken; [apply steps_refl|set_solver]. }
  destruct (due_at after) as [due|] eqn:Ed; [|apply Hstay; [done|]; unfold write_start; by rewrite Ed].
  destruct (due_back due (Hd due eq_refl)) as (_ & Hr & h & v & Hl & Hh & Hv).
  assert (lit "DTSTART" ++ drop 3 (due_line due) = (lit "DTSTART" ++ h) ++ 58 :: v) as Hfresh by (rewrite Hl, <- app_assoc; reflexivity).
  assert (is_named (lit "DTSTART") (lit "DTSTART" ++ drop 3 (due_line due)) = true /\ Ics.good_line (lit "DTSTART" ++ drop 3 (due_line due)) /\
    Ics.begins_blank (lit "DTSTART" ++ drop 3 (due_line due)) = false) as (Hf1 & Hf2 & Hf3).
  { rewrite Hfresh. split; [apply named_bare; by destruct Hh as [->| ->]|]. apply good_bare; try done; try by destruct Hh as [->| ->].
    destruct Hh as [->| ->]; apply (bool_decide_unpack _); vm_compute; exact I. }
  destruct (seen (lit "DTSTART") b) as [line|] eqn:Es.
  - destruct (bool_decide (due_at before = Some due)) eqn:Esame; [apply bool_decide_eq_true in Esame|apply bool_decide_eq_false in Esame].
    + apply Hstay; [done|]. unfold write_start. rewrite Ed, get_own_whole, Es by done. cbn [mbind result_bind].
      assert (exists o, match due_at before ≫= due_day, due_day due with Some (from, _), Some (to, _) => shift_days line (to - from) | _, _ => Ok None end = Ok o) as [o Ho].
      { destruct (due_at before ≫= due_day) as [[from fd]|] eqn:E1; [|eauto]. destruct (due_day due) as [[to td]|] eqn:E2; [|eauto].
        destruct (Hm line from fd to td due) as (o & Ho & _); eauto. }
      rewrite Ho. cbn [mbind result_bind]. unfold differs, write_if. rewrite Ed, Esame.
      rewrite (bool_decide_eq_true_2 (Some due = Some due)), (bool_decide_eq_false_2 (Some line = None)) by done. done.
    + assert (exists l, write_start before after (whole fr b) = set (lit "DTSTART") (Some l) (whole fr b) /\
        is_named (lit "DTSTART") l = true /\ Ics.good_line l /\ Ics.begins_blank l = false) as (l & Hw & H1 & H2 & H3).
      { unfold write_start. rewrite Ed, get_own_whole, Es by done. cbn [mbind result_bind]. unfold differs. rewrite Ed.
        rewrite (bool_decide_eq_false_2 (due_at before = Some due)) by done. rewrite orb_true_r. cbn [write_if].
        destruct (due_at before ≫= due_day) as [[from fd]|] eqn:E1; [|eauto]. destruct (due_day due) as [[to td]|] eqn:E2; [|eauto].
        destruct (Hm line from fd to td due) as (o & Ho & H10); try done. rewrite Ho. cbn [mbind result_bind].
        destruct o as [l|]; [|eauto]. exists l. split; [done|]. destruct (shift_form _ _ _ Ho) as (at_ & v' & Hc & ->).
        destruct (seen_in _ _ _ Es) as [Hin Hnm]. unfold good in Hg. rewrite Forall_forall in Hg. destruct (Hg _ Hin) as [[Hne _] Hbl].
        split; [unfold is_named in *; by rewrite name_of_take|]. split; [split; [by destruct (take at_ line)|by apply H10]|].
        destruct at_ as [|at_]; [done|]. destruct line as [|c line]; [done|]. done. }
      destruct (start_line_does l b Hb H1 H2 H3) as (b' & Hset & Hst & _). exists b'. rewrite Hw. split; [done|]. split; [done|]. congruence.
  - destruct (start_line_does _ b Hb Hf1 Hf2 Hf3) as (b' & Hset & Hst & Hseen). exists b'. split; [|split; [done|]].
    + unfold write_start. rewrite Ed, get_own_whole, Es by done. cbn [mbind result_bind]. rewrite (bool_decide_eq_true_2 (None = None)) by done. exact Hset.
    + intros _ t. unfold instant_seen. rewrite Hseen, Es. cbn [mbind option_bind]. rewrite Hr. unfold alarm_instant. done.
Qed.

(** *** The rule and the priority *)

Definition rule_seen (b : list text) : Prop :=
  rule_of (seen (lit "RRULE") b) (due_at after) = Ok (rrule after) /\ (length (props (lit "RRULE") b) <= 1)%nat.

Lemma rule_does (c : bool) b : fine b ->
  (rrule after = [] \/ 10 ∉ rrule after /\ rule_of (Some (lit "RRULE:" ++ rrule after)) (due_at after) = Ok (rrule after)) ->
  (c = false -> rule_seen b) ->
  does false (if c then [lit "RRULE"] else []) (write_if c (set (lit "RRULE") (if is_nil (rrule after) then None else Some (lit "RRULE:" ++ rrule after)))) b rule_seen.
Proof.
  intros Hb Hr Hc. apply write_if_does; [intros _|done]. unfold rule_seen. destruct Hr as [Hr|[H10 Hr]].
  - rewrite Hr. cbn [is_nil]. destruct (set_does (lit "RRULE") None b Hb) as (b' & Hset & Hst & Hp); [done|by intros ? [=]|by intros ? [=]|].
    exists b'. split; [done|]. split; [done|]. rewrite (seen_props _ _ _ Hp), Hp. split; [done|cbn; lia].
  - destruct (is_nil (rrule after)) eqn:E.
    + apply is_nil_true in E. destruct (set_does (lit "RRULE") None b Hb) as (b' & Hset & Hst & Hp); [done|by intros ? [=]|by intros ? [=]|].
      exists b'. split; [done|]. split; [done|]. rewrite (seen_props _ _ _ Hp), Hp, E. split; [done|cbn; lia].
    + destruct (bare_does (lit "RRULE") (lit "RRULE") (rrule after) b Hb) as (b' & Hset & Hst & Hp); try done.
      { apply (bool_decide_unpack _); vm_compute; exact I. }
      exists b'. split; [exact Hset|]. split; [done|]. rewrite (seen_props _ _ (Some _) Hp), Hp. split; [exact Hr|cbn; lia].
Qed.

Definition priority_seen (b : list text) : Z :=
  priority_from (seen (lit "PRIORITY") b ≫= fun line => parse_i64 (trim (value_of line))).

Lemma priority_does (c : bool) (p : Z) b : fine b -> (c = true -> 0 <= p <= 2) -> (c = false -> priority_seen b = p) ->
  does false (if c then [lit "PRIORITY"] else []) (write_if c (set (lit "PRIORITY") (priority_line p))) b (fun b' => priority_seen b' = p).
Proof.
  intros Hb Hp Hc. apply write_if_does; [intros E|done]. specialize (Hp E). unfold priority_seen.
  assert (p = 0 \/ p = 1 \/ p = 2) as [->|[->| ->]] by lia.
  - destruct (set_does (lit "PRIORITY") (Some (lit "PRIORITY:9")) b Hb) as (b' & Hset & Hst & Hpr); [done|by intros ? [= <-]| |].
    { intros ? [= <-]. apply (good_bare (lit "PRIORITY") (lit "9")); try done; apply (bool_decide_unpack _); vm_compute; exact I. }
    exists b'. split; [done|]. split; [done|]. by rewrite (seen_props _ _ (Some _) Hpr).
  - destruct (set_does (lit "PRIORITY") None b Hb) as (b' & Hset & Hst & Hpr); [done|by intros ? [=]|by intros ? [=]|].
    exists b'. split; [done|]. split; [done|]. by rewrite (seen_props _ _ _ Hpr).
  - destruct (set_does (lit "PRIORITY") (Some (lit "PRIORITY:1")) b Hb) as (b' & Hset & Hst & Hpr); [done|by intros ? [= <-]| |].
    { intros ? [= <-]. apply (good_bare (lit "PRIORITY") (lit "1")); try done; apply (bool_decide_unpack _); vm_compute; exact I. }
    exists b'. split; [done|]. split; [done|]. by rewrite (seen_props _ _ (Some _) Hpr).
Qed.

(** *** When it was completed *)

Definition status_seen (b : list text) : text :=
  unwrap_or [] ((fun line => to_ascii_uppercase (trim (value_of line))) <$> seen (lit "STATUS") b).

(** Whether and when it was, whatever the object's own dates. *)
Definition completion_seen (b : list text) (at_ : option Z) : Prop :=
  forall modified, completion (status_seen b) (seen (lit "COMPLETED") b) modified = at_.

Lemma closed_does name h v b : fine b -> ours name = true -> bare h = true -> head_name h = name -> bool_decide (10 ∉ h) = true ->
  (match h with [] => false | c :: _ => negb (c =? 32) && negb (c =? 9) end) = true -> bool_decide (10 ∉ v) = true ->
  does false [name] (set name (Some (h ++ 58 :: v))) b (fun b' => seen name b' = Some (h ++ 58 :: v)).
Proof.
  intros Hb Ho Hh Hn H10%bool_decide_eq_true Hw Hv%bool_decide_eq_true.
  destruct (bare_does name h v b Hb Ho Hh Hn H10 Hw Hv) as (b' & Hset & Hst & Hp). exists b'. split; [done|]. split; [done|].
  by apply (seen_props _ _ (Some _) Hp).
Qed.

Lemma seen_steps a ns n b b' : steps a ns b b' -> n ∉ ns -> seen n b' = seen n b.
Proof. intros Hs Hn. unfold seen. by rewrite (st_props _ _ _ _ Hs). Qed.

Ltac other := apply (bool_decide_unpack _); vm_compute; exact I.

Lemma completion_does (c : bool) b : fine b -> (forall i, completed_at after = Some i -> stampable i) ->
  (c = false -> completion_seen b (completed_at after)) ->
  does false (if c then [lit "STATUS"; lit "COMPLETED"; lit "PERCENT-COMPLETE"] else []) (write_if c (write_completion after)) b
    (fun b' => completion_seen b' (completed_at after)).
Proof.
  intros Hb Hi Hc. apply write_if_does; [intros _|done]. unfold write_completion. destruct (completed_at after) as [at_|] eqn:Ea.
  - specialize (Hi at_ eq_refl). destruct (utc_alnum at_ Hi) as (_ & Halnum & _).
    apply (does_bind false false [lit "STATUS"] [lit "COMPLETED"; lit "PERCENT-COMPLETE"] _ _ b (fun b' => status_seen b' = lit "COMPLETED")).
    { destruct (closed_does (lit "STATUS") (lit "STATUS") (lit "COMPLETED") b Hb) as (b' & Hset & Hst & Hse); try done.
      exists b'. split; [exact Hset|]. split; [done|]. unfold status_seen. by rewrite Hse. }
    intros b1 S1 Q1. pose proof (fine_steps _ _ _ _ S1 ltac:(other) Hb) as Hb1.
    apply (does_bind false false [lit "COMPLETED"] [lit "PERCENT-COMPLETE"] _ _ b1
      (fun b' => status_seen b' = lit "COMPLETED" /\ seen (lit "COMPLETED") b' ≫= time_value = Some at_)).
    { destruct (bare_does (lit "COMPLETED") (lit "COMPLETED") (utc at_) b1 Hb1) as (b' & Hset & Hst & Hp); try done.
      - other.
      - by apply alnum_no_ten.
      - exists b'. split; [exact Hset|]. split; [done|]. split.
        + unfold status_seen in *. rewrite (seen_steps _ _ _ _ _ Hst); [done|other].
        + rewrite (seen_props _ _ (Some _) Hp). apply (utc_instant (lit "COMPLETED")); done. }
    intros b2 S2 [Q2 Q3]. pose proof (fine_steps _ _ _ _ S2 ltac:(other) Hb1) as Hb2.
    assert (forall b3, steps false [lit "PERCENT-COMPLETE"] b2 b3 -> completion_seen b3 (Some at_)) as Hdone.
    { intros b3 S3 modified. unfold completion, status_seen. rewrite !(seen_steps _ _ _ _ _ S3) by other.
      fold (status_seen b2). rewrite Q2, Q3. done. }
    destruct Hb2 as (Hs2 & Hb2). unfold does. rewrite get_own_whole by done. cbn [mbind result_bind].
    destruct (bool_decide (is_Some _)).
    + destruct (closed_does (lit "PERCENT-COMPLETE") (lit "PERCENT-COMPLETE") (lit "100") b2) as (b' & Hset & Hst & _); try done.
      exists b'. split; [exact Hset|]. split; [done|]. by apply Hdone.
    + assert (steps false [lit "PERCENT-COMPLETE"] b2 b2) as S3 by (eapply steps_weaken; [apply steps_refl|set_solver]).
      exists b2. split; [done|]. split; [done|]. by apply Hdone.
  - apply (does_bind false false [lit "STATUS"] [lit "COMPLETED"; lit "PERCENT-COMPLETE"] _ _ b (fun b' => status_seen b' = lit "NEEDS-ACTION")).
    { destruct (closed_does (lit "STATUS") (lit "STATUS") (lit "NEEDS-ACTION") b Hb) as (b' & Hset & Hst & Hse); try done.
      exists b'. split; [exact Hset|]. split; [done|]. unfold status_seen. by rewrite Hse. }
    intros b1 S1 Q1. pose proof (fine_steps _ _ _ _ S1 ltac:(other) Hb) as Hb1.
    apply (does_bind false false [lit "COMPLETED"] [lit "PERCENT-COMPLETE"] _ _ b1 (fun _ => True)).
    { destruct (drops_does (lit "COMPLETED") b1 Hb1) as (b' & Hset & Hst & _); [done|]. by exists b'. }
    intros b2 S2 _. pose proof (fine_steps _ _ _ _ S2 ltac:(other) Hb1) as Hb2.
    destruct (drops_does (lit "PERCENT-COMPLETE") b2 Hb2) as (b' & Hset & Hst & _); [done|].
    exists b'. split; [done|]. split; [done|]. intros modified. unfold completion, status_seen.
    rewrite !(seen_steps _ _ _ _ _ Hst), !(seen_steps _ _ (lit "STATUS") _ _ S2) by other. fold (status_seen b1). by rewrite Q1.
Qed.

(** *** The alarm *)

Definition reminder_seen (due : option Z) (b : list text) : option Z :=
  find_map (fun t => t ≫= alarm_instant (instant_seen (lit "DTSTART") b) due) (triggers b).

Lemma insert_end b new : insert_at (end_ (span fr b)) new (whole fr b) = whole fr (b ++ new).
Proof.
  unfold insert_at. cbn [end_ span]. rewrite !whole_app.
  replace (S (length (f_pre fr) + length b))%nat with (length ((f_pre fr ++ [f_begin fr]) ++ b)) by (rewrite length_app, <- length_head; lia).
  rewrite (app_assoc _ b). rewrite take_app_length, drop_app_length. by rewrite <- !app_assoc.
Qed.

Lemma strip_sub b : forall st l, l ∈ strip st b -> l ∈ b.
Proof.
  induction b as [|x b IH]; intros st l; [done|]. cbn [strip]. rewrite elem_of_cons.
  destruct st; [intros Hl; right; by eapply IH|]. destruct (starts_alarm x); [intros Hl; right; by eapply IH|].
  intros [->|Hl]%elem_of_cons; [by left|right; by eapply IH].
Qed.

Lemma strip_no_alarm a b : no_alarm a -> strip false (a ++ b) = a ++ strip false b.
Proof. induction 1 as [|l a Hl Ha IH]; [done|]. cbn [app strip]. by rewrite Hl, IH. Qed.

(** A whole alarm, of lines that open and close nothing. *)
Lemma alarm_block (ls : list text) t : Forall (fun l => plain l) ls -> find_by (is_named (lit "TRIGGER")) ls = Some t ->
  let a := lit "BEGIN:VALARM" :: ls ++ [lit "END:VALARM"] in
  nest 0 a = Some 0%nat /\ own_of 0 a = [] /\ triggers a = [Some t] /\ tidy a = true /\ strip false a = [].
Proof.
  intros Hp Ht a. unfold triggers, tidy. subst a. cbn [nest own_of triggers_from tidy_from strip].
  change (opens (lit "BEGIN:VALARM")) with true. change (starts_alarm (lit "BEGIN:VALARM")) with true. cbn iota.
  assert (forall o, o = None \/ o = Some t -> (o = None -> find_by (is_named (lit "TRIGGER")) ls = Some t) ->
    nest 1 (ls ++ [lit "END:VALARM"]) = Some 0%nat /\ own_of 1 (ls ++ [lit "END:VALARM"]) = [] /\
    triggers_from (Some o) (ls ++ [lit "END:VALARM"]) = [Some t] /\ tidy_from (Some 0%nat) (ls ++ [lit "END:VALARM"]) = true /\
    strip true (ls ++ [lit "END:VALARM"]) = []) as Hall; [|by apply (Hall None); [left|]].
  clear Ht. induction Hp as [|l ls [Ho Hc] Hls IH]; intros o Ho' Hf.
  - destruct Ho' as [->| ->]; [by specialize (Hf eq_refl)|]. by split_and!.
  - assert (starts_alarm l = false) as Hs by (destruct (starts_alarm l) eqn:E; [apply starts_alarm_opens in E; congruence|done]).
    assert (ends_alarm l = false) as He by (destruct (ends_alarm l) eqn:E; [apply ends_alarm_closes in E as [_ E]; congruence|done]).
    cbn [app nest own_of triggers_from tidy_from strip]. rewrite Ho, Hc, Hs, He. cbn [Nat.eqb negb]. 
    destruct Ho' as [->| ->].
    + specialize (Hf eq_refl). unfold find_by in Hf. cbn [List.find] in Hf. destruct (is_named (lit "TRIGGER") l).
      * injection Hf as ->. apply IH; [by right|done].
      * apply IH; [by left|done].
    + apply IH; [by right|done].
Qed.

Definition trigger_line (at_ : Z) : text := unwrap_or [] (alarm_lines after at_ !! 3%nat).

(** A reminder that can be written. *)
Definition remindable (at_ : Z) : Prop := stampable at_ /\ - 2 ^ 61 <= at_ < 2 ^ 61.

Lemma trigger_back at_ : remindable at_ -> (forall i, due_at after = Some i -> - 2 ^ 61 <= i < 2 ^ 61) ->
  is_named (lit "TRIGGER") (trigger_line at_) = true /\ (Ics.good_line (trigger_line at_) /\ Ics.begins_blank (trigger_line at_) = false) /\
  forall start, alarm_instant start (due_at after) (trigger_line at_) = Some at_.
Proof.
  intros [Hs Hr] Hd. destruct (utc_alnum at_ Hs) as (_ & Ha & _).
  assert (forall start due, trigger_line at_ = lit "TRIGGER;VALUE=DATE-TIME" ++ 58 :: utc at_ ->
    is_named (lit "TRIGGER") (trigger_line at_) = true /\ (Ics.good_line (trigger_line at_) /\ Ics.begins_blank (trigger_line at_) = false) /\
    alarm_instant start due (trigger_line at_) = Some at_) as Hfixed.
  { intros start due ->. split; [by apply named_bare|]. split.
    - apply good_bare; try done; [other|by apply alnum_no_ten].
    - unfold alarm_instant. assert (is_fixed (lit "TRIGGER;VALUE=DATE-TIME" ++ 58 :: utc at_) = true) as ->.
      { unfold is_fixed, param_is. by rewrite param_bare. }
      apply utc_instant; done. }
  unfold trigger_line, alarm_lines in *. cbn [lookup list_lookup unwrap_or] in *.
  destruct (due_at after) as [due|].
  2: { destruct (Hfixed None None eq_refl) as (H1 & H2 & _). split; [done|]. split; [done|]. intros start. by apply (Hfixed start None eq_refl). }
  destruct (is_nil (rrule after)) eqn:E.
  { destruct (Hfixed None None eq_refl) as (H1 & H2 & _). split; [done|]. split; [done|]. intros start. by apply (Hfixed start (Some due) eq_refl). }
  specialize (Hd due eq_refl). set (k := wrap_i64 (at_ - due)). assert (k = at_ - due) as Hk by (apply wrap_small; lia).
  change (lit "TRIGGER;RELATED=END:" ++ duration_text k) with (lit "TRIGGER;RELATED=END" ++ 58 :: duration_text k).
  split; [by apply named_bare|]. split.
  - apply good_bare; try done; [other|]. pose proof (duration_chars k) as Hk10. intros Hin. rewrite Forall_forall in Hk10. by specialize (Hk10 _ Hin).
  - intros start. unfold alarm_instant.
    assert (is_fixed (lit "TRIGGER;RELATED=END" ++ 58 :: duration_text k) = false) as -> by (unfold is_fixed, param_is; by rewrite param_bare).
    rewrite value_of_bare, duration_back by (done || (unfold small; lia)). cbn [mbind option_bind].
    assert (param_is (lit "TRIGGER;RELATED=END" ++ 58 :: duration_text k) (lit "RELATED") (lit "END") = true) as -> by (unfold param_is; by rewrite param_bare).
    cbn [mbind option_bind]. f_equal. rewrite Hk, wrap_small; lia.
Qed.

Lemma alarm_lines_block at_ : remindable at_ -> (forall i, due_at after = Some i -> - 2 ^ 61 <= i < 2 ^ 61) ->
  let a := alarm_lines after at_ in
  nest 0 a = Some 0%nat /\ own_of 0 a = [] /\ triggers a = [Some (trigger_line at_)] /\ tidy a = true /\ strip false a = [] /\ good a.
Proof.
  intros Hr Hd a. destruct (trigger_back at_ Hr Hd) as (Htn & Htg & _).
  set (shown := Ics.escape (if is_nil (title after) then lit "Reminder" else title after)).
  assert (a = lit "BEGIN:VALARM" :: [lit "ACTION:DISPLAY"; lit "DESCRIPTION" ++ 58 :: shown; trigger_line at_] ++ [lit "END:VALARM"]) as Ha by done.
  assert (is_named (lit "DESCRIPTION") (lit "DESCRIPTION" ++ 58 :: shown) = true) as Hdn by (by apply named_bare).
  assert (is_named (lit "TRIGGER") (lit "DESCRIPTION" ++ 58 :: shown) = false /\
    plain (lit "DESCRIPTION" ++ 58 :: shown)) as [Hdt Hdp] by (destruct (ours_plain (lit "DESCRIPTION") _ eq_refl Hdn) as (? & ? & _ & _ & ?); done).
  destruct (alarm_block [lit "ACTION:DISPLAY"; lit "DESCRIPTION" ++ 58 :: shown; trigger_line at_] (trigger_line at_)) as (H1 & H2 & H3 & H4 & H5).
  - constructor; [split; reflexivity|]. constructor; [exact Hdp|]. constructor; [|constructor].
    unfold is_named in Htn. apply bool_decide_eq_true in Htn. by apply (named_plain _ 84 (lit "RIGGER")).
  - unfold find_by. cbn [List.find]. rewrite Hdt, Htn. done.
  - rewrite Ha. split_and!; try done. repeat constructor; try done.
    + other.
    + other.
    + destruct (good_bare (lit "DESCRIPTION") shown) as [[_ Hg] _]; try done; [other|apply Ics.escape_single].
    + apply Htg.
    + apply Htg.
    + apply Htg.
    + other.
Qed.

Lemma find_map_nil {A B} (f : A -> option B) (l : list A) : l = [] -> find_map f l = None.
Proof. by intros ->. Qed.

Lemma no_alarm_triggers b : no_alarm b -> triggers b = [].
Proof. intros Hn. rewrite <- (app_nil_r b). by rewrite triggers_app. Qed.

Lemma reminder_does b : fine b -> (forall at_, reminder_at after = Some at_ -> remindable at_) ->
  (forall i, due_at after = Some i -> - 2 ^ 61 <= i < 2 ^ 61) ->
  does true [] (write_reminder after) b (fun b' => reminder_seen (due_at after) b' = reminder_at after).
Proof.
  intros (Hs & Hg & Ht) Hr Hd. destruct (strip_spec b) as [Hstrip _]. destruct (Hstrip Ht) as (Hna & Hti & Hno). clear Hstrip.
  destruct (Hno 0%nat) as [Hnest Hown]. destruct Hs as [Hbal Hrec].
  assert (sound (strip false b)) as Hs' by (split; [unfold balanced; by rewrite Hnest|unfold props; by rewrite Hown]).
  assert (good (strip false b)) as Hg'.
  { unfold good in *. rewrite Forall_forall in *. intros l Hl. by apply Hg, (strip_sub b false). }
  assert (strip false (strip false b) = strip false b) as Hss.
  { rewrite <- (app_nil_r (strip false b)) at 1. by rewrite strip_no_alarm, app_nil_r by done. }
  unfold does, write_reminder. rewrite master_whole by done. cbn [mbind result_bind]. rewrite strip_whole by done.
  destruct (reminder_at after) as [at_|] eqn:Er.
  - rewrite master_whole by done. cbn [mbind result_bind]. rewrite insert_end.
    destruct (alarm_lines_block at_ (Hr at_ eq_refl) Hd) as (A1 & A2 & A3 & A4 & A5 & A6).
    exists (strip false b ++ alarm_lines after at_). split; [done|]. destruct Hs' as [Hb' _]. split; [split|].
    + intros _. unfold balanced. by rewrite (nest_app _ _ _ 0 Hb').
    + intros n _. unfold props. rewrite (own_of_app _ _ _ 0 Hb'), A2, app_nil_r. by rewrite Hown.
    + done.
    + intros _. by rewrite tidy_app.
    + intros _ ms _. split; [done|]. by rewrite strip_no_alarm, A5, app_nil_r.
    + intros _. by apply Forall_app_2.
    + unfold reminder_seen. rewrite triggers_app, A3 by done. cbn [find_map mbind option_bind].
      destruct (trigger_back at_ (Hr at_ eq_refl) Hd) as (_ & _ & Hback). by rewrite Hback.
  - exists (strip false b). split; [done|]. split; [split|].
    + intros _. apply Hs'.
    + intros n _. unfold props. by rewrite Hown.
    + done.
    + done.
    + intros _ ms _. split; [done|]. by rewrite Hss.
    + done.
    + unfold reminder_seen. by rewrite no_alarm_triggers.
Qed.

(** The alarm follows the due date by itself, and is read so. *)
Definition alarm_follows (b : list text) : Prop :=
  rrule after <> [] -> offset before = offset after -> is_Some (offset before) ->
  is_some_and (fun t => negb (is_fixed t)) (hd_error (triggers b) ≫= fun t => t) = true ->
  reminder_seen (due_at after) b = reminder_at after.

Lemma alarm_does b : fine b -> (forall at_, reminder_at after = Some at_ -> remindable at_) ->
  (forall i, due_at after = Some i -> - 2 ^ 61 <= i < 2 ^ 61) ->
  (reminder_at before = reminder_at after -> reminder_seen (due_at after) b = reminder_at after) ->
  (reminder_at before <> reminder_at after -> alarm_follows b) ->
  does (differs before after reminder_at) [] (write_alarm before after) b (fun b' => reminder_seen (due_at after) b' = reminder_at after).
Proof.
  intros Hb Hr Hd Hsame Hfollow. pose proof Hb as (Hs & _).
  assert (forall c, reminder_seen (due_at after) b = reminder_at after ->
    exists b', Ok (whole fr b) = Ok (E := Tasks.error) (whole fr b') /\ steps c [] b b' /\ reminder_seen (due_at after) b' = reminder_at after) as Hstay.
  { intros c Hq. exists b. split; [done|]. split; [|done]. pose proof (steps_refl b) as []. by split; eauto. }
  unfold does, write_alarm, follows. destruct (negb (is_nil (rrule after)) && _ && _) eqn:Ec.
  - rewrite relative_whole by done. cbn [mbind result_bind]. unfold differs.
    destruct (decide (reminder_at before = reminder_at after)) as [Edif|Edif]; [rewrite (bool_decide_eq_true_2 _ Edif)|rewrite (bool_decide_eq_false_2 _ Edif)];
      cbn [negb andb write_if].
    + apply Hstay. by apply Hsame.
    + destruct (is_some_and _ _) eqn:Erel; cbn [negb].
      * apply Hstay. bools in Ec. destruct Ec as [[E1 E2] E3]. apply Hfollow; try done. intros E. by rewrite E in E1.
      * destruct (reminder_does b Hb Hr Hd) as (b' & Hw & Hst & Hq). by exists b'.
  - cbn [mbind result_bind]. unfold differs.
    destruct (decide (reminder_at before = reminder_at after)) as [Edif|Edif]; [rewrite (bool_decide_eq_true_2 _ Edif)|rewrite (bool_decide_eq_false_2 _ Edif)];
      cbn [negb andb write_if].
    + apply Hstay. by apply Hsame.
    + destruct (reminder_does b Hb Hr Hd) as (b' & Hw & Hst & Hq). by exists b'.
Qed.

(** *** Its stamps *)

Lemma stamp_does name now b : fine b -> ours name = true -> bare name = true -> head_name name = name -> bool_decide (10 ∉ name) = true ->
  (match name with [] => false | c :: _ => negb (c =? 32) && negb (c =? 9) end) = true -> stampable now ->
  does false [name] (set name (Some (name ++ lit ":" ++ utc now))) b (fun _ => True).
Proof.
  intros Hb Ho Hh Hn H10%bool_decide_eq_true Hw Hs. destruct (utc_alnum now Hs) as (_ & Ha & _).
  destruct (bare_does name name (utc now) b Hb Ho Hh Hn H10 Hw (alnum_no_ten _ Ha)) as (b' & Hset & Hst & _). by exists b'.
Qed.

Lemma show_Z_line n : 10 ∉ show_Z n.
Proof.
  assert (forall n, 0 <= n -> 10 ∉ show_Z n) as Hn.
  { intros k Hk Hin. destruct (show_Z_digits k Hk) as [Hall _]. rewrite Forall_forall in Hall. by specialize (Hall _ Hin). }
  destruct (Z.neg_nonneg_cases n) as [Hneg|Hpos]; [|by apply Hn]. rewrite show_negative by done.
  intros [E|E]%elem_of_cons; [done|]. revert E. apply Hn. lia.
Qed.

Lemma sequence_does (c : bool) b : fine b -> does false (if c then [lit "SEQUENCE"] else []) (write_if c bump_sequence) b (fun _ => True).
Proof.
  intros Hb. apply write_if_does; [intros _|done]. pose proof Hb as (Hs & _). unfold does, bump_sequence. rewrite get_own_whole by done. cbn [mbind result_bind].
  destruct (bare_does (lit "SEQUENCE") (lit "SEQUENCE") (show_Z (next_sequence (seen (lit "SEQUENCE") b))) b Hb) as (b' & Hset & Hst & _); try done;
    [other|apply show_Z_line|]. by exists b'.
Qed.
End Parts.
End VtodoWrite.
