(* ===== verification/VtodoRoundTrip.v ===== *)
(** * A task written is read as it was written

    The parts of [VtodoWrite] put together: an object changed by [patch] or
    made by [new_object] reads as the fields written, and keeps the rest.
    [compatible] says when; the examples at the end are objects it rules out,
    where what is read is something else. *)
From S2P Require Import Prelude Text Calendar Recurrence RRule Tasks TaskRepeat Ics Todo Vtodo VtodoBody VtodoWrite.
#[local] Open Scope Z_scope.

Module VtodoRoundTrip.
Import Todo Vtodo VtodoBody VtodoLaws VtodoLines VtodoWrite.

Lemma find_map_fmap {A B E} (g : A -> B) (f : B -> option E) l : find_map f (g <$> l) = find_map (fun a => f (g a)) l.
Proof. induction l as [|a l IH]; [done|]. cbn. by destruct (f (g a)). Qed.

Lemma find_map_ext {A B} (f g : A -> option B) l : (forall a, a ∈ l -> f a = g a) -> find_map f l = find_map g l.
Proof.
  induction l as [|a l IH]; intros Hfg; [done|]. cbn. rewrite (Hfg a) by by left. destruct (g a); [done|].
  apply IH. intros x Hx. apply Hfg. by right.
Qed.

Section RoundTrip.
Context `{C : Calendar} {CL : CalendarLaws C} `{Z0 : Zone} `{D : Stamps} {SL : RRule.StampLaws Z0 D} `{Zones}.

(** ** What an object shows *)

Record shows (b : list text) (f : Fields) : Prop := {
  sh_title : text_seen (lit "SUMMARY") b = title f;
  sh_note : text_seen (lit "DESCRIPTION") b = note f;
  sh_due : instant_seen (lit "DUE") b = due_at f;
  sh_priority : priority_seen b = priority f;
  sh_completed : completion (status_seen b) (seen (lit "COMPLETED") b) (or_else (seen (lit "LAST-MODIFIED") b) (seen (lit "DTSTAMP") b)) = completed_at f;
  sh_reminder : reminder_seen (due_at f) b = reminder_at f;
  sh_rule : rule_of (seen (lit "RRULE") b) (due_at f) = Ok (rrule f)
}.

Definition uid_seen (b : list text) : text := unwrap_or [] ((fun line => trim (value_of line)) <$> seen (lit "UID") b).

(** The properties [apply] writes. *)
Definition touched (before after : Fields) (bump : bool) : list text :=
  (if differs before after title then [lit "SUMMARY"] else []) ++
  (if differs before after note then [lit "DESCRIPTION"] else []) ++
  (if differs before after due_at then [lit "DUE"] else []) ++
  (if repeats_anew before after then [lit "DTSTART"] else []) ++
  (if differs before after rrule then [lit "RRULE"] else []) ++
  (if differs before after priority then [lit "PRIORITY"] else []) ++
  (if differs before after completed_at then [lit "STATUS"; lit "COMPLETED"; lit "PERCENT-COMPLETE"] else []) ++
  [] ++ [lit "DTSTAMP"] ++ [lit "LAST-MODIFIED"] ++ (if bump then [lit "SEQUENCE"] else []).

Lemma if_out (c : bool) (n : text) ns : n ∉ ns -> n ∉ (if c then ns else []).
Proof. destruct c; [done|]. intros _. set_solver. Qed.

Ltac other := apply (bool_decide_unpack _); vm_compute; exact I.
Ltac out := first [apply if_out; other | other].
Lemma touched_out before after bump : lit "RECURRENCE-ID" ∉ touched before after bump.
Proof. unfold touched. repeat (apply not_elem_of_app; split); try (apply if_out; other); other. Qed.

Section OneTask.
Context (fr : Frame) (HF : framed fr).

Lemma get_in_seen n b : get_in (own_of 0 b) n = seen n b.
Proof. apply find_by_filter. Qed.

Lemma read_whole b : sound b -> read (whole fr b) =
  '(rule, repeats) ← match rule_of (seen (lit "RRULE") b) (instant_seen (lit "DUE") b) with
                     | Ok rule => Ok (if complex b then ([], true) else (rule, false))
                     | Err (Recurrence.Unsupported _) => Ok ([], true)
                     | Err Recurrence.Panic => Err Tasks.Panicked
                     end;
  Ok {| uid := uid_seen b;
        fields := {| title := text_seen (lit "SUMMARY") b; note := text_seen (lit "DESCRIPTION") b; due_at := instant_seen (lit "DUE") b;
                     priority := priority_seen b;
                     completed_at := completion (status_seen b) (seen (lit "COMPLETED") b) (or_else (seen (lit "LAST-MODIFIED") b) (seen (lit "DTSTAMP") b));
                     reminder_at := reminder_seen (instant_seen (lit "DUE") b) b;
                     rrule := rule |};
        created_at := instant_seen (lit "CREATED") b; recurring := repeats |}.
Proof.
  intros Hs. unfold read. rewrite master_whole by done. cbn [mbind result_bind]. rewrite own_lines_whole. unfold text_in. rewrite !get_in_seen.
  unfold reminder_seen. rewrite <- (triggers_whole fr b), find_map_fmap. done.
Qed.

Lemma read_shows b f : sound b -> shows b f -> complex b = false ->
  read (whole fr b) = Ok {| uid := uid_seen b; fields := f; created_at := instant_seen (lit "CREATED") b; recurring := false |}.
Proof.
  intros Hs [H1 H2 H3 H4 H5 H6 H7] Hc. rewrite read_whole by done. rewrite H3, H7, Hc. cbn [mbind result_bind].
  rewrite H1, H2, H4, H5, H6. by destruct f.
Qed.

Lemma shows_read b todo : sound b -> read (whole fr b) = Ok todo -> recurring todo = false ->
  shows b (fields todo) /\ complex b = false /\ uid todo = uid_seen b /\ created_at todo = instant_seen (lit "CREATED") b.
Proof.
  intros Hs. rewrite read_whole by done. destruct (rule_of _ _) as [rule|[]] eqn:Er; cbn [mbind result_bind]; [|by intros [= <-]|done].
  destruct (complex b); [by intros [= <-]|]. intros [= <-] _. split; [by split|done].
Qed.

(** ** What can be written *)

Record writable (f : Fields) : Prop := {
  wr_title : 13 ∉ title f;
  wr_note : 13 ∉ note f;
  wr_due : forall i, due_at f = Some i -> dueable i /\ - 2 ^ 61 <= i < 2 ^ 61;
  wr_priority : 0 <= priority f <= 2;
  wr_completed : forall i, completed_at f = Some i -> stampable i;
  wr_reminder : forall i, reminder_at f = Some i -> remindable i;
  (** A rule of one line, spelled out from its due date. *)
  wr_rule : rrule f = [] \/ 10 ∉ rrule f /\ rule_of (Some (lit "RRULE:" ++ rrule f)) (due_at f) = Ok (rrule f)
}.

(** What the object says that is not written over must still say it. *)
Record compatible (before after : Fields) (b : list text) : Prop := {
  co_tidy : tidy b = true;
  (** When it was completed is said by a property of its own. *)
  co_completed : completed_at before = completed_at after -> completed_at before = None \/ is_Some (instant_seen (lit "COMPLETED") b);
  (** The rule kept says the same of the new due date. *)
  co_rule : rrule before = rrule after -> due_at before <> due_at after ->
    rule_of (seen (lit "RRULE") b) (due_at after) = Ok (rrule after);
  (** An alarm kept does not follow a due date that moves, *)
  co_alarm : reminder_at before = reminder_at after -> due_at before <> due_at after ->
    forall t, Some t ∈ triggers b -> is_fixed t = true;
  (** and one that follows it is set from it. *)
  co_follows : forall t, hd_error (triggers b) = Some (Some t) -> is_fixed t = false ->
    reminder_at before <> reminder_at after -> param_is t (lit "RELATED") (lit "END") = true /\ is_Some (duration (value_of t));
  co_start : movable before after b
}.

Ltac through := repeat match goal with
  | St : steps _ _ ?x ?y |- context [seen ?n ?y] => rewrite (seen_steps _ _ n _ _ St) by out
  end.

Ltac through_props := repeat match goal with
  | St : steps _ _ ?x ?y |- context [props ?n ?y] => rewrite (st_props _ _ _ _ St n) by out
  end.

Lemma completion_kept b at_ : completion (status_seen b) (seen (lit "COMPLETED") b) (or_else (seen (lit "LAST-MODIFIED") b) (seen (lit "DTSTAMP") b)) = at_ ->
  at_ = None \/ is_Some (instant_seen (lit "COMPLETED") b) -> completion_seen b at_.
Proof.
  intros Hc Hk modified. revert Hc. unfold completion, instant_seen in *.
  destruct (bool_decide (status_seen b = lit "NEEDS-ACTION") || _); [done|].
  destruct (seen (lit "COMPLETED") b ≫= time_value) as [at'|]; [done|]. destruct Hk as [->|[? [=]]].
  destruct (bool_decide (status_seen b = lit "COMPLETED") || _); done.
Qed.

Lemma wrap_range n : - 2 ^ 63 <= wrap_i64 n < 2 ^ 63.
Proof. unfold wrap_i64. pose proof (Z.mod_pos_bound (n + 2 ^ 63) (2 ^ 64) ltac:(lia)). lia. Qed.

(** An alarm that keeps its distance follows. *)
Lemma follows_read before after b b7 : shows b before -> writable after -> compatible before after b ->
  triggers b7 = triggers b -> reminder_at before <> reminder_at after -> alarm_follows before after b7.
Proof.
  intros Hsh Hw Hco Ht Hne _ Hoff [o Ho] Hrel. unfold reminder_seen. rewrite Ht in *.
  destruct (triggers b) as [|[t|] ts] eqn:Et; [done| |done]. cbn [hd_error mbind option_bind is_some_and] in Hrel. apply negb_true_iff in Hrel.
  destruct (co_follows _ _ _ Hco t) as [Hend [k Hk]]; [by rewrite Et|done|done|].
  assert (forall start d, alarm_instant start (Some d) t = Some (wrap_i64 (d + k))) as Hread.
  { intros start d. unfold alarm_instant. rewrite Hrel, Hk. cbn [mbind option_bind]. by rewrite Hend. }
  rewrite Ho in Hoff. unfold offset in Ho, Hoff. destruct (reminder_at before) as [rb|] eqn:Erb; [|done].
  destruct (due_at before) as [d|] eqn:Ed; [|done]. destruct (reminder_at after) as [ra|] eqn:Era; [|done].
  destruct (due_at after) as [d'|] eqn:Ed'; [|done]. cbn in Ho, Hoff. injection Ho as Ho. injection Hoff as Hoff.
  pose proof (sh_reminder _ _ Hsh) as Hr. unfold reminder_seen in Hr. rewrite Ed, Et in Hr. cbn [find_map mbind option_bind] in *.
  rewrite Hread in Hr. rewrite Hread. rewrite Erb in Hr. injection Hr as Hr. f_equal.
  destruct (wr_reminder _ Hw ra Era) as [_ Hra]. transitivity (wrap_i64 (d' + (ra - d'))); [|rewrite wrap_small; lia].
  rewrite <- (wrap_wrap_add d' (ra - d')), <- Hoff, <- Ho, <- Hr, wrap_wrap_add.
  replace (d' + (wrap_i64 (d + k) - d)) with (d' - d + wrap_i64 (d + k)) by lia. rewrite wrap_wrap_add. f_equal. lia.
Qed.

Lemma apply_does before after now bump b : fine b -> shows b before -> complex b = false -> writable after -> compatible before after b ->
  stampable now ->
  does fr (differs before after reminder_at) (touched before after bump) (apply before after now bump) b
    (fun b' => shows b' after /\ complex b' = false /\ uid_seen b' = uid_seen b /\ instant_seen (lit "CREATED") b' = instant_seen (lit "CREATED") b).
Proof.
  intros Hb Hsh Hc Hw Hco Hnow.
  assert (forall i, due_at after = Some i -> dueable i) as Hdue by (intros i Hi; by apply (wr_due _ Hw)).
  assert (forall A (EqA : EqDecision A) (g : Fields -> A), differs before after g = false -> g before = g after) as Hdiff.
  { intros A EqA g. unfold differs. intros ?%negb_false_iff%bool_decide_eq_true. done. }
  unfold complex in Hc. rewrite !orb_false_iff, !negb_false_iff, !is_nil_true in Hc. destruct Hc as [[Hrr Hrd] Hex]. apply Nat.ltb_ge in Hrr.
  replace (differs before after reminder_at) with (false || (false || (false || (false || (false || (false || (false || (differs before after reminder_at || (false || (false || false)))))))))) by (cbn; by rewrite orb_false_r).
  unfold touched, apply.
  eapply does_bind; [apply (text_does fr HF (lit "SUMMARY")); [exact Hb|done|done|done|other|done|apply Hw|]|].
  { intros E. rewrite (sh_title _ _ Hsh). by apply (Hdiff _ _ title). }
  intros b1 S1 Q1. pose proof (fine_steps _ _ _ _ S1 ltac:(out) Hb) as Hb1.
  eapply does_bind; [apply (text_does fr HF (lit "DESCRIPTION")); [exact Hb1|done|done|done|other|done|apply Hw|]|].
  { intros E. unfold text_seen. through. fold (text_seen (lit "DESCRIPTION") b). rewrite (sh_note _ _ Hsh). by apply (Hdiff _ _ note). }
  intros b2 S2 Q2. pose proof (fine_steps _ _ _ _ S2 ltac:(out) Hb1) as Hb2.
  eapply does_bind; [apply (due_does fr HF); [exact Hb2|exact Hdue|]|].
  { intros E. unfold instant_seen. through. fold (instant_seen (lit "DUE") b). rewrite (sh_due _ _ Hsh). by apply (Hdiff _ _ due_at). }
  intros b3 S3 Q3. pose proof (fine_steps _ _ _ _ S3 ltac:(out) Hb2) as Hb3.
  eapply (does_bind fr false _ _ _ _ _ b3 (fun b' => due_at before = due_at after ->
    forall t, alarm_instant (instant_seen (lit "DTSTART") b') (due_at after) t = alarm_instant (instant_seen (lit "DTSTART") b3) (due_at after) t)).
  { apply write_if_does; [intros _|done]. apply (start_does fr HF); [done| |done]. intros line from fd to td due. through. apply (co_start _ _ _ Hco). }
  intros b4 S4 Q4. pose proof (fine_steps _ _ _ _ S4 ltac:(out) Hb3) as Hb4.
  eapply does_bind; [apply (rule_does fr HF after); [exact Hb4|apply (wr_rule _ Hw)|]|].
  { intros E%(Hdiff _ _ rrule). split.
    - through. destruct (decide (due_at before = due_at after)) as [Ed|Ed]; [|by apply (co_rule _ _ _ Hco)]. rewrite <- Ed, <- E. apply Hsh.
    - rewrite (st_props _ _ _ _ S4), (st_props _ _ _ _ S3), (st_props _ _ _ _ S2), (st_props _ _ _ _ S1) by out. done. }
  intros b5 S5 Q5. pose proof (fine_steps _ _ _ _ S5 ltac:(out) Hb4) as Hb5.
  eapply does_bind; [apply (priority_does fr HF _ (priority after)); [exact Hb5|intros _; apply Hw|]|].
  { intros E%(Hdiff _ _ priority). unfold priority_seen. through. rewrite <- E. apply Hsh. }
  intros b6 S6 Q6. pose proof (fine_steps _ _ _ _ S6 ltac:(out) Hb5) as Hb6.
  eapply does_bind; [apply (completion_does fr HF after); [exact Hb6|apply Hw|]|].
  { intros E%(Hdiff _ _ completed_at) modified. unfold status_seen. through. fold (status_seen b). rewrite <- E.
    apply completion_kept; [apply Hsh|]. by apply (co_completed _ _ _ Hco). }
  intros b7 S7 Q7. pose proof (fine_steps _ _ _ _ S7 ltac:(out) Hb6) as Hb7.
  assert (triggers b7 = triggers b) as Htr.
  { rewrite (st_triggers _ _ _ _ S7), (st_triggers _ _ _ _ S6), (st_triggers _ _ _ _ S5), (st_triggers _ _ _ _ S4), (st_triggers _ _ _ _ S3),
      (st_triggers _ _ _ _ S2), (st_triggers _ _ _ _ S1) by done. done. }
  eapply does_bind; [apply (alarm_does fr HF before after); [exact Hb7|apply Hw| | |]|].
  { intros i Hi. by apply (wr_due _ Hw). }
  { intros E. rewrite <- E, <- (sh_reminder _ _ Hsh). unfold reminder_seen. rewrite Htr. apply find_map_ext. intros [t|] Hin; [|done]. cbn [mbind option_bind].
    destruct (decide (due_at before = due_at after)) as [Ed|Ed].
    - assert (instant_seen (lit "DTSTART") b7 = instant_seen (lit "DTSTART") b4) as -> by (unfold instant_seen; through; done).
      rewrite (Q4 Ed), <- Ed. assert (instant_seen (lit "DTSTART") b3 = instant_seen (lit "DTSTART") b) as -> by (unfold instant_seen; through; done). done.
    - unfold alarm_instant. by rewrite (co_alarm _ _ _ Hco E Ed t Hin). }
  { intros E. by apply (follows_read before after b b7). }
  intros b8 S8 Q8. pose proof (fine_steps _ _ _ _ S8 ltac:(out) Hb7) as Hb8.
  eapply does_bind; [apply (stamp_does fr HF (lit "DTSTAMP") now); [exact Hb8|done..]|].
  intros b9 S9 _. pose proof (fine_steps _ _ _ _ S9 ltac:(out) Hb8) as Hb9.
  eapply does_bind; [apply (stamp_does fr HF (lit "LAST-MODIFIED") now); [exact Hb9|done..]|].
  intros b10 S10 _. pose proof (fine_steps _ _ _ _ S10 ltac:(out) Hb9) as Hb10.
  destruct (sequence_does fr HF bump b10 Hb10) as (b11 & Hset & S11 & _). exists b11. split; [exact Hset|]. split; [exact S11|].
  split; [|split; [|split]].
  - split.
    + unfold text_seen. through. exact Q1.
    + unfold text_seen. through. exact Q2.
    + unfold instant_seen. through. exact Q3.
    + unfold priority_seen. through. exact Q6.
    + unfold status_seen. through. apply Q7.
    + rewrite <- Q8. unfold reminder_seen, instant_seen. rewrite (st_triggers _ _ _ _ S11), (st_triggers _ _ _ _ S10), (st_triggers _ _ _ _ S9) by done. by through.
    + through. apply Q5.
  - unfold complex. through_props. destruct Q5 as [_ Hone]. rewrite Hrd, Hex, !orb_false_r. by apply Nat.ltb_ge.
  - unfold uid_seen. by through.
  - unfold instant_seen. by through.
Qed.

(** ** The object around it *)

Lemma whole_lines b b' : Ics.content_lines (whole fr b) -> (good b -> good b') -> good b /\ Ics.content_lines (whole fr b').
Proof.
  unfold whole. intros [Hg Hb] Hbb. apply Forall_app in Hg as [Hg1 Hg2]. apply Forall_cons in Hg2 as [Hg2 Hg3]. apply Forall_app in Hg3 as [Hg3 Hg4].
  assert (Forall (fun l => Ics.begins_blank l = false) (b ++ f_end fr :: f_post fr)) as Hb2.
  { destruct (f_pre fr) as [|x pre]; cbn [app tail] in Hb; [done|]. apply Forall_app in Hb as [_ Hb]. by apply Forall_cons in Hb as [_ Hb]. }
  apply Forall_app in Hb2 as [Hb2 Hb3]. assert (good b) as Hgood.
  { unfold good. rewrite Forall_forall in *. intros l Hl. split; [by apply Hg3|by apply Hb2]. }
  split; [done|]. specialize (Hbb Hgood). unfold good in Hbb. split.
  - apply Forall_app_2; [done|]. constructor; [done|]. apply Forall_app_2; [|done]. eapply Forall_impl; [exact Hbb|]. by intros l [Hl _].
  - assert (Forall (fun l => Ics.begins_blank l = false) (b' ++ f_end fr :: f_post fr)) as Hb4.
    { apply Forall_app_2; [|done]. eapply Forall_impl; [exact Hbb|]. by intros l [_ Hl]. }
    destruct (f_pre fr) as [|x pre]; cbn [app tail] in *; [done|]. apply Forall_app in Hb as [Hb Hb5]. apply Forall_app_2; [done|].
    apply Forall_cons in Hb5 as [Hb5 _]. by constructor.
Qed.
End OneTask.

(** The lines of the task of an object. *)
Definition task_lines (ics : text) : list text :=
  match master (Ics.unfold_ics ics) with Ok (s, _) => inside (Ics.unfold_ics ics) s | Err _ => [] end.

(** The lines of an object around its task. *)
Definition around (ics : text) : list text * list text :=
  match master (Ics.unfold_ics ics) with
  | Ok (s, _) => (take (S (begin_ s)) (Ics.unfold_ics ics), drop (end_ s) (Ics.unfold_ics ics))
  | Err _ => ([], [])
  end.

Lemma task_lines_whole fr b ics : framed fr -> sound b -> Ics.unfold_ics ics = whole fr b ->
  task_lines ics = b /\ around ics = (f_pre fr ++ [f_begin fr], f_end fr :: f_post fr).
Proof.
  intros HF Hs Hl. unfold task_lines, around. rewrite Hl, master_whole by done. split; [by apply inside_whole|]. cbn [begin_ end_ span].
  rewrite whole_app. f_equal.
  - rewrite length_head. apply take_app_length.
  - rewrite <- Nat.add_succ_l, length_head, <- length_app. rewrite (app_assoc _ b). apply drop_app_length.
Qed.

(** C8. An object that reads, and does not repeat in a way not followed here,
    changed to fields that can be written ([writable]) and that go with what the
    object keeps ([compatible]), holds what was written: the fields saved are
    the ones read back, the task keeps its name and its creation, what is around
    it stays, and of the task's own lines only those of the properties changed,
    and its alarms when the reminder changed, are not the ones it had, in their
    order. Outside these conditions it need not: see [an_implied_day_drifts],
    [a_kept_reminder_moves] and [a_completion_moves]. *)
Theorem patch_writes_what_changed ics todo after now : parse ics = Ok todo -> recurring todo = false -> writable after ->
  compatible (fields todo) after (task_lines ics) -> stampable now ->
  exists ics', patch ics after now = Ok ics' /\
    parse ics' = Ok {| uid := uid todo; fields := after; created_at := created_at todo; recurring := false |} /\
    around ics' = around ics /\
    let names := touched (fields todo) after true in
    rest 0 names (strip false (task_lines ics')) = rest 0 names (strip false (task_lines ics)) /\
    (reminder_at (fields todo) = reminder_at after -> rest 0 names (task_lines ics') = rest 0 names (task_lines ics)).
Proof.
  intros Hp Hr Hw Hco Hnow. pose proof Hp as Hp'. unfold parse, read in Hp. apply bind_Ok in Hp as ([s cx] & Hm & Hp).
  assert (cx = false) as ->.
  { cbv zeta in Hp. apply bind_Ok in Hp as ([rule rep] & Hrule & [= <-]). cbn in Hr. destruct (rule_of _ _) as [|[]]; [|by simplify_eq|done].
    destruct cx; [by simplify_eq|done]. }
  destruct (master_inv _ _ Hm) as (fr & b & HF & Hs & Hl). destruct (task_lines_whole fr b ics HF Hs Hl) as [Htl Har]. rewrite Htl in *.
  unfold parse in Hp'. rewrite Hl in Hp'. destruct (shows_read fr HF b todo Hs Hp' Hr) as (Hsh & Hc & Hu & Hcr).
  pose proof (Ics.unfold_good ics) as Hcl. rewrite Hl in Hcl. destruct (whole_lines fr b b Hcl id) as [Hg _].
  assert (fine b) as Hfine by (split; [done|split; [done|apply (co_tidy _ _ _ Hco)]]).
  destruct (apply_does fr HF (fields todo) after now true b Hfine Hsh Hc Hw Hco Hnow) as (b' & Hap & Hst & Hsh' & Hc' & Hu' & Hcr').
  assert (sound b') as Hs'.
  { eapply sound_steps; [exact Hst|apply touched_out|done]. }
  destruct (whole_lines fr b b' Hcl (st_good _ _ _ _ Hst)) as [_ Hcl']. pose proof (Ics.unfold_render _ Hcl') as Hun.
  exists (Ics.render (whole fr b')). destruct (task_lines_whole fr b' _ HF Hs' Hun) as [Htl' Har'].
  split; [|split; [|split; [|split]]].
  - unfold patch. rewrite Hl, Hp'. cbn [mbind result_bind]. by rewrite Hr, Hap.
  - unfold parse. rewrite Hun, (read_shows fr HF b' after Hs' Hsh' Hc'). by rewrite Hu, Hcr, Hu', Hcr'.
  - by rewrite Har, Har'.
  - rewrite Htl'. by apply (st_rest _ _ _ _ Hst (co_tidy _ _ _ Hco)).
  - rewrite Htl'. intros E. apply (st_rest _ _ _ _ Hst (co_tidy _ _ _ Hco)); [done|]. unfold differs. by rewrite bool_decide_eq_true_2.
Qed.

(** A new object holds one task, with the fields, the name and the
    creation it was made with. *)
Theorem new_object_is_read f name now : writable f -> stampable now -> 10 ∉ name -> trim name = name ->
  exists ics, new_object f name now = Ok ics /\
    parse ics = Ok {| uid := name; fields := f; created_at := Some now; recurring := false |}.
Proof.
  intros Hw Hnow Hn Ht.
  set (fr := {| f_pre := [lit "BEGIN:VCALENDAR"; lit "VERSION:2.0"; lit "PRODID:" ++ Ics.PRODID]; f_begin := lit "BEGIN:VTODO";
                f_end := lit "END:VTODO"; f_post := [lit "END:VCALENDAR"] |}).
  set (b := [lit "UID" ++ 58 :: name; lit "CREATED" ++ 58 :: utc now; lit "SEQUENCE:0"; lit "STATUS:NEEDS-ACTION"]).
  assert (skeleton name now = whole fr b) as Hl by done. destruct (utc_alnum now Hnow) as (_ & Ha & _).
  assert (framed fr) as HF by (split; [repeat constructor..|]; done).
  assert (is_named (lit "UID") (lit "UID" ++ 58 :: name) = true) as Hun by by apply named_bare.
  assert (is_named (lit "CREATED") (lit "CREATED" ++ 58 :: utc now) = true) as Hcn by by apply named_bare.
  destruct (ours_plain (lit "UID") _ eq_refl Hun) as (U1 & U2 & U3 & U4 & U5).
  destruct (ours_plain (lit "CREATED") _ eq_refl Hcn) as (C1 & C2 & C3 & C4 & C5).
  assert (own_of 0 b = b) as Hown by (unfold b; cbn [own_of]; by rewrite U1, U2, C1, C2).
  assert (forall n, props n b = (if bool_decide (n = lit "UID") then [lit "UID" ++ 58 :: name] else []) ++
    (if bool_decide (n = lit "CREATED") then [lit "CREATED" ++ 58 :: utc now] else []) ++ named n [lit "SEQUENCE:0"; lit "STATUS:NEEDS-ACTION"]) as Hprops.
  { intros n. unfold props. rewrite Hown. unfold b. rewrite !(named_cons n (_ ++ 58 :: _)), (is_named_eq _ n _ Hun), (is_named_eq _ n _ Hcn).
    case_bool_decide as E1; case_bool_decide as E2; try done. }
  assert (triggers b = []) as Htr by (unfold triggers, b; rewrite !triggers_skip by done; done).
  assert (tidy b = true) as Hti by (unfold tidy, b; rewrite !tidy_skip by done; done).
  assert (good b) as Hg.
  { constructor; [apply (good_bare (lit "UID")); [done|apply (bool_decide_unpack _); vm_compute; exact I|done|done]|].
    constructor; [apply (good_bare (lit "CREATED")); [done|apply (bool_decide_unpack _); vm_compute; exact I|done|by apply alnum_no_ten]|].
    constructor; [apply (good_bare (lit "SEQUENCE") (lit "0")); try done; apply (bool_decide_unpack _); vm_compute; exact I|].
    constructor; [apply (good_bare (lit "STATUS") (lit "NEEDS-ACTION")); try done; apply (bool_decide_unpack _); vm_compute; exact I|constructor]. }
  assert (sound b) as Hs.
  { split; [unfold balanced, b; cbn [nest]; by rewrite U1, U2, C1, C2|]. by rewrite Hprops. }
  assert (forall n, n <> lit "UID" -> n <> lit "CREATED" -> seen n b = hd_error (named n [lit "SEQUENCE:0"; lit "STATUS:NEEDS-ACTION"])) as Hseen.
  { intros n H1 H2. unfold seen. by rewrite Hprops, !bool_decide_eq_false_2. }
  assert (shows b default_fields) as Hsh.
  { split; cbn [title note due_at priority completed_at reminder_at rrule default_fields].
    - unfold text_seen. by rewrite Hseen.
    - unfold text_seen. by rewrite Hseen.
    - unfold instant_seen. by rewrite Hseen.
    - unfold priority_seen. by rewrite Hseen.
    - unfold status_seen. by rewrite Hseen.
    - unfold reminder_seen. by rewrite Htr.
    - by rewrite Hseen. }
  assert (complex b = false) as Hc by (unfold complex; by rewrite !Hprops).
  assert (compatible default_fields f b) as Hco.
  { split; cbn [title note due_at priority completed_at reminder_at rrule default_fields].
    - done.
    - by left.
    - intros <- _. by rewrite Hseen.
    - intros _ _ t. rewrite Htr. by intros []%not_elem_of_nil.
    - intros t. by rewrite Htr.
    - intros line from fd to td due. by rewrite Hseen. }
  destruct (apply_does fr HF default_fields f now false b (conj Hs (conj Hg Hti)) Hsh Hc Hw Hco Hnow) as (b' & Hap & Hst & Hsh' & Hc' & Hu' & Hcr').
  assert (sound b') as Hs'.
  { eapply sound_steps; [exact Hst|apply touched_out|done]. }
  assert (Ics.content_lines (whole fr b)) as Hcl.
  { split.
    - unfold whole. repeat (apply Forall_cons; split; [split; [done|apply (bool_decide_unpack _); vm_compute; exact I]|]).
      apply Forall_app_2; [eapply Forall_impl; [exact Hg|]; by intros l [Hl' _]|].
      repeat (apply Forall_cons; split; [split; [done|apply (bool_decide_unpack _); vm_compute; exact I]|]). constructor.
    - unfold whole. cbn [app tail]. repeat (apply Forall_cons; split; [done|]). constructor. }
  destruct (whole_lines fr b b' Hcl (st_good _ _ _ _ Hst)) as [_ Hcl'].
  exists (Ics.render (whole fr b')). split; [unfold new_object; by rewrite Hl, Hap|].
  unfold parse. rewrite (Ics.unfold_render _ Hcl'), (read_shows fr HF b' f Hs' Hsh' Hc'). do 2 f_equal.
  - rewrite Hu'. unfold uid_seen, seen. rewrite Hprops. cbn [bool_decide app hd_error fmap option_fmap option_map unwrap_or].
    rewrite bool_decide_eq_true_2 by done. cbn [app hd_error fmap option_fmap option_map unwrap_or]. by rewrite value_of_bare.
  - rewrite Hcr'. unfold instant_seen, seen. rewrite Hprops, bool_decide_eq_false_2, bool_decide_eq_true_2 by done. cbn [app hd_error mbind option_bind].
    by apply (utc_instant (lit "CREATED")).
Qed.
End RoundTrip.

(** The rule a task is stored with can be written. *)
Lemma stored_rule_written `{C : Calendar} {CL : CalendarLaws C} `{Z0 : Zone} `{D : Stamps} {SL : RRule.StampLaws Z0 D} {SD : SameDay Z0}
    (rule : Recurrence.Recurrence) due a all_day :
  RRule.writable rule -> in_range a -> due_day due = Some (a, all_day) ->
  let stored := RRule.format (Recurrence.anchored rule a) a all_day in
  10 ∉ stored /\ rule_of (Some (lit "RRULE:" ++ stored)) (Some due) = Ok stored.
Proof.
  intros Hw Ha Hd stored. set (r := Recurrence.anchored rule a) in *.
  assert (RRule.writable r) as Hwr by by apply TaskRepeat.writable_anchored. split.
  - destruct (RRule.no_break_parts r a all_day Hwr Ha) as [Hg _]. intros Hin.
    pose proof (RRule.no_space_join _ Hg) as Hs. rewrite Forall_forall in Hs. by specialize (Hs _ Hin).
  - unfold rule_of. change (lit "RRULE:" ++ stored) with (lit "RRULE" ++ 58 :: stored). rewrite value_of_bare by done.
    unfold stored at 1. rewrite RRule.parse_format by done. cbn [mbind result_bind]. cbn [option_bind mbind]. rewrite Hd. cbn [ok_or mbind result_bind].
    assert (is_some_and (fun m => negb (m =? month a)) (if bool_decide (Recurrence.freq r = Recurrence.Yearly) then Some (month a) else None) = false) as ->.
    { case_bool_decide; [|done]. cbn. by rewrite Z.eqb_refl. }
    rewrite Recurrence.anchored_again by by apply TaskRepeat.spelled_read_back. by rewrite TaskRepeat.format_read_back.
Qed.

(** ** The promise kept *)

Section Promise.
Context `{Calendar} `{Zone} `{Stamps} `{Zones}.

(** Errors as the synchronization keeps them. *)
Definition said {A} (r : result Tasks.error A) : result text A :=
  match r with
  | Ok a => Ok a
  | Err (Tasks.Bail m) => Err m
  | Err Tasks.Panicked => Err (lit "panicked")
  end.

Lemma said_Ok {A} (r : result Tasks.error A) a : said r = Ok a <-> r = Ok a.
Proof. unfold said. destruct r as [|[]]; split; congruence. Qed.

Lemma patch_refuses_series ics todo f now : said (parse ics) = Ok todo -> recurring todo = true ->
  said (patch ics f now) = Err NOT_CHANGED_HERE.
Proof.
  intros Hp%said_Ok Hr. unfold patch. unfold parse in Hp. rewrite Hp. cbn [mbind result_bind]. by rewrite Hr.
Qed.

Lemma rules_have_dues ics todo : said (parse ics) = Ok todo -> rrule (fields todo) <> [] -> is_Some (due_at (fields todo)).
Proof.
  intros Hp%said_Ok Hr. unfold parse, read in Hp. apply bind_Ok in Hp as ([s cx] & _ & Hp). cbv zeta in Hp.
  apply bind_Ok in Hp as ([rule rep] & Hrule & [= <-]). cbn [fields rrule due_at] in *.
  destruct (rule_of _ _) as [r|[]] eqn:Er; [|by simplify_eq|done]. destruct cx; [by simplify_eq|]. injection Hrule as -> _.
  unfold rule_of in Er. destruct (get_in _ (lit "RRULE")); [|by simplify_eq]. apply bind_Ok in Er as ([rl m] & _ & Er).
  apply bind_Ok in Er as ([d a] & Hd & _). apply ok_or_Ok in Hd. destruct (get_in _ (lit "DUE") ≫= time_value); [by eexists|done].
Qed.

Definition vtodo_format : TodoFormat := {|
  Todo.parse := fun ics => said (parse ics);
  Todo.patch := fun ics f now => said (patch ics f now);
  Todo.new_object := fun f name now => unwrap_or [] (ok (new_object f name now));
  Todo.patch_refuses := patch_refuses_series;
  Todo.rule_has_due := rules_have_dues
|}.
End Promise.

(** ** Objects *)

#[local] Existing Instance Recurrence.Demo.utc.
#[local] Existing Instance RRule.Demo.digits.
#[local] Instance no_zones : Zones := {| zone_named := fun _ => None |}.

Module Demo.

(** Wednesday 15 November 2023, and the same time a day later. *)
Definition wednesday : Z := 1700006400.
Definition thursday : Z := 1700092800.
Definition hour : Z := 3600.

Definition object (ls : list text) : text :=
  Ics.render ([lit "BEGIN:VCALENDAR"; lit "X-WR-CALNAME:Home"; lit "BEGIN:VTODO"; lit "UID:a"; lit "SUMMARY:Water the plants"] ++ ls ++
              [lit "END:VTODO"; lit "END:VCALENDAR"]).

Definition plants (due : Z) (rule : text) (reminder : option Z) : Fields :=
  {| title := lit "Water the plants"; note := []; due_at := Some due; priority := 1; completed_at := None; reminder_at := reminder; rrule := rule |}.

Definition fields_read (r : result Tasks.error text) : option Fields := o ← ok r; t ← ok (parse o); Some (fields t).

Definition weekly : text := object [lit "DUE;VALUE=DATE:20231115"; lit "RRULE:FREQ=WEEKLY"].
Definition reminded : text :=
  object [lit "DUE;VALUE=DATE:20231115"; lit "BEGIN:VALARM"; lit "ACTION:DISPLAY"; lit "TRIGGER:-PT1H"; lit "END:VALARM"].
Definition done_elsewhere : text := object [lit "STATUS:COMPLETED"; lit "LAST-MODIFIED:20231115T000000Z"].
Definition tagged : text :=
  object [lit "CATEGORIES:home"; lit "DUE;VALUE=DATE:20231115"; lit "X-APPLE-SORT-ORDER:7"].
End Demo.

(** A rule that leaves its day to the due date is kept as it is when the date
    is moved: the task repeats on another day. *)
Example an_implied_day_drifts :
  Demo.fields_read (Ok Demo.weekly) = Some (Demo.plants Demo.wednesday (lit "FREQ=WEEKLY;BYDAY=WE") None) /\
  Demo.fields_read (patch Demo.weekly (Demo.plants Demo.thursday (lit "FREQ=WEEKLY;BYDAY=WE") None) Demo.wednesday) =
    Some (Demo.plants Demo.thursday (lit "FREQ=WEEKLY;BYDAY=TH") None).
Proof. split; vm_compute; reflexivity. Qed.

(** An alarm set from the due date moves with it on the server, where the
    reminder was not to move. *)
Example a_kept_reminder_moves :
  Demo.fields_read (Ok Demo.reminded) = Some (Demo.plants Demo.wednesday [] (Some (Demo.wednesday - Demo.hour))) /\
  Demo.fields_read (patch Demo.reminded (Demo.plants Demo.thursday [] (Some (Demo.wednesday - Demo.hour))) Demo.wednesday) =
    Some (Demo.plants Demo.thursday [] (Some (Demo.thursday - Demo.hour))).
Proof. split; vm_compute; reflexivity. Qed.

(** A task completed elsewhere without saying when is completed anew by any
    change here. *)
Example a_completion_moves :
  (completed_at <$> Demo.fields_read (Ok Demo.done_elsewhere)) = Some (Some Demo.wednesday) /\
  (completed_at <$> Demo.fields_read (patch Demo.done_elsewhere
     {| title := lit "Water"; note := []; due_at := None; priority := 1; completed_at := Some Demo.wednesday; reminder_at := None; rrule := [] |}
     Demo.thursday)) = Some (Some Demo.thursday).
Proof. split; vm_compute; reflexivity. Qed.

(** ** Instances *)

Definition moved_on : Fields := Demo.plants Demo.thursday [] None.

Lemma moved_writable : writable moved_on.
Proof.
  split; cbn [moved_on Demo.plants title note due_at priority completed_at reminder_at rrule].
  - apply (bool_decide_unpack _). vm_compute. exact I.
  - apply (bool_decide_unpack _). vm_compute. exact I.
  - intros i [= <-]. split; [|by vm_compute]. split; [by split; vm_compute|]. intros n Hn _. vm_compute in Hn. injection Hn as <-.
    split; [reflexivity|]. by split; vm_compute.
  - done.
  - done.
  - done.
  - by left.
Qed.

Lemma patch_writes_what_changed_witness : exists ics',
  patch Demo.tagged moved_on Demo.wednesday = Ok ics' /\
  Demo.fields_read (Ok ics') = Some moved_on /\
  let names := touched (Demo.plants Demo.wednesday [] None) moved_on true in
  names = [lit "DUE"; lit "DTSTAMP"; lit "LAST-MODIFIED"; lit "SEQUENCE"] /\
  rest 0 names (task_lines ics') =
    [lit "UID:a"; lit "SUMMARY:Water the plants"; lit "CATEGORIES:home"; lit "X-APPLE-SORT-ORDER:7"].
Proof.
  destruct (patch_writes_what_changed (CL := gregorian_laws) (SL := RRule.Demo.digits_laws) Demo.tagged
    {| uid := lit "a"; fields := Demo.plants Demo.wednesday [] None; created_at := None; recurring := false |} moved_on Demo.wednesday)
    as (ics' & Hp & Hr & _ & _ & Hrest).
  - vm_compute. reflexivity.
  - reflexivity.
  - exact moved_writable.
  - split.
    + vm_compute. reflexivity.
    + intros _. left. reflexivity.
    + intros _ _. vm_compute. reflexivity.
    + intros _ _ t Ht. vm_compute in Ht. by apply not_elem_of_nil in Ht.
    + intros t Ht. vm_compute in Ht. discriminate Ht.
    + intros line from fd to td due Hl. vm_compute in Hl. discriminate Hl.
  - by split; vm_compute.
  - exists ics'. split; [exact Hp|]. split; [unfold Demo.fields_read; cbn [ok mbind option_bind]; rewrite Hr; reflexivity|].
    cbv zeta. split; [vm_compute; reflexivity|]. etransitivity; [exact (Hrest eq_refl)|]. vm_compute. reflexivity.
Defined.

Definition birthday : Fields :=
  {| title := lit "Birthday; cake, candles"; note := lit "two" ++ [10] ++ lit "lines"; due_at := Some Demo.thursday; priority := 2; completed_at := None;
     reminder_at := Some Demo.wednesday; rrule := lit "FREQ=YEARLY;BYMONTH=11;BYMONTHDAY=16" |}.

Lemma birthday_writable : writable birthday.
Proof.
  split; cbn [birthday title note due_at priority completed_at reminder_at rrule].
  - apply (bool_decide_unpack _). vm_compute. exact I.
  - apply (bool_decide_unpack _). vm_compute. exact I.
  - intros i [= <-]. split; [|by vm_compute]. split; [by split; vm_compute|]. intros n Hn _. vm_compute in Hn. injection Hn as <-.
    split; [reflexivity|]. by split; vm_compute.
  - done.
  - done.
  - intros i [= <-]. split; [by split; vm_compute|by vm_compute].
  - right. split; [apply (bool_decide_unpack _); vm_compute; exact I|]. vm_compute. reflexivity.
Qed.

Lemma new_object_is_read_witness : exists ics,
  new_object birthday (lit "b@oreneta") Demo.wednesday = Ok ics /\ Demo.fields_read (Ok ics) = Some birthday.
Proof.
  destruct (new_object_is_read (CL := gregorian_laws) (SL := RRule.Demo.digits_laws) birthday (lit "b@oreneta") Demo.wednesday) as (ics & Hn & Hr).
  - exact birthday_writable.
  - by split; vm_compute.
  - apply (bool_decide_unpack _). vm_compute. exact I.
  - reflexivity.
  - exists ics. split; [exact Hn|]. unfold Demo.fields_read. cbn [ok mbind option_bind]. rewrite Hr. reflexivity.
Defined.
End VtodoRoundTrip.
