(* ===== verification/TaskSync.v ===== *)
(** * Task lists kept on a CalDAV server

    Models [meron-core/src/task_sync/mod.rs]: binding a list to a
    collection, sending what changed here, reading the collection whole and
    reconciling, and settling a conflict.  A sync is a program whose calls
    are a request to the server, the reading of the whole collection, the
    start of a new identifier, and a use of the database; between two of
    them anything may happen, here and on the server. *)
From S2P Require Import Prelude Text Program Calendar Recurrence RRule Todo Dav Tasks.
From coqutil Require Import Datatypes.RecordSetters.
From S2P Require Import Table.
Import TriangleBracketNotations.
#[local] Open Scope record_set.
#[local] Open Scope Z_scope.

Module TaskSync.
Import Tasks.

Definition secret_key (list_id : text) : text := lit "caldav-tasks:" ++ list_id.

(** Where a bound list is kept and who signs in there. *)
Record Binding := { b_list : text; b_url : text; b_user : text }.

(** One object of a collection. *)
Record Object := { href : text; o_etag : text; ics : text }.

(** What a sync did. *)
Record Report := {
  pushed : Z;
  pulled : Z;
  removed : Z;
  in_conflict : Z;
  stopped_early : bool;
  rejected : Z
}.

Definition no_report : Report :=
  {| pushed := 0; pulled := 0; removed := 0; in_conflict := 0; stopped_early := false; rejected := 0 |}.

Inductive Ev : Type -> Type :=
| Send (r : Dav.DavRequest) : Ev (result text Dav.HttpReply)
| FetchTodos (collection : text) : Ev (result text (list Object))
| NewUuid : Ev text
| WithDb {X} (f : Db -> Db * X) : Ev X.

Definition send (r : Dav.DavRequest) : prog Ev (result text Dav.HttpReply) := call (Send r).
Definition with_db {X} (f : Db -> Db * X) : prog Ev X := call (WithDb f).
Definition change (f : Db -> Db) : prog Ev unit := with_db (fun db => (f db, tt)).
Definition look {X} (f : Db -> X) : prog Ev X := with_db (fun db => (db, f db)).

(** What this client shows of a task, in the terms of a calendar object. *)
Definition content (t : Task) : Todo.Fields :=
  {| Todo.title := title t; Todo.note := note t; Todo.due_at := due_at t; Todo.priority := priority t;
     Todo.completed_at := completed_at t; Todo.reminder_at := reminder_at t; Todo.rrule := rrule t |}.

(** ** Binding *)

Definition binding (db : Db) (list_id : text) : option Binding :=
  l ← query_row (fun l => is_list list_id l && negb (is_nil (remote_url l))) (lists db);
  Some {| b_list := l_id l; b_url := remote_url l; b_user := remote_user l |}.

Definition bindings (db : Db) : list Binding :=
  (fun l => {| b_list := l_id l; b_url := remote_url l; b_user := remote_user l |})
    <$> order_by (fun a b => l_position a <=? l_position b)
          (select (fun l => negb (is_nil (remote_url l))) (lists db)).

Definition update_lists (p : ListRow -> bool) (f : ListRow -> ListRow) (db : Db) : Db :=
  db <| lists := Table.update p f (lists db) |>.

Definition bound_to (address user : text) (l : ListRow) : ListRow :=
  l <| remote_url := address |> <| remote_user := user |>.

Section Sync.
Context `{Urls} `{Todo.TodoFormat}.

(** A new list bound to a collection, somewhere the password may go from
    the server the person typed. *)
Definition add_list (db : Db) (name_from_url : text -> text) (uuid name address server user : text) (now : Z) : op text :=
  match parse_url (trim address) with
  | None => bail (lit "that collection address is not a URL")
  | Some u =>
      if negb (bool_decide (scheme u = lit "http") || bool_decide (scheme u = lit "https"))
      then bail (lit "that collection address is not a web address")
      else
        let collection := url_text u in
        _ ← (if is_nil (trim server) then Ok tt
             else match Dav.starting_point_for server (lit "/.well-known/caldav") with
                  | Err e => bail e
                  | Ok start =>
                      if Dav.credentials_may_follow start collection then Ok tt
                      else bail (lit "that collection is somewhere the password must not go; nothing was sent there")
                  end);
        if existsb (fun l => bool_decide (remote_url l = collection)) (lists db)
        then bail (lit "that collection is already a task list here")
        else
          let name := if is_nil (trim name) then name_from_url collection else name in
          '(db', i) ← create_list db uuid name now;
          Ok (update_lists (is_list i) (bound_to collection user) db', i)
  end.

(** ** Sending *)

(** A task with a change waiting to be sent. *)
Record Pending := {
  p_id : Z;
  p_fields : Todo.Fields;
  p_href : text;
  p_etag : text;
  p_ics : text;
  p_pending : text;
  p_recurring : bool;
  p_seq : Z
}.

Definition as_pending (t : Task) : Pending :=
  {| p_id := id t; p_fields := content t; p_href := remote_href t; p_etag := remote_etag t; p_ics := remote_ics t;
     p_pending := pending t; p_recurring := recurring t; p_seq := sync_seq t |}.

(** [… WHERE list_id = ?1 AND pending <> '' ORDER BY id] *)
Definition queue (db : Db) (list_id : text) : list Pending :=
  as_pending <$> order_by (fun a b => id a <=? id b)
    (select (fun t => in_list list_id t && negb (is_nil (pending t))) (tasks db)).

Definition conflicted (reason : text) (t : Task) : Task := t <| conflict := reason |>.
Definition mark_conflict (i : Z) (reason : text) (db : Db) : Db := update_tasks (with_id i) (conflicted reason) db.

Definition blocked (db : Db) (list_id : text) : bool :=
  existsb (fun t => in_list list_id t && negb (is_nil (conflict t))) (tasks db).

(** The place of a new task, kept before it is sent. *)
Definition placed (place object : text) (t : Task) : Task :=
  t <| remote_href := place |> <| remote_ics := object |>.

(** The version the server now has.  A change made here while it was being
    sent stays pending. *)
Definition sent (version object : text) (seq : Z) (t : Task) : Task :=
  t <| remote_etag := version |> <| remote_ics := object |>
    <| pending := if sync_seq t =? seq then [] else pending t |>.

#[local] Open Scope prog_scope.

(** Whether the queue goes on. *)
Inductive Next := GoOn (r : Report) | Stop (r : Report).

Definition conflict_found (i : Z) (r : Report) : prog Ev (result text Next) :=
  _ <- change (mark_conflict i (lit "changed")) ;;
  Ret (Ok (Stop (r <| in_conflict := in_conflict r + 1 |> <| stopped_early := true |>))).

Definition push_delete (b : Binding) (p : Pending) (r : Report) : prog Ev (result text Next) :=
  if is_nil (p_etag p) || is_nil (p_href p) then
    _ <- change (delete_tasks (with_id (p_id p))) ;;
    Ret (Ok (GoOn r))
  else
    written <-? Dav.delete_object send (b_url b) (p_href p) (p_etag p) ;;
    match written with
    | Dav.Saved _ =>
        _ <- change (delete_tasks (fun t => with_id (p_id p) t && deleting t)) ;;
        Ret (Ok (GoOn (r <| pushed := pushed r + 1 |>)))
    | Dav.Conflict => conflict_found (p_id p) r
    end.

(** Where a task goes and what is written there.  A new one's place is
    chosen and kept before it is sent: if the answer is lost, the next
    attempt goes to the same place and cannot make a second copy. *)
Definition prepare (b : Binding) (now : Z) (p : Pending) : prog Ev (result text (text * text)) :=
  if is_nil (p_href p) || is_nil (p_ics p) then
    uuid <- call NewUuid ;;
    let uid := uuid ++ lit "@oreneta" in
    place <-? (if is_nil (p_href p) then Ret (Dav.new_href (b_url b) uid) else Ret (Ok (p_href p))) ;;
    let object := Todo.new_object (p_fields p) uid now in
    _ <- change (update_tasks (with_id (p_id p)) (placed place object)) ;;
    Ret (Ok (place, object))
  else
    Ret (object ← Todo.patch (p_ics p) (p_fields p) now; Ok (p_href p, object)).

Definition push_put (b : Binding) (now : Z) (p : Pending) (r : Report) : prog Ev (result text Next) :=
  prepared <-? prepare b now p ;;
  let '(place, object) := prepared in
  let condition := if is_nil (p_etag p) then None else Some (p_etag p) in
  written <-? Dav.put_object send (b_url b) place object condition ;;
  match written with
  | Dav.Saved version =>
      _ <- change (update_tasks (with_id (p_id p)) (sent (unwrap_or [] version) object (p_seq p))) ;;
      Ret (Ok (GoOn (r <| pushed := pushed r + 1 |>)))
  | Dav.Conflict => conflict_found (p_id p) r
  end.

Definition push_one (b : Binding) (now : Z) (p : Pending) (r : Report) : prog Ev (result text Next) :=
  if bool_decide (p_pending p = lit "delete") then push_delete b p r
  else if p_recurring p then Ret (Ok (GoOn r))
  else push_put b now p r.

(** Oldest task first, up to the first conflict or error. *)
Fixpoint push_all (b : Binding) (now : Z) (ps : list Pending) (r : Report) : prog Ev (result text Report) :=
  match ps with
  | [] => Ret (Ok r)
  | p :: rest =>
      next <-? push_one b now p r ;;
      match next with
      | GoOn r' => push_all b now rest r'
      | Stop r' => Ret (Ok r')
      end
  end.

Definition push (b : Binding) (now : Z) : prog Ev (result text Report) :=
  seen <- look (fun db => (queue db (b_list b), blocked db (b_list b))) ;;
  let '(waiting, is_blocked) := seen in
  if is_blocked : bool then Ret (Ok (no_report <| stopped_early := negb (is_nil waiting) |>))
  else push_all b now waiting no_report.

(** ** Reconciling *)

Definition past_reminder (now : Z) (at_ : option Z) : option Z :=
  match at_ with Some a => if a <=? now then Some now else None | None => None end.

(** The server's copy over a local task, which then has nothing pending.  A
    reminder already past rings no more. *)
Definition server_copy (o : Object) (todo : Todo.Todo) (now : Z) (t : Task) : Task :=
  let f := Todo.fields todo in
  t <| title := Todo.title f |> <| note := Todo.note f |> <| due_at := Todo.due_at f |>
    <| priority := Todo.priority f |> <| completed_at := Todo.completed_at f |>
    <| reminded_at := if bool_decide (reminder_at t = Todo.reminder_at f) then reminded_at t
                      else past_reminder now (Todo.reminder_at f) |>
    <| reminder_at := Todo.reminder_at f |> <| remote_etag := o_etag o |> <| remote_ics := ics o |>
    <| recurring := Todo.recurring todo |> <| rrule := Todo.rrule f |> <| pending := [] |> <| conflict := [] |>
    <| revision := revision t + 1 |>.

Definition take_server_copy (i : Z) (o : Object) (todo : Todo.Todo) (now : Z) (db : Db) : Db :=
  update_tasks (with_id i) (server_copy o todo now) db.

Definition from_server (list_id_ : text) (o : Object) (todo : Todo.Todo) (now : Z) (t : Task) : Task :=
  let f := Todo.fields todo in
  t <| note := Todo.note f |> <| due_at := Todo.due_at f |> <| created_at := unwrap_or now (Todo.created_at todo) |>
    <| list_id := list_id_ |> <| title := Todo.title f |> <| priority := Todo.priority f |>
    <| reminder_at := Todo.reminder_at f |> <| reminded_at := past_reminder now (Todo.reminder_at f) |>
    <| completed_at := Todo.completed_at f |> <| remote_href := href o |> <| remote_etag := o_etag o |>
    <| remote_ics := ics o |> <| recurring := Todo.recurring todo |> <| rrule := Todo.rrule f |>.

Definition insert_server_copy (list_id_ : text) (o : Object) (todo : Todo.Todo) (now : Z) (db : Db) : Db :=
  (insert (from_server list_id_ o todo now) db).1.

Record Known := { k_task : Z; k_etag : text; k_pending : text; k_conflict : text }.

Definition as_known (t : Task) : text * Known :=
  (remote_href t, {| k_task := id t; k_etag := remote_etag t; k_pending := pending t; k_conflict := conflict t |}).

(** Collected into a map: of two rows with one place, the later stays. *)
Definition known (db : Db) (list_id_ : text) : gmap text Known :=
  list_to_map (rev (as_known <$> select (fun t => in_list list_id_ t && negb (is_nil (remote_href t))) (tasks db))).

Fixpoint parse_all (objects : list Object) : result text (list (Object * Todo.Todo)) :=
  match objects with
  | [] => Ok []
  | o :: rest =>
      match Todo.parse (ics o) with
      | Ok todo => more ← parse_all rest; Ok ((o, todo) :: more)
      | Err e => Err (lit "the task at " ++ href o ++ lit " could not be read; the last complete copy is kept: " ++ e)
      end
  end.

(** One object of the collection, against what was known of its place. *)
Definition reconcile_object (b : Binding) (now : Z) (k : gmap text Known) (st : Db * Report) (ot : Object * Todo.Todo) :
    Db * Report :=
  let (db, r) := st in
  let (o, todo) := ot in
  match k !! href o with
  | None => (insert_server_copy (b_list b) o todo now db, r <| pulled := pulled r + 1 |>)
  | Some local =>
      if negb (is_nil (o_etag o)) && bool_decide (o_etag o = k_etag local) then (db, r)
      else if is_nil (k_pending local) then
        (take_server_copy (k_task local) o todo now db, r <| pulled := pulled r + 1 |>)
      else if bool_decide (k_conflict local = lit "changed") then (db, r)
      else (mark_conflict (k_task local) (lit "changed") db, r <| in_conflict := in_conflict r + 1 |>)
  end.

(** One place known here, against what the collection has. *)
Definition reconcile_known (seen : list text) (st : Db * Report) (place_local : text * Known) : Db * Report :=
  let (db, r) := st in
  let (place, local) := place_local in
  if bool_decide (place ∈ seen) then (db, r)
  else if is_nil (k_pending local) || bool_decide (k_pending local = lit "delete") then
    (delete_tasks (with_id (k_task local)) db, r <| removed := removed r + 1 |>)
  else if is_nil (k_etag local) && is_nil (k_conflict local) then (db, r)
  else if bool_decide (k_conflict local = lit "deleted") then (db, r)
  else (mark_conflict (k_task local) (lit "deleted") db, r <| in_conflict := in_conflict r + 1 |>).

(** Every object is read before anything is written. *)
Definition reconcile `{!HashOrder text Known} (b : Binding) (objects : list Object) (now : Z) (r : Report) (db : Db) :
    Db * result text Report :=
  match parse_all objects with
  | Err e => (db, Err e)
  | Ok parsed =>
      let k := known db (b_list b) in
      let st := foldl (reconcile_object b now k) (db, r) parsed in
      let (db', r') := foldl (reconcile_known (href <$> objects)) st (iter k) in
      (db', Ok r')
  end.

(** ** One sync *)

Definition synced (now : Z) (l : ListRow) : ListRow := l <| synced_at := Some now |> <| last_error := [] |>.
Definition failed (why : text) (l : ListRow) : ListRow := l <| last_error := why |>.

Definition sync `{!HashOrder text Known} (list_id_ : text) (now : Z) : prog Ev (result text Report) :=
  b <- look (fun db => binding db list_id_) ;;
  match b with
  | None => Ret (Err (lit "this list is not kept on a server"))
  | Some b =>
      outcome <- (r <-? push b now ;;
                  objects <-? call (FetchTodos (b_url b)) ;;
                  with_db (reconcile b objects now r)) ;;
      _ <- change (update_lists (is_list list_id_) (match outcome with Ok _ => synced now | Err e => failed e end)) ;;
      Ret outcome
  end.

(** ** Settling a conflict *)

Inductive Keep := Mine | Server.

Definition keep_parse (s : text) : option Keep :=
  if bool_decide (s = lit "mine") then Some Mine
  else if bool_decide (s = lit "server") then Some Server
  else None.

(** The local copy queued against the version on the server now. *)
Definition mine_over (object version : text) (t : Task) : Task :=
  t <| remote_ics := object |> <| remote_etag := version |> <| conflict := [] |>
    <| pending := if is_nil (pending t) then lit "put" else pending t |> <| sync_seq := sync_seq t + 1 |>.

(** Created again where it was, from the last copy read. *)
Definition mine_again (t : Task) : Task :=
  t <| remote_etag := [] |> <| conflict := [] |> <| pending := lit "put" |> <| sync_seq := sync_seq t + 1 |>.

Definition settle (i : Z) (t : Task) (keep : Keep) (current : option (text * text)) (now : Z) : prog Ev (result text unit) :=
  match keep, current with
  | Server, Some (object, version) =>
      let o := {| href := remote_href t; o_etag := version; ics := object |} in
      match Todo.parse object with
      | Err e => Ret (Err e)
      | Ok todo => _ <- change (take_server_copy i o todo now) ;; Ret (Ok tt)
      end
  | Server, None => _ <- change (delete_tasks (with_id i)) ;; Ret (Ok tt)
  | Mine, Some (object, version) => _ <- change (update_tasks (with_id i) (mine_over object version)) ;; Ret (Ok tt)
  | Mine, None =>
      if deleting t then _ <- change (delete_tasks (with_id i)) ;; Ret (Ok tt)
      else _ <- change (update_tasks (with_id i) mine_again) ;; Ret (Ok tt)
  end.

(** Answers the task's list, to sync next. *)
Definition resolve_conflict (i : Z) (keep : Keep) (now : Z) : prog Ev (result text text) :=
  row <- look (fun db => query_row (with_id i) (tasks db)) ;;
  match row with
  | None => Ret (Err (lit "this task no longer exists"))
  | Some t =>
      if is_nil (conflict t) then Ret (Err (lit "this task has no conflict to settle"))
      else
        b <- look (fun db => binding db (list_id t)) ;;
        match b with
        | None => Ret (Err (lit "this list is not kept on a server"))
        | Some b =>
            current <-? (if is_nil (remote_href t) then Ret (Ok None)
                         else Dav.get_object send (b_url b) (remote_href t)) ;;
            _ <-? settle i t keep current now ;;
            Ret (Ok (list_id t))
        end
  end.
End Sync.
End TaskSync.
