(* ===== verification/TaskEvolves.v ===== *)
(** * What a sync may find changed

    Between two calls of a sync the person goes on working.  However the
    tables change meanwhile ([TaskLaws.step]), a task of a list kept on a
    server is either new and waiting to be sent, or the one it was: in the
    same list, with the same place and version on the server, and saying
    what it said unless its [sync_seq] has grown and it waits to be sent. *)
From S2P Require Import Prelude Text Program Calendar Recurrence RRule Todo Dav Tasks TaskLaws TaskSync.
From coqutil Require Import Datatypes.RecordSetters.
From S2P Require Import Table.
Import TriangleBracketNotations.
#[local] Open Scope record_set.
#[local] Open Scope Z_scope.

Module TaskEvolves.
Import Tasks TaskLaws TaskSync.

(** The same task, later. *)
Record later (t t' : Task) : Prop := {
  la_id : id t' = id t;
  la_list : list_id t' = list_id t;
  la_remote : remote_href t' = remote_href t /\ remote_etag t' = remote_etag t /\ remote_ics t' = remote_ics t;
  la_seq : sync_seq t <= sync_seq t';
  la_same : sync_seq t' = sync_seq t -> content t' = content t /\ pending t' = pending t;
  la_waits : sync_seq t' <> sync_seq t -> pending t' <> []
}.

#[export] Instance later_preorder : PreOrder later.
Proof.
  split.
  - intros t. by split.
  - intros a b c [I1 L1 (H1 & E1 & C1) S1 M1 W1] [I2 L2 (H2 & E2 & C2) S2 M2 W2]. split.
    + congruence.
    + congruence.
    + split_and!; congruence.
    + lia.
    + intros Hs. destruct (M2 ltac:(lia)) as [-> ->]. apply M1. lia.
    + intros Hs. destruct (decide (sync_seq c = sync_seq b)) as [E|E]; [|by apply W2].
      destruct (M2 E) as [_ ->]. apply W1. lia.
Qed.

(** A row stays the row it was, in the list it was in if that is kept on a
    server. *)
Record stays (db db' : Db) (t t' : Task) : Prop := {
  st_id : id t' = id t;
  st_key : thread_key t' = thread_key t;
  st_list : kept_on_server db (list_id t) = true -> list_id t' = list_id t /\ kept_on_server db' (list_id t') = true
}.

Lemma stays_refl db t : stays db db t t.
Proof. by split. Qed.

Lemma stays_trans a b c t1 t2 t3 : stays a b t1 t2 -> stays b c t2 t3 -> stays a c t1 t3.
Proof.
  intros [I1 K1 L1] [I2 K2 L2]. split; [congruence|congruence|].
  intros Hk. destruct (L1 Hk) as [E1 Hk2]. destruct (L2 Hk2) as [E2 Hk3]. split; [congruence|done].
Qed.

Record evolves (db db' : Db) : Prop := {
  ev_last : last_id db <= last_id db';
  ev_lists : forall l', l' ∈ lists db' -> on_server l' = true ->
    exists l, l ∈ lists db /\ l_id l = l_id l' /\ remote_url l = remote_url l' /\ ews_account l = ews_account l';
  ev_tasks : forall t', t' ∈ tasks db' -> kept_on_server db' (list_id t') = true ->
    (last_id db < id t' /\ pending t' <> []) \/ exists t, t ∈ tasks db /\ later t t';
  ev_rows : forall t', t' ∈ tasks db' -> last_id db < id t' \/ exists t, t ∈ tasks db /\ stays db db' t t'
}.

Lemma on_server_cols l l' : remote_url l = remote_url l' -> ews_account l = ews_account l' -> on_server l = on_server l'.
Proof. unfold on_server. by intros -> ->. Qed.

Lemma kept_iff db i : kept_on_server db i = true <-> exists l, l ∈ lists db /\ l_id l = i /\ on_server l = true.
Proof.
  unfold kept_on_server, is_list. rewrite existsb_elem. split.
  - intros (l & Hl & Hs). bools in Hs. naive_solver.
  - intros (l & Hl & Hi & Ho). exists l. bools. naive_solver.
Qed.

Lemma evolves_kept db db' i : evolves db db' -> kept_on_server db' i = true -> kept_on_server db i = true.
Proof.
  intros Hev. rewrite !kept_iff. intros (l' & Hl' & Hi & Ho).
  destruct (ev_lists _ _ Hev l' Hl' Ho) as (l & Hl & E1 & E2 & E3). exists l.
  split; [done|]. split; [congruence|]. by rewrite (on_server_cols l l').
Qed.

#[export] Instance evolves_preorder : PreOrder evolves.
Proof.
  split.
  - intros db. split; [done| | |]; [intros l Hl Ho; eauto| |].
    + intros t Ht _. right. by exists t.
    + intros t Ht. right. exists t. split; [done|apply stays_refl].
  - intros a b c Hab Hbc. split.
    + pose proof (ev_last _ _ Hab). pose proof (ev_last _ _ Hbc). lia.
    + intros l3 H3 O3. destruct (ev_lists _ _ Hbc l3 H3 O3) as (l2 & H2 & E1 & E2 & E3).
      assert (on_server l2 = true) as O2 by (by rewrite (on_server_cols l2 l3)).
      destruct (ev_lists _ _ Hab l2 H2 O2) as (l1 & H1 & F1 & F2 & F3). exists l1. split_and!; congruence || done.
    + intros t3 H3 K3. destruct (ev_tasks _ _ Hbc t3 H3 K3) as [[Hn Hp]|(t2 & H2 & L2)].
      { left. split; [|done]. pose proof (ev_last _ _ Hab). lia. }
      assert (kept_on_server b (list_id t2) = true) as K2.
      { apply (evolves_kept b c); [done|]. by rewrite <- (la_list _ _ L2). }
      destruct (ev_tasks _ _ Hab t2 H2 K2) as [[Hn Hp]|(t1 & H1 & L1)].
      * left. rewrite (la_id _ _ L2). split; [done|].
        destruct (decide (sync_seq t3 = sync_seq t2)) as [E|E]; [|by apply (la_waits _ _ L2)].
        by destruct (la_same _ _ L2 E) as [_ ->].
      * right. exists t1. split; [done|]. by transitivity t2.
    + intros t3 H3. destruct (ev_rows _ _ Hbc t3 H3) as [Hn|(t2 & H2 & S2)].
      { left. pose proof (ev_last _ _ Hab). lia. }
      destruct (ev_rows _ _ Hab t2 H2) as [Hn|(t1 & H1 & S1)].
      * left. by rewrite (st_id _ _ _ _ S2).
      * right. exists t1. split; [done|]. by eapply stays_trans.
Qed.

(** ** Each kind of change *)

Lemma evolves_lists db ls : NoDup (l_id <$> lists db) ->
  (forall l', l' ∈ ls -> on_server l' = true ->
     exists l, l ∈ lists db /\ l_id l = l_id l' /\ remote_url l = remote_url l' /\ ews_account l = ews_account l') ->
  (forall i, kept_on_server db i = true -> kept_on_server (db <| lists := ls |>) i = true) ->
  evolves db (db <| lists := ls |>).
Proof.
  intros _ Hl Hk. split; [done|exact Hl| |]; [intros t Ht _; right; by exists t|].
  intros t Ht. right. exists t. split; [done|]. split; [done|done|]. intros Hkt. split; [done|]. by apply Hk.
Qed.

Lemma evolves_rows db db' : last_id db <= last_id db' -> lists db' = lists db ->
  (forall t', t' ∈ tasks db' -> kept_on_server db (list_id t') = true ->
    (last_id db < id t' /\ pending t' <> []) \/ exists t, t ∈ tasks db /\ later t t') ->
  (forall t', t' ∈ tasks db' -> last_id db < id t' \/ exists t, t ∈ tasks db /\ id t' = id t /\
    thread_key t' = thread_key t /\ (kept_on_server db (list_id t) = true -> list_id t' = list_id t)) ->
  evolves db db'.
Proof.
  intros Hl Hs Ht Hr. split; [done| | |].
  - rewrite Hs. eauto.
  - intros t' Hin Hk. apply Ht; [done|]. by rewrite <- (kept_lists _ _ _ Hs).
  - intros t' Hin. destruct (Hr t' Hin) as [|(t & Hin0 & Hi & Hk & Hlist)]; [by left|right]. exists t.
    split; [done|]. split; [done|done|]. intros Hkt. rewrite (kept_lists _ _ _ Hs), Hlist by done. done.
Qed.

Lemma evolves_update db p f :
  (forall t, t ∈ tasks db -> p t = true -> kept_on_server db (list_id (f t)) = true -> later t (f t)) ->
  (forall t, id (f t) = id t /\ thread_key (f t) = thread_key t /\ list_id (f t) = list_id t) ->
  evolves db (update_tasks p f db).
Proof.
  intros Hf Hc. apply evolves_rows; [done|done| |]; intros t' (t & Hin & ->)%elem_of_update; right; exists t.
  - split; [done|]. destruct (p t) eqn:E; [by apply Hf|done].
  - split; [done|]. destruct (Hc t) as (? & ? & ?). by destruct (p t).
Qed.

Lemma evolves_delete db p : evolves db (delete_tasks p db).
Proof.
  apply evolves_rows; [done|done| |]; intros t' [Hin _]%elem_of_delete_where; right; by exists t'.
Qed.

(** A change of what a task says leaves the columns of its sync alone. *)
Record plain (db : Db) (t t' : Task) : Prop := {
  pl_id : id t' = id t;
  pl_key : thread_key t' = thread_key t;
  pl_list : kept_on_server db (list_id t') = true \/ kept_on_server db (list_id t) = true -> list_id t' = list_id t;
  pl_remote : remote_href t' = remote_href t /\ remote_etag t' = remote_etag t /\ remote_ics t' = remote_ics t;
  pl_seq : sync_seq t' = sync_seq t;
  pl_pending : pending t' = pending t
}.

Lemma later_to_send db t t' : plain db t t' -> kept_on_server db (list_id t') = true -> later t (to_send t').
Proof.
  intros [Hi Hkey Hl Hr Hs Hp] Hk. split; cbn; unfold constant.
  - exact Hi.
  - by apply Hl; left.
  - exact Hr.
  - change (sync_seq t <= sync_seq t' + 1). lia.
  - change (sync_seq t' + 1 = sync_seq t -> content (to_send t') = content t /\ lit "put" = pending t). lia.
  - done.
Qed.

Lemma edited_rows db i p f :
  (forall t, t ∈ tasks db -> p t = true -> with_id i t = true /\ deleting t = false /\ plain db t (f t)) ->
  forall t', t' ∈ tasks (touched (update_tasks p f db) i) -> last_id db < id t' \/ exists t, t ∈ tasks db /\
    id t' = id t /\ thread_key t' = thread_key t /\ (kept_on_server db (list_id t) = true -> list_id t' = list_id t).
Proof.
  intros Hf t' (t1 & Hin & ->)%elem_of_update. revert Hin. intros (t & Hin & ->)%elem_of_update. right. exists t.
  split; [done|]. assert (forall (b : bool) u, id (if b then to_send u else u) = id u /\
    thread_key (if b then to_send u else u) = thread_key u /\ list_id (if b then to_send u else u) = list_id u) as Hb by by intros [].
  match goal with |- context [if ?b then to_send ?u else _] => destruct (Hb b u) as (-> & -> & ->) end.
  destruct (p t) eqn:E; [|done]. destruct (Hf t Hin E) as (_ & _ & [Hi Hk Hl _ _ _]). split_and!; [done|done|].
  intros Hkt. apply Hl. by right.
Qed.

(** The person's change of one task, and the mark that it is to be sent. *)
Lemma evolves_edit db i p f :
  (forall t, t ∈ tasks db -> p t = true -> with_id i t = true /\ deleting t = false /\ plain db t (f t)) ->
  evolves db (touched (update_tasks p f db) i).
Proof.
  intros Hf. apply evolves_rows; [done|done| |apply edited_rows, Hf]. intros t' Hin Hk. right. unfold touched in Hin.
  apply elem_of_update in Hin as (t1 & Hin & Et'). revert Hin. intros (t & Hin & Et1)%elem_of_update.
  change (kept_on_server (update_tasks p f db)) with (kept_on_server db) in Et'.
  exists t. split; [done|]. destruct (p t) eqn:Ep; subst t1.
  - destruct (Hf t Hin Ep) as (Hi & Hd & Hpl).
    assert (with_id i (f t) = true) as Hi' by (unfold with_id; rewrite (pl_id _ _ _ Hpl); exact Hi).
    assert (deleting (f t) = false) as Hd' by (unfold deleting; rewrite (pl_pending _ _ _ Hpl); exact Hd).
    rewrite Hi', Hd' in Et'. cbn [negb andb] in Et'. destruct (kept_on_server db (list_id (f t))) eqn:Ek; subst t'.
    + by apply (later_to_send db).
    + congruence.
  - destruct (_ && _) eqn:E; subst t'; [|done]. apply andb_true_iff in E as [_ Ek].
    by apply (later_to_send db).
Qed.

(** A task made here. *)
Lemma evolves_insert db columns :
  (forall i, id (columns (new_task i)) = i /\ deleting (columns (new_task i)) = false) ->
  evolves db (touched (insert columns db).1 (last_id db + 1)).
Proof.
  intros Hc. apply evolves_rows; [cbn; lia|done| |].
  2:{ intros t' (t & Hin & ->)%elem_of_update.
      assert (forall (b : bool) u, id (if b then to_send u else u) = id u /\
        thread_key (if b then to_send u else u) = thread_key u /\ list_id (if b then to_send u else u) = list_id u) as Hb by by intros [].
      match goal with |- context [if ?b then to_send ?u else _] => destruct (Hb b u) as (-> & -> & ->) end.
      revert Hin. cbn. rewrite elem_of_app, list_elem_of_singleton. intros [Hin| ->]; [right; by exists t|].
      left. destruct (Hc (last_id db + 1)) as [-> _]. lia. }
  intros t' Hin Hk.
  apply elem_of_update in Hin as (t & Hin & Et').
  change (kept_on_server (insert columns db).1) with (kept_on_server db) in Et'. destruct (Hc (last_id db + 1)) as [Hi Hd].
  assert (t ∈ tasks db \/ t = columns (new_task (last_id db + 1))) as [Ht| ->].
  { revert Hin. cbn. by rewrite elem_of_app, list_elem_of_singleton. }
  - right. exists t. split; [done|]. destruct (_ && _) eqn:E; subst t'; [|done].
    apply andb_true_iff in E as [_ Ek]. by apply (later_to_send db).
  - left. assert (with_id (last_id db + 1) (columns (new_task (last_id db + 1))) = true) as Hw
      by (unfold with_id; rewrite Hi; apply Z.eqb_refl).
    rewrite Hw, Hd in Et'. cbn [negb andb] in Et'. destruct (kept_on_server db _) eqn:Ek; subst t'; [|congruence].
    split; [|done]. change (last_id db < id (columns (new_task (last_id db + 1)))). rewrite Hi. lia.
Qed.

(** ** Everything the person can do *)

Section Steps.
Context `{Calendar} `{Zone} `{Stamps} (orphans : bool).

Lemma here_alive i t : with_id i t && negb (deleting t) = true -> with_id i t = true /\ deleting t = false.
Proof. by rewrite andb_true_iff, negb_true_iff. Qed.

Lemma evolves_create db fs now db' i : create db fs now = Ok (db', i) -> evolves db db'.
Proof.
  unfold create. intros ([db1 k] & Hc & [= <- _])%bind_Ok. revert Hc.
  unfold create_row. intros (u & _ & Hc)%bind_Ok. destruct (list_exists db _); [|done]. cbn [negb] in Hc.
  set (target := if is_nil (f_list_id fs) then MAIL_LIST else f_list_id fs) in Hc.
  assert (Hc' : Ok (insert (created fs target now) db) = (Ok (db1, k) : op Z)) by exact Hc.
  injection Hc' as <- <-. by apply (evolves_insert db (created fs target now)).
Qed.

Lemma evolves_edited db i read_at fs db' e : wf orphans db -> update db i read_at fs = Ok (db', e) -> evolves db db'.
Proof.
  intros Hw. unfold update. intros (row & Hrow & Hc)%bind_Ok.
  destruct row as [[[cur rev] lk]|]; [|by injection Hc as <- <-].
  destruct (negb (rev =? read_at)); [by injection Hc as <- <-|].
  apply bind_Ok in Hc as (u & Hck & Hc).
  set (target := if is_nil (f_list_id fs) then f_list_id cur else f_list_id fs) in *.
  destruct (list_exists db target); [|done]. cbn [negb] in Hc.
  destruct (negb (bool_decide (target = _)) && _) eqn:Emove; [done|].
  apply bind_Ok in Hc as ([] & _ & Hc). injection Hc as <- <-.
  apply get_row in Hrow as (t & Hin & Hi & Hd & Hf & _ & _). apply fields_of_list in Hf. rewrite Hf in *.
  apply evolves_edit. intros t' Hin' Hi'. assert (t' = t) as -> by by apply (same_row orphans db i).
  split; [done|]. split; [done|]. split; try done. intros Hk.
  change (kept_on_server db target = true \/ kept_on_server db (list_id t) = true) in Hk. change (target = list_id t).
  destruct (decide (target = list_id t)) as [|Hne]; [done|exfalso].
  rewrite bool_decide_eq_false_2 in Emove by done. cbn [negb andb] in Emove.
  rewrite !remote_of_list_nil, !negb_involutive in Emove by apply Hw. destruct Hk as [Hk|Hk]; rewrite Hk in Emove; [done|].
  by rewrite orb_true_r in Emove.
Qed.

Lemma evolves_complete_occurrence db i now db' o : wf orphans db ->
  complete_occurrence db i now = Ok (db', o) -> evolves db db'.
Proof.
  intros Hw Hc. pose proof (wf_complete_occurrence orphans db i now db' o Hw Hc) as Hw'. revert Hc.
  unfold complete_occurrence. destruct (query_row _ _) as [t|] eqn:Eq; [|by intros [= <- <-]].
  apply occurrence_row in Eq as (Hin & Hi & Hd & Hlk).
  destruct (due_at t) as [due|]; [|by intros [= <- <-]].
  destruct (completed_at t); [by intros [= <- <-]|].
  intros (rule & _ & Hc)%bind_Ok. destruct rule as [rule|]; [|by injection Hc as <- <-].
  apply bind_Ok in Hc as ([] & _ & Hc). apply bind_Ok in Hc as (next & _ & Hc).
  destruct next as [next|].
  - set (db2 := touched (insert (occurrence_done t now) db).1 (last_id db + 1)).
    assert (Hc' : Ok (touched (update_tasks (with_id i) (moved_on rule due next) db2) i,
      Some {| next_due := Some next; record := Some (last_id db + 1) |}) = (Ok (db', o) : op (option Completed))) by exact Hc.
    injection Hc' as <- _. transitivity db2; [by apply evolves_insert|].
    assert (wf orphans db2) as Hw2.
    { apply wf_touched, wf_insert; [done|done| |intros j; by apply unlinked_alone].
      intros j. split; [intros Ho; by apply (ok_placed orphans db t); [apply Hw|]|done|done|done]. }
    assert (t ∈ tasks db2) as Hin2.
    { apply elem_of_update. exists t. split; [cbn; apply elem_of_app; by left|].
      assert (with_id (last_id db + 1) t = false) as ->; [|done].
      apply Z.eqb_neq. pose proof (wf_given orphans db Hw t Hin). lia. }
    apply evolves_edit. intros u Hu Eu. assert (u = t) as -> by by apply (same_row orphans db2 i).
    destruct (moved_on_cols rule due next t) as (E1 & E2 & E3 & E4 & E5 & E6 & E7 & E8 & _).
    split; [done|]. split; [done|]. unfold moved_on. destruct (unwrap_or _ _). by split.
  - injection Hc as <- _. apply evolves_edit. intros u Hu Eu.
    assert (u = t) as -> by by apply (same_row orphans db i). by split_and!.
Qed.

Lemma evolves_set_task_completed db i completed now db' u : wf orphans db ->
  set_task_completed db i completed now = Ok (db', u) -> evolves db db'.
Proof.
  intros Hw. unfold set_task_completed. intros ([dbr b] & Hc & [= <- _])%bind_Ok. revert Hc.
  unfold set_task_completed_row. intros ([] & _ & Hc)%bind_Ok. apply bind_Ok in Hc as ([db1 moved] & Hm & Hc).
  assert (evolves db db1) as Hev.
  { destruct completed; [by eapply evolves_complete_occurrence|by injection Hm as <- <-]. }
  destruct moved; [by injection Hc as <- <-|].
  destruct (negb completed && _); [done|]. destruct (Nat.eqb _ _); [done|]. injection Hc as <- <-.
  transitivity db1; [done|]. apply evolves_edit. intros t Ht Hp. apply here_alive in Hp as [Hi Hd]. by split_and!.
Qed.

Lemma evolves_set_completed db i completed stop now db' c : wf orphans db ->
  set_completed db i completed stop now = Ok (db', c) -> evolves db db'.
Proof.
  intros Hw. unfold set_completed. destruct (completed && stop).
  - intros ([db1 u] & Hs & [= <- <-])%bind_Ok. unfold stop_repeating in Hs.
    apply bind_Ok in Hs as ([db2 v] & Hs & [= <- _]). unfold stop_repeating_row in Hs.
    apply bind_Ok in Hs as ([] & _ & Hs). destruct (Nat.eqb _ _); [done|]. injection Hs as <- _.
    apply evolves_edit. intros t Ht Hp. apply here_alive in Hp as [Hi Hd]. by split_and!.
  - intros ([db1 o] & Ho & Hc)%bind_Ok.
    assert (evolves db db1 /\ wf orphans db1) as [Hev Hw1].
    { destruct completed; [|by injection Ho as <- <-].
      split; [by eapply evolves_complete_occurrence|by eapply wf_complete_occurrence]. }
    destruct o; [by injection Hc as <- <-|]. apply bind_Ok in Hc as ([db2 u] & Hs & [= <- <-]).
    transitivity db1; [done|]. by eapply evolves_set_task_completed.
Qed.

Lemma evolves_step db db' : wf orphans db -> step db db' -> evolves db db'.
Proof.
  intros Hw. destruct 1 as [uuid ln now db' i E|i ln db' u E|i db' u E|fs now db' i E|i r fs db' e E
    |i c s now db' o E|a k f d n now db' i E|i|i now].
  - unfold create_list, create_list_with_id in E. destruct (is_nil _); [done|].
    destruct (list_exists db _); [done|]. injection E as <- _. apply evolves_lists; [apply Hw| |].
    + intros l [Hl| ->%list_elem_of_singleton]%elem_of_app; [eauto|done].
    + intros j. rewrite !kept_iff. intros (l & Hl & Hr). exists l. split; [apply elem_of_app; by left|done].
  - unfold rename_list in E. destruct (is_nil _); [done|]. destruct (Nat.eqb _ _); [done|]. injection E as <- _.
    apply evolves_lists; [apply Hw| |].
    + intros l' (l & Hl & ->)%elem_of_update Ho. exists l. by destruct (is_list i l).
    + intros j. rewrite !kept_iff. intros (l & Hl & Hj & Ho). eexists.
      split; [apply elem_of_update; exists l; split; [done|reflexivity]|]. by destruct (is_list i l).
  - unfold delete_list in E. destruct (bool_decide _); [done|]. injection E as <- _. split; [done| | |].
    + intros l' [Hl _]%elem_of_delete_where _. eauto.
    + intros t' [Hin _]%elem_of_delete_where _. right. by exists t'.
    + intros t' [Hin Hno]%elem_of_delete_where. right. exists t'. split; [done|]. split; [done|done|].
      rewrite !kept_iff. intros (l & Hl & Hj & Ho). split; [done|]. exists l.
      split; [|done]. apply elem_of_delete_where. split; [done|]. unfold is_list, in_list in *. by rewrite Hj.
  - by eapply evolves_create.
  - by eapply evolves_edited.
  - by eapply evolves_set_completed.
  - unfold save_task in E. set (same := fun t => open_on a k t && linked t) in E.
    set (db0 := if existsb same (tasks db) then _ else _) in E. destruct (query_row _ _) as [row|]; [|done].
    injection E as <- _. unfold db0. destruct (existsb same (tasks db)).
    + apply evolves_update; [|done]. intros t Ht Hp Hk. apply andb_true_iff in Hp as [_ Hl].
      destruct (ok_linked _ _ _ (wf_tasks _ _ Hw t Ht) Hl) as (_ & _ & Hno & _).
      change (kept_on_server db (list_id t) = true) in Hk. congruence.
    + apply evolves_rows; [cbn; lia|done| |].
      2:{ intros t'. cbn. rewrite elem_of_app, list_elem_of_singleton. intros [Hin| ->]; [right; by exists t'|].
          left. cbn. unfold constant. lia. }
      intros t' Hin Hk. revert Hin. cbn.
      rewrite elem_of_app, list_elem_of_singleton. intros [Hin| ->]; [right; by exists t'|].
      change (kept_on_server db MAIL_LIST = true) in Hk. by rewrite (wf_mail_here _ _ Hw) in Hk.
  - unfold delete_task. destruct (Nat.eqb _ _); [apply evolves_delete|]. apply evolves_update; [|done]. intros t Ht _ _.
    split; try done; cbn; unfold constant.
    + change (sync_seq t <= sync_seq t + 1). lia.
    + change (sync_seq t + 1 = sync_seq t -> content (to_delete t) = content t /\ lit "delete" = pending t). lia.
  - apply evolves_update; [|done]. intros t Ht _ _. by split.
Qed.

Lemma evolves_steps db db' : wf orphans db -> rtc step db db' -> evolves db db' /\ wf orphans db'.
Proof.
  intros Hw Hr. revert Hw. induction Hr as [db|a b c Hab _ IH]; intros Hw; [done|].
  destruct (IH (wf_step orphans a b Hw Hab)) as [Hev Hw']. split; [|done].
  transitivity b; [by apply evolves_step|done].
Qed.
End Steps.
End TaskEvolves.
