(* ===== verification/TaskSyncLaws.v ===== *)
(** * What a sync may claim

    A task of a list kept on a CalDAV server that has nothing waiting to be
    sent is the server's: at its place, the object kept of it was written
    there or read there, and says what the task shows.  A sync keeps this
    wherever it is stopped, whatever the server answers and whatever the
    person does between two of its calls. *)
From S2P Require Import Prelude Text Program Calendar Recurrence RRule Todo Dav Tasks TaskLaws TaskSync TaskEvolves.
From coqutil Require Import Datatypes.RecordSetters.
From S2P Require Import Table.
Import TriangleBracketNotations.
#[local] Open Scope record_set.
#[local] Open Scope Z_scope.

Module TaskSyncLaws.
Import Tasks TaskLaws TaskSync TaskEvolves.

(** The tables here, and the objects the server is known to have had, each
    with its place. *)
Record World := { db : Db; exchanged : list (text * text) }.

(** The object a request puts at a place, or shows there. *)
Definition seen_there (r : Dav.DavRequest) (answer : result text Dav.HttpReply) : list (text * text) :=
  match answer with
  | Err _ => []
  | Ok reply =>
      if bool_decide (Dav.method r = lit "PUT") then
        match Dav.put_reply reply, Dav.body r with
        | Ok (Dav.Saved _), Some object => [(Dav.to r, object)]
        | _, _ => []
        end
      else if bool_decide (Dav.method r = lit "GET") then
        match Dav.get_reply reply with Ok (Some (object, _)) => [(Dav.to r, object)] | _ => [] end
      else []
  end.

Definition listed_there (answer : result text (list Object)) : list (text * text) :=
  match answer with Ok objects => (fun o => (href o, ics o)) <$> objects | Err _ => [] end.

Definition on_dav (d : Db) (i : text) : Prop :=
  exists l, l ∈ lists d /\ l_id l = i /\ remote_url l <> [].

Lemma on_dav_kept d i : on_dav d i -> kept_on_server d i = true.
Proof.
  intros (l & Hl & Hi & Hu). apply kept_iff. exists l. split; [done|]. split; [done|].
  unfold on_server. by destruct (remote_url l).
Qed.

Section Laws.
Context `{Urls} `{Todo.TodoFormat} `{Calendar} `{Zone} `{Stamps}.

(** What a call does to the world.  Before the database is used, and while a
    request is under way, the person may do anything. *)
Definition does X (e : Ev X) : World -> World -> X -> Prop :=
  match e in Ev X return World -> World -> X -> Prop with
  | Send r => fun w w' answer => exists d, rtc step (db w) d /\
      w' = {| db := d; exchanged := seen_there r answer ++ exchanged w |}
  | FetchTodos collection => fun w w' answer => exists d, rtc step (db w) d /\
      w' = {| db := d; exchanged := listed_there answer ++ exchanged w |}
  | NewUuid => fun w w' _ => w' = w
  | WithDb f => fun w w' x => exists d, rtc step (db w) d /\
      w' = {| db := (f d).1; exchanged := exchanged w |} /\ x = (f d).2
  end.

(** An object says what a task shows: it was read as that, made of it, or
    changed to it. *)
Inductive says (object : text) (f : Todo.Fields) : Prop :=
| says_read todo : Todo.parse object = Ok todo -> Todo.fields todo = f -> says object f
| says_made uid now : object = Todo.new_object f uid now -> says object f
| says_changed old now : Todo.patch old f now = Ok object -> says object f.

Definition server_has (ex : list (text * text)) (t : Task) : Prop :=
  (remote_href t, remote_ics t) ∈ ex /\ says (remote_ics t) (content t).

Record agreed (w : World) : Prop := {
  ag_wf : wf true (db w);
  ag_tasks : forall t, t ∈ tasks (db w) -> on_dav (db w) (list_id t) -> pending t = [] -> server_has (exchanged w) t
}.

Lemma server_has_more ex ex' t : ex ⊆ ex' -> server_has ex t -> server_has ex' t.
Proof. intros Hs [Hx Hy]. split; [by apply Hs|done]. Qed.

(** ** However the tables change meanwhile *)

Lemma on_dav_evolves d d' i : evolves d d' -> on_dav d' i -> on_dav d i.
Proof.
  intros Hev (l' & Hl' & Hi & Hu).
  destruct (ev_lists _ _ Hev l' Hl') as (l & Hl & E1 & E2 & _); [unfold on_server; by destruct (remote_url l')|].
  exists l. split; [done|]. split; congruence.
Qed.

Lemma agreed_steps d d' ex ex' : agreed {| db := d; exchanged := ex |} -> rtc step d d' -> ex ⊆ ex' ->
  agreed {| db := d'; exchanged := ex' |} /\ evolves d d'.
Proof.
  intros [Hw Ha] Hr Hex. destruct (evolves_steps true d d' Hw Hr) as [Hev Hw']. split; [|done].
  split; cbn in *; [done|]. intros t' Hin Hd Hp. pose proof (on_dav_evolves _ _ _ Hev Hd) as Hd0.
  destruct (ev_tasks _ _ Hev t' Hin (on_dav_kept _ _ Hd)) as [[_ Hn]|(t & Ht & L)]; [done|].
  destruct (decide (sync_seq t' = sync_seq t)) as [E|E]; [|by destruct (la_waits _ _ L E)].
  destruct (la_same _ _ L E) as [Ec Ep]. destruct (la_remote _ _ L) as (E1 & _ & E3).
  unfold server_has. rewrite E1, E3, Ec. apply (server_has_more ex); [done|]. apply Ha; [done| |congruence].
  by rewrite <- (la_list _ _ L).
Qed.

(** A use of the tables that changes rows: what it leaves with nothing
    waiting must be the server's. *)
Lemma agreed_change d d' ex : agreed {| db := d; exchanged := ex |} -> wf true d' ->
  (forall i, on_dav d' i -> on_dav d i) ->
  (forall t', t' ∈ tasks d' -> pending t' = [] -> on_dav d' (list_id t') ->
    server_has ex t' \/ exists t, t ∈ tasks d /\ pending t = [] /\ list_id t' = list_id t /\
      remote_href t' = remote_href t /\ remote_ics t' = remote_ics t /\ content t' = content t) ->
  agreed {| db := d'; exchanged := ex |}.
Proof.
  intros [_ Ha] Hw Hd Ht. split; [done|]. cbn in *. intros t' Hin Hdav Hp.
  destruct (Ht t' Hin Hp Hdav) as [|(t & Hin0 & Hp0 & El & Eh & Ei & Ec)]; [done|].
  unfold server_has. rewrite Eh, Ei, Ec. apply Ha; [done| |done]. rewrite <- El. by apply Hd.
Qed.

Lemma agreed_update d ex p f : agreed {| db := d; exchanged := ex |} -> wf true (update_tasks p f d) ->
  (forall t, t ∈ tasks d -> p t = true -> pending (f t) = [] -> on_dav d (list_id (f t)) ->
    server_has ex (f t) \/ pending t = [] /\ list_id (f t) = list_id t /\
      remote_href (f t) = remote_href t /\ remote_ics (f t) = remote_ics t /\ content (f t) = content t) ->
  agreed {| db := update_tasks p f d; exchanged := ex |}.
Proof.
  intros Ha Hw Hf. apply (agreed_change d); [done|done|done|].
  intros t' (t & Hin & ->)%elem_of_update Hp Hd. destruct (p t) eqn:E.
  - destruct (Hf t Hin E Hp Hd) as [|Hs]; [by left|]. right. exists t. tauto.
  - right. by exists t.
Qed.

Lemma agreed_delete d ex p : agreed {| db := d; exchanged := ex |} ->
  agreed {| db := delete_tasks p d; exchanged := ex |}.
Proof.
  intros Ha. apply (agreed_change d); [done|by apply wf_delete, Ha|done|].
  intros t' [Hin _]%elem_of_delete_where Hp _. right. by exists t'.
Qed.

(** ** Each write of a sync *)

Lemma keeps_unlinked d t t' : linked t = false ->
  id t' = id t -> account t' = account t -> thread_key t' = thread_key t ->
  (rrule t' <> [] -> is_Some (due_at t')) -> (pending t' <> [] -> kept_on_server d (list_id t') = true) ->
  keeps true d t t'.
Proof.
  intros Hl Hi Ha Hk Hr Hp. assert (linked t' = false) as Hl' by (by rewrite (linked_key t t')).
  split; [done|done|intros _; right; by apply unlinked_alone|]. split; [done| |done|done]. congruence.
Qed.

Lemma wf_by_id d i f : wf true d -> (forall t, t ∈ tasks d -> id t = i -> keeps true d t (f t)) ->
  wf true (update_tasks (with_id i) f d).
Proof.
  intros Hw Hk. apply wf_update; [done| |by apply (with_id_one true)].
  intros t Ht Hi%Z.eqb_eq. by apply Hk.
Qed.

Lemma wf_mark_conflict d i reason : wf true d -> wf true (mark_conflict i reason d).
Proof.
  intros Hw. apply wf_by_id; [done|]. intros t Ht _.
  apply keeps_plain; [done..|done|done|done|by right; right|done].
Qed.

Lemma agreed_mark_conflict d ex i reason : agreed {| db := d; exchanged := ex |} ->
  agreed {| db := mark_conflict i reason d; exchanged := ex |}.
Proof.
  intros Ha. apply agreed_update; [done|apply wf_mark_conflict, Ha|]. intros t _ _ Hp _. by right.
Qed.

Lemma wf_lists_same d p (f : ListRow -> ListRow) : wf true d ->
  (forall l, l_id (f l) = l_id l) -> (forall l, on_server (f l) = on_server l) -> wf true (update_lists p f d).
Proof. intros. by apply wf_update_lists. Qed.

Lemma agreed_lists d ex p (f : ListRow -> ListRow) : agreed {| db := d; exchanged := ex |} ->
  (forall l, l_id (f l) = l_id l) -> (forall l, on_server (f l) = on_server l) ->
  (forall l, remote_url (f l) = remote_url l) -> agreed {| db := update_lists p f d; exchanged := ex |}.
Proof.
  intros Ha Hi Ho Hu. apply (agreed_change d); [done|by apply wf_lists_same; [apply Ha| |]| |].
  - intros i (l' & (l & Hl & ->)%elem_of_update & Hid & Hne). exists l. split; [done|].
    destruct (p l); [|done]. by rewrite <- Hi, <- Hu.
  - intros t Hin Hp _. right. by exists t.
Qed.

(** What is known, while a task is sent, of the row it was read from. *)
Definition fits (d : Db) (i : Z) (place : text) (fs : Todo.Fields) (seq : Z) : Prop :=
  i <= last_id d /\ forall t, t ∈ tasks d -> id t = i ->
    linked t = false /\
    (kept_on_server d (list_id t) = true ->
     remote_href t = place /\ pending t <> [] /\ seq <= sync_seq t /\ (sync_seq t = seq -> content t = fs)).

Lemma fits_evolves d d' i place fs seq : evolves d d' -> fits d i place fs seq -> fits d' i place fs seq.
Proof.
  intros Hev [Hi Hf]. split; [pose proof (ev_last _ _ Hev); lia|]. intros t' Hin Hid. split.
  - destruct (ev_rows _ _ Hev t' Hin) as [Hn|(t & Ht & S)]; [lia|].
    destruct (Hf t Ht) as [Hl _]; [by rewrite <- (st_id _ _ _ _ S)|].
    by rewrite (linked_key t t' (st_key _ _ _ _ S)).
  - intros Hk. destruct (ev_tasks _ _ Hev t' Hin Hk) as [[Hn _]|(t & Ht & L)]; [lia|].
    destruct (Hf t Ht) as [_ Hrow]; [by rewrite <- (la_id _ _ L)|].
    rewrite (la_list _ _ L) in Hk. apply (evolves_kept _ _ _ Hev) in Hk.
    destruct (Hrow Hk) as (Hh & Hp & Hs & Hc). destruct (la_remote _ _ L) as (-> & _ & _).
    pose proof (la_seq _ _ L). split; [done|].
    destruct (decide (sync_seq t' = sync_seq t)) as [E|E].
    + destruct (la_same _ _ L E) as [-> ->]. rewrite E. done.
    + split; [by apply (la_waits _ _ L)|]. split; [lia|]. intros E'. lia.
Qed.

(** A write that leaves the rows of an id alone. *)
Lemma fits_elsewhere d d' i place fs seq : last_id d <= last_id d' -> lists d' = lists d ->
  (forall t, t ∈ tasks d' -> id t = i -> t ∈ tasks d) -> fits d i place fs seq -> fits d' i place fs seq.
Proof.
  intros Hl Hs Ht [Hi Hf]. split; [lia|]. intros t Hin Hid.
  rewrite (kept_lists d d' (list_id t) Hs). by apply Hf, Hid; apply Ht.
Qed.

Lemma fits_update_other d j i f place fs seq : i <> j -> (forall t, id (f t) = id t) ->
  fits d i place fs seq -> fits (update_tasks (with_id j) f d) i place fs seq.
Proof.
  intros Hne Hf. apply fits_elsewhere; [done|done|]. intros t' (t & Hin & ->)%elem_of_update.
  unfold with_id. destruct (Z.eqb_spec (id t) j) as [E|E]; [|done]. rewrite Hf. lia.
Qed.

Lemma fits_delete d p i place fs seq : fits d i place fs seq -> fits (delete_tasks p d) i place fs seq.
Proof. apply fits_elsewhere; [done|done|]. by intros t [Hin _]%elem_of_delete_where. Qed.

Definition fits_pending (d : Db) (p : Pending) : Prop := fits d (p_id p) (p_href p) (p_fields p) (p_seq p).

(** The rows of the queue. *)
Lemma queue_fits d l p : wf true d -> p ∈ queue d l -> fits_pending d p.
Proof.
  intros Hw (t & -> & Hin)%list_elem_of_fmap. rewrite order_by_perm in Hin.
  apply elem_of_select in Hin as [Hin Hp]. apply andb_true_iff in Hp as [_ Hp].
  split; [by apply (wf_given _ _ Hw)|]. intros u Hu Hid.
  assert (u = t) as ->.
  { apply (key_unique id (id t) (tasks d)); [apply Hw|done|done| |]; by apply bool_decide_eq_true. }
  assert (pending t <> []) as Hne by by destruct (pending t).
  split; [|intros _; by split_and!]. apply not_true_is_false. intros Hl.
  destruct (ok_linked _ _ _ (wf_tasks _ _ Hw t Hin) Hl) as (_ & _ & Hno & _).
  pose proof (ok_waiting _ _ _ (wf_tasks _ _ Hw t Hin) Hne). congruence.
Qed.

Lemma queue_ids d l : wf true d -> NoDup (p_id <$> queue d l).
Proof.
  intros Hw. unfold queue. rewrite <- list_fmap_compose. rewrite order_by_perm.
  change (p_id ∘ as_pending) with id. unfold select.
  eapply sublist_NoDup; [apply (wf_ids _ _ Hw)|]. apply fmap_sublist, sublist_filter.
Qed.

(** ** Calls *)

Lemma ensures_use {X} (f : Db -> Db * X) (Q : X -> World -> Prop) w : agreed w ->
  (forall d, agreed {| db := d; exchanged := exchanged w |} -> evolves (db w) d ->
     agreed {| db := (f d).1; exchanged := exchanged w |} /\ Q (f d).2 {| db := (f d).1; exchanged := exchanged w |}) ->
  ensures does agreed (with_db f) Q w.
Proof.
  intros Ha Hf w' x (d & Hr & -> & ->). destruct w as [d0 ex]. cbn in *.
  destruct (agreed_steps d0 d ex ex Ha Hr ltac:(done)) as [Hd Hev]. by apply Hf.
Qed.

Lemma ensures_send r (Q : result text Dav.HttpReply -> World -> Prop) w : agreed w ->
  (forall w' answer, agreed w' -> evolves (db w) (db w') ->
     exchanged w' = seen_there r answer ++ exchanged w -> Q answer w') ->
  ensures does agreed (send r) Q w.
Proof.
  intros Ha Hf w' x (d & Hr & ->). destruct w as [d0 ex].
  destruct (agreed_steps d0 d ex (seen_there r x ++ ex) Ha Hr) as [Hd Hev]; [set_solver|].
  split; [done|]. by apply Hf.
Qed.

Lemma ensures_fetch c (Q : result text (list Object) -> World -> Prop) w : agreed w ->
  (forall w' answer, agreed w' -> evolves (db w) (db w') ->
     exchanged w' = listed_there answer ++ exchanged w -> Q answer w') ->
  ensures does agreed (call (FetchTodos c)) Q w.
Proof.
  intros Ha Hf w' x (d & Hr & ->). destruct w as [d0 ex].
  destruct (agreed_steps d0 d ex (listed_there x ++ ex) Ha Hr) as [Hd Hev]; [set_solver|].
  split; [done|]. by apply Hf.
Qed.

Definition kept_fits (ps : list Pending) (w : World) : Prop := forall p, p ∈ ps -> fits_pending (db w) p.

Lemma kept_fits_evolves ps w w' : evolves (db w) (db w') -> kept_fits ps w -> kept_fits ps w'.
Proof. intros Hev Hf p Hp. by apply (fits_evolves (db w)), Hf. Qed.

(** What a push leaves for the rest of the queue. *)
Definition still_fit (rest : list Pending) (r : result text Next) (w : World) : Prop := agreed w /\ kept_fits rest w.

(** ** Sending one task *)

Lemma conflict_found_agrees i r rest w : agreed w -> kept_fits rest w ->
  ensures does agreed (conflict_found i r) (still_fit rest) w.
Proof.
  intros Ha Hf. unfold conflict_found. apply ensures_bind, ensures_use; [done|]. intros d Hd Hev.
  assert (agreed {| db := mark_conflict i (lit "changed") d; exchanged := exchanged w |}) as Hm by by apply agreed_mark_conflict.
  split; [done|]. cbn. split; [done|]. intros p Hp. cbn.
  pose proof (fits_evolves _ _ _ _ _ _ Hev (Hf p Hp)) as [Hi Hrow]. split; [done|].
  intros t' (t & Hin & ->)%elem_of_update Hid. destruct (with_id i t); exact (Hrow t Hin Hid).
Qed.

Lemma delete_and_go p r rest w : agreed w -> kept_fits rest w ->
  ensures does agreed (prog_bind (fun _ => Ret (Ok (GoOn r))) (change (delete_tasks (p : Task -> bool))))
    (still_fit rest) w.
Proof.
  intros Ha Hf. apply ensures_bind, ensures_use; [done|]. intros d Hd Hev.
  assert (agreed {| db := delete_tasks p d; exchanged := exchanged w |}) as Hm by by apply agreed_delete.
  split; [done|]. split; [done|]. intros p' Hp. by apply fits_delete, (fits_evolves (db w)), Hf.
Qed.

Lemma push_delete_agrees b p r rest w : agreed w -> kept_fits rest w ->
  ensures does agreed (push_delete b p r) (still_fit rest) w.
Proof.
  intros Ha Hf. unfold push_delete. destruct (_ || _).
  - by apply delete_and_go.
  - apply ensures_and_then. unfold Dav.delete_object. destruct (Dav.guard _ _); [|by split].
    destruct (is_nil _); [by split|]. apply ensures_and_then, ensures_send; [done|]. intros w' answer Ha' Hev _.
    pose proof (kept_fits_evolves _ _ _ Hev Hf). destruct answer as [reply|e]; [|by split]. cbn.
    destruct (Dav.delete_reply reply) as [written|e]; [|by split]. destruct written.
    + by apply delete_and_go.
    + by apply conflict_found_agrees.
Qed.

Lemma kept_fits_other d j f ps ex : (forall p, p ∈ ps -> p_id p <> j) -> (forall t, id (f t) = id t) ->
  kept_fits ps {| db := d; exchanged := ex |} -> kept_fits ps {| db := update_tasks (with_id j) f d; exchanged := ex |}.
Proof. intros Hne Hf Hk p Hp. apply fits_update_other; [by apply Hne|done|by apply Hk]. Qed.

(** Only the rows of its own id are a pending task's. *)
Lemma fits_unlinked d i place fs seq t : fits d i place fs seq -> t ∈ tasks d -> id t = i -> linked t = false.
Proof. intros [_ Hf] Hin Hi. by apply Hf. Qed.

Lemma placed_agrees d ex i place fs seq place' object : agreed {| db := d; exchanged := ex |} ->
  fits d i place fs seq ->
  let d' := update_tasks (with_id i) (placed place' object) d in
  agreed {| db := d'; exchanged := ex |} /\ fits d' i place' fs seq.
Proof.
  intros Ha Hf d'. split.
  - apply agreed_update; [done| |].
    + apply wf_by_id; [apply Ha|]. intros t Hin Hi. pose proof (wf_tasks _ _ (ag_wf _ Ha) t Hin) as Hok.
      apply keeps_unlinked; [by eapply fits_unlinked|done..|apply Hok|apply Hok].
    + intros t Hin Hi%Z.eqb_eq Hp Hd. destruct Hf as [_ Hf].
      destruct (Hf t Hin Hi) as [_ Hk]. destruct (Hk (on_dav_kept _ _ Hd)) as (_ & Hne & _). done.
  - destruct Hf as [Hi Hf]. split; [done|]. intros t' (t & Hin & ->)%elem_of_update Hid.
    destruct (with_id i t) eqn:E; [|exfalso; apply Z.eqb_neq in E; done].
    destruct (Hf t Hin) as [Hl Hk]; [by apply Z.eqb_eq|]. split; [exact Hl|]. intros Hkt.
    destruct (Hk Hkt) as (_ & Hp & Hs & Hc). by split_and!.
Qed.

Lemma sent_agrees d ex i place fs seq version object : agreed {| db := d; exchanged := ex |} ->
  fits d i place fs seq -> (place, object) ∈ ex -> says object fs ->
  agreed {| db := update_tasks (with_id i) (sent version object seq) d; exchanged := ex |}.
Proof.
  intros Ha Hf Hx Hs. apply agreed_update; [done| |].
  - apply wf_by_id; [apply Ha|]. intros t Hin Hi. pose proof (wf_tasks _ _ (ag_wf _ Ha) t Hin) as Hok.
    apply keeps_unlinked; [by eapply fits_unlinked|done..|apply Hok|].
    change (pending (sent version object seq t)) with (if sync_seq t =? seq then [] else pending t).
    destruct (sync_seq t =? seq); [done|apply Hok].
  - intros t Hin Hi%Z.eqb_eq Hp Hd. destruct Hf as [_ Hf]. destruct (Hf t Hin Hi) as [_ Hk].
    destruct (Hk (on_dav_kept _ _ Hd)) as (Hh & Hne & _ & Hc).
    change ((if sync_seq t =? seq then [] else pending t) = []) in Hp.
    destruct (Z.eqb_spec (sync_seq t) seq) as [E|E]; [|done]. left. specialize (Hc E). split.
    + change ((remote_href t, object) ∈ ex). by rewrite Hh.
    + change (says object (content t)). by rewrite Hc.
Qed.

Definition prepared_for (p : Pending) (rest : list Pending) (r : result text (text * text)) (w : World) : Prop :=
  agreed w /\ kept_fits rest w /\
  match r with
  | Ok (place, object) => fits (db w) (p_id p) place (p_fields p) (p_seq p) /\ says object (p_fields p)
  | Err _ => True
  end.

Lemma prepare_agrees b now p rest w : agreed w -> kept_fits (p :: rest) w -> p_id p ∉ p_id <$> rest ->
  ensures does agreed (prepare b now p) (prepared_for p rest) w.
Proof.
  intros Ha Hf Hno. assert (kept_fits rest w) as Hrest by (intros q Hq; apply Hf; by right).
  assert (fits_pending (db w) p) as Hp by (apply Hf; by left).
  unfold prepare. destruct (_ || _).
  - apply ensures_bind. intros w' uuid ->. split; [done|].
    set (uid := uuid ++ lit "@oreneta"). cbn zeta.
    assert (forall place, ensures does agreed
      (prog_bind (fun _ => Ret (Ok (place, Todo.new_object (p_fields p) uid now)))
        (change (update_tasks (with_id (p_id p)) (placed place (Todo.new_object (p_fields p) uid now)))))
      (prepared_for p rest) w) as Hplace.
    { intros place. apply ensures_bind, ensures_use; [done|]. intros d Hd Hev.
      destruct (placed_agrees d (exchanged w) (p_id p) (p_href p) (p_fields p) (p_seq p) place (Todo.new_object (p_fields p) uid now))
        as [Had Hfd]; [done|by eapply fits_evolves|].
      split; [done|]. split; [done|]. split; [|split; [done|by eapply says_made]].
      apply kept_fits_other; [|done|by apply (kept_fits_evolves _ w)].
      intros q Hq E. apply Hno. rewrite <- E. by apply list_elem_of_fmap_2. }
    apply ensures_and_then. destruct (is_nil (p_href p)); cbn [ensures].
    + destruct (Dav.new_href _ _); [apply Hplace|by split_and!].
    + apply Hplace.
  - cbn. split; [done|]. split; [done|]. destruct (Todo.patch _ _ _) as [object|e] eqn:E; [|done]. cbn.
    split; [done|by eapply says_changed].
Qed.

(** The task sent, and what the answer changes here. *)
Lemma put_agrees p place object version r rest w : agreed w -> kept_fits rest w -> p_id p ∉ p_id <$> rest ->
  fits (db w) (p_id p) place (p_fields p) (p_seq p) -> says object (p_fields p) ->
  ensures does agreed
    (and_then (and_then (send (Dav.put_request place object version)) (fun reply => Ret (Dav.put_reply reply)))
      (fun written => match written with
         | Dav.Saved version => prog_bind (fun _ => Ret (Ok (GoOn (r <| pushed := pushed r + 1 |>))))
             (change (update_tasks (with_id (p_id p)) (sent (unwrap_or [] version) object (p_seq p))))
         | Dav.Conflict => conflict_found (p_id p) r
         end)) (still_fit rest) w.
Proof.
  intros Ha1 Hf1 Hno Hp1 Hs. apply ensures_and_then, ensures_and_then, ensures_send; [done|].
  intros w2 answer Ha2 Hev2 Hex2. pose proof (kept_fits_evolves _ _ _ Hev2 Hf1) as Hf2.
  destruct answer as [reply|e]; [|by split]. cbn [ensures].
  change (seen_there (Dav.put_request place object version) (Ok reply)) with
    (match Dav.put_reply reply with Ok (Dav.Saved _) => [(place, object)] | _ => [] end) in Hex2.
  destruct (Dav.put_reply reply) as [written|e]; [|by split]. destruct written as [v|]; [|by apply conflict_found_agrees].
  apply ensures_bind, ensures_use; [done|]. intros d Hd Hev.
  assert (fits d (p_id p) place (p_fields p) (p_seq p)) as Hp2
    by (eapply fits_evolves; [exact Hev|]; by eapply fits_evolves).
  assert (agreed {| db := update_tasks (with_id (p_id p)) (sent (unwrap_or [] v) object (p_seq p)) d;
    exchanged := exchanged w2 |}) as Hsent.
  { eapply sent_agrees; [done|done| |done]. rewrite Hex2. by left. }
  split; [done|]. split; [done|]. apply kept_fits_other; [|done|by apply (kept_fits_evolves _ w2)].
  intros q Hq E. apply Hno. rewrite <- E. by apply list_elem_of_fmap_2.
Qed.

Lemma push_one_agrees b now p r rest w : agreed w -> kept_fits (p :: rest) w -> p_id p ∉ p_id <$> rest ->
  ensures does agreed (push_one b now p r) (still_fit rest) w.
Proof.
  intros Ha Hf Hno. assert (kept_fits rest w) as Hrest by (intros q Hq; apply Hf; by right).
  unfold push_one. destruct (bool_decide _); [by apply push_delete_agrees|].
  destruct (p_recurring p); [by split|]. unfold push_put.
  apply ensures_and_then. eapply ensures_mono; [|by apply prepare_agrees].
  intros [[place object]|e] w1; [|by intros (? & ? & _)]. intros (Ha1 & Hf1 & Hp1 & Hs). cbn zeta.
  unfold Dav.put_object. destruct (Dav.guard _ _); [|by split].
  destruct (is_nil (p_etag p)) eqn:E; [by apply put_agrees|].
  destruct (p_etag p) as [|c v]; [done|]. by apply put_agrees.
Qed.

Lemma push_agrees b now w : agreed w -> ensures does agreed (push b now) (fun _ => agreed) w.
Proof.
  intros Ha. unfold push. apply ensures_bind, ensures_use; [done|]. intros d Hd Hev. split; [done|]. cbn [fst snd].
  destruct (blocked d (b_list b)); [done|].
  assert (kept_fits (queue d (b_list b)) {| db := d; exchanged := exchanged w |}) as Hf
    by (intros p Hp; eapply queue_fits; [apply Hd|done]).
  pose proof (queue_ids d (b_list b) (ag_wf _ Hd)) as Hnd. revert Hnd Hf Hd.
  generalize no_report (queue d (b_list b)) ({| db := d; exchanged := exchanged w |}). clear Ha d Hev.
  intros r ps. revert r. induction ps as [|p ps IH]; intros r w0 Hnd Hf Ha0; [done|].
  rewrite fmap_cons in Hnd. apply NoDup_cons in Hnd as [Hno Hnd]. cbn [push_all].
  apply ensures_and_then. eapply ensures_mono; [|by apply push_one_agrees].
  intros [[r'|r']|e] w' [Ha' Hf']; [by apply IH|done|done].
Qed.

(** ** Reconciling *)

Lemma parse_all_Ok objects parsed : parse_all objects = Ok parsed ->
  fst <$> parsed = objects /\ forall o todo, (o, todo) ∈ parsed -> Todo.parse (ics o) = Ok todo.
Proof.
  revert parsed. induction objects as [|o rest IH]; intros parsed; cbn.
  - intros [= <-]. split; [done|]. intros o todo Hin. by apply not_elem_of_nil in Hin.
  - destruct (Todo.parse (ics o)) as [todo|] eqn:E; [|done]. intros (more & Hm & [= <-])%bind_Ok.
    destruct (IH more Hm) as [E1 Hall]. split; [cbn; by rewrite E1|].
    intros o' todo' [[= -> ->]|Hin]%elem_of_cons; [done|by apply Hall].
Qed.

Lemma known_lookup d l place local : known d l !! place = Some local ->
  exists t, t ∈ tasks d /\ in_list l t = true /\ remote_href t = place /\ place <> [] /\ local = (as_known t).2.
Proof.
  unfold known. intros Hl%elem_of_list_to_map_2. rewrite list_elem_of_In, <- in_rev, <- list_elem_of_In in Hl.
  apply list_elem_of_fmap in Hl as (t & E & Hin). apply elem_of_select in Hin as [Hin Hp].
  apply andb_true_iff in Hp as [Hp Hn]. injection E as -> ->. exists t. split_and!; try done.
  by destruct (remote_href t).
Qed.

(** What reconciling knows of a row, however far it has got. *)
Definition knows (d : Db) (place : text) (i : Z) : Prop :=
  i <= last_id d /\ forall t, t ∈ tasks d -> id t = i -> remote_href t = place /\ linked t = false.

Lemma known_knows d l place local : wf true d -> known d l !! place = Some local -> knows d place (k_task local).
Proof.
  intros Hw (t & Hin & _ & <- & Hne & ->)%known_lookup. cbn. split; [by apply (wf_given _ _ Hw)|].
  intros u Hu Hid. assert (u = t) as ->.
  { apply (key_unique id (id t) (tasks d)); [apply Hw|done|done| |]; by apply bool_decide_eq_true. }
  split; [done|]. apply not_true_is_false. intros Hl.
  destruct (ok_linked _ _ _ (wf_tasks _ _ Hw t Hin) Hl) as (_ & _ & _ & Hno). done.
Qed.

Lemma knows_update d p f place i : (forall t, id (f t) = id t /\ remote_href (f t) = remote_href t /\
  thread_key (f t) = thread_key t) -> knows d place i -> knows (update_tasks p f d) place i.
Proof.
  intros Hf [Hi Hk]. split; [done|]. intros t' (t & Hin & ->)%elem_of_update Hid.
  destruct (Hf t) as (E1 & E2 & E3). destruct (p t); [|by apply Hk].
  rewrite E2, (linked_key t (f t) E3). apply Hk; [done|congruence].
Qed.

Lemma knows_insert d c place i : (forall j, id (c (new_task j)) = j) -> knows d place i -> knows (insert c d).1 place i.
Proof.
  intros Hc [Hi Hk]. split; [cbn; lia|]. intros t. cbn. rewrite elem_of_app, list_elem_of_singleton.
  intros [Hin| ->]; [by apply Hk|]. rewrite Hc. lia.
Qed.

Lemma knows_delete d p place i : knows d place i -> knows (delete_tasks p d) place i.
Proof. intros [Hi Hk]. split; [done|]. intros t [Hin _]%elem_of_delete_where. by apply Hk. Qed.

Lemma fields_eta (f : Todo.Fields) :
  {| Todo.title := Todo.title f; Todo.note := Todo.note f; Todo.due_at := Todo.due_at f; Todo.priority := Todo.priority f;
     Todo.completed_at := Todo.completed_at f; Todo.reminder_at := Todo.reminder_at f; Todo.rrule := Todo.rrule f |} = f.
Proof. by destruct f. Qed.

Lemma read_agrees o todo ex : Todo.parse (ics o) = Ok todo -> (href o, ics o) ∈ ex ->
  forall t, remote_href t = href o -> remote_ics t = ics o -> content t = Todo.fields todo -> server_has ex t.
Proof. intros Hp Hx t Eh Ei Ec. unfold server_has. rewrite Eh, Ei, Ec. split; [done|by eapply says_read]. Qed.

Lemma take_agrees d ex o todo now i : agreed {| db := d; exchanged := ex |} ->
  Todo.parse (ics o) = Ok todo -> (href o, ics o) ∈ ex -> knows d (href o) i ->
  agreed {| db := take_server_copy i o todo now d; exchanged := ex |}.
Proof.
  intros Ha Hp Hx [_ Hk]. apply agreed_update; [done| |].
  - apply wf_by_id; [apply Ha|]. intros t Hin Hi. destruct (Hk t Hin Hi) as [_ Hl].
    apply keeps_unlinked; [done..|by apply (Todo.rule_has_due _ _ Hp)|done].
  - intros t Hin Hi%Z.eqb_eq _ _. left. destruct (Hk t Hin Hi) as [Hh _].
    apply (read_agrees o todo); [done|done|exact Hh|done|]. exact (fields_eta _).
Qed.

Lemma insert_agrees d ex l o todo now : agreed {| db := d; exchanged := ex |} ->
  Todo.parse (ics o) = Ok todo -> (href o, ics o) ∈ ex ->
  agreed {| db := insert_server_copy l o todo now d; exchanged := ex |}.
Proof.
  intros Ha Hp Hx. unfold insert_server_copy. apply (agreed_change d); [done| |done|].
  - apply wf_insert; [apply Ha|done| |intros j; by apply unlinked_alone].
    intros j. split; [done|done|by apply (Todo.rule_has_due _ _ Hp)|done].
  - intros t. cbn. rewrite elem_of_app, list_elem_of_singleton. intros [Hin| ->] Hpend _; [right; by exists t|].
    left. apply (read_agrees o todo); [done..|]. exact (fields_eta _).
Qed.

Lemma reconcile_object_agrees ex b now k d r o todo : agreed {| db := d; exchanged := ex |} ->
  Todo.parse (ics o) = Ok todo -> (href o, ics o) ∈ ex ->
  (forall place local, k !! place = Some local -> knows d place (k_task local)) ->
  let d' := (reconcile_object b now k (d, r) (o, todo)).1 in
  agreed {| db := d'; exchanged := ex |} /\ (forall place local, k !! place = Some local -> knows d' place (k_task local)).
Proof.
  intros Ha Hp Hx Hk d'. unfold d', reconcile_object. destruct (k !! href o) as [local|] eqn:E; cbn [fst].
  - destruct (_ && _); [done|]. destruct (is_nil _).
    + split; [apply take_agrees; [done..|by apply Hk]|]. intros place l Hl. by apply knows_update, Hk.
    + destruct (bool_decide _); [done|]. split; [by apply agreed_mark_conflict|].
      intros place l Hl. by apply knows_update, Hk.
  - split; [by apply insert_agrees|]. intros place l Hl. apply knows_insert; [done|by apply Hk].
Qed.

Lemma reconcile_known_agrees ex seen d r pl : agreed {| db := d; exchanged := ex |} ->
  agreed {| db := (reconcile_known seen (d, r) pl).1; exchanged := ex |}.
Proof.
  intros Ha. destruct pl as [place local]. cbn. destruct (bool_decide _); [done|].
  destruct (_ || _); [by apply agreed_delete|]. destruct (_ && _); [done|]. destruct (bool_decide _); [done|].
  by apply agreed_mark_conflict.
Qed.

Lemma objects_agree ex b now k parsed : (forall o todo, (o, todo) ∈ parsed ->
    Todo.parse (ics o) = Ok todo /\ (href o, ics o) ∈ ex) ->
  forall d r, agreed {| db := d; exchanged := ex |} ->
  (forall place local, k !! place = Some local -> knows d place (k_task local)) ->
  agreed {| db := (foldl (reconcile_object b now k) (d, r) parsed).1; exchanged := ex |}.
Proof.
  induction parsed as [|[o todo] parsed IH]; intros Hp d r Ha Hk; [done|]. cbn [foldl].
  destruct (Hp o todo ltac:(by left)) as [Hread Hx].
  destruct (reconcile_object_agrees ex b now k d r o todo) as [Ha' Hk']; [done..|].
  destruct (reconcile_object b now k (d, r) (o, todo)) as [d' r'].
  apply IH; [|done|done]. intros; apply Hp; by right.
Qed.

Lemma places_agree ex seen pls d r : agreed {| db := d; exchanged := ex |} ->
  agreed {| db := (foldl (reconcile_known seen) (d, r) pls).1; exchanged := ex |}.
Proof.
  revert d r. induction pls as [|pl rest IH]; intros d r Ha; [done|]. cbn [foldl].
  pose proof (reconcile_known_agrees ex seen d r pl Ha) as Ha'.
  destruct (reconcile_known seen (d, r) pl) as [d' r']. by apply IH.
Qed.

Context `{!HashOrder text Known}.

Lemma reconcile_agrees b objects now r d ex : agreed {| db := d; exchanged := ex |} ->
  (forall o, o ∈ objects -> (href o, ics o) ∈ ex) ->
  agreed {| db := (reconcile b objects now r d).1; exchanged := ex |}.
Proof.
  intros Ha Hx. unfold reconcile. destruct (parse_all objects) as [parsed|e] eqn:Ep; [|done].
  apply parse_all_Ok in Ep as [Eo Hp].
  assert (agreed {| db := (foldl (reconcile_object b now (known d (b_list b))) (d, r) parsed).1; exchanged := ex |}) as Ha1.
  { apply objects_agree; [|done|].
    - intros o todo Hin. split; [by apply Hp|]. apply Hx. rewrite <- Eo. apply list_elem_of_fmap. by exists (o, todo).
    - intros place local. by apply known_knows, Ha. }
  destruct (foldl (reconcile_object b now (known d (b_list b))) (d, r) parsed) as [d1 r1].
  pose proof (places_agree ex (href <$> objects) (iter (known d (b_list b))) d1 r1 Ha1) as Ha2.
  by destruct (foldl (reconcile_known (href <$> objects)) (d1, r1) (iter (known d (b_list b)))).
Qed.

Lemma sync_agrees l now w : agreed w -> ensures does agreed (sync l now) (fun _ => agreed) w.
Proof.
  intros Ha. unfold sync. apply ensures_bind, ensures_use; [done|]. intros d Hd _. split; [done|]. cbn [fst snd].
  destruct (binding d l) as [b|]; [|done]. apply ensures_bind.
  eapply (ensures_mono _ _ _ (fun _ => agreed)).
  - intros outcome w' Ha'. apply ensures_bind, ensures_use; [done|]. intros d' Hd' _.
    assert (agreed {| db := update_lists (is_list l) (match outcome with Ok _ => synced now | Err e => failed e end) d';
      exchanged := exchanged w' |}) as Hl by (apply agreed_lists; by destruct outcome).
    by split.
  - apply ensures_and_then. eapply ensures_mono; [|by apply push_agrees]. intros [r|e] w1 Ha1; [|done].
    apply ensures_and_then, ensures_fetch; [done|]. intros w2 [objects|e] Ha2 _ Hx; [|done].
    apply ensures_use; [done|]. intros d2 Hd2 _.
    assert (agreed {| db := (reconcile b objects now r d2).1; exchanged := exchanged w2 |}) as Hr; [|done].
    apply reconcile_agrees; [done|]. intros o Ho. rewrite Hx. apply elem_of_app. left. apply list_elem_of_fmap. by exists o.
Qed.

(** ** Settling *)

(** The row of an id, in a list kept on a server. *)
Definition row_at (d : Db) (place : text) (i : Z) : Prop :=
  i <= last_id d /\ forall t, t ∈ tasks d -> id t = i ->
    remote_href t = place /\ linked t = false /\ kept_on_server d (list_id t) = true.

Lemma row_at_knows d place i : row_at d place i -> knows d place i.
Proof. intros [Hi Hr]. split; [done|]. intros t Hin Hid. destruct (Hr t Hin Hid) as (? & ? & _). done. Qed.

Lemma row_at_evolves d d' place i : evolves d d' -> row_at d place i -> row_at d' place i.
Proof.
  intros Hev [Hi Hr]. split; [pose proof (ev_last _ _ Hev); lia|]. intros t' Hin Hid.
  destruct (ev_rows _ _ Hev t' Hin) as [Hn|(t & Ht & S)]; [lia|].
  destruct (Hr t Ht) as (_ & Hl & Hk); [by rewrite <- (st_id _ _ _ _ S)|].
  destruct (st_list _ _ _ _ S Hk) as [_ Hk'].
  destruct (ev_tasks _ _ Hev t' Hin Hk') as [[Hn _]|(u & Hu & L)]; [lia|].
  destruct (Hr u Hu) as (Hh & _ & _); [by rewrite <- (la_id _ _ L)|]. destruct (la_remote _ _ L) as (-> & _).
  split; [done|]. split; [|done]. by rewrite (linked_key t t' (st_key _ _ _ _ S)).
Qed.

Lemma found_row_at d d1 i t b : wf true d -> query_row (with_id i) (tasks d) = Some t -> evolves d d1 ->
  binding d1 (list_id t) = Some b -> row_at d (remote_href t) i.
Proof.
  intros Hw [Hin Hi%Z.eqb_eq]%query_row_Some Hev Hb. subst i. split; [by apply (wf_given _ _ Hw)|].
  intros u Hu Hid. assert (u = t) as ->.
  { apply (key_unique id (id t) (tasks d)); [apply Hw|done|done| |]; by apply bool_decide_eq_true. }
  assert (kept_on_server d (list_id t) = true) as Hk.
  { unfold binding in Hb. destruct (query_row _ (lists d1)) as [l|] eqn:El; [|done].
    apply query_row_Some in El as [Hl Hp]. apply andb_true_iff in Hp as [Hp Hne].
    apply (evolves_kept _ _ _ Hev), kept_iff. exists l. split; [done|].
    split; [by apply bool_decide_eq_true in Hp|]. unfold on_server. by rewrite Hne. }
  split; [done|]. split; [|done]. apply not_true_is_false. intros Hl.
  destruct (ok_linked _ _ _ (wf_tasks _ _ Hw t Hin) Hl) as (_ & _ & Hno & _). congruence.
Qed.

(** A row queued again. *)
Lemma queued_agrees d ex place i f : agreed {| db := d; exchanged := ex |} -> row_at d place i ->
  (forall t, id (f t) = id t /\ account (f t) = account t /\ thread_key (f t) = thread_key t /\
    list_id (f t) = list_id t /\ rrule (f t) = rrule t /\ due_at (f t) = due_at t /\ pending (f t) <> []) ->
  agreed {| db := update_tasks (with_id i) f d; exchanged := ex |}.
Proof.
  intros Ha [_ Hr] Hf. apply agreed_update; [done| |].
  - apply wf_by_id; [apply Ha|]. intros t Hin Hi. destruct (Hr t Hin Hi) as (_ & Hl & Hk).
    destruct (Hf t) as (E1 & E2 & E3 & E4 & E5 & E6 & E7). pose proof (wf_tasks _ _ (ag_wf _ Ha) t Hin) as Hok.
    apply keeps_unlinked; [done..| |by rewrite E4]. rewrite E5, E6. apply Hok.
  - intros t Hin _ Hp _. destruct (Hf t) as (_ & _ & _ & _ & _ & _ & E). by destruct E.
Qed.

Lemma settle_agrees i t keep current now w : agreed w -> row_at (db w) (remote_href t) i ->
  (forall object version, current = Some (object, version) -> (remote_href t, object) ∈ exchanged w) ->
  ensures does agreed (settle i t keep current now) (fun _ => agreed) w.
Proof.
  intros Ha Hr Hc. unfold settle. destruct keep, current as [[object version]|].
  - apply ensures_bind, ensures_use; [done|]. intros d Hd Hev.
    assert (agreed {| db := update_tasks (with_id i) (mine_over object version) d; exchanged := exchanged w |}) as Hq; [|by split].
    apply (queued_agrees _ _ (remote_href t)); [done|by eapply row_at_evolves|]. intros u. split_and!; try done.
    change (pending (mine_over object version u)) with (if is_nil (pending u) then lit "put" else pending u).
    by destruct (pending u).
  - destruct (deleting t); apply ensures_bind, ensures_use; try done; intros d Hd Hev.
    + assert (agreed {| db := delete_tasks (with_id i) d; exchanged := exchanged w |}) by (by apply agreed_delete). by split.
    + assert (agreed {| db := update_tasks (with_id i) mine_again d; exchanged := exchanged w |}) as Hq; [|by split].
      apply (queued_agrees _ _ (remote_href t)); [done|by eapply row_at_evolves|done].
  - destruct (Todo.parse object) as [todo|e] eqn:E; [|done]. apply ensures_bind, ensures_use; [done|]. intros d Hd Hev.
    set (o := {| href := remote_href t; o_etag := version; ics := object |}).
    assert (agreed {| db := take_server_copy i o todo now d; exchanged := exchanged w |}) as Hq; [|by split].
    apply take_agrees; [done|done|by eapply Hc|]. by apply row_at_knows, (row_at_evolves (db w)).
  - apply ensures_bind, ensures_use; [done|]. intros d Hd Hev.
    assert (agreed {| db := delete_tasks (with_id i) d; exchanged := exchanged w |}) by (by apply agreed_delete). by split.
Qed.

Lemma resolve_agrees i keep now w : agreed w -> ensures does agreed (resolve_conflict i keep now) (fun _ => agreed) w.
Proof.
  intros Ha. unfold resolve_conflict. apply ensures_bind, ensures_use; [done|]. intros d Hd _. split; [done|]. cbn [fst snd].
  destruct (query_row (with_id i) (tasks d)) as [t|] eqn:Et; [|done]. destruct (is_nil (conflict t)); [done|].
  apply ensures_bind, ensures_use; [done|]. intros d1 Hd1 Hev1. split; [done|]. cbn [fst snd].
  destruct (binding d1 (list_id t)) as [b|] eqn:Eb; [|done].
  assert (row_at d1 (remote_href t) i) as Hr.
  { eapply row_at_evolves; [exact Hev1|]. by eapply found_row_at; [apply Hd| | |]. }
  assert (forall current w', agreed w' -> row_at (db w') (remote_href t) i ->
    (forall object version, current = Some (object, version) -> (remote_href t, object) ∈ exchanged w') ->
    ensures does agreed (and_then (settle i t keep current now) (fun _ => Ret (Ok (list_id t)))) (fun _ => agreed) w') as Hsettle.
  { intros current w' Ha' Hr' Hc. apply ensures_and_then. eapply ensures_mono; [|by apply settle_agrees]. by intros [u|e] w''. }
  apply ensures_and_then. destruct (is_nil (remote_href t)); [by apply Hsettle|].
  unfold Dav.get_object. destruct (Dav.guard _ _); [|done]. apply ensures_and_then, ensures_send; [done|].
  intros w2 answer Ha2 Hev2 Hx. destruct answer as [reply|e]; [|done]. cbn [ensures].
  change (seen_there (Dav.get_request (remote_href t)) (Ok reply)) with
    (match Dav.get_reply reply with Ok (Some (object, _)) => [(remote_href t, object)] | _ => [] end) in Hx.
  destruct (Dav.get_reply reply) as [current|e]; [|done]. apply Hsettle; [done|by eapply row_at_evolves|].
  intros object version ->. rewrite Hx. by left.
Qed.

(** C6. Wherever a sync of a list, or the settling of a conflict, is stopped,
    whatever the server answers and whatever the person does meanwhile, each
    request to its end: a task of a list kept on a CalDAV server that has
    nothing waiting to be sent is the server's. The object kept of it was
    accepted or given by the server at the task's place, and says what the task
    shows. *)
Theorem sync_claims_nothing_false w w' : agreed w ->
  (forall l now o, runs does (sync l now) w w' o -> agreed w') /\
  (forall i keep now o, runs does (resolve_conflict i keep now) w w' o -> agreed w').
Proof.
  intros Ha. split; intros; (eapply ensures_always; [exact Ha| |eassumption]);
    [by apply sync_agrees|by apply resolve_agrees].
Qed.
End Laws.
End TaskSyncLaws.
