(* ===== verification/TaskReconcile.v ===== *)
(** * Reconciling, row by row

    [TaskSync.reconcile] collects what is known of each place into a hash
    map, goes through the objects of the collection, then through the map in
    whatever order it has, and changes rows by their id.  It comes to one
    pass over the rows, each settled by the object at its place alone, and
    the objects at no known place added in order. *)
From S2P Require Import Prelude Text Program Calendar Recurrence RRule Todo Dav Tasks TaskLaws TaskSync TaskEvolves TaskSyncLaws.
From coqutil Require Import Datatypes.RecordSetters.
From S2P Require Import Table.
Import TriangleBracketNotations.
#[local] Open Scope record_set.
#[local] Open Scope Z_scope.

Module TaskReconcile.
Import Tasks TaskLaws TaskSync TaskSyncLaws.

(** ** The reference *)

(** A row whose place has an object. *)
Definition with_object (o : Object) (todo : Todo.Todo) (now : Z) (t : Task) : Task :=
  if negb (is_nil (o_etag o)) && bool_decide (o_etag o = remote_etag t) then t
  else if is_nil (pending t) then server_copy o todo now t
  else if bool_decide (conflict t = lit "changed") then t
  else conflicted (lit "changed") t.

(** A row whose place has none any more. *)
Definition without_object (t : Task) : option Task :=
  if is_nil (pending t) || deleting t then None
  else if is_nil (remote_etag t) && is_nil (conflict t) then Some t
  else if bool_decide (conflict t = lit "deleted") then Some t
  else Some (conflicted (lit "deleted") t).

Definition in_place (l : text) (t : Task) : bool := in_list l t && negb (is_nil (remote_href t)).

Definition object_at (place : text) (parsed : list (Object * Todo.Todo)) : option (Object * Todo.Todo) :=
  find_by (fun ot => bool_decide (href ot.1 = place)) parsed.

Definition settled_row (l : text) (now : Z) (parsed : list (Object * Todo.Todo)) (t : Task) : option Task :=
  if in_place l t then
    match object_at (remote_href t) parsed with
    | Some (o, todo) => Some (with_object o todo now t)
    | None => without_object t
    end
  else Some t.

(** The objects at places nothing here has. *)
Definition unknown (l : text) (ts : list Task) (parsed : list (Object * Todo.Todo)) : list (Object * Todo.Todo) :=
  select (fun ot => negb (existsb (fun t => in_place l t && bool_decide (remote_href t = href ot.1)) ts)) parsed.

Fixpoint added (l : text) (now last : Z) (ots : list (Object * Todo.Todo)) : list Task :=
  match ots with
  | [] => []
  | (o, todo) :: rest => from_server l o todo now (new_task (last + 1)) :: added l now (last + 1) rest
  end.

(** ** Lists *)

Lemma omap_fmap_ext {A B C} (f : A -> option B) (g : B -> C) (h : A -> option C) (l : list A) :
  (forall x, x ∈ l -> g <$> f x = h x) -> g <$> omap f l = omap h l.
Proof.
  induction l as [|x l IH]; intros Hx; [done|]. cbn. rewrite <- Hx by by left.
  assert (g <$> omap f l = omap h l) as <- by (apply IH; intros; apply Hx; by right). by destruct (f x).
Qed.

Lemma omap_delete_ext {A B} (f h : A -> option B) (p : B -> bool) (l : list A) :
  (forall x, x ∈ l -> (y ← f x; if p y then None else Some y) = h x) -> delete_where p (omap f l) = omap h l.
Proof.
  induction l as [|x l IH]; intros Hx; [done|]. cbn. rewrite <- Hx by by left.
  assert (delete_where p (omap f l) = omap h l) as <- by (apply IH; intros; apply Hx; by right).
  destruct (f x) as [y|]; [|done]. change (delete_where p (y :: omap f l) =
    match (if p y then None else Some y) with Some z => z :: delete_where p (omap f l) | None => delete_where p (omap f l) end).
  unfold delete_where. rewrite filter_cons. destruct (p y); by case_decide.
Qed.

Lemma omap_ext_in {A B} (f h : A -> option B) (l : list A) : (forall x, x ∈ l -> f x = h x) -> omap f l = omap h l.
Proof.
  induction l as [|x l IH]; intros Hx; [done|]. cbn. rewrite Hx by by left.
  by rewrite IH by (intros; apply Hx; by right).
Qed.

Lemma omap_id {A} (f : A -> option A) (l : list A) : (forall x, x ∈ l -> f x = Some x) -> omap f l = l.
Proof.
  induction l as [|x l IH]; intros Hx; [done|]. cbn. rewrite Hx by by left. by rewrite IH by (intros; apply Hx; by right).
Qed.

Lemma omap_fmap_in {A B C} (f : A -> B) (g : B -> option C) (l : list A) : omap g (f <$> l) = omap (fun x => g (f x)) l.
Proof. induction l as [|x l IH]; [done|]. cbn. by rewrite IH. Qed.

Lemma added_app l now last a b : added l now last (a ++ b) = added l now last a ++ added l now (last + Z.of_nat (length a)) b.
Proof.
  revert last. induction a as [|[o todo] a IH]; intros last; [by rewrite Z.add_0_r|]. cbn [added app length].
  rewrite IH. by assert (last + 1 + Z.of_nat (length a) = last + Z.of_nat (S (length a))) as <- by lia.
Qed.

Lemma added_ids l now last ots t : t ∈ added l now last ots -> last < id t.
Proof.
  revert last. induction ots as [|[o todo] ots IH]; intros last; [by intros ?%not_elem_of_nil|].
  cbn [added]. intros [->|Hin]%elem_of_cons; [cbn; unfold constant; lia|]. specialize (IH _ Hin). lia.
Qed.

Lemma find_by_app {A} (p : A -> bool) a b :
  find_by p (a ++ b) = match find_by p a with Some x => Some x | None => find_by p b end.
Proof. induction a as [|x a IH]; [done|]. cbn. by destruct (p x). Qed.

(** ** The pass over the objects *)

Section Passes.
Context (l : text) (now : Z).

Definition row_after (parsed : list (Object * Todo.Todo)) (t : Task) : Task :=
  if in_place l t then
    match object_at (remote_href t) parsed with Some (o, todo) => with_object o todo now t | None => t end
  else t.

Lemma with_object_cols o todo t : id (with_object o todo now t) = id t /\
  remote_href (with_object o todo now t) = remote_href t /\ list_id (with_object o todo now t) = list_id t.
Proof. unfold with_object. by repeat case_match. Qed.

Lemma row_after_cols parsed t : id (row_after parsed t) = id t /\ remote_href (row_after parsed t) = remote_href t.
Proof.
  unfold row_after. destruct (in_place l t); [|done]. destruct (object_at _ _) as [[o todo]|]; [|done].
  split; apply with_object_cols.
Qed.

Lemma row_after_other parsed o todo t : in_place l t && bool_decide (remote_href t = href o) = false ->
  row_after (parsed ++ [(o, todo)]) t = row_after parsed t.
Proof.
  unfold row_after, object_at. intros Hno. destruct (in_place l t); [|done]. cbn in Hno.
  rewrite find_by_app. destruct (find_by _ parsed) as [[o' todo']|]; [done|]. cbn.
  by rewrite bool_decide_eq_false_2 by (apply bool_decide_eq_false in Hno; congruence).
Qed.

Lemma row_after_here parsed o todo t : in_place l t = true -> remote_href t = href o ->
  href o ∉ href <$> (fst <$> parsed) ->
  row_after parsed t = t /\ row_after (parsed ++ [(o, todo)]) t = with_object o todo now t.
Proof.
  intros Hp Hh Hno. unfold row_after, object_at. rewrite Hp.
  assert (find_by (fun ot : Object * Todo.Todo => bool_decide (href ot.1 = remote_href t)) parsed = None) as Hnone.
  { destruct (find_by _ parsed) as [[o' todo']|] eqn:E; [exfalso|done]. apply find_by_Some in E as [Hin E].
    apply bool_decide_eq_true in E. apply Hno. apply list_elem_of_fmap. exists o'. split; [cbn in E; congruence|].
    apply list_elem_of_fmap. by exists (o', todo'). }
  rewrite find_by_app, Hnone. split; [done|]. cbn. by rewrite bool_decide_eq_true_2.
Qed.

Context (d : Db) (Hids : NoDup (id <$> tasks d)) (Hgiven : forall t, t ∈ tasks d -> id t <= last_id d).
Context (Hplaces : forall t u, t ∈ tasks d -> u ∈ tasks d -> in_place l t = true -> in_place l u = true ->
  remote_href t = remote_href u -> t = u).

Lemma same_id t u : t ∈ tasks d -> u ∈ tasks d -> id t = id u -> t = u.
Proof.
  intros Ht Hu E. apply (key_unique id (id t) (tasks d)); [done..| |]; by apply bool_decide_eq_true.
Qed.

Lemma known_of_row t : t ∈ tasks d -> in_place l t = true -> known d l !! remote_href t = Some (as_known t).2.
Proof.
  intros Hin Hp. destruct (known d l !! remote_href t) as [local|] eqn:E.
  - apply known_lookup in E as (u & Hu & Hl & Hh & Hne & ->). f_equal. f_equal.
    assert (u = t) as ->; [|done]. apply Hplaces; [done|done| |done|done].
    unfold in_place. rewrite Hl, Hh. by destruct (remote_href t).
  - exfalso. unfold known in E. apply not_elem_of_list_to_map in E. apply E.
    rewrite fmap_rev, list_elem_of_In, <- in_rev, <- list_elem_of_In. apply list_elem_of_fmap.
    exists (as_known t). split; [done|]. apply list_elem_of_fmap. exists t. split; [done|].
    by apply elem_of_select.
Qed.

Lemma known_row place local : known d l !! place = Some local ->
  exists t, t ∈ tasks d /\ in_place l t = true /\ remote_href t = place /\ local = (as_known t).2.
Proof.
  intros (t & Hin & Hl & Hh & Hne & ->)%known_lookup. exists t. split; [done|]. split; [|done].
  unfold in_place. rewrite Hl, Hh. by destruct place.
Qed.

(** What is there after some of the objects. *)
Definition objects_done (parsed : list (Object * Todo.Todo)) (d1 : Db) : Prop :=
  tasks d1 = (row_after parsed <$> tasks d) ++ added l now (last_id d) (unknown l (tasks d) parsed) /\
  lists d1 = lists d /\ last_id d1 = last_id d + Z.of_nat (length (unknown l (tasks d) parsed)).

Lemma with_rows (ts ts' : list Task) (d1 : Db) : ts = ts' -> d1 <| tasks := ts |> = d1 <| tasks := ts' |>.
Proof. by intros ->. Qed.

Lemma update_one d1 parsed t f : objects_done parsed d1 -> t ∈ tasks d ->
  update_tasks (with_id (id t)) f d1 =
  d1 <| tasks := ((fun u => if id u =? id t then f (row_after parsed u) else row_after parsed u) <$> tasks d)
                 ++ added l now (last_id d) (unknown l (tasks d) parsed) |>.
Proof.
  intros (Ht & _) Hin. unfold update_tasks. rewrite Ht. unfold Table.update. rewrite fmap_app, <- list_fmap_compose.
  assert ((fun r => if with_id (id t) r then f r else r) <$> added l now (last_id d) (unknown l (tasks d) parsed) =
    added l now (last_id d) (unknown l (tasks d) parsed)) as ->.
  { rewrite <- (list_fmap_id (added _ _ _ _)) at 2. apply list_fmap_ext.
    intros k u Hk%list_elem_of_lookup_2. cbn. apply added_ids in Hk. pose proof (Hgiven t Hin).
    unfold with_id. by destruct (Z.eqb_spec (id u) (id t)); [lia|]. }
  apply with_rows. f_equal. apply list_fmap_ext. intros k u _. cbn. unfold with_id.
  destruct (row_after_cols parsed u) as [-> _]. done.
Qed.

Lemma reconcile_object_row b r d1 parsed o todo t : objects_done parsed d1 -> t ∈ tasks d -> in_place l t = true ->
  remote_href t = href o -> row_after parsed t = t ->
  (reconcile_object b now (known d l) (d1, r) (o, todo)).1 =
  update_tasks (with_id (id t)) (with_object o todo now) d1.
Proof.
  intros Hd1 Hin Hp Hh Hrow. unfold reconcile_object. rewrite <- Hh, (known_of_row t Hin Hp).
  assert (forall f : Task -> Task, f t = with_object o todo now t ->
    update_tasks (with_id (id t)) f d1 = update_tasks (with_id (id t)) (with_object o todo now) d1) as Hf.
  { intros f Hf. rewrite !(update_one d1 parsed t) by done. apply with_rows. f_equal. apply list_fmap_ext.
    intros k u Hu%list_elem_of_lookup_2. cbn. destruct (Z.eqb_spec (id u) (id t)) as [E|E]; [|done].
    rewrite (same_id u t) by done. by rewrite Hrow. }
  assert (update_tasks (with_id (id t)) (fun u => u) d1 = d1) as Hnone.
  { transitivity (d1 <| tasks := tasks d1 |>); [|by destruct d1]. apply with_rows. unfold Table.update.
    rewrite <- (list_fmap_id (tasks d1)) at 2. apply list_fmap_ext. intros k u _. cbn. by destruct (with_id _ _). }
  cbn [as_known snd k_etag k_pending k_conflict k_task].
  repeat case_match; cbn [fst]; symmetry;
    first [rewrite <- (Hf (fun u => u)); [exact Hnone|] | unfold take_server_copy, mark_conflict; symmetry; apply Hf];
    unfold with_object; repeat case_match; congruence.
Qed.

Lemma unknown_snoc parsed o todo : unknown l (tasks d) (parsed ++ [(o, todo)]) =
  unknown l (tasks d) parsed ++
  (if existsb (fun t => in_place l t && bool_decide (remote_href t = href o)) (tasks d) then [] else [(o, todo)]).
Proof.
  unfold unknown, select. rewrite filter_app. f_equal. rewrite filter_cons. cbn [fst].
  destruct (existsb _ _); by case_decide.
Qed.

Lemma objects_pass b r parsed : b_list b = l -> NoDup (href <$> (fst <$> parsed)) ->
  objects_done parsed (foldl (reconcile_object b now (known d l)) (d, r) parsed).1.
Proof.
  intros Hb. induction parsed as [|[o todo] parsed IH] using rev_ind; intros Hnd.
  { cbn. split; [|by rewrite Z.add_0_r]. rewrite app_nil_r. rewrite <- (list_fmap_id (tasks d)) at 1.
    apply list_fmap_ext. intros k t _. unfold row_after. by destruct (in_place l t). }
  rewrite !fmap_app in Hnd. apply NoDup_app in Hnd as (Hnd & Hno & _). specialize (IH Hnd).
  assert (href o ∉ href <$> (fst <$> parsed)) as Hnew by (intros Hin; by apply (Hno _ Hin), list_elem_of_singleton).
  rewrite foldl_app. cbn [foldl].
  destruct (foldl (reconcile_object b now (known d l)) (d, r) parsed) as [d1 r1]. cbn [fst] in IH.
  unfold objects_done. rewrite unknown_snoc.
  destruct (existsb _ (tasks d)) eqn:Ex.
  - apply existsb_elem in Ex as (t & Hin & Hp). apply andb_true_iff in Hp as [Hp Hh%bool_decide_eq_true].
    destruct (row_after_here parsed o todo t Hp Hh Hnew) as [Hbefore Hafter].
    rewrite (reconcile_object_row b r1 d1 parsed o todo t), (update_one d1 parsed) by done. rewrite app_nil_r.
    split; [|apply IH]. cbn. unfold constant. f_equal. apply list_fmap_ext.
    intros k u Hu%list_elem_of_lookup_2. cbn. destruct (Z.eqb_spec (id u) (id t)) as [E|E].
    + rewrite (same_id u t) by done. by rewrite Hafter, Hbefore.
    + symmetry. apply row_after_other, not_true_is_false. intros Hb'. apply andb_true_iff in Hb' as [Hpu Hhu%bool_decide_eq_true].
      apply E. f_equal. apply Hplaces; congruence || done.
  - destruct IH as (Ht & Hl & Hlast).
    assert (known d l !! href o = None) as Hk.
    { destruct (known d l !! href o) as [local|] eqn:E; [exfalso|done].
      apply known_row in E as (t & Hin & Hp & Hh & _). pose proof (existsb_none _ _ Ex t Hin) as Hx. cbn in Hx.
      by rewrite Hp, bool_decide_eq_true_2 in Hx. }
    unfold reconcile_object. rewrite Hk. unfold insert_server_copy, insert. cbn [fst tasks lists last_id].
    rewrite Ht, Hlast, added_app, <- app_assoc, length_app. split_and!; [|done|cbn; lia]. f_equal; [|by rewrite Hb].
    apply list_fmap_ext. intros k t Hin%list_elem_of_lookup_2. symmetry. apply row_after_other.
    by apply (existsb_none _ _ Ex).
Qed.

(** ** The pass over the places *)

Definition settle_place (seen : list text) (done : list (text * Known)) (t : Task) : option Task :=
  if existsb (fun e => k_task e.2 =? id t) done && negb (bool_decide (remote_href t ∈ seen)) then without_object t
  else Some t.

Lemma settle_place_snoc seen es e t : settle_place seen (es ++ [e]) t =
  if existsb (fun e => k_task e.2 =? id t) es then settle_place seen es t
  else if k_task e.2 =? id t then settle_place seen [e] t else Some t.
Proof.
  unfold settle_place. rewrite existsb_app. cbn. rewrite orb_false_r.
  by destruct (existsb _ es), (k_task e.2 =? id t).
Qed.

Lemma without_object_id t t' : without_object t = Some t' -> id t' = id t.
Proof. unfold without_object. repeat case_match; intros [= <-]; done. Qed.

Lemma settle_place_id seen es t t' : settle_place seen es t = Some t' -> id t' = id t.
Proof. unfold settle_place. case_match; [apply without_object_id|by intros [= <-]]. Qed.

Lemma places_pass seen r d1 es :
  (forall e t, e ∈ es -> t ∈ tasks d1 -> id t = k_task e.2 ->
     remote_href t = e.1 /\ (e.1 ∉ seen -> e.2 = (as_known t).2)) ->
  NoDup es.*1 ->
  let d2 := (foldl (reconcile_known seen) (d1, r) es).1 in
  tasks d2 = omap (settle_place seen es) (tasks d1) /\ lists d2 = lists d1 /\ last_id d2 = last_id d1.
Proof.
  induction es as [|[place local] es IH] using rev_ind; intros He Hnd.
  { cbn. split; [|done]. symmetry. by apply omap_id. }
  rewrite fmap_app in Hnd. apply NoDup_app in Hnd as (Hnd & Hno & _).
  destruct IH as (Ht & Hl & Hi); [intros e t Hin; apply He, elem_of_app; by left|done|]. cbn zeta.
  rewrite foldl_app. cbn [foldl]. destruct (foldl (reconcile_known seen) (d1, r) es) as [d2 r2].
  cbn [fst] in Ht, Hl, Hi.
  assert (forall t, t ∈ tasks d1 -> id t = k_task local -> existsb (fun e => k_task e.2 =? id t) es = false /\
    remote_href t = place /\ (place ∉ seen -> local = (as_known t).2)) as Hrow.
  { intros t Hin Hid. destruct (He (place, local) t) as [Hh Hk]; [apply elem_of_app; right; by left|done|done|].
    split; [|done]. destruct (existsb _ es) eqn:Ex; [exfalso|done].
    apply existsb_elem in Ex as (e & Hine & Heq%Z.eqb_eq).
    destruct (He e t) as [Hh' _]; [apply elem_of_app; by left|done|done|].
    apply (Hno e.1); [by apply list_elem_of_fmap_2|]. apply list_elem_of_singleton. cbn in *. congruence. }
  assert (forall t, t ∈ tasks d1 -> settle_place seen (es ++ [(place, local)]) t =
    if id t =? k_task local then settle_place seen [(place, local)] t else settle_place seen es t) as Hsnoc.
  { intros t Hin. rewrite settle_place_snoc. cbn [snd]. rewrite (Z.eqb_sym (k_task local)).
    destruct (Z.eqb_spec (id t) (k_task local)) as [E|E].
    - by destruct (Hrow t Hin E) as (-> & _).
    - destruct (existsb _ es) eqn:Ex; [done|]. unfold settle_place. by rewrite Ex. }
  assert (forall f : Task -> Task, (forall t, t ∈ tasks d1 -> id t = k_task local -> Some (f t) = settle_place seen [(place, local)] t) ->
    Table.update (with_id (k_task local)) f (tasks d2) = omap (settle_place seen (es ++ [(place, local)])) (tasks d1)) as Hup.
  { intros f Hf. rewrite Ht. unfold Table.update. apply omap_fmap_ext. intros t Hin. rewrite Hsnoc by done.
    destruct (Z.eqb_spec (id t) (k_task local)) as [E|E].
    - destruct (Hrow t Hin E) as (Hno' & _). unfold settle_place at 1. rewrite Hno'. cbn.
      unfold with_id. rewrite E, Z.eqb_refl. by apply Hf.
    - destruct (settle_place seen es t) as [t'|] eqn:Es; [|done]. cbn. apply settle_place_id in Es.
      unfold with_id. rewrite Es. by destruct (Z.eqb_spec (id t) (k_task local)). }
  assert (Table.update (with_id (k_task local)) (fun t => t) (tasks d2) = tasks d2) as Hsame.
  { unfold Table.update. rewrite <- (list_fmap_id (tasks d2)) at 2. apply list_fmap_ext.
    intros k t _. cbn. by destruct (with_id _ _). }
  assert (forall t, t ∈ tasks d1 -> id t = k_task local -> settle_place seen [(place, local)] t =
    if bool_decide (place ∈ seen) then Some t else without_object t) as Hone.
  { intros t Hin E. destruct (Hrow t Hin E) as (_ & Hh & _). unfold settle_place. cbn.
    rewrite E, Z.eqb_refl, Hh. by destruct (bool_decide _). }
  unfold reconcile_known. destruct (bool_decide (place ∈ seen)) eqn:Eseen.
  { split; [|done]. cbn [fst]. rewrite <- Hsame. apply Hup. intros t Hin E. by rewrite Hone. }
  apply bool_decide_eq_false in Eseen.
  assert (forall t, t ∈ tasks d1 -> id t = k_task local -> settle_place seen [(place, local)] t = without_object t /\
    k_pending local = pending t /\ k_etag local = remote_etag t /\ k_conflict local = conflict t) as Hlocal.
  { intros t Hin E. destruct (Hrow t Hin E) as (_ & _ & Hk). split; [by rewrite Hone|]. by rewrite (Hk Eseen). }
  destruct (is_nil (k_pending local) || _) eqn:Egone; cbn [fst].
  { split; [|done]. change (tasks (delete_tasks (with_id (k_task local)) d2)) with
      (delete_where (with_id (k_task local)) (tasks d2)). rewrite Ht. apply omap_delete_ext. intros t Hin.
    rewrite Hsnoc by done. destruct (Z.eqb_spec (id t) (k_task local)) as [E|E].
    - destruct (Hrow t Hin E) as (Hno' & _). unfold settle_place at 1. rewrite Hno'. cbn.
      unfold with_id. rewrite E, Z.eqb_refl. destruct (Hlocal t Hin E) as (-> & Ep & _).
      unfold without_object, deleting. rewrite <- Ep. by rewrite Egone.
    - destruct (settle_place seen es t) as [t'|] eqn:Es; [|done]. cbn. apply settle_place_id in Es.
      unfold with_id. rewrite Es. by destruct (Z.eqb_spec (id t) (k_task local)). }
  assert (forall t, t ∈ tasks d1 -> id t = k_task local -> settle_place seen [(place, local)] t =
    if is_nil (k_etag local) && is_nil (k_conflict local) then Some t
    else if bool_decide (k_conflict local = lit "deleted") then Some t else Some (conflicted (lit "deleted") t)) as Hwait.
  { intros t Hin E. destruct (Hlocal t Hin E) as (-> & Ep & Ee & Ec). unfold without_object, deleting.
    rewrite <- Ep, Egone, Ee, Ec. done. }
  repeat case_match; cbn [fst]; (split; [|done]);
    first [rewrite <- Hsame; apply Hup | exact (Hup _ (fun t Hin E => eq_sym (Hwait t Hin E)))];
    intros t Hin E; by rewrite Hwait.
Qed.

(** ** Both *)

Lemma settled_after parsed es t : t ∈ tasks d ->
  (in_place l t = true <-> existsb (fun e : text * Known => k_task e.2 =? id t) es = true) ->
  settle_place (href <$> (fst <$> parsed)) es (row_after parsed t) = settled_row l now parsed t.
Proof.
  intros Hin Hes. unfold settle_place. destruct (row_after_cols parsed t) as [-> ->].
  unfold row_after, settled_row. destruct (in_place l t).
  - rewrite (proj1 Hes) by done. cbn [andb].
    destruct (object_at (remote_href t) parsed) as [[o todo]|] eqn:E.
    + rewrite bool_decide_eq_true_2; [done|]. apply find_by_Some in E as [Hino E%bool_decide_eq_true].
      rewrite <- E. apply list_elem_of_fmap_2, list_elem_of_fmap_2, Hino.
    + rewrite bool_decide_eq_false_2; [done|].
      intros (o & Ho & Hino)%list_elem_of_fmap. apply list_elem_of_fmap in Hino as ([o' todo] & -> & Hino).
      pose proof (find_by_None _ _ E _ Hino) as Hx. cbn in Hx. by rewrite bool_decide_eq_true_2 in Hx.
  - destruct (existsb _ es) eqn:E; [by destruct (proj2 Hes)|done].
Qed.
End Passes.

Section Reconcile.
Context `{Todo.TodoFormat} `{!HashOrder text Known}.

(** C7. Reconciling, through its hash map in whatever order that has and
    its updates by id, settles each row by the object at its place alone:
    the server's copy over a task with nothing waiting, unless the version is
    the one known; a task with a change waiting is marked in conflict and
    never overwritten; a task whose place is empty goes, unless its change
    waits.  The objects at places not known are added, in order; no other
    task, no list, and no id changes. *)
Theorem reconcile_is_row_by_row b objects now r d : wf true d ->
  (forall t u, t ∈ tasks d -> u ∈ tasks d -> in_place (b_list b) t = true -> in_place (b_list b) u = true ->
     remote_href t = remote_href u -> t = u) ->
  NoDup (href <$> objects) ->
  match parse_all objects with
  | Err e => reconcile b objects now r d = (d, Err e)
  | Ok parsed => exists r',
      let new := unknown (b_list b) (tasks d) parsed in
      reconcile b objects now r d =
        ({| tasks := omap (settled_row (b_list b) now parsed) (tasks d) ++ added (b_list b) now (last_id d) new;
            lists := lists d; last_id := last_id d + Z.of_nat (length new) |}, Ok r')
  end.
Proof.
  intros Hw Hplaces Hnd. unfold reconcile. destruct (parse_all objects) as [parsed|e] eqn:Ep; [|done].
  apply parse_all_Ok in Ep as [<- _]. set (l := b_list b) in *. set (k := known d l).
  pose proof (objects_pass l now d (wf_ids _ _ Hw) (wf_given _ _ Hw) Hplaces b r parsed eq_refl Hnd) as Hob.
  fold k in Hob. destruct (foldl (reconcile_object b now k) (d, r) parsed) as [d1 r1]. destruct Hob as (Ht1 & Hl1 & Hi1).
  cbn [fst] in Ht1, Hl1, Hi1.
  assert (forall e, e ∈ iter k -> exists t, t ∈ tasks d /\ in_place l t = true /\ remote_href t = e.1 /\ e.2 = (as_known t).2) as Hk.
  { intros [place local] Hin. by apply (known_row l d), elem_of_iter. }
  destruct (places_pass (href <$> (fst <$> parsed)) r1 d1 (iter k)) as (Ht2 & Hl2 & Hi2).
  - intros e t He Hin Hid. destruct (Hk e He) as (u & Hu & Hp & Hh & Hlocal). rewrite Hlocal in Hid. cbn in Hid.
    rewrite Ht1 in Hin. apply elem_of_app in Hin as [Hin|Hin];
      [|apply added_ids in Hin; pose proof (wf_given _ _ Hw u Hu); lia].
    apply list_elem_of_fmap in Hin as (t0 & -> & Hin). destruct (row_after_cols l now parsed t0) as [Ei Eh].
    rewrite Ei in Hid. assert (t0 = u) as -> by by apply (same_id d (wf_ids _ _ Hw)).
    rewrite Eh. split; [done|]. intros Hno. rewrite Hlocal. unfold row_after. rewrite Hp.
    destruct (object_at (remote_href u) parsed) as [[o todo]|] eqn:E; [exfalso|done].
    apply find_by_Some in E as [Ho E%bool_decide_eq_true]. apply Hno. rewrite <- Hh, <- E.
    apply list_elem_of_fmap_2, list_elem_of_fmap_2, Ho.
  - rewrite iter_perm. apply NoDup_fst_map_to_list.
  - destruct (foldl (reconcile_known _) (d1, r1) (iter k)) as [d2 r2]. cbn [fst] in Ht2, Hl2, Hi2.
    exists r2. cbn zeta. destruct d2 as [ts ls last]. cbn [tasks lists last_id] in *.
    rewrite Hl2, Hl1, Hi2, Hi1, Ht2, Ht1, omap_app.
    match goal with |- ({| tasks := ?a ++ ?n |}, _) = ({| tasks := ?a' ++ ?n' |}, _) =>
      cut (a = a' /\ n = n'); [by intros [-> ->]|split] end.
    + rewrite omap_fmap_in. apply omap_ext_in. intros t Hin. apply (settled_after l now d Hplaces); [done|].
      rewrite existsb_elem. split.
      * intros Hp. exists (remote_href t, (as_known t).2). split; [|apply Z.eqb_refl].
        apply elem_of_iter. by apply (known_of_row l d).
      * intros (e & He & Hid%Z.eqb_eq). destruct (Hk e He) as (u & Hu & Hp & _ & Hlocal). rewrite Hlocal in Hid.
        by rewrite <- (same_id d (wf_ids _ _ Hw) u t).
    + apply omap_id. intros t Hin. apply added_ids in Hin. unfold settle_place.
      destruct (existsb _ (iter k)) eqn:E; [exfalso|done]. apply existsb_elem in E as (e & He & Hid%Z.eqb_eq).
      destruct (Hk e He) as (u & Hu & _ & _ & Hlocal). rewrite Hlocal in Hid. cbn in Hid.
      pose proof (wf_given _ _ Hw u Hu). lia.
Qed.
End Reconcile.
End TaskReconcile.
