(* ===== verification/TaskSyncLive.v ===== *)
(** * A sync gets everything through

    With nobody in the way (a server that accepts what is sent and shows a
    collection that can be read, and nothing changed here meanwhile), one
    sync of a list with no conflict sends every change waiting that may be
    sent, and ends well. *)
From S2P Require Import Prelude Text Program Calendar Recurrence RRule Todo Dav Tasks TaskLaws TaskSync TaskEvolves TaskSyncLaws.
From coqutil Require Import Datatypes.RecordSetters.
From S2P Require Import Table.
From S2P Require Import TaskReconcile.

Import TriangleBracketNotations.
#[local] Open Scope record_set.
#[local] Open Scope Z_scope.

Module TaskSyncLive.
Import Tasks TaskLaws TaskSync TaskEvolves TaskSyncLaws.

(** A server, as a state and its answers. *)
Record Server := {
  state : Type;
  answer : Dav.DavRequest -> state -> state * result text Dav.HttpReply;
  collection : text -> state -> state * result text (list Object);
  uuid : state -> state * text
}.

Section Live.
Context `{Urls} `{Todo.TodoFormat} `{!HashOrder text Known} (S : Server).

Definition handle X (e : Ev X) : Db * state S -> (Db * state S) * X :=
  match e in Ev X return Db * state S -> (Db * state S) * X with
  | Send r => fun w => let (s, x) := answer S r w.2 in ((w.1, s), x)
  | FetchTodos c => fun w => let (s, x) := collection S c w.2 in ((w.1, s), x)
  | NewUuid => fun w => let (s, x) := uuid S w.2 in ((w.1, s), x)
  | WithDb f => fun w => let (d, x) := f w.1 in ((d, w.2), x)
  end.

(** It takes every object and every deletion, and its collection can be
    read. *)
Record willing : Prop := {
  w_put : forall r s, Dav.method r = lit "PUT" -> exists reply version,
    (answer S r s).2 = Ok reply /\ Dav.put_reply reply = Ok (Dav.Saved version);
  w_delete : forall r s, Dav.method r = lit "DELETE" -> exists reply,
    (answer S r s).2 = Ok reply /\ Dav.delete_reply reply = Ok (Dav.Saved None);
  w_collection : forall c s, exists objects parsed, (collection S c s).2 = Ok objects /\ parse_all objects = Ok parsed
}.

(** What may be sent: to a place on the collection's own server, an object
    that can be changed. *)
Definition can_send (b : Binding) (now : Z) (p : Pending) : Prop :=
  if bool_decide (p_pending p = lit "delete") then
    p_href p <> [] -> Dav.same_origin (b_url b) (p_href p) = true
  else if p_recurring p then True
  else if is_nil (p_href p) then
    forall u, exists place, Dav.new_href (b_url b) (u ++ lit "@oreneta") = Ok place /\
      Dav.same_origin (b_url b) place = true
  else Dav.same_origin (b_url b) (p_href p) = true /\
       (p_ics p <> [] -> exists object, Todo.patch (p_ics p) (p_fields p) now = Ok object).

Definition works X (e : Ev X) (w w' : Db * state S) (x : X) : Prop := (w', x) = handle X e w.
Definition anywhere (w : Db * state S) : Prop := True.

Lemma works_db {X} (f : Db -> Db * X) Q w :
  Q (f w.1).2 ((f w.1).1, w.2) -> ensures works anywhere (with_db f) Q w.
Proof. intros Hq w' x Hd. cbn in Hd. unfold works in Hd. cbn in Hd. destruct (f w.1). by injection Hd as -> ->. Qed.

Lemma works_send r Q w : (forall s, Q (answer S r w.2).2 (w.1, s)) -> ensures works anywhere (send r) Q w.
Proof. intros Hq w' x Hd. unfold works in Hd. cbn in Hd. destruct (answer S r w.2) as [s y]. injection Hd as -> ->. split; [done|apply Hq]. Qed.

Lemma works_uuid {A} (k : text -> prog Ev A) Q w : (forall u s, ensures works anywhere (k u) Q (w.1, s)) ->
  ensures works anywhere (prog_bind k (call NewUuid)) Q w.
Proof. intros Hq w' x Hd. unfold works in Hd. cbn in Hd. destruct (uuid S w.2). injection Hd as -> ->. split; [done|apply Hq]. Qed.

(** ** What is left to send *)

Section List.
Context (l : text).

(** Every row that waits is still to come, or is not sent at all. *)
Record waits (d : Db) (ps : list Pending) : Prop := {
  wt_ids : NoDup (p_id <$> ps);
  wt_rows : forall t p, t ∈ tasks d -> p ∈ ps -> id t = p_id p ->
    sync_seq t = p_seq p /\ pending t = p_pending p /\ recurring t = p_recurring p;
  wt_all : forall t, t ∈ tasks d -> in_list l t = true -> pending t <> [] ->
    id t ∈ p_id <$> ps \/ recurring t = true /\ deleting t = false
}.

Lemma waits_queue d : wf true d -> waits d (queue d l).
Proof.
  intros Hw. split; [by apply queue_ids| |].
  - intros t p Hin (u & -> & Hu)%list_elem_of_fmap Hid. rewrite order_by_perm in Hu. apply elem_of_select in Hu as [Hu _].
    assert (t = u) as ->; [|done].
    apply (key_unique id (id u) (tasks d)); [apply Hw|done|done| |]; by apply bool_decide_eq_true.
  - intros t Hin Hl Hp. left. apply list_elem_of_fmap. exists (as_pending t). split; [done|].
    apply list_elem_of_fmap. exists t. split; [done|]. rewrite order_by_perm. apply elem_of_select.
    split; [done|]. rewrite Hl. by destruct (pending t).
Qed.

(** One task done with. *)
Lemma waits_next d d' p rest : waits d (p :: rest) ->
  (forall t', t' ∈ tasks d' -> (id t' <> p_id p /\ t' ∈ tasks d) \/
     (id t' = p_id p /\ (pending t' = [] \/ recurring t' = true /\ deleting t' = false))) ->
  waits d' rest.
Proof.
  intros [Hnd Hr Ha] Ht. rewrite fmap_cons in Hnd. apply NoDup_cons in Hnd as [Hno Hnd]. split; [done| |].
  - intros t q Hin Hq Hid. destruct (Ht t Hin) as [[_ Hin']|[Hid' _]].
    + apply Hr; [done|by right|done].
    + exfalso. apply Hno. rewrite <- Hid', Hid. by apply list_elem_of_fmap_2.
  - intros t Hin Hl Hp. destruct (Ht t Hin) as [[Hne Hin']|[_ [Hz|Hrec]]]; [|done|by right].
    destruct (Ha t Hin' Hl Hp) as [[E|Hx]%elem_of_cons|Hrec]; [done|by left|by right].
Qed.

(** A change of the row being sent that leaves what is known of it. *)
Lemma waits_same d p rest f : waits d (p :: rest) ->
  (forall t, id (f t) = id t /\ sync_seq (f t) = sync_seq t /\ pending (f t) = pending t /\
     recurring (f t) = recurring t /\ list_id (f t) = list_id t) ->
  waits (update_tasks (with_id (p_id p)) f d) (p :: rest).
Proof.
  intros [Hnd Hr Ha] Hf. split; [done| |].
  - intros t' q (t & Hin & ->)%elem_of_update. destruct (Hf t) as (E1 & E2 & E3 & E4 & _).
    intros Hq Hid. destruct (with_id _ t); [rewrite E2, E3, E4; rewrite E1 in Hid|]; by apply Hr.
  - intros t' (t & Hin & ->)%elem_of_update. destruct (Hf t) as (E1 & _ & E3 & E4 & E5). unfold in_list, deleting.
    destruct (with_id _ t); [rewrite E1, E3, E4, E5|]; by apply Ha.
Qed.

(** A task sent, the rest waiting. *)
Definition went_on (ls : list ListRow) (rest : list Pending) (r : result text Next) (w : Db * state S) : Prop :=
  exists r', r = Ok (GoOn r') /\ stopped_early r' = false /\ waits w.1 rest /\ lists w.1 = ls.

Lemma delete_goes_on d s p rest r (q : Task -> bool) : waits d (p :: rest) -> stopped_early r = false ->
  (forall t, t ∈ tasks d -> id t = p_id p -> q t = true) ->
  ensures works anywhere (prog_bind (fun _ => Ret (Ok (GoOn r))) (change (delete_tasks q)))
    (went_on (lists d) rest) (d, s).
Proof.
  intros Hw Hr Hq. apply ensures_bind, works_db. exists r. split; [done|]. split; [done|]. split; [|done].
  apply (waits_next d _ p); [done|]. intros t [Hin Hqt]%elem_of_delete_where. left. split; [|done].
  intros E. rewrite Hq in Hqt; done.
Qed.

Lemma guard_ok b place : Dav.same_origin (b_url b) place = true -> Dav.guard (b_url b) place = Ok tt.
Proof. unfold Dav.guard. by intros ->. Qed.

Lemma push_delete_goes_on b now p rest r d s : willing -> waits d (p :: rest) -> can_send b now p ->
  p_pending p = lit "delete" -> stopped_early r = false ->
  ensures works anywhere (push_delete b p r) (went_on (lists d) rest) (d, s).
Proof.
  intros Hs Hw Hc Hp Hr. unfold push_delete.
  destruct (is_nil (p_etag p)) eqn:Ee; [|destruct (is_nil (p_href p)) eqn:Eh]; cbn [orb].
  1,2: apply (delete_goes_on d s p); [done|done|]; intros t _ Hid; by apply Z.eqb_eq.
  unfold can_send in Hc. rewrite bool_decide_eq_true_2 in Hc by done.
  apply ensures_and_then. unfold Dav.delete_object. rewrite guard_ok by (apply Hc; by destruct (p_href p)). rewrite Ee.
  apply ensures_and_then, works_send. intros s'. cbn [fst snd].
  destruct (w_delete Hs (Dav.delete_request (p_href p) (p_etag p)) s eq_refl) as (reply & -> & Hreply).
  cbn [ensures]. rewrite Hreply. apply (delete_goes_on d s' p); [done|done|].
  intros t Hin Hid. destruct (wt_rows _ _ Hw t p Hin ltac:(by left) Hid) as (_ & Hpend & _).
  apply andb_true_iff. split; [by apply Z.eqb_eq|]. apply bool_decide_eq_true. congruence.
Qed.

Lemma put_goes_on b p rest r place object d s : willing -> waits d (p :: rest) -> stopped_early r = false ->
  Dav.same_origin (b_url b) place = true ->
  ensures works anywhere
    (and_then (Dav.put_object send (b_url b) place object (if is_nil (p_etag p) then None else Some (p_etag p)))
      (fun written => match written with
         | Dav.Saved version => prog_bind (fun _ => Ret (Ok (GoOn (r <| pushed := pushed r + 1 |>))))
             (change (update_tasks (with_id (p_id p)) (sent (unwrap_or [] version) object (p_seq p))))
         | Dav.Conflict => conflict_found (p_id p) r
         end)) (went_on (lists d) rest) (d, s).
Proof.
  intros Hs Hw Hr Ho. assert (forall condition, ensures works anywhere
    (and_then (send (Dav.put_request place object condition)) (fun reply => Ret (Dav.put_reply reply)))
    (fun x w => exists version, x = Ok (Dav.Saved version) /\ w.1 = d) (d, s)) as Hsend.
  { intros condition. apply ensures_and_then, works_send. intros s'. cbn [fst snd].
    destruct (w_put Hs (Dav.put_request place object condition) s eq_refl) as (reply & version & -> & Hreply).
    cbn [ensures]. rewrite Hreply. by exists version. }
  apply ensures_and_then. unfold Dav.put_object. rewrite guard_ok by done.
  eapply ensures_mono; [|destruct (p_etag p) as [|c v]; apply Hsend].
  intros x [d' s'] (version & -> & E). cbn in E. subst d'. apply ensures_bind, works_db. cbn [fst snd].
  eexists. split; [reflexivity|]. split; [done|]. split; [|done]. apply (waits_next d _ p); [done|].
  intros t' (t & Hin & ->)%elem_of_update. destruct (with_id (p_id p) t) eqn:E.
  - right. apply Z.eqb_eq in E. split; [done|]. left.
    destruct (wt_rows _ _ Hw t p Hin ltac:(by left) E) as (Hseq & _). cbn. by rewrite Hseq, Z.eqb_refl.
  - left. by apply Z.eqb_neq in E.
Qed.

Lemma push_one_goes_on b now p rest r d s : willing -> waits d (p :: rest) -> can_send b now p ->
  stopped_early r = false -> ensures works anywhere (push_one b now p r) (went_on (lists d) rest) (d, s).
Proof.
  intros Hs Hw Hc Hr. unfold push_one. destruct (bool_decide (p_pending p = lit "delete")) eqn:Ed.
  { apply (push_delete_goes_on b now); try done. by apply bool_decide_eq_true in Ed. }
  destruct (p_recurring p) eqn:Er.
  { exists r. split; [done|]. split; [done|]. split; [|done]. apply (waits_next d _ p); [done|]. intros t Hin.
    destruct (decide (id t = p_id p)) as [E|E]; [right|by left].
    destruct (wt_rows _ _ Hw t p Hin ltac:(by left) E) as (_ & Hp & Hrec). split; [done|]. right.
    unfold deleting. rewrite Hp, Hrec, Ed. done. }
  unfold can_send in Hc. rewrite Ed, Er in Hc. unfold push_put, prepare. cbn zeta.
  destruct (is_nil (p_href p)) eqn:Eh; [|destruct (is_nil (p_ics p)) eqn:Ei]; cbn [orb].
  - apply ensures_and_then, works_uuid. intros u s'. destruct (Hc u) as (place & Hplace & Ho).
    apply ensures_and_then. cbn [ensures]. rewrite Hplace. apply ensures_bind, works_db. cbn [fst snd].
    apply (put_goes_on b p rest r place _ (update_tasks (with_id (p_id p)) _ d)); [done| |done|done].
    by apply waits_same.
  - apply ensures_and_then, works_uuid. intros u s'. destruct Hc as [Ho _].
    apply ensures_and_then. cbn [ensures]. apply ensures_bind, works_db. cbn [fst snd].
    apply (put_goes_on b p rest r _ _ (update_tasks (with_id (p_id p)) _ d)); [done| |done|done].
    by apply waits_same.
  - destruct Hc as [Ho Hpatch]. destruct Hpatch as (object & Hobject); [by destruct (p_ics p)|].
    apply ensures_and_then. cbn [ensures]. rewrite Hobject. cbn. by apply put_goes_on.
Qed.

Lemma push_all_goes_on b now ps r d s : willing -> waits d ps -> (forall p, p ∈ ps -> can_send b now p) ->
  stopped_early r = false ->
  ensures works anywhere (push_all b now ps r)
    (fun x w => exists r', x = Ok r' /\ stopped_early r' = false /\ waits w.1 [] /\ lists w.1 = lists d) (d, s).
Proof.
  intros Hs. revert r d s. induction ps as [|p ps IH]; intros r d s Hw Hc Hr; [by exists r|]. cbn [push_all].
  apply ensures_and_then. eapply ensures_mono; [|apply (push_one_goes_on b now p ps); try done; apply Hc; by left].
  intros x [d' s'] (r' & -> & Hr' & Hw' & <-). apply IH; [done| |done]. intros q Hq. apply Hc. by right.
Qed.

(** ** The rest of the sync *)

(** Nothing of the list waits but what is not sent. *)
Definition settled (d : Db) : Prop := forall t, t ∈ tasks d -> in_list l t = true -> pending t <> [] ->
  recurring t = true /\ deleting t = false.

Lemma settled_waits d : waits d [] -> settled d.
Proof. intros [_ _ Ha] t Hin Hl Hp. destruct (Ha t Hin Hl Hp) as [Hno|]; [by apply not_elem_of_nil in Hno|done]. Qed.

Lemma settled_update d p f : (forall t, list_id (f t) = list_id t /\ (pending (f t) = [] \/
    pending (f t) = pending t /\ recurring (f t) = recurring t)) ->
  settled d -> settled (update_tasks p f d).
Proof.
  intros Hf Hs t' (t & Hin & ->)%elem_of_update. destruct (p t); [|by apply Hs].
  destruct (Hf t) as [E [Hp|[Ep Er]]]; [done|]. unfold in_list, deleting. rewrite E, Ep, Er. by apply Hs.
Qed.

Lemma settled_reconcile b objects now r d : settled d -> settled (reconcile b objects now r d).1 /\
  lists (reconcile b objects now r d).1 = lists d.
Proof.
  intros Hs. unfold reconcile. destruct (parse_all objects) as [parsed|e]; [|done].
  set (k := known d (b_list b)). clearbody k.
  assert (forall ots d r, settled d -> settled (foldl (reconcile_object b now k) (d, r) ots).1 /\
    lists (foldl (reconcile_object b now k) (d, r) ots).1 = lists d) as Hob.
  { induction ots as [|[o todo] ots IH]; intros d1 r1 Hs1; [done|]. cbn [foldl].
    assert (settled (reconcile_object b now k (d1, r1) (o, todo)).1 /\
      lists (reconcile_object b now k (d1, r1) (o, todo)).1 = lists d1) as [Hs2 <-].
    { unfold reconcile_object. destruct (k !! href o) as [local|]; [repeat case_match|]; split; try done; cbn [fst].
      - apply settled_update; [|done]. intros t. split; [done|]. by left.
      - apply settled_update; [|done]. intros t. split; [done|]. by right.
      - intros t. cbn. rewrite elem_of_app, list_elem_of_singleton. intros [Hin| ->]; [by apply Hs1|done]. }
    destruct (reconcile_object b now k (d1, r1) (o, todo)) as [d2 r2]. by apply IH. }
  destruct (Hob parsed d r Hs) as [Hs1 Hl1].
  destruct (foldl (reconcile_object b now k) (d, r) parsed) as [d1 r1]. cbn [fst] in *. rewrite <- Hl1. clear Hob Hl1 Hs.
  revert d1 r1 Hs1. induction (iter k) as [|[place local] es IH]; intros d1 r1 Hs1; [done|]. cbn [foldl].
  assert (settled (reconcile_known (href <$> objects) (d1, r1) (place, local)).1 /\
    lists (reconcile_known (href <$> objects) (d1, r1) (place, local)).1 = lists d1) as [Hs2 <-].
  { unfold reconcile_known. repeat case_match; split; try done; cbn [fst].
    - intros t [Hin _]%elem_of_delete_where. by apply Hs1.
    - apply settled_update; [|done]. intros t. split; [done|]. by right. }
  destruct (reconcile_known (href <$> objects) (d1, r1) (place, local)) as [d2 r2]. by apply IH.
Qed.

Lemma reconcile_reads b objects parsed now r d : parse_all objects = Ok parsed ->
  exists r', (reconcile b objects now r d).2 = Ok r' /\ stopped_early r' = stopped_early r.
Proof.
  intros Hp. unfold reconcile. rewrite Hp. set (k := known d (b_list b)). clearbody k. clear Hp.
  assert (forall es d r, stopped_early (foldl (reconcile_known (href <$> objects)) (d, r) es).2 = stopped_early r) as Hes.
  { induction es as [|[place local] es IH]; intros d1 r1; [done|]. cbn [foldl].
    assert (stopped_early (reconcile_known (href <$> objects) (d1, r1) (place, local)).2 = stopped_early r1) as <-
      by (unfold reconcile_known; by repeat case_match).
    destruct (reconcile_known (href <$> objects) (d1, r1) (place, local)) as [d2 r2]. apply IH. }
  assert (forall ots d r, stopped_early (foldl (reconcile_object b now k) (d, r) ots).2 = stopped_early r) as Hos.
  { induction ots as [|[o todo] ots IH]; intros d1 r1; [done|]. cbn [foldl].
    assert (stopped_early (reconcile_object b now k (d1, r1) (o, todo)).2 = stopped_early r1) as <-
      by (unfold reconcile_object; by repeat case_match).
    destruct (reconcile_object b now k (d1, r1) (o, todo)) as [d2 r2]. apply IH. }
  specialize (Hos parsed d r). destruct (foldl (reconcile_object b now k) (d, r) parsed) as [d1 r1]. cbn [snd] in Hos.
  specialize (Hes (iter k) d1 r1). destruct (foldl (reconcile_known _) (d1, r1) (iter k)) as [d2 r2]. cbn [snd] in Hes.
  exists r2. split; [done|congruence].
Qed.

(** C38. A sync of a list without unresolved conflicts, whose waiting changes
    can be sent ([can_send]), to a server that takes what is sent and whose
    collection can be read ([willing]), with nothing changed here meanwhile,
    ends well, and then nothing of the list waits to be sent but tasks that
    repeat in a way not changed here. *)
Theorem a_willing_server_gets_everything b now d s : willing -> wf true d ->
  binding d l = Some b -> blocked d l = false -> (forall p, p ∈ queue d l -> can_send b now p) ->
  exists d' s' r, exec handle (sync l now) (d, s) = ((d', s'), Ok r) /\ stopped_early r = false /\ settled d' /\
    forall row, row ∈ lists d' -> is_list l row = true -> synced_at row = Some now /\ last_error row = [].
Proof.
  intros Hs Hw Hb Hno Hc.
  assert (ensures works anywhere (sync l now) (fun x w => exists r, x = Ok r /\ stopped_early r = false /\ settled w.1 /\
    forall row, row ∈ lists w.1 -> is_list l row = true -> synced_at row = Some now /\ last_error row = []) (d, s)) as He.
  { unfold sync. apply ensures_bind, works_db. cbn [fst snd]. rewrite Hb. apply ensures_bind.
    assert (b_list b = l) as Hbl.
    { unfold binding in Hb. destruct (query_row _ (lists d)) as [row|] eqn:E; [|done]. injection Hb as <-.
      apply query_row_Some in E as [_ Hp]. apply andb_true_iff in Hp as [Hp _]. by apply bool_decide_eq_true in Hp. }
    eapply (ensures_mono _ _ _ (fun x w => exists r, x = Ok r /\ stopped_early r = false /\ settled w.1)).
    - intros x [d' s'] (r & -> & Hr & Hs'). apply ensures_bind, works_db. cbn [fst snd].
      exists r. split; [done|]. split; [done|]. split; [exact Hs'|].
      intros row (row0 & Hin & ->)%elem_of_update Hi. by destruct (is_list l row0) eqn:E; [|congruence].
    - apply ensures_and_then. unfold push. apply ensures_bind, works_db. rewrite Hbl. cbn [fst snd]. rewrite Hno.
      eapply ensures_mono; [|apply (push_all_goes_on b now); [done|by apply waits_queue|done|done]].
      intros x [d' s'] (r & -> & Hr & Hw' & _). apply ensures_and_then.
      intros w2 answer Hd. unfold works in Hd. cbn in Hd.
      destruct (w_collection Hs (b_url b) s') as (objects & parsed & Ho & Hp).
      destruct (collection S (b_url b) s') as [s2 y]. cbn in Ho. injection Hd as -> ->. subst y. split; [done|].
      apply works_db. cbn [fst snd]. destruct (reconcile_reads b objects parsed now r d' Hp) as (r' & E & Er).
      exists r'. split; [done|]. split; [congruence|]. by apply settled_reconcile, settled_waits. }
  pose proof (exec_runs handle works (fun X e w => eq_sym (surjective_pairing (handle X e w))) (sync l now) (d, s)) as Hrun.
  destruct (exec handle (sync l now) (d, s)) as [[d' s'] x]. cbn [fst snd] in Hrun.
  destruct (ensures_end _ _ _ _ _ _ _ He Hrun) as (r & -> & Hr & Hset & Hrow). by exists d', s', r.
Qed.
End List.
End Live.

(** ** One task in everyone's way *)

Section Stuck.
Context `{Urls} `{Todo.TodoFormat} `{!HashOrder text Known}.

(** The first task of a list's queue has for object a series this client
    does not change, and the task does not say so. *)
Record stuck (l : text) (d : Db) : Prop := {
  sk_binding : exists b, binding d l = Some b;
  sk_free : blocked d l = false;
  sk_first : exists p rest todo, queue d l = p :: rest /\ p_pending p <> lit "delete" /\ p_recurring p = false /\
    p_href p <> [] /\ p_ics p <> [] /\ Todo.parse (p_ics p) = Ok todo /\ Todo.recurring todo = true
}.

Lemma binding_list d l b : binding d l = Some b -> b_list b = l.
Proof.
  unfold binding. destruct (query_row _ (lists d)) as [row|] eqn:E; [|done]. intros [= <-].
  apply query_row_Some in E as [_ Hp]. apply andb_true_iff in Hp as [Hp _]. by apply bool_decide_eq_true in Hp.
Qed.

Lemma stuck_sync l d : stuck l d -> forall (S : Server) s now, exists d',
  exec (handle S) (sync l now) (d, s) = ((d', s), Err Todo.NOT_CHANGED_HERE) /\ tasks d' = tasks d /\ stuck l d'.
Proof.
  intros [[b Hb] Hf (p & rest & todo & Hq & Hd & Hr & Hh & Hi & Hp & Hrec)] S s now.
  exists (update_lists (is_list l) (failed Todo.NOT_CHANGED_HERE) d). split; [|split; [done|]].
  - unfold sync. cbn. rewrite Hb. cbn. rewrite (binding_list d l b Hb), Hf, Hq. cbn [push_all].
    unfold push_one. rewrite bool_decide_eq_false_2, Hr by done. unfold push_put, prepare.
    destruct (p_href p) as [|c h]; [done|]. destruct (p_ics p) as [|c' o] eqn:Ei; [done|]. cbn [is_nil orb].
    rewrite (Todo.patch_refuses _ _ (p_fields p) now Hp Hrec). done.
  - split; [|done|by exists p, rest, todo]. exists b. unfold binding in *.
    change (lists (update_lists (is_list l) (failed Todo.NOT_CHANGED_HERE) d)) with
      (Table.update (is_list l) (failed Todo.NOT_CHANGED_HERE) (lists d)).
    rewrite query_row_update by done. destruct (query_row _ (lists d)) as [row|]; [|done]. cbn in *.
    by destruct (is_list l row).
Qed.

Lemma queue_first d l t : wf true d -> t ∈ tasks d -> in_list l t = true -> pending t <> [] ->
  (forall u, u ∈ tasks d -> in_list l u = true -> pending u <> [] -> id t <= id u) ->
  exists rest, queue d l = as_pending t :: rest.
Proof.
  intros Hw Hin Hl Hp Hleast. unfold queue.
  set (sel := select (fun u => in_list l u && negb (is_nil (pending u))) (tasks d)).
  assert (t ∈ order_by (fun a b => id a <=? id b) sel) as Hs.
  { rewrite order_by_perm. apply elem_of_select. split; [done|]. rewrite Hl. by destruct (pending t). }
  assert (StronglySorted (fun a b => (id a <=? id b) = true) (order_by (fun a b => id a <=? id b) sel)) as Hsort
    by (apply order_by_sorted; [intros a b|intros a b c]; rewrite !Z.leb_le; lia).
  assert (forall u, u ∈ order_by (fun a b => id a <=? id b) sel -> u ∈ tasks d /\ id t <= id u) as Hall.
  { intros u. rewrite order_by_perm. intros [Hu Hq]%elem_of_select. apply andb_true_iff in Hq as [Hq Hn].
    split; [done|]. apply Hleast; [done|done|]. by destruct (pending u). }
  destruct (order_by _ sel) as [|h rest]; [by apply not_elem_of_nil in Hs|]. exists (as_pending <$> rest).
  destruct (Hall h ltac:(by left)) as [Hh Hle]. assert (h = t) as ->; [|done].
  apply StronglySorted_inv in Hsort as [_ Hmin]. apply elem_of_cons in Hs as [->|Hs]; [done|].
  rewrite Forall_forall in Hmin. specialize (Hmin t Hs). apply Z.leb_le in Hmin.
  apply (key_unique id (id t) (tasks d)); [apply Hw|done|done| |]; apply bool_decide_eq_true; lia || done.
Qed.

(** Settling a conflict for the copy here, when the server's became a
    series this client does not change, leaves a list no sync gets through:
    each stops at that task with the same error, before anything is sent or
    read, with no conflict left to settle and no task changed. *)
Theorem mine_over_a_series_stops_the_list (S : Server) l now d s s1 t b reply object version todo :
  wf true d -> t ∈ tasks d -> in_list l t = true -> binding d l = Some b -> conflict t <> [] ->
  (forall u, u ∈ tasks d -> in_list l u = true -> conflict u <> [] -> u = t) ->
  (forall u, u ∈ tasks d -> in_list l u = true -> pending u <> [] -> id t <= id u) ->
  recurring t = false -> deleting t = false -> remote_href t <> [] -> Dav.same_origin (b_url b) (remote_href t) = true ->
  answer S (Dav.get_request (remote_href t)) s = (s1, Ok reply) -> Dav.get_reply reply = Ok (Some (object, version)) ->
  object <> [] -> Todo.parse object = Ok todo -> Todo.recurring todo = true ->
  exists d', exec (handle S) (resolve_conflict (id t) Mine now) (d, s) = ((d', s1), Ok l) /\
    blocked d' l = false /\ stuck l d' /\
    forall d1, stuck l d1 -> forall (S' : Server) s' now', exists d2,
      exec (handle S') (sync l now') (d1, s') = ((d2, s'), Err Todo.NOT_CHANGED_HERE) /\
      tasks d2 = tasks d1 /\ stuck l d2.
Proof.
  intros Hw Hin Hl Hb Hc Honly Hleast Hrec Hdel Hh Ho Ha Hg Hne Hp Hr.
  set (d' := update_tasks (with_id (id t)) (mine_over object version) d). exists d'.
  assert (list_id t = l) as El by by apply bool_decide_eq_true in Hl.
  assert (query_row (with_id (id t)) (tasks d) = Some t) as Hrow.
  { apply query_row_unique; [done|by apply Z.eqb_eq|]. intros u Hu Hid%Z.eqb_eq.
    apply (key_unique id (id t) (tasks d)); [apply Hw|done|done| |]; by apply bool_decide_eq_true. }
  assert (TaskSyncLaws.row_at d (remote_href t) (id t)) as Hat.
  { eapply (TaskSyncLaws.found_row_at d d); [done|done|exact (PreOrder_Reflexive d)|]. by rewrite El. }
  assert (blocked d' l = false) as Hfree.
  { apply not_true_is_false. intros (u' & Hu' & Hcu)%existsb_elem. apply elem_of_update in Hu' as (u & Hu & ->).
    destruct (with_id (id t) u) eqn:E; apply andb_true_iff in Hcu as [Hlu Hcu]; [done|].
    rewrite (Honly u Hu Hlu) in E; [|by destruct (conflict u)]. by apply Z.eqb_neq in E. }
  split; [|split; [done|]].
  - unfold resolve_conflict. cbn. rewrite Hrow. destruct (is_nil (conflict t)) eqn:E; [by destruct (conflict t)|].
    cbn. rewrite El, Hb. destruct (is_nil (remote_href t)) eqn:E'; [by destruct (remote_href t)|].
    unfold Dav.get_object. rewrite guard_ok by done. cbn. rewrite Ha. cbn. rewrite Hg. done.
  - split; [|intros; by apply stuck_sync]. split; [by exists b|done|].
    set (t' := mine_over object version t).
    assert (pending t' <> []) as Hpt.
    { change ((if is_nil (pending t) then lit "put" else pending t) <> []). by destruct (pending t). }
    destruct (queue_first d' l t') as (rest & Hq).
    + apply wf_update; [done| |by apply (with_id_one true)]. intros u Hu Hid%Z.eqb_eq.
      assert (u = t) as -> by (apply (key_unique id (id t) (tasks d)); [apply Hw|done|done| |]; by apply bool_decide_eq_true).
      destruct Hat as [_ Hat]. destruct (Hat t Hin eq_refl) as (_ & Hlk & Hk).
      apply keeps_unlinked; [done..| |done]. apply (wf_tasks _ _ Hw t Hin).
    + apply elem_of_update. exists t. split; [done|]. unfold with_id. by rewrite Z.eqb_refl.
    + exact Hl.
    + exact Hpt.
    + intros u' (u & Hu & ->)%elem_of_update. destruct (with_id (id t) u) eqn:E; [|apply Hleast; done].
      intros _ _. apply Z.eqb_eq in E. change (id t <= id u). lia.
    + exists (as_pending t'), rest, todo. split; [done|]. cbn. split_and!; try done.
      change ((if is_nil (pending t) then lit "put" else pending t) <> lit "delete").
      unfold deleting in Hdel. apply bool_decide_eq_false in Hdel. by destruct (pending t).
Qed.
End Stuck.
End TaskSyncLive.

(** * The synchronization of task lists, run

    Small instances of what the sync is given: addresses, an object format
    (the title, after [!] when the task repeats in a way not changed here)
    and servers; the theorems on them; and what goes wrong in two corners. *)

Import TriangleBracketNotations.
#[local] Open Scope record_set.
#[local] Open Scope Z_scope.

Module TaskSyncDemo.
Import Tasks TaskLaws TaskSync TaskSyncLaws TaskReconcile TaskSyncLive.
#[local] Existing Instance Recurrence.Demo.utc.
#[local] Existing Instance RRule.Demo.digits.

(** ** Addresses and objects *)

#[local] Instance addresses : Urls := {|
  url := text;
  parse_url := fun t => if starts_with (lit "https://") t || starts_with (lit "http://") t then Some t else None;
  url_text := fun u => u;
  scheme := fun u => if starts_with (lit "https://") u then lit "https" else lit "http";
  origin := take 13;
  one_origin := fun a b => bool_decide (take 13 a = take 13 b);
  join_url := fun base r => Some (base ++ r);
  set_path := fun u p => take 13 u ++ p;
  path := drop 13;
  clear_fragment := fun u => u
|}.

Definition titled (t : text) : Todo.Fields :=
  {| Todo.title := t; Todo.note := []; Todo.due_at := None; Todo.priority := 1; Todo.completed_at := None;
     Todo.reminder_at := None; Todo.rrule := [] |}.

Definition read (object : text) : result text Todo.Todo :=
  match object with
  | [] => Err (lit "this object holds no task")
  | 33 :: t => Ok {| Todo.uid := []; Todo.fields := titled t; Todo.created_at := None; Todo.recurring := true |}
  | t => Ok {| Todo.uid := []; Todo.fields := titled t; Todo.created_at := None; Todo.recurring := false |}
  end.

Definition repeats (object : text) : bool :=
  match read object with Ok todo => Todo.recurring todo | Err _ => false end.

Lemma read_no_rule object todo : read object = Ok todo -> Todo.rrule (Todo.fields todo) = [].
Proof. unfold read. intros Hr. repeat case_match; try done; by injection Hr as <-. Qed.

Definition retitle (object : text) (f : Todo.Fields) (now : Z) : result text text :=
  if repeats object then Err Todo.NOT_CHANGED_HERE else Ok (Todo.title f).

Lemma retitle_refuses object todo f now :
  read object = Ok todo -> Todo.recurring todo = true -> retitle object f now = Err Todo.NOT_CHANGED_HERE.
Proof. intros Hp Hr. unfold retitle, repeats. by rewrite Hp, Hr. Qed.

Lemma read_rule_due object todo :
  read object = Ok todo -> Todo.rrule (Todo.fields todo) <> [] -> is_Some (Todo.due_at (Todo.fields todo)).
Proof. intros Hp Hr. by rewrite (read_no_rule _ _ Hp) in Hr. Qed.

#[local] Instance titles : Todo.TodoFormat := {|
  Todo.parse := read;
  Todo.patch := retitle;
  Todo.new_object := fun f _ _ => Todo.title f;
  Todo.patch_refuses := retitle_refuses;
  Todo.rule_has_due := read_rule_due
|}.

(** ** A list on a server, with a task waiting *)

Definition bound : Db :=
  unwrap_or fresh (fst <$> ok (add_list fresh (fun _ => lit "Tasks") (lit "w") (lit "Work")
    (lit "https://s.org/tasks/") (lit "https://s.org") (lit "me") 5)).

Definition work : text := lit "list:w".

Definition named (t : text) : TaskFields :=
  {| f_list_id := work; f_title := t; f_note := []; f_due_at := None; f_reminder_at := None; f_priority := 1;
     recurrence := None |}.

Definition waiting : Db := unwrap_or fresh (fst <$> ok (create bound (named (lit "Bread")) 10)).

Lemma bound_wf : wf true bound.
Proof.
  split; try (intros t Ht; cbn in Ht; by apply not_elem_of_nil in Ht).
  - constructor.
  - vm_compute. apply NoDup_cons. split; [|apply NoDup_singleton]. by rewrite list_elem_of_singleton.
  - done.
  - done.
  - intros a b Ha. cbn in Ha. by apply not_elem_of_nil in Ha.
Qed.

Lemma waiting_wf : wf true waiting.
Proof. apply (wf_create true bound (named (lit "Bread")) 10 waiting 1); [apply bound_wf|vm_compute; reflexivity]. Qed.

Lemma only_row (d : Db) (t : Task) (P : Task -> Prop) : tasks d = [t] -> P t -> forall u, u ∈ tasks d -> P u.
Proof. intros -> Hp u ->%list_elem_of_singleton. exact Hp. Qed.

Definition reply (code : Z) (object : text) : Dav.HttpReply :=
  {| Dav.status := code; Dav.reply_body := object; Dav.at_url := []; Dav.etag := Some (lit "v1") |}.

(** A server that holds one object at a place. *)
Definition place : text := lit "https://s.org/tasks/u_oreneta.ics".
Definition holding (object : text) : list Object := [{| href := place; o_etag := lit "v1"; ics := object |}].

(** ** A sync that claims nothing false *)

Definition start : World := {| db := waiting; exchanged := [] |}.

Definition acts X (e : Ev X) : World -> World * X :=
  match e in Ev X return World -> World * X with
  | Send r => fun w => let answer := Ok (reply 201 []) in
      ({| db := db w; exchanged := seen_there r answer ++ exchanged w |}, answer)
  | FetchTodos c => fun w => let answer := Ok (holding (lit "Bread")) in
      ({| db := db w; exchanged := listed_there answer ++ exchanged w |}, answer)
  | NewUuid => fun w => (w, lit "u")
  | WithDb f => fun w => ({| db := (f (db w)).1; exchanged := exchanged w |}, (f (db w)).2)
  end.

Lemma acts_does X (e : Ev X) w : does X e w (acts X e w).1 (acts X e w).2.
Proof. destruct e; cbn; try (exists (db w); split; [apply rtc_refl|done]). done. Qed.

Lemma start_agreed : agreed start.
Proof.
  split; [exact waiting_wf|]. cbn [db start].
  set (t := unwrap_or (new_task 0) (head (tasks waiting))).
  apply (only_row waiting t (fun t => on_dav waiting (list_id t) -> pending t = [] -> server_has [] t)); [vm_compute; reflexivity|]. intros _ Hp. vm_compute in Hp. discriminate Hp.
Qed.

Definition after : World := (exec acts (sync work 20) start).1.

Lemma sync_claims_nothing_false_witness :
  agreed start /\ agreed after /\ pending <$> tasks (db after) = [[]] /\ remote_href <$> tasks (db after) = [place].
Proof.
  split; [exact start_agreed|]. split; [|split; vm_compute; reflexivity].
  apply (proj1 (sync_claims_nothing_false start after start_agreed) work 20 (Some (exec acts (sync work 20) start).2)).
  apply exec_runs, acts_does.
Defined.

(** ** Reconciling *)

Definition shown : Task := unwrap_or (new_task 0) (head (tasks (db after))).

Definition two_objects : list Object :=
  [{| href := lit "https://s.org/tasks/b.ics"; o_etag := lit "v7"; ics := lit "Milk" |};
   {| href := place; o_etag := lit "v2"; ics := lit "Rye bread" |}].

Lemma reconcile_is_row_by_row_witness :
  exists d' r', reconcile {| b_list := work; b_url := lit "https://s.org/tasks/"; b_user := lit "me" |} two_objects 30
      no_report (db after) = (d', Ok r') /\ title <$> tasks d' = [lit "Rye bread"; lit "Milk"].
Proof.
  assert (tasks (db after) = [shown]) as Hone by (vm_compute; reflexivity).
  destruct (reconcile_is_row_by_row {| b_list := work; b_url := lit "https://s.org/tasks/"; b_user := lit "me" |}
              two_objects 30 no_report (db after)) as (r' & E).
  - apply sync_claims_nothing_false_witness.
  - rewrite Hone. intros t u ->%list_elem_of_singleton ->%list_elem_of_singleton. done.
  - vm_compute. apply NoDup_cons. split; [|apply NoDup_singleton]. by rewrite list_elem_of_singleton.
  - eexists _, r'. split; [exact E|]. vm_compute. reflexivity.
Defined.

(** ** A sync that ends *)

Definition generous : Server :=
  {| state := unit; answer := fun _ s => (s, Ok (reply 201 [])); collection := fun _ s => (s, Ok (holding (lit "Bread")));
     uuid := fun s => (s, lit "u") |}.

Definition work_binding : Binding := {| b_list := work; b_url := lit "https://s.org/tasks/"; b_user := lit "me" |}.

Lemma a_willing_server_gets_everything_witness :
  (exists p, p ∈ queue waiting work) /\
  exists d' r, exec (handle generous) (sync work 20) (waiting, tt) = ((d', tt), Ok r) /\ settled work d'.
Proof.
  assert (queue waiting work = [as_pending (unwrap_or (new_task 0) (head (tasks waiting)))]) as Hq by (vm_compute; reflexivity).
  split; [exists (as_pending (unwrap_or (new_task 0) (head (tasks waiting)))); rewrite Hq; by left|].
  destruct (a_willing_server_gets_everything generous work work_binding 20 waiting tt) as (d' & [] & r & E & _ & Hs & _).
  - split.
    + intros r s _. exists (reply 201 []), (Some (lit "v1")). done.
    + intros r s _. by exists (reply 201 []).
    + intros c s. eexists _, _. split; [reflexivity|]. vm_compute. reflexivity.
  - exact waiting_wf.
  - vm_compute. reflexivity.
  - vm_compute. reflexivity.
  - intros p Hp. rewrite Hq in Hp. apply list_elem_of_singleton in Hp as ->.
    change (forall u, exists place0, Dav.new_href (lit "https://s.org/tasks/") (u ++ lit "@oreneta") = Ok place0 /\
      Dav.same_origin (lit "https://s.org/tasks/") place0 = true).
    intros u. eexists. split; reflexivity.
  - exists d', r. split; [exact E|exact Hs].
Defined.

(** ** A task in everyone's way *)

(** The task edited here, and found changed on the server. *)
Definition edited_db : Db := unwrap_or fresh (fst <$> ok (update (db after) 1 (revision shown) (named (lit "Rye")))).
Definition disputed : Db := mark_conflict 1 (lit "changed") edited_db.
Definition disputed_task : Task := unwrap_or (new_task 0) (head (tasks disputed)).

Definition series : Server :=
  {| state := unit; answer := fun _ s => (s, Ok (reply 200 (lit "!Rye")));
     collection := fun _ s => (s, Ok (holding (lit "!Rye"))); uuid := fun s => (s, lit "u") |}.

Lemma mine_over_a_series_stops_the_list_witness :
  exists d', exec (handle series) (resolve_conflict 1 Mine 30) (disputed, tt) = ((d', tt), Ok work) /\
    exists d2, exec (handle series) (sync work 40) (d', tt) = ((d2, tt), Err Todo.NOT_CHANGED_HERE).
Proof.
  assert (tasks disputed = [disputed_task]) as Hone by (vm_compute; reflexivity).
  assert (wf true disputed) as Hw.
  { apply wf_mark_conflict. eapply (wf_edit true (db after) 1 (revision shown) (named (lit "Rye"))).
    - apply sync_claims_nothing_false_witness.
    - vm_compute. reflexivity. }
  destruct (mine_over_a_series_stops_the_list series work 30 disputed tt tt disputed_task work_binding
    (reply 200 (lit "!Rye")) (lit "!Rye") (lit "v1")
    {| Todo.uid := []; Todo.fields := titled (lit "Rye"); Todo.created_at := None; Todo.recurring := true |})
    as (d' & E & _ & Hst & Hall).
  - exact Hw.
  - rewrite Hone. by left.
  - vm_compute. reflexivity.
  - vm_compute. reflexivity.
  - vm_compute. discriminate.
  - rewrite Hone. by intros u ->%list_elem_of_singleton.
  - rewrite Hone. by intros u ->%list_elem_of_singleton.
  - vm_compute. reflexivity.
  - vm_compute. reflexivity.
  - vm_compute. discriminate.
  - vm_compute. reflexivity.
  - reflexivity.
  - vm_compute. reflexivity.
  - discriminate.
  - reflexivity.
  - reflexivity.
  - exists d'. split; [exact E|]. destruct (Hall d' Hst series tt 40) as (d2 & E2 & _). by exists d2.
Defined.

(** ** Two corners *)

(** The answer to a new task's request is lost: the server has the object,
    and this side does not know its version. *)
Definition losing : Server :=
  {| state := unit; answer := fun _ s => (s, Err (lit "timed out")); collection := fun _ s => (s, Ok (holding (lit "Bread")));
     uuid := fun s => (s, lit "u") |}.

(** Deleted here before the next sync, it goes here alone, and the next
    sync brings it back. *)
Example a_deleted_task_comes_back :
  let lost := (exec (handle losing) (sync work 20) (waiting, tt)).1.1 in
  let deleted := delete_task lost 1 in
  let next := (exec (handle generous) (sync work 30) (deleted, tt)).1.1 in
  (pending <$> tasks lost, tasks deleted, title <$> tasks next) = ([lit "put"], [], [lit "Bread"]).
Proof. vm_compute. reflexivity. Qed.

(** The person deletes the list while its collection is being read: what
    is read then lands in a list that is no longer there. *)
Definition deletes_meanwhile X (e : Ev X) : World -> World * X :=
  match e in Ev X return World -> World * X with
  | FetchTodos c => fun w => let answer := Ok (holding (lit "Bread")) in
      ({| db := delete_list_rows (db w) work; exchanged := listed_there answer ++ exchanged w |}, answer)
  | e' => acts _ e'
  end.

Example a_task_in_a_list_gone :
  let w := (exec deletes_meanwhile (sync work 20) start).1 in
  (title <$> tasks (db w), list_exists (db w) <$> (list_id <$> tasks (db w)), l_id <$> lists (db w))
  = ([lit "Bread"], [false], [MAIL_LIST]).
Proof. vm_compute. reflexivity. Qed.
End TaskSyncDemo.
