(* ===== verification/AccountLists.v ===== *)
(** * Task lists that come with an account

    Models [meron-core/src/task_sync/account_lists.rs]: the table
    [account_task_lists], in which each collection an account offers is an
    entry waiting for its first read, linked to a list, declined, or the
    mark of a server already listed; and the first read itself, a program
    that goes to the network and only then writes. *)
From S2P Require Import Prelude Text Program Calendar Recurrence RRule Todo Dav Tasks TaskSync.
From coqutil Require Import Datatypes.RecordSetters.
From S2P Require Import Table.
Import TriangleBracketNotations.
#[local] Open Scope record_set.
#[local] Open Scope Z_scope.

Module AccountLists.

(** ** The tables *)

Inductive State := Pending | Linked | Declined | Scanned.

#[export] Instance State_eq_dec : EqDecision State.
Proof. solve_decision. Defined.

Record EntryRow := {
  account : text;
  source : text;
  state : State;
  list_id : text;
  adopted : bool;
  notified : bool;
  last_error : text;
  updated_at : Z
}.

(** A row of [calendars], as far as it is used here. *)
Record CalendarRow := { c_account : text; provider_id : text; c_url : option text; dav_username : text; c_kind : text }.

Record AccountRow := { a_id : text; a_config : option text }.

(** The tables this part reads and writes. *)
Record Profile := { tdb : Tasks.Db; entries_ : list EntryRow; accounts : list AccountRow; calendars : list CalendarRow }.

Definition new_entry (acct src : text) (st : State) (seen : bool) (now : Z) : EntryRow :=
  {| account := acct; source := src; state := st; list_id := []; adopted := false; notified := seen;
     last_error := []; updated_at := now |}.

Definition is_entry (acct src : text) (e : EntryRow) : bool :=
  bool_decide (account e = acct) && bool_decide (source e = src).

Definition in_state (st : State) (e : EntryRow) : bool := bool_decide (state e = st).

Definition update_entries (p : EntryRow -> bool) (f : EntryRow -> EntryRow) (db : Profile) : Profile :=
  db <| entries_ := update p f (entries_ db) |>.

(** [INSERT … ON CONFLICT(account, source) DO UPDATE SET f WHERE p] *)
Definition put_entry (e : EntryRow) (p : EntryRow -> bool) (f : EntryRow -> EntryRow) (db : Profile) : Profile :=
  db <| entries_ := upsert (is_entry (account e) (source e)) e (fun x => if p x then f x else x) (entries_ db) |>.

(** [INSERT OR IGNORE] *)
Definition keep_entry (e : EntryRow) : Profile -> Profile := put_entry e (fun _ => true) (fun x => x).

(** ** Sources *)

Definition EWS : text := lit "ews".
Definition COLLECTION : text := lit "caldav:".
Definition SERVER : text := lit "caldav-server:".

Inductive Source :=
| Ews
| Collection_ (url : text)
| Server (origin user : text).

Definition parse_source (s : text) : option Source :=
  if bool_decide (s = EWS) then Some Ews
  else match strip_prefix SERVER s with
       | Some rest => '(o, u) ← split_once 124 rest; Some (Server o u)
       | None => match strip_prefix COLLECTION s with
                 | Some [] | None => None
                 | Some address => Some (Collection_ address)
                 end
       end.

Definition server_source (origin user : text) : text := SERVER ++ origin ++ [124] ++ user.

Definition is_collection (s : text) : bool :=
  match parse_source s with Some (Collection_ _) => true | _ => false end.

(** The value of a hexadecimal digit. *)
Definition hex (c : Z) : option Z :=
  if is_ascii_digit c then Some (c - 48)
  else if (65 <=? c) && (c <=? 70) then Some (c - 55)
  else if (97 <=? c) && (c <=? 102) then Some (c - 87)
  else None.

Definition upper_hex_digit (d : Z) : Z := if d <? 10 then 48 + d else 55 + d.

Definition unreserved (v : Z) : bool := is_ascii_alphanumeric v || bool_decide (v ∈ lit "-._~").

(** One escape in its normal form. *)
Definition normal_escape (v : Z) : text :=
  if unreserved v then [v] else [37; upper_hex_digit (v / 16); upper_hex_digit (v mod 16)].

(** Over the bytes of the path, all of them ASCII once read. *)
Fixpoint normalize_percent (s : text) : text :=
  match s with
  | [] => []
  | c :: rest =>
      match c =? 37, rest with
      | true, h :: l :: rest' =>
          match hex h, hex l with
          | Some high, Some low => normal_escape (high * 16 + low) ++ normalize_percent rest'
          | _, _ => c :: normalize_percent rest
          end
      | _, _ => c :: normalize_percent rest
      end
  end.

Section Operations.
Context `{Urls} (sha256 : text -> list Z).

Definition normalize_url (raw : text) : result text text :=
  match parse_url (trim raw) with
  | None => Err (lit "that collection address is not a URL")
  | Some u =>
      if negb (bool_decide (scheme u = lit "http") || bool_decide (scheme u = lit "https"))
      then Err (lit "that collection address is not a web address")
      else
        let normal := normalize_percent (path u) in
        let normal := if ends_with [47] normal then normal else normal ++ [47] in
        Ok (url_text (clear_fragment (set_path u normal)))
  end.

Definition collection_source (address : text) : result text text :=
  normal ← normalize_url address; Ok (COLLECTION ++ normal).

Definition pending_secret_key (acct src : text) : text :=
  lit "caldav-tasks-pending:" ++ acct ++ [58] ++ mbind hex_byte (take 16 (sha256 src)).

(** ** Entries *)

(** An entry as the interface is told of it. *)
Record Entry := { row : EntryRow; kind : text; address : text; username : text }.

Definition entry_from (e : EntryRow) : Entry :=
  let '(k, a, u) := match parse_source (source e) with
                    | Some Ews => (lit "ews", [], [])
                    | Some (Collection_ address) => (lit "caldav", address, [])
                    | Some (Server origin user) => (lit "caldav-server", origin, user)
                    | None => (lit "unknown", [], [])
                    end in
  {| row := e; kind := k; address := a; username := u |}.

Definition entry_before (a b : EntryRow) : bool :=
  if bool_decide (account a = account b) then text_le (source a) (source b) else text_le (account a) (account b).

Definition select_entries (p : EntryRow -> bool) (db : Profile) : list Entry :=
  entry_from <$> order_by entry_before (select p (entries_ db)).

Definition entries (db : Profile) : list Entry := select_entries (fun e => negb (in_state Scanned e)) db.
Definition pending (db : Profile) : list Entry := select_entries (in_state Pending) db.
Definition entry (db : Profile) (acct src : text) : option Entry := head (select_entries (is_entry acct src) db).

Definition state_of (db : Profile) (acct src : text) : option State :=
  state <$> query_row (is_entry acct src) (entries_ db).

Definition account_exists (db : Profile) (acct : text) : bool :=
  existsb (fun a => bool_decide (a_id a = acct)) (accounts db).

Definition add_exchange (db : Profile) (acct : text) (now : Z) : Profile :=
  keep_entry (new_entry acct EWS Pending true now) db.

Definition with_error (why : text) (e : EntryRow) : EntryRow := e <| last_error := why |>.

Definition record_failure (db : Profile) (acct src why : text) : Profile :=
  update_entries (fun e => is_entry acct src e && in_state Pending e) (with_error why) db.

Definition NOT_THE_ACCOUNTS : text := lit "that list is no longer one of the account's".

Definition told (e : EntryRow) : EntryRow := e <| notified := true |>.

Definition acknowledge (db : Profile) (acct src : text) : result text Profile :=
  if Nat.eqb (changed (is_entry acct src) (entries_ db)) 0 then Err NOT_THE_ACCOUNTS
  else Ok (update_entries (is_entry acct src) told db).

Definition declined (now : Z) (e : EntryRow) : EntryRow :=
  e <| state := Declined |> <| list_id := [] |> <| last_error := [] |> <| notified := true |> <| updated_at := now |>.

Definition set_declined (db : Profile) (acct src : text) (now : Z) : Profile :=
  update_entries (is_entry acct src) (declined now) db.

Definition drop_list (i : text) (db : Profile) : Profile := db <| tdb ::= fun d => Tasks.delete_list_rows d i |>.

(** The password of a list kept on a CalDAV server. *)
Definition list_secret (db : Profile) (i : text) : list text :=
  match TaskSync.binding (tdb db) i with Some _ => [TaskSync.secret_key i] | None => [] end.

(** Answers the keychain entries to delete. *)
Definition decline (db : Profile) (acct src : text) (now : Z) : result text (Profile * list text) :=
  match entry db acct src with
  | None => Err NOT_THE_ACCOUNTS
  | Some e =>
      match state (row e) with
      | Declined => Ok (db, [])
      | Scanned => Err (lit "that server was listed already; there is nothing to decline")
      | st =>
          let i := list_id (row e) in
          let own := bool_decide (st = Linked) && negb (is_nil i) in
          let secrets := if own then list_secret db i else [] in
          let db' := if own then drop_list i db else db in
          let waiting := if is_collection src then [pending_secret_key acct src] else [] in
          Ok (set_declined db' acct src now, secrets ++ waiting)
      end
  end.

Definition delete_list (db : Profile) (i : text) (now : Z) : result text Profile :=
  if bool_decide (i = Tasks.MAIL_LIST) then Err (lit "the mail follow-up list cannot be deleted")
  else Ok (drop_list i (update_entries (fun e => bool_decide (list_id e = i) && in_state Linked e) (declined now) db)).

Definition forget_entry (acct : text) (st : Profile * list text) (e : Entry) : Profile * list text :=
  let (db, secrets) := st in
  if negb (bool_decide (kind e = lit "caldav")) then (db, secrets)
  else
    let secrets := secrets ++ [pending_secret_key acct (source (row e))] in
    let i := list_id (row e) in
    if in_state Linked (row e) && negb (adopted (row e)) && negb (is_nil i)
    then (drop_list i db, secrets ++ list_secret db i)
    else (db, secrets).

Definition forget_account (db : Profile) (acct : text) : Profile * list text :=
  let (db', secrets) := foldl (forget_entry acct) (db, [])
    (select_entries (fun e => bool_decide (account e = acct)) db) in
  (db' <| entries_ := delete_where (fun e => bool_decide (account e = acct)) (entries_ db') |>, secrets).

Definition pending_secret_keys (db : Profile) : list text :=
  (fun e => pending_secret_key (account (row e)) (source (row e)))
    <$> select_entries (fun e => starts_with COLLECTION (to_ascii_lowercase (source e))) db.

(** ** Reading a list for the first time *)

Inductive Outcome := Made (list : text) | Discarded.
Inductive Mode := Retry | ByHand.

#[export] Instance Mode_eq_dec : EqDecision Mode.
Proof. solve_decision. Defined.

Definition may_write (db : Profile) (acct src : text) (mode : Mode) : bool :=
  account_exists db acct &&
  match mode with
  | Retry => bool_decide (state_of db acct src = Some Pending)
  | ByHand => negb (bool_decide (state_of db acct src = Some Linked))
              && negb (bool_decide (state_of db acct src = Some Scanned))
  end.

Definition linked_to (i : text) (was : bool) (now : Z) (e : EntryRow) : EntryRow :=
  e <| state := Linked |> <| list_id := i |> <| adopted := was |> <| last_error := [] |> <| updated_at := now |>.

(** A new entry is born confirmed; one there keeps whether its notice was. *)
Definition mark_linked (acct src i : text) (was : bool) (now : Z) : Profile -> Profile :=
  put_entry (linked_to i was now (new_entry acct src Linked true now)) (fun _ => true) (linked_to i was now).

(** A list kept at an address already, compared by normal form. *)
Definition list_for_url (db : Profile) (address : text) : result text (option text) :=
  wanted ← normalize_url address;
  Ok (Tasks.l_id <$> query_row (fun l => bool_decide (normalize_url (Tasks.remote_url l) = Ok wanted))
        (order_by (fun a b => Tasks.l_position a <=? Tasks.l_position b)
           (select (fun l => negb (is_nil (Tasks.remote_url l))) (Tasks.lists (tdb db))))).

Record Collection := { t_account : text; t_url : text; t_username : text; t_list_id : text }.

Inductive Ev : Type -> Type :=
| FetchTodos (collection : text) : Ev (result text (list TaskSync.Object))
| CollectionName (collection : text) : Ev text
| KeepPassword : Ev (result text unit)
| WithDb {X} (f : Profile -> Profile * X) : Ev X.

Definition message (e : Tasks.error) : text :=
  match e with Tasks.Bail m => m | Tasks.Panicked => lit "panicked" end.

Definition ALREADY_HERE : text := lit "that collection is already a task list here".

(** Before the network: whether to read at all, or the list already here. *)
Definition before_read (target : Collection) (src : text) (mode : Mode) (now : Z) (db : Profile) :
    Profile * option (result text Outcome) :=
  if negb (may_write db (t_account target) src mode) then (db, Some (Ok Discarded))
  else match list_for_url db (t_url target) with
       | Err e => (db, Some (Err e))
       | Ok None => (db, None)
       | Ok (Some i) =>
           match mode with
           | ByHand => (db, Some (Err ALREADY_HERE))
           | Retry => (mark_linked (t_account target) src i true now db, Some (Ok (Made i)))
           end
       end.

Definition first_synced (target : Collection) (now : Z) (l : Tasks.ListRow) : Tasks.ListRow :=
  l <| Tasks.remote_url := t_url target |> <| Tasks.remote_user := t_username target |>
    <| Tasks.synced_at := Some now |> <| Tasks.last_error := [] |>.

(** After the network, in one transaction: the list, its tasks and the
    entry, or nothing. *)
Definition write_list `{Todo.TodoFormat, !HashOrder text TaskSync.Known} (target : Collection) (src name : text)
    (objects : list TaskSync.Object) (mode : Mode) (now : Z) (db : Profile) : Profile * result text Outcome :=
  if negb (may_write db (t_account target) src mode) then (db, Ok Discarded)
  else
    let i := t_list_id target in
    match Tasks.create_list_with_id (tdb db) i name now with
    | Err e => (db, Err (message e))
    | Ok (d, _) =>
        let d := TaskSync.update_lists (Tasks.is_list i) (first_synced target now) d in
        let b := {| TaskSync.b_list := i; TaskSync.b_url := t_url target; TaskSync.b_user := t_username target |} in
        match TaskSync.reconcile b objects now TaskSync.no_report d with
        | (_, Err e) => (db, Err e)
        | (d', Ok _) => (mark_linked (t_account target) src i false now (db <| tdb := d' |>), Ok (Made i))
        end
    end.

Definition noting_failure {A} (target : Collection) (src : text) (mode : Mode) (st : Profile * result text A) :
    Profile * result text A :=
  match st with
  | (db, Err e) => (if bool_decide (mode = Retry) then record_failure db (t_account target) src e else db, Err e)
  | _ => st
  end.

#[local] Open Scope prog_scope.

Definition fail_read (target : Collection) (src : text) (mode : Mode) (e : text) : prog Ev (result text Outcome) :=
  call (WithDb (fun db => noting_failure target src mode (db, Err e))).

Definition link_collection `{Todo.TodoFormat, !HashOrder text TaskSync.Known} (target : Collection) (mode : Mode) (now : Z) :
    prog Ev (result text Outcome) :=
  match collection_source (t_url target) with
  | Err e => Ret (Err e)
  | Ok src =>
      early <- call (WithDb (before_read target src mode now)) ;;
      match early with
      | Some r => Ret r
      | None =>
          read <- call (FetchTodos (t_url target)) ;;
          match read with
          | Err e => fail_read target src mode e
          | Ok objects =>
              name <- call (CollectionName (t_url target)) ;;
              kept <- call KeepPassword ;;
              match kept with
              | Err e => fail_read target src mode (lit "the list's password could not be kept: " ++ e)
              | Ok _ => call (WithDb (fun db => noting_failure target src mode (write_list target src name objects mode now db)))
              end
          end
      end
  end.

(** ** Signing in *)

Definition same_origin_as (o : text) (address : text) : bool :=
  match Dav.origin_of address with Ok found => bool_decide (found = o) | Err _ => false end.

Definition calendars_of (db : Profile) (acct : text) : list (text * text * text) :=
  (fun c => (provider_id c, unwrap_or [] (c_url c), dav_username c))
    <$> order_by (fun a b => text_le (provider_id a) (provider_id b))
          (select (fun c => bool_decide (c_account c = acct) && bool_decide (c_kind c = lit "caldav")) (calendars db)).

(** The users found, each once. *)
Definition users_for (db : Profile) (acct o : text) : list text :=
  let marked := username <$> select (fun e => bool_decide (address e = o))
    (select_entries (fun e => bool_decide (account e = acct) && starts_with SERVER (to_ascii_lowercase (source e))) db) in
  let users := if is_nil marked then
                 (fun c => c.2) <$> select (fun c => same_origin_as o c.1.2) (calendars_of db acct)
               else marked in
  remove_dups users.

Definition BY_HAND : text := lit "; add the list with " ++ [171] ++ lit "Llista de tasques CalDAV" ++ [8230; 187].

Definition username_for (db : Profile) (acct o : text) : result text text :=
  match users_for db acct o with
  | [u] => Ok u
  | [] => Err (lit "no sign-in for " ++ o ++ lit " is kept with this account" ++ BY_HAND)
  | _ => Err (lit "this account signs in to " ++ o ++ lit " as more than one user" ++ BY_HAND)
  end.

Definition calendar_for (db : Profile) (acct o user : text) : option (text * text) :=
  c ← find_by (fun c => bool_decide (c.2 = user) && same_origin_as o c.1.2) (calendars_of db acct);
  Some (c.1.1, c.1.2).

(** ** What the dialog chose *)

Record Choice := { to_read : list text; kept : list text; dropped_keys : list text; still_declined : list text }.
Definition no_choice : Choice := {| to_read := []; kept := []; dropped_keys := []; still_declined := [] |}.

Definition rescanned (now : Z) (e : EntryRow) : EntryRow :=
  e <| state := Scanned |> <| last_error := [] |> <| updated_at := now |>.

Definition mark_listed (acct user : text) (now : Z) (db : Profile) (o : text) : Profile :=
  put_entry (new_entry acct (server_source o user) Scanned true now) (in_state Pending) (rescanned now) db.

Definition waits_again (now : Z) (e : EntryRow) : EntryRow :=
  e <| state := Pending |> <| list_id := [] |> <| last_error := [] |> <| updated_at := now |>.

Definition want (acct : text) (now : Z) (st : result text (Profile * Choice)) (raw : text) : result text (Profile * Choice) :=
  '(db, c) ← st;
  u ← normalize_url raw;
  src ← collection_source u;
  match state_of db acct src with
  | Some Linked => Ok (db, c <| kept := kept c ++ [u] |>)
  | Some Pending => Ok (db, c <| to_read := to_read c ++ [u] |>)
  | Some Declined => Ok (db, c <| still_declined := still_declined c ++ [u] |>)
  | _ =>
      here ← list_for_url db u;
      match here with
      | Some i => Ok (mark_linked acct src i true now db, c <| kept := kept c ++ [u] |>)
      | None => Ok (put_entry (new_entry acct src Pending true now) (fun _ => true) (waits_again now) db,
                    c <| to_read := to_read c ++ [u] |>)
      end
  end.

Definition unwant (acct : text) (now : Z) (st : result text (Profile * Choice)) (raw : text) : result text (Profile * Choice) :=
  '(db, c) ← st;
  src ← collection_source raw;
  match state_of db acct src with
  | None => Ok (db <| entries_ := entries_ db ++ [new_entry acct src Declined true now] |>, c)
  | Some Pending => Ok (set_declined db acct src now, c <| dropped_keys := dropped_keys c ++ [pending_secret_key acct src] |>)
  | _ => Ok (db, c)
  end.

Definition record_choice (db : Profile) (acct user : text) (origins wanted unwanted : list text) (now : Z) :
    result text (Profile * Choice) :=
  if negb (account_exists db acct) then
    if is_nil wanted && is_nil unwanted then Ok (db, no_choice) else Err (lit "that account is no longer here")
  else
    let marked := foldl (mark_listed acct user now) db origins in
    foldl (unwant acct now) (foldl (want acct now) (Ok (marked, no_choice)) wanted) unwanted.

(** ** A server listed again *)

Definition rescans (db : Profile) : list (Entry * option (text * text)) :=
  (fun e => (e, calendar_for db (account (row e)) (address e) (username e)))
    <$> select (fun e => bool_decide (kind e = lit "caldav-server")) (pending db).

Definition rescan_candidate (db : Profile) (mark : Entry) (st : result text (list text)) (raw : text) : result text (list text) :=
  found ← st;
  if negb (same_origin_as (address mark) raw) then Ok found
  else
    u ← normalize_url raw;
    src ← collection_source u;
    Ok (if bool_decide (state_of db (account (row mark)) src = None) && negb (bool_decide (u ∈ found))
        then found ++ [u] else found).

Definition rescan_candidates (db : Profile) (mark : Entry) (task_lists : list text) : result text (list text) :=
  foldl (rescan_candidate db mark) (Ok []) task_lists.

Record Rescanned := { discarded : bool; r_created : list text; r_adopted : list text }.

Definition rescan_one (mark : Entry) (now : Z) (st : result text (Profile * Rescanned)) (u : text) :
    result text (Profile * Rescanned) :=
  '(db, r) ← st;
  let acct := account (row mark) in
  if negb (same_origin_as (address mark) u) then Ok (db, r)
  else
    src ← collection_source u;
    match state_of db acct src with
    | Some _ => Ok (db, r)
    | None =>
        here ← list_for_url db u;
        match here with
        | Some i => Ok (mark_linked acct src i true now db, r <| r_adopted := r_adopted r ++ [u] |>)
        | None => Ok (db <| entries_ := entries_ db ++ [new_entry acct src Pending false now] |>,
                      r <| r_created := r_created r ++ [u] |>)
        end
    end.

Definition apply_rescan (db : Profile) (mark : Entry) (candidates : list text) (now : Z) : result text (Profile * Rescanned) :=
  let acct := account (row mark) in
  let src := source (row mark) in
  if negb (may_write db acct src Retry) then
    Ok (db, {| discarded := true; r_created := []; r_adopted := [] |})
  else
    '(db', r) ← foldl (rescan_one mark now) (Ok (db, {| discarded := false; r_created := []; r_adopted := [] |})) candidates;
    Ok (update_entries (is_entry acct src) (rescanned now) db', r).

(** ** What the upgrade brings once *)

Section Migrate.
(** The text of [ews_url] in an account's configuration, read as JSON. *)
Context (ews_url_of : text -> option text).

Definition migrate_account (now : Z) (db : Profile) (a : AccountRow) : Profile :=
  if is_nil (trim (unwrap_or [] (ews_url_of (unwrap_or [] (a_config a))))) then db
  else match head (order_by (fun x y => Tasks.l_position x <=? Tasks.l_position y)
                     (select (fun l => bool_decide (Tasks.ews_account l = a_id a)) (Tasks.lists (tdb db)))) with
       | Some l => keep_entry ((new_entry (a_id a) EWS Linked true now) <| list_id := Tasks.l_id l |>) db
       | None => keep_entry (new_entry (a_id a) EWS Pending false now) db
       end.

Definition migrate_calendar (now : Z) (db : Profile) (c : CalendarRow) : Profile :=
  if bool_decide (c_kind c = lit "caldav") && account_exists db (c_account c) then
    match Dav.origin_of (unwrap_or [] (c_url c)) with
    | Ok o => keep_entry (new_entry (c_account c) (server_source o (dav_username c)) Pending false now) db
    | Err _ => db
    end
  else db.

Definition migrate (db : Profile) (now : Z) : Profile :=
  foldl (migrate_calendar now) (foldl (migrate_account now) db (accounts db)) (calendars db).
End Migrate.
End Operations.
End AccountLists.
