(* ===== verification/TaskLife.v ===== *)
(** * What holds of the tasks, whatever is done to them

    The tables of the tasks over a whole life, from those of the first
    start: requests of the person, each to its end or stopped between the
    statement that writes a row and the one that marks it to be sent; lists
    bound to a collection, by hand or from an account; syncs and settlings
    of conflicts, ended or stopped anywhere, whatever the servers answer and
    with requests between any two of their calls.  They stay well formed.

    Of lists kept on Exchange only what the requests do to their tasks is
    here; how such a list is made and synchronized is not modelled. *)
From S2P Require Import Prelude Text Program Calendar Recurrence RRule Todo Dav Tasks TaskLaws TaskSync TaskEvolves.
From S2P Require Import TaskSyncLaws AccountLists TaskSyncLive.
From coqutil Require Import Datatypes.RecordSetters.
From S2P Require Import Table.
Import TriangleBracketNotations.
#[local] Open Scope record_set.
#[local] Open Scope Z_scope.

Module TaskLife.
Import Tasks TaskLaws TaskSync TaskEvolves TaskSyncLaws.

(** ** Rows are kept *)

(** Ids are given on, and a row is a new one or was there, of the same
    conversation, and in its list if that is on a server. *)
Record rows_on (d d' : Db) : Prop := {
  ro_last : last_id d <= last_id d';
  ro_rows : forall t', t' ∈ tasks d' -> last_id d < id t' \/ exists t, t ∈ tasks d /\ stays d d' t t'
}.

#[export] Instance rows_on_preorder : PreOrder rows_on.
Proof.
  split.
  - intros d. split; [lia|]. intros t Ht. right. exists t. split; [done|apply stays_refl].
  - intros a b c [L1 R1] [L2 R2]. split; [lia|]. intros t3 H3. destruct (R2 t3 H3) as [Hn|(t2 & H2 & S2)]; [left; lia|].
    destruct (R1 t2 H2) as [Hn|(t1 & H1 & S1)].
    + left. by rewrite (st_id _ _ _ _ S2).
    + right. exists t1. split; [done|]. by eapply stays_trans.
Qed.

Lemma evolves_rows_on d d' : evolves d d' -> rows_on d d'.
Proof. intros Hev. split; apply Hev. Qed.

Lemma rows_on_update d p f : (forall t, id (f t) = id t /\ thread_key (f t) = thread_key t /\ list_id (f t) = list_id t) ->
  rows_on d (update_tasks p f d).
Proof.
  intros Hf. split; [done|]. intros t' (t & Hin & ->)%elem_of_update. right. exists t. split; [done|].
  destruct (p t); [|by split]. destruct (Hf t) as (E1 & E2 & E3). split; [done|done|]. by rewrite E3.
Qed.

Lemma rows_on_delete d p : rows_on d (delete_tasks p d).
Proof.
  split; [done|]. intros t [Hin _]%elem_of_delete_where. right. exists t. split; [done|]. by split.
Qed.

Lemma rows_on_insert d c : (forall i, id (c (new_task i)) = i) -> rows_on d (insert c d).1.
Proof.
  intros Hc. split; [cbn; lia|]. intros t. cbn. rewrite elem_of_app, list_elem_of_singleton. intros [Hin| ->].
  - right. exists t. split; [done|]. by split.
  - left. rewrite Hc. lia.
Qed.

Lemma rows_on_lists d ls : (forall t, t ∈ tasks d -> kept_on_server d (list_id t) = true ->
    kept_on_server (d <| lists := ls |>) (list_id t) = true) -> rows_on d (d <| lists := ls |>).
Proof.
  intros Hk. split; [done|]. intros t Hin. right. exists t. split; [done|]. split; [done|done|]. intros Hkt.
  split; [done|]. by apply Hk.
Qed.

(** The rows of an id, of no conversation; and in a list on a server. *)
Definition unlinked (d : Db) (i : Z) : Prop :=
  i <= last_id d /\ forall t, t ∈ tasks d -> id t = i -> linked t = false.

Definition there (d : Db) (i : Z) : Prop :=
  unlinked d i /\ forall t, t ∈ tasks d -> id t = i -> kept_on_server d (list_id t) = true.

Lemma unlinked_on d d' i : rows_on d d' -> unlinked d i -> unlinked d' i.
Proof.
  intros [Hl Hr] [Hi Hu]. split; [lia|]. intros t' Hin Hid. destruct (Hr t' Hin) as [Hn|(t & Ht & S)]; [lia|].
  rewrite (linked_key t t' (st_key _ _ _ _ S)). apply Hu; [done|]. by rewrite <- (st_id _ _ _ _ S).
Qed.

Lemma there_on d d' i : rows_on d d' -> there d i -> there d' i.
Proof.
  intros Hro [Hu Hk]. split; [by eapply unlinked_on|]. destruct Hro as [Hl Hr]. destruct Hu as [Hi _].
  intros t' Hin Hid. destruct (Hr t' Hin) as [Hn|(t & Ht & S)]; [lia|].
  apply (st_list _ _ _ _ S), Hk; [done|]. by rewrite <- (st_id _ _ _ _ S).
Qed.

(** Well formed, and its rows kept. *)
Definition good (d d' : Db) : Prop := wf true d' /\ rows_on d d'.

Lemma good_trans a b c : good a b -> (wf true b -> good b c) -> good a c.
Proof. intros [Hb Hab] Hbc. destruct (Hbc Hb) as [Hc Hbc']. split; [done|]. by transitivity b. Qed.

(** ** Each write of a sync *)

Section Life.
Context `{Urls} `{Todo.TodoFormat} `{Calendar} `{Zone} `{Stamps} `{!HashOrder text Known}.

Lemma good_delete d p : wf true d -> good d (delete_tasks p d).
Proof. intros Hw. split; [by apply wf_delete|apply rows_on_delete]. Qed.

Lemma good_mark_conflict d i reason : wf true d -> good d (mark_conflict i reason d).
Proof. intros Hw. split; [by apply wf_mark_conflict|by apply rows_on_update]. Qed.

(** The rows of an id changed, of no conversation. *)
Lemma good_by_id d i f : wf true d -> unlinked d i ->
  (forall t, id (f t) = id t /\ account (f t) = account t /\ thread_key (f t) = thread_key t /\ list_id (f t) = list_id t) ->
  (forall t, task_ok true d t -> rrule (f t) <> [] -> is_Some (due_at (f t))) ->
  (forall t, t ∈ tasks d -> id t = i -> pending (f t) <> [] -> kept_on_server d (list_id t) = true) ->
  good d (update_tasks (with_id i) f d).
Proof.
  intros Hw [_ Hu] Hf Hr Hp. split.
  - apply wf_by_id; [done|]. intros t Hin Hi. destruct (Hf t) as (E1 & E2 & E3 & E4).
    apply keeps_unlinked; [by apply Hu|done..| |].
    + apply Hr. by apply (wf_tasks _ _ Hw).
    + rewrite E4. by apply Hp.
  - apply rows_on_update. intros t. destruct (Hf t) as (E1 & E2 & E3 & E4). done.
Qed.

Lemma good_placed d i place object : wf true d -> unlinked d i -> good d (update_tasks (with_id i) (placed place object) d).
Proof.
  intros Hw Hu. apply good_by_id; [done..| |].
  - intros t Hok. apply (ok_due _ _ _ Hok).
  - intros t Hin _. apply (ok_waiting _ _ _ (wf_tasks _ _ Hw t Hin)).
Qed.

Lemma good_sent d i version object seq : wf true d -> unlinked d i ->
  good d (update_tasks (with_id i) (sent version object seq) d).
Proof.
  intros Hw Hu. apply good_by_id; [done..| |].
  - intros t Hok. apply (ok_due _ _ _ Hok).
  - intros t Hin _ Hp. apply (ok_waiting _ _ _ (wf_tasks _ _ Hw t Hin)).
    change ((if sync_seq t =? seq then [] else pending t) <> []) in Hp. by destruct (sync_seq t =? seq).
Qed.

Lemma good_take d i o todo now : wf true d -> unlinked d i -> Todo.parse (ics o) = Ok todo ->
  good d (take_server_copy i o todo now d).
Proof.
  intros Hw Hu Hp. apply good_by_id; [done..| |].
  - intros t _. apply (Todo.rule_has_due _ _ Hp).
  - intros t _ _ Hne. by destruct Hne.
Qed.

Lemma good_insert d l o todo now : wf true d -> Todo.parse (ics o) = Ok todo -> good d (insert_server_copy l o todo now d).
Proof.
  intros Hw Hp. split; [|by apply rows_on_insert].
  apply wf_insert; [done|done| |intros j; by apply unlinked_alone].
  intros j. split; [done|done|by apply (Todo.rule_has_due _ _ Hp)|done].
Qed.

Lemma good_queued d i f : wf true d -> there d i ->
  (forall t, id (f t) = id t /\ account (f t) = account t /\ thread_key (f t) = thread_key t /\ list_id (f t) = list_id t) ->
  (forall t, rrule (f t) = rrule t /\ due_at (f t) = due_at t) ->
  good d (update_tasks (with_id i) f d).
Proof.
  intros Hw [Hu Hk] Hf Hr. apply good_by_id; [done..| |].
  - intros t Hok. destruct (Hr t) as [-> ->]. apply (ok_due _ _ _ Hok).
  - intros t Hin Hi _. by apply Hk.
Qed.

Lemma good_list_row d p (f : ListRow -> ListRow) : wf true d ->
  (forall l, l_id (f l) = l_id l) -> (forall l, on_server (f l) = on_server l) -> good d (update_lists p f d).
Proof.
  intros Hw Hi Ho. split; [by apply wf_lists_same|]. apply rows_on_lists. intros t _. rewrite !kept_iff.
  intros (l & Hl & El & Hs). exists (if p l then f l else l). split; [apply elem_of_update; by exists l|].
  destruct (p l); [|done]. by rewrite Hi, Ho.
Qed.

(** *** Reconciling *)

Lemma good_reconcile_object d0 b now k d r o todo : good d0 d -> Todo.parse (ics o) = Ok todo ->
  (forall place local, k !! place = Some local -> unlinked d0 (k_task local)) ->
  good d0 (reconcile_object b now k (d, r) (o, todo)).1.
Proof.
  intros Hg Hp Hk. apply (good_trans _ d); [done|]. intros Hw. unfold reconcile_object.
  destruct (k !! href o) as [local|] eqn:E; cbn [fst]; [|by apply good_insert].
  destruct (_ && _); [by split|]. destruct (is_nil _).
  - apply good_take; [done| |done]. eapply unlinked_on; [apply Hg|]. by eapply Hk.
  - destruct (bool_decide _); [by split|]. by apply good_mark_conflict.
Qed.

Lemma good_reconcile_known seen d r pl : wf true d -> good d (reconcile_known seen (d, r) pl).1.
Proof.
  intros Hw. destruct pl as [place local]. cbn. destruct (bool_decide _); [by split|].
  destruct (_ || _); [by apply good_delete|]. destruct (_ && _); [by split|].
  destruct (bool_decide _); [by split|]. by apply good_mark_conflict.
Qed.

Lemma good_objects d0 b now k parsed : (forall place local, k !! place = Some local -> unlinked d0 (k_task local)) ->
  (forall o todo, (o, todo) ∈ parsed -> Todo.parse (ics o) = Ok todo) -> forall d r, good d0 d ->
  good d0 (foldl (reconcile_object b now k) (d, r) parsed).1.
Proof.
  intros Hk. induction parsed as [|[o todo] parsed IH]; intros Hp d r Hg; [done|]. cbn [foldl].
  pose proof (good_reconcile_object d0 b now k d r o todo Hg (Hp o todo ltac:(by left)) Hk) as Hg'.
  destruct (reconcile_object b now k (d, r) (o, todo)) as [d' r']. apply IH; [|done]. intros; apply Hp; by right.
Qed.

Lemma good_places seen pls d0 d r : good d0 d -> good d0 (foldl (reconcile_known seen) (d, r) pls).1.
Proof.
  revert d r. induction pls as [|pl rest IH]; intros d r Hg; [done|]. cbn [foldl].
  pose proof (good_trans d0 d _ Hg (fun Hw => good_reconcile_known seen d r pl Hw)) as Hg'.
  destruct (reconcile_known seen (d, r) pl) as [d' r']. by apply IH.
Qed.

Lemma good_reconcile b objects now r d : wf true d -> good d (reconcile b objects now r d).1.
Proof.
  intros Hw. unfold reconcile. destruct (parse_all objects) as [parsed|e] eqn:Ep; [|by split].
  apply parse_all_Ok in Ep as [_ Hp].
  pose proof (good_objects d b now (known d (b_list b)) parsed) as Hg.
  specialize (Hg (fun place local Hl => conj (proj1 (known_knows _ _ _ _ Hw Hl))
    (fun t Hin Hid => proj2 (proj2 (known_knows _ _ _ _ Hw Hl) t Hin Hid))) Hp d r ltac:(by split)).
  destruct (foldl (reconcile_object b now (known d (b_list b))) (d, r) parsed) as [d1 r1].
  pose proof (good_places (href <$> objects) (iter (known d (b_list b))) d d1 r1 Hg) as Hg2.
  by destruct (foldl (reconcile_known (href <$> objects)) (d1, r1) (iter (known d (b_list b)))).
Qed.

(** *** Calls, with requests of [R] before and during them *)

Section Runs.
Context (R : relation Db) (HR : forall d d', wf true d -> R d d' -> good d d').

Definition does X (e : Ev X) : Db -> Db -> X -> Prop :=
  match e in Ev X return Db -> Db -> X -> Prop with
  | Send _ => fun d d' _ => rtc R d d'
  | FetchTodos _ => fun d d' _ => rtc R d d'
  | NewUuid => fun d d' _ => d' = d
  | WithDb f => fun d d' x => exists d1, rtc R d d1 /\ d' = (f d1).1 /\ x = (f d1).2
  end.

Lemma good_meanwhile d0 d d' : good d0 d -> rtc R d d' -> good d0 d'.
Proof.
  intros Hg. induction 1 as [|a b c Hab _ IH]; [done|]. apply IH.
  apply (good_trans _ a); [done|]. intros Hw. by apply HR.
Qed.

Lemma life_use {X} (f : Db -> Db * X) (Q : X -> Db -> Prop) d0 d : good d0 d ->
  (forall d1, good d0 d1 -> rtc R d d1 -> good d0 (f d1).1 /\ Q (f d1).2 (f d1).1) ->
  ensures does (wf true) (with_db f) Q d.
Proof.
  intros Hg Hf d' x (d1 & Hr & -> & ->). pose proof (good_meanwhile _ _ _ Hg Hr) as Hg1.
  destruct (Hf d1 Hg1 Hr) as [[Hw _] Hq]. by split.
Qed.

Lemma life_send r (Q : result text Dav.HttpReply -> Db -> Prop) d0 d : good d0 d ->
  (forall d' answer, good d0 d' -> Q answer d') -> ensures does (wf true) (send r) Q d.
Proof.
  intros Hg Hf d' x Hr. cbn in Hr. pose proof (good_meanwhile _ _ _ Hg Hr) as Hg1. split; [apply Hg1|by apply Hf].
Qed.

Lemma life_fetch c (Q : result text (list Object) -> Db -> Prop) d0 d : good d0 d ->
  (forall d' answer, good d0 d' -> Q answer d') -> ensures does (wf true) (call (FetchTodos c)) Q d.
Proof.
  intros Hg Hf d' x Hr. cbn in Hr. pose proof (good_meanwhile _ _ _ Hg Hr) as Hg1. split; [apply Hg1|by apply Hf].
Qed.

(** A change of the tables that keeps them good. *)
Lemma ensures_change {X} (f : Db -> Db) (g : unit -> prog Ev X) (Q : X -> Db -> Prop) d0 d : good d0 d ->
  (forall d1, good d0 d1 -> wf true d1 -> good d1 (f d1)) ->
  (forall d1, good d0 d1 -> ensures does (wf true) (g tt) Q d1) ->
  ensures does (wf true) (prog_bind g (change f)) Q d.
Proof.
  intros Hg Hf Hk. apply ensures_bind, (life_use _ _ d0); [done|]. intros d1 Hg1 _. cbn [fst snd].
  assert (good d0 (f d1)) as Hg2 by (apply (good_trans _ d1); [done|]; by apply Hf).
  split; [done|]. by apply Hk.
Qed.

Lemma conflict_found_good d0 d i r : good d0 d -> ensures does (wf true) (conflict_found i r) (fun _ => good d0) d.
Proof. intros Hg. apply (ensures_change _ _ _ d0); [done| |done]. intros d1 _. by apply good_mark_conflict. Qed.

Lemma delete_good {X} (x : X) d0 d p : good d0 d ->
  ensures does (wf true) (prog_bind (fun _ => Ret x) (change (delete_tasks p))) (fun _ => good d0) d.
Proof. intros Hg. apply (ensures_change _ _ _ d0); [done| |done]. intros d1 _. by apply good_delete. Qed.

Lemma push_delete_good b p r d0 d : good d0 d -> ensures does (wf true) (push_delete b p r) (fun _ => good d0) d.
Proof.
  intros Hg. unfold push_delete. destruct (_ || _); [by apply delete_good|].
  apply ensures_and_then. unfold Dav.delete_object. destruct (Dav.guard _ _); [|done].
  destruct (is_nil _); [done|]. apply ensures_and_then, (life_send _ _ d0); [done|]. intros d' answer Hg'.
  destruct answer as [reply|e]; [|done]. cbn [ensures]. destruct (Dav.delete_reply reply) as [[v|]|e]; [| |done].
  - by apply delete_good.
  - by apply conflict_found_good.
Qed.

Lemma unlinked_here d0 d i : good d0 d -> unlinked d0 i -> unlinked d i.
Proof. intros [_ Hr]. by apply unlinked_on. Qed.

Lemma prepare_good b now p d0 d : good d0 d -> unlinked d0 (p_id p) ->
  ensures does (wf true) (prepare b now p) (fun _ => good d0) d.
Proof.
  intros Hg Hu. unfold prepare. destruct (_ || _); [|done].
  apply ensures_bind. intros d' uuid ->. split; [apply Hg|]. cbn zeta.
  assert (forall place, ensures does (wf true)
    (prog_bind (fun _ => Ret (Ok (place, Todo.new_object (p_fields p) (uuid ++ lit "@oreneta") now) : result text (text * text)))
      (change (update_tasks (with_id (p_id p)) (placed place (Todo.new_object (p_fields p) (uuid ++ lit "@oreneta") now)))))
    (fun _ => good d0) d) as Hplace.
  { intros place. apply (ensures_change _ _ _ d0); [done| |done]. intros d1 Hg1 Hw.
    apply good_placed; [done|]. by eapply unlinked_here. }
  apply ensures_and_then. destruct (is_nil (p_href p)); cbn [ensures]; [|apply Hplace].
  destruct (Dav.new_href _ _); [apply Hplace|done].
Qed.

Lemma put_good b p place object version r d0 d : good d0 d -> unlinked d0 (p_id p) ->
  ensures does (wf true)
    (written <-? Dav.put_object send (b_url b) place object version ;;
     match written with
     | Dav.Saved version => prog_bind (fun _ => Ret (Ok (GoOn (r <| pushed := pushed r + 1 |>))))
         (change (update_tasks (with_id (p_id p)) (sent (unwrap_or [] version) object (p_seq p))))
     | Dav.Conflict => conflict_found (p_id p) r
     end)%prog (fun _ => good d0) d.
Proof.
  intros Hg Hu. apply ensures_and_then. unfold Dav.put_object. destruct (Dav.guard _ _); [|done].
  assert (forall q, ensures does (wf true) (and_then (send q) (fun reply => Ret (Dav.put_reply reply)))
    (fun x d' => match x with
       | Ok written => ensures does (wf true) (match written with
           | Dav.Saved version => prog_bind (fun _ => Ret (Ok (GoOn (r <| pushed := pushed r + 1 |>))))
               (change (update_tasks (with_id (p_id p)) (sent (unwrap_or [] version) object (p_seq p))))
           | Dav.Conflict => conflict_found (p_id p) r end) (fun _ => good d0) d'
       | Err _ => good d0 d' end) d) as Hput.
  { intros q. apply ensures_and_then, (life_send _ _ d0); [done|]. intros d' [reply|e] Hg'; [|done]. cbn [ensures].
    destruct (Dav.put_reply reply) as [[v|]|e]; [| |done].
    - apply (ensures_change _ _ _ d0); [done| |done]. intros d1 Hg1 Hw. apply good_sent; [done|]. by eapply unlinked_here.
    - by apply conflict_found_good. }
  destruct version as [[|c v]|]; [done|apply Hput|apply Hput].
Qed.

Lemma push_one_good b now p r d0 d : good d0 d -> unlinked d0 (p_id p) ->
  ensures does (wf true) (push_one b now p r) (fun _ => good d0) d.
Proof.
  intros Hg Hu. unfold push_one. destruct (bool_decide _); [by apply push_delete_good|].
  destruct (p_recurring p); [done|]. unfold push_put. apply ensures_and_then.
  eapply ensures_mono; [|by apply prepare_good]. intros [[place object]|e] d1 Hg1; [|done]. by apply put_good.
Qed.

Lemma push_good b now d0 d : good d0 d -> ensures does (wf true) (push b now) (fun _ => wf true) d.
Proof.
  intros Hg. unfold push. apply ensures_bind, (life_use _ _ d0); [done|]. intros d1 Hg1 _. cbn [fst snd].
  split; [done|]. destruct (blocked d1 (b_list b)); [apply Hg1|]. destruct Hg1 as [Hw1 _].
  assert (forall p, p ∈ queue d1 (b_list b) -> unlinked d1 (p_id p)) as Hu.
  { intros p Hp. destruct (queue_fits d1 (b_list b) p Hw1 Hp) as [Hi Hf]. split; [done|].
    intros t Hin Hid. by apply Hf. }
  assert (forall ps r d2, (forall p, p ∈ ps -> unlinked d1 (p_id p)) -> good d1 d2 ->
    ensures does (wf true) (push_all b now ps r) (fun _ => wf true) d2) as Hall; [|by apply Hall].
  induction ps as [|p ps IH]; intros r d2 Hps Hg2; [apply Hg2|]. cbn [push_all]. apply ensures_and_then.
  eapply ensures_mono; [|apply push_one_good; [exact Hg2|apply Hps; by left]].
  intros [[r'|r']|e] d3 Hg3; [|apply Hg3|apply Hg3]. apply IH; [|done]. intros q Hq. apply Hps. by right.
Qed.

Lemma sync_good l now d : wf true d -> ensures does (wf true) (sync l now) (fun _ => wf true) d.
Proof.
  intros Hw. assert (forall d, wf true d -> good d d) as Hself by by split.
  unfold sync. apply ensures_bind, (life_use _ _ d); [by apply Hself|]. intros d1 Hg1 _. cbn [fst snd].
  split; [done|]. destruct (binding d1 l) as [b|]; [|apply Hg1]. apply ensures_bind.
  eapply (ensures_mono _ _ _ (fun _ => wf true)).
  - intros outcome d2 Hw2. apply (ensures_change _ _ _ d2); [by apply Hself| |by intros d3 []].
    intros d3 _ Hw3. apply good_list_row; [done|by destruct outcome..].
  - apply ensures_and_then. eapply ensures_mono; [|by apply (push_good b now d)]. intros [r|e] d2 Hw2; [|done].
    apply ensures_and_then, (life_fetch _ _ d2); [by apply Hself|]. intros d3 [objects|e] [Hw3 _]; [|done].
    apply (life_use _ _ d3); [by apply Hself|]. intros d4 Hg4 _.
    assert (good d3 (reconcile b objects now r d4).1) as Hr
      by (apply (good_trans _ d4); [done|]; by apply good_reconcile).
    split; [done|apply Hr].
Qed.

(** *** Settling, with no list bound meanwhile *)

Context (HL : forall d d' i, wf true d -> R d d' -> kept_on_server d' i = true -> kept_on_server d i = true).

Lemma bound_before d d' i : wf true d -> rtc R d d' -> kept_on_server d' i = true -> kept_on_server d i = true.
Proof.
  intros Hw Hr. revert Hw. induction Hr as [|a b c Hab _ IH]; [done|]. intros Hw Hk.
  eapply HL, IH; [done..| |done]. by apply (HR a).
Qed.

Lemma found_there d d1 i t b : wf true d -> query_row (with_id i) (tasks d) = Some t -> rtc R d d1 ->
  binding d1 (list_id t) = Some b -> there d i.
Proof.
  intros Hw [Hin Hi%Z.eqb_eq]%query_row_Some Hr Hb. subst i.
  assert (kept_on_server d (list_id t) = true) as Hk.
  { unfold binding in Hb. destruct (query_row _ (lists d1)) as [l|] eqn:El; [|done].
    apply query_row_Some in El as [Hl Hp]. apply andb_true_iff in Hp as [Hp Hne].
    apply (bound_before _ _ _ Hw Hr), kept_iff. exists l. split; [done|].
    split; [by apply bool_decide_eq_true in Hp|]. unfold on_server. by rewrite Hne. }
  assert (forall u, u ∈ tasks d -> id u = id t -> u = t) as Hone.
  { intros u Hu Hid. apply (key_unique id (id t) (tasks d)); [apply Hw|done|done| |]; by apply bool_decide_eq_true. }
  split; [split; [by apply (wf_given _ _ Hw)|]|]; intros u Hu Hid; rewrite (Hone u Hu Hid); [|done].
  apply not_true_is_false. intros Hl.
  destruct (ok_linked _ _ _ (wf_tasks _ _ Hw t Hin) Hl) as (_ & _ & Hno & _). congruence.
Qed.

Lemma settle_good i t keep current now d0 d : good d0 d -> there d0 i ->
  ensures does (wf true) (settle i t keep current now) (fun _ => good d0) d.
Proof.
  intros Hg Ht. assert (forall d1, good d0 d1 -> there d1 i) as Ht' by (intros d1 [_ Hr]; by eapply there_on).
  unfold settle. destruct keep, current as [[object version]|].
  - apply (ensures_change _ _ _ d0); [done| |done]. intros d1 Hg1 Hw. apply good_queued; [done|by apply Ht'|done|done].
  - destruct (deleting t); [by apply delete_good|].
    apply (ensures_change _ _ _ d0); [done| |done]. intros d1 Hg1 Hw. apply good_queued; [done|by apply Ht'|done|done].
  - destruct (Todo.parse object) as [todo|e] eqn:E; [|done].
    apply (ensures_change _ _ _ d0); [done| |done]. intros d1 Hg1 Hw. apply good_take; [done|by apply Ht'|done].
  - by apply delete_good.
Qed.

Lemma resolve_good i keep now d : wf true d -> ensures does (wf true) (resolve_conflict i keep now) (fun _ => wf true) d.
Proof.
  intros Hw. unfold resolve_conflict. apply ensures_bind, (life_use _ _ d); [by split|]. intros d1 Hg1 _. cbn [fst snd].
  split; [done|]. destruct Hg1 as [Hw1 _]. destruct (query_row (with_id i) (tasks d1)) as [t|] eqn:Et; [|done].
  destruct (is_nil (conflict t)); [done|].
  apply ensures_bind, (life_use _ _ d1); [by split|]. intros d2 Hg2 Hr. cbn [fst snd]. split; [done|].
  destruct (binding d2 (list_id t)) as [b|] eqn:Eb; [|apply Hg2].
  pose proof (found_there _ _ _ _ _ Hw1 Et Hr Eb) as Ht.
  assert (forall current d', good d1 d' -> ensures does (wf true)
    (and_then (settle i t keep current now) (fun _ => Ret (Ok (list_id t)))) (fun _ => wf true) d') as Hsettle.
  { intros current d' Hg'. apply ensures_and_then. eapply ensures_mono; [|by apply (settle_good _ _ _ _ _ d1)].
    by intros [u|e] d'' []. }
  apply ensures_and_then. destruct (is_nil (remote_href t)); [by apply Hsettle|].
  unfold Dav.get_object. destruct (Dav.guard _ _); [|apply Hg2]. apply ensures_and_then, (life_send _ _ d1); [done|].
  intros d3 [reply|e] Hg3; [|apply Hg3]. cbn [ensures].
  destruct (Dav.get_reply reply) as [current|e]; [by apply Hsettle|apply Hg3].
Qed.
End Runs.

(** ** A whole life *)

Context (name_from_url : text -> text).

(** A request of the person: to its end, or stopped, or failed, before the
    statement that marks what it wrote. *)
Inductive request (db : Db) : Db -> Prop :=
| request_done db' : step db db' -> request db db'
| request_created fs now db' i : create_row db fs now = Ok (db', i) -> request db db'
| request_stopped i now db' u : stop_repeating_row db i now = Ok (db', u) -> request db db'
| request_completed i completed now db' unmarked :
    set_task_completed_row db i completed now = Ok (db', unmarked) -> request db db'.

(** A list bound to a collection: by hand, or when a list of an account is
    read for the first time.  Its id is new. *)
Inductive binds (db : Db) : Db -> Prop :=
| bound_by_hand uuid name address server user now db' i :
    existsb (in_list (new_list_id uuid)) (tasks db) = false ->
    add_list db name_from_url uuid name address server user now = Ok (db', i) -> binds db db'
| bound_from_account (p p' : AccountLists.Profile) target src name objects mode now r : AccountLists.tdb p = db ->
    existsb (in_list (AccountLists.t_list_id target)) (tasks db) = false ->
    AccountLists.write_list target src name objects mode now p = (p', r) -> binds db (AccountLists.tdb p').

Definition moves (d d' : Db) : Prop := request d d' \/ binds d d'.

(** What happens to the tables, one thing at a time. *)
Inductive happens (d : Db) : Db -> Prop :=
| happens_request d' : request d d' -> happens d d'
| happens_binding d' : binds d d' -> happens d d'
| happens_sync l now d' o : runs (does moves) (sync l now) d d' o -> happens d d'
| happens_settling i keep now d' o : runs (does request) (resolve_conflict i keep now) d d' o -> happens d d'.

Lemma good_request d d' : wf true d -> request d d' -> good d d'.
Proof.
  intros Hw. destruct 1 as [d' Hs|fs now d' i E|i now d' u E|i c now d' u E].
  - split; [by eapply wf_step|]. by eapply evolves_rows_on, evolves_step.
  - split; [by eapply wf_create_row|]. unfold create_row in E. apply bind_Ok in E as (v & _ & E).
    destruct (list_exists _ _); [|done]. cbn [negb] in E.
    assert (E' : Ok (insert (created fs (if is_nil (f_list_id fs) then MAIL_LIST else f_list_id fs) now) d) =
      (Ok (d', i) : op Z)) by exact E. injection E' as <- _. by apply (rows_on_insert d (created fs _ now)).
  - split; [by eapply wf_stop_repeating_row|]. unfold stop_repeating_row in E. apply bind_Ok in E as ([] & _ & E).
    destruct (Nat.eqb _ _); [done|]. injection E as <- _. by apply rows_on_update.
  - split; [by eapply wf_set_task_completed_row|]. unfold set_task_completed_row in E.
    apply bind_Ok in E as ([] & _ & E). apply bind_Ok in E as ([d1 moved] & Hm & E).
    assert (rows_on d d1) as Hr.
    { destruct c; [by eapply evolves_rows_on, evolves_complete_occurrence|]. by injection Hm as <- _. }
    destruct moved; [by injection E as <- _|]. destruct (negb c && _); [done|]. destruct (Nat.eqb _ _); [done|].
    injection E as <- _. transitivity d1; [done|]. by apply rows_on_update.
Qed.

Lemma request_binds_nothing d d' i : wf true d -> request d d' -> kept_on_server d' i = true -> kept_on_server d i = true.
Proof.
  intros Hw. destruct 1 as [d' Hs|fs now d' j E|j now d' u E|j c now d' u E].
  - apply evolves_kept. by eapply evolves_step.
  - unfold create_row in E. apply bind_Ok in E as (v & _ & E). destruct (list_exists _ _); [|done]. cbn [negb] in E.
    by injection E as <- _.
  - unfold stop_repeating_row in E. apply bind_Ok in E as ([] & _ & E). destruct (Nat.eqb _ _); [done|]. by injection E as <- _.
  - unfold set_task_completed_row in E. apply bind_Ok in E as ([] & _ & E). apply bind_Ok in E as ([d1 moved] & Hm & E).
    assert (kept_on_server d1 i = true -> kept_on_server d i = true) as Hk.
    { destruct c; [by eapply evolves_kept, evolves_complete_occurrence|]. by injection Hm as <- _. }
    destruct moved; [by injection E as <- _|]. destruct (negb c && _); [done|]. destruct (Nat.eqb _ _); [done|].
    by injection E as <- _.
Qed.

(** A list without a task put on a server. *)
Lemma good_bind d i (f : ListRow -> ListRow) : wf true d -> i <> MAIL_LIST -> existsb (in_list i) (tasks d) = false ->
  (forall l, l_id (f l) = l_id l) -> good d (update_lists (is_list i) f d).
Proof.
  intros Hw Hm Hno Hf.
  assert (forall j, j <> i -> kept_on_server (update_lists (is_list i) f d) j = kept_on_server d j) as Hk.
  { intros j Hj. apply eq_true_iff_eq. rewrite !kept_iff. split.
    - intros (l' & (l & Hl & ->)%elem_of_update & Hid & Ho). exists l. split; [done|].
      destruct (is_list i l) eqn:E; [|done]. rewrite Hf in Hid. apply bool_decide_eq_true in E. congruence.
    - intros (l & Hl & Hid & Ho). exists l. split; [|done]. apply elem_of_update. exists l. split; [done|].
      destruct (is_list i l) eqn:E; [|done]. apply bool_decide_eq_true in E. congruence. }
  assert (forall t, t ∈ tasks d -> list_id t <> i) as Hne.
  { intros t Ht E. pose proof (existsb_none _ _ Hno t Ht) as Hn. unfold in_list in Hn.
    by apply bool_decide_eq_false in Hn. }
  split.
  - destruct Hw as [Hn Hg Hl Hma Hmh Ht Hone1]. split; try done.
    + change (NoDup (l_id <$> Table.update (is_list i) f (lists d))). by rewrite update_key.
    + apply existsb_is_list_iff. apply existsb_is_list_iff in Hma.
      change (MAIL_LIST ∈ l_id <$> Table.update (is_list i) f (lists d)). by rewrite update_key.
    + by rewrite Hk.
    + intros t Hin. destruct (Ht t Hin) as [Hp Hlk Hd Hw]. split; [done| |done|].
      * intros Hlt. rewrite Hk by by apply Hne. by apply Hlk.
      * intros Hp'. rewrite Hk by by apply Hne. by apply Hw.
  - apply rows_on_lists. intros t Hin Hkt. change (kept_on_server (update_lists (is_list i) f d) (list_id t) = true).
    rewrite Hk by by apply Hne. done.
Qed.

Lemma create_list_new d i list_name now d' u : wf true d -> create_list_with_id d i list_name now = Ok (d', u) ->
  i <> MAIL_LIST /\ tasks d' = tasks d /\ good d d'.
Proof.
  intros Hw E. split_and!.
  - intros ->. unfold create_list_with_id in E. rewrite (wf_mail _ _ Hw) in E. by destruct (is_nil _).
  - unfold create_list_with_id in E. destruct (is_nil _); [done|]. destruct (list_exists d i); [done|]. by injection E as <- _.
  - split; [by eapply wf_create_list_with_id|].
    unfold create_list_with_id in E. destruct (is_nil _); [done|]. destruct (list_exists d i); [done|]. injection E as <- _.
    apply rows_on_lists. intros t _. rewrite !kept_iff. intros (l & Hl & Hr). exists l. split; [|done].
    apply elem_of_app. by left.
Qed.

Lemma good_binds d d' : wf true d -> binds d d' -> good d d'.
Proof.
  intros Hw. destruct 1 as [uuid name address server user now d' i Hno E|p p' target src name objects mode now r Hp Hno E].
  - unfold add_list in E. destruct (parse_url _) as [u|]; [|done]. destruct (negb _); [done|].
    apply bind_Ok in E as ([] & _ & E). destruct (existsb _ (lists d)); [done|].
    apply bind_Ok in E as ([d1 j] & Hc & [= <- <-]). unfold create_list in Hc.
    apply bind_Ok in Hc as ([d2 v] & Hc & [= -> <-]). destruct (create_list_new _ _ _ _ _ _ Hw Hc) as (Hm & Ht & Hg).
    apply (good_trans _ d1); [done|]. intros Hw1. apply good_bind; [done|done| |done]. by rewrite Ht.
  - subst d. unfold AccountLists.write_list in E. destruct (negb _); [injection E as <- _; by split|].
    destruct (create_list_with_id _ _ _ _) as [[d1 v]|e] eqn:Hc; [|injection E as <- _; by split].
    destruct (create_list_new _ _ _ _ _ _ Hw Hc) as (Hm & Ht & Hg).
    set (d2 := update_lists _ _ d1) in E.
    assert (good (AccountLists.tdb p) d2) as Hg2.
    { apply (good_trans _ d1); [done|]. intros Hw1. apply good_bind; [done|done| |done]. by rewrite Ht. }
    destruct (reconcile _ _ _ _ d2) as [d3 [r'|e]] eqn:Er; [|injection E as <- _; by split]. injection E as <- _.
    match goal with |- good _ ?x => change x with d3 end. apply (good_trans _ d2); [done|]. intros Hw2.
    rewrite <- (f_equal fst Er : (reconcile _ objects now no_report d2).1 = d3). by apply good_reconcile.
Qed.

Lemma good_moves d d' : wf true d -> moves d d' -> good d d'.
Proof. intros Hw [Hr|Hb]; [by apply good_request|by apply good_binds]. Qed.

Lemma happens_well d d' : wf true d -> happens d d' -> wf true d'.
Proof.
  intros Hw. destruct 1 as [d' Hr|d' Hb|l now d' o Hr|i k now d' o Hr].
  - by apply (good_request d).
  - by apply (good_binds d).
  - eapply (ensures_always (does moves)); [exact Hw| |exact Hr]. apply sync_good; [apply good_moves|done].
  - eapply (ensures_always (does request)); [exact Hw| |exact Hr].
    apply resolve_good; [apply good_request|apply request_binds_nothing|done].
Qed.

(** C40. Over a whole life of the tables, from those of the first start:
    requests of the person, done or stopped before what they wrote is marked
    to be sent; lists bound to collections under new ids; syncs and
    settlings, ended or stopped anywhere, whatever the servers answer, with
    requests (and for a sync bindings too) between their calls.  Ids are
    never reused, no two lists share one and the mail list is there, on no
    server; a conversation has at most one open task, and a task of a
    conversation does not repeat, is in no list kept on a server and has no
    place on one; a rule always has a due date to count from; and only a
    task of a list kept on a server waits to be sent. *)
Theorem tasks_stay_well_formed db : rtc happens fresh db -> wf true db.
Proof.
  assert (forall a, rtc happens a db -> wf true a -> wf true db) as Hall.
  { intros a. induction 1 as [|a b c Hab _ IH]; [done|]. intros Hw. apply IH. by apply (happens_well a). }
  intros Hr. by apply (Hall fresh), wf_fresh.
Qed.
End Life.

(** ** Instances *)

Module Demo.
Import TaskSyncLive.TaskSyncDemo.
#[local] Existing Instance Recurrence.Demo.utc.
#[local] Existing Instance RRule.Demo.digits.
#[local] Existing Instance addresses.
#[local] Existing Instance titles.

Definition by_name : text -> text := fun _ => lit "Tasks".

(** The server of [TaskSyncDemo], seen from the tables alone. *)
Definition serves X (e : Ev X) : Db -> Db * X :=
  match e in Ev X return Db -> Db * X with
  | Send _ => fun d => (d, Ok (reply 201 []))
  | FetchTodos _ => fun d => (d, Ok (holding (lit "Bread")))
  | NewUuid => fun d => (d, lit "u")
  | WithDb f => fun d => f d
  end.

Lemma serves_does R X (e : Ev X) d : does R X e d (serves X e d).1 (serves X e d).2.
Proof. destruct e; cbn; try apply rtc_refl; [done|]. exists d. split; [apply rtc_refl|done]. Qed.

(** A list bound, a task made in it, a conversation marked, and a sync. *)
Definition marked_too : Db :=
  unwrap_or fresh (fst <$> ok (save_task waiting (lit "me@x") (lit "k1") (lit "INBOX") None (lit "reply") 15)).
Definition in_step : Db := (exec serves (sync work 20) marked_too).1.

Lemma in_step_reached : rtc (happens by_name) fresh in_step.
Proof.
  apply (rtc_l _ _ bound).
  { apply happens_binding. apply (bound_by_hand by_name fresh (lit "w") (lit "Work") (lit "https://s.org/tasks/")
      (lit "https://s.org") (lit "me") 5 bound work); vm_compute; reflexivity. }
  apply (rtc_l _ _ waiting).
  { apply happens_request, request_done, (did_create _ (named (lit "Bread")) 10 _ 1). vm_compute. reflexivity. }
  apply (rtc_l _ _ marked_too).
  { apply happens_request, request_done.
    apply (did_save _ (lit "me@x") (lit "k1") (lit "INBOX") None (lit "reply") 15 _ 2). vm_compute. reflexivity. }
  apply rtc_once, (happens_sync by_name _ work 20 _ (Some (exec serves (sync work 20) marked_too).2)).
  apply exec_runs, serves_does.
Qed.

(** A task made in a list on a server, stopped before it is marked: no sync
    sends it, since nothing of it waits. *)
Definition unmarked : Db := unwrap_or fresh (fst <$> ok (create_row bound (named (lit "Bread")) 10)).

Example a_stop_leaves_it_unsent :
  title <$> tasks unmarked = [lit "Bread"] /\ queue unmarked work = [] /\
  (exec serves (sync work 20) unmarked).2 =
    Ok {| pushed := 0; pulled := 1; removed := 0; in_conflict := 0; stopped_early := false; rejected := 0 |} /\
  remote_href <$> tasks (exec serves (sync work 20) unmarked).1 = [[]; place].
Proof. vm_compute. split_and!; reflexivity. Qed.

(** A task completed, stopped before it is marked: the next sync that finds
    the object changed there takes that over what was done here. *)
Definition done_unmarked : Db :=
  unwrap_or fresh (fst <$> ok (set_task_completed_row in_step 1 true 25)).

Example a_stop_loses_a_completion :
  (completed_at <$> tasks done_unmarked = [Some 25; None]) /\ queue done_unmarked work = [] /\
  let changed_there := holding (lit "Rye bread") in
  let b := {| b_list := work; b_url := lit "https://s.org/tasks/"; b_user := lit "me" |} in
  let objects := (fun o => {| href := href o; o_etag := lit "v2"; ics := ics o |}) <$> changed_there in
  completed_at <$> tasks (reconcile b objects 30 no_report done_unmarked).1 = [None; None].
Proof. vm_compute. split_and!; reflexivity. Qed.
End Demo.

#[local] Existing Instance Recurrence.Demo.utc.
#[local] Existing Instance RRule.Demo.digits.
#[local] Existing Instance TaskSyncLive.TaskSyncDemo.addresses.
#[local] Existing Instance TaskSyncLive.TaskSyncDemo.titles.

Lemma tasks_stay_well_formed_witness :
  rtc (happens Demo.by_name) fresh Demo.in_step /\ wf true Demo.in_step /\
  remote_href <$> tasks Demo.in_step = [TaskSyncLive.TaskSyncDemo.place; []].
Proof.
  split; [exact Demo.in_step_reached|]. split; [|vm_compute; reflexivity].
  apply (tasks_stay_well_formed Demo.by_name _ Demo.in_step_reached).
Defined.
End TaskLife.
