(* ===== verification/AccountListLaws.v ===== *)
(** * What an account's lists may do on their own

    A declined entry stays declined, and nothing of it is read, whatever
    else happens, until the person asks for that list by hand; a first read
    that ends too late writes nothing.  And where two accounts share a list,
    one goes with the other. *)
From S2P Require Import Prelude Text Program Calendar Recurrence RRule Todo Dav Tasks TaskLaws TaskSync TaskSyncLive AccountLists.
From coqutil Require Import Datatypes.RecordSetters.
From S2P Require Import Table.
Import TriangleBracketNotations.
#[local] Open Scope record_set.
#[local] Open Scope Z_scope.

Module AccountListLaws.
Import AccountLists.

(** ** Entries by their key *)

Lemma is_entry_iff a s e : is_entry a s e = true <-> account e = a /\ source e = s.
Proof. unfold is_entry. bools. done. Qed.

Lemma is_entry_key a s e e' : account e' = account e -> source e' = source e -> is_entry a s e' = is_entry a s e.
Proof. unfold is_entry. by intros -> ->. Qed.

Lemma state_of_update db p f a s : (forall e, account (f e) = account e /\ source (f e) = source e) ->
  state_of (update_entries p f db) a s =
  state <$> ((fun e => if p e then f e else e) <$> query_row (is_entry a s) (entries_ db)).
Proof.
  intros Hf. unfold state_of. change (entries_ (update_entries p f db)) with (update p f (entries_ db)).
  rewrite query_row_update; [done|]. intros e. destruct (Hf e). by apply is_entry_key.
Qed.

Lemma state_of_put db e p f a s : (forall x, account (f x) = account x /\ source (f x) = source x) ->
  state_of (put_entry e p f db) a s =
  if is_entry a s e then
    Some (match query_row (is_entry a s) (entries_ db) with
          | Some x => state (if p x then f x else x)
          | None => state e
          end)
  else state_of db a s.
Proof.
  intros Hf. unfold state_of. set (g := fun x => if p x then f x else x).
  assert (forall x, is_entry a s (g x) = is_entry a s x) as Hg
    by (intros x; unfold g; destruct (Hf x); destruct (p x); [by apply is_entry_key|done]).
  change (entries_ (put_entry e p f db)) with (upsert (is_entry (account e) (source e)) e g (entries_ db)).
  destruct (is_entry a s e) eqn:E.
  - apply is_entry_iff in E as [<- <-]. rewrite query_row_upsert; [|by apply is_entry_iff|exact Hg].
    by destruct (query_row _ _).
  - rewrite query_row_upsert_other; [done|done| |exact Hg].
    intros x [Ea Es]%is_entry_iff. by rewrite <- (is_entry_key a s e x) in E.
Qed.

(** ** Declined for good *)

Section Declined.
Context `{Urls} `{Todo.TodoFormat} `{!HashOrder text TaskSync.Known} (sha256 : text -> list Z).
Context (ews_url_of : text -> option text) (acct src : text).

Definition is_declined (db : Profile) : Prop := state_of db acct src = Some Declined.

Lemma declined_row db : is_declined db -> exists e, query_row (is_entry acct src) (entries_ db) = Some e /\ state e = Declined.
Proof. unfold is_declined, state_of. destruct (query_row _ _) as [e|]; [|done]. intros [= He]. by exists e. Qed.

Lemma declined_update p f db : (forall e, account (f e) = account e /\ source (f e) = source e) ->
  (forall e, p e = true -> is_entry acct src e = true -> state e = Declined -> state (f e) = Declined) ->
  is_declined db -> is_declined (update_entries p f db).
Proof.
  intros Hf Hp Hd. destruct (declined_row db Hd) as (e & He & Hs). unfold is_declined.
  rewrite state_of_update, He by done. cbn. apply query_row_Some in He as [_ Hk].
  destruct (p e) eqn:E; [|by rewrite Hs]. by rewrite Hp.
Qed.

Lemma declined_put e p f db : (forall x, account (f x) = account x /\ source (f x) = source x) ->
  (is_entry acct src e = true -> forall x, state x = Declined -> p x = true -> state (f x) = Declined) ->
  is_declined db -> is_declined (put_entry e p f db).
Proof.
  intros Hf Hp Hd. unfold is_declined. rewrite state_of_put by done. destruct (is_entry acct src e) eqn:E; [|done].
  destruct (declined_row db Hd) as (x & -> & Hx). destruct (p x) eqn:Epx; [by rewrite Hp|by rewrite Hx].
Qed.

Lemma declined_keep e db : is_declined db -> is_declined (keep_entry e db).
Proof. by apply declined_put. Qed.

(** A row added at the end is not the one found. *)
Lemma declined_add e db : is_declined db -> is_declined (db <| entries_ := entries_ db ++ [e] |>).
Proof.
  intros Hd. destruct (declined_row db Hd) as (x & Hx & Hs). unfold is_declined, state_of.
  change (entries_ (db <| entries_ := entries_ db ++ [e] |>)) with (entries_ db ++ [e]).
  rewrite query_row_app, Hx. cbn. by rewrite Hs.
Qed.

Lemma declined_mark_linked a s i was now db : is_entry a s (new_entry acct src Linked true now) = false ->
  is_declined db -> is_declined (mark_linked a s i was now db).
Proof.
  intros Hne. apply declined_put; [done|]. intros E. exfalso. apply is_entry_iff in E as [Ea Es].
  change (account (new_entry a s Linked true now) = acct) in Ea. change (source (new_entry a s Linked true now) = src) in Es.
  cbn in Ea, Es. subst. rewrite (proj2 (is_entry_iff _ _ _)) in Hne; done.
Qed.

(** What a [state_of] other than declined says of the key. *)
Lemma other_key db a s now : is_declined db -> state_of db a s <> Some Declined ->
  is_entry a s (new_entry acct src Linked true now) = false.
Proof.
  intros Hd Hs. apply not_true_is_false. intros [Ea Es]%is_entry_iff. cbn in Ea, Es. by subst.
Qed.

Lemma may_write_retry db a s : may_write db a s Retry = true -> state_of db a s <> Some Declined.
Proof. unfold may_write. intros [_ Hs]%andb_true_iff. apply bool_decide_eq_true in Hs. by rewrite Hs. Qed.

(** *** Each operation *)

Lemma declined_record_failure a s why db : is_declined db -> is_declined (record_failure db a s why).
Proof.
  apply declined_update; [done|]. intros e Hp _ He. apply andb_true_iff in Hp as [_ Hp].
  apply bool_decide_eq_true in Hp. congruence.
Qed.

Lemma declined_set_declined a s now db : is_declined db -> is_declined (set_declined db a s now).
Proof. by apply declined_update. Qed.

Lemma declined_tdb f db : is_declined db -> is_declined (db <| tdb ::= f |>).
Proof. done. Qed.

Lemma declined_want now a db c raw db' c' :
  want a now (Ok (db, c)) raw = Ok (db', c') -> is_declined db -> is_declined db'.
Proof.
  intros Hw Hd. revert Hw. unfold want. cbn. intros (u & _ & Hw)%bind_Ok. apply bind_Ok in Hw as (s & _ & Hw).
  assert (state_of db a s <> Some Declined -> (here ← list_for_url db u;
      match here with
      | Some i => Ok (mark_linked a s i true now db, c <| kept := kept c ++ [u] |>)
      | None => Ok (put_entry (new_entry a s Pending true now) (fun _ => true) (waits_again now) db,
                    c <| to_read := to_read c ++ [u] |>)
      end) = Ok (db', c') -> is_declined db') as Hnew.
  { intros Hne (here & _ & Hh)%bind_Ok. pose proof (other_key db a s now Hd Hne) as Hkey. destruct here as [i|].
    - injection Hh as <- _. by apply declined_mark_linked.
    - injection Hh as <- _. apply declined_put; [done| |done]. intros E. exfalso.
      apply is_entry_iff in E as [Ea Es]. cbn in Ea, Es. subst.
      rewrite (proj2 (is_entry_iff _ _ _)) in Hkey; done. }
  destruct (state_of db a s) as [[]|] eqn:E; try (injection Hw as <- _; done); by apply Hnew.
Qed.

Lemma declined_unwant now a db c raw db' c' :
  unwant sha256 a now (Ok (db, c)) raw = Ok (db', c') -> is_declined db -> is_declined db'.
Proof.
  intros Hw Hd. revert Hw. unfold unwant. cbn. intros (s & _ & Hw)%bind_Ok.
  destruct (state_of db a s) as [[]|]; injection Hw as <- _; try done;
    [by apply declined_set_declined|by apply declined_add].
Qed.

Lemma declined_foldl {A} (f : Profile -> A -> Profile) l db :
  (forall db a, is_declined db -> is_declined (f db a)) -> is_declined db -> is_declined (foldl f db l).
Proof. intros Hf. revert db. induction l as [|a l IH]; intros db Hd; [done|]. by apply IH, Hf. Qed.

(** A fold of fallible steps that each keep it. *)
Lemma declined_fold {A C} (f : result text (Profile * C) -> A -> result text (Profile * C)) l st :
  (forall x, f (Err x) = fun _ => Err x) ->
  (forall db c a db' c', f (Ok (db, c)) a = Ok (db', c') -> is_declined db -> is_declined db') ->
  forall db' c', foldl f st l = Ok (db', c') -> (forall db c, st = Ok (db, c) -> is_declined db) -> is_declined db'.
Proof.
  intros He Hf. revert st. induction l as [|a l IH]; intros st db' c' Hl Hs; [by eapply Hs|]. cbn in Hl.
  apply (IH _ _ _ Hl). intros db1 c1 H1. destruct st as [[db c]|e]; [|by rewrite He in H1].
  eapply Hf; [exact H1|]. by eapply Hs.
Qed.

Lemma declined_record_choice db a user origins wanted unwanted now db' c :
  record_choice sha256 db a user origins wanted unwanted now = Ok (db', c) -> is_declined db -> is_declined db'.
Proof.
  unfold record_choice. destruct (negb (account_exists db a)).
  { destruct (_ && _); [|done]. by intros [= <- _]. }
  intros Hc Hd. eapply declined_fold; [| |exact Hc|]; [done|intros *; apply declined_unwant|].
  intros db1 c1 H1. eapply declined_fold; [| |exact H1|]; [done|intros *; apply declined_want|].
  intros db2 c2 [= <- _]. apply declined_foldl; [|done]. intros db3 o. apply declined_put; [done|].
  intros _ x Hx Hp%bool_decide_eq_true. congruence.
Qed.

Lemma declined_apply_rescan db mark candidates now db' r :
  apply_rescan db mark candidates now = Ok (db', r) -> is_declined db -> is_declined db'.
Proof.
  unfold apply_rescan. destruct (may_write _ _ _ _) eqn:Em; cbn [negb]; [|by intros [= <- _]].
  intros ([db1 r1] & Hf & [= <- _])%bind_Ok Hd.
  assert (is_declined db1) as Hd1.
  { eapply declined_fold; [| |exact Hf|]; [done| |by intros db2 c2 [= <- _]].
    intros db2 c2 u db3 c3. unfold rescan_one. cbn. destruct (negb _); [by intros [= <- _]|].
    intros (s & _ & Hw)%bind_Ok Hd2. destruct (state_of db2 _ s) eqn:E; [by injection Hw as <- _|].
    apply bind_Ok in Hw as (here & _ & Hh). destruct here as [i|]; injection Hh as <- _; [|by apply declined_add].
    apply declined_mark_linked; [|done]. eapply other_key; [exact Hd2|]. by rewrite E. }
  apply declined_update; [done| |done]. intros e Hp He _. exfalso.
  apply is_entry_iff in Hp as [Ea Es]. apply is_entry_iff in He as [Ea' Es'].
  apply may_write_retry in Em. apply Em. rewrite <- Ea, <- Es, Ea', Es'. exact Hd.
Qed.

Lemma declined_before_read target s mode now db : mode = Retry \/ is_entry (t_account target) s (new_entry acct src Linked true now) = false ->
  is_declined db -> is_declined (before_read target s mode now db).1.
Proof.
  intros Hm Hd. unfold before_read. destruct (may_write _ _ _ _) eqn:Em; [|done]. cbn [negb].
  destruct (list_for_url db (t_url target)) as [[i|]|e]; [|done..]. destruct mode; [|done].
  apply declined_mark_linked; [|done]. eapply other_key; [exact Hd|]. by apply may_write_retry.
Qed.

Lemma declined_write target s name objects mode now db :
  mode = Retry \/ is_entry (t_account target) s (new_entry acct src Linked true now) = false ->
  is_declined db -> is_declined (noting_failure target s mode (write_list target s name objects mode now db)).1.
Proof.
  intros Hm Hd. assert (is_declined (write_list target s name objects mode now db).1) as Hw.
  { unfold write_list. destruct (may_write _ _ _ _) eqn:Em; [|done]. cbn [negb].
    destruct (Tasks.create_list_with_id _ _ _ _) as [[d []]|e]; [|done].
    destruct (TaskSync.reconcile _ _ _ _ _) as [d' [r|e]]; [|done]. cbn [fst]. apply declined_mark_linked; [|done].
    destruct Hm as [->|Hm]; [|done]. eapply other_key; [exact Hd|]. by apply may_write_retry. }
  destruct (write_list _ _ _ _ _ _ _) as [db' [o|e]]; [done|]. cbn in *. destruct (bool_decide _); [|done].
  by apply declined_record_failure.
Qed.

Lemma declined_decline a s now db db' keys :
  decline sha256 db a s now = Ok (db', keys) -> is_declined db -> is_declined db'.
Proof.
  unfold decline. intros Hc Hd. destruct (entry db a s) as [e|]; [|done].
  destruct (state (row e)); [| |by injection Hc as <- _|done]; injection Hc as <- _; apply declined_set_declined;
    by repeat case_match.
Qed.

Lemma declined_forget a db : a <> acct -> is_declined db -> is_declined (forget_account sha256 db a).1.
Proof.
  intros Hne Hd. unfold forget_account.
  assert (forall es st, entries_ (foldl (forget_entry sha256 a) st es).1 = entries_ st.1) as Hes.
  { induction es as [|e es IH]; intros [db0 keys]; [done|]. cbn [foldl]. rewrite IH. unfold forget_entry. by repeat case_match. }
  specialize (Hes (select_entries (fun e => bool_decide (account e = a)) db) (db, [])).
  destruct (foldl _ _ _) as [db1 keys]. cbn [fst] in *.
  destruct (declined_row db Hd) as (x & Hx & Hs). unfold is_declined, state_of.
  change (entries_ (db1 <| entries_ := ?t |>)) with t. cbn. unfold constant. rewrite Hes.
  enough (query_row (is_entry acct src) (delete_where (fun e => bool_decide (account e = a)) (entries_ db)) = Some x) as ->
    by (cbn; by rewrite Hs).
  unfold query_row, select, delete_where in *. rewrite list_filter_filter. rewrite <- Hx. f_equal.
  apply filter_ext_in. intros e _. rewrite is_entry_iff. split; [tauto|]. intros [Ea Es]. split; [by split|].
  apply bool_decide_eq_false. congruence.
Qed.

Lemma declined_migrate db now : is_declined db -> is_declined (migrate ews_url_of db now).
Proof.
  intros Hd. unfold migrate. apply declined_foldl.
  - intros db1 c Hd1. unfold migrate_calendar. destruct (_ && _); [|done]. destruct (Dav.origin_of _); [|done]. by apply declined_keep.
  - apply declined_foldl; [|done]. intros db1 a0 Hd1. unfold migrate_account. destruct (is_nil _); [done|].
    destruct (head _); by apply declined_keep.
Qed.

(** Everything else that happens: to this entry, all but the person asking
    for its list by hand and its account being removed. *)
Inductive step (db : Profile) : Profile -> Prop :=
| did_add_exchange a now : step db (add_exchange db a now)
| did_fail a s why : step db (record_failure db a s why)
| did_acknowledge a s db' : acknowledge db a s = Ok db' -> step db db'
| did_decline a s now db' keys : decline sha256 db a s now = Ok (db', keys) -> step db db'
| did_delete_list i now db' : delete_list db i now = Ok db' -> step db db'
| did_forget a : a <> acct -> step db (forget_account sha256 db a).1
| did_before_read target s mode now :
    mode = Retry \/ is_entry (t_account target) s (new_entry acct src Linked true now) = false ->
    step db (before_read target s mode now db).1
| did_write target s name objects mode now :
    mode = Retry \/ is_entry (t_account target) s (new_entry acct src Linked true now) = false ->
    step db (noting_failure target s mode (write_list target s name objects mode now db)).1
| did_choose a user origins wanted unwanted now db' c :
    record_choice sha256 db a user origins wanted unwanted now = Ok (db', c) -> step db db'
| did_rescan mark candidates now db' r : apply_rescan db mark candidates now = Ok (db', r) -> step db db'
| did_migrate now : step db (migrate ews_url_of db now)
| did_tasks d : step db (db <| tdb := d |>)
| did_accounts l : step db (db <| accounts := l |>)
| did_calendars l : step db (db <| calendars := l |>).

Lemma declined_step db db' : step db db' -> is_declined db -> is_declined db'.
Proof.
  destruct 1 as [a now|a s why|a s db' E|a s now db' keys E|i now db' E|a Hne|target s mode now Hm|target s name objects mode now Hm
    |a user os ws us now db' c E|mark cs now db' r E|now|d|l|l]; intros Hd; try done.
  - by apply declined_keep.
  - by apply declined_record_failure.
  - unfold acknowledge in E. destruct (Nat.eqb _ _); [done|]. injection E as <-. by apply declined_update.
  - by eapply declined_decline.
  - unfold delete_list in E. destruct (bool_decide _); [done|]. injection E as <-. apply declined_tdb. by apply declined_update.
  - by apply declined_forget.
  - by apply declined_before_read.
  - by apply declined_write.
  - by eapply declined_record_choice.
  - by eapply declined_apply_rescan.
  - by apply declined_migrate.
Qed.

Lemma declined_steps db db' : rtc step db db' -> is_declined db -> is_declined db'.
Proof. induction 1 as [|a b c Hab _ IH]; [done|]. intros Hd. by apply IH, (declined_step a). Qed.

(** *** A read on its own *)

(** The tables, and what was asked of the network and the keychain. *)
Record World := { profile : Profile; asked : list text }.

Definition does X (e : Ev X) : World -> World -> X -> Prop :=
  match e in Ev X return World -> World -> X -> Prop with
  | FetchTodos c => fun w w' _ => exists db, rtc step (profile w) db /\ w' = {| profile := db; asked := c :: asked w |}
  | CollectionName c => fun w w' _ => exists db, rtc step (profile w) db /\ w' = {| profile := db; asked := c :: asked w |}
  | KeepPassword => fun w w' _ => exists db, rtc step (profile w) db /\ w' = {| profile := db; asked := lit "password" :: asked w |}
  | WithDb f => fun w w' x => exists db, rtc step (profile w) db /\
      w' = {| profile := (f db).1; asked := asked w |} /\ x = (f db).2
  end.

Definition untouched (log : list text) (w : World) : Prop := is_declined (profile w) /\ asked w = log.

Lemma declined_may_write db : is_declined db -> may_write db acct src Retry = false.
Proof. unfold is_declined, may_write. intros ->. by rewrite andb_false_r. Qed.

Lemma declined_read target now log w : t_account target = acct -> collection_source (t_url target) = Ok src ->
  untouched log w ->
  ensures does (untouched log) (link_collection target Retry now) (fun r w' => r = Ok Discarded /\ untouched log w') w.
Proof.
  intros Ht Hs [Hd Ha]. unfold link_collection. rewrite Hs. apply ensures_bind.
  intros w' x (db & Hr & -> & ->). pose proof (declined_steps _ _ Hr Hd) as Hd'.
  unfold before_read. rewrite Ht, declined_may_write by done. cbn. by split_and!.
Qed.

(** An entry the person declined stays declined through everything
    else that happens, in any order, short of asking for that list by hand
    or removing its account: choosing again in the dialog, listing the
    server again, the upgrade, reads that were under way.  A read of it on
    its own asks nothing of the network nor of the keychain and changes
    nothing; and a read that ends after the entry was declined, or the
    account removed, writes nothing. *)
Theorem declined_stays_declined db : is_declined db ->
  (forall db', rtc step db db' -> is_declined db') /\
  (forall target now log w' o, t_account target = acct -> collection_source (t_url target) = Ok src ->
     runs does (link_collection target Retry now) {| profile := db; asked := log |} w' o ->
     is_declined (profile w') /\ asked w' = log /\ (forall r, o = Some r -> r = Ok Discarded)) /\
  (forall target name objects now db', t_account target = acct -> rtc step db db' ->
     noting_failure target src Retry (write_list target src name objects Retry now db') = (db', Ok Discarded)).
Proof.
  intros Hd. split; [|split].
  - intros db' Hr. by apply (declined_steps db).
  - intros target now log w' o Ht Hs Hr. assert (untouched log {| profile := db; asked := log |}) as Hu by done.
    pose proof (declined_read target now log _ Ht Hs Hu) as He. destruct o as [r|].
    + destruct (ensures_end _ _ _ _ _ _ _ He Hr) as [-> [Hd' Ha']]. split_and!; [done|done|]. by intros r' [= <-].
    + destruct (ensures_stop _ _ _ _ _ _ Hu He Hr) as [Hd' Ha']. by split_and!.
  - intros target name objects now db' Ht Hr. unfold write_list. rewrite Ht, declined_may_write; [done|].
    by apply (declined_steps db).
Qed.
End Declined.

(** ** Two accounts and one list *)

Section Shared.
Context `{Urls} (sha256 : text -> list Z).

Lemma forget_drops acct es st i :
  (Tasks.list_exists (tdb st.1) i = false \/ exists e, e ∈ es /\ kind e = lit "caldav" /\ state (row e) = Linked /\
     adopted (row e) = false /\ list_id (row e) = i /\ i <> []) ->
  Tasks.list_exists (tdb (foldl (forget_entry sha256 acct) st es).1) i = false.
Proof.
  revert st. induction es as [|x es IH]; intros [db keys] Hi; cbn [foldl].
  - destruct Hi as [|(e & He & _)]; [done|]. by apply not_elem_of_nil in He.
  - apply IH. assert (forall j, Tasks.list_exists (tdb (drop_list j db)) i = Tasks.list_exists (tdb db) i && negb (bool_decide (i = j))) as Hdrop.
    { intros j. apply eq_true_iff_eq. unfold Tasks.list_exists. rewrite existsb_elem, andb_true_iff, existsb_elem.
      setoid_rewrite (elem_of_delete_where (Tasks.is_list j) (Tasks.lists (tdb db))). unfold Tasks.is_list.
      setoid_rewrite bool_decide_eq_true. setoid_rewrite bool_decide_eq_false. rewrite negb_true_iff, bool_decide_eq_false. naive_solver. }
    destruct Hi as [Hi|(e & [->|He]%elem_of_cons & Hk & Hs & Ha & Hl & Hn)].
    + left. cbn [fst] in Hi. unfold forget_entry. repeat case_match; try done. cbn [fst]. by rewrite Hdrop, Hi.
    + left. unfold forget_entry. rewrite Hk, bool_decide_eq_true_2 by done. cbn [negb].
      unfold in_state. rewrite Hs, Ha, bool_decide_eq_true_2 by done. cbn [negb andb].
      destruct (is_nil (list_id (row x))) eqn:E; [apply is_nil_true in E; congruence|]. cbn [negb fst].
      by rewrite Hdrop, bool_decide_eq_true_2, andb_false_r.
    + right. by exists e.
Qed.

(** Where an account has adopted the list another account brought, the
    list goes when that one is removed: the entry of the account that stays
    is still linked, to a list that is no longer there, and on its own it is
    never read again. *)
Theorem a_shared_list_goes_with_one_account db a b s i ea eb : a <> b ->
  ea ∈ entries_ db -> account ea = a -> is_collection (source ea) = true -> state ea = Linked -> adopted ea = false ->
  list_id ea = i -> i <> [] ->
  query_row (is_entry b s) (entries_ db) = Some eb -> state eb = Linked -> list_id eb = i ->
  let db' := (forget_account sha256 db a).1 in
  Tasks.list_exists (tdb db') i = false /\
  query_row (is_entry b s) (entries_ db') = Some eb /\ may_write db' b s Retry = false.
Proof.
  intros Hne Hea Ha Hcol Hst Had Hl Hi Heb Hsb Hlb db'.
  assert (entries_ db' = delete_where (fun e => bool_decide (account e = a)) (entries_ db) /\ Tasks.list_exists (tdb db') i = false) as [He Hex].
  { unfold db', forget_account.
    pose proof (forget_drops a (select_entries (fun e => bool_decide (account e = a)) db) (db, []) i) as Hd.
    assert (forall es st, entries_ (foldl (forget_entry sha256 a) st es).1 = entries_ st.1) as Hes.
    { induction es as [|e es IH]; intros [db0 keys]; [done|]. cbn [foldl]. rewrite IH. unfold forget_entry. by repeat case_match. }
    specialize (Hes (select_entries (fun e => bool_decide (account e = a)) db) (db, [])).
    destruct (foldl _ _ _) as [db1 keys]. cbn [fst] in *. split; [change (delete_where (fun e => bool_decide (account e = a)) (entries_ db1) = delete_where (fun e => bool_decide (account e = a)) (entries_ db)); by rewrite Hes|].
    apply Hd. right. exists (entry_from ea). unfold is_collection in Hcol.
    assert (row (entry_from ea) = ea /\ kind (entry_from ea) = lit "caldav") as [Er Ek].
    { unfold entry_from. by destruct (parse_source (source ea)) as [[]|]. }
    rewrite Er, Ek. split_and!; try done. apply list_elem_of_fmap. exists ea. split; [done|].
    rewrite order_by_perm. apply elem_of_select. split; [done|]. by apply bool_decide_eq_true. }
  assert (query_row (is_entry b s) (entries_ db') = Some eb) as Hq.
  { rewrite He. unfold query_row, select, delete_where in *. rewrite list_filter_filter. rewrite <- Heb. f_equal.
    apply filter_ext_in. intros e _. rewrite is_entry_iff. split; [tauto|]. intros [Ea Es]. split; [by split|].
    apply bool_decide_eq_false. congruence. }
  split; [done|]. split; [done|]. unfold may_write, state_of. rewrite Hq. cbn. rewrite Hsb. by rewrite andb_false_r.
Qed.
End Shared.

(** ** Addresses in one form *)

(** Every [%] begins an escape. *)
Fixpoint escapes_well (s : text) : bool :=
  match s with
  | [] => true
  | c :: rest =>
      if c =? 37 then
        match rest with
        | h :: l :: rest' => bool_decide (is_Some (hex h)) && bool_decide (is_Some (hex l)) && escapes_well rest'
        | _ => false
        end
      else escapes_well rest
  end.

Lemma hex_range c v : hex c = Some v -> 0 <= v < 16.
Proof.
  unfold hex, is_ascii_digit. destruct ((48 <=? c) && (c <=? 57)) eqn:E1; [intros [= <-]; bools in E1; lia|].
  destruct ((65 <=? c) && (c <=? 70)) eqn:E2; [intros [= <-]; bools in E2; lia|].
  destruct ((97 <=? c) && (c <=? 102)) eqn:E3; [intros [= <-]; bools in E3; lia|done].
Qed.

Lemma hex_upper d : 0 <= d < 16 -> hex (upper_hex_digit d) = Some d.
Proof.
  intros Hd. unfold hex, upper_hex_digit, is_ascii_digit. destruct (Z.ltb_spec d 10).
  - assert ((48 <=? 48 + d) && (48 + d <=? 57) = true) as -> by (bools; lia). f_equal. lia.
  - assert ((48 <=? 55 + d) && (55 + d <=? 57) = false) as -> by (bools; lia).
    assert ((65 <=? 55 + d) && (55 + d <=? 70) = true) as -> by (bools; lia). f_equal. lia.
Qed.

(** An escape in its normal form is left as it is. *)
Lemma normal_escape_normal v rest : 0 <= v < 256 ->
  normalize_percent (normal_escape v ++ rest) = normal_escape v ++ normalize_percent rest.
Proof.
  intros Hv. unfold normal_escape. destruct (unreserved v) eqn:E.
  - cbn [app normalize_percent]. destruct (Z.eqb_spec v 37) as [->|]; [discriminate E|]. by destruct rest.
  - pose proof (Z.div_mod v 16 ltac:(lia)). pose proof (Z.mod_pos_bound v 16 ltac:(lia)).
    assert (0 <= v / 16 < 16) by (split; [apply Z.div_pos|apply Z.div_lt_upper_bound]; lia).
    cbn [app normalize_percent]. rewrite Z.eqb_refl, !hex_upper by lia.
    assert (v / 16 * 16 + v mod 16 = v) as -> by lia. unfold normal_escape. by rewrite E.
Qed.

(** An address whose escapes are well formed is normal once normalized. *)
Lemma normalize_percent_idempotent s : escapes_well s = true ->
  normalize_percent (normalize_percent s) = normalize_percent s.
Proof.
  remember (length s) as n eqn:Hn. revert s Hn. induction n as [n IH] using lt_wf_ind. intros [|c rest] Hn Hs; [done|].
  cbn [escapes_well] in Hs. cbn [normalize_percent] in *. destruct (Z.eqb_spec c 37) as [->|Hc].
  - destruct rest as [|h [|l rest']]; [done|done|]. bools in Hs. destruct Hs as [[[hi Hh] [lo Hl]] Hs].
    rewrite Hh, Hl. pose proof (hex_range h hi Hh). pose proof (hex_range l lo Hl).
    rewrite normal_escape_normal by lia. f_equal. apply (IH (length rest')); [cbn in Hn; lia|done|done].
  - transitivity (c :: normalize_percent (normalize_percent rest)).
    + cbn [normalize_percent]. apply Z.eqb_neq in Hc. rewrite Hc. by destruct (normalize_percent rest).
    + f_equal. apply (IH (length rest)); [cbn in Hn; lia|done|done].
Qed.

(** One that is not may take another form when normalized again. *)
Example a_broken_escape_heals : normalize_percent (lit "/%4%31") = lit "/%41" /\ normalize_percent (lit "/%41") = lit "/A".
Proof. split; reflexivity. Qed.

(** ** Instances *)

#[local] Existing Instance TaskSyncDemo.addresses.
#[local] Existing Instance TaskSyncDemo.titles.

Module Demo.

Definition digest (s : text) : list Z := take 16 s.
Definition work : text := lit "https://s.org/tasks/".
Definition collection_entry : text := COLLECTION ++ work.

(** Two accounts with a calendar server between them. *)
Definition start : Profile :=
  {| tdb := TaskLaws.fresh; entries_ := []; accounts := [{| a_id := lit "ana"; a_config := None |}; {| a_id := lit "bru"; a_config := None |}];
     calendars := [] |}.

Definition chosen (who : text) (db : Profile) : Profile :=
  unwrap_or db (fst <$> ok (record_choice digest db who (lit "me") [lit "https://s.org"] [work] [] 5)).

Definition waits : Profile := chosen (lit "ana") start.
Definition refused : Profile := unwrap_or waits (fst <$> ok (decline digest waits (lit "ana") collection_entry 6)).

Definition target : Collection := {| t_account := lit "ana"; t_url := work; t_username := lit "me"; t_list_id := lit "list:1" |}.

(** A server with one task, and a person who meanwhile does [during]. *)
Definition serves (during : Profile -> Profile) X (e : Ev X) : Profile -> Profile * X :=
  match e in Ev X return Profile -> Profile * X with
  | FetchTodos c => fun db => (during db, Ok (TaskSyncDemo.holding (lit "Bread")))
  | CollectionName c => fun db => (db, lit "Work")
  | KeepPassword => fun db => (db, Ok tt)
  | WithDb f => f
  end.

Definition with_ana : Profile := (exec (serves (fun db => db)) (link_collection target Retry 8) waits).1.
Definition with_both : Profile := chosen (lit "bru") with_ana.

Definition ana_entry : EntryRow := unwrap_or (new_entry [] [] Pending true 0) (query_row (is_entry (lit "ana") collection_entry) (entries_ with_both)).
Definition bru_entry : EntryRow := unwrap_or (new_entry [] [] Pending true 0) (query_row (is_entry (lit "bru") collection_entry) (entries_ with_both)).

(** The person links the same collection by hand while it is being read. *)
Definition by_hand (db : Profile) : Profile :=
  db <| tdb := unwrap_or (tdb db) (fst <$> ok (TaskSync.add_list (tdb db) (fun _ => lit "Tasks") (lit "2") (lit "Mine") work [] (lit "me") 7)) |>.
End Demo.

Lemma declined_stays_declined_witness :
  is_declined (lit "ana") Demo.collection_entry Demo.refused /\
  is_declined (lit "ana") Demo.collection_entry (Demo.chosen (lit "ana") Demo.refused) /\
  (exec (Demo.serves (fun db => db)) (link_collection Demo.target Retry 9) Demo.refused).2 = Ok Discarded.
Proof.
  assert (is_declined (lit "ana") Demo.collection_entry Demo.refused) as Hd by (vm_compute; reflexivity).
  split; [exact Hd|]. split; [|vm_compute; reflexivity].
  destruct (declined_stays_declined Demo.digest (fun _ => None) (lit "ana") Demo.collection_entry Demo.refused Hd) as (Hall & _).
  apply Hall, rtc_once.
  apply (did_choose _ _ _ _ _ (lit "ana") (lit "me") [lit "https://s.org"] [Demo.work] [] 5 _
    (unwrap_or no_choice (snd <$> ok (record_choice Demo.digest Demo.refused (lit "ana") (lit "me") [lit "https://s.org"] [Demo.work] [] 5)))).
  vm_compute. reflexivity.
Defined.

Lemma a_shared_list_goes_with_one_account_witness :
  let db' := (forget_account Demo.digest Demo.with_both (lit "ana")).1 in
  Tasks.list_exists (tdb Demo.with_both) (lit "list:1") = true /\ Tasks.list_exists (tdb db') (lit "list:1") = false /\
  state_of db' (lit "bru") Demo.collection_entry = Some Linked.
Proof.
  assert (query_row (is_entry (lit "ana") Demo.collection_entry) (entries_ Demo.with_both) = Some Demo.ana_entry) as Ha by (vm_compute; reflexivity).
  assert (query_row (is_entry (lit "bru") Demo.collection_entry) (entries_ Demo.with_both) = Some Demo.bru_entry) as Hb by (vm_compute; reflexivity).
  destruct (a_shared_list_goes_with_one_account Demo.digest Demo.with_both (lit "ana") (lit "bru") Demo.collection_entry
    (lit "list:1") Demo.ana_entry Demo.bru_entry) as (Hex & Hq & _).
  - discriminate.
  - by apply query_row_Some in Ha as [Ha _].
  - vm_compute. reflexivity.
  - vm_compute. reflexivity.
  - vm_compute. reflexivity.
  - vm_compute. reflexivity.
  - vm_compute. reflexivity.
  - discriminate.
  - exact Hb.
  - vm_compute. reflexivity.
  - vm_compute. reflexivity.
  - split; [vm_compute; reflexivity|]. split; [exact Hex|]. unfold state_of. rewrite Hq. vm_compute. reflexivity.
Defined.

(** A list made by hand while the collection is being read is doubled. *)
Example a_list_made_meanwhile_is_doubled :
  Tasks.remote_url <$> Tasks.lists (tdb (exec (Demo.serves Demo.by_hand) (link_collection Demo.target Retry 8) Demo.waits).1)
  = [[]; Demo.work; Demo.work].
Proof. vm_compute. reflexivity. Qed.
End AccountListLaws.
