(* ===== verification/SecretsMigration.v ===== *)
(** * Moving secrets from one keychain service to another

    Models [meron-core/src/secrets_migration.rs]: every secret is written
    under the service [oreneta]; one found only under the inherited [meron] is
    copied, read back, compared, and only then deleted there.  The routines
    are programs whose calls are those of the trait [CredentialStore], the
    log, and what this run knows of an entry (the map [legacy]).

    One routine at a time works on an entry: the code takes the entry's lock
    first.  So a process is a sequence of routines, each of which may be cut
    short when the process ends. *)
From S2P Require Import Prelude.
From S2P Require Import Text.
From S2P Require Import Program.

Module SecretsMigration.

(** The two services, [SERVICE] and [LEGACY_SERVICE]. *)
Inductive Service := Oreneta | Meron.
#[global] Instance Service_eq_dec : EqDecision Service.
Proof. solve_decision. Defined.
#[global] Instance Service_countable : Countable Service.
Proof.
  refine (inj_countable' (fun s => match s with Oreneta => true | Meron => false end)
                         (fun b : bool => if b then Oreneta else Meron) _).
  by intros [].
Defined.

Definition SERVICE : Service := Oreneta.
Definition LEGACY_SERVICE : Service := Meron.

Definition service_name (s : Service) : text :=
  match s with Oreneta => lit "oreneta" | Meron => lit "meron" end.

(** What this run knows about an entry's legacy copy. *)
Inductive Legacy := Gone | Deferred | Held | Unverified.
#[global] Instance Legacy_eq_dec : EqDecision Legacy.
Proof. solve_decision. Defined.

(** What one call did about it; [Outcome::Deferred] is [Kept] here. *)
Inductive Outcome := Moved | Kept.
#[global] Instance Outcome_eq_dec : EqDecision Outcome.
Proof. solve_decision. Defined.

Record Summary := { checked : nat; moved : nat; deferred : nat; unreadable : nat }.

Inductive Mismatch := Damaged (why : text) | Unreadable (error : text).

Definition reason (m : Mismatch) : text :=
  match m with Damaged why => why | Unreadable error => error end.

Inductive Level := Info | Warn | Error.

Inductive Ev : Type -> Type :=
| Read (s : Service) (key : text) : Ev (result text (option text))
| Write (s : Service) (key blob : text) : Ev (result text unit)
| Delete (s : Service) (key : text) : Ev (result text unit)
| Log (l : Level) (line : text) : Ev unit
| Known (key : text) : Ev (option Legacy)
| Settle (key : text) (state : Legacy) : Ev unit
| Mint : Ev text.

Notation log l m := (call (Log l m)).

(** [error.with_context(c)], printed with [{:#}]. *)
Definition with_context {A} (c : text) (r : result text A) : result text A :=
  match r with Ok a => Ok a | Err e => Err (c ++ lit ": " ++ e) end.

Definition the_entry (s : Service) (key : text) : text := lit "the " ++ service_name s ++ lit " entry " ++ key.
Definition reading (key : text) : text := lit "read " ++ the_entry LEGACY_SERVICE key.
Definition deleting (key : text) : text := lit "delete " ++ the_entry LEGACY_SERVICE key.

(** The lines of the log, by what happened. *)
Definition not_deleted (key e : text) : text :=
  the_entry SERVICE key ++ lit " is in place but the meron one could not be deleted; tried again on the next start: " ++ e.
Definition differ (key : text) : text :=
  lit "the meron and oreneta entries " ++ key ++ lit " differ; the oreneta one is used and the meron one is kept, not deleted".
Definition not_checked (key e : text) : text :=
  lit "could not check for a meron entry " ++ key ++ lit "; it is looked at again on the next start: " ++ e.
Definition not_written (key e : text) : text :=
  lit "could not write " ++ the_entry SERVICE key ++
  lit "; the meron entry is kept and the move is tried again on the next start: " ++ e.
Definition copy_differs (key why : text) : text :=
  lit "the oreneta copy of " ++ key ++ lit " did not read back as written (" ++ why ++
  lit "); the meron entry is kept and the move is tried again on the next start".
Definition copy_stays (key e : text) : text :=
  lit "could not remove the unverified oreneta copy of " ++ key ++
  lit "; the meron entry is served first for the rest of this run: " ++ e.
Definition moved_line (key : text) : text :=
  lit "moved " ++ key ++ lit " from the meron to the oreneta keychain service".
Definition not_read (key e : text) : text :=
  lit "could not read the meron entry " ++ key ++ lit "; it is not moved until the next start: " ++ e.
Definition did_not_read_back (key why : text) : text :=
  the_entry SERVICE key ++ lit " did not read back as written (" ++ why ++ lit ")".
Definition store_differs (key why : text) : text :=
  did_not_read_back key why ++ lit "; the meron entry is kept until the next start".
Definition damaged_stays (key e : text) : text :=
  lit "could not remove the damaged oreneta entry " ++ key ++
  lit "; the meron entry is served first for the rest of this run: " ++ e.
Definition malformed_key (key : text) : text :=
  the_entry SERVICE key ++ lit " is malformed; the meron one is used and copied over it".
Definition not_repaired (key e : text) : text :=
  lit "could not repair " ++ the_entry SERVICE key ++ lit "; the meron one is kept and used: " ++ e.
Definition not_swept (key e : text) : text :=
  lit "could not read the keychain entry " ++ key ++ lit ": " ++ e.

Definition DIFFERENT_VALUE : text := lit "it holds a different value".
Definition MISSING : text := lit "it is missing".

(** Read the entry back and compare it with what was written. *)
Definition verified (key blob : text) : prog Ev (option Mismatch) :=
  (r <- call (Read SERVICE key) ;;
  Ret match r with
  | Ok (Some copy) => if bool_decide (copy = blob) then None else Some (Damaged DIFFERENT_VALUE)
  | Ok None => Some (Damaged MISSING)
  | Err e => Some (Unreadable e)
  end)%prog.

Definition delete_legacy (key : text) : prog Ev Legacy :=
  (r <- call (Delete LEGACY_SERVICE key) ;;
  match r with
  | Ok _ => Ret Gone
  | Err e =>
      _ <- log Warn (not_deleted key e) ;;
      Ret Deferred
  end)%prog.

Definition retire (key current : text) : prog Ev Legacy :=
  (r <- call (Read LEGACY_SERVICE key) ;;
  match r with
  | Ok None => Ret Gone
  | Ok (Some legacy) =>
      if bool_decide (legacy = current) then delete_legacy key
      else
        _ <- log Warn (differ key) ;;
        Ret Deferred
  | Err e =>
      _ <- log Warn (not_checked key e) ;;
      Ret Deferred
  end)%prog.

Definition copy (key blob : text) : prog Ev Legacy :=
  (r <- call (Write SERVICE key blob) ;;
  match r with
  | Err e =>
      _ <- log Warn (not_written key e) ;;
      Ret Deferred
  | Ok _ =>
      v <- verified key blob ;;
      match v with
      | Some mismatch =>
          _ <- log Warn (copy_differs key (reason mismatch)) ;;
          d <- call (Delete SERVICE key) ;;
          match d with
          | Err e =>
              _ <- log Error (copy_stays key e) ;;
              Ret Unverified
          | Ok _ => Ret Deferred
          end
      | None =>
          state <- delete_legacy key ;;
          _ <- (if bool_decide (state = Gone)
                then log Info (moved_line key)
                else Ret tt) ;;
          Ret state
      end
  end)%prog.

(** The entry under [oreneta] is there: its legacy copy is settled, once. *)
Definition load_current (known : option Legacy) (key blob : text) : prog Ev (option Outcome) :=
  (match known with
  | Some _ => Ret None
  | None =>
      state <- retire key blob ;;
      _ <- call (Settle key state) ;;
      Ret (if bool_decide (state = Gone) then None else Some Kept)
  end)%prog.

(** It is not there: the legacy one is served, and moved on the first look. *)
Definition load_legacy (known : option Legacy) (key : text) : prog Ev (result text (option text * option Outcome)) :=
  (r <- call (Read LEGACY_SERVICE key) ;;
  match r with
  | Err e =>
      _ <- match known with
           | None =>
               _ <- log Warn (not_read key e) ;;
               call (Settle key Deferred)
           | Some _ => Ret tt
           end ;;
      Ret (with_context (reading key) (Err e))
  | Ok None => _ <- call (Settle key Gone) ;; Ret (Ok (None, None))
  | Ok (Some blob) =>
      match known with
      | Some _ => Ret (Ok (Some blob, None))
      | None =>
          state <- copy key blob ;;
          _ <- call (Settle key state) ;;
          Ret (Ok (Some blob, Some (if bool_decide (state = Gone) then Moved else Kept)))
      end
  end)%prog.

Definition load_reporting (key : text) : prog Ev (result text (option text * option Outcome)) :=
  (known <- call (Known key) ;;
  first <-? (if bool_decide (known = Some Unverified)
             then r <- call (Read LEGACY_SERVICE key) ;; Ret (with_context (reading key) r)
             else Ret (Ok None)) ;;
  match first with
  | Some blob => Ret (Ok (Some blob, None))
  | None =>
      current <-? call (Read SERVICE key) ;;
      match current with
      | Some blob => outcome <- load_current known key blob ;; Ret (Ok (Some blob, outcome))
      | None => if bool_decide (known = Some Gone) then Ret (Ok (None, None)) else load_legacy known key
      end
  end)%prog.

Definition load (key : text) : prog Ev (result text (option text)) :=
  (r <-? load_reporting key ;; Ret (Ok r.1))%prog.

(** What [store] does about a legacy copy it found. *)
Definition store_over (key blob : text) : prog Ev (result text unit) :=
  (v <- verified key blob ;;
  match v with
  | None =>
      state <- delete_legacy key ;;
      _ <- call (Settle key (if bool_decide (state = Gone) then Gone else Held)) ;; Ret (Ok tt)
  | Some mismatch =>
      _ <- log Warn (store_differs key (reason mismatch)) ;;
      match mismatch with
      | Unreadable _ => _ <- call (Settle key Held) ;; Ret (Ok tt)
      | Damaged why =>
          d <- call (Delete SERVICE key) ;;
          state <- match d with
                   | Ok _ => Ret Held
                   | Err e =>
                       _ <- log Error (damaged_stays key e) ;;
                       Ret Unverified
                   end ;;
          _ <- call (Settle key state) ;;
          Ret (Err (did_not_read_back key why))
      end
  end)%prog.

Definition store (key blob : text) : prog Ev (result text unit) :=
  (_ <-? call (Write SERVICE key blob) ;;
  known <- call (Known key) ;;
  if bool_decide (known = Some Gone) || bool_decide (known = Some Held) then Ret (Ok tt)
  else
    r <- call (Read LEGACY_SERVICE key) ;;
    match r with
    | Ok None => _ <- call (Settle key Gone) ;; Ret (Ok tt)
    | Ok (Some _) => store_over key blob
    | Err e =>
        _ <- log Warn (not_checked key e) ;;
        _ <- call (Settle key Held) ;; Ret (Ok tt)
    end)%prog.

Definition delete (key : text) : prog Ev (result text unit) :=
  (r <- call (Delete LEGACY_SERVICE key) ;;
  match r with
  | Err e => Ret (with_context (deleting key) (Err e))
  | Ok _ => _ <- call (Settle key Gone) ;; call (Delete SERVICE key)
  end)%prog.

Definition mint_key (key : text) : prog Ev (result text text) :=
  (fresh <- call Mint ;; _ <-? store key fresh ;; Ret (Ok fresh))%prog.

(** No good key was served: one under [meron] is used and copied, and only
    where there is none is a new one made. *)
Definition other_key (valid : text -> bool) (key : text) (current : option text) : prog Ev (result text text) :=
  (legacy <-? match current with
             | Some _ => r <- call (Read LEGACY_SERVICE key) ;; Ret (with_context (reading key) r)
             | None => Ret (Ok None)
             end ;;
  match legacy with
  | Some good =>
      if valid good then
        _ <- log Warn (malformed_key key) ;;
        r <- store key good ;;
        _ <- match r with Err e => log Warn (not_repaired key e) | Ok _ => Ret tt end ;;
        Ret (Ok good)
      else mint_key key
  | None => mint_key key
  end)%prog.

(** The key of the store: [valid] tells a good key from a malformed one. *)
Definition db_key (valid : text -> bool) (key : text) : prog Ev (result text text) :=
  (current <-? load key ;;
  if is_some_and valid current then Ret (Ok (unwrap_or [] current)) else other_key valid key current)%prog.

(** One entry of the sweep at startup, counted. *)
Definition count (key : text) (s : Summary) : prog Ev Summary :=
  (r <- load_reporting key ;;
  match r with
  | Ok (_, Some Moved) =>
      Ret {| checked := S (checked s); moved := S (moved s); deferred := deferred s; unreadable := unreadable s |}
  | Ok (_, Some Kept) =>
      Ret {| checked := S (checked s); moved := moved s; deferred := S (deferred s); unreadable := unreadable s |}
  | Ok (_, None) =>
      Ret {| checked := S (checked s); moved := moved s; deferred := deferred s; unreadable := unreadable s |}
  | Err e =>
      _ <- log Warn (not_swept key e) ;;
      Ret {| checked := S (checked s); moved := moved s; deferred := deferred s; unreadable := S (unreadable s) |}
  end)%prog.

Definition no_summary : Summary := {| checked := 0; moved := 0; deferred := 0; unreadable := 0 |}.

Definition summary_line (s : Summary) : text :=
  lit "keychain entries checked: " ++ show_nat (checked s) ++ lit "; moved from meron to oreneta: " ++ show_nat (moved s) ++
  lit "; kept under meron until the next start: " ++ show_nat (deferred s) ++ lit "; unreadable: " ++ show_nat (unreadable s).

Definition migrate_all (keys : list text) : prog Ev Summary :=
  (s <- for_each keys no_summary count ;;
  _ <- (if bool_decide (0 < moved s + deferred s + unreadable s)%nat
        then log (if bool_decide (0 < deferred s + unreadable s)%nat then Warn else Info) (summary_line s)
        else Ret tt) ;;
  Ret s)%prog.
End SecretsMigration.

(** * What the move of the keychain entries keeps

    The routines of [SecretsMigration] against a keychain that may fail at
    any call, and in the worst case damages the entry it was writing, and a
    process that may end anywhere.  On a keychain whose failed calls change
    nothing, the two services together are one map ([keychain_is_a_map]). *)

Module SecretsLaws.
Import SecretsMigration.

(** ** A keychain and a process *)

Record World := { entries : gmap (Service * text) text; legacy : gmap text Legacy; lines : list (Level * text) }.

Definition put (s : Service) (k : text) (o : option text) (w : World) : World :=
  {| entries := partial_alter (fun _ => o) (s, k) (entries w); legacy := legacy w; lines := lines w |}.
Definition settled (k : text) (st : Legacy) (w : World) : World :=
  {| entries := entries w; legacy := <[k := st]> (legacy w); lines := lines w |}.
Definition logged (l : Level) (m : text) (w : World) : World :=
  {| entries := entries w; legacy := legacy w; lines := lines w ++ [(l, m)] |}.

(** What a call may do.  A read that succeeds tells what is there.  A write
    leaves the value written, or what was there when it fails; where the
    keychain is not [honest] it may leave anything under that entry, whatever
    it answers, and a failed deletion may have happened. *)
Definition does (honest : bool) (X : Type) (e : Ev X) : World -> World -> X -> Prop :=
  match e in Ev X return World -> World -> X -> Prop with
  | Read s k => fun w w' r => w' = w /\ forall o, r = Ok o -> o = entries w !! (s, k)
  | Write s k b => fun w w' r => exists o, w' = put s k o w /\
      (honest = true -> o = match r with Ok _ => Some b | Err _ => entries w !! (s, k) end)
  | Delete s k => fun w w' r => exists o, w' = put s k o w /\
      match r with Ok _ => o = None | Err _ => o = entries w !! (s, k) \/ (honest = false /\ o = None) end
  | Log l m => fun w w' _ => w' = logged l m w
  | Known k => fun w w' r => w' = w /\ r = legacy w !! k
  | Settle k st => fun w w' _ => w' = settled k st w
  | Mint => fun w w' _ => w' = w
  end.

(** A process that ends and starts again: what it knew is forgotten. *)
Definition restarted (w : World) : World := {| entries := entries w; legacy := empty; lines := [] |}.

(** What a keychain call of this client may be about. *)
Notation ours k w := (entries w !! (Oreneta, k)).
Notation theirs k w := (entries w !! (Meron, k)).

Lemma put_same s k o w : entries (put s k o w) !! (s, k) = o.
Proof. apply lookup_partial_alter_eq. Qed.

Lemma put_other s k o w s' k' : (s, k) <> (s', k') -> entries (put s k o w) !! (s', k') = entries w !! (s', k').
Proof. intros Hne. by apply lookup_partial_alter_ne. Qed.

Lemma put_id s k w : put s k (entries w !! (s, k)) w = w.
Proof.
  destruct w as [m g ls]. unfold put. cbn. f_equal. apply map_eq. intros [s' k'].
  destruct (decide ((s, k) = (s', k'))) as [[= <- <-]|Hne];
    [by rewrite lookup_partial_alter_eq|by rewrite lookup_partial_alter_ne].
Qed.

(** What is left of the other service, or of another entry. *)
Lemma put_service s s' k k' o w : s <> s' -> entries (put s k o w) !! (s', k') = entries w !! (s', k').
Proof. intros Hne. apply put_other. congruence. Qed.
Lemma put_key s s' k k' o w : k <> k' -> entries (put s k o w) !! (s', k') = entries w !! (s', k').
Proof. intros Hne. apply put_other. congruence. Qed.

Create HintDb kc.
#[export] Hint Rewrite put_same : kc.
#[export] Hint Rewrite put_service using discriminate : kc.
#[export] Hint Rewrite put_key using congruence : kc.

(** ** Calls of an honest or a damaging keychain *)
Section Calls.
Context (h : bool) {R : Type} (I : World -> Prop) (Q : R -> World -> Prop).

Lemma on_read s k c w : I w ->
  ensures (does h) I (c (Ok (entries w !! (s, k)))) Q w -> (forall e, ensures (does h) I (c (Err e)) Q w) ->
  ensures (does h) I (Vis (Read s k) c) Q w.
Proof.
  intros Hi Hok Herr w' x [-> Hx]. split; [done|]. destruct x as [o|e]; [|apply Herr].
  by rewrite (Hx o eq_refl).
Qed.

Lemma on_write s k b c w :
  (forall o r, (h = true -> o = match r with Ok _ => Some b | Err _ => entries w !! (s, k) end) ->
     I (put s k o w) /\ ensures (does h) I (c r) Q (put s k o w)) ->
  ensures (does h) I (Vis (Write s k b) c) Q w.
Proof. intros Hk w' x (o & -> & Ho). exact (Hk o x Ho). Qed.

Lemma on_delete s k c w :
  I (put s k None w) -> ensures (does h) I (c (Ok tt)) Q (put s k None w) ->
  (forall e, I w /\ ensures (does h) I (c (Err e)) Q w) ->
  (h = false -> forall e, ensures (does h) I (c (Err e)) Q (put s k None w)) ->
  ensures (does h) I (Vis (Delete s k) c) Q w.
Proof.
  intros Hi Hok Herr Hd w' x (o & -> & Ho). destruct x as [[]|e]; [by subst o|].
  destruct Ho as [->|[-> ->]]; [rewrite put_id; apply Herr|]. split; [done|by apply Hd].
Qed.

Lemma on_log l m c w : I (logged l m w) -> ensures (does h) I (c tt) Q (logged l m w) ->
  ensures (does h) I (Vis (Log l m) c) Q w.
Proof. intros Hi Hk w' [] ->. done. Qed.

Lemma on_known k c w : I w -> ensures (does h) I (c (legacy w !! k)) Q w ->
  ensures (does h) I (Vis (Known k) c) Q w.
Proof. intros Hi Hk w' x [-> ->]. done. Qed.

Lemma on_settle k st c w : I (settled k st w) -> ensures (does h) I (c tt) Q (settled k st w) ->
  ensures (does h) I (Vis (Settle k st) c) Q w.
Proof. intros Hi Hk w' [] ->. done. Qed.

Lemma on_mint c w : I w -> (forall t, ensures (does h) I (c t) Q w) -> ensures (does h) I (Vis Mint c) Q w.
Proof. intros Hi Hk w' x ->. done. Qed.
End Calls.

(** The next call of the routine, with what it may answer. *)
Lemma entries_settled k st w : entries (settled k st w) = entries w.
Proof. done. Qed.
Lemma entries_logged l m w : entries (logged l m w) = entries w.
Proof. done. Qed.
#[export] Hint Rewrite entries_settled entries_logged : kc.

Ltac norm := unfold call;
  cbn [prog_bind call and_then with_context fst snd is_some_and unwrap_or orb andb];
  unfold SERVICE, LEGACY_SERVICE; autorewrite with kc.
Ltac look :=
  match goal with
  | |- context [bool_decide ?P] => case_bool_decide; simplify_eq
  | |- context [match entries ?w !! ?sk with _ => _ end] => is_var w; destruct (entries w !! sk) as [?b|] eqn:?
  | |- context [match legacy ?w !! ?k with _ => _ end] => is_var w; destruct (legacy w !! k) as [[]|] eqn:?
  | |- context [match ?r with Ok _ => _ | Err _ => _ end] => is_var r; destruct r as [[]|?]
  | |- context [match ?o with Some _ => _ | None => _ end] => is_var o; destruct o as [?b|]
  end; norm.
Ltac next :=
  match goal with
  | |- ensures _ _ (Vis (Read _ _) _) _ _ => apply on_read; [|norm|intros ?; norm]
  | |- ensures _ _ (Vis (Write _ _ _) _) _ _ => apply on_write; intros ?o ?r ?Hw; split; norm
  | |- ensures _ _ (Vis (Delete _ _) _) _ _ => apply on_delete; [|norm|intros ?; split; norm|intros ? ?; norm]
  | |- ensures _ _ (Vis (Log _ _) _) _ _ => apply on_log; [|norm]
  | |- ensures _ _ (Vis (Known _) _) _ _ => apply on_known; [|norm]
  | |- ensures _ _ (Vis (Settle _ _) _) _ _ => apply on_settle; [|norm]
  | |- ensures _ _ (Vis Mint _) _ _ => apply on_mint; [|intros ?; norm]
  end.
Ltac follow leaf := norm; repeat first [next | progress look]; leaf.

(** ** What a routine leaves of an entry *)

(** Other entries are left alone. *)
Definition elsewhere (k : text) (w w' : World) : Prop :=
  forall k', k' <> k ->
    (forall s, entries w' !! (s, k') = entries w !! (s, k')) /\ legacy w' !! k' = legacy w !! k'.

Lemma elsewhere_trans k w1 w2 w3 : elsewhere k w1 w2 -> elsewhere k w2 w3 -> elsewhere k w1 w3.
Proof.
  intros H1 H2 k' Hne. destruct (H1 k' Hne) as [E1 L1], (H2 k' Hne) as [E2 L2].
  split; [intros s; by rewrite E2, E1|by rewrite L2, L1].
Qed.

Lemma legacy_put s k o w : legacy (put s k o w) = legacy w.
Proof. done. Qed.
Lemma legacy_logged l m w : legacy (logged l m w) = legacy w.
Proof. done. Qed.
Lemma legacy_settled k st w : legacy (settled k st w) !! k = Some st.
Proof. apply lookup_insert_eq. Qed.
Lemma legacy_settled_ne k k' st w : k' <> k -> legacy (settled k st w) !! k' = legacy w !! k'.
Proof. intros Hne. by apply lookup_insert_ne. Qed.
#[export] Hint Rewrite legacy_put legacy_logged legacy_settled : kc.
#[export] Hint Rewrite legacy_settled_ne using congruence : kc.

(** Reading keeps what is under [oreneta], and what is under [meron] in one
    of the two places. *)
Record kept (k : text) (w w' : World) : Prop := {
  kept_elsewhere : elsewhere k w w';
  kept_ours b : ours k w = Some b -> ours k w' = Some b;
  kept_theirs b : theirs k w = Some b -> theirs k w' = Some b \/ ours k w' = Some b;
  kept_legacy : theirs k w' = theirs k w \/ theirs k w' = None;
}.

Ltac leave := cbn [ensures]; unfold elsewhere; repeat (split || intros); autorewrite with kc; first [congruence | intuition congruence].

Lemma load_keeps h k w : ensures (does h) (kept k w) (load_reporting k) (fun _ => kept k w) w.
Proof.
  unfold load_reporting, load_current, load_legacy, retire, copy, delete_legacy, verified.
  follow leave.
Qed.

(** A store leaves the legacy value until its own is read back. *)
Record replaced (k b : text) (w w' : World) : Prop := {
  replaced_elsewhere : elsewhere k w w';
  replaced_theirs v : theirs k w = Some v -> theirs k w' = Some v \/ ours k w' = Some b;
}.

Lemma store_keeps h k b w : ensures (does h) (replaced k b w) (store k b) (fun _ => replaced k b w) w.
Proof. unfold store, store_over, delete_legacy, verified. follow leave. Qed.

(** ** What a routine answers *)

(** What an entry reads as when nothing fails: [oreneta] first. *)
Definition view (w : World) (k : text) : option text :=
  match ours k w with Some b => Some b | None => theirs k w end.

(** Nothing is under [meron] that this run says is gone. *)
Definition told (k : text) (w : World) : Prop := legacy w !! k = Some Gone -> theirs k w = None.

(** What is served: the legacy entry first where a damaged copy stayed. *)
Definition served (w : World) (k : text) : option text :=
  if bool_decide (legacy w !! k = Some Unverified)
  then match theirs k w with Some b => Some b | None => ours k w end
  else view w k.

(** Whatever the keychain does, what [load] answers was there. *)
Lemma load_serves h k w : told k w ->
  ensures (does h) (fun _ => True) (load_reporting k)
    (fun r _ => forall x oc, r = Ok (x, oc) -> x = served w k) w.
Proof.
  unfold told, load_reporting, load_current, load_legacy, retire, copy, delete_legacy, verified, served, view.
  intros Hg.
  follow ltac:(try done; cbn [ensures]; intros ? ? [= <- <-]; autorewrite with kc in *; intuition congruence).
Qed.

Lemma load_answers h k w : told k w ->
  ensures (does h) (kept k w) (load k) (fun r w' => kept k w w' /\ forall x, r = Ok x -> x = served w k) w.
Proof.
  intros Hg. apply ensures_bind.
  eapply ensures_mono_inv, ensures_mono, (ensures_and _ _ (fun _ => True) _ _ _ _ (load_keeps h k w) (load_serves h k w Hg)).
  { by intros w' [Hk _]. }
  intros [[x oc]|e] w' [Hk Hx]; (split; [done|]); [|done]. intros y [= <-]. exact (Hx x oc eq_refl).
Qed.

(** No routine says of an entry that it is gone while it is there. *)
Definition all_told (w : World) : Prop := forall k, told k w.

Lemma told_put_none k w : all_told w -> all_told (put Meron k None w).
Proof.
  intros Ht k'. unfold told. rewrite legacy_put. intros E. specialize (Ht k' E).
  destruct (decide (k' = k)) as [->|Hne]; [apply put_same|by rewrite put_key].
Qed.
Lemma told_put_ours k o w : all_told w -> all_told (put Oreneta k o w).
Proof. intros Ht k'. unfold told. rewrite legacy_put, put_service by done. apply Ht. Qed.
Lemma told_logged l m w : all_told w -> all_told (logged l m w).
Proof. done. Qed.
Lemma told_settled k st w : all_told w -> (st = Gone -> theirs k w = None) -> all_told (settled k st w).
Proof.
  intros Ht Hst k'. unfold told. rewrite entries_settled. destruct (decide (k' = k)) as [->|Hne].
  - rewrite legacy_settled. intros [= ->]. auto.
  - rewrite legacy_settled_ne by done. apply Ht.
Qed.

Ltac tells :=
  cbn [ensures];
  repeat match goal with
  | |- all_told (put Meron _ None _) => apply told_put_none
  | |- all_told (put Oreneta _ _ _) => apply told_put_ours
  | |- all_told (logged _ _ _) => apply told_logged
  | |- all_told (settled _ _ _) => apply told_settled
  end;
  first [assumption | discriminate | intros _; autorewrite with kc; congruence].

Lemma load_told h k w : all_told w -> ensures (does h) all_told (load_reporting k) (fun _ => all_told) w.
Proof.
  intros Ht. unfold load_reporting, load_current, load_legacy, retire, copy, delete_legacy, verified. follow tells.
Qed.

Lemma store_told h k b w : all_told w -> ensures (does h) all_told (store k b) (fun _ => all_told) w.
Proof. intros Ht. unfold store, store_over, delete_legacy, verified. follow tells. Qed.

Lemma delete_told h k w : all_told w -> ensures (does h) all_told (delete k) (fun _ => all_told) w.
Proof. intros Ht. unfold delete. follow tells. Qed.

(** What is known of an entry is so, and no damaged copy is in front. *)
Definition sane (k : text) (w : World) : Prop :=
  told k w /\ (legacy w !! k = Some Unverified -> ours k w = theirs k w).

(** ** A keychain whose failed calls change nothing *)

(** The view of [k] is one that may be, and other entries are as they were. *)
Definition shows (k : text) (w0 : World) (may : option text -> Prop) (w : World) : Prop :=
  elsewhere k w0 w /\ may (view w k).

Ltac found := repeat match goal with H : entries ?w !! ?x = _ |- context [entries ?w !! ?x] => rewrite H end.
Ltac views :=
  try (match goal with H : true = false |- _ => discriminate H end);
  repeat match goal with H : true = true -> _ |- _ => specialize (H eq_refl) end;
  repeat match goal with H : _ = match ?r with Ok _ => _ | Err _ => _ end |- _ => destruct r end;
  simplify_eq;
  unfold shows, elsewhere, sane, told, view in *; cbn [ensures] in *;
  repeat (split || intros); autorewrite with kc in *; found;
  first [congruence | intuition congruence].

Lemma load_shows k w : sane k w ->
  ensures (does true) (shows k w (eq (view w k))) (load_reporting k)
    (fun _ w' => shows k w (eq (view w k)) w' /\ sane k w') w.
Proof.
  intros [Hg Hu]. unfold load_reporting, load_current, load_legacy, retire, copy, delete_legacy, verified.
  follow views.
Qed.

Lemma store_shows k b w : sane k w ->
  ensures (does true) (shows k w (fun x => x = view w k \/ x = Some b)) (store k b)
    (fun r w' => shows k w (fun x => match r with Ok _ => x = Some b | Err _ => x = view w k end) w' /\ sane k w') w.
Proof.
  intros [Hg Hu]. unfold store, store_over, delete_legacy, verified.
  follow views.
Qed.
Lemma delete_shows k w : sane k w ->
  ensures (does true) (shows k w (fun x => x = view w k \/ x = None)) (delete k)
    (fun r w' => shows k w (fun x => match r with Ok _ => x = None | Err _ => x = view w k \/ x = None end) w' /\ sane k w') w.
Proof.
  intros [Hg Hu]. unfold delete.
  destruct (ours k w) as [b|] eqn:Ho; follow views.
Qed.
(** ** The routines of a process *)

Inductive op :=
| Load (k : text)
| Store (k b : text)
| Remove (k : text)
| Sweep (ks : list text)
| DbKey (valid : text -> bool) (k : text).

Definition routine (o : op) : prog Ev (result text (option text)) :=
  match o with
  | Load k => load k
  | Store k b => (_ <-? store k b ;; Ret (Ok None))%prog
  | Remove k => (_ <-? delete k ;; Ret (Ok None))%prog
  | Sweep ks => (_ <- migrate_all ks ;; Ret (Ok None))%prog
  | DbKey valid k => (key <-? db_key valid k ;; Ret (Ok (Some key)))%prog
  end.

Lemma ensures_ret {h A} I (a : A) Q w : Q a w -> ensures (does h) I (Ret a) Q w.
Proof. done. Qed.

(** *** What the reading routines keep, of every entry *)
Definition all_kept (w w' : World) : Prop :=
  forall k b, (ours k w = Some b -> ours k w' = Some b) /\
              (theirs k w = Some b -> theirs k w' = Some b \/ ours k w' = Some b).

Lemma all_kept_refl w : all_kept w w.
Proof. by split; [|left]. Qed.

Lemma all_kept_trans w1 w2 w3 : all_kept w1 w2 -> all_kept w2 w3 -> all_kept w1 w3.
Proof. intros H1 H2 k b. destruct (H1 k b), (H2 k b). intuition. Qed.

Lemma kept_all k w w' : kept k w w' -> all_kept w w'.
Proof.
  intros [He Ho Ht] k' b. destruct (decide (k' = k)) as [->|Hne]; [by split; auto|].
  destruct (He k' Hne) as [E _]. rewrite !E. auto.
Qed.

Lemma load_all h k w0 w : all_kept w0 w ->
  ensures (does h) (all_kept w0) (load_reporting k) (fun _ => all_kept w0) w.
Proof.
  intros H0. eapply ensures_mono_inv, ensures_mono, load_keeps.
  - intros w' Hk. exact (all_kept_trans _ _ _ H0 (kept_all _ _ _ Hk)).
  - intros r w' Hk. exact (all_kept_trans _ _ _ H0 (kept_all _ _ _ Hk)).
Qed.

Lemma migrate_all_keeps h ks w : ensures (does h) (all_kept w) (migrate_all ks) (fun _ => all_kept w) w.
Proof.
  unfold migrate_all. apply ensures_bind.
  apply (ensures_for_each _ _ _ _ (fun _ _ => all_kept w)) with (done := []); [apply all_kept_refl| |].
  - intros _ k s w' Hw _. unfold count. apply ensures_bind.
    eapply ensures_mono; [|by apply load_all]. intros r w2 H2.
    destruct r as [[x [[]|]]|e]; [exact H2|exact H2|exact H2|]. norm. next; exact H2.
  - intros s w' Hw. norm. case_bool_decide; norm; [next; exact Hw|exact Hw].
Qed.
(** *** The store's key *)
Section DbKey.
Context (h : bool) (valid : text -> bool) (k : text).

(** A good key under [meron] stays in one of the two places. *)
Definition guarded (w w' : World) : Prop :=
  elsewhere k w w' /\
  forall v, theirs k w = Some v -> valid v = true -> theirs k w' = Some v \/ ours k w' = Some v.

Lemma kept_guarded w w' : kept k w w' -> guarded w w'.
Proof. intros [He _ Ht _]. split; auto. Qed.

Lemma mint_guards w w1 Q : kept k w w1 -> (forall v, theirs k w = Some v -> valid v = false) ->
  (forall r w', guarded w w' -> Q r w') -> ensures (does h) (guarded w) (mint_key k) Q w1.
Proof.
  intros Hk Hv HQ. unfold mint_key. norm. next; [by apply kept_guarded|]. apply ensures_and_then.
  assert (forall fresh w', replaced k fresh w1 w' -> guarded w w') as Hr.
  { intros fresh w' [He _]. split; [|intros v Hw Hg; by rewrite (Hv v Hw) in Hg].
    exact (elsewhere_trans _ _ _ _ (kept_elsewhere _ _ _ Hk) He). }
  eapply ensures_mono_inv, ensures_mono, store_keeps; [by apply Hr|].
  intros [[]|e] w' Hw'; apply HQ, (Hr _ _ Hw').
Qed.

(** A good key that is read from [oreneta], or else from [meron]. *)
Definition good_key (w : World) : option text :=
  match ours k w with
  | Some b => if valid b then Some b else match theirs k w with Some b' => if valid b' then Some b' else None | None => None end
  | None => match theirs k w with Some b' => if valid b' then Some b' else None | None => None end
  end.

Lemma other_key_guards w w1 x : told k w -> kept k w w1 -> x = served w k -> is_some_and valid x = false ->
  ensures (does h) (guarded w) (other_key valid k x)
    (fun r w' => guarded w w' /\ forall y g, r = Ok y -> theirs k w = Some g -> valid g = true -> y = g) w1.
Proof.
  intros Hg Hk Hx Hv. pose proof (kept_guarded _ _ Hk) as Hg1. unfold other_key. apply ensures_and_then.
  destruct x as [c|]; cbn in Hv.
  2: { norm. apply mint_guards; [done| |].
       - intros v Ht. revert Hx. unfold served, view. rewrite Ht. case_bool_decide; [done|]. by destruct (ours k w).
       - intros r w' Hw'. split; [done|]. intros y g _ Ht. revert Hx. unfold served, view. rewrite Ht.
         case_bool_decide; [done|]. by destruct (ours k w). }
  assert (forall v, theirs k w = Some v -> valid v = true -> theirs k w1 = Some v) as Ht1.
  { intros v Ht Hgood. destruct Hk as [_ Ho Ht' _]. destruct (Ht' v Ht) as [|Ho1]; [done|].
    revert Hx. unfold served, view. rewrite Ht. case_bool_decide; [intros [= ->]; congruence|].
    destruct (ours k w) as [b|] eqn:Hb; [|intros [= ->]; congruence].
    intros [= ->]. rewrite (Ho b eq_refl) in Ho1. congruence. }
  norm. next; [done| |by split].
  destruct (theirs k w1) as [good|] eqn:Hgood; [destruct (valid good) eqn:Hvalid|].
  - apply ensures_ret. norm. rewrite Hvalid. next; [done|]. apply ensures_bind.
    assert (forall w', replaced k good (logged Warn (malformed_key k) w1) w' -> guarded w w') as Hr.
    { intros w' [He Ht]. split.
      - exact (elsewhere_trans _ _ _ _ (kept_elsewhere _ _ _ Hk) He).
      - intros v Hw Hgv. destruct (Ht v) as [|E]; [cbn; by rewrite Hgood, <- (Ht1 v Hw Hgv)|by left|right].
        rewrite E. specialize (Ht1 v Hw Hgv). congruence. }
    eapply ensures_mono_inv, ensures_mono, store_keeps; [apply Hr|].
    intros r w' Hw'. apply Hr in Hw'.
    assert (forall y g, Ok (E := text) good = Ok y -> theirs k w = Some g -> valid g = true -> y = g) as Ha.
    { intros y g [= <-] Hw Hgv. specialize (Ht1 g Hw Hgv). congruence. }
    destruct r as [[]|e]; norm; [by split|]. next; [done|by split].
  - apply ensures_ret. norm. rewrite ?Hvalid. apply mint_guards; [done| |].
    + intros v Hw. destruct (valid v) eqn:E; [|done]. specialize (Ht1 v Hw E). congruence.
    + intros r w' Hw'. split; [done|]. intros y g _ Hw E. specialize (Ht1 g Hw E). congruence.
  - apply ensures_ret. norm. rewrite ?Hvalid. apply mint_guards; [done| |].
    + intros v Hw. destruct (valid v) eqn:E; [|done]. specialize (Ht1 v Hw E). congruence.
    + intros r w' Hw'. split; [done|]. intros y g _ Hw E. specialize (Ht1 g Hw E). congruence.
Qed.

Lemma db_key_guards w : told k w ->
  ensures (does h) (guarded w) (db_key valid k) (fun _ => guarded w) w.
Proof.
  intros Hg. unfold db_key. apply ensures_and_then.
  eapply ensures_mono_inv, ensures_mono, load_answers; [apply kept_guarded| |done].
  intros [x|e] w1 [Hk Hx]; [|by apply kept_guarded]. specialize (Hx x eq_refl).
  destruct (is_some_and valid x) eqn:Hv; [by apply kept_guarded|].
  eapply ensures_mono; [|by apply other_key_guards]. by intros r w' [].
Qed.

(** A good key is found, whatever fails, and is never replaced. *)
Lemma db_key_finds w g : told k w -> legacy w !! k <> Some Unverified -> good_key w = Some g ->
  ensures (does h) (fun w' => theirs k w' = Some g \/ ours k w' = Some g) (db_key valid k)
    (fun r w' => (theirs k w' = Some g \/ ours k w' = Some g) /\ forall y, r = Ok y -> y = g) w.
Proof.
  intros Hg Hu Hgood. unfold db_key.
  assert (valid g = true /\ (ours k w = Some g \/ theirs k w = Some g /\ forall b, ours k w = Some b -> valid b = false))
    as [Hv Hwhere].
  { revert Hgood. unfold good_key. destruct (ours k w) as [b|], (theirs k w) as [b'|];
      repeat match goal with |- context [if ?b then _ else _] => destruct b eqn:? end; naive_solver. }
  assert (forall w', kept k w w' -> theirs k w' = Some g \/ ours k w' = Some g) as Hkeep.
  { intros w' [_ Ho Ht _]. destruct Hwhere as [E|[E _]]; auto. }
  apply ensures_and_then.
  eapply ensures_mono_inv, ensures_mono, load_answers; [exact Hkeep| |done].
  intros [x|e] w1 [Hk Hx]; [|split; [by apply Hkeep|done]]. specialize (Hx x eq_refl).
  assert (served w k = view w k) as Es by (unfold served; by rewrite bool_decide_false).
  destruct (is_some_and valid x) eqn:Hvx.
  - norm. split; [by apply Hkeep|]. intros y [= <-]. subst x. rewrite Es. unfold view.
    destruct Hwhere as [E|[E Hb]]; [by rewrite E|]. rewrite E.
    destruct (ours k w) as [b|] eqn:Eo; [|done]. rewrite Es in Hvx. unfold view in Hvx. rewrite Eo in Hvx. cbn in Hvx.
    rewrite (Hb b eq_refl) in Hvx. done.
  - destruct Hwhere as [E|[E _]]; [subst x; rewrite Es in Hvx; unfold view in Hvx; rewrite E in Hvx; cbn in Hvx; congruence|].
    eapply ensures_mono_inv, ensures_mono, other_key_guards; [| |done..].
    + intros w' [_ Hw']. auto.
    + intros r w' [[_ Hw'] Hr]. split; [auto|]. intros y Ey. exact (Hr y g Ey E Hv).
Qed.
End DbKey.
End SecretsLaws.
