(* ===== verification/SecretsMap.v ===== *)
(** * The two keychain services as one map

    What the routines of [SecretsMigration] keep of the secrets, stated of a
    whole process: of any sequence of routines, each of which may be cut
    short by the process ending. *)
From S2P Require Import Prelude.
From S2P Require Import Text.
From S2P Require Import Program.
From S2P Require Import SecretsMigration.

Module SecretsMap.
Import SecretsMigration SecretsLaws.

(** ** The routines, on a keychain whose failed calls change nothing *)

Section Honest.
Let D := does true.

Lemma all_sane_elsewhere k w w' : elsewhere k w w' -> sane k w' -> (forall k', sane k' w) -> forall k', sane k' w'.
Proof.
  intros He Hk Hs k'. destruct (decide (k' = k)) as [->|Hne]; [done|].
  destruct (He k' Hne) as [E L]. unfold sane, told. rewrite L, !E. apply Hs.
Qed.

Lemma view_elsewhere k w w' k' : elsewhere k w w' -> k' <> k -> view w' k' = view w k'.
Proof. intros He Hne. destruct (He k' Hne) as [E _]. unfold view. by rewrite !E. Qed.

Definition same_view (w w' : World) : Prop := forall k, view w' k = view w k.
Definition all_sane (w : World) : Prop := forall k, sane k w.

Lemma shows_same k w w' : shows k w (eq (view w k)) w' -> same_view w w'.
Proof.
  intros [He Hv] k'. destruct (decide (k' = k)) as [->|Hne]; [done|]. by apply (view_elsewhere k).
Qed.

Lemma load_reporting_map k w : all_sane w ->
  ensures D (same_view w) (load_reporting k) (fun _ w' => same_view w w' /\ all_sane w') w.
Proof.
  intros Hs. eapply ensures_mono_inv, ensures_mono, load_shows; [apply shows_same| |apply Hs].
  intros r w' [H Hk]. split; [by apply (shows_same k)|]. intros k'. exact (all_sane_elsewhere k w w' (proj1 H) Hk Hs k').
Qed.

Lemma load_map k w : all_sane w ->
  ensures D (same_view w) (load k)
    (fun r w' => (same_view w w' /\ all_sane w') /\ forall x, r = Ok x -> x = view w k) w.
Proof.
  intros Hs. assert (served w k = view w k) as E.
  { unfold served, view. case_bool_decide as Hu; [|done]. destruct (Hs k) as [_ H]. rewrite (H Hu). by destruct (theirs k w). }
  rewrite <- E. eapply ensures_mono_inv, ensures_mono, (ensures_and _ _ (fun _ => True)).
  - by intros w' [H _].
  - intros r w' H. exact H.
  - apply ensures_bind. eapply ensures_mono; [|by apply load_reporting_map]. by intros [[]|].
  - eapply ensures_mono_inv, ensures_mono, load_answers; [done| |apply Hs]. by intros r w' [_ H].
Qed.

Lemma same_view_refl w : same_view w w.
Proof. by intros k. Qed.

Lemma migrate_all_map ks w : all_sane w ->
  ensures D (same_view w) (migrate_all ks) (fun _ w' => same_view w w' /\ all_sane w') w.
Proof.
  intros Hs. unfold migrate_all. apply ensures_bind.
  apply (ensures_for_each _ _ _ _ (fun _ _ w' => same_view w w' /\ all_sane w')) with (done := []).
  - by split; [apply same_view_refl|].
  - intros _ k s w' [Hv Hs'] _. unfold count. apply ensures_bind.
    assert (forall w2, same_view w' w2 -> same_view w w2) as Ht by (intros w2 H2 k'; by rewrite H2, Hv).
    eapply ensures_mono_inv, ensures_mono, (load_reporting_map k); [exact Ht| |done].
    intros r w2 [H2 Hs2]. apply Ht in H2. destruct r as [[x [[]|]]|e]; [by split..|]. norm. next; [exact H2|by split].
  - intros s w' [Hv Hs']. norm. case_bool_decide; norm; [next; [exact Hv|by split]|by split].
Qed.

(** Only [k] may read otherwise, and then as said. *)
Definition only (k : text) (may : option text -> Prop) (w w' : World) : Prop :=
  (forall k', k' <> k -> view w' k' = view w k') /\ may (view w' k).

Lemma shows_only k may w w' : shows k w may w' -> only k may w w'.
Proof. intros [He Hm]. split; [|done]. intros k'. by apply view_elsewhere. Qed.

Lemma same_only k w w' (may : option text -> Prop) : same_view w w' -> may (view w k) -> only k may w w'.
Proof. intros H Hm. split; [by intros k' _|by rewrite H]. Qed.

Lemma only_after k w w1 w' (may : option text -> Prop) : same_view w w1 -> only k may w1 w' -> only k may w w'.
Proof. intros H [Ho Hm]. split; [|done]. intros k' Hne. by rewrite Ho, H. Qed.

Lemma store_map k b w : all_sane w ->
  ensures D (only k (fun x => x = view w k \/ x = Some b) w) (store k b)
    (fun r w' => only k (fun x => match r with Ok _ => x = Some b | Err _ => x = view w k end) w w' /\ all_sane w') w.
Proof.
  intros Hs. eapply ensures_mono_inv, ensures_mono, store_shows; [apply shows_only| |apply Hs].
  intros r w' [H Hk]. split; [by apply shows_only|]. intros k'. exact (all_sane_elsewhere k w w' (proj1 H) Hk Hs k').
Qed.

Lemma delete_map k w : all_sane w ->
  ensures D (only k (fun x => x = view w k \/ x = None) w) (delete k)
    (fun r w' => only k (fun x => match r with Ok _ => x = None | Err _ => x = view w k \/ x = None end) w w' /\ all_sane w') w.
Proof.
  intros Hs. eapply ensures_mono_inv, ensures_mono, delete_shows; [apply shows_only| |apply Hs].
  intros r w' [H Hk]. split; [by apply shows_only|]. intros k'. exact (all_sane_elsewhere k w w' (proj1 H) Hk Hs k').
Qed.

Definition anything (x : option text) : Prop := True.

(** The answer of [other_key] is the entry's, unless it could not be written. *)
Definition keyed (k : text) (w : World) (r : result text text) (w' : World) : Prop :=
  only k (fun x => x = view w k \/ exists y, r = Ok y /\ x = Some y) w w' /\ all_sane w'.

Lemma mint_map k w : all_sane w ->
  ensures D (only k anything w) (mint_key k) (keyed k w) w.
Proof.
  intros Hs. unfold mint_key. norm. next; [by apply same_only|]. apply ensures_and_then.
  eapply ensures_mono_inv, ensures_mono, store_map; [by intros w' [H _]| |done].
  intros [[]|e] w' [[Ho Hv] Hs']; (split; [split; [done|]|done]); [right; eauto|by left].
Qed.

Lemma other_key_map valid k w : all_sane w ->
  ensures D (only k anything w) (other_key valid k (view w k)) (keyed k w) w.
Proof.
  intros Hs. unfold other_key. apply ensures_and_then. destruct (view w k) as [c|]; [|by apply mint_map].
  norm. next; [by apply same_only| |by split; [apply same_only; [|left]|]].
  apply ensures_ret. norm. destruct (theirs k w) as [good|]; [|by apply mint_map].
  destruct (valid good); [|by apply mint_map].
  norm. next; [by apply same_only|]. apply ensures_bind.
  set (w1 := logged Warn _ w). assert (same_view w w1) as H1 by done.
  eapply ensures_mono_inv, ensures_mono, (store_map k good w1); [by intros w' [H _]| |exact Hs].
  assert (forall (r : result text unit) w', only k (fun x => match r with Ok _ => x = Some good | Err _ => x = view w1 k end) w1 w' /\ all_sane w' ->
            keyed k w (Ok good) w') as Hk.
  { intros [[]|e] w' [[Ho Hv] Hs']; (split; [split; [done|]|done]); [right; eauto|by left]. }
  intros [[]|e] w' H; norm; [exact (Hk (Ok tt) _ H)|]. apply (Hk (Err e)) in H. next; [|exact H]. by destruct H as [[Ho _] _].
Qed.

Lemma db_key_map valid k w : all_sane w ->
  ensures D (only k (fun x => x = view w k \/ is_some_and valid (view w k) = false) w) (db_key valid k)
    (fun r w' => keyed k w r w' /\
       (is_some_and valid (view w k) = true -> view w' k = view w k /\ forall y, r = Ok y -> view w k = Some y)) w.
Proof.
  intros Hs. unfold db_key. apply ensures_and_then.
  eapply ensures_mono_inv, ensures_mono, load_map; [intros w' H; by apply same_only; [|left]| |done].
  intros [x|e] w1 [[H1 Hs1] Hx]; [|split; [split; [by apply same_only; [|left]|done]|done]].
  specialize (Hx x eq_refl). subst x.
  destruct (is_some_and valid (view w k)) eqn:Hv.
  - split; [split; [by apply same_only; [|left]|done]|]. intros _. split; [apply H1|].
    intros y [= <-]. by destruct (view w k).
  - pose proof (other_key_map valid k w1 Hs1) as Hother. rewrite (H1 k) in Hother.
    eapply ensures_mono_inv, ensures_mono, Hother.
    + intros w' H. apply (only_after _ _ _ _ _ H1). destruct H as [Ho _]. by split; [|right].
    + intros r w' [Ho Hs']. split; [|done]. split; [|done]. apply (only_after _ _ _ _ _ H1).
      destruct Ho as [Ho Hr]. split; [done|]. by rewrite <- H1.
Qed.
End Honest.

(** ** Processes *)

(** One routine of a process: to its end, or as far as the process got. *)
Inductive step (h : bool) : World -> op -> option (result text (option text)) -> World -> Prop :=
| finished o w w' r : runs (does h) (routine o) w w' (Some r) -> step h w o (Some r) w'
| stopped o w w' : runs (does h) (routine o) w w' None -> step h w o None (restarted w').

Section History.
Context {S : Type} (st : S -> op -> option (result text (option text)) -> S -> Prop).

Inductive history : S -> list (op * option (result text (option text))) -> S -> Prop :=
| nothing s : history s [] s
| and_next s o a s1 l s2 : st s o a s1 -> history s1 l s2 -> history s ((o, a) :: l) s2.
End History.

(** ** The map a process is to see *)

Definition spec (v : text -> option text) (o : op) (a : option (result text (option text))) (v' : text -> option text) : Prop :=
  match o with
  | Load k => (forall k', v' k' = v k') /\ forall x, a = Some (Ok x) -> x = v k
  | Sweep _ => forall k', v' k' = v k'
  | Store k b =>
      (forall k', k' <> k -> v' k' = v k') /\
      match a with Some (Ok _) => v' k = Some b | Some (Err _) => v' k = v k | None => v' k = v k \/ v' k = Some b end
  | Remove k =>
      (forall k', k' <> k -> v' k' = v k') /\
      match a with Some (Ok _) => v' k = None | _ => v' k = v k \/ v' k = None end
  | DbKey valid k =>
      (forall k', k' <> k -> v' k' = v k') /\
      if is_some_and valid (v k) then v' k = v k /\ forall x, a = Some (Ok x) -> x = v k
      else forall r, a = Some r -> v' k = v k \/ r = Ok (v' k)
  end.

Lemma ends {R} (p : prog Ev R) I Q w w' o :
  I w -> ensures (does true) I p Q w -> runs (does true) p w w' o ->
  match o with Some r => Q r w' | None => I w' end.
Proof.
  intros Hi He Hr. destruct o as [r|]; [exact (ensures_end _ _ _ _ _ _ _ He Hr)|exact (ensures_stop _ _ _ _ _ _ Hi He Hr)].
Qed.

(** What is said of a routine is said of it as a step. *)
Lemma then_ok {A B} (p : prog Ev (result text A)) (f : A -> B) I (Q : result text A -> World -> Prop) w :
  ensures (does true) I p Q w ->
  ensures (does true) I (and_then p (fun a => Ret (Ok (f a))))
    (fun r w' => exists r0, Q r0 w' /\ r = match r0 with Ok a => Ok (f a) | Err e => Err e end) w.
Proof.
  intros H. apply ensures_and_then. eapply ensures_mono; [|exact H]. intros [a|e] w' HQ; [apply ensures_ret|]; eauto.
Qed.

Lemma sane_restarted w : all_sane (restarted w).
Proof. intros k. unfold sane, told. cbn [legacy restarted]. by rewrite lookup_empty. Qed.

Lemma step_spec w o a w' : all_sane w -> step true w o a w' -> spec (view w) o a (view w') /\ all_sane w'.
Proof.
  intros Hs Hst.
  assert (exists w1, runs (does true) (routine o) w w1 a /\ (forall k, view w' k = view w1 k) /\
            (all_sane w1 \/ a = None -> all_sane w')) as (w1 & Hr & Hv & Hsane).
  { destruct Hst as [o w w' r Hr|o w w' Hr]; exists w'; (split; [exact Hr|split; [done|]]); [by intros [|]|].
    intros _. apply sane_restarted. }
  clear Hst. destruct o as [k|k b|k|ks|valid k]; cbn [routine] in Hr.
  - eapply ends in Hr; [|apply same_view_refl|by apply load_map].
    destruct a as [r|]; cbn beta iota in Hr; [destruct Hr as [[Hr1 Hr2] Hr3]|].
    + split; [split; [intros k'; by rewrite Hv, Hr1|]|auto]. intros x [= ->]. auto.
    + split; [split; [intros k'; by rewrite Hv, Hr|done]|auto].
  - eapply ends in Hr; [| |apply (then_ok _ (fun _ => None)), store_map, Hs]; [|by apply same_only; [apply same_view_refl|left]].
    destruct a as [r|]; cbn beta iota in Hr; [destruct Hr as (r0 & [[Ho Hm] Hs'] & ->)|destruct Hr as [Ho Hm]].
    + split; [|auto]. split; [intros k' Hne; by rewrite Hv, Ho|]. rewrite Hv. by destruct r0.
    + split; [|auto]. split; [intros k' Hne; by rewrite Hv, Ho|]. by rewrite Hv.
  - eapply ends in Hr; [| |apply (then_ok _ (fun _ => None)), delete_map, Hs]; [|by apply same_only; [apply same_view_refl|left]].
    destruct a as [r|]; cbn beta iota in Hr; [destruct Hr as (r0 & [[Ho Hm] Hs'] & ->)|destruct Hr as [Ho Hm]].
    + split; [|auto]. split; [intros k' Hne; by rewrite Hv, Ho|]. rewrite Hv. by destruct r0.
    + split; [|auto]. split; [intros k' Hne; by rewrite Hv, Ho|]. by rewrite Hv.
  - apply (ends _ (same_view w) (fun _ w' => same_view w w' /\ all_sane w')) in Hr;
      [|apply same_view_refl|apply ensures_bind, migrate_all_map, Hs].
    destruct a as [r|]; cbn beta iota in Hr; [destruct Hr as [Hr Hs']|]; (split; [|auto]); intros k'; by rewrite Hv, Hr.
  - eapply ends in Hr; [| |apply (then_ok _ Some), db_key_map, Hs]; [|by apply same_only; [apply same_view_refl|left]].
    destruct a as [r|]; cbn beta iota in Hr; [destruct Hr as (r0 & [[[Ho Hm] Hs'] Hgood] & ->)|destruct Hr as [Ho Hm]].
    + split; [|auto]. split; [intros k' Hne; by rewrite Hv, Ho|]. rewrite Hv.
      destruct (is_some_and valid (view w k)).
      * destruct (Hgood eq_refl) as [E Hy]. split; [done|]. intros x [= Hx]. destruct r0 as [y|e]; [|done].
        injection Hx as <-. symmetry. by apply Hy.
      * intros r [= <-]. destruct Hm as [|(y & -> & Hy)]; [by left|right]. by rewrite Hy.
    + split; [|auto]. split; [intros k' Hne; by rewrite Hv, Ho|]. rewrite Hv.
      destruct (is_some_and valid (view w k)); [split; [by destruct Hm|done]|done].
Qed.

(** ** What a run knows is so *)

Lemma mint_told h k w : all_told w -> ensures (does h) all_told (mint_key k) (fun _ => all_told) w.
Proof.
  intros Ht. unfold mint_key. norm. next; [done|]. apply ensures_and_then.
  eapply ensures_mono; [|by apply store_told]. by intros [].
Qed.

Lemma other_key_told h valid k x w : all_told w -> ensures (does h) all_told (other_key valid k x) (fun _ => all_told) w.
Proof.
  intros Ht. unfold other_key. apply ensures_and_then. destruct x as [c|]; [|by apply mint_told].
  norm. next; [done| |done]. apply ensures_ret. norm. destruct (theirs k w) as [good|]; [|by apply mint_told].
  destruct (valid good); [|by apply mint_told]. norm. next; [done|]. apply ensures_bind.
  eapply ensures_mono; [|by apply store_told]. intros [[]|e] w' Hw'; norm; [done|]. by next.
Qed.

Lemma count_told h k s w : all_told w -> ensures (does h) all_told (count k s) (fun _ => all_told) w.
Proof.
  intros Ht. unfold count. apply ensures_bind. eapply ensures_mono; [|by apply load_told].
  intros [[x [[]|]]|e] w' Hw'; [done..|]. norm. by next.
Qed.

Lemma routine_told h o w : all_told w -> ensures (does h) all_told (routine o) (fun _ => all_told) w.
Proof.
  intros Ht.
  assert (forall k, ensures (does h) all_told (load k) (fun _ => all_told) w) as Hload.
  { intros k. apply ensures_bind. eapply ensures_mono; [|by apply load_told]. by intros [[]|]. }
  destruct o as [k|k b|k|ks|valid k]; cbn [routine]; [apply Hload| | | |].
  - apply ensures_and_then. eapply ensures_mono; [|by apply store_told]. by intros [].
  - apply ensures_and_then. eapply ensures_mono; [|by apply delete_told]. by intros [].
  - apply ensures_bind. unfold migrate_all. apply ensures_bind.
    apply (ensures_for_each _ _ _ _ (fun _ _ => all_told)) with (done := []); [done| |].
    + intros _ k s w' Hw' _. by apply count_told.
    + intros s w' Hw'. norm. case_bool_decide; norm; [by next|done].
  - apply ensures_and_then. unfold db_key. apply ensures_and_then. eapply ensures_mono; [|apply Hload].
    intros [x|e] w' Hw'; [|done]. destruct (is_some_and valid x); [by apply ensures_ret|].
    eapply ensures_mono; [|by apply other_key_told]. by intros [].
Qed.

Lemma told_restarted w : all_told (restarted w).
Proof. intros k. unfold told. cbn [legacy restarted]. by rewrite lookup_empty. Qed.

Lemma history_told h w l w' : history (step h) w l w' -> all_told w -> all_told w'.
Proof.
  induction 1 as [w|w o a w1 l w2 Hst Hh IH]; [done|]. intros Ht. apply IH.
  destruct Hst as [o w w' r Hr|o w w' Hr]; [|apply told_restarted].
  by apply (ensures_end _ _ _ _ _ _ _ (routine_told h o w Ht) Hr).
Qed.

(** C4. Whatever calls of the keychain fail, so long as a failed call changes
    nothing, and wherever the process ends and starts again: the two services,
    read as the code reads them, are one map.  Reading answers what the map
    holds and moving entries changes nothing of it, a store that succeeds sets
    its entry and one that fails leaves it, a deletion that succeeds removes
    it, and the store's key, once it is a good one, is never another. *)
Theorem keychain_is_a_map w l w' : legacy w = empty ->
  history (step true) w l w' ->
  history spec (view w) l (view w').
Proof.
  intros H0 Hh. assert (all_sane w) as Hs.
  { intros k. unfold sane, told. rewrite H0. by rewrite lookup_empty. }
  clear H0. induction Hh as [w|w o a w1 l w2 Hst Hh IH]; [constructor|].
  destruct (step_spec _ _ _ _ Hs Hst) as [Hspec Hs1]. econstructor; [exact Hspec|by apply IH].
Qed.

(** C9. An entry under [meron] goes only when the same value, or the value
    stored over it, has been read back under [oreneta]: whatever fails, even
    if the keychain damages what it writes, and wherever the process ends.
    Reading, and the sweep at startup, never touch an entry of [oreneta]. *)
Theorem the_old_entry_goes_only_for_its_copy h w0 l w o a w' k v :
  legacy w0 = empty -> history (step h) w0 l w ->
  (forall k', o <> Remove k') -> step h w o a w' ->
  (theirs k w = Some v -> (forall valid, o = DbKey valid k -> valid v = true) ->
     theirs k w' = Some v \/ ours k w' = Some v \/ exists b, o = Store k b /\ ours k w' = Some b) /\
  (ours k w = Some v -> ((exists k', o = Load k') \/ exists ks, o = Sweep ks) -> ours k w' = Some v).
Proof.
  intros H0 Hh Hrm Hst.
  assert (all_told w) as Ht.
  { apply (history_told _ _ _ _ Hh). intros k'. unfold told. by rewrite H0, lookup_empty. }
  assert (exists w1, runs (does h) (routine o) w w1 a /\ entries w' = entries w1) as (w1 & Hr & ->).
  { destruct Hst as [o w w' r Hr|o w w' Hr]; by exists w'. }
  clear Hst. destruct o as [k0|k0 b|k0|ks|valid k0]; cbn [routine] in Hr.
  - apply (ensures_always _ (all_kept w)) in Hr; [|apply all_kept_refl|apply ensures_bind].
    + destruct (Hr k v). split; [|auto]. intros Hv _. tauto.
    + eapply ensures_mono; [|apply load_all, all_kept_refl]. by intros [[]|].
  - apply (ensures_always _ (replaced k0 b w)) in Hr; [destruct Hr as [He Ho]|by split; [split|left]|].
    + split; [|naive_solver]. intros Hv _. destruct (decide (k = k0)) as [->|Hne].
      * destruct (Ho v Hv); eauto.
      * left. destruct (He k Hne) as [E _]. by rewrite E.
    + apply ensures_and_then. eapply ensures_mono; [|apply store_keeps]. by intros [].
  - by destruct (Hrm k0).
  - apply (ensures_always _ (all_kept w)) in Hr; [|apply all_kept_refl|apply ensures_bind].
    + destruct (Hr k v). split; [|auto]. intros Hv _. tauto.
    + eapply ensures_mono; [|apply migrate_all_keeps]. by intros.
  - apply (ensures_always _ (guarded valid k0 w)) in Hr; [destruct Hr as [He Ho]|by split; [split|auto]|].
    + split; [|naive_solver]. intros Hv Hgood. destruct (decide (k = k0)) as [->|Hne].
      * destruct (Ho v Hv); eauto.
      * left. destruct (He k Hne) as [E _]. by rewrite E.
    + apply ensures_and_then. eapply ensures_mono; [|by apply db_key_guards]. by intros [].
Qed.

(** C10. Where either service holds a good key of the store as the process
    starts, the routine that reads the key answers that one or fails; it
    never makes another, and wherever it stops the key is still there. *)
Theorem a_good_key_is_never_replaced h valid k g w a w' :
  legacy w = empty -> good_key valid k w = Some g -> step h w (DbKey valid k) a w' ->
  (theirs k w' = Some g \/ ours k w' = Some g) /\ forall x, a = Some (Ok x) -> x = Some g.
Proof.
  intros H0 Hg Hst.
  assert (exists w1, runs (does h) (routine (DbKey valid k)) w w1 a /\ entries w' = entries w1) as (w1 & Hr & ->).
  { remember (DbKey valid k) as o. destruct Hst as [o w w' r Hr|o w w' Hr]; by exists w'. }
  assert (ensures (does h) (fun w' => theirs k w' = Some g \/ ours k w' = Some g) (routine (DbKey valid k))
            (fun r w' => (theirs k w' = Some g \/ ours k w' = Some g) /\ forall x, r = Ok x -> x = Some g) w) as He.
  { cbn [routine]. apply ensures_and_then. eapply ensures_mono; [|apply (db_key_finds h valid k w g); [..|done]].
    - intros [y|e] w2 [H2 Hy]; [|by split]. apply ensures_ret. split; [done|]. intros x [= <-]. by rewrite (Hy y eq_refl).
    - unfold told. by rewrite H0, lookup_empty.
    - by rewrite H0, lookup_empty. }
  destruct a as [r|].
  - destruct (ensures_end _ _ _ _ _ _ _ He Hr) as [H1 H2]. split; [done|]. intros x [= ->]. by apply H2.
  - split; [|done]. apply (ensures_stop _ _ _ _ _ _) with (2 := He) in Hr; [done|].
    revert Hg. unfold good_key. destruct (ours k w), (theirs k w);
      repeat match goal with |- context [if ?b then _ else _] => destruct b end; naive_solver.
Qed.
End SecretsMap.

(** * The sweep at startup, and what the log may say

    When nothing fails, the sweep leaves nothing under [meron] of the entries
    it is given but those that hold another value than [oreneta]'s.  Whatever
    fails, what is written to the log and what errors say does not depend on
    the values of the secrets. *)

Module SecretsSweep.
Import SecretsMigration SecretsLaws SecretsMap.

(** ** A keychain where nothing fails *)

Definition perfect (fresh : text) (X : Type) (e : Ev X) : World -> World * X :=
  match e in Ev X return World -> World * X with
  | Read s k => fun w => (w, Ok (entries w !! (s, k)))
  | Write s k b => fun w => (put s k (Some b) w, Ok tt)
  | Delete s k => fun w => (put s k None w, Ok tt)
  | Log l m => fun w => (logged l m w, tt)
  | Known k => fun w => (w, legacy w !! k)
  | Settle k st => fun w => (settled k st w, tt)
  | Mint => fun w => (w, fresh)
  end.

Lemma perfect_does h fresh X (e : Ev X) w : does h X e w (perfect fresh X e w).1 (perfect fresh X e w).2.
Proof. destruct e; cbn; try done; [split; [done|by intros o [= <-]]|by eexists..]. Qed.

(** What the sweep makes of an entry. *)
Definition differing (w : World) (k : text) : bool :=
  match ours k w, theirs k w with Some a, Some b => negb (bool_decide (b = a)) | _, _ => false end.
Definition old_only (w : World) (k : text) : bool :=
  match ours k w, theirs k w with None, Some _ => true | _, _ => false end.
Definition left_over (w : World) (k : text) : option text := if differing w k then theirs k w else None.
Definition outcome (w : World) (k : text) : option Outcome :=
  if old_only w k then Some Moved else if differing w k then Some Kept else None.

Section Perfect.
Context (fresh : text).

Lemma load_perfect k w : legacy w !! k = None ->
  exists w', exec (perfect fresh) (load_reporting k) w = (w', Ok (view w k, outcome w k)) /\
    elsewhere k w w' /\ ours k w' = view w k /\ theirs k w' = left_over w k.
Proof.
  intros Hl. unfold outcome, left_over, old_only, differing, view.
  unfold load_reporting, load_current, load_legacy, retire, copy, delete_legacy, verified.
  norm. cbn [exec perfect]. rewrite Hl. norm. cbn [exec perfect].
  destruct (ours k w) as [a|] eqn:Ho, (theirs k w) as [b|] eqn:Ht;
    repeat first [progress norm | progress cbn [exec perfect] | rewrite !Ho | rewrite !Ht |
                  case_bool_decide; simplify_eq; try done];
    (eexists; split; [reflexivity|]; unfold elsewhere; repeat (split || intros); autorewrite with kc; cbn [negb]; congruence).
Qed.

(** *** The sweep *)

Definition tally (w : World) (p : World -> text -> bool) (ks : list text) : nat := length (List.filter (p w) ks).

Lemma count_perfect k s w : legacy w !! k = None ->
  exists w', exec (perfect fresh) (count k s) w =
      (w', {| checked := S (checked s); moved := moved s + (if old_only w k then 1 else 0);
              deferred := deferred s + (if differing w k then 1 else 0); unreadable := unreadable s |}) /\
    elsewhere k w w' /\ ours k w' = view w k /\ theirs k w' = left_over w k.
Proof.
  intros Hl. destruct (load_perfect k w Hl) as (w' & E & H). exists w'. split; [|exact H].
  unfold count. rewrite exec_bind, E. cbn [fst snd]. unfold outcome.
  assert (old_only w k = true -> differing w k = false) as Hx.
  { unfold old_only, differing. by destruct (ours k w). }
  destruct (old_only w k); [rewrite (Hx eq_refl)|destruct (differing w k)]; cbn [exec]; repeat f_equal; lia.
Qed.

Lemma same_facts k w w' : elsewhere k w w' -> forall k', k' <> k ->
  old_only w' k' = old_only w k' /\ differing w' k' = differing w k' /\
  view w' k' = view w k' /\ left_over w' k' = left_over w k' /\ legacy w' !! k' = legacy w !! k'.
Proof.
  intros He k' Hne. destruct (He k' Hne) as [E L].
  unfold old_only, left_over, differing, view. by rewrite !E, L.
Qed.

Lemma each_perfect ks s w : NoDup ks -> (forall k, k ∈ ks -> legacy w !! k = None) ->
  exists w', exec (perfect fresh) (for_each ks s count) w =
      (w', {| checked := checked s + length ks; moved := moved s + tally w old_only ks;
              deferred := deferred s + tally w differing ks; unreadable := unreadable s |}) /\
    (forall k, k ∉ ks -> forall sv, entries w' !! (sv, k) = entries w !! (sv, k)) /\
    (forall k, k ∈ ks -> ours k w' = view w k /\ theirs k w' = left_over w k).
Proof.
  intros Hnd. revert s w. induction Hnd as [|k ks Hk Hnd IH]; intros s w Hl.
  - exists w. cbn. split; [destruct s; cbn; repeat f_equal; lia|]. split; [done|]. intros k Hk. by inversion Hk.
  - cbn [for_each]. rewrite exec_bind.
    destruct (count_perfect k s w) as (w1 & E & He & Ho & Ht); [apply Hl; by left|]. rewrite E. cbn [fst snd].
    assert (forall k', k' ∈ ks -> k' <> k) as Hne by (intros k' Hin ->; done).
    destruct (IH {| checked := S (checked s); moved := moved s + (if old_only w k then 1 else 0);
              deferred := deferred s + (if differing w k then 1 else 0); unreadable := unreadable s |} w1)
      as (w2 & E2 & Hout & Hin).
    { intros k' Hk'. destruct (same_facts _ _ _ He k' (Hne k' Hk')) as (_ & _ & _ & _ & ->). apply Hl. by right. }
    exists w2. split; [|split].
    + assert (forall p, (forall k', k' ∈ ks -> p w1 k' = p w k') -> tally w1 p ks = tally w p ks) as Hp.
      { intros p Hp. unfold tally. clear -Hp. induction ks as [|x ks IH]; [done|]. cbn [List.filter].
        rewrite Hp by by left. specialize (IH (fun k' H => Hp k' (list_elem_of_further _ _ _ H))).
        destruct (p w x); cbn [length]; lia. }
      rewrite E2. cbn [checked moved deferred unreadable length].
      rewrite !Hp by (intros k' Hk'; by apply (same_facts _ _ _ He k' (Hne k' Hk'))).
      unfold tally. cbn [List.filter]. destruct (old_only w k), (differing w k); cbn [length]; f_equal; f_equal; lia.
    + intros k' Hk' sv. apply not_elem_of_cons in Hk' as [H1 H2]. rewrite Hout by done. by apply He.
    + intros k' Hk'. apply elem_of_cons in Hk' as [->|Hk'].
      * rewrite !Hout by done. done.
      * destruct (Hin k' Hk') as [-> ->]. by destruct (same_facts _ _ _ He k' (Hne k' Hk')) as (_ & _ & -> & -> & _).
Qed.
End Perfect.

(** When nothing fails, the sweep at startup leaves nothing under [meron]
    of an entry it is given, unless the two services hold different values,
    and then it keeps both; every entry reads afterwards as it did before, no
    other entry changes, and the counts are the number of entries moved and
    kept. *)
Theorem the_sweep_moves_what_it_can fresh w ks : legacy w = empty -> NoDup ks ->
  exists w', exec (perfect fresh) (migrate_all ks) w =
      (w', {| checked := length ks; moved := tally w old_only ks; deferred := tally w differing ks; unreadable := 0 |}) /\
    (forall k, k ∈ ks -> ours k w' = view w k /\ theirs k w' = if differing w k then theirs k w else None) /\
    (forall k, k ∉ ks -> forall s, entries w' !! (s, k) = entries w !! (s, k)).
Proof.
  intros H0 Hnd. destruct (each_perfect fresh ks no_summary w Hnd) as (w' & E & Hout & Hin).
  { intros k _. by rewrite H0, lookup_empty. }
  unfold migrate_all. rewrite exec_bind, E. cbn [fst snd checked moved deferred unreadable Nat.add no_summary].
  rewrite exec_bind. case_bool_decide; cbn [call exec perfect]; unfold call; cbn [exec perfect fst snd];
    (eexists; split; [reflexivity|split; [exact Hin|exact Hout]]).
Qed.

(** ** Values renamed *)

Section Rename.
Context (f : text -> text) `{!Inj (=) (=) f}.

Definition ren_call {X} (e : Ev X) : Ev X :=
  match e in Ev X return Ev X with
  | Write s k b => Write s k (f b)
  | Read s k => Read s k
  | Delete s k => Delete s k
  | Log l m => Log l m
  | Known k => Known k
  | Settle k st => Settle k st
  | Mint => Mint
  end.

Definition ok_ren {A B} (g : A -> B) (r : result text A) : result text B :=
  match r with Ok a => Ok (g a) | Err e => Err e end.
Definition ren_value : result text (option text) -> result text (option text) := ok_ren (fmap f).

Definition ren_ans {X} (e : Ev X) : X -> X :=
  match e in Ev X return X -> X with
  | Read _ _ => ren_value
  | Mint => f
  | Write _ _ _ | Delete _ _ => fun r => r
  | Log _ _ => fun r => r
  | Known _ => fun r => r
  | Settle _ _ => fun r => r
  end.

Definition ren_world (w : World) : World := {| entries := f <$> entries w; legacy := legacy w; lines := lines w |}.

(** One program is another with the values of the secrets renamed. *)
Fixpoint renames {A B} (g : A -> B) (p : prog Ev A) (p' : prog Ev B) : Prop :=
  match p with
  | Ret a => p' = Ret (g a)
  | Vis e k => exists k', p' = Vis (ren_call e) k' /\ forall x, renames g (k x) (k' (ren_ans e x))
  end.

Lemma put_ren s k o w : ren_world (put s k o w) = put s k (f <$> o) (ren_world w).
Proof.
  unfold ren_world, put. cbn. f_equal. apply map_eq. intros [s' k']. rewrite lookup_fmap.
  destruct (decide ((s, k) = (s', k'))) as [<-|Hne];
    [by rewrite !lookup_partial_alter_eq|by rewrite !lookup_partial_alter_ne, lookup_fmap].
Qed.

Lemma does_ren h X (e : Ev X) w w' x : does h X e w w' x -> does h X (ren_call e) (ren_world w) (ren_world w') (ren_ans e x).
Proof.
  destruct e as [s k|s k b|s k|l m|k|k st|]; cbn.
  - intros [-> Hr]. split; [done|]. intros o Ho. rewrite lookup_fmap. destruct x as [o'|e]; [|done].
    injection Ho as <-. by rewrite (Hr o' eq_refl).
  - intros (o & -> & Ho). exists (f <$> o). split; [apply put_ren|]. intros E. specialize (Ho E). subst o.
    rewrite lookup_fmap. by destruct x.
  - intros (o & -> & Ho). exists (f <$> o). split; [apply put_ren|]. rewrite lookup_fmap.
    destruct x; [by subst o|]. destruct Ho as [->|[Hh ->]]; auto.
  - by intros ->.
  - by intros [-> ->].
  - by intros ->.
  - by intros ->.
Qed.

Lemma runs_ren {A B} h (g : A -> B) p p' w w' o :
  runs (does h) p w w' o -> renames g p p' -> runs (does h) p' (ren_world w) (ren_world w') (g <$> o).
Proof.
  intros Hr. revert p'. induction Hr as [p w|r w|X e k w w1 x w2 o Hd Hr IH]; intros p' Hp.
  - constructor.
  - cbn in Hp. subst p'. constructor.
  - destruct Hp as (k' & -> & Hk). econstructor; [apply does_ren, Hd|]. auto.
Qed.

Lemma renames_bind {A A' B B'} (g : A -> A') (g' : B -> B') p p' (k : A -> prog Ev B) k' :
  renames g p p' -> (forall a, renames g' (k a) (k' (g a))) -> renames g' (prog_bind k p) (prog_bind k' p').
Proof.
  intros Hp Hk. revert p' Hp. induction p as [a|X e c IH]; intros p'; cbn; [intros ->; apply Hk|].
  intros (c' & -> & Hc). eexists. split; [reflexivity|]. intros x. apply IH, Hc.
Qed.

Lemma renames_then {A A' B B'} (g : A -> A') (g' : B -> B') p p' (k : A -> prog Ev (result text B)) k' :
  renames (ok_ren g) p p' -> (forall a, renames (ok_ren g') (k a) (k' (g a))) ->
  renames (ok_ren g') (and_then p k) (and_then p' k').
Proof. intros Hp Hk. apply (renames_bind _ _ _ _ _ _ Hp). intros [a|e]; [apply Hk|done]. Qed.

Lemma same_test a b : bool_decide (f a = f b) = bool_decide (a = b).
Proof. apply bool_decide_ext. split; [apply inj, _|by intros ->]. Qed.

Ltac ren_norm := norm; cbn [ren_ans ren_value ok_ren fmap option_fmap option_map ren_call]; rewrite ?same_test.
Ltac ren :=
  ren_norm;
  repeat match goal with
  | |- renames _ (Vis _ _) _ => eexists; split; [reflexivity|intros ?x; ren_norm]
  | |- renames _ (Ret ?r) _ => first [reflexivity | destruct r; reflexivity]
  | |- context [with_context _ ?x] => is_var x; destruct x as [?|?]; ren_norm
  | |- context [match ?x with Ok _ => _ | Err _ => _ end] => is_var x; destruct x as [?|?]; ren_norm
  | |- context [match ?x with Some _ => _ | None => _ end] => is_var x; destruct x as [?|]; ren_norm
  | |- context [bool_decide ?P] => destruct (bool_decide P); ren_norm
  end.

Lemma load_renames k : renames (ok_ren (fun '(x, oc) => (f <$> x, oc))) (load_reporting k) (load_reporting k).
Proof.
  unfold load_reporting, load_current, load_legacy, retire, copy, delete_legacy, verified. ren.
Qed.

Lemma store_renames k b : renames (ok_ren id) (store k b) (store k (f b)).
Proof. unfold store, store_over, delete_legacy, verified. ren. Qed.

Lemma delete_renames k : renames (ok_ren id) (delete k) (delete k).
Proof. unfold delete. ren. Qed.

Lemma load_ren k : renames (ok_ren (fmap f)) (load k) (load k).
Proof. eapply renames_then; [apply load_renames|]. by intros [x oc]. Qed.

Lemma mint_renames k : renames (ok_ren f) (mint_key k) (mint_key k).
Proof.
  unfold mint_key. norm. eexists. split; [reflexivity|]. intros fresh.
  eapply renames_then; [apply store_renames|]. by intros [].
Qed.

Lemma other_key_renames valid valid' k x : (forall b, valid' (f b) = valid b) ->
  renames (ok_ren f) (other_key valid k x) (other_key valid' k (f <$> x)).
Proof.
  intros Hv. unfold other_key. eapply (renames_then (fmap f)).
  { destruct x as [c|]; [|done]. norm. eexists. split; [reflexivity|]. by intros [[b|]|e]. }
  intros [good|]; [|apply mint_renames]. cbn [fmap option_fmap option_map]. rewrite Hv.
  destruct (valid good); [|apply mint_renames].
  norm. eexists. split; [reflexivity|]. intros []. eapply renames_bind; [apply store_renames|].
  intros [[]|e]; cbn [ok_ren id]; norm; [done|]. eexists. split; [reflexivity|]. by intros [].
Qed.

Lemma db_key_renames valid valid' k : (forall b, valid' (f b) = valid b) ->
  renames (ok_ren f) (db_key valid k) (db_key valid' k).
Proof.
  intros Hv. unfold db_key. eapply renames_then; [apply load_ren|]. intros x.
  assert (is_some_and valid' (f <$> x) = is_some_and valid x) as -> by (destruct x; [apply Hv|done]).
  destruct (is_some_and valid x) eqn:E; [|by apply other_key_renames]. by destruct x.
Qed.

Lemma count_renames k s : renames id (count k s) (count k s).
Proof.
  unfold count. eapply renames_bind; [apply load_renames|].
  intros [[x [[]|]]|e]; cbn [ok_ren]; norm; try done. eexists. split; [reflexivity|]. by intros [].
Qed.

Lemma migrate_all_renames ks : renames id (migrate_all ks) (migrate_all ks).
Proof.
  unfold migrate_all. apply (renames_bind id id).
  - generalize no_summary. induction ks as [|k ks IH]; intros s; cbn [for_each]; [done|].
    apply (renames_bind id id); [apply count_renames|]. intros s'. apply IH.
  - intros s. cbn [id]. case_bool_decide; norm; [|done]. eexists. split; [reflexivity|]. by intros [].
Qed.

(** One routine is another with the values it is given renamed. *)
Definition same_op (o o' : op) : Prop :=
  match o with
  | Store k b => o' = Store k (f b)
  | DbKey valid k => exists valid', o' = DbKey valid' k /\ forall b, valid' (f b) = valid b
  | _ => o' = o
  end.

Lemma routine_renames o o' : same_op o o' -> renames ren_value (routine o) (routine o').
Proof.
  destruct o as [k|k b|k|ks|valid k]; cbn [same_op]; [intros ->..|intros (valid' & -> & Hv)]; cbn [routine].
  - apply load_ren.
  - eapply renames_then; [apply store_renames|]. by intros [].
  - eapply renames_then; [apply delete_renames|]. by intros [].
  - eapply renames_bind; [apply migrate_all_renames|]. by intros s.
  - eapply renames_then; [by apply db_key_renames|]. by intros x.
Qed.
End Rename.

(** The log and the errors carry nothing of a secret's value: with any
    other values in the keychain, the same where they were the same, and the
    keychain failing the same, a routine stops at the same place, writes the
    same lines, ends with the same errors, and knows the same of each entry. *)
Theorem nothing_is_said_of_the_values (f : text -> text) h o o' w w' a : Inj (=) (=) f -> same_op f o o' ->
  runs (does h) (routine o) w w' a ->
  exists w2 a2, runs (does h) (routine o') (ren_world f w) w2 a2 /\
    lines w2 = lines w' /\ legacy w2 = legacy w' /\ entries w2 = f <$> entries w' /\
    (forall e, a = Some (Err e) <-> a2 = Some (Err e)) /\ (a = None <-> a2 = None).
Proof.
  intros Hinj Ho Hr. exists (ren_world f w'), (ren_value f <$> a).
  split; [exact (runs_ren f h _ _ _ _ _ _ Hr (routine_renames f o o' Ho))|]. repeat (split; [done|]).
  split; [intros e|]; destruct a as [[x|e']|]; cbn; split; congruence.
Qed.

(** ** Instances *)
Module Demo.
Definition ana : text := lit "ana@exemple.cat".
Definition bep : text := lit "bep@exemple.cat".
Definition cesc : text := lit "cesc@exemple.cat".
Definition secret : text := lit "s3cret".
Definition newer : text := lit "n3wer".

(** One entry under [meron], one under both, one that differs. *)
Definition start : World :=
  {| entries := <[(Meron, ana) := secret]> (<[(Oreneta, bep) := secret]> (<[(Meron, bep) := secret]>
                  (<[(Oreneta, cesc) := newer]> (<[(Meron, cesc) := secret]> empty))));
     legacy := empty; lines := [] |}.

Definition run (o : op) (w : World) : World := (exec (perfect newer) (routine o) w).1.
Definition said (o : op) (w : World) : result text (option text) := (exec (perfect newer) (routine o) w).2.

Lemma run_step h o w : step h w o (Some (said o w)) (run o w).
Proof. constructor. apply exec_runs. intros X e v. apply perfect_does. Qed.

Lemma then_ran h o w r l w' : said o w = r -> history (step h) (run o w) l w' -> history (step h) w ((o, Some r) :: l) w'.
Proof. intros <- Hl. econstructor; [apply run_step|done]. Qed.

(** The only key of the store that is any good here. *)
Definition good (b : text) : bool := bool_decide (b = secret).
End Demo.

Lemma keychain_is_a_map_witness :
  history spec (view Demo.start)
    [(Load Demo.ana, Some (Ok (Some Demo.secret))); (Store Demo.ana Demo.newer, Some (Ok None));
     (Load Demo.ana, Some (Ok (Some Demo.newer))); (Remove Demo.cesc, Some (Ok None)); (Load Demo.cesc, Some (Ok None))]
    (view (Demo.run (Load Demo.cesc) (Demo.run (Remove Demo.cesc) (Demo.run (Load Demo.ana)
       (Demo.run (Store Demo.ana Demo.newer) (Demo.run (Load Demo.ana) Demo.start)))))).
Proof.
  apply keychain_is_a_map; [reflexivity|].
  repeat (apply Demo.then_ran; [vm_compute; reflexivity|]). constructor.
Defined.

Lemma the_old_entry_goes_only_for_its_copy_witness :
  theirs Demo.ana Demo.start = Some Demo.secret /\
  ours Demo.ana (Demo.run (Load Demo.ana) Demo.start) = Some Demo.secret.
Proof.
  split; [vm_compute; reflexivity|].
  destruct (the_old_entry_goes_only_for_its_copy true Demo.start [] Demo.start (Load Demo.ana)
              (Some (Demo.said (Load Demo.ana) Demo.start)) (Demo.run (Load Demo.ana) Demo.start) Demo.ana Demo.secret)
    as [H _]; [reflexivity|constructor|discriminate|apply Demo.run_step|].
  destruct (H eq_refl) as [Hm|[Ho|(b & [=] & _)]]; [discriminate| |exact Ho].
  vm_compute in Hm. discriminate Hm.
Defined.

Lemma a_good_key_is_never_replaced_witness :
  good_key Demo.good Demo.cesc Demo.start = Some Demo.secret /\
  Demo.said (DbKey Demo.good Demo.cesc) Demo.start = Ok (Some Demo.secret).
Proof.
  split; [vm_compute; reflexivity|].
  destruct (a_good_key_is_never_replaced true Demo.good Demo.cesc Demo.secret Demo.start
              (Some (Demo.said (DbKey Demo.good Demo.cesc) Demo.start)) (Demo.run (DbKey Demo.good Demo.cesc) Demo.start))
    as [_ H]; [reflexivity|vm_compute; reflexivity|apply Demo.run_step|].
  destruct (Demo.said (DbKey Demo.good Demo.cesc) Demo.start) as [x|e] eqn:E; [by rewrite (H x eq_refl)|].
  vm_compute in E. discriminate E.
Defined.

Lemma the_sweep_moves_what_it_can_witness :
  exists w', exec (perfect Demo.newer) (migrate_all [Demo.ana; Demo.bep; Demo.cesc]) Demo.start =
      (w', {| checked := 3; moved := 1; deferred := 1; unreadable := 0 |}) /\
    theirs Demo.bep w' = None /\ theirs Demo.cesc w' = Some Demo.secret.
Proof.
  destruct (the_sweep_moves_what_it_can Demo.newer Demo.start [Demo.ana; Demo.bep; Demo.cesc]) as (w' & E & Hin & _);
    [reflexivity|apply (bool_decide_unpack _); vm_compute; exact I|].
  exists w'. split; [exact E|]. split.
  - destruct (Hin Demo.bep) as [_ ->]; [right; left|vm_compute; reflexivity].
  - destruct (Hin Demo.cesc) as [_ ->]; [right; right; left|vm_compute; reflexivity].
Defined.

Lemma nothing_is_said_of_the_values_witness :
  exists w2 a2, runs (does true) (load Demo.cesc) (ren_world (cons 33%Z) Demo.start) w2 a2 /\
    lines w2 = [(Warn, differ Demo.cesc)].
Proof.
  destruct (nothing_is_said_of_the_values (cons 33%Z) true (Load Demo.cesc) (Load Demo.cesc) Demo.start
              (Demo.run (Load Demo.cesc) Demo.start) (Some (Demo.said (Load Demo.cesc) Demo.start)))
    as (w2 & a2 & Hr & Hl & _).
  - intros x y [= E]. exact E.
  - reflexivity.
  - unfold Demo.said, Demo.run. apply exec_runs. intros X e v. apply perfect_does.
  - exists w2, a2. split; [exact Hr|]. rewrite Hl. vm_compute. reflexivity.
Defined.
End SecretsSweep.
