(* ===== verification/CredentialChunks.v ===== *)
(** * Secrets larger than a credential

    Models the Windows keychain of [meron-core/src/secrets.rs]: a credential
    holds 1280 UTF-16 units, so a larger blob is split across companion
    entries of one of two generations, and the main entry holds a marker that
    names the generation and the number of chunks.  Also the names of the
    entries in another profile of the application ([scoped_for]). *)
From S2P Require Import Prelude.
From S2P Require Import Text.
From S2P Require Import Program.

Module CredentialChunks.
#[local] Open Scope Z_scope.

(** ** Names *)

Definition scoped_for (profile : option text) (account : text) : text :=
  match trim <$> profile with
  | None => account
  | Some p => if bool_decide (p = []) || bool_decide (p = lit "default") then account
              else lit "profile:" ++ p ++ lit "/" ++ account
  end.

(** ** Chunks *)

Definition CHUNK_UTF16 : Z := 1200.
Definition MAX_CHUNKS : Z := 32.
Definition CHUNKED_MARKER : text := lit "meron-chunked:".

Definition chunk_account (account : text) (generation index : Z) : text :=
  account ++ lit "--meron-g" ++ show_Z generation ++ lit "c" ++ show_Z index.

Definition parse_marker (head : text) : option (Z * Z) :=
  rest ← strip_prefix CHUNKED_MARKER head;
  '(generation, count) ← split_once 58 rest;
  g ← parse_unsigned 255 generation;
  n ← parse_unsigned (2 ^ 64 - 1) count;
  Some (g, n).

(** [char::len_utf16] *)
Definition len_utf16 (c : Z) : Z := if c <? 65536 then 1 else 2.
Definition utf16_len (s : text) : Z := foldr (fun c n => len_utf16 c + n) 0 s.

Definition fits_in_credential (blob : text) : bool := utf16_len blob <=? CHUNK_UTF16.

(** The loop of [split_blob]: the chunk being filled, and its units. *)
Fixpoint split_from (chunk : text) (units : Z) (blob : text) : list text :=
  match blob with
  | [] => if is_empty chunk then [] else [chunk]
  | ch :: rest =>
      let width := len_utf16 ch in
      if CHUNK_UTF16 <? units + width then chunk :: split_from [ch] width rest
      else split_from (chunk ++ [ch]) (units + width) rest
  end.

Definition split_blob (blob : text) : list text := split_from [] 0 blob.

(** ** The credential manager *)

Inductive Ev : Type -> Type :=
| GetPassword (service account : text) : Ev (result text (option text))
| SetPassword (service account blob : text) : Ev (result text unit)
| DeleteCredential (service account : text) : Ev (result text unit).

Definition context {A} (c : text) (r : result text A) : result text A :=
  match r with Ok a => Ok a | Err e => Err (c ++ lit ": " ++ e) end.

Definition entry_for (verb service account : text) : text :=
  verb ++ lit " " ++ service ++ lit " keychain entry for " ++ account.

Definition read_entry (service account : text) : prog Ev (result text (option text)) :=
  (r <- call (GetPassword service account) ;; Ret (context (entry_for (lit "read") service account) r))%prog.

Definition write_entry (service account blob : text) : prog Ev (result text unit) :=
  (r <- call (SetPassword service account blob) ;; Ret (context (entry_for (lit "write") service account) r))%prog.

Definition delete_entry (service account : text) : prog Ev (result text unit) :=
  (r <- call (DeleteCredential service account) ;; Ret (context (entry_for (lit "delete") service account) r))%prog.

(** One entry of a sweep: the first failure is kept, and the sweep goes on. *)
Definition delete_chunk (service account : text) (generation index : Z) (failure : option text) : prog Ev (option text) :=
  (deleted <- delete_entry service (chunk_account account generation index) ;;
  Ret match deleted, failure with Err e, None => Some e | _, _ => failure end)%prog.

Definition delete_chunks (service account : text) (generation : Z) (range : list Z) : prog Ev (result text unit) :=
  (failure <- for_each range None (delete_chunk service account generation) ;;
  Ret match failure with None => Ok tt | Some e => Err e end)%prog.

Definition sweep_chunks (service account : text) : prog Ev (result text unit) :=
  (zero <- delete_chunks service account 0 (seqZ 0 MAX_CHUNKS) ;;
  one <- delete_chunks service account 1 (seqZ 0 MAX_CHUNKS) ;;
  Ret match zero with Ok _ => one | Err e => Err e end)%prog.

Definition missing_chunk (service account : text) (index : Z) : text :=
  lit "missing " ++ service ++ lit " keychain chunk " ++ show_Z index ++ lit " for " ++ account.

Definition add_chunk (service account : text) (generation index : Z) (blob : result text text) : prog Ev (result text text) :=
  match blob with
  | Err e => Ret (Err e)
  | Ok blob =>
      (r <-? read_entry service (chunk_account account generation index) ;;
      Ret match r with Some chunk => Ok (blob ++ chunk) | None => Err (missing_chunk service account index) end)%prog
  end.

Definition backend_load (service account : text) : prog Ev (result text (option text)) :=
  (head <-? read_entry service account ;;
  match head with
  | None => Ret (Ok None)
  | Some head =>
      match parse_marker head with
      | None => Ret (Ok (Some head))
      | Some (generation, count) =>
          blob <-? for_each (seqZ 0 count) (Ok []) (add_chunk service account generation) ;;
          Ret (Ok (Some blob))
      end
  end)%prog.

Definition too_many (account : text) (n : Z) : text :=
  lit "secrets for " ++ account ++ lit " need " ++ show_Z n ++ lit " keychain chunks, over the 32 limit".

Definition write_chunk (service account : text) (generation : Z) (chunk : Z * text) (r : result text unit) : prog Ev (result text unit) :=
  match r with
  | Err e => Ret (Err e)
  | Ok _ => write_entry service (chunk_account account generation (fst chunk)) (snd chunk)
  end.

Definition marker (generation n : Z) : text := CHUNKED_MARKER ++ show_Z generation ++ lit ":" ++ show_Z n.

(** [live.map_or(0, |(live, _)| live ^ 1)] *)
Definition other_generation (live : option (Z * Z)) : Z :=
  match live with None => 0 | Some (live, _) => Z.lxor live 1 end.

Definition backend_store (service account blob : text) : prog Ev (result text unit) :=
  (head <-? read_entry service account ;;
  if fits_in_credential blob then
    _ <-? write_entry service account blob ;;
    _ <- sweep_chunks service account ;;
    Ret (Ok tt)
  else
    let generation := other_generation (head ≫= parse_marker) in
    let chunks := split_blob blob in
    let n := Z.of_nat (length chunks) in
    _ <-? Ret (ensure (n <=? MAX_CHUNKS) (too_many account n)) ;;
    _ <-? for_each (zip (seqZ 0 n) chunks) (Ok tt) (write_chunk service account generation) ;;
    _ <-? write_entry service account (marker generation n) ;;
    _ <- delete_chunks service account (Z.lxor generation 1) (seqZ 0 MAX_CHUNKS) ;;
    _ <- delete_chunks service account generation (seqZ n (MAX_CHUNKS - n)) ;;
    Ret (Ok tt))%prog.

Definition backend_delete (service account : text) : prog Ev (result text unit) :=
  (_ <-? sweep_chunks service account ;; delete_entry service account)%prog.

(** ** Splitting *)

Lemma split_from_concat chunk units blob : concat (split_from chunk units blob) = chunk ++ blob.
Proof.
  revert chunk units. induction blob as [|ch blob IH]; intros chunk units; cbn.
  - destruct chunk; cbn; by rewrite ?app_nil_r.
  - case_match; cbn; rewrite IH; [done|]. by rewrite <- app_assoc.
Qed.

Lemma len_utf16_bounds c : 1 <= len_utf16 c <= 2.
Proof. unfold len_utf16. case_match; lia. Qed.

Lemma utf16_len_app a b : utf16_len (a ++ b) = utf16_len a + utf16_len b.
Proof. induction a as [|c a IH]; cbn; [done|]. unfold utf16_len in *. lia. Qed.

Lemma split_from_fits chunk units blob : utf16_len chunk = units -> units <= CHUNK_UTF16 ->
  Forall (fun c => fits_in_credential c = true) (split_from chunk units blob).
Proof.
  unfold fits_in_credential. revert chunk units. induction blob as [|ch blob IH]; intros chunk units Hc Hu; cbn.
  - destruct chunk; constructor; [|constructor]. bools. lia.
  - pose proof (len_utf16_bounds ch). case_match eqn:E; bools in E.
    + constructor; [bools; lia|]. apply IH; [unfold utf16_len; cbn; lia|unfold CHUNK_UTF16; lia].
    + apply IH; [rewrite utf16_len_app; unfold utf16_len at 2; cbn; lia|lia].
Qed.

Lemma split_from_count chunk units blob : 0 <= units ->
  (CHUNK_UTF16 - 1) * (Z.of_nat (length (split_from chunk units blob)) - 1) <= units + utf16_len blob.
Proof.
  unfold CHUNK_UTF16. revert chunk units. induction blob as [|ch blob IH]; intros chunk units Hu; cbn.
  - destruct chunk; cbn; lia.
  - pose proof (len_utf16_bounds ch). unfold CHUNK_UTF16. case_match eqn:E; bools in E.
    + specialize (IH [ch] (len_utf16 ch)). cbn [length]. unfold utf16_len in *. lia.
    + specialize (IH (chunk ++ [ch]) (units + len_utf16 ch)). unfold utf16_len in *. lia.
Qed.

(** A blob is split into chunks that each fit a credential, none cut
    inside a character, and that together are the blob; a blob of fewer than
    38,368 UTF-16 units is never refused for its length. *)
Theorem chunks_rejoin blob :
  concat (split_blob blob) = blob /\
  Forall (fun c => fits_in_credential c = true) (split_blob blob) /\
  (utf16_len blob < 38368 -> Z.of_nat (length (split_blob blob)) <= MAX_CHUNKS).
Proof.
  split; [apply split_from_concat|split; [by apply split_from_fits|]].
  intros Hl. pose proof (split_from_count [] 0 blob). unfold split_blob, CHUNK_UTF16, MAX_CHUNKS in *. lia.
Qed.

(** ** Names and markers are read back *)

Lemma show_Z_inj a b : 0 <= a -> 0 <= b -> show_Z a = show_Z b -> a = b.
Proof.
  intros Ha Hb E. destruct (show_Z_digits a Ha) as [_ Pa], (show_Z_digits b Hb) as [_ Pb].
  rewrite E in Pa. congruence.
Qed.

Lemma chunk_account_inj a g i g' i' : 0 <= g -> 0 <= i -> 0 <= g' -> 0 <= i' ->
  chunk_account a g i = chunk_account a g' i' -> g = g' /\ i = i'.
Proof.
  unfold chunk_account. intros Hg Hi Hg' Hi' E. apply app_inv_head in E. apply app_inv_head in E.
  change (lit "c") with [99] in E. cbn [app] in E.
  pose proof (split_once_app 99 (show_Z g) (show_Z i) (show_Z_chars 99 g ltac:(done) eq_refl)) as E1.
  rewrite E, split_once_app in E1 by (by apply show_Z_chars).
  injection E1 as E2 E3. split; symmetry; by apply show_Z_inj.
Qed.

Lemma chunk_account_ne a g i : chunk_account a g i <> a.
Proof.
  unfold chunk_account. intros E. apply (f_equal length) in E. rewrite !length_app in E.
  assert (length (lit "--meron-g") = 9%nat) by reflexivity. lia.
Qed.

Lemma parse_marker_marker g n : 0 <= g <= 255 -> 0 <= n < 2 ^ 64 -> parse_marker (marker g n) = Some (g, n).
Proof.
  intros Hg Hn. unfold parse_marker, marker. rewrite strip_prefix_app. cbn [mbind option_bind].
  change (lit ":" ++ show_Z n) with (58 :: show_Z n).
  rewrite split_once_app by (by apply show_Z_chars). cbn [mbind option_bind].
  rewrite (parse_unsigned_show 255) by lia. cbn [mbind option_bind].
  by rewrite parse_unsigned_show by lia.
Qed.

(** ** A credential manager *)

(** Every call may fail, and then changes nothing. *)
Notation World := (gmap (text * text) text).

Definition does (X : Type) (e : Ev X) : World -> World -> X -> Prop :=
  match e in Ev X return World -> World -> X -> Prop with
  | GetPassword s a => fun w w' r => w' = w /\ forall o, r = Ok o -> o = w !! (s, a)
  | SetPassword s a b => fun w w' r => w' = match r with Ok _ => <[(s, a) := b]> w | Err _ => w end
  | DeleteCredential s a => fun w w' r => w' = match r with Ok _ => delete (s, a) w | Err _ => w end
  end.

(** What an account reads as while nothing fails; [None] when it cannot be
    read, a chunk being missing. *)
Definition stored (s a : text) (w : World) : option (option text) :=
  match w !! (s, a) with
  | None => Some None
  | Some head =>
      match parse_marker head with
      | None => Some (Some head)
      | Some (g, n) => (fun chunks => Some (concat chunks)) <$> mapM (fun i => w !! (s, chunk_account a g i)) (seqZ 0 n)
      end
  end.

(** An entry of one of the generations of an account. *)
Definition is_chunk (a : text) (g : Z) (name : text) : Prop := exists i, 0 <= i /\ name = chunk_account a g i.

(** Every entry is as it was, but some of one account. *)
Definition same_but (s : text) (P : text -> Prop) (w w' : World) : Prop :=
  forall s' name, ~ (s' = s /\ P name) -> w' !! (s', name) = w !! (s', name).

Lemma same_but_refl s P w : same_but s P w w.
Proof. by intros s' name. Qed.

Lemma same_but_trans s P w1 w2 w3 : same_but s P w1 w2 -> same_but s P w2 w3 -> same_but s P w1 w3.
Proof. intros H1 H2 s' name Hn. rewrite H2, H1 by done. done. Qed.

Lemma same_but_weaken s (P P' : text -> Prop) w w' : (forall n, P n -> P' n) -> same_but s P w w' -> same_but s P' w w'.
Proof. intros HP H s' name Hn. apply H. intros [-> Hp]. apply Hn. auto. Qed.

Lemma same_but_insert s (P : text -> Prop) name b w : P name -> same_but s P w (<[(s, name) := b]> w).
Proof. intros HP s' n Hn. rewrite lookup_insert_ne; [done|]. intros [= <- <-]. auto. Qed.

Lemma same_but_delete s (P : text -> Prop) name w : P name -> same_but s P w (delete (s, name) w).
Proof. intros HP s' n Hn. rewrite lookup_delete_ne; [done|]. intros [= <- <-]. auto. Qed.

(** What an account reads as depends on its main entry and on the chunks of
    the generation that is live. *)
Lemma stored_same s a (P : text -> Prop) w w' : same_but s P w w' -> ~ P a ->
  (forall head g n, w !! (s, a) = Some head -> parse_marker head = Some (g, n) ->
     forall i, 0 <= i < n -> ~ P (chunk_account a g i)) ->
  stored s a w' = stored s a w.
Proof.
  intros Hsame Ha Hg. unfold stored. rewrite Hsame by (intros [_ H]; auto).
  destruct (w !! (s, a)) as [head|] eqn:Eh; [|done]. destruct (parse_marker head) as [[g n]|] eqn:Em; [|done].
  f_equal. apply Forall_mapM_ext, Forall_forall.
  intros i Hi. apply elem_of_seqZ in Hi. apply Hsame. intros [_ HP]. eapply Hg; [done|exact Em| |exact HP]. lia.
Qed.

Lemma on_set {R} (s a b : text) (c : result text unit -> prog Ev R) (I : World -> Prop) (Q : R -> World -> Prop) w :
  (forall r, I (match r with Ok _ => <[(s, a) := b]> w | Err _ => w end) /\
             ensures does I (c r) Q (match r with Ok _ => <[(s, a) := b]> w | Err _ => w end)) ->
  ensures does I (Vis (SetPassword s a b) c) Q w.
Proof. intros H w' r ->. apply H. Qed.

Lemma delete_chunks_same s a g range (P : text -> Prop) w0 w :
  (forall i, i ∈ range -> P (chunk_account a g i)) -> same_but s P w0 w ->
  ensures does (same_but s P w0) (delete_chunks s a g range) (fun _ => same_but s P w0) w.
Proof.
  intros HP H0. unfold delete_chunks. apply ensures_bind.
  apply (ensures_for_each _ _ _ _ (fun _ _ => same_but s P w0)) with (done := []); [done| |by intros r w'].
  intros _ i f w' Hw' Hi. unfold delete_chunk, delete_entry. cbn.
  intros w2 r ->. assert (same_but s P w0
    match r with Ok _ => delete (s, chunk_account a g i) w' | Err _ => w' end) as H2; [|done].
  destruct r; [|done]. eapply same_but_trans; [exact Hw'|]. by apply same_but_delete, HP.
Qed.

Lemma digits_value_nonneg acc t n : 0 <= acc -> digits_value acc t = Some n -> 0 <= n.
Proof.
  revert acc. induction t as [|c t IH]; intros acc Ha; cbn; [by intros [= <-]|].
  destruct (is_ascii_digit c) eqn:Hc; [|done]. apply IH. unfold is_ascii_digit in Hc. bools in Hc. lia.
Qed.

Lemma parse_unsigned_bounds max t n : parse_unsigned max t = Some n -> 0 <= n <= max.
Proof.
  unfold parse_unsigned. set (body := match t with 43 :: r => r | _ => t end).
  intros H. destruct (parse_digits body) as [m|] eqn:E; [|done]. cbn in H.
  destruct (m <=? max) eqn:Em; [|done]. injection H as <-. bools in Em. split; [|done].
  unfold parse_digits in E. destruct body; [done|]. by apply digits_value_nonneg in E.
Qed.

Lemma parse_marker_bounds head g n : parse_marker head = Some (g, n) -> 0 <= g <= 255.
Proof.
  unfold parse_marker. intros H. destruct (strip_prefix _ head) as [rest|]; [|done]. cbn in H.
  destruct (split_once 58 rest) as [[a b]|]; [|done]. cbn in H.
  destruct (parse_unsigned 255 a) as [g'|] eqn:E; [|done]. cbn in H.
  destruct (parse_unsigned _ b); [|done]. injection H as <- <-. by apply parse_unsigned_bounds in E.
Qed.

(** The generation written is not the live one. *)
Lemma other_generation_other live g n : live = Some (g, n) -> other_generation live <> g.
Proof.
  intros ->. cbn. intros E. apply (f_equal (fun x => Z.testbit x 0)) in E. rewrite Z.lxor_spec in E.
  change (Z.testbit 1 0) with true in E. by destruct (Z.testbit g 0).
Qed.

Lemma flip_bounds g : 0 <= g <= 255 -> 0 <= Z.lxor g 1 <= 255.
Proof.
  intros Hg. assert (forallb (fun g => (0 <=? Z.lxor g 1) && (Z.lxor g 1 <=? 255)) (seqZ 0 256) = true) as Hall
    by (vm_compute; reflexivity).
  rewrite forallb_forall in Hall. specialize (Hall g). bools in Hall. apply Hall.
  apply list_elem_of_In, elem_of_seqZ. lia.
Qed.

Lemma other_generation_bounds head : 0 <= other_generation (head ≫= parse_marker) <= 255.
Proof.
  destruct (head ≫= parse_marker) as [[g n]|] eqn:E; cbn; [|lia].
  destruct head as [h|]; [|done]. cbn in E. apply parse_marker_bounds in E. by apply flip_bounds.
Qed.

Section Store.
Context (s a blob : text) (w0 : World).

Definition ours (name : text) : Prop := name = a \/ exists g i, 0 <= g /\ 0 <= i /\ name = chunk_account a g i.

Definition safe (w : World) : Prop :=
  (stored s a w = stored s a w0 \/ stored s a w = Some (Some blob)) /\ same_but s ours w0 w.
Definition done_with (r : result text unit) (w : World) : Prop :=
  stored s a w = match r with Ok _ => Some (Some blob) | Err _ => stored s a w0 end /\ same_but s ours w0 w.

Lemma done_safe r w : done_with r w -> safe w.
Proof. intros [H Hs]. split; [|done]. destruct r; auto. Qed.

Lemma safe_start : safe w0.
Proof. split; [by left|apply same_but_refl]. Qed.

(** The sweeps of the end change nothing that is read. *)
Lemma swept_done (P : text -> Prop) w1 w : done_with (Ok tt) w1 -> same_but s P w1 w ->
  (forall n, P n -> ours n /\ n <> a) ->
  (forall head g n, w1 !! (s, a) = Some head -> parse_marker head = Some (g, n) ->
     forall i, 0 <= i < n -> ~ P (chunk_account a g i)) ->
  done_with (Ok tt) w.
Proof.
  intros [Hd Hs] Hw HP Hg. split.
  - rewrite <- Hd. apply (stored_same s a P); [done| |done]. intros Ha. by destruct (HP a Ha).
  - eapply same_but_trans; [exact Hs|]. apply (same_but_weaken s P); [|done]. intros n Hn. by apply HP.
Qed.

Definition any_chunk (name : text) : Prop := exists g i, 0 <= g /\ 0 <= i /\ name = chunk_account a g i.

Lemma any_chunk_ours n : any_chunk n -> ours n /\ n <> a.
Proof. intros (g & i & Hg & Hi & ->). split; [right; eauto 6|apply chunk_account_ne]. Qed.

Lemma plain_store : (parse_marker blob = None) ->
  ensures does safe (_ <-? write_entry s a blob ;; _ <- sweep_chunks s a ;; Ret (Ok tt))%prog done_with w0.
Proof.
  intros Hp. apply ensures_and_then. unfold write_entry. cbn [call prog_bind].
  apply on_set. intros [[]|e].
  2: { split; [apply safe_start|]. split; [done|apply same_but_refl]. }
  set (w1 := <[(s, a) := blob]> w0).
  assert (done_with (Ok tt) w1) as H1.
  { split; [|apply same_but_insert; by left]. unfold stored, w1. by rewrite lookup_insert_eq, Hp. }
  split; [by apply (done_safe (Ok tt))|]. cbn [ensures prog_bind context].
  assert (forall w, same_but s any_chunk w1 w -> done_with (Ok tt) w) as Hd.
  { intros w Hw. apply (swept_done any_chunk w1); [done..|apply any_chunk_ours|].
    intros head g n Hh Hm. unfold w1 in Hh. rewrite lookup_insert_eq in Hh. congruence. }
  apply ensures_bind. unfold sweep_chunks. apply ensures_bind.
  assert (forall g w, 0 <= g -> same_but s any_chunk w1 w ->
            ensures does safe (delete_chunks s a g (seqZ 0 MAX_CHUNKS)) (fun _ => same_but s any_chunk w1) w) as Hsw.
  { intros g w Hg Hw. eapply ensures_mono_inv; [|apply delete_chunks_same; [|exact Hw]].
    - intros w2 H2. apply (done_safe (Ok tt)), Hd, H2.
    - intros i Hi. apply elem_of_seqZ in Hi. exists g, i. repeat split; lia. }
  eapply ensures_mono; [|apply (Hsw 0); [lia|apply same_but_refl]]. intros zero w2 H2.
  apply ensures_bind. eapply ensures_mono; [|apply (Hsw 1); [lia|exact H2]]. intros one w3 H3.
  cbn [ensures]. by apply Hd.
Qed.

(** *** In chunks *)
Section Chunked.
Context (g : Z) (chunks : list text).
Let n := Z.of_nat (length chunks).
Context (Hg : 0 <= g <= 255) (Hn : n <= MAX_CHUNKS) (Hblob : concat chunks = blob).
Context (Hlive : forall head g' m, w0 !! (s, a) = Some head -> parse_marker head = Some (g', m) -> 0 <= g' /\ g' <> g).

Definition new_chunk (name : text) : Prop := exists i, 0 <= i /\ name = chunk_account a g i.

Lemma new_chunk_ours name : new_chunk name -> ours name /\ name <> a.
Proof. intros (i & Hi & ->). apply any_chunk_ours. exists g, i. repeat split; lia. Qed.

Lemma unseen w : same_but s new_chunk w0 w -> stored s a w = stored s a w0.
Proof.
  intros Hw. apply (stored_same s a new_chunk); [done| |].
  - intros Ha. by destruct (new_chunk_ours a Ha).
  - intros head g' m Hh Hm i Hi (j & Hj & E). destruct (Hlive _ _ _ Hh Hm) as [Hg' Hne].
    apply chunk_account_inj in E; [by destruct E|lia..].
Qed.

Lemma unseen_safe w : same_but s new_chunk w0 w -> safe w.
Proof.
  intros Hw. split; [left; by apply unseen|]. apply (same_but_weaken s new_chunk); [|done]. intros m Hm. by apply new_chunk_ours.
Qed.

(** The chunks written so far are there. *)
Definition filled (done : list (Z * text)) (r : result text unit) (w : World) : Prop :=
  same_but s new_chunk w0 w /\
  (is_ok r = true -> forall i c, (i, c) ∈ done -> w !! (s, chunk_account a g i) = Some c).

Lemma write_chunks Q :
  (forall r w, filled (zip (seqZ 0 n) chunks) r w -> Q r w) ->
  ensures does safe (for_each (zip (seqZ 0 n) chunks) (Ok tt) (write_chunk s a g)) Q w0.
Proof.
  intros HQ. assert (forall i c, (i, c) ∈ zip (seqZ 0 n) chunks -> 0 <= i) as Hpos.
  { intros i c Hin. apply elem_of_zip_l, elem_of_seqZ in Hin. lia. }
  assert (NoDup (zip (seqZ 0 n) chunks).*1) as Hnd.
  { rewrite fst_zip; [apply NoDup_seqZ|rewrite length_seqZ; lia]. }
  revert Hpos Hnd HQ. generalize (zip (seqZ 0 n) chunks). intros l Hpos Hnd HQ.
  assert (forall l1 l2 r w, l = l1 ++ l2 -> filled l1 r w -> ensures does safe (for_each l2 r (write_chunk s a g)) Q w) as Hgo.
  { intros l1 l2. revert l1. induction l2 as [|[i c] l2 IH]; intros l1 r w E Hw; cbn [for_each].
    - apply HQ. rewrite app_nil_r in E. by subst l1.
    - apply ensures_bind. assert (0 <= i) as Hi by (apply (Hpos i c); rewrite E; set_solver).
      assert (l = (l1 ++ [(i, c)]) ++ l2) as E2 by by rewrite <- app_assoc.
      destruct r as [[]|e]; cbn [write_chunk fst snd].
      + unfold write_entry. cbn [call prog_bind]. apply on_set. intros r. destruct Hw as [Hs Hc].
        assert (filled (l1 ++ [(i, c)]) r
                  (match r with Ok _ => <[(s, chunk_account a g i) := c]> w | Err _ => w end)) as Hf.
        { split.
          - destruct r; [|done]. eapply same_but_trans; [exact Hs|]. apply same_but_insert. by exists i.
          - destruct r as [[]|]; [|done]. intros _ i' c' Hin. apply elem_of_app in Hin as [Hin|Hin].
            + destruct (decide (i' = i)) as [->|Hne].
              * rewrite E2, fmap_app, NoDup_app in Hnd. destruct Hnd as [Hnd _]. rewrite fmap_app, NoDup_app in Hnd.
                destruct Hnd as (_ & Hx & _). destruct (Hx i); [by apply (list_elem_of_fmap_2 fst _ (i, c'))|by left].
              * assert (0 <= i') by (apply (Hpos i' c'); rewrite E; set_solver).
                rewrite lookup_insert_ne; [by apply Hc|]. intros [= E'].
                apply chunk_account_inj in E' as [_ E'']; [done|lia..].
            + apply list_elem_of_singleton in Hin. injection Hin as -> ->. by rewrite lookup_insert_eq. }
        split; [apply unseen_safe; by destruct Hf|]. cbn [ensures prog_bind]. apply (IH (l1 ++ [(i, c)])); [done|].
        destruct Hf as [Hf1 Hf2]. split; [done|]. destruct r; [exact Hf2|done].
      + cbn [ensures]. apply (IH (l1 ++ [(i, c)])); [done|]. destruct Hw as [Hs _]. by split. }
  apply (Hgo [] l); [done|]. split; [apply same_but_refl|]. intros _ i c Hin. by apply not_elem_of_nil in Hin.
Qed.

(** The marker makes the new chunks what is read. *)
Lemma marked w : filled (zip (seqZ 0 n) chunks) (Ok tt) w -> done_with (Ok tt) (<[(s, a) := marker g n]> w).
Proof.
  intros [Hs Hc]. assert (forall i, chunk_account a g i <> a) as Hna by (intros i; apply chunk_account_ne).
  split.
  - unfold stored. rewrite lookup_insert_eq, parse_marker_marker by (unfold MAX_CHUNKS in Hn; lia).
    rewrite <- Hblob. erewrite mapM_Some_2; [done|]. apply Forall2_same_length_lookup_2; [rewrite length_seqZ; lia|].
    intros j i c Hi Hj. rewrite lookup_insert_ne by (intros [= E]; by apply (Hna i)).
    apply (Hc eq_refl). apply list_elem_of_lookup. exists j. by rewrite lookup_zip_with, Hi, Hj.
  - eapply same_but_trans; [|by apply same_but_insert; left].
    apply (same_but_weaken s new_chunk); [|done]. intros m Hm. by apply new_chunk_ours.
Qed.

Definition stale (name : text) : Prop :=
  exists g' i, 0 <= g' /\ 0 <= i /\ name = chunk_account a g' i /\ ~ (g' = g /\ i < n).

Lemma swept w1 w : done_with (Ok tt) w1 -> w1 !! (s, a) = Some (marker g n) -> same_but s stale w1 w -> done_with (Ok tt) w.
Proof.
  intros H1 Hm Hw. apply (swept_done stale w1); [done..| |].
  - intros name (g' & i & H & H' & -> & _). apply any_chunk_ours. exists g', i. auto.
  - intros head g' m Hh Hp i Hi (g2 & j & Hg2 & Hj & E & Hnot).
    rewrite Hm in Hh. injection Hh as <-. rewrite parse_marker_marker in Hp by (unfold MAX_CHUNKS in Hn; lia).
    injection Hp as <- <-. apply chunk_account_inj in E as [<- <-]; [|lia..]. apply Hnot. lia.
Qed.

Lemma chunked_store :
  ensures does safe
    (_ <-? for_each (zip (seqZ 0 n) chunks) (Ok tt) (write_chunk s a g) ;;
     _ <-? write_entry s a (marker g n) ;;
     _ <- delete_chunks s a (Z.lxor g 1) (seqZ 0 MAX_CHUNKS) ;;
     _ <- delete_chunks s a g (seqZ n (MAX_CHUNKS - n)) ;;
     Ret (Ok tt))%prog done_with w0.
Proof.
  apply ensures_and_then, write_chunks. intros r w Hf.
  assert (forall e, done_with (Err e) w) as Herr.
  { intros e. split; [by apply unseen, Hf|]. apply unseen_safe, Hf. }
  destruct r as [[]|e]; [|apply Herr].
  apply ensures_and_then. unfold write_entry. cbn [call prog_bind].
  apply on_set. intros [[]|e]; [|split; [apply (done_safe (Err e)), Herr|apply Herr]].
  pose proof (marked _ Hf) as H1. set (w1 := <[(s, a) := marker g n]> w) in *.
  assert (w1 !! (s, a) = Some (marker g n)) as Hm by apply lookup_insert_eq.
  split; [by apply (done_safe (Ok tt))|]. cbn [ensures prog_bind context].
  assert (forall g' range w2, (forall i, i ∈ range -> stale (chunk_account a g' i)) -> same_but s stale w1 w2 ->
            ensures does safe (delete_chunks s a g' range) (fun _ => same_but s stale w1) w2) as Hsw.
  { intros g' range w2 Hr Hw. eapply ensures_mono_inv; [|by apply delete_chunks_same].
    intros w3 H3. by apply (done_safe (Ok tt)), (swept w1). }
  apply ensures_bind. eapply ensures_mono; [|apply Hsw; [|apply same_but_refl]].
  2: { intros i Hi. apply elem_of_seqZ in Hi. exists (Z.lxor g 1), i. repeat split; [apply Z.lxor_nonneg; lia|lia|].
       intros [E _]. by apply (other_generation_other (Some (g, 0)) g 0). }
  intros r2 w2 H2. apply ensures_bind. eapply ensures_mono; [|apply Hsw; [|exact H2]].
  2: { intros i Hi. apply elem_of_seqZ in Hi. exists g, i. repeat split; lia. }
  intros r3 w3 H3. by apply (swept w1).
Qed.
End Chunked.

Lemma store_spec : (fits_in_credential blob = true -> parse_marker blob = None) ->
  ensures does safe (backend_store s a blob) done_with w0.
Proof.
  intros Hplain. assert (forall e, done_with (Err e) w0) as Herr by (intros e; split; [done|apply same_but_refl]).
  unfold backend_store. apply ensures_and_then. unfold read_entry. cbn [call prog_bind].
  intros w r [-> Hr]. split; [apply safe_start|]. cbn [ensures].
  destruct r as [head|e]; [|apply Herr]. cbn [context]. specialize (Hr head eq_refl).
  destruct (fits_in_credential blob); [by apply plain_store, Hplain|].
  set (chunks := split_blob blob). set (n := Z.of_nat (length chunks)).
  destruct (n <=? MAX_CHUNKS) eqn:En; [|apply Herr]. bools in En.
  set (g := other_generation (head ≫= parse_marker)).
  apply (chunked_store g chunks); [apply other_generation_bounds|done|apply split_from_concat|].
  intros h g' m Hh Hm. split; [apply parse_marker_bounds in Hm; lia|].
  intros ->. apply (other_generation_other (head ≫= parse_marker) g m); [|done].
  rewrite Hr, Hh. exact Hm.
Qed.
End Store.

(** C5. Whatever call of the credential manager fails, and wherever the
    process ends, a write leaves an account reading as it did before or as
    what was written: the latter when the write succeeds, the former when it
    reports an error.  Only entries of that account change.  (The one blob
    this excludes is one that looks like the marker itself.) *)
Theorem a_write_cut_short_keeps_the_secrets s a blob w w' o :
  (fits_in_credential blob = true -> parse_marker blob = None) ->
  runs does (backend_store s a blob) w w' o ->
  same_but s (ours a) w w' /\
  match o with
  | Some (Ok _) => stored s a w' = Some (Some blob)
  | Some (Err _) => stored s a w' = stored s a w
  | None => stored s a w' = stored s a w \/ stored s a w' = Some (Some blob)
  end.
Proof.
  intros Hp Hr. pose proof (store_spec s a blob w Hp) as He. destruct o as [r|].
  - destruct (ensures_end _ _ _ _ _ _ _ He Hr) as [H1 H2]. split; [done|]. by destruct r.
  - destruct (ensures_stop _ _ _ _ _ _ (safe_start s a blob w) He Hr) as [H1 H2]. by split.
Qed.

(** ** A keychain that answers, but for one deletion *)
Definition stuck (name : text) (X : Type) (e : Ev X) : World -> World * X :=
  match e in Ev X return World -> World * X with
  | GetPassword s a => fun w => (w, Ok (w !! (s, a)))
  | SetPassword s a b => fun w => (<[(s, a) := b]> w, Ok tt)
  | DeleteCredential s a => fun w =>
      if bool_decide (a = name) then (w, Err (lit "denied")) else (delete (s, a) w, Ok tt)
  end.

Lemma stuck_does name X (e : Ev X) w : does X e w (stuck name X e w).1 (stuck name X e w).2.
Proof. destruct e; cbn; [split; [done|by intros o [= <-]]|done|]. by case_bool_decide. Qed.

(** A load changes nothing, and answers what is stored or fails. *)
Lemma load_reads s a w :
  ensures does (eq w) (backend_load s a) (fun r w' => w = w' /\ forall o, r = Ok o -> stored s a w = Some o) w.
Proof.
  unfold backend_load, stored. apply ensures_and_then. unfold read_entry. cbn [call prog_bind].
  intros w' r [-> Hr]. split; [done|]. cbn [ensures]. destruct r as [o|e]; cbn [context]; [|by split].
  rewrite <- (Hr o eq_refl). destruct o as [head|]; [|cbn; split; [done|by intros o [= <-]]].
  destruct (parse_marker head) as [[g n]|]; [|cbn; split; [done|by intros o [= <-]]].
  apply ensures_and_then.
  set (get := fun i => w !! (s, chunk_account a g i)).
  apply (ensures_for_each _ _ _ _ (fun done r w' => w = w' /\ forall b, r = Ok b -> @concat Z <$> mapM get done = Some b)) with (done := []).
  - split; [done|]. by intros b [= <-].
  - intros d i r w2 [<- Hd] _. destruct r as [b|e]; cbn [add_chunk]; [|cbn; by split].
    apply ensures_and_then. unfold read_entry. cbn [call prog_bind].
    intros w2 r [-> Hr2]. split; [done|]. cbn [ensures]. destruct r as [o|e]; cbn [context]; [|by split].
    cbn [ensures]. split; [done|]. specialize (Hr2 o eq_refl). specialize (Hd b eq_refl).
    destruct o as [c|]; [|done]. intros b' [= <-].
    destruct (mapM get d) as [l|] eqn:El; [|done]. cbn in Hd. injection Hd as <-.
    rewrite (mapM_Some_2 get (d ++ [i]) (l ++ [c])).
    + cbn. by rewrite concat_app; cbn; rewrite app_nil_r.
    + apply Forall2_app; [by apply mapM_Some_1|]. constructor; [done|constructor].
  - intros r w2 [<- Hd]. cbn [app] in Hd. destruct r as [b|e]; cbn; (split; [done|]); [|done].
    intros o [= <-]. specialize (Hd b eq_refl). unfold get in Hd. by destruct (mapM _ (seqZ 0 n)); cbn in *; simplify_eq.
Qed.

Lemma stuck_one name s a gen i f w :
  exec (stuck name) (delete_chunk s a gen i f) w =
  if bool_decide (chunk_account a gen i = name)
  then (w, match f with
           | Some _ => f
           | None => Some (entry_for (lit "delete") s (chunk_account a gen i) ++ lit ": " ++ lit "denied")
           end)
  else (delete (s, chunk_account a gen i) w, f).
Proof.
  unfold delete_chunk, delete_entry. cbn [call prog_bind exec stuck]. case_bool_decide; cbn; [by destruct f|done].
Qed.

(** A sweep that meets one entry it may not delete deletes all the others. *)
Lemma stuck_sweep s a g j gen range : 0 <= g -> 0 <= j -> 0 <= gen -> Forall (fun i => 0 <= i) range ->
  forall w f, let w' := (exec (stuck (chunk_account a g j)) (for_each range f (delete_chunk s a gen)) w).1 in
    (forall k, (forall i, i ∈ range -> k <> (s, chunk_account a gen i)) -> w' !! k = w !! k) /\
    (forall i, i ∈ range -> ~ (gen = g /\ i = j) -> w' !! (s, chunk_account a gen i) = None) /\
    (is_Some f \/ (gen = g /\ j ∈ range) -> is_Some (exec (stuck (chunk_account a g j)) (for_each range f (delete_chunk s a gen)) w).2).
Proof.
  intros Hg Hj Hgen Hr. induction Hr as [|i range Hi Hr IH]; intros w f; cbn [for_each].
  - cbn. split; [done|]. split; [intros i Hi; by inversion Hi|]. intros [H|[_ H]]; [done|by inversion H].
  - rewrite exec_bind, stuck_one. case_bool_decide as E; cbn [fst snd].
    + apply chunk_account_inj in E as [-> ->]; [|done..].
      set (f' := match f with Some _ => f | None => _ end).
      assert (is_Some f') as Hf' by (unfold f'; destruct f; eauto).
      destruct (IH w f') as (H1 & H2 & H3). split; [|split].
      * intros k Hk. apply H1. intros i' Hi'. apply Hk. by right.
      * intros i' Hi' Hne. apply elem_of_cons in Hi' as [->|Hi']; [by destruct Hne|]. by apply H2.
      * intros _. apply H3. by left.
    + destruct (IH (delete (s, chunk_account a gen i) w) f) as (H1 & H2 & H3). split; [|split].
      * intros k Hk. rewrite H1 by (intros i' Hi'; apply Hk; by right).
        apply lookup_delete_ne. apply not_eq_sym, Hk. by left.
      * intros i' Hi' Hne. destruct (decide (i' ∈ range)) as [Hin|Hout]; [by apply H2|].
        apply elem_of_cons in Hi' as [->|Hi']; [|done].
        rewrite H1; [by apply lookup_delete_eq|]. intros i' Hi' [= E']. apply chunk_account_inj in E' as [_ ->]; [done|done..|].
        rewrite Forall_forall in Hr. by apply Hr.
      * intros [Hf|[-> Hin]]; apply H3; [by left|right]. split; [done|].
        apply elem_of_cons in Hin as [->|Hin]; [done|done].
Qed.

(** A deletion that fails on one chunk reports the failure, but has
    deleted the others and left the marker: from then on the account cannot
    be read at all. *)
Theorem a_failed_delete_cannot_be_read s a head g n j w : 0 <= g <= 1 -> 2 <= n <= MAX_CHUNKS ->
  w !! (s, a) = Some head -> parse_marker head = Some (g, n) -> 0 <= j < n ->
  let w' := (exec (stuck (chunk_account a g j)) (backend_delete s a) w).1 in
  (exists e, (exec (stuck (chunk_account a g j)) (backend_delete s a) w).2 = Err e) /\
  w' !! (s, a) = Some head /\ stored s a w' = None /\
  forall o r, runs does (backend_load s a) w' o (Some r) -> exists e, r = Err e.
Proof.
  intros Hg Hn Hhead Hm Hj. cbn zeta.
  assert (Forall (fun i => 0 <= i) (seqZ 0 MAX_CHUNKS)) as Hpos by (apply Forall_seqZ; lia).
  set (x := stuck (chunk_account a g j)).
  set (r0 := exec x (for_each (seqZ 0 MAX_CHUNKS) None (delete_chunk s a 0)) w).
  set (r1 := exec x (for_each (seqZ 0 MAX_CHUNKS) None (delete_chunk s a 1)) r0.1).
  destruct (stuck_sweep s a g j 0 (seqZ 0 MAX_CHUNKS) ltac:(lia) ltac:(lia) ltac:(lia) Hpos w None) as (A1 & A2 & A3).
  destruct (stuck_sweep s a g j 1 (seqZ 0 MAX_CHUNKS) ltac:(lia) ltac:(lia) ltac:(lia) Hpos r0.1 None) as (B1 & B2 & B3).
  fold x in A1, A2, A3, B1, B2, B3. fold r0 in A1, A2, A3. fold r1 in B1, B2, B3.
  assert (exists e, exec x (backend_delete s a) w = (r1.1, Err e)) as (e & E).
  { unfold backend_delete, sweep_chunks, delete_chunks, and_then. rewrite !exec_bind. fold r0. cbn [exec fst snd].
    fold r1. cbn [exec fst snd].
    assert (j ∈ seqZ 0 MAX_CHUNKS) as Hin by (apply elem_of_seqZ; lia).
    destruct (decide (g = 0)) as [->|Hne].
    - destruct A3 as [e ->]; [by right|]. cbn. eauto.
    - assert (g = 1) as -> by lia. destruct B3 as [e ->]; [by right|]. destruct (r0.2); cbn; eauto. }
  rewrite E. cbn [fst snd].
  assert (r1.1 !! (s, a) = Some head) as Hmain.
  { rewrite B1, A1; [done| |]; intros i _ [= Ea]; symmetry in Ea; by apply chunk_account_ne in Ea. }
  assert (stored s a r1.1 = None) as Hnone.
  { unfold stored. rewrite Hmain, Hm. set (i := if bool_decide (j = 0) then 1 else 0).
    assert (0 <= i < n /\ i <> j) as [Hi Hij] by (unfold i; case_bool_decide; lia).
    assert (i ∈ seqZ 0 MAX_CHUNKS) as Hin by (apply elem_of_seqZ; lia).
    erewrite (mapM_None_2 _ (seqZ 0 n)); [done|]. apply Exists_exists. exists i. split; [apply elem_of_seqZ; lia|].
    destruct (decide (g = 0)) as [->|Hne].
    - rewrite B1; [apply A2; [done|]; by intros []|]. intros i' Hi' [= E']. apply elem_of_seqZ in Hi'.
      apply chunk_account_inj in E' as [E' _]; lia.
    - assert (g = 1) as -> by lia. apply B2; [done|]. by intros []. }
  split; [by exists e|]. split; [done|]. split; [done|].
  intros o r Hr. pose proof (ensures_end _ _ _ _ _ _ _ (load_reads s a r1.1) Hr) as [_ Hl].
  destruct r as [x'|e']; [|by exists e']. by rewrite (Hl x' eq_refl) in Hnone.
Qed.

(** ** Profiles *)

(** Two profiles never name the same entry, if neither's name holds a slash. *)
Lemma scoped_apart p q a b : trim p <> [] -> trim q <> [] -> trim p <> lit "default" -> trim q <> lit "default" ->
  47 ∉ trim p -> 47 ∉ trim q -> scoped_for (Some p) a = scoped_for (Some q) b -> trim p = trim q /\ a = b.
Proof.
  intros Hp Hq Hdp Hdq Hsp Hsq. unfold scoped_for. cbn [fmap option_fmap option_map].
  rewrite !bool_decide_false by done. cbn [orb]. intros E. apply app_inv_head in E.
  change (lit "/") with [47] in E. cbn [app] in E.
  pose proof (split_once_app 47 (trim p) a Hsp) as E1. rewrite E, split_once_app in E1 by done. by injection E1 as -> ->.
Qed.

(** ** Instances *)
Module Demo.
Definition svc : text := lit "oreneta".
Definition ana : text := lit "ana@exemple.cat".
(** An account in two chunks of generation 1. *)
Definition split : World :=
  <[(svc, ana) := marker 1 2]> (<[(svc, chunk_account ana 1 0) := lit "ab"]> (<[(svc, chunk_account ana 1 1) := lit "cd"]> empty)).
Definition nowhere : text := [].
End Demo.

Lemma a_write_cut_short_keeps_the_secrets_witness :
  stored Demo.svc Demo.ana Demo.split = Some (Some (lit "abcd")) /\
  stored Demo.svc Demo.ana (exec (stuck Demo.nowhere) (backend_store Demo.svc Demo.ana (lit "pw")) Demo.split).1
  = Some (Some (lit "pw")).
Proof.
  split; [vm_compute; reflexivity|].
  destruct (a_write_cut_short_keeps_the_secrets Demo.svc Demo.ana (lit "pw") Demo.split _ _
              (fun _ => eq_refl) (exec_runs _ _ (stuck_does Demo.nowhere) _ Demo.split)) as [_ H].
  revert H. destruct (exec (stuck Demo.nowhere) (backend_store Demo.svc Demo.ana (lit "pw")) Demo.split).2 as [u|e] eqn:E;
    [done|]. vm_compute in E. discriminate E.
Defined.

Lemma a_failed_delete_cannot_be_read_witness :
  stored Demo.svc Demo.ana
    (exec (stuck (chunk_account Demo.ana 1 0)) (backend_delete Demo.svc Demo.ana) Demo.split).1 = None.
Proof.
  destruct (a_failed_delete_cannot_be_read Demo.svc Demo.ana (marker 1 2) 1 2 0 Demo.split) as (_ & _ & H & _);
    [lia|unfold MAX_CHUNKS; lia|vm_compute; reflexivity|vm_compute; reflexivity|lia|exact H].
Defined.
End CredentialChunks.
