(* ===== verification/Keyset.v ===== *)
(** * Lists read a page at a time

    A list in a strict order, read in pages: each page resumes after the
    position of the last row of the one before, so a row is found by
    comparing, whatever was inserted or removed meanwhile.  Shared by the
    pages of messages and those of conversations. *)
From S2P Require Import Prelude.
From S2P Require Import Table.
From S2P Require Import Text.

Lemma elem_of_filtered {A} (f : A -> bool) l a : a ∈ List.filter f l -> a ∈ l.
Proof. intros Hin. apply list_elem_of_In, filter_In in Hin as [Hin _]. by apply list_elem_of_In. Qed.

Section Keyset.
Context {A P : Type} (pos : A -> P) (before : P -> P -> bool).

(** The rows after a position, in order, and the first of them. *)
Definition beyond (after : option P) (a : A) : bool :=
  match after with None => true | Some p => before p (pos a) end.
Definition not_after (a b : A) : bool := negb (before (pos b) (pos a)).
Definition rest (after : option P) (l : list A) : list A := order_by not_after (List.filter (beyond after) l).

Definition slice (limit : nat) (after : option P) (l : list A) : list A * option P :=
  let r := rest after l in
  let page := take limit r in
  (page, if bool_decide (limit < length r)%nat then pos <$> last page else None).

(** Following the positions from page to page; each page has its own limit. *)
Fixpoint follow (limits : list nat) (after : option P) (l : list A) : option (list A) :=
  match limits with
  | [] => None
  | limit :: limits' =>
      match slice limit after l with
      | (page, None) => Some page
      | (page, Some p) => rows ← follow limits' (Some p) l; Some (page ++ rows)
      end
  end.

(** The order: strict, and total on the positions of the list. *)
Class KeyOrder := {
  before_irrefl p : before p p = false;
  before_trans p q r : before p q = true -> before q r = true -> before p r = true;
  before_total p q : before p q = false -> before q p = false -> p = q
}.
Context {KO : KeyOrder}.

Lemma before_asym p q : before p q = true -> before q p = false.
Proof.
  intros H. destruct (before q p) eqn:E; [|done]. rewrite <- (before_irrefl p). symmetry. by apply (before_trans _ q).
Qed.

Lemma not_after_total a b : not_after a b = true \/ not_after b a = true.
Proof.
  unfold not_after. destruct (before (pos b) (pos a)) eqn:E; [right|by left]. by rewrite (before_asym _ _ E).
Qed.

Lemma not_after_trans a b c : not_after a b = true -> not_after b c = true -> not_after a c = true.
Proof.
  unfold not_after. bools. intros H1 H2. destruct (before (pos c) (pos a)) eqn:E; [|done].
  destruct (before (pos a) (pos b)) eqn:Eab; [by rewrite (before_trans _ _ _ E Eab) in H2|].
  rewrite (before_total _ _ Eab H1) in E. congruence.
Qed.

(** A list with no position twice, in order, is in strict order. *)
Definition ordered (l : list A) : Prop := StronglySorted (fun a b => before (pos a) (pos b) = true) l.

Lemma ordered_unique l1 l2 : ordered l1 -> ordered l2 -> l1 ≡ₚ l2 -> NoDup (pos <$> l1) -> l1 = l2.
Proof.
  intros H1. revert l2. induction H1 as [|a l1 Hs IH Ha]; intros l2 H2 Hp Hnd; [by apply Permutation_nil in Hp|].
  destruct H2 as [|b l2 Hs2 Hb]; [by apply symmetry, Permutation_nil_cons in Hp|].
  assert (a = b) as <-.
  { assert (a ∈ b :: l2) as Hin by (rewrite <- Hp; by left). assert (b ∈ a :: l1) as Hin2 by (rewrite Hp; by left).
    apply elem_of_cons in Hin as [|Hin], Hin2 as [|Hin2]; try done.
    rewrite Forall_forall in Ha, Hb. specialize (Ha b Hin2). specialize (Hb a Hin).
    by rewrite (before_asym _ _ Ha) in Hb. }
  f_equal. apply IH; [done| |by inversion Hnd]. by apply Permutation_cons_inv in Hp.
Qed.

Lemma ordered_NoDup l : ordered l -> NoDup (pos <$> l).
Proof.
  induction 1 as [|a l Hs IH Ha]; cbn; constructor; [|done].
  intros Hin. apply list_elem_of_fmap in Hin as (b & E & Hb). rewrite Forall_forall in Ha.
  specialize (Ha b Hb). rewrite <- E, before_irrefl in Ha. done.
Qed.

Lemma order_by_ordered l : NoDup (pos <$> l) -> ordered (order_by not_after l).
Proof.
  intros Hnd.
  assert (NoDup (pos <$> order_by not_after l)) as Hnd' by by rewrite order_by_perm.
  pose proof (order_by_sorted not_after not_after_total not_after_trans l) as Hs.
  revert Hnd'. generalize dependent (order_by not_after l). clear Hnd. intros s Hs. induction Hs as [|a s Hs IH Ha]; intros Hnd; [constructor|].
  cbn in Hnd. apply NoDup_cons in Hnd as [Hn Hnd]. constructor; [by apply IH|].
  rewrite Forall_forall in *. intros b Hb. specialize (Ha b Hb). unfold not_after in Ha. bools in Ha.
  destruct (before (pos a) (pos b)) eqn:E; [done|]. destruct Hn. rewrite (before_total _ _ E Ha).
  by apply list_elem_of_fmap_2.
Qed.

Lemma ordered_filter (f : A -> bool) l : ordered l -> ordered (List.filter f l).
Proof.
  induction 1 as [|a l Hs IH Ha]; cbn; [constructor|]. destruct (f a); [|done]. constructor; [done|].
  rewrite Forall_forall in *. intros b Hb. apply Ha. by apply elem_of_filtered in Hb.
Qed.

Lemma filter_perm (f : A -> bool) l1 l2 : l1 ≡ₚ l2 -> List.filter f l1 ≡ₚ List.filter f l2.
Proof.
  induction 1 as [|x l1 l2 H IH|x y l|l1 l2 l3 H1 IH1 H2 IH2]; cbn; [done| | |by etrans].
  - destruct (f x); [by constructor|done].
  - destruct (f x), (f y); try done. apply perm_swap.
Qed.

(** The rows after a position of the ordered list are those that follow it. *)
Lemma rest_sorted after l : NoDup (pos <$> l) -> rest after l = List.filter (beyond after) (order_by not_after l).
Proof.
  intros Hnd.
  assert (NoDup (pos <$> List.filter (beyond after) l)) as Hnd'.
  { clear -Hnd. induction l as [|a l IH]; cbn; [constructor|]. cbn in Hnd. apply NoDup_cons in Hnd as [Ha Hnd].
    destruct (beyond after a); [|by apply IH]. cbn. constructor; [|by apply IH].
    intros Hin. apply Ha. apply list_elem_of_fmap in Hin as (b & -> & Hb). apply list_elem_of_fmap_2. by apply elem_of_filtered in Hb. }
  apply ordered_unique.
  - by apply order_by_ordered.
  - by apply ordered_filter, order_by_ordered.
  - unfold rest. rewrite order_by_perm. apply filter_perm. by rewrite order_by_perm.
  - unfold rest. by rewrite order_by_perm.
Qed.

Lemma filter_after l1 a l2 : ordered (l1 ++ a :: l2) -> List.filter (beyond (Some (pos a))) (l1 ++ a :: l2) = l2.
Proof.
  intros Hs. rewrite List.filter_app. replace (List.filter (beyond (Some (pos a))) l1) with (@nil A).
  - cbn. rewrite before_irrefl. apply StronglySorted_app_1_r in Hs. inversion Hs as [|x y Hs2 Ha]; subst.
    clear -Ha. induction Ha as [|b l Hb Ha IH]; cbn; [done|]. rewrite Hb. by rewrite IH.
  - symmetry. assert (Forall (fun b => before (pos b) (pos a) = true) l1) as Hall.
    { rewrite Forall_forall. intros b Hb.
      exact (StronglySorted_app_1_elem_of _ _ _ b a Hs Hb (list_elem_of_here _ _)). }
    clear -Hall KO. induction Hall as [|b l Hb Ha IH]; cbn; [done|]. by rewrite (before_asym _ _ Hb).
Qed.

(** A page and the position it ends at, in terms of the ordered list. *)
Lemma slice_cuts limit after l1 l2 l : NoDup (pos <$> l) -> (0 < limit)%nat ->
  order_by not_after l = l1 ++ l2 -> after = pos <$> last l1 ->
  slice limit after l = (take limit l2, if bool_decide (limit < length l2)%nat then pos <$> last (take limit l2) else None).
Proof.
  intros Hnd Hl Hs ->. unfold slice. assert (rest (pos <$> last l1) l = l2) as ->; [|done].
  rewrite rest_sorted, Hs by done. pose proof (order_by_ordered l Hnd) as Ho. rewrite Hs in Ho.
  destruct (last l1) as [a|] eqn:E; cbn [fmap option_fmap option_map].
  - apply last_Some in E as [l1' ->]. rewrite <- app_assoc in *. by apply filter_after.
  - apply last_None in E as ->. cbn. clear. induction l2 as [|b l2 IH]; cbn; [done|]. by rewrite IH.
Qed.

(** The order the rows are listed in does not matter. *)
Lemma order_by_any_order l1 l2 : NoDup (pos <$> l1) -> l1 ≡ₚ l2 -> order_by not_after l1 = order_by not_after l2.
Proof.
  intros Hnd Hp. apply ordered_unique.
  - by apply order_by_ordered.
  - apply order_by_ordered. by rewrite <- Hp.
  - by rewrite !order_by_perm.
  - by rewrite order_by_perm.
Qed.

Lemma slice_any_order limit after l1 l2 : NoDup (pos <$> l1) -> l1 ≡ₚ l2 -> slice limit after l1 = slice limit after l2.
Proof.
  intros Hnd Hp. unfold slice. rewrite !rest_sorted by (done || by rewrite <- Hp).
  by rewrite (order_by_any_order l1 l2).
Qed.

(** Following the pages, whatever their sizes, shows the whole list in order,
    each row once, and comes to an end. *)
Lemma follow_from limits after l1 l2 l : NoDup (pos <$> l) -> Forall (fun n => (0 < n)%nat) limits ->
  limits <> [] -> (length l2 <= sum_list limits)%nat ->
  order_by not_after l = l1 ++ l2 -> after = pos <$> last l1 ->
  follow limits after l = Some l2.
Proof.
  intros Hnd Hpos. revert after l1 l2. induction Hpos as [|limit limits Hl Hpos IH]; intros after l1 l2 Hne Hlen Hs Ha; [done|].
  cbn [follow]. rewrite (slice_cuts limit after l1 l2 l) by done.
  case_bool_decide as Hmore; cbn [sum_list] in Hlen.
  - destruct (last (take limit l2)) as [a|] eqn:E.
    2: { apply last_None in E. apply (f_equal length) in E. rewrite length_take in E. cbn in E. lia. }
    cbn [fmap option_fmap option_map].
    rewrite (IH (Some (pos a)) (l1 ++ take limit l2) (drop limit l2)).
    + cbn. by rewrite take_drop.
    + intros ->. cbn in Hlen. lia.
    + rewrite length_drop. cbn in Hlen. lia.
    + by rewrite Hs, <- app_assoc, take_drop.
    + by rewrite last_app, E.
  - f_equal. apply take_ge. lia.
Qed.

Lemma follow_all limits l : NoDup (pos <$> l) -> Forall (fun n => (0 < n)%nat) limits ->
  limits <> [] -> (length l <= sum_list limits)%nat ->
  follow limits None l = Some (order_by not_after l).
Proof.
  intros Hnd Hpos Hne Hlen. apply (follow_from _ _ []); [done..| |done|done]. by rewrite order_by_perm.
Qed.
End Keyset.

(** ** Orders *)

#[export] Instance Z_order : KeyOrder Z.ltb.
Proof.
  constructor.
  - intros p. apply Z.ltb_irrefl.
  - intros p q r. rewrite !Z.ltb_lt. lia.
  - intros p q. rewrite !Z.ltb_ge. lia.
Qed.

Definition text_before (a b : text) : bool := negb (text_le b a).
#[export] Instance text_order : KeyOrder text_before.
Proof.
  unfold text_before. constructor.
  - intros p. by rewrite text_le_refl.
  - intros p q r. bools. intros H1 H2. destruct (text_le r p) eqn:E; [|done].
    destruct (text_le_total p q) as [H|H]; [|congruence].
    rewrite (text_le_trans r p q) in H2; done.
  - intros p q. bools. intros H1 H2. by apply text_le_antisym.
Qed.

(** What a list is sorted by: a date or a text ([SQLite] and the derived [Ord]
    of the cursors agree that dates come first). *)
Inductive Key := DateKey (d : Z) | TextKey (t : text).
#[global] Instance Key_eq_dec : EqDecision Key.
Proof. solve_decision. Defined.

Definition key_before (a b : Key) : bool :=
  match a, b with
  | DateKey d, DateKey d' => (d <? d')%Z
  | DateKey _, TextKey _ => true
  | TextKey _, DateKey _ => false
  | TextKey t, TextKey t' => text_before t t'
  end.
#[export] Instance key_order : KeyOrder key_before.
Proof.
  constructor.
  - intros [d|t]; cbn; [apply Z_order|apply text_order].
  - intros [d|t] [d'|t'] [d''|t'']; cbn; try done; [apply Z_order|apply text_order].
  - intros [d|t] [d'|t']; cbn; try done; intros H1 H2; f_equal; [by apply Z_order|by apply text_order].
Qed.

(** One order, then another. *)
Definition lex {P Q} `{EqDecision P} (b1 : P -> P -> bool) (b2 : Q -> Q -> bool) (p q : P * Q) : bool :=
  b1 p.1 q.1 || (bool_decide (p.1 = q.1) && b2 p.2 q.2).

#[export] Instance lex_order {P Q} `{EqDecision P} (b1 : P -> P -> bool) (b2 : Q -> Q -> bool) :
  KeyOrder b1 -> KeyOrder b2 -> KeyOrder (lex b1 b2).
Proof.
  intros O1 O2. unfold lex. constructor.
  - intros p. by rewrite (before_irrefl b1 p.1), (before_irrefl b2 p.2), andb_false_r.
  - intros [p1 p2] [q1 q2] [r1 r2]; cbn. bools.
    intros [H1|[E1 H1]] [H2|[E2 H2]]; subst; auto.
    + left. by apply (before_trans b1 p1 q1 r1).
    + right. split; [done|]. by apply (before_trans b2 p2 q2 r2).
  - intros [p1 p2] [q1 q2]; cbn. bools. intros [H1 H1'] [H2 H2'].
    assert (p1 = q1) as -> by by apply O1. f_equal.
    apply O2; naive_solver.
Qed.

(** An order the other way round. *)
Definition backwards {P} (b : P -> P -> bool) (p q : P) : bool := b q p.
Lemma backwards_order {P} (b : P -> P -> bool) : KeyOrder b -> KeyOrder (backwards b).
Proof.
  intros O. unfold backwards. constructor.
  - intros p. apply O.
  - intros p q r H1 H2. by apply (before_trans b r q p).
  - intros p q H1 H2. by apply O.
Qed.

(** ** [sort_unstable] and [dedup] *)

Fixpoint dedup {A} `{EqDecision A} (l : list A) : list A :=
  match l with
  | a :: ((b :: _) as l') => if bool_decide (a = b) then dedup l' else a :: dedup l'
  | _ => l
  end.

Lemma dedup_cons {A} `{EqDecision A} (a b : A) l :
  dedup (a :: b :: l) = if bool_decide (a = b) then dedup (b :: l) else a :: dedup (b :: l).
Proof. done. Qed.

Lemma elem_of_dedup {A} `{EqDecision A} (l : list A) x : x ∈ dedup l <-> x ∈ l.
Proof.
  induction l as [|a l IH]; [done|]. destruct l as [|b l]; [done|]. rewrite dedup_cons.
  case_bool_decide as E; [subst; rewrite IH, !elem_of_cons; tauto|]. rewrite !(elem_of_cons _ x a), IH. done.
Qed.

Section SortDedup.
Context {A : Type} `{EqDecision A} (before : A -> A -> bool) {KO : KeyOrder before}.
Notation le := (not_after id before).

Definition sort_dedup (l : list A) : list A := dedup (order_by le l).

Lemma dedup_ordered l : StronglySorted (fun a b => le a b = true) l -> ordered id before (dedup l).
Proof.
  induction 1 as [|a l Hs IH Ha]; [constructor|]. destruct l as [|b l]; [repeat constructor|]. rewrite dedup_cons.
  case_bool_decide as E; [done|]. constructor; [done|]. apply Forall_forall. intros x Hx. apply (proj1 (elem_of_dedup _ _)) in Hx.
  rewrite Forall_forall in Ha. pose proof (Ha x Hx) as Hax. pose proof (Ha b ltac:(by left)) as Hab.
  unfold not_after in *. bools in Hax. bools in Hab. cbn in *.
  destruct (before a x) eqn:Eax; [done|]. destruct E.
  assert (a = x) as -> by by apply KO. inversion Hs as [|? ? _ Hb]; subst. rewrite Forall_forall in Hb.
  apply elem_of_cons in Hx as [->|Hx]; [done|]. specialize (Hb x Hx). unfold not_after in Hb. bools in Hb. by apply KO.
Qed.

Lemma sort_dedup_ordered l : ordered id before (sort_dedup l).
Proof. apply dedup_ordered, order_by_sorted; [apply (not_after_total id before)|apply (not_after_trans id before)]. Qed.

Lemma elem_of_sort_dedup l x : x ∈ sort_dedup l <-> x ∈ l.
Proof. unfold sort_dedup. by rewrite elem_of_dedup, order_by_perm. Qed.

(** What is sorted and rid of duplicates is a set. *)
Lemma sort_dedup_set l1 l2 : sort_dedup l1 = sort_dedup l2 <-> forall x, x ∈ l1 <-> x ∈ l2.
Proof.
  split.
  - intros E x. by rewrite <- elem_of_sort_dedup, E, elem_of_sort_dedup.
  - intros E. pose proof (ordered_NoDup id before _ (sort_dedup_ordered l1)) as H1.
    pose proof (ordered_NoDup id before _ (sort_dedup_ordered l2)) as H2. rewrite list_fmap_id in H1, H2.
    apply (ordered_unique id before); [apply sort_dedup_ordered..| |by rewrite list_fmap_id].
    apply NoDup_Permutation; [done..|]. intros x. by rewrite !elem_of_sort_dedup.
Qed.
End SortDedup.
