(* ===== verification/ThreadList.v ===== *)
(** * What a mailbox list is asked for

    Models [meron-core/src/thread_list.rs]: the inputs of a mailbox view, the
    page they ask for, its order, and the cursors that say where a page left
    off.  Cursors are text; the parts that may hold anything are written in
    base64 without padding, which stands here as the class [Base64]. *)
From S2P Require Import Prelude.
From S2P Require Import Text.
From S2P Require Import Json.

(** [URL_SAFE_NO_PAD.encode(s.as_bytes())], and what reads it back as UTF-8. *)
Class Base64 := { b64 : text -> text; unb64 : text -> option text }.

Class Base64Laws (B : Base64) := {
  unb64_b64 s : unb64 (b64 s) = Some s;
  b64_plain s : Forall (fun c => (is_ascii_alphanumeric c || (c =? 45) || (c =? 95))%Z = true) (b64 s);
}.

Module ThreadList.
#[local] Open Scope Z_scope.

Definition DEFAULT_LIMIT : Z := 50.

(** ** Order *)

Inductive SortKey := Date | Sender | Subject.
Inductive SortDir := Desc | Asc.
#[global] Instance SortKey_eq_dec : EqDecision SortKey.
Proof. solve_decision. Defined.
#[global] Instance SortDir_eq_dec : EqDecision SortDir.
Proof. solve_decision. Defined.

Record Sort := { key : SortKey; dir : SortDir }.
#[global] Instance Sort_eq_dec : EqDecision Sort.
Proof. solve_decision. Defined.

Definition default_sort : Sort := {| key := Date; dir := Desc |}.

Definition parse (value : text) : Sort :=
  let '(k, d) := unwrap_or (value, lit "desc") (split_once 58 value) in
  let name := to_ascii_lowercase (trim k) in
  {| key := if bool_decide (name = lit "sender") || bool_decide (name = lit "from") then Sender
            else if bool_decide (name = lit "subject") then Subject else Date;
     dir := if eq_ignore_ascii_case (trim d) (lit "asc") then Asc else Desc |}.

Definition is_default (s : Sort) : bool := bool_decide (s = default_sort).

(** ** Cursors *)

Record PageCursor := { p_date : Z; p_text : text; p_uid : Z }.
Record SearchCursor := { s_date : Z; s_uid : Z; s_folder : text; scanned : Z; snapshot : option text; offset : Z }.

Definition parse_i64 : text -> option Z := parse_signed (- 2 ^ 63) (2 ^ 63 - 1).
Definition parse_u32 : text -> option Z := parse_unsigned (2 ^ 32 - 1).

(** [s.splitn(n, c)] *)
Fixpoint splitn (n : nat) (c : Z) (s : text) : list text :=
  match n with
  | O => []
  | S O => [s]
  | S n' => match split_once c s with Some (a, b) => a :: splitn n' c b | None => [s] end
  end.

Section Cursors.
Context `{B : Base64}.

Definition parse_mail_cursor (cursor : text) : option PageCursor :=
  match strip_prefix (lit "date:") cursor with
  | Some rest =>
      '(date, uid) ← split_once 58 rest;
      d ← parse_i64 date; u ← parse_u32 uid;
      Some {| p_date := d; p_text := []; p_uid := u |}
  | None =>
      rest ← strip_prefix (lit "sortk:") cursor;
      '(encoded, uid) ← rsplit_once 58 rest;
      t ← unb64 encoded; u ← parse_u32 uid;
      Some {| p_date := 0; p_text := t; p_uid := u |}
  end.

Definition format_page_cursor (sort : Sort) (text_key : text) (date uid : Z) : text :=
  match key sort with
  | Date => lit "date:" ++ show_Z date ++ lit ":" ++ show_Z uid
  | _ => lit "sortk:" ++ b64 text_key ++ lit ":" ++ show_Z uid
  end.

Definition parse_search_cursor (cursor : text) : option SearchCursor :=
  match strip_prefix (lit "search2:") cursor with
  | Some rest =>
      match splitn 5 58 rest with
      | [date; uid; off; snap; folder] =>
          d ← parse_i64 date; u ← parse_u32 uid; o ← parse_u32 off; s ← unb64 snap; f ← unb64 folder;
          Some {| s_date := d; s_uid := u; s_folder := f; scanned := 0; snapshot := Some s; offset := o |}
      | _ => None
      end
  | None =>
      rest ← strip_prefix (lit "search:") cursor;
      match splitn 4 58 rest with
      | [date; uid; scan; folder] =>
          d ← parse_i64 date; u ← parse_u32 uid; n ← parse_u32 scan; f ← unb64 folder;
          Some {| s_date := d; s_uid := u; s_folder := f; scanned := n; snapshot := None; offset := 0 |}
      | _ => None
      end
  end.

Definition format_search_cursor (c : SearchCursor) : text :=
  match snapshot c with
  | Some s => lit "search2:" ++ join [58] [show_Z (s_date c); show_Z (s_uid c); show_Z (offset c); b64 s; b64 (s_folder c)]
  | None => lit "search:" ++ join [58] [show_Z (s_date c); show_Z (s_uid c); show_Z (scanned c); b64 (s_folder c)]
  end.

(** ** The request *)

Record ThreadListQuery := {
  folder : text; query : text; filter : text;
  before_cursor : option PageCursor; search_before_cursor : option SearchCursor;
  limit : Z; sort_text : text;
}.

Definition canon_folder (f : text) : text := if eq_ignore_ascii_case f (lit "inbox") then lit "INBOX" else f.

Definition as_u64 (v : Value) : option Z :=
  match v with Number n => m ← parse_digits n; if m <=? 2 ^ 64 - 1 then Some m else None | _ => None end.

(** [params.get(name).and_then(Value::as_str).unwrap_or_default()] *)
Definition str_param (params : Value) (name : text) : text := unwrap_or [] (get_str name params).

Definition from_params (params : Value) (folder_key : text) : ThreadListQuery :=
  {| folder := match get_str folder_key params with
               | Some value => if bool_decide (value = []) then lit "INBOX" else canon_folder value
               | None => lit "INBOX"
               end;
     query := trim (str_param params (lit "query"));
     filter := str_param params (lit "filter");
     before_cursor := get_str (lit "before_cursor") params ≫= parse_mail_cursor;
     search_before_cursor := get_str (lit "before_cursor") params ≫= parse_search_cursor;
     limit := match get (lit "limit") params ≫= as_u64 with
              | Some n => if (n <=? 2 ^ 32 - 1) && (0 <? n) then n else DEFAULT_LIMIT
              | None => DEFAULT_LIMIT
              end;
     sort_text := str_param params (lit "sort") |}.
End Cursors.

(** The facets a page is narrowed to ([MailSource::Recent], and the store's
    [RecentFilter] with the same fields). *)
Record Facets := {
  unread_only : bool; starred_only : bool; label_id : option text;
  with_attachments : bool; priority_only : bool; category : option text;
}.

Inductive MailSource :=
| Starred
| Snoozed
| Recent (facets : Facets)
| Search.

Definition facet_names (filter : text) : list text :=
  List.filter (fun name => negb (is_empty name) && negb (bool_decide (name = lit "all"))) (trim <$> split_char 44 filter).

Definition facets (names : list text) : Facets :=
  {| unread_only := bool_decide (lit "unread" ∈ names);
     starred_only := bool_decide (lit "starred" ∈ names);
     label_id := match find_map (strip_prefix (lit "label:")) names with Some [] | None => None | Some id => Some id end;
     with_attachments := bool_decide (lit "attachments" ∈ names);
     priority_only := bool_decide (lit "priority" ∈ names);
     category := (fun id => if bool_decide (id = lit "none") then [] else id) <$> find_map (strip_prefix (lit "category:")) names |}.

Definition source (q : ThreadListQuery) : MailSource :=
  if negb (is_empty (query q)) then Search
  else
    let names := facet_names (filter q) in
    if existsb (fun name => bool_decide (name = lit "snoozed")) names then Snoozed
    else if bool_decide (names = [lit "starred"]) then Starred
    else Recent (facets names).

Definition sort (q : ThreadListQuery) : Sort := parse (sort_text q).

Definition wants_background_sync (q : ThreadListQuery) : bool :=
  bool_decide (before_cursor q = None) && match source q with Recent _ => true | _ => false end.

(** ** Cursors are read as they were written *)

Lemma parse_i64_show n : - 2 ^ 63 <= n < 2 ^ 63 -> parse_i64 (show_Z n) = Some n.
Proof. intros Hn. apply parse_signed_show. lia. Qed.
Lemma parse_u32_show n : 0 <= n < 2 ^ 32 -> parse_u32 (show_Z n) = Some n.
Proof. intros Hn. apply parse_unsigned_show. lia. Qed.

Section ReadBack.
Context `{L : Base64Laws}.

Lemma b64_no_colon s : 58 ∉ b64 s.
Proof. intros Hin. pose proof (b64_plain s) as Hp. rewrite Forall_forall in Hp. by specialize (Hp 58 Hin). Qed.

Lemma splitn_join parts : parts <> [] -> Forall (fun p => 58 ∉ p) parts -> splitn (length parts) 58 (join [58] parts) = parts.
Proof.
  intros Hne Hall. induction Hall as [|p parts Hp Hall IH]; [done|].
  destruct parts as [|q parts]; [done|]. change (join [58] (p :: q :: parts)) with (p ++ 58 :: join [58] (q :: parts)).
  cbn [length splitn]. rewrite split_once_app by done. f_equal. by apply IH.
Qed.

(** The cursor of a page, written for an order and read back, is the
    position it was written for: the date and the uid when the order is by
    date, the text of the key, whatever it holds, and the uid otherwise. *)
Lemma page_cursor_read_back s t date uid : - 2 ^ 63 <= date < 2 ^ 63 -> 0 <= uid < 2 ^ 32 ->
  parse_mail_cursor (format_page_cursor s t date uid) =
  Some (match key s with
        | Date => {| p_date := date; p_text := []; p_uid := uid |}
        | _ => {| p_date := 0; p_text := t; p_uid := uid |}
        end).
Proof.
  intros Hd Hu. unfold parse_mail_cursor, format_page_cursor.
  assert (forall rest, strip_prefix (lit "date:") (lit "sortk:" ++ rest) = None) as Hno by done.
  change (lit ":" ++ show_Z uid) with (58 :: show_Z uid).
  destruct (key s); rewrite ?Hno, strip_prefix_app; cbn [mbind option_bind].
  - rewrite split_once_app by (by apply show_Z_chars). cbn [mbind option_bind].
    rewrite parse_i64_show by done. cbn [mbind option_bind]. by rewrite parse_u32_show.
  - rewrite rsplit_once_app by (by apply show_Z_chars). cbn [mbind option_bind].
    rewrite unb64_b64. cbn [mbind option_bind]. by rewrite parse_u32_show.
  - rewrite rsplit_once_app by (by apply show_Z_chars). cbn [mbind option_bind].
    rewrite unb64_b64. cbn [mbind option_bind]. by rewrite parse_u32_show.
Qed.

(** A search cursor is read back whole, in either of its shapes. *)
Lemma search_cursor_read_back c :
  - 2 ^ 63 <= s_date c < 2 ^ 63 -> 0 <= s_uid c < 2 ^ 32 -> 0 <= scanned c < 2 ^ 32 -> 0 <= offset c < 2 ^ 32 ->
  match snapshot c with Some _ => scanned c = 0 | None => offset c = 0 end ->
  parse_search_cursor (format_search_cursor c) = Some c.
Proof.
  intros Hd Hu Hs Ho Hshape. destruct c as [d u f n snap o]; cbn in *.
  unfold parse_search_cursor, format_search_cursor. cbn [snapshot s_date s_uid s_folder scanned offset].
  assert (forall rest, strip_prefix (lit "search2:") (lit "search:" ++ rest) = None) as Hno by done.
  destruct snap as [t|]; subst; rewrite ?Hno, strip_prefix_app; cbn [mbind option_bind].
  - rewrite (splitn_join [show_Z d; show_Z u; show_Z o; b64 t; b64 f])
      by (done || (repeat constructor; first [by apply show_Z_chars|apply b64_no_colon])).
    rewrite parse_i64_show, !parse_u32_show, !unb64_b64 by done. done.
  - rewrite (splitn_join [show_Z d; show_Z u; show_Z n; b64 f])
      by (done || (repeat constructor; first [by apply show_Z_chars|apply b64_no_colon])).
    rewrite parse_i64_show, !parse_u32_show, !unb64_b64 by done. done.
Qed.
End ReadBack.

(** ** An encoding, for evaluations

    Each code point as its number, ended by an underscore. *)
Module Demo.
Definition enc1 (c : Z) : text := show_Z c ++ [95].
Definition dec1 (s : text) : option Z :=
  match s with 45 :: ds => Z.opp <$> parse_digits ds | _ => parse_digits s end.
Definition enc (s : text) : text := concat (enc1 <$> s).
Definition dec (s : text) : option text := mapM dec1 (removelast (split_char 95 s)).

#[export] Instance numbers : Base64 := {| b64 := enc; unb64 := dec |}.

Lemma dec1_show c : dec1 (show_Z c) = Some c.
Proof.
  unfold dec1. destruct c as [|p|p]; [done| |].
  - destruct (show_Z_digits (Z.pos p)) as [Hd Hp]; [lia|]. revert Hd Hp. generalize (show_Z (Z.pos p)). intros s Hd Hp.
    destruct s as [|a s]; [done|]. inversion Hd as [|? ? Ha _]; subst. repeat case_match; subst; done.
  - rewrite show_Z_neg. destruct (show_Z_digits (Z.pos p)) as [_ Hp]; [lia|]. by rewrite Hp.
Qed.

Lemma split_enc s : split_char 95 (enc s) = (show_Z <$> s) ++ [[]].
Proof.
  induction s as [|c s IH]; [done|]. unfold enc in *. cbn [fmap list_fmap concat]. unfold enc1 at 1.
  rewrite <- app_assoc. cbn [app]. rewrite split_char_app by (by apply show_Z_chars). by rewrite IH.
Qed.

#[export] Instance numbers_laws : Base64Laws numbers.
Proof.
  constructor.
  - intros s. cbn. unfold dec. rewrite split_enc, removelast_last.
    induction s as [|c s IH]; [done|]. cbn. by rewrite dec1_show, IH.
  - intros s. cbn. induction s as [|c s IH]; [constructor|]. unfold enc. cbn [fmap list_fmap concat].
    apply Forall_app. split; [|exact IH]. apply Forall_app. split; [|by repeat constructor].
    rewrite Forall_forall. intros x Hx.
    destruct (x =? 45) eqn:Em; [by rewrite orb_true_r|]. destruct (is_ascii_digit x) eqn:Ed.
    { unfold is_ascii_alphanumeric. by rewrite Ed. }
    apply Z.eqb_neq in Em. destruct (show_Z_chars x c Em Ed Hx).
Qed.
End Demo.
End ThreadList.
