(* ===== verification/Subjects.v ===== *)
(** * Subjects and the branches of a thread

    Models the subjects of [meron-core/src/store/mod.rs]: what is a reply of
    what ([normalize_thread_subject], [thread_grouping_subject]), and the key
    of a branch of a thread, which joins the key of the thread and the subject
    its messages share. *)
From S2P Require Import Prelude.
From S2P Require Import Text.

(** [s.replace(pat, w)] for a text that is not empty. *)
Fixpoint replace_from (skip : nat) (pat w s : text) : text :=
  match s with
  | [] => []
  | c :: s' =>
      match skip with
      | Datatypes.S k => replace_from k pat w s'
      | O => if starts_with pat s then w ++ replace_from (length pat - 1) pat w s' else c :: replace_from O pat w s'
      end
  end.
Definition replace : text -> text -> text -> text := replace_from O.

Lemma replace_miss pat w c s : starts_with pat (c :: s) = false -> replace pat w (c :: s) = c :: replace pat w s.
Proof. intros E. unfold replace. cbn [replace_from]. by rewrite E. Qed.

Lemma replace_hit pat w s : pat <> [] -> replace pat w (pat ++ s) = w ++ replace pat w s.
Proof.
  intros Hne. destruct pat as [|a p] eqn:Ep; [done|]. rewrite <- Ep. unfold replace.
  assert (forall k, replace_from (length k) pat w (k ++ s) = replace_from 0 pat w s) as Hskip.
  { intros k. induction k as [|x k IH]; [done|]. exact IH. }
  rewrite Ep at 2. cbn [app replace_from].
  assert (starts_with pat (a :: p ++ s) = true) as -> by (apply starts_with_spec; exists s; by rewrite Ep).
  f_equal. rewrite <- (Hskip p). f_equal. rewrite Ep. cbn. lia.
Qed.

(** ** Loops that shorten a text

    [while let Some(rest) = step(s) { s = rest }]; the length of the text is
    fuel enough for a step that shortens it. *)
Section Drain.
Context (step : text -> option text) (shorter : forall s r, step s = Some r -> (length r < length s)%nat).

Fixpoint drain (fuel : nat) (s : text) : text :=
  match fuel with
  | O => s
  | Datatypes.S n => match step s with Some r => drain n r | None => s end
  end.

Lemma drain_enough n m s : (length s <= n)%nat -> (length s <= m)%nat -> drain n s = drain m s.
Proof.
  revert m s. induction n as [|n IH]; intros [|m] s Hn Hm; cbn; try done.
  - destruct (step s) eqn:E; [|done]. apply shorter in E. lia.
  - destruct (step s) eqn:E; [|done]. apply shorter in E. lia.
  - destruct (step s) as [r|] eqn:E; [|done]. apply shorter in E. apply IH; lia.
Qed.

Lemma drain_step n s r : (length s <= n)%nat -> step s = Some r -> drain n s = drain n r.
Proof.
  intros Hn E. rewrite (drain_enough n (Datatypes.S n) s) by lia. cbn. by rewrite E.
Qed.

Lemma drain_done n s : (length s <= n)%nat -> step (drain n s) = None.
Proof.
  revert s. induction n as [|n IH]; intros s Hn; cbn.
  - destruct (step s) eqn:E; [|done]. apply shorter in E. lia.
  - destruct (step s) as [r|] eqn:E; [|done]. apply IH. apply shorter in E. lia.
Qed.

Lemma drain_none n s : step s = None -> drain n s = s.
Proof. intros E. destruct n; cbn; [done|]. by rewrite E. Qed.

(** What holds of the text and is kept by a step holds of what is left. *)
Lemma drain_rel (R : text -> text -> Prop) n s :
  (forall a, R a a) -> (forall a b c, step a = Some b -> R b c -> R a c) -> R s (drain n s).
Proof.
  intros Hrefl Hstep. revert s. induction n as [|n IH]; intros s; cbn; [done|].
  destruct (step s) as [r|] eqn:E; [|done]. by apply (Hstep _ r).
Qed.
End Drain.

Module Subjects.
#[local] Open Scope Z_scope.

(** ** Marks *)

Definition PREFIXES : list text :=
  (lit <$> ["re"; "fw"; "fwd"; "aw"; "sv"; "vs"; "rv"; "res"; "tr"; "antw"; "wg"]%string) ++
  [[0x7B54; 0x590D]; [0x56DE; 0x590D]; [0x8F6C; 0x53D1]].

Definition strip_leading_bracket_tag (subject : text) : option text :=
  let trimmed := trim_start subject in
  if starts_with [91] trimmed then (fun e => drop (Datatypes.S e) trimmed) <$> find_char 93 trimmed else None.

Definition strip_reply_count (rest : text) : option text :=
  let closed close :=
    e ← find_char close rest;
    if (e <=? 1)%nat || negb (forallb is_ascii_digit (take (e - 1) (drop 1 rest))) then None
    else Some (drop (Datatypes.S e) rest) in
  match rest with
  | 91 :: _ => closed 93
  | 40 :: _ => closed 41
  | _ => None
  end.

(** A prefix in the bytes of the subject, whatever the case of its ASCII
    letters: the same code points, as the prefix ends between two of them. *)
Definition strip_mark (probe prefix : text) : option text :=
  if eq_ignore_ascii_case (take (length prefix) probe) prefix then
    let rest := drop (length prefix) probe in
    match unwrap_or rest (strip_reply_count rest) with
    | c :: r => if (c =? 58) || (c =? 0xFF1A) then Some r else None
    | [] => None
    end
  else None.

Definition tag_step (probe : text) : option text := trim_start <$> strip_leading_bracket_tag probe.
Definition probe_of (subject : text) : text := drain tag_step (length subject) (trim_start subject).
Definition strip_reply_prefix (subject : text) : option text := find_map (strip_mark (probe_of subject)) PREFIXES.

Definition normalize_step (subject : text) : option text := trim <$> strip_reply_prefix subject.
Definition normalize_thread_subject (subject : text) : text :=
  drain normalize_step (length subject) (trim subject).

Definition grouping_step (subject : text) : option text :=
  match strip_reply_prefix subject with
  | Some rest => Some (trim rest)
  | None => trim <$> strip_leading_bracket_tag subject
  end.
Definition thread_grouping_subject (subject : text) : text :=
  drain grouping_step (length subject) (trim subject).

(** ** Branch keys *)

Definition should_branch_thread_by_subject (thread_key : text) : bool :=
  negb (starts_with (lit "uid:") thread_key) && negb (starts_with (lit "gmthrid:") thread_key).

Definition branch_compound_key (root group_subject : text) : text :=
  replace_char 35 (lit "%23") (replace_char 37 (lit "%25") root) ++ lit "#" ++ group_subject.

Definition split_branch_compound_key (compound : text) : text * option text :=
  match split_once 35 compound with
  | Some (root, subject) => (replace (lit "%25") (lit "%") (replace (lit "%23") (lit "#") root), Some subject)
  | None => (compound, None)
  end.

Definition split_thread_key (thread_key : text) : text * option text :=
  if should_branch_thread_by_subject thread_key then split_branch_compound_key thread_key else (thread_key, None).

(** ** Steps shorten the subject *)

Lemma tag_spec s r :
  strip_leading_bracket_tag s = Some r <->
  exists ws tag, s = ws ++ 91 :: tag ++ 93 :: r /\ Forall (fun c => is_whitespace c = true) ws /\ 93 ∉ tag.
Proof.
  unfold strip_leading_bracket_tag. split.
  - destruct (trim_start_matches_suffix is_whitespace s) as (ws & Hs & Hws).
    unfold trim_start in *. destruct (starts_with [91] _) eqn:E1; [|done].
    apply starts_with_spec in E1 as [x Hx]. cbn in Hx. rewrite Hx in *. clear Hx. cbn.
    destruct (find_char 93 x) as [e|] eqn:E; cbn; [|done]. intros [= <-].
    apply find_char_Some in E as (He & Hn). exists ws, (take e x). split_and!; try done.
    + rewrite Hs. do 2 f_equal. by rewrite (take_drop_middle x e 93).
  - intros (ws & tag & -> & Hws & Htag). rewrite trim_blanks_app by done. cbn.
    rewrite (find_char_app 93 tag r) by done. cbn. f_equal.
    rewrite (cons_middle 93 tag r), app_assoc, drop_app_length'; [done|]. rewrite length_app. cbn. lia.
Qed.

(** What may stand between a prefix and its colon. *)
Definition reply_count (k : text) : Prop :=
  k = [] \/ exists ds, ds <> [] /\ forallb is_ascii_digit ds = true /\ (k = 91 :: ds ++ [93] \/ k = 40 :: ds ++ [41]).
Definition is_colon (c : Z) : bool := (c =? 58) || (c =? 0xFF1A).

Lemma closed_spec o close rest r : o <> close -> is_ascii_digit close = false ->
  (e ← find_char close (o :: rest);
   if (e <=? 1)%nat || negb (forallb is_ascii_digit (take (e - 1) (drop 1 (o :: rest)))) then None
   else Some (drop (Datatypes.S e) (o :: rest))) = Some r <->
  exists ds, ds <> [] /\ forallb is_ascii_digit ds = true /\ rest = ds ++ close :: r.
Proof.
  intros Hne Hd. cbn [find_char]. rewrite (proj2 (Z.eqb_neq o close)) by done. split.
  - destruct (find_char close rest) as [e|] eqn:E; cbn; [|done]. apply find_char_Some in E as (He & Hn).
    destruct e as [|e]; cbn [Nat.leb orb]; [done|]. rewrite Nat.sub_0_r.
    rewrite drop_0. destruct (forallb is_ascii_digit (take (Datatypes.S e) rest)) eqn:Ed; cbn [negb]; [|done]. intros [= <-].
    exists (take (Datatypes.S e) rest). split_and!; [|done|].
    + destruct rest; done.
    + by rewrite (take_drop_middle rest (Datatypes.S e) close).
  - intros (ds & Hds & Hdig & ->).
    assert (close ∉ ds) as Hn.
    { intros Hin. rewrite forallb_elem in Hdig. by rewrite (Hdig _ Hin) in Hd. }
    rewrite (find_char_app close ds r) by done. cbn. destruct ds as [|d ds]; [done|]. cbn [length Nat.leb orb].
    rewrite Nat.sub_0_r, drop_0. replace (take (Datatypes.S (length ds)) ((d :: ds) ++ close :: r)) with (d :: ds)
      by by rewrite take_app_length'.
    rewrite Hdig. cbn [negb]. f_equal. rewrite (cons_middle close (d :: ds) r), app_assoc, drop_app_length'; [done|].
    rewrite length_app. cbn. lia.
Qed.

Lemma strip_count_spec rest r : strip_reply_count rest = Some r -> exists k, rest = k ++ r /\ reply_count k /\ k <> [].
Proof.
  unfold strip_reply_count. destruct rest as [|c rest]; [done|]. intros H.
  assert (c = 91 \/ c = 40) as Hc by (repeat case_match; try done; auto).
  destruct Hc as [-> | ->]; apply closed_spec in H as (ds & Hne & Hd & ->); try done.
  - exists (91 :: ds ++ [93]). split_and!; [by cbn; rewrite <- app_assoc|right; eauto|done].
  - exists (40 :: ds ++ [41]). split_and!; [by cbn; rewrite <- app_assoc|right; eauto|done].
Qed.

(** After a prefix: its count if it has one, and a colon. *)
Definition after_mark (rest : text) : option text :=
  match unwrap_or rest (strip_reply_count rest) with
  | c :: r => if is_colon c then Some r else None
  | [] => None
  end.

Lemma after_mark_count k c r : reply_count k -> is_colon c = true -> after_mark (k ++ c :: r) = Some r.
Proof.
  intros Hk Hc. unfold after_mark.
  assert (c = 58 \/ c = 0xFF1A) as Hc' by (unfold is_colon in Hc; bools in Hc; done).
  assert (strip_reply_count (k ++ c :: r) = if is_nil k then None else Some (c :: r)) as ->.
  { destruct Hk as [->|(ds & Hne & Hd & Hk)]; [by destruct Hc' as [-> | ->]|].
    destruct Hk as [-> | ->]; cbn [is_nil app]; rewrite <- app_assoc; apply closed_spec; try done; by exists ds. }
  assert (reply_count k -> unwrap_or (k ++ c :: r) (if is_nil k then None else Some (c :: r)) = c :: r) as ->; [|by rewrite Hc|done].
  by destruct k.
Qed.

Lemma after_mark_spec rest r : after_mark rest = Some r -> exists k c, rest = k ++ c :: r /\ reply_count k /\ is_colon c = true.
Proof.
  unfold after_mark. destruct (strip_reply_count rest) as [x|] eqn:E; cbn [unwrap_or].
  - apply strip_count_spec in E as (k & -> & Hk & _). destruct x as [|c x]; [done|].
    destruct (is_colon c) eqn:Ec; [|done]. intros [= <-]. eauto.
  - destruct rest as [|c x]; [done|]. destruct (is_colon c) eqn:Ec; [|done]. intros [= <-].
    exists [], c. split_and!; [done|by left|done].
Qed.

Lemma strip_mark_eq probe p :
  strip_mark probe p = if eq_ignore_ascii_case (take (length p) probe) p then after_mark (drop (length p) probe) else None.
Proof. done. Qed.

(** No character of a prefix can start what follows one. *)
Definition letter_of_mark (c : Z) : bool :=
  forallb (fun d => negb (ascii_lower_char c =? d)) [91; 40; 58; 0xFF1A].

Lemma after_mark_head c rest r : after_mark (c :: rest) = Some r -> letter_of_mark c = false.
Proof.
  intros (k & d & E & Hk & Hd)%after_mark_spec.
  destruct Hk as [->|(ds & _ & _ & [-> | ->])]; cbn in E; injection E as -> _; try done.
  unfold is_colon in Hd. bools in Hd. by destruct Hd as [-> | ->].
Qed.

Lemma prefix_letters p : p ∈ PREFIXES -> p <> [] /\ forallb letter_of_mark p = true /\ forallb (fun c => negb (is_whitespace (ascii_lower_char c))) p = true.
Proof.
  revert p. apply Forall_forall. apply (bool_decide_unpack _). vm_compute. exact I.
Qed.

Lemma letter_of_lower c : letter_of_mark (ascii_lower_char c) = letter_of_mark c.
Proof.
  unfold letter_of_mark, ascii_lower_char, is_ascii_upper.
  destruct ((65 <=? c) && (c <=? 90)) eqn:E; [|by rewrite E]. bools in E.
  assert ((65 <=? c + 32) && (c + 32 <=? 90) = false) as -> by (bools; lia). done.
Qed.

(** The marks of two prefixes cannot both be read, but as the same. *)
Lemma marks_do_not_overlap probe p q r r' : p ∈ PREFIXES -> q ∈ PREFIXES ->
  strip_mark probe p = Some r -> strip_mark probe q = Some r' -> r = r'.
Proof.
  assert (forall p q r r', q ∈ PREFIXES -> strip_mark probe p = Some r -> strip_mark probe q = Some r' ->
    (length p < length q)%nat -> False) as Hlt.
  { clear. intros p q r r' Hq. rewrite !strip_mark_eq. unfold eq_ignore_ascii_case.
    case_bool_decide as Ep; [|done]. case_bool_decide as Eq; [|done].
    intros Hr _ Hlen. apply (f_equal (fun l => l !! length p)) in Eq.
    unfold to_ascii_lowercase in Eq. rewrite !list_lookup_fmap, lookup_take_lt in Eq by done.
    destruct (lookup_lt_is_Some_2 q (length p) Hlen) as [d Hd]. rewrite Hd in Eq. cbn in Eq.
    destruct (probe !! length p) as [c|] eqn:Ec; [|done]. cbn in Eq. injection Eq as Eq.
    apply prefix_letters in Hq as (_ & Hall & _). rewrite forallb_elem in Hall. specialize (Hall d (list_elem_of_lookup_2 _ _ _ Hd)).
    rewrite <- letter_of_lower, <- Eq, letter_of_lower in Hall.
    rewrite (drop_S _ _ _ Ec) in Hr. apply after_mark_head in Hr. congruence. }
  intros Hp Hq Hr Hr'. destruct (Nat.lt_trichotomy (length p) (length q)) as [Hl|[Hl|Hl]].
  - destruct (Hlt p q r r'); done.
  - rewrite !strip_mark_eq in *. rewrite Hl in Hr. repeat case_match; congruence.
  - destruct (Hlt q p r' r); done.
Qed.

Lemma find_map_unique {A B} (f : A -> option B) l a b :
  a ∈ l -> f a = Some b -> (forall x y, x ∈ l -> f x = Some y -> y = b) -> find_map f l = Some b.
Proof.
  intros Hin Hf Hu. induction l as [|x l IH]; [by apply not_elem_of_nil in Hin|]. cbn.
  destruct (f x) as [y|] eqn:E.
  - f_equal. apply (Hu x); [by left|done].
  - apply elem_of_cons in Hin as [->|Hin]; [congruence|]. apply IH; [done|]. intros z y Hz. apply Hu. by right.
Qed.

(** A reply's mark: one of the prefixes in any case, a count, a colon. *)
Definition reply_mark (m : text) : Prop :=
  exists w k c p, m = w ++ k ++ [c] /\ p ∈ PREFIXES /\ eq_ignore_ascii_case w p = true /\ reply_count k /\ is_colon c = true.

Lemma same_length_ci w p : eq_ignore_ascii_case w p = true -> length w = length p.
Proof.
  unfold eq_ignore_ascii_case. rewrite bool_decide_eq_true. unfold to_ascii_lowercase.
  intros E. apply (f_equal length) in E. by rewrite !length_fmap in E.
Qed.

Lemma find_mark m r : reply_mark m -> find_map (strip_mark (m ++ r)) PREFIXES = Some r.
Proof.
  intros (w & k & c & p & -> & Hp & Hw & Hk & Hc).
  assert (strip_mark ((w ++ k ++ [c]) ++ r) p = Some r) as E.
  { rewrite strip_mark_eq, <- !app_assoc, <- (same_length_ci w p) by done. rewrite take_app_length, drop_app_length, Hw.
    by apply after_mark_count. }
  apply (find_map_unique _ _ p); [done|done|]. intros q y Hq Hy. by apply (marks_do_not_overlap _ q p y r Hq Hp Hy).
Qed.

Lemma find_mark_spec probe r : find_map (strip_mark probe) PREFIXES = Some r -> exists m, probe = m ++ r /\ reply_mark m.
Proof.
  intros (p & Hp & E)%find_map_Some. rewrite strip_mark_eq in E.
  destruct (eq_ignore_ascii_case _ _) eqn:Ew; [|done]. apply after_mark_spec in E as (k & c & E & Hk & Hc).
  exists (take (length p) probe ++ k ++ [c]). split; [|by exists (take (length p) probe), k, c, p].
  rewrite <- !app_assoc. cbn. rewrite <- E. by rewrite take_drop.
Qed.

Lemma lower_blank c : is_whitespace (ascii_lower_char c) = false -> is_whitespace c = false.
Proof.
  unfold ascii_lower_char. destruct (is_ascii_upper c) eqn:E; [|done]. intros _.
  unfold is_ascii_upper in E. bools in E. unfold is_whitespace. bools. lia.
Qed.

Lemma reply_mark_ends m : reply_mark m ->
  exists a b, m = a :: b /\ is_whitespace a = false /\ exists b' c, m = b' ++ [c] /\ is_whitespace c = false.
Proof.
  intros (w & k & c & p & -> & Hp & Hw & Hk & Hc).
  apply prefix_letters in Hp as (Hne & _ & Hall). pose proof (same_length_ci _ _ Hw) as Hlen.
  destruct w as [|a w]; [by destruct p|]. exists a, (w ++ k ++ [c]). split_and!; [done| |].
  - destruct p as [|d p]; [done|]. apply lower_blank. unfold eq_ignore_ascii_case in Hw. rewrite bool_decide_eq_true in Hw.
    cbn in Hw. injection Hw as Hw _. rewrite Hw. cbn in Hall. bools in Hall. apply Hall.
  - exists ((a :: w) ++ k), c. split; [by rewrite <- app_assoc|]. unfold is_colon in Hc. bools in Hc. by destruct Hc as [-> | ->].
Qed.

Lemma trim_mark m s : reply_mark m -> trim (m ++ s) = m ++ trim_end s.
Proof.
  intros (a & b & Hm & Ha & b' & c & Hm' & Hc)%reply_mark_ends. unfold trim.
  assert (trim_start (m ++ s) = m ++ s) as -> by by rewrite Hm; apply trim_start_stop.
  by rewrite Hm', <- !app_assoc; cbn [app]; apply trim_end_stop.
Qed.

(** ** What a step does *)

Lemma tag_shorter s r : strip_leading_bracket_tag s = Some r -> (length r < length s)%nat.
Proof. intros (ws & tag & -> & _)%tag_spec. rewrite !length_app. cbn. rewrite length_app. cbn. lia. Qed.

Lemma tag_step_shorter s r : tag_step s = Some r -> (length r < length s)%nat.
Proof.
  unfold tag_step. intros (x & Hx & ->)%fmap_Some. apply tag_shorter in Hx. pose proof (trim_start_length x). lia.
Qed.

Lemma drain_length step n s : (forall a b, step a = Some b -> (length b < length a)%nat) -> (length (drain step n s) <= length s)%nat.
Proof.
  intros Hs. apply (drain_rel step (fun a b => (length b <= length a)%nat)); [done|].
  intros a b c E Hc. apply Hs in E. lia.
Qed.

Lemma probe_length s : (length (probe_of s) <= length s)%nat.
Proof. etrans; [apply drain_length, tag_step_shorter|apply trim_start_length]. Qed.

Lemma reply_shorter s r : strip_reply_prefix s = Some r -> (length r < length s)%nat.
Proof.
  intros (m & E & Hm)%find_mark_spec. pose proof (probe_length s) as Hl. rewrite E, length_app in Hl.
  apply reply_mark_ends in Hm as (a & b & -> & _). cbn in Hl. lia.
Qed.

Lemma grouping_shorter s r : grouping_step s = Some r -> (length r < length s)%nat.
Proof.
  unfold grouping_step. destruct (strip_reply_prefix s) as [x|] eqn:E.
  - intros [= <-]. apply reply_shorter in E. pose proof (trim_length x). lia.
  - intros (x & Hx & ->)%fmap_Some. apply tag_shorter in Hx. pose proof (trim_length x). lia.
Qed.

Lemma group_trim s : thread_grouping_subject s = thread_grouping_subject (trim s).
Proof.
  unfold thread_grouping_subject. rewrite trim_idem. apply (drain_enough _ grouping_shorter); [apply trim_length|done].
Qed.

Lemma group_of_trim s t : trim s = trim t -> thread_grouping_subject s = thread_grouping_subject t.
Proof. intros E. by rewrite group_trim, E, <- group_trim. Qed.

Lemma group_step s r : grouping_step (trim s) = Some (trim r) -> thread_grouping_subject s = thread_grouping_subject r.
Proof.
  intros E. pose proof (grouping_shorter _ _ E) as Hl. rewrite (group_trim s). unfold thread_grouping_subject.
  rewrite trim_idem, (drain_step _ grouping_shorter _ _ _ (le_n _) E).
  apply (drain_enough _ grouping_shorter); [lia|apply trim_length].
Qed.

Lemma tag_trim s r : strip_leading_bracket_tag s = Some r -> strip_leading_bracket_tag (trim s) = Some (trim_end r).
Proof.
  intros (ws & tag & -> & Hws & Ht)%tag_spec. apply tag_spec. exists [], tag. split_and!; [|constructor|done].
  rewrite trim_app_start by done. unfold trim. rewrite trim_start_stop by done.
  apply (trim_end_stop (91 :: tag) 93 r). done.
Qed.

Lemma probe_tag s r : strip_leading_bracket_tag s = Some r -> probe_of (trim s) = probe_of (trim r).
Proof.
  intros E. apply tag_trim in E. pose proof (tag_shorter _ _ E) as Hl. pose proof (trim_end_length r) as He.
  assert (tag_step (trim s) = Some (trim r)) as Es by (unfold tag_step; rewrite E; cbn; by rewrite trim_start_end).
  unfold probe_of. rewrite !trim_start_trim, (drain_step _ tag_step_shorter _ _ _ (le_n _) Es).
  apply tag_step_shorter in Es. apply (drain_enough _ tag_step_shorter); lia.
Qed.

Lemma group_reply s r r' : strip_reply_prefix (trim s) = Some r' -> trim r = trim r' ->
  thread_grouping_subject s = thread_grouping_subject r.
Proof. intros E Er. apply group_step. unfold grouping_step. by rewrite E, Er. Qed.

Lemma group_tag s r : strip_leading_bracket_tag s = Some r -> thread_grouping_subject s = thread_grouping_subject r.
Proof.
  intros E. destruct (strip_reply_prefix (trim s)) as [x|] eqn:Ex.
  - rewrite (group_reply s x x) by done. symmetry. apply (group_reply r x x); [|done].
    unfold strip_reply_prefix in *. by rewrite <- (probe_tag s r).
  - apply group_step. unfold grouping_step. rewrite Ex, (tag_trim s r) by done. cbn. by rewrite trim_of_end.
Qed.

Lemma group_mark m s : reply_mark m -> thread_grouping_subject (m ++ s) = thread_grouping_subject s.
Proof.
  intros Hm. apply (group_reply _ _ (trim_end s)); [|by rewrite trim_of_end].
  rewrite trim_mark by done. unfold strip_reply_prefix. rewrite <- (find_mark m (trim_end s) Hm). f_equal. f_equal.
  unfold probe_of. apply reply_mark_ends in Hm as Ends. destruct Ends as (a & b & -> & Ha & _). cbn [app]. rewrite trim_start_stop by done.
  apply drain_none. unfold tag_step. destruct (strip_leading_bracket_tag _) as [x|] eqn:E; [|done].
  apply tag_spec in E as (ws & tag & E & Hws & _). destruct Hws as [|w ws Hw]; cbn in E; [|congruence].
  exfalso. injection E as -> _. destruct Hm as (w & k & c & p & Em & Hp & Hw & _).
  apply prefix_letters in Hp as (Hne & Hp & _). pose proof (same_length_ci _ _ Hw) as Hlen.
  destruct w as [|x' w], p as [|d p]; try done. cbn in Em. injection Em as <- _.
  unfold eq_ignore_ascii_case in Hw. rewrite bool_decide_eq_true in Hw. cbn in Hw. injection Hw as Hw _.
  cbn [forallb] in Hp. bools in Hp. destruct Hp as [Hp _]. by rewrite <- letter_of_lower, <- Hw in Hp.
Qed.

(** ** Subjects with marks

    [marked s t]: the subject [s] is [t] with marks of replies, tags in
    brackets and blanks in front of it, and blanks behind. *)
Inductive marked : text -> text -> Prop :=
| marked_none t : marked t t
| marked_blanks s s' t : trim s = trim s' -> marked s' t -> marked s t
| marked_tag tag s t : 93 ∉ tag -> marked s t -> marked (91 :: tag ++ 93 :: s) t
| marked_reply m s t : reply_mark m -> marked s t -> marked (m ++ s) t.

Lemma marked_group s t : marked s t -> thread_grouping_subject s = thread_grouping_subject t.
Proof.
  induction 1 as [t|s s' t E _ IH|tag s t Ht _ IH|m s t Hm _ IH]; [done|..].
  - by rewrite (group_of_trim s s').
  - rewrite <- IH. apply group_tag. apply tag_spec. by exists [], tag.
  - rewrite <- IH. by apply group_mark.
Qed.

Lemma tag_marked s r t : strip_leading_bracket_tag s = Some r -> marked r t -> marked s t.
Proof.
  intros (ws & tag & -> & Hws & Ht)%tag_spec Hm. apply (marked_blanks _ (91 :: tag ++ 93 :: r)).
  - by apply trim_app_start.
  - by constructor.
Qed.

Lemma probe_marked s t : marked (probe_of s) t -> marked s t.
Proof.
  intros Hm. apply (marked_blanks _ (trim_start s)); [by rewrite trim_of_start|]. revert Hm.
  apply (drain_rel tag_step (fun a b => marked b t -> marked a t)); [done|].
  intros a b c (x & Hx & ->)%fmap_Some IH Hc. apply (tag_marked a x); [done|].
  apply (marked_blanks _ (trim_start x)); [by rewrite trim_of_start|]. by apply IH.
Qed.

Lemma group_marked s : marked s (thread_grouping_subject s).
Proof.
  apply (marked_blanks _ (trim s)); [by rewrite trim_idem|]. unfold thread_grouping_subject.
  apply (drain_rel grouping_step marked); [constructor|]. intros a b c E Hc. unfold grouping_step in E.
  destruct (strip_reply_prefix a) as [x|] eqn:Ex.
  - injection E as <-. apply probe_marked. apply find_mark_spec in Ex as (m & -> & Hm). constructor; [done|].
    apply (marked_blanks _ (trim x)); [by rewrite trim_idem|done].
  - apply fmap_Some in E as (x & Hx & ->). apply (tag_marked a x); [done|].
    apply (marked_blanks _ (trim x)); [by rewrite trim_idem|done].
Qed.

(** C33. The messages of a thread are branched by what is left of their
    subjects without marks: two subjects have the same group exactly when both
    are the same subject with marks of replies (in any of the languages, in
    any case, with or without a count), tags and blanks. *)
Theorem one_branch_per_subject s t :
  thread_grouping_subject s = thread_grouping_subject t <-> exists u, marked s u /\ marked t u.
Proof.
  split.
  - intros E. exists (thread_grouping_subject s). split; [apply group_marked|]. rewrite E. apply group_marked.
  - intros (u & Hs & Ht). by rewrite (marked_group s u), (marked_group t u).
Qed.

Lemma group_idem s : thread_grouping_subject (thread_grouping_subject s) = thread_grouping_subject s.
Proof. symmetry. apply marked_group, group_marked. Qed.

(** ** Branch keys are taken apart as they were joined *)

Definition escape (root : text) : text := replace_char 35 (lit "%23") (replace_char 37 (lit "%25") root).

Lemma escape_cons c s :
  escape (c :: s) = (if c =? 37 then lit "%25" else if c =? 35 then lit "%23" else [c]) ++ escape s.
Proof.
  unfold escape, replace_char. cbn [mbind list_bind]. destruct (c =? 37); [done|]. cbn. by destruct (c =? 35).
Qed.

Lemma escape_no_hash s : 35 ∉ escape s.
Proof.
  induction s as [|c s IH]; [apply not_elem_of_nil|]. rewrite escape_cons, elem_of_app. intros [Hin|]; [|done].
  destruct (c =? 37) eqn:E1, (c =? 35) eqn:E2; try (revert Hin; apply (bool_decide_unpack _); vm_compute; exact I).
  apply list_elem_of_singleton in Hin as <-. done.
Qed.

(** The first pass brings the hashes back, the second the percent signs. *)
Lemma unescape_hash s : replace (lit "%23") (lit "#") (escape s) = replace_char 37 (lit "%25") s.
Proof.
  induction s as [|c s IH]; [done|]. rewrite escape_cons. unfold replace_char. cbn [mbind list_bind].
  fold (replace_char 37 (lit "%25") s). rewrite <- IH. destruct (c =? 37) eqn:E1; [|destruct (c =? 35) eqn:E2].
  - change (lit "%25") with [37; 50; 53]. cbn [app]. by rewrite !replace_miss.
  - rewrite replace_hit by done. by apply Z.eqb_eq in E2 as ->.
  - cbn [app]. rewrite replace_miss; [done|]. change (lit "%23") with [37; 50; 51]. cbn [starts_with].
    by rewrite Z.eqb_sym, E1.
Qed.

Lemma unescape_percent s : replace (lit "%25") (lit "%") (replace_char 37 (lit "%25") s) = s.
Proof.
  induction s as [|c s IH]; [done|]. unfold replace_char. cbn [mbind list_bind].
  fold (replace_char 37 (lit "%25") s). destruct (c =? 37) eqn:E1.
  - apply Z.eqb_eq in E1 as ->. by rewrite replace_hit, IH.
  - cbn [app]. rewrite replace_miss; [by rewrite IH|]. change (lit "%25") with [37; 50; 53]. cbn [starts_with].
    by rewrite Z.eqb_sym, E1.
Qed.

Lemma split_branch root subject : split_branch_compound_key (branch_compound_key root subject) = (root, Some subject).
Proof.
  unfold split_branch_compound_key, branch_compound_key. fold (escape root).
  change (lit "#" ++ subject) with (35 :: subject). rewrite split_once_app by apply escape_no_hash.
  by rewrite unescape_hash, unescape_percent.
Qed.

(** Escaping does not make a key of a kind out of one that is not. *)
Lemma escape_starts p root t : forallb (fun c => negb (c =? 35) && negb (c =? 37)) p = true ->
  starts_with p (escape root ++ 35 :: t) = starts_with p root.
Proof.
  revert root. induction p as [|a p IH]; intros root Hp; [by destruct root|].
  cbn [forallb] in Hp. bools in Hp. destruct Hp as [[H35 H37] Hp]. destruct root as [|c root].
  - cbn [app starts_with escape replace_char mbind list_bind]. apply Z.eqb_neq in H35. by rewrite H35.
  - rewrite escape_cons. destruct (Z.eqb_spec c 37) as [->|H1]; [|destruct (Z.eqb_spec c 35) as [->|H2]].
    + change (lit "%25") with [37; 50; 53]. cbn [app starts_with]. apply Z.eqb_neq in H37. by rewrite H37.
    + change (lit "%23") with [37; 50; 51]. cbn [app starts_with]. apply Z.eqb_neq in H37, H35. by rewrite H37, H35.
    + cbn [app starts_with]. by rewrite IH.
Qed.

Lemma branch_key_branches root subject :
  should_branch_thread_by_subject (branch_compound_key root subject) = should_branch_thread_by_subject root.
Proof.
  unfold should_branch_thread_by_subject, branch_compound_key. fold (escape root).
  change (lit "#" ++ subject) with (35 :: subject). by rewrite !escape_starts by done.
Qed.
End Subjects.
