(* ===== verification/Cards.v ===== *)
(** * Cards of conversations

    Models the part of [meron-core/src/store/mod.rs] that turns the messages
    of a folder into the cards of a list: the key of the card a message
    belongs to, and [group_thread_cards_with_drafts], which goes through the
    messages twice with hash maps.  [card_of] and [cards_spec] say what comes
    out without them. *)
From S2P Require Import Prelude.
From S2P Require Import Text.
From S2P Require Import Subjects.

Module Cards.
Import Subjects.
#[local] Open Scope Z_scope.

Record Recipient := { name : text; addr : text }.

(** [imap::MessageHeader] *)
Record MessageHeader := {
  uid : Z; folder : text; subject : text; from_name : text; from_addr : text; date : Z;
  seen : bool; starred : bool; thread_key : text; message_id : text;
  gmail_msg_id : option Z; gmail_labels : list text; in_reply_to : text; has_attachments : option bool;
  to : list Recipient; cc : list Recipient; recipient_overflow : Z;
}.

#[global] Instance Recipient_eq_dec : EqDecision Recipient.
Proof. solve_decision. Defined.
#[global] Instance MessageHeader_eq_dec : EqDecision MessageHeader.
Proof. solve_decision. Defined.

(** A header with its subject, thread key, folder and flags replaced. *)
Definition redraw (h : MessageHeader) (subject' key' folder' : text) (seen' starred' : bool) : MessageHeader :=
  {| uid := uid h; folder := folder'; subject := subject'; from_name := from_name h; from_addr := from_addr h;
     date := date h; seen := seen'; starred := starred'; thread_key := key'; message_id := message_id h;
     gmail_msg_id := gmail_msg_id h; gmail_labels := gmail_labels h; in_reply_to := in_reply_to h;
     has_attachments := has_attachments h; to := to h; cc := cc h; recipient_overflow := recipient_overflow h |}.

Record ThreadCard := {
  card_key : text; original_thread_key : option text; header : MessageHeader;
  unread_count : Z; message_count : Z; has_draft : bool;
}.

(** ** Keys *)

Definition effective_thread_key (m : MessageHeader) : text :=
  if is_empty (thread_key m) then lit "uid:" ++ show_Z (uid m) else thread_key m.

Definition card_thread_key (m : MessageHeader) : text :=
  let base := effective_thread_key m in
  if should_branch_thread_by_subject base then branch_compound_key base (thread_grouping_subject (subject m)) else base.

(** ** Grouping *)

Record RootSubject := { display : text; group : text; root_uid : Z }.

Definition note_root (roots : gmap text RootSubject) (m : MessageHeader) : gmap text RootSubject :=
  if uid m =? 0 then roots
  else
    let k := effective_thread_key m in
    let entry := unwrap_or {| display := []; group := []; root_uid := 0 |} (roots !! k) in
    <[k := if (root_uid entry =? 0) || (uid m <? root_uid entry)
           then {| display := normalize_thread_subject (subject m); group := thread_grouping_subject (subject m); root_uid := uid m |}
           else entry]> roots.

Section Group.
Context (roots : gmap text RootSubject) (default_folder : text) (draft_thread_keys : gset text).

Definition new_card (m : MessageHeader) : ThreadCard :=
  let base := effective_thread_key m in
  let branch := should_branch_thread_by_subject base in
  let group_subject := if branch then thread_grouping_subject (subject m) else [] in
  let root := roots !! base in
  let title := unwrap_or [] (display <$> root) in
  let compound := card_thread_key m in
  {| card_key := compound;
     original_thread_key :=
       if branch && is_some_and (fun r => negb (bool_decide (group r = group_subject))) root
       then (fun r => branch_compound_key base (group r)) <$> root else None;
     header := redraw m (if is_empty title then subject m else title) compound
                      (if is_empty (folder m) then default_folder else folder m) (seen m) (starred m);
     unread_count := 0; message_count := 0; has_draft := bool_decide (base ∈ draft_thread_keys) |}.

Definition count_in (m : MessageHeader) (c : ThreadCard) : ThreadCard :=
  {| card_key := card_key c; original_thread_key := original_thread_key c;
     header := redraw (header c) (subject (header c)) (thread_key (header c)) (folder (header c))
                      (if seen m then seen (header c) else false) (if starred m then true else starred (header c));
     unread_count := if seen m then unread_count c else unread_count c + 1;
     message_count := message_count c + 1; has_draft := has_draft c |}.

Definition file_message (st : gmap text ThreadCard * list text) (m : MessageHeader) : gmap text ThreadCard * list text :=
  if uid m =? 0 then st
  else
    let '(groups, order) := st in
    let compound := card_thread_key m in
    match groups !! compound with
    | Some card => (<[compound := count_in m card]> groups, order)
    | None => (<[compound := count_in m (new_card m)]> groups, order ++ [compound])
    end.
End Group.

(** [order.into_iter().filter_map(|key| groups.remove(&key))] *)
Fixpoint take_out (order : list text) (groups : gmap text ThreadCard) : list ThreadCard :=
  match order with
  | [] => []
  | k :: order' =>
      match groups !! k with
      | Some card => card :: take_out order' (delete k groups)
      | None => take_out order' groups
      end
  end.

Definition group_thread_cards_with_drafts (messages : list MessageHeader) (default_folder : text)
    (draft_thread_keys : gset text) : list ThreadCard :=
  let roots := fold_left note_root messages ∅ in
  let '(groups, order) := fold_left (file_message roots default_folder draft_thread_keys) messages (∅, []) in
  take_out order groups.

Definition group_thread_cards (messages : list MessageHeader) (default_folder : text) : list ThreadCard :=
  group_thread_cards_with_drafts messages default_folder ∅.

(** ** What a card is

    The messages that are listed, the cards they belong to in the order they
    are met, and the card of each. *)
Definition listed (m : MessageHeader) : bool := negb (uid m =? 0).

Fixpoint firsts (ks : list text) : list text :=
  match ks with [] => [] | k :: ks' => k :: base.filter (fun x => x <> k) (firsts ks') end.

Definition root_of (ms : list MessageHeader) (k : text) : option MessageHeader :=
  min_by_key uid (List.filter (fun m => bool_decide (effective_thread_key m = k)) ms).

Definition same_card (k : text) (ms : list MessageHeader) : list MessageHeader :=
  List.filter (fun m => bool_decide (card_thread_key m = k)) ms.

Definition read (m : MessageHeader) : bool := seen m.
Definition unread (m : MessageHeader) : bool := negb (seen m).

Section Spec.
Context (all : list MessageHeader) (default_folder : text) (draft_thread_keys : gset text).

Definition card_of (k : text) (ms : list MessageHeader) : option ThreadCard :=
  match ms with
  | [] => None
  | m :: _ =>
      let base := effective_thread_key m in
      let root := root_of all base in
      let title := unwrap_or [] ((fun r => normalize_thread_subject (subject r)) <$> root) in
      let root_group := (fun r => thread_grouping_subject (subject r)) <$> root in
      Some {| card_key := k;
              original_thread_key :=
                if should_branch_thread_by_subject base
                   && is_some_and (fun g => negb (bool_decide (g = thread_grouping_subject (subject m)))) root_group
                then branch_compound_key base <$> root_group else None;
              header := redraw m (if is_empty title then subject m else title) k
                               (if is_empty (folder m) then default_folder else folder m)
                               (forallb read ms) (existsb starred ms);
              unread_count := Z.of_nat (length (List.filter unread ms));
              message_count := Z.of_nat (length ms);
              has_draft := bool_decide (base ∈ draft_thread_keys) |}
  end.
End Spec.

(** ** The maps hold what they are for *)

Lemma min_by_key_snoc {A} (f : A -> Z) l x :
  min_by_key f (l ++ [x]) = match min_by_key f l with Some y => if f x <? f y then Some x else Some y | None => Some x end.
Proof.
  induction l as [|a l IH]; [done|]. cbn [app min_by_key]. rewrite IH.
  destruct (min_by_key f l) as [y|]; [|done].
  destruct (Z.ltb_spec (f x) (f y)), (Z.ltb_spec (f y) (f a)), (Z.ltb_spec (f x) (f a)); try done; try lia;
    cbn; repeat (case_match; bools); done || lia.
Qed.

Lemma filter_snoc {A} (f : A -> bool) l x : List.filter f (l ++ [x]) = List.filter f l ++ (if f x then [x] else []).
Proof. rewrite List.filter_app. cbn. by destruct (f x). Qed.

Definition subject_root (m : MessageHeader) : RootSubject :=
  {| display := normalize_thread_subject (subject m); group := thread_grouping_subject (subject m); root_uid := uid m |}.

Lemma roots_spec ms k : fold_left note_root ms ∅ !! k = subject_root <$> root_of (List.filter listed ms) k.
Proof.
  induction ms as [|m ms IH] using rev_ind; [done|]. rewrite fold_left_app, filter_snoc. cbn [fold_left].
  unfold note_root at 1, listed at 2. destruct (Z.eqb_spec (uid m) 0) as [H0|H0]; cbn [negb]; [by rewrite app_nil_r|].
  unfold root_of in *. rewrite filter_snoc. case_bool_decide as Ek.
  - subst k. rewrite lookup_insert_eq, IH, min_by_key_snoc.
    destruct (min_by_key _ _) as [r|] eqn:Er; cbn [fmap option_fmap option_map unwrap_or root_uid subject_root]; [|done].
    assert (uid r <> 0) as Hr.
    { apply min_by_key_Some in Er as [Hin _]. apply list_elem_of_In, filter_In in Hin as [Hin _].
      apply filter_In in Hin as [_ Hin]. unfold listed in Hin. by bools in Hin. }
    rewrite (proj2 (Z.eqb_neq _ _) Hr). cbn [orb]. by destruct (uid m <? uid r).
  - rewrite lookup_insert_ne by done. by rewrite app_nil_r.
Qed.

Lemma firsts_snoc ks k : firsts (ks ++ [k]) = firsts ks ++ (if bool_decide (k ∈ ks) then [] else [k]).
Proof.
  induction ks as [|x ks IH]; [done|]. cbn [app firsts]. rewrite IH, filter_app. cbn [app]. do 2 f_equal.
  case_bool_decide as H1; case_bool_decide as H2; rewrite ?elem_of_cons in *; try done.
  - tauto.
  - assert (k = x) as -> by tauto. rewrite filter_cons_False; [done|tauto].
  - rewrite filter_cons_True; [done|]. tauto.
Qed.

Lemma elem_of_firsts k ks : k ∈ firsts ks <-> k ∈ ks.
Proof.
  induction ks as [|x ks IH]; [done|]. cbn. rewrite !elem_of_cons, list_elem_of_filter, IH.
  destruct (decide (k = x)); tauto.
Qed.

Lemma firsts_NoDup ks : NoDup (firsts ks).
Proof.
  induction ks as [|x ks IH]; cbn; constructor; [|by apply NoDup_filter].
  rewrite list_elem_of_filter. tauto.
Qed.

Section Grouped.
Context (all : list MessageHeader) (default_folder : text) (draft_thread_keys : gset text).
Notation roots := (fold_left note_root all ∅).
Notation live := (List.filter listed all).
Notation card_of := (card_of live default_folder draft_thread_keys).

Lemma card_of_one m : card_of (card_thread_key m) [m] = Some (count_in m (new_card roots default_folder draft_thread_keys m)).
Proof.
  unfold Cards.card_of, count_in, new_card. cbn -[thread_grouping_subject normalize_thread_subject card_thread_key effective_thread_key].
  unfold read. rewrite !roots_spec. f_equal. f_equal.
  - destruct (should_branch_thread_by_subject _); [|done]. cbn [andb].
    by destruct (root_of _ _).
  - unfold redraw. cbn. f_equal; try done.
    + by destruct (root_of _ _).
    + by destruct (seen m).
    + by destruct (starred m).
  - unfold unread. by destruct (seen m).
Qed.

Lemma forallb_snoc {A} (f : A -> bool) l x : forallb f (l ++ [x]) = f x && forallb f l.
Proof. rewrite forallb_app. cbn. rewrite andb_true_r. apply andb_comm. Qed.
Lemma existsb_snoc {A} (f : A -> bool) l x : existsb f (l ++ [x]) = f x || existsb f l.
Proof. rewrite existsb_app. cbn. rewrite orb_false_r. apply orb_comm. Qed.

Lemma card_of_snoc k ms m c : card_of k ms = Some c -> card_of k (ms ++ [m]) = Some (count_in m c).
Proof.
  destruct ms as [|h ms]; [done|]. cbn [Cards.card_of app]. intros [= <-].
  rewrite !app_comm_cons, forallb_snoc, existsb_snoc, filter_snoc, !length_app. unfold count_in, redraw. cbn [header uid folder subject
    from_name from_addr date seen starred thread_key message_id gmail_msg_id gmail_labels in_reply_to has_attachments to cc
    recipient_overflow card_key original_thread_key unread_count message_count has_draft].
  unfold read, unread. f_equal. destruct (seen m), (starred m); cbn [negb length andb orb]; rewrite ?Nat.add_0_r, ?Nat2Z.inj_add; done.
Qed.

Lemma same_card_snoc k ms m :
  same_card k (List.filter listed (ms ++ [m])) =
  same_card k (List.filter listed ms) ++ (if listed m && bool_decide (card_thread_key m = k) then [m] else []).
Proof. unfold same_card. rewrite filter_snoc, List.filter_app. destruct (listed m); cbn; [by case_bool_decide|done]. Qed.

Lemma filed pre :
  let st := fold_left (file_message roots default_folder draft_thread_keys) pre (∅, []) in
  st.2 = firsts (card_thread_key <$> List.filter listed pre) /\
  forall k, st.1 !! k = card_of k (same_card k (List.filter listed pre)).
Proof.
  induction pre as [|m pre IH] using rev_ind; [done|]. rewrite fold_left_app. cbn [fold_left].
  destruct (fold_left _ pre _) as [groups order]. cbn in IH. destruct IH as [Ho Hg].
  unfold file_message. setoid_rewrite same_card_snoc. rewrite filter_snoc. unfold listed at 2 5.
  destruct (uid m =? 0) eqn:E0; cbn [negb andb]; [rewrite !app_nil_r; by setoid_rewrite app_nil_r|].
  rewrite fmap_app. cbn [fmap list_fmap]. rewrite firsts_snoc.
  destruct (groups !! card_thread_key m) as [card|] eqn:E; cbn [fst snd]; rewrite Hg in E.
  - assert (card_thread_key m ∈ card_thread_key <$> List.filter listed pre) as Hin.
    { destruct (same_card _ _) as [|x l] eqn:Es; [done|]. assert (x ∈ same_card (card_thread_key m) (List.filter listed pre)) as Hx
        by (rewrite Es; by left). unfold same_card in Hx. apply list_elem_of_In, filter_In in Hx as [Hx Hk]. bools in Hk.
      rewrite <- Hk. apply list_elem_of_fmap_2. by apply list_elem_of_In. }
    rewrite bool_decide_true, app_nil_r by done. split; [done|]. intros k. case_bool_decide as Ek.
    + subst k. rewrite lookup_insert_eq. symmetry. by apply card_of_snoc.
    + by rewrite lookup_insert_ne, app_nil_r.
  - assert (same_card (card_thread_key m) (List.filter listed pre) = []) as Hnil by by destruct (same_card _ _).
    rewrite bool_decide_false.
    2: { intros (x & Ex & Hx)%list_elem_of_fmap. assert (x ∈ same_card (card_thread_key m) (List.filter listed pre)) as Hin.
         { unfold same_card. apply list_elem_of_In, filter_In. rewrite <- list_elem_of_In. bools. done. }
         rewrite Hnil in Hin. by apply not_elem_of_nil in Hin. }
    split; [by rewrite Ho|]. intros k. case_bool_decide as Ek.
    + subst k. rewrite lookup_insert_eq, Hnil. symmetry. apply card_of_one.
    + by rewrite lookup_insert_ne, app_nil_r.
Qed.
End Grouped.

Lemma take_out_spec order groups : NoDup order -> take_out order groups = omap (fun k => groups !! k) order.
Proof.
  intros Hnd. revert groups. induction Hnd as [|k order Hk Hnd IH]; intros groups; [done|]. cbn.
  destruct (groups !! k) as [card|] eqn:E; [|done]. f_equal. rewrite IH.
  clear IH E Hnd. induction order as [|x order IH]; [done|]. apply not_elem_of_cons in Hk as [Hx Hk]. cbn.
  rewrite lookup_delete_ne by done. by rewrite IH.
Qed.

Lemma same_card_has m ms : m ∈ ms -> m ∈ same_card (card_thread_key m) ms.
Proof. intros Hm. apply list_elem_of_In, filter_In. rewrite <- list_elem_of_In. bools. done. Qed.

(** Each message counts in one card. *)
Definition total : list Z -> Z := fold_right Z.add 0.

Lemma one_in (ks : list text) k : NoDup ks -> k ∈ ks -> total ((fun x => if bool_decide (k = x) then 1 else 0) <$> ks) = 1.
Proof.
  intros Hnd Hin. induction Hnd as [|x ks Hx Hnd IH]; [by apply not_elem_of_nil in Hin|]. cbn.
  case_bool_decide as E; [|apply elem_of_cons in Hin as [|Hin]; [done|]; by rewrite IH].
  subst x. enough (total ((fun x => if bool_decide (k = x) then 1 else 0) <$> ks) = 0) as H by (unfold total in *; lia).
  clear -Hx. induction ks as [|x ks IH]; [done|]. apply not_elem_of_cons in Hx as [Hx Hk]. cbn.
  rewrite bool_decide_false by done. by rewrite IH.
Qed.

Lemma total_add {A} (f g : A -> Z) l : total ((fun x => f x + g x) <$> l) = total (f <$> l) + total (g <$> l).
Proof. unfold total. induction l as [|x l IH]; [done|]. cbn [fmap list_fmap fold_right] in *. lia. Qed.

Lemma parts_total ks ms : NoDup ks -> Forall (fun m => card_thread_key m ∈ ks) ms ->
  total ((fun k => Z.of_nat (length (same_card k ms))) <$> ks) = Z.of_nat (length ms).
Proof.
  intros Hnd. induction 1 as [|m ms Hm Hall IH]; cbn [length].
  - clear. induction ks as [|k ks IH]; [done|]. exact IH.
  - rewrite Nat2Z.inj_succ, <- IH. pose proof (one_in ks _ Hnd Hm) as H1. rewrite <- (Z.add_1_r (total _)), <- H1 at 1.
    rewrite <- total_add. f_equal. apply list_fmap_ext. intros _ k _. unfold same_card. cbn [List.filter].
    case_bool_decide; cbn [length]; lia.
Qed.

Lemma cards_spec ms default_folder drafts :
  let live := List.filter listed ms in
  group_thread_cards_with_drafts ms default_folder drafts =
  omap (fun k => card_of live default_folder drafts k (same_card k live)) (firsts (card_thread_key <$> live)).
Proof.
  intros live. unfold group_thread_cards_with_drafts. pose proof (filed ms default_folder drafts ms) as Hf.
  destruct (fold_left _ ms _) as [groups order]. cbn in Hf. destruct Hf as [-> Hg].
  rewrite take_out_spec by apply firsts_NoDup.
  apply list_omap_ext, Forall_Forall2_diag, Forall_forall. intros k _. apply Hg.
Qed.

Lemma card_of_key live default_folder drafts k ms c : card_of live default_folder drafts k ms = Some c -> card_key c = k.
Proof. destruct ms as [|m ms]; [done|]. by intros [= <-]. Qed.

Lemma firsts_have k live : k ∈ firsts (card_thread_key <$> live) -> exists m l, same_card k live = m :: l.
Proof.
  intros (m & -> & Hm)%elem_of_firsts%list_elem_of_fmap. pose proof (same_card_has m live Hm) as Hin.
  destruct (same_card _ live) as [|h l]; [by apply not_elem_of_nil in Hin|eauto].
Qed.

(** The cards come one for each key, in the order of the keys. *)
Lemma card_keys ms default_folder drafts :
  card_key <$> group_thread_cards_with_drafts ms default_folder drafts = firsts (card_thread_key <$> List.filter listed ms).
Proof.
  rewrite cards_spec, list_fmap_omap. rewrite <- (list_fmap_id (firsts _)) at 2. rewrite (list_fmap_alt Datatypes.id).
  apply list_omap_ext, Forall_Forall2_diag, Forall_forall. intros k (m & l & E)%firsts_have. by rewrite E.
Qed.

(** The cards of a list are those of the messages it is given, in the
    order their cards are first met: the card of a key shows the first of its
    messages under the subject its thread began with, says how many they are
    and how many are unread, is read when all of them are, starred when one of
    them is, and points to the branch the thread began in when it is another;
    and each message is counted in one card. *)
Theorem cards_account_for_every_message ms default_folder drafts :
  let live := List.filter listed ms in
  let cards := group_thread_cards_with_drafts ms default_folder drafts in
  cards = omap (fun k => card_of live default_folder drafts k (same_card k live)) (firsts (card_thread_key <$> live)) /\
  total (message_count <$> cards) = Z.of_nat (length live).
Proof.
  intros live cards. split; [apply cards_spec|]. unfold cards. rewrite cards_spec. fold live.
  rewrite <- (parts_total (firsts (card_thread_key <$> live)) live).
  - f_equal. rewrite list_fmap_omap. rewrite (list_fmap_alt (fun k => Z.of_nat _)).
    apply list_omap_ext, Forall_Forall2_diag, Forall_forall. intros k (m & l & E)%firsts_have. by rewrite E.
  - apply firsts_NoDup.
  - apply Forall_forall. intros m Hm. apply elem_of_firsts. by apply list_elem_of_fmap_2.
Qed.
End Cards.
