(* ===== verification/Messages.v ===== *)
(** * Pages of messages

    Models the table of cached messages of [meron-core/src/store/mod.rs] and
    the pages read from it ([get_recent_page_sorted]), with the loop of
    [meron-core/src/cached_conversations.rs] that reads a folder whole
    ([headers]).  The columns in JSON stand as what [json_extract] gives of
    them. *)
From S2P Require Import Prelude.
From S2P Require Import Table.
From S2P Require Import Text.
From S2P Require Import Keyset.
From S2P Require Import ThreadList.
From S2P Require Import Cards.

(** [serde_json::from_str::<Vec<Recipient>>(&s).ok()] *)
Class RecipientsJson := recipients_from_str : text -> option (list Cards.Recipient).

Lemma mapM_result {E A B} (f : A -> result E B) (g : A -> B) l :
  Forall (fun a => f a = Ok (g a)) l -> mapM f l = Ok (g <$> l).
Proof. induction 1 as [|a l Ha _ IH]; [done|]. cbn. rewrite Ha. cbn. by rewrite IH. Qed.

Module Messages.
#[local] Open Scope Z_scope.

(** ** The tables *)

Record Row := {
  id : Z; account : text; row_folder : text; msg_id : text; row_uid : Z;
  row_subject : option text; row_from_name : option text; row_from_addr : option text;
  row_date : Z; row_seen : Z; row_starred : Z; row_thread_key : option text;
  json_to : option text; json_cc : option text; json_message_id : option text; json_in_reply_to : option text;
  row_has_attachments : option Z; row_priority : option Z; row_category : option text;
}.

Record ThreadLabel := { tl_account : text; tl_thread_key : text; tl_label_id : text }.
Record Folder := { f_account : text; f_name : text; f_special_use : option text }.
Record Snoozed := { sn_account : text; sn_thread_key : text; sn_folder : text; until : Z }.
Record FolderState := { st_account : text; st_folder : text; uidvalidity : Z; uid_next : Z }.
(** An account, with the addresses of the aliases in its preferences. *)
Record Account := { a_id : text; engine : text; email : option text; aliases : list text }.

Record Db := {
  messages : list Row; thread_labels : list ThreadLabel; folders : list Folder;
  snoozed_threads_table : list Snoozed; folder_state : list FolderState; accounts : list Account;
}.

Definition is_text (t : text) (o : option text) : bool := bool_decide (o = Some t).

(** [NULLIF(s, '')] *)
Definition nullif (o : option text) : option text := match o with Some [] => None | _ => o end.

(** [COALESCE(NULLIF(thread_key, ''), 'uid:' || uid)] *)
Definition sql_thread_key (r : Row) : text := unwrap_or (lit "uid:" ++ show_Z (row_uid r)) (nullif (row_thread_key r)).

(** ** Order *)

Definition column (s : ThreadList.Sort) (r : Row) : Key :=
  match ThreadList.key s with
  | ThreadList.Date => DateKey (row_date r)
  | ThreadList.Sender => TextKey (to_ascii_lowercase (unwrap_or (unwrap_or [] (row_from_addr r)) (nullif (row_from_name r))))
  | ThreadList.Subject => TextKey (to_ascii_lowercase (unwrap_or [] (row_subject r)))
  end.

(** [CAST(key AS TEXT)] *)
Definition cast_text (k : Key) : text := match k with DateKey d => show_Z d | TextKey t => t end.

Definition in_direction {P} (s : ThreadList.Sort) (before : P -> P -> bool) : P -> P -> bool :=
  match ThreadList.dir s with ThreadList.Asc => before | ThreadList.Desc => backwards before end.

Definition position (s : ThreadList.Sort) (r : Row) : Key * Z := (column s r, row_uid r).
Definition row_before (s : ThreadList.Sort) : Key * Z -> Key * Z -> bool := in_direction s (lex key_before Z.ltb).

(** The values bound for a cursor, whose parts depend on the order. *)
Definition bound (s : ThreadList.Sort) (c : ThreadList.PageCursor) : Key * Z :=
  (match ThreadList.key s with ThreadList.Date => DateKey (ThreadList.p_date c) | _ => TextKey (ThreadList.p_text c) end,
   ThreadList.p_uid c).

(** ** A page *)

(** [store::RecentFilter] *)
Definition RecentFilter := ThreadList.Facets.
Definition default_filter : RecentFilter :=
  {| ThreadList.unread_only := false; ThreadList.starred_only := false; ThreadList.label_id := None;
     ThreadList.with_attachments := false; ThreadList.priority_only := false; ThreadList.category := None |}.

(** The [WHERE] clause but for the cursor. *)
Definition eligible (db : Db) (acc fol : text) (f : RecentFilter) (r : Row) : bool :=
  bool_decide (account r = acc) && bool_decide (row_folder r = fol) &&
  (negb (ThreadList.unread_only f) || (row_seen r =? 0)) &&
  (negb (ThreadList.starred_only f) || (row_starred r =? 1)) &&
  (negb (ThreadList.with_attachments f) || bool_decide (row_has_attachments r = Some 1)) &&
  (negb (ThreadList.priority_only f) || bool_decide (row_priority r = Some 1)) &&
  match ThreadList.category f with None => true | Some c => is_text c (row_category r) end &&
  match ThreadList.label_id f with
  | None => true
  | Some l => existsb (fun t => bool_decide (tl_account t = account r) && bool_decide (tl_label_id t = l)
                                && bool_decide (tl_thread_key t = sql_thread_key r)) (thread_labels db)
  end.

Section Pages.
Context {B : Base64} {RJ : RecipientsJson}.

Definition parse_recipients_json (json : option text) : list Cards.Recipient :=
  unwrap_or [] (json ≫= recipients_from_str).

Definition null_error : text := lit "Invalid column type Null".
Definition range_error : text := lit "Integer out of range".

Definition header_of_row (r : Row) : result text Cards.MessageHeader :=
  uid ← (if (0 <=? row_uid r) && (row_uid r <=? 2 ^ 32 - 1) then Ok (row_uid r) else Err range_error);
  subject ← ok_or null_error (row_subject r);
  from_name ← ok_or null_error (row_from_name r);
  from_addr ← ok_or null_error (row_from_addr r);
  Ok {| Cards.uid := uid; Cards.folder := []; Cards.subject := subject; Cards.from_name := from_name;
        Cards.from_addr := from_addr; Cards.date := row_date r; Cards.seen := negb (row_seen r =? 0);
        Cards.starred := negb (row_starred r =? 0);
        Cards.thread_key := unwrap_or (lit "uid:" ++ show_Z uid) (nullif (row_thread_key r));
        Cards.message_id := []; Cards.gmail_msg_id := None; Cards.gmail_labels := []; Cards.in_reply_to := [];
        Cards.has_attachments := None; Cards.to := parse_recipients_json (json_to r); Cards.cc := [];
        Cards.recipient_overflow := 0 |}.

Definition read_row (s : ThreadList.Sort) (r : Row) : result text (Cards.MessageHeader * text) :=
  h ← header_of_row r; Ok (h, cast_text (column s r)).

Definition get_recent_page_sorted (db : Db) (acc fol : text) (limit : Z) (before_cursor : option ThreadList.PageCursor)
    (f : RecentFilter) (s : ThreadList.Sort) : result text (list Cards.MessageHeader * option text) :=
  let probe := Z.min (limit + 1) (2 ^ 32 - 1) in
  let chosen := order_by (not_after (position s) (row_before s))
                  (List.filter (fun r => eligible db acc fol f r && beyond (position s) (row_before s) (bound s <$> before_cursor) r) (messages db)) in
  out ← mapM (read_row s) (take (Z.to_nat probe) chosen);
  let has_more := limit <? Z.of_nat (length out) in
  let page := if has_more then take (Z.to_nat limit) out else out in
  let next := if has_more then (fun '(h, text_key) => ThreadList.format_page_cursor s text_key (Cards.date h) (Cards.uid h)) <$> last page else None in
  Ok (fst <$> page, next).

Definition get_recent_page (db : Db) (acc fol : text) (limit : Z) (before_cursor : option ThreadList.PageCursor)
    (f : RecentFilter) : result text (list Cards.MessageHeader * option text) :=
  get_recent_page_sorted db acc fol limit before_cursor f ThreadList.default_sort.

(** ** A folder, whole *)

Definition HEADER_CHUNK : Z := 1024.
Definition invalid_continuation : text := lit "invalid internal header continuation".

(** The loop of [headers]; [None] is a loop that has not come to its end. *)
Fixpoint headers_loop (fuel : nat) (db : Db) (acc fol : text) (f : RecentFilter)
    (cursor : option ThreadList.PageCursor) (out : list Cards.MessageHeader) : option (result text (list Cards.MessageHeader)) :=
  match fuel with
  | O => None
  | S n =>
      match get_recent_page db acc fol HEADER_CHUNK cursor f with
      | Err e => Some (Err e)
      | Ok (page, next) =>
          let out' := out ++ page in
          match next with
          | None => Some (Ok out')
          | Some next =>
              match ThreadList.parse_mail_cursor next with
              | None => Some (Err invalid_continuation)
              | Some c => headers_loop n db acc fol f (Some c) out'
              end
          end
      end
  end.

(** Each round reads at least one row more: the rows are rounds enough. *)
Definition headers (db : Db) (acc fol : text) (f : RecentFilter) : option (result text (list Cards.MessageHeader)) :=
  headers_loop (S (length (messages db))) db acc fol f None [].

(** Following the pages of an order by their cursors, each with its limit, as
    a reader who scrolls does. *)
Fixpoint scroll (db : Db) (acc fol : text) (f : RecentFilter) (s : ThreadList.Sort) (limits : list Z)
    (cursor : option ThreadList.PageCursor) : option (list Cards.MessageHeader) :=
  match limits with
  | [] => None
  | limit :: limits' =>
      '(page, next) ← ok (get_recent_page_sorted db acc fol limit cursor f s);
      match next with
      | None => Some page
      | Some next =>
          c ← ThreadList.parse_mail_cursor next;
          rest ← scroll db acc fol f s limits' (Some c);
          Some (page ++ rest)
      end
  end.
End Pages.

(** ** Rows as mail is stored *)

Record stored_row (r : Row) : Prop := {
  uid_range : 0 <= row_uid r < 2 ^ 32;
  date_range : - 2 ^ 63 <= row_date r < 2 ^ 63;
  has_subject : is_Some (row_subject r);
  has_from_name : is_Some (row_from_name r);
  has_from_addr : is_Some (row_from_addr r);
}.

Definition in_folder (acc fol : text) (r : Row) : bool := bool_decide (account r = acc) && bool_decide (row_folder r = fol).

(** A folder of mail: each uid once. *)
Definition stored (db : Db) (acc fol : text) : Prop :=
  let rows := List.filter (in_folder acc fol) (messages db) in
  Forall stored_row rows /\ NoDup (row_uid <$> rows).

Section Read.
Context {B : Base64} {L : Base64Laws B} {RJ : RecipientsJson}.

(** What is read of a row. *)
Definition shown (r : Row) : Cards.MessageHeader :=
  {| Cards.uid := row_uid r; Cards.folder := []; Cards.subject := unwrap_or [] (row_subject r);
     Cards.from_name := unwrap_or [] (row_from_name r); Cards.from_addr := unwrap_or [] (row_from_addr r);
     Cards.date := row_date r; Cards.seen := negb (row_seen r =? 0); Cards.starred := negb (row_starred r =? 0);
     Cards.thread_key := sql_thread_key r; Cards.message_id := []; Cards.gmail_msg_id := None; Cards.gmail_labels := [];
     Cards.in_reply_to := []; Cards.has_attachments := None; Cards.to := parse_recipients_json (json_to r); Cards.cc := [];
     Cards.recipient_overflow := 0 |}.

Lemma read_stored s r : stored_row r -> read_row s r = Ok (shown r, cast_text (column s r)).
Proof.
  intros [Hu Hd [su Es] [na En] [ad Ea]]. unfold read_row, header_of_row, shown.
  rewrite Es, En, Ea. replace ((0 <=? row_uid r) && (row_uid r <=? 2 ^ 32 - 1)) with true; [done|].
  symmetry. bools. lia.
Qed.

#[export] Instance row_order s : KeyOrder (row_before s).
Proof. unfold row_before, in_direction. destruct (ThreadList.dir s); [apply backwards_order|]; apply _. Qed.

(** The cursor of a row leads to its place. *)
Lemma cursor_leads_to s r : stored_row r ->
  exists c, ThreadList.parse_mail_cursor (ThreadList.format_page_cursor s (cast_text (column s r)) (row_date r) (row_uid r)) = Some c /\
    bound s c = position s r.
Proof.
  intros [Hu Hd _ _ _]. eexists. split; [by apply ThreadList.page_cursor_read_back|].
  unfold bound, position, column. by destruct (ThreadList.key s).
Qed.

Section Folder.
Context (db : Db) (acc fol : text) (f : RecentFilter) (Hst : stored db acc fol).
Notation rows := (List.filter (eligible db acc fol f) (messages db)).
Notation page_of s := (slice (position s) (row_before s)).
Notation ordered_rows s := (order_by (not_after (position s) (row_before s)) rows).

Lemma eligible_in_folder r : eligible db acc fol f r = true -> in_folder acc fol r = true.
Proof. unfold eligible, in_folder. by intros [[[[[[H _]%andb_true_iff _]%andb_true_iff _]%andb_true_iff _]%andb_true_iff _]%andb_true_iff _]%andb_true_iff. Qed.

Lemma rows_stored r : r ∈ rows -> stored_row r.
Proof.
  intros Hr. destruct Hst as [Hall _]. rewrite Forall_forall in Hall. apply Hall.
  apply list_elem_of_In, filter_In in Hr as [Hr He]. apply list_elem_of_In, filter_In. split; [done|]. by apply eligible_in_folder.
Qed.

Lemma positions_differ s : NoDup (position s <$> rows).
Proof.
  destruct Hst as [_ Hnd].
  assert (NoDup (row_uid <$> rows)) as Hu.
  { clear -Hnd. induction (messages db) as [|r l IH]; [constructor|]. cbn [List.filter] in *.
    destruct (eligible db acc fol f r) eqn:E.
    - rewrite (eligible_in_folder r E) in Hnd. cbn in *. apply NoDup_cons in Hnd as [Hr Hnd]. constructor; [|by apply IH].
      intros (x & Ex & Hx)%list_elem_of_fmap. apply Hr. rewrite Ex. apply list_elem_of_fmap_2.
      apply list_elem_of_In, filter_In in Hx as [Hx Hxe]. apply list_elem_of_In, filter_In. split; [done|]. by apply eligible_in_folder.
    - apply IH. destruct (in_folder acc fol r); [|done]. cbn in Hnd. by apply NoDup_cons in Hnd as [_ Hnd]. }
  apply (NoDup_fmap_1 snd). rewrite <- list_fmap_compose. exact Hu.
Qed.

Lemma filter_both {A} (g h : A -> bool) l : List.filter (fun a => g a && h a) l = List.filter h (List.filter g l).
Proof. induction l as [|a l IH]; [done|]. cbn. destruct (g a); cbn; [|done]. by rewrite IH. Qed.

(** A page, in terms of the slices of an ordered list. *)
Lemma page_is_slice s limit c : 0 < limit < 2 ^ 32 - 1 ->
  get_recent_page_sorted db acc fol limit c f s =
  let '(page, next) := page_of s (Z.to_nat limit) (bound s <$> c) rows in
  Ok (shown <$> page, if next then (fun r => ThreadList.format_page_cursor s (cast_text (column s r)) (row_date r) (row_uid r)) <$> last page else None).
Proof.
  intros Hl. unfold get_recent_page_sorted. rewrite filter_both.
  change (order_by _ (List.filter (beyond _ _ ?a) ?l)) with (rest (position s) (row_before s) a l).
  rewrite Z.min_l by lia. rewrite (mapM_result _ (fun r => (shown r, cast_text (column s r)))).
  2: { apply Forall_forall. intros r Hr. apply read_stored, rows_stored.
       assert (r ∈ rest (position s) (row_before s) (bound s <$> c) rows) as Hin by (eapply elem_of_take in Hr as (? & Hr & _); by apply list_elem_of_lookup_2 in Hr).
       unfold rest in Hin. rewrite order_by_perm in Hin. by apply elem_of_filtered in Hin. }
  unfold slice. set (r := rest _ _ _ _). cbn [mbind result_bind]. rewrite length_fmap, length_take.
  replace (limit <? Z.of_nat (Z.to_nat (limit + 1) `min` length r)) with (bool_decide (Z.to_nat limit < length r)%nat)
    by (apply eq_true_iff_eq; bools; lia).
  case_bool_decide as Hm.
  - rewrite <- fmap_take, take_take, Nat.min_l by lia. rewrite <- list_fmap_compose.
    do 2 f_equal. rewrite fmap_last.
    destruct (last (take (Z.to_nat limit) r)) as [x|] eqn:E; [done|].
    apply last_None, (f_equal length) in E. rewrite length_take in E. cbn in E. lia.
  - rewrite <- list_fmap_compose, !take_ge by lia. done.
Qed.

(** Following cursors written as text is following places. *)
Lemma scroll_follows s limits c : Forall (fun n => 0 < n < 2 ^ 32 - 1) limits ->
  scroll db acc fol f s limits c =
  match follow (position s) (row_before s) (Z.to_nat <$> limits) (bound s <$> c) rows with
  | Some l => Some (shown <$> l)
  | None => None
  end.
Proof.
  intros Hall. revert c. induction Hall as [|limit limits Hl Hall IH]; intros c; [done|]. cbn [scroll fmap list_fmap follow].
  rewrite page_is_slice by done. destruct (page_of s _ _ _) as [page next] eqn:E. cbn [ok mbind option_bind].
  unfold slice in E. injection E as Epage Enext.
  destruct next as [p|]; [|done].
  destruct (last page) as [r|] eqn:Er; cbn [fmap option_fmap option_map].
  2: { subst page. rewrite Er in Enext. by destruct (bool_decide _). }
  assert (stored_row r) as Hr.
  { apply rows_stored. apply last_Some_elem_of in Er. rewrite <- Epage in Er.
    apply elem_of_take in Er as (? & Er & _). apply list_elem_of_lookup_2 in Er. unfold rest in Er.
    rewrite order_by_perm in Er. by apply elem_of_filtered in Er. }
  destruct (cursor_leads_to s r Hr) as (c' & -> & Hc'). cbn [mbind option_bind]. rewrite IH. cbn [fmap option_fmap option_map].
  assert (Some (bound s c') = Some p) as ->.
  { rewrite Epage, Er in Enext. rewrite Hc'. by destruct (bool_decide _). }
  destruct (follow _ _ _ _ _) as [l|]; cbn; [|done]. by rewrite fmap_app.
Qed.

Lemma loop_scrolls n c out l : scroll db acc fol f ThreadList.default_sort (replicate n HEADER_CHUNK) c = Some l ->
  headers_loop n db acc fol f c out = Some (Ok (out ++ l)).
Proof.
  revert c out l. induction n as [|n IH]; intros c out l; [done|]. cbn [replicate scroll headers_loop]. unfold get_recent_page.
  destruct (get_recent_page_sorted _ _ _ _ _ _ _) as [[page [next|]]|e]; cbn; [|by intros [= ->]|done].
  destruct (ThreadList.parse_mail_cursor next) as [c'|]; cbn; [|done].
  destruct (scroll _ _ _ _ _ _ _) as [l'|] eqn:E; cbn; [|done]. intros [= <-]. rewrite app_assoc. by apply IH.
Qed.
End Folder.

(** A folder read by its pages, in any of the orders and under any filter,
    following the cursors from page to page as the text they are, is the
    messages that pass the filter, in order, each once: whatever the sizes of
    the pages, when together they have room for them. *)
Theorem pages_show_a_folder_once db acc fol f s limits :
  stored db acc fol -> Forall (fun n => 0 < n < 2 ^ 32 - 1) limits -> limits <> [] ->
  let rows := List.filter (eligible db acc fol f) (messages db) in
  Z.of_nat (length rows) <= fold_right Z.add 0 limits ->
  scroll db acc fol f s limits None = Some (shown <$> order_by (not_after (position s) (row_before s)) rows).
Proof.
  intros Hst Hall Hne rows Hlen. rewrite scroll_follows by done. cbn [fmap option_fmap option_map].
  rewrite (@follow_all _ _ _ _ (row_order s)); [done|by apply positions_differ| |by destruct limits|].
  - rewrite Forall_fmap. eapply Forall_impl; [exact Hall|]. cbn. lia.
  - fold rows. enough (Z.of_nat (sum_list (Z.to_nat <$> limits)) = fold_right Z.add 0 limits) by lia.
    clear -Hall. induction Hall as [|n l Hn Hall IH]; [done|]. cbn in *. lia.
Qed.

Lemma headers_whole db acc fol f :
  stored db acc fol ->
  headers db acc fol f =
  Some (Ok (shown <$> order_by (not_after (position ThreadList.default_sort) (row_before ThreadList.default_sort))
                       (List.filter (eligible db acc fol f) (messages db)))).
Proof.
  intros Hst. unfold headers. apply (loop_scrolls _ _ _ _ _ _ []). rewrite scroll_follows; [|done|].
  - cbn [fmap option_fmap option_map]. rewrite (@follow_all _ _ _ _ (row_order _)); [done|by apply positions_differ| | |].
    + rewrite Forall_fmap. apply Forall_replicate. unfold HEADER_CHUNK. cbn. lia.
    + done.
    + rewrite fmap_replicate. pose proof (List.filter_length_le (eligible db acc fol f) (messages db)) as Hle.
      enough (forall n, (n <= sum_list (replicate n (Z.to_nat HEADER_CHUNK)))%nat) as H.
      { specialize (H (S (length (messages db)))). lia. }
      assert (1 <= Z.to_nat HEADER_CHUNK)%nat as Hk by (unfold HEADER_CHUNK; lia). revert Hk. generalize (Z.to_nat HEADER_CHUNK). clear.
      intros k Hk n. induction n as [|n IH]; [done|]. cbn in *. lia.
  - apply Forall_replicate. unfold HEADER_CHUNK. lia.
Qed.

(** C36. Reading a folder whole comes to an end, and with every message of it
    that passes the filter, the newest first: the cursor that each round hands
    to the next as text is always read back, and is always further on. *)
Theorem headers_read_everything db acc fol f :
  stored db acc fol ->
  headers db acc fol f =
  Some (Ok (shown <$> order_by (not_after (position ThreadList.default_sort) (row_before ThreadList.default_sort))
                       (List.filter (eligible db acc fol f) (messages db)))).
Proof. apply headers_whole. Qed.
End Read.
End Messages.
