(* ===== verification/ConversationPage.v ===== *)
(** * Pages of conversations

    Models [meron-core/src/conversation_page.rs]: one order over the cards of
    all the folders of a view, the cursors that resume it, and the view a
    cursor is bound to by its digest. *)
From S2P Require Import Prelude.
From S2P Require Import Table.
From S2P Require Import Text.
From S2P Require Import Keyset.
From S2P Require Import ThreadList.

Module ConversationPage.
#[local] Open Scope Z_scope.

Definition CURSOR_PREFIX : text := lit "conv1:".
Definition RELOAD_REQUIRED : text := lit "conversation cursor invalid for this view; reload the first page".
Definition bad_view : text := lit "conversation view requires a namespace and qualified scopes".
Definition bad_limit : text := lit "conversation page limit must be positive".
Definition bad_candidates : text := lit "conversation candidates require unique nonempty qualified identities".

(** ** Views *)

Record Scope := { account : text; folder : text }.
#[global] Instance Scope_eq_dec : EqDecision Scope.
Proof. solve_decision. Defined.

Record View := { namespace : text; scopes : list Scope; query : text; filter : text; sort : ThreadList.Sort }.

(** The order derived for [Scope]: by account, then by folder. *)
Definition scope_key (s : Scope) : text * text := (account s, folder s).
Definition scope_before (a b : Scope) : bool := lex text_before text_before (scope_key a) (scope_key b).

#[global] Instance scope_order : KeyOrder scope_before.
Proof.
  pose proof (lex_order text_before text_before text_order text_order) as O. unfold scope_before. constructor.
  - intros p. apply O.
  - intros p q r. apply O.
  - intros [a f] [b g] H1 H2. assert (scope_key {| account := a; folder := f |} = scope_key {| account := b; folder := g |}) as E
      by by apply O. by injection E as -> ->.
Qed.

(** The facets a view is narrowed to, as they are bound. *)
Definition filters (v : View) : list text :=
  List.filter (fun facet => negb (is_empty facet) && negb (bool_decide (facet = lit "all"))) (trim <$> split_char 44 (filter v)).

(** What is digested ([serde_json::to_vec] of the tuple). *)
Record ViewContext := {
  c_namespace : text; c_scopes : list Scope; c_query : text; c_filters : list text; c_key : text; c_direction : text
}.
#[global] Instance ViewContext_eq_dec : EqDecision ViewContext.
Proof. solve_decision. Defined.

(** ** Positions *)

Record Candidate (T : Type) := Candidate_ { id : text; date : Z; sender : text; subject : text; item : T }.
#[global] Arguments Candidate_ {T}.
#[global] Arguments id {T}.
#[global] Arguments date {T}.
#[global] Arguments sender {T}.
#[global] Arguments subject {T}.
#[global] Arguments item {T}.

Record Page (T : Type) := Page_ { items : list T; next_cursor : option text }.
#[global] Arguments Page_ {T}.
#[global] Arguments items {T}.
#[global] Arguments next_cursor {T}.

(** [Position]: the key, then the identity. *)
Definition Position := (Key * text)%type.
Record Cursor := { context : text; at_position : Position }.

(** [compare(left, right, direction)] is [Less] *)
Definition position_before (dir : ThreadList.SortDir) : Position -> Position -> bool :=
  match dir with
  | ThreadList.Asc => lex key_before text_before
  | ThreadList.Desc => backwards (lex key_before text_before)
  end.

Lemma position_order dir : KeyOrder (position_before dir).
Proof. destruct dir; [apply backwards_order|]; apply _. Qed.

(** What the page takes from other code: JSON, SHA-256 in base64. *)
Class PageCodec := {
  context_to_vec : ViewContext -> text;
  sha256_base64 : text -> text;
  cursor_to_vec : Cursor -> text;
  cursor_from_slice : text -> option Cursor;
}.

Section Paging.
Context {B : Base64} {PC : PageCodec}.

Definition view_context (v : View) : ViewContext :=
  {| c_namespace := namespace v; c_scopes := sort_dedup scope_before (scopes v); c_query := trim (query v);
     c_filters := sort_dedup text_before (filters v);
     c_key := match ThreadList.key (sort v) with
              | ThreadList.Date => lit "date" | ThreadList.Sender => lit "sender" | ThreadList.Subject => lit "subject"
              end;
     c_direction := match ThreadList.dir (sort v) with ThreadList.Asc => lit "asc" | ThreadList.Desc => lit "desc" end |}.

Definition digest (v : View) : result text text :=
  if is_empty (namespace v) || existsb (fun s => is_empty (account s) || is_empty (folder s)) (scopes v)
  then Err bad_view else Ok (sha256_base64 (context_to_vec (view_context v))).

Definition decode_cursor (raw ctx : text) (s : ThreadList.Sort) : result text Position :=
  match body ← strip_prefix CURSOR_PREFIX raw; json ← unb64 body; cursor_from_slice json : option Cursor with
  | Some c =>
      if bool_decide (context c = ctx) && negb (is_empty (at_position c).2)
         && match (at_position c).1, ThreadList.key s with
            | DateKey _, ThreadList.Date | TextKey _, ThreadList.Sender | TextKey _, ThreadList.Subject => true
            | _, _ => false
            end
      then Ok (at_position c) else Err RELOAD_REQUIRED
  | None => Err RELOAD_REQUIRED
  end.

Definition encode_cursor (c : Cursor) : text := CURSOR_PREFIX ++ b64 (cursor_to_vec c).

Section Candidates.
Context {T : Type}.

Definition position (s : ThreadList.Sort) (c : Candidate T) : Position :=
  (match ThreadList.key s with
   | ThreadList.Date => DateKey (date c)
   | ThreadList.Sender => TextKey (to_ascii_lowercase (sender c))
   | ThreadList.Subject => TextKey (to_ascii_lowercase (subject c))
   end, id c).

(** The loop over the candidates: each has an identity of its own, and those
    after the cursor are kept with their positions. *)
Fixpoint gather (s : ThreadList.Sort) (before : option Position) (ids : gset text) (candidates : list (Candidate T))
    : result text (list (Position * T)) :=
  match candidates with
  | [] => Ok []
  | c :: candidates' =>
      if is_empty (id c) || bool_decide (id c ∈ ids) then Err bad_candidates
      else
        rest ← gather s before ({[id c]} ∪ ids) candidates';
        let p := position s c in
        Ok (if is_none_or (fun b => position_before (ThreadList.dir s) b p) before then (p, item c) :: rest else rest)
  end.

Definition page (candidates : list (Candidate T)) (view : View) (limit : nat) (before_cursor : option text)
    : result text (Page T) :=
  if (limit =? 0)%nat then Err bad_limit
  else
    ctx ← digest view;
    before ← match before_cursor with
             | None => Ok None
             | Some raw => p ← decode_cursor raw ctx (sort view); Ok (Some p)
             end;
    kept ← gather (sort view) before ∅ candidates;
    let ordered := order_by (not_after fst (position_before (ThreadList.dir (sort view)))) kept in
    let has_more := (limit <? length ordered)%nat in
    let shown := take limit ordered in
    let next := if has_more then (fun r => encode_cursor {| context := ctx; at_position := r.1 |}) <$> last shown else None in
    Ok (Page_ (snd <$> shown) next).
End Candidates.
End Paging.

(** ** What a page is *)

(** JSON is read as it was written. *)
Class PageCodecLaws (PC : PageCodec) := {
  cursor_read c : cursor_from_slice (cursor_to_vec c) = Some c;
  context_to_vec_inj c c' : context_to_vec c = context_to_vec c' -> c = c';
}.

(** Candidates with an identity each. *)
Definition identified {T} (candidates : list (Candidate T)) : Prop :=
  NoDup (id <$> candidates) /\ Forall (fun c => id c <> []) candidates.

Section Laws.
Context {B : Base64} {PC : PageCodec} {BL : Base64Laws B} {PL : PageCodecLaws PC}.

Section OneOrder.
Context {T : Type} (view : View).
Notation dir := (ThreadList.dir (sort view)).
Notation pos := (@position T (sort view)).
Notation slices := (slice pos (position_before dir)).

Lemma gather_kept before ids candidates :
  identified candidates -> Forall (fun c => id c ∉ ids) candidates ->
  gather (sort view) before ids candidates =
  Ok ((fun c => (pos c, item c)) <$> List.filter (beyond pos (position_before dir) before) candidates).
Proof.
  intros [Hnd Hne]. revert ids. induction candidates as [|c l IH]; intros ids Hf; [done|]. cbn.
  inversion Hf as [|? ? Hc Hl]; subst. inversion Hne as [|? ? Hcne Hlne]; subst. cbn in Hnd. apply NoDup_cons in Hnd as [Hcl Hnd].
  destruct (id c) as [|x i] eqn:Ei; [done|]. rewrite <- Ei in *. rewrite bool_decide_false by done.
  assert (is_empty (id c) = false) as -> by by rewrite Ei. cbn [orb]. rewrite IH; [|done..|].
  - cbn. destruct before as [p|]; cbn; [|done]. by destruct (position_before dir p (pos c)).
  - apply Forall_forall. intros d Hd. rewrite not_elem_of_union, not_elem_of_singleton. split.
    + intros E. apply Hcl. rewrite <- E. by apply list_elem_of_fmap_2.
    + rewrite Forall_forall in Hl. by apply Hl.
Qed.

Lemma identities_differ candidates : identified candidates -> NoDup (pos <$> candidates).
Proof.
  intros [Hnd _]. apply (NoDup_fmap_1 snd). rewrite <- list_fmap_compose. exact Hnd.
Qed.

Lemma conversation_slice candidates limit ctx raw before :
  identified candidates -> (0 < limit)%nat -> digest view = Ok ctx ->
  match raw with None => before = None | Some r => exists p, decode_cursor r ctx (sort view) = Ok p /\ before = Some p end ->
  page candidates view limit raw =
  let '(shown, next) := slices limit before candidates in
  Ok (Page_ (item <$> shown) ((fun p => encode_cursor {| context := ctx; at_position := p |}) <$> next)).
Proof.
  intros Hid Hl Hd Hraw. unfold page. rewrite (proj2 (Nat.eqb_neq limit 0)) by lia. rewrite Hd. cbn [mbind result_bind].
  assert ((match raw with None => Ok None | Some r => p ← decode_cursor r ctx (sort view); Ok (Some p) end : result text (option Position)) = Ok before) as ->.
  { destruct raw as [r|]; [|by subst]. destruct Hraw as (p & E & ->). by rewrite E. }
  cbn [mbind result_bind]. rewrite gather_kept by (done || by apply Forall_forall; intros; apply not_elem_of_empty).
  cbn [mbind result_bind]. rewrite order_by_fmap. unfold slice, rest. cbn [fst].
  change (not_after pos (position_before dir)) with (fun a b => not_after fst (position_before dir) (pos a, item a) (pos b, item b)).
  set (r := order_by _ _). rewrite length_fmap, <- fmap_take, <- list_fmap_compose.
  change (limit <? length r)%nat with (Nat.ltb limit (length r)). destruct (Nat.ltb_spec limit (length r)).
  - rewrite bool_decide_true by done. rewrite fmap_last. by destruct (last (take limit r)).
  - by rewrite bool_decide_false by lia.
Qed.

Lemma decode_own c ctx : id c <> [] ->
  decode_cursor (encode_cursor {| context := ctx; at_position := pos c |}) ctx (sort view) = Ok (pos c).
Proof.
  intros Hne. unfold decode_cursor, encode_cursor. rewrite strip_prefix_app. cbn [mbind option_bind].
  rewrite unb64_b64. cbn [mbind option_bind]. rewrite cursor_read. cbn [context at_position].
  rewrite bool_decide_true by done. unfold position at 1 2. cbn [fst snd].
  assert (is_empty (id c) = false) as -> by by destruct (id c). cbn. by destruct (ThreadList.key (sort view)).
Qed.
End OneOrder.

(** ** Walking through the pages

    Each page is asked for with its own limit, and of candidates collected
    anew, in whatever order the maps they come from gave. *)
Fixpoint walk {T} (view : View) (asked : list (nat * list (Candidate T))) (cursor : option text) : option (list T) :=
  match asked with
  | [] => None
  | (limit, candidates) :: asked' =>
      p ← ok (page candidates view limit cursor);
      match next_cursor p with
      | None => Some (items p)
      | Some raw => rows ← walk view asked' (Some raw); Some (items p ++ rows)
      end
  end.

Lemma walk_follows {T} view ctx (candidates : list (Candidate T)) asked raw before :
  identified candidates -> digest view = Ok ctx ->
  Forall (fun a => (0 < a.1)%nat /\ a.2 ≡ₚ candidates) asked ->
  match raw with None => before = None | Some r => exists p, decode_cursor r ctx (sort view) = Ok p /\ before = Some p end ->
  walk view asked raw =
  match follow (position (sort view)) (position_before (ThreadList.dir (sort view))) (fst <$> asked) before candidates with
  | Some l => Some (item <$> l)
  | None => None
  end.
Proof.
  intros Hid Hd Hall. revert raw before. induction Hall as [|[limit cs] asked [Hl Hp] Hall IH]; intros raw before Hraw; [done|].
  cbn [walk fmap list_fmap follow fst] in *. cbn in Hl, Hp.
  assert (identified cs) as Hcs by (destruct Hid as [H1 H2]; split; by rewrite Hp).
  rewrite (conversation_slice view cs limit ctx raw before) by done.
  rewrite (slice_any_order _ _ (KO := position_order _) limit before cs candidates) by (done || by apply identities_differ).
  destruct (slice _ _ _ _ _) as [shown next] eqn:E. cbn [ok mbind option_bind next_cursor items].
  destruct next as [p|]; [|done]. cbn [fmap option_fmap option_map].
  assert (exists c : Candidate T, p = position (sort view) c /\ id c <> []) as (c & -> & Hc).
  { unfold slice in E. injection E as Eshown Enext. destruct (bool_decide _); [|done].
    destruct (last (take limit (rest _ _ before candidates))) as [c|] eqn:Ec; [|done]. cbn in Enext. injection Enext as <-.
    exists c. split; [done|]. destruct Hid as [_ Hne]. rewrite Forall_forall in Hne. apply Hne.
    apply last_Some_elem_of, elem_of_take in Ec as (? & Ec & _). apply list_elem_of_lookup_2 in Ec. unfold rest in Ec.
    rewrite order_by_perm in Ec. by apply elem_of_filtered in Ec. }
  rewrite (IH _ (Some (position (sort view) c))).
  - destruct (follow _ _ _ _ _) as [l|]; cbn; [|done]. by rewrite fmap_app.
  - exists (position (sort view) c). split; [|done]. by apply decode_own.
Qed.

(** Walking through the pages of a view by its cursors shows each of its
    candidates once, in the order of the view, whatever the sizes of the pages
    and in whatever order the candidates are collected for each. *)
Lemma walk_shows_all {T} view ctx (candidates : list (Candidate T)) asked :
  identified candidates -> digest view = Ok ctx ->
  Forall (fun a => (0 < a.1)%nat /\ a.2 ≡ₚ candidates) asked -> asked <> [] ->
  (length candidates <= sum_list (fst <$> asked))%nat ->
  walk view asked None =
  Some (item <$> order_by (not_after (position (sort view)) (position_before (ThreadList.dir (sort view)))) candidates).
Proof.
  intros Hid Hd Hall Hne Hlen. rewrite (walk_follows view ctx candidates asked None None) by done.
  rewrite (@follow_all _ _ _ _ (position_order _)); [done|by apply identities_differ| |by destruct asked|done].
  rewrite Forall_fmap. eapply Forall_impl; [exact Hall|]. cbn. tauto.
Qed.

(** Two candidates of one identity, and there is no page. *)
Lemma gather_twice {T} (s : ThreadList.Sort) before ids (candidates : list (Candidate T)) :
  ~ NoDup (id <$> candidates) -> gather s before ids candidates = Err bad_candidates.
Proof.
  revert ids. induction candidates as [|c l IH]; intros ids Hnd; [by destruct Hnd; constructor|]. cbn.
  destruct (is_empty (id c) || _); [done|]. destruct (decide (id c ∈ id <$> l)) as [Hin|Hin].
  - assert (forall ids, id c ∈ ids -> gather s before ids l = Err bad_candidates) as Hg; [|by rewrite Hg by set_solver].
    clear IH Hnd ids. revert Hin. induction l as [|d l IH]; intros Hin ids Hids; [by apply not_elem_of_nil in Hin|]. cbn.
    destruct (is_empty (id d)); cbn; [done|]. case_bool_decide as Hd; [done|].
    cbn in Hin. apply elem_of_cons in Hin as [E|Hin]; [by rewrite <- E in Hd|].
    rewrite IH; [done|done|set_solver].
  - rewrite IH; [done|]. intros Hl. apply Hnd. cbn. by constructor.
Qed.

(** ** Cursors belong to a view *)

(** Two views are the same when they cannot be told apart: the folders and the
    facets are sets, the query is trimmed. *)
Definition same_view (v w : View) : Prop :=
  namespace v = namespace w /\ (forall s, s ∈ scopes v <-> s ∈ scopes w) /\ trim (query v) = trim (query w) /\
  (forall f, f ∈ filters v <-> f ∈ filters w) /\ sort v = sort w.

Lemma view_context_same v w : view_context v = view_context w <-> same_view v w.
Proof.
  unfold same_view, view_context. rewrite <- (sort_dedup_set scope_before), <- (sort_dedup_set text_before). split.
  - intros [= -> -> -> -> Hk Hd]. split_and!; try done. destruct (sort v) as [k d], (sort w) as [k' d']. cbn in *.
    f_equal; [by destruct k, k'|by destruct d, d'].
  - intros (-> & -> & -> & -> & ->). done.
Qed.

Lemma minted {T} view (candidates : list (Candidate T)) limit before pg raw :
  page candidates view limit before = Ok pg -> next_cursor pg = Some raw ->
  exists ctx (c : Candidate T), digest view = Ok ctx /\ raw = encode_cursor {| context := ctx; at_position := position (sort view) c |} /\ id c <> [].
Proof.
  unfold page. destruct (limit =? 0)%nat; [done|]. intros (ctx & Hd & (b & _ & (kept & Hk & Hpg)%bind_Ok)%bind_Ok)%bind_Ok Hraw.
  injection Hpg as <-. cbn [next_cursor] in Hraw.
  match type of Hraw with (if ?b then _ else _) = _ => destruct b; [|done] end.
  destruct (last _) as [[p t]|] eqn:E; [|done]. cbn [fmap option_fmap option_map fst] in Hraw. injection Hraw as <-.
  apply last_Some_elem_of, elem_of_take in E as (? & E & _). apply list_elem_of_lookup_2 in E. rewrite order_by_perm in E.
  assert (forall ids l kept, gather (sort view) b ids l = Ok kept -> (p, t) ∈ kept ->
    exists c : Candidate T, p = position (sort view) c /\ id c <> []) as Hg.
  { clear. intros ids l. revert ids. induction l as [|c l IH]; intros ids kept; cbn; [intros [= <-] H; by apply not_elem_of_nil in H|].
    destruct (is_empty (id c)) eqn:Ei; cbn; [done|]. destruct (bool_decide _); [done|]. intros (r & Hr & Hk)%bind_Ok Hin.
    injection Hk as <-. destruct (is_none_or _ _).
    - apply elem_of_cons in Hin as [[= -> _]|Hin]; [|by apply (IH _ _ Hr)]. exists c. split; [done|]. by destruct (id c).
    - by apply (IH _ _ Hr). }
  destruct (Hg _ _ _ Hk E) as (c & -> & Hc). by exists ctx, c.
Qed.

(** A cursor is good for the view that gave it and for no other: handed
    to a view of other folders, under another filter, query or order, it is
    refused with the request to reload; handed to the same view, written
    otherwise, it is not.  SHA-256 is taken not to give the two views one
    digest. *)
Theorem a_cursor_is_of_its_view {T} v w (candidates : list (Candidate T)) limit before pg raw ctx :
  page candidates v limit before = Ok pg -> next_cursor pg = Some raw -> digest w = Ok ctx ->
  (sha256_base64 (context_to_vec (view_context v)) = sha256_base64 (context_to_vec (view_context w)) ->
   context_to_vec (view_context v) = context_to_vec (view_context w)) ->
  forall (others : list (Candidate T)) limit', (0 < limit')%nat ->
  page others w limit' (Some raw) = Err RELOAD_REQUIRED <-> ~ same_view v w.
Proof.
  intros Hpg Hraw Hw Hsha others limit' Hl'. destruct (minted v candidates limit before pg raw Hpg Hraw) as (ctx' & c & Hv & -> & Hc).
  assert (ctx' = ctx <-> same_view v w) as Hctx.
  { rewrite <- view_context_same. unfold digest in Hv, Hw. do 2 (destruct (_ || _); [done|]).
    injection Hv as <-. injection Hw as <-. split; [intros E; by apply context_to_vec_inj, Hsha|by intros ->]. }
  unfold page. rewrite (proj2 (Nat.eqb_neq limit' 0)) by lia. rewrite Hw. cbn [mbind result_bind].
  destruct (decide (ctx' = ctx)) as [->|Hne].
  - assert (same_view v w) as Hsame by by apply Hctx.
    assert (sort w = sort v) as -> by by destruct Hsame as (_ & _ & _ & _ & ->). rewrite (decode_own v c ctx Hc). cbn [mbind result_bind].
    split; [|tauto]. destruct (gather _ _ _ _) as [kept|e] eqn:E; [done|]. cbn. intros [= ->].
    exfalso. assert (forall before ids l, gather (sort v) before ids (T := T) l <> Err RELOAD_REQUIRED) as Hg; [|by eapply Hg].
    clear. intros before ids l. revert ids. induction l as [|d l IH]; intros ids; cbn; [done|].
    destruct (_ || _); [by vm_compute|]. specialize (IH ({[id d]} ∪ ids)). destruct (gather _ _ _ l); [done|]. cbn. congruence.
  - unfold decode_cursor, encode_cursor. rewrite strip_prefix_app. cbn [mbind option_bind].
    rewrite unb64_b64. cbn [mbind option_bind]. rewrite cursor_read. cbn [context at_position].
    rewrite bool_decide_false by done. cbn. tauto.
Qed.
End Laws.
End ConversationPage.
