(* ===== verification/CachedConversations.v ===== *)
(** * Conversations from the cache

    Models [meron-core/src/cached_conversations.rs]: the cards of a folder as
    candidates for a page, with who they are from ([apply_card_identity] of
    [store/accounts.rs]), the conversations that are snoozed or hold a draft,
    and the page over all the folders of a view. *)
From S2P Require Import Prelude.
From S2P Require Import Table.
From S2P Require Import Text.
From S2P Require Import Keyset.
From S2P Require Import ThreadList.
From S2P Require Import Subjects.
From S2P Require Import Cards.
From S2P Require Import Messages.
From S2P Require Import ConversationPage.

(** [serde_json::to_vec] of the facets a view is bound to. *)
Class FacetsJson := facets_to_vec : Messages.RecentFilter -> text.

Module CachedConversations.
Import ThreadList Cards Messages.
#[local] Open Scope Z_scope.

(** ** Folder roles ([imap.rs], [classify_folder_role]) *)

Definition named (names : list string) (name : text) : bool :=
  existsb (fun n => bool_decide (to_ascii_lowercase name = lit n)) names.
Definition looks_like_archive : text -> bool :=
  named ["archive"; "archives"; "all mail"; "inbox.archive"; "inbox.archives"; "[gmail]/all mail"; "[google mail]/all mail"].
Definition looks_like_sent : text -> bool :=
  named ["sent"; "sent mail"; "sent messages"; "sent items"; "inbox.sent"; "[gmail]/sent mail"].
Definition looks_like_trash : text -> bool :=
  named ["trash"; "deleted"; "deleted items"; "deleted messages"; "bin"; "inbox.trash"; "inbox.deleted"; "inbox.deleted items"; "[gmail]/trash"; "[gmail]/bin"].
Definition looks_like_junk : text -> bool :=
  named ["junk"; "spam"; "bulk mail"; "inbox.junk"; "inbox.spam"; "[gmail]/spam"].
Definition looks_like_drafts : text -> bool :=
  named ["drafts"; "draft"; "inbox.drafts"; "inbox.draft"; "[gmail]/drafts"; "[gmail]/draft"].

Inductive Role := InboxRole | SentRole | DraftsRole | TrashRole | JunkRole | ArchiveRole | FolderRole.
#[global] Instance Role_eq_dec : EqDecision Role.
Proof. solve_decision. Defined.

Definition role_by_name (name : text) : Role :=
  if eq_ignore_ascii_case name (lit "INBOX") then InboxRole
  else if looks_like_sent name then SentRole
  else if looks_like_drafts name then DraftsRole
  else if looks_like_trash name then TrashRole
  else if looks_like_junk name then JunkRole
  else if looks_like_archive name then ArchiveRole
  else FolderRole.

Definition classify_folder_role (name : text) (special_use : option text) : Role :=
  let s := unwrap_or [] special_use in
  if bool_decide (s = lit "inbox") then InboxRole
  else if bool_decide (s = lit "sent") then SentRole
  else if bool_decide (s = lit "drafts") then DraftsRole
  else if bool_decide (s = lit "trash") then TrashRole
  else if bool_decide (s = lit "junk") then JunkRole
  else if bool_decide (s = lit "archive") || bool_decide (s = lit "all") then ArchiveRole
  else role_by_name name.

(** ** Drafts and snoozes *)

Definition special_use_of (db : Db) (acc fol : text) : option text :=
  query_row (fun f => bool_decide (f_account f = acc) && bool_decide (f_name f = fol)) (folders db) ≫= f_special_use.

Definition draft_thread_keys (db : Db) (acc : text) : gset text :=
  list_to_set (sql_thread_key <$>
    List.filter (fun r => bool_decide (account r = acc) && negb (row_uid r =? 0) &&
                          bool_decide (classify_folder_role (row_folder r) (special_use_of db acc (row_folder r)) = DraftsRole))
                (messages db)).

Definition snoozed_threads (db : Db) (acc : text) : list Snoozed :=
  order_by (fun a b => until a <=? until b) (select (fun s => bool_decide (sn_account s = acc)) (snoozed_threads_table db)).

(** The threads asleep at [now], as this folder sees them. *)
Definition asleep (db : Db) (acc fol : text) (now : Z) : gset text :=
  list_to_set (sn_thread_key <$>
    List.filter (fun s => (now <? until s) &&
                          (negb (starts_with (lit "uid:") (Subjects.split_thread_key (sn_thread_key s)).1)
                           || bool_decide (canon_folder (sn_folder s) = fol)))
                (snoozed_threads db acc)).

(** ** Who a card is from *)

Section Identity.
Context {U : Unicode}.

Definition self_addrs (db : Db) (acc : text) : gset text :=
  match query_row (fun a => bool_decide (a_id a = acc)) (accounts db) with
  | Some a => list_to_set (List.filter (fun e => negb (is_empty e))
                             ((fun e => to_lowercase (trim e)) <$> option_list (email a) ++ aliases a))
  | None => ∅
  end.

Definition is_outgoing (mine : gset text) (fol from : text) (delivered : bool) : bool :=
  if looks_like_sent fol then true
  else if delivered then false
  else let from := to_lowercase (trim from) in negb (is_empty from) && bool_decide (from ∈ mine).

Definition is_junk_display_name (n addr_lower : text) : bool :=
  let n := to_lowercase (trim n) in is_empty n || contains addr_lower n.

(** SQLite's [TRIM] takes spaces off. *)
Definition sql_trim (s : text) : text := trim_matches (fun c => c =? 32) s.

Definition known_display_name (db : Db) (acc addr_lower : text) : option text :=
  head (order_by (fun a b => id b <=? id a)
          (select (fun r => bool_decide (account r = acc)
                            && is_some_and (fun a => bool_decide (to_ascii_lowercase a = addr_lower)) (row_from_addr r)
                            && is_some_and (fun n => negb (is_empty (sql_trim n)) && negb (contains addr_lower (to_ascii_lowercase n))) (row_from_name r))
                  (messages db))) ≫= row_from_name.

(** A header with another sender. *)
Definition resend (h : MessageHeader) (n a : text) (overflow : Z) : MessageHeader :=
  {| uid := uid h; folder := folder h; subject := subject h; from_name := n; from_addr := a; date := date h;
     seen := seen h; starred := starred h; thread_key := thread_key h; message_id := message_id h;
     gmail_msg_id := gmail_msg_id h; gmail_labels := gmail_labels h; in_reply_to := in_reply_to h;
     has_attachments := has_attachments h; to := to h; cc := cc h; recipient_overflow := overflow |}.

(** One header; the names are looked up once for each address, which changes
    nothing as nothing is written meanwhile. *)
Definition card_identity (db : Db) (acc fol : text) (h : MessageHeader) : MessageHeader :=
  let source_folder := if is_empty (folder h) then fol else folder h in
  let h := if is_outgoing (self_addrs db acc) source_folder (from_addr h) false
           then match to h with
                | first :: others => resend h (name first) (addr first) (Z.of_nat (length others))
                | [] => h
                end
           else h in
  let a := to_lowercase (trim (from_addr h)) in
  if is_empty a || negb (is_junk_display_name (from_name h) a) then h
  else resend h (unwrap_or [] (known_display_name db acc a)) (from_addr h) (recipient_overflow h).

Definition apply_card_identity (db : Db) (acc fol : text) (hs : list MessageHeader) : list MessageHeader :=
  card_identity db acc fol <$> hs.
End Identity.

(** ** Candidates *)

Record LocatedCard := { scope : ConversationPage.Scope; card : ThreadCard }.

(** [mail_model::format_thread_id] *)
Definition format_thread_id `{Base64} (account_id fol key : text) : text :=
  match strip_prefix (lit "uid:") key with
  | Some u => account_id ++ lit "#" ++ canon_folder fol ++ lit "#" ++ u
  | None => account_id ++ lit "#" ++ canon_folder fol ++ lit "#t." ++ b64 key
  end.

(** The latest of the messages of a card, by date and uid. *)
Definition note_representative (reps : gmap text MessageHeader) (h : MessageHeader) : gmap text MessageHeader :=
  if uid h =? 0 then reps
  else
    let k := card_thread_key h in
    match reps !! k with
    | None => <[k := h]> reps
    | Some old => if (date old <? date h) || ((date old =? date h) && (uid old <? uid h)) then <[k := h]> reps else reps
    end.

(** A card, as its representative shows it. *)
Definition represent (fol : text) (c : ThreadCard) (r : MessageHeader) : ThreadCard :=
  {| card_key := card_key c; original_thread_key := original_thread_key c;
     header := redraw r (subject (header c)) (card_key c) fol (unread_count c =? 0) (starred (header c));
     unread_count := unread_count c; message_count := message_count c; has_draft := has_draft c |}.

Section Conversations.
Context {U : Unicode} {B : Base64} {RJ : RecipientsJson}.

Definition candidate (sc : ConversationPage.Scope) (c : ThreadCard) : ConversationPage.Candidate LocatedCard :=
  let h := header c in
  ConversationPage.Candidate_
    (format_thread_id (ConversationPage.account sc) (ConversationPage.folder sc) (card_key c))
    (date h) (if is_empty (from_name h) then from_addr h else from_name h) (subject h) {| scope := sc; card := c |}.

(** The loop over the cards. *)
Fixpoint emit (sc : ConversationPage.Scope) (sleeping : gset text) (reps : gmap text MessageHeader) (cards : list ThreadCard)
    : list (ConversationPage.Candidate LocatedCard) :=
  match cards with
  | [] => []
  | c :: cards' =>
      if bool_decide (card_key c ∈ sleeping) || bool_decide ((Subjects.split_thread_key (card_key c)).1 ∈ sleeping)
      then emit sc sleeping reps cards'
      else
        match reps !! card_key c with
        | None => emit sc sleeping reps cards'
        | Some r => candidate sc (represent (ConversationPage.folder sc) c r) :: emit sc sleeping (delete (card_key c) reps) cards'
        end
  end.

Definition still_reading : text := lit "still reading".

(** [headers] comes to an end, as [headers_read_everything] shows. *)
Definition read_headers (db : Db) (sc : ConversationPage.Scope) (f : RecentFilter) : result text (list MessageHeader) :=
  unwrap_or (Err still_reading) (headers db (ConversationPage.account sc) (ConversationPage.folder sc) f).

#[global] Instance Facets_eq_dec : EqDecision Facets.
Proof. solve_decision. Defined.

Definition candidates (db : Db) (sc : ConversationPage.Scope) (f : RecentFilter) (now : Z)
    : result text (list (ConversationPage.Candidate LocatedCard)) :=
  all ← read_headers db sc default_filter;
  matching ← (if bool_decide (f = default_filter) then Ok all else read_headers db sc f);
  let matching := apply_card_identity db (ConversationPage.account sc) (ConversationPage.folder sc) matching in
  let reps := fold_left note_representative matching ∅ in
  let drafts := draft_thread_keys db (ConversationPage.account sc) in
  let sleeping := asleep db (ConversationPage.account sc) (ConversationPage.folder sc) now in
  let cards := group_thread_cards_with_drafts all (ConversationPage.folder sc) drafts in
  Ok (emit sc sleeping reps cards).

(** ** The page *)

Definition recent_filter (q : ThreadListQuery) : option RecentFilter :=
  match source q with Recent facets => Some facets | _ => None end.

Definition starts_conv (raw : text) : bool := starts_with (lit "conv1:") raw.
Definition reject_conversation_cursor (raw : option text) : result text unit :=
  if is_some_and starts_conv raw then Err ConversationPage.RELOAD_REQUIRED else Ok tt.

Definition should_sync (before : option text) (refresh : bool) : bool := refresh && is_none_or is_empty before.

Definition not_recent : text := lit "cached conversation paging requires a Recent view".
Definition not_mail : text := lit "RSS is not a cached mail conversation source".

Record FolderSummary := { fs_account : text; fs_folder : text; unread_in : Z; synced : bool }.

Definition get_folder_unread (db : Db) (acc fol : text) : Z :=
  Z.of_nat (changed (fun r => bool_decide (account r = acc) && bool_decide (row_folder r = fol) && (row_seen r =? 0)) (messages db)).

Definition get_folder_state (db : Db) (acc fol : text) : option (Z * Z) :=
  (fun s => (uidvalidity s, uid_next s)) <$>
  query_row (fun s => bool_decide (st_account s = acc) && bool_decide (st_folder s = fol)) (folder_state db).

Definition is_rss (db : Db) (acc : text) : bool :=
  existsb (fun a => bool_decide (a_id a = acc) && bool_decide (engine a = lit "rss")) (accounts db).

(** The loop over the folders of the view. *)
Fixpoint collect (db : Db) (f : RecentFilter) (now : Z) (scopes : list ConversationPage.Scope)
    : result text (list (ConversationPage.Candidate LocatedCard) * list FolderSummary) :=
  match scopes with
  | [] => Ok ([], [])
  | sc :: scopes' =>
      let acc := ConversationPage.account sc in
      let fol := ConversationPage.folder sc in
      if is_rss db acc then Err not_mail
      else
        cs ← candidates db sc f now;
        let state := {| fs_account := acc; fs_folder := fol; unread_in := get_folder_unread db acc fol;
                        synced := bool_decide (is_Some (get_folder_state db acc fol)) |} in
        '(all, states) ← collect db f now scopes';
        Ok (cs ++ all, state :: states)
  end.

Context {PC : ConversationPage.PageCodec} {FJ : FacetsJson}.

Definition canonical (sc : ConversationPage.Scope) : ConversationPage.Scope :=
  {| ConversationPage.account := ConversationPage.account sc; ConversationPage.folder := canon_folder (ConversationPage.folder sc) |}.

Definition view_of (namespace : text) (scopes : list ConversationPage.Scope) (f : RecentFilter) (q : ThreadListQuery) : ConversationPage.View :=
  {| ConversationPage.namespace := namespace; ConversationPage.scopes := scopes; ConversationPage.query := query q;
     ConversationPage.filter := b64 (facets_to_vec f); ConversationPage.sort := sort q |}.

(** [page], as far as the conversations it selects; [grouped_thread_cards_json]
    then writes each as JSON, in that order. *)
Definition selected (db : Db) (now : Z) (scopes : list ConversationPage.Scope) (namespace : text) (q : ThreadListQuery)
    (before_cursor : option text) : result text (ConversationPage.Page LocatedCard * list FolderSummary) :=
  f ← ok_or not_recent (recent_filter q);
  let scopes := sort_dedup ConversationPage.scope_before (canonical <$> scopes) in
  let view := view_of namespace scopes f q in
  '(all, states) ← collect db f now scopes;
  page ← ConversationPage.page all view (Z.to_nat (limit q)) before_cursor;
  Ok (page, states).
End Conversations.
End CachedConversations.
