(* ===== verification/ThreadKeys.v ===== *)
(** * Threads brought together

    Models the thread keys of [meron-core/src/store/mod.rs]: the key a message
    is stored under ([resolve_message_thread_key]), and the walk that hands a
    key down to the messages that named one just cached
    ([reconcile_thread_keys_from]), which must end though messages may name
    each other in a circle. *)
From S2P Require Import Prelude.
From S2P Require Import Table.
From S2P Require Import Text.
From S2P Require Import Keyset.
From S2P Require Import Messages.

Module ThreadKeys.
Import Messages.
#[local] Open Scope Z_scope.

(** [lower(COALESCE(json_extract(json, '$.message_id'), ''))] *)
Definition row_message_id (r : Row) : text := to_ascii_lowercase (unwrap_or [] (json_message_id r)).

(** [COALESCE(thread_key, '')] *)
Definition row_key (r : Row) : text := unwrap_or [] (row_thread_key r).

(** [ORDER BY date ASC, uid ASC] *)
Definition older (a b : Row) : bool := (row_date a <? row_date b) || ((row_date a =? row_date b) && (row_uid a <=? row_uid b)).

Definition names (acc message_id : text) (r : Row) : bool :=
  bool_decide (account r = acc) && bool_decide (row_message_id r = message_id) && negb (is_empty (row_key r)).

Definition cached_thread_key_of (rows : list Row) (acc message_id : text) : option text :=
  row_key <$> head (order_by older (select (names acc message_id) rows)).

Section Resolve.
Context {U : Unicode}.
Definition resolve_message_thread_key (rows : list Row) (acc thread_key : text) : text :=
  let key := trim thread_key in
  if is_empty key || starts_with (lit "uid:") key || starts_with (lit "gmthrid:") key || starts_with (lit "graph:") key
  then thread_key
  else unwrap_or thread_key (cached_thread_key_of rows acc (to_lowercase key)).
End Resolve.

(** [s LIKE 'p%'], which in SQLite ignores the case of ASCII letters. *)
Definition like_prefix (p s : text) : bool := eq_ignore_ascii_case (take (length p) s) p.
Definition synthetic (key : text) : bool :=
  like_prefix (lit "uid:") key || like_prefix (lit "gmthrid:") key || like_prefix (lit "graph:") key.

(** The rows that name a message as their thread, and are not in its thread. *)
Definition child (acc parent canonical : text) (r : Row) : bool :=
  bool_decide (account r = acc) && negb (row_uid r =? 0) && bool_decide (to_ascii_lowercase (row_key r) = parent) &&
  is_some_and (fun k => negb (bool_decide (k = canonical)) && negb (synthetic k)) (row_thread_key r).

Definition rekey (canonical : text) (r : Row) : Row :=
  {| id := id r; account := account r; row_folder := row_folder r; msg_id := msg_id r; row_uid := row_uid r;
     row_subject := row_subject r; row_from_name := row_from_name r; row_from_addr := row_from_addr r;
     row_date := row_date r; row_seen := row_seen r; row_starred := row_starred r; row_thread_key := Some canonical;
     json_to := json_to r; json_cc := json_cc r; json_message_id := json_message_id r;
     json_in_reply_to := json_in_reply_to r; row_has_attachments := row_has_attachments r;
     row_priority := row_priority r; row_category := row_category r |}.

(** The walk: the rows, the ids met, and those to walk out from next. *)
Definition Walk := (list Row * gset text * list text)%type.

Definition adopt (canonical : text) (w : Walk) (c : Row) : Walk :=
  let '(rows, seen, next) := w in
  let rows := update (fun r => id r =? id c) (rekey canonical) rows in
  let child_id := row_message_id c in
  if negb (is_empty child_id) && negb (bool_decide (child_id ∈ seen))
  then (rows, {[child_id]} ∪ seen, next ++ [child_id]) else (rows, seen, next).

Definition walk_from (acc : text) (w : Walk) (parent : text) : Walk :=
  let '(rows, _, _) := w in
  match cached_thread_key_of rows acc parent with
  | None => w
  | Some canonical => fold_left (adopt canonical) (select (child acc parent canonical) rows) w
  end.

(** The rounds of the walk; [None] is a walk that has not come to its end. *)
Fixpoint walk (fuel : nat) (acc : text) (rows : list Row) (seen : gset text) (pending : list text) : option (list Row * gset text) :=
  match pending with
  | [] => Some (rows, seen)
  | _ =>
      match fuel with
      | O => None
      | S n => let '(rows, seen, next) := fold_left (walk_from acc) pending (rows, seen, []) in walk n acc rows seen next
      end
  end.

(** The ids of the batch, in the order the hash set gives them; each round but
    the last meets an id that was not met before. *)
Definition reconcile_thread_keys_from (rows : list Row) (acc : text) (seeds : list text) : option (list Row) :=
  fst <$> walk (S (length rows)) acc rows (list_to_set seeds) seeds.

(** ** What a step changes *)

(** The ids of the rows of a table are one each, and its messages have uids. *)
Definition mail_table (acc : text) (rows : list Row) : Prop :=
  NoDup (id <$> rows) /\ Forall (fun r => account r = acc -> row_uid r <> 0) rows.

Lemma rekey_keeps c r : id (rekey c r) = id r /\ account (rekey c r) = account r /\ row_uid (rekey c r) = row_uid r /\
  row_message_id (rekey c r) = row_message_id r /\ row_date (rekey c r) = row_date r.
Proof. done. Qed.

(** All the rows of a kind that bear an id of the list. *)
Definition rekeyed (c : text) (p : Row -> bool) (rows : list Row) : list Row := (fun r => if p r then rekey c r else r) <$> rows.

Lemma rekeyed_table acc c p rows : mail_table acc rows -> mail_table acc (rekeyed c p rows).
Proof.
  intros [Hnd Hu]. unfold rekeyed. split.
  - assert (id <$> ((fun r => if p r then rekey c r else r) <$> rows) = id <$> rows) as ->; [|done].
    rewrite <- list_fmap_compose. apply list_fmap_ext. intros _ r _. cbn. by destruct (p r).
  - apply Forall_fmap. eapply Forall_impl; [exact Hu|]. intros r Hr. cbn. by destruct (p r).
Qed.

(** What the walk has met of the children of a row. *)
Definition meet (w : gset text * list text) (c : Row) : gset text * list text :=
  let child_id := row_message_id c in
  if negb (is_empty child_id) && negb (bool_decide (child_id ∈ w.1)) then ({[child_id]} ∪ w.1, w.2 ++ [child_id]) else w.

Lemma adopt_fold c cs rows seen next :
  fold_left (adopt c) cs (rows, seen, next) =
  (rekeyed c (fun r => existsb (fun x => id r =? id x) cs) rows, (fold_left meet cs (seen, next)).1, (fold_left meet cs (seen, next)).2).
Proof.
  revert rows seen next. induction cs as [|x cs IH]; intros rows seen next; cbn [fold_left existsb].
  - unfold rekeyed. by rewrite list_fmap_id.
  - assert (adopt c (rows, seen, next) x =
            (update (fun r => id r =? id x) (rekey c) rows, (meet (seen, next) x).1, (meet (seen, next) x).2)) as ->
      by (unfold adopt, meet; cbn; by destruct (_ && _)).
    rewrite IH. rewrite <- (surjective_pairing (meet _ x)). f_equal. f_equal.
    unfold rekeyed, update. rewrite <- list_fmap_compose. apply list_fmap_ext. intros _ r _. cbn.
    destruct (id r =? id x) eqn:E; cbn; [|done]. rewrite ?E. by destruct (existsb _ cs).
Qed.

Lemma children_are acc parent c rows : NoDup (id <$> rows) ->
  rekeyed c (fun r => existsb (fun x => id r =? id x) (select (child acc parent c) rows)) rows = rekeyed c (child acc parent c) rows.
Proof.
  intros Hnd. unfold rekeyed. apply list_fmap_ext. intros _ r Hr%list_elem_of_lookup_2. cbn.
  assert (existsb (fun x => id r =? id x) (select (child acc parent c) rows) = child acc parent c r) as ->; [|done].
  apply eq_true_iff_eq. rewrite existsb_elem. split.
  - intros (x & Hx & E). apply elem_of_select in Hx as [Hx Hc]. bools in E.
    assert (r = x) as ->; [|done]. apply (key_unique id (id x) rows); [done..| |]; by apply bool_decide_eq_true.
  - intros Hc. exists r. split; [by apply elem_of_select|]. apply Z.eqb_refl.
Qed.

Lemma walk_from_spec acc rows seen next parent : mail_table acc rows ->
  walk_from acc (rows, seen, next) parent =
  match cached_thread_key_of rows acc parent with
  | None => (rows, seen, next)
  | Some c =>
      let met := fold_left meet (select (child acc parent c) rows) (seen, next) in
      (rekeyed c (child acc parent c) rows, met.1, met.2)
  end.
Proof.
  intros [Hnd _]. unfold walk_from. destruct (cached_thread_key_of rows acc parent) as [c|]; [|done].
  by rewrite adopt_fold, children_are.
Qed.

(** ** Settled threads *)

(** A row that can be given another key. *)
Definition movable (acc : text) (r : Row) : bool :=
  bool_decide (account r = acc) && negb (row_uid r =? 0) && is_some_and (fun k => negb (synthetic k)) (row_thread_key r).

(** No row is left that names a message and is not in its thread. *)
Definition settled (acc : text) (rows : list Row) (message_id : text) : Prop :=
  match cached_thread_key_of rows acc message_id with
  | None => True
  | Some c => forall r, r ∈ rows -> movable acc r = true -> to_ascii_lowercase (row_key r) = message_id -> row_thread_key r = Some c
  end.

Lemma child_movable acc parent c r :
  child acc parent c r = movable acc r && bool_decide (to_ascii_lowercase (row_key r) = parent) && negb (bool_decide (row_thread_key r = Some c)).
Proof.
  unfold child, movable. destruct (row_thread_key r) as [k|] eqn:E; cbn; [|by rewrite !andb_false_r].
  rewrite (bool_decide_ext (Some k = Some c) (k = c)) by naive_solver.
  destruct (bool_decide (account r = acc)), (row_uid r =? 0), (bool_decide (to_ascii_lowercase (row_key r) = parent)), (bool_decide (k = c)), (synthetic k); done.
Qed.

(** The row a thread takes its key from. *)
Definition eldest (rows : list Row) (acc message_id : text) : option Row :=
  head (order_by older (select (names acc message_id) rows)).

Lemma eldest_key rows acc message_id : cached_thread_key_of rows acc message_id = row_key <$> eldest rows acc message_id.
Proof. done. Qed.

Lemma eldest_Some rows acc message_id r : eldest rows acc message_id = Some r ->
  r ∈ rows /\ account r = acc /\ row_message_id r = message_id /\ row_thread_key r = Some (row_key r) /\ row_key r <> [].
Proof.
  unfold eldest. intros H. assert (r ∈ order_by older (select (names acc message_id) rows)) as Hin
    by (destruct (order_by _ _); [done|]; cbn in H; injection H as ->; by left).
  rewrite order_by_perm in Hin. apply elem_of_select in Hin as [Hin Hn]. unfold names in Hn. bools in Hn.
  destruct Hn as [[Ha Hm] Hk]. split_and!; try done; unfold row_key in *; by destruct (row_thread_key r) as [[|? ?]|].
Qed.

Lemma select_rekeyed p q c rows : (forall r, q r = true -> p (rekey c r) = p r) ->
  select p (rekeyed c q rows) = rekeyed c q (select p rows).
Proof.
  intros Hp. unfold select, rekeyed. induction rows as [|r rows IH]; [done|]. cbn [fmap list_fmap].
  rewrite !filter_cons. assert (p (if q r then rekey c r else r) = p r) as -> by (destruct (q r) eqn:E; [by apply Hp|done]).
  case_decide; cbn [fmap list_fmap]; by rewrite IH.
Qed.

(** A step leaves the eldest row of each thread the eldest. *)
Lemma eldest_rekeyed rows acc parent c message_id : c <> [] -> parent <> [] ->
  eldest (rekeyed c (child acc parent c) rows) acc message_id =
  (fun r => if child acc parent c r then rekey c r else r) <$> eldest rows acc message_id.
Proof.
  intros Hc Hp. unfold eldest. rewrite select_rekeyed.
  - unfold rekeyed. rewrite order_by_fmap.
    assert (forall (f : Row -> Row) l, head (f <$> l) = f <$> head l) as -> by (intros f l; by destruct l). f_equal. f_equal.
    assert (forall a b, older (if child acc parent c a then rekey c a else a) (if child acc parent c b then rekey c b else b) = older a b) as Ho
      by (intros a b; by destruct (child _ _ _ a), (child _ _ _ b)).
    generalize (select (names acc message_id) rows). intros l.
    assert (forall a t, insert_sorted (fun a b => older (if child acc parent c a then rekey c a else a) (if child acc parent c b then rekey c b else b)) a t
                        = insert_sorted older a t) as Hi.
    { intros a t. induction t as [|x t IH]; [done|]. cbn. by rewrite Ho, IH. }
    induction l as [|a l IH]; [done|]. cbn. by rewrite IH, Hi.
  - intros r Hr. rewrite child_movable in Hr. bools in Hr. destruct Hr as [[_ Hk] _]. unfold names.
    change (row_key (rekey c r)) with c. destruct c; [done|].
    assert (is_empty (row_key r) = false) as ->; [|done]. by destruct (row_key r); [subst|].
Qed.

Lemma in_rekeyed c p rows r : r ∈ rekeyed c p rows -> exists r0, r0 ∈ rows /\ r = if p r0 then rekey c r0 else r0.
Proof. intros (r0 & -> & H)%list_elem_of_fmap. eauto. Qed.

Section Step.
Context (acc parent c : text) (rows : list Row) (o : Row).
Context (Htable : mail_table acc rows) (Hparent : parent <> []).
Context (Ho : eldest rows acc parent = Some o) (Hc : c = row_key o).
Notation rows' := (rekeyed c (child acc parent c) rows).

Lemma c_nonempty : c <> [].
Proof. apply eldest_Some in Ho as (_ & _ & _ & _ & H). by rewrite Hc. Qed.

(** Walking out from a message settles it. *)
Lemma step_settles : settled acc rows' parent.
Proof.
  unfold settled. rewrite eldest_key, eldest_rekeyed, Ho by (apply c_nonempty || done). cbn [fmap option_fmap option_map].
  assert (row_key (if child acc parent c o then rekey c o else o) = c) as -> by (by destruct (child _ _ _ o); rewrite Hc).
  intros r (r0 & Hr0 & ->)%in_rekeyed Hm Hk. destruct (child acc parent c r0) eqn:E; [done|].
  rewrite child_movable, Hm, bool_decide_true in E by done. cbn [andb] in E. by bools in E.
Qed.

(** And leaves the others as settled as they were. *)
Lemma step_keeps_settled other : other <> parent -> settled acc rows other -> settled acc rows' other.
Proof.
  intros Hne Hs. unfold settled in *. rewrite eldest_key in *. rewrite eldest_rekeyed by (apply c_nonempty || done).
  destruct (eldest rows acc other) as [p|] eqn:Ep; [|done]. cbn [fmap option_fmap option_map] in *.
  pose proof (eldest_Some _ _ _ _ Ep) as (Hp & _ & _ & Hpk & _).
  pose proof (eldest_Some _ _ _ _ Ho) as (Hoin & Hoacc & _ & Hok & _).
  assert (forall k, row_thread_key p = Some k -> to_ascii_lowercase k = other -> row_key (if child acc parent c p then rekey c p else p) = k) as Hstay.
  { intros k Hk Hlow. rewrite child_movable, (bool_decide_false (_ = parent)); [rewrite andb_false_r; cbn; unfold row_key; by rewrite Hk|].
    unfold row_key. rewrite Hk. change (unwrap_or [] (Some k)) with k. congruence. }
  intros r (r0 & Hr0 & ->)%in_rekeyed Hm Hk. destruct (child acc parent c r0) eqn:E.
  - (* a row that has just joined the thread of [parent], whose key names [other] *)
    cbn in Hk. change (row_thread_key (rekey c r0)) with (Some c). f_equal.
    assert (row_thread_key o = Some (row_key p)) as Hop.
    { apply Hs; [done| |by rewrite <- Hc]. unfold movable in *. bools in Hm. cbn in Hm. rewrite Hoacc, Hok, <- Hc. cbn.
      destruct Hm as [_ Hm]. rewrite bool_decide_true by done. rewrite Hm. cbn. rewrite andb_true_r.
      destruct Htable as [_ Hu]. rewrite Forall_forall in Hu. by apply negb_true_iff, Z.eqb_neq, Hu. }
    assert (c = row_key p) as Hcp by congruence. rewrite (Hstay c); [done|by rewrite Hpk, Hcp|done].
  - (* a row as it was *)
    pose proof (Hs r0 Hr0 Hm Hk) as Hr. rewrite (Hstay (row_key p)); [done|done|]. rewrite <- Hk. unfold row_key at 2. by rewrite Hr.
Qed.
End Step.

(** ** The walk *)

(** A row after the walk: as it was, or with another key and its own id met. *)
Definition moved (seen : gset text) (r r' : Row) : Prop :=
  r' = r \/ exists c, r' = rekey c r /\ (row_message_id r = [] \/ row_message_id r ∈ seen).

Record walked (acc : text) (w w' : Walk) : Prop := {
  w_table : mail_table acc w'.1.1;
  w_ids : row_message_id <$> w'.1.1 = row_message_id <$> w.1.1;
  w_moved : Forall2 (moved w'.1.2) w.1.1 w'.1.1;
  w_met : exists new, w'.1.2 = w.1.2 ∪ list_to_set new /\ w'.2 = w.2 ++ new /\
    forall i, i ∈ new -> i ∉ w.1.2 /\ i <> [] /\ i ∈ row_message_id <$> w.1.1;
}.

Lemma walked_refl acc w : mail_table acc w.1.1 -> walked acc w w.
Proof.
  intros Ht. constructor; [done|done| |].
  - apply Forall_Forall2_diag, Forall_forall. intros r _. by left.
  - exists []. split_and!; [set_solver|by rewrite app_nil_r|]. intros i Hi. by apply not_elem_of_nil in Hi.
Qed.

Lemma walked_trans acc w1 w2 w3 : walked acc w1 w2 -> walked acc w2 w3 -> walked acc w1 w3.
Proof.
  intros [T1 I1 M1 (n1 & S1 & N1 & H1)] [T2 I2 M2 (n2 & S2 & N2 & H2)]. constructor; [done|congruence| |].
  - eapply Forall2_trans; [|exact M1|exact M2]. intros r r' r'' [->|(c & -> & Hm)] [->|(c' & -> & Hm')].
    + by left.
    + right. by exists c'.
    + right. exists c. split; [done|]. rewrite S2. set_solver.
    + right. by exists c'.
  - exists (n1 ++ n2). split_and!; [rewrite S2, S1, list_to_set_app_L; set_solver|by rewrite N2, N1, app_assoc|].
    intros i [Hi|Hi]%elem_of_app; [by apply H1|]. apply H2 in Hi as (Hs & Hne & Hin). rewrite I1 in Hin. rewrite S1 in Hs.
    split_and!; [set_solver|done|done].
Qed.

(** Going through the children of a row meets their ids. *)
Lemma meet_all cs seen next : exists new,
  fold_left meet cs (seen, next) = (seen ∪ list_to_set new, next ++ new) /\
  (forall i, i ∈ new -> i ∉ seen /\ i <> [] /\ i ∈ row_message_id <$> cs) /\
  (forall r, r ∈ cs -> row_message_id r = [] \/ row_message_id r ∈ seen ∪ list_to_set new).
Proof.
  revert seen next. induction cs as [|c cs IH]; intros seen next.
  - exists []. split_and!; [cbn; f_equal; [set_solver|by rewrite app_nil_r]|set_solver|set_solver].
  - cbn [fold_left]. unfold meet at 2. cbn [fst snd].
    destruct (negb (is_empty (row_message_id c)) && negb (bool_decide (row_message_id c ∈ seen))) eqn:E.
    + bools in E. destruct E as [Ee Es]. destruct (IH ({[row_message_id c]} ∪ seen) (next ++ [row_message_id c])) as (new & -> & Hn & Hm).
      exists (row_message_id c :: new). split_and!.
      * f_equal; [cbn; set_solver|by rewrite <- app_assoc].
      * intros i [->|Hi]%elem_of_cons; [split_and!; [done|by destruct (row_message_id c)|by left]|].
        apply Hn in Hi as (H1 & H2 & H3). split_and!; [set_solver|done|by right].
      * intros r [->|Hr]%elem_of_cons; [right; set_solver|]. destruct (Hm r Hr) as [|]; [by left|right; cbn; set_solver].
    + destruct (IH seen next) as (new & -> & Hn & Hm). exists new. split_and!; [done| |].
      * intros i Hi. apply Hn in Hi as (H1 & H2 & H3). split_and!; [done|done|by right].
      * intros r [->|Hr]%elem_of_cons; [|by apply Hm]. apply andb_false_iff in E as [E|E]; bools in E.
        -- left. by destruct (row_message_id c).
        -- right. set_solver.
Qed.

(** One parent. *)
Lemma walk_from_walks acc w parent : mail_table acc w.1.1 -> parent <> [] ->
  let w' := walk_from acc w parent in
  walked acc w w' /\ settled acc w'.1.1 parent /\ (forall other, settled acc w.1.1 other -> settled acc w'.1.1 other).
Proof.
  destruct w as [[rows seen] next]. cbn [fst snd]. intros Ht Hp. rewrite walk_from_spec by done. rewrite eldest_key.
  destruct (eldest rows acc parent) as [o|] eqn:Eo; cbn [fmap option_fmap option_map].
  2: { split_and!; [by apply walked_refl| |done]. unfold settled. cbn [fst]. by rewrite eldest_key, Eo. }
  destruct (meet_all (select (child acc parent (row_key o)) rows) seen next) as (new & E & Hn & Hm). rewrite E. cbn [fst snd].
  split_and!.
  - constructor; cbn [fst snd].
    + by apply rekeyed_table.
    + unfold rekeyed. rewrite <- list_fmap_compose. apply list_fmap_ext. intros _ r _. cbn. by destruct (child _ _ _ r).
    + unfold rekeyed. apply Forall2_fmap_r, Forall_Forall2_diag, Forall_forall. intros r Hr. unfold moved.
      cbn. destruct (child acc parent (row_key o) r) eqn:Ec; [right|by left]. exists (row_key o). split; [done|].
      apply Hm. by apply elem_of_select.
    + exists new. split_and!; [done|done|]. intros i Hi. apply Hn in Hi as (H1 & H2 & (r & -> & [Hr _]%elem_of_select)%list_elem_of_fmap).
      split_and!; [done|done|]. by apply list_elem_of_fmap_2.
  - by apply (step_settles acc parent (row_key o) rows o).
  - intros other Hs. destruct (decide (other = parent)) as [->|Hne]; [by apply (step_settles acc parent (row_key o) rows o)|].
    by apply (step_keeps_settled acc parent (row_key o) rows o).
Qed.

(** One round. *)
Lemma round_walks acc pending w : mail_table acc w.1.1 -> Forall (fun p => p <> []) pending ->
  let w' := fold_left (walk_from acc) pending w in
  walked acc w w' /\ (forall p, p ∈ pending -> settled acc w'.1.1 p) /\ (forall other, settled acc w.1.1 other -> settled acc w'.1.1 other).
Proof.
  intros Ht Hall. revert w Ht. induction Hall as [|p pending Hp Hall IH]; intros w Ht; cbn [fold_left].
  - split_and!; [by apply walked_refl|set_solver|done].
  - destruct (walk_from_walks acc w p Ht Hp) as (W1 & Sp & Sk). destruct (IH (walk_from acc w p) (w_table _ _ _ W1)) as (W2 & Sps & Sk2).
    split_and!; [by eapply walked_trans| |auto]. intros q [->|Hq]%elem_of_cons; auto.
Qed.

Definition ids_of (rows : list Row) : gset text := list_to_set (row_message_id <$> rows).

Lemma ids_size (l : list text) : (size (list_to_set (C := gset text) l) <= length l)%nat.
Proof.
  induction l as [|i l IH]; cbn [list_to_set length]; [by rewrite size_empty|].
  rewrite size_union_alt, size_singleton. pose proof (subseteq_size (list_to_set l ∖ {[i]}) (list_to_set (C := gset text) l) ltac:(set_solver)). lia.
Qed.

Lemma walk_ends acc fuel rows seen pending :
  mail_table acc rows -> Forall (fun p => p <> []) pending ->
  (forall p, p ∈ seen -> p ∈ pending \/ settled acc rows p) ->
  (size (ids_of rows ∖ seen) < fuel)%nat ->
  exists rows' seen', walk fuel acc rows seen pending = Some (rows', seen') /\
    seen ⊆ seen' /\ Forall2 (moved seen') rows rows' /\ (forall p, p ∈ seen' -> settled acc rows' p).
Proof.
  revert rows seen pending. induction fuel as [|fuel IH]; intros rows seen pending Ht Hne Hs Hf; [lia|].
  destruct pending as [|p0 pending'] eqn:Ep.
  { exists rows, seen. split_and!; [done|done| |].
    - apply Forall_Forall2_diag, Forall_forall. intros r _. by left.
    - intros p Hp. destruct (Hs p Hp) as [Hin|]; [by apply not_elem_of_nil in Hin|done]. }
  rewrite <- Ep in *. assert (walk (S fuel) acc rows seen pending =
    let '(rows, seen, next) := fold_left (walk_from acc) pending (rows, seen, []) in walk fuel acc rows seen next) as -> by by rewrite Ep.
  destruct (round_walks acc pending (rows, seen, []) Ht Hne) as ([T I M (new & S & N & Hnew)] & Sp & Sk).
  destruct (fold_left _ pending _) as [[rows1 seen1] next]. cbn [fst snd app] in *. subst next seen1.
  assert (forall p, p ∈ seen ∪ list_to_set new -> p ∈ new \/ settled acc rows1 p) as Hs1.
  { intros p [Hp|Hp]%elem_of_union; [|left; by apply elem_of_list_to_set in Hp]. right. destruct (Hs p Hp); auto. }
  assert (forall rows2 seen2, seen ∪ list_to_set new ⊆ seen2 -> Forall2 (moved seen2) rows1 rows2 -> Forall2 (moved seen2) rows rows2) as Hmono.
  { intros rows2 seen2 Hsub Hm. eapply Forall2_trans; [|exact M|exact Hm].
    intros r r' r'' [->|(c & -> & H1)] [->|(c' & -> & H2)]; unfold moved in *; [by left|right; by exists c'| |right; by exists c'].
    right. exists c. split; [done|]. set_solver. }
  destruct (decide (new = [])) as [->|Hnn].
  - exists rows1, (seen ∪ list_to_set []). split_and!; [by destruct fuel|set_solver| |].
    + apply Hmono; [done|]. apply Forall_Forall2_diag, Forall_forall. intros r _. by left.
    + intros p Hp. destruct (Hs1 p Hp) as [Hin|]; [by apply not_elem_of_nil in Hin|done].
  - destruct (IH rows1 (seen ∪ list_to_set new) new) as (rows' & seen' & E & Hsub & Hm & Hset); [done| |done| |].
    + apply Forall_forall. intros p Hp. by apply Hnew.
    + assert (ids_of rows1 = ids_of rows) as -> by (unfold ids_of; by rewrite I).
      destruct new as [|i new']; [done|]. destruct (Hnew i) as (H1 & H2 & H3); [by left|].
      enough (size (ids_of rows ∖ (seen ∪ list_to_set (i :: new'))) < size (ids_of rows ∖ seen))%nat by lia.
      apply subset_size. assert (i ∈ ids_of rows) as Hi by by apply elem_of_list_to_set. split; [set_solver|]. cbn. set_solver.
    + exists rows', seen'. split_and!; [done|set_solver|by apply Hmono|done].
Qed.

(** C31. Bringing threads together comes to an end, though messages may name
    each other in a circle, and leaves them together: no message is left that
    names one of the batch as its thread and has not taken its thread for its
    own; nor one that names a message whose thread was changed on the way.
    What is changed of a message is its thread. *)
Theorem walking_out_settles rows acc seeds :
  mail_table acc rows -> Forall (fun p => p <> []) seeds ->
  exists rows', reconcile_thread_keys_from rows acc seeds = Some rows' /\
    Forall (settled acc rows') seeds /\
    Forall2 (fun r r' => r' = r \/ exists c, r' = rekey c r /\ (row_message_id r <> [] -> settled acc rows' (row_message_id r))) rows rows'.
Proof.
  intros Ht Hne. destruct (walk_ends acc (S (length rows)) rows (list_to_set seeds) seeds) as (rows' & seen' & E & Hsub & Hm & Hs); [done|done| | |].
  - intros p Hp. left. by apply elem_of_list_to_set in Hp.
  - assert (size (ids_of rows ∖ list_to_set seeds) <= length rows)%nat; [|lia].
    etrans; [apply subseteq_size; by apply subseteq_difference_l|]. unfold ids_of.
    rewrite <- (length_fmap row_message_id rows). apply ids_size.
  - exists rows'. unfold reconcile_thread_keys_from. rewrite E. split_and!; [done| |].
    + apply Forall_forall. intros p Hp. apply Hs, Hsub. by apply elem_of_list_to_set.
    + eapply Forall2_impl; [exact Hm|]. intros r r' [->|(c & -> & [E0|Hin])]; [by left|right; by exists c|right]. exists c. auto.
Qed.
End ThreadKeys.
