(* ===== verification/CachedLaws.v ===== *)
(** * What a view of conversations shows

    Theorems about [CachedConversations]: which conversations of a folder are
    candidates for a page, and what becomes of a view in which two of them
    have one identity. *)
From S2P Require Import Prelude.
From S2P Require Import Table.
From S2P Require Import Text.
From S2P Require Import Keyset.
From S2P Require Import ThreadList.
From S2P Require Import Subjects.
From S2P Require Import Cards.
From S2P Require Import Messages.
From S2P Require Import ConversationPage.
From S2P Require Import CachedConversations.
From S2P Require Import ThreadKeys.

Module CachedLaws.
Import ThreadList Cards Messages CachedConversations.
#[local] Open Scope Z_scope.

(** ** Representatives *)

Definition later (old h : MessageHeader) : bool := (date old <? date h) || ((date old =? date h) && (uid old <? uid h)).

Definition latest (l : list MessageHeader) : option MessageHeader :=
  fold_left (fun o h => match o with None => Some h | Some old => if later old h then Some h else Some old end) l None.

Lemma latest_snoc l h : latest (l ++ [h]) = match latest l with None => Some h | Some old => if later old h then Some h else Some old end.
Proof. unfold latest. by rewrite fold_left_app. Qed.

Lemma latest_None l : latest l = None -> l = [].
Proof.
  destruct l as [|h l] using rev_ind; [done|]. rewrite latest_snoc. destruct (latest l); [by destruct (later _ _)|done].
Qed.

Lemma latest_spec l r : latest l = Some r -> r ∈ l /\ forall h, h ∈ l -> later r h = false.
Proof.
  revert r. induction l as [|h l IH] using rev_ind; intros r; [done|]. rewrite latest_snoc.
  assert (forall x, later x x = false) as Hx by (intros x; unfold later; bools; lia).
  destruct (latest l) as [old|] eqn:E.
  - destruct (IH old eq_refl) as [Hin Hold]. destruct (later old h) eqn:El; intros [= <-].
    + split; [set_solver|]. intros x Hx'. apply elem_of_app in Hx' as [Hl|Hl%list_elem_of_singleton]; [|by subst]. specialize (Hold x Hl).
      unfold later in *. bools in Hold. bools in El. bools. lia.
    + split; [set_solver|]. intros x Hx'. apply elem_of_app in Hx' as [Hl|Hl%list_elem_of_singleton]; subst; auto.
  - intros [= <-]. apply latest_None in E as ->. split; [by left|]. intros y Hy. by apply list_elem_of_singleton in Hy as ->.
Qed.

Lemma representatives ms k : fold_left note_representative ms ∅ !! k = latest (same_card k (List.filter listed ms)).
Proof.
  induction ms as [|m ms IH] using rev_ind; [done|]. rewrite fold_left_app, same_card_snoc. cbn [fold_left].
  unfold note_representative, listed at 2. destruct (uid m =? 0) eqn:E0; cbn [negb andb]; [by rewrite app_nil_r|].
  case_bool_decide as Ek.
  - subst k. rewrite latest_snoc, <- IH. destruct (_ !! card_thread_key m) as [old|] eqn:E.
    + unfold later. destruct (_ || _); [by rewrite lookup_insert_eq|done].
    + by rewrite lookup_insert_eq.
  - rewrite app_nil_r, <- IH. destruct (_ !! card_thread_key m) as [old|]; [destruct (_ || _); [|done]|]; by rewrite lookup_insert_ne.
Qed.

(** ** Who a card is from changes nothing else *)

Section Laws.
Context {U : Unicode} {B : Base64} {BL : Base64Laws B} {RJ : RecipientsJson}.

Lemma identity_keeps db acc fol h :
  let h' := card_identity db acc fol h in
  uid h' = uid h /\ date h' = date h /\ card_thread_key h' = card_thread_key h /\ subject h' = subject h.
Proof.
  unfold card_identity. destruct (is_outgoing _ _ _ _), (to h) as [|first others]; destruct (_ || _); done.
Qed.

Lemma filter_fmap {A C} (g : C -> bool) (h : A -> C) l : List.filter g (h <$> l) = h <$> List.filter (fun a => g (h a)) l.
Proof. induction l as [|a l IH]; [done|]. cbn. destruct (g (h a)); cbn; by rewrite <- IH. Qed.

Lemma filter_ext {A} (g h : A -> bool) l : (forall a, g a = h a) -> List.filter g l = List.filter h l.
Proof. intros E. induction l as [|a l IH]; [done|]. cbn. by rewrite E, IH. Qed.

Lemma identity_cards db acc fol k ms :
  same_card k (List.filter listed (apply_card_identity db acc fol ms)) =
  apply_card_identity db acc fol (same_card k (List.filter listed ms)).
Proof.
  unfold apply_card_identity, same_card. rewrite !filter_fmap. f_equal. rewrite (filter_ext (fun a => listed (card_identity db acc fol a)) listed).
  - apply filter_ext. intros h. destruct (identity_keeps db acc fol h) as (_ & _ & -> & _). done.
  - intros h. unfold listed. by destruct (identity_keeps db acc fol h) as (-> & _).
Qed.

(** ** The loop over the cards *)

Definition sleeps (sleeping : gset text) (k : text) : bool :=
  bool_decide (k ∈ sleeping) || bool_decide ((Subjects.split_thread_key k).1 ∈ sleeping).

Definition emitted (sc : ConversationPage.Scope) (sleeping : gset text) (reps : gmap text MessageHeader) (c : ThreadCard)
    : option (ConversationPage.Candidate LocatedCard) :=
  if sleeps sleeping (card_key c) then None
  else (fun r => candidate sc (represent (ConversationPage.folder sc) c r)) <$> reps !! card_key c.

Lemma emit_spec sc sleeping reps cards : NoDup (card_key <$> cards) ->
  emit sc sleeping reps cards = omap (emitted sc sleeping reps) cards.
Proof.
  revert reps. induction cards as [|c cards IH]; intros reps Hnd; [done|]. cbn in Hnd. apply NoDup_cons in Hnd as [Hc Hnd].
  cbn [emit omap list_omap]. unfold emitted at 1, sleeps. destruct (_ || _); [by apply IH|].
  destruct (reps !! card_key c) as [r|] eqn:E; cbn; [|by apply IH]. f_equal. rewrite IH by done.
  apply list_omap_ext, Forall_Forall2_diag, Forall_forall. intros d Hd. unfold emitted.
  rewrite lookup_delete_ne; [done|]. intros E'. apply Hc. rewrite E'. by apply list_elem_of_fmap_2.
Qed.

(** A folder read whole, as [headers] reads it. *)
Definition whole (db : Db) (sc : ConversationPage.Scope) (f : RecentFilter) : list MessageHeader :=
  shown <$> order_by (not_after (position default_sort) (row_before default_sort))
              (List.filter (eligible db (ConversationPage.account sc) (ConversationPage.folder sc) f) (messages db)).

Definition stored_scope (db : Db) (sc : ConversationPage.Scope) : Prop :=
  stored db (ConversationPage.account sc) (ConversationPage.folder sc).

Lemma folder_read db sc f : stored_scope db sc -> read_headers db sc f = Ok (whole db sc f).
Proof. intros Hst. unfold read_headers. by rewrite headers_whole. Qed.

(** The candidate a card is, if it is one. *)
Definition shown_card (db : Db) (sc : ConversationPage.Scope) (f : RecentFilter) (now : Z) (c : ThreadCard)
    : option (ConversationPage.Candidate LocatedCard) :=
  let acc := ConversationPage.account sc in
  let fol := ConversationPage.folder sc in
  if sleeps (asleep db acc fol now) (card_key c) then None
  else (fun r => candidate sc (represent fol c r)) <$>
       latest (apply_card_identity db acc fol (same_card (card_key c) (List.filter listed (whole db sc f)))).

Definition cards_of (db : Db) (sc : ConversationPage.Scope) : list ThreadCard :=
  group_thread_cards_with_drafts (whole db sc default_filter) (ConversationPage.folder sc) (draft_thread_keys db (ConversationPage.account sc)).

Lemma candidates_are db sc f now : stored_scope db sc ->
  candidates db sc f now = Ok (omap (shown_card db sc f now) (cards_of db sc)).
Proof.
  intros Hst. unfold candidates. rewrite !folder_read by done. cbn [mbind result_bind].
  replace (if bool_decide (f = default_filter) then Ok (whole db sc default_filter) else Ok (whole db sc f)) with
    (Ok (E := text) (whole db sc f)) by (by case_bool_decide as E; [rewrite E|]).
  cbn [mbind result_bind]. f_equal. fold (cards_of db sc). rewrite emit_spec.
  - apply list_omap_ext, Forall_Forall2_diag, Forall_forall. intros c _. unfold emitted, shown_card.
    by rewrite representatives, identity_cards.
  - unfold cards_of. rewrite card_keys. apply firsts_NoDup.
Qed.

(** ** Identities *)

(** The keys messages are given: a synthetic key holds a uid. *)
Definition honest_key (k : text) : Prop :=
  match strip_prefix (lit "uid:") k with Some u => exists n, 0 <= n /\ u = show_Z n | None => True end.

Definition id_tail (k : text) : text := match strip_prefix (lit "uid:") k with Some u => u | None => lit "t." ++ b64 k end.

Lemma format_tail acc fol k : format_thread_id acc fol k = acc ++ 35 :: canon_folder fol ++ 35 :: id_tail k.
Proof.
  unfold format_thread_id, id_tail. change (lit "#t.") with (35 :: lit "t."). change (lit "#") with [35].
  by destruct (strip_prefix _ k).
Qed.

Lemma strip_prefix_Some p s r : strip_prefix p s = Some r -> s = p ++ r.
Proof.
  unfold strip_prefix. destruct (starts_with p s) eqn:E; [|done]. apply starts_with_spec in E as [x ->].
  rewrite drop_app_length. by intros [= ->].
Qed.

Lemma tail_no_hash k : honest_key k -> 35 ∉ id_tail k.
Proof.
  unfold honest_key, id_tail. destruct (strip_prefix _ k) as [u|].
  - intros (n & Hn & ->). by apply show_Z_chars.
  - intros _. rewrite elem_of_app. intros [Hin|Hin]; [by revert Hin; apply (bool_decide_unpack _); vm_compute; exact I|].
    pose proof (b64_plain k) as Hp. rewrite Forall_forall in Hp. by specialize (Hp 35 Hin).
Qed.

Lemma tail_inj k k' : honest_key k -> honest_key k' -> id_tail k = id_tail k' -> k = k'.
Proof.
  unfold honest_key, id_tail.
  assert (forall n t, 0 <= n -> show_Z n = lit "t." ++ t -> False) as Ht.
  { intros n t Hn E. destruct (show_Z_digits n Hn) as [Hd _]. rewrite E in Hd. by inversion Hd. }
  destruct (strip_prefix _ k) as [u|] eqn:E, (strip_prefix _ k') as [u'|] eqn:E'.
  - intros _ _ ->. by rewrite (strip_prefix_Some _ _ _ E), (strip_prefix_Some _ _ _ E').
  - intros (n & Hn & ->) _ Heq. by destruct (Ht n _ Hn Heq).
  - intros _ (n & Hn & ->) Heq. by destruct (Ht n _ Hn (eq_sym Heq)).
  - intros _ _ Heq. apply app_inv_head in Heq. apply (f_equal unb64) in Heq. rewrite !unb64_b64 in Heq. congruence.
Qed.

Lemma format_inj acc acc' fol fol' k k' : 35 ∉ acc -> 35 ∉ acc' -> honest_key k -> honest_key k' ->
  format_thread_id acc fol k = format_thread_id acc' fol' k' -> acc = acc' /\ canon_folder fol = canon_folder fol' /\ k = k'.
Proof.
  rewrite !format_tail. intros Ha Ha' Hk Hk' E.
  pose proof (f_equal (split_once 35) E) as E1. rewrite !split_once_app in E1 by done. injection E1 as -> E1.
  pose proof (f_equal (rsplit_once 35) E1) as E2. rewrite !rsplit_once_app in E2 by by apply tail_no_hash.
  injection E2 as -> E2. split_and!; [done|done|]. by apply tail_inj.
Qed.

(** Messages whose threads have such keys. *)
Definition honest (db : Db) : Prop := Forall (fun r => honest_key (sql_thread_key r)) (messages db).

Lemma sql_key_nonempty r : sql_thread_key r <> [].
Proof. unfold sql_thread_key. by destruct (row_thread_key r) as [[|c s]|]. Qed.

Lemma effective_shown r : effective_thread_key (shown r) = sql_thread_key r.
Proof. unfold effective_thread_key. cbn. pose proof (sql_key_nonempty r). by destruct (sql_thread_key r). Qed.

Lemma strip_uid_branch k : Subjects.should_branch_thread_by_subject k = true -> strip_prefix (lit "uid:") k = None.
Proof. unfold Subjects.should_branch_thread_by_subject, strip_prefix. bools. by intros [-> _]. Qed.

Lemma honest_card r : honest_key (sql_thread_key r) -> honest_key (card_thread_key (shown r)).
Proof.
  unfold card_thread_key. rewrite effective_shown. destruct (Subjects.should_branch_thread_by_subject (sql_thread_key r)) eqn:E; [|done].
  intros _. unfold honest_key. by rewrite strip_uid_branch by by rewrite Subjects.branch_key_branches.
Qed.

Lemma whole_shown db sc f h : h ∈ whole db sc f -> exists r, h = shown r /\ r ∈ messages db.
Proof.
  intros (r & -> & Hr)%list_elem_of_fmap. exists r. split; [done|]. rewrite order_by_perm in Hr. by apply elem_of_filtered in Hr.
Qed.

Lemma card_honest db sc c : honest db -> c ∈ cards_of db sc -> honest_key (card_key c).
Proof.
  intros Hh Hc. assert (card_key c ∈ card_key <$> cards_of db sc) as Hk by by apply list_elem_of_fmap_2.
  unfold cards_of in Hk. rewrite card_keys in Hk. apply elem_of_firsts, list_elem_of_fmap in Hk as (m & -> & Hm).
  apply elem_of_filtered, whole_shown in Hm as (r & -> & Hr). apply honest_card.
  unfold honest in Hh. rewrite Forall_forall in Hh. by apply Hh.
Qed.

Lemma id_of_shown db sc f now c x : shown_card db sc f now c = Some x ->
  ConversationPage.id x = format_thread_id (ConversationPage.account sc) (ConversationPage.folder sc) (card_key c).
Proof.
  unfold shown_card. destruct (sleeps _ _); [done|]. intros (r & _ & ->)%fmap_Some. done.
Qed.

Lemma NoDup_omap_ids {A C D K} (f : A -> option C) (g : A -> D) (h : C -> K) l :
  NoDup (g <$> l) -> (forall a b x y, a ∈ l -> b ∈ l -> f a = Some x -> f b = Some y -> h x = h y -> g a = g b) ->
  NoDup (h <$> omap f l).
Proof.
  intros Hnd Hinj. induction l as [|a l IH]; [constructor|]. cbn in Hnd. apply NoDup_cons in Hnd as [Ha Hnd].
  assert (NoDup (h <$> omap f l)) as Hl by (apply IH; [done|]; intros; eapply Hinj; eauto; by right).
  cbn. destruct (f a) as [x|] eqn:E; [|done]. cbn. constructor; [|done].
  intros (y & Ey & (b & Hb & Eb)%list_elem_of_omap)%list_elem_of_fmap. apply Ha.
  rewrite (Hinj a b x y); [by apply list_elem_of_fmap_2|by left|by right|done..].
Qed.

(** The candidates of a view, folder by folder. *)
Definition all_candidates (db : Db) (f : RecentFilter) (now : Z) (scopes : list ConversationPage.Scope)
    : list (ConversationPage.Candidate LocatedCard) :=
  concat ((fun sc => omap (shown_card db sc f now) (cards_of db sc)) <$> scopes).

Definition mail_scope (db : Db) (sc : ConversationPage.Scope) : Prop :=
  stored_scope db sc /\ is_rss db (ConversationPage.account sc) = false /\
  ConversationPage.account sc <> [] /\ ConversationPage.folder sc <> [].

Lemma collect_all db f now scopes : Forall (mail_scope db) scopes ->
  exists states, collect db f now scopes = Ok (all_candidates db f now scopes, states).
Proof.
  induction 1 as [|sc scopes (Hst & Hrss & _) Hall [states IH]]; [by exists []|]. cbn [collect]. rewrite Hrss.
  rewrite candidates_are by done. cbn [mbind result_bind]. rewrite IH. cbn. eauto.
Qed.

Definition plain_account (sc : ConversationPage.Scope) : Prop := 35 ∉ ConversationPage.account sc.

Lemma candidates_identified db f now scopes : honest db -> NoDup scopes ->
  Forall (fun sc => plain_account sc /\ mail_scope db sc /\ canon_folder (ConversationPage.folder sc) = ConversationPage.folder sc) scopes ->
  ConversationPage.identified (all_candidates db f now scopes).
Proof.
  intros Hh Hnd Hall. unfold ConversationPage.identified, all_candidates. split.
  - induction Hall as [|sc scopes (Hp & Hm & Hc) Hall IH]; [constructor|]. apply NoDup_cons in Hnd as [Hsc Hnd].
    cbn. rewrite fmap_app. apply NoDup_app. split_and!; [| |by apply IH].
    + apply (NoDup_omap_ids _ card_key); [unfold cards_of; rewrite card_keys; apply firsts_NoDup|].
      intros c d x y Hc1 Hd1 Hx Hy E. rewrite (id_of_shown _ _ _ _ _ _ Hx), (id_of_shown _ _ _ _ _ _ Hy) in E.
      apply format_inj in E; [tauto|done..| |]; by eapply card_honest.
    + intros i (x & -> & (c & Hc1 & Hx)%list_elem_of_omap)%list_elem_of_fmap (y & E & Hy)%list_elem_of_fmap.
      apply list_elem_of_In, in_concat in Hy as (ys & Hys & Hy). apply list_elem_of_In, list_elem_of_fmap in Hys as (sd & -> & Hsd).
      apply list_elem_of_In, list_elem_of_omap in Hy as (d & Hd1 & Hy).
      rewrite (id_of_shown _ _ _ _ _ _ Hx), (id_of_shown _ _ _ _ _ _ Hy) in E.
      rewrite Forall_forall in Hall. destruct (Hall sd Hsd) as (Hp' & _ & Hc').
      apply format_inj in E as (Ea & Ef & _); [|done|done|by eapply card_honest..].
      apply Hsc. rewrite Hc, Hc' in Ef. assert (sc = sd) as -> by (destruct sc, sd; cbn in *; congruence). done.
  - apply Forall_concat, Forall_fmap. eapply Forall_impl; [exact Hall|]. intros sc _. apply Forall_forall.
    intros x (c & _ & Hx)%list_elem_of_omap. rewrite (id_of_shown _ _ _ _ _ _ Hx), format_tail.
    destruct (ConversationPage.account sc); done.
Qed.

(** ** Through a whole view *)

Context {PC : ConversationPage.PageCodec} {PL : ConversationPage.PageCodecLaws PC} {FJ : FacetsJson}.

(** Asking for the pages of a view one after the other. *)
Fixpoint browse (n : nat) (db : Db) (now : Z) (scopes : list ConversationPage.Scope) (namespace : text) (q : ThreadListQuery)
    (cursor : option text) : option (list LocatedCard) :=
  match n with
  | O => None
  | Datatypes.S n' =>
      '(p, _) ← ok (selected db now scopes namespace q cursor);
      match ConversationPage.next_cursor p with
      | None => Some (ConversationPage.items p)
      | Some raw => rows ← browse n' db now scopes namespace q (Some raw); Some (ConversationPage.items p ++ rows)
      end
  end.

Definition folders_of (scopes : list ConversationPage.Scope) : list ConversationPage.Scope :=
  sort_dedup ConversationPage.scope_before (canonical <$> scopes).

Lemma browse_walks n db now scopes namespace q f cursor :
  recent_filter q = Some f -> Forall (mail_scope db) (folders_of scopes) ->
  browse n db now scopes namespace q cursor =
  ConversationPage.walk (view_of namespace (folders_of scopes) f q)
    (replicate n (Z.to_nat (limit q), all_candidates db f now (folders_of scopes))) cursor.
Proof.
  intros Hf Hall. revert cursor. induction n as [|n IH]; intros cursor; [done|]. cbn [browse replicate ConversationPage.walk].
  unfold selected. rewrite Hf. cbn [mbind result_bind ok_or]. fold (folders_of scopes).
  destruct (collect_all db f now (folders_of scopes) Hall) as [states ->]. cbn [mbind result_bind].
  destruct (ConversationPage.page _ _ _ _) as [p|e]; cbn [mbind result_bind ok option_bind]; [|done].
  destruct (ConversationPage.next_cursor p); [|done]. by rewrite IH.
Qed.

Lemma view_digest namespace scopes db f q : namespace <> [] -> Forall (mail_scope db) scopes ->
  exists ctx, ConversationPage.digest (view_of namespace scopes f q) = Ok ctx.
Proof.
  intros Hn Hall. unfold ConversationPage.digest. cbn. destruct namespace as [|c s]; [done|]. cbn.
  destruct (existsb _ scopes) eqn:E; [|eauto]. apply existsb_elem in E as (sc & Hsc & E).
  rewrite Forall_forall in Hall. destruct (Hall sc Hsc) as (_ & _ & Ha & Hf).
  destruct (ConversationPage.account sc), (ConversationPage.folder sc); done.
Qed.

Lemma folders_canonical scopes : Forall (fun sc => canon_folder (ConversationPage.folder sc) = ConversationPage.folder sc) (folders_of scopes).
Proof.
  apply Forall_forall. intros sc Hsc. unfold folders_of in Hsc. rewrite elem_of_sort_dedup in Hsc.
  apply list_elem_of_fmap in Hsc as (s0 & -> & _). cbn. unfold canon_folder.
  destruct (eq_ignore_ascii_case (ConversationPage.folder s0) (lit "inbox")) eqn:E; [done|]. by rewrite E.
Qed.

(** C32. Paging through a view of mail folders, by the cursors it hands out as
    text, shows each conversation of each folder that is not asleep once and in
    the order of the view, and comes to an end: the folders are read whole, the
    messages grouped, what is asleep left out, and the pages cut from the whole.
    It asks that no message has a crafted thread key ([honest]; see
    [two_messages_close_a_view]), that no account id holds the separator of the
    cursors ([plain_account]), and that the rows of the folders are well formed
    ([mail_scope]). *)
Theorem a_view_shows_each_conversation_once n db now scopes namespace q f :
  recent_filter q = Some f -> 0 < limit q -> namespace <> [] -> honest db ->
  Forall (mail_scope db) (folders_of scopes) -> Forall plain_account (folders_of scopes) ->
  let candidates := all_candidates db f now (folders_of scopes) in
  (0 < n)%nat -> Z.of_nat (length candidates) <= Z.of_nat n * limit q ->
  browse n db now scopes namespace q None =
  Some (ConversationPage.item <$> order_by (not_after (ConversationPage.position (sort q))
          (ConversationPage.position_before (dir (sort q)))) candidates).
Proof.
  intros Hf Hl Hns Hh Hmail Hplain candidates Hn Hlen. rewrite (browse_walks _ _ _ _ _ _ f) by done.
  destruct (view_digest namespace (folders_of scopes) db f q Hns Hmail) as [ctx Hctx].
  apply (ConversationPage.walk_shows_all (view_of namespace (folders_of scopes) f q) ctx).
  - apply candidates_identified; [done| |].
    + pose proof (ordered_NoDup Datatypes.id _ _ (sort_dedup_ordered ConversationPage.scope_before (canonical <$> scopes))) as Hnd.
      by rewrite list_fmap_id in Hnd.
    + pose proof (folders_canonical scopes) as Hcan. rewrite !Forall_forall in *. auto.
  - done.
  - apply Forall_replicate. cbn. split; [lia|done].
  - destruct n; [lia|done].
  - rewrite fmap_replicate. cbn [fst]. rewrite sum_list_replicate. fold candidates. nia.
Qed.

(** ** Two conversations of one identity *)

Lemma eligible_default db acc fol f r : eligible db acc fol f r = true -> eligible db acc fol default_filter r = true.
Proof. intros H%eligible_in_folder. unfold in_folder in H. unfold eligible. cbn. by rewrite H. Qed.

Lemma in_whole db sc f r : r ∈ messages db -> row_uid r <> 0 ->
  eligible db (ConversationPage.account sc) (ConversationPage.folder sc) f r = true ->
  shown r ∈ List.filter listed (whole db sc f).
Proof.
  intros Hr Hu He. apply list_elem_of_In, filter_In. split.
  - apply list_elem_of_In. unfold whole. apply list_elem_of_fmap_2. rewrite order_by_perm.
    apply list_elem_of_In, filter_In. split; [by apply list_elem_of_In|done].
  - unfold listed. cbn. by apply negb_true_iff, Z.eqb_neq.
Qed.

(** A message that passes the filter is shown by the card it belongs to. *)
Lemma in_view db sc f now r : r ∈ messages db -> row_uid r <> 0 ->
  eligible db (ConversationPage.account sc) (ConversationPage.folder sc) f r = true ->
  sleeps (asleep db (ConversationPage.account sc) (ConversationPage.folder sc) now) (card_thread_key (shown r)) = false ->
  exists x, x ∈ omap (shown_card db sc f now) (cards_of db sc) /\ card_key (card (ConversationPage.item x)) = card_thread_key (shown r) /\
    ConversationPage.id x = format_thread_id (ConversationPage.account sc) (ConversationPage.folder sc) (card_thread_key (shown r)).
Proof.
  intros Hr Hu He Hs.
  assert (card_thread_key (shown r) ∈ card_key <$> cards_of db sc) as Hk.
  { unfold cards_of. rewrite card_keys. apply elem_of_firsts, list_elem_of_fmap_2, in_whole; [done|done|]. by eapply eligible_default. }
  apply list_elem_of_fmap in Hk as (c & Ek & Hc).
  assert (exists x, shown_card db sc f now c = Some x /\ card_key (card (ConversationPage.item x)) = card_key c) as (x & Hx & Ex).
  { unfold shown_card. rewrite <- Ek, Hs. pose proof (same_card_has _ _ (in_whole db sc f r Hr Hu He)) as Hin.
    destruct (latest _) as [h|] eqn:E; [by eexists|].
    apply latest_None in E. unfold apply_card_identity in E. apply fmap_nil_iff in E. rewrite E in Hin. by apply not_elem_of_nil in Hin. }
  exists x. split_and!; [apply list_elem_of_omap; eauto|congruence|]. rewrite Ek. by eapply id_of_shown.
Qed.

Lemma same_id_same {T} (l : list (ConversationPage.Candidate T)) x y :
  NoDup (ConversationPage.id <$> l) -> x ∈ l -> y ∈ l -> ConversationPage.id x = ConversationPage.id y -> x = y.
Proof.
  intros Hnd (i & Hi)%list_elem_of_lookup (j & Hj)%list_elem_of_lookup E.
  assert (i = j) as ->; [|congruence]. apply (NoDup_lookup _ _ _ (ConversationPage.id x) Hnd); rewrite list_lookup_fmap; [by rewrite Hi|].
  by rewrite Hj, E.
Qed.

(** Two messages are enough to close a view.  A thread key is the text of
    a header its sender wrote: one that begins with [uid:t.] and goes on with
    the key of another conversation in base64 gives its conversation the
    identity of that other, and then every page of every view with that folder
    is refused, from the first one on, until one of the two is gone. *)
Theorem two_messages_close_a_view db now scopes namespace q f sc r1 r2 :
  recent_filter q = Some f -> 0 < limit q -> namespace <> [] -> Forall (mail_scope db) (folders_of scopes) -> sc ∈ folders_of scopes ->
  let acc := ConversationPage.account sc in
  let fol := ConversationPage.folder sc in
  let key := card_thread_key (shown r1) in
  (forall r, r = r1 \/ r = r2 -> r ∈ messages db /\ row_uid r <> 0 /\ eligible db acc fol f r = true /\
     sleeps (asleep db acc fol now) (card_thread_key (shown r)) = false) ->
  strip_prefix (lit "uid:") key = None -> row_thread_key r2 = Some (lit "uid:t." ++ b64 key) ->
  selected db now scopes namespace q None = Err ConversationPage.bad_candidates.
Proof.
  intros Hf Hl Hns Hmail Hsc acc fol key Hrows Hkey Hr2.
  assert (card_thread_key (shown r2) = lit "uid:" ++ lit "t." ++ b64 key) as Ek2.
  { unfold card_thread_key. rewrite effective_shown. unfold sql_thread_key. by rewrite Hr2. }
  unfold selected. rewrite Hf. cbn [mbind result_bind ok_or]. fold (folders_of scopes).
  destruct (collect_all db f now (folders_of scopes) Hmail) as [states ->]. cbn [mbind result_bind].
  destruct (view_digest namespace (folders_of scopes) db f q Hns Hmail) as [ctx Hctx].
  unfold ConversationPage.page. rewrite (proj2 (Nat.eqb_neq (Z.to_nat (limit q)) 0)) by lia. rewrite Hctx. cbn [mbind result_bind].
  rewrite ConversationPage.gather_twice; [done|]. intros Hnd.
  assert (NoDup (ConversationPage.id <$> omap (shown_card db sc f now) (cards_of db sc))) as Hnd'.
  { revert Hnd Hsc. unfold all_candidates. generalize (folders_of scopes). intros l Hnd Hin. induction l as [|s l IH]; [by apply not_elem_of_nil in Hin|].
    cbn in Hnd. rewrite fmap_app in Hnd. apply NoDup_app in Hnd as (H1 & _ & H2). apply elem_of_cons in Hin as [->|Hin]; auto. }
  destruct (Hrows r1) as (H1 & Hu1 & He1 & Hs1); [by left|]. destruct (Hrows r2) as (H2 & Hu2 & He2 & Hs2); [by right|].
  destruct (in_view db sc f now r1 H1 Hu1 He1 Hs1) as (x1 & Hx1 & Ec1 & Ei1).
  destruct (in_view db sc f now r2 H2 Hu2 He2 Hs2) as (x2 & Hx2 & Ec2 & Ei2).
  assert (x1 = x2) as ->.
  { apply (same_id_same _ _ _ Hnd' Hx1 Hx2). rewrite Ei1, Ei2, !format_tail, Ek2. fold key. do 2 f_equal. unfold id_tail.
    by rewrite Hkey, strip_prefix_app. }
  rewrite Ec1, Ek2 in Ec2. fold key in Ec2. by rewrite Ec2, strip_prefix_app in Hkey.
Qed.
End Laws.
End CachedLaws.

(** * Conversations, evaluated

    A small mailbox, and concrete functions for what the pages take from other
    code: an instance of each of the theorems about conversations. *)

Module ConversationDemo.
Import ThreadList.Demo.
#[local] Open Scope Z_scope.

(** ** Other code, as functions *)

(** A text, written with its length in front, and read. *)
Definition ser (t : text) : text := Z.of_nat (length t) :: t.
Definition unser (s : text) : option (text * text) :=
  match s with n :: s' => Some (take (Z.to_nat n) s', drop (Z.to_nat n) s') | [] => None end.

Lemma unser_ser t s : unser (ser t ++ s) = Some (t, s).
Proof. cbn. by rewrite Nat2Z.id, take_app_length, drop_app_length. Qed.

Lemma ser_inj t t' s s' : ser t ++ s = ser t' ++ s' -> t = t' /\ s = s'.
Proof. intros E. apply (f_equal unser) in E. rewrite !unser_ser in E. by injection E. Qed.

Definition ser_list (l : list text) : text := Z.of_nat (length l) :: concat (ser <$> l).

Lemma ser_list_inj l l' s s' : ser_list l ++ s = ser_list l' ++ s' -> l = l' /\ s = s'.
Proof.
  unfold ser_list. intros E. cbn [app] in E. injection E as El E. apply Nat2Z.inj in El.
  revert l' El E. induction l as [|t l IH]; intros [|t' l'] El E; try done.
  cbn [fmap list_fmap concat] in E. rewrite <- !app_assoc in E. apply ser_inj in E as [-> E].
  destruct (IH l') as [-> ->]; [by injection El|done|done].
Qed.

Definition scope_texts (l : list ConversationPage.Scope) : list text :=
  concat ((fun s => [ConversationPage.account s; ConversationPage.folder s]) <$> l).

Lemma scope_texts_inj l l' : scope_texts l = scope_texts l' -> l = l'.
Proof.
  revert l'. induction l as [|[a f] l IH]; intros [|[a' f'] l'] E; try done.
  injection E as -> -> E. f_equal. by apply IH.
Qed.

#[export] Instance codec : ConversationPage.PageCodec := {|
  ConversationPage.context_to_vec c :=
    ser_list [ConversationPage.c_namespace c; ConversationPage.c_query c; ConversationPage.c_key c; ConversationPage.c_direction c] ++
    ser_list (scope_texts (ConversationPage.c_scopes c)) ++ ser_list (ConversationPage.c_filters c) ++ [];
  ConversationPage.sha256_base64 s := s;
  ConversationPage.cursor_to_vec c :=
    ser (ConversationPage.context c) ++ ser (ConversationPage.at_position c).2 ++
    match (ConversationPage.at_position c).1 with DateKey d => [0; d] | TextKey t => 1 :: t end;
  ConversationPage.cursor_from_slice s :=
    '(ctx, s) ← unser s; '(i, s) ← unser s;
    match s with
    | [0; d] => Some {| ConversationPage.context := ctx; ConversationPage.at_position := (DateKey d, i) |}
    | 1 :: t => Some {| ConversationPage.context := ctx; ConversationPage.at_position := (TextKey t, i) |}
    | _ => None
    end
|}.

#[export] Instance codec_laws : ConversationPage.PageCodecLaws codec.
Proof.
  constructor.
  - intros [ctx [k i]]. unfold ConversationPage.cursor_from_slice, ConversationPage.cursor_to_vec, codec. cbn [ConversationPage.context ConversationPage.at_position fst snd].
    rewrite unser_ser. cbn [mbind option_bind]. rewrite unser_ser. cbn [mbind option_bind]. by destruct k.
  - intros [n s q f k d] [n' s' q' f' k' d']. unfold ConversationPage.context_to_vec, codec. cbn [ConversationPage.c_namespace
      ConversationPage.c_query ConversationPage.c_key ConversationPage.c_direction ConversationPage.c_scopes ConversationPage.c_filters].
    intros [E1 [E2 [E3 _]%ser_list_inj]%ser_list_inj]%ser_list_inj. injection E1 as -> -> -> ->. apply scope_texts_inj in E2. congruence.
Qed.

Definition bit (b : bool) : Z := if b then 1 else 0.
#[export] Instance facets_json : FacetsJson := fun f =>
  [bit (ThreadList.unread_only f); bit (ThreadList.starred_only f); bit (ThreadList.with_attachments f); bit (ThreadList.priority_only f)] ++
  ser_list (option_list (ThreadList.label_id f)) ++ ser_list (option_list (ThreadList.category f)).
#[export] Instance recipients_json : RecipientsJson := fun s => Some [{| Cards.name := []; Cards.addr := s |}].

(** ** A mailbox *)

Definition row (n : Z) (uid date : Z) (subject key mid : text) : Messages.Row :=
  {| Messages.id := n; Messages.account := lit "ann"; Messages.row_folder := lit "INBOX"; Messages.msg_id := show_Z uid;
     Messages.row_uid := uid; Messages.row_subject := Some subject; Messages.row_from_name := Some (lit "Bob");
     Messages.row_from_addr := Some (lit "bob@example.org"); Messages.row_date := date; Messages.row_seen := 0;
     Messages.row_starred := 0; Messages.row_thread_key := Some key; Messages.json_to := None;
     Messages.json_cc := None; Messages.json_message_id := Some mid; Messages.json_in_reply_to := None;
     Messages.row_has_attachments := None; Messages.row_priority := None;
     Messages.row_category := None |}.

Definition box (rows : list Messages.Row) : Messages.Db :=
  {| Messages.messages := rows; Messages.thread_labels := []; Messages.folders := []; Messages.snoozed_threads_table := [];
     Messages.folder_state := []; Messages.accounts := [] |}.

Definition hello : Messages.Row := row 1 7 100 (lit "Hello") (lit "a@x") (lit "a@x").
Definition again : Messages.Row := row 2 8 200 (lit "Re: Hello") (lit "a@x") (lit "b@x").
Definition other : Messages.Row := row 3 9 300 (lit "Lunch") (lit "c@x") (lit "c@x").
Definition mailbox : Messages.Db := box [hello; again; other].

Definition inbox : ConversationPage.Scope := {| ConversationPage.account := lit "ann"; ConversationPage.folder := lit "inbox" |}.
Definition everything : ThreadList.ThreadListQuery :=
  {| ThreadList.folder := lit "INBOX"; ThreadList.query := []; ThreadList.filter := []; ThreadList.before_cursor := None;
     ThreadList.search_before_cursor := None; ThreadList.limit := 1; ThreadList.sort_text := [] |}.

Ltac decided := apply (bool_decide_unpack _); vm_compute; exact I.

Lemma mailbox_stored : Messages.stored mailbox (lit "ann") (lit "INBOX").
Proof.
  split; [|decided]. change (List.filter _ _) with [hello; again; other].
  repeat constructor; cbn; lia || eauto.
Qed.

Lemma headers_read_everything_witness :
  Messages.headers mailbox (lit "ann") (lit "INBOX") Messages.default_filter =
  Some (Ok (Messages.shown <$> [other; again; hello])).
Proof. rewrite Messages.headers_read_everything by apply mailbox_stored. reflexivity. Defined.

Definition by_subject : ThreadList.Sort := {| ThreadList.key := ThreadList.Subject; ThreadList.dir := ThreadList.Asc |}.

Lemma pages_show_a_folder_once_witness :
  Messages.scroll mailbox (lit "ann") (lit "INBOX") Messages.default_filter by_subject [1; 2] None =
  Some (Messages.shown <$> [hello; other; again]).
Proof.
  rewrite Messages.pages_show_a_folder_once; [reflexivity|apply mailbox_stored|repeat constructor; lia|done|vm_compute; discriminate].
Defined.

(** ** Views of it *)

Notation recent := Messages.default_filter.
Definition scopes : list ConversationPage.Scope := [inbox].
Definition unified : text := lit "recent:unified:inbox".

Lemma mail db : Messages.stored db (lit "ann") (lit "INBOX") -> Messages.accounts db = [] ->
  Forall (CachedLaws.mail_scope db) (CachedLaws.folders_of scopes).
Proof.
  intros Hst Ha. change (CachedLaws.folders_of scopes) with [CachedConversations.canonical inbox].
  constructor; [|constructor]. unfold CachedLaws.mail_scope. split_and!; [exact Hst| |done|done].
  unfold CachedConversations.is_rss. by rewrite Ha.
Qed.

Lemma mailbox_honest : CachedLaws.honest mailbox.
Proof. repeat constructor; done. Qed.

Definition card_subjects (l : list CachedConversations.LocatedCard) : list text :=
  (fun c => Cards.subject (Cards.header (CachedConversations.card c))) <$> l.

Lemma a_view_shows_each_conversation_once_witness :
  card_subjects <$> CachedLaws.browse 2 mailbox 1000 scopes unified everything None = Some [lit "Lunch"; lit "Hello"].
Proof.
  assert (CachedConversations.recent_filter everything = Some recent) as Hf by (vm_compute; reflexivity).
  assert (Forall CachedLaws.plain_account (CachedLaws.folders_of scopes)) as Hp.
  { change (CachedLaws.folders_of scopes) with [CachedConversations.canonical inbox]. repeat constructor. decided. }
  rewrite (CachedLaws.a_view_shows_each_conversation_once 2 mailbox 1000 scopes unified everything recent Hf eq_refl
             ltac:(done) mailbox_honest (mail mailbox mailbox_stored eq_refl) Hp ltac:(lia)); [vm_compute; reflexivity|].
  vm_compute. discriminate.
Defined.

(** A message whose sender took the identity of another conversation. *)
Definition crafted : Messages.Row :=
  row 4 10 400 (lit "Hi") (lit "uid:t." ++ b64 (Cards.card_thread_key (Messages.shown other))) (lit "d@x").
Definition closed : Messages.Db := box [other; crafted].

Lemma closed_stored : Messages.stored closed (lit "ann") (lit "INBOX").
Proof.
  split; [|decided]. change (List.filter _ _) with [other; crafted].
  repeat constructor; cbn; lia || eauto.
Qed.

Lemma two_messages_close_a_view_witness :
  CachedConversations.selected closed 1000 scopes unified everything None = Err ConversationPage.bad_candidates.
Proof.
  apply (CachedLaws.two_messages_close_a_view closed 1000 scopes unified everything recent (CachedConversations.canonical inbox) other crafted).
  - reflexivity.
  - reflexivity.
  - done.
  - by apply mail; [apply closed_stored|].
  - decided.
  - intros r [-> | ->]; (split; [decided|split_and!; [done|reflexivity|reflexivity]]) || idtac.
    all: split_and!; try reflexivity; try done; by repeat constructor.
  - reflexivity.
  - reflexivity.
Defined.

(** ** A cursor handed to another view *)

Definition cards : list (ConversationPage.Candidate Z) :=
  [ConversationPage.Candidate_ (lit "ann#INBOX#1") 100 (lit "Bob") (lit "Hello") 1;
   ConversationPage.Candidate_ (lit "ann#INBOX#2") 200 (lit "Bob") (lit "Lunch") 2].
Definition view (filter : string) : ConversationPage.View :=
  {| ConversationPage.namespace := unified; ConversationPage.scopes := scopes; ConversationPage.query := [];
     ConversationPage.filter := lit filter; ConversationPage.sort := ThreadList.default_sort |}.
Definition first_page : ConversationPage.Page Z :=
  match ConversationPage.page cards (view "") 1 None with Ok p => p | Err _ => ConversationPage.Page_ [] None end.
Definition second : text := unwrap_or [] (ConversationPage.next_cursor first_page).
Definition digest_of_unread : text := unwrap_or [] (ok (ConversationPage.digest (view "unread"))).

Lemma a_cursor_is_of_its_view_witness :
  ConversationPage.page cards (view "unread") 1 (Some second) = Err ConversationPage.RELOAD_REQUIRED.
Proof.
  apply (ConversationPage.a_cursor_is_of_its_view (view "") (view "unread") cards 1 None first_page second digest_of_unread).
  - vm_compute. reflexivity.
  - vm_compute. reflexivity.
  - vm_compute. reflexivity.
  - intros E. exact E.
  - lia.
  - intros (_ & _ & _ & Hf & _). assert (lit "unread" ∉ ConversationPage.filters (view "")) as Hn by decided.
    apply Hn, Hf. decided.
Defined.

(** ** Threads of it *)

(** Two messages that name each other, and one that names the first. *)
Definition circle : list Messages.Row :=
  [row 1 7 100 (lit "A") (lit "b@x") (lit "a@x"); row 2 8 200 (lit "B") (lit "a@x") (lit "b@x");
   row 3 9 300 (lit "C") (lit "a@x") (lit "c@x")].

Lemma walking_out_settles_witness :
  exists rows', ThreadKeys.reconcile_thread_keys_from circle (lit "ann") [lit "a@x"] = Some rows' /\
    Forall (ThreadKeys.settled (lit "ann") rows') [lit "a@x"].
Proof.
  destruct (ThreadKeys.walking_out_settles circle (lit "ann") [lit "a@x"]) as (rows' & E & Hs & _).
  - split; [decided|]. repeat constructor; done.
  - by repeat constructor.
  - by exists rows'.
Defined.
End ConversationDemo.
