(* ===== verification/FolderMove.v ===== *)
(** * Moving a folder

    Models [meron-core/src/folder_move.rs]: the plan of a move and its checks
    ([plan_folder_move]), what a rename does to everything that names the
    folder ([rename_references]), the cache brought in line with a move
    ([reconcile_folder_move], [adopt_renames]) and the renames kept for the
    interface.  [serde_json] on rules and policies, and SHA-256, are
    parameters; the server's side of a move is a call. *)
From S2P Require Import Prelude.
From S2P Require Import Text.
From S2P Require Import Table.
From S2P Require Import Json.
From S2P Require Import Program.
From S2P Require Import ArchivePolicy.
From S2P Require Import ThreadList.
From S2P Require Import CachedConversations.

Module FolderMove.
#[local] Open Scope Z_scope.
#[local] Open Scope prog_scope.

(** ** The tables *)

Record Folder := { f_account : text; f_name : text; f_delimiter : option text; f_special_use : option text }.

(** A row of one of the tables of [FOLDER_REFERENCES]: where it is, and what
    identifies it within its folder where the table's key has the folder. *)
Record Ref := { r_account : text; r_folder : text; r_key : option text }.
Record RuleRow := { ru_id : text; ru_account : text; ru_definition : text }.
Record RenameRow := { rn_account : text; rn_position : Z; rn_from : text; rn_to : text }.

Record Db := {
  folders : list Folder;
  refs : list (text * list Ref);
  hits : list Ref;
  rules : list RuleRow;
  policies : list ArchivePolicy.PolicyRow;
  folder_renames : list RenameRow
}.

Definition FOLDER_REFERENCES : list text :=
  [lit "messages"; lit "folder_state"; lit "ews_item_ids"; lit "snoozed_threads"; lit "tasks"; lit "rule_log";
   lit "auto_archive_items"; lit "archive_messages"].

Definition is_folder (acc n : text) (f : Folder) : bool := bool_decide (f_account f = acc) && bool_decide (f_name f = n).

(** ** What the store answers *)

Definition folder_exists (db : Db) (acc n : text) : bool := existsb (is_folder acc n) (folders db).

Definition folder_role (db : Db) (acc n : text) : CachedConversations.Role :=
  CachedConversations.classify_folder_role n (query_row (is_folder acc n) (folders db) ≫= f_special_use).

Definition given (d : option text) : option text := match d with Some [] => None | _ => d end.

Definition folder_delimiter (db : Db) (acc n : text) : option text :=
  given (query_row (is_folder acc n) (folders db) ≫= f_delimiter).

(** The delimiter most of the account's folders have, the first in order among equals. *)
Definition account_delimiter (db : Db) (acc : text) : option text :=
  let ds := omap (fun f => if bool_decide (f_account f = acc) then given (f_delimiter f) else None) (folders db) in
  let uses d := length (base.filter (fun e => e = d) ds) in
  let before a b := ((uses b <? uses a) || ((uses a =? uses b) && text_le a b))%nat in
  head (order_by before ds).

Definition subtree (db : Db) (acc n delimiter : text) : list text :=
  let names := order_by text_le (f_name <$> base.filter (fun f => f_account f = acc) (folders db)) in
  order_by (fun a b => (utf8_len a <=? utf8_len b)%nat) (base.filter (fun c => starts_with (n ++ delimiter) c = true) names).

(** ** The plan *)

Record FolderMovePlan := { source : text; target : text; delimiter : text; renames : list (text * text) }.

(** Where the last [p] in [s] starts. *)
Fixpoint rfind (p s : text) : option nat :=
  match s with
  | [] => if is_empty p then Some 0%nat else None
  | _ :: s' => match rfind p s' with
               | Some i => Some (Datatypes.S i)
               | None => if starts_with p s then Some 0%nat else None
               end
  end.

(** [s.rsplit(p).next()] *)
Definition last_part (p s : text) : text :=
  match rfind p s with Some i => drop (i + length p) s | None => s end.

Definition special (n : text) : text := n ++ lit " is a special folder and cannot be moved".
Definition not_listed (n : text) : text := n ++ lit " is not in the synchronized folder list".

Definition plan_folder_move (db : Db) (acc source : text) (parent fallback_delimiter : option text)
    : result text FolderMovePlan :=
  let source := trim source in
  let parent := match trim <$> parent with Some [] => None | p => p end in
  _ ← ensure (negb (is_empty source)) (lit "Choose a folder to move");
  _ ← ensure (folder_exists db acc source) (not_listed source);
  _ ← ensure (bool_decide (folder_role db acc source = CachedConversations.FolderRole)) (special source);
  delimiter ← match folder_delimiter db acc source with
              | Some d => Ok d
              | None => match account_delimiter db acc with
                        | Some d => Ok d
                        | None => ok_or (lit "This server keeps all folders at one level, so folders cannot be nested") fallback_delimiter
                        end
              end;
  let children := subtree db acc source delimiter in
  _ ← match List.find (fun c => negb (bool_decide (folder_role db acc c = CachedConversations.FolderRole))) children with
      | Some c => Err (special c)
      | None => Ok tt
      end;
  _ ← match parent with
      | Some parent =>
          _ ← ensure (folder_exists db acc parent) (not_listed parent);
          ensure (negb (bool_decide (parent = source) || starts_with (source ++ delimiter) parent))
            (source ++ lit " cannot be moved into itself or one of its subfolders")
      | None => Ok tt
      end;
  let leaf := last_part delimiter source in
  let target := match parent with Some parent => parent ++ delimiter ++ leaf | None => leaf end in
  _ ← ensure (negb (bool_decide (target = source))) (source ++ lit " is already there");
  _ ← ensure (negb (folder_exists db acc target)) (lit "A folder named " ++ target ++ lit " already exists");
  Ok {| source := source; target := target; delimiter := delimiter;
        renames := (source, target) :: ((fun c => (c, target ++ drop (length source) c)) <$> children) |}.

(** ** One rename *)

Definition one (from to x : text) : text := if bool_decide (x = from) then to else x.

Definition unique_failed : text := lit "UNIQUE constraint failed".

(** [UPDATE folders SET name, delimiter], which its primary key may refuse. *)
Definition rename_folder (acc from to delimiter : text) (t : list Folder) : result text (list Folder) :=
  if existsb (is_folder acc from) t && existsb (is_folder acc to) t && negb (bool_decide (from = to))
  then Err unique_failed
  else Ok (update (is_folder acc from)
             (fun f => {| f_account := f_account f; f_name := to;
                          f_delimiter := match given (f_delimiter f) with Some d => Some d | None => Some delimiter end;
                          f_special_use := f_special_use f |}) t).

Definition is_ref (acc fol : text) (r : Ref) : bool := bool_decide (r_account r = acc) && bool_decide (r_folder r = fol).

Definition set_folder (to : text) (r : Ref) : Ref := {| r_account := r_account r; r_folder := to; r_key := r_key r |}.

(** [UPDATE {table} SET {folder_column}], refused where two rows would share a key. *)
Definition rename_refs (acc from to : text) (t : list Ref) : result text (list Ref) :=
  if existsb (fun r => is_ref acc from r && bool_decide (is_Some (r_key r)) &&
                       existsb (fun r' => is_ref acc to r' && bool_decide (r_key r' = r_key r)) t) t
     && negb (bool_decide (from = to))
  then Err unique_failed
  else Ok (update (is_ref acc from) (set_folder to) t).

Definition rename_table (acc from to : text) (nt : text * list Ref) : result text (text * list Ref) :=
  t ← rename_refs acc from to nt.2; Ok (nt.1, t).

(** [action["folder"] = value] where the object has the member. *)
Fixpoint set_first (name : text) (v : Value) (ms : list (text * Value)) : list (text * Value) :=
  match ms with
  | [] => []
  | (n, x) :: ms' => if bool_decide (n = name) then (n, v) :: ms' else (n, x) :: set_first name v ms'
  end.
Definition set_member (name : text) (v x : Value) : Value :=
  match x with Object ms => Object (set_first name v ms) | _ => x end.

Definition files_into (a : Value) : option text :=
  if bool_decide (get_str (lit "type") a = Some (lit "moveTo")) then get_str (lit "folder") a else None.

Definition rename_action (f : text -> text) (a : Value) : Value :=
  match files_into a with Some fol => set_member (lit "folder") (String (f fol)) a | None => a end.

Definition actions_of (rule : Value) : list Value :=
  match get (lit "actions") rule with Some (Array items) => items | _ => [] end.

Definition rename_rule (f : text -> text) (rule : Value) : Value :=
  match get (lit "actions") rule with
  | Some (Array items) => set_member (lit "actions") (Array (rename_action f <$> items)) rule
  | _ => rule
  end.

Section Operations.
Context (from_str : text -> option Value) (to_string : Value -> text).
Context (policy_to_json : ArchivePolicy.Policy -> result text text) (policy_of_json : text -> result text ArchivePolicy.Policy).
Context (confirmed_json : text * ArchivePolicy.Policy -> text) (sha256 : text -> list Z).
Let fingerprint := ArchivePolicy.fingerprint confirmed_json sha256.

Definition rename_definition (from to definition : text) : text :=
  match from_str definition with
  | None => definition
  | Some rule =>
      if existsb (fun a => bool_decide (files_into a = Some from)) (actions_of rule)
      then to_string (rename_rule (one from to) rule) else definition
  end.

Definition rename_rules (acc from to : text) (t : list RuleRow) : list RuleRow :=
  update (fun r => bool_decide (ru_account r = acc))
    (fun r => {| ru_id := ru_id r; ru_account := ru_account r;
                 ru_definition := rename_definition from to (ru_definition r) |}) t.

Definition rename_choice (f : text -> text) (c : ArchivePolicy.FolderChoice) : ArchivePolicy.FolderChoice :=
  {| ArchivePolicy.name := f (ArchivePolicy.name c); ArchivePolicy.own_age := ArchivePolicy.own_age c |}.

Definition rename_policy (f : text -> text) (p : ArchivePolicy.Policy) : ArchivePolicy.Policy :=
  {| ArchivePolicy.enabled := ArchivePolicy.enabled p; ArchivePolicy.older_than := ArchivePolicy.older_than p;
     ArchivePolicy.folders := rename_choice f <$> ArchivePolicy.folders p;
     ArchivePolicy.destination := ArchivePolicy.destination p;
     ArchivePolicy.keep_server_copy := ArchivePolicy.keep_server_copy p;
     ArchivePolicy.include_starred := ArchivePolicy.include_starred p;
     ArchivePolicy.include_unread := ArchivePolicy.include_unread p |}.

Definition rename_policies (acc from to : text) (t : list ArchivePolicy.PolicyRow)
    : result text (list ArchivePolicy.PolicyRow) :=
  match query_row (ArchivePolicy.is_policy acc) t with
  | None => Ok t
  | Some r =>
      match policy_of_json (ArchivePolicy.pr_policy r) with
      | Err _ => Ok t
      | Ok policy =>
          if existsb (fun c => bool_decide (ArchivePolicy.name c = from)) (ArchivePolicy.folders policy) then
            let was_confirmed := bool_decide (ArchivePolicy.pr_confirmed r = Some (fingerprint acc policy)) in
            let policy := rename_policy (one from to) policy in
            let confirmed := if was_confirmed then Some (fingerprint acc policy) else ArchivePolicy.pr_confirmed r in
            body ← policy_to_json policy;
            Ok (update (ArchivePolicy.is_policy acc) (ArchivePolicy.set_policy body confirmed) t)
          else Ok t
      end
  end.

(** ** Every reference *)

Definition rename_references (acc from to delimiter : text) (db : Db) : result text Db :=
  fs ← rename_folder acc from to delimiter (folders db);
  rs ← mapM (rename_table acc from to) (refs db);
  ps ← rename_policies acc from to (policies db);
  Ok {| folders := fs; refs := rs; hits := delete_where (is_ref acc from) (hits db);
        rules := rename_rules acc from to (rules db); policies := ps; folder_renames := folder_renames db |}.

(** The loop over the renames, within one transaction: an error leaves the database as it was. *)
Fixpoint rename_all (acc delimiter : text) (renames : list (text * text)) (db : Db) : result text Db :=
  match renames with
  | [] => Ok db
  | (from, to) :: rest => db ← rename_references acc from to delimiter db; rename_all acc delimiter rest db
  end.

(** A parent stored without a delimiter learns one. *)
Definition learn_delimiter (acc parent delimiter : text) (t : list Folder) : list Folder :=
  update (fun f => is_folder acc parent f && bool_decide (given (f_delimiter f) = None))
    (fun f => {| f_account := f_account f; f_name := f_name f; f_delimiter := Some delimiter;
                 f_special_use := f_special_use f |}) t.

Definition with_folders (t : list Folder) (db : Db) : Db :=
  {| folders := t; refs := refs db; hits := hits db; rules := rules db; policies := policies db;
     folder_renames := folder_renames db |}.

Definition reconcile_folder_move (db : Db) (acc : text) (plan : FolderMovePlan) (parent : option text) : result text Db :=
  db ← rename_all acc (delimiter plan) (renames plan) db;
  match trim <$> parent with
  | None | Some [] => Ok db
  | Some parent => Ok (with_folders (learn_delimiter acc parent (delimiter plan) (folders db)) db)
  end.

(** ** Renames the interface has not heard of *)

Definition next_position (acc : text) (t : list RenameRow) : Z :=
  foldr Z.max 0 (rn_position <$> select (fun r => bool_decide (rn_account r = acc)) t) + 1.

Definition with_renames (t : list RenameRow) (db : Db) : Db :=
  {| folders := folders db; refs := refs db; hits := hits db; rules := rules db; policies := policies db;
     folder_renames := t |}.

Definition record_renames (acc : text) (renames : list (text * text)) (db : Db) : Db :=
  foldl (fun db r => with_renames (folder_renames db ++
           [{| rn_account := acc; rn_position := next_position acc (folder_renames db);
               rn_from := r.1; rn_to := r.2 |}]) db) db renames.

Definition take_renames (acc : text) (db : Db) : Db * list (text * text) :=
  let mine := order_by (fun a b => rn_position a <=? rn_position b)
                (select (fun r => bool_decide (rn_account r = acc)) (folder_renames db)) in
  (with_renames (delete_where (fun r => bool_decide (rn_account r = acc)) (folder_renames db)) db,
   (fun r => (rn_from r, rn_to r)) <$> mine).

Definition adopt_renames (acc : text) (renames : list (text * text)) (delimiter : text) (db : Db) : result text Db :=
  db ← rename_all acc delimiter renames db; Ok (record_renames acc renames db).

(** ** [folders.move] *)

Record Creds := { is_graph : bool; is_local_store : bool }.

(** What a move answers; the folder list is the one of the database it leaves. *)
Record Moved := { folder : text; moved_renames : list (text * text) }.

Inductive Ev : Type -> Type :=
| EnsureValidCreds (account : text) : Ev (result text Creds)
| WithDb {X} (f : Db -> result text (Db * X)) : Ev (result text X)
| RenameOnServer (account source target : text) (renames : list (text * text)) : Ev (result text unit)
| MoveGraphFolder (account source : text) (parent : option text) : Ev (result text Moved).

Definition move_folder (params : Value) : prog Ev (result text Moved) :=
  match get_str (lit "account") params with
  | None | Some [] => Ret (Err (lit "account is required"))
  | Some acc =>
      match ThreadList.canon_folder <$> get_str (lit "folder") params with
      | None => Ret (Err (lit "folder is required"))
      | Some src =>
          let parent := match trim <$> get_str (lit "parent") params with
                        | None | Some [] => None
                        | Some p => Some (ThreadList.canon_folder p)
                        end in
          creds <-? call (EnsureValidCreds acc) ;;
          if is_graph creds then call (MoveGraphFolder acc src parent)
          else
            let fallback := if is_local_store creds then Some (lit "/") else None in
            plan <-? call (WithDb (fun db => p ← plan_folder_move db acc src parent fallback; Ok (db, p))) ;;
            _ <-? call (RenameOnServer acc (source plan) (target plan) (renames plan)) ;;
            _ <-? call (WithDb (fun db => db' ← reconcile_folder_move db acc plan parent; Ok (db', tt))) ;;
            Ret (Ok {| folder := target plan; moved_renames := renames plan |})
      end
  end.
End Operations.
End FolderMove.
