(* ===== verification/FolderMoveLaws.v ===== *)
(** * What a folder move does

    The renames of a move are made one after the other, shallowest folder
    first; the theorem here says that they amount to one renaming made at
    once, of the folder and everything under it and of nothing else, in every
    table that names folders. *)
From S2P Require Import Prelude.
From S2P Require Import Text.
From S2P Require Import Table.
From S2P Require Import Json.
From S2P Require Import ArchivePolicy.
From S2P Require Import CachedConversations.
From S2P Require Import FolderMove.

Module FolderMoveLaws.
Import FolderMove.
#[local] Open Scope Z_scope.

(** ** Renames in turn, and at once *)

Definition follow (renames : list (text * text)) (x : text) : text := foldl (fun x r => one r.1 r.2 x) x renames.

Definition renamed (renames : list (text * text)) (x : text) : text :=
  match find_by (fun r => bool_decide (r.1 = x)) renames with Some r => r.2 | None => x end.

(** No rename makes a name that a later one renames again. *)
Fixpoint settled (renames : list (text * text)) : Prop :=
  match renames with [] => True | r :: rest => r.2 ∉ rest.*1 /\ settled rest end.

Lemma follow_absent rs x : x ∉ rs.*1 -> follow rs x = x.
Proof.
  induction rs as [|r rs IH]; [done|]. cbn [fmap list_fmap]. rewrite not_elem_of_cons. intros [Hne Hx]. cbn.
  unfold one. rewrite bool_decide_false by done. by apply IH.
Qed.

Lemma follow_at_once rs x : settled rs -> follow rs x = renamed rs x.
Proof.
  induction rs as [|r rs IH]; [done|]. intros [Hr Hs]. cbn. unfold renamed, find_by, one. cbn.
  destruct (bool_decide_reflect (x = r.1)) as [->|Hne].
  - rewrite bool_decide_true by done. by apply follow_absent.
  - rewrite bool_decide_false by done. by apply IH.
Qed.

Lemma settled_ordered (rs : list (text * text)) :
  (forall i j a b, rs !! i = Some a -> rs !! j = Some b -> (i < j)%nat -> a.2 <> b.1) -> settled rs.
Proof.
  induction rs as [|r rs IH]; [done|]. intros H. split.
  - intros (b & Hb & Hin)%list_elem_of_fmap. apply list_elem_of_lookup in Hin as [j Hj].
    by apply (H 0%nat (Datatypes.S j) r b); [done..|lia|].
  - apply IH. intros i j a b Hi Hj Hlt. apply (H (Datatypes.S i) (Datatypes.S j)); [done..|lia].
Qed.

(** ** The last part of a name *)

Lemma last_part_spec dc s : dc ∉ last_part [dc] s /\ exists pre, s = pre ++ last_part [dc] s.
Proof.
  split.
  - induction s as [|c s IH]; [by intros ?%elem_of_nil|]. unfold last_part in *. cbn [rfind].
    destruct (rfind [dc] s) as [i|] eqn:E; [exact IH|]. cbn [starts_with].
    destruct (Z.eqb_spec dc c) as [->|Hne]; cbn; [by destruct s|].
    rewrite not_elem_of_cons. done.
  - unfold last_part. destruct (rfind [dc] s) as [i|]; [|by exists []].
    exists (take (i + length [dc]) s). by rewrite take_drop.
Qed.

Lemma bytes_app a b : utf8_len (a ++ b) = (utf8_len a + utf8_len b)%nat.
Proof. unfold utf8_len. by rewrite fmap_app, list_sum_app. Qed.

Lemma bytes_pos c s : (0 < utf8_len (c :: s))%nat.
Proof. unfold utf8_len. cbn. unfold utf8_char_len. repeat case_match; lia. Qed.

(** ** What the plan promises *)

Section Plan.
Context (s t : text) (dc : Z) (leaf : text).

(** A target that is the source's last part at the top, or under a folder
    that is not the source nor inside it. *)
Definition placed : Prop :=
  t <> s /\ dc ∉ leaf /\ (exists pre, s = pre ++ leaf) /\
  (t = leaf \/ exists p, t = p ++ dc :: leaf /\ p <> s /\ forall y, p <> s ++ dc :: y).

Lemma outside x : placed -> t <> s ++ dc :: x.
Proof.
  intros (Hne & Hleaf & [pre Hpre] & [->|(p & -> & Hps & Hp)]).
  - intros He. apply (f_equal length) in He, Hpre. rewrite length_app in He, Hpre. cbn in He. lia.
  - intros He. apply app_eq_inv in He as [[y [H1 H2]]|[y [H1 H2]]].
    + destruct y as [|y0 y]; [by rewrite app_nil_r in H1|]. injection H2 as -> _. by apply (Hp y).
    + destruct y as [|y0 y]; [rewrite app_nil_r in H1; congruence|]. injection H2 as -> H2. apply Hleaf. rewrite H2.
      apply elem_of_app. right. by left.
Qed.

(** A name made for a folder is none that comes after it. *)
Lemma not_again r r' : placed ->
  (utf8_len (s ++ r) <= utf8_len (s ++ dc :: r'))%nat -> t ++ r <> s ++ dc :: r'.
Proof.
  intros Hp Hlen He. apply app_eq_inv in He as He'. destruct He' as [[x [H1 H2]]|[x [H1 H2]]].
  - destruct x as [|y x]; [rewrite app_nil_r in H1; by destruct Hp|]. injection H2 as Hy _. apply (outside x Hp).
    by rewrite H1, Hy.
  - destruct x as [|y x]; [rewrite app_nil_r in H1; by destruct Hp|].
    apply (f_equal utf8_len) in He. rewrite !bytes_app in He. rewrite !bytes_app in Hlen.
    rewrite H1, bytes_app in Hlen, He. pose proof (bytes_pos y x). lia.
Qed.
End Plan.

Lemma plan_Ok db acc src parent fb plan :
  plan_folder_move db acc src parent fb = Ok plan ->
  let s := source plan in let d := delimiter plan in let cs := subtree db acc s d in
  folder_exists db acc s = true /\
  folder_role db acc s = CachedConversations.FolderRole /\
  Forall (fun c => folder_role db acc c = CachedConversations.FolderRole) cs /\
  target plan <> s /\ folder_exists db acc (target plan) = false /\
  (target plan = last_part d s \/
   exists p, target plan = p ++ d ++ last_part d s /\ p <> s /\ starts_with (s ++ d) p = false) /\
  renames plan = (s, target plan) :: ((fun c => (c, target plan ++ drop (length s) c)) <$> cs).
Proof.
  unfold plan_folder_move. set (s := trim src). set (par := match trim <$> parent with Some [] => None | p => p end).
  clearbody s par. intros (_ & _ & H)%bind_Ok. apply bind_Ok in H as ([] & Hex%ensure_Ok & H).
  apply bind_Ok in H as ([] & Hrole%ensure_Ok & H). apply bind_Ok in H as (d & _ & H).
  apply bind_Ok in H as ([] & Hch & H). apply bind_Ok in H as ([] & Hpar & H).
  apply bind_Ok in H as ([] & Hne%ensure_Ok & H). apply bind_Ok in H as ([] & Htgt%ensure_Ok & [= <-]). cbn.
  apply bool_decide_eq_true in Hrole. apply negb_true_iff in Hne, Htgt. apply bool_decide_eq_false in Hne.
  split_and!; try done.
  - destruct (List.find _ _) eqn:E; [done|]. apply Forall_forall. intros c Hc.
    pose proof (find_none _ _ E c (proj1 (list_elem_of_In _ _) Hc)) as Hf. cbn in Hf.
    by apply negb_false_iff, bool_decide_eq_true in Hf.
  - destruct par as [p|]; [right|by left]. exists p. split; [done|].
    apply bind_Ok in Hpar as ([] & _ & Hp%ensure_Ok). apply negb_true_iff, orb_false_iff in Hp as [Hp1 Hp2].
    by apply bool_decide_eq_false in Hp1.
Qed.

Lemma elem_of_subtree db acc s d c :
  c ∈ subtree db acc s d <-> folder_exists db acc c = true /\ starts_with (s ++ d) c = true.
Proof.
  unfold subtree. rewrite order_by_perm, list_elem_of_filter, order_by_perm, list_elem_of_fmap.
  unfold folder_exists. rewrite existsb_exists. split.
  - intros [Hs (f & -> & [Ha Hf]%list_elem_of_filter)]. split; [|done]. exists f.
    rewrite <- list_elem_of_In. unfold is_folder. by rewrite !bool_decide_true.
  - intros [(f & Hf%list_elem_of_In & [Ha%bool_decide_eq_true Hn%bool_decide_eq_true]%andb_true_iff) Hs].
    split; [done|]. exists f. split; [done|]. by apply list_elem_of_filter.
Qed.

Lemma subtree_by_length db acc s d :
  StronglySorted (fun a b => (utf8_len a <=? utf8_len b)%nat = true) (subtree db acc s d).
Proof. apply order_by_sorted; intros; rewrite ?Nat.leb_le in *; lia. Qed.

Lemma sorted_lookup {A} (R : A -> A -> Prop) l i j a b :
  StronglySorted R l -> l !! i = Some a -> l !! j = Some b -> (i < j)%nat -> R a b.
Proof.
  intros Hs. revert i j. induction Hs as [|x l Hs IH Hx]; intros i j Hi Hj Hlt; [done|].
  destruct i as [|i], j as [|j]; try lia; cbn in *.
  - injection Hi as ->. by apply (proj1 (Forall_lookup _ _) Hx j).
  - eapply IH; [done..|lia].
Qed.

Lemma plan_settled db acc src parent fb plan dc :
  plan_folder_move db acc src parent fb = Ok plan -> delimiter plan = [dc] -> settled (renames plan).
Proof.
  intros Hplan Hd. destruct (plan_Ok _ _ _ _ _ _ Hplan) as (_ & _ & _ & Hne & _ & Hplace & ->).
  set (s := source plan) in *. set (t := target plan) in *. rewrite Hd in *.
  destruct (last_part_spec dc s) as [Hleaf Hsuf].
  assert (placed s t dc (last_part [dc] s)) as Hp.
  { split_and!; [done|done|done|]. destruct Hplace as [->|(p & -> & Hps & Hout)]; [by left|right].
    exists p. split_and!; [done|done|]. intros y ->. assert (starts_with (s ++ [dc]) (s ++ dc :: y) = true); [|congruence].
    apply starts_with_spec. exists y. by rewrite <- app_assoc. }
  assert (forall c, c ∈ subtree db acc s [dc] -> exists r, c = s ++ dc :: r) as Hc.
  { intros c [_ [r ->]%starts_with_spec]%elem_of_subtree. exists r. by rewrite <- app_assoc. }
  apply settled_ordered. intros i j a b Hi Hj Hlt. destruct j as [|j]; [lia|]. cbn in Hj.
  apply list_lookup_fmap_Some in Hj as (c & -> & Hj). cbn.
  destruct (Hc c) as [r' Hr']; [by eapply list_elem_of_lookup_2|].
  destruct i as [|i]; cbn in Hi.
  - injection Hi as <-. cbn. rewrite Hr'. by apply (outside s t dc (last_part [dc] s)).
  - apply list_lookup_fmap_Some in Hi as (c' & -> & Hi). cbn.
    destruct (Hc c') as [r Hr]; [by eapply list_elem_of_lookup_2|].
    pose proof (sorted_lookup _ _ i j _ _ (subtree_by_length db acc s [dc]) Hi Hj ltac:(lia)) as Hl.
    rewrite Hr, drop_app_length. rewrite Hr, Hr' in Hl. apply Nat.leb_le in Hl. rewrite Hr'.
    by apply (not_again s t dc (last_part [dc] s)).
Qed.

(** ** Rules *)

Lemma get_set_first name other v ms : other <> name ->
  get other (Object (set_first name v ms)) = get other (Object ms).
Proof.
  intros Hne. cbn. f_equal. induction ms as [|[n x] ms IH]; [done|]. cbn. destruct (bool_decide_reflect (n = name)) as [->|Hn].
  - unfold find_by. cbn. by rewrite !bool_decide_false.
  - unfold find_by in *. cbn. by rewrite IH.
Qed.

Lemma get_set_same name v x y : get name x = Some y -> get name (set_member name v x) = Some v.
Proof.
  destruct x as [| | | | |ms]; try done. cbn. unfold find_by. induction ms as [|[n z] ms IH]; [done|]. cbn.
  destruct (bool_decide_reflect (n = name)) as [->|Hn]; cbn; [by rewrite bool_decide_true|].
  rewrite bool_decide_false by done. exact IH.
Qed.

Lemma get_set_other name other v x : other <> name -> get other (set_member name v x) = get other x.
Proof. intros Hne. destruct x; try done. by apply get_set_first. Qed.

Lemma set_set name v w x : set_member name w (set_member name v x) = set_member name w x.
Proof.
  destruct x as [| | | | |ms]; try done. cbn. f_equal. induction ms as [|[n z] ms IH]; [done|]. cbn.
  destruct (bool_decide (n = name)) eqn:E; cbn; rewrite E; [done|]. by rewrite IH.
Qed.

Lemma set_same name v x : get name x = Some v -> set_member name v x = x.
Proof.
  destruct x as [| | | | |ms]; try done. cbn. unfold find_by. intros H. f_equal. revert H.
  induction ms as [|[n z] ms IH]; [done|]. cbn. destruct (bool_decide (n = name)); cbn; [by intros [= ->]|].
  intros H. by rewrite IH.
Qed.

Lemma get_str_Some name x s : get_str name x = Some s -> get name x = Some (String s).
Proof. unfold get_str. destruct (get name x) as [[]|]; cbn; congruence. Qed.

Lemma files_into_Some a fol : files_into a = Some fol ->
  get_str (lit "type") a = Some (lit "moveTo") /\ get (lit "folder") a = Some (String fol).
Proof. unfold files_into. case_bool_decide; [|done]. intros ?%get_str_Some. done. Qed.

Lemma files_into_set a fol to : files_into a = Some fol ->
  files_into (set_member (lit "folder") (String to) a) = Some to.
Proof.
  intros [Ht Hf]%files_into_Some. unfold files_into, get_str in *.
  rewrite get_set_other by done. rewrite bool_decide_true by done. by rewrite (get_set_same _ _ _ _ Hf).
Qed.

Lemma rename_action_compose f g a : rename_action g (rename_action f a) = rename_action (g ∘ f) a.
Proof.
  unfold rename_action at 2 3. destruct (files_into a) as [fol|] eqn:E; [|by unfold rename_action; rewrite E].
  unfold rename_action. rewrite (files_into_set _ _ _ E). by rewrite set_set.
Qed.

Lemma rename_action_same f a : (forall fol, files_into a = Some fol -> f fol = fol) -> rename_action f a = a.
Proof.
  intros Hf. unfold rename_action. destruct (files_into a) as [fol|] eqn:E; [|done].
  rewrite Hf by done. apply set_same. by apply files_into_Some in E as [_ ?].
Qed.

Lemma rename_rule_compose f g r : rename_rule g (rename_rule f r) = rename_rule (g ∘ f) r.
Proof.
  unfold rename_rule at 2 3. destruct (get (lit "actions") r) as [[| | | |items|]|] eqn:E;
    try (by unfold rename_rule; rewrite E).
  unfold rename_rule. rewrite (get_set_same _ _ _ _ E), set_set. do 2 f_equal.
  rewrite <- list_fmap_compose. apply list_fmap_ext. intros i a _. apply rename_action_compose.
Qed.

Lemma rename_rule_same f r : (forall a fol, a ∈ actions_of r -> files_into a = Some fol -> f fol = fol) -> rename_rule f r = r.
Proof.
  unfold actions_of, rename_rule. destruct (get (lit "actions") r) as [[| | | |items|]|] eqn:E; try done.
  intros Hf. assert (rename_action f <$> items = items) as ->; [|by apply set_same].
  rewrite <- (list_fmap_id items) at 2. apply list_fmap_ext. intros i a Ha. apply rename_action_same.
  intros fol. apply Hf. by eapply list_elem_of_lookup_2.
Qed.

Lemma rename_rule_ext f g r : (forall x, f x = g x) -> rename_rule f r = rename_rule g r.
Proof.
  intros He. unfold rename_rule. destruct (get (lit "actions") r) as [[| | | |items|]|]; try done. do 2 f_equal.
  apply list_fmap_ext. intros i a _. unfold rename_action. destruct (files_into a); [|done]. by rewrite He.
Qed.

(** ** The tables *)

Lemma keep_all {A} (P : A -> Prop) `{!forall x, Decision (P x)} (l : list A) : (forall x, P x) -> base.filter P l = l.
Proof. intros HP. induction l as [|x l IH]; [done|]. by rewrite filter_cons_True, IH. Qed.

(** Where a row is after everything of an account is renamed by [f]. *)
Definition moved_ref (acc : text) (f : text -> text) (r : Ref) : Ref :=
  if bool_decide (r_account r = acc) then set_folder (f (r_folder r)) r else r.
Definition moved_name (acc : text) (f : text -> text) (an : text * text) : text * text :=
  if bool_decide (an.1 = acc) then (an.1, f an.2) else an.
Definition names (fs : list Folder) : list (text * text) := (fun f => (f_account f, f_name f)) <$> fs.

Lemma moved_ref_compose acc f g r : moved_ref acc g (moved_ref acc f r) = moved_ref acc (g ∘ f) r.
Proof. unfold moved_ref. destruct (bool_decide (r_account r = acc)) eqn:E; cbn; by rewrite E. Qed.

Lemma moved_name_compose acc f g n : moved_name acc g (moved_name acc f n) = moved_name acc (g ∘ f) n.
Proof. unfold moved_name. destruct (bool_decide (n.1 = acc)) eqn:E; cbn; by rewrite E. Qed.

Lemma rename_folder_names acc from to d t t' :
  rename_folder acc from to d t = Ok t' -> names t' = moved_name acc (one from to) <$> names t.
Proof.
  unfold rename_folder. destruct (_ && _); [done|]. intros [= <-]. unfold names, update.
  rewrite <- !list_fmap_compose. apply list_fmap_ext. intros i f _. cbn. unfold is_folder, moved_name, one. cbn.
  by destruct (bool_decide (f_account f = acc)), (bool_decide (f_name f = from)).
Qed.

Lemma rename_refs_moved acc from to t t' :
  rename_refs acc from to t = Ok t' -> t' = moved_ref acc (one from to) <$> t.
Proof.
  unfold rename_refs. destruct (_ && _); [done|]. intros [= <-]. unfold update. apply list_fmap_ext. intros i r _.
  unfold is_ref, moved_ref, one, set_folder. destruct (bool_decide (r_account r = acc)); [|done]. cbn.
  destruct (bool_decide (r_folder r = from)); by destruct r.
Qed.

Definition moved_table (acc : text) (f : text -> text) (nt : text * list Ref) : text * list Ref :=
  (nt.1, moved_ref acc f <$> nt.2).

Lemma rename_tables acc from to ts ts' :
  mapM (rename_table acc from to) ts = Ok ts' -> ts' = moved_table acc (one from to) <$> ts.
Proof.
  revert ts'. induction ts as [|nt ts IH]; intros ts'; cbn; [by intros [= <-]|].
  intros (nt' & (t & Ht%rename_refs_moved & [= <-])%bind_Ok & H)%bind_Ok.
  apply bind_Ok in H as (rest & Hrest & [= <-]). rewrite (IH _ Hrest), Ht. done.
Qed.

Lemma moved_table_compose acc f g nt : moved_table acc g (moved_table acc f nt) = moved_table acc (g ∘ f) nt.
Proof.
  unfold moved_table. cbn. f_equal. rewrite <- list_fmap_compose. apply list_fmap_ext. intros i r _.
  apply moved_ref_compose.
Qed.

Section Operations.
Context (from_str : text -> option Value) (to_string : Value -> text).
Context (policy_to_json : ArchivePolicy.Policy -> result text text) (policy_of_json : text -> result text ArchivePolicy.Policy).
Context (confirmed_json : text * ArchivePolicy.Policy -> text) (sha256 : text -> list Z).
Context (Hjson : forall v, from_str (to_string v) = Some v).
Context (Hpolicy : forall p b, policy_to_json p = Ok b -> policy_of_json b = Ok p).
#[local] Notation fingerprint := (ArchivePolicy.fingerprint confirmed_json sha256).

#[local] Notation rename_references := (rename_references from_str to_string policy_to_json policy_of_json confirmed_json sha256).
#[local] Notation rename_all := (rename_all from_str to_string policy_to_json policy_of_json confirmed_json sha256).
#[local] Notation reconcile_folder_move :=
  (reconcile_folder_move from_str to_string policy_to_json policy_of_json confirmed_json sha256).

(** A rule after the folders of an account are renamed by [f]. *)
Definition moved_rule (acc : text) (f : text -> text) (r r' : RuleRow) : Prop :=
  ru_id r' = ru_id r /\ ru_account r' = ru_account r /\
  if bool_decide (ru_account r = acc)
  then from_str (ru_definition r') = rename_rule f <$> from_str (ru_definition r)
  else ru_definition r' = ru_definition r.

Lemma rename_definition_moved from to d :
  from_str (rename_definition from_str to_string from to d) = rename_rule (one from to) <$> from_str d.
Proof using Hjson.
  unfold rename_definition. destruct (from_str d) as [rule|] eqn:E; [|by rewrite E].
  destruct (existsb _ _) eqn:Ex; [by rewrite Hjson|]. rewrite E. cbn. f_equal. symmetry.
  apply rename_rule_same. intros a fol Ha Hf. unfold one. case_bool_decide as Hfr; [|done]. subst fol.
  exfalso. apply not_true_iff_false in Ex. apply Ex, existsb_exists. exists a.
  rewrite <- list_elem_of_In. split; [done|]. by apply bool_decide_eq_true.
Qed.

Lemma rename_rules_moved acc from to t :
  Forall2 (moved_rule acc (one from to)) t (rename_rules from_str to_string acc from to t).
Proof using Hjson.
  unfold rename_rules, update. apply Forall2_fmap_r, Forall_Forall2_diag, Forall_true. intros r.
  unfold moved_rule. cbn. repeat case_bool_decide; split_and!; try done. apply rename_definition_moved.
Qed.

Lemma moved_rule_compose acc f g a b c :
  moved_rule acc f a b -> moved_rule acc g b c -> moved_rule acc (g ∘ f) a c.
Proof.
  intros (Hi & Ha & Hd) (Hi' & Ha' & Hd'). split_and!; [congruence|congruence|]. rewrite Ha in Hd'.
  destruct (bool_decide (ru_account a = acc)); [|congruence]. rewrite Hd', Hd.
  destruct (from_str (ru_definition a)) as [rule|]; [|done]. cbn. by rewrite rename_rule_compose.
Qed.

(** A policy after the folders of an account are renamed by [f]: it names the
    same folders, and one that was confirmed stays confirmed. *)
Definition moved_policy (acc : text) (f : text -> text) (r r' : ArchivePolicy.PolicyRow) : Prop :=
  ArchivePolicy.pr_account r' = ArchivePolicy.pr_account r /\
  match ArchivePolicy.is_policy acc r, policy_of_json (ArchivePolicy.pr_policy r) with
  | true, Ok p =>
      policy_of_json (ArchivePolicy.pr_policy r') = Ok (rename_policy f p) /\
      (ArchivePolicy.pr_confirmed r = Some (fingerprint acc p) ->
       ArchivePolicy.pr_confirmed r' = Some (fingerprint acc (rename_policy f p)))
  | _, _ => r' = r
  end.

Lemma rename_policy_compose f g p : rename_policy g (rename_policy f p) = rename_policy (g ∘ f) p.
Proof. unfold rename_policy. cbn. by rewrite <- list_fmap_compose. Qed.

Lemma rename_policy_same f p :
  (forall c, c ∈ ArchivePolicy.folders p -> f (ArchivePolicy.name c) = ArchivePolicy.name c) -> rename_policy f p = p.
Proof.
  intros Hf. destruct p as [en ol fs de ke st un]. unfold rename_policy. cbn in *. f_equal.
  rewrite <- (list_fmap_id fs) at 2. apply list_fmap_ext. intros i [n a] Hc. unfold rename_choice. cbn. f_equal.
  apply (Hf {| ArchivePolicy.name := n; ArchivePolicy.own_age := a |}). by eapply list_elem_of_lookup_2.
Qed.

Lemma moved_policy_same acc f r : (forall p, policy_of_json (ArchivePolicy.pr_policy r) = Ok p ->
  ArchivePolicy.pr_account r = acc -> rename_policy f p = p) -> moved_policy acc f r r.
Proof.
  intros H. split; [done|]. unfold ArchivePolicy.is_policy. case_bool_decide; [|done].
  destruct (policy_of_json _) as [p|] eqn:E; [|done]. by rewrite (H p).
Qed.

Lemma moved_policy_compose acc f g a b c :
  moved_policy acc f a b -> moved_policy acc g b c -> moved_policy acc (g ∘ f) a c.
Proof.
  intros [Ha Hab] [Hb Hbc]. split; [congruence|]. unfold ArchivePolicy.is_policy in *. rewrite Ha in Hbc.
  destruct (bool_decide (ArchivePolicy.pr_account a = acc)).
  - destruct (policy_of_json (ArchivePolicy.pr_policy a)) as [p|e] eqn:E.
    + destruct Hab as [Hp Hc]. rewrite Hp in Hbc. rewrite <- rename_policy_compose. destruct Hbc. auto.
    + subst b. by rewrite E in Hbc.
  - by subst.
Qed.

Lemma rename_policies_moved acc from to t t' :
  NoDup (ArchivePolicy.pr_account <$> t) ->
  rename_policies policy_to_json policy_of_json confirmed_json sha256 acc from to t = Ok t' ->
  Forall2 (moved_policy acc (one from to)) t t'.
Proof using Hpolicy.
  intros Hnd. unfold rename_policies.
  assert ((forall r p, r ∈ t -> policy_of_json (ArchivePolicy.pr_policy r) = Ok p -> ArchivePolicy.pr_account r = acc ->
            rename_policy (one from to) p = p) -> Forall2 (moved_policy acc (one from to)) t t) as Hsame.
  { intros H. apply Forall_Forall2_diag, Forall_forall. intros r Hr. apply moved_policy_same. intros p. by apply H. }
  destruct (query_row _ t) as [r|] eqn:Eq.
  2: { intros [= <-]. apply Hsame. intros r p Hr _ Ha. apply query_row_None with (r := r) in Eq; [|done].
       unfold ArchivePolicy.is_policy in Eq. by rewrite bool_decide_true in Eq. }
  assert (forall r', r' ∈ t -> ArchivePolicy.pr_account r' = acc -> r' = r) as Huniq.
  { intros r' Hr' Ha. apply query_row_Some in Eq as [Hr He].
    apply (key_unique ArchivePolicy.pr_account acc t r' r Hnd Hr' Hr); [by apply bool_decide_eq_true|exact He]. }
  destruct (policy_of_json (ArchivePolicy.pr_policy r)) as [p|e] eqn:Ep.
  2: { intros [= <-]. apply Hsame. intros r' p' Hr' Hp' Ha. rewrite (Huniq r') in Hp' by done. congruence. }
  destruct (existsb _ _) eqn:Ex.
  2: { intros [= <-]. apply Hsame. intros r' p' Hr' Hp' Ha. rewrite (Huniq r') in Hp' by done.
       assert (p' = p) as -> by congruence. apply rename_policy_same. intros c Hc. unfold one.
       case_bool_decide as Hn; [|done]. exfalso. apply not_true_iff_false in Ex. apply Ex, existsb_exists. exists c.
       rewrite <- list_elem_of_In. split; [done|]. by apply bool_decide_eq_true. }
  intros (body & Hb & [= <-])%bind_Ok. unfold update. apply Forall2_fmap_r, Forall_Forall2_diag, Forall_forall.
  intros r' Hr'. unfold moved_policy. destruct (ArchivePolicy.is_policy acc r') eqn:Ei.
  - assert (r' = r) as -> by (apply Huniq; [done|by apply bool_decide_eq_true in Ei]). cbn. rewrite Ei, Ep. cbn.
    split_and!; [done|by apply Hpolicy|]. intros Hc. by rewrite bool_decide_true.
  - cbn. by rewrite Ei.
Qed.

(** *** All of them *)

Record moved (acc : text) (f : text -> text) (gone : list text) (db db' : Db) : Prop := {
  m_names : names (folders db') = moved_name acc f <$> names (folders db);
  m_refs : refs db' = moved_table acc f <$> refs db;
  m_hits : hits db' = base.filter (fun r => ~ (r_account r = acc /\ r_folder r ∈ gone)) (hits db);
  m_rules : Forall2 (moved_rule acc f) (rules db) (rules db');
  m_policies : Forall2 (moved_policy acc f) (policies db) (policies db')
}.

Lemma rename_references_moved acc from to d db db' :
  NoDup (ArchivePolicy.pr_account <$> policies db) ->
  rename_references acc from to d db = Ok db' -> moved acc (one from to) [from] db db'.
Proof using Hjson Hpolicy.
  intros Hnd (fs & Hfs & H)%bind_Ok. apply bind_Ok in H as (rs & Hrs & H). apply bind_Ok in H as (ps & Hps & [= <-]).
  split; cbn.
  - by eapply rename_folder_names.
  - by apply rename_tables.
  - unfold delete_where. apply list_filter_iff. intros r. unfold is_ref.
    rewrite andb_false_iff, !bool_decide_eq_false, list_elem_of_singleton. destruct (decide (r_account r = acc)); tauto.
  - apply rename_rules_moved.
  - by apply rename_policies_moved.
Qed.

Lemma moved_accounts acc f t t' :
  Forall2 (moved_policy acc f) t t' -> ArchivePolicy.pr_account <$> t' = ArchivePolicy.pr_account <$> t.
Proof. induction 1 as [|r r' t t' [Ha _] _ IH]; [done|]. cbn. by rewrite Ha, IH. Qed.

Lemma rename_all_moved acc d rs db db' :
  NoDup (ArchivePolicy.pr_account <$> policies db) ->
  rename_all acc d rs db = Ok db' -> moved acc (follow rs) rs.*1 db db'.
Proof using Hjson Hpolicy.
  revert db. induction rs as [|[from to] rs IH]; intros db Hnd; cbn [FolderMove.rename_all].
  - intros [= <-]. split; cbn.
    + rewrite <- (list_fmap_id (names (folders db))) at 1. apply list_fmap_ext. intros i [a n] _.
      unfold moved_name. cbn. by destruct (bool_decide (a = acc)).
    + rewrite <- (list_fmap_id (refs db)) at 1. apply list_fmap_ext. intros i [n t] _. unfold moved_table. cbn. f_equal.
      rewrite <- (list_fmap_id t) at 1. apply list_fmap_ext. intros j r _. unfold moved_ref, set_folder.
      destruct (bool_decide _); by destruct r.
    + symmetry. apply keep_all. intros r [_ ?%elem_of_nil]. done.
    + apply Forall_Forall2_diag, Forall_true. intros r. split_and!; [done|done|]. case_bool_decide; [|done].
      destruct (from_str (ru_definition r)) as [rule|]; [|done]. cbn. f_equal. symmetry. by apply rename_rule_same.
    + apply Forall_Forall2_diag, Forall_true. intros r. apply moved_policy_same. intros p _ _. by apply rename_policy_same.
  - intros (db1 & H1 & H2)%bind_Ok. apply rename_references_moved in H1; [|done].
    apply IH in H2; [|by rewrite (moved_accounts _ _ _ _ (m_policies _ _ _ _ _ H1))].
    destruct H1, H2. split; cbn [follow foldl].
    + rewrite m_names1, m_names0, <- list_fmap_compose. apply list_fmap_ext. intros i n _. apply moved_name_compose.
    + rewrite m_refs1, m_refs0, <- list_fmap_compose. apply list_fmap_ext. intros i n _. apply moved_table_compose.
    + rewrite m_hits1, m_hits0, list_filter_filter. apply list_filter_iff. intros r. cbn.
      rewrite list_elem_of_singleton, elem_of_cons. tauto.
    + eapply Forall2_trans; [|exact m_rules0|exact m_rules1]. intros a b c. apply moved_rule_compose.
    + eapply Forall2_trans; [|exact m_policies0|exact m_policies1]. intros a b c. apply moved_policy_compose.
Qed.

Lemma moved_ext acc f g gone db db' : (forall x, f x = g x) -> moved acc f gone db db' -> moved acc g gone db db'.
Proof.
  intros He []. assert (forall r, rename_policy f r = rename_policy g r) as Hp.
  { intros p. unfold rename_policy. f_equal. apply list_fmap_ext. intros i c _. unfold rename_choice. by rewrite He. }
  split; [| |done| |].
  - rewrite m_names0. apply list_fmap_ext. intros i n _. unfold moved_name. by rewrite He.
  - rewrite m_refs0. apply list_fmap_ext. intros i t _. unfold moved_table. f_equal. apply list_fmap_ext. intros j r _.
    unfold moved_ref. by rewrite He.
  - eapply Forall2_impl; [exact m_rules0|]. intros r r' (Hi & Ha & Hd). split_and!; [done|done|].
    destruct (bool_decide _); [|done]. rewrite Hd. destruct (from_str (ru_definition r)); [|done]. cbn. by rewrite (rename_rule_ext f g).
  - eapply Forall2_impl; [exact m_policies0|]. intros r r' [Ha Hd]. split; [done|].
    destruct (ArchivePolicy.is_policy acc r); [|done]. destruct (policy_of_json _); [|done]. by rewrite <- Hp.
Qed.

(** The folder moved and everything under it. *)
Definition in_subtree (plan : FolderMovePlan) (x : text) : bool :=
  bool_decide (x = source plan) || starts_with (source plan ++ delimiter plan) x.

(** What becomes of a name of the account. *)
Definition moved_to (db : Db) (acc : text) (plan : FolderMovePlan) (x : text) : text :=
  if folder_exists db acc x && in_subtree plan x then target plan ++ drop (length (source plan)) x else x.

Lemma plan_froms db acc src parent fb plan x :
  plan_folder_move db acc src parent fb = Ok plan ->
  x ∈ (renames plan).*1 <-> folder_exists db acc x && in_subtree plan x = true.
Proof.
  intros (Hex & _ & _ & _ & _ & _ & ->)%plan_Ok. cbn. rewrite elem_of_cons, <- list_fmap_compose, list_elem_of_fmap.
  unfold in_subtree. rewrite andb_true_iff, orb_true_iff, bool_decide_eq_true. split.
  - intros [->|(c & -> & [Hc Hs]%elem_of_subtree)]; [auto|]. cbn. auto.
  - intros [He [->|Hs]]; [by left|right]. exists x. split; [done|]. by apply elem_of_subtree.
Qed.

Lemma plan_renamed db acc src parent fb plan x :
  plan_folder_move db acc src parent fb = Ok plan -> renamed (renames plan) x = moved_to db acc plan x.
Proof.
  intros Hp. unfold renamed, moved_to. pose proof (plan_froms _ _ _ _ _ _ x Hp) as Hf.
  apply plan_Ok in Hp as (_ & _ & _ & _ & _ & _ & Hr).
  destruct (find_by _ _) as [r|] eqn:E.
  - apply find_by_Some in E as [Hin Hx%bool_decide_eq_true]. rewrite (proj1 Hf) by (rewrite <- Hx; by apply list_elem_of_fmap_2).
    rewrite Hr in Hin. apply elem_of_cons in Hin as [->|(c & -> & _)%list_elem_of_fmap]; cbn in *; subst x; [|done].
    by rewrite drop_all, app_nil_r.
  - destruct (_ && _); [|done]. pose proof (proj2 Hf eq_refl) as (r & -> & Hr')%list_elem_of_fmap.
    apply find_by_None with (x := r) in E; [|done]. by rewrite bool_decide_true in E.
Qed.

Lemma learn_names acc p d t : names (learn_delimiter acc p d t) = names t.
Proof.
  unfold names, learn_delimiter, update. rewrite <- list_fmap_compose. apply list_fmap_ext. intros i f _. cbn.
  by destruct (_ && _).
Qed.

(** C30: a move renames each name once.  The renames are made one after the
    other, in every table; where they succeed, the outcome is that of one
    renaming made at once: the folder moved and every cached folder under it
    have the new beginning, in the list of folders, in the eight tables of
    references, in the actions of the account's own rules and in its
    archiving policy, which stays confirmed; nothing else is renamed, no other
    account is touched, the search hits in the old names go, and none of the
    folders renamed is a special one. *)
Theorem a_move_renames_once db acc src parent fb plan dc db' :
  NoDup (ArchivePolicy.pr_account <$> policies db) ->
  plan_folder_move db acc src parent fb = Ok plan -> delimiter plan = [dc] ->
  reconcile_folder_move db acc plan parent = Ok db' ->
  moved acc (moved_to db acc plan) (renames plan).*1 db db' /\
  (forall x, x ∈ (renames plan).*1 <-> folder_exists db acc x && in_subtree plan x = true) /\
  (forall x, x ∈ (renames plan).*1 -> folder_role db acc x = CachedConversations.FolderRole).
Proof using Hjson Hpolicy.
  intros Hnd Hplan Hd Hrec. split_and!.
  - assert (moved acc (follow (renames plan)) (renames plan).*1 db db') as Hm.
    { apply bind_Ok in Hrec as (db1 & H1%rename_all_moved & H2); [|done].
      destruct (trim <$> parent) as [[|c p]|]; injection H2 as <-; [done| |done]. destruct H1. split; try done.
      cbn. by rewrite learn_names. }
    eapply moved_ext; [|exact Hm]. intros x. rewrite follow_at_once by by eapply plan_settled.
    by eapply plan_renamed.
  - intros x. by eapply plan_froms.
  - intros x. apply plan_Ok in Hplan as (_ & Hrole & Hcs & _ & _ & _ & ->). cbn. rewrite elem_of_cons.
    intros [->|Hx]; [done|]. rewrite <- list_fmap_compose in Hx. apply list_elem_of_fmap in Hx as (c & -> & Hc).
    by apply (proj1 (Forall_forall _ _) Hcs).
Qed.
End Operations.
End FolderMoveLaws.

(** * A folder moved

    Concrete readers and writers of JSON values and policies, and the move of
    the code's own test: [Work] and what is under it, dropped on [Projects]. *)

Module FolderMoveDemo.
Import FolderMove FolderMoveLaws.
#[local] Open Scope Z_scope.

(** ** A codec of values *)

Fixpoint to_tree (v : Value) : gen_tree text :=
  match v with
  | Null => GenNode 0 []
  | Bool b => GenNode 1 [GenLeaf (if b then [1] else [0])]
  | Number n => GenNode 2 [GenLeaf n]
  | String s => GenNode 3 [GenLeaf s]
  | Array items => GenNode 4 ((fix go l := match l with [] => [] | x :: l' => to_tree x :: go l' end) items)
  | Object ms =>
      GenNode 5 ((fix go l := match l with [] => [] | m :: l' => GenNode 6 [GenLeaf m.1; to_tree m.2] :: go l' end) ms)
  end.

Fixpoint of_tree (t : gen_tree text) : Value :=
  match t with
  | GenNode 1 [GenLeaf b] => Bool (bool_decide (b = [1]))
  | GenNode 2 [GenLeaf n] => Number n
  | GenNode 3 [GenLeaf s] => String s
  | GenNode 4 ts => Array ((fix go l := match l with [] => [] | x :: l' => of_tree x :: go l' end) ts)
  | GenNode 5 ts =>
      Object ((fix go l := match l with
                           | [] => []
                           | GenNode _ [GenLeaf n; x] :: l' => (n, of_tree x) :: go l'
                           | _ :: l' => go l'
                           end) ts)
  | _ => Null
  end.

Lemma of_to_tree : forall v, of_tree (to_tree v) = v.
Proof.
  fix IH 1. intros [|b|n|s|items|ms]; cbn; [done|by destruct b|done|done|f_equal|f_equal].
  - induction items as [|x items IHl]; [done|]. cbn. by rewrite IH, IHl.
  - induction ms as [|[n x] ms IHl]; [done|]. cbn. by rewrite IH, IHl.
Qed.

Definition to_string (v : Value) : text := [Zpos (encode (to_tree v))].
Definition from_str (s : text) : option Value :=
  match s with [Zpos p] => of_tree <$> decode p | _ => None end.

Lemma from_to v : from_str (to_string v) = Some v.
Proof. cbn. rewrite decode_encode. cbn. by rewrite of_to_tree. Qed.

(** ** A codec of policies *)

Definition PolicyTuple : Type := bool * (Z * bool) * list (text * option (Z * bool)) * bool * bool * bool * bool.

Definition of_age (a : ArchivePolicy.Age) : Z * bool :=
  (ArchivePolicy.value a, match ArchivePolicy.unit_ a with ArchivePolicy.Days => true | ArchivePolicy.Months => false end).
Definition to_age (a : Z * bool) : ArchivePolicy.Age :=
  {| ArchivePolicy.value := a.1; ArchivePolicy.unit_ := if a.2 then ArchivePolicy.Days else ArchivePolicy.Months |}.

Definition of_policy (p : ArchivePolicy.Policy) : PolicyTuple :=
  (ArchivePolicy.enabled p, of_age (ArchivePolicy.older_than p),
   (fun c => (ArchivePolicy.name c, of_age <$> ArchivePolicy.own_age c)) <$> ArchivePolicy.folders p,
   match ArchivePolicy.destination p with ArchivePolicy.Server => true | ArchivePolicy.Local => false end, ArchivePolicy.keep_server_copy p,
   ArchivePolicy.include_starred p, ArchivePolicy.include_unread p).
Definition to_policy (t : PolicyTuple) : ArchivePolicy.Policy :=
  let '(en, age, fs, server, keep, starred, unread) := t in
  {| ArchivePolicy.enabled := en; ArchivePolicy.older_than := to_age age;
     ArchivePolicy.folders :=
       (fun c => {| ArchivePolicy.name := c.1; ArchivePolicy.own_age := to_age <$> c.2 |}) <$> fs;
     ArchivePolicy.destination := if server then ArchivePolicy.Server else ArchivePolicy.Local;
     ArchivePolicy.keep_server_copy := keep; ArchivePolicy.include_starred := starred;
     ArchivePolicy.include_unread := unread |}.

Lemma to_of_age a : to_age (of_age a) = a.
Proof. by destruct a as [v []]. Qed.

Lemma to_of_policy p : to_policy (of_policy p) = p.
Proof.
  destruct p as [en ol fs de ke st un]. cbn. rewrite to_of_age. f_equal; [|by destruct de].
  rewrite <- list_fmap_compose. rewrite <- (list_fmap_id fs) at 2. apply list_fmap_ext. intros i [n [a|]] _; cbn; [|done].
  by rewrite to_of_age.
Qed.

Definition policy_to_json (p : ArchivePolicy.Policy) : result text text := Ok [Zpos (encode (of_policy p))].
Definition policy_of_json (s : text) : result text ArchivePolicy.Policy :=
  match s with
  | [Zpos p] => ok_or (lit "not a policy") (to_policy <$> decode p)
  | _ => Err (lit "not a policy")
  end.

Lemma policy_round_trip p b : policy_to_json p = Ok b -> policy_of_json b = Ok p.
Proof. intros [= <-]. cbn [policy_of_json]. rewrite decode_encode.
  change (Ok (to_policy (of_policy p)) = Ok p :> result text _). by rewrite to_of_policy. Qed.

Definition confirmed_json (p : text * ArchivePolicy.Policy) : text := [Zpos (encode (p.1, of_policy p.2))].
Definition sha256 (s : text) : list Z := s.

(** ** The move *)

Definition me : text := lit "me@example.com".
Definition cached (n : text) (special : option text) : Folder :=
  {| f_account := me; f_name := n; f_delimiter := Some (lit "/"); f_special_use := special |}.
Definition policy : ArchivePolicy.Policy :=
  {| ArchivePolicy.enabled := true; ArchivePolicy.older_than := {| ArchivePolicy.value := 6; ArchivePolicy.unit_ := ArchivePolicy.Months |};
     ArchivePolicy.folders := [{| ArchivePolicy.name := lit "Work"; ArchivePolicy.own_age := None |}];
     ArchivePolicy.destination := ArchivePolicy.Server; ArchivePolicy.keep_server_copy := false;
     ArchivePolicy.include_starred := false; ArchivePolicy.include_unread := false |}.
Definition rule : Value :=
  Object [(lit "name", String (lit "mine"));
          (lit "actions", Array [Object [(lit "type", String (lit "moveTo")); (lit "folder", String (lit "Work/2026"))];
                                 Object [(lit "type", String (lit "markRead"))]])].

Definition tree : Db :=
  {| folders := [cached (lit "INBOX") None; cached (lit "Sent") (Some (lit "sent")); cached (lit "Work/2026/Q1") None;
                 cached (lit "Work") None; cached (lit "Work/2026") None; cached (lit "Workshop") None;
                 cached (lit "Projects") None];
     refs := [(lit "messages", [{| r_account := me; r_folder := lit "Work/2026"; r_key := Some (lit "7") |};
                                {| r_account := lit "other"; r_folder := lit "Work"; r_key := Some (lit "7") |}])];
     hits := [{| r_account := me; r_folder := lit "Work"; r_key := None |}];
     rules := [{| ru_id := lit "mine"; ru_account := me; ru_definition := to_string rule |}];
     policies := [{| ArchivePolicy.pr_account := me; ArchivePolicy.pr_policy := unwrap_or [] (ok (policy_to_json policy));
                     ArchivePolicy.pr_confirmed := Some (ArchivePolicy.fingerprint confirmed_json sha256 me policy);
                     ArchivePolicy.pr_last_attempt := None; ArchivePolicy.pr_last_success := None;
                     ArchivePolicy.pr_last_error := None |}];
     folder_renames := [] |}.

Definition planned : result text FolderMovePlan := plan_folder_move tree me (lit "Work") (Some (lit "Projects")) None.

Example planned_renames :
  (fun p => renames p) <$> ok planned =
  Some [(lit "Work", lit "Projects/Work"); (lit "Work/2026", lit "Projects/Work/2026");
        (lit "Work/2026/Q1", lit "Projects/Work/2026/Q1")].
Proof. by vm_compute. Qed.

Definition the_plan : FolderMovePlan :=
  unwrap_or {| source := []; target := []; delimiter := []; renames := [] |} (ok planned).
Definition reconciled : result text Db :=
  reconcile_folder_move from_str to_string policy_to_json policy_of_json confirmed_json sha256
    tree me the_plan (Some (lit "Projects")).

(** C30 at that move. *)
Lemma a_move_renames_once_witness :
  exists db', reconciled = Ok db' /\
    (f_name <$> folders db' = [lit "INBOX"; lit "Sent"; lit "Projects/Work/2026/Q1"; lit "Projects/Work";
                               lit "Projects/Work/2026"; lit "Workshop"; lit "Projects"]) /\
    moved from_str policy_of_json confirmed_json sha256 me (moved_to tree me the_plan) (renames the_plan).*1 tree db'.
Proof.
  assert (exists db', reconciled = Ok db') as [db' Hdb].
  { assert (bool_decide (is_Some (ok reconciled)) = true) as H%bool_decide_eq_true by (vm_compute; reflexivity).
    destruct reconciled as [db'|e]; [by exists db'|by destruct H]. }
  exists db'. split; [exact Hdb|]. split.
  - assert (fmap (fun d => f_name <$> folders d) (ok reconciled) =
      Some [lit "INBOX"; lit "Sent"; lit "Projects/Work/2026/Q1"; lit "Projects/Work";
            lit "Projects/Work/2026"; lit "Workshop"; lit "Projects"]) as H by (vm_compute; reflexivity).
    rewrite Hdb in H. by injection H.
  - refine (proj1 (a_move_renames_once from_str to_string policy_to_json policy_of_json confirmed_json sha256
      from_to policy_round_trip tree me (lit "Work") (Some (lit "Projects")) None the_plan 47 db' _ _ _ Hdb)).
    + apply (bool_decide_unpack _). vm_compute. exact I.
    + vm_compute. reflexivity.
    + vm_compute. reflexivity.
Defined.
End FolderMoveDemo.
