(* ===== verification/ReadReceipts.v ===== *)
(** * Read receipts

    Models [meron-core/src/receipts/mod.rs]: what is done about a message that
    asks to be told when it is read, the answers remembered, the report, and
    the routines of the reader that may send one ([status], [answer], [send]),
    as programs that run at once and can stop anywhere.

    [mailparse] reads header fields and address lists, [mail_builder] writes
    the message: [get_all_values], [addrparse] and the call [WriteMime].  The
    engine's other parts are calls: the message as cached, the folder's role,
    the settings, the credentials, the account's addresses, and [Submit], which
    carries the report only so that deliveries can be counted. *)
From S2P Require Import Prelude.
From S2P Require Import Text.
From S2P Require Import Json.
From S2P Require Import Table.
From S2P Require Import Keyset.
From S2P Require Import Program.
From S2P Require Import Pool.
#[local] Open Scope Z_scope.
#[local] Open Scope prog_scope.

(** [mailparse]: a header's values in order, and the addresses of a field. *)
Inductive MailAddr := Single (addr : text) | Group (addrs : list text).
Class Mailparse := { addrparse : text -> option (list MailAddr) }.
Record ParsedMail := { mimetype : text; get_all_values : text -> list text }.
Definition get_first_value (name : text) (mail : ParsedMail) : option text := head (get_all_values mail name).

Module ReadReceipts.

(** ** Policy and requests *)

Inductive Policy := Ask | Always | Never.

Definition parse (value : text) : Policy :=
  let v := to_ascii_lowercase (trim value) in
  if bool_decide (v = lit "always") then Always else if bool_decide (v = lit "never") then Never else Ask.

Definition POLICY_SETTING : text := lit "read_receipt_policy".

(** [policy], from what the settings answered. *)
Definition policy_of (prefs : result text Value) : Policy :=
  unwrap_or Ask (prefs ← ok prefs; parse <$> get_str POLICY_SETTING prefs).

Record ReceiptRequest := {
  notify_to : list text; return_path : text; list_mail : bool; original_recipient : text
}.

Definition domain_of (addr : text) : text := unwrap_or [] (snd <$> rsplit_once 64 addr).

Section Requests.
Context {U : Unicode} {M : Mailparse}.

Definition bare (value : text) : text :=
  let value := trim value in
  let value := match find_char 60 value, rfind_char 62 value with
               | Some start, Some stop =>
                   if (start <? stop)%nat then take (stop - (start + 1)) (drop (start + 1) value) else value
               | _, _ => value
               end in
  to_lowercase (trim value).

Definition bare_addresses (raw : text) : list text :=
  let of_addr a := match a with
                   | Single addr => [to_lowercase (trim addr)]
                   | Group addrs => (fun addr => to_lowercase (trim addr)) <$> addrs
                   end in
  base.filter (fun addr => is_empty addr = false) (unwrap_or [] (addrparse raw) ≫= of_addr).

Definition request_of (mail : ParsedMail) : option ReceiptRequest :=
  if eq_ignore_ascii_case (mimetype mail) (lit "multipart/report") then None
  else
    let raw := join (lit ", ") (get_all_values mail (lit "Disposition-Notification-To")) in
    if is_empty (trim raw) then None
    else
      let notify := dedup (base.filter (fun addr => contains_char 64 addr = true) (bare_addresses raw)) in
      match notify with
      | [] => None
      | _ =>
          let precedence := to_ascii_lowercase (trim (unwrap_or [] (get_first_value (lit "Precedence") mail))) in
          Some {|
            notify_to := notify;
            return_path := unwrap_or [] (bare <$> get_first_value (lit "Return-Path") mail);
            list_mail :=
              existsb (fun name => bool_decide (is_Some (get_first_value name mail)))
                [lit "List-Id"; lit "List-Post"; lit "List-Unsubscribe"]
              || bool_decide (precedence = lit "list") || bool_decide (precedence = lit "bulk")
              || bool_decide (precedence = lit "junk");
            original_recipient :=
              unwrap_or [] ((fun v => join [32] (split_whitespace v)) <$> get_first_value (lit "Original-Recipient") mail)
          |}
      end.
End Requests.

Inductive Caution := MailingList | AddressMismatch.

Definition caution (r : ReceiptRequest) : option Caution :=
  if list_mail r then Some MailingList
  else
    let return_domain := domain_of (return_path r) in
    if is_empty return_domain || existsb (fun addr => negb (bool_decide (domain_of addr = return_domain))) (notify_to r)
    then Some AddressMismatch else None.

Inductive Answer := Sent | Declined.
#[global] Instance Answer_eq_dec : EqDecision Answer.
Proof. solve_decision. Defined.

Inductive Silence := SilentNever | SilentJunk | SilentUnidentified.

Inductive Verdict :=
| NotRequested
| Answered (a : Answer)
| Silent (why : Silence)
| AskFor (why : option Caution)
| SendAutomatically.

(** ** Answers, remembered per message *)

Record Row := { account : text; message_id : text; answer_text : text; answered_at : Z }.

Definition is_of (acc k : text) (r : Row) : bool := bool_decide (account r = acc) && bool_decide (message_id r = k).

Definition answer_str (a : Answer) : text := match a with Sent => lit "sent" | Declined => lit "declined" end.

Definition no_message_id : text := lit "this message has no Message-ID, so a receipt could not name it".

Section Answers.
Context {U : Unicode}.

Definition key_case_kept (message_id : text) : text :=
  trim (trim_end_matches (Z.eqb 62) (trim_start_matches (Z.eqb 60) (trim message_id))).

Definition key (message_id : text) : text := to_lowercase (key_case_kept message_id).

Definition decide_receipt (policy : Policy) (request : option ReceiptRequest) (message_id : text) (in_junk : bool)
    (answered : option Answer) : Verdict :=
  match request with
  | None => NotRequested
  | Some request =>
      match answered with
      | Some answer => Answered answer
      | None =>
          if is_empty (key message_id) then Silent SilentUnidentified
          else if in_junk then Silent SilentJunk
          else match policy, caution request with
               | Never, _ => Silent SilentNever
               | _, Some c => AskFor (Some c)
               | Always, None => SendAutomatically
               | Ask, None => AskFor None
               end
      end
  end.

Definition answered_key (t : list Row) (acc k : text) : option Answer :=
  (fun r => if bool_decide (answer_text r = lit "sent") then Sent else Declined) <$> query_row (is_of acc k) t.

Definition answered (t : list Row) (acc mid : text) : option Answer := answered_key t acc (key mid).

(** [INSERT OR IGNORE]: whether it inserted. *)
Definition claim (t : list Row) (acc mid : text) (a : Answer) (now : Z) : result text (list Row * bool) :=
  let k := key mid in
  if is_empty k then Err no_message_id
  else if existsb (is_of acc k) t then Ok (t, false)
  else Ok (t ++ [{| account := acc; message_id := k; answer_text := answer_str a; answered_at := now |}], true).

Definition release (t : list Row) (acc mid : text) : list Row := delete_where (is_of acc (key mid)) t.
End Answers.

(** ** The report *)

Inductive Mode := Manual | Automatic.
#[global] Instance Mode_eq_dec : EqDecision Mode.
Proof. solve_decision. Defined.

Record Mdn := {
  from_name : text; from_addr : text; mdn_to : list text; original_message_id : text;
  original_subject : text; mdn_original_recipient : text; mode : Mode
}.

Definition crlf : text := [13; 10].

(** The loop of [field]: the words, with the column reached. *)
Fixpoint field_words (name_len column : nat) (words : list text) : text :=
  match words with
  | [] => crlf
  | word :: words' =>
      if ((78 <? column + 1 + utf8_len word) && (name_len + 1 <? column))%nat
      then crlf ++ 32 :: word ++ field_words name_len (0 + (1 + utf8_len word)) words'
      else 32 :: word ++ field_words name_len (column + (1 + utf8_len word)) words'
  end.

Definition field (name value : text) : text :=
  name ++ 58 :: field_words (utf8_len name) (utf8_len name + 1) (split_whitespace value).

Definition notification_fields (mdn : Mdn) : text :=
  field (lit "Reporting-UA") (lit "Oreneta")
  ++ (if is_empty (trim (mdn_original_recipient mdn)) then []
      else field (lit "Original-Recipient") (trim (mdn_original_recipient mdn)))
  ++ field (lit "Final-Recipient") (lit "rfc822;" ++ trim (from_addr mdn))
  ++ field (lit "Original-Message-ID") (lit "<" ++ key_case_kept (original_message_id mdn) ++ lit ">")
  ++ field (lit "Disposition")
       match mode mdn with
       | Manual => lit "manual-action/MDN-sent-manually; displayed"
       | Automatic => lit "automatic-action/MDN-sent-automatically; displayed"
       end.

(** What [build_mdn] gives the writer; the Message-ID is a fresh name at [id_domain]. *)
Record Report := {
  human : text; fields : text; notification_type : text; encoding : text;
  report_from : text * text; report_to : list text; report_subject : text; id_domain : text;
  in_reply_to : text; references : text; auto_submitted : bool
}.

Definition build_mdn (mdn : Mdn) : result text Report :=
  match mdn_to mdn with
  | [] => Err (lit "a read receipt needs somewhere to go")
  | _ =>
      let original_id := key_case_kept (original_message_id mdn) in
      if is_empty original_id then Err (lit "a read receipt must name the message it is about")
      else
        let from := trim (from_addr mdn) in
        let subject := trim (original_subject mdn) in
        let fields := notification_fields mdn in
        let domain := domain_of from in
        Ok {|
          human :=
            lit "This is a receipt for the message you sent to " ++ from
            ++ (if is_empty subject then [] else lit " with the subject " ++ [34] ++ subject ++ [34])
            ++ lit "." ++ crlf ++ crlf
            ++ lit "It only means the message was shown on the recipient's screen. It does not mean it was read or understood."
            ++ crlf;
          fields := fields;
          notification_type := if is_ascii fields then lit "message/disposition-notification"
                               else lit "message/global-disposition-notification";
          encoding := if is_ascii fields then lit "7bit" else lit "8bit";
          report_from := (trim (from_name mdn), from);
          report_to := mdn_to mdn;
          report_subject := lit "Read: " ++ subject;
          id_domain := if is_empty domain then lit "localhost" else domain;
          in_reply_to := original_id; references := original_id;
          auto_submitted := bool_decide (mode mdn = Automatic)
        |}
  end.

(** ** The routines of the reader *)

(** The message as cached: what is read of [parse::Message]. *)
Record Message := {
  m_message_id : text; m_subject : text; m_to : text; m_cc : text; receipt : option ReceiptRequest
}.

Record Creds := { user : text; is_local : bool; is_ews : bool; is_graph : bool }.

(** [with_write_session] and [send_mime] for Exchange and Graph, else [smtp::send_report]. *)
Inductive Route := WriteSession | Smtp.
#[global] Instance Route_eq_dec : EqDecision Route.
Proof. solve_decision. Defined.

(** [marked]: the error carries [UncertainSend].  [lost]: the request may
    have reached the server, whose answer did not come back. *)
Record SendError := { marked : bool; lost : bool; reason : text }.
Definition plain (why : text) : SendError := {| marked := false; lost := false; reason := why |}.
Definition is_uncertain : SendError -> bool := marked.

Inductive Ev : Type -> Type :=
| ReadCachedOrFetch (account folder : text) (uid : Z) : Ev (result text Message)
| FolderRole (account folder : text) : Ev (result text text)
| SettingsGet (keys : list text) : Ev (result text Value)
| WithDb {X} (f : list Row -> result text (list Row * X)) : Ev (result text X)
| EnsureValidCreds (account : text) : Ev (result text Creds)
| SelfAddrs (account : text) : Ev (gset text)
| ResolveSendFrom (account login requested : text) : Ev (result text (text * text))
| WriteMime (report : Report) : Ev (result text text)
| Submit (route : Route) (account : text) (mdn : Mdn) (raw : text) : Ev (result SendError unit).

Record Facts := { message : Message; in_junk : bool; facts_answered : option Answer; facts_policy : Policy }.

Record Status := {
  state : text; st_caution : option Caution; st_silence : option Silence; st_to : list text; automatic : bool
}.

Section Routines.
Context {U : Unicode} {M : Mailparse}.

Definition ask_answered (acc mid : text) : Ev (result text (option Answer)) :=
  WithDb (fun t => Ok (t, answered t acc mid)).
Definition claim_answer (acc mid : text) (a : Answer) (now : Z) : Ev (result text bool) :=
  WithDb (fun t => claim t acc mid a now).
Definition release_answer (acc mid : text) : Ev (result text unit) :=
  WithDb (fun t => Ok (release t acc mid, tt)).

Definition facts (acc folder : text) (uid : Z) : prog Ev (result text Facts) :=
  message <-? call (ReadCachedOrFetch acc folder uid) ;;
  role <- call (FolderRole acc folder) ;;
  answered <-? call (ask_answered acc (m_message_id message)) ;;
  prefs <- call (SettingsGet [POLICY_SETTING]) ;;
  Ret (Ok {| message := message;
             in_junk := unwrap_or false ((fun role => bool_decide (role = lit "junk")) <$> ok role);
             facts_answered := answered; facts_policy := policy_of prefs |}).

(** An error of the rest of the engine, as [anyhow] passes it on. *)
Definition plainly {A} (p : prog Ev (result text A)) : prog Ev (result SendError A) :=
  r <- p ;; Ret (match r with Ok a => Ok a | Err e => Err (plain e) end).

Definition receiving_address (acc login : text) (message : Message) : prog Ev (result text (text * text)) :=
  mine <- call (SelfAddrs acc) ;;
  let addressed := bare_addresses (m_to message) ++ bare_addresses (m_cc message) in
  let chosen := unwrap_or [] (List.find (fun addr => bool_decide (addr ∈ mine)) addressed) in
  r <- call (ResolveSendFrom acc login chosen) ;;
  match r with
  | Ok from => Ret (Ok from)
  | Err _ => call (ResolveSendFrom acc login [])
  end.

(** The block of [send] whose result decides what becomes of the claim. *)
Definition transmit (acc : text) (message : Message) (request : ReceiptRequest) (md : Mode)
    : prog Ev (result SendError unit) :=
  creds <-? plainly (call (EnsureValidCreds acc)) ;;
  if is_local creds then Ret (Err (plain (lit "the local archive cannot send mail")))
  else
    from <-? plainly (receiving_address acc (user creds) message) ;;
    let mdn := {| from_name := from.2; from_addr := from.1; mdn_to := notify_to request;
                  original_message_id := m_message_id message; original_subject := m_subject message;
                  mdn_original_recipient := original_recipient request; mode := md |} in
    raw <-? plainly (match build_mdn mdn with
                     | Ok report => call (WriteMime report)
                     | Err e => Ret (Err e)
                     end) ;;
    call (Submit (if is_ews creds || is_graph creds then WriteSession else Smtp) acc mdn raw).

Definition did_not_ask : text := lit "this message did not ask for a read receipt".

Definition send (acc : text) (message : Message) (md : Mode) (now : Z) : prog Ev (result text bool) :=
  match receipt message with
  | None => Ret (Err did_not_ask)
  | Some request =>
      claimed <-? call (claim_answer acc (m_message_id message) Sent now) ;;
      if negb claimed then Ret (Ok false)
      else
        result <- transmit acc message request md ;;
        match result with
        | Ok _ => Ret (Ok true)
        | Err err =>
            if is_uncertain err then Ret (Ok true)
            else _ <-? call (release_answer acc (m_message_id message)) ;;
                 Ret (Err (lit "the read receipt was not sent"))
        end
  end.

Definition status (acc folder : text) (uid now : Z) : prog Ev (result text Status) :=
  facts <-? facts acc folder uid ;;
  let request := receipt (message facts) in
  let to := unwrap_or [] (notify_to <$> request) in
  let status s c q auto := {| state := lit s; st_caution := c; st_silence := q; st_to := to; automatic := auto |} in
  match decide_receipt (facts_policy facts) request (m_message_id (message facts)) (in_junk facts) (facts_answered facts) with
  | NotRequested => Ret (Ok (status "none" None None false))
  | Answered Sent => Ret (Ok (status "sent" None None false))
  | Answered Declined => Ret (Ok (status "declined" None None false))
  | Silent silence => Ret (Ok (status "silent" None (Some silence) false))
  | AskFor caution => Ret (Ok (status "ask" caution None false))
  | SendAutomatically =>
      sent <-? send acc (message facts) Automatic now ;;
      if (sent : bool) then Ret (Ok (status "sent" None None true))
      else
        answer <-? call (ask_answered acc (m_message_id (message facts))) ;;
        Ret (Ok (if bool_decide (answer = Some Declined) then status "declined" None None false
                 else status "sent" None None false))
  end%string.

Definition answer (acc folder : text) (uid : Z) (send_it : bool) (now : Z) : prog Ev (result text Status) :=
  facts <-? facts acc folder uid ;;
  match receipt (message facts) with
  | None => Ret (Err did_not_ask)
  | Some request =>
      let to := notify_to request in
      _ <-? (match facts_answered facts with
             | None =>
                 if send_it then send acc (message facts) Manual now
                 else call (claim_answer acc (m_message_id (message facts)) Declined now)
             | Some _ => Ret (Ok false)
             end) ;;
      answer <-? call (ask_answered acc (m_message_id (message facts))) ;;
      Ret (Ok {| state := match answer with
                          | Some Sent => lit "sent"
                          | Some Declined => lit "declined"
                          | None => lit "ask"
                          end;
                 st_caution := None; st_silence := None; st_to := to; automatic := false |})
  end.
End Routines.
End ReadReceipts.
