(* ===== verification/ReceiptLaws.v ===== *)
(** * What is true of read receipts

    The routines of [ReadReceipts.v] at once ([Pool.v]): over SMTP a receipt
    goes at most once for a message, and only where it may; over an Exchange
    or Graph account an answer that is lost lets it go twice. *)
From S2P Require Import Prelude.
From S2P Require Import Text.
From S2P Require Import Json.
From S2P Require Import Table.
From S2P Require Import Program.
From S2P Require Import Pool.
From S2P Require Import ReadReceipts.
#[local] Open Scope Z_scope.
#[local] Open Scope prog_scope.

Module ReceiptLaws.
Import ReadReceipts.

(** ** What the calls may do *)

Record World := { rows : list Row; delivered : list (text * Mdn) }.

(** What the rest of the system may answer, at one moment or another: the
    messages, the folders' roles, the settings and the accounts. *)
Record Env := {
  mail : text -> text -> Z -> Message -> Prop;
  role_of : text -> text -> result text text -> Prop;
  settings : result text Value -> Prop;
  creds_of : text -> Creds -> Prop
}.

(** A section under the lock of [engine.db] does what it says or fails with
    nothing done.  A submission that was accepted has been delivered, one
    whose answer was lost may have been, and no other has; the SMTP
    transaction marks an answer that was lost, and nothing marks one of
    Exchange or Graph. *)
Definition does (env : Env) (X : Type) (e : Ev X) : World -> World -> X -> Prop :=
  match e in Ev X return World -> World -> X -> Prop with
  | ReadCachedOrFetch a f u => fun w w' r =>
      w' = w /\ match r with Ok m => mail env a f u m | Err _ => True end
  | FolderRole a f => fun w w' r => w' = w /\ role_of env a f r
  | SettingsGet _ => fun w w' r => w' = w /\ settings env r
  | WithDb f => fun w w' r =>
      (exists t x, f (rows w) = Ok (t, x) /\ w' = {| rows := t; delivered := delivered w |} /\ r = Ok x) \/
      (exists e, w' = w /\ r = Err e)
  | EnsureValidCreds a => fun w w' r => w' = w /\ match r with Ok c => creds_of env a c | Err _ => True end
  | SelfAddrs _ => fun w w' _ => w' = w
  | ResolveSendFrom _ _ _ => fun w w' _ => w' = w
  | WriteMime _ => fun w w' _ => w' = w
  | Submit route a mdn _ => fun w w' r => exists n,
      w' = {| rows := rows w; delivered := delivered w ++ replicate n (a, mdn) |} /\
      match r with
      | Ok _ => n = 1%nat
      | Err e => (n <= 1)%nat /\ (lost e = false -> n = 0%nat) /\
                 marked e = match route with Smtp => lost e | WriteSession => false end
      end
  end.

Section OneMessage.
Context {U : Unicode} {M : Mailparse} (env : Env).
Context (clicked : text -> text -> Z -> Prop).
Context (a k : text).

(** The message [k] of the account [a]: a routine that has claimed its
    receipt, of which nothing has gone, or any other. *)
Inductive Phase := Idle | Own.

Definition recorded (t : list Row) : option Answer := answered_key t a k.
Definition about (d : text * Mdn) : Prop := d.1 = a /\ key (original_message_id d.2) = k.
#[local] Instance about_dec d : Decision (about d).
Proof. unfold about. apply _. Defined.
Definition count (l : list (text * Mdn)) : nat := length (base.filter about l).
#[local] Arguments count : simpl never.

(** Why a receipt went: the person asked, or chose "always" and nothing is
    against it. *)
Definition justified (acc : text) (mdn : Mdn) : Prop := exists folder uid m r,
  mail env acc folder uid m /\ receipt m = Some r /\
  original_message_id mdn = m_message_id m /\ mdn_to mdn = notify_to r /\
  match mode mdn with
  | Manual => clicked acc folder uid
  | Automatic =>
      (exists prefs, settings env prefs /\ policy_of prefs = Always) /\ caution r = None /\
      exists role, role_of env acc folder role /\ role <> Ok (lit "junk")
  end.

(** What a routine in a phase may do to the record of the message. *)
Definition allowed (ph ph' : Phase) (s s' : option Answer) : Prop :=
  match ph, ph' with
  | Idle, Idle => s' = s \/ (s = None /\ s' = Some Declined)
  | Idle, Own => s = None /\ s' = Some Sent
  | Own, Idle => s' = None
  | Own, Own => False
  end.

Definition receipt_ok {X} (e : Ev X) (ph : Phase) : (X -> Phase -> Prop) -> Prop :=
  match e in Ev X return (X -> Phase -> Prop) -> Prop with
  | ReadCachedOrFetch acc f u => fun K => forall r,
      match r with Ok m => mail env acc f u m | Err _ => True end -> K r ph
  | FolderRole acc f => fun K => forall r, role_of env acc f r -> K r ph
  | SettingsGet _ => fun K => forall r, settings env r -> K r ph
  | WithDb f => fun K =>
      (forall e, K (Err e) Idle) /\
      forall t t' x, f t = Ok (t', x) ->
        exists ph', allowed ph ph' (recorded t) (recorded t') /\ K (Ok x) ph'
  | EnsureValidCreds acc => fun K => forall r, match r with Ok c => creds_of env acc c | Err _ => True end -> K r ph
  | Submit route acc mdn _ => fun K =>
      justified acc mdn /\
      if bool_decide (about (acc, mdn)) then
        ph = Own /\ route = Smtp /\ (forall u, K (Ok u) Idle) /\
        forall e, K (Err e) (if is_uncertain e then Idle else Own)
      else forall r, K r ph
  | SelfAddrs _ | ResolveSendFrom _ _ _ | WriteMime _ => fun K => forall x, K x ph
  end.

Lemma receipt_ok_mono {X} (e : Ev X) ph (K K' : X -> Phase -> Prop) :
  (forall x ph', K x ph' -> K' x ph') -> receipt_ok e ph K -> receipt_ok e ph K'.
Proof.
  intros HK. destruct e; cbn; try (intros H x; first [apply HK, H|intros Hx; by apply HK, H]).
  - intros [He Ho]. split; [eauto|]. intros t t' x Hf. destruct (Ho t t' x Hf) as (ph' & ? & ?). eauto.
  - intros [Hj Hs]. split; [done|]. case_bool_decide; [|eauto].
    destruct Hs as (-> & -> & Ho & He). split_and!; eauto.
Qed.

#[local] Instance receipt_protocol : Protocol Ev Phase :=
  {| call_ok := @receipt_ok; call_ok_mono := @receipt_ok_mono |}.

(** ** The world and the phases *)

Record consistent (w : World) (phs : list Phase) : Prop := {
  c_once : (count (delivered w) <= 1)%nat;
  c_sent : count (delivered w) = 0%nat \/ recorded (rows w) = Some Sent;
  c_own : forall j, phs !! j = Some Own -> recorded (rows w) = Some Sent /\ count (delivered w) = 0%nat;
  c_one : forall i j, phs !! i = Some Own -> phs !! j = Some Own -> i = j;
  c_why : Forall (fun d => justified d.1 d.2) (delivered w)
}.

Lemma consistent_idle w phs j : consistent w phs -> consistent w (<[j := Idle]> phs).
Proof.
  intros []. split; try done.
  - intros i. rewrite list_lookup_insert_Some. intros [(-> & ? & _)|[_ Hi]]; [done|by eapply c_own0].
  - intros i i'. rewrite !list_lookup_insert_Some. intros [(_ & ? & _)|[_ Hi]] [(_ & ? & _)|[_ Hi']]; try done.
    by apply c_one0.
Qed.

Lemma consistent_rows w phs j ph ph' t :
  consistent w phs -> phs !! j = Some ph -> allowed ph ph' (recorded (rows w)) (recorded t) ->
  consistent {| rows := t; delivered := delivered w |} (<[j := ph']> phs).
Proof.
  intros [] Hj Ha. destruct ph, ph'; cbn in Ha; try done; split; cbn; try done.
  - destruct Ha as [->|[Hn _]]; [done|]. left. destruct c_sent0; [done|congruence].
  - intros i. rewrite list_lookup_insert_Some. intros [(_ & ? & _)|[_ Hi]]; [done|].
    destruct (c_own0 i Hi), Ha as [->|[Hn _]]; [done|congruence].
  - intros i i'. rewrite !list_lookup_insert_Some. intros [(_ & ? & _)|[_ Hi]] [(_ & ? & _)|[_ Hi']]; try done.
    by apply c_one0.
  - right. apply Ha.
  - intros i _. split; [apply Ha|]. destruct Ha. destruct c_sent0; [done|congruence].
  - intros i i'. rewrite !list_lookup_insert_Some. destruct Ha as [Hn _].
    intros [(<- & _)|[_ Hi]] [(<- & _)|[_ Hi']]; try done;
      [destruct (c_own0 _ Hi')|destruct (c_own0 _ Hi)|by apply c_one0]; congruence.
  - left. by eapply c_own0.
  - intros i. rewrite list_lookup_insert_Some. intros [(_ & ? & _)|[Hne Hi]]; [done|].
    destruct Hne. by apply c_one0.
  - intros i i'. rewrite !list_lookup_insert_Some. intros [(_ & ? & _)|[_ Hi]] [(_ & ? & _)|[_ Hi']]; try done.
    by apply c_one0.
Qed.

Lemma count_replicate l n d : count (l ++ replicate n d) = (count l + if bool_decide (about d) then n else 0)%nat.
Proof.
  unfold count. rewrite filter_app, length_app. f_equal. case_bool_decide as Hd.
  - induction n as [|n IH]; [done|]. cbn [replicate]. rewrite filter_cons_True by done. cbn. by rewrite IH.
  - assert (base.filter about (replicate n d) = []) as ->; [|done].
    apply filter_nil_iff. by intros x [-> _]%elem_of_replicate.
Qed.

Lemma consistent_move X (e : Ev X) w w' x phs j ph K :
  consistent w phs -> phs !! j = Some ph -> call_ok e ph K -> does env X e w w' x ->
  exists ph', K x ph' /\ consistent w' (<[j := ph']> phs).
Proof.
  intros Hc Hj. assert (<[j := ph]> phs = phs) as Hsame by by apply list_insert_id.
  destruct e; cbn; try (intros HK [-> Hr]; exists ph; rewrite Hsame; by split; [apply HK|]);
    try (intros HK ->; exists ph; rewrite Hsame; by split; [apply HK|]).
  - intros [He Ho] [(t & y & Hf & -> & ->)|(e & -> & ->)].
    + destruct (Ho _ _ _ Hf) as (ph' & Ha & HK). exists ph'. split; [done|]. by eapply consistent_rows.
    + exists Idle. split; [done|]. by apply consistent_idle.
  - intros [Hwhy Hcall] (n & -> & Hn).
    assert (Forall (fun d => justified d.1 d.2) (delivered w ++ replicate n (account0, mdn))) as Hall.
    { apply Forall_app. split; [apply Hc|]. by apply Forall_replicate. }
    case_bool_decide as Hab.
    + destruct Hcall as (-> & -> & Hok & Herr). destruct Hc. destruct (c_own0 _ Hj) as [Hs H0].
      exists (match x with Ok _ => Idle | Err e => if is_uncertain e then Idle else Own end).
      split; [by destruct x|].
      assert (n <= 1)%nat as Hn1 by (destruct x as [u|e]; [lia|apply Hn]).
      split; cbn; rewrite ?count_replicate, ?bool_decide_true, ?H0 by done; try done.
      * by right.
      * intros i. rewrite list_lookup_insert_Some. intros [(<- & Hx & _)|[Hne Hi]].
        -- split; [done|]. destruct x as [u|e]; [done|]. destruct Hn as (_ & Hz & Hm).
           unfold is_uncertain in Hx. rewrite Hm in Hx. destruct (lost e); [done|]. by apply Hz.
        -- by destruct Hne; apply c_one0.
      * intros i i'. rewrite !list_lookup_insert_Some.
        intros [(<- & _)|[_ Hi]] [(<- & _)|[_ Hi']]; try done; by apply c_one0.
    + exists ph. split; [by apply Hcall|]. rewrite Hsame. destruct Hc.
      split; cbn; rewrite ?count_replicate, ?bool_decide_false, ?Nat.add_0_r by done; done.
Qed.

(** ** The routines keep to it *)

Lemma recorded_release t acc mid :
  recorded (release t acc mid) = if decide (acc = a /\ key mid = k) then None else recorded t.
Proof.
  unfold recorded, release, answered_key. destruct (decide _) as [[-> <-]|Hne].
  - destruct (query_row _ _) as [r|] eqn:E; [|done]. apply query_row_Some in E as [Hr Hp].
    apply elem_of_delete_where in Hr as [_ Hr]. congruence.
  - f_equal. apply query_row_delete_other. intros r Hr. unfold is_of in *.
    apply andb_true_iff in Hr as [Ha%bool_decide_eq_true Hk%bool_decide_eq_true].
    rewrite Ha, Hk. apply andb_false_iff.
    destruct (decide (acc = a)); [right|left]; apply bool_decide_eq_false; naive_solver.
Qed.

Lemma recorded_claim t t' acc mid an now x :
  claim t acc mid an now = Ok (t', x) ->
  recorded t' = if decide (x = true /\ acc = a /\ key mid = k) then Some an else recorded t.
Proof.
  unfold claim. destruct (is_empty (key mid)) eqn:Ek; [done|].
  destruct (existsb (is_of acc (key mid)) t) eqn:Ex; intros [= <- <-].
  - destruct (decide _) as [(? & _)|_]; done.
  - unfold recorded, answered_key. rewrite query_row_app, query_row_singleton. unfold is_of at 2. cbn.
    destruct (decide _) as [(_ & -> & <-)|Hne].
    + rewrite !bool_decide_true by done. cbn.
      assert (query_row (is_of a (key mid)) t = None) as ->.
      { apply query_row_None. intros r Hr. apply not_true_iff_false. intros Ht.
        apply not_true_iff_false in Ex. apply Ex, existsb_exists. exists r. by rewrite <- list_elem_of_In. }
      cbn. by destruct an.
    + destruct (query_row (is_of a k) t); [done|]. destruct (_ && _) eqn:Hb; [|done].
      apply andb_true_iff in Hb as [?%bool_decide_eq_true ?%bool_decide_eq_true]. naive_solver.
Qed.

(** Whether a claim inserted says what the record was. *)
Lemma claim_fresh t t' acc mid an now :
  claim t acc mid an now = Ok (t', true) -> acc = a -> key mid = k -> recorded t = None.
Proof.
  unfold claim, recorded, answered_key. destruct (is_empty (key mid)); [done|].
  destruct (existsb (is_of acc (key mid)) t) eqn:Ex; [done|]. intros [= <-] -> <-.
  assert (query_row (is_of a (key mid)) t = None) as ->; [|done].
  apply query_row_None. intros r Hr. apply not_true_iff_false. intros Ht.
  apply not_true_iff_false in Ex. apply Ex, existsb_exists. exists r. by rewrite <- list_elem_of_In.
Qed.

(** A section that leaves the record alone. *)
Lemma call_ok_look {X} (f : list Row -> result text (list Row * X)) (K : result text X -> Phase -> Prop) :
  (forall t t' x, f t = Ok (t', x) -> t' = t) -> (forall r, K r Idle) -> call_ok (WithDb f) Idle K.
Proof.
  intros Hf HK. split; [done|]. intros t t' x Hx. rewrite (Hf _ _ _ Hx). exists Idle. split; [by left|done].
Qed.

Definition to_idle {R} (_ : R) (ph : Phase) : Prop := ph = Idle.

Lemma plainly_ok {A} (p : prog Ev (result text A)) ph (Q : result SendError A -> Phase -> Prop) :
  thread_ok ph p (fun r ph' => match r with Ok x => Q (Ok x) ph' | Err e => Q (Err (plain e)) ph' end) ->
  thread_ok ph (plainly p) Q.
Proof. intros Hp. apply thread_ok_bind. eapply thread_ok_mono; [|exact Hp]. by intros [x|e]. Qed.

Lemma receiving_address_ok acc login m ph (Q : result text (text * text) -> Phase -> Prop) :
  (forall r, Q r ph) -> thread_ok ph (receiving_address acc login m) Q.
Proof. intros HQ. cbn. intros mine [from|e]; [apply HQ|]. intros r. apply HQ. Qed.

(** What [send] may count on when it has claimed: the receipt's reasons and,
    for the message in question, that nothing of it has gone. *)
Lemma transmit_ok acc m r md ph :
  (forall c, creds_of env a c -> is_ews c || is_graph c = false) ->
  (forall mdn, original_message_id mdn = m_message_id m -> mdn_to mdn = notify_to r -> mode mdn = md ->
     justified acc mdn) ->
  ph = (if decide (acc = a /\ key (m_message_id m) = k) then Own else Idle) ->
  thread_ok ph (transmit acc m r md)
    (fun res ph' => ph' = match res with
                          | Ok _ => Idle
                          | Err e => if is_uncertain e then Idle else ph
                          end).
Proof.
  intros Hsmtp Hwhy Hph. unfold transmit. apply thread_ok_and_then, plainly_ok. intros [c|e] Hc; cbn [thread_ok]; [|done].
  destruct (is_local c); [done|]. apply thread_ok_and_then, plainly_ok, receiving_address_ok.
  intros [from|e]; cbn [thread_ok]; [|done]. apply thread_ok_and_then, plainly_ok.
  set (mdn := {| from_name := from.2 |}).
  assert (forall raw, call_ok (Submit (if is_ews c || is_graph c then WriteSession else Smtp) acc mdn raw) ph
    (fun res ph' => ph' = match res with Ok _ => Idle | Err e => if is_uncertain e then Idle else ph end)) as Hsub.
  { intros raw. split; [by apply Hwhy|]. unfold about. cbn. subst ph.
    case_bool_decide as Hab; [|by intros [?|e]; [|destruct (is_uncertain e)]; rewrite decide_False].
    rewrite decide_True by done. destruct Hab as [-> Hk]. rewrite Hsmtp by done. done. }
  destruct (build_mdn mdn) as [report|e]; cbn [thread_ok]; [|done].
  intros [raw|e]; cbn [thread_ok]; [|done]. apply Hsub.
Qed.

Context (Hsmtp : forall c, creds_of env a c -> is_ews c || is_graph c = false).

Lemma send_ok acc m md now :
  (forall r mdn, receipt m = Some r -> original_message_id mdn = m_message_id m -> mdn_to mdn = notify_to r ->
     mode mdn = md -> justified acc mdn) ->
  thread_ok Idle (send acc m md now) to_idle.
Proof using Hsmtp.
  intros Hwhy. unfold send. destruct (receipt m) as [r|] eqn:Er; [|done]. apply thread_ok_and_then.
  split; [done|]. intros t t' x Hcl. pose proof (recorded_claim _ _ _ _ _ _ _ Hcl) as Ht.
  destruct x; cbn [thread_ok negb].
  2: { exists Idle. split; [|done]. left. rewrite Ht. by destruct (decide _) as [(? & _)|_]. }
  set (ph := if decide (acc = a /\ key (m_message_id m) = k) then Own else Idle).
  exists ph. split.
  { unfold ph. rewrite Ht. destruct (decide (acc = a /\ _)) as [[Ha Hk]|Hne], (decide (true = true /\ _)) as [Hy|Hy];
      cbn; try naive_solver. split; [by eapply claim_fresh|done]. }
  apply thread_ok_bind. eapply thread_ok_mono; [|apply (transmit_ok acc m r md ph Hsmtp)].
  - intros [u|e] ph' ->; [done|]. destruct (is_uncertain e); [done|]. apply thread_ok_and_then.
    split; [done|]. intros t1 t2 [] [= <-]. exists Idle. split; [|done]. rewrite recorded_release. unfold ph.
    repeat destruct (decide _); cbn; try done; by left.
  - intros mdn. by apply Hwhy.
  - done.
Qed.

(** What is known of a message is something that could be read. *)
Definition known (acc folder : text) (uid : Z) (f : Facts) : Prop :=
  mail env acc folder uid (message f) /\
  (exists role, role_of env acc folder role /\ (in_junk f = false -> role <> Ok (lit "junk"))) /\
  exists prefs, settings env prefs /\ policy_of prefs = facts_policy f.

Lemma facts_ok acc folder uid :
  thread_ok Idle (facts acc folder uid)
    (fun r ph => ph = Idle /\ match r with Ok f => known acc folder uid f | Err _ => True end).
Proof.
  unfold facts. apply thread_ok_and_then. intros [m|e] Hm; cbn [thread_ok]; [|done].
  apply thread_ok_bind. intros role Hrole. cbn [thread_ok]. apply thread_ok_and_then.
  apply call_ok_look; [by intros t t' x [= <- _]|]. intros [an|e]; cbn [thread_ok]; [|done].
  apply thread_ok_bind. intros prefs Hprefs. cbn [thread_ok]. split; [done|]. split; [done|]. split.
  - exists role. split; [done|]. cbn. intros Hj ->. by cbn in Hj.
  - by exists prefs.
Qed.

Lemma status_ok acc folder uid now : thread_ok Idle (status acc folder uid now) to_idle.
Proof using Hsmtp.
  unfold status. apply thread_ok_and_then. eapply thread_ok_mono; [|apply facts_ok].
  intros [f|e] ph [-> Hf]; [|done]. destruct Hf as (Hm & (role & Hrole & Hj) & Hpol).
  destruct (decide_receipt _ _ _ _ _) as [|[]| | |] eqn:Ed; try done.
  unfold decide_receipt in Ed. destruct (receipt (message f)) as [r|] eqn:Er; [|done].
  destruct (facts_answered f); [done|]. destruct (is_empty _); [done|].
  destruct (in_junk f); [done|]. destruct (facts_policy f); [by destruct (caution r)| |done].
  destruct (caution r) eqn:Ec; [done|]. apply thread_ok_and_then.
  eapply thread_ok_mono; [|apply send_ok].
  - intros [[]|e] ph' ->; try done. cbn [thread_ok]. apply thread_ok_and_then.
    apply call_ok_look; [by intros t t' x [= <- _]|]. by intros [an|e].
  - intros r' mdn Hr' Hid Hto Hmode. exists folder, uid, (message f), r'. rewrite Hmode.
    assert (r' = r) as -> by congruence.
    split_and!; try done. exists role. split; [done|]. by apply Hj.
Qed.

Lemma answer_ok acc folder uid send_it now :
  (send_it = true -> clicked acc folder uid) ->
  thread_ok Idle (answer acc folder uid send_it now) to_idle.
Proof using Hsmtp.
  intros Hclick. unfold answer. apply thread_ok_and_then. eapply thread_ok_mono; [|apply facts_ok].
  intros [f|e] ph [-> Hf]; [|done]. destruct Hf as (Hm & _).
  destruct (receipt (message f)) as [r|] eqn:Er; [|done]. apply thread_ok_and_then.
  assert (thread_ok Idle (call (ask_answered acc (m_message_id (message f)))) to_idle) as Hask.
  { apply call_ok_look; [by intros t t' x [= <- _]|done]. }
  eapply (thread_ok_mono _ _ to_idle).
  { intros [x|e] ph' ->; [|done]. apply thread_ok_and_then.
    eapply thread_ok_mono; [|exact Hask]. by intros [an|e] ph'' ->. }
  destruct (facts_answered f); [done|]. destruct send_it.
  - apply send_ok. intros r' mdn Hr' Hid Hto Hmode. exists folder, uid, (message f), r'. rewrite Hmode.
    split_and!; try done. by apply Hclick.
  - split; [done|]. intros t t' x Hcl. exists Idle. split; [|done]. rewrite (recorded_claim _ _ _ _ _ _ _ Hcl).
    destruct (decide _) as [(-> & Ha & Hk)|Hne]; [|by left]. right. split; [by eapply claim_fresh|done].
Qed.

(** ** Routines at once *)

Inductive routine : prog Ev unit -> Prop :=
| a_status acc folder uid now : routine (_ <- status acc folder uid now ;; Ret tt)
| an_answer acc folder uid send_it now :
    (send_it = true -> clicked acc folder uid) ->
    routine (_ <- answer acc folder uid send_it now ;; Ret tt).

(** The process stops at any point; the answers are kept. *)
Definition restart (w w' : World) : Prop := w' = w.

(** Nothing else of the program touches the answer of a message of an account
    that is kept. *)
Definition elsewhere (w w' : World) : Prop :=
  recorded (rows w') = recorded (rows w) /\ delivered w' = delivered w.

Definition step : System Ev World -> System Ev World -> Prop := Pool.step (does env) routine restart elsewhere.

#[local] Instance receipt_laws : PoolLaws (does env) routine restart elsewhere Idle consistent.
Proof using Hsmtp.
  split.
  - intros p [acc folder uid now|acc folder uid send_it now Hc]; apply thread_ok_bind.
    + eapply thread_ok_mono; [|apply status_ok]. by intros r ph' ->.
    + eapply thread_ok_mono; [|by apply answer_ok]. by intros r ph' ->.
  - intros w phs []. split; try done.
    + intros j [Hj|[_ Hj]]%lookup_app_Some; [by eapply c_own0|].
      by apply list_lookup_singleton_Some in Hj as [_ ?].
    + intros i j [Hi|[_ Hi]]%lookup_app_Some [Hj|[_ Hj]]%lookup_app_Some; [by apply c_one0|..];
        by (apply list_lookup_singleton_Some in Hi as [_ ?] || apply list_lookup_singleton_Some in Hj as [_ ?]).
  - apply consistent_move.
  - intros w w' phs [] ->. by split.
  - intros w w' phs [] [Hr Hd]. split; rewrite ?Hr, ?Hd; done.
Qed.

(** C14: over SMTP a receipt goes at most once. *)
Theorem a_receipt_goes_once s s' :
  threads s = [] -> delivered (world s) = [] -> rtc step s s' ->
  (count (delivered (world s')) <= 1)%nat /\
  (recorded (rows (world s')) <> Some Sent -> count (delivered (world s')) = 0%nat) /\
  Forall (fun d => justified d.1 d.2) (delivered (world s')).
Proof using Hsmtp.
  intros Ht Hd Hsteps.
  destruct (pool_good (does env) routine restart elsewhere Idle consistent s s' Ht) as (phs & _ & [] & _); [|done|].
  { split; rewrite ?Hd; try done; [unfold count; cbn; lia|by left]. }
  split; [done|]. split; [|done]. intros Hn. by destruct c_sent0.
Qed.
End OneMessage.

(** ** A world where the first answer is lost *)

Definition env_of (m : Message) (c : Creds) (prefs : result text Value) : Env :=
  {| mail := fun _ _ _ m' => m' = m; role_of := fun _ _ r => r = Ok (lit "inbox");
     settings := fun p => p = prefs; creds_of := fun _ c' => c' = c |}.

Definition handle (m : Message) (c : Creds) (prefs : result text Value) (X : Type) (e : Ev X) (w : World) : World * X :=
  match e in Ev X return World * X with
  | ReadCachedOrFetch _ _ _ => (w, Ok m)
  | FolderRole _ _ => (w, Ok (lit "inbox"))
  | SettingsGet _ => (w, prefs)
  | WithDb f => match f (rows w) with
                | Ok (t, x) => ({| rows := t; delivered := delivered w |}, Ok x)
                | Err e => (w, Err e)
                end
  | EnsureValidCreds _ => (w, Ok c)
  | SelfAddrs _ => (w, ∅)
  | ResolveSendFrom _ _ _ => (w, Ok (lit "me@example.com", lit "Me"))
  | WriteMime _ => (w, Ok [])
  | Submit route a mdn _ =>
      ({| rows := rows w; delivered := delivered w ++ [(a, mdn)] |},
       match delivered w with
       | [] => Err {| marked := bool_decide (route = Smtp); lost := true; reason := lit "connection reset" |}
       | _ => Ok tt
       end)
  end.

Lemma server_does m c prefs X (e : Ev X) w :
  does (env_of m c prefs) X e w (handle m c prefs X e w).1 (handle m c prefs X e w).2.
Proof.
  destruct e; cbn; try done.
  - destruct (f (rows w)) as [[t x]|e] eqn:E; cbn; [left; by exists t, x|right; by exists e].
  - exists 1%nat. split; [done|]. destruct (delivered w); cbn; [|done].
    split; [done|]. split; [done|]. by destruct route.
Qed.

#[local] Existing Instance ascii_unicode.
#[local] Instance no_addresses : Mailparse := {| addrparse := fun _ => None |}.

(** Bob asks to be told; the person has an account [c]. *)
Definition asked : Message :=
  {| m_message_id := lit "<Plan-1@example.com>"; m_subject := lit "Plan"; m_to := lit "me@example.com"; m_cc := [];
     receipt := Some {| notify_to := [lit "bob@example.com"]; return_path := lit "bob@example.com";
                        list_mail := false; original_recipient := [] |} |}.
Definition smtp_account : Creds := {| user := lit "me"; is_local := false; is_ews := false; is_graph := false |}.
Definition exchange_account : Creds := {| user := lit "me"; is_local := false; is_ews := true; is_graph := false |}.
Definition start : World := {| rows := []; delivered := [] |}.
Definition acct : text := lit "a".

(** The person presses "Send receipt" again where the first time failed. *)
Definition twice (c : Creds) : World * (result text Status * result text Status) :=
  exec (handle asked c (Err []))
    (first <- answer acct (lit "INBOX") 7 true 0 ;;
     second <- answer acct (lit "INBOX") 7 true 60 ;; Ret (first, second)) start.

(** C14 at a message of an SMTP account that is answered to the end, with the
    setting "always". *)
Lemma a_receipt_goes_once_witness :
  let prefs := Ok (Object [(POLICY_SETTING, String (lit "always"))]) in
  let w := (exec (handle asked smtp_account prefs) (_ <- status acct (lit "INBOX") 7 0 ;; Ret tt) start).1 in
  (mode ∘ snd <$> delivered w = [Automatic]) /\
  (count acct (lit "plan-1@example.com") (delivered w) <= 1)%nat.
Proof.
  intros prefs w. set (p := _ <- status acct (lit "INBOX") 7 0 ;; Ret tt) in w. split; [by vm_compute|].
  refine (proj1 (a_receipt_goes_once (env_of asked smtp_account prefs) (fun _ _ _ => False) acct
    (lit "plan-1@example.com") _ {| world := start; threads := [] |}
    {| world := w; threads := [Ret tt] |} eq_refl eq_refl _)).
  - intros c ->. done.
  - unfold step. eapply rtc_l; [apply (step_start _ _ _ _ {| world := start; threads := [] |} p); constructor|].
    exact (runs_alone _ _ _ _ (handle asked smtp_account prefs) (server_does _ _ _) start [p] 0 p eq_refl).
Defined.

(** A lost answer of Exchange or Graph lets a second receipt follow.  The
    server takes the receipt and its answer is lost.  Over SMTP the error is
    marked, the claim is kept, and pressing "Send receipt" again sends
    nothing; over an Exchange account nothing marks it, the person is told
    that the receipt was not sent, the claim is released, and the second
    press delivers a second receipt. *)
Theorem a_lost_answer_sends_twice :
  count acct (lit "plan-1@example.com") (delivered (twice smtp_account).1) = 1%nat /\
  count acct (lit "plan-1@example.com") (delivered (twice exchange_account).1) = 2%nat /\
  (twice exchange_account).2.1 = Err (lit "the read receipt was not sent") /\
  (state <$> ok (twice exchange_account).2.2) = Some (lit "sent").
Proof. vm_compute. done. Qed.
End ReceiptLaws.
