(* ===== verification/Awaiting.v ===== *)
(** * Waiting for a reply

    Models [meron-core/src/awaiting/mod.rs]: the records of messages a reply
    is expected to, how each is judged from the mail every time it is asked
    for, the person's rulings and the reminders.  Messages are those of
    [Messages.v]; arrays of strings are read and written by [serde_json]. *)
From S2P Require Import Prelude.
From S2P Require Import Text.
From S2P Require Import Table.
From S2P Require Import Keyset.
From S2P Require Import ThreadList.
From S2P Require Import Cards.
From S2P Require Import Messages.
From S2P Require Import CachedConversations.

(** [serde_json] on [Vec<String>] *)
Class StringsJson := { strings_to_string : list text -> text; strings_from_str : text -> option (list text) }.
Class StringsJsonLaws (J : StringsJson) := {
  strings_round_trip l : strings_from_str (strings_to_string l) = Some l
}.

(** ** [LIKE], with a backslash as the escape *)

Definition same_letter (a b : Z) : bool := (ascii_lower_char a =? ascii_lower_char b)%Z.

Fixpoint like (p t : text) : bool :=
  match p with
  | [] => is_empty t
  | c :: p' =>
      if (c =? 37)%Z then
        (fix any (t : text) : bool := like p' t || match t with [] => false | _ :: t' => any t' end) t
      else if (c =? 95)%Z then match t with [] => false | _ :: t' => like p' t' end
      else if (c =? 92)%Z then
        match p', t with x :: p'', a :: t' => same_letter x a && like p'' t' | _, _ => false end
      else match t with a :: t' => same_letter c a && like p' t' | [] => false end
  end.

Module Awaiting.
#[local] Open Scope Z_scope.

(** ** The records *)

Record AwaitRow := {
  account : text; message_id : text; thread_key : text; subject : text; recipients : text; sent_at : Z;
  remind_at : option Z; reminded_at : option Z; state : text; not_replies : text; confirmed : text; created_at : Z
}.

Record Db := { store : Messages.Db; awaiting : list AwaitRow }.

(** [Row]: the columns as they are read. *)
Record Row := {
  w_account : text; w_message_id : text; w_thread_key : text; w_subject : text; w_recipients : list text;
  w_sent_at : Z; w_remind_at : option Z; w_state : text; w_not_replies : list text; w_confirmed : text
}.

Record Evidence := { e_message_id : text; e_from : text; e_date : Z; link : text; doubt : text }.

Record Item := {
  i_account : text; i_message_id : text; i_thread_key : text; i_subject : text; i_recipients : list text;
  i_sent_at : Z; i_remind_at : option Z; status : text; answer : option Evidence; possible : list Evidence;
  overdue : bool
}.

Record Sent := { s_message_id : text; s_thread_key : text; s_subject : text; s_recipients : list text; s_date : Z }.

(** [priority::looks_automated] *)
Definition looks_automated (addr : text) : bool :=
  let local := to_ascii_lowercase (unwrap_or [] (head (split_char 64 addr))) in
  let flattened := List.filter is_ascii_alphanumeric local in
  existsb (fun n => bool_decide (flattened = lit n))
    ["noreply"; "donotreply"; "nlreply"; "notifications"; "notification"; "mailerdaemon"; "postmaster"; "bounce";
     "bounces"; "automailer"; "autoreply"]%string
  || starts_with (lit "noreply") flattened || starts_with (lit "donotreply") flattened.

Section Operations.
Context {U : Unicode} {RJ : RecipientsJson} {J : StringsJson}.

Definition normalize_id (id : text) : text :=
  to_lowercase (trim (trim_end_matches (Z.eqb 62) (trim_start_matches (Z.eqb 60) (trim id)))).

Definition addresses (json : option text) : list text :=
  List.filter (fun a => negb (is_empty a)) ((fun r => to_lowercase (trim (Cards.addr r))) <$> Messages.parse_recipients_json json).

(** What the queries give of a message. *)
Definition id_of (m : Messages.Row) : text := normalize_id (unwrap_or [] (Messages.json_message_id m)).
Definition from_of (m : Messages.Row) : text := to_ascii_lowercase (unwrap_or [] (Messages.row_from_addr m)).
Definition replies_to (m : Messages.Row) : text := unwrap_or [] (Messages.json_in_reply_to m).

(** [ORDER BY date DESC, uid DESC] *)
Definition newest_first (a b : Messages.Row) : bool :=
  (Messages.row_date b <? Messages.row_date a)
  || ((Messages.row_date a =? Messages.row_date b) && (Messages.row_uid b <=? Messages.row_uid a)).

Definition newest_sent (db : Messages.Db) (acc key : text) (mine : gset text) : option Sent :=
  let rows := order_by newest_first
    (select (fun m => bool_decide (Messages.account m = acc) && negb (Messages.row_uid m =? 0)
                      && bool_decide (Messages.sql_thread_key m = key)) (Messages.messages db)) in
  m ← List.find (fun m => bool_decide (from_of m ∈ mine) && negb (is_empty (id_of m))) rows;
  Some {| s_message_id := id_of m; s_thread_key := key; s_subject := unwrap_or [] (Messages.row_subject m);
          s_recipients := dedup (List.filter (fun a => negb (bool_decide (a ∈ mine)))
                                   (addresses (Messages.json_to m) ++ addresses (Messages.json_cc m)));
          s_date := Messages.row_date m |}.

Definition read (r : AwaitRow) : Row :=
  let list t := unwrap_or [] (strings_from_str t) in
  {| w_account := account r; w_message_id := message_id r; w_thread_key := thread_key r; w_subject := subject r;
     w_recipients := list (recipients r); w_sent_at := sent_at r; w_remind_at := remind_at r; w_state := state r;
     w_not_replies := list (not_replies r); w_confirmed := confirmed r |}.

(** ** Judging a record *)

Definition same_conversation (row : Row) (m : Messages.Row) : bool :=
  bool_decide (Messages.sql_thread_key m = w_thread_key row).

(** [message_id.replace('%', "").replace('_', "\\_")] within wildcards *)
Definition like_of (row : Row) : text :=
  [37] ++ replace_char 95 [92; 95] (replace_char 37 [] (w_message_id row)) ++ [37].

(** [ORDER BY date, uid] *)
Definition oldest_first (a b : Messages.Row) : bool :=
  (Messages.row_date a <? Messages.row_date b)
  || ((Messages.row_date a =? Messages.row_date b) && (Messages.row_uid a <=? Messages.row_uid b)).

Definition later (row : Row) (m : Messages.Row) : bool :=
  bool_decide (Messages.account m = w_account row) && negb (Messages.row_uid m =? 0)
  && (w_sent_at row <=? Messages.row_date m).

Definition queried (row : Row) (m : Messages.Row) : bool :=
  later row m && (same_conversation row m || like (like_of row) (to_ascii_lowercase (replies_to m))).

Definition direct (row : Row) (m : Messages.Row) : bool := bool_decide (normalize_id (replies_to m) = w_message_id row).

Definition evidence_of (row : Row) (m : Messages.Row) : Evidence :=
  {| e_message_id := id_of m; e_from := from_of m; e_date := Messages.row_date m;
     link := if direct row m then lit "direct" else lit "conversation";
     doubt := if looks_automated (from_of m) then lit "automated"
              else if negb (bool_decide (from_of m ∈ w_recipients row)) then lit "notRecipient" else [] |}.

(** The loop over the rows found, with the ids seen. *)
Fixpoint gather (mine : gset text) (row : Row) (seen : gset text) (found : list Messages.Row) : list Evidence :=
  match found with
  | [] => []
  | m :: rest =>
      let id := id_of m in
      if bool_decide (from_of m ∈ mine) || bool_decide (id = w_message_id row)
         || (negb (is_empty id) && bool_decide (id ∈ seen))
      then gather mine row seen rest
      else
        let seen := if is_empty id then seen else {[ id ]} ∪ seen in
        if negb (direct row m) && negb (same_conversation row m) then gather mine row seen rest
        else evidence_of row m :: gather mine row seen rest
  end.

Definition evidence (db : Messages.Db) (row : Row) : list Evidence :=
  gather (CachedConversations.self_addrs db (w_account row)) row ∅
    (order_by oldest_first (select (queried row) (Messages.messages db))).

Definition judge (db : Messages.Db) (row : Row) (now : Z) : Item :=
  let found := evidence db row in
  let answer :=
    if negb (is_empty (w_confirmed row)) then List.find (fun e => bool_decide (e_message_id e = w_confirmed row)) found
    else List.find (fun e => is_empty (doubt e) && negb (bool_decide (e_message_id e ∈ w_not_replies row))) found in
  let possible :=
    match answer with
    | Some _ => []
    | None => List.filter (fun e => negb (is_empty (doubt e)) && negb (bool_decide (e_message_id e ∈ w_not_replies row))) found
    end in
  let status :=
    if bool_decide (w_state row = lit "done") || bool_decide (w_state row = lit "cancelled") then w_state row
    else match answer, possible with
         | Some _, _ => lit "answered"
         | None, _ :: _ => lit "possible"
         | None, [] => lit "waiting"
         end in
  {| i_account := w_account row; i_message_id := w_message_id row; i_thread_key := w_thread_key row;
     i_subject := w_subject row; i_recipients := w_recipients row; i_sent_at := w_sent_at row;
     i_remind_at := w_remind_at row; status := status; answer := answer; possible := possible;
     overdue := bool_decide (status = lit "waiting") && match w_remind_at row with Some at_ => at_ <=? now | None => false end |}.

(** ** The operations *)

Definition is_record (acc id : text) (r : AwaitRow) : bool := bool_decide (account r = acc) && bool_decide (message_id r = id).

Definition with_awaiting (t : list AwaitRow) (db : Db) : Db := {| store := store db; awaiting := t |}.

Definition item (db : Db) (acc id : text) (now : Z) : option Item :=
  r ← query_row (is_record acc (normalize_id id)) (awaiting db); Some (judge (store db) (read r) now).

Definition not_written : text := lit "you have not written in this conversation, so there is nothing to wait for a reply to".
Definition not_future : text := lit "a reminder has to be in the future".
Definition nothing_waited : text := lit "nothing is being waited on for that message".

Definition add (db : Db) (acc key : text) (remind : option Z) (now : Z) : result text (Db * Item) :=
  let mine := CachedConversations.self_addrs (store db) acc in
  sent ← ok_or not_written (newest_sent (store db) acc key mine);
  _ ← ensure (negb match remind with Some at_ => at_ <=? now | None => false end) not_future;
  let row := {| account := acc; message_id := s_message_id sent; thread_key := s_thread_key sent;
                subject := s_subject sent; recipients := strings_to_string (s_recipients sent);
                sent_at := s_date sent; remind_at := remind; reminded_at := None; state := lit "waiting";
                not_replies := lit "[]"; confirmed := []; created_at := now |} in
  let again r := {| account := account r; message_id := message_id r; thread_key := thread_key r; subject := subject r;
                    recipients := recipients r; sent_at := sent_at r; remind_at := remind; reminded_at := None;
                    state := lit "waiting"; not_replies := not_replies r; confirmed := confirmed r;
                    created_at := created_at r |} in
  let db := with_awaiting (upsert (is_record acc (s_message_id sent)) row again (awaiting db)) db in
  it ← ok_or (lit "the record was not kept") (item db acc (s_message_id sent) now);
  Ok (db, it).

Definition list_items (db : Db) (acc : option text) (include_settled : bool) (now : Z) : list Item :=
  (fun r => judge (store db) (read r) now) <$>
  order_by (fun a b => sent_at a <=? sent_at b)
    (select (fun r => match acc with None => true | Some a => bool_decide (account r = a) end
                      && (include_settled || bool_decide (state r = lit "waiting"))) (awaiting db)).

Definition set_state_of (s : text) (r : AwaitRow) : AwaitRow :=
  {| account := account r; message_id := message_id r; thread_key := thread_key r; subject := subject r;
     recipients := recipients r; sent_at := sent_at r; remind_at := remind_at r; reminded_at := reminded_at r;
     state := s; not_replies := not_replies r; confirmed := confirmed r; created_at := created_at r |}.

Definition set_state (db : Db) (acc id s : text) : result text Db :=
  _ ← ensure (existsb (fun k => bool_decide (s = lit k)) ["waiting"; "done"; "cancelled"]%string) (lit "unknown state " ++ s);
  let p := is_record acc (normalize_id id) in
  _ ← ensure (negb (changed p (awaiting db) =? 0)%nat) nothing_waited;
  Ok (with_awaiting (update p (set_state_of s) (awaiting db)) db).

Definition set_ruling (conf not_ : text) (r : AwaitRow) : AwaitRow :=
  {| account := account r; message_id := message_id r; thread_key := thread_key r; subject := subject r;
     recipients := recipients r; sent_at := sent_at r; remind_at := remind_at r; reminded_at := reminded_at r;
     state := state r; not_replies := not_; confirmed := conf; created_at := created_at r |}.

Definition rule_on (db : Db) (acc id candidate : text) (is_answer : bool) : result text Db :=
  let id := normalize_id id in
  let candidate := normalize_id candidate in
  let p := is_record acc id in
  r ← ok_or nothing_waited (query_row p (awaiting db));
  let row := read r in
  let ruling :=
    if is_answer then
      (candidate, List.filter (fun other => negb (bool_decide (other = candidate))) (w_not_replies row))
    else
      (if bool_decide (w_confirmed row = candidate) then [] else w_confirmed row,
       if bool_decide (candidate ∈ w_not_replies row) then w_not_replies row else w_not_replies row ++ [candidate]) in
  Ok (with_awaiting (update p (set_ruling ruling.1 (strings_to_string ruling.2)) (awaiting db)) db).

Definition remove (db : Db) (acc id : text) : Db :=
  with_awaiting (delete_where (is_record acc (normalize_id id)) (awaiting db)) db.

(** ** Reminders *)

Definition is_due (now : Z) (r : AwaitRow) : bool :=
  bool_decide (state r = lit "waiting") && match remind_at r with Some at_ => at_ <=? now | None => false end
  && bool_decide (reminded_at r = None).

Definition reminded (now : Z) (r : AwaitRow) : AwaitRow :=
  {| account := account r; message_id := message_id r; thread_key := thread_key r; subject := subject r;
     recipients := recipients r; sent_at := sent_at r; remind_at := remind_at r; reminded_at := Some now;
     state := state r; not_replies := not_replies r; confirmed := confirmed r; created_at := created_at r |}.

Fixpoint remind_each (now : Z) (rows : list AwaitRow) (db : Db) : Db * list Item :=
  match rows with
  | [] => (db, [])
  | r :: rest =>
      let db := with_awaiting (update (is_record (account r) (message_id r)) (reminded now) (awaiting db)) db in
      let it := judge (store db) (read r) now in
      let (db', due) := remind_each now rest db in
      (db', if bool_decide (status it = lit "waiting") || bool_decide (status it = lit "possible") then it :: due else due)
  end.

Definition due_reminders (db : Db) (now : Z) : Db * list Item :=
  remind_each now (select (is_due now) (awaiting db)) db.
End Operations.
End Awaiting.

(** * What is true of waiting for a reply

    A record is judged by exactly the messages that answer it
    ([judged_by_the_mail]); where the query narrows too much one is missed
    ([an_answer_is_missed]); a reminder is handed out once. *)

(** ** [LIKE] *)

Lemma like_any p t : like (37 :: p)%Z t = true <-> exists a b, t = a ++ b /\ like p b = true.
Proof.
  change (like (37 :: p)%Z t) with
    ((fix any (t : text) : bool := like p t || match t with [] => false | _ :: t' => any t' end) t).
  induction t as [|c t IH]; rewrite orb_true_iff.
  - split; [intros [H|]; [by exists [], []|done]|]. intros (a & b & H & Hb). left.
    by destruct a, b.
  - rewrite IH. split.
    + intros [H|(a & b & -> & Hb)]; [by exists [], (c :: t)|]. by exists (c :: a), b.
    + intros ([|x a] & b & H & Hb); cbn in H; [left; by subst|]. injection H as -> ->. right. by exists a, b.
Qed.

(** An id whose underscores are escaped stands for itself. *)
Lemma like_literal id rest t :
  (37 ∉ id)%Z -> (92 ∉ id)%Z ->
  like (replace_char 95 [92; 95] id ++ rest)%Z t = true <->
  exists a b, t = a ++ b /\ to_ascii_lowercase a = to_ascii_lowercase id /\ like rest b = true.
Proof.
  revert t. induction id as [|c id IH]; intros t Hp Hb.
  - cbn. split; [intros H; by exists [], t|]. intros (a & b & -> & Ha & H). by destruct a.
  - apply not_elem_of_cons in Hp as [Hcp Hp], Hb as [Hcb Hb].
    assert (like (replace_char 95 [92; 95] (c :: id) ++ rest)%Z t =
            match t with a :: t' => same_letter c a && like (replace_char 95 [92; 95] id ++ rest)%Z t' | [] => false end) as ->.
    { unfold replace_char. rewrite bind_cons. destruct (Z.eqb_spec c 95) as [->|Hne].
      - cbn [app]. by destruct t.
      - cbn [app like]. rewrite !(proj2 (Z.eqb_neq _ _)) by done. done. }
    destruct t as [|a t]; [split; [done|]; intros ([] & b & H & Ha & _); done|].
    rewrite andb_true_iff, IH by done. unfold same_letter. rewrite Z.eqb_eq. split.
    + intros (Hc & x & b & -> & Hx & H). exists (a :: x), b. split; [done|]. split; [|done].
      unfold to_ascii_lowercase in *. cbn. by rewrite Hc, Hx.
    + intros ([|y x] & b & Ht & Hx & H); [done|]. injection Ht as -> ->. injection Hx as Hc Hx.
      split; [done|]. by exists x, b.
Qed.

Module AwaitingLaws.
Import Awaiting.
#[local] Open Scope Z_scope.

Section Judged.
Context {U : Unicode} {RJ : RecipientsJson} {J : StringsJson}.
(** What [str::to_lowercase] does to ASCII text. *)
Context (Hlower : forall s, is_ascii s = true -> to_lowercase s = to_ascii_lowercase s).

(** An answer, with no [LIKE]: a later message of the account that is not the
    person's own nor the message itself, and that names it or belongs to its
    conversation. *)
Definition answers (db : Messages.Db) (row : Row) (m : Messages.Row) : Prop :=
  m ∈ Messages.messages db /\ later row m = true /\
  from_of m ∉ CachedConversations.self_addrs db (w_account row) /\ id_of m <> w_message_id row /\
  (direct row m = true \/ same_conversation row m = true).

(** Copies of a message in several folders are one message. *)
Definition copies_agree (db : Messages.Db) (row : Row) : Prop := forall m m',
  m ∈ Messages.messages db -> m' ∈ Messages.messages db -> later row m = true -> later row m' = true ->
  id_of m = id_of m' -> id_of m <> [] ->
  from_of m = from_of m' /\ direct row m = direct row m' /\ same_conversation row m = same_conversation row m'.

Lemma lower_twice s : to_ascii_lowercase (to_ascii_lowercase s) = to_ascii_lowercase s.
Proof.
  unfold to_ascii_lowercase. rewrite <- list_fmap_compose. apply list_fmap_ext. intros i c _. cbn.
  unfold ascii_lower_char, is_ascii_upper. repeat case_match; lia.
Qed.

Lemma is_ascii_app a b : is_ascii (a ++ b) = is_ascii a && is_ascii b.
Proof. apply forallb_app. Qed.

(** A name within a text, whatever the blanks and brackets around it. *)
Lemma normalized_within s : is_ascii s = true ->
  exists a b, to_ascii_lowercase s = a ++ normalize_id s ++ b.
Proof using Hlower.
  intros Hs. unfold normalize_id.
  assert (forall s, exists a b, s = a ++ trim s ++ b) as Htrim.
  { intros s0. unfold trim, trim_end, trim_start. destruct (trim_start_matches_suffix is_whitespace s0) as (a & Ha & _).
    set (s1 := trim_start_matches is_whitespace s0) in *.
    destruct (trim_start_matches_suffix is_whitespace (rev s1)) as (b & Hb & _).
    exists a, (rev b). unfold trim_end_matches. rewrite <- rev_app_distr, <- Hb, rev_involutive. exact Ha. }
  destruct (Htrim s) as (a1 & b1 & H1). set (s1 := trim s) in *.
  destruct (trim_start_matches_suffix (Z.eqb 60) s1) as (a2 & H2 & _).
  set (s2 := trim_start_matches (Z.eqb 60) s1) in *.
  destruct (trim_start_matches_suffix (Z.eqb 62) (rev s2)) as (b2 & H3 & _).
  set (s3 := trim_end_matches (Z.eqb 62) s2).
  assert (s2 = s3 ++ rev b2) as H3'.
  { unfold s3, trim_end_matches. by rewrite <- rev_app_distr, <- H3, rev_involutive. }
  destruct (Htrim s3) as (a4 & b4 & H4). set (core := trim s3) in *. clearbody core.
  assert (s = (a1 ++ a2 ++ a4) ++ core ++ (b4 ++ rev b2 ++ b1)) as Hall.
  { rewrite H1, H2, H3', H4, <- !app_assoc. done. }
  rewrite Hlower.
  - exists (to_ascii_lowercase (a1 ++ a2 ++ a4)), (to_ascii_lowercase (b4 ++ rev b2 ++ b1)).
    rewrite Hall at 1. unfold to_ascii_lowercase. by rewrite !fmap_app.
  - rewrite Hall, !is_ascii_app, !andb_true_iff in Hs. tauto.
Qed.

(** An answer is among the rows the query finds. *)
Lemma direct_queried row m :
  37 ∉ w_message_id row -> 92 ∉ w_message_id row -> is_ascii (replies_to m) = true ->
  later row m = true -> direct row m = true -> queried row m = true.
Proof using Hlower.
  intros Hp Hb Ha Hl Hd%bool_decide_eq_true. unfold queried. rewrite Hl. cbn. apply orb_true_iff. right.
  destruct (normalized_within _ Ha) as (x & y & ->). rewrite Hd. unfold like_of.
  rewrite (replace_char_absent 37 []) by done.
  apply like_any. exists x, (w_message_id row ++ y). split; [done|]. apply like_literal; [done..|].
  exists (w_message_id row), y. split_and!; [done|done|]. apply like_any. exists y, []. by rewrite app_nil_r.
Qed.

Lemma gather_sound mine row l : forall seen e, e ∈ gather mine row seen l ->
  exists m, m ∈ l /\ e = evidence_of row m /\ from_of m ∉ mine /\ id_of m <> w_message_id row /\
            (direct row m = true \/ same_conversation row m = true).
Proof.
  induction l as [|h l IH]; intros seen e; cbn [gather]; [by intros ?%elem_of_nil|].
  assert (forall seen, e ∈ gather mine row seen l -> exists m, m ∈ h :: l /\ e = evidence_of row m /\ from_of m ∉ mine /\
    id_of m <> w_message_id row /\ (direct row m = true \/ same_conversation row m = true)) as Hrest.
  { intros seen' (m & Hm & H)%IH. exists m. split; [by right|done]. }
  destruct (_ || _ || _) eqn:Es; [apply Hrest|]. apply orb_false_iff in Es as [[Hf Hi]%orb_false_iff _].
  apply bool_decide_eq_false in Hf, Hi.
  destruct (negb (direct row h) && negb (same_conversation row h)) eqn:Ed; [apply Hrest|].
  intros [->|H]%elem_of_cons; [|by eapply Hrest]. exists h. split; [by left|]. split_and!; [done..|].
  apply andb_false_iff in Ed as [?%negb_false_iff|?%negb_false_iff]; auto.
Qed.

Lemma gather_complete mine row l m : forall seen,
  (forall x y, x ∈ l -> y ∈ l -> id_of x = id_of y -> id_of x <> [] ->
     direct row x = direct row y /\ same_conversation row x = same_conversation row y) ->
  m ∈ l -> from_of m ∉ mine -> id_of m <> w_message_id row ->
  (direct row m = true \/ same_conversation row m = true) -> (id_of m = [] \/ id_of m ∉ seen) ->
  exists m', m' ∈ l /\ evidence_of row m' ∈ gather mine row seen l /\ id_of m' = id_of m /\ (id_of m = [] -> m' = m).
Proof.
  induction l as [|h l IH]; intros seen Hag Hm Hf Hi Hd Hs; [by apply elem_of_nil in Hm|]. cbn [gather].
  assert (forall seen', m ∈ l -> (id_of m = [] \/ id_of m ∉ seen') -> exists m', m' ∈ h :: l /\
    evidence_of row m' ∈ gather mine row seen' l /\ id_of m' = id_of m /\ (id_of m = [] -> m' = m)) as Hrest.
  { intros seen' Hml Hs'. destruct (IH seen') as (m' & Hm' & H); [|done..|].
    - intros x y Hx Hy. apply Hag; by right.
    - exists m'. split; [by right|done]. }
  destruct (bool_decide (from_of h ∈ mine) || bool_decide (id_of h = w_message_id row)
            || negb (is_empty (id_of h)) && bool_decide (id_of h ∈ seen)) eqn:Es.
  - apply elem_of_cons in Hm as [->|Hm]; [exfalso|by apply Hrest].
    apply orb_true_iff in Es as [[?%bool_decide_eq_true|?%bool_decide_eq_true]%orb_true_iff|[He ?%bool_decide_eq_true]%andb_true_iff];
      [done|done|]. destruct Hs as [Hs|Hs]; [by rewrite Hs in He|done].
  - set (seen' := if is_empty (id_of h) then seen else {[ id_of h ]} ∪ seen).
    destruct (negb (direct row h) && negb (same_conversation row h)) eqn:Ed.
    + apply andb_true_iff in Ed as [Hd1%negb_true_iff Hd2%negb_true_iff].
      apply elem_of_cons in Hm as [->|Hm]; [destruct Hd; congruence|]. apply Hrest; [done|].
      destruct Hs as [Hs|Hs]; [by left|]. unfold seen'. destruct (id_of h) as [|c t] eqn:Eh; [by right|]. cbn.
      destruct (decide (id_of m = c :: t)) as [He|Hne]; [|right; set_solver].
      destruct (Hag m h) as [H1 H2]; [by right|by left|congruence|congruence|]. destruct Hd; congruence.
    + destruct (decide (id_of m = id_of h /\ id_of m <> [])) as [[He Hne]|Hdiff].
      * exists h. split; [by left|]. split; [by left|]. split; [done|]. by intros ?.
      * apply elem_of_cons in Hm as [->|Hm].
        -- exists h. split; [by left|]. split; [by left|done].
        -- destruct (Hrest seen' Hm) as (m' & Hm' & Hin & H); [|exists m'; split; [done|]; split; [by right|done]].
           destruct Hs as [Hs|Hs]; [by left|]. destruct (decide (id_of m = [])) as [?|Hne]; [by left|right].
           unfold seen'. destruct (is_empty (id_of h)); [done|]. set_solver.
Qed.

(** The answers of a record, as the evidence gives them. *)
Lemma evidence_spec db row (P : Evidence -> Prop) :
  37 ∉ w_message_id row -> 92 ∉ w_message_id row ->
  (forall m, m ∈ Messages.messages db -> later row m = true -> is_ascii (replies_to m) = true) ->
  copies_agree db row ->
  (forall m m', id_of m = id_of m' -> from_of m = from_of m' -> P (evidence_of row m) -> P (evidence_of row m')) ->
  (exists e, e ∈ evidence db row /\ P e) <-> (exists m, answers db row m /\ P (evidence_of row m)).
Proof using Hlower.
  intros Hp Hb Ha Hag HP.
  assert (forall m, m ∈ order_by oldest_first (select (queried row) (Messages.messages db)) <->
    m ∈ Messages.messages db /\ queried row m = true) as Hin.
  { intros m. rewrite order_by_perm. apply elem_of_select. }
  assert (forall m, queried row m = true -> later row m = true) as Hlater.
  { intros m. unfold queried. by intros [? _]%andb_true_iff. }
  split.
  - intros (e & He & HPe). apply gather_sound in He as (m & [Hm Hq]%Hin & -> & Hf & Hi & Hd). exists m. split; [|done].
    split_and!; try done. by apply Hlater.
  - intros (m & (Hm & Hl & Hf & Hi & Hd) & HPe).
    assert (queried row m = true) as Hq.
    { destruct Hd as [Hd|Hd]; [by apply direct_queried; auto|]. unfold queried. rewrite Hl, Hd. done. }
    destruct (gather_complete (CachedConversations.self_addrs db (w_account row)) row
                (order_by oldest_first (select (queried row) (Messages.messages db))) m ∅) as (m' & Hm' & Hev & Hid & Hsame).
    + intros x y [Hx Hqx%Hlater]%Hin [Hy Hqy%Hlater]%Hin He Hne. by destruct (Hag x y Hx Hy Hqx Hqy He Hne).
    + by apply Hin.
    + done.
    + done.
    + done.
    + right. set_solver.
    + exists (evidence_of row m'). split; [exact Hev|]. apply Hin in Hm' as [Hm' Hq'%Hlater].
      destruct (decide (id_of m = [])) as [He|Hne]; [by rewrite Hsame|].
      apply (HP m); [done| |done]. by apply (Hag m m' Hm Hm' Hl Hq').
Qed.

Lemma find_exists {A} (p : A -> bool) (l : list A) : is_Some (List.find p l) <-> exists x, x ∈ l /\ p x = true.
Proof.
  split.
  - intros [x H]. apply find_some in H as [Hx Hp]. exists x. by rewrite list_elem_of_In.
  - intros (x & Hx & Hp). destruct (List.find p l) as [y|] eqn:E; [by exists y|].
    apply list_elem_of_In in Hx. rewrite (find_none _ _ E x Hx) in Hp. done.
Qed.

Lemma filter_nonempty {A} (p : A -> bool) (l : list A) : List.filter p l <> [] <-> exists x, x ∈ l /\ p x = true.
Proof.
  split.
  - destruct (List.filter p l) as [|x r] eqn:E; [done|]. intros _. exists x.
    rewrite list_elem_of_In. apply filter_In. rewrite E. by left.
  - intros (x & Hx & Hp) He. apply list_elem_of_In in Hx. assert (In x (List.filter p l)) as H by by apply filter_In.
    by rewrite He in H.
Qed.

(** A sure answer, and one that is only possible. *)
Definition sure (row : Row) (e : Evidence) : Prop := doubt e = [] /\ e_message_id e ∉ w_not_replies row.
Definition doubtful (row : Row) (e : Evidence) : Prop := doubt e <> [] /\ e_message_id e ∉ w_not_replies row.

(** A record is judged by exactly the messages that answer it.  For a
    record the person has neither settled nor ruled on, and whose id has
    neither a percent sign nor a backslash: it is answered if some message
    that answers it comes from a recipient who reads replies and was not
    ruled out, possibly answered if there is none and one that is in doubt
    was not ruled out, and waiting otherwise.  The query, the order of the
    messages and their copies in several folders make no difference. *)
Theorem judged_by_the_mail db row now :
  37 ∉ w_message_id row -> 92 ∉ w_message_id row ->
  (forall m, m ∈ Messages.messages db -> later row m = true -> is_ascii (replies_to m) = true) ->
  copies_agree db row -> w_confirmed row = [] -> w_state row <> lit "done" -> w_state row <> lit "cancelled" ->
  let found P := exists m, answers db row m /\ P (evidence_of row m) in
  (status (judge db row now) = lit "answered" <-> found (sure row)) /\
  (status (judge db row now) = lit "possible" <-> ~ found (sure row) /\ found (doubtful row)) /\
  (status (judge db row now) = lit "waiting" <-> ~ found (sure row) /\ ~ found (doubtful row)).
Proof using Hlower.
  intros Hp Hb Ha Hag Hc Hd1 Hd2 found.
  assert (forall m m', id_of m = id_of m' -> from_of m = from_of m' ->
    doubt (evidence_of row m) = doubt (evidence_of row m') /\
    e_message_id (evidence_of row m) = e_message_id (evidence_of row m')) as Hsame.
  { intros m m' Hi Hf. unfold evidence_of. cbn. by rewrite Hi, Hf. }
  pose proof (evidence_spec db row (sure row) Hp Hb Ha Hag) as Hsure.
  pose proof (evidence_spec db row (doubtful row) Hp Hb Ha Hag) as Hdoubt.
  fold (found (sure row)) in Hsure. fold (found (doubtful row)) in Hdoubt.
  rewrite <- Hsure by (intros m m' Hi Hf [H1 H2]; unfold sure; by destruct (Hsame m m' Hi Hf) as [<- <-]).
  rewrite <- Hdoubt by (intros m m' Hi Hf [H1 H2]; unfold doubtful; by destruct (Hsame m m' Hi Hf) as [<- <-]).
  clear Hsure Hdoubt Hsame. unfold judge. rewrite Hc. cbn [is_empty negb status].
  rewrite !(bool_decide_false (w_state row = _)) by done. cbn [orb].
  set (fd := List.find _ _).
  assert (is_Some fd <-> exists e, e ∈ evidence db row /\ sure row e) as Hfd.
  { unfold fd. rewrite find_exists. apply exist_proper. intros e. unfold sure.
    rewrite andb_true_iff, negb_true_iff, bool_decide_eq_false. unfold is_empty. destruct (doubt e); naive_solver. }
  rewrite <- Hfd. destruct fd as [e|].
  { assert (is_Some (Some e)) by (by exists e). naive_solver. }
  assert (~ is_Some (None : option Evidence)) as Hn by (by intros []).
  set (ps := List.filter _ _).
  assert (ps <> [] <-> exists e, e ∈ evidence db row /\ doubtful row e) as Hps.
  { unfold ps. rewrite filter_nonempty. apply exist_proper. intros e. unfold doubtful.
    rewrite andb_true_iff, !negb_true_iff, bool_decide_eq_false. unfold is_empty. destruct (doubt e); naive_solver. }
  rewrite <- Hps. destruct ps as [|e ps]; naive_solver.
Qed.

(** ** Reminders *)

Lemma remind_each_marks now rows : forall db r,
  r ∈ awaiting (remind_each now rows db).1 -> reminded_at r = None ->
  r ∈ awaiting db /\ forall q, q ∈ rows -> is_record (account q) (message_id q) r = false.
Proof.
  induction rows as [|q rows IH]; intros db r; cbn [remind_each]; [intros H _; split; [done|]; by intros q ?%elem_of_nil|].
  destruct (remind_each now rows _) as [db' due] eqn:E. cbn [fst]. intros Hr Hn.
  destruct (IH (with_awaiting (update (is_record (account q) (message_id q)) (reminded now) (awaiting db)) db) r) as [Hin Hq];
    [by rewrite E|done|]. cbn in Hin. apply elem_of_update in Hin as (x & Hx & ->).
  destruct (is_record (account q) (message_id q) x) eqn:Ex; [done|]. split; [done|].
  intros y [->|Hy]%elem_of_cons; [done|by apply Hq].
Qed.

(** What was handed out is marked, and is not due again until it is asked for anew. *)
Lemma reminded_once db now now' r :
  r ∈ select (is_due now) (awaiting db) ->
  r ∉ select (is_due now') (awaiting (due_reminders db now).1) /\
  forall r', r' ∈ select (is_due now') (awaiting (due_reminders db now).1) -> is_record (account r) (message_id r) r' = false.
Proof.
  intros Hr. assert (forall r', r' ∈ select (is_due now') (awaiting (due_reminders db now).1) ->
    is_record (account r) (message_id r) r' = false) as Hall.
  { intros r' [Hin Hd]%elem_of_select. unfold is_due in Hd.
    apply andb_true_iff in Hd as [_ Hn%bool_decide_eq_true].
    by apply (remind_each_marks now _ db r' Hin Hn). }
  split; [|exact Hall]. intros Hin. specialize (Hall r Hin). unfold is_record in Hall.
  by rewrite !bool_decide_true in Hall.
Qed.
End Judged.

(** ** A mailbox *)

#[local] Existing Instance ascii_unicode.
#[local] Instance no_recipients : RecipientsJson := fun _ => None.

(** The person, Ann, waits for Bob's answer to the message [id]. *)
Definition waiting_for (id : text) : Row :=
  {| w_account := lit "ann"; w_message_id := id; w_thread_key := lit "t1"; w_subject := lit "Sale";
     w_recipients := [lit "bob@example.org"]; w_sent_at := 100; w_remind_at := None; w_state := lit "waiting";
     w_not_replies := []; w_confirmed := [] |}.

(** Bob's answer, which the server filed in a conversation of its own. *)
Definition bobs_answer (id : text) : Messages.Row :=
  {| Messages.id := 1; Messages.account := lit "ann"; Messages.row_folder := lit "INBOX"; Messages.msg_id := lit "7";
     Messages.row_uid := 7; Messages.row_subject := Some (lit "Your sale"); Messages.row_from_name := Some (lit "Bob");
     Messages.row_from_addr := Some (lit "Bob@Example.org"); Messages.row_date := 200; Messages.row_seen := 0;
     Messages.row_starred := 0; Messages.row_thread_key := Some (lit "t2"); Messages.json_to := None;
     Messages.json_cc := None; Messages.json_message_id := Some (lit "<b1@example.org>");
     Messages.json_in_reply_to := Some (lit "<" ++ id ++ lit ">"); Messages.row_has_attachments := None;
     Messages.row_priority := None; Messages.row_category := None |}.

Definition mailbox (id : text) : Messages.Db :=
  {| Messages.messages := [bobs_answer id]; Messages.thread_labels := []; Messages.folders := [];
     Messages.snoozed_threads_table := []; Messages.folder_state := [];
     Messages.accounts := [{| Messages.a_id := lit "ann"; Messages.engine := lit "mail";
                              Messages.email := Some (lit "ann@example.org"); Messages.aliases := [] |}] |}.

Lemma bob_answers id :
  answers (mailbox id) (waiting_for id) (bobs_answer id) <->
  id_of (bobs_answer id) <> id /\ normalize_id (lit "<" ++ id ++ lit ">") = id.
Proof.
  unfold answers. split.
  - intros (_ & _ & _ & Hi & [Hd|Hd]); [|by vm_compute in Hd]. split; [done|]. by apply bool_decide_eq_true in Hd.
  - intros [Hi Hd]. split; [by left|]. split; [by vm_compute|].
    split; [apply (bool_decide_unpack _); vm_compute; exact I|]. split; [done|]. left. by apply bool_decide_eq_true.
Qed.

(** Bob's answer. *)
Lemma judged_by_the_mail_witness :
  status (judge (mailbox (lit "s1@example.org")) (waiting_for (lit "s1@example.org")) 300) = lit "answered".
Proof.
  refine (proj2 (proj1 (judged_by_the_mail (fun s _ => eq_refl) (mailbox (lit "s1@example.org"))
    (waiting_for (lit "s1@example.org")) 300 _ _ _ _ eq_refl _ _)) _).
  - apply (bool_decide_unpack _). vm_compute. exact I.
  - apply (bool_decide_unpack _). vm_compute. exact I.
  - intros m Hm%list_elem_of_singleton _. subst m. by vm_compute.
  - intros m m' Hm%list_elem_of_singleton Hm'%list_elem_of_singleton _ _ _ _. by subst.
  - done.
  - done.
  - exists (bobs_answer (lit "s1@example.org")). split.
    + apply bob_answers. split; [done|by vm_compute].
    + split; [by vm_compute|]. by intros ?%elem_of_nil.
Defined.

(** An answer is missed when the id has a percent sign.  The query for
    messages that name the record's id takes the percent signs out of the
    id, so a message of another conversation whose [In-Reply-To] is that very
    id is not found: the record stays waiting, and overdue, though it was
    answered directly. *)
Theorem an_answer_is_missed :
  let id := lit "50%off@example.org" in
  answers (mailbox id) (waiting_for id) (bobs_answer id) /\
  sure (waiting_for id) (evidence_of (waiting_for id) (bobs_answer id)) /\
  status (judge (mailbox id) (waiting_for id) 300) = lit "waiting".
Proof.
  intros id. split_and!.
  - apply bob_answers. split; [done|by vm_compute].
  - split; [by vm_compute|]. by intros ?%elem_of_nil.
  - by vm_compute.
Qed.
End AwaitingLaws.
