(* ===== verification/Reminders.v ===== *)
(** * Reminders of events

    Models [meron-core/src/calendar/reminders.rs], the records of reminders
    given in [calendar/mod.rs] ([mark_reminder_fired],
    [forget_old_reminders]) and the looks of [pim/reminders.rs]: when an
    event's reminder rings in the zone the machine is in, which reminders a
    look gives, what it records, and the missed ones kept until they were
    shown.

    The tables are [calendars], [calendar_events], [calendar_reminders_fired]
    and [meta]; of an event, the columns [candidates] reads.  The zone is
    [Recurrence]'s; the list of missed reminders is kept as JSON, the class
    [MissedJson]. *)
From S2P Require Import Prelude.
From S2P Require Import Text.
From S2P Require Import Table.
From S2P Require Import Program.
From S2P Require Import Calendar.
From S2P Require Import Recurrence.
#[local] Open Scope Z_scope.

Module Reminders.

Definition MAX_GAP : Z := 14 * 86400.
Definition ZONE_SLACK : Z := 2 * 86400.
Definition GIVEN_KEPT : Z := MAX_GAP + ZONE_SLACK.
Definition ZERO_LENGTH_ON : Z := 60.
Definition REREAD_RETRY : Z := 15 * 60.

(** The columns of an event a look reads. *)
Record Event := {
  calendar_id : text; id : text; subject : text; start : Z; end_ : Z; all_day : bool;
  location : option text; reminder_minutes : option Z; my_response : text
}.

#[export] Instance Event_eq_dec : EqDecision Event.
Proof. solve_decision. Defined.

Inductive CalendarKind := Account | Local | Subscribed | CalDav.

#[export] Instance CalendarKind_eq_dec : EqDecision CalendarKind.
Proof. solve_decision. Defined.

(** [CalendarKind::parse] *)
Definition kind_of (value : text) : CalendarKind :=
  if bool_decide (value = lit "local") then Local
  else if bool_decide (value = lit "subscribed") then Subscribed
  else if bool_decide (value = lit "caldav") then CalDav
  else Account.

Record CalendarRow := { c_account : text; provider_id : text; enabled : bool; kind : text; synced_at : Z }.
Record EventRow := { e_account : text; event : Event; is_cancelled : bool }.
Record Fired := { f_account : text; f_key : text; fired_at : Z }.

(** A missed reminder whose notice was not shown yet. *)
Record Missed := { m_account : text; m_key : text; m_event : Event }.

#[export] Instance Missed_eq_dec : EqDecision Missed.
Proof. solve_decision. Defined.

Record Db := {
  calendars : list CalendarRow;
  calendar_events : list EventRow;
  fired : list Fired;
  meta : gmap text text
}.

Definition set_fired (t : list Fired) (db : Db) : Db :=
  {| calendars := calendars db; calendar_events := calendar_events db; fired := t; meta := meta db |}.

Definition set_meta (t : gmap text text) (db : Db) : Db :=
  {| calendars := calendars db; calendar_events := calendar_events db; fired := fired db; meta := t |}.

(** [serde_json] on the list of missed reminders. *)
Class MissedJson := { write_json : list Missed -> text; read_json : text -> option (list Missed) }.
Class MissedJsonLaws (J : MissedJson) := { reads_back : forall l, read_json (write_json l) = Some l }.

(** ** When a reminder rings *)

Record Timing := { fire_at : Z; t_start : Z; t_end : Z }.

#[export] Instance Timing_eq_dec : EqDecision Timing.
Proof. solve_decision. Defined.

Section Zones.
Context `{Calendar}.

(** [FixedOffset::east_opt(offset)], UTC where there is none. *)
Definition fixed_offset (offset : Z) : Zone :=
  let o := if (-86400 <? offset) && (offset <? 86400) then offset else 0 in
  {| local_at := fun t => t + o + 86400 * Recurrence.epoch;
     earliest := fun n => Some (n - o - 86400 * Recurrence.epoch) |}.

Definition local_midnight (zone : Zone) (utc_date : Z) : option Z :=
  if bool_decide (in_range (utc_date / 86400 + Recurrence.epoch))
  then @Recurrence.resolve zone ((utc_date / 86400 + Recurrence.epoch) * 86400)
  else None.

Definition timing (zone : Zone) (e : Event) : option Timing :=
  minutes ← reminder_minutes e;
  let minutes := Z.max minutes 0 in
  '(s, en) ← (if all_day e then
      s ← local_midnight zone (start e);
      Some (s, match local_midnight zone (end_ e) with
               | Some en => if s <? en then en else s + 86400
               | None => s + 86400
               end)
    else if start e <? end_ e then Some (start e, end_ e)
    else Some (start e, start e + ZERO_LENGTH_ON));
  Some {| fire_at := s - minutes * 60; t_start := s; t_end := en |}.

(** [zone.offset_from_utc_datetime(at)], in seconds *)
Definition offset_at (zone : Zone) (at_ : Z) : option Z :=
  (fun local => local - (at_ + 86400 * Recurrence.epoch)) <$> @Recurrence.local_of _ zone at_.

(** ** Looks *)

Record Previous := { p_at : Z; p_offset : Z }.

Definition previous_zone (p : Previous) : Zone := fixed_offset (p_offset p).

Definition zone_changed (p : Previous) (zone : Zone) : bool :=
  negb (bool_decide (offset_at zone (p_at p) = Some (p_offset p))).

Definition look_key (account : text) : text := lit "reminders.look:" ++ account.
Definition reread_key (account : text) : text := lit "reminders.reread:" ++ account.
Definition MISSED_KEY : text := lit "reminders.missed".

Definition parse_i64 : text -> option Z := parse_signed (- 2 ^ 63) (2 ^ 63 - 1).
Definition parse_i32 : text -> option Z := parse_signed (- 2 ^ 31) (2 ^ 31 - 1).

Definition previous_look (db : Db) (account : text) : option Previous :=
  value ← meta db !! look_key account;
  '(at_, offset) ← split_once 32 value;
  at_ ← parse_i64 at_; offset ← parse_i32 offset;
  Some {| p_at := at_; p_offset := offset |}.

Definition record_look (db : Db) (account : text) (now : Z) (zone : Zone) : Db :=
  let offset := unwrap_or 0 (offset_at zone now) in
  set_meta (<[look_key account := show_Z now ++ 32 :: show_Z offset]> (meta db)) db.

(** ** The missed reminders not yet shown *)

Context {J : MissedJson}.

(** [format!("{event_id}@{start}")] *)
Definition record_key (event_id : text) (at_ : Z) : text := event_id ++ 64 :: show_Z at_.

Definition missed_key (e : Event) : text := record_key (id e) (start e).

Definition pending_missed (db : Db) : list Missed := unwrap_or [] (meta db !! MISSED_KEY ≫= read_json).

Definition write_missed (missed : list Missed) (db : Db) : Db :=
  if is_nil missed then set_meta (delete MISSED_KEY (meta db)) db
  else set_meta (<[MISSED_KEY := write_json missed]> (meta db)) db.

Definition has_record (account key : text) (f : Fired) : bool :=
  bool_decide (f_account f = account) && bool_decide (f_key f = key).

Definition mark_reminder_fired (account event_id : text) (at_ now : Z) (db : Db) : Db :=
  let key := record_key event_id at_ in
  set_fired (insert_or_replace (has_record account key)
    {| f_account := account; f_key := key; fired_at := now |} (fired db)) db.

Definition is_missed (account key : text) (m : Missed) : bool :=
  bool_decide (m_account m = account) && bool_decide (m_key m = key).

Definition give_missed (account : text) (e : Event) (now : Z) (db : Db) : Db :=
  let db1 := mark_reminder_fired account (id e) (start e) now db in
  let key := missed_key e in
  let kept := base.filter (fun m =>
    (now - MAX_GAP <=? Z.max (end_ (m_event m)) (start (m_event m))) && negb (is_missed account key m) = true)
    (pending_missed db1) in
  write_missed (kept ++ [{| m_account := account; m_key := key; m_event := e |}]) db1.

Definition missed_shown (shown : list (text * text)) (db : Db) : Db :=
  let missed := pending_missed db in
  let left := base.filter (fun m => existsb (fun '(a, k) => is_missed a k m) shown = false) missed in
  if bool_decide (length left = length missed) then db else write_missed left db.

Definition forget_looks (account : text) (db : Db) : Db :=
  let db1 := set_meta (delete (look_key account) (delete (reread_key account) (meta db))) db in
  let missed := pending_missed db1 in
  if existsb (fun m => bool_decide (m_account m = account)) missed
  then write_missed (base.filter (fun m => m_account m <> account) missed) db1
  else db1.

(** ** Reading floating times again *)

Definition floating_calendars (db : Db) (account : text) : list CalendarRow :=
  base.filter (fun c => enabled c && (bool_decide (kind_of (kind c) = CalDav) || bool_decide (kind_of (kind c) = Subscribed)) = true)
    (select (fun c => bool_decide (c_account c = account)) (calendars db)).

Definition mark_reread (account : text) (since : Z) (db : Db) : Db :=
  set_meta (<[reread_key account := show_Z since ++ lit " 0"]> (meta db)) db.

Definition read_reread (db : Db) (account : text) : option (Z * Z) :=
  value ← meta db !! reread_key account;
  '(since, asked) ← split_once 32 value;
  since ← parse_i64 since; asked ← parse_i64 asked;
  Some (since, asked).

Definition reread_due (account : text) (now : Z) (db : Db) : Db * option Z :=
  match read_reread db account with
  | None => (db, None)
  | Some (since, asked) =>
      if forallb (fun c => since <=? synced_at c) (floating_calendars db account)
      then (set_meta (delete (reread_key account) (meta db)) db, None)
      else if negb (asked =? 0) && (asked <=? now) && (now - asked <? REREAD_RETRY) then (db, None)
      else (set_meta (<[reread_key account := show_Z since ++ 32 :: show_Z now]> (meta db)) db, Some since)
  end.

(** ** What is due *)

(** [NOT EXISTS (SELECT 1 FROM calendar_reminders_fired ...)] *)
Definition unrecorded (db : Db) (r : EventRow) : bool :=
  negb (existsb (fun f => bool_decide (f_account f = e_account r) &&
                          (bool_decide (f_key f = missed_key (event r)) || bool_decide (f_key f = id (event r))))
          (fired db)).

(** [c.account = e.account AND c.provider_id = e.calendar_id AND c.enabled = 1] *)
Definition shown_in (r : EventRow) (c : CalendarRow) : bool :=
  bool_decide (c_account c = e_account r) && bool_decide (provider_id c = calendar_id (event r)) && enabled c.

(** The conditions of [candidates] on an event, its window apart. *)
Definition can_ring (db : Db) (account : text) (r : EventRow) : bool :=
  bool_decide (e_account r = account) && bool_decide (is_Some (reminder_minutes (event r))) &&
  negb (is_cancelled r) && unrecorded db r.

Definition in_window (from to : Z) (e : Event) : bool :=
  (from <=? Z.max (end_ e) (start e)) && (start e - Z.max (unwrap_or 0 (reminder_minutes e)) 0 * 60 <=? to).

(** [ORDER BY start_utc, event_id] *)
Definition by_start (a b : Event) : bool :=
  (start a <? start b) || ((start a =? start b) && text_le (id a) (id b)).

Definition candidates (db : Db) (account : text) (from to : Z) : list Event :=
  order_by by_start
    (r ← calendar_events db;
     _ ← select (shown_in r) (calendars db);
     if can_ring db account r && in_window from to (event r) then [event r] else []).

Definition declined (e : Event) : bool :=
  let answer := to_ascii_lowercase (my_response e) in
  bool_decide (answer = lit "decline") || bool_decide (answer = lit "declined").

Record Due := { d_event : Event; d_timing : Timing; d_missed : bool }.

#[export] Instance Due_eq_dec : EqDecision Due.
Proof. solve_decision. Defined.

(** How far the previous look is believed. *)
Definition believed (now : Z) (p : Previous) : Previous :=
  {| p_at := Z.max (Z.min (p_at p) now) (now - MAX_GAP); p_offset := p_offset p |}.

(** The body of the loop of [due]. *)
Definition due_of (now : Z) (zone : Zone) (moved : bool) (previous : option Previous) (e : Event) : option Due :=
  now_timing ← timing zone e;
  if now <? fire_at now_timing then None else
  let ahead := now <=? t_start now_timing in
  let came_due_since := is_some_and (fun p =>
    is_some_and (fun then_ => p_at p <? fire_at then_)
      (if moved then timing (previous_zone p) e else Some now_timing)) previous in
  if ahead || came_due_since then
    let missed := negb ahead && (t_end now_timing <=? now) in
    if missed && declined e then None
    else Some {| d_event := e; d_timing := now_timing; d_missed := missed |}
  else None.

Definition due_before (a b : Due) : bool :=
  (t_start (d_timing a) <? t_start (d_timing b)) ||
  ((t_start (d_timing a) =? t_start (d_timing b)) && text_le (id (d_event a)) (id (d_event b))).

Definition due (db : Db) (account : text) (now : Z) (zone : Zone) (previous : option Previous) : list Due :=
  let moved := is_some_and (fun p => zone_changed p zone) previous in
  let previous := believed now <$> previous in
  let from := match previous with Some p => p_at p | None => now end in
  order_by due_before
    (omap (due_of now zone moved previous) (candidates db account (from - ZONE_SLACK) (now + ZONE_SLACK))).

(** ** Records long past *)

(** [SELECT 1 FROM calendar_events WHERE account AND event_id AND start_utc] *)
Definition stored_at (db : Db) (account event_id : text) (at_ : Z) : bool :=
  existsb (fun r => bool_decide (e_account r = account) && bool_decide (id (event r) = event_id) &&
                    (start (event r) =? at_)) (calendar_events db).

(** The start a record is kept for: that of its event, while it is stored. *)
Definition start_of (db : Db) (f : Fired) : option Z :=
  '(event_id, at_) ← rsplit_once 64 (f_key f);
  at_ ← parse_i64 at_;
  if stored_at db (f_account f) event_id at_ then Some at_ else None.

Definition forget_old_reminders (now : Z) (db : Db) : Db :=
  let cutoff := now - GIVEN_KEPT in
  let old := select (fun f => fired_at f <? cutoff) (fired db) in
  foldl (fun d f =>
    if is_none_or (fun s => s <? cutoff) (start_of d f)
    then set_fired (delete_where (has_record (f_account f) (f_key f)) (fired d)) d
    else d) db old.

(** ** Looks of the hosts *)

Record Detail := {
  g_account : text; g_event : text; g_subject : text; g_location : option text; g_start : Z; g_all_day : bool;
  g_minutes : option Z; local_time : option text; started : bool; local_date : option text
}.

(** chrono's [%Y-%m-%d] *)
Context {show_ymd : Z -> text}.

Definition two_digits (n : Z) : text := [48 + n / 10; 48 + n mod 10].

(** [%H:%M] of a wall clock time *)
Definition hh_mm (naive : Z) : text :=
  let seconds := naive mod 86400 in
  two_digits (seconds / 3600) ++ 58 :: two_digits (seconds mod 3600 / 60).

Definition event_date (e : Event) (zone : Zone) : option Z :=
  if all_day e then
    if bool_decide (in_range (start e / 86400 + Recurrence.epoch)) then Some (start e / 86400 + Recurrence.epoch) else None
  else Recurrence.date_of <$> @Recurrence.local_of _ zone (start e).

Definition reminder_detail (account : text) (e : Event) (zone : Zone) (now : Z) : Detail :=
  let in_zone := @Recurrence.local_of _ zone in
  let today := Recurrence.date_of <$> in_zone now in
  let date := event_date e zone in
  {| g_account := account; g_event := id e; g_subject := subject e; g_location := location e; g_start := start e;
     g_all_day := all_day e; g_minutes := reminder_minutes e;
     local_time := if all_day e then None else hh_mm <$> in_zone (start e);
     started := match timing zone e with Some t => t_start t | None => start e end <? now;
     local_date := if bool_decide (date = today) then None else show_ymd <$> date |}.

Definition MISSED_DETAILED : nat := 20.

Record Notice := {
  n_count : nat; n_keys : list (text * text); n_day : option text; n_first_day : option text;
  n_reminders : list (Detail * text * Z)
}.

(** Newest first, then by account and key. *)
Definition newest_first (a b : Z * Missed) : bool :=
  (b.1 <? a.1) ||
  ((b.1 =? a.1) &&
   ((negb (bool_decide (m_account a.2 = m_account b.2)) && text_le (m_account a.2) (m_account b.2)) ||
    (bool_decide (m_account a.2 = m_account b.2) && text_le (m_key a.2) (m_key b.2)))).

Definition missed_notice (missed : list Missed) (zone : Zone) (now : Z) : option Notice :=
  let missed := order_by newest_first
    ((fun m => (match timing zone (m_event m) with Some t => t_start t | None => start (m_event m) end, m)) <$> missed) in
  let date m := show_ymd <$> event_date (m_event m) zone in
  newest ← head missed; oldest ← last missed;
  Some {| n_count := length missed; n_keys := (fun am => (m_account am.2, m_key am.2)) <$> missed;
          n_day := date newest.2; n_first_day := date oldest.2;
          n_reminders := (fun am => (reminder_detail (m_account am.2) (m_event am.2) zone now, m_key am.2, am.1))
            <$> take MISSED_DETAILED missed |}.

Record Reread := { r_account : text; r_from : Z; r_to : Z }.

Definition reread_since (account : text) (since : Z) : Reread :=
  {| r_account := account; r_from := since - 86400 * 31; r_to := since + 86400 * 366 |}.

Record Look := { reminders : list Detail; missed : option Notice; reread : list Reread }.

Inductive MissedMode := Gather | Leave.

(** What a look asks of the store. *)
Inductive Ev : Type -> Type :=
| IsPaused (account : text) : Ev bool
| IsMuted (account : text) : Ev bool
| PreviousLook (account : text) : Ev (result text (option Previous))
| FloatingCalendars (account : text) : Ev (result text (list CalendarRow))
| MarkReread (account : text) (since : Z) : Ev (result text unit)
| RereadDue (account : text) (now : Z) : Ev (result text (option Z))
| AskDue (account : text) (now : Z) (zone : Zone) (previous : option Previous) : Ev (result text (list Due))
| GiveMissed (account : text) (e : Event) (now : Z) : Ev (result text unit)
| MarkFired (account event_id : text) (at_ now : Z) : Ev (result text unit)
| RecordLook (account : text) (now : Z) (zone : Zone) : Ev (result text unit)
| PendingMissed : Ev (result text (list Missed)).

(** What a look has so far: whether missed ones were gathered, and what it
    answers. *)
Record Sofar := { gathered : bool; given : list Detail; to_reread : list Reread }.

Definition with_reread (r : Reread) (s : Sofar) : Sofar :=
  {| gathered := gathered s; given := given s; to_reread := to_reread s ++ [r] |}.
Definition with_given (d : Detail) (s : Sofar) : Sofar :=
  {| gathered := gathered s; given := given s ++ [d]; to_reread := to_reread s |}.
Definition with_gathered (s : Sofar) : Sofar :=
  {| gathered := true; given := given s; to_reread := to_reread s |}.

(** [if let Ok(Some(since)) = reread_due(...)] *)
Definition with_asked (account : text) (r : result text (option Z)) (s : Sofar) : Sofar :=
  match r with Ok (Some since) => with_reread (reread_since account since) s | _ => s end.

#[local] Open Scope prog_scope.

(** One reminder that is due. *)
Definition give_one (account : text) (now : Z) (zone : Zone) (mode : MissedMode) (d : Due) (cs : bool * Sofar)
  : prog Ev (bool * Sofar) :=
  let '(complete, s) := cs in
  if d_missed d && (match mode with Leave => true | Gather => false end) then Ret cs else
  g <- (if d_missed d then call (GiveMissed account (d_event d) now)
        else call (MarkFired account (id (d_event d)) (start (d_event d)) now)) ;;
  match g with
  | Err _ => Ret (false, s)
  | Ok _ => Ret (complete, if d_missed d then with_gathered s
                           else with_given (reminder_detail account (d_event d) zone now) s)
  end.

(** What is due on an account that is neither paused nor muted. *)
Definition give_all (account : text) (now : Z) (zone : Zone) (mode : MissedMode) (previous : option Previous)
    (cs : bool * Sofar) : prog Ev (bool * Sofar) :=
  d <- call (AskDue account now zone previous) ;;
  match d with
  | Ok due => for_each due cs (give_one account now zone mode)
  | Err _ => Ret (false, cs.2)
  end.

(** After a change of zone, that the floating calendars are to be read again. *)
Definition note_zone (account : text) (now : Z) (zone : Zone) (previous : option Previous) : prog Ev bool :=
  if is_some_and (fun p => zone_changed p zone) previous then
    c <- call (FloatingCalendars account) ;;
    match c with
    | Ok [] => Ret true
    | Ok _ => r <- call (MarkReread account now) ;; Ret (is_ok r)
    | Err _ => Ret false
    end
  else Ret true.

Definition look_account (now : Z) (zone : Zone) (mode : MissedMode) (account : text) (s : Sofar) : prog Ev Sofar :=
  paused <- call (IsPaused account) ;;
  quiet <- (if (paused : bool) then Ret true else call (IsMuted account)) ;;
  previous <- call (PreviousLook account) ;;
  match previous with
  | Err _ => Ret s
  | Ok previous =>
      complete <- note_zone account now zone previous ;;
      s <- (if (paused : bool) then Ret s else
          r <- call (RereadDue account now) ;;
          Ret (with_asked account r s)) ;;
      cs <- (if (quiet : bool) then Ret (complete, s) else give_all account now zone mode previous (complete, s)) ;;
      let '(complete, s) := cs in
      if complete : bool then _ <- call (RecordLook account now zone) ;; Ret s else Ret s
  end.

Definition look_for (accounts : list text) (now : Z) (zone : Zone) (mode : MissedMode) : prog Ev Look :=
  s <- for_each accounts {| gathered := false; given := []; to_reread := [] |} (look_account now zone mode) ;;
  if gathered s then
    p <- call PendingMissed ;;
    Ret {| reminders := given s; missed := ok p ≫= (fun m => missed_notice m zone now); reread := to_reread s |}
  else Ret {| reminders := given s; missed := None; reread := to_reread s |}.

(** [look] of the desktop and [take_due] of the phone. *)
Definition look (accounts : list text) (now : Z) (zone : Zone) : prog Ev Look := look_for accounts now zone Gather.
Definition take_due (accounts : list text) (now : Z) (zone : Zone) : prog Ev (list Detail) :=
  l <- look_for accounts now zone Leave ;; Ret (reminders l).

(** [pending_missed_notice]: what a host that starts says again. *)
Definition pending_missed_notice (now : Z) (zone : Zone) : prog Ev (option Notice) :=
  p <- call PendingMissed ;; Ret (ok p ≫= (fun m => missed_notice m zone now)).
End Zones.
End Reminders.
