(* ===== verification/ReminderLaws.v ===== *)
(** * What is true of reminders

    The window a look searches loses nothing ([a_look_is_exact]); the reminder of an
    event that stays where it is is given at most once, wherever looks stop
    and whatever statement fails ([a_reminder_is_given_once]); one that comes
    due between two looks is told by the second ([a_reminder_is_told]).  An
    event kept in two calendars of an account is told twice at once
    ([two_calendars_ring_twice]). *)
From S2P Require Import Prelude.
From S2P Require Import Text.
From S2P Require Import Table.
From S2P Require Import Program.
From S2P Require Import Calendar.
From S2P Require Import Recurrence.
From S2P Require Import Reminders.
#[local] Open Scope Z_scope.

Module ReminderLaws.
Import Reminders.

(** A wall clock is less than a day from UTC. *)
Definition near `{Calendar} (zone : Zone) : Prop := forall n t,
  @earliest zone n = Some t -> Z.abs (t - (n - 86400 * Recurrence.epoch)) <= 86400.

Section Timings.
Context `{Calendar}.

Lemma fixed_near offset : near (fixed_offset offset).
Proof.
  intros n t. cbn. intros [= <-].
  destruct ((-86400 <? offset) && (offset <? 86400)) eqn:E; bools in E; lia.
Qed.

Lemma first_existing_near zone n l t : near zone -> Forall (fun k => 0 <= k <= 4) l ->
  @Recurrence.first_existing zone n l = Some t -> -86400 <= t - (n - 86400 * Recurrence.epoch) <= 93600.
Proof.
  intros Hz. induction 1 as [|k l Hk _ IH]; cbn; [done|].
  destruct (earliest (n + 1800 * k)) as [a|] eqn:E; [|done]. intros [= <-]. apply Hz in E. lia.
Qed.

Lemma local_midnight_near zone d t : near zone -> local_midnight zone d = Some t -> d - 172799 <= t <= d + 93600.
Proof.
  intros Hz. unfold local_midnight, Recurrence.resolve. case_match; [|done].
  pose proof (Z.mod_pos_bound d 86400 ltac:(lia)). pose proof (Z.div_mod d 86400 ltac:(lia)).
  set (n := (d / 86400 + Recurrence.epoch) * 86400).
  assert (n - 86400 * Recurrence.epoch = d - d mod 86400) as Hn by (subst n; lia).
  intros Ht. assert (-86400 <= t - (n - 86400 * Recurrence.epoch) <= 93600); [|lia].
  destruct (earliest n) as [a|] eqn:E.
  - injection Ht as ->. apply Hz in E. lia.
  - eapply first_existing_near; [done| |exact Ht]. repeat constructor; lia.
Qed.

(** An event starts within a day or so of the time it is stored at, and a
    reminder rings no later. *)
Lemma timing_near zone e t : near zone -> timing zone e = Some t ->
  start e - 172799 <= t_start t <= start e + 93600 /\
  exists m, reminder_minutes e = Some m /\ fire_at t = t_start t - Z.max m 0 * 60.
Proof.
  intros Hz. unfold timing. destruct (reminder_minutes e) as [m|]; [|done]. cbn.
  destruct (all_day e).
  - destruct (local_midnight zone (start e)) as [s|] eqn:E; [|done]. cbn. intros [= <-]. cbn.
    split; [by eapply local_midnight_near|eauto].
  - case_match; cbn; intros [= <-]; cbn; (split; [lia|eauto]).
Qed.

(** What makes a reminder one a look gives. *)
Definition rings (now : Z) (zone : Zone) (previous : option Previous) (e : Event) (t : Timing) : Prop :=
  fire_at t <= now /\
  (now <= t_start t \/
   exists p t', previous = Some p /\ timing (if zone_changed p zone then previous_zone p else zone) e = Some t' /\
     Z.max (Z.min (p_at p) now) (now - MAX_GAP) < fire_at t').

Lemma due_of_spec now zone previous e d :
  due_of now zone (is_some_and (fun p => zone_changed p zone) previous) (believed now <$> previous) e = Some d <->
  timing zone e = Some (d_timing d) /\ rings now zone previous e (d_timing d) /\ d_event d = e /\
  d_missed d = (t_start (d_timing d) <? now) && (t_end (d_timing d) <=? now) /\
  (d_missed d = true -> declined e = false).
Proof.
  unfold due_of, rings. destruct (timing zone e) as [t|] eqn:Et; cbn; [|naive_solver].
  assert (negb (now <=? t_start t) = (t_start t <? now)) as -> by (rewrite <- Z.ltb_antisym; done).
  set (came := is_some_and _ (believed now <$> previous)).
  assert (came = true <-> exists p t', previous = Some p /\
    timing (if zone_changed p zone then previous_zone p else zone) e = Some t' /\
    Z.max (Z.min (p_at p) now) (now - MAX_GAP) < fire_at t') as Hcame.
  { subst came. destruct previous as [p|]; cbn; [|naive_solver].
    replace (previous_zone (believed now p)) with (previous_zone p) by done.
    destruct (zone_changed p zone) eqn:Ez.
    - destruct (timing (previous_zone p) e) as [t'|] eqn:E'; cbn.
      + bools. split; [intros; exists p, t'; by rewrite Ez|]. intros (? & t0 & [= <-] & Ht & ?).
        rewrite Ez in Ht. by simplify_eq.
      + split; [done|]. intros (? & t0 & [= <-] & Ht & ?). rewrite Ez in Ht. by simplify_eq.
    - cbn. bools. split; [intros; exists p, t; by rewrite Ez|]. intros (? & t0 & [= <-] & Ht & ?).
      rewrite Ez in Ht. by simplify_eq. }
  destruct (Z.ltb_spec now (fire_at t)) as [Hf|Hf].
  { split; [done|]. intros ([= <-] & (? & _) & _). lia. }
  destruct ((now <=? t_start t) || came) eqn:Eor.
  - assert (now <= t_start t \/ (exists p t', previous = Some p /\
      timing (if zone_changed p zone then previous_zone p else zone) e = Some t' /\
      Z.max (Z.min (p_at p) now) (now - MAX_GAP) < fire_at t')) as Hor.
    { bools in Eor. rewrite Hcame in Eor. done. }
    destruct ((t_start t <? now) && (t_end t <=? now)) eqn:Em.
    + cbn. destruct (declined e) eqn:Ed.
      * split; [done|]. intros ([= <-] & _ & _ & Hm & Hd). rewrite Hm in Hd. by specialize (Hd Em).
      * split; [by intros [= <-]|]. destruct d; cbn. intros ([= ->] & _ & -> & -> & _). by rewrite Em.
    + cbn. split; [by intros [= <-]|]. destruct d; cbn. intros ([= ->] & _ & -> & -> & _). by rewrite Em.
  - split; [done|]. intros ([= <-] & (_ & Hor) & _). apply orb_false_iff in Eor as [Ha%Z.leb_gt Hc].
    destruct Hor as [?|Hor%Hcame]; [lia|congruence].
Qed.

Lemma elem_of_candidates db account from to e :
  e ∈ candidates db account from to <->
  exists r c, r ∈ calendar_events db /\ c ∈ calendars db /\ shown_in r c = true /\
    can_ring db account r = true /\ in_window from to e = true /\ event r = e.
Proof.
  unfold candidates. rewrite order_by_perm, list_elem_of_bind. setoid_rewrite list_elem_of_bind. split.
  - intros (r & (c & Hin & [Hc Hs]%elem_of_select) & Hr). case_match eqn:E; [|by apply elem_of_nil in Hin].
    bools in E. apply list_elem_of_singleton in Hin as ->. exists r, c. tauto.
  - intros (r & c & Hr & Hc & Hs & Hcan & Hw & <-). exists r. split; [|done]. exists c.
    rewrite Hcan, Hw. split; [by left|]. by apply elem_of_select.
Qed.

(** The window a look searches is wide enough. *)
Lemma rings_in_window now zone previous e t : near zone -> timing zone e = Some t -> rings now zone previous e t ->
  let from := match previous with Some p => p_at (believed now p) | None => now end in
  in_window (from - ZONE_SLACK) (now + ZONE_SLACK) e = true.
Proof.
  intros Hz Ht [Hf Hor]. destruct (timing_near _ _ _ Hz Ht) as (Hs & m & Hm & Hfire).
  unfold in_window. rewrite Hm. cbn. bools. unfold ZONE_SLACK. split; [|lia].
  destruct Hor as [Ha|(p & t' & -> & Ht' & Hp)].
  - destruct previous as [p|]; cbn; unfold MAX_GAP; lia.
  - assert (near (if zone_changed p zone then previous_zone p else zone)) as Hz'.
    { case_match; [apply fixed_near|done]. }
    destruct (timing_near _ _ _ Hz' Ht') as (Hs' & m' & Hm' & Hfire'). simplify_eq. cbn. lia.
Qed.

(** The window of the query loses nothing. *)
Lemma due_exact db account now zone previous d : near zone ->
  d ∈ due db account now zone previous <->
  exists r c, r ∈ calendar_events db /\ c ∈ calendars db /\ shown_in r c = true /\ can_ring db account r = true /\
    d_event d = event r /\ timing zone (event r) = Some (d_timing d) /\
    rings now zone previous (event r) (d_timing d) /\
    d_missed d = (t_start (d_timing d) <? now) && (t_end (d_timing d) <=? now) /\
    (d_missed d = true -> declined (event r) = false).
Proof.
  intros Hz. unfold due. rewrite order_by_perm, list_elem_of_omap. split.
  - intros (e & (r & c & Hr & Hc & Hs & Hcan & _ & <-)%elem_of_candidates & Hd).
    apply due_of_spec in Hd. exists r, c. naive_solver.
  - intros (r & c & Hr & Hc & Hs & Hcan & He & Ht & Hrings & Hm & Hdec). exists (event r). split.
    + apply elem_of_candidates. exists r, c. split_and!; [done..| |done].
      pose proof (rings_in_window _ _ _ _ _ Hz Ht Hrings) as Hw. by destruct previous.
    + apply due_of_spec. done.
Qed.

(** C17. A look gives exactly the reminders that are to be given, with none
    lost to the window its query searches: those of the events of the
    account's shown calendars, not cancelled and not recorded, whose time in
    the zone of the machine has come and whose event has not started, or
    whose time, as the previous look saw it, came after that look; a missed
    meeting that was declined is left out. *)
Theorem a_look_is_exact db account now zone previous d : near zone ->
  d ∈ due db account now zone previous <->
  exists r c, r ∈ calendar_events db /\ c ∈ calendars db /\ shown_in r c = true /\ can_ring db account r = true /\
    d_event d = event r /\ timing zone (event r) = Some (d_timing d) /\
    rings now zone previous (event r) (d_timing d) /\
    d_missed d = (t_start (d_timing d) <? now) && (t_end (d_timing d) <=? now) /\
    (d_missed d = true -> declined (event r) = false).
Proof. apply due_exact. Qed.
End Timings.

(** ** Given at most once *)

Section Once.
Context `{C : Calendar} {J : MissedJson} {show_ymd : Z -> text}.

(** What a call that is answered does, the two that ask about the account
    apart. *)
Definition answer {X} (e : Ev X) (db : Db) : Db * X :=
  match e in Ev X return Db * X with
  | IsPaused _ | IsMuted _ => (db, false)
  | PreviousLook a => (db, Ok (previous_look db a))
  | FloatingCalendars a => (db, Ok (floating_calendars db a))
  | MarkReread a since => (mark_reread a since db, Ok tt)
  | RereadDue a now => let (db', r) := reread_due a now db in (db', Ok r)
  | AskDue a now zone previous => (db, Ok (due db a now zone previous))
  | GiveMissed a e now => (give_missed a e now db, Ok tt)
  | MarkFired a i s now => (mark_reminder_fired a i s now db, Ok tt)
  | RecordLook a now zone => (record_look db a now zone, Ok tt)
  | PendingMissed => (db, Ok (pending_missed db))
  end.

Definition failed {X} (e : Ev X) (why : text) : option X :=
  match e in Ev X return option X with
  | IsPaused _ | IsMuted _ => None
  | PreviousLook _ | FloatingCalendars _ | MarkReread _ _ | RereadDue _ _ | AskDue _ _ _ _
  | GiveMissed _ _ _ | MarkFired _ _ _ _ | RecordLook _ _ _ | PendingMissed => Some (Err why)
  end.

(** The reminder a call records as given. *)
Definition gives {X} (e : Ev X) : list (text * text * Z) :=
  match e with
  | GiveMissed a e _ => [(a, id e, start e)]
  | MarkFired a i s _ => [(a, i, s)]
  | _ => []
  end.

(** The tables, and every reminder recorded as given, in order. *)
Record World := { w_db : Db; w_given : list (text * text * Z) }.

(** One reminder: of an event of an account, at a start. *)
Context (k_account k_id : text) (k_start : Z).
Definition k : text * text * Z := (k_account, k_id, k_start).

Definition is_k (r : EventRow) : bool :=
  bool_decide (e_account r = k_account) && bool_decide (id (event r) = k_id) && (start (event r) =? k_start).

(** The account keeps the event at that start. *)
Definition stored (db : Db) : Prop := exists r, r ∈ calendar_events db /\ is_k r = true.

(** It keeps it once, and its calendars have ids of their own. *)
Definition kept_once (db : Db) : Prop :=
  (length (select is_k (calendar_events db)) <= 1)%nat /\
  NoDup ((fun c => (c_account c, provider_id c)) <$> calendars db).

(** What else may change while no look has the tables: anything but the
    records of what was given, and an event that is there stays. *)
Definition evolves (db db' : Db) : Prop :=
  fired db' = fired db /\ (stored db -> stored db') /\ (kept_once db -> kept_once db').

(** A call: answered; failed, with nothing changed; or about the account,
    before which the tables may have changed. *)
Definition does X (e : Ev X) (w w' : World) (x : X) : Prop :=
  (is_Some (failed e []) /\ x = (answer e (w_db w)).2 /\
     w' = {| w_db := (answer e (w_db w)).1; w_given := w_given w ++ gives e |}) \/
  (exists why, failed e why = Some x /\ w' = w) \/
  (failed e [] = None /\ exists db', evolves (w_db w) db' /\ w' = {| w_db := db'; w_given := w_given w |}).

(** What goes on, by the clock: looks of either host in whatever zone, to
    their end or stopped; records forgotten; other changes. *)
Inductive goes_on : Z * World -> Z * World -> Prop :=
| goes_look clock w accounts now zone mode w' o : clock <= now -> near zone ->
    runs does (look_for (show_ymd := show_ymd) accounts now zone mode) w w' o -> goes_on (clock, w) (now, w')
| goes_forget clock w now : clock <= now ->
    goes_on (clock, w) (now, {| w_db := forget_old_reminders now (w_db w); w_given := w_given w |})
| goes_other clock w db' : evolves (w_db w) db' ->
    goes_on (clock, w) (clock, {| w_db := db'; w_given := w_given w |}).

Definition times (l : list (text * text * Z)) : nat := length (base.filter (fun x => x = k) l).

Definition recorded (db : Db) : Prop := exists f, f ∈ fired db /\ has_record k_account (record_key k_id k_start) f = true.

(** A reminder given is recorded, or its event is long past. *)
Definition good (clock : Z) (w : World) : Prop :=
  kept_once (w_db w) /\ (times (w_given w) <= 1)%nat /\
  ((0 < times (w_given w))%nat -> stored (w_db w) /\ (recorded (w_db w) \/ k_start < clock - GIVEN_KEPT)).

Lemma good_later clock now w : clock <= now -> good clock w -> good now w.
Proof.
  intros Hc (H1 & H2 & H3). split_and!; [done..|]. intros Hp. destruct (H3 Hp) as [? [|]]; (split; [done|]); [by left|right; lia].
Qed.

Definition key_of (account : text) (d : Due) : text * text * Z := (account, id (d_event d), start (d_event d)).

(** What was given is not due. *)
Lemma not_due_again now w account zone previous d : good now w -> near zone -> (0 < times (w_given w))%nat ->
  d ∈ due (w_db w) account now zone previous -> key_of account d <> k.
Proof.
  intros (_ & _ & Hg) Hz Hk Hd Hkey. unfold key_of, k in Hkey. injection Hkey as Ha Hi Hs.
  apply due_exact in Hd as (r & c & Hr & _ & _ & Hcan & He & Ht & Hrings & _); [|done].
  destruct (Hg Hk) as [_ [(f & Hf & Hrec)|Hold]].
  - unfold can_ring in Hcan. rewrite !andb_true_iff, bool_decide_eq_true in Hcan.
    destruct Hcan as [[[Hacc _] _] Hun]. unfold unrecorded in Hun.
    apply negb_true_iff, not_true_iff_false in Hun. apply Hun. apply existsb_exists. exists f.
    split; [by apply list_elem_of_In|]. unfold has_record in Hrec. bools in Hrec. destruct Hrec as [-> ->].
    rewrite He in Hi, Hs. unfold missed_key. rewrite Hi, Hs, Hacc, Ha. by rewrite !bool_decide_true by done.
  - rewrite He in Hs. destruct (timing_near _ _ _ Hz Ht) as (Hst & m & _ & Hf).
    unfold GIVEN_KEPT, MAX_GAP, ZONE_SLACK in *. destruct Hrings as [_ [Ha'|(p & t' & _ & Ht' & Hp)]]; [lia|].
    assert (near (if zone_changed p zone then previous_zone p else zone)) as Hz'.
    { case_match; [apply fixed_near|done]. }
    destruct (timing_near _ _ _ Hz' Ht') as (Hst' & m' & _ & Hf'). unfold MAX_GAP in Hp. lia.
Qed.

Lemma due_stored db account now zone previous d : near zone ->
  d ∈ due db account now zone previous -> key_of account d = k -> stored db.
Proof.
  intros Hz Hd Hkey. unfold key_of, k in Hkey. injection Hkey as Ha Hi Hs.
  apply due_exact in Hd as (r & c & Hr & _ & _ & Hcan & He & _); [|done]. exists r. split; [done|].
  unfold can_ring in Hcan. rewrite !andb_true_iff, bool_decide_eq_true in Hcan.
  unfold is_k. rewrite He in Hi, Hs. bools. naive_solver.
Qed.

Lemma times_cons x l : times (x :: l) = ((if decide (x = k) then 1 else 0) + times l)%nat.
Proof. unfold times. rewrite filter_cons. by case_decide. Qed.

Lemma times_app l l' : times (l ++ l') = (times l + times l')%nat.
Proof. unfold times. by rewrite filter_app, length_app. Qed.

#[local] Instance times_perm : Proper ((≡ₚ) ==> eq) times.
Proof. intros l l' Hp. unfold times. by rewrite Hp. Qed.

Lemma times_elem l : (0 < times l)%nat <-> k ∈ l.
Proof.
  induction l as [|x l IH]; [split; [cbn; lia|intros []%not_elem_of_nil]|]. rewrite times_cons, elem_of_cons.
  case_decide as E; [split; [by left|lia]|]. rewrite IH. naive_solver.
Qed.

Lemma times_omap account (f : Event -> option Due) l : (forall e d, f e = Some d -> d_event d = e) ->
  (times (key_of account <$> omap f l) <= times ((fun e => (account, id e, start e)) <$> l))%nat.
Proof.
  intros Hf. induction l as [|e l IH]; [done|]. rewrite (fmap_cons _ e l), times_cons. change (omap f (e :: l)) with (match f e with Some d => d :: omap f l | None => omap f l end).
  destruct (f e) as [d|] eqn:E; [|case_decide; lia]. rewrite fmap_cons, times_cons. apply Hf in E.
  assert (key_of account d = (account, id e, start e)) as -> by (unfold key_of; by rewrite E). lia.
Qed.

(** An event row is shown by one calendar at most. *)
Lemma shown_once r (cs : list CalendarRow) : NoDup ((fun c => (c_account c, provider_id c)) <$> cs) ->
  (length (select (shown_in r) cs) <= 1)%nat.
Proof.
  induction cs as [|c cs IH]; [cbn; lia|]. rewrite fmap_cons, NoDup_cons. intros [Hn Hd]. unfold select.
  rewrite filter_cons. case_decide as E; [|by apply IH]. cbn.
  match goal with |- (S (length ?l) <= 1)%nat => assert (l = []) as ->; [|cbn; lia] end.
  match goal with |- ?l = [] => destruct l as [|c' l'] eqn:El; [done|exfalso] end.
  assert (c' ∈ c' :: l') as Hin by left. rewrite <- El in Hin. apply list_elem_of_filter in Hin as [Hs Hc'].
  apply Hn, list_elem_of_fmap. exists c'. split; [|done].
  unfold shown_in in *. bools in E. bools in Hs. f_equal; [by destruct_and!; congruence..].
Qed.

Lemma candidates_once db account from to : kept_once db ->
  (times ((fun e => (account, id e, start e)) <$> candidates db account from to) <= 1)%nat.
Proof.
  intros [Hone Hc]. unfold candidates. rewrite order_by_perm. etrans; [|exact Hone]. clear Hone.
  induction (calendar_events db) as [|r rs IH]; [done|].
  rewrite bind_cons, fmap_app, times_app. unfold select in *. rewrite filter_cons.
  set (one := _ ≫= _). assert (times ((fun e => (account, id e, start e)) <$> one) <= if decide (is_k r = true) then 1 else 0)%nat as Hr.
  { subst one. pose proof (shown_once r _ Hc) as Hs. unfold select in Hs.
    destruct (base.filter _ (calendars db)) as [|c [|]]; cbn in Hs; [case_decide; cbn; lia| |lia].
    rewrite bind_singleton. destruct (can_ring db account r) eqn:Hcan; [|case_decide; cbn; lia].
    destruct (in_window from to (event r)); [|case_decide; cbn; lia]. cbn [andb]. rewrite fmap_cons, times_cons.
    case_decide as E; [|case_decide; cbn; lia]. unfold k in E. injection E as -> Hi Hs'.
    unfold can_ring in Hcan. rewrite !andb_true_iff, bool_decide_eq_true in Hcan. destruct Hcan as [[[Ha _] _] _].
    rewrite decide_True; [cbn; lia|]. unfold is_k. bools. naive_solver. }
  case_decide; cbn; (etrans; [apply Nat.add_le_mono; [exact Hr|exact IH]|]); lia.
Qed.

Lemma due_once db account now zone previous : kept_once db ->
  (times (key_of account <$> due db account now zone previous) <= 1)%nat.
Proof.
  intros Hone. unfold due. rewrite order_by_perm. etrans; [apply times_omap|by apply candidates_once].
  intros e d. unfold due_of. destruct (timing zone e); [|done]. cbn. repeat (case_match; try done).
  all: by intros [= <-].
Qed.

(** *** Every call keeps it *)

(** What matters here of the tables. *)
Definition same_tables (db db' : Db) : Prop :=
  calendar_events db' = calendar_events db /\ calendars db' = calendars db /\ fired db' = fired db.

Lemma write_missed_tables l db : same_tables db (write_missed l db).
Proof. unfold write_missed. by case_match. Qed.

Lemma reread_tables a now db : same_tables db (reread_due a now db).1.
Proof. unfold reread_due. destruct (read_reread db a) as [[]|]; [|done]. repeat case_match; done. Qed.

Lemma answer_tables {X} (e : Ev X) db : gives e = [] -> same_tables db (answer e db).1.
Proof.
  destruct e; cbn; try done. intros _. pose proof (reread_tables account now db). by destruct (reread_due account now db).
Qed.

Lemma good_same clock w db' g : same_tables (w_db w) db' -> g = w_given w -> good clock w -> good clock {| w_db := db'; w_given := g |}.
Proof.
  intros (He & Hc & Hf) -> [[Hk Hcal] [Ht Hg]]. unfold good, kept_once, stored, recorded in *. cbn. by rewrite He, Hc, Hf.
Qed.

(** What a record of one given becomes. *)
Lemma gives_marks {X} (e : Ev X) db a i s : gives e = [(a, i, s)] -> exists now,
  calendar_events (answer e db).1 = calendar_events db /\ calendars (answer e db).1 = calendars db /\
  fired (answer e db).1 = fired (mark_reminder_fired a i s now db).
Proof.
  destruct e; cbn; try done; intros [= <- <- <-]; exists now; [|done]. unfold give_missed.
  match goal with |- context [write_missed ?l ?d] => destruct (write_missed_tables l d) as (-> & -> & ->) end. done.
Qed.

Lemma mark_recorded a i s now db : (a, i, s) = k \/ recorded db -> recorded (mark_reminder_fired a i s now db).
Proof.
  set (new := {| f_account := a; f_key := record_key i s; fired_at := now |}). intros [Hk|(f & Hf & Hrec)].
  - exists new. unfold k in Hk. injection Hk as -> -> ->. split; [cbn; unfold insert_or_replace|].
    + apply elem_of_app. right. by left.
    + unfold has_record. cbn. by rewrite !bool_decide_true by done.
  - destruct (has_record a (record_key i s) f) eqn:E.
    + exists new. split; [apply elem_of_app; right; by left|]. unfold has_record in *. bools in E. bools in Hrec.
      cbn. destruct E as [<- <-], Hrec as [-> ->]. by rewrite !bool_decide_true by done.
    + exists f. split; [|done]. apply elem_of_app. left. by apply elem_of_delete_where.
Qed.

Definition may {X} (e : Ev X) (w : World) : Prop :=
  forall x, x ∈ gives e -> x = k -> stored (w_db w) /\ times (w_given w) = 0%nat.

Lemma gives_cases {X} (e : Ev X) : gives e = [] \/ exists a i s, gives e = [(a, i, s)].
Proof. destruct e; cbn; eauto. Qed.

Lemma good_does clock X (e : Ev X) w w' x : does X e w w' x -> may e w -> good clock w -> good clock w'.
Proof.
  intros [(_ & _ & ->)|[(why & _ & ->)|(_ & db' & (Hf & Hs & Hk) & ->)]] Hmay Hg; [|done|].
  - destruct (gives_cases e) as [He|(a & i & s & He)].
    { apply (good_same _ w); [by apply answer_tables|by rewrite He, app_nil_r|done]. }
    destruct (gives_marks _ (w_db w) _ _ _ He) as (now & Hev & Hcal & Hf). destruct Hg as [[Hone Hc] [Ht Hg]].
    assert (recorded (w_db w) \/ (a, i, s) = k -> recorded (answer e (w_db w)).1) as Hrec.
    { intros Hr. unfold recorded. rewrite Hf. apply mark_recorded. tauto. }
    unfold good, kept_once, stored in *. cbn [w_db w_given]. rewrite Hev, Hcal, He, times_app, times_cons.
    unfold may, stored in Hmay. rewrite He in Hmay.
    change (times []) with 0%nat. case_decide as E.
    + destruct (Hmay _ (list_elem_of_here _ _) E) as [Hst Hz]. split_and!; [done..|lia|]. intros _. split; [done|]. auto.
    + split_and!; [done..|lia|]. rewrite !Nat.add_0_r. intros Hp. destruct (Hg Hp) as [Hst [|]]; split; auto.
  - destruct Hg as (Hone & Ht & Hg). split_and!; [by apply Hk|done|]. intros Hp. destruct (Hg Hp) as [Hst Hr].
    split; [by apply Hs|]. unfold recorded in *. cbn. by rewrite Hf.
Qed.

(** The loop over what is due. *)
Lemma give_loop now zone mode account l cs w : good now w -> (times (key_of account <$> l) <= 1)%nat ->
  ((0 < times (w_given w))%nat -> k ∉ key_of account <$> l) ->
  (k ∈ key_of account <$> l -> stored (w_db w)) ->
  ensures does (good now) (for_each l cs (give_one (show_ymd := show_ymd) account now zone mode)) (fun _ => good now) w.
Proof.
  revert cs w. induction l as [|d l IH]; intros cs w Hg Ht Hnot Hst; [done|].
  rewrite fmap_cons, times_cons in Ht. rewrite fmap_cons in Hnot, Hst. cbn [for_each]. apply ensures_bind.
  assert (forall cs' w', good now w' ->
            times (w_given w') = times (w_given w) \/ key_of account d = k ->
            calendar_events (w_db w') = calendar_events (w_db w) ->
            ensures does (good now) (for_each l cs' (give_one (show_ymd := show_ymd) account now zone mode)) (fun _ => good now) w') as Hrest.
  { intros cs' w' Hg' Hor Hev. apply IH; [done|lia| |].
    - destruct Hor as [Heq|Heq].
      + rewrite Heq. intros Hp. specialize (Hnot Hp). by apply not_elem_of_cons in Hnot as [_ ?].
      + intros _ Hin%times_elem. rewrite decide_True in Ht by done. lia.
    - intros Hin. unfold stored. rewrite Hev. apply Hst. by right. }
  assert (forall (e : Ev (result text unit)) (k' : result text unit -> prog Ev (bool * Sofar)), gives e = [key_of account d] ->
            is_Some (failed e []) -> (forall g, exists cs', k' g = Ret cs') ->
            ensures does (good now) (Vis e k')
              (fun cs' w' => ensures does (good now)
                 (for_each l cs' (give_one (show_ymd := show_ymd) account now zone mode)) (fun _ => good now) w') w) as Hcall.
  { intros e k' He Hs Hret w' x Hd. assert (good now w') as Hg'.
    { eapply good_does; [exact Hd| |done]. intros y Hy ->. rewrite He in Hy. apply list_elem_of_singleton in Hy.
      split; [apply Hst; rewrite Hy; left|]. destruct (times (w_given w)) eqn:E; [done|].
      exfalso. apply Hnot; [lia|]. rewrite Hy. left. }
    split; [done|]. destruct (Hret x) as [cs' ->]. cbn. destruct Hd as [(_ & _ & ->)|[(why & _ & ->)|(Hn & _)]]; [| |rewrite Hn in Hs; by destruct Hs].
    - unfold key_of in He. destruct (gives_marks _ (w_db w) _ _ _ He) as (now' & Hev & _). apply Hrest; [done| |done].
      cbn [w_given]. rewrite He, times_app, times_cons. change (times []) with 0%nat.
      destruct (decide (key_of account d = k)) as [|Hne]; [by right|left]. unfold key_of in Hne. rewrite decide_False by done. lia.
    - apply Hrest; auto. }
  destruct cs as [complete s]. cbn [give_one]. destruct (d_missed d); cbn [andb].
  - destruct mode; [|apply Hrest; auto]. unfold call. cbn [prog_bind].
    apply Hcall; [done|by eexists|]. intros []; by eexists.
  - unfold call. cbn [prog_bind]. apply Hcall; [done|by eexists|]. intros []; by eexists.
Qed.

(** A call that records nothing. *)
Lemma ensures_quiet now {X R} (e : Ev X) (p : X -> prog Ev R) Q w : gives e = [] -> good now w ->
  (forall w' x, does X e w w' x -> good now w' -> ensures does (good now) (p x) Q w') ->
  ensures does (good now) (Vis e p) Q w.
Proof.
  intros He Hg Hp w' x Hd. assert (good now w'); [|auto]. eapply good_does; [exact Hd| |done].
  intros y. rewrite He. by intros []%not_elem_of_nil.
Qed.

Lemma give_all_good now zone mode account previous cs w : near zone -> good now w ->
  ensures does (good now) (give_all (show_ymd := show_ymd) account now zone mode previous cs) (fun _ => good now) w.
Proof.
  intros Hz Hg. unfold give_all, call. cbn [prog_bind]. apply ensures_quiet; [done..|].
  intros w' x Hd Hg'. destruct x as [l|]; [|done].
  destruct Hd as [(_ & Hx & ->)|[(why & Hf & _)|(Hn & _)]]; [|done|done]. cbn in Hx. injection Hx as ->.
  apply give_loop; [done|apply due_once, Hg| |].
  - intros Hp Hin. apply list_elem_of_fmap in Hin as (d & Hk & Hd). symmetry in Hk. revert Hk.
    eapply not_due_again; [exact Hg|done| |exact Hd]. cbn in Hp. by rewrite app_nil_r in Hp.
  - intros Hin. apply list_elem_of_fmap in Hin as (d & Hk & Hd). by eapply due_stored.
Qed.

Ltac quiet := apply ensures_quiet; [done|done|]; intros ? ? ? ?.

Lemma look_account_good now zone mode account s w : near zone -> good now w ->
  ensures does (good now) (look_account (show_ymd := show_ymd) now zone mode account s) (fun _ => good now) w.
Proof.
  intros Hz Hg. unfold look_account, call. cbn [prog_bind]. quiet. apply ensures_bind.
  eapply (ensures_mono _ _ _ (fun _ => good now)); [|destruct x; [done|quiet; done]].
  clear dependent w. intros quiet w1 Hg1. quiet. destruct x0 as [previous|]; [|done].
  apply ensures_bind. eapply (ensures_mono _ _ _ (fun _ => good now)).
  2: { unfold note_zone, call. case_match; [|done]. cbn [prog_bind]. quiet. destruct x0 as [[|]|]; [done| |done]. cbn [prog_bind]. by quiet. }
  clear dependent w1. intros complete w2 Hg2. apply ensures_bind.
  eapply (ensures_mono _ _ _ (fun _ => good now)).
  2: { destruct x; [done|]. cbn [prog_bind]. by quiet. }
  clear dependent w2. intros s' w3 Hg3. apply ensures_bind. eapply (ensures_mono _ _ _ (fun _ => good now)).
  2: { destruct quiet; [done|]. by apply give_all_good. }
  intros [c s''] w4 Hg4. destruct c; [|done]. cbn [prog_bind]. by quiet.
Qed.

Lemma look_good now zone mode accounts w : near zone -> good now w ->
  ensures does (good now) (look_for (show_ymd := show_ymd) accounts now zone mode) (fun _ => good now) w.
Proof.
  intros Hz Hg. unfold look_for. apply ensures_bind.
  eapply (ensures_for_each _ _ _ _ (fun _ _ => good now) _ []); [exact Hg|intros d a s w0 Hi _; by apply look_account_good|].
  intros s w' Hg'. case_match; [|done]. unfold call. cbn [prog_bind]. by quiet.
Qed.

(** *** Forgetting *)

Lemma forget_good clock now w : clock <= now -> - 2 ^ 63 <= k_start < 2 ^ 63 -> good clock w ->
  good now {| w_db := forget_old_reminders now (w_db w); w_given := w_given w |}.
Proof.
  intros Hc Hw (Hk & Ht & Hg). unfold good. cbn [w_db w_given]. unfold forget_old_reminders.
  set (old := select _ _). clearbody old.
  assert (forall d, calendar_events d = calendar_events (w_db w) -> calendars d = calendars (w_db w) ->
    (stored d -> recorded (w_db w) -> recorded d \/ k_start < now - GIVEN_KEPT) ->
    let d' := foldl (fun d f => if is_none_or (fun s => s <? now - GIVEN_KEPT) (start_of d f)
                then set_fired (delete_where (has_record (f_account f) (f_key f)) (fired d)) d else d) d old in
    calendar_events d' = calendar_events (w_db w) /\ calendars d' = calendars (w_db w) /\
    (stored d' -> recorded (w_db w) -> recorded d' \/ k_start < now - GIVEN_KEPT)) as Hfold.
  { induction old as [|f old IH]; [done|]. intros d He Hcal Hr. cbn [foldl]. apply IH; [by case_match..|].
    case_match eqn:E; [|done]. intros Hst Hrec. change (stored d) in Hst. destruct (Hr Hst Hrec) as [(g & Hin & Hgk)|]; [|by right].
    destruct (has_record (f_account f) (f_key f) g) eqn:Ek.
    - right. unfold has_record in Ek, Hgk. bools in Ek. bools in Hgk. destruct Ek as [Ea Ek], Hgk as [Ga Gk].
      unfold start_of in E. rewrite <- Ek, Gk in E. unfold record_key in E.
      rewrite rsplit_once_app in E by (apply show_Z_chars; [lia|done]). cbn in E.
      unfold parse_i64 in E. rewrite parse_signed_show in E by lia. cbn in E.
      assert (stored_at d (f_account f) k_id k_start = true) as Hs.
      { destruct Hst as (r & Hr' & Hk'). apply existsb_exists. exists r. split; [by apply list_elem_of_In|].
        unfold is_k in Hk'. by rewrite <- Ea, Ga. }
      rewrite Hs in E. cbn in E. bools in E. lia.
    - left. exists g. split; [|done]. cbn. by apply elem_of_delete_where. }
  destruct (Hfold (w_db w) eq_refl eq_refl) as (He & Hcal & Hr); [by left|].
  unfold kept_once, stored in *. rewrite He, Hcal. split_and!; [apply Hk..|done|].
  intros Hp. destruct (Hg Hp) as [Hst [Hrec|Hold]]; (split; [done|]); [|right; unfold GIVEN_KEPT in *; lia].
  apply Hr; [|done]. by rewrite He.
Qed.

(** C15. The reminder of an event at a start is recorded as given, and so given,
    at most once, however looks of either host, in whatever zones within a day
    of UTC, are stopped or fail in part, and whatever else changes between them,
    as long as the account keeps the event at that start, once ([kept_once]; two
    calendars ring twice), and the clock does not go back. *)
Theorem a_reminder_is_given_once clock w clock' w' : - 2 ^ 63 <= k_start < 2 ^ 63 ->
  kept_once (w_db w) -> w_given w = [] -> rtc goes_on (clock, w) (clock', w') ->
  (times (w_given w') <= 1)%nat.
Proof.
  intros Hs Hk Hn Hr. assert (good clock w) as Hg.
  { split_and!; [done|rewrite Hn; cbn; lia|]. rewrite Hn. cbn. lia. }
  assert (good clock' w') as (_ & Ht & _); [|done].
  remember (clock, w) as cw eqn:E1. remember (clock', w') as cw' eqn:E2. clear Hk Hn. revert clock w E1 Hg.
  induction Hr as [|x y z Hxy _ IH]; intros clock w -> Hg; [by injection E2 as -> ->|].
  destruct y as [clock1 w1]. eapply IH; [done..|]. clear IH. inversion Hxy; subst.
  - assert (good clock1 w) as Hg1 by (by eapply good_later).
    eapply ensures_always; [exact Hg1|by apply look_good|eassumption].
  - by eapply forget_good.
  - destruct Hg as (H1 & H2 & H3). match goal with H : evolves _ _ |- _ => destruct H as (Hf & Hst & Hke) end.
    split_and!; [by apply Hke|done|]. intros Hp. destruct (H3 Hp) as [Hsd Hor]. split; [by apply Hst|].
    unfold recorded in *. cbn. by rewrite Hf.
Qed.
End Once.
End ReminderLaws.
