(* ===== verification/ReminderTold.v ===== *)
(** * Reminders that come due are told

    A look at an account that is neither paused nor muted, with every
    statement answered, tells each reminder whose time came since the look
    before it ([a_reminder_is_told]); an event kept in two calendars of the
    account is told twice by the same look ([two_calendars_ring_twice]). *)
From S2P Require Import Prelude.
From S2P Require Import Text.
From S2P Require Import Table.
From S2P Require Import Program.
From S2P Require Import Calendar.
From S2P Require Import Recurrence.
From S2P Require Import Reminders.
From S2P Require Import ReminderLaws.

#[local] Open Scope Z_scope.

Module ReminderTold.
Import Reminders.
Import ReminderLaws.

Lemma record_key_inj i s i' s' : record_key i s = record_key i' s' -> i = i' /\ s = s'.
Proof.
  unfold record_key. intros He. assert (forall z, 64 ∉ show_Z z) as Hn by (intros z; apply show_Z_chars; [lia|done]).
  pose proof (rsplit_once_app 64 i (show_Z s) (Hn s)) as H1. rewrite He in H1.
  rewrite rsplit_once_app in H1 by done. injection H1 as -> Hs. split; [done|].
  unfold show_Z in Hs. apply lit_inj in Hs. symmetry. by apply (inj pretty).
Qed.

Section Told.
Context `{C : Calendar} {J : MissedJson} {JL : MissedJsonLaws J} {show_ymd : Z -> text}.
Context (account : text) (now : Z) (zone : Zone).

Notation run := (exec (@answer _ _)).
Notation give_each := (give_one (show_ymd := show_ymd)).

(** The account has a record of the key. *)
Definition has_rec (key : text) (db : Db) : Prop := exists f, f ∈ fired db /\ has_record account key f = true.

(** A missed reminder that waits to be shown, of an event no older than a
    look goes back. *)
Definition waits (key : text) (db : Db) : Prop := exists m, m ∈ pending_missed db /\
  is_missed account key m = true /\ m_key m = missed_key (m_event m) /\ now - MAX_GAP <= start (m_event m).

Lemma pending_written l db : pending_missed (write_missed l db) = l.
Proof.
  unfold pending_missed, write_missed. destruct l as [|m l]; cbn.
  - by rewrite lookup_delete_eq.
  - rewrite lookup_insert_eq. cbn. by rewrite reads_back.
Qed.

Lemma pending_insert key v (db : Db) : key <> MISSED_KEY ->
  pending_missed (set_meta (<[key := v]> (meta db)) db) = pending_missed db.
Proof. intros Hk. unfold pending_missed. cbn. by rewrite lookup_insert_ne. Qed.

Lemma pending_delete key (db : Db) : key <> MISSED_KEY ->
  pending_missed (set_meta (delete key (meta db)) db) = pending_missed db.
Proof. intros Hk. unfold pending_missed. cbn. by rewrite lookup_delete_ne. Qed.

Lemma look_key_apart a : look_key a <> MISSED_KEY /\ reread_key a <> MISSED_KEY /\ forall b, look_key a <> reread_key b.
Proof. split_and!; [| |intros b]; intros E; vm_compute in E; discriminate. Qed.

Lemma look_key_inj a b : look_key a = look_key b -> a = b.
Proof. unfold look_key. apply app_inv_head. Qed.

Lemma mark_has_rec a i s db key : has_rec key db \/ (a = account /\ record_key i s = key) ->
  has_rec key (mark_reminder_fired a i s now db).
Proof.
  set (new := {| f_account := a; f_key := record_key i s; fired_at := now |}).
  assert (new ∈ fired (mark_reminder_fired a i s now db)) as Hnew by (apply elem_of_app; right; by left).
  intros [(f & Hf & Hr)|[-> <-]].
  - destruct (has_record a (record_key i s) f) eqn:E.
    + exists new. split; [done|]. unfold has_record in *. bools in E. bools in Hr. bools. destruct E as [E1 E2], Hr as [R1 R2].
      cbn. split; congruence.
    + exists f. split; [|done]. apply elem_of_app. left. by apply elem_of_delete_where.
  - exists new. split; [done|]. unfold has_record. cbn. by rewrite !bool_decide_true.
Qed.

Lemma give_missed_tables a e db : same_tables (mark_reminder_fired a (id e) (start e) now db) (give_missed a e now db).
Proof. apply write_missed_tables. Qed.

(** Giving a missed one keeps the others that wait. *)
Lemma give_missed_waits a e db key : waits key db -> waits key (give_missed a e now db).
Proof using JL show_ymd.
  intros (m & Hm & Hk & Hkey & Hs). unfold waits, give_missed. rewrite pending_written.
  destruct (is_missed a (missed_key e) m) eqn:E.
  - exists {| m_account := a; m_key := missed_key e; m_event := e |}.
    unfold is_missed in E, Hk. bools in E. bools in Hk. destruct E as [Ea Ek], Hk as [Ha Hk].
    split; [apply elem_of_app; right; by left|]. cbn. unfold is_missed. cbn.
    rewrite <- Ea, Ha, <- Ek, Hk, !bool_decide_true by done. split_and!; [done|congruence|].
    rewrite Hkey in Ek. unfold missed_key in Ek. apply record_key_inj in Ek as [_ <-]. done.
  - exists m. split_and!; [|done..]. apply elem_of_app. left. apply list_elem_of_filter. rewrite E. split; [bools; split; [lia|done]|].
    done.
Qed.

Lemma give_missed_new e db : now - MAX_GAP <= start e -> waits (missed_key e) (give_missed account e now db).
Proof using JL show_ymd.
  intros Hs. exists {| m_account := account; m_key := missed_key e; m_event := e |}.
  unfold give_missed. rewrite pending_written. cbn. split_and!; [apply elem_of_app; right; by left| |done..].
  unfold is_missed. cbn. by rewrite !bool_decide_true.
Qed.

(** What stays true of the account while the look goes on. *)
Record stays (db db' : Db) : Prop := {
  stays_events : calendar_events db' = calendar_events db;
  stays_calendars : calendars db' = calendars db;
  stays_records : forall key, has_rec key db -> has_rec key db';
  stays_waiting : forall key, waits key db -> waits key db'
}.

#[local] Instance stays_preorder : PreOrder stays.
Proof.
  split; [by split|]. intros a b c [H1 H2 H3 H4] [H5 H6 H7 H8]. split; [congruence|congruence|auto|auto].
Qed.

Lemma stays_meta m db : pending_missed (set_meta m db) = pending_missed db -> stays db (set_meta m db).
Proof. intros Hp. split; try done. intros key. unfold waits. by rewrite Hp. Qed.

Lemma answer_stays {X} (e : Ev X) db : match e with GiveMissed _ _ n | MarkFired _ _ _ n => n = now | _ => True end ->
  stays db (answer e db).1.
Proof using JL show_ymd.
  destruct e as [a|a|a|a|a s|a n|a n z p|a e n|a i s n|a n z|]; cbn; intros Hn; try reflexivity; subst.
  - apply stays_meta, pending_insert, look_key_apart.
  - unfold reread_due. destruct (read_reread db a) as [[since asked]|]; [|reflexivity].
    repeat case_match; simplify_eq; try reflexivity; cbn; apply stays_meta; [apply pending_delete|apply pending_insert]; apply look_key_apart.
  - destruct (give_missed_tables a e db) as (He & Hc & Hf). split; [done..| |].
    + intros key Hr. unfold has_rec. rewrite Hf. apply mark_has_rec. by left.
    + intros key. apply give_missed_waits.
  - split; [done..| |done]. intros key Hr. apply mark_has_rec. by left.
  - apply stays_meta, pending_insert, look_key_apart.
Qed.

(** *** Looks with every call answered *)

Definition answered X (e : Ev X) (db db' : Db) (x : X) : Prop := db' = (answer e db).1 /\ x = (answer e db).2.

(** The calls a look makes about an account. *)
Definition about {X} (a : text) (e : Ev X) : Prop :=
  match e with
  | IsPaused b | IsMuted b | PreviousLook b | FloatingCalendars b | MarkReread b _ | RereadDue b _
  | AskDue b _ _ _ | RecordLook b _ _ => b = a
  | GiveMissed b _ n | MarkFired b _ _ n => b = a /\ n = now
  | PendingMissed => False
  end.

Record grows (s s' : Sofar) : Prop := {
  grows_gathered : gathered s = true -> gathered s' = true;
  grows_given : forall d, d ∈ given s -> d ∈ given s'
}.

#[local] Instance grows_preorder : PreOrder grows.
Proof. split; [by split|]. intros a b c [] []. split; auto. Qed.

Lemma grows_given_one s d : grows s (with_given d s).
Proof. split; cbn; [done|]. intros x Hx. apply elem_of_app. by left. Qed.

Lemma grows_gathers s : grows s (with_gathered s).
Proof. by split. Qed.

Lemma grows_reread s r : grows s (with_reread r s).
Proof. by split. Qed.

(** Whatever every call about an account keeps, its part of a look keeps. *)
Section Keeps.
Context (a : text) (I : Db -> Prop) (HI : forall X (e : Ev X) db, about a e -> I db -> I (answer e db).1).

Lemma ensures_about {X R} (e : Ev X) (p : X -> prog Ev R) Q db : about a e -> I db ->
  (I (answer e db).1 -> ensures answered I (p (answer e db).2) Q (answer e db).1) ->
  ensures answered I (Vis e p) Q db.
Proof using HI. intros Ha Hi Hp db' x [-> ->]. split; [by apply HI|]. apply Hp. by apply HI. Qed.

Lemma give_one_keeps mode d cs db : I db ->
  ensures answered I (give_each a now zone mode d cs) (fun cs' db' => I db' /\ grows cs.2 cs'.2) db.
Proof using HI.
  intros Hi. destruct cs as [complete s]. unfold give_one, call. case_match; [done|].
  destruct (d_missed d); cbn [prog_bind]; (apply ensures_about; [done..|]; intros Hi'; cbn; split; [exact Hi'|]).
  - apply grows_gathers.
  - apply grows_given_one.
Qed.

Lemma give_loop_keeps mode l cs db : I db ->
  ensures answered I (for_each l cs (give_each a now zone mode)) (fun cs' db' => I db' /\ grows cs.2 cs'.2) db.
Proof using HI.
  intros Hi. eapply (ensures_for_each _ _ _ _ (fun _ cs' db' => I db' /\ grows cs.2 cs'.2) _ []); [by split| |done].
  intros done d cs' db' [Hi' Hg] _. eapply ensures_mono; [|by apply give_one_keeps].
  intros cs'' db'' [Hi'' Hg']. split; [done|]. by etrans.
Qed.

Lemma note_zone_keeps previous db : I db ->
  ensures answered I (note_zone a now zone previous) (fun _ => I) db.
Proof using HI.
  intros Hi. unfold note_zone, call. case_match; [|done]. cbn [prog_bind].
  apply ensures_about; [done..|]. intros Hi'. cbn. destruct (floating_calendars db a); [done|]. cbn [prog_bind].
  apply ensures_about; [done..|]. intros Hi''. done.
Qed.

Lemma asked_grows r (s : Sofar) : grows s (with_asked a r s).
Proof. destruct r as [[]|]; [apply grows_reread|done..]. Qed.

Lemma look_account_keeps mode s db : I db ->
  ensures answered I (look_account (show_ymd := show_ymd) now zone mode a s) (fun s' db' => I db' /\ grows s s') db.
Proof using HI.
  intros Hi. unfold look_account, call. cbn [prog_bind]. apply ensures_about; [done..|]. intros Hi1. cbn [answer fst snd].
  cbn [prog_bind]. apply ensures_about; [done..|]. intros Hi2. cbn [answer fst snd].
  apply ensures_about; [done..|]. intros Hi3. cbn [answer fst snd].
  apply ensures_bind. eapply ensures_mono; [|by apply note_zone_keeps]. intros complete db1 Hi4.
  apply ensures_about; [done..|]. intros Hi5. cbn beta. set (s' := with_asked _ _ s).
  assert (grows s s') as Hg by apply asked_grows. clearbody s'. unfold give_all, call. cbn [prog_bind].
  apply ensures_about; [done..|]. intros Hi6. cbn beta. cbn [answer snd]. apply ensures_bind.
  cbn [answer fst snd]. eapply ensures_mono; [|by apply give_loop_keeps]. intros [c s''] db3 [Hi7 Hg']. cbn in Hg'.
  destruct c; [|split; [done|by etrans]]. apply ensures_about; [done..|].
  intros Hi8. split; [done|by etrans].
Qed.
End Keeps.

(** *** The account's own part *)

Definition fresh (d : Due) : Prop := now - MAX_GAP <= start (d_event d).

Definition told (d : Due) (s : Sofar) (db : Db) : Prop :=
  has_rec (missed_key (d_event d)) db /\
  if d_missed d then gathered s = true /\ (fresh d -> waits (missed_key (d_event d)) db)
  else reminder_detail (show_ymd := show_ymd) account (d_event d) zone now ∈ given s.

Lemma told_mono d s s' db db' : grows s s' -> stays db db' -> told d s db -> told d s' db'.
Proof using.
  intros [Hg Hd] [_ _ Hr Hw] [H1 H2]. split; [by apply Hr|]. destruct (d_missed d); [|by apply Hd].
  destruct H2 as [H2 H3]. split; auto.
Qed.

Lemma give_one_tells d s db : ensures answered (stays db) (give_each account now zone Gather d (true, s))
  (fun cs' db' => cs'.1 = true /\ grows s cs'.2 /\ stays db db' /\ told d cs'.2 db') db.
Proof using JL show_ymd.
  unfold give_one. rewrite andb_false_r. unfold call.
  destruct (d_missed d) eqn:Ed; cbn [prog_bind]; intros db' x [-> ->].
  - assert (stays db (answer (GiveMissed account (d_event d) now) db).1) as Hs by by apply answer_stays.
    split; [done|]. cbn [ensures]. split; [done|]. split; [apply grows_gathers|]. split; [done|].
    unfold told. rewrite Ed. split; [|split; [done|by apply give_missed_new]]. unfold has_rec.
    destruct (give_missed_tables account (d_event d) db) as (_ & _ & Hf). cbn [answer fst].
    rewrite Hf. apply mark_has_rec. by right.
  - assert (stays db (answer (MarkFired account (id (d_event d)) (start (d_event d)) now) db).1) as Hs by by apply answer_stays.
    split; [done|]. cbn [ensures]. split; [done|]. split; [apply grows_given_one|]. split; [done|].
    unfold told. rewrite Ed. split; [apply mark_has_rec; by right|]. cbn. apply elem_of_app. right. by left.
Qed.

Lemma give_loop_tells l s db : ensures answered (stays db) (for_each l (true, s) (give_each account now zone Gather))
  (fun cs' db' => cs'.1 = true /\ grows s cs'.2 /\ stays db db' /\ Forall (fun d => told d cs'.2 db') l) db.
Proof using JL show_ymd.
  eapply (ensures_for_each _ _ _ _ (fun done cs' db' =>
    cs'.1 = true /\ grows s cs'.2 /\ stays db db' /\ Forall (fun d => told d cs'.2 db') done) _ []); [by repeat split| |done].
  intros don d [c s1] db1 (Hc & Hg & Hs & Ht) _. cbn in Hc, Hg, Ht. subst c.
  eapply ensures_mono_inv; [intros db' Hdb'; etrans; [exact Hs|exact Hdb']|].
  eapply ensures_mono; [|apply give_one_tells]. intros cs2 db2 (Hc2 & Hg2 & Hs2 & Ht2).
  split_and!; [done|by etrans|by etrans|]. apply Forall_app. split; [|by constructor].
  eapply Forall_impl; [exact Ht|]. intros x Hx. by eapply told_mono.
Qed.

Lemma due_same_tables db db' a previous : same_tables db db' -> due db' a now zone previous = due db a now zone previous.
Proof. destruct db, db'. cbn. intros (He & Hc & Hf). cbn in *. by subst. Qed.

Lemma look_recorded db offset : - 2 ^ 63 <= now < 2 ^ 63 -> - 2 ^ 31 <= offset < 2 ^ 31 ->
  unwrap_or 0 (offset_at zone now) = offset ->
  previous_look (record_look db account now zone) account = Some {| p_at := now; p_offset := offset |}.
Proof.
  intros Hn Ho Hoff. unfold previous_look, record_look. cbn [meta set_meta]. rewrite lookup_insert_eq, Hoff. cbn.
  rewrite split_once_app by (apply show_Z_chars; [lia|done]). cbn. unfold parse_i64, parse_i32.
  rewrite !parse_signed_show by lia. done.
Qed.

Lemma account_tells p s db : previous_look db account = Some p -> zone_changed p zone = false ->
  ensures answered (stays db) (look_account (show_ymd := show_ymd) now zone Gather account s)
    (fun s' db' => grows s s' /\ stays db db' /\ (forall d, d ∈ due db account now zone (Some p) -> told d s' db') /\
       exists db1, db' = record_look db1 account now zone) db.
Proof using JL show_ymd.
  intros Hp Hz. unfold look_account, call. cbn [prog_bind].
  assert (forall X (e : Ev X) (db0 : Db), about account e -> stays db db0 -> stays db (answer e db0).1) as HI.
  { intros X e db0 Ha Hs. etrans; [exact Hs|]. apply answer_stays. destruct e; cbn in Ha; try done; tauto. }
  apply (ensures_about _ _ HI); [done..|]. intros _. cbn [answer fst snd prog_bind].
  apply (ensures_about _ _ HI); [done..|]. intros _. cbn [answer fst snd prog_bind].
  apply (ensures_about _ _ HI); [done..|]. intros _. cbn [answer fst snd prog_bind]. rewrite Hp.
  unfold note_zone. cbn [is_some_and]. rewrite Hz. cbn [prog_bind].
  apply (ensures_about _ _ HI); [done..|]. intros H2. cbn beta. set (s1 := with_asked _ _ s).
  assert (grows s s1) as Hg1 by apply asked_grows. clearbody s1.
  pose proof (answer_tables (RereadDue account now) db eq_refl) as Htab.
  set (db2 := (answer (RereadDue account now) db).1) in *. clearbody db2.
  unfold give_all, call. cbn [prog_bind]. apply (ensures_about _ _ HI); [done..|]. intros _. cbn beta.
  cbn [answer fst snd]. apply ensures_bind. rewrite (due_same_tables _ _ _ _ Htab).
  eapply ensures_mono_inv; [intros db' Hdb'; etrans; [exact H2|exact Hdb']|].
  eapply ensures_mono; [|apply give_loop_tells]. intros [c s2] db3 (Hc & Hg2 & Hs2 & Ht). cbn in Hc, Hg2, Ht. subst c.
  intros db4 x [-> ->]. assert (stays db3 (record_look db3 account now zone)) as H4.
  { apply (answer_stays (RecordLook account now zone) db3). done. }
  assert (stays db (record_look db3 account now zone)) as H5.
  { etrans; [exact H2|]. etrans; [exact Hs2|exact H4]. }
  split; [exact H5|]. cbn [ensures]. split_and!; [by etrans|exact H5| |by exists db3].
  intros d Hd. rewrite Forall_forall in Ht. eapply told_mono; [reflexivity|exact H4|by apply Ht].
Qed.

(** *** The whole look *)

(** What a look at another account leaves of this one. *)
Record apart (db db' : Db) : Prop := {
  apart_stays : stays db db';
  apart_look : meta db' !! look_key account = meta db !! look_key account;
  apart_records : forall f, f ∈ fired db' -> f_account f = account -> f ∈ fired db
}.

#[local] Instance apart_preorder : PreOrder apart.
Proof.
  split; [by split|]. intros a b c [H1 H2 H3] [H4 H5 H6]. split; [by etrans|congruence|auto].
Qed.

Lemma answer_apart {X} (e : Ev X) a db : about a e -> a <> account -> apart db (answer e db).1.
Proof using JL show_ymd.
  intros Ha Hne. assert (Hs : stays db (answer e db).1) by (apply answer_stays; destruct e; cbn in Ha; try done; tauto).
  assert (forall key v, look_key account <> key -> (<[key := v]> (meta db) : gmap text text) !! look_key account = meta db !! look_key account) as Hi.
  { intros key v Hk. by rewrite lookup_insert_ne. }
  assert (forall key, look_key account <> key -> (delete key (meta db) : gmap text text) !! look_key account = meta db !! look_key account) as Hd.
  { intros key Hk. by rewrite lookup_delete_ne. }
  destruct (look_key_apart account) as (Hm1 & _ & Hm2).
  destruct e; cbn in Ha, Hs |- *; subst; try reflexivity.
  - split; [done|by apply Hi|done].
  - unfold reread_due in *. destruct (read_reread db a) as [[]|]; [|reflexivity].
    repeat case_match; simplify_eq; try reflexivity; cbn in Hs |- *; (split; [done|cbn; auto|done]).
  - destruct Ha as [-> ->]. destruct (give_missed_tables a e db) as (_ & _ & Hf). split; [done| |].
    + unfold give_missed, write_missed. case_match; cbn; [by apply Hd|by apply Hi].
    + rewrite Hf. intros f [Hf'|Hf']%elem_of_app Hfa; [by apply elem_of_delete_where in Hf' as []|].
      apply list_elem_of_singleton in Hf' as ->. cbn in Hfa. congruence.
  - destruct Ha as [-> ->]. split; [done|done|]. intros f [Hf'|Hf']%elem_of_app Hfa; [by apply elem_of_delete_where in Hf' as []|].
    apply list_elem_of_singleton in Hf' as ->. cbn in Hfa. congruence.
  - split; [done| |done]. apply Hi. intros E. by apply look_key_inj in E.
Qed.

Lemma others_apart l s db db0 : account ∉ l -> apart db0 db ->
  ensures answered (apart db0) (for_each l s (look_account (show_ymd := show_ymd) now zone Gather))
    (fun s' db' => apart db0 db' /\ grows s s') db.
Proof using JL show_ymd.
  intros Hl Ha. eapply (ensures_for_each _ _ _ _ (fun _ s' db' => apart db0 db' /\ grows s s') _ []); [by split| |done].
  intros don a s1 db1 [H1 Hg] Hin. eapply ensures_mono; [|apply look_account_keeps; [|exact H1]].
  - intros s2 db2 [H2 Hg2]. split; [done|by etrans].
  - intros X e db2 Hab H2. etrans; [exact H2|]. eapply answer_apart; [exact Hab|]. intros ->. done.
Qed.

Lemma notice_keys pending n m : missed_notice (show_ymd := show_ymd) pending zone now = Some n -> m ∈ pending ->
  (m_account m, m_key m) ∈ n_keys n.
Proof.
  unfold missed_notice. set (l := order_by _ _). intros Hn Hm.
  assert (exists at_, (at_, m) ∈ l) as [at_ Hin].
  { eexists. subst l. rewrite order_by_perm. apply list_elem_of_fmap. by exists m. }
  clearbody l. destruct (head l); [|done]. destruct (last l); [|done]. cbn in Hn. injection Hn as <-. cbn.
  apply list_elem_of_fmap. by exists (at_, m).
Qed.

Lemma notice_some pending m : m ∈ pending -> is_Some (missed_notice (show_ymd := show_ymd) pending zone now).
Proof.
  intros Hm. unfold missed_notice. set (l := order_by _ _).
  assert (l <> []) as Hl.
  { intros E. assert (exists x, x ∈ l) as [x Hx]; [|rewrite E in Hx; by apply elem_of_nil in Hx].
    eexists. subst l. rewrite order_by_perm. apply list_elem_of_fmap. by exists m. }
  clearbody l. destruct l as [|x l]; [done|]. cbn [head]. destruct (last (x :: l)) eqn:E; [by eexists|].
  by apply last_None in E.
Qed.

Lemma can_ring_apart db db' r : apart db db' -> can_ring db account r = true -> can_ring db' account r = true.
Proof.
  intros [_ _ Hr]. unfold can_ring. rewrite !andb_true_iff, bool_decide_eq_true. intros [[[Ha Hm] Hc] Hu]. split_and!; try done.
  unfold unrecorded in *. apply negb_true_iff, not_true_iff_false. apply negb_true_iff, not_true_iff_false in Hu.
  intros (f & Hf & Hk)%existsb_exists. apply Hu, existsb_exists. exists f. split; [|done].
  apply list_elem_of_In. apply list_elem_of_In in Hf. apply Hr; [done|]. bools in Hk. destruct Hk as [Hk _]. congruence.
Qed.

(** The whole look, up to the notice. *)
Lemma look_tells accounts p db : NoDup accounts -> account ∈ accounts ->
  previous_look db account = Some p -> zone_changed p zone = false ->
  ensures answered (fun _ => True)
    (for_each accounts {| gathered := false; given := []; to_reread := [] |} (look_account (show_ymd := show_ymd) now zone Gather))
    (fun s' db' => (forall d, (forall db1, apart db db1 -> d ∈ due db1 account now zone (Some p)) -> told d s' db') /\
       exists db1, meta db' !! look_key account = meta (record_look db1 account now zone) !! look_key account) db.
Proof using JL show_ymd.
  intros Hnd Hin Hp Hzc. apply list_elem_of_split in Hin as (l1 & l2 & ->).
  apply NoDup_app in Hnd as (_ & Hno & [Hl2 _]%NoDup_cons).
  assert (account ∉ l1) as Hl1. { intros Hin. apply (Hno _ Hin). by left. }
  apply ensures_for_each_app. eapply ensures_mono_inv; [intros ? _; exact Logic.I|].
  eapply ensures_mono; [|apply (others_apart l1 _ db db); [done|reflexivity]]. intros s1 db1 [H1 Hg1].
  cbn [for_each]. apply ensures_bind. eapply ensures_mono_inv; [intros ? _; exact Logic.I|].
  eapply ensures_mono; [|apply (account_tells p)]; [|unfold previous_look; rewrite (apart_look _ _ H1); exact Hp|done].
  intros s2 db2 (Hg2 & Hs2 & Ht & db0 & Hr). eapply ensures_mono_inv; [intros ? _; exact Logic.I|].
  eapply ensures_mono; [|apply (others_apart l2 _ db2 db2); [done|reflexivity]]. intros s3 db3 [H3 Hg3].
  split.
  - intros d Hd. eapply told_mono; [exact Hg3|apply H3|]. apply Ht. by apply Hd.
  - exists db0. rewrite (apart_look _ _ H3). by rewrite Hr.
Qed.

(** C16. A reminder that comes due between two looks, not told before, of an
    event not cancelled, whose calendar is shown, of an account that the second
    look goes through (so neither paused nor muted), is told by the second look,
    if it is in the same zone, not more than a fortnight after the first, and no
    statement of it fails: it is recorded as given, and among the reminders of
    the look; or, when its event is over by then and was not declined, among the
    missed ones the notice names. The next look will look on from this one. *)
Theorem a_reminder_is_told accounts p r c t db db' l offset :
  near zone -> NoDup accounts -> account ∈ accounts ->
  - 2 ^ 63 <= now < 2 ^ 63 -> - 2 ^ 31 <= offset < 2 ^ 31 -> unwrap_or 0 (offset_at zone now) = offset ->
  previous_look db account = Some p -> zone_changed p zone = false ->
  r ∈ calendar_events db -> c ∈ calendars db -> shown_in r c = true -> can_ring db account r = true ->
  timing zone (event r) = Some t -> p_at p < fire_at t -> fire_at t <= now -> now - MAX_GAP <= p_at p ->
  exec (fun X => @answer _ _ X) (look (show_ymd := show_ymd) accounts now zone) db = (db', l) ->
  previous_look db' account = Some {| p_at := now; p_offset := offset |} /\
  if (t_start t <? now) && (t_end t <=? now) then
    declined (event r) = false ->
    has_rec (missed_key (event r)) db' /\
    (now - MAX_GAP <= start (event r) -> exists n, missed l = Some n /\ (account, missed_key (event r)) ∈ n_keys n)
  else has_rec (missed_key (event r)) db' /\ reminder_detail (show_ymd := show_ymd) account (event r) zone now ∈ reminders l.
Proof using JL show_ymd.
  intros Hz Hnd Hin Hnow Hoff Hof Hp Hzc Hr Hc Hs Hcan Ht Hlt Hle Hgap Hexec.
  assert (runs answered (look (show_ymd := show_ymd) accounts now zone) db db' (Some l)) as Hruns.
  { pose proof (exec_runs (fun X => @answer _ _ X) answered (fun X e w => conj eq_refl eq_refl)
      (look (show_ymd := show_ymd) accounts now zone) db) as Hr'. by rewrite Hexec in Hr'. }
  assert (forall d, d_event d = event r -> d_timing d = t -> d_missed d = (t_start t <? now) && (t_end t <=? now) ->
    (d_missed d = true -> declined (event r) = false) -> forall db1, apart db db1 -> d ∈ due db1 account now zone (Some p)) as Hdue.
  { intros d He Htm Hm Hdec db1 Ha. apply due_exact; [done|]. exists r, c.
    rewrite (stays_events _ _ (apart_stays _ _ Ha)), (stays_calendars _ _ (apart_stays _ _ Ha)), Htm.
    split_and!; try done; [by eapply can_ring_apart|]. split; [done|].
    right. exists p, t. rewrite Hzc. split_and!; [done..|lia]. }
  set (Q := fun (r0 : Look) (db0 : Db) => exists s', (forall d, (forall db1, apart db db1 -> d ∈ due db1 account now zone (Some p)) -> told d s' db0) /\
    (exists db1, meta db0 !! look_key account = meta (record_look db1 account now zone) !! look_key account) /\
    reminders r0 = given s' /\ (gathered s' = true -> missed r0 = missed_notice (show_ymd := show_ymd) (pending_missed db0) zone now)).
  assert (Q l db') as (s' & Htold & (db1 & Hmeta) & Hrem & Hmiss).
  { eapply ensures_end; [|exact Hruns]. instantiate (1 := fun _ => True). unfold look, look_for. apply ensures_bind.
    eapply ensures_mono; [|by apply (look_tells accounts p db)]. intros s' db0 [H1 H2].
    destruct (gathered s') eqn:Eg.
    - intros db2 x [-> ->]. split; [done|]. cbn. exists s'. done.
    - cbn. exists s'. split_and!; try done. by rewrite Eg. }
  split.
  - unfold previous_look. rewrite Hmeta. by apply look_recorded.
  - set (d := {| d_event := event r; d_timing := t; d_missed := (t_start t <? now) && (t_end t <=? now) |}).
    destruct ((t_start t <? now) && (t_end t <=? now)) eqn:Eo.
    + intros Hdec. destruct (Htold d) as [Hrec [Hg Hw]]; [by apply Hdue|]. split; [exact Hrec|]. intros Hfresh.
      destruct (Hw Hfresh) as (m & Hm & Hk & _). unfold is_missed in Hk. bools in Hk. destruct Hk as [Hka Hkk].
      destruct (notice_some _ _ Hm) as [n Hn]. exists n. rewrite Hmiss by done. split; [done|].
      cbn [d_event d] in Hkk; rewrite <- Hka, <- Hkk. by eapply notice_keys.
    + destruct (Htold d) as [Hrec Hg]; [by apply Hdue|]. split; [exact Hrec|]. rewrite Hrem. exact Hg.
Qed.
End Told.
End ReminderTold.

(** * A day of reminders

    A concrete JSON for the missed reminders, and looks at small calendars:
    the code's own tests of a gap, and an event kept in two calendars. *)

#[local] Open Scope Z_scope.

Module ReminderDemo.
Import Reminders ReminderLaws ReminderTold.

(** ** A codec *)

Definition MissedTuple : Type :=
  text * text * (text * text * text * Z * Z * bool * option text * option Z * text).

Definition to_tuple (m : Missed) : MissedTuple :=
  let e := m_event m in
  (m_account m, m_key m, (calendar_id e, id e, subject e, start e, end_ e, all_day e, location e, reminder_minutes e, my_response e)).

Definition of_tuple (t : MissedTuple) : Missed :=
  let '(a, k, (c, i, s, st, en, ad, lo, mi, re)) := t in
  {| m_account := a; m_key := k;
     m_event := {| calendar_id := c; id := i; subject := s; start := st; end_ := en; all_day := ad; location := lo;
                   reminder_minutes := mi; my_response := re |} |}.

#[export] Instance json : MissedJson := {|
  write_json l := [Zpos (encode (to_tuple <$> l : list MissedTuple))];
  read_json s := match s with [Zpos p] => (fun l : list MissedTuple => of_tuple <$> l) <$> decode p | _ => None end
|}.

#[export] Instance json_laws : MissedJsonLaws json.
Proof.
  constructor. intros l. cbn. rewrite decode_encode. cbn. f_equal. rewrite <- list_fmap_compose.
  rewrite <- (list_fmap_id l) at 2. apply list_fmap_ext. intros i m _. by destruct m as [? ? []].
Qed.

(** ** A calendar *)

Definition ymd (date : Z) : text := show_Z date.
Definition acct : text := lit "acct".
Definition on_calendar (c : string) : CalendarRow :=
  {| c_account := acct; provider_id := lit c; enabled := true; kind := lit "account"; synced_at := 0 |}.

(** An event of an hour with a reminder a quarter before. *)
Definition timed (cal name : string) (at_ : Z) : EventRow :=
  {| e_account := acct; is_cancelled := false;
     event := {| calendar_id := lit cal; id := lit name; subject := lit name; start := at_; end_ := at_ + 3600;
                 all_day := false; location := None; reminder_minutes := Some 15; my_response := [] |} |}.

Definition nine : Z := 1792486800.
Definition utc : Zone := fixed_offset 0.

(** Looked at an hour before nine. *)
Definition before_nine (events : list EventRow) (cals : list CalendarRow) : Db :=
  record_look {| calendars := cals; calendar_events := events; fired := []; meta := ∅ |} acct (nine - 3600) utc.

Definition one_event : Db := before_nine [timed "cal" "standup" nine] [on_calendar "cal"].

Lemma utc_near : near utc.
Proof. apply fixed_near. Qed.

(** Every call answered. *)
Definition handle X (e : Ev X) (w : World) : World * X :=
  ({| w_db := (answer e (w_db w)).1; w_given := w_given w ++ gives e |}, (answer e (w_db w)).2).

Lemma looks_do i s t X (e : Ev X) w : does i s t X e w (handle X e w).1 (handle X e w).2.
Proof.
  destruct (failed e []) as [x|] eqn:E; [left; by rewrite E|]. right. right. split; [done|].
  exists (w_db w). split; [by split_and!|]. destruct e; try done; cbn; rewrite app_nil_r; by destruct w.
Qed.

Definition looks_at (now : Z) (w : World) : World :=
  (exec handle (look (show_ymd := ymd) [acct] now utc) w).1.

Lemma goes_looking i s t clock w now : clock <= now ->
  goes_on (show_ymd := ymd) i s t (clock, w) (now, looks_at now w).
Proof.
  intros Hc. eapply (goes_look _ _ _ _ _ [acct] _ utc Gather); [done|apply utc_near|].
  apply (exec_runs handle). intros. apply looks_do.
Qed.

(** C15. At twenty past nine the reminder is given; at half past, not again. *)
Lemma a_reminder_is_given_once_witness :
  let w := looks_at (nine + 1800) (looks_at (nine + 1200) {| w_db := one_event; w_given := [] |}) in
  times acct (lit "standup") nine (w_given w) = 1%nat /\ (times acct (lit "standup") nine (w_given w) <= 1)%nat.
Proof.
  cbn zeta. split; [vm_compute; reflexivity|].
  apply (a_reminder_is_given_once (show_ymd := ymd) acct (lit "standup") nine nine {| w_db := one_event; w_given := [] |} (nine + 1800)).
  - unfold nine. lia.
  - split; [vm_compute; lia|]. vm_compute. repeat constructor. intros []%elem_of_nil.
  - reflexivity.
  - eapply rtc_l; [apply (goes_looking _ _ _ _ _ (nine + 1200)); lia|].
    apply rtc_once, goes_looking. lia.
Defined.

(** C17. An event on at the look, whose reminder came since the one before. *)
Lemma a_look_is_exact_witness :
  exists d, d ∈ due one_event acct (nine + 1200) utc (previous_look one_event acct) /\ d_missed d = false.
Proof.
  set (e := event (timed "cal" "standup" nine)).
  exists {| d_event := e; d_timing := {| fire_at := nine - 900; t_start := nine; t_end := nine + 3600 |}; d_missed := false |}.
  split; [|reflexivity]. apply a_look_is_exact; [apply utc_near|].
  exists (timed "cal" "standup" nine), (on_calendar "cal").
  split_and!; [by left|by left|vm_compute; reflexivity..| | |done].
  - split; [vm_compute; discriminate|]. right.
    exists {| p_at := nine - 3600; p_offset := 0 |}, {| fire_at := nine - 900; t_start := nine; t_end := nine + 3600 |}.
    split_and!; vm_compute; reflexivity.
  - vm_compute. reflexivity.
Defined.

(** C16. An hour's gap, with the event on at its end. *)
Lemma a_reminder_is_told_witness :
  reminder_detail (show_ymd := ymd) acct (event (timed "cal" "standup" nine)) utc (nine + 1200)
    ∈ reminders (exec (fun X => @answer _ _ X) (look (show_ymd := ymd) [acct] (nine + 1200) utc) one_event).2.
Proof.
  set (run := exec _ _ _).
  refine (proj2 (proj2 (a_reminder_is_told (show_ymd := ymd) acct (nine + 1200) utc [acct] {| p_at := nine - 3600; p_offset := 0 |}
    (timed "cal" "standup" nine) (on_calendar "cal") {| fire_at := nine - 900; t_start := nine; t_end := nine + 3600 |}
    one_event run.1 run.2 0 utc_near _ _ _ _ _ _ _ _ _ _ _ _ _ _ _ _))).
  1: apply NoDup_singleton.
  1: by left.
  1-2: unfold nine; lia.
  1-3: vm_compute; reflexivity.
  1-2: by left.
  1-4: vm_compute; reflexivity.
  1-2: vm_compute; discriminate.
  apply surjective_pairing.
Defined.

(** One event kept in two calendars of an account, as an invitation
    filed in both is, rings twice in one look, although a look is said to
    give each reminder once: the record that it was given is read before
    either is written. *)
Example two_calendars_ring_twice :
  let db := before_nine [timed "work" "uid@1792486800" nine; timed "home" "uid@1792486800" nine] [on_calendar "work"; on_calendar "home"] in
  NoDup ((fun r => (e_account r, calendar_id (event r), id (event r))) <$> calendar_events db) /\
  exists d, reminders (exec (fun X => @answer _ _ X) (look (show_ymd := ymd) [acct] nine utc) db).2 = [d; d].
Proof.
  split.
  - apply (bool_decide_unpack _). vm_compute. exact I.
  - eexists. vm_compute. reflexivity.
Qed.
End ReminderDemo.
