(* ===== verification/Mbox.v ===== *)
(** * Mailboxes in one file

    Models the mbox files of [meron-core/src/archive.rs]: [split_mbox], which
    takes one apart, and [write_mbox_entry], which appends a message to one.
    Bytes are numbers, and a file the list of them.

    A file written message by message is taken apart into those messages, but
    for how each ends ([mailbox_reads_back]). *)
From S2P Require Import Prelude.
From S2P Require Import Text.
#[local] Open Scope Z_scope.

Notation bytes := (list Z) (only parsing).

Module Mbox.

Definition LF : Z := 10.
Definition CR : Z := 13.
Definition GT : Z := 62.

(** [slice.split_inclusive(|byte| *byte == b'\n')] *)
Fixpoint split_lines (b : bytes) : list bytes :=
  match b with
  | [] => []
  | c :: b' =>
      if c =? LF then [c] :: split_lines b'
      else match split_lines b' with
           | [] => [[c]]
           | line :: rest => (c :: line) :: rest
           end
  end.

Definition from_ : bytes := lit "From ".

(** [line.iter().skip_while(|b| **b == b'>').take(5).eq(b"From ".iter())] *)
Definition quoted_from (line : bytes) : bool :=
  bool_decide (take 5 (trim_start_matches (Z.eqb GT) line) = from_).

Definition unquote (line : bytes) : bytes :=
  if starts_with [GT] line && quoted_from line then drop 1 line else line.

(** The loop over the lines: the messages read, and the one being read. *)
Definition read_line (st : list bytes * option bytes) (line : bytes) : list bytes * option bytes :=
  let '(messages, current) := st in
  if starts_with from_ line then
    (match current with Some done => messages ++ [done] | None => messages end, Some [])
  else match current with
       | None => (messages, None)
       | Some message => (messages, Some (message ++ unquote line))
       end.

(** The blank lines a message ends with, taken off; the bytes come last
    first. *)
Fixpoint drop_blank (fuel : nat) (r : bytes) : bytes :=
  match fuel with
  | O => r
  | S fuel' =>
      if starts_with [LF] r && (starts_with [LF; LF] r || starts_with [LF; CR; LF; CR] r)
      then drop_blank fuel' (unwrap_or (drop 1 r) (strip_prefix [CR] (drop 1 r)))
      else r
  end.

Definition trim_blank (message : bytes) : bytes := rev (drop_blank (length message) (rev message)).

Definition split_mbox (file : bytes) : list bytes :=
  let '(messages, current) := foldl read_line ([], None) (split_lines file) in
  let messages := match current with Some done => messages ++ [done] | None => messages end in
  base.filter (fun m => m <> []) (trim_blank <$> messages).

(** [when] is the stamp in words. *)
Definition write_line (line : bytes) : bytes := if quoted_from line then GT :: line else line.

Definition write_mbox_entry (when : bytes) (raw : bytes) : bytes :=
  lit "From - " ++ when ++ [LF] ++
  concat (write_line <$> split_lines raw) ++
  (if ends_with [LF] raw then [] else [LF]) ++ [LF].

(** ** Lines *)

(** A line with its end. *)
Definition full (line : bytes) : Prop := exists body, line = body ++ [LF] /\ LF ∉ body.

Lemma split_cons c b : split_lines (c :: b) =
  if c =? LF then [c] :: split_lines b
  else match split_lines b with [] => [[c]] | line :: rest => (c :: line) :: rest end.
Proof. done. Qed.

Lemma split_full body b : LF ∉ body -> split_lines (body ++ LF :: b) = (body ++ [LF]) :: split_lines b.
Proof.
  induction body as [|c body IH]; [done|]. intros [Hc Hb]%not_elem_of_cons. cbn.
  destruct (Z.eqb_spec c LF); [by subst|]. by rewrite IH.
Qed.

Lemma split_concat ls : Forall full ls -> split_lines (concat ls) = ls.
Proof.
  induction 1 as [|l ls (body & -> & Hb) _ IH]; [done|]. cbn [concat].
  rewrite <- (assoc_L (++)). cbn. rewrite split_full by done. by rewrite IH.
Qed.

Lemma concat_split b : concat (split_lines b) = b.
Proof.
  induction b as [|c b IH]; [done|]. cbn. destruct (c =? LF); cbn; [by rewrite IH|].
  destruct (split_lines b) as [|l ls]; cbn in *; by rewrite <- IH.
Qed.

(** A text that ends a line is made of full lines. *)
Lemma ended_full b : Forall full (split_lines (b ++ [LF])).
Proof.
  induction b as [|c b IH]; cbn.
  - constructor; [by exists []; split; [|apply not_elem_of_nil]|constructor].
  - destruct (Z.eqb_spec c LF) as [->|Hc].
    + constructor; [by exists []; split; [|apply not_elem_of_nil]|done].
    + destruct (split_lines (b ++ [LF])) as [|l ls] eqn:E; [by destruct b; cbn in E; repeat case_match|].
      inversion IH as [|? ? (body & -> & Hb) Hls]; subst. constructor; [|done].
      exists (c :: body). split; [done|]. by apply not_elem_of_cons.
Qed.

(** [raw] with its last line ended. *)
Definition ended (raw : bytes) : bytes := if ends_with [LF] raw then raw else raw ++ [LF].

Lemma ends_snoc c b : ends_with [c] b = true <-> exists a, b = a ++ [c].
Proof. by rewrite ends_with_spec. Qed.

Lemma ended_lines raw : Forall full (split_lines (ended raw)).
Proof.
  unfold ended. destruct (ends_with [LF] raw) eqn:E; [|apply ended_full].
  apply ends_snoc in E as [a ->]. apply ended_full.
Qed.

(** ** Quoting *)

Lemma starts_take p s : starts_with p s = true <-> take (length p) s = p.
Proof.
  rewrite starts_with_spec. split; [intros [r ->]; apply take_app_length|].
  intros Ht. exists (drop (length p) s). by rewrite <- Ht at 1; rewrite take_drop.
Qed.

Lemma from_quoted line : starts_with from_ line = true -> quoted_from line = true.
Proof.
  intros H. unfold quoted_from. apply bool_decide_eq_true. apply starts_with_spec in H as [r ->]. reflexivity.
Qed.

Lemma quoted_gt line : quoted_from (GT :: line) = quoted_from line.
Proof. done. Qed.

Lemma write_not_from line : starts_with from_ (write_line line) = false.
Proof.
  unfold write_line. destruct (quoted_from line) eqn:E; [done|].
  apply not_true_iff_false. intros H%from_quoted. congruence.
Qed.

Lemma unquote_write line : unquote (write_line line) = line.
Proof.
  unfold unquote, write_line. destruct (quoted_from line) eqn:E.
  - by rewrite quoted_gt, E.
  - rewrite E. by rewrite andb_false_r.
Qed.

Lemma write_full line : full line -> full (write_line line).
Proof.
  intros (body & -> & Hb). unfold write_line. case_match; [|by exists body].
  exists (GT :: body). split; [done|]. apply not_elem_of_cons. split; [done|done].
Qed.

(** ** Files *)

Lemma read_lines msgs cur ls : Forall full ls ->
  foldl read_line (msgs, Some cur) (write_line <$> ls) = (msgs, Some (cur ++ concat ls)).
Proof.
  intros _. revert cur. induction ls as [|l ls IH]; intros cur; [by rewrite app_nil_r|].
  rewrite fmap_cons. cbn [foldl]. unfold read_line at 2. rewrite write_not_from, unquote_write, IH.
  by rewrite <- (assoc_L (++)).
Qed.

Lemma trim_gt_ended line : trim_start_matches (Z.eqb GT) (line ++ [LF]) = trim_start_matches (Z.eqb GT) line ++ [LF].
Proof. induction line as [|c line IH]; [done|]. cbn [app trim_start_matches]. destruct (GT =? c); [exact IH|done]. Qed.

(** Ending a line does not make it look like a separator. *)
Lemma quoted_ended line : quoted_from (line ++ [LF]) = quoted_from line.
Proof.
  unfold quoted_from. rewrite trim_gt_ended. set (t := trim_start_matches _ line).
  apply bool_decide_ext. destruct (decide (5 <= length t)%nat) as [Hl|Hl].
  - by rewrite take_app_le.
  - rewrite (take_ge (t ++ [LF])) by (rewrite length_app; cbn; lia). split.
    + intros E. assert (last (t ++ [LF]) = last from_) as El by (by rewrite E). rewrite last_snoc in El. discriminate.
    + rewrite take_ge by lia. intros E. apply (f_equal length) in E. change (length from_) with 5%nat in E. lia.
Qed.

Lemma write_ended line : write_line (line ++ [LF]) = write_line line ++ [LF].
Proof. unfold write_line. rewrite quoted_ended. by case_match. Qed.

(** Full lines, and what is left of the last. *)
Lemma lines_and_rest b : exists ls rest, b = concat ls ++ rest /\ Forall full ls /\ LF ∉ rest.
Proof.
  induction b as [|c b (ls & rest & -> & Hls & Hr)].
  { exists [], []. split_and!; [done|constructor|apply not_elem_of_nil]. }
  destruct (decide (c = LF)) as [->|Hc].
  - exists ([LF] :: ls), rest. split_and!; [done| |done]. constructor; [|done]. exists []. split; [done|apply not_elem_of_nil].
  - destruct Hls as [|l ls (body & -> & Hb) Hls].
    + exists [], (c :: rest). split_and!; [done|constructor|]. by apply not_elem_of_cons.
    + exists (((c :: body) ++ [LF]) :: ls), rest. split_and!; [done| |done]. constructor; [|done].
      exists (c :: body). split; [done|]. by apply not_elem_of_cons.
Qed.

Lemma split_rest ls rest : Forall full ls -> LF ∉ rest -> rest <> [] -> split_lines (concat ls ++ rest) = ls ++ [rest].
Proof.
  intros Hls Hr Hne. induction Hls as [|l ls (body & -> & Hb) _ IH]; cbn [concat app].
  - destruct rest as [|c rest]; [done|]. clear Hne. revert c Hr. induction rest as [|d rest IH]; intros c [Hc Hr]%not_elem_of_cons; rewrite split_cons.
    + destruct (Z.eqb_spec c LF); [by subst|done].
    + destruct (Z.eqb_spec c LF); [by subst|]. cbn [app] in IH. by rewrite (IH d Hr).
  - rewrite <- !(assoc_L (++)). cbn [app]. rewrite split_full by done. by rewrite IH.
Qed.

(** Ending the text ends its last line. *)
Lemma write_lines_ended b : ends_with [LF] b = false ->
  concat (write_line <$> split_lines b) ++ [LF] = concat (write_line <$> split_lines (b ++ [LF])).
Proof.
  destruct (lines_and_rest b) as (ls & rest & -> & Hls & Hr). intros He.
  destruct (decide (rest = [])) as [->|Hne].
  - destruct ls as [|l ls _] using rev_ind; [done|]. apply not_true_iff_false in He. destruct He. apply ends_snoc.
    apply Forall_app in Hls as [_ [(body & -> & _) _]%Forall_cons]. exists (concat ls ++ body).
    rewrite concat_app. cbn. by rewrite !app_nil_r, (assoc_L (++)).
  - rewrite split_rest by done.
    assert (concat ls ++ rest ++ [LF] = concat (ls ++ [rest ++ [LF]])) as E by (rewrite concat_app; cbn; by rewrite app_nil_r).
    rewrite <- (assoc_L (++)), E, split_concat.
    + rewrite !fmap_app, !concat_app, <- (assoc_L (++)). cbn [fmap list_fmap concat]. by rewrite !app_nil_r, write_ended.
    + apply Forall_app. split; [done|]. constructor; [by exists rest|done].
Qed.

(** An entry is a separator, the message's lines and a blank one. *)
Definition entry (when raw : bytes) : list bytes :=
  ((lit "From - " ++ when) ++ [LF]) :: (write_line <$> split_lines (ended raw)) ++ [[LF]].

Lemma entry_concat when raw : write_mbox_entry when raw = concat (entry when raw).
Proof.
  unfold write_mbox_entry, entry, ended. cbn [concat]. rewrite concat_app, <- !(assoc_L (++)). do 3 f_equal. cbn [concat].
  rewrite app_nil_r. destruct (ends_with [LF] raw) eqn:E; [done|]. rewrite (assoc_L (++)), <- write_lines_ended by done. done.
Qed.

Lemma entry_full when raw : LF ∉ when -> Forall full (entry when raw).
Proof.
  intros Hw. constructor.
  - exists (lit "From - " ++ when). split; [done|]. apply not_elem_of_app. split; [|done].
    apply (bool_decide_unpack _). vm_compute. exact I.
  - apply Forall_app. split; [|constructor; [|done]].
    + apply Forall_fmap. eapply Forall_impl; [apply ended_lines|]. apply write_full.
    + exists []. split; [done|apply not_elem_of_nil].
Qed.

Lemma entries_lines when ms : LF ∉ when ->
  split_lines (concat (write_mbox_entry when <$> ms)) = ms ≫= entry when.
Proof.
  intros Hw. assert (concat (write_mbox_entry when <$> ms) = concat (ms ≫= entry when)) as ->.
  { induction ms as [|m ms IH]; [done|]. rewrite fmap_cons, bind_cons, concat_app, <- entry_concat. cbn [concat]. by rewrite IH. }
  apply split_concat. induction ms as [|m ms IH]; [constructor|]. rewrite bind_cons. apply Forall_app. split; [by apply entry_full|done].
Qed.

(** What the reader makes of a message written. *)
Definition as_read (raw : bytes) : bytes := ended raw ++ [LF].
Definition flush (st : list bytes * option bytes) : list bytes := st.1 ++ match st.2 with Some m => [m] | None => [] end.

Lemma read_entry st when raw : foldl read_line st (entry when raw) = (flush st, Some (as_read raw)).
Proof.
  destruct st as [msgs cur]. unfold entry. cbn [foldl]. unfold read_line at 2.
  assert (starts_with from_ ((lit "From - " ++ when) ++ [LF]) = true) as ->.
  { apply starts_with_spec. by exists ((lit "- " ++ when) ++ [LF]). }
  rewrite foldl_app. unfold flush. cbn [fst snd].
  replace (match cur with Some done => msgs ++ [done] | None => msgs end) with (msgs ++ match cur with Some m => [m] | None => [] end)
    by (destruct cur; [done|apply app_nil_r]).
  rewrite read_lines by apply ended_lines. rewrite concat_split. reflexivity.
Qed.

Lemma read_entries when ms st : flush (foldl read_line st (ms ≫= entry when)) = flush st ++ (as_read <$> ms).
Proof.
  revert st. induction ms as [|m ms IH]; intros st; [by rewrite app_nil_r|].
  rewrite bind_cons, foldl_app, read_entry, IH. unfold flush at 1. cbn. by rewrite <- (assoc_L (++)).
Qed.

(** ** How a message ends *)

Definition settle (raw : bytes) : bytes := trim_blank (as_read raw).

(** A message that ends its last line, and with no blank line. *)
Definition well_ended (raw : bytes) : bool :=
  ends_with [LF] raw && negb (ends_with [LF; LF] raw || ends_with [CR; LF; CR; LF] raw).

Definition blank_end (r : bytes) : bool :=
  starts_with [LF] r && (starts_with [LF; LF] r || starts_with [LF; CR; LF; CR] r).

Lemma drop_blank_S fuel r : drop_blank (S fuel) r =
  if blank_end r then drop_blank fuel (unwrap_or (drop 1 r) (strip_prefix [CR] (drop 1 r))) else r.
Proof. done. Qed.

(** What is dropped of a blank end. *)
Lemma blank_step r : blank_end r = true -> exists r',
  unwrap_or (drop 1 r) (strip_prefix [CR] (drop 1 r)) = LF :: r' /\
  (r = LF :: LF :: r' \/ r = LF :: CR :: LF :: r').
Proof.
  unfold blank_end. rewrite andb_true_iff, orb_true_iff, !starts_with_spec.
  intros [_ [[r' ->]|[r' ->]]]; cbn; [by exists r'; split; [|left]|by exists (CR :: r'); split; [|right]].
Qed.

Lemma drop_blank_spec fuel r : (length r <= fuel)%nat -> starts_with [LF] r = true ->
  exists t, r = t ++ drop_blank fuel r /\ Forall (fun c => c = LF \/ c = CR) t /\
    blank_end (drop_blank fuel r) = false /\ starts_with [LF] (drop_blank fuel r) = true.
Proof.
  revert r. induction fuel as [|fuel IH]; intros r Hl Hs; [by destruct r; cbn in Hl; [|lia]|].
  rewrite drop_blank_S. destruct (blank_end r) eqn:E; [|by exists []; repeat split].
  destruct (blank_step _ E) as (r' & -> & Hr).
  destruct (IH (LF :: r')) as (t & Ht & Hall & Hb & Hst); [destruct Hr as [-> | ->]; cbn in *; lia|done|].
  destruct Hr as [-> | ->].
  - exists (LF :: t). cbn [app]. rewrite <- Ht. split_and!; [done| |done..]. constructor; [by left|done].
  - exists (LF :: CR :: t). cbn [app]. rewrite <- Ht. split_and!; [done| |done..]. constructor; [by left|]. constructor; [by right|done].
Qed.

Lemma ends_rev p r : ends_with p (rev r) = starts_with (rev p) r.
Proof. unfold ends_with. by rewrite rev_involutive. Qed.

Lemma well_ended_rev raw : well_ended raw = starts_with [LF] (rev raw) && negb (blank_end (rev raw)).
Proof. unfold well_ended, blank_end, ends_with. cbn [rev app]. by destruct (starts_with [LF] (rev raw)). Qed.

Lemma settle_spec raw : well_ended (settle raw) = true /\
  exists t, as_read raw = settle raw ++ t /\ Forall (fun c => c = LF \/ c = CR) t.
Proof.
  unfold settle, trim_blank. set (b := as_read raw).
  destruct (drop_blank_spec (length b) (rev b)) as (t & Ht & Hall & Hb & Hs).
  { by rewrite length_rev. }
  { subst b. unfold as_read. by rewrite rev_app_distr. }
  rewrite well_ended_rev, rev_involutive, Hs, Hb. split; [done|]. exists (rev t). split.
  - by rewrite <- rev_app_distr, <- Ht, rev_involutive.
  - by apply Forall_rev.
Qed.

Lemma settle_id raw : settle raw = raw <-> well_ended raw = true.
Proof.
  split; [intros <-; apply settle_spec|]. intros Hw.
  pose proof Hw as Hw'. rewrite well_ended_rev, andb_true_iff, negb_true_iff in Hw'. destruct Hw' as [Hs Hb].
  unfold well_ended in Hw. apply andb_true_iff in Hw as [He _].
  unfold settle, trim_blank, as_read, ended. rewrite He, rev_app_distr. cbn [rev app].
  assert (length (raw ++ [LF]) = S (S (length raw - 1))) as ->.
  { rewrite length_app. cbn. apply ends_snoc in He as [a ->]. rewrite length_app. cbn. lia. }
  rewrite drop_blank_S. apply starts_with_spec in Hs as [r Hr]. cbn [app] in Hr. rewrite Hr in Hb |- *.
  assert (blank_end (LF :: LF :: r) = true) as -> by reflexivity.
  change (unwrap_or (drop 1 (LF :: LF :: r)) (strip_prefix [CR] (drop 1 (LF :: LF :: r)))) with (LF :: r).
  rewrite drop_blank_S, Hb, <- Hr. apply rev_involutive.
Qed.

(** C35. A mailbox file written message by message and taken apart gives those
    messages back, in order and none lost or split at a line that looks like
    a separator, each as it was but for line ends at its end; and exactly a
    message that ends its last line, with no blank line after it, is read
    back as it was. *)
Theorem mailbox_reads_back when ms : LF ∉ when ->
  split_mbox (concat (write_mbox_entry when <$> ms)) = settle <$> ms /\
  (forall raw, exists t, ended raw ++ [LF] = settle raw ++ t /\ Forall (fun c => c = LF \/ c = CR) t) /\
  (forall raw, settle raw = raw <-> well_ended raw = true).
Proof.
  intros Hw. split_and!; [|intros raw; apply settle_spec|apply settle_id].
  unfold split_mbox. rewrite entries_lines by done. pose proof (read_entries when ms ([], None)) as Hf.
  destruct (foldl read_line ([], None) (ms ≫= entry when)) as [msgs cur]. unfold flush in Hf. cbn [fst snd app] in Hf.
  replace (match cur with Some done => msgs ++ [done] | None => msgs end) with (as_read <$> ms)
    by (destruct cur; [done|by rewrite app_nil_r in Hf]).
  rewrite <- list_fmap_compose. change (trim_blank ∘ as_read) with settle.
  clear. induction ms as [|m ms IH]; [done|]. rewrite fmap_cons, filter_cons, decide_True; [by f_equal|].
  intros E. destruct (settle_spec m) as [Hw _]. rewrite E in Hw. discriminate.
Qed.

(** C35. Two messages, one with lines that look like separators. *)
Lemma mailbox_reads_back_witness :
  let ms := [lit "A" ++ [LF] ++ lit "From here" ++ [LF] ++ lit ">From there" ++ [LF]; lit "B" ++ [CR; LF]] in
  split_mbox (concat (write_mbox_entry (lit "now") <$> ms)) = ms.
Proof.
  cbn zeta. destruct (mailbox_reads_back (lit "now") [lit "A" ++ [LF] ++ lit "From here" ++ [LF] ++ lit ">From there" ++ [LF]; lit "B" ++ [CR; LF]]) as (H & _ & Hid).
  - apply (bool_decide_unpack _). vm_compute. exact I.
  - rewrite H. cbn [fmap list_fmap]. rewrite !(proj2 (Hid _)); [reflexivity|vm_compute; reflexivity..].
Defined.
End Mbox.
