(* ===== verification/LocalArchive.v ===== *)
(** * The local archive

    Models the rest of [meron-core/src/archive.rs]: mail whose server is the
    database.  Messages kept byte for byte beside their rows, stored, imported
    from files, copied, moved and deleted; of the table of messages, the
    columns read here.  What [mailparse] gives of a header is a class, as is
    [String::from_utf8_lossy].

    What a preview says is what the import does ([preview_tells_the_import]);
    a move loses nothing wherever it stops ([moving_loses_nothing]); a
    message whose Message-ID has a comment is imported again
    ([an_id_with_a_comment_comes_again]). *)
From S2P Require Import Prelude.
From S2P Require Import Text.
From S2P Require Import Table.
From S2P Require Import Program.
From S2P Require Import Mbox.

#[local] Open Scope Z_scope.

(** [String::from_utf8_lossy], and [mailparse]'s headers of a block of them:
    the first value under a name. *)
Class Mime := {
  from_utf8_lossy : list Z -> text;
  get_first_value : list Z -> text -> option text
}.

Module LocalArchive.

Definition ACCOUNT : text := lit "local-archive".
Definition DEFAULT_FOLDER : text := lit "INBOX".
Definition TRASH : text := lit "Trash".
Definition MAX_MESSAGE_BYTES : Z := 100 * 1024 * 1024.

(** A row of [messages], as far as it is read here, and one of
    [archive_messages]. *)
Record Row := {
  m_account : text; m_folder : text; m_uid : Z; m_seen : bool; m_starred : bool; m_message_id : option text
}.
Record Raw := { a_account : text; a_folder : text; a_uid : Z; a_raw : list Z }.

Record Db := { messages : list Row; archive_messages : list Raw; folders : list (text * text) }.

Definition in_folder (account folder : text) (r : Row) : bool :=
  bool_decide (m_account r = account) && bool_decide (m_folder r = folder).
Definition is_message (account folder : text) (uid : Z) (r : Row) : bool := in_folder account folder r && (m_uid r =? uid).
Definition raw_in (account folder : text) (a : Raw) : bool :=
  bool_decide (a_account a = account) && bool_decide (a_folder a = folder).
Definition is_raw (account folder : text) (uid : Z) (a : Raw) : bool := raw_in account folder a && (a_uid a =? uid).

Section Archive.
Context {M : Mime} {U : Unicode}.

(** ** One message *)

Definition blank_line : list Z := [13; 10; 13; 10].
Definition blank_lf : list Z := [10; 10].

Definition header_block (raw : list Z) : list Z :=
  match find blank_line raw with
  | Some end_ => take (end_ + 4) raw
  | None => match find blank_lf raw with
            | Some end_ => take (end_ + 2) raw
            | None => raw
            end
  end.

Definition looks_like_message (raw : list Z) : bool :=
  let end_ := match find blank_line raw with Some e => Some e | None => find blank_lf raw end in
  let header := take (unwrap_or (Nat.min (length raw) (Z.to_nat (64 * 1024))) end_) raw in
  let text := to_ascii_lowercase (from_utf8_lossy header) in
  existsb (fun field => contains (10 :: lit field) text || starts_with (lit field) text)
    ["from:"; "date:"; "subject:"; "message-id:"]%string.

(** [imap::normalize_message_id] *)
Definition normalize_message_id (value : text) : text :=
  let bare := trim (trim_end_matches (Z.eqb 62) (trim_start_matches (Z.eqb 60) (trim value))) in
  match find_char 60 value with
  | Some start =>
      match find_char 62 (drop start value) with
      | Some e => trim (take (e - 1) (drop (start + 1) value))
      | None => bare
      end
  | None => bare
  end.

(** [parse::normalize_msgid] *)
Definition normalize_msgid (raw : text) : text :=
  let trimmed := trim raw in
  if is_empty trimmed then []
  else trim (trim_end_matches (Z.eqb 62) (trim_start_matches (Z.eqb 60) trimmed)).

(** The Message-ID as [imap::header_fields] and as [parse::parse_message]
    give it. *)
Definition header_id (raw : list Z) : text :=
  unwrap_or [] (normalize_message_id <$> get_first_value (header_block raw) (lit "Message-ID")).
Definition parsed_id (raw : list Z) : text :=
  normalize_msgid (unwrap_or [] (get_first_value raw (lit "Message-ID"))).

Definition max_uid (uids : list Z) : Z := foldr Z.max 0 uids.

(** [MAX(..) + 1 ... as u32] *)
Definition next_uid (db : Db) (account folder : text) : Z :=
  (Z.max (max_uid (m_uid <$> select (in_folder account folder) (messages db)))
         (max_uid (a_uid <$> select (raw_in account folder) (archive_messages db))) + 1) mod 2 ^ 32.

(** [INSERT OR IGNORE INTO folders] *)
Definition ensure_folder (account name : text) (db : Db) : Db :=
  if bool_decide ((account, name) ∈ folders db) then db
  else {| messages := messages db; archive_messages := archive_messages db; folders := folders db ++ [(account, name)] |}.

(** [upsert_messages_in_transaction] of one header: an id that is empty is
    not written over one that is there. *)
Definition upsert_message (account folder : text) (uid : Z) (seen starred : bool) (message_id : text) (t : list Row) : list Row :=
  let id := if is_empty message_id then None else Some message_id in
  upsert (is_message account folder uid)
    {| m_account := account; m_folder := folder; m_uid := uid; m_seen := seen; m_starred := starred; m_message_id := id |}
    (fun r => {| m_account := m_account r; m_folder := m_folder r; m_uid := m_uid r; m_seen := seen; m_starred := starred;
                 m_message_id := match id with Some _ => id | None => m_message_id r end |}) t.

(** [save_cached_message]: the id as the parser gives it. *)
Definition save_cached_message (account folder : text) (uid : Z) (message_id : text) (t : list Row) : list Row :=
  upsert (is_message account folder uid)
    {| m_account := account; m_folder := folder; m_uid := uid; m_seen := false; m_starred := false;
       m_message_id := Some message_id |}
    (fun r => {| m_account := m_account r; m_folder := m_folder r; m_uid := m_uid r; m_seen := m_seen r; m_starred := m_starred r;
                 m_message_id := Some message_id |}) t.

(** One transaction. *)
Definition store_message (account folder : text) (raw : list Z) (seen starred : bool) (db : Db) : Db * Z :=
  let uid := next_uid db account folder in
  let db := ensure_folder account folder db in
  ({| messages := save_cached_message account folder uid (parsed_id raw)
                    (upsert_message account folder uid seen starred (header_id raw) (messages db));
      archive_messages := insert_or_replace (is_raw account folder uid)
        {| a_account := account; a_folder := folder; a_uid := uid; a_raw := raw |} (archive_messages db);
      folders := folders db |}, uid).

Definition raw_of (db : Db) (account folder : text) (uid : Z) : option (list Z) :=
  a_raw <$> query_row (is_raw account folder uid) (archive_messages db).

(** ** Importing *)

Record ImportSummary := { imported : nat; duplicates : nat; skipped : nat }.

Definition none_yet : ImportSummary := {| imported := 0; duplicates := 0; skipped := 0 |}.
Definition one_imported (s : ImportSummary) := {| imported := S (imported s); duplicates := duplicates s; skipped := skipped s |}.
Definition one_duplicate (s : ImportSummary) := {| imported := imported s; duplicates := S (duplicates s); skipped := skipped s |}.
Definition one_skipped (s : ImportSummary) := {| imported := imported s; duplicates := duplicates s; skipped := S (skipped s) |}.

(** The ids known in the folder; [lower] of SQL is of ASCII. *)
Definition known_ids (db : Db) (folder : text) : gset text :=
  list_to_set (omap (fun r => to_ascii_lowercase <$> m_message_id r) (select (in_folder ACCOUNT folder) (messages db))).

Inductive Sorted := Skip | Duplicate | New.

(** What is done with a message, and the ids known after it. *)
Definition sort_message (known : gset text) (raw : list Z) : Sorted * gset text :=
  if (MAX_MESSAGE_BYTES <? Z.of_nat (length raw)) || negb (looks_like_message raw) then (Skip, known)
  else let id := to_lowercase (header_id raw) in
       if is_empty id then (New, known)
       else if bool_decide (id ∈ known) then (Duplicate, known) else (New, {[ id ]} ∪ known).

Definition import_one (folder : text) (st : Db * gset text * ImportSummary) (raw : list Z) : Db * gset text * ImportSummary :=
  let '(db, known, s) := st in
  match sort_message known raw with
  | (Skip, known) => (db, known, one_skipped s)
  | (Duplicate, known) => (db, known, one_duplicate s)
  | (New, known) => ((store_message ACCOUNT folder raw true false db).1, known, one_imported s)
  end.

Definition import (db : Db) (folder : text) (msgs : list (list Z)) : result text (Db * ImportSummary) :=
  let folder := trim folder in
  if is_empty folder then Err (lit "a folder is needed to import into")
  else let '(db', _, s) := foldl (import_one folder) (db, known_ids db folder, none_yet) msgs in Ok (db', s).

Definition preview_one (st : gset text * ImportSummary) (raw : list Z) : gset text * ImportSummary :=
  let '(known, s) := st in
  match sort_message known raw with
  | (Skip, known) => (known, one_skipped s)
  | (Duplicate, known) => (known, one_duplicate s)
  | (New, known) => (known, one_imported s)
  end.

Definition preview (db : Db) (folder : text) (files : list (list (list Z))) : ImportSummary :=
  (foldl preview_one (known_ids db folder, none_yet) (concat files)).2.

(** [read_file], once its size allows it: a mailbox by name or by content. *)
Definition read_messages (named_mbox : bool) (bytes : list Z) : list (list Z) :=
  if named_mbox || starts_with (lit "From ") bytes then Mbox.split_mbox bytes else [bytes].

(** ** A session *)

Record RawMessageCopy := { c_raw : list Z; c_seen : bool; c_starred : bool }.

Definition list_all_uids (db : Db) (account folder : text) : list Z :=
  a_uid <$> select (raw_in account folder) (archive_messages db).

Definition raw_for_copy (db : Db) (account folder : text) (uids : list Z) : list RawMessageCopy :=
  omap (fun uid =>
    let flags := (fun r => (m_seen r, m_starred r)) <$> query_row (is_message account folder uid) (messages db) in
    (fun raw => let '(seen, starred) := unwrap_or (true, false) flags in
       {| c_raw := raw; c_seen := seen; c_starred := starred |}) <$> raw_of db account folder uid) uids.

(** Statements that may fail, each by itself. *)
Inductive Ev : Type -> Type :=
| RawForCopy (folder : text) (uids : list Z) : Ev (result text (list RawMessageCopy))
| Append (folder : text) (copy : RawMessageCopy) : Ev (result text unit)
| DeleteRaw (folder : text) (uid : Z) : Ev (result text unit)
| DeleteRow (folder : text) (uid : Z) : Ev (result text unit)
| ListAllUids (folder : text) : Ev (result text (list Z)).

Fixpoint each {A} (l : list A) (f : A -> prog Ev (result text unit)) : prog Ev (result text unit) :=
  match l with
  | [] => Ret (Ok tt)
  | a :: l' => and_then (f a) (fun _ => each l' f)
  end.

#[local] Open Scope prog_scope.

Definition copy_within (from to : text) (uids : list Z) : prog Ev (result text nat) :=
  copies <-? call (RawForCopy from uids) ;;
  _ <-? each copies (fun copy => call (Append to copy)) ;;
  Ret (Ok (length copies)).

Definition expunge (folder : text) (uids : list Z) : prog Ev (result text unit) :=
  _ <-? each uids (fun uid => call (DeleteRaw folder uid)) ;;
  each uids (fun uid => call (DeleteRow folder uid)).

Definition move_to_folder (from to : text) (uids : list Z) : prog Ev (result text unit) :=
  _ <-? copy_within from to uids ;; expunge from uids.

Definition empty_folder (folder : text) : prog Ev (result text nat) :=
  uids <-? call (ListAllUids folder) ;; _ <-? expunge folder uids ;; Ret (Ok (length uids)).

Definition delete_raw (account folder : text) (uid : Z) (db : Db) : Db :=
  {| messages := messages db; archive_messages := delete_where (is_raw account folder uid) (archive_messages db);
     folders := folders db |}.
Definition delete_row (account folder : text) (uid : Z) (db : Db) : Db :=
  {| messages := delete_where (is_message account folder uid) (messages db); archive_messages := archive_messages db;
     folders := folders db |}.

(** [delete_folders]: the raw messages of each folder. *)
Definition delete_folders (account : text) (names : list text) (db : Db) : Db :=
  foldl (fun d name => {| messages := messages d;
    archive_messages := delete_where (raw_in account name) (archive_messages d); folders := folders d |}) db names.

(** [rename_folders]: one transaction; the key of the table may refuse it. *)
Definition rename_raw (account from to : text) (t : list Raw) : result text (list Raw) :=
  if negb (bool_decide (from = to)) &&
     existsb (fun a => raw_in account from a && existsb (is_raw account to (a_uid a)) t) t
  then Err (lit "UNIQUE constraint failed")
  else Ok (update (raw_in account from)
             (fun a => {| a_account := a_account a; a_folder := to; a_uid := a_uid a; a_raw := a_raw a |}) t).

Fixpoint rename_all (account : text) (renames : list (text * text)) (t : list Raw) : result text (list Raw) :=
  match renames with
  | [] => Ok t
  | (from, to) :: rest => t' ← rename_raw account from to t; rename_all account rest t'
  end.
End Archive.
End LocalArchive.

(** * What is true of the local archive

    A preview and the import it announces agree; importing again adds nothing
    of a message whose id both readers of it give alike; a move keeps every
    message wherever it stops. *)

#[local] Open Scope Z_scope.

Module LocalArchiveLaws.
Import LocalArchive.

Section Laws.
Context {M : Mime} {U : Unicode}.

(** ** Fresh uids *)

(** Every uid leaves room for [n] more. *)
Definition room (n : nat) (db : Db) : Prop :=
  Z.of_nat n < 2 ^ 32 /\
  Forall (fun r => 0 <= m_uid r < 2 ^ 32 - Z.of_nat n) (messages db) /\
  Forall (fun a => 0 <= a_uid a < 2 ^ 32 - Z.of_nat n) (archive_messages db).

Lemma max_uid_spec l b : 0 <= b -> Forall (fun u => 0 <= u <= b) l ->
  0 <= max_uid l <= b /\ Forall (fun u => u <= max_uid l) l.
Proof.
  intros Hb. induction 1 as [|u l [H1 H2] _ [IH1 IH2]]; [by split|].
  change (max_uid (u :: l)) with (Z.max u (max_uid l)). split; [lia|].
  constructor; [lia|]. eapply Forall_impl; [exact IH2|]. intros x Hx. cbn beta in *. lia.
Qed.

Lemma next_uid_spec db account folder n : room (S n) db ->
  let u := next_uid db account folder in
  0 <= u < 2 ^ 32 - Z.of_nat n /\
  (forall a, a ∈ archive_messages db -> is_raw account folder u a = false) /\
  (forall r, r ∈ messages db -> is_message account folder u r = false).
Proof.
  intros (Hn & Hm & Ha). unfold next_uid.
  set (ms := m_uid <$> _). set (rs := a_uid <$> _).
  assert (Forall (fun u => 0 <= u <= 2 ^ 32 - Z.of_nat (S n) - 1) ms) as Hms.
  { apply Forall_fmap, Forall_forall. intros r [Hr _]%elem_of_select. rewrite Forall_forall in Hm. cbn. specialize (Hm r Hr). lia. }
  assert (Forall (fun u => 0 <= u <= 2 ^ 32 - Z.of_nat (S n) - 1) rs) as Hrs.
  { apply Forall_fmap, Forall_forall. intros r [Hr _]%elem_of_select. rewrite Forall_forall in Ha. cbn. specialize (Ha r Hr). lia. }
  apply max_uid_spec in Hms as [Hm1 Hm2]; [|lia]. apply max_uid_spec in Hrs as [Hr1 Hr2]; [|lia].
  rewrite Z.mod_small by lia. cbn zeta. split; [lia|]. split.
  - intros a Hin. unfold is_raw. destruct (raw_in account folder a) eqn:E; [|done]. apply Z.eqb_neq.
    assert (a_uid a <= max_uid rs); [|lia]. rewrite Forall_forall in Hr2. apply Hr2. apply list_elem_of_fmap.
    exists a. split; [done|]. by apply elem_of_select.
  - intros r Hin. unfold is_message. destruct (in_folder account folder r) eqn:E; [|done]. apply Z.eqb_neq.
    assert (m_uid r <= max_uid ms); [|lia]. rewrite Forall_forall in Hm2. apply Hm2. apply list_elem_of_fmap.
    exists r. split; [done|]. by apply elem_of_select.
Qed.

Lemma select_none {R} p (t : list R) : (forall r, r ∈ t -> p r = false) -> delete_where p t = t.
Proof.
  induction t as [|r t IH]; intros H; [done|]. unfold delete_where. rewrite filter_cons, decide_True.
  - f_equal. apply IH. intros x Hx. apply H. by right.
  - apply H. by left.
Qed.

Lemma upsert_fresh {R} (same : R -> bool) r f t : (forall x, x ∈ t -> same x = false) -> upsert same r f t = t ++ [r].
Proof.
  intros H. unfold upsert. assert (existsb same t = false) as ->; [|done]. apply not_true_iff_false.
  intros (x & Hx & Hs)%existsb_exists. apply list_elem_of_In in Hx. rewrite H in Hs; done.
Qed.

(** What storing adds: one row and one original, and nothing else changes. *)
Lemma store_adds account folder raw seen starred db n : room (S n) db ->
  let u := next_uid db account folder in
  let db' := (store_message account folder raw seen starred db).1 in
  archive_messages db' = archive_messages db ++ [{| a_account := account; a_folder := folder; a_uid := u; a_raw := raw |}] /\
  messages db' = messages db ++ [{| m_account := account; m_folder := folder; m_uid := u; m_seen := seen; m_starred := starred;
                                    m_message_id := Some (parsed_id raw) |}] /\
  room n db'.
Proof.
  intros Hroom. destruct (next_uid_spec db account folder n Hroom) as (Hu & Ha & Hm). cbn zeta in *.
  unfold store_message. set (u := next_uid db account folder) in *. cbn [fst messages archive_messages folders].
  assert (messages (ensure_folder account folder db) = messages db /\
          archive_messages (ensure_folder account folder db) = archive_messages db) as [-> ->]
    by (unfold ensure_folder; by case_bool_decide).
  unfold insert_or_replace. rewrite select_none by done. split; [done|].
  assert (forall r, m_account r = account -> m_folder r = folder -> m_uid r = u -> is_message account folder u r = true) as His.
  { intros r <- <- <-. unfold is_message, in_folder. by rewrite !bool_decide_true, Z.eqb_refl by done. }
  unfold upsert_message. rewrite upsert_fresh by done. unfold save_cached_message, upsert.
  rewrite existsb_app. cbn [existsb]. rewrite His by done. cbn [orb]. rewrite orb_true_r.
  unfold update. rewrite fmap_app. cbn [fmap list_fmap]. rewrite His by done.
  cbn [m_account m_folder m_uid m_seen m_starred m_message_id].
  match goal with |- context [?f <$> messages db] => assert (f <$> messages db = messages db) as -> end.
  { rewrite <- (list_fmap_id (messages db)) at 2. apply Forall_fmap_ext_1, Forall_forall. intros r Hr. by rewrite Hm. }
  split; [done|].
  destruct Hroom as (Hn & Hms & Has). unfold room. cbn [messages archive_messages]. split; [lia|].
  split; apply Forall_app; (split; [|constructor; [cbn; lia|done]]); (eapply Forall_impl; [eassumption|]); cbn; lia.
Qed.

(** ** Importing *)

(** The messages an import takes, in order. *)
Fixpoint taken (known : gset text) (msgs : list (list Z)) : list (list Z) :=
  match msgs with
  | [] => []
  | raw :: rest => let '(s, known) := sort_message known raw in
                   match s with New => raw :: taken known rest | _ => taken known rest end
  end.

Lemma known_ids_app db db' folder rows : messages db' = messages db ++ rows ->
  Forall (fun r => in_folder ACCOUNT folder r = true) rows ->
  known_ids db' folder = known_ids db folder ∪ list_to_set (omap (fun r => to_ascii_lowercase <$> m_message_id r) rows).
Proof.
  intros Hm Hall. unfold known_ids, select. rewrite Hm, filter_app.
  assert (base.filter (fun r => in_folder ACCOUNT folder r = true) rows = rows) as ->.
  { clear Hm. induction Hall as [|r rows Hr _ IH]; [done|]. rewrite filter_cons, decide_True by done. by rewrite IH. }
  by rewrite omap_app, list_to_set_app_L.
Qed.

Lemma import_fold folder msgs db known s : room (length msgs) db ->
  let '(db', known', s') := foldl (import_one folder) (db, known, s) msgs in
  foldl preview_one (known, s) msgs = (known', s') /\
  a_raw <$> archive_messages db' = (a_raw <$> archive_messages db) ++ taken known msgs /\
  known_ids db' folder = known_ids db folder ∪ list_to_set ((fun raw => to_ascii_lowercase (parsed_id raw)) <$> taken known msgs) /\
  (imported s' = imported s + length (taken known msgs))%nat /\ (taken known msgs = [] -> db' = db).
Proof.
  revert db known s. induction msgs as [|raw msgs IH]; intros db known s Hroom.
  { cbn. split_and!; [done|by rewrite app_nil_r|set_solver|lia|done]. }
  assert (room (length msgs) db) as Hroom'.
  { destruct Hroom as (Hn & Hm & Ha). cbn [length] in *. split; [lia|].
    split; (eapply Forall_impl; [eassumption|]); cbn; lia. }
  cbn [foldl taken]. unfold import_one at 2, preview_one at 2. destruct (sort_message known raw) as [[] known1]; cbn [fst snd].
  - specialize (IH db known1 (one_skipped s) Hroom'). by destruct (foldl _ _ _) as [[]].
  - specialize (IH db known1 (one_duplicate s) Hroom'). by destruct (foldl _ _ _) as [[]].
  - destruct (store_adds ACCOUNT folder raw true false db (length msgs) Hroom) as (Ha & Hm & Hr). cbn zeta in *.
    set (db1 := (store_message ACCOUNT folder raw true false db).1) in *. clearbody db1.
    specialize (IH db1 known1 (one_imported s) Hr). destruct (foldl _ _ _) as [[db' known'] s'].
    destruct IH as (H1 & H2 & H3 & H4 & _). split_and!; [done| | | |done].
    + rewrite H2, Ha, fmap_app, <- (assoc_L (++)). done.
    + rewrite H3. erewrite (known_ids_app db db1); [|exact Hm|].
      * cbn. rewrite union_empty_r_L, (assoc_L (∪)). done.
      * constructor; [|done]. unfold in_folder. cbn. by rewrite !bool_decide_true.
    + rewrite H4. cbn. lia.
Qed.

(** Both readers of a Message-ID give it alike. *)
Definition ids_agree (raw : list Z) : Prop :=
  header_id raw <> [] /\ to_lowercase (header_id raw) <> [] /\ to_ascii_lowercase (parsed_id raw) = to_lowercase (header_id raw).

(** Once every id is known, nothing is taken. *)
Lemma taken_known known msgs :
  Forall (fun raw => (sort_message known raw).1 <> New) msgs -> taken known msgs = [].
Proof.
  induction 1 as [|raw msgs Hr _ IH]; [done|]. cbn [taken]. revert Hr. unfold sort_message.
  repeat case_match; simplify_eq; cbn; intros; try done.
Qed.

Lemma taken_settles known msgs : Forall ids_agree msgs -> forall raw, raw ∈ msgs ->
  (sort_message (known ∪ list_to_set ((fun raw => to_ascii_lowercase (parsed_id raw)) <$> taken known msgs)) raw).1 <> New.
Proof.
  intros Hall. revert known. induction Hall as [|x msgs (Hx & Hxl & Hxa) Hall IH]; intros known raw Hin; [by apply elem_of_nil in Hin|].
  cbn [taken]. unfold sort_message at 2. destruct ((MAX_MESSAGE_BYTES <? Z.of_nat (length x)) || negb (looks_like_message x)) eqn:Eskip.
  { apply elem_of_cons in Hin as [->|Hin]; [|by apply IH]. unfold sort_message. by rewrite Eskip. }
  destruct (is_empty (to_lowercase (header_id x))) eqn:Ee; [by destruct (to_lowercase (header_id x))|].
  case_bool_decide as Hk.
  - apply elem_of_cons in Hin as [->|Hin]; [|by apply IH]. unfold sort_message. rewrite Eskip, Ee, bool_decide_true; [done|set_solver].
  - rewrite fmap_cons. cbn [list_to_set]. rewrite Hxa.
    replace (known ∪ ({[to_lowercase (header_id x)]} ∪ list_to_set ((fun raw => to_ascii_lowercase (parsed_id raw)) <$> taken ({[to_lowercase (header_id x)]} ∪ known) msgs)))
      with (({[to_lowercase (header_id x)]} ∪ known) ∪ list_to_set ((fun raw => to_ascii_lowercase (parsed_id raw)) <$> taken ({[to_lowercase (header_id x)]} ∪ known) msgs) : gset text) by set_solver.
    apply elem_of_cons in Hin as [->|Hin]; [|by apply IH].
    unfold sort_message. rewrite Eskip, Ee, bool_decide_true; [done|set_solver].
Qed.

(** What a preview says of files is what importing their messages does:
    the same messages imported, duplicates and skipped, the originals of
    those imported added byte for byte and in order to what the archive held
    and nothing else changed there; and when both readers of a Message-ID
    give the ids alike, importing them again adds nothing. *)
Theorem preview_tells_the_import db folder files : folder <> [] -> trim folder = folder ->
  room (length (concat files)) db ->
  exists db', import db folder (concat files) = Ok (db', preview db folder files) /\
    a_raw <$> archive_messages db' =
      (a_raw <$> archive_messages db) ++ taken (known_ids db folder) (concat files) /\
    imported (preview db folder files) = length (taken (known_ids db folder) (concat files)) /\
    (room (length (concat files)) db' -> Forall ids_agree (concat files) ->
     exists s, import db' folder (concat files) = Ok (db', s) /\ imported s = 0%nat).
Proof.
  intros Hne Htrim Hroom. unfold import, preview. rewrite Htrim. destruct folder as [|c folder']; [done|].
  set (folder := c :: folder') in *. cbn [is_empty].
  pose proof (import_fold folder (concat files) db (known_ids db folder) none_yet Hroom) as Hf.
  destruct (foldl (import_one folder) (db, known_ids db folder, none_yet) (concat files)) as [[db' known'] s'].
  destruct Hf as (Hp & Ha & Hk & Hi & _). exists db'. rewrite Hp. cbn [snd]. split_and!; [done..|].
  intros Hroom' Hagree.
  assert (taken (known_ids db' folder) (concat files) = []) as Hnone.
  { apply taken_known, Forall_forall. intros raw Hin. rewrite Hk. by apply taken_settles. }
  pose proof (import_fold folder (concat files) db' (known_ids db' folder) none_yet Hroom') as Hf.
  destruct (foldl (import_one folder) (db', known_ids db' folder, none_yet) (concat files)) as [[db2 known2] s2].
  destruct Hf as (_ & _ & _ & Hi2 & Hsame). rewrite Hnone in Hi2, Hsame. rewrite Hsame by done. exists s2. split; [done|]. rewrite Hi2. done.
Qed.

(** ** Moving *)

Section Moving.
Context (account from to : text) (uids : list Z) (db0 : Db).

Definition answer {X} (e : Ev X) (db : Db) : Db * X :=
  match e in Ev X return Db * X with
  | RawForCopy folder us => (db, Ok (raw_for_copy db account folder us))
  | Append folder c => ((store_message account folder (c_raw c) (c_seen c) (c_starred c) db).1, Ok tt)
  | DeleteRaw folder uid => (delete_raw account folder uid db, Ok tt)
  | DeleteRow folder uid => (delete_row account folder uid db, Ok tt)
  | ListAllUids folder => (db, Ok (list_all_uids db account folder))
  end.

Definition failure {X} (e : Ev X) (why : text) : X :=
  match e in Ev X return X with
  | RawForCopy _ _ | Append _ _ | DeleteRaw _ _ | DeleteRow _ _ | ListAllUids _ => Err why
  end.

(** A statement is done, or fails and changes nothing. *)
Definition does X (e : Ev X) (db db' : Db) (x : X) : Prop :=
  (db' = (answer e db).1 /\ x = (answer e db).2) \/ (exists why, db' = db /\ x = failure e why).

(** A message that is moved. *)
Definition moves (a : Raw) : Prop := raw_in account from a = true /\ a_uid a ∈ uids.

Definition in_to (a : Raw) (db : Db) : Prop :=
  exists a', a' ∈ archive_messages db /\ raw_in account to a' = true /\ a_raw a' = a_raw a.

(** Nothing is lost: what is not moved is as it was, what is moved is where
    it was or where it goes, byte for byte. *)
Definition kept (db : Db) : Prop := forall a, a ∈ archive_messages db0 ->
  a ∈ archive_messages db \/ (moves a /\ in_to a db).

Definition copied (db : Db) : Prop := forall a, a ∈ archive_messages db0 ->
  (moves a -> in_to a db) /\ (~ moves a -> a ∈ archive_messages db).

Lemma copied_kept db : copied db -> kept db.
Proof.
  intros H a Ha. destruct (H a Ha) as [Hm Hn].
  destruct (decide (raw_in account from a = true /\ a_uid a ∈ uids)) as [Hd|Hd]; [right; auto|left; auto].
Qed.

(** The key of the table. *)
Definition keyed (t : list Raw) : Prop := NoDup ((fun a => (a_account a, a_folder a, a_uid a)) <$> t).

Lemma raw_of_keyed db a : keyed (archive_messages db) -> a ∈ archive_messages db -> raw_in account from a = true ->
  raw_of db account from (a_uid a) = Some (a_raw a).
Proof.
  intros Hk Ha Hr. unfold raw_of. destruct (query_row (is_raw account from (a_uid a)) (archive_messages db)) as [b|] eqn:E.
  - apply query_row_Some in E as [Hb Hi]. unfold is_raw, raw_in in *. bools in Hi. bools in Hr.
    assert (b = a) as ->; [|done].
    apply (key_unique (fun a => (a_account a, a_folder a, a_uid a)) (a_account a, a_folder a, a_uid a) (archive_messages db)); try done;
      apply bool_decide_eq_true; [|done]. destruct Hi as [[-> ->] ->], Hr as [-> ->]. reflexivity.
  - pose proof (proj1 (query_row_None _ _) E a Ha) as Hn. unfold is_raw in Hn. by rewrite Hr, Z.eqb_refl in Hn.
Qed.

Lemma ensures_each {A} I (l : list A) (f : A -> prog Ev (result text unit)) (inv : list A -> Db -> Prop) Q done db :
  inv done db ->
  (forall d a rest db, inv d db -> done ++ l = d ++ a :: rest ->
     ensures does I (f a) (fun r db' => match r with Ok _ => inv (d ++ [a]) db' | Err e => Q (Err e) db' end) db) ->
  (forall db, inv (done ++ l) db -> Q (Ok tt) db) ->
  ensures does I (each l f) Q db.
Proof.
  revert done db. induction l as [|a l IH]; intros d db Hi Hf Hq; cbn [each].
  - apply Hq. by rewrite app_nil_r.
  - apply ensures_and_then. eapply ensures_mono; [|by eapply Hf].
    intros [[]|e] db' H'; [|exact H']. eapply IH; [exact H'| |].
    + intros d' a' rest db1 H1 He. eapply Hf; [done|]. rewrite <- (assoc_L (++)) in He. exact He.
    + intros db1. rewrite <- (assoc_L (++)). apply Hq.
Qed.

Lemma omap_length {A B} (f : A -> option B) l : (length (omap f l) <= length l)%nat.
Proof. induction l as [|a l IH]; [done|]. cbn [omap list_omap]. destruct (f a); cbn [length]; lia. Qed.

(** While the copies are made. *)
Definition copying (left : nat) (copies : list RawMessageCopy) (db : Db) : Prop :=
  room left db /\ (forall a, a ∈ archive_messages db0 -> a ∈ archive_messages db) /\
  (forall c, c ∈ copies -> exists a, a ∈ archive_messages db /\ raw_in account to a = true /\ a_raw a = c_raw c).

Lemma copying_kept n copies db : copying n copies db -> kept db.
Proof. intros (_ & H & _) a Ha. left. auto. Qed.

Lemma room_less n m db : (m <= n)%nat -> room n db -> room m db.
Proof.
  intros Hle (Hn & Hm & Ha). split; [lia|]. split; (eapply Forall_impl; [eassumption|]); cbn; intros x Hx; lia.
Qed.

Lemma copy_within_keeps db : room (length uids) db -> keyed (archive_messages db) -> archive_messages db = archive_messages db0 ->
  ensures does kept (copy_within from to uids)
    (fun r db' => kept db' /\ match r with Ok _ => copied db' | Err _ => True end) db.
Proof.
  intros Hroom Hkey Heq. unfold copy_within, call. apply ensures_and_then. intros db1 x Hd.
  assert (kept db) as Hk by (intros a Ha; left; by rewrite Heq).
  assert (db1 = db /\ (x = Ok (raw_for_copy db account from uids) \/ exists why, x = Err why)) as [-> Hx].
  { destruct Hd as [[-> ->]|(why & -> & ->)]; split; [done|by left|done|right; by exists why]. }
  split; [done|]. cbn [ensures]. destruct Hx as [-> |(why & ->)]; [|by split].
  set (copies := raw_for_copy db account from uids).
  assert (length copies <= length uids)%nat as Hlen.
  { apply omap_length. }
  apply ensures_and_then. eapply (ensures_each _ _ _ (fun done db' => copying (length copies - length done) done db') _ []).
  - split_and!; [|by rewrite Heq|intros c []%not_elem_of_nil]. eapply room_less; [|exact Hroom]. cbn. lia.
  - intros d c rest db1 Hc He db2 x Hd'. cbn [app] in He.
    assert (kept db1) as Hk1 by (by eapply copying_kept).
    destruct Hd' as [[-> ->]|(why & -> & ->)]; [|by split]. cbn [answer fst snd].
    destruct Hc as (Hr & H1 & H2).
    assert (length copies - length d = S (length copies - length (d ++ [c])))%nat as Hle.
    { rewrite He, !length_app. cbn. lia. }
    rewrite Hle in Hr. destruct (store_adds account to (c_raw c) (c_seen c) (c_starred c) db1 _ Hr) as (Ha & _ & Hr').
    cbn zeta in *. set (db2 := (store_message account to (c_raw c) (c_seen c) (c_starred c) db1).1) in *. clearbody db2.
    assert (copying (length copies - length (d ++ [c])) (d ++ [c]) db2) as Hc'.
    { split; [done|]. rewrite Ha. split; [intros a Hin; apply elem_of_app; left; auto|].
      intros c' [Hin|Hin%list_elem_of_singleton]%elem_of_app.
      - destruct (H2 c' Hin) as (a & Hina & Hx). exists a. split; [|done]. apply elem_of_app. by left.
      - subst c'. eexists. split; [apply elem_of_app; right; by left|]. unfold raw_in. cbn. by rewrite !bool_decide_true. }
    split; [by eapply copying_kept|]. cbn. exact Hc'.
  - intros db1 Hc. cbn [ensures]. split; [by eapply copying_kept|]. destruct Hc as (_ & H1 & H2).
    intros a Ha. split; [|intros _; auto]. intros [Hfrom Hu].
    rewrite <- Heq in Ha. pose proof (raw_of_keyed db a Hkey Ha Hfrom) as Hraw.
    assert (exists c, c ∈ copies /\ c_raw c = a_raw a) as (c & Hc & Hca).
    { unfold copies, raw_for_copy. eexists. split; [apply list_elem_of_omap; exists (a_uid a); split; [done|]; by rewrite Hraw|].
      cbn. by destruct (unwrap_or _ _). }
    destruct (H2 c Hc) as (a' & Ha' & Hto & Hr). exists a'. split_and!; [done..|congruence].
Qed.

Lemma in_to_delete a uid db : from <> to -> in_to a db -> in_to a (delete_raw account from uid db).
Proof.
  intros Hne (a' & Ha' & Hto & Hr). exists a'. split_and!; [|done..]. apply elem_of_delete_where. split; [done|].
  unfold is_raw, raw_in in *. bools in Hto. destruct Hto as [_ Hto].
  rewrite (bool_decide_false (a_folder a' = from)) by congruence. by rewrite andb_false_r.
Qed.

Lemma expunge_keeps db : from <> to -> copied db ->
  ensures does kept (expunge from uids)
    (fun r db' => kept db' /\ (r = Ok tt -> copied db' /\ forall u a, u ∈ uids -> a ∈ archive_messages db' -> is_raw account from u a = false)) db.
Proof.
  intros Hne Hc. unfold expunge. apply ensures_and_then.
  eapply (ensures_each _ _ _ (fun done db' => copied db' /\ forall u a, u ∈ done -> a ∈ archive_messages db' -> is_raw account from u a = false) _ []).
  - split; [done|]. by intros u a []%not_elem_of_nil.
  - intros d u rest db1 [H1 H2] He db2 x Hd. cbn [app] in He.
    destruct Hd as [[-> ->]|(why & -> & ->)]; cbn [ensures failure]; [|by split_and!; try apply copied_kept].
    assert (u ∈ uids) as Hu by (rewrite He; apply elem_of_app; right; by left).
    assert (copied (delete_raw account from u db1)) as Hc1.
    { intros a Ha. destruct (H1 a Ha) as [Hm Hn]. split; [intros Hmv; apply in_to_delete; auto|].
      intros Hnm. apply elem_of_delete_where. split; [auto|]. apply not_true_iff_false. intros Hi. apply Hnm.
      unfold is_raw in Hi. bools in Hi. destruct Hi as [Hr Hu']. split; [done|]. by rewrite Hu'. }
    split; [by apply copied_kept|]. cbn. split; [exact Hc1|].
    intros u' a [Hin| ->%list_elem_of_singleton]%elem_of_app [Ha Hno]%elem_of_delete_where; [by apply (H2 u')|done].
  - intros db1 [H1 H2]. cbn [app] in H2.
    eapply (ensures_each _ _ _ (fun _ db' => archive_messages db' = archive_messages db1) _ []); [done| |].
    + intros d u rest db2 H3 _ db3 x Hd.
      assert (forall db', archive_messages db' = archive_messages db1 -> kept db') as Hkeep.
      { intros db' Ha. apply copied_kept. intros a Hin. unfold in_to. rewrite Ha. by apply H1. }
      destruct Hd as [[-> ->]|(why & -> & ->)]; cbn [answer failure ensures fst snd].
      * split; [by apply Hkeep|done].
      * split; [by apply Hkeep|]. split; [by apply Hkeep|done].
    + intros db2 H3. assert (copied db2) as Hc2 by (intros a Hin; unfold in_to; rewrite H3; by apply H1).
      split; [by apply copied_kept|]. intros _. split; [done|]. rewrite H3. exact H2.
Qed.

(** C19. A move to another folder of the archive loses nothing, wherever it
    stops and whichever of its statements fails: every message not moved is
    as it was, and every message moved is in the folder it was in or, byte
    for byte, in the one it goes to; one that ends well leaves none of them
    where they were. *)
Theorem moving_loses_nothing db' o : from <> to -> room (length uids) db0 -> keyed (archive_messages db0) ->
  runs does (move_to_folder from to uids) db0 db' o ->
  kept db' /\ (o = Some (Ok tt) -> forall a, a ∈ archive_messages db0 -> moves a -> in_to a db' /\ a ∉ archive_messages db').
Proof.
  intros Hne Hroom Hkey Hruns.
  assert (ensures does kept (move_to_folder from to uids)
    (fun r db' => kept db' /\ (r = Ok tt -> copied db' /\ forall u a, u ∈ uids -> a ∈ archive_messages db' -> is_raw account from u a = false)) db0) as He.
  { unfold move_to_folder. apply ensures_and_then. eapply ensures_mono; [|by apply copy_within_keeps].
    intros [n|e] db1 [Hk Hc]; [by apply expunge_keeps|by split]. }
  assert (kept db0) as Hk0 by (intros a Ha; by left).
  destruct o as [r|]; [|split; [by eapply ensures_stop|done]].
  destruct (ensures_end _ _ _ _ _ _ _ He Hruns) as [Hk Hok]. split; [done|]. intros [= ->] a Ha Hm.
  destruct (Hok eq_refl) as [Hc Hgone]. split; [by apply (Hc a)|]. intros Hin. destruct Hm as [Hf Hu].
  specialize (Hgone _ _ Hu Hin). unfold is_raw in Hgone. by rewrite Hf, Z.eqb_refl in Hgone.
Qed.
End Moving.
End Laws.

(** ** A small archive *)

(** Headers as they are in the examples: fields alone on a line. *)
Definition field_of (raw : list Z) (name : text) : option text :=
  match List.find (starts_with (name ++ lit ": ")) (lines raw) with
  | Some line => Some (drop (length name + 2) line)
  | None => None
  end.

#[local] Instance plain_mime : Mime := {| from_utf8_lossy := fun b => b; get_first_value := field_of |}.

Definition mail (id : string) : list Z :=
  lit "Message-ID: " ++ lit id ++ [10] ++ lit "Subject: hi" ++ [10; 10] ++ lit "text" ++ [10].

Definition empty_db : Db := {| messages := []; archive_messages := []; folders := [] |}.

(** Two files, one message in both. *)
Lemma preview_tells_the_import_witness :
  let files := [[mail "<a@x>"; mail "<b@x>"]; [mail "<A@x>"]] in
  exists db', import empty_db (lit "INBOX") (concat files) = Ok (db', {| imported := 2; duplicates := 1; skipped := 0 |}).
Proof.
  cbn zeta. destruct (preview_tells_the_import empty_db (lit "INBOX") [[mail "<a@x>"; mail "<b@x>"]; [mail "<A@x>"]]) as (db' & H & _).
  - discriminate.
  - vm_compute. reflexivity.
  - split; [vm_compute; reflexivity|]. split; constructor.
  - exists db'. rewrite H. vm_compute. reflexivity.
Defined.

(** C19. A move stopped after its first copy, and one to the end. *)
Lemma moving_loses_nothing_witness :
  let a := {| a_account := lit "x"; a_folder := lit "INBOX"; a_uid := 1; a_raw := mail "<a@x>" |} in
  let db := {| messages := []; archive_messages := [a]; folders := [] |} in
  kept (lit "x") (lit "INBOX") (lit "Kept") [1] db
    (exec (fun X => @answer plain_mime (lit "x") X) (move_to_folder (lit "INBOX") (lit "Kept") [1]) db).1.
Proof.
  cbn zeta. set (a := {| a_account := lit "x"; a_folder := lit "INBOX"; a_uid := 1; a_raw := mail "<a@x>" |}).
  set (db := {| messages := []; archive_messages := [a]; folders := [] |}).
  apply (moving_loses_nothing (lit "x") (lit "INBOX") (lit "Kept") [1] db _
    (Some (exec (fun X => @answer plain_mime (lit "x") X) (move_to_folder (lit "INBOX") (lit "Kept") [1]) db).2)).
  - intros E. vm_compute in E. discriminate.
  - split; [vm_compute; reflexivity|]. split; [constructor|]. constructor; [vm_compute; split; congruence|constructor].
  - vm_compute. apply NoDup_singleton.
  - apply exec_runs. intros X e w. left. split; reflexivity.
Defined.

(** "Duplicates by Message-ID are skipped", but the id a message is known
    by is read by the parser, and the one it is looked for with by the reader
    of headers, which differ where a comment or anything else follows the id:
    such a message is imported again each time. *)
Example an_id_with_a_comment_comes_again :
  let msg := mail "<a@x> (made by hand)" in
  header_id msg = lit "a@x" /\ parsed_id msg = lit "a@x> (made by hand)" /\
  exists db1 db2, import empty_db (lit "INBOX") [msg] = Ok (db1, {| imported := 1; duplicates := 0; skipped := 0 |}) /\
    import db1 (lit "INBOX") [msg] = Ok (db2, {| imported := 1; duplicates := 0; skipped := 0 |}) /\
    a_raw <$> archive_messages db2 = [msg; msg].
Proof.
  split; [vm_compute; reflexivity|]. split; [vm_compute; reflexivity|]. eexists _, _.
  split; [vm_compute; reflexivity|]. split; vm_compute; reflexivity.
Qed.
End LocalArchiveLaws.
