(* ===== verification/Pop3.v ===== *)
(** * POP3 accounts

    Models [meron-core/src/pop3/mod.rs]: the policy of what is deleted from
    the server, the answers of the protocol, signing in, and [fetch], which
    downloads what is new and deletes what the policy says, as a program over
    the session and the tables.

    The session's commands ([uidls], [sizes], [retr], [dele], [quit]) are
    calls of [fetch]; what each reads of the wire is modelled beside it.
    Messages live in the tables of [LocalArchive]; SHA-256 is the class
    [Digest]. *)
From S2P Require Import Prelude.
From S2P Require Import Text.
From S2P Require Import Table.
From S2P Require Import Program.
From S2P Require Import Mbox.
From S2P Require Import LocalArchive.
#[local] Open Scope Z_scope.

(** SHA-256 of bytes, in hexadecimal. *)
Class Digest := sha256_hex : list Z -> text.

Module Pop3.

Definition INBOX : text := lit "INBOX".
Definition MAX_MESSAGE_BYTES : Z := LocalArchive.MAX_MESSAGE_BYTES.

(** ** Policy *)

Inductive Retention := Keep | AfterDays (days : Z) | WhenDeletedHere.

#[export] Instance Retention_eq_dec : EqDecision Retention.
Proof. solve_decision. Defined.

Record Seen := {
  s_account : text; s_uidl : text; s_hash : text; s_uid : option Z; s_fetched_at : Z; s_deleted_on_server : bool
}.
Record Policy := { p_account : text; p_policy : text; p_days : Z }.

Record Db := { store : LocalArchive.Db; pop3_seen : list Seen; pop3_policy : list Policy }.

Definition set_store (s : LocalArchive.Db) (db : Db) : Db :=
  {| store := s; pop3_seen := pop3_seen db; pop3_policy := pop3_policy db |}.
Definition set_seen (t : list Seen) (db : Db) : Db :=
  {| store := store db; pop3_seen := t; pop3_policy := pop3_policy db |}.

Definition retention (db : Db) (account : text) : Retention :=
  match query_row (fun r => bool_decide (p_account r = account)) (pop3_policy db) with
  | Some r =>
      if bool_decide (p_policy r = lit "days") && (0 <? p_days r) then AfterDays (p_days r mod 2 ^ 32)
      else if bool_decide (p_policy r = lit "deleted") then WhenDeletedHere
      else Keep
  | None => Keep
  end.

Definition has_downloaded (db : Db) (account : text) : bool :=
  existsb (fun r => bool_decide (s_account r = account)) (pop3_seen db).

Definition set_retention (db : Db) (account : text) (r : Retention) : result text Db :=
  '(policy, days) ← match r with
    | Keep => Ok (lit "keep", 0)
    | AfterDays days => if 1 <=? days then Ok (lit "days", days) else Err (lit "at least one day")
    | WhenDeletedHere => Ok (lit "deleted", 0)
    end;
  Ok {| store := store db; pop3_seen := pop3_seen db;
        pop3_policy := upsert (fun p => bool_decide (p_account p = account))
          {| p_account := account; p_policy := policy; p_days := days |}
          (fun p => {| p_account := p_account p; p_policy := policy; p_days := days |}) (pop3_policy db) |}.

(** ** Answers *)

Section Wire.
Context {M : Mime}.

Definition cut_off : text := lit "the download was cut off".
Definition too_large : text := lit "the message is too large to download".

(** [raw.strip_suffix(b"\r\n").or_else(|| raw.strip_suffix(b"\n"))] *)
Definition strip_line_end (raw : list Z) : list Z :=
  unwrap_or (unwrap_or raw (strip_suffix [10] raw)) (strip_suffix [13; 10] raw).

(** [multiline]: what is read, line by line, until the dot. *)
Fixpoint multiline_from (limit : Z) (out : list Z) (input : list (list Z)) : result text (list Z * list (list Z)) :=
  match input with
  | [] => Err cut_off
  | raw :: rest =>
      if negb (ends_with [10] raw) then Err cut_off else
      let line := strip_line_end raw in
      if bool_decide (line = [46]) then Ok (out, rest) else
      let line := unwrap_or line (strip_prefix [46] line) in
      if Z.of_nat (length out) + Z.of_nat (length line) + 2 <=? limit
      then multiline_from limit (out ++ line ++ [13; 10]) rest
      else Err too_large
  end.

Definition multiline (limit : Z) (input : list Z) : result text (list Z * list (list Z)) :=
  multiline_from limit [] (Mbox.split_lines input).

(** [status], of a line without its end *)
Definition status (line : text) : result text text :=
  match strip_prefix (lit "+OK") line with
  | Some rest => Ok (trim rest)
  | None => Err (lit "the POP3 server refused: " ++ trim (unwrap_or line (strip_prefix (lit "-ERR") line)))
  end.

Record Capabilities := { stls : bool; uidl : bool; user : bool; sasl : list text }.

Definition no_capabilities : Capabilities := {| stls := false; uidl := false; user := false; sasl := [] |}.

(** An old server without CAPA. *)
Definition old_server : Capabilities := {| stls := false; uidl := true; user := true; sasl := [] |}.

Definition read_capability (caps : Capabilities) (line : text) : Capabilities :=
  match split_whitespace line with
  | [] => caps
  | first :: rest =>
      let word := to_ascii_uppercase first in
      if bool_decide (word = lit "STLS") then {| stls := true; uidl := uidl caps; user := user caps; sasl := sasl caps |}
      else if bool_decide (word = lit "UIDL") then {| stls := stls caps; uidl := true; user := user caps; sasl := sasl caps |}
      else if bool_decide (word = lit "USER") then {| stls := stls caps; uidl := uidl caps; user := true; sasl := sasl caps |}
      else if bool_decide (word = lit "SASL") then
        {| stls := stls caps; uidl := uidl caps; user := user caps; sasl := to_ascii_uppercase <$> rest |}
      else caps
  end.

Definition capabilities_of (answer : list Z) : Capabilities :=
  foldl read_capability no_capabilities (lines (from_utf8_lossy answer)).

Definition parse_u32 : text -> option Z := parse_unsigned (2 ^ 32 - 1).
Definition parse_usize : text -> option Z := parse_unsigned (2 ^ 64 - 1).

Definition read_uidl (line : text) : result text (Z * text) :=
  let parts := split_whitespace line in
  n ← ok_or (lit "a UIDL line without a number") (head parts ≫= parse_u32);
  uidl ← ok_or (lit "a UIDL line without an id") (head (tail parts));
  Ok (n, uidl).

Definition uidls_of (answer : list Z) : result text (list (Z * text)) :=
  mapM read_uidl (base.filter (fun l => is_empty (trim l) = false) (lines (from_utf8_lossy answer))).

Definition read_size (line : text) : option (Z * Z) :=
  let parts := split_whitespace line in
  n ← head parts ≫= parse_u32; size ← head (tail parts) ≫= parse_usize; Some (n, size).

(** [collect] into a [HashMap]: the last of a number counts. *)
Definition sizes_of (answer : list Z) : gmap Z Z :=
  foldl (fun m '(n, size) => <[n := size]> m) ∅ (omap read_size (lines (from_utf8_lossy answer))).
End Wire.

(** ** Signing in *)

Record Creds := { tls : bool; starttls : bool; c_user : text; password : text }.

(** What is sent and read of a connection. *)
Inductive Net : Type -> Type :=
| OpenTls : Net (result text unit)
| OpenPlain : Net (result text unit)
| Greeting : Net (result text text)
| Command (command : text) : Net (result text text)
| Answer (limit : Z) : Net (result text (list Z))
| Upgrade : Net (result text unit).

Section Connect.
Context {M : Mime}.
#[local] Open Scope prog_scope.

Definition capabilities : prog Net (result text Capabilities) :=
  capa <- call (Command (lit "CAPA")) ;;
  match capa with
  | Err _ => Ret (Ok old_server)
  | Ok _ => answer <-? call (Answer (64 * 1024)) ;; Ret (Ok (capabilities_of answer))
  end.

Definition has_line_end (s : text) : bool := contains_char 13 s || contains_char 10 s.

Definition wrong_password : text := lit "the POP3 server did not accept the user name and password".

Definition login (name secret : text) : prog Net (result text unit) :=
  if has_line_end name || has_line_end secret then Ret (Err (lit "invalid characters")) else
  _ <-? call (Command (lit "USER " ++ name)) ;;
  r <- call (Command (lit "PASS " ++ secret)) ;;
  Ret (match r with Ok _ => Ok tt | Err _ => Err wrong_password end).

Definition no_tls : text := lit "the POP3 server does not offer TLS, so the password is not sent to it".

Definition connect (creds : Creds) : prog Net (result text unit) :=
  if tls creds && negb (starttls creds) then
    _ <-? call OpenTls ;; _ <-? call Greeting ;; login (c_user creds) (password creds)
  else
    _ <-? call OpenPlain ;; _ <-? call Greeting ;;
    caps <-? capabilities ;;
    if negb (stls caps) then Ret (Err no_tls) else
    _ <-? call (Command (lit "STLS")) ;;
    _ <-? call Upgrade ;; login (c_user creds) (password creds).
End Connect.

(** ** Fetching *)

Record FetchSummary := { downloaded : nat; already_here : nat; skipped : nat; deleted_on_server : nat }.

Definition nothing_fetched : FetchSummary := {| downloaded := 0; already_here := 0; skipped := 0; deleted_on_server := 0 |}.
Definition one_downloaded (s : FetchSummary) : FetchSummary :=
  {| downloaded := S (downloaded s); already_here := already_here s; skipped := skipped s; deleted_on_server := deleted_on_server s |}.
Definition one_already_here (s : FetchSummary) : FetchSummary :=
  {| downloaded := downloaded s; already_here := S (already_here s); skipped := skipped s; deleted_on_server := deleted_on_server s |}.
Definition one_skipped (s : FetchSummary) : FetchSummary :=
  {| downloaded := downloaded s; already_here := already_here s; skipped := S (skipped s); deleted_on_server := deleted_on_server s |}.
Definition with_deleted (n : nat) (s : FetchSummary) : FetchSummary :=
  {| downloaded := downloaded s; already_here := already_here s; skipped := skipped s; deleted_on_server := n |}.

Section Fetch.
Context {M : Mime} {U : Unicode} {H : Digest}.

Definition is_seen (account uidl : text) (r : Seen) : bool :=
  bool_decide (s_account r = account) && bool_decide (s_uidl r = uidl).

(** [INSERT OR IGNORE INTO pop3_seen ... NULL] *)
Definition note_only (account uidl digest : text) (now : Z) (db : Db) : Db :=
  if existsb (is_seen account uidl) (pop3_seen db) then db
  else set_seen (pop3_seen db ++ [{| s_account := account; s_uidl := uidl; s_hash := digest; s_uid := None;
                                     s_fetched_at := now; s_deleted_on_server := false |}]) db.

(** [INSERT OR REPLACE INTO pop3_seen] *)
Definition note (account uidl digest : text) (uid now : Z) (db : Db) : Db :=
  set_seen (insert_or_replace (is_seen account uidl)
    {| s_account := account; s_uidl := uidl; s_hash := digest; s_uid := Some uid;
       s_fetched_at := now; s_deleted_on_server := false |} (pop3_seen db)) db.

Definition known (db : Db) (account : text) : list (text * text) :=
  (fun r => (s_uidl r, s_hash r)) <$> select (fun r => bool_decide (s_account r = account)) (pop3_seen db).

(** The join of [archive_messages] and [messages]. *)
Definition stored_already (db : Db) (account : text) (raw : list Z) (digest : text) : bool :=
  let id := LocalArchive.header_id raw in
  negb (is_empty id) &&
  existsb (fun a =>
    bool_decide (LocalArchive.a_account a = account) &&
    existsb (fun m => LocalArchive.is_message (LocalArchive.a_account a) (LocalArchive.a_folder a) (LocalArchive.a_uid a) m &&
                      bool_decide (to_ascii_lowercase <$> LocalArchive.m_message_id m = Some (to_ascii_lowercase id)))
      (LocalArchive.messages (store db)) &&
    bool_decide (sha256_hex (LocalArchive.a_raw a) = digest))
    (LocalArchive.archive_messages (store db)).

Definition present_hashes (db : Db) (account : text) : list text :=
  (fun a => sha256_hex (LocalArchive.a_raw a)) <$>
  select (fun a => bool_decide (LocalArchive.a_account a = account) && negb (bool_decide (LocalArchive.a_folder a = LocalArchive.TRASH)))
    (LocalArchive.archive_messages (store db)).

(** One listed message, by the policy. *)
Definition doomed_now (db : Db) (account : text) (policy : Retention) (present : list text) (now : Z) (uidl : text) : bool :=
  match query_row (is_seen account uidl) (pop3_seen db) with
  | Some r =>
      bool_decide (is_Some (s_uid r)) &&
      match policy with
      | Keep => false
      | AfterDays days => days * 86400 <=? now - s_fetched_at r
      | WhenDeletedHere => negb (bool_decide (s_hash r ∈ present))
      end
  | None => false
  end.

Definition to_delete (db : Db) (account : text) (listed : list (Z * text)) (now : Z) : list (Z * text) :=
  let policy := retention db account in
  if bool_decide (policy = Keep) then [] else
  let present := if bool_decide (policy = WhenDeletedHere) then present_hashes db account else [] in
  base.filter (fun nu => doomed_now db account policy present now nu.2 = true) listed.

Definition mark_deleted (account uidl : text) (db : Db) : Db :=
  set_seen (update (is_seen account uidl)
    (fun r => {| s_account := s_account r; s_uidl := s_uidl r; s_hash := s_hash r; s_uid := s_uid r;
                 s_fetched_at := s_fetched_at r; s_deleted_on_server := true |}) (pop3_seen db)) db.

(** The session's commands, and the statements. *)
Inductive Ev : Type -> Type :=
| Uidls : Ev (result text (list (Z * text)))
| Sizes : Ev (result text (gmap Z Z))
| Retr (n : Z) : Ev (result text (list Z))
| Dele (n : Z) : Ev (result text unit)
| Quit : Ev (result text unit)
| Known (account : text) : Ev (result text (list (text * text)))
| StoredAlready (account : text) (raw : list Z) (digest : text) : Ev (result text bool)
| NoteOnly (account uidl digest : text) (now : Z) : Ev (result text unit)
| Store (account : text) (raw : list Z) : Ev (result text Z)
| Note (account uidl digest : text) (uid now : Z) : Ev (result text unit)
| ToDelete (account : text) (listed : list (Z * text)) (now : Z) : Ev (result text (list (Z * text)))
| MarkDeleted (account uidl : text) : Ev (result text unit).

#[local] Open Scope prog_scope.

(** One message that is to be downloaded. *)
Definition download_one (account : text) (now : Z) (n : Z) (uidl : text) (hashes : gset text) (s : FetchSummary)
  : prog Ev (result text (gset text * FetchSummary)) :=
  raw <-? call (Retr n) ;;
  let digest := sha256_hex raw in
  here <-? (if bool_decide (digest ∈ hashes) then Ret (Ok true) else call (StoredAlready account raw digest)) ;;
  if (here : bool) then
    _ <-? call (NoteOnly account uidl digest now) ;; Ret (Ok (hashes, one_already_here s))
  else if negb (LocalArchive.looks_like_message raw) then
    _ <-? call (NoteOnly account uidl digest now) ;; Ret (Ok (hashes, one_skipped s))
  else
    uid <-? call (Store account raw) ;;
    _ <-? call (Note account uidl digest uid now) ;;
    Ret (Ok ({[ digest ]} ∪ hashes, one_downloaded s)).

Fixpoint download (account : text) (now : Z) (known : gset text) (sizes : gmap Z Z) (listed : list (Z * text))
    (hashes : gset text) (s : FetchSummary) : prog Ev (result text FetchSummary) :=
  match listed with
  | [] => Ret (Ok s)
  | (n, uidl) :: rest =>
      if bool_decide (uidl ∈ known) then download account now known sizes rest hashes s
      else if is_some_and (fun size => MAX_MESSAGE_BYTES <? size) (sizes !! n)
      then download account now known sizes rest hashes (one_skipped s)
      else hs <-? download_one account now n uidl hashes s ;;
           download account now known sizes rest hs.1 hs.2
  end.

Fixpoint each {A} (l : list A) (f : A -> prog Ev (result text unit)) : prog Ev (result text unit) :=
  match l with
  | [] => Ret (Ok tt)
  | a :: l' => _ <-? f a ;; each l' f
  end.

Definition fetch (account : text) (now : Z) : prog Ev (result text FetchSummary) :=
  listed <-? call Uidls ;;
  sizes <-? call Sizes ;;
  rows <-? call (Known account) ;;
  s <-? download account now (list_to_set rows.*1) sizes listed (list_to_set rows.*2) nothing_fetched ;;
  doomed <-? call (ToDelete account listed now) ;;
  _ <-? each doomed (fun nu => call (Dele nu.1)) ;;
  _ <-? call Quit ;;
  if is_nil doomed then Ret (Ok s) else
  _ <-? each doomed (fun nu => call (MarkDeleted account nu.2)) ;;
  Ret (Ok (with_deleted (length doomed) s)).
End Fetch.
End Pop3.
