(* ===== verification/Pop3Laws.v ===== *)
(** * What is true of POP3 accounts

    A multi-line answer is read back as it was meant, and a cut one is not
    used ([answers_come_whole]); nothing but CAPA and STLS is said in clear,
    and a session that is signed in is under TLS ([nothing_said_in_clear]). *)
From S2P Require Import Prelude.
From S2P Require Import Text.
From S2P Require Import Table.
From S2P Require Import Program.
From S2P Require Import Mbox.
From S2P Require Import LocalArchive.
From S2P Require Import Pop3.

#[local] Open Scope Z_scope.

Module Pop3Laws.
Import Pop3.

(** ** Answers *)

(** How a server writes an answer: lines ended, a dot before a dot. *)
Definition stuffed (line : list Z) : list Z := if starts_with [46] line then 46 :: line else line.
Definition sent_line (line : list Z) : list Z := stuffed line ++ [13; 10].
Definition sent_answer (ls : list (list Z)) : list Z := concat (sent_line <$> ls) ++ [46; 13; 10].

Definition unended (line : list Z) : Prop := 10 ∉ line.

Lemma sent_full line : unended line -> Mbox.full (sent_line line).
Proof.
  intros Hn. unfold sent_line. exists (stuffed line ++ [13]). split; [by rewrite <- (assoc_L (++))|].
  unfold stuffed. apply not_elem_of_app. split; [|by apply (bool_decide_unpack _); vm_compute].
  case_match; [|done]. apply not_elem_of_cons. split; [done|done].
Qed.

Lemma ends_app a p : ends_with p (a ++ p) = true.
Proof. apply ends_with_spec. by exists a. Qed.

Lemma strip_crlf line : strip_line_end (line ++ [13; 10]) = line.
Proof.
  unfold strip_line_end. unfold strip_suffix at 2. rewrite ends_app, length_app. cbn [length unwrap_or].
  rewrite Nat.add_sub. apply take_app_length.
Qed.

Lemma stuffed_not_dot line : stuffed line <> [46].
Proof.
  unfold stuffed. destruct (starts_with [46] line) eqn:E.
  - intros [= ->]. done.
  - intros ->. done.
Qed.

Lemma unstuffed line : unwrap_or (stuffed line) (strip_prefix [46] (stuffed line)) = line.
Proof.
  unfold stuffed. destruct (starts_with [46] line) eqn:E.
  - change (46 :: line) with ([46] ++ line). by rewrite strip_prefix_app.
  - unfold strip_prefix. by rewrite E.
Qed.

Lemma multiline_line limit out line rest : multiline_from limit out (sent_line line :: rest) =
  if Z.of_nat (length out) + Z.of_nat (length line) + 2 <=? limit
  then multiline_from limit (out ++ line ++ [13; 10]) rest else Err too_large.
Proof.
  cbn [multiline_from]. unfold sent_line.
  assert (ends_with [10] (stuffed line ++ [13; 10]) = true) as ->.
  { apply ends_with_spec. exists (stuffed line ++ [13]). by rewrite <- (assoc_L (++)). }
  cbn [negb]. rewrite strip_crlf, bool_decide_false by apply stuffed_not_dot. by rewrite unstuffed.
Qed.

Definition meant (ls : list (list Z)) : list Z := concat ((fun l => l ++ [13; 10]) <$> ls).

Lemma multiline_all limit ls rest : forall out, Z.of_nat (length out) + Z.of_nat (length (meant ls)) <= limit ->
  multiline_from limit out ((sent_line <$> ls) ++ [46; 13; 10] :: rest) = Ok (out ++ meant ls, rest).
Proof.
  unfold meant. induction ls as [|l ls IH]; intros out Hl.
  - cbn. by rewrite app_nil_r.
  - rewrite !fmap_cons in *. cbn [concat app] in *. rewrite multiline_line. rewrite !length_app in Hl. cbn [length] in Hl.
    rewrite (proj2 (Z.leb_le _ _)) by lia. rewrite IH; [by rewrite <- !(assoc_L (++))|].
    rewrite !length_app. cbn [length]. lia.
Qed.

Lemma dot_full : Mbox.full [46; 13; 10].
Proof. exists [46; 13]. split; [done|]. by apply (bool_decide_unpack _); vm_compute. Qed.

(** A part of a line is no line. *)
Lemma part_unended (body p q : list Z) : 10 ∉ body -> body ++ [10] = p ++ q -> q <> [] -> 10 ∉ p.
Proof.
  intros Hb He Hq Hin. destruct q as [|x q _] using rev_ind; [done|].
  rewrite (assoc_L (++)) in He. apply app_inj_tail in He as [-> _]. apply Hb, elem_of_app. by left.
Qed.

Lemma cut_line limit out p : 10 ∉ p -> exists why, multiline_from limit out (Mbox.split_lines p) = Err why.
Proof.
  intros Hp. destruct (decide (p = [])) as [->|Hne]; [by eexists|].
  pose proof (Mbox.split_rest [] p) as Hs. cbn [concat app] in Hs. rewrite Hs by (done || constructor).
  cbn [multiline_from]. assert (ends_with [10] p = false) as ->.
  { apply not_true_iff_false. intros [a ->]%ends_with_spec. apply Hp, elem_of_app. right. by left. }
  by eexists.
Qed.

Lemma sent_first l m : unended l -> Mbox.split_lines (sent_line l ++ m) = sent_line l :: Mbox.split_lines m.
Proof.
  intros Hl. destruct (sent_full l Hl) as (body & Hbody & Hnb). rewrite Hbody, <- (assoc_L (++)).
  exact (Mbox.split_full body m Hnb).
Qed.

Lemma multiline_cut limit ls p q : Forall unended ls -> sent_answer ls = p ++ q -> q <> [] -> forall out,
  exists why, multiline_from limit out (Mbox.split_lines p) = Err why.
Proof.
  unfold sent_answer. intros Hls. revert p. induction Hls as [|l ls Hl Hls IH]; intros p He Hq out.
  - cbn [fmap list_fmap concat app] in He. apply cut_line.
    apply (part_unended [46; 13] p q); [by apply (bool_decide_unpack _); vm_compute|done|done].
  - rewrite fmap_cons in He. cbn [concat] in He. rewrite <- (assoc_L (++)) in He.
    destruct (sent_full l Hl) as (body & Hbody & Hnb).
    apply app_eq_app in He as (m & [[Hp Hq']|[Hp Hq']]).
    + destruct m as [|x m].
      * rewrite app_nil_r in Hp. subst p. rewrite <- (app_nil_r (sent_line l)), sent_first by done.
        rewrite multiline_line. case_match; by eexists.
      * apply cut_line. apply (part_unended body p (x :: m)); [done| |done]. exact (eq_trans (eq_sym Hbody) Hp).
    + subst p. rewrite sent_first by done. rewrite multiline_line.
      case_match; [|by eexists]. by apply IH.
Qed.

(** An answer of several lines is read as the server meant it, every line
    whole, whatever begins with a dot, and what follows is left for the next
    answer; and an answer cut off anywhere before its end is an error, with
    nothing of it used. *)
Theorem answers_come_whole limit ls more : Forall unended ls -> Z.of_nat (length (meant ls)) <= limit ->
  multiline limit (sent_answer ls ++ more) = Ok (meant ls, Mbox.split_lines more) /\
  (forall p q, sent_answer ls = p ++ q -> q <> [] -> exists why, multiline limit p = Err why).
Proof.
  intros Hls Hl. unfold multiline. split; [|intros p q He Hq; by eapply multiline_cut].
  unfold sent_answer. destruct (Mbox.lines_and_rest more) as (ms & rest & -> & Hms & Hrest).
  assert (concat (sent_line <$> ls) ++ [46; 13; 10] = concat ((sent_line <$> ls) ++ [[46; 13; 10]])) as ->.
  { rewrite concat_app. done. }
  rewrite (assoc_L (++)), <- concat_app.
  assert (Forall Mbox.full ((sent_line <$> ls) ++ [[46; 13; 10]])) as Hfull.
  { apply Forall_app. split; [apply Forall_fmap; eapply Forall_impl; [exact Hls|]; apply sent_full|constructor; [apply dot_full|done]]. }
  destruct (decide (rest = [])) as [->|Hne].
  - rewrite !app_nil_r, !Mbox.split_concat by (try done; by apply Forall_app). rewrite <- (assoc_L (++)). cbn [app].
    by rewrite multiline_all by (cbn; lia).
  - rewrite !Mbox.split_rest by (try done; by apply Forall_app). rewrite <- !(assoc_L (++)). cbn [app].
    by rewrite multiline_all by (cbn; lia).
Qed.

(** A message with a line that is a dot, and the dot that ends it. *)
Lemma answers_come_whole_witness :
  multiline 1000 (lit "Hello" ++ [13; 10] ++ lit ".." ++ [13; 10; 46; 13; 10] ++ lit "+OK" ++ [13; 10]) =
  Ok (lit "Hello" ++ [13; 10] ++ lit "." ++ [13; 10], [lit "+OK" ++ [13; 10]]).
Proof.
  exact (proj1 (answers_come_whole 1000 [lit "Hello"; lit "."] (lit "+OK" ++ [13; 10])
    ltac:(repeat constructor; apply (bool_decide_unpack _); vm_compute; exact I) ltac:(vm_compute; discriminate))).
Defined.

(** ** Signing in *)

(** The connection: whether it is under TLS, what was said in clear, and all
    that was said. *)
Record Line := { secure : bool; in_clear : list text; said : list text }.

Definition fresh : Line := {| secure := false; in_clear := []; said := [] |}.

Definition speak (c : text) (l : Line) : Line :=
  {| secure := secure l; in_clear := if secure l then in_clear l else in_clear l ++ [c]; said := said l ++ [c] |}.

(** Whatever the server answers. *)
Definition talks X (e : Net X) (l l' : Line) : X -> Prop :=
  match e in Net X return X -> Prop with
  | OpenTls | Upgrade => fun r => l' = {| secure := is_ok r || secure l; in_clear := in_clear l; said := said l |}
  | OpenPlain => fun _ => l' = l
  | Greeting => fun _ => l' = l
  | Answer _ => fun _ => l' = l
  | Command c => fun _ => l' = speak c l
  end.

Definition discreet (l : Line) : Prop :=
  Forall (fun c => c ∈ [lit "CAPA"; lit "STLS"]) (in_clear l) /\ Forall (fun c => has_line_end c = false) (said l).

Lemma speak_discreet c l : discreet l -> secure l = true \/ c ∈ [lit "CAPA"; lit "STLS"] -> has_line_end c = false ->
  discreet (speak c l).
Proof.
  intros [Hc Hs] Hor Hn. unfold speak. split; cbn.
  - destruct Hor as [->|Hor]; [done|]. destruct (secure l); [done|]. apply Forall_app. split; [done|]. by constructor.
  - apply Forall_app. split; [done|]. by constructor.
Qed.

Lemma has_line_end_app a b : has_line_end a = false -> has_line_end b = false -> has_line_end (a ++ b) = false.
Proof.
  unfold has_line_end, contains_char. rewrite !existsb_app, !orb_false_iff. tauto.
Qed.

Section SignIn.
Context {M : Mime}.

Definition signed_in (r : result text unit) (l : Line) : Prop := (is_ok r = true -> secure l = true) /\ discreet l.

Lemma login_discreet name secret l : secure l = true -> discreet l ->
  ensures talks discreet (login name secret) signed_in l.
Proof.
  intros Hs Hd. unfold login, call. destruct (has_line_end name || has_line_end secret) eqn:E; [by split|].
  apply orb_false_iff in E as [En Es].
  assert (discreet (speak (lit "USER " ++ name) l)) as H1.
  { apply speak_discreet; [done|by left|]. by apply has_line_end_app. }
  intros l1 r1 ->. split; [done|]. destruct r1 as [r1|]; [|by split].
  assert (discreet (speak (lit "PASS " ++ secret) (speak (lit "USER " ++ name) l))) as H2.
  { apply speak_discreet; [done|by left|]. by apply has_line_end_app. }
  intros l2 r2 ->. split; [done|]. destruct r2; by split.
Qed.

Lemma capabilities_discreet l : discreet l -> ensures talks discreet capabilities (fun _ => discreet) l.
Proof.
  intros Hd. unfold capabilities, call.
  assert (discreet (speak (lit "CAPA") l)) as H1 by (apply speak_discreet; [done|right; by left|done]).
  intros l1 r1 ->. split; [done|]. destruct r1; [|done]. intros l2 r2 ->. split; [done|]. by destruct r2.
Qed.

(** C18. Whatever the server answers and wherever the connection is lost:
    nothing is said in clear but CAPA and STLS, so neither the user name nor
    the password; no command holds a line end, so no other command rides in
    a name or password; and a session that is signed in is under TLS. *)
Theorem nothing_said_in_clear creds : ensures talks discreet (connect creds) signed_in fresh.
Proof.
  assert (discreet fresh) as H0 by by split.
  unfold connect, call. destruct (tls creds && negb (starttls creds)).
  - intros l1 r1 ->. assert (discreet {| secure := is_ok r1 || secure fresh; in_clear := in_clear fresh; said := said fresh |}) by done.
    split; [done|]. destruct r1; [|by split]. intros l2 r2 ->. split; [done|]. destruct r2; [|by split]. by apply login_discreet.
  - intros l1 r1 ->. split; [done|]. destruct r1; [|by split]. intros l2 r2 ->. split; [done|]. destruct r2; [|by split].
    apply ensures_and_then. eapply ensures_mono; [|by apply capabilities_discreet]. intros [caps|e] l3 H3; [|by split].
    destruct (negb (stls caps)); [by split|].
    assert (discreet (speak (lit "STLS") l3)) as H4 by (apply speak_discreet; [done|right; by right; left|done]).
    intros l4 r4 ->. split; [done|]. destruct r4; [|by split].
    intros l5 r5 ->. split; [done|]. destruct r5; [|by split]. by apply login_discreet.
Qed.
End SignIn.
End Pop3Laws.

(** * What is true of POP3 downloads

    The world of an account: its tables, the session with the server, and a
    log of what was stored, noted, asked to be deleted, and deleted there.
    Over any life of it ([lived]): fetches, each stopped anywhere or failing
    at any call, a server that answers late or not at all, and between any
    two calls whatever else happens to the tables ([person]).

    What is deleted from the server was stored here and the policy asked for
    it ([deleted_only_as_asked]); nothing is stored twice ([stored_once]); a
    message stored by a fetch that was stopped then stays on the server for
    good ([a_stop_keeps_it_on_the_server]). *)

#[local] Open Scope Z_scope.

Module Pop3Fetch.
Import Pop3.

(** A session numbers the messages it lists; [marked] are the numbers to be
    deleted when it ends. *)
Record World := {
  db : Db; session : list (Z * text); marked : list Z;
  stored : list (list Z); noted : list (text * Z); asked : list (Db * Z); gone : list text
}.

Definition with_db (d : Db) (w : World) : World :=
  {| db := d; session := session w; marked := marked w; stored := stored w; noted := noted w; asked := asked w; gone := gone w |}.
Definition with_session (s : list (Z * text)) (w : World) : World :=
  {| db := db w; session := s; marked := []; stored := stored w; noted := noted w; asked := asked w; gone := gone w |}.
Definition with_mark (n : Z) (w : World) : World :=
  {| db := db w; session := session w; marked := n :: marked w; stored := stored w; noted := noted w; asked := asked w; gone := gone w |}.
Definition with_stored (raw : list Z) (w : World) : World :=
  {| db := db w; session := session w; marked := marked w; stored := stored w ++ [raw]; noted := noted w; asked := asked w; gone := gone w |}.
Definition with_noted (uidl : text) (now : Z) (w : World) : World :=
  {| db := db w; session := session w; marked := marked w; stored := stored w; noted := noted w ++ [(uidl, now)]; asked := asked w;
     gone := gone w |}.
Definition with_asked (now : Z) (w : World) : World :=
  {| db := db w; session := session w; marked := marked w; stored := stored w; noted := noted w; asked := asked w ++ [(db w, now)];
     gone := gone w |}.
(** The clean end of a session. *)
Definition swept (w : World) : World :=
  {| db := db w; session := session w; marked := marked w; stored := stored w; noted := noted w; asked := asked w;
     gone := gone w ++ (base.filter (fun nu => nu.1 ∈ marked w) (session w)).*2 |}.

Section Fetching.
Context {M : Mime} {U : Unicode} {H : Digest}.

(** The account; what the server keeps under each unique id; what else may
    happen to the tables between two calls. *)
Context (account : text) (content : text -> list Z) (person : Db -> Db -> Prop).

Definition seen_of (d : Db) : list Seen := select (fun r => bool_decide (s_account r = account)) (pop3_seen d).

Definition acts {X} (e : Ev X) (w w' : World) : X -> Prop :=
  match e in Ev X return X -> Prop with
  | Uidls => fun r => w' = w /\ forall l, r = Ok l -> l = session w
  | Sizes => fun _ => w' = w
  | Retr n => fun r => w' = w /\ forall raw, r = Ok raw -> exists u, (n, u) ∈ session w /\ raw = content u
  | Dele n => fun r => w' = with_mark n w \/ (w' = w /\ is_ok r = false)
  | Quit => fun r => w' = swept w \/ (w' = w /\ is_ok r = false)
  | Known a => fun r => (r = Ok (known (db w) a) /\ w' = with_db (set_store (LocalArchive.ensure_folder a INBOX (store (db w))) (db w)) w) \/
                        (w' = w /\ is_ok r = false)
  | StoredAlready a raw digest => fun r => w' = w /\ forall b, r = Ok b -> b = stored_already (db w) a raw digest
  | NoteOnly a uidl digest now => fun r => (r = Ok tt /\ w' = with_db (note_only a uidl digest now (db w)) w) \/ (w' = w /\ is_ok r = false)
  | Store a raw => fun r =>
      (let s := LocalArchive.store_message a INBOX raw false false (store (db w)) in
       r = Ok s.2 /\ w' = with_stored raw (with_db (set_store s.1 (db w)) w)) \/ (w' = w /\ is_ok r = false)
  | Note a uidl digest uid now => fun r =>
      (r = Ok tt /\ w' = with_noted uidl now (with_db (note a uidl digest uid now (db w)) w)) \/ (w' = w /\ is_ok r = false)
  | ToDelete a listed now => fun r => w' = with_asked now w /\ (is_ok r = true -> r = Ok (to_delete (db w) a listed now))
  | MarkDeleted a uidl => fun r => (r = Ok tt /\ w' = with_db (mark_deleted a uidl (db w)) w) \/ (w' = w /\ is_ok r = false)
  end.

Definition does X (e : Ev X) (w w' : World) (r : X) : Prop := exists d, person (db w) d /\ acts e (with_db d w) w' r.

(** A life of the account. *)
Inductive lived : World -> Prop :=
| born d : seen_of d = [] ->
    lived {| db := d; session := []; marked := []; stored := []; noted := []; asked := []; gone := [] |}
| meanwhile w d : lived w -> person (db w) d -> lived (with_db d w)
| signed_in w s : lived w -> NoDup s.*1 -> lived (with_session s w)
| fetched w w' now o : lived w -> runs does (fetch account now) w w' o -> lived w'.

(** What the policy of the tables [d] asks for, of the message [uidl]. *)
Definition wanted (noted : list (text * Z)) (d : Db) (now : Z) (uidl : text) : Prop :=
  match retention d account with
  | Keep => False
  | AfterDays days => exists t, (uidl, t) ∈ noted /\ days * 86400 <= now - t
  | WhenDeletedHere => forall a, a ∈ LocalArchive.archive_messages (store d) -> LocalArchive.a_account a = account ->
      LocalArchive.a_raw a = content uidl -> LocalArchive.a_folder a = LocalArchive.TRASH
  end.

Definition justified (w : World) (uidl : text) : Prop :=
  content uidl ∈ stored w /\ exists d now, (d, now) ∈ asked w /\ wanted (noted w) d now uidl.

(** A row that says the message was stored here. *)
Definition good_row (w : World) (r : Seen) : Prop := is_Some (s_uid r) ->
  content (s_uidl r) ∈ stored w /\ (s_uidl r, s_fetched_at r) ∈ noted w /\ s_hash r = sha256_hex (content (s_uidl r)).

(** A message noted under some unique id; one that a later fetch finds
    here. *)
Definition noted_hash (d : Db) (raw : list Z) : Prop :=
  exists r, r ∈ seen_of d /\ is_Some (s_uid r) /\ s_hash r = sha256_hex raw.
Definition held (d : Db) (raw : list Z) : Prop := noted_hash d raw \/ stored_already d account raw (sha256_hex raw) = true.
Definition once (w : World) : Prop := NoDup (stored w) /\ Forall (held (db w)) (stored w).

(** Messages whose id is read the same way everywhere. *)
Definition findable (raw : list Z) : Prop := LocalArchive.header_id raw <> [] /\
  to_ascii_lowercase (LocalArchive.parsed_id raw) = to_ascii_lowercase (LocalArchive.header_id raw).

(** Nothing takes away a message between its storing and its noting, and the
    folders have room. *)
Definition calm : Prop :=
  (forall d d', person d d' -> LocalArchiveLaws.room 1 (store d') /\
     forall raw, stored_already d account raw (sha256_hex raw) = true ->
       noted_hash d raw \/ stored_already d' account raw (sha256_hex raw) = true) /\
  (forall u, findable (content u)).

Definition sound (w : World) : Prop :=
  Forall (good_row w) (seen_of (db w)) /\ NoDup (session w).*1 /\
  (forall n u, (n, u) ∈ session w -> n ∈ marked w -> justified w u) /\ Forall (justified w) (gone w) /\ (calm -> once w).

(** ** What is deleted *)

(** The logs only grow. *)
Definition grows (w w' : World) : Prop :=
  stored w ⊆ stored w' /\ noted w ⊆ noted w' /\ asked w ⊆ asked w'.

Lemma wanted_grows l l' d now u : l ⊆ l' -> wanted l d now u -> wanted l' d now u.
Proof. intros Hl. unfold wanted. destruct (retention d account); [done| |done]. intros (t & Ht & Hd). exists t. auto. Qed.

Lemma justified_grows w w' u : grows w w' -> justified w u -> justified w' u.
Proof.
  intros (Hs & Hn & Ha) (Hu & d & now & Hd & Hw). split; [auto|]. exists d, now. split; [auto|]. by eapply wanted_grows.
Qed.

Lemma good_row_grows w w' r : grows w w' -> good_row w r -> good_row w' r.
Proof. intros (Hs & Hn & Ha) Hg Hr. destruct (Hg Hr) as (? & ? & ?). auto. Qed.

Lemma grows_self w d : grows w (with_db d w).
Proof. by split_and!. Qed.

(** What the calls of a fetch are made with. *)
Definition allowed (w : World) {X} (e : Ev X) : Prop :=
  match e with
  | Dele n => forall u, (n, u) ∈ session w -> justified w u
  | Known a | StoredAlready a _ _ | NoteOnly a _ _ _ | ToDelete a _ _ | MarkDeleted a _ => a = account
  | Store a raw => a = account /\ (calm -> raw ∉ stored w /\ findable raw)
  | Note a uidl digest _ _ => a = account /\ content uidl ∈ stored w /\ digest = sha256_hex (content uidl)
  | _ => True
  end.

Context (Hperson : forall d d', person d d' -> seen_of d' = seen_of d).

Lemma seen_of_note_only uidl digest now d r : r ∈ seen_of (note_only account uidl digest now d) ->
  r ∈ seen_of d \/ s_uid r = None.
Proof.
  unfold seen_of, note_only. case_match; [by left|]. cbn [pop3_seen set_seen]. rewrite !elem_of_select, elem_of_app, list_elem_of_singleton.
  intros [[Hr| ->] Ha]; [by left|by right].
Qed.

Lemma seen_of_note uidl digest uid now d r : r ∈ seen_of (note account uidl digest uid now d) ->
  r ∈ seen_of d \/ r = {| s_account := account; s_uidl := uidl; s_hash := digest; s_uid := Some uid;
                          s_fetched_at := now; s_deleted_on_server := false |}.
Proof.
  unfold seen_of, note, insert_or_replace. cbn [pop3_seen set_seen]. rewrite !elem_of_select, elem_of_app, elem_of_delete_where, list_elem_of_singleton.
  naive_solver.
Qed.

Lemma seen_of_mark uidl d r : r ∈ seen_of (mark_deleted account uidl d) -> exists r0, r0 ∈ seen_of d /\
  s_uidl r = s_uidl r0 /\ s_hash r = s_hash r0 /\ s_uid r = s_uid r0 /\ s_fetched_at r = s_fetched_at r0.
Proof.
  unfold seen_of, mark_deleted. cbn [pop3_seen set_seen]. rewrite elem_of_select, elem_of_update. intros [(r0 & Hr0 & ->) Ha].
  exists r0. rewrite elem_of_select. split; [|by case_match]. split; [done|]. by case_match.
Qed.

(** What is held stays held. *)
Lemma stored_already_more d d' raw digest :
  LocalArchive.archive_messages (store d) ⊆ LocalArchive.archive_messages (store d') ->
  LocalArchive.messages (store d) ⊆ LocalArchive.messages (store d') ->
  stored_already d account raw digest = true -> stored_already d' account raw digest = true.
Proof.
  intros Ha Hm. unfold stored_already. rewrite !andb_true_iff. intros [? Hx]. split; [done|].
  apply existsb_elem in Hx as (a & Hin & Hx). apply existsb_elem. exists a. split; [auto|].
  rewrite !andb_true_iff in *. destruct Hx as [[? Hr] ?]. split_and!; try done.
  apply existsb_elem in Hr as (m & Hm' & Hx). apply existsb_elem. exists m. auto.
Qed.

Lemma held_more d d' raw : (noted_hash d raw -> noted_hash d' raw) ->
  LocalArchive.archive_messages (store d) ⊆ LocalArchive.archive_messages (store d') ->
  LocalArchive.messages (store d) ⊆ LocalArchive.messages (store d') -> held d raw -> held d' raw.
Proof. intros Hn Ha Hm [Hh|Hh]; [left; auto|right; by eapply stored_already_more]. Qed.

Lemma once_more w w' : once w -> stored w' = stored w -> (forall raw, held (db w) raw -> held (db w') raw) -> once w'.
Proof. intros [Hn Hh] He Hm. split; [by rewrite He|]. rewrite He. eapply Forall_impl; [exact Hh|auto]. Qed.

Lemma stored_is_found d raw : findable raw -> LocalArchiveLaws.room 1 (store d) ->
  let s := (LocalArchive.store_message account INBOX raw false false (store d)).1 in
  held (set_store s d) raw /\ forall other, held d other -> held (set_store s d) other.
Proof.
  intros [Hne Hid] Hroom. cbn zeta. destruct (LocalArchiveLaws.store_adds account INBOX raw false false (store d) 0 Hroom) as (Ha & Hm & _).
  cbn zeta in Ha, Hm. set (s := (LocalArchive.store_message _ _ _ _ _ _).1) in *. split.
  - right. unfold stored_already. cbn [store set_store]. rewrite Ha, Hm. apply andb_true_iff. split.
    + destruct (LocalArchive.header_id raw); [done|]. done.
    + apply existsb_elem. eexists. split; [apply elem_of_app; right; by left|]. cbn [LocalArchive.a_account LocalArchive.a_raw
        LocalArchive.a_folder LocalArchive.a_uid]. rewrite !bool_decide_true, andb_true_r by done. cbn [andb].
      apply existsb_elem. eexists. split; [apply elem_of_app; right; by left|]. apply andb_true_iff.
      unfold LocalArchive.is_message, LocalArchive.in_folder. cbn. rewrite !bool_decide_true by done. rewrite Z.eqb_refl.
      split; [done|]. by rewrite bool_decide_true by by rewrite Hid.
  - intros other. apply held_more; [done| |]; cbn [store set_store]; rewrite ?Ha, ?Hm; intros x Hx; apply elem_of_app; by left.
Qed.

(** A world with other tables and longer logs. *)
Lemma sound_next w w' : sound w -> grows w w' -> session w' = session w -> marked w' = marked w -> gone w' = gone w ->
  (forall r, r ∈ seen_of (db w') -> good_row w' r) -> (calm -> once w -> once w') -> sound w'.
Proof.
  intros (_ & Hn & Hm & Hg & Ho) Hgr Hs Hmk Hgo Hrows Hon. split_and!.
  - by apply Forall_forall.
  - by rewrite Hs.
  - rewrite Hs, Hmk. intros n u Hin Hmark. eapply justified_grows; eauto.
  - rewrite Hgo. eapply Forall_impl; [exact Hg|]. intros u. by apply justified_grows.
  - auto.
Qed.

Lemma noted_hash_person d d' raw : person d d' -> noted_hash d raw -> noted_hash d' raw.
Proof. intros Hp (r & Hr & Hx). exists r. by rewrite (Hperson _ _ Hp). Qed.

Lemma sound_person w d : sound w -> person (db w) d -> sound (with_db d w).
Proof.
  intros Hs Hp. eapply sound_next; [done|apply grows_self|done..| |].
  - cbn. intros r. rewrite (Hperson _ _ Hp). destruct Hs as [Hr _]. rewrite Forall_forall in Hr. apply Hr.
  - intros [Hc _] Ho. eapply once_more; [done|done|]. cbn. intros raw [Hh|Hh]; [left; by eapply noted_hash_person|].
    destruct (proj2 (Hc _ _ Hp) raw Hh) as [Hn|Hn]; [left; by eapply noted_hash_person|by right].
Qed.

Lemma kept_row w w' r : sound w -> grows w w' -> r ∈ seen_of (db w) -> good_row w' r.
Proof. intros [Hr _] Hg Hin. rewrite Forall_forall in Hr. eapply good_row_grows; eauto. Qed.

Lemma sound_swept w : sound w -> sound (swept w).
Proof.
  intros (Hr & Hn & Hm & Hg & Ho). split_and!; try done. cbn. apply Forall_app. split; [done|].
  apply Forall_forall. intros u ((n & u') & -> & [Hin Hs]%list_elem_of_filter)%list_elem_of_fmap. by apply (Hm n).
Qed.

Lemma ensure_folder_held d a : held (set_store (LocalArchive.ensure_folder a INBOX (store d)) d) = held d.
Proof. unfold LocalArchive.ensure_folder. destruct d as [[ms raws fs] seen policy]. cbn. by case_bool_decide. Qed.

Lemma note_only_held uidl digest now d raw : held d raw -> held (note_only account uidl digest now d) raw.
Proof.
  unfold note_only. case_match; [done|]. apply held_more; try done. intros (r & Hr & Hx). exists r. split; [|done].
  unfold seen_of in *. cbn [pop3_seen set_seen]. rewrite elem_of_select in *. split; [|apply Hr]. apply elem_of_app. left. apply Hr.
Qed.

Lemma note_held uidl uid now w raw : sound w -> held (db w) raw ->
  held (note account uidl (sha256_hex (content uidl)) uid now (db w)) raw.
Proof.
  intros Hs. apply held_more; try done. intros (r & Hr & Hu & Hh). destruct (decide (s_uidl r = uidl)) as [He|He].
  - destruct (kept_row w w r Hs ltac:(by split_and!) Hr Hu) as (_ & _ & Hh'). eexists.
    split; [unfold seen_of, note, insert_or_replace; cbn [pop3_seen set_seen]; apply elem_of_select; split;
            [apply elem_of_app; right; by left|by apply bool_decide_eq_true]|].
    cbn. split; [done|]. by rewrite <- Hh, Hh', He.
  - exists r. split; [|done]. unfold seen_of, note, insert_or_replace in *. cbn [pop3_seen set_seen]. rewrite elem_of_select in *.
    split; [|apply Hr]. apply elem_of_app. left. apply elem_of_delete_where. split; [apply Hr|]. unfold is_seen.
    by rewrite (bool_decide_false (s_uidl r = uidl)), andb_false_r.
Qed.

Lemma mark_held uidl d raw : held d raw -> held (mark_deleted account uidl d) raw.
Proof.
  apply held_more; try done. intros (r & Hr & Hx). unfold seen_of in *. rewrite elem_of_select in Hr. destruct Hr as [Hr Ha].
  eexists. split; [unfold seen_of, mark_deleted; cbn [pop3_seen set_seen]; apply elem_of_select; split;
                   [apply elem_of_update; by exists r|]|]; case_match; done.
Qed.

Lemma store_once raw w : once w -> raw ∉ stored w -> findable raw -> LocalArchiveLaws.room 1 (store (db w)) ->
  once (with_stored raw (with_db (set_store (LocalArchive.store_message account INBOX raw false false (store (db w))).1 (db w)) w)).
Proof.
  intros [Hn Hh] Hnew Hf Hroom. destruct (stored_is_found (db w) raw Hf Hroom) as [Hheld Hmore]. split; cbn.
  - apply NoDup_app. split_and!; [done| |apply NoDup_singleton]. intros x Hx ->%list_elem_of_singleton. done.
  - apply Forall_app. split; [|by constructor]. eapply Forall_impl; [exact Hh|]. intros x. apply Hmore.
Qed.

Lemma acts_sound {X} (e : Ev X) w w' r : sound w -> (calm -> LocalArchiveLaws.room 1 (store (db w))) -> allowed w e ->
  acts e w w' r -> sound w' /\ grows w w' /\ session w' = session w.
Proof.
  intros Hs Hroom Ha He. destruct e; cbn in He, Ha.
  1-3: destruct He as [-> _] || subst w'; by split_and!.
  - destruct He as [->|[-> _]]; [|by split_and!]. split_and!; try done. destruct Hs as (Hr & Hn & Hm & Hg & Ho). split_and!; try done.
    cbn. intros n' u Hin [->|Hmk]%elem_of_cons; [by apply Ha|by apply (Hm n')].
  - destruct He as [->|[-> _]]; [|by split_and!]. split_and!; try done. by apply sound_swept.
  - destruct He as [[_ ->]|[-> _]]; [|by split_and!]. split; [|by split_and!]. eapply sound_next; [done|apply grows_self|done..| |].
    + cbn. intros r0 Hr. by apply (kept_row w).
    + intros _ Ho. eapply once_more; [done|done|]. cbn. by rewrite ensure_folder_held.
  - destruct He as [-> _]; by split_and!.
  - subst. destruct He as [[_ ->]|[-> _]]; [|by split_and!]. split; [|by split_and!].
    eapply sound_next; [done|apply grows_self|done..| |]; cbn.
    + intros r0 [Hr|Hr]%seen_of_note_only; [by apply (kept_row w)|]. intros [? Hu]. congruence.
    + intros _ Ho. eapply once_more; [done|done|]. cbn. intros raw. apply note_only_held.
  - destruct Ha as [-> Hnew]. destruct He as [[_ ->]|[-> _]]; [|by split_and!].
    assert (grows w (with_stored raw (with_db (set_store
      (LocalArchive.store_message account INBOX raw false false (store (db w))).1 (db w)) w))) as Hg.
    { split_and!; cbn; [|done..]. intros x Hx. apply elem_of_app. by left. }
    split; [|by split]. eapply sound_next; [done|done|done..| |].
    + cbn. intros r0 Hr. by apply (kept_row w).
    + intros Hc Ho. destruct (Hnew Hc). by apply store_once; [| | |apply Hroom].
  - destruct Ha as (-> & Hin & ->). destruct He as [[_ ->]|[-> _]]; [|by split_and!].
    assert (grows w (with_noted uidl0 now (with_db (note account uidl0 (sha256_hex (content uidl0)) uid now (db w)) w))) as Hg.
    { split_and!; cbn; [done| |done]. intros x Hx. apply elem_of_app. by left. }
    split; [|by split]. eapply sound_next; [done|done|done..| |]; cbn.
    + intros r0 [Hr| ->]%seen_of_note; [by apply (kept_row w)|].
      intros _. cbn. split_and!; [done| |done]. apply elem_of_app. right. by left.
    + intros _ Ho. eapply once_more; [done|done|]. cbn. intros raw. by apply note_held.
  - destruct He as [-> _]. assert (grows w (with_asked now w)) as Hg.
    { split_and!; cbn; [done|done|]. intros x Hx. apply elem_of_app. by left. }
    split; [|by split]. eapply sound_next; [done|done|done..| |done]. cbn. intros r0 Hr. by apply (kept_row w).
  - subst. destruct He as [[_ ->]|[-> _]]; [|by split_and!]. split; [|by split_and!].
    eapply sound_next; [done|apply grows_self|done..| |]; cbn.
    + intros r0 (r1 & Hr & Hu & Hh & Hi & Hf)%seen_of_mark. unfold good_row. rewrite Hu, Hh, Hi, Hf. by apply (kept_row w).
    + intros _ Ho. eapply once_more; [done|done|]. cbn. intros raw. apply mark_held.
Qed.

(** A call of a fetch, whatever happened to the tables before it. *)
Lemma ensures_call {X R} (e : Ev X) (k : X -> prog Ev R) Q w : sound w -> allowed w e ->
  (forall d w' r, person (db w) d -> acts e (with_db d w) w' r -> sound w' -> grows w w' -> session w' = session w ->
     ensures does sound (k r) Q w') ->
  ensures does sound (Vis e k) Q w.
Proof.
  intros Hs Ha Hk w' r (d & Hd & He).
  assert (allowed (with_db d w) e) as Ha' by by destruct e.
  assert (calm -> LocalArchiveLaws.room 1 (store d)) as Hroom by (intros [Hc _]; by destruct (Hc _ _ Hd)).
  destruct (acts_sound e _ _ _ (sound_person _ _ Hs Hd) Hroom Ha' He) as (Hs' & Hg & Hse).
  split; [done|]. eapply Hk; eauto.
Qed.

(** During one session, from the world [w0] on. *)
Definition during (w0 w : World) : Prop := sound w /\ grows w0 w /\ session w = session w0.

Lemma during_next w0 w w' : during w0 w -> sound w' -> grows w w' -> session w' = session w -> during w0 w'.
Proof.
  intros (_ & (H1 & H2 & H3) & Hse) Hs (H1' & H2' & H3') Hse'. split_and!; [done| |congruence].
  split_and!; by etrans.
Qed.

Lemma during_start w : sound w -> during w w.
Proof. intros Hs. by split_and!. Qed.

Lemma numbered (s : list (Z * text)) n (u u' : text) : NoDup s.*1 -> (n, u) ∈ s -> (n, u') ∈ s -> u = u'.
Proof.
  intros Hn Hu Hu'. apply list_elem_of_lookup in Hu as [i Hi], Hu' as [j Hj].
  assert (i = j) as -> by (eapply (NoDup_lookup s.*1); [done|by rewrite list_lookup_fmap, Hi|by rewrite list_lookup_fmap, Hj]).
  congruence.
Qed.

(** The hashes of what was noted, as the fetch keeps them. *)
Definition covers (hashes : gset text) (d : Db) : Prop := forall r, r ∈ seen_of d -> is_Some (s_uid r) -> s_hash r ∈ hashes.
Definition fetching (hashes : gset text) (w0 w : World) : Prop := during w0 w /\ covers hashes (db w).

Lemma covers_person hashes d d' : covers hashes d -> person d d' -> covers hashes d'.
Proof. intros Hc Hp r. rewrite (Hperson _ _ Hp). apply Hc. Qed.

Lemma not_stored hashes w raw : sound w -> covers hashes (db w) -> sha256_hex raw ∉ hashes ->
  stored_already (db w) account raw (sha256_hex raw) = false -> calm -> raw ∉ stored w.
Proof.
  intros (_ & _ & _ & _ & Ho) Hc Hd Hf Hcalm Hin. destruct (Ho Hcalm) as [_ Hh]. rewrite Forall_forall in Hh.
  destruct (Hh raw Hin) as [(r & Hr & Hu & He)|?]; [|congruence]. apply Hd. rewrite <- He. by apply Hc.
Qed.

(** Whether a message is here already, and then it is only noted. *)
Lemma looked_up hashes raw w0 w : fetching hashes w0 w ->
  ensures does sound (if bool_decide (sha256_hex raw ∈ hashes) then Ret (Ok true) else call (StoredAlready account raw (sha256_hex raw)))
    (fun r w' => fetching hashes w0 w' /\ (r = Ok false -> calm -> raw ∉ stored w')) w.
Proof.
  intros [Hw Hc]. case_bool_decide as Hd; [done|]. apply ensures_call; [apply Hw|done|].
  intros d w' r Hp Ha Hs Hg He. cbn. split; [split; [by eapply during_next|]|].
  - destruct Ha as [-> _]. by eapply covers_person.
  - intros ->. destruct Ha as [-> Ha]. eapply not_stored; [done|by eapply covers_person|done|]. symmetry. by apply Ha.
Qed.

Lemma only_noted uidl digest now hashes w0 w : fetching hashes w0 w -> forall (s : FetchSummary),
  ensures does sound (and_then (call (NoteOnly account uidl digest now)) (fun _ => Ret (Ok (hashes, s))))
    (fun r w' => during w0 w' /\ match r with Ok hs => covers hs.1 (db w') | Err _ => True end) w.
Proof.
  intros [Hw Hc] s. apply ensures_call; [apply Hw|done|]. intros d w' r Hp Ha Hs Hg He.
  assert (during w0 w') as Hw' by by eapply during_next.
  destruct Ha as [[-> ->]|[-> Hr]]; [|by destruct r]. split; [done|]. cbn. intros r0 [Hr|Hr]%seen_of_note_only [x Hu]; [|congruence].
  eapply covers_person; eauto.
Qed.

Lemma download_one_sound now (n : Z) (uidl : text) hashes s w0 w : (n, uidl) ∈ session w0 -> fetching hashes w0 w ->
  ensures does sound (download_one account now n uidl hashes s)
    (fun r w' => during w0 w' /\ match r with Ok hs => covers hs.1 (db w') | Err _ => True end) w.
Proof.
  intros Hin [Hw Hc]. unfold download_one, call. apply ensures_call; [apply Hw|done|]. intros d1 w1 r1 Hd1 Ha1 Hs1 Hg1 He1.
  pose proof (during_next _ _ _ Hw Hs1 Hg1 He1) as Hw1. destruct r1 as [raw|]; [|done].
  assert (fetching hashes w0 w1) as Hf1 by (split; [done|]; destruct Ha1 as [-> _]; by eapply covers_person).
  assert (raw = content uidl) as ->.
  { destruct Ha1 as [_ Ha1]. destruct (Ha1 raw eq_refl) as (u & Hu & ->). f_equal.
    eapply numbered; [|exact Hu|]; [apply Hw|]. cbn. by rewrite (proj2 (proj2 Hw)). }
  apply ensures_and_then. eapply ensures_mono; [|by apply (looked_up hashes (content uidl) w0 w1)].
  intros [here|] w2 [Hf2 Hnew]; [|split; [apply Hf2|done]]. destruct here; [by apply only_noted|].
  case_match; [by apply only_noted|]. destruct Hf2 as [Hw2 Hc2].
  apply ensures_call; [apply Hw2|split; [done|]; intros Hcalm; split; [by apply Hnew|by apply Hcalm]|].
  intros d3 w3 r3 Hd3 Ha3 Hs3 Hg3 He3. pose proof (during_next _ _ _ Hw2 Hs3 Hg3 He3) as Hw3.
  destruct r3 as [uid|]; [|done]. destruct Ha3 as [[_ Ha3]|[_ Ha3]]; [|done]. apply ensures_call; [done| |].
  - split_and!; [done| |done]. rewrite Ha3. cbn. apply elem_of_app. right. by left.
  - intros d4 w4 r4 Hd4 Ha4 Hs4 Hg4 He4. pose proof (during_next _ _ _ Hw3 Hs4 Hg4 He4) as Hw4. destruct r4; [|done].
    destruct Ha4 as [[_ ->]|[_ Ha4]]; [|done]. split; [done|]. cbn. intros r0 [Hr| ->]%seen_of_note Hu; [|cbn; set_solver].
    rewrite (Hperson _ _ Hd4), Ha3 in Hr. apply elem_of_union_r. eapply (covers_person hashes (db w2)); eauto.
Qed.

Lemma download_sound now known sizes listed hashes s w0 w : listed ⊆ session w0 -> fetching hashes w0 w ->
  ensures does sound (download account now known sizes listed hashes s) (fun _ => during w0) w.
Proof.
  revert hashes s w. induction listed as [|[n uidl] listed IH]; intros hashes s w Hl Hw; [apply Hw|]. cbn [download].
  assert (listed ⊆ session w0) as Hl' by (intros x Hx; apply Hl; by right).
  do 2 (case_match; [by apply IH|]). apply ensures_and_then. eapply ensures_mono; [|apply download_one_sound; [|exact Hw]; apply Hl; by left].
  intros [hs|] w1 [Hw1 Hc1]; [|done]. by apply IH.
Qed.

(** What is asked to be deleted is justified. *)
Lemma to_delete_justified w listed now (n : Z) (u : text) : sound w -> (n, u) ∈ to_delete (db w) account listed now ->
  (n, u) ∈ listed /\ justified (with_asked now w) u.
Proof.
  intros Hs Hin. unfold to_delete in Hin. case_bool_decide as Hk; [by apply elem_of_nil in Hin|].
  apply list_elem_of_filter in Hin as [Hd Hin]. split; [done|]. unfold doomed_now in Hd. cbn [snd] in Hd.
  destruct (query_row (is_seen account u) (pop3_seen (db w))) as [r|] eqn:E; [|done].
  apply query_row_Some in E as [Hr Hi]. unfold is_seen in Hi. bools in Hi. destruct Hi as [Hacc <-].
  apply andb_true_iff in Hd as [Hu Hd]. bools in Hu.
  assert (r ∈ seen_of (db w)) as Hr' by (apply elem_of_select; split; [done|by apply bool_decide_eq_true]).
  destruct (kept_row w w r Hs ltac:(by split_and!) Hr' Hu) as (Hst & Hno & Hh).
  split; [done|]. exists (db w), now. cbn. split; [apply elem_of_app; right; by left|]. unfold wanted.
  destruct (retention (db w) account); [done| |].
  - exists (s_fetched_at r). split; [done|]. by apply Z.leb_le.
  - rewrite negb_true_iff, bool_decide_eq_false in Hd. intros a Ha Hacc' Hraw. apply dec_stable. intros Hf. apply Hd.
    rewrite bool_decide_true by done. unfold present_hashes. apply list_elem_of_fmap. exists a. split; [by rewrite Hh, Hraw|].
    apply elem_of_select. split; [done|]. apply andb_true_iff. rewrite negb_true_iff, bool_decide_eq_true. by rewrite bool_decide_eq_false.
Qed.

Lemma each_sound {A} (l : list A) (f : A -> Ev (result text unit)) w0 w :
  (forall a w, a ∈ l -> during w0 w -> allowed w (f a)) -> during w0 w ->
  ensures does sound (each l (fun a => call (f a))) (fun _ => during w0) w.
Proof.
  revert w. induction l as [|a l IH]; intros w Hf Hw; [done|]. cbn [each]. unfold call.
  apply ensures_call; [apply Hw|apply Hf; [by left|done]|]. intros d1 w1 r1 _ _ Hs1 Hg1 He1.
  pose proof (during_next _ _ _ Hw Hs1 Hg1 He1) as Hw1. destruct r1; [|done].
  apply IH; [|done]. intros b w2 Hb. apply Hf. by right.
Qed.

Lemma fetch_sound now w : sound w -> ensures does sound (fetch account now) (fun _ => sound) w.
Proof.
  intros Hs. unfold fetch, call. pose proof (during_start w Hs) as Hw.
  apply ensures_call; [done|done|]. intros d1 w1 r1 _ Ha1 Hs1 Hg1 He1. pose proof (during_next _ _ _ Hw Hs1 Hg1 He1) as Hw1.
  destruct r1 as [listed|]; [|done]. assert (listed = session w) as -> by (destruct Ha1 as [_ Ha1]; by apply Ha1).
  apply ensures_call; [done|done|]. intros d2 w2 r2 _ _ Hs2 Hg2 He2. pose proof (during_next _ _ _ Hw1 Hs2 Hg2 He2) as Hw2.
  destruct r2 as [sizes|]; [|done].
  apply ensures_call; [done|done|]. intros d3 w3 r3 _ Ha3 Hs3 Hg3 He3. pose proof (during_next _ _ _ Hw2 Hs3 Hg3 He3) as Hw3.
  destruct r3 as [rows|]; [|done].
  assert (covers (list_to_set rows.*2) (db w3)) as Hc3.
  { destruct Ha3 as [[Hk ->]|[_ ?]]; [|done]. injection Hk as ->. intros r Hr _. apply elem_of_list_to_set, list_elem_of_fmap.
    exists (s_uidl r, s_hash r). split; [done|]. unfold known. apply list_elem_of_fmap. by exists r. }
  apply ensures_and_then. eapply ensures_mono; [|by apply (download_sound _ _ _ _ _ _ w)]. intros [s|] w4 Hw4; [|apply Hw4].
  apply ensures_call; [apply Hw4|done|]. intros d5 w5 r5 Hd5 Ha5 Hs5 Hg5 He5. pose proof (during_next _ _ _ Hw4 Hs5 Hg5 He5) as Hw5.
  destruct r5 as [doomed|]; [|done]. destruct Ha5 as [-> Ha5]. injection (Ha5 eq_refl) as ->.
  set (doomed := to_delete _ _ _ _) in *.
  assert (forall n u, (n, u) ∈ doomed -> (n, u) ∈ session w /\ justified (with_asked now (with_db d5 w4)) u) as Hdoom.
  { intros n u. apply (to_delete_justified (with_db d5 w4)). apply sound_person; [apply Hw4|done]. }
  set (w5 := with_asked now (with_db d5 w4)) in *.
  apply ensures_and_then. eapply ensures_mono; [|apply (each_sound _ _ w5); [|by apply during_start]].
  - intros [_|] w6 Hw6; [|apply Hw6]. apply ensures_call; [apply Hw6|done|]. intros d7 w7 r7 _ _ Hs7 Hg7 He7.
    destruct r7; [|done]. case_match; [done|]. apply ensures_and_then.
    eapply ensures_mono; [|apply (each_sound _ _ w7); [done|by apply during_start]]. intros r w8 Hs8. destruct r; apply Hs8.
  - intros [n u] w6 Hin Hw6. cbn. intros u' Hu'. destruct (Hdoom n u Hin) as [Hs' Hju].
    assert (u' = u) as ->; [|by eapply justified_grows; [apply Hw6|]].
    eapply numbered; [|exact Hu'|]; [apply Hw6|]. rewrite (proj2 (proj2 Hw6)). by rewrite (proj2 (proj2 Hw5)).
Qed.

Lemma lived_sound w : lived w -> sound w.
Proof.
  induction 1 as [d Hd|w d _ IH Hd|w s _ IH Hn|w w' now o _ IH Hr].
  - split_and!; cbn; [by rewrite Hd|constructor|by intros n u ?%elem_of_nil|done|]. intros _. split; constructor.
  - by apply sound_person.
  - destruct IH as (Hr & _ & _ & Hg & Ho). split_and!; try done. cbn. by intros n u _ ?%elem_of_nil.
  - eapply (ensures_always _ _ _ _ _ _ IH); [|exact Hr]. by apply fetch_sound.
Qed.

(** C11. What a POP3 account deletes from the server: over any life of the
    account, each message deleted there was stored here whole, and the policy
    asked for it when it was looked at: never when messages are kept; after
    the days chosen, counted from its download; or, when deleted here, with
    no copy of it left outside the Trash. *)
Theorem deleted_only_as_asked w u : lived w -> u ∈ gone w -> justified w u.
Proof. intros Hl Hu. destruct (lived_sound w Hl) as (_ & _ & _ & Hg & _). rewrite Forall_forall in Hg. auto. Qed.

(** C12. Over any life of the account in which every message has an id that both
    readers of ids read alike, the folders have room, and nothing takes away a
    message between its storing and its noting ([calm]), and whatever unique ids
    the server gives, no message is stored twice. *)
Theorem stored_once w : calm -> lived w -> NoDup (stored w).
Proof. intros Hc Hl. by destruct (lived_sound w Hl) as (_ & _ & _ & _ & [Hn _]). Qed.
End Fetching.

(** ** Two downloads *)

#[local] Existing Instance LocalArchiveLaws.plain_mime.
#[local] Instance plain_digest : Digest := fun raw => raw.

Definition acct : text := lit "pop".
Definition hello : list Z := LocalArchiveLaws.mail "<a@x>".

(** The server gives the message out again under a new id. *)
Definition kept_there (uidl : text) : list Z := hello.

(** Everything succeeds. *)
Definition handle X (e : Ev X) (w : World) : World * X :=
  match e in Ev X return World * X with
  | Uidls => (w, Ok (session w))
  | Sizes => (w, Ok ∅)
  | Retr n => (w, match query_row (fun nu => nu.1 =? n) (session w) with
                  | Some (_, u) => Ok (kept_there u)
                  | None => Err (lit "no such message") end)
  | Dele n => (with_mark n w, Ok tt)
  | Quit => (swept w, Ok tt)
  | Known a => (with_db (set_store (LocalArchive.ensure_folder a INBOX (store (db w))) (db w)) w, Ok (known (db w) a))
  | StoredAlready a raw digest => (w, Ok (stored_already (db w) a raw digest))
  | NoteOnly a uidl digest now => (with_db (note_only a uidl digest now (db w)) w, Ok tt)
  | Store a raw => let s := LocalArchive.store_message a INBOX raw false false (store (db w)) in
                   (with_stored raw (with_db (set_store s.1 (db w)) w), Ok s.2)
  | Note a uidl digest uid now => (with_noted uidl now (with_db (note a uidl digest uid now (db w)) w), Ok tt)
  | ToDelete a listed now => (with_asked now w, Ok (to_delete (db w) a listed now))
  | MarkDeleted a uidl => (with_db (mark_deleted a uidl (db w)) w, Ok tt)
  end.

(** Nothing else happens to the tables, which are small. *)
Definition alone (d d' : Db) : Prop := d' = d /\ LocalArchiveLaws.room 1 (store d).

Definition roomy (d : Db) : bool :=
  forallb (fun r => (0 <=? LocalArchive.m_uid r) && (LocalArchive.m_uid r <? 2 ^ 31)) (LocalArchive.messages (store d)) &&
  forallb (fun a => (0 <=? LocalArchive.a_uid a) && (LocalArchive.a_uid a <? 2 ^ 31)) (LocalArchive.archive_messages (store d)).

Lemma roomy_room d : roomy d = true -> LocalArchiveLaws.room 1 (store d).
Proof.
  unfold roomy. rewrite andb_true_iff, !forallb_forall. intros [Hm Ha]. split; [done|].
  split; apply Forall_forall; intros x Hx%list_elem_of_In; [specialize (Hm x Hx)|specialize (Ha x Hx)]; lia.
Qed.

Lemma all_succeeds X (e : Ev X) w : roomy (db w) = true -> does kept_there alone X e w (handle X e w).1 (handle X e w).2.
Proof.
  intros Hr. exists (db w). split; [split; [done|by apply roomy_room]|].
  replace (with_db (db w) w) with w by by destruct w.
  destruct e; cbn; try by (left; split). all: try by (split; [done|congruence]). all: try done. all: try by left.
  split; [done|]. intros raw. destruct (query_row _ _) as [[n' u]|] eqn:E; [|done]. intros [= <-].
  apply query_row_Some in E as [Hin He]. exists u. cbn in He. apply Z.eqb_eq in He as ->. done.
Qed.

(** The tables are small all along. *)
Fixpoint stays_roomy {R} (p : prog Ev R) (w : World) : bool :=
  match p with
  | Ret _ => true
  | Vis e k => roomy (db w) && let '(w', x) := handle _ e w in stays_roomy (k x) w'
  end.

Lemma exec_roomy {R} (p : prog Ev R) w : stays_roomy p w = true ->
  runs (does kept_there alone) p w (exec handle p w).1 (Some (exec handle p w).2).
Proof.
  revert w. induction p as [r|X e k IH]; intros w; cbn; [constructor|]. intros [Hr Hs]%andb_true_iff.
  pose proof (all_succeeds X e w Hr) as Hd. destruct (handle X e w) as [w' x]; cbn in *. econstructor; [exact Hd|]. by apply IH.
Qed.

Definition days_policy : Policy := {| p_account := acct; p_policy := lit "days"; p_days := 1 |}.
Definition begun : World :=
  {| db := {| store := LocalArchiveLaws.empty_db; pop3_seen := []; pop3_policy := [days_policy] |};
     session := []; marked := []; stored := []; noted := []; asked := []; gone := [] |}.
Definition first : World := with_session [(1, lit "u1")] begun.
Definition a_day : Z := 86400.

Definition after_one : World := (exec handle (fetch acct 0) first).1.
Definition second (w : World) : World := with_session [(1, lit "u1"); (2, lit "u2")] w.
Definition after_two : World := (exec handle (fetch acct a_day) (second after_one)).1.

Lemma two_lived : lived acct kept_there alone after_two.
Proof.
  apply (fetched _ _ _ (second after_one) _ a_day (Some (exec handle (fetch acct a_day) (second after_one)).2)).
  - apply signed_in; [|by apply (bool_decide_unpack _); vm_compute].
    apply (fetched _ _ _ first _ 0 (Some (exec handle (fetch acct 0) first).2)).
    + apply signed_in; [by apply born|by apply (bool_decide_unpack _); vm_compute].
    + apply exec_roomy. by vm_compute.
  - apply exec_roomy. by vm_compute.
Qed.

Lemma alone_seen d d' : alone d d' -> seen_of acct d' = seen_of acct d.
Proof. by intros [-> _]. Qed.

(** C11. The message is deleted from the server after its day. *)
Lemma deleted_only_as_asked_witness : lit "u1" ∈ gone after_two /\ justified acct kept_there after_two (lit "u1").
Proof.
  assert (lit "u1" ∈ gone after_two) as Hin by (vm_compute; left).
  split; [exact Hin|]. exact (deleted_only_as_asked acct kept_there alone alone_seen after_two _ two_lived Hin).
Defined.

(** C12. Given out twice, stored once. *)
Lemma stored_once_witness : stored after_two = [hello] /\ NoDup (stored after_two).
Proof.
  split; [vm_compute; reflexivity|]. apply (stored_once acct kept_there alone alone_seen); [|exact two_lived].
  split.
  - intros d d' [-> Hr]. split; [exact Hr|]. intros raw Hs. right. exact Hs.
  - intros u. split; [vm_compute; discriminate|vm_compute; reflexivity].
Defined.

(** "Deleted from the server this many days after they were downloaded";
    but a message whose download was stopped before it was noted is found
    here by the next one and noted without a uid, as what was refused is, and
    so is never deleted, however long ago that was. *)
Example a_stop_keeps_it_on_the_server :
  let stopped := exec_until handle 6 (fetch acct 0) first in
  let later w now := (exec handle (fetch acct now) (with_session [(1, lit "u1")] w)).1 in
  stored stopped = [hello] /\ gone (later (later stopped 60) (1000 * a_day)) = [] /\
  gone (later (later after_one 60) (1000 * a_day)) = [lit "u1"].
Proof. vm_compute. done. Qed.
End Pop3Fetch.
