(* ===== verification/Reports.v ===== *)
(** * Delivery and read reports that come back

    Models [meron-core/src/receipts/report.rs]: reading a report from the
    message that carries it, and what is kept of it for the message it is
    about: at once, or among the reports waiting until the account has that
    message.

    [mailparse] gives the parts of the message: their types, the
    [report-type] parameter and the bytes of each; [from_utf8_lossy] and the
    headers of a block are the class [Mime]. *)
From S2P Require Import Prelude.
From S2P Require Import Text.
From S2P Require Import Table.
From S2P Require Import LocalArchive.
From S2P Require Import ReadReceipts.
#[local] Open Scope Z_scope.

(** A part of a message, and the message: [get_body_raw] may fail. *)
Record Part := { part_type : text; get_body_raw : option (list Z) }.
Record Mail := { mail_type : text; report_type : option text; subparts : list Part }.

Module Reports.

Definition MAX_RECIPIENTS : nat := 100.
Definition MAX_TEXT : nat := 500.
Definition MAX_FIELDS : nat := Z.to_nat (64 * 1024).

Inductive Kind := Delivery | Disposition.
Inductive Outcome := Delivered | Relayed | Delayed | Failed | Displayed | NotDisplayed.

#[export] Instance Kind_eq_dec : EqDecision Kind.
Proof. solve_decision. Defined.
#[export] Instance Outcome_eq_dec : EqDecision Outcome.
Proof. solve_decision. Defined.

Definition kind_str (k : Kind) : text := match k with Delivery => lit "delivery" | Disposition => lit "disposition" end.

Definition outcome_str (o : Outcome) : text :=
  match o with
  | Delivered => lit "delivered" | Relayed => lit "relayed" | Delayed => lit "delayed"
  | Failed => lit "failed" | Displayed => lit "displayed" | NotDisplayed => lit "notDisplayed"
  end.

Definition outcome_parse (value : text) : option Outcome :=
  if bool_decide (value = lit "delivered") then Some Delivered
  else if bool_decide (value = lit "relayed") then Some Relayed
  else if bool_decide (value = lit "delayed") then Some Delayed
  else if bool_decide (value = lit "failed") then Some Failed
  else if bool_decide (value = lit "displayed") then Some Displayed
  else if bool_decide (value = lit "notDisplayed") then Some NotDisplayed
  else None.

Record RecipientReport := { recipient : text; outcome : Outcome; status : text; diagnostic : text }.
Record Report := { kind : Kind; original_message_id : text; recipients : list RecipientReport }.

(** ** The fields of a report *)

Definition Fields : Type := list (text * text).

(** A line that continues the field before it. *)
Definition continued (line : text) : bool :=
  match line with c :: _ => (c =? 32) || (c =? 9) | [] => false end.

Definition extend_last (value : text) (current : Fields) : Fields :=
  match last current with
  | Some (name, v) => removelast current ++ [(name, v ++ 32 :: value)]
  | None => current
  end.

Definition group_line (st : list Fields * Fields) (line : text) : list Fields * Fields :=
  let '(groups, current) := st in
  let line := trim_end_matches (Z.eqb 13) line in
  if is_empty (trim line) then (if is_nil current then groups else groups ++ [current], [])
  else if continued line then (groups, extend_last (trim line) current)
  else match split_once 58 line with
       | Some (name, value) => (groups, current ++ [(trim name, trim value)])
       | None => (groups, current)
       end.

Definition field_groups (s : text) : list Fields :=
  let '(groups, current) := foldl group_line ([], []) (lines s) in
  if is_nil current then groups else groups ++ [current].

Definition field (fields : Fields) (name : text) : option text :=
  snd <$> List.find (fun f => eq_ignore_ascii_case f.1 name) fields.

(** [char::is_control] and [is_format] *)
Definition is_control (c : Z) : bool := (c <? 32) || ((127 <=? c) && (c <=? 159)).
Definition is_format (c : Z) : bool :=
  (c =? 173) || (c =? 1564) || (c =? 6158) || ((8203 <=? c) && (c <=? 8207)) || ((8234 <=? c) && (c <=? 8238)) ||
  ((8288 <=? c) && (c <=? 8292)) || ((8294 <=? c) && (c <=? 8303)) || (c =? 65279) || ((65529 <=? c) && (c <=? 65531)).

Definition clean (value : text) (limit : nat) : text :=
  trim (take limit (base.filter (fun c => is_control c = false /\ is_format c = false) value)).

Definition unbracketed (s : text) : text := trim (trim_end_matches (Z.eqb 62) (trim_start_matches (Z.eqb 60) (trim s))).

Definition bare_id (value : text) : text := clean (unbracketed value) 998.

Definition status_code (value : text) : text :=
  let code := unwrap_or [] (head (split_whitespace value)) in
  let digits part := (0 <? length part)%nat && (length part <=? 3)%nat && forallb is_ascii_digit part in
  match split_char 46 code with
  | [a; b; c] => if bool_decide (a ∈ [lit "2"; lit "4"; lit "5"]) && digits b && digits c then code else []
  | _ => []
  end.

Definition diagnostic_text (value : text) : text :=
  let text := match split_once 59 value with
              | Some (kind, rest) => if negb (is_empty (trim kind)) && negb (contains_char 32 kind) then rest else value
              | None => value
              end in
  clean (join [32] (split_whitespace text)) MAX_TEXT.

Definition disposition_outcome (value : text) : option Outcome :=
  '(_, kind) ← split_once 59 value;
  kind ← to_ascii_lowercase <$> head (split_on (fun c => (c =? 47) || (c =? 32) || (c =? 9)) (trim kind));
  if bool_decide (kind = lit "displayed") then Some Displayed
  else if bool_decide (kind ∈ [lit "deleted"; lit "dispatched"; lit "processed"]) then Some NotDisplayed
  else None.

Section Reading.
Context {U : Unicode} {M : Mime}.

Definition address_of (value : text) : text :=
  let '(kind, address) := unwrap_or (lit "rfc822", value) (split_once 59 value) in
  let address := clean (unbracketed address) 320 in
  let kind := to_ascii_lowercase (trim kind) in
  if bool_decide (kind = lit "rfc822") || bool_decide (kind = lit "utf-8") then to_lowercase address else address.

Definition recipient_of (fields : Fields) : option text :=
  List.find (fun a => negb (is_empty a))
    (address_of <$> omap (field fields) [lit "Original-Recipient"; lit "Final-Recipient"]).

Definition delivery_recipient (fields : Fields) : option RecipientReport :=
  action ← field fields (lit "Action") ≫= fun a => to_ascii_lowercase <$> head (split_whitespace a);
  outcome ← (if bool_decide (action = lit "delivered") then Some Delivered
             else if bool_decide (action ∈ [lit "relayed"; lit "expanded"]) then Some Relayed
             else if bool_decide (action = lit "delayed") then Some Delayed
             else if bool_decide (action = lit "failed") then Some Failed
             else None);
  r ← recipient_of fields;
  Some {| recipient := r; outcome := outcome;
          status := unwrap_or [] (status_code <$> field fields (lit "Status"));
          diagnostic := unwrap_or [] (diagnostic_text <$> field fields (lit "Diagnostic-Code")) |}.

Definition RETURNED : list text :=
  [lit "message/rfc822"; lit "text/rfc822-headers"; lit "message/rfc822-headers"; lit "message/global"; lit "message/global-headers"].

Definition is_type (types : list text) (part : Part) : bool := existsb (eq_ignore_ascii_case (part_type part)) types.

Definition returned_message_id (mail : Mail) : text :=
  unwrap_or [] (find_map (fun part =>
    bytes ← get_body_raw part;
    id ← bare_id <$> LocalArchive.get_first_value bytes (lit "Message-ID");
    if is_empty id then None else Some id) (base.filter (fun p => is_type RETURNED p = true) (subparts mail))).

Definition kind_of (mail : Mail) : option (Kind * list text) :=
  t ← (fun v => to_ascii_lowercase (trim v)) <$> report_type mail;
  if bool_decide (t = lit "delivery-status")
  then Some (Delivery, [lit "message/delivery-status"; lit "message/global-delivery-status"])
  else if bool_decide (t = lit "disposition-notification")
  then Some (Disposition, [lit "message/disposition-notification"; lit "message/global-disposition-notification"])
  else None.

Definition report_of (mail : Mail) : option Report :=
  if negb (eq_ignore_ascii_case (mail_type mail) (lit "multipart/report")) then None else
  '(kind, parts) ← kind_of mail;
  part ← List.find (is_type parts) (subparts mail);
  bytes ← get_body_raw part;
  let groups := field_groups (from_utf8_lossy (take MAX_FIELDS bytes)) in
  match kind with
  | Delivery =>
      match take MAX_RECIPIENTS (omap delivery_recipient groups) with
      | [] => None
      | recipients => Some {| kind := kind; original_message_id := returned_message_id mail; recipients := recipients |}
      end
  | Disposition =>
      let fields := concat groups in
      outcome ← field fields (lit "Disposition") ≫= disposition_outcome;
      r ← recipient_of fields;
      let named := bare_id <$> field fields (lit "Original-Message-ID") in
      let original := match named with
                      | Some id => if is_empty id then returned_message_id mail else id
                      | None => returned_message_id mail
                      end in
      Some {| kind := kind; original_message_id := original;
              recipients := [{| recipient := r; outcome := outcome; status := []; diagnostic := [] |}] |}
  end.
End Reading.

(** ** What is kept *)

Record Row := {
  r_account : text; r_original : text; r_kind : text; r_recipient : text;
  r_outcome : text; r_status : text; r_diagnostic : text; r_reported_at : Z
}.
Record Waiting := { w_row : Row; received_at : Z }.

#[export] Instance Row_eq_dec : EqDecision Row.
Proof. solve_decision. Defined.
#[export] Instance Waiting_eq_dec : EqDecision Waiting.
Proof. solve_decision. Defined.

(** The columns of [messages] and [outgoing_attempts] that are looked at. *)
Record Db := {
  delivery_reports : list Row; delivery_reports_pending : list Waiting;
  messages : list (text * option text); outgoing_attempts : list (text * text)
}.

Definition PENDING_MAX_AGE : Z := 90 * 24 * 3600.
Definition PENDING_MAX_ROWS : nat := Z.to_nat 1000.

(** SQL's [trim(trim(message_id), '<>')]. *)
Definition sql_bare (id : text) : text := trim_matches (fun c => (c =? 60) || (c =? 62)) (trim_matches (Z.eqb 32) id).

Definition known_message (db : Db) (account original : text) : bool :=
  existsb (fun m => bool_decide (m.1 = account) && bool_decide (to_ascii_lowercase (unwrap_or [] m.2) = original)) (messages db) ||
  existsb (fun m => bool_decide (m.1 = account) && bool_decide (to_ascii_lowercase (sql_bare m.2) = original)) (outgoing_attempts db).

Definition same_key (a b : Row) : bool :=
  bool_decide (r_account b = r_account a) && bool_decide (r_original b = r_original a) &&
  bool_decide (r_kind b = r_kind a) && bool_decide (r_recipient b = r_recipient a).

Definition delayed (r : Row) : bool := bool_decide (r_outcome r = lit "delayed").

(** [ON CONFLICT ... DO UPDATE ... WHERE] *)
Definition wins (old new : Row) : bool :=
  (delayed old && negb (delayed new)) || (Bool.eqb (delayed old) (delayed new) && (r_reported_at old <=? r_reported_at new)).

Definition upsert_report (new : Row) (t : list Row) : list Row :=
  upsert (same_key new) new (fun old => if wins old new then new else old) t.

Definition upsert_pending (new : Row) (now : Z) (t : list Waiting) : list Waiting :=
  upsert (fun w => same_key new (w_row w)) {| w_row := new; received_at := now |}
    (fun old => if wins (w_row old) new then {| w_row := new; received_at := received_at old |} else old) t.

Definition row_of (account original : text) (kind : Kind) (reported_at : Z) (item : RecipientReport) : Row :=
  {| r_account := account; r_original := original; r_kind := kind_str kind; r_recipient := recipient item;
     r_outcome := outcome_str (outcome item); r_status := status item; r_diagnostic := diagnostic item;
     r_reported_at := reported_at |}.

Definition of_account (account : text) (w : Waiting) : bool := bool_decide (r_account (w_row w) = account).

(** Too old, then too many: the rows of the account, the newest first, those
    stored later before the others. *)
Definition forget_old (account : text) (now : Z) (t : list Waiting) : list Waiting :=
  delete_where (fun w => of_account account w && (received_at w <? now - PENDING_MAX_AGE)) t.

Definition newest_first (account : text) (t : list Waiting) : list Waiting :=
  order_by (fun a b => received_at b <=? received_at a) (rev (select (of_account account) t)).

Definition keep_newest (account : text) (t : list Waiting) : list Waiting :=
  delete_where (fun w => bool_decide (w ∈ drop PENDING_MAX_ROWS (newest_first account t))) t.

Section Keeping.
Context {U : Unicode}.

Definition record (db : Db) (account : text) (report : Report) (reported_at now : Z) : Db * bool :=
  let original := ReadReceipts.key (original_message_id report) in
  if is_empty original then (db, false) else
  let known := known_message db account original in
  let rows := row_of account original (kind report) reported_at <$> recipients report in
  if known then
    ({| delivery_reports := foldl (fun t r => upsert_report r t) (delivery_reports db) rows;
        delivery_reports_pending := delivery_reports_pending db;
        messages := messages db; outgoing_attempts := outgoing_attempts db |}, true)
  else
    ({| delivery_reports := delivery_reports db;
        delivery_reports_pending := keep_newest account (forget_old account now
          (foldl (fun t r => upsert_pending r now t) (delivery_reports_pending db) rows));
        messages := messages db; outgoing_attempts := outgoing_attempts db |}, false).

Definition about (account original : text) (r : Row) : bool :=
  bool_decide (r_account r = account) && bool_decide (r_original r = original).

Definition link_pending (db : Db) (account original : text) : Db :=
  let waiting := select (fun w => about account original (w_row w)) (delivery_reports_pending db) in
  if is_nil waiting || negb (known_message db account original) then db else
  {| delivery_reports := foldl (fun t w => upsert_report (w_row w) t) (delivery_reports db) waiting;
     delivery_reports_pending := delete_where (fun w => about account original (w_row w)) (delivery_reports_pending db);
     messages := messages db; outgoing_attempts := outgoing_attempts db |}.

Definition reported_at (date now : Z) : Z := if date <=? 0 then now else Z.min date now.

Record Stored := {
  s_kind : Kind; s_recipient : text; s_outcome : Outcome; s_status : text; s_diagnostic : text; s_reported_at : Z
}.

Definition kind_parse (value : text) : option Kind :=
  if bool_decide (value = lit "delivery") then Some Delivery
  else if bool_decide (value = lit "disposition") then Some Disposition else None.

(** A value not known is left out. *)
Definition read_stored (r : Row) : option Stored :=
  k ← kind_parse (r_kind r); o ← outcome_parse (r_outcome r);
  Some {| s_kind := k; s_recipient := r_recipient r; s_outcome := o; s_status := r_status r;
          s_diagnostic := r_diagnostic r; s_reported_at := r_reported_at r |}.

(** [ORDER BY kind, recipient] *)
Definition by_kind (a b : Row) : bool :=
  if bool_decide (r_kind a = r_kind b) then text_le (r_recipient a) (r_recipient b) else text_le (r_kind a) (r_kind b).

Definition outcomes (db : Db) (account message_id : text) : Db * list Stored :=
  let original := ReadReceipts.key message_id in
  if is_empty original then (db, []) else
  let db := link_pending db account original in
  (db, omap read_stored (order_by by_kind (select (about account original) (delivery_reports db)))).
End Keeping.
End Reports.
