(* ===== verification/ReportLaws.v ===== *)
(** * What is true of the reports kept

    Over any life of the tables (reports about any message of any account,
    messages that come and go, looks at what is known of one), the order in
    which reports came, and whether before or after the message they are
    about, makes no difference to what is said of it ([reports_in_any_order]),
    and no account has more than a thousand waiting ([waiting_is_bounded]). *)
From S2P Require Import Prelude.
From S2P Require Import Text.
From S2P Require Import Table.
From S2P Require Import LocalArchive.
From S2P Require Import ReadReceipts.
From S2P Require Import Reports.

#[local] Open Scope Z_scope.

Module ReportLaws.
Import Reports.

(** ** One recipient's words *)

Lemma wins_spec a b : wins a b = true <->
  (delayed a = true /\ delayed b = false) \/ (delayed a = delayed b /\ r_reported_at a <= r_reported_at b).
Proof.
  unfold wins. rewrite orb_true_iff, !andb_true_iff, negb_true_iff, Bool.eqb_true_iff, Z.leb_le. done.
Qed.

Lemma wins_refl a : wins a a = true.
Proof. apply wins_spec. right. split; [done|lia]. Qed.

Lemma wins_trans a b c : wins a b = true -> wins b c = true -> wins a c = true.
Proof. rewrite !wins_spec. destruct (delayed a), (delayed b), (delayed c); intuition (congruence || lia). Qed.

Lemma wins_total a b : wins a b = false -> wins b a = true.
Proof.
  intros H. apply wins_spec. apply not_true_iff_false in H. rewrite wins_spec in H.
  destruct (delayed a), (delayed b); intuition (try congruence); right; (split; [done|]); destruct (Z.le_gt_cases (r_reported_at a) (r_reported_at b)); (lia || intuition).
Qed.

Definition key_of_row (r : Row) : text * text * text * text := (r_account r, r_original r, r_kind r, r_recipient r).

Lemma same_key_spec a b : same_key a b = true <-> key_of_row b = key_of_row a.
Proof. unfold same_key, key_of_row. rewrite !andb_true_iff, !bool_decide_eq_true. split; [intros [[[-> ->] ->] ->]|intros [= -> -> -> ->]]; done. Qed.

(** ** Tables that take words in *)

(** [t'] says what [t] and the words [ws] say. *)
Definition absorbs (t ws t' : list Row) : Prop :=
  (forall r, r ∈ t' -> r ∈ t \/ r ∈ ws) /\
  (forall w, w ∈ t \/ w ∈ ws -> exists r, r ∈ t' /\ same_key w r = true /\ wins w r = true).

Lemma absorbs_nil t : absorbs t [] t.
Proof. split; [by left|]. intros w [Hw|[]%elem_of_nil]. exists w. rewrite same_key_spec, wins_refl. done. Qed.

Lemma absorbs_upsert r t : absorbs t [r] (upsert_report r t).
Proof.
  unfold upsert_report, upsert. split.
  - intros x. case_match.
    + intros (x0 & Hx0 & ->)%elem_of_update. repeat case_match; auto. right. by left.
    + intros [?|?]%elem_of_app; auto.
  - intros w Hw. destruct (existsb (same_key r) t) eqn:E.
    + apply existsb_elem in E as (o & Ho & Hs). destruct Hw as [Hw| ->%list_elem_of_singleton].
      * exists (if same_key r w then if wins w r then r else w else w). split; [apply elem_of_update; by exists w|].
        destruct (same_key r w) eqn:Ew; [|by rewrite same_key_spec, wins_refl]. destruct (wins w r) eqn:Ewin; [|by rewrite same_key_spec, wins_refl].
        split; [|done]. rewrite same_key_spec in *. done.
      * exists (if wins o r then r else o). split; [apply elem_of_update; exists o; by rewrite Hs|].
        destruct (wins o r) eqn:Ewin; [by rewrite same_key_spec, wins_refl|]. split; [done|]. by apply wins_total.
    + exists w. split; [apply elem_of_app; naive_solver|]. by rewrite same_key_spec, wins_refl.
Qed.

Lemma absorbs_app t ws t' ws' t'' : absorbs t ws t' -> absorbs t' ws' t'' -> absorbs t (ws ++ ws') t''.
Proof.
  intros [Hin Hcov] [Hin' Hcov']. split.
  - intros r [Hr|Hr]%Hin'; [apply Hin in Hr as [?|?]; [by left|]|]; right; apply elem_of_app; auto.
  - intros w Hw. assert ((w ∈ t \/ w ∈ ws) \/ w ∈ ws') as [Hw'|Hw'] by (rewrite elem_of_app in Hw; tauto).
    + apply Hcov in Hw' as (r & Hr & Hk & Hwin). destruct (Hcov' r) as (r' & Hr' & Hk' & Hwin'); [by left|].
      exists r'. rewrite same_key_spec in *. split_and!; [done|congruence|by eapply wins_trans].
    + apply Hcov'. by right.
Qed.

Lemma absorbs_all ws t : absorbs t ws (foldl (fun t r => upsert_report r t) t ws).
Proof.
  revert t. induction ws as [|w ws IH]; intros t; [apply absorbs_nil|]. cbn [foldl].
  change (w :: ws) with ([w] ++ ws). eapply absorbs_app; [apply absorbs_upsert|apply IH].
Qed.

Lemma upsert_keys r t : NoDup (key_of_row <$> t) -> NoDup (key_of_row <$> upsert_report r t).
Proof.
  intros Hn. unfold upsert_report, upsert. destruct (existsb (same_key r) t) eqn:E.
  - replace (key_of_row <$> update _ _ t) with (key_of_row <$> t); [done|]. unfold update. rewrite <- list_fmap_compose.
    apply list_fmap_ext. intros _ x _. cbn. destruct (same_key r x) eqn:Es; [|done]. case_match; [|done]. by apply same_key_spec in Es.
  - rewrite fmap_app. apply NoDup_app. split_and!; [done| |apply NoDup_singleton].
    intros k (x & -> & Hx)%list_elem_of_fmap Hk%list_elem_of_singleton. apply same_key_spec in Hk.
    by rewrite (existsb_none _ _ E x Hx) in Hk.
Qed.

Lemma upserts_keys ws t : NoDup (key_of_row <$> t) -> NoDup (key_of_row <$> foldl (fun t r => upsert_report r t) t ws).
Proof. revert t. induction ws as [|w ws IH]; intros t Hn; [done|]. by apply IH, upsert_keys. Qed.

(** The waiting rows are such a table. *)
Lemma pending_rows r now t : w_row <$> upsert_pending r now t = upsert_report r (w_row <$> t).
Proof.
  unfold upsert_pending, upsert_report, upsert.
  assert (existsb (fun w => same_key r (w_row w)) t = existsb (same_key r) (w_row <$> t)) as ->
    by (induction t as [|w t IH]; [done|]; cbn; by rewrite IH).
  case_match; [|by rewrite fmap_app]. unfold update. rewrite <- !list_fmap_compose. apply list_fmap_ext. intros _ w _. cbn.
  by repeat case_match.
Qed.

Lemma pending_all_rows ws now t :
  w_row <$> foldl (fun t r => upsert_pending r now t) t ws = foldl (fun t r => upsert_report r t) (w_row <$> t) ws.
Proof. revert t. induction ws as [|w ws IH]; intros t; [done|]. cbn [foldl]. by rewrite IH, pending_rows. Qed.

Lemma pending_times r now t w : w ∈ upsert_pending r now t -> received_at w = now \/ exists w0, w0 ∈ t /\ received_at w = received_at w0.
Proof.
  unfold upsert_pending, upsert. case_match.
  - intros (w0 & Hw0 & ->)%elem_of_update. right. exists w0. split; [done|]. by repeat case_match.
  - intros [?| ->%list_elem_of_singleton]%elem_of_app; [right; by exists w|by left].
Qed.

Lemma pending_all_times ws now t w : w ∈ foldl (fun t r => upsert_pending r now t) t ws ->
  received_at w = now \/ exists w0, w0 ∈ t /\ received_at w = received_at w0.
Proof.
  revert t. induction ws as [|r ws IH]; intros t; [right; by exists w|]. cbn [foldl].
  intros [?|(w0 & Hw0 & He)]%IH; [by left|]. apply pending_times in Hw0 as [?|(w1 & ? & ?)]; [left; congruence|].
  right. exists w1. split; [done|congruence].
Qed.

Lemma pending_length r now t : (length (upsert_pending r now t) <= S (length t))%nat.
Proof. unfold upsert_pending, upsert. case_match; [unfold update; rewrite length_fmap; lia|]. rewrite length_app. cbn. lia. Qed.

Lemma pending_all_length ws now t : (length (foldl (fun t r => upsert_pending r now t) t ws) <= length t + length ws)%nat.
Proof.
  revert t. induction ws as [|r ws IH]; intros t; cbn [foldl length]; [lia|]. etrans; [apply IH|].
  pose proof (pending_length r now t). lia.
Qed.

(** ** A life of the tables *)

Section Life.
Context {U : Unicode}.

(** What the reports so far said, with the time of each; what is known of
    messages may change in any way. *)
Inductive lived : Db -> list (Z * Row) -> Prop :=
| begun ms out : lived {| delivery_reports := []; delivery_reports_pending := []; messages := ms; outgoing_attempts := out |} []
| arrived db told account report date now : lived db told -> recipients report <> [] ->
    lived (record db account report (reported_at date now) now).1
      (told ++ if is_empty (ReadReceipts.key (original_message_id report)) then [] else
         (fun item => (now, row_of account (ReadReceipts.key (original_message_id report)) (kind report) (reported_at date now) item))
           <$> recipients report)
| mail_changed db told ms out : lived db told ->
    lived {| delivery_reports := delivery_reports db; delivery_reports_pending := delivery_reports_pending db;
             messages := ms; outgoing_attempts := out |} told
| shown db told account mid : lived db told -> lived (outcomes db account mid).1 told.

(** *** How many wait *)

Definition waiting_keys (db : Db) : Prop := NoDup (key_of_row <$> (w_row <$> delivery_reports_pending db)).
Definition few (db : Db) : Prop :=
  forall account, (length (select (of_account account) (delivery_reports_pending db)) <= PENDING_MAX_ROWS)%nat.

Lemma keys_delete p (t : list Waiting) : NoDup (key_of_row <$> (w_row <$> t)) -> NoDup (key_of_row <$> (w_row <$> delete_where p t)).
Proof. rewrite <- !list_fmap_compose. apply delete_where_key. Qed.

Lemma shorter {A} (l l' : list A) : NoDup l -> l ⊆ l' -> (length l <= length l')%nat.
Proof. intros Hn Hs. by apply submseteq_length, NoDup_submseteq. Qed.

Lemma waiting_nodup p (t : list Waiting) : NoDup (key_of_row <$> (w_row <$> t)) -> NoDup (select p t).
Proof.
  rewrite <- list_fmap_compose. intros Hn%NoDup_fmap_1. eapply sublist_NoDup; [exact Hn|]. apply sublist_filter.
Qed.

Lemma pending_other rows now t account w :
  w ∈ foldl (fun t r => upsert_pending r now t) t rows -> (forall r, r ∈ rows -> r_account r <> account) ->
  of_account account w = true -> w ∈ t.
Proof.
  revert t. induction rows as [|r rows IH]; intros t Hw Hr Ha; [done|]. cbn [foldl] in Hw.
  apply IH in Hw; [|by intros x Hx; apply Hr; right|done].
  unfold of_account in Ha. apply bool_decide_eq_true in Ha. assert (r_account r <> account) as Hne by (apply Hr; by left).
  unfold upsert_pending, upsert in Hw. case_match.
  - apply elem_of_update in Hw as (w0 & Hw0 & ->). by repeat case_match.
  - apply elem_of_app in Hw as [?|Hw]; [done|]. apply list_elem_of_singleton in Hw as ->. cbn in Ha. congruence.
Qed.

Lemma kept_few account t : NoDup (key_of_row <$> (w_row <$> t)) ->
  (length (select (of_account account) (keep_newest account t)) <= PENDING_MAX_ROWS)%nat.
Proof.
  intros Hn. etrans; [apply (shorter _ (take PENDING_MAX_ROWS (newest_first account t)))|rewrite length_take; lia].
  - apply waiting_nodup, keys_delete, Hn.
  - intros w [[Hw Hd]%elem_of_delete_where Ha]%elem_of_select. apply bool_decide_eq_false in Hd.
    assert (w ∈ newest_first account t) as Hin.
    { unfold newest_first. rewrite order_by_perm, <- Permutation_rev. by apply elem_of_select. }
    rewrite <- (take_drop PENDING_MAX_ROWS) in Hin. by apply elem_of_app in Hin as [?|?].
Qed.

Lemma link_pending_rows db account original :
  delivery_reports_pending (link_pending db account original) = delivery_reports_pending db \/
  delivery_reports_pending (link_pending db account original) =
    delete_where (fun w => about account original (w_row w)) (delivery_reports_pending db).
Proof. unfold link_pending. case_match; auto. Qed.

Lemma outcomes_db db account mid : (outcomes db account mid).1 = db \/
  (outcomes db account mid).1 = link_pending db account (ReadReceipts.key mid).
Proof. unfold outcomes. case_match; auto. Qed.

Lemma record_rows db account report date now : ReadReceipts.key (original_message_id report) <> [] ->
  let rows := row_of account (ReadReceipts.key (original_message_id report)) (kind report) date <$> recipients report in
  (record db account report date now).1 =
    {| delivery_reports := foldl (fun t r => upsert_report r t) (delivery_reports db) rows;
       delivery_reports_pending := delivery_reports_pending db; messages := messages db; outgoing_attempts := outgoing_attempts db |} \/
  (record db account report date now).1 =
    {| delivery_reports := delivery_reports db;
       delivery_reports_pending := keep_newest account (forget_old account now
         (foldl (fun t r => upsert_pending r now t) (delivery_reports_pending db) rows));
       messages := messages db; outgoing_attempts := outgoing_attempts db |}.
Proof. intros Hk. cbn zeta. unfold record. destruct (ReadReceipts.key _) eqn:E; [done|]. cbn [is_empty]. rewrite <- E. case_match; auto. Qed.

Lemma record_unnamed db account report date now : ReadReceipts.key (original_message_id report) = [] ->
  (record db account report date now).1 = db.
Proof. intros Hk. unfold record. by rewrite Hk. Qed.

Lemma lived_few db told : lived db told -> waiting_keys db /\ few db.
Proof.
  induction 1 as [ms out|db told account report date now _ [Hk Hf] _|db told ms out _ IH|db told account mid _ [Hk Hf]].
  - split; [constructor|]. intros account. cbn. lia.
  - destruct (decide (ReadReceipts.key (original_message_id report) = [])) as [He|He]; [by rewrite record_unnamed|].
    destruct (record_rows db account report (reported_at date now) now He) as [->| ->]; [done|].
    set (rows := row_of _ _ _ _ <$> _). set (t1 := foldl _ _ rows).
    assert (NoDup (key_of_row <$> (w_row <$> t1))) as Hk1 by (unfold t1; rewrite pending_all_rows; by apply upserts_keys).
    assert (NoDup (key_of_row <$> (w_row <$> forget_old account now t1))) as Hk2 by by apply keys_delete.
    split; [by apply keys_delete|]. intros a. cbn [delivery_reports_pending]. destruct (decide (a = account)) as [->|Hne]; [by apply kept_few|].
    etrans; [|apply (Hf a)]. apply shorter; [by apply waiting_nodup, keys_delete|].
    intros w [Hw Ha]%elem_of_select. apply elem_of_select. split; [|done].
    apply elem_of_delete_where in Hw as [[Hw _]%elem_of_delete_where _].
    eapply pending_other; [exact Hw| |exact Ha]. intros r (item & -> & _)%list_elem_of_fmap. cbn. congruence.
  - exact IH.
  - destruct (outcomes_db db account mid) as [->| ->]; [done|].
    unfold waiting_keys, few. destruct (link_pending_rows db account (ReadReceipts.key mid)) as [->| ->]; [done|].
    split; [by apply keys_delete|]. intros a. etrans; [|apply (Hf a)]. apply shorter; [by apply waiting_nodup, keys_delete|].
    intros w [[Hw _]%elem_of_delete_where Ha]%elem_of_select. by apply elem_of_select.
Qed.

(** C39. However many reports about messages it does not have an account is
    sent, no more than a thousand words of them wait, each recipient's once. *)
Theorem waiting_is_bounded db told account : lived db told ->
  (length (select (of_account account) (delivery_reports_pending db)) <= PENDING_MAX_ROWS)%nat /\
  NoDup (key_of_row <$> (w_row <$> delivery_reports_pending db)).
Proof. intros H. destruct (lived_few _ _ H) as [Hk Hf]. by split. Qed.

(** *** In any order *)

(** Few and recent enough that nothing waiting is forgotten. *)
Definition quiet (told : list (Z * Row)) : Prop :=
  (length told <= PENDING_MAX_ROWS)%nat /\
  exists t0, Forall (fun nr => t0 <= nr.1 <= t0 + PENDING_MAX_AGE) told.

Definition rows_of (db : Db) : list Row := delivery_reports db ++ (w_row <$> delivery_reports_pending db).

Definition faithful (db : Db) (told : list (Z * Row)) : Prop :=
  NoDup (key_of_row <$> delivery_reports db) /\ absorbs [] told.*2 (rows_of db) /\
  (length (delivery_reports_pending db) <= length told)%nat /\
  (forall w, w ∈ delivery_reports_pending db -> received_at w ∈ told.*1).

Lemma absorbs_frame t ws t' a b : absorbs t ws t' -> absorbs (a ++ t ++ b) ws (a ++ t' ++ b).
Proof.
  intros [Hin Hcov]. split.
  - intros r. rewrite !elem_of_app. intros [?|[[?|?]%Hin|?]]; auto.
  - intros w Hw. assert ((w ∈ a \/ w ∈ b) \/ (w ∈ t \/ w ∈ ws)) as [Hw'|Hw'] by (rewrite !elem_of_app in Hw; tauto).
    + exists w. rewrite same_key_spec, wins_refl, !elem_of_app. tauto.
    + destruct (Hcov w Hw') as (r & Hr & ?). exists r. rewrite !elem_of_app. tauto.
Qed.

Lemma quiet_less told more : quiet (told ++ more) -> quiet told.
Proof.
  intros [Hl (t0 & Ht)]. rewrite length_app in Hl. apply Forall_app in Ht as [Ht _]. split; [lia|]. by exists t0.
Qed.

Lemma nothing_forgotten account now t : (length t <= PENDING_MAX_ROWS)%nat ->
  (forall w, w ∈ t -> now - PENDING_MAX_AGE <= received_at w) -> keep_newest account (forget_old account now t) = t.
Proof.
  intros Hl Ht. assert (forget_old account now t = t) as ->.
  { apply LocalArchiveLaws.select_none. intros w Hw. apply andb_false_iff. right. apply Z.ltb_ge. auto. }
  apply LocalArchiveLaws.select_none. intros w _. apply bool_decide_eq_false. rewrite drop_ge; [apply not_elem_of_nil|].
  unfold newest_first. rewrite order_by_perm, length_rev. etrans; [|exact Hl].
  apply sublist_length. apply sublist_filter.
Qed.

Lemma link_faithful db told account original : faithful db told -> faithful (link_pending db account original) told.
Proof.
  intros (Hk & Ha & Hl & Ht). unfold link_pending. case_match; [done|].
  set (waiting := select _ _). set (left := delete_where _ _).
  assert (foldl (fun t w => upsert_report (w_row w) t) (delivery_reports db) waiting =
          foldl (fun t r => upsert_report r t) (delivery_reports db) (w_row <$> waiting)) as -> by by rewrite foldl_fmap.
  split_and!; cbn [delivery_reports delivery_reports_pending].
  - by apply upserts_keys.
  - replace (told.*2) with (told.*2 ++ []) by apply app_nil_r. eapply absorbs_app; [exact Ha|].
    destruct (absorbs_all (w_row <$> waiting) (delivery_reports db)) as [Hin Hcov]. unfold rows_of. cbn [delivery_reports delivery_reports_pending].
    split.
    + intros r. rewrite !elem_of_app. intros [[?|(w & -> & [Hw _]%elem_of_select)%list_elem_of_fmap]%Hin|(w & -> & [Hw _]%elem_of_delete_where)%list_elem_of_fmap]; left; auto.
      all: right; by apply list_elem_of_fmap_2.
    + intros r. rewrite elem_of_app. intros [[Hr|(w & -> & Hw)%list_elem_of_fmap]|[]%elem_of_nil].
      * destruct (Hcov r) as (r' & ? & ?); [by left|]. exists r'. rewrite elem_of_app. tauto.
      * destruct (about account original (w_row w)) eqn:E.
        -- destruct (Hcov (w_row w)) as (r' & ? & ?); [right; apply list_elem_of_fmap_2, elem_of_select; done|]. exists r'. rewrite elem_of_app. tauto.
        -- exists (w_row w). rewrite elem_of_app, same_key_spec, wins_refl. split; [|done]. right. apply list_elem_of_fmap_2, elem_of_delete_where. done.
  - etrans; [|exact Hl]. apply sublist_length, sublist_filter.
  - intros w [Hw _]%elem_of_delete_where. auto.
Qed.

Lemma lived_faithful db told : lived db told -> quiet told -> faithful db told.
Proof.
  induction 1 as [ms out|db told account report date now _ IH Hne|db told ms out _ IH|db told account mid _ IH]; intros Hq.
  - split_and!; cbn; [constructor|apply absorbs_nil|lia|by intros w ?%elem_of_nil].
  - destruct (IH (quiet_less _ _ Hq)) as (Hk & Ha & Hl & Ht). destruct (ReadReceipts.key (original_message_id report)) eqn:E.
    { cbn [is_empty]. rewrite record_unnamed, app_nil_r by done. by split_and!. }
    assert (ReadReceipts.key (original_message_id report) <> []) as He by by rewrite E.
    rewrite <- E in *. assert (is_empty (ReadReceipts.key (original_message_id report)) = false) as Hemp by by rewrite E.
    rewrite Hemp in *.
    set (rows := row_of account (ReadReceipts.key (original_message_id report)) (kind report) (reported_at date now) <$> recipients report).
    set (new := (fun item => _) <$> _) in *.
    assert (new.*2 = rows) as Hnew by (unfold new; by rewrite <- list_fmap_compose).
    assert (length new = length rows) as Hlen by by rewrite <- Hnew, length_fmap.
    assert (forall nr, nr ∈ new -> nr.1 = now) as Htime by by intros nr (item & -> & _)%list_elem_of_fmap.
    assert (exists nr, nr ∈ new) as [nr Hnr].
    { unfold new. destruct (recipients report); [done|]. eexists. by left. }
    unfold faithful. rewrite !fmap_app, Hnew, length_app.
    destruct (record_rows db account report (reported_at date now) now He) as [->| ->]; fold rows; cbn [delivery_reports delivery_reports_pending].
    + split_and!; [by apply upserts_keys| |lia|intros w Hw; apply elem_of_app; auto].
      eapply absorbs_app; [exact Ha|]. apply (absorbs_frame _ _ _ [] (w_row <$> delivery_reports_pending db)). apply absorbs_all.
    + set (t1 := foldl _ _ rows). assert (keep_newest account (forget_old account now t1) = t1) as ->.
      { destruct Hq as [Hql (t0 & Hqt)]. rewrite length_app in Hql. apply nothing_forgotten.
        - unfold t1. etrans; [apply pending_all_length|]. lia.
        - intros w Hw. rewrite Forall_forall in Hqt.
          assert (t0 <= now <= t0 + PENDING_MAX_AGE) as Hnow by (rewrite <- (Htime nr Hnr); apply Hqt, elem_of_app; by right).
          apply pending_all_times in Hw as [->|(w0 & Hw0 & ->)]; [unfold PENDING_MAX_AGE in *; lia|].
          apply Ht in Hw0. apply list_elem_of_fmap in Hw0 as (nr0 & -> & Hnr0). assert (t0 <= nr0.1) by (apply Hqt, elem_of_app; by left). lia. }
      split_and!; [done| | |].
      * eapply absorbs_app; [exact Ha|]. unfold rows_of. cbn [delivery_reports delivery_reports_pending]. unfold t1.
        rewrite pending_all_rows, <- (app_nil_r (w_row <$> delivery_reports_pending db)), <- (app_nil_r (foldl _ _ rows)).
        apply absorbs_frame. rewrite app_nil_r. apply absorbs_all.
      * unfold t1. etrans; [apply pending_all_length|]. lia.
      * intros w Hw. apply elem_of_app. apply pending_all_times in Hw as [->|(w0 & Hw0 & ->)]; [|left; auto].
        right. apply list_elem_of_fmap. exists nr. split; [by rewrite (Htime nr Hnr)|done].
  - exact (IH Hq).
  - destruct (outcomes_db db account mid) as [->| ->]; [auto|]. by apply link_faithful, IH.
Qed.

(** What the words about a message say: of each recipient the last, a delay
    only when nothing final was said. *)
Definition last_word (account original : text) (ws : list Row) (w : Row) : bool :=
  about account original w && forallb (fun v => negb (same_key w v) || wins v w) ws.

Definition said (account original : text) (ws : list Row) : list Stored :=
  omap read_stored (order_by by_kind (remove_dups (select (last_word account original ws) ws))).

(** No two different words about one recipient rank the same. *)
Definition unambiguous (ws : list Row) : Prop :=
  forall v w, v ∈ ws -> w ∈ ws -> same_key v w = true -> wins v w = true -> wins w v = true -> v = w.

Lemma last_word_spec account original ws w : last_word account original ws w = true <->
  about account original w = true /\ forall v, v ∈ ws -> same_key w v = true -> wins v w = true.
Proof.
  unfold last_word. rewrite andb_true_iff, forallb_forall. split; intros [Ha H]; (split; [done|]); intros v Hv.
  - apply list_elem_of_In in Hv. specialize (H v Hv). intros Hk. by rewrite Hk in H.
  - apply list_elem_of_In in Hv. specialize (H v Hv). by destruct (same_key w v); [apply H|].
Qed.

Lemma by_kind_total a b : by_kind a b = true \/ by_kind b a = true.
Proof.
  unfold by_kind. case_bool_decide as E; [rewrite bool_decide_true by done; apply text_le_total|].
  rewrite bool_decide_false by congruence. apply text_le_total.
Qed.

Lemma by_kind_trans a b c : by_kind a b = true -> by_kind b c = true -> by_kind a c = true.
Proof.
  unfold by_kind. generalize (r_kind a) (r_kind b) (r_kind c). intros ka kb kc.
  intros Hab Hbc. revert Hab Hbc. repeat case_bool_decide; simplify_eq; try done; intros Hab Hbc; try (by eapply text_le_trans; eauto).
  exfalso. match goal with H : _ <> _ |- _ => apply H end. by apply text_le_antisym.
Qed.

Lemma by_kind_antisym a b : by_kind a b = true -> by_kind b a = true -> r_kind a = r_kind b /\ r_recipient a = r_recipient b.
Proof.
  unfold by_kind. case_bool_decide as E; intros H1 H2.
  - split; [done|]. rewrite bool_decide_true in H2 by done. by apply text_le_antisym.
  - rewrite bool_decide_false in H2 by congruence. destruct E. by apply text_le_antisym.
Qed.

Lemma in_one_order account original l l' : NoDup l -> NoDup l' -> (forall r, r ∈ l <-> r ∈ l') ->
  Forall (fun r => about account original r = true) l ->
  (forall a b, a ∈ l -> b ∈ l -> key_of_row a = key_of_row b -> a = b) -> order_by by_kind l = order_by by_kind l'.
Proof.
  intros Hn Hn' Hin Hab Hk. apply (StronglySorted_unique_strong (fun a b => by_kind a b = true)).
  - intros a b. rewrite !order_by_perm. intros Ha Hb H1 H2. apply Hin in Hb. destruct (by_kind_antisym a b H1 H2) as [Hkind Hrec].
    apply Hk; [done..|]. rewrite Forall_forall in Hab. pose proof (Hab a Ha) as Aa. pose proof (Hab b Hb) as Ab.
    unfold about in Aa, Ab. bools in Aa. bools in Ab. unfold key_of_row. destruct Aa, Ab. congruence.
  - apply order_by_sorted; [apply by_kind_total|apply by_kind_trans].
  - apply order_by_sorted; [apply by_kind_total|apply by_kind_trans].
  - rewrite !order_by_perm. by apply NoDup_Permutation.
Qed.

Lemma last_unique account original ws a b : unambiguous ws -> a ∈ select (last_word account original ws) ws ->
  b ∈ select (last_word account original ws) ws -> key_of_row a = key_of_row b -> a = b.
Proof.
  intros Hu [Ha [_ La]%last_word_spec]%elem_of_select [Hb [_ Lb]%last_word_spec]%elem_of_select He.
  apply Hu; [done|done|by apply same_key_spec|apply Lb; [done|by apply same_key_spec]|apply La; [done|by apply same_key_spec]].
Qed.

Lemma said_order account original ws ws' : unambiguous ws -> ws' ≡ₚ ws -> said account original ws' = said account original ws.
Proof.
  intros Hu Hp. unfold said. f_equal. symmetry. apply (in_one_order account original).
  - apply NoDup_remove_dups.
  - apply NoDup_remove_dups.
  - intros r. rewrite !elem_of_remove_dups, !elem_of_select, !last_word_spec. setoid_rewrite Hp. done.
  - apply Forall_forall. intros r [_ [Ha _]%last_word_spec]%elem_of_remove_dups%elem_of_select. done.
  - intros a b. rewrite !elem_of_remove_dups. by apply last_unique.
Qed.

Lemma same_report (t : list Row) a b : NoDup (key_of_row <$> t) -> a ∈ t -> b ∈ t -> key_of_row a = key_of_row b -> a = b.
Proof. intros Hn Ha Hb He. eapply (key_unique key_of_row (key_of_row b)); eauto; by apply bool_decide_eq_true. Qed.

Lemma about_key account original a b : key_of_row a = key_of_row b -> about account original a = about account original b.
Proof. unfold about. by intros [= -> -> _ _]. Qed.

(** Once the message is there, nothing about it waits after a look. *)
Lemma linked_none db account original r : known_message db account original = true -> about account original r = true ->
  r ∉ w_row <$> delivery_reports_pending (link_pending db account original).
Proof.
  intros Hk Ha (w & -> & Hw)%list_elem_of_fmap. unfold link_pending in Hw. rewrite Hk in Hw. cbn [negb] in Hw. rewrite orb_false_r in Hw.
  destruct (is_nil _) eqn:E in Hw.
  - apply is_nil_true in E. assert (w ∈ select (fun w => about account original (w_row w)) (delivery_reports_pending db)) as Hin
      by (apply elem_of_select; done). rewrite E in Hin. by apply elem_of_nil in Hin.
  - cbn in Hw. apply elem_of_delete_where in Hw as [_ Hw]. congruence.
Qed.

(** C13. Of a message that is there and has an id, with words few and recent
    enough that none waiting is forgotten ([quiet]) and no two different ones
    about one recipient equal in rank and time ([unambiguous]): whatever the
    order in which the reports came, whether before or after the message was
    there, and whatever was looked at in between, of each recipient the last
    word is said, a delay only when nothing final was said; so the same words in
    another order say the same. *)
Theorem reports_in_any_order db told account mid : lived db told -> quiet told -> unambiguous told.*2 ->
  ReadReceipts.key mid <> [] -> known_message db account (ReadReceipts.key mid) = true ->
  (outcomes db account mid).2 = said account (ReadReceipts.key mid) told.*2 /\
  forall ws, ws ≡ₚ told.*2 -> said account (ReadReceipts.key mid) ws = said account (ReadReceipts.key mid) told.*2.
Proof.
  intros Hl Hq Hu Hm Hknown. split; [|intros ws; by apply said_order].
  unfold outcomes. destruct (is_empty (ReadReceipts.key mid)) eqn:E; [by destruct (ReadReceipts.key mid)|]. cbn [snd].
  set (original := ReadReceipts.key mid) in *.
  destruct (link_faithful db told account original (lived_faithful _ _ Hl Hq)) as (Hk & [Hin Hcov] & _ & _).
  pose proof (fun r => linked_none db account original r Hknown) as Hnone. set (db' := link_pending db account original) in *.
  assert (forall r, r ∈ select (about account original) (delivery_reports db') <-> r ∈ select (last_word account original told.*2) told.*2) as Hrows.
  { intros r. rewrite !elem_of_select, last_word_spec. split.
    - intros [Hr Ha]. destruct (Hin r) as [[]%elem_of_nil|Hw]; [by apply elem_of_app; left|]. split_and!; [done|done|].
      intros v Hv Hs. destruct (Hcov v) as (r' & Hr' & Hs' & Hwin); [by right|]. apply same_key_spec in Hs, Hs'.
      assert (about account original r' = true) as Ha' by (by rewrite (about_key account original r' r) by congruence).
      apply elem_of_app in Hr' as [Hr'|Hr']; [|by destruct (Hnone r' Ha')].
      assert (r' = r) as ->; [|done]. apply (same_report (delivery_reports db')); [done..|congruence].
    - intros (Hw & Ha & Hlast). destruct (Hcov r) as (r' & Hr' & Hs & Hwin); [by right|]. pose proof Hs as Hs'. apply same_key_spec in Hs'.
      assert (about account original r' = true) as Ha' by (by rewrite (about_key account original r' r)).
      destruct (Hin r' Hr') as [[]%elem_of_nil|Hw'].
      apply elem_of_app in Hr' as [Hr'|Hr']; [|by destruct (Hnone r' Ha')].
      assert (r = r') as ->; [|done]. apply Hu; auto. }
  unfold said. f_equal. apply (in_one_order account original).
  - apply NoDup_fmap_1 in Hk. eapply sublist_NoDup; [exact Hk|]. apply sublist_filter.
  - apply NoDup_remove_dups.
  - intros r. by rewrite elem_of_remove_dups, Hrows.
  - apply Forall_forall. intros r [_ Ha]%elem_of_select. done.
  - intros a b. rewrite !elem_of_select. intros [Ha _] [Hb _]. by apply (same_report (delivery_reports db')).
Qed.
End Life.

(** ** A failure, then a delay from another server *)

Definition said_of_bob (o : Outcome) : Report :=
  {| kind := Delivery; original_message_id := lit "<M@x>";
     recipients := [{| recipient := lit "bob@y"; outcome := o; status := []; diagnostic := [] |}] |}.

Definition acc : text := lit "acc".
Definition nothing : Db := {| delivery_reports := []; delivery_reports_pending := []; messages := []; outgoing_attempts := [] |}.
Definition one_waiting : Db := (record nothing acc (said_of_bob Failed) (reported_at 100 150) 150).1.
Definition sent_copy_there : Db :=
  {| delivery_reports := delivery_reports one_waiting; delivery_reports_pending := delivery_reports_pending one_waiting;
     messages := [(acc, Some (lit "M@x"))]; outgoing_attempts := [] |}.
Definition then_delayed : Db := (record sent_copy_there acc (said_of_bob Delayed) (reported_at 200 250) 250).1.
Definition told_of_bob : list (Z * Row) :=
  [(150, row_of acc (lit "m@x") Delivery 100 {| recipient := lit "bob@y"; outcome := Failed; status := []; diagnostic := [] |});
   (250, row_of acc (lit "m@x") Delivery 200 {| recipient := lit "bob@y"; outcome := Delayed; status := []; diagnostic := [] |})].

Lemma waiting_lived : lived one_waiting (take 1 told_of_bob).
Proof. exact (arrived nothing [] acc (said_of_bob Failed) 100 150 (begun [] []) ltac:(discriminate)). Qed.

Lemma delayed_lived : lived then_delayed told_of_bob.
Proof.
  exact (arrived sent_copy_there _ acc (said_of_bob Delayed) 200 250
    (mail_changed one_waiting _ [(acc, Some (lit "M@x"))] [] waiting_lived) ltac:(discriminate)).
Qed.

(** C39. One waits. *)
Lemma waiting_is_bounded_witness : length (delivery_reports_pending one_waiting) = 1%nat /\
  NoDup (key_of_row <$> (w_row <$> delivery_reports_pending one_waiting)).
Proof.
  split; [vm_compute; reflexivity|]. exact (proj2 (waiting_is_bounded one_waiting (take 1 told_of_bob) acc waiting_lived)).
Defined.

(** C13. The failure is what is said, though the delay came later. *)
Lemma reports_in_any_order_witness : s_outcome <$> (outcomes then_delayed acc (lit "<m@X>")).2 = [Failed].
Proof.
  destruct (reports_in_any_order then_delayed told_of_bob acc (lit "<m@X>") delayed_lived) as [H _].
  - split; [vm_compute; lia|]. exists 150. repeat constructor; vm_compute; discriminate.
  - intros v w Hv Hw _. cbn in Hv, Hw.
    apply elem_of_cons in Hv as [->|Hv%list_elem_of_singleton]; apply elem_of_cons in Hw as [->|Hw%list_elem_of_singleton]; subst;
      [reflexivity|vm_compute; discriminate|vm_compute; discriminate|reflexivity].
  - vm_compute. discriminate.
  - vm_compute. reflexivity.
  - rewrite H. vm_compute. reflexivity.
Defined.
End ReportLaws.

(** * A receipt sent is a receipt read

    The report this program writes when a receipt is sent ([ReadReceipts])
    is read by it, where it arrives, as that the message was displayed, for
    the recipient and about the message it names
    ([our_receipt_is_read]). *)

#[local] Open Scope Z_scope.

Module ReportRead.
Import Reports.

(** ** Words and lines *)

Definition word (w : text) : Prop := w <> [] /\ Forall (fun c => is_whitespace c = false) w.

Lemma word_last w : word w -> exists a c, w = a ++ [c] /\ is_whitespace c = false.
Proof.
  intros [Hne Hw]. destruct w as [|c a _] using rev_ind; [done|]. exists a, c. split; [done|].
  apply Forall_app in Hw as [_ Hc]. by inversion Hc.
Qed.

Lemma word_trim w : word w -> trim w = w.
Proof. intros [_ Hw]. by apply trim_id. Qed.

Lemma words_no c ws : is_whitespace c = true -> Forall word ws -> Forall (fun w => c ∉ w) ws.
Proof.
  intros Hc Hws. eapply Forall_impl; [exact Hws|]. intros w [_ Hw] Hin. rewrite Forall_forall in Hw. specialize (Hw c Hin). congruence.
Qed.

(** The words of a line, each after a space. *)
Definition spaced (ws : list text) : text := ws ≫= fun w => 32 :: w.

Lemma spaced_app ws ws' : spaced (ws ++ ws') = spaced ws ++ spaced ws'.
Proof. apply bind_app. Qed.

Lemma spaced_join w ws : spaced (w :: ws) = 32 :: join [32] (w :: ws).
Proof.
  revert w. induction ws as [|w' ws IH]; intros w; [cbn; by rewrite app_nil_r|].
  unfold spaced in *. rewrite bind_cons, IH. done.
Qed.

Lemma join_ends w ws : word w -> Forall word ws -> exists a c, join [32] (w :: ws) = a ++ [c] /\ is_whitespace c = false.
Proof.
  revert w. induction ws as [|w' ws IH]; intros w Hw Hws; [by apply word_last|].
  apply Forall_cons in Hws as [Hw' Hws]. destruct (IH w' Hw' Hws) as (a & c & Ha & Hc).
  exists (w ++ [32] ++ a), c. split; [|done]. change (join [32] (w :: w' :: ws)) with (w ++ [32] ++ join [32] (w' :: ws)).
  rewrite Ha. by rewrite !(assoc_L (++)).
Qed.

Lemma spaced_ends ws : Forall word ws -> ws <> [] -> exists a c, spaced ws = a ++ [c] /\ is_whitespace c = false.
Proof.
  intros Hws Hne. destruct ws as [|w ws]; [done|]. apply Forall_cons in Hws as [Hw Hws].
  destruct (join_ends w ws Hw Hws) as (a & c & Ha & Hc). exists (32 :: a), c. rewrite spaced_join, Ha. done.
Qed.

Lemma trim_spaced ws : Forall word ws -> trim (spaced ws) = join [32] ws.
Proof.
  intros Hws. destruct ws as [|w ws]; [done|]. rewrite spaced_join.
  change (32 :: join [32] (w :: ws)) with ([32] ++ join [32] (w :: ws)).
  rewrite trim_app_start by by repeat constructor. pose proof Hws as [Hw Hws']%Forall_cons.
  destruct (join_ends w ws Hw Hws') as (a & c & Ha & Hc). unfold trim.
  assert (trim_start (join [32] (w :: ws)) = join [32] (w :: ws)) as ->.
  { destruct Hw as [Hne Hw]. destruct w as [|x w]; [done|]. apply Forall_cons in Hw as [Hx _].
    assert (exists b, join [32] ((x :: w) :: ws) = x :: b) as [b ->] by (destruct ws; eexists; reflexivity).
    by apply trim_start_stop. }
  rewrite Ha. rewrite trim_end_stop by done. done.
Qed.

Lemma lines_line l rest : 10 ∉ l -> lines (l ++ [13; 10] ++ rest) = l :: lines rest.
Proof.
  intros Hl. unfold lines. replace (l ++ [13; 10] ++ rest) with ((l ++ [13]) ++ 10 :: rest) by by rewrite <- (assoc_L (++)).
  rewrite split_char_app by (rewrite elem_of_app, list_elem_of_singleton; naive_solver).
  assert (strip_cr (l ++ [13]) = l) as Hs.
  { unfold strip_cr, strip_suffix. assert (ends_with [13] (l ++ [13]) = true) as -> by (apply ends_with_spec; by exists l).
    rewrite length_app. cbn [length]. rewrite Nat.add_sub. cbn [unwrap_or]. apply take_app_length. }
  assert (exists y ys, split_char 10 rest = y :: ys) as (y & ys & ->).
  { unfold split_char. destruct rest as [|c rest]; cbn [split_on]; repeat case_match; eauto. }
  change (removelast ((l ++ [13]) :: y :: ys)) with ((l ++ [13]) :: removelast (y :: ys)).
  change (last ((l ++ [13]) :: y :: ys)) with (last (y :: ys)). rewrite fmap_cons, Hs. repeat case_match; done.
Qed.

(** ** Fields *)

Definition named (name : text) : Prop := word name /\ 58 ∉ name.

Lemma trim_end_kept p a c : p c = false -> trim_end_matches p (a ++ [c]) = a ++ [c].
Proof.
  intros Hp. unfold trim_end_matches. rewrite rev_app_distr. cbn. rewrite Hp. cbn. by rewrite rev_involutive.
Qed.

Lemma not_blank_around a c b : is_whitespace c = false -> is_empty (trim (a ++ c :: b)) = false.
Proof.
  intros Hc. destruct (trim (a ++ c :: b)) eqn:E; [|done]. rewrite trim_nil in E.
  apply Forall_app in E as [_ [Hx _]%Forall_cons]. congruence.
Qed.

Lemma no_cr c : is_whitespace c = false -> (13 =? c) = false.
Proof. intros Hc. apply Z.eqb_neq. intros <-. discriminate. Qed.

(** The line a field begins with. *)
Lemma group_first g current name ws : named name -> Forall word ws ->
  group_line (g, current) (name ++ 58 :: spaced ws) = (g, current ++ [(name, join [32] ws)]).
Proof.
  intros [Hn Hc] Hws. unfold group_line.
  assert (trim_end_matches (Z.eqb 13) (name ++ 58 :: spaced ws) = name ++ 58 :: spaced ws) as ->.
  { destruct (decide (ws = [])) as [->|Hne]; [by apply trim_end_kept|]. destruct (spaced_ends ws Hws Hne) as (a & c & -> & Hw).
    change (58 :: a ++ [c]) with ((58 :: a) ++ [c]). rewrite (assoc_L (++)). apply trim_end_kept. by apply no_cr. }
  destruct (Hn) as [Hne Hnw]. destruct name as [|x name]; [done|]. pose proof Hnw as [Hx _]%Forall_cons.
  assert (is_empty (trim ((x :: name) ++ 58 :: spaced ws)) = false) as -> by by apply (not_blank_around [] x).
  assert (continued ((x :: name) ++ 58 :: spaced ws) = false) as ->.
  { cbn. apply orb_false_iff. split; apply Z.eqb_neq; intros ->; discriminate. }
  rewrite split_once_app by done. by rewrite word_trim, trim_spaced.
Qed.

(** A line that continues it. *)
Lemma group_more g current name v ws : Forall word ws -> ws <> [] ->
  group_line (g, current ++ [(name, v)]) (spaced ws) = (g, current ++ [(name, v ++ 32 :: join [32] ws)]).
Proof.
  intros Hws Hne. unfold group_line. destruct (spaced_ends ws Hws Hne) as (a & c & Ha & Hc).
  assert (trim_end_matches (Z.eqb 13) (spaced ws) = spaced ws) as -> by (rewrite Ha; by apply trim_end_kept, no_cr).
  assert (is_empty (trim (spaced ws)) = false) as -> by (rewrite Ha; by apply not_blank_around).
  assert (continued (spaced ws) = true) as -> by (destruct ws as [|w ws]; [done|by rewrite spaced_join]).
  rewrite trim_spaced by done. unfold extend_last. rewrite last_snoc, removelast_last. done.
Qed.

Lemma join_more ws ws' : ws <> [] -> ws' <> [] -> join [32] (ws ++ ws') = join [32] ws ++ 32 :: join [32] ws'.
Proof.
  intros Hne Hne'. induction ws as [|w ws IH]; [done|]. destruct ws as [|w2 ws]; [by destruct ws'|].
  change (join [32] ((w :: w2 :: ws) ++ ws')) with (w ++ [32] ++ join [32] ((w2 :: ws) ++ ws')). rewrite IH by done.
  change (join [32] (w :: w2 :: ws)) with (w ++ [32] ++ join [32] (w2 :: ws)). by rewrite <- !(assoc_L (++)).
Qed.

Lemma spaced_no_lf ws : Forall word ws -> 10 ∉ spaced ws.
Proof.
  intros Hws. unfold spaced. rewrite list_elem_of_bind. intros (w & Hin & Hw).
  apply elem_of_cons in Hin as [?|Hin]; [done|]. pose proof (words_no 10 ws eq_refl Hws) as Hno. rewrite Forall_forall in Hno. by apply (Hno w).
Qed.

(** The lines of a field from a place in one of them: [first] is what its
    first line begins with, nothing for a line that continues. *)
Lemma read_words n ws : Forall word ws -> forall c st first before more g current name rest,
  Forall word more -> 10 ∉ first -> (n + 1 < c -> before ++ more <> [])%nat ->
  (first = [] -> more <> []) ->
  (forall more', Forall word more' -> (first = [] -> more' <> []) ->
     group_line st (first ++ spaced more') = (g, current ++ [(name, join [32] (before ++ more'))])) ->
  foldl group_line st (lines (first ++ spaced more ++ ReadReceipts.field_words n c ws ++ rest)) =
  foldl group_line (g, current ++ [(name, join [32] (before ++ more ++ ws))]) (lines rest).
Proof.
  induction 1 as [|w ws Hw Hws IH]; intros c st first before more g current name rest Hmore Hlf Hc Hf Hst.
  - cbn [ReadReceipts.field_words]. rewrite (assoc_L (++)). unfold ReadReceipts.crlf. rewrite lines_line.
    + cbn [foldl]. rewrite Hst by done. by rewrite app_nil_r.
    + rewrite elem_of_app. intros [?|?]; [done|]. by apply (spaced_no_lf more).
  - cbn [ReadReceipts.field_words]. case_match eqn:E.
    + apply andb_true_iff in E as [_ Hcol%Nat.ltb_lt]. unfold ReadReceipts.crlf.
      replace (first ++ spaced more ++ ([13; 10] ++ 32 :: w ++ ReadReceipts.field_words n (0 + (1 + utf8_len w)) ws) ++ rest)
        with ((first ++ spaced more) ++ [13; 10] ++ ([] ++ spaced [w] ++ ReadReceipts.field_words n (0 + (1 + utf8_len w)) ws ++ rest))
        by (unfold spaced; cbn; by rewrite <- ?(assoc_L (++)), ?app_nil_r).
      rewrite lines_line; [|rewrite elem_of_app; intros [?|?]; [done|by apply (spaced_no_lf more)]].
      cbn [foldl]. rewrite Hst by done.
      rewrite (IH _ _ [] (before ++ more) [w] g current name rest); [|by apply Forall_singleton|apply not_elem_of_nil|by destruct (before ++ more)|done|].
      * by rewrite <- !(assoc_L (++)).
      * intros more' Hm Hne. cbn [app]. specialize (Hne eq_refl). rewrite group_more by done.
        rewrite (join_more (before ++ more) more'); [done|by apply Hc|done].
    + replace (first ++ spaced more ++ (32 :: w ++ ReadReceipts.field_words n (c + (1 + utf8_len w)) ws) ++ rest)
        with (first ++ spaced (more ++ [w]) ++ ReadReceipts.field_words n (c + (1 + utf8_len w)) ws ++ rest)
        by (rewrite spaced_app; unfold spaced at 2; cbn; by rewrite <- ?(assoc_L (++)), ?app_nil_r).
      rewrite (IH _ _ first before (more ++ [w]) g current name rest); try done.
      * by rewrite <- !(assoc_L (++)).
      * apply Forall_app. split; [done|by apply Forall_singleton].
      * intros _. by destruct before, more.
      * intros _. by destruct more.
Qed.

Definition unfolded (value : text) : text := join [32] (split_whitespace value).

Lemma split_words value : Forall word (split_whitespace value).
Proof.
  unfold split_whitespace. apply Forall_forall. intros w [Hne Hw]%list_elem_of_filter. split; [done|]. revert w Hne Hw.
  induction value as [|c value IH]; intros w Hne Hw; cbn in Hw.
  - by apply list_elem_of_singleton in Hw as ->.
  - destruct (is_whitespace c) eqn:E.
    + apply elem_of_cons in Hw as [->|Hw]; [done|by apply IH].
    + destruct (split_on is_whitespace value) as [|w1 ws] eqn:Es.
      * apply list_elem_of_singleton in Hw as ->. by repeat constructor.
      * apply elem_of_cons in Hw as [->|Hw]; [|apply IH; [done|by right]]. constructor; [done|].
        destruct w1 as [|x w1]; [constructor|]. apply IH; [done|by left].
Qed.

(** A field written is a field read, its words a space apart. *)
Lemma field_read g current name value rest : named name ->
  foldl group_line (g, current) (lines (ReadReceipts.field name value ++ rest)) =
  foldl group_line (g, current ++ [(name, unfolded value)]) (lines rest).
Proof.
  intros Hn. unfold ReadReceipts.field.
  replace ((name ++ 58 :: ReadReceipts.field_words (utf8_len name) (utf8_len name + 1) (split_whitespace value)) ++ rest)
    with ((name ++ [58]) ++ spaced [] ++ ReadReceipts.field_words (utf8_len name) (utf8_len name + 1) (split_whitespace value) ++ rest)
    by (cbn; by rewrite <- !(assoc_L (++))).
  rewrite (read_words _ _ (split_words value) _ _ _ [] [] g current name); [done|constructor| |lia|by destruct name|].
  - rewrite elem_of_app, list_elem_of_singleton. intros [Hin|?]; [|done]. destruct Hn as [[_ Hw] _]. rewrite Forall_forall in Hw.
    specialize (Hw 10 Hin). discriminate.
  - intros more' Hm _. rewrite <- (assoc_L (++)). by apply group_first.
Qed.

(** Fields written one after another. *)
Definition written (fs : list (text * text)) : text := fs ≫= fun f => ReadReceipts.field f.1 f.2.

Lemma fields_read fs : Forall (fun f => named f.1) fs -> fs <> [] ->
  field_groups (written fs) = [(fun f => (f.1, unfolded f.2)) <$> fs].
Proof.
  intros Hfs Hne. unfold field_groups, written.
  assert (forall (current : Fields) rest, foldl group_line ([], current) (lines ((fs ≫= fun f => ReadReceipts.field f.1 f.2) ++ rest)) =
    foldl group_line ([], current ++ ((fun f => (f.1, unfolded f.2)) <$> fs)) (lines rest)) as H.
  { clear Hne. induction Hfs as [|f fs Hf Hfs IH]; intros current rest; [by rewrite app_nil_r|].
    rewrite bind_cons, <- (assoc_L (++)), field_read, IH, fmap_cons by done. by rewrite <- (assoc_L (++)). }
  specialize (H [] []). rewrite app_nil_r in H. destruct (foldl _ _ _) as [groups current] eqn:E.
  change (lines []) with (@nil text) in H. cbn [foldl app] in H. injection H as -> ->. by destruct fs.
Qed.

Definition named_bool (name : text) : bool :=
  negb (is_empty name) && forallb (fun c => negb (is_whitespace c) && negb (58 =? c)) name.

Lemma named_by name : named_bool name = true -> named name.
Proof.
  unfold named_bool. rewrite andb_true_iff, negb_true_iff, forallb_forall. intros [Hne Hall]. split.
  - split; [by destruct name|]. apply Forall_forall. intros c Hc%list_elem_of_In. specialize (Hall c Hc). bools in Hall. apply Hall.
  - intros Hc%list_elem_of_In. specialize (Hall 58 Hc). discriminate.
Qed.

(** ** The receipt *)

(** Text kept as it is: no blanks, brackets, control or format characters. *)
Definition plain_char (c : Z) : bool :=
  negb (is_whitespace c) && negb (is_control c) && negb (is_format c) && negb (60 =? c) && negb (62 =? c).

Lemma plain_char_spec c : plain_char c = true ->
  is_whitespace c = false /\ is_control c = false /\ is_format c = false /\ (60 =? c) = false /\ (62 =? c) = false.
Proof. unfold plain_char. rewrite !andb_true_iff, !negb_true_iff. tauto. Qed.

Definition plain (limit : nat) (s : text) : Prop := s <> [] /\ Forall (fun c => plain_char c = true) s /\ (length s <= limit)%nat.

Lemma plain_word limit s : plain limit s -> word s.
Proof.
  intros (Hne & Hs & _). split; [done|]. eapply Forall_impl; [exact Hs|]. intros c Hc. apply plain_char_spec in Hc. tauto.
Qed.

Lemma filter_kept {A} (P : A -> Prop) `{forall x, Decision (P x)} l : Forall P l -> base.filter P l = l.
Proof. induction 1 as [|x l Hx _ IH]; [done|]. by rewrite filter_cons, decide_True, IH. Qed.

Lemma plain_clean limit s : plain limit s -> clean s limit = s.
Proof.
  intros Hp. pose proof Hp as (_ & Hs & Hl). unfold clean. rewrite filter_kept.
  - rewrite take_ge by done. by eapply word_trim, plain_word.
  - eapply Forall_impl; [exact Hs|]. intros c Hc. apply plain_char_spec in Hc. tauto.
Qed.

Lemma plain_brackets limit s : plain limit s ->
  trim_start_matches (Z.eqb 60) s = s /\ trim_end_matches (Z.eqb 62) s = s.
Proof.
  intros (_ & Hs & _). split.
  - apply trim_start_matches_id. eapply Forall_impl; [exact Hs|]. intros c Hc. apply plain_char_spec in Hc. tauto.
  - unfold trim_end_matches. rewrite trim_start_matches_id; [apply rev_involutive|]. apply Forall_rev.
    eapply Forall_impl; [exact Hs|]. intros c Hc. apply plain_char_spec in Hc. tauto.
Qed.

Lemma plain_unbracketed limit s : plain limit s -> unbracketed s = s.
Proof.
  intros Hp. pose proof (plain_brackets _ _ Hp) as [H1 H2]. unfold unbracketed. pose proof (word_trim s (plain_word _ _ Hp)) as Ht.
  by rewrite Ht, H1, H2, Ht.
Qed.

Lemma bracketed_plain limit s : plain limit s -> unbracketed (lit "<" ++ s ++ lit ">") = s.
Proof.
  intros Hp. pose proof (plain_brackets _ _ Hp) as [H1 H2]. pose proof (plain_word _ _ Hp) as Hw. unfold unbracketed.
  change (lit "<") with [60]. change (lit ">") with [62].
  assert (trim ([60] ++ s ++ [62]) = [60] ++ s ++ [62]) as ->.
  { apply word_trim. split; [done|]. apply Forall_app. split; [by repeat constructor|]. apply Forall_app. split; [apply Hw|by repeat constructor]. }
  destruct s as [|x s]; [by destruct Hp|].
  assert (60 =? x = false) as Hx. { destruct Hp as (_ & [Hx _]%Forall_cons & _). apply plain_char_spec in Hx. tauto. }
  assert (trim_start_matches (Z.eqb 60) ([60] ++ (x :: s) ++ [62]) = (x :: s) ++ [62]) as ->.
  { change ([60] ++ (x :: s) ++ [62]) with (60 :: x :: s ++ [62]). cbn [trim_start_matches]. by rewrite Hx. }
  assert (trim_end_matches (Z.eqb 62) ((x :: s) ++ [62]) = x :: s) as ->.
  { unfold trim_end_matches in *. rewrite rev_app_distr. cbn [rev app]. cbn [trim_start_matches]. exact H2. }
  by apply word_trim.
Qed.

Lemma word_unfolded w : word w -> unfolded w = w.
Proof.
  intros [Hne Hw]. unfold unfolded, split_whitespace.
  assert (split_on is_whitespace w = [w]) as ->; [|by rewrite filter_cons, decide_True].
  clear Hne. induction Hw as [|c w Hc _ IH]; [done|]. cbn. by rewrite Hc, IH.
Qed.

Lemma word_app a b : Forall (fun c => is_whitespace c = false) a -> word b -> word (a ++ b).
Proof. intros Ha [Hne Hb]. split; [by destruct a|]. by apply Forall_app. Qed.

Section Receipt.
Context {U : Unicode} {M : Mime}.

Definition rfc822 (s : text) : text := lit "rfc822;" ++ s.

Lemma address_plain s : plain 320 s -> address_of (unfolded (rfc822 s)) = to_lowercase s.
Proof.
  intros Hp. rewrite word_unfolded; [|apply word_app; [by apply (bool_decide_unpack _); vm_compute|by eapply plain_word]].
  unfold address_of, rfc822. change (lit "rfc822;" ++ s) with (lit "rfc822" ++ 59 :: s).
  rewrite split_once_app by by apply (bool_decide_unpack _); vm_compute. cbn [unwrap_or].
  rewrite (plain_unbracketed _ _ Hp), plain_clean by done. by rewrite bool_decide_true by (vm_compute; done).
Qed.

(** Who the receipt is for: as the sender addressed them, when known. *)
Definition receipt_recipient (mdn : ReadReceipts.Mdn) (r : text) : Prop :=
  plain 320 r /\ to_lowercase r <> [] /\
  ((trim (ReadReceipts.mdn_original_recipient mdn) = [] /\ trim (ReadReceipts.from_addr mdn) = r) \/
   trim (ReadReceipts.mdn_original_recipient mdn) = rfc822 r).

Definition receipt_fields (mdn : ReadReceipts.Mdn) : list (text * text) :=
  (lit "Reporting-UA", lit "Oreneta") ::
  (if is_empty (trim (ReadReceipts.mdn_original_recipient mdn)) then []
   else [(lit "Original-Recipient", trim (ReadReceipts.mdn_original_recipient mdn))]) ++
  [(lit "Final-Recipient", lit "rfc822;" ++ trim (ReadReceipts.from_addr mdn));
   (lit "Original-Message-ID", lit "<" ++ ReadReceipts.key_case_kept (ReadReceipts.original_message_id mdn) ++ lit ">");
   (lit "Disposition", match ReadReceipts.mode mdn with
                       | ReadReceipts.Manual => lit "manual-action/MDN-sent-manually; displayed"
                       | ReadReceipts.Automatic => lit "automatic-action/MDN-sent-automatically; displayed"
                       end)].

Lemma receipt_written mdn : ReadReceipts.notification_fields mdn = written (receipt_fields mdn).
Proof.
  unfold ReadReceipts.notification_fields, receipt_fields, written. rewrite bind_cons, bind_app.
  rewrite !bind_cons. cbn [fst snd mbind list_bind]. rewrite app_nil_r. f_equal. f_equal.
  destruct (is_empty _); [done|]. cbn. by rewrite app_nil_r.
Qed.

Lemma receipt_named mdn : Forall (fun f => named f.1) (receipt_fields mdn).
Proof.
  unfold receipt_fields. destruct (is_empty _); repeat (apply Forall_cons; split; [by apply named_by; vm_compute|]); constructor.
Qed.

Lemma built_report mdn report : ReadReceipts.build_mdn mdn = Ok report ->
  ReadReceipts.fields report = ReadReceipts.notification_fields mdn /\
  ReadReceipts.notification_type report ∈ [lit "message/disposition-notification"; lit "message/global-disposition-notification"].
Proof.
  unfold ReadReceipts.build_mdn. destruct (ReadReceipts.mdn_to mdn); [done|]. case_match; [done|]. intros [= <-]. cbn.
  split; [done|]. case_match; [by left|by right; left].
Qed.

Lemma key_case_plain limit id : plain limit id -> ReadReceipts.key_case_kept id = id.
Proof. apply plain_unbracketed. Qed.

Lemma key_of_key mdn : plain 998 (ReadReceipts.key_case_kept (ReadReceipts.original_message_id mdn)) ->
  ReadReceipts.key (ReadReceipts.key_case_kept (ReadReceipts.original_message_id mdn)) = ReadReceipts.key (ReadReceipts.original_message_id mdn).
Proof. intros Hp. unfold ReadReceipts.key. by rewrite (key_case_plain _ _ Hp). Qed.

Lemma found_part human part rest : part_type human = lit "text/plain" ->
  part_type part ∈ [lit "message/disposition-notification"; lit "message/global-disposition-notification"] ->
  List.find (is_type [lit "message/disposition-notification"; lit "message/global-disposition-notification"]) (human :: part :: rest) = Some part.
Proof.
  intros Hh Hp. cbn [List.find]. unfold is_type. rewrite Hh.
  apply elem_of_cons in Hp as [->| ->%list_elem_of_singleton]; vm_compute; reflexivity.
Qed.

Lemma field_cons n v fs name : field ((n, v) :: fs) name = if eq_ignore_ascii_case n name then Some v else field fs name.
Proof. unfold field. cbn [List.find fst]. by case_match. Qed.

Definition received (mdn : ReadReceipts.Mdn) : Fields := (fun f => (f.1, unfolded f.2)) <$> receipt_fields mdn.

#[local] Ltac look_up :=
  repeat (rewrite field_cons; match goal with |- context [eq_ignore_ascii_case ?a ?b] =>
    let v := eval vm_compute in (eq_ignore_ascii_case a b) in change (eq_ignore_ascii_case a b) with v end; cbn iota).

Lemma receipt_outcome mdn : field (received mdn) (lit "Disposition") ≫= disposition_outcome = Some Displayed.
Proof.
  unfold received, receipt_fields. destruct (is_empty _); cbn [app fmap list_fmap fst snd]; look_up;
    destruct (ReadReceipts.mode mdn); vm_compute; reflexivity.
Qed.

Lemma receipt_id mdn : field (received mdn) (lit "Original-Message-ID") =
  Some (unfolded (lit "<" ++ ReadReceipts.key_case_kept (ReadReceipts.original_message_id mdn) ++ lit ">")).
Proof. unfold received, receipt_fields. destruct (is_empty _); cbn [app fmap list_fmap fst snd]; look_up; reflexivity. Qed.

Lemma receipt_for mdn r : receipt_recipient mdn r -> recipient_of (received mdn) = Some (to_lowercase r).
Proof.
  intros (Hp & Hne & Hr). assert (is_empty (to_lowercase r) = false) as He by by destruct (to_lowercase r).
  unfold recipient_of. cbn [omap list_omap]. unfold received, receipt_fields.
  destruct Hr as [[-> ->]| ->]; [cbn [is_empty]|replace (is_empty (rfc822 r)) with false by done];
    cbn [app fmap list_fmap fst snd]; look_up.
  - change (field [] (lit "Original-Recipient")) with (@None text). cbn [fmap list_fmap List.find]. fold (rfc822 r).
    rewrite address_plain by done. by rewrite He.
  - cbn [fmap list_fmap List.find]. rewrite address_plain by done. by rewrite He.
Qed.

Lemma bare_id_plain id : plain 998 id -> bare_id (unfolded (lit "<" ++ id ++ lit ">")) = id.
Proof.
  intros Hp. rewrite word_unfolded.
  - unfold bare_id. rewrite (bracketed_plain _ _ Hp). by apply plain_clean.
  - apply word_app; [by apply (bool_decide_unpack _); vm_compute|]. pose proof (plain_word _ _ Hp) as [Hne Hw].
    split; [by destruct id|]. apply Forall_app. split; [done|]. by apply (bool_decide_unpack _); vm_compute.
Qed.

Lemma receipt_kind mail : report_type mail = Some (lit "disposition-notification") ->
  kind_of mail = Some (Disposition, [lit "message/disposition-notification"; lit "message/global-disposition-notification"]).
Proof. intros H. unfold kind_of. rewrite H. vm_compute. reflexivity. Qed.

(** C34. A read receipt this program sends is read by it, where it arrives, as
    that the message was displayed, for the recipient as the sender addressed
    them and about the message it names, however its lines are folded; and
    what it names is found by the key of the message it was sent for. *)
Theorem our_receipt_is_read mdn report mail human part rest bytes r :
  ReadReceipts.build_mdn mdn = Ok report ->
  let id := ReadReceipts.key_case_kept (ReadReceipts.original_message_id mdn) in
  plain 998 id -> receipt_recipient mdn r ->
  mail_type mail = lit "multipart/report" -> report_type mail = Some (lit "disposition-notification") ->
  subparts mail = human :: part :: rest -> part_type human = lit "text/plain" ->
  part_type part = ReadReceipts.notification_type report -> get_body_raw part = Some bytes ->
  (length bytes <= MAX_FIELDS)%nat -> from_utf8_lossy bytes = ReadReceipts.fields report ->
  report_of mail = Some {| kind := Disposition; original_message_id := id;
    recipients := [{| recipient := to_lowercase r; outcome := Displayed; status := []; diagnostic := [] |}] |} /\
  ReadReceipts.key id = ReadReceipts.key (ReadReceipts.original_message_id mdn).
Proof.
  intros Hb id Hid Hr Hmt Hrt Hsub Hhuman Hpart Hbody Hlen Hbytes.
  destruct (built_report _ _ Hb) as [Hfields Htype]. split; [|by apply key_of_key].
  unfold report_of. rewrite Hmt.
  replace (eq_ignore_ascii_case (lit "multipart/report") (lit "multipart/report")) with true by (vm_compute; reflexivity).
  cbn [negb]. rewrite (receipt_kind _ Hrt). cbn [mbind option_bind].
  rewrite Hsub, found_part by (done || by rewrite Hpart). cbn [mbind option_bind]. rewrite Hbody. cbn [mbind option_bind].
  rewrite take_ge by done. rewrite Hbytes, Hfields, receipt_written, fields_read by (apply receipt_named || done).
  cbn [concat]. rewrite app_nil_r. fold (received mdn). rewrite receipt_outcome. cbn [mbind option_bind].
  rewrite (receipt_for _ r) by done. cbn [mbind option_bind]. rewrite receipt_id. cbn [fmap option_fmap option_map].
  subst id. rewrite (bare_id_plain _ Hid). destruct (is_empty _) eqn:E; [|done].
  destruct Hid as [Hne _]. by destruct (ReadReceipts.key_case_kept _).
Qed.
End Receipt.

(** ** One receipt, its id folded onto a line of its own *)

#[local] Instance plain_mime : Mime := {| from_utf8_lossy := fun b => b; LocalArchive.get_first_value := fun _ _ => None |}.

Definition long_id : text := lit "a-very-long-identifier-0123456789-0123456789-0123456789@mail.example.org".
Definition an_mdn : ReadReceipts.Mdn :=
  {| ReadReceipts.from_name := lit "Anna"; ReadReceipts.from_addr := lit "anna@y"; ReadReceipts.mdn_to := [lit "bob@x"];
     ReadReceipts.original_message_id := lit "<" ++ long_id ++ lit ">"; ReadReceipts.original_subject := lit "Hi";
     ReadReceipts.mdn_original_recipient := lit "rfc822;Anna.Smith@y"; ReadReceipts.mode := ReadReceipts.Manual |}.

Definition receipt_mail : Mail :=
  {| mail_type := lit "multipart/report"; report_type := Some (lit "disposition-notification");
     subparts := [{| part_type := lit "text/plain"; get_body_raw := None |};
                  {| part_type := lit "message/disposition-notification";
                     get_body_raw := Some (ReadReceipts.notification_fields an_mdn) |}] |}.

(** C34. It is read, for the recipient as addressed. *)
Lemma our_receipt_is_read_witness :
  report_of receipt_mail = Some {| kind := Disposition; original_message_id := long_id;
    recipients := [{| recipient := lit "anna.smith@y"; outcome := Displayed; status := []; diagnostic := [] |}] |}.
Proof.
  destruct (ReadReceipts.build_mdn an_mdn) as [report|] eqn:E; [|vm_compute in E; discriminate].
  refine (proj1 (our_receipt_is_read an_mdn report receipt_mail _ _ [] _ (lit "Anna.Smith@y") E _ _ eq_refl eq_refl eq_refl eq_refl _ eq_refl _ _)).
  - split; [vm_compute; discriminate|]. split; [|vm_compute; lia]. apply Forall_forall.
    intros c Hc%list_elem_of_In. revert c Hc. apply forallb_forall. vm_compute. reflexivity.
  - split; [|split; [vm_compute; discriminate|right; vm_compute; reflexivity]].
    split; [vm_compute; discriminate|]. split; [|vm_compute; lia]. apply Forall_forall.
    intros c Hc%list_elem_of_In. revert c Hc. apply forallb_forall. vm_compute. reflexivity.
  - vm_compute in E. injection E as <-. vm_compute. reflexivity.
  - apply Nat.leb_le. vm_compute. reflexivity.
  - vm_compute in E. injection E as <-. vm_compute. reflexivity.
Defined.
End ReportRead.
