(* ===== verification/MailCheck.v ===== *)
(** * The periodic check of mail

    Models [meron-core/src/mail_check.rs] and the loop of [spawn_mail_check]
    in [main.rs]: which folders a check covers, when an account is due, and
    the ticks that start checks which end on their own time.

    The times are Unix seconds and kept within 64 bits as the code keeps
    them. *)
From S2P Require Import Prelude.
From S2P Require Import Text.
From S2P Require Import ArchivePolicy.
From S2P Require Import Pop3.
From stdpp Require Import gmap.

#[local] Open Scope Z_scope.

Module MailCheck.

Definition MANUAL : Z := 0.
Definition NEW_ACCOUNT_INTERVAL_MINUTES : Z := 15.
Definition MIN_INTERVAL_MINUTES : Z := 5.
Definition MAX_INTERVAL_MINUTES : Z := 1440.
Definition TICK_SECONDS : Z := 60.
Definition CHECK_TIMEOUT_SECONDS : Z := 10 * 60.

Definition normalize (minutes : Z) : Z :=
  if minutes =? MANUAL then MANUAL else Z.min MAX_INTERVAL_MINUTES (Z.max MIN_INTERVAL_MINUTES minutes).

(** [mail_check_interval] of the account's preferences, read from the store. *)
Definition mail_check_interval_minutes (stored : option Z) : Z := unwrap_or MANUAL (normalize <$> stored).

Inductive Delivery := Imap | Pop3 | Unpushed | Local.

#[export] Instance Delivery_eq_dec : EqDecision Delivery.
Proof. solve_decision. Defined.

(** What [delivery_of] asks of the credentials. *)
Record Creds := { is_local : bool; is_pop3 : bool; is_ews : bool; is_graph : bool }.

Definition delivery_of (c : Creds) : Delivery :=
  if is_local c then Local else if is_pop3 c then Pop3 else if is_ews c || is_graph c then Unpushed else Imap.

(** ** Folders *)

Definition excluded (f : ArchivePolicy.Folder) : bool :=
  let role := to_ascii_lowercase (unwrap_or [] (ArchivePolicy.special_use f)) in
  let name := ArchivePolicy.f_name f in
  let last := ArchivePolicy.last_part name in
  let any check := check name || check last in
  let lower := to_ascii_lowercase name in
  let gmail_all := (starts_with (lit "[gmail]") lower || starts_with (lit "[google mail]") lower) &&
                   eq_ignore_ascii_case last (lit "All Mail") in
  bool_decide (role = lit "trash") || bool_decide (role = lit "junk") || bool_decide (role = lit "all") || gmail_all ||
  any ArchivePolicy.looks_like_trash || any ArchivePolicy.looks_like_junk.

(** [.filter(|f| seen.insert(f.name.clone()))] *)
Fixpoint first_of_name (seen : gset text) (fs : list ArchivePolicy.Folder) : list ArchivePolicy.Folder :=
  match fs with
  | [] => []
  | f :: rest =>
      let name := ArchivePolicy.f_name f in
      if bool_decide (name ∈ seen) then first_of_name seen rest else f :: first_of_name ({[ name ]} ∪ seen) rest
  end.

Definition is_checked (delivery : Delivery) (live : gset text) (watched : text -> bool) (f : ArchivePolicy.Folder) : bool :=
  let name := ArchivePolicy.f_name f in
  negb (is_empty name) && bool_decide (name ∈ live) && negb (excluded f) &&
  (negb (bool_decide (delivery = Imap)) || negb (watched name)).

Definition folders_to_check (delivery : Delivery) (cached : list ArchivePolicy.Folder) (live : gset text) (watched : text -> bool)
    : list text :=
  match delivery with
  | Local => []
  | Pop3 => [Pop3.INBOX]
  | Unpushed | Imap =>
      ArchivePolicy.f_name <$> first_of_name ∅ (base.filter (fun f => is_checked delivery live watched f = true) cached)
  end.

(** ** The schedule *)

Record Schedule := { last : gmap text Z; running : gset text }.

Definition empty : Schedule := {| last := ∅; running := ∅ |}.

Definition sat (x : Z) : Z := Z.max (- 2 ^ 63) (Z.min (2 ^ 63 - 1) x).
Definition as_i64 (x : Z) : Z := (x + 2 ^ 63) mod 2 ^ 64 - 2 ^ 63.

Definition see (account : text) (now : Z) (s : Schedule) : Schedule :=
  let l := unwrap_or now (last s !! account) in
  {| last := <[account := if now <? l then now else l]> (last s); running := running s |}.

Definition due (s : Schedule) (account : text) (interval now : Z) : bool :=
  if (interval =? MANUAL) || bool_decide (account ∈ running s) then false
  else match last s !! account with
       | None => false
       | Some since => sat (as_i64 interval * 60) <=? sat (now - since)
       end.

Definition start (account : text) (now : Z) (s : Schedule) : Schedule :=
  {| last := <[account := now]> (last s); running := {[ account ]} ∪ running s |}.

Definition finish (account : text) (s : Schedule) : Schedule :=
  {| last := last s; running := running s ∖ {[ account ]} |}.

Definition forget (account : text) (s : Schedule) : Schedule :=
  if bool_decide (account ∈ running s) then s else {| last := delete account (last s); running := running s |}.

Definition retain (accounts : gset text) (s : Schedule) : Schedule :=
  {| last := base.filter (fun kv => kv.1 ∈ accounts) (last s); running := running s ∩ accounts |}.

Record Candidate := { account : text; delivery : Delivery; paused : bool; interval : result text Z }.

Record Plan := { schedule : Schedule; to_check : list (text * Delivery); unreadable : list text }.

Definition plan_one (now : Z) (p : Plan) (c : Candidate) : Plan :=
  if bool_decide (delivery c = Local) || paused c then p else
  match interval c with
  | Err e => {| schedule := schedule p; to_check := to_check p; unreadable := unreadable p ++ [account c ++ lit ": " ++ e] |}
  | Ok i =>
      if i =? MANUAL then {| schedule := forget (account c) (schedule p); to_check := to_check p; unreadable := unreadable p |}
      else
        let s := see (account c) now (schedule p) in
        if due s (account c) i now
        then {| schedule := start (account c) now s; to_check := to_check p ++ [(account c, delivery c)]; unreadable := unreadable p |}
        else {| schedule := s; to_check := to_check p; unreadable := unreadable p |}
  end.

Definition plan_tick (s : Schedule) (candidates : list Candidate) (now : Z) : Plan :=
  foldl (plan_one now) {| schedule := retain (list_to_set (account <$> candidates)) s; to_check := []; unreadable := [] |} candidates.

(** ** The loop *)

(** The checks started and not yet ended, and when each was started. *)
Record State := { sched : Schedule; checks : list text; starts : list (text * Z) }.

Definition started : State := {| sched := empty; checks := []; starts := [] |}.

(** A tick, or the end of a check, however it ends: [Running] is dropped. *)
Inductive Event := Tick (candidates : list Candidate) (now : Z) | Ended (account : text).

Fixpoint remove_one (a : text) (l : list text) : list text :=
  match l with
  | [] => []
  | b :: l' => if bool_decide (a = b) then l' else b :: remove_one a l'
  end.

Definition step (st : State) (e : Event) : State :=
  match e with
  | Tick candidates now =>
      let p := plan_tick (sched st) candidates now in
      {| sched := schedule p; checks := checks st ++ (to_check p).*1;
         starts := starts st ++ ((fun ad => (ad.1, now)) <$> to_check p) |}
  | Ended a =>
      if bool_decide (a ∈ checks st)
      then {| sched := finish a (sched st); checks := remove_one a (checks st); starts := starts st |}
      else st
  end.

Definition after (events : list Event) : State := foldl step started events.

(** ** What a check found *)

Record Outcome := { synced : Z; failed : Z; first_error : option text }.

Definition record (o : Outcome) (folder : text) (r : result text Z) : Outcome :=
  match r with
  | Ok count => {| synced := synced o + count; failed := failed o; first_error := first_error o |}
  | Err e => {| synced := synced o; failed := failed o + 1;
                first_error := match first_error o with
                               | None => Some (lit "sync " ++ folder ++ lit ": " ++ e)
                               | Some _ => first_error o
                               end |}
  end.

Definition error_message (o : Outcome) (checked : Z) : option text :=
  first ← first_error o;
  Some (lit "periodic check: " ++ show_Z (failed o) ++ lit " of " ++ show_Z checked ++ lit " folders failed; " ++ first).
End MailCheck.

(** * What is true of the periodic check

    Over any run of ticks and ends of checks: an account that stays is never
    checked twice at once ([checked_one_at_a_time]) nor, by a clock that goes
    forward, more often than every five minutes ([checks_are_spaced]); and
    however the clock is set, it is checked once its interval has passed
    ([checked_when_due]). The folders of a check are exactly those push does
    not cover ([folders_not_pushed]). An account removed and added again is
    checked while its last check still runs ([a_readded_account_twice]). *)

#[local] Open Scope Z_scope.

Module MailCheckLaws.
Import MailCheck.

(** ** One account of the schedule *)

Section OneAccount.
Context (a : text).

(** When it was last seen to or checked, and whether a check of it runs. *)
Definition view (s : Schedule) : option Z * bool := (last s !! a, bool_decide (a ∈ running s)).

Definition is_due (since now i : Z) : bool := sat (as_i64 i * 60) <=? sat (now - since).

(** What a tick makes of the account, and whether a check is started. *)
Definition one_tick (now : Z) (c : Candidate) (v : option Z * bool) : option Z * bool * bool :=
  let '(l, r) := v in
  if bool_decide (delivery c = Local) || paused c then (l, r, false) else
  match interval c with
  | Err _ => (l, r, false)
  | Ok i =>
      if i =? MANUAL then (if r then (l, r, false) else (None, r, false))
      else let since := Z.min now (unwrap_or now l) in
           if negb r && is_due since now i then (Some now, true, true) else (Some since, r, false)
  end.

Lemma bool_decide_union (x b : text) (s : gset text) : bool_decide (x ∈ {[ b ]} ∪ s) = bool_decide (x = b) || bool_decide (x ∈ s).
Proof. apply eq_true_iff_eq. rewrite orb_true_iff, !bool_decide_eq_true. set_solver. Qed.

Lemma plan_one_other now p c : account c <> a -> view (schedule (plan_one now p c)) = view (schedule p) /\
  exists new, to_check (plan_one now p c) = to_check p ++ new /\ a ∉ new.*1.
Proof.
  intros Hne. unfold plan_one. destruct (bool_decide _ || _); [split; [done|]; exists []; rewrite app_nil_r; split; [done|apply not_elem_of_nil]|].
  destruct (interval c) as [i|e]; [|split; [done|]; exists []; rewrite app_nil_r; split; [done|apply not_elem_of_nil]].
  destruct (i =? MANUAL).
  - cbn. split; [|exists []; rewrite app_nil_r; split; [done|apply not_elem_of_nil]]. unfold forget, view. case_bool_decide; [done|]. cbn.
    by rewrite lookup_delete_ne.
  - destruct (due _ _ _ _); cbn.
    + split; [|exists [(account c, delivery c)]; split; [done|]; cbn; intros ?%list_elem_of_singleton; congruence].
      unfold view. cbn. rewrite !lookup_insert_ne, bool_decide_union, bool_decide_false by congruence. done.
    + split; [|exists []; rewrite app_nil_r; split; [done|apply not_elem_of_nil]]. unfold view. cbn. by rewrite lookup_insert_ne.
Qed.

Lemma plan_one_same now p c : account c = a ->
  let '(v, go) := one_tick now c (view (schedule p)) in
  view (schedule (plan_one now p c)) = v /\
  to_check (plan_one now p c) = to_check p ++ (if go then [(a, delivery c)] else []).
Proof.
  intros Ha. unfold plan_one, one_tick. rewrite Ha. destruct (view (schedule p)) as [l r] eqn:Ev.
  destruct (bool_decide _ || _); [by rewrite app_nil_r|]. destruct (interval c) as [i|e]; [|by rewrite app_nil_r].
  unfold view in Ev. injection Ev as Hl Hr. destruct (i =? MANUAL) eqn:Ei.
  - cbn [schedule to_check]. unfold forget. rewrite Hr. destruct r; (split; [|by rewrite app_nil_r]); unfold view; cbn [last running]; [by rewrite Hl, Hr|].
    by rewrite lookup_delete_eq, Hr.
  - assert ((if now <? unwrap_or now l then now else unwrap_or now l) = Z.min now (unwrap_or now l)) as Hm
      by (destruct (Z.ltb_spec now (unwrap_or now l)); lia).
    unfold due, see. rewrite Ei, Hl, Hm. cbn [last running orb]. rewrite Hr, lookup_insert_eq. fold (is_due (Z.min now (unwrap_or now l)) now i).
    destruct r; cbn [negb andb].
    + cbn [schedule to_check]. rewrite app_nil_r. split; [|done]. unfold view. cbn [last running]. by rewrite lookup_insert_eq, Hr.
    + destruct (is_due _ _ _); cbn [schedule to_check]; (split; [|by rewrite ?app_nil_r]); unfold view, start; cbn [last running].
      * rewrite lookup_insert_eq, bool_decide_union, bool_decide_true by done. done.
      * by rewrite lookup_insert_eq, Hr.
Qed.

Lemma plan_others now cs p : a ∉ account <$> cs -> view (schedule (foldl (plan_one now) p cs)) = view (schedule p) /\
  exists new, to_check (foldl (plan_one now) p cs) = to_check p ++ new /\ a ∉ new.*1.
Proof.
  revert p. induction cs as [|c cs IH]; intros p Hn; [split; [done|]; exists []; rewrite app_nil_r; split; [done|apply not_elem_of_nil]|].
  rewrite fmap_cons in Hn. apply not_elem_of_cons in Hn as [Hc Hn]. cbn [foldl].
  destruct (plan_one_other now p c ltac:(congruence)) as [Hv (n1 & Ht1 & Hn1)]. destruct (IH (plan_one now p c) Hn) as [Hv' (n2 & Ht2 & Hn2)].
  split; [congruence|]. exists (n1 ++ n2). rewrite Ht2, Ht1, fmap_app, elem_of_app. split; [by rewrite (assoc_L (++))|tauto].
Qed.

(** A tick is, for an account among the candidates, its own step. *)
Lemma plan_tick_view s cs now c : NoDup (account <$> cs) -> c ∈ cs -> account c = a ->
  let '(v, go) := one_tick now c (view s) in
  view (schedule (plan_tick s cs now)) = v /\
  exists n1 n2, to_check (plan_tick s cs now) = n1 ++ (if go then [(a, delivery c)] else []) ++ n2 /\ a ∉ n1.*1 /\ a ∉ n2.*1.
Proof.
  intros Hn Hc Ha. apply list_elem_of_split in Hc as (l1 & l2 & ->). unfold plan_tick. rewrite foldl_app. cbn [foldl].
  rewrite fmap_app, fmap_cons in Hn. apply NoDup_app in Hn as (_ & H1 & [H2 _]%NoDup_cons). rewrite Ha in *.
  set (p0 := {| schedule := _ |}).
  assert (view (schedule p0) = view s) as Hv0.
  { unfold view, p0. cbn. rewrite map_lookup_filter. f_equal.
    - destruct (last s !! a); [|done]. cbn. rewrite option_guard_True; [done|]. cbn. apply elem_of_list_to_set. rewrite !fmap_app, fmap_cons, Ha.
      apply elem_of_app. right. by left.
    - apply bool_decide_ext. rewrite elem_of_intersection, elem_of_list_to_set, !fmap_app, fmap_cons, Ha.
      split; [tauto|]. intros ?. split; [done|]. apply elem_of_app. right. by left. }
  destruct (plan_others now l1 p0) as [Hv1 (n1 & Ht1 & Hn1)]. { intros Hin. apply (H1 a Hin). by left. }
  pose proof (plan_one_same now (foldl (plan_one now) p0 l1) c Ha) as Hs. rewrite Hv1, Hv0 in Hs. destruct (one_tick now c (view s)) as [v go].
  destruct Hs as [Hv Ht]. destruct (plan_others now l2 (plan_one now (foldl (plan_one now) p0 l1) c) H2) as [Hv2 (n2 & Ht2 & Hn2)].
  split; [congruence|]. exists n1, n2. rewrite Ht2, Ht, Ht1. cbn. by rewrite <- !(assoc_L (++)).
Qed.

(** ** A run *)

Definition occurs (l : list text) : nat := length (base.filter (fun x => x = a) l).
Definition starts_of (st : State) : list Z := (base.filter (fun s => s.1 = a) (starts st)).*2.

Lemma occurs_app l l' : occurs (l ++ l') = (occurs l + occurs l')%nat.
Proof. unfold occurs. by rewrite filter_app, length_app. Qed.

Lemma occurs_none l : a ∉ l -> occurs l = 0%nat.
Proof.
  intros Hn. unfold occurs. induction l as [|x l IH]; [done|]. apply not_elem_of_cons in Hn as [Hx Hn].
  rewrite filter_cons, decide_False by done. auto.
Qed.

Lemma occurs_one : occurs [a] = 1%nat.
Proof. unfold occurs. by rewrite filter_cons, decide_True. Qed.

Lemma occurs_pos l : a ∈ l <-> (0 < occurs l)%nat.
Proof.
  split.
  - intros Hin. assert (a ∈ base.filter (fun x => x = a) l) as Hf by by apply list_elem_of_filter.
    unfold occurs. destruct (base.filter _ l); [by apply elem_of_nil in Hf|]. cbn. lia.
  - intros Hp. destruct (decide (a ∈ l)) as [?|Hn]; [done|]. rewrite occurs_none in Hp by done. lia.
Qed.

Lemma occurs_remove b l : occurs (remove_one b l) = if bool_decide (a = b) then (occurs l - 1)%nat else occurs l.
Proof.
  unfold occurs. induction l as [|x l IH]; [by case_bool_decide|]. cbn [remove_one]. rewrite filter_cons.
  destruct (decide (b = x)) as [->|Hb].
  - rewrite (bool_decide_true (x = x)) by done. destruct (decide (x = a)) as [->|Hx].
    + rewrite bool_decide_true by done. cbn. lia.
    + by rewrite bool_decide_false by congruence.
  - rewrite (bool_decide_false (b = x)) by done. rewrite filter_cons. destruct (decide (x = a)) as [->|Hx]; [|done].
    cbn [length]. rewrite IH. by rewrite !bool_decide_false by congruence.
Qed.

Lemma starts_none (now : Z) new : a ∉ new.*1 -> base.filter (fun s : text * Z => s.1 = a) ((fun ad : text * Delivery => (ad.1, now)) <$> new) = [].
Proof.
  intros Hn. induction new as [|x new IH]; [done|]. rewrite fmap_cons in Hn. apply not_elem_of_cons in Hn as [Hx Hn].
  rewrite fmap_cons, filter_cons, decide_False by (cbn; congruence). auto.
Qed.

(** The account is among the candidates of every tick, each once. *)
Definition stays (e : Event) : Prop :=
  match e with Tick cs _ => NoDup (account <$> cs) /\ a ∈ account <$> cs | Ended _ => True end.

Lemma step_tick st cs now c : NoDup (account <$> cs) -> c ∈ cs -> account c = a ->
  let '(v, go) := one_tick now c (view (sched st)) in
  view (sched (step st (Tick cs now))) = v /\
  occurs (checks (step st (Tick cs now))) = (occurs (checks st) + if go then 1 else 0)%nat /\
  starts_of (step st (Tick cs now)) = starts_of st ++ (if go then [now] else []).
Proof.
  intros Hn Hc Ha. pose proof (plan_tick_view (sched st) cs now c Hn Hc Ha) as H. destruct (one_tick _ _ _) as [v go].
  destruct H as (Hv & n1 & n2 & Ht & H1 & H2). cbn [step sched checks]. split; [done|]. rewrite Ht. split.
  - rewrite !fmap_app, !occurs_app, (occurs_none n1.*1), (occurs_none n2.*1) by done. destruct go; cbn [fmap list_fmap fst];
      [rewrite occurs_one; lia|rewrite (occurs_none []) by apply not_elem_of_nil; lia].
  - unfold starts_of. cbn [step starts]. rewrite ?Ht. rewrite !fmap_app, !filter_app, (starts_none now n1), (starts_none now n2) by done.
    destruct go; cbn [fmap list_fmap app fst]; [|by rewrite !app_nil_r]. rewrite filter_cons, decide_True by done.
    by rewrite filter_nil, fmap_app.
Qed.

Lemma step_ended st b : starts_of (step st (Ended b)) = starts_of st /\
  ((a = b /\ a ∈ checks st /\ view (sched (step st (Ended b))) = ((view (sched st)).1, false) /\
    occurs (checks (step st (Ended b))) = (occurs (checks st) - 1)%nat) \/
   (view (sched (step st (Ended b))) = view (sched st) /\ occurs (checks (step st (Ended b))) = occurs (checks st) /\
    (a = b -> a ∉ checks st))).
Proof.
  cbn [step]. case_bool_decide as Hb; [|split; [done|]; right; split_and!; [done..|by intros ->]].
  split; [done|]. cbn [sched checks]. rewrite occurs_remove. unfold view, finish. cbn [last running fst]. destruct (decide (a = b)) as [->|Hne].
  - left. rewrite (bool_decide_true (b = b)) by done. split_and!; try done. f_equal. apply bool_decide_eq_false. set_solver.
  - right. rewrite (bool_decide_false (a = b)) by done. split_and!; try done. f_equal. apply bool_decide_ext. set_solver.
Qed.

Lemma stays_candidate cs now : stays (Tick cs now) -> exists c, NoDup (account <$> cs) /\ c ∈ cs /\ account c = a.
Proof. intros [Hn (c & -> & Hc)%list_elem_of_fmap]. by exists c. Qed.

(** *** One at a time *)

Definition marked (st : State) : Prop := occurs (checks st) = if (view (sched st)).2 then 1%nat else 0%nat.

Lemma step_marked st e : stays e -> marked st -> marked (step st e).
Proof.
  unfold marked. destruct e as [cs now|b]; intros Hs Hm.
  - destruct (stays_candidate cs now Hs) as (c & Hn & Hc & Ha). pose proof (step_tick st cs now c Hn Hc Ha) as H.
    destruct (view (sched st)) as [l r]. cbn [snd] in Hm. destruct (one_tick now c (l, r)) as [v go] eqn:E.
    destruct H as (Hv & Ho & _). rewrite Hv, Ho, Hm. clear -E. unfold one_tick in E.
    destruct r; repeat case_match; simplify_eq; cbn in *; (done || lia).
  - destruct (step_ended st b) as [_ [(-> & Hin & -> & ->)|(-> & -> & _)]]; [|done]. cbn [snd].
    rewrite Hm. by destruct (view (sched st)).2.
Qed.

Lemma run_marked events st : Forall stays events -> marked st -> marked (foldl step st events).
Proof. intros He. revert st. induction He as [|e events Hs _ IH]; intros st Hm; [done|]. by apply IH, step_marked. Qed.

(** C21. An account that stays is never checked twice at once, whatever the
    ticks, the clock, its interval and how long its checks take: while a
    check of it runs it is marked so, and only then. *)
Theorem checked_one_at_a_time events : Forall stays events ->
  (occurs (checks (after events)) <= 1)%nat /\
  (a ∈ running (sched (after events)) <-> a ∈ checks (after events)).
Proof.
  intros He. assert (marked (after events)) as Hm by by apply run_marked. unfold marked, view in Hm. cbn [snd] in Hm.
  rewrite occurs_pos. case_bool_decide; (split; [lia|]); split; (done || lia).
Qed.

(** *** Five minutes apart *)

(** Intervals are read through [mail_check_interval]. *)
Definition read_interval (i : result text Z) : Prop := match i with Ok m => exists stored, m = mail_check_interval_minutes stored | Err _ => True end.
Definition reads_intervals (e : Event) : Prop :=
  match e with Tick cs _ => Forall (fun c => account c = a -> read_interval (interval c)) cs | Ended _ => True end.

Lemma interval_bounds stored : let m := mail_check_interval_minutes stored in m = MANUAL \/ 5 <= m <= 1440.
Proof.
  cbn zeta. unfold mail_check_interval_minutes. destruct stored as [n|]; [|by left]. cbn. unfold normalize.
  destruct (Z.eqb_spec n MANUAL); [by left|]. right. unfold MAX_INTERVAL_MINUTES, MIN_INTERVAL_MINUTES. lia.
Qed.

Lemma is_due_spec since now i : 5 <= i <= 1440 -> is_due since now i = true <-> 60 * i <= now - since.
Proof.
  intros Hi. unfold is_due. assert (as_i64 i = i) as -> by (unfold as_i64; rewrite Z.mod_small; lia).
  assert (sat (i * 60) = i * 60) as -> by (unfold sat; lia). rewrite Z.leb_le. unfold sat. lia.
Qed.

Definition times (events : list Event) : list Z := omap (fun e => match e with Tick _ now => Some now | Ended _ => None end) events.

(** By the clock [now] of the last tick, the starts so far. *)
Definition spaced (now : Z) (st : State) : Prop :=
  StronglySorted (fun t t' => t + 300 <= t') (starts_of st) /\ Forall (fun t => t <= now) (starts_of st) /\
  (forall l, (view (sched st)).1 = Some l -> l <= now /\ Forall (fun t => t <= l) (starts_of st)).

Lemma sorted_snoc {A} (R : A -> A -> Prop) l x : StronglySorted R l -> Forall (fun y => R y x) l -> StronglySorted R (l ++ [x]).
Proof.
  induction 1 as [|y l Hs IH Hy]; intros Hx; cbn; [repeat constructor|]. apply Forall_cons in Hx as [Hyx Hx].
  constructor; [auto|]. apply Forall_app. by repeat constructor.
Qed.

Lemma spaced_start now' now since l : now' <= now -> StronglySorted (fun t t' => t + 300 <= t') l ->
  Forall (fun t => t <= since) l -> 300 <= now - since ->
  StronglySorted (fun t t' => t + 300 <= t') (l ++ [now]) /\ Forall (fun t => t <= now) (l ++ [now]).
Proof.
  intros Hc Hs Hl Hd. split.
  - apply sorted_snoc; [done|]. eapply Forall_impl; [exact Hl|]. cbn. intros t Ht. lia.
  - apply Forall_app. split; [eapply Forall_impl; [exact Hl|]; cbn; intros t Ht; lia|]. constructor; [lia|constructor].
Qed.

Lemma step_spaced st cs now0 now : stays (Tick cs now) -> reads_intervals (Tick cs now) -> now0 <= now -> spaced now0 st ->
  spaced now (step st (Tick cs now)).
Proof.
  intros Hs Hi Hle (Hsort & Hpast & Hlast). destruct (stays_candidate cs now Hs) as (c & Hn & Hc & Ha).
  pose proof (step_tick st cs now c Hn Hc Ha) as H. cbn in Hi. rewrite Forall_forall in Hi. specialize (Hi c Hc Ha).
  destruct (view (sched st)) as [l r]. cbn [fst] in Hlast. destruct (one_tick now c (l, r)) as [v go] eqn:E.
  destruct H as (Hv & _ & Hst). unfold spaced. rewrite Hv, Hst. clear Hv Hst.
  assert (Forall (fun t => t <= now) (starts_of st)) as Hpast' by (eapply Forall_impl; [exact Hpast|]; cbn; intros; lia).
  assert (forall l0, l = Some l0 -> l0 <= now /\ Forall (fun t => t <= l0) (starts_of st)) as Hkeep.
  { intros l0 Hl0. destruct (Hlast l0 Hl0). split; [lia|done]. }
  unfold one_tick in E. destruct (bool_decide _ || _); [simplify_eq; rewrite app_nil_r; by split_and!|].
  destruct (interval c) as [i|e]; [|simplify_eq; rewrite app_nil_r; by split_and!]. destruct Hi as [stored ->].
  destruct (interval_bounds stored) as [Hm|Hm].
  { rewrite Hm in E. cbn in E. destruct r; simplify_eq; rewrite app_nil_r; by split_and!. }
  destruct (Z.eqb_spec (mail_check_interval_minutes stored) MANUAL) as [Hz|_]; [unfold MANUAL in Hz; lia|].
  assert (Z.min now (unwrap_or now l) <= now /\ Forall (fun t => t <= Z.min now (unwrap_or now l)) (starts_of st)) as [Hsn Hss].
  { split; [lia|]. destruct l as [l|]; cbn; [|by rewrite Z.min_id]. destruct (Hkeep l eq_refl) as [? Hf].
    by rewrite Z.min_r by lia. }
  destruct (negb r && _) eqn:Ed.
  - simplify_eq. apply andb_true_iff in Ed as [_ Ed%is_due_spec]; [|done].
    destruct (spaced_start now0 now _ _ Hle Hsort Hss ltac:(lia)) as [H1 H2].
    split_and!; [done|done|]. cbn. intros l0 [= <-]. split; [lia|done].
  - simplify_eq. rewrite app_nil_r. split_and!; [done|done|]. cbn. intros l0 [= <-]. done.
Qed.

Lemma ended_spaced st now b : spaced now st -> spaced now (step st (Ended b)).
Proof.
  intros (Hsort & Hpast & Hlast). unfold spaced.
  destruct (step_ended st b) as [-> [(_ & _ & -> & _)|(-> & _)]]; split_and!; done.
Qed.

Lemma run_spaced events now st : Forall stays events -> Forall reads_intervals events -> StronglySorted Z.le (now :: times events) ->
  spaced now st -> exists now', spaced now' (foldl step st events).
Proof.
  revert now st. induction events as [|e events IH]; intros now st Hs Hi Ht Hsp; [by exists now|].
  apply Forall_cons in Hs as [Hs Hss]. apply Forall_cons in Hi as [Hi His]. cbn [foldl]. destruct e as [cs t|b].
  - cbn [times omap list_omap] in Ht. apply StronglySorted_inv in Ht as [Ht [Hle _]%Forall_cons].
    eapply (IH t); [done|done|exact Ht|]. by eapply step_spaced.
  - eapply (IH now); [done|done|exact Ht|]. by apply ended_spaced.
Qed.

(** By a clock that goes forward, two checks of an account that stays are
    never started within five minutes of each other, whatever intervals are
    stored for it and however often they are changed. *)
Theorem checks_are_spaced events : Forall stays events -> Forall reads_intervals events -> StronglySorted Z.le (times events) ->
  StronglySorted (fun t t' => t + 300 <= t') (starts_of (after events)).
Proof.
  intros Hs Hi Ht. destruct (times events) as [|t0 ts] eqn:E.
  - destruct (run_spaced events 0 started Hs Hi) as (now & H & _); [rewrite E; by repeat constructor|split_and!; by try constructor|exact H].
  - destruct (run_spaced events t0 started Hs Hi) as (now & H & _); [|split_and!; by try constructor|exact H].
    rewrite E. constructor; [done|]. constructor; [lia|]. by apply StronglySorted_inv in Ht as [_ Ht].
Qed.

(** *** Checked when due *)

(** The account may be checked: not paused, with an interval of its own. *)
Definition checkable (c : Candidate) (i : Z) : Prop :=
  delivery c <> Local /\ paused c = false /\ interval c = Ok i /\ 5 <= i <= 1440.

(** It is not by hand only at a tick; it may be paused, or its interval
    not read. *)
Definition not_manual (e : Event) : Prop :=
  match e with Tick cs _ => Forall (fun c => account c = a -> interval c <> Ok MANUAL) cs | Ended _ => True end.

Definition waiting_since (t : Z) (n : nat) (st : State) : Prop :=
  (n < length (starts_of st))%nat \/ ((n <= length (starts_of st))%nat /\ exists l, (view (sched st)).1 = Some l /\ l <= t).

Lemma step_waiting t n st e : stays e -> not_manual e -> waiting_since t n st -> waiting_since t n (step st e).
Proof.
  intros Hs Hm Hw. unfold waiting_since in *. destruct e as [cs now|b].
  - destruct (stays_candidate cs now Hs) as (c & Hn & Hc & Ha). pose proof (step_tick st cs now c Hn Hc Ha) as H.
    cbn in Hm. rewrite Forall_forall in Hm. specialize (Hm c Hc Ha).
    destruct (view (sched st)) as [l r]. cbn [fst] in Hw. destruct (one_tick now c (l, r)) as [v go] eqn:E.
    destruct H as (-> & _ & ->). rewrite length_app. destruct Hw as [Hw|(Hw & l0 & Hl & Hle)]; [left; lia|]. subst l.
    destruct go; [left; cbn; lia|]. right. split; [lia|]. unfold one_tick in E.
    destruct (bool_decide _ || _); [simplify_eq; by exists l0|]. destruct (interval c) as [i|]; [|simplify_eq; by exists l0].
    destruct (Z.eqb_spec i MANUAL) as [->|_]; [done|]. destruct (negb r && _); simplify_eq. cbn. eexists. split; [done|]. lia.
  - destruct (step_ended st b) as [-> [(_ & _ & -> & _)|(-> & _)]]; done.
Qed.

Lemma run_waiting t n events st : Forall stays events -> Forall not_manual events -> waiting_since t n st ->
  waiting_since t n (foldl step st events).
Proof.
  intros Hs. revert st. induction Hs as [|e events He _ IH]; intros st Hm Hw; [done|]. apply Forall_cons in Hm as [Hm Hms].
  by apply IH, step_waiting.
Qed.

(** C20. However the clock is set back or forward in between: an account that is
    a candidate of every tick ([stays]), seen by a tick at which it is not
    paused and its interval can be read ([checkable]), is checked again at the
    latest by the first tick its interval after at which it is checkable, unless
    a check of it still runs then, or a tick in between saw it put by hand only.
    *)
Theorem checked_when_due before cs0 t0 between cs now c0 i0 c i :
  Forall stays (before ++ Tick cs0 t0 :: between ++ [Tick cs now]) -> Forall not_manual between ->
  c0 ∈ cs0 -> account c0 = a -> checkable c0 i0 -> c ∈ cs -> account c = a -> checkable c i -> t0 + 60 * i <= now ->
  a ∉ checks (after (before ++ Tick cs0 t0 :: between)) ->
  (length (starts_of (after before)) < length (starts_of (after (before ++ Tick cs0 t0 :: between ++ [Tick cs now]))))%nat.
Proof.
  intros Hs Hm Hc0 Ha0 (Hl0 & Hp0 & Hi0 & Hb0) Hc Ha (Hl & Hp & Hi & Hb) Hnow Hrun.
  apply Forall_app in Hs as [Hsb [Hs0 Hs]%Forall_cons]. apply Forall_app in Hs as [Hsm [Hsn _]%Forall_cons].
  set (st0 := after before). assert (waiting_since t0 (length (starts_of st0)) (step st0 (Tick cs0 t0))) as Hw.
  { destruct Hs0 as [Hn0 _]. pose proof (step_tick st0 cs0 t0 c0 Hn0 Hc0 Ha0) as H. destruct (view (sched st0)) as [l r].
    destruct (one_tick t0 c0 (l, r)) as [v go] eqn:E. destruct H as (Hv & _ & Hst). unfold waiting_since. rewrite Hv, Hst, length_app. clear Hv Hst.
    destruct go; [left; cbn; lia|]. right. split; [lia|]. unfold one_tick in E. rewrite Hp0, Hi0, bool_decide_false in E by done. cbn [orb] in E.
    destruct (Z.eqb_spec i0 MANUAL) as [->|_]; [unfold MANUAL in Hb0; lia|]. destruct (negb r && _); simplify_eq. cbn. eexists. split; [done|]. lia. }
  apply (run_waiting t0 _ between) in Hw; [|done|done].
  assert (after (before ++ Tick cs0 t0 :: between) = foldl step (step st0 (Tick cs0 t0)) between) as Heq.
  { unfold after. by rewrite foldl_app. }
  assert (marked (foldl step (step st0 (Tick cs0 t0)) between)) as Hmark.
  { rewrite <- Heq. apply run_marked; [|done]. apply Forall_app. split; [done|]. by constructor. }
  rewrite Heq in Hrun. assert (after (before ++ Tick cs0 t0 :: between ++ [Tick cs now]) =
    step (foldl step (step st0 (Tick cs0 t0)) between) (Tick cs now)) as ->.
  { unfold after. rewrite foldl_app. cbn [foldl]. by rewrite foldl_app. }
  set (st := foldl step _ between) in *. destruct Hsn as [Hn _]. pose proof (step_tick st cs now c Hn Hc Ha) as H.
  unfold marked in Hmark. rewrite occurs_none in Hmark by done. destruct (view (sched st)) as [l r] eqn:Ev. cbn [snd] in Hmark.
  destruct r; [done|]. destruct Hw as [Hw|(Hw & l0 & Hl0' & Hle)].
  { destruct (one_tick _ _ _) as [v go]. destruct H as (_ & _ & ->). rewrite length_app. lia. }
  rewrite Ev in Hl0'. cbn in Hl0'. subst l. unfold one_tick in H. rewrite Hp, Hi, bool_decide_false in H by done. cbn [orb] in H.
  destruct (Z.eqb_spec i MANUAL) as [->|_]; [unfold MANUAL in Hb; lia|]. cbn [negb andb unwrap_or] in H.
  rewrite (proj2 (is_due_spec _ _ _ Hb)) in H by lia. destruct H as (_ & _ & ->). rewrite length_app. cbn. lia.
Qed.
End OneAccount.

(** ** Folders *)

Lemma first_of_name_spec seen fs : NoDup (ArchivePolicy.f_name <$> first_of_name seen fs) /\
  forall n, n ∈ ArchivePolicy.f_name <$> first_of_name seen fs <-> n ∉ seen /\ n ∈ ArchivePolicy.f_name <$> fs.
Proof.
  revert seen. induction fs as [|f fs IH]; intros seen; cbn [first_of_name].
  - split; [constructor|]. intros n. cbn. rewrite elem_of_nil. tauto.
  - case_bool_decide as Hf.
    + destruct (IH seen) as [Hn Hin]. split; [done|]. intros n. rewrite Hin, fmap_cons, elem_of_cons. split; [tauto|].
      intros [Hs [->|?]]; [done|tauto].
    + destruct (IH ({[ArchivePolicy.f_name f]} ∪ seen)) as [Hn Hin]. rewrite !fmap_cons. split.
      * constructor; [|done]. rewrite Hin. set_solver.
      * intros n. rewrite !elem_of_cons, Hin, not_elem_of_union, not_elem_of_singleton.
        destruct (decide (n = ArchivePolicy.f_name f)) as [->|?]; tauto.
Qed.

(** A check covers each folder once, and exactly those push does not:
    nothing of the local archive; the Inbox of a POP3 account; of the others
    the known folders the server lists now, less trash, junk and All Mail,
    and for IMAP less those being watched. *)
Theorem folders_not_pushed delivery cached live watched :
  NoDup (folders_to_check delivery cached live watched) /\
  forall n, n ∈ folders_to_check delivery cached live watched <->
    match delivery with
    | Local => False
    | Pop3 => n = Pop3.INBOX
    | Unpushed | Imap =>
        n <> [] /\ n ∈ live /\ (delivery = Imap -> watched n = false) /\
        exists f, f ∈ cached /\ ArchivePolicy.f_name f = n /\ excluded f = false
    end.
Proof.
  assert (forall d, d <> Local -> d <> Pop3 ->
    NoDup (ArchivePolicy.f_name <$> first_of_name ∅ (base.filter (fun f => is_checked d live watched f = true) cached)) /\
    forall n, n ∈ ArchivePolicy.f_name <$> first_of_name ∅ (base.filter (fun f => is_checked d live watched f = true) cached) <->
      n <> [] /\ n ∈ live /\ (d = Imap -> watched n = false) /\ exists f, f ∈ cached /\ ArchivePolicy.f_name f = n /\ excluded f = false) as H.
  { intros d _ _. destruct (first_of_name_spec ∅ (base.filter (fun f => is_checked d live watched f = true) cached)) as [Hn Hin].
    split; [done|]. intros n. rewrite Hin, list_elem_of_fmap. unfold is_checked. setoid_rewrite list_elem_of_filter.
    setoid_rewrite andb_true_iff. setoid_rewrite andb_true_iff. setoid_rewrite andb_true_iff. setoid_rewrite orb_true_iff.
    setoid_rewrite negb_true_iff. setoid_rewrite bool_decide_eq_true. setoid_rewrite bool_decide_eq_false. split.
    - intros [_ (f & -> & ((((Hne & Hl) & Hx) & Hw) & Hc))]. split_and!; [by intros E; rewrite E in Hne|done| |by exists f].
      intros ->. by destruct Hw.
    - intros (Hne & Hl & Hw & f & Hc & <- & Hx). split; [apply not_elem_of_empty|]. exists f. split_and!; try done.
      + by destruct (ArchivePolicy.f_name f).
      + destruct (decide (d = Imap)); [right; auto|by left]. }
  destruct delivery; [apply H; done| |apply H; done|].
  - split; [apply NoDup_singleton|]. intros n. apply list_elem_of_singleton.
  - split; [constructor|]. intros n. split; [by intros ?%elem_of_nil|done].
Qed.

(** ** An account removed and added again *)

Definition acct : text := lit "a@x".
Definition every_five : Candidate := {| account := acct; delivery := Unpushed; paused := false; interval := Ok 5 |}.

Lemma every_five_stays now : stays acct (Tick [every_five] now).
Proof. split; [apply NoDup_singleton|by left]. Qed.

Definition two_checks : list Event := [Tick [every_five] 0; Tick [every_five] 300; Ended acct; Tick [every_five] 590; Tick [every_five] 600].

Lemma two_checks_stays : Forall (stays acct) two_checks.
Proof. repeat (constructor; [first [exact I|apply every_five_stays]|]). constructor. Qed.

(** C21. One check ended, the next runs. *)
Lemma checked_one_at_a_time_witness : checks (after two_checks) = [acct] /\ (occurs acct (checks (after two_checks)) <= 1)%nat.
Proof.
  split; [vm_compute; reflexivity|]. exact (proj1 (checked_one_at_a_time acct two_checks two_checks_stays)).
Defined.

(** Two starts, five minutes apart. *)
Lemma checks_are_spaced_witness : starts_of acct (after two_checks) = [300; 600] /\
  StronglySorted (fun t t' => t + 300 <= t') (starts_of acct (after two_checks)).
Proof.
  split; [vm_compute; reflexivity|]. apply (checks_are_spaced acct two_checks two_checks_stays).
  - assert (forall now, reads_intervals acct (Tick [every_five] now)) as H.
    { intros now. constructor; [|constructor]. intros _. exists (Some 5). reflexivity. }
    repeat (constructor; [first [exact I|apply H]|]). constructor.
  - cbn. repeat constructor; lia.
Defined.

(** C20. The clock is set back a day; the account is checked five minutes
    after by it. *)
Lemma checked_when_due_witness :
  (length (starts_of acct (after [])) < length (starts_of acct (after ([] ++ Tick [every_five] 100000 :: [Tick [every_five] 13600] ++ [Tick [every_five] 100300]))))%nat.
Proof.
  apply (checked_when_due acct [] [every_five] 100000 [Tick [every_five] 13600] [every_five] 100300 every_five 5 every_five 5).
  - repeat (constructor; [apply every_five_stays|]). constructor.
  - constructor; [|constructor]. constructor; [|constructor]. intros _. discriminate.
  - by left.
  - reflexivity.
  - split_and!; [discriminate|reflexivity|reflexivity|lia|lia].
  - by left.
  - reflexivity.
  - split_and!; [discriminate|reflexivity|reflexivity|lia|lia].
  - lia.
  - vm_compute. intros H. inversion H.
Defined.

(** "Never while its previous check still runs": but an account that is
    removed and added again within a long check is forgotten as running, so
    it is checked while that one runs; and the end of the first marks the
    second as ended. *)
Example a_readded_account_twice :
  let events := [Tick [every_five] 0; Tick [every_five] 300; Tick [] 360; Tick [every_five] 420; Tick [every_five] 720] in
  checks (after events) = [acct; acct] /\
  let events := events ++ [Ended acct] in checks (after events) = [acct] /\ bool_decide (acct ∈ running (sched (after events))) = false.
Proof. vm_compute. done. Qed.
End MailCheckLaws.
