(* ===== verification/Categories.v ===== *)
(** * Inbox categories, with the reason for every placement

    Models [meron-core/src/categories/mod.rs]: where a conversation goes and
    why ([judge]), which sets may be saved, the tables of the categories and
    of what the reader said of a conversation or a sender, the judging of
    what is new ([rejudge]) and the counts.  The conditions are those of
    [Rules].  The writer of a category as JSON is the class [CategoryJson]. *)
From S2P Require Import Prelude.
From S2P Require Import Text.
From S2P Require Import Table.
From S2P Require Import Rules.
From S2P Require Import Cards.
From S2P Require Import Messages.

Module Categories.
#[local] Open Scope Z_scope.

Definition MAX_CATEGORIES : nat := 12.
Definition MAX_CONDITIONS : nat := 20.

Record Category := {
  id : text;
  name : text;
  colour : text;
  match_mode : Rules.Match;
  conditions : list Rules.Condition
}.

Inductive Reason :=
| Conversation
| Sender (addr : text)
| Conditions (held : list nat)
| NothingMatched.

Record Verdict := { category : text; reason_of : Reason }.

Record Corrections := { conversation : option text; sender : option text }.

#[export] Instance Reason_eq_dec : EqDecision Reason.
Proof. solve_decision. Defined.
#[export] Instance Verdict_eq_dec : EqDecision Verdict.
Proof. solve_decision. Defined.

(** ** Where a conversation goes *)

(** [exists] *)
Definition is_known (categories : list Category) (i : text) : bool :=
  is_empty i || existsb (fun c => bool_decide (id c = i)) categories.

Section WithUnicode.
Context `{Unicode}.

Definition held (c : Category) (s : Rules.Subject) : option (list nat) :=
  if is_nil (conditions c) then None
  else
    let held := fst <$> base.filter (fun p => Rules.holds (snd p) s = true) (imap pair (conditions c)) in
    let matched := match match_mode c with
                   | Rules.All => bool_decide (length held = length (conditions c))
                   | Rules.Any => negb (is_nil held)
                   end in
    if matched then Some held else None.

(** The loop over the categories. *)
Fixpoint by_conditions (categories : list Category) (s : Rules.Subject) : Verdict :=
  match categories with
  | [] => {| category := []; reason_of := NothingMatched |}
  | c :: rest =>
      match held c s with
      | Some h => {| category := id c; reason_of := Conditions h |}
      | None => by_conditions rest s
      end
  end.

(** [option.filter(p)] *)
Definition keep_if {A} (p : A -> bool) (o : option A) : option A :=
  match o with Some a => if p a then Some a else None | None => None end.

Definition address_form (addr : text) : text := to_lowercase (trim addr).

Definition judge (categories : list Category) (corrections : Corrections) (from_addr : text) (s : Rules.Subject) : Verdict :=
  match keep_if (is_known categories) (conversation corrections) with
  | Some i => {| category := i; reason_of := Conversation |}
  | None =>
      match keep_if (is_known categories) (sender corrections) with
      | Some i => {| category := i; reason_of := Sender (address_form from_addr) |}
      | None => by_conditions categories s
      end
  end.

(** ** Which sets may be saved *)

Inductive Invalid :=
| TooMany | NoName | SameName (name : text) | SameId | TooManyConditions | EmptyCondition | Colour.

Definition is_ascii_hexdigit (c : Z) : bool :=
  is_ascii_digit c || ((97 <=? c) && (c <=? 102)) || ((65 <=? c) && (c <=? 70)).

(** The seven bytes of [#rrggbb]. *)
Definition is_colour (c : text) : bool :=
  Nat.eqb (utf8_len c) 7 && match c with h :: r => (h =? 35) && forallb is_ascii_hexdigit r | [] => false end.

(** The loop of [validate], with the names and the ids met before. *)
Fixpoint validate_from (names ids : list text) (categories : list Category) : result Invalid unit :=
  match categories with
  | [] => Ok tt
  | c :: rest =>
      let n := trim (name c) in
      if is_empty n || is_empty (trim (id c)) then Err NoName
      else if bool_decide (to_lowercase n ∈ names) then Err (SameName n)
      else if bool_decide (id c ∈ ids) then Err SameId
      else if Nat.ltb MAX_CONDITIONS (length (conditions c)) then Err TooManyConditions
      else if existsb (fun k => is_empty (trim (Rules.value k))) (conditions c) then Err EmptyCondition
      else if negb (is_colour (colour c)) then Err Colour
      else validate_from (to_lowercase n :: names) (id c :: ids) rest
  end.

Definition validate (categories : list Category) : result Invalid unit :=
  if Nat.ltb MAX_CATEGORIES (length categories) then Err TooMany else validate_from [] [] categories.

(** ** The tables *)

Record CategoryRow := { c_id : text; position : Z; json : text }.
Record ThreadRow := { t_account : text; t_thread_key : text; t_category : text }.
Record SenderRow := { s_account : text; s_addr : text; s_category : text }.

Record Db := {
  messages : list Messages.Row;
  inbox_categories : list CategoryRow;
  category_threads : list ThreadRow;
  category_senders : list SenderRow
}.

Definition with_messages (f : list Messages.Row -> list Messages.Row) (db : Db) : Db :=
  {| messages := f (messages db); inbox_categories := inbox_categories db;
     category_threads := category_threads db; category_senders := category_senders db |}.
Definition with_threads (f : list ThreadRow -> list ThreadRow) (db : Db) : Db :=
  {| messages := messages db; inbox_categories := inbox_categories db;
     category_threads := f (category_threads db); category_senders := category_senders db |}.
Definition with_senders (f : list SenderRow -> list SenderRow) (db : Db) : Db :=
  {| messages := messages db; inbox_categories := inbox_categories db;
     category_threads := category_threads db; category_senders := f (category_senders db) |}.

Definition set_category (c : option text) (r : Messages.Row) : Messages.Row :=
  {| Messages.id := Messages.id r; Messages.account := Messages.account r;
     Messages.row_folder := Messages.row_folder r; Messages.msg_id := Messages.msg_id r;
     Messages.row_uid := Messages.row_uid r; Messages.row_subject := Messages.row_subject r;
     Messages.row_from_name := Messages.row_from_name r; Messages.row_from_addr := Messages.row_from_addr r;
     Messages.row_date := Messages.row_date r; Messages.row_seen := Messages.row_seen r;
     Messages.row_starred := Messages.row_starred r; Messages.row_thread_key := Messages.row_thread_key r;
     Messages.json_to := Messages.json_to r; Messages.json_cc := Messages.json_cc r;
     Messages.json_message_id := Messages.json_message_id r; Messages.json_in_reply_to := Messages.json_in_reply_to r;
     Messages.row_has_attachments := Messages.row_has_attachments r; Messages.row_priority := Messages.row_priority r;
     Messages.row_category := c |}.

(** [serde_json] on a whole category. *)
Class CategoryJson := {
  category_to_string : Category -> text;
  category_from_str : text -> option Category
}.

Inductive Error := Refused (i : Invalid) | NoSenderAddress | NoSuchCategory.

Section Storage.
Context {CJ : CategoryJson} {RJ : RecipientsJson}.

Definition by_position (a b : CategoryRow) : bool := position a <=? position b.

Definition list_categories (db : Db) : list Category :=
  omap (fun r => category_from_str (json r)) (order_by by_position (inbox_categories db)).

Definition stored (i : nat) (c : Category) : CategoryRow :=
  {| c_id := id c; position := Z.of_nat i; json := category_to_string c |}.

Definition dropped (ids : list text) (c : text) : bool := negb (is_empty c) && negb (bool_decide (c ∈ ids)).

Definition save (db : Db) (categories : list Category) : result Error Db :=
  match validate categories with
  | Err i => Err (Refused i)
  | Ok _ =>
      let ids := id <$> categories in
      Ok {| messages := set_category None <$> messages db;
            inbox_categories := imap stored categories;
            category_threads := delete_where (fun r => dropped ids (t_category r)) (category_threads db);
            category_senders := delete_where (fun r => dropped ids (s_category r)) (category_senders db) |}
  end.

(** ** What the reader said *)

Definition known (db : Db) (i : text) : result Error unit :=
  if negb (is_empty i) && negb (existsb (fun c => bool_decide (id c = i)) (list_categories db)) then Err NoSuchCategory else Ok tt.

Definition same_thread (acc key : text) (r : ThreadRow) : bool :=
  bool_decide (t_account r = acc) && bool_decide (t_thread_key r = key).
Definition same_sender (acc addr : text) (r : SenderRow) : bool :=
  bool_decide (s_account r = acc) && bool_decide (s_addr r = addr).

Definition in_thread (acc key : text) (r : Messages.Row) : bool :=
  bool_decide (Messages.account r = acc) && bool_decide (Messages.sql_thread_key r = key).

(** Each correction is two statements, committed one after the other: what the
    reader said is written, and the messages it is about are to be judged
    again. *)
Definition write_conversation (db : Db) (acc key : text) (c : option text) : result Error Db :=
  match c with
  | Some i =>
      _ ← known db i;
      Ok (with_threads (insert_or_replace (same_thread acc key)
                          {| t_account := acc; t_thread_key := key; t_category := i |}) db)
  | None => Ok (with_threads (delete_where (same_thread acc key)) db)
  end.

Definition reset_conversation (db : Db) (acc key : text) : Db :=
  with_messages (update (in_thread acc key) (set_category None)) db.

Definition correct_conversation (db : Db) (acc key : text) (c : option text) : result Error Db :=
  db' ← write_conversation db acc key c;
  Ok (reset_conversation db' acc key).

(** [lower(COALESCE(from_addr, '')) = ?2]; SQLite's [lower] knows ASCII. *)
Definition is_from (acc addr : text) (r : Messages.Row) : bool :=
  bool_decide (Messages.account r = acc) &&
  bool_decide (to_ascii_lowercase (unwrap_or [] (Messages.row_from_addr r)) = addr).

Definition write_sender (db : Db) (acc addr : text) (c : option text) : result Error Db :=
  match c with
  | Some i =>
      _ ← known db i;
      Ok (with_senders (insert_or_replace (same_sender acc addr)
                          {| s_account := acc; s_addr := addr; s_category := i |}) db)
  | None => Ok (with_senders (delete_where (same_sender acc addr)) db)
  end.

Definition reset_sender (db : Db) (acc addr : text) : Db :=
  with_messages (update (is_from acc addr) (set_category None)) db.

Definition correct_sender (db : Db) (acc addr : text) (c : option text) : result Error Db :=
  let addr := address_form addr in
  if is_empty addr then Err NoSenderAddress
  else
    db' ← write_sender db acc addr c;
    Ok (reset_sender db' acc addr).

Definition conversation_correction (db : Db) (acc key : text) : option text :=
  t_category <$> query_row (same_thread acc key) (category_threads db).
Definition sender_correction (db : Db) (acc addr : text) : option text :=
  s_category <$> query_row (same_sender acc (address_form addr)) (category_senders db).

(** ** Judging *)

Record Judged := {
  thread_key : text; subject : text; from_name : text; from_addr : text; to : list text; cc : list text
}.

Definition addrs (json : option text) : list text :=
  (fun p => trim (Cards.name p ++ lit " " ++ Cards.addr p)) <$> Messages.parse_recipients_json json.

Definition read_row (r : Messages.Row) : Judged :=
  {| thread_key := Messages.sql_thread_key r; subject := unwrap_or [] (Messages.row_subject r);
     from_name := unwrap_or [] (Messages.row_from_name r); from_addr := unwrap_or [] (Messages.row_from_addr r);
     to := addrs (Messages.json_to r); cc := addrs (Messages.json_cc r) |}.

Definition verdict_for (db : Db) (categories : list Category) (acc : text) (row : Judged) : Verdict :=
  judge categories
    {| conversation := conversation_correction db acc (thread_key row);
       sender := sender_correction db acc (from_addr row) |}
    (from_addr row)
    {| Rules.from_name := from_name row; Rules.from_addr := from_addr row;
       Rules.to := to row; Rules.cc := cc row; Rules.subject := subject row |}.

Definition is_mail (acc : text) (r : Messages.Row) : bool :=
  bool_decide (Messages.account r = acc) && negb (Messages.row_uid r =? 0).
Definition is_unjudged (r : Messages.Row) : bool := bool_decide (Messages.row_category r = None).

(** [date DESC, uid DESC] *)
Definition newer (a b : Messages.Row) : bool :=
  if Messages.row_date a =? Messages.row_date b then Messages.row_uid b <=? Messages.row_uid a
  else Messages.row_date b <? Messages.row_date a.

Definition group_key (r : Messages.Row) : text * text := (Messages.row_folder r, Messages.sql_thread_key r).

Definition key_le (a b : text * text) : bool :=
  if bool_decide (fst a = fst b) then text_le (snd a) (snd b) else text_le (fst a) (fst b).

(** [ORDER BY folder, THREAD_KEY, date DESC, uid DESC] *)
Definition by_group (a b : Messages.Row) : bool :=
  if bool_decide (group_key a = group_key b) then newer a b else key_le (group_key a) (group_key b).

(** A conversation of a folder: its newest message, its messages, and
    whether one of them was not judged. *)
Record Group := { first : Z; ids : list Z; unjudged : bool }.

(** One row of the loop; the groups come with the one last opened first. *)
Definition add_row (acc : list Group * option (text * text)) (r : Messages.Row) : list Group * option (text * text) :=
  let '(groups, last) := acc in
  let key := group_key r in
  let '(groups, last) :=
    if bool_decide (last = Some key) then (groups, last)
    else ({| first := Messages.id r; ids := []; unjudged := false |} :: groups, Some key) in
  match groups with
  | g :: rest =>
      ({| first := first g; ids := ids g ++ [Messages.id r]; unjudged := unjudged g || is_unjudged r |} :: rest, last)
  | [] => (groups, last)
  end.

Definition groups_of (db : Db) (acc : text) : list Group :=
  rev (fst (foldl add_row ([], None) (order_by by_group (select (is_mail acc) (messages db))))).

Definition with_id (i : Z) (r : Messages.Row) : bool := Messages.id r =? i.

(** What is done with one group: the messages so far, and how many were judged. *)
Definition judge_group (db : Db) (categories : list Category) (acc : text) (only_unjudged : bool)
    (st : list Messages.Row * nat) (g : Group) : list Messages.Row * nat :=
  let '(msgs, judged) := st in
  if only_unjudged && negb (unjudged g) then (msgs, judged)
  else
    match query_row (with_id (first g)) msgs with
    | None => (msgs, judged)
    | Some r =>
        let v := verdict_for db categories acc (read_row r) in
        (foldl (fun t i => update (with_id i) (set_category (Some (category v))) t) msgs (ids g),
         (judged + length (ids g))%nat)
    end.

Definition rejudge (db : Db) (acc : text) (only_unjudged : bool) : Db * nat :=
  if only_unjudged && negb (existsb (fun r => is_mail acc r && is_unjudged r) (messages db)) then (db, 0%nat)
  else
    let '(msgs, judged) := foldl (judge_group db (list_categories db) acc only_unjudged) (messages db, 0%nat) (groups_of db acc) in
    (with_messages (fun _ => msgs) db, judged).

(** ** Where a conversation is, and how many there are *)

Definition of_conversation (acc fol key : text) (r : Messages.Row) : bool :=
  bool_decide (Messages.account r = acc) && bool_decide (Messages.row_folder r = fol)
  && bool_decide (Messages.sql_thread_key r = key).

Definition reason (db : Db) (acc fol key : text) : option Verdict :=
  r ← head (order_by newer (select (of_conversation acc fol key) (messages db)));
  Some (verdict_for db (list_categories db) acc (read_row r)).

Record Count := { count_category : text; conversations : nat; unread : nat }.
Record Counts := { counts_of : list Count; all_conversations : nat; all_messages : nat }.

Definition mail_in (acc fol : text) (r : Messages.Row) : bool :=
  is_mail acc r && bool_decide (Messages.row_folder r = fol).

(** [newest WHERE n = 1]: of each conversation of the folder the first by
    date and uid. *)
Fixpoint first_of_thread (seen : list text) (l : list Messages.Row) : list Messages.Row :=
  match l with
  | [] => []
  | r :: rest =>
      let k := Messages.sql_thread_key r in
      if bool_decide (k ∈ seen) then first_of_thread seen rest else r :: first_of_thread (k :: seen) rest
  end.
Definition newest (db : Db) (acc fol : text) : list Messages.Row :=
  first_of_thread [] (order_by newer (select (mail_in acc fol) (messages db))).

Definition has_unread (db : Db) (acc fol : text) (r : Messages.Row) : bool :=
  existsb (fun m => mail_in acc fol m && (Messages.row_seen m =? 0)
                    && bool_decide (Messages.sql_thread_key m = Messages.sql_thread_key r)) (messages db).

Definition shown_category (r : Messages.Row) : text := unwrap_or [] (Messages.row_category r).
Definition in_category (c : text) (r : Messages.Row) : bool := bool_decide (shown_category r = c).

(** [GROUP BY COALESCE(category, '')], in the order of the categories. *)
Definition count_rows (db : Db) (acc fol : text) : list Count :=
  let rows := newest db acc fol in
  (fun c => {| count_category := c;
               conversations := length (select (in_category c) rows);
               unread := length (select (fun r => in_category c r && has_unread db acc fol r) rows) |})
  <$> order_by text_le (remove_dups (shown_category <$> rows)).

Definition counts (db : Db) (acc fol : text) : Db * Counts :=
  let db := fst (rejudge db acc true) in
  let cs := count_rows db acc fol in
  (db, {| counts_of := cs; all_conversations := list_sum (conversations <$> cs);
          all_messages := length (select (mail_in acc fol) (messages db)) |}).

End Storage.
End WithUnicode.
End Categories.
