(* ===== verification/CategoryLaws.v ===== *)
(** * Judging what is new is judging everything

    [rejudge] sorts the mail of an account, cuts it into conversations and
    judges those that hold a message not judged yet.  Here its result is said
    row by row ([rejudge_rows]): every message of such a conversation gets
    the verdict of the newest one.  Whatever was saved, corrected or has
    arrived, that comes to judging the whole account anew
    ([judging_the_new_is_enough]), and the counts then agree with the reasons
    that are given ([counted_where_the_reason_says]).  The deletion of the newest
    message of a conversation is not noticed
    ([a_deletion_leaves_its_verdict]), nor a correction stopped halfway
    ([a_stop_leaves_the_verdicts]). *)
From S2P Require Import Prelude.
From S2P Require Import Text.
From S2P Require Import Table.
From S2P Require Import Rules.
From S2P Require Import Cards.
From S2P Require Import Messages.
From S2P Require Import Categories.

#[local] Open Scope Z_scope.

Module CategoryLaws.
Import Categories.

(** ** Sorting and choosing *)

Lemma chosen_cons {R} (p : R -> bool) r t : select p (r :: t) = if p r then r :: select p t else select p t.
Proof. unfold select. destruct (p r) eqn:E; by rewrite ?filter_cons_True, ?filter_cons_False by congruence. Qed.

(** Rows chosen from a sorted table are those rows sorted, in any order that
    agrees with the table's on them. *)
Lemma select_insert {R} (le le' : R -> R -> bool) (p : R -> bool) r t :
  (forall a b c, le a b = true -> le b c = true -> le a c = true) ->
  (forall a b, p a = true -> p b = true -> le a b = le' a b) ->
  StronglySorted (fun a b => le a b = true) t ->
  select p (insert_sorted le r t) = if p r then insert_sorted le' r (select p t) else select p t.
Proof.
  intros Htr Hag Hs. induction Hs as [|x t Hs IH Hx]; [by cbn [insert_sorted]; rewrite chosen_cons; destruct (p r)|].
  cbn [insert_sorted]. destruct (le r x) eqn:Erx.
  - rewrite chosen_cons. destruct (p r) eqn:Er; [|done].
    assert (Forall (fun y => le' r y = true) (select p (x :: t))) as Hall.
    { rewrite Forall_forall in *. intros y [[->|Hin]%elem_of_cons Hy]%elem_of_select; rewrite <- Hag by done; [done|]. eauto. }
    destruct (select p (x :: t)) as [|y s]; [done|]. cbn. inversion Hall as [|? ? Hy]; subst. by rewrite Hy.
  - rewrite !chosen_cons, IH. destruct (p x) eqn:Ex, (p r) eqn:Er; try done. cbn [insert_sorted]. by rewrite <- Hag, Erx by done.
Qed.

Lemma select_order_by {R} (le le' : R -> R -> bool) (p : R -> bool) t :
  (forall a b, le a b = true \/ le b a = true) ->
  (forall a b c, le a b = true -> le b c = true -> le a c = true) ->
  (forall a b, p a = true -> p b = true -> le a b = le' a b) ->
  select p (order_by le t) = order_by le' (select p t).
Proof.
  intros Hto Htr Hag. induction t as [|r t IH]; [done|]. cbn [order_by].
  rewrite (select_insert le le' p r (order_by le t) Htr Hag (order_by_sorted le Hto Htr t)), IH.
  rewrite chosen_cons. by destruct (p r).
Qed.

Lemma newest_total a b : newer a b = true \/ newer b a = true.
Proof.
  unfold newer. destruct (Z.eqb_spec (Messages.row_date a) (Messages.row_date b)) as [E|E].
  - rewrite E, Z.eqb_refl. bools. lia.
  - destruct (Z.eqb_spec (Messages.row_date b) (Messages.row_date a)); [lia|]. bools. lia.
Qed.

Lemma newest_trans a b c : newer a b = true -> newer b c = true -> newer a c = true.
Proof.
  unfold newer. destruct (Z.eqb_spec (Messages.row_date a) (Messages.row_date b)),
    (Z.eqb_spec (Messages.row_date b) (Messages.row_date c)), (Z.eqb_spec (Messages.row_date a) (Messages.row_date c)); bools; lia.
Qed.

Lemma key_le_refl a : key_le a a = true.
Proof. unfold key_le. rewrite bool_decide_true by done. apply text_le_refl. Qed.

Lemma key_le_total a b : key_le a b = true \/ key_le b a = true.
Proof.
  unfold key_le. destruct (bool_decide_reflect (fst a = fst b)) as [E|E].
  - rewrite bool_decide_true by done. apply text_le_total.
  - rewrite bool_decide_false by congruence. apply text_le_total.
Qed.

Lemma key_le_antisym a b : key_le a b = true -> key_le b a = true -> a = b.
Proof.
  unfold key_le. destruct a as [f k], b as [f' k']. cbn. destruct (bool_decide_reflect (f = f')) as [->|E].
  - rewrite bool_decide_true by done. intros H1 H2. by rewrite (text_le_antisym k k').
  - rewrite bool_decide_false by congruence. intros H1 H2. by rewrite (text_le_antisym f f') in E.
Qed.

Lemma key_le_trans a b c : key_le a b = true -> key_le b c = true -> key_le a c = true.
Proof.
  unfold key_le. destruct a as [f k], b as [f' k'], c as [f'' k'']. cbn.
  destruct (bool_decide_reflect (f = f')) as [->|E].
  - destruct (bool_decide_reflect (f' = f'')) as [->|E']; [apply text_le_trans|done].
  - destruct (bool_decide_reflect (f' = f'')) as [->|E'].
    + rewrite bool_decide_false by done. done.
    + intros H1 H2. destruct (bool_decide_reflect (f = f'')) as [->|E'']; [|by apply (text_le_trans f f')].
      by rewrite (text_le_antisym f'' f') in E.
Qed.

Lemma by_group_key a b : by_group a b = true -> key_le (group_key a) (group_key b) = true.
Proof.
  unfold by_group. destruct (bool_decide_reflect (group_key a = group_key b)) as [->|E]; [|done].
  intros _. apply key_le_refl.
Qed.

Lemma by_group_total a b : by_group a b = true \/ by_group b a = true.
Proof.
  unfold by_group. destruct (bool_decide_reflect (group_key a = group_key b)) as [E|E].
  - rewrite bool_decide_true by done. apply newest_total.
  - rewrite bool_decide_false by congruence. apply key_le_total.
Qed.

Lemma by_group_trans a b c : by_group a b = true -> by_group b c = true -> by_group a c = true.
Proof.
  intros Hab Hbc. pose proof (by_group_key _ _ Hab) as Kab. pose proof (by_group_key _ _ Hbc) as Kbc. revert Hab Hbc. unfold by_group.
  destruct (bool_decide_reflect (group_key a = group_key c)) as [E|E]; [|intros _ _; by apply (key_le_trans _ (group_key b))].
  rewrite E in Kab. pose proof (key_le_antisym _ _ Kab Kbc) as E'. rewrite E, E', !bool_decide_true by done. apply newest_trans.
Qed.

(** ** The conversations of an account *)

Definition in_group (k : text * text) (r : Messages.Row) : bool := bool_decide (group_key r = k).

Definition summary (c : list Messages.Row) : Group :=
  {| first := from_option Messages.id 0 (head c); ids := Messages.id <$> c; unjudged := existsb is_unjudged c |}.

Definition chunk_key (c : list Messages.Row) : option (text * text) := group_key <$> head c.

(** A table cut where the key changes, the last piece first. *)
Definition uniform (c : list Messages.Row) : Prop :=
  exists r c', c = r :: c' /\ Forall (fun m => group_key m = group_key r) c'.

Definition above (a b : list Messages.Row) : Prop :=
  forall x y, x ∈ a -> y ∈ b -> key_le (group_key y) (group_key x) = true /\ group_key x <> group_key y.

Record Cut (cs : list (list Messages.Row)) (t : list Messages.Row) : Prop := {
  cut_whole : concat (rev cs) = t;
  cut_uniform : Forall uniform cs;
  cut_apart : StronglySorted above cs
}.

Lemma uniform_key c x y : uniform c -> x ∈ c -> y ∈ c -> group_key x = group_key y.
Proof.
  intros (r & c' & -> & Hc). rewrite Forall_forall in Hc.
  assert (forall z, z ∈ r :: c' -> group_key z = group_key r) as Hz by (intros z [->|Hz]%elem_of_cons; [done|by apply Hc]).
  intros Hx Hy. by rewrite (Hz x), (Hz y).
Qed.

Lemma uniform_snoc c r : uniform c -> chunk_key c = Some (group_key r) -> uniform (c ++ [r]).
Proof.
  intros (x & c' & -> & Hc) Hk. cbn in Hk. assert (group_key x = group_key r) as E by congruence.
  exists x, (c' ++ [r]). split; [done|]. apply Forall_app. split; [done|]. by constructor.
Qed.

Lemma add_row_cut t : StronglySorted (fun a b => by_group a b = true) t ->
  exists cs, Cut cs t /\ foldl add_row ([], None) t = (summary <$> cs, head cs ≫= chunk_key).
Proof.
  induction t as [|r t IH] using rev_ind; intros Hs.
  - exists []. split; [|done]. split; [done|constructor|constructor].
  - destruct (IH (StronglySorted_app_1_l _ _ _ Hs)) as (cs & [Hw Hu Ha] & Ef). rewrite foldl_snoc, Ef. cbn.
    assert (forall x, x ∈ t -> key_le (group_key x) (group_key r) = true) as Hle.
    { intros x Hx. apply by_group_key. apply (StronglySorted_app_1_elem_of _ _ _ x r Hs Hx). by left. }
    destruct (bool_decide_reflect (head cs ≫= chunk_key = Some (group_key r))) as [E|E].
    + destruct cs as [|c cs]; [done|]. cbn in E. inversion Hu as [|? ? Huc Hus]; subst. inversion Ha as [|? ? Has Hac]; subst.
      exists ((c ++ [r]) :: cs). split; [split|].
      * cbn [rev]. rewrite !concat_app. cbn [concat]. by rewrite !app_nil_r, app_assoc.
      * constructor; [by apply uniform_snoc|done].
      * constructor; [done|]. rewrite Forall_forall in *. intros c' Hc' x y [Hx|Hx]%elem_of_app Hy; [by apply (Hac c')|].
        apply list_elem_of_singleton in Hx as ->. destruct Huc as (z & s & -> & Hz). cbn in E. assert (group_key z = group_key r) as <- by congruence. apply (Hac c' Hc' z y); [by left|done].
      * cbn. destruct Huc as (z & s & -> & Hz). unfold summary. cbn. rewrite fmap_app, existsb_app. cbn. by rewrite orb_false_r, orb_assoc.
    + exists ([r] :: cs). split; [split|].
      * cbn. rewrite concat_app, Hw. done.
      * constructor; [|done]. exists r, []. by split; [|constructor].
      * constructor; [done|]. rewrite Forall_forall. intros c' Hc' x y Hx Hy. apply list_elem_of_singleton in Hx as ->.
        assert (y ∈ t) as Hyt.
        { rewrite <- Hw. apply list_elem_of_In, in_concat. exists c'. split; [by apply in_rev, list_elem_of_In; rewrite rev_involutive|by apply list_elem_of_In]. }
        split; [by apply Hle|]. intros Ey. destruct cs as [|c cs]; [by apply not_elem_of_nil in Hc'|].
        inversion Hu as [|? ? Huc Hus]; subst. inversion Ha as [|? ? Has Hac]; subst.
        destruct Huc as (z & s & -> & Hz). cbn in E.
        apply elem_of_cons in Hc' as [->|Hc'].
        -- apply elem_of_cons in Hy as [->|Hy]; [congruence|]. rewrite Forall_forall in Hz. rewrite (Hz y Hy) in Ey. congruence.
        -- rewrite Forall_forall in Hac. destruct (Hac c' Hc' z y) as [H1 H2]; [by left|done|].
           destruct E. f_equal. symmetry. rewrite Ey in *. apply key_le_antisym; [done|]. apply Hle.
           cbn. rewrite concat_app. cbn. apply elem_of_app. right. by left.
      * unfold summary. cbn. by rewrite orb_false_r.
Qed.

Lemma chosen_app {R} (p : R -> bool) t1 t2 : select p (t1 ++ t2) = select p t1 ++ select p t2.
Proof. apply filter_app. Qed.

Lemma chosen_all {R} (p : R -> bool) t : Forall (fun r => p r = true) t -> select p t = t.
Proof. induction 1 as [|r t Hr _ IH]; [done|]. by rewrite chosen_cons, Hr, IH. Qed.

Lemma chosen_none {R} (p : R -> bool) t : Forall (fun r => p r = false) t -> select p t = [].
Proof. induction 1 as [|r t Hr _ IH]; [done|]. by rewrite chosen_cons, Hr, IH. Qed.

Lemma chosen_concat {R} (p : R -> bool) cs :
  Forall (fun c => Forall (fun r => p r = false) c) cs -> select p (concat cs) = [].
Proof. induction 1 as [|c cs Hc _ IH]; [done|]. cbn [concat]. by rewrite chosen_app, IH, chosen_none. Qed.

(** A piece holds its conversation whole. *)
Lemma piece_is_group a c b t r : Cut (a ++ c :: b) t -> r ∈ c -> c = select (in_group (group_key r)) t.
Proof.
  intros [<- Hu Ha] Hr. rewrite rev_app_distr. cbn [rev]. rewrite !concat_app, !chosen_app. cbn [concat].
  apply Forall_app in Hu as [_ Hu]. apply Forall_cons in Hu as [Hc _].
  rewrite app_nil_r, (chosen_all _ c).
  2:{ rewrite Forall_forall. intros x Hx. apply bool_decide_eq_true. by apply (uniform_key c). }
  rewrite !chosen_concat; [by rewrite app_nil_r| |].
  - apply Forall_rev. rewrite Forall_forall. intros c' Hc'. rewrite Forall_forall. intros x Hx. apply bool_decide_eq_false.
    pose proof (StronglySorted_app_1_elem_of _ _ _ c' c Ha Hc' (list_elem_of_here _ _)) as Hab.
    apply (Hab x r Hx Hr).
  - apply Forall_rev. rewrite Forall_forall. intros c' Hc'. rewrite Forall_forall. intros x Hx. apply bool_decide_eq_false.
    apply StronglySorted_app_1_r in Ha. inversion Ha as [|? ? _ Hab]; subst. rewrite Forall_forall in Hab.
    intros E. by apply (Hab c' Hc' r x Hr Hx).
Qed.

(** ** Row by row *)

Definition recolor (f : Messages.Row -> option text) (t : list Messages.Row) : list Messages.Row :=
  (fun r => set_category (f r) r) <$> t.

Lemma set_category_own r : set_category (Messages.row_category r) r = r.
Proof. by destruct r. Qed.

Lemma recolor_own t : recolor Messages.row_category t = t.
Proof. unfold recolor. rewrite <- (list_fmap_id t) at 2. apply list_fmap_ext. intros i r _. apply set_category_own. Qed.

Lemma recolor_update p c f t : (forall x r, p (set_category x r) = p r) ->
  update p (set_category c) (recolor f t) = recolor (fun r => if p r then c else f r) t.
Proof.
  intros Hp. unfold update, recolor. rewrite <- list_fmap_compose. apply list_fmap_ext. intros i r _. cbn.
  rewrite Hp. by destruct (p r).
Qed.

Lemma recolor_ids c f js t :
  foldl (fun t i => update (with_id i) (set_category c) t) (recolor f t) js =
  recolor (fun r => if bool_decide (Messages.id r ∈ js) then c else f r) t.
Proof.
  revert f. induction js as [|i js IH]; intros f; cbn; [done|].
  rewrite recolor_update by done. rewrite IH. apply list_fmap_ext. intros j r _. cbn. f_equal. unfold with_id.
  destruct (Z.eqb_spec (Messages.id r) i) as [->|E].
  - rewrite (bool_decide_true (i ∈ i :: js)) by by left. by destruct (bool_decide (i ∈ js)).
  - destruct (bool_decide_reflect (Messages.id r ∈ js)) as [Hin|Hn]; [by rewrite bool_decide_true by by right|].
    rewrite bool_decide_false; [done|]. by intros [|]%elem_of_cons.
Qed.

Lemma recolor_query f t i :
  query_row (with_id i) (recolor f t) = (fun r => set_category (f r) r) <$> query_row (with_id i) t.
Proof.
  unfold query_row, recolor. induction t as [|r t IH]; [done|]. cbn [fmap list_fmap].
  rewrite !chosen_cons. change (with_id i (set_category (f r) r)) with (with_id i r). by destruct (with_id i r).
Qed.

Section Judging.
Context `{Unicode} {CJ : CategoryJson} {RJ : RecipientsJson}.
Implicit Types (db : Db) (acc : text).

(** The mail of an account as [rejudge] reads it. *)
Definition read_mail db acc : list Messages.Row := order_by by_group (select (is_mail acc) (messages db)).

Definition verdict_at db cats acc (t : list Messages.Row) (i : Z) : option text :=
  (fun r => category (verdict_for db cats acc (read_row r))) <$> query_row (with_id i) t.

(** What the judging of one group makes of the categories. *)
Definition tint db cats acc only t (f : Messages.Row -> option text) (g : Group) (r : Messages.Row) : option text :=
  if (negb only || unjudged g) && bool_decide (Messages.id r ∈ ids g) then verdict_at db cats acc t (first g) else f r.

Lemma judge_group_tint db cats acc only f t n g : is_Some (query_row (with_id (first g)) t) ->
  fst (judge_group db cats acc only (recolor f t, n) g) = recolor (tint db cats acc only t f g) t.
Proof.
  intros [r Hr]. unfold judge_group, tint, verdict_at.
  destruct (only && negb (unjudged g)) eqn:Eo.
  - replace (negb only || unjudged g) with false; [done|]. by destruct only, (unjudged g).
  - replace (negb only || unjudged g) with true by (by destruct only, (unjudged g)).
    rewrite recolor_query, Hr. cbn [fmap option_fmap option_map fst]. apply recolor_ids.
Qed.

Lemma judge_groups_tint db cats acc only t gs f n :
  Forall (fun g => is_Some (query_row (with_id (first g)) t)) gs ->
  fst (foldl (judge_group db cats acc only) (recolor f t, n) gs) = recolor (foldl (tint db cats acc only t) f gs) t.
Proof.
  revert f n. induction gs as [|g gs IH]; intros f n Hgs; [done|]. apply Forall_cons in Hgs as [Hg Hgs]. cbn [foldl].
  pose proof (judge_group_tint db cats acc only f t n g Hg) as E.
  destruct (judge_group db cats acc only (recolor f t, n) g) as [t' n']. cbn in E. subst t'. by apply IH.
Qed.

Lemma tint_other db cats acc only t gs f r :
  Forall (fun g => Messages.id r ∉ ids g) gs -> foldl (tint db cats acc only t) f gs r = f r.
Proof.
  revert f. induction gs as [|g gs IH]; intros f Hgs; [done|]. apply Forall_cons in Hgs as [Hg Hgs]. cbn.
  rewrite IH by done. unfold tint. by rewrite (bool_decide_false (Messages.id r ∈ ids g)), andb_false_r.
Qed.

Lemma tint_own db cats acc only t gs1 g gs2 f r :
  Messages.id r ∈ ids g -> Forall (fun g => Messages.id r ∉ ids g) gs1 -> Forall (fun g => Messages.id r ∉ ids g) gs2 ->
  foldl (tint db cats acc only t) f (gs1 ++ g :: gs2) r =
  if negb only || unjudged g then verdict_at db cats acc t (first g) else f r.
Proof.
  intros Hr H1 H2. rewrite foldl_app. cbn [foldl]. rewrite tint_other by done. unfold tint at 1.
  rewrite (bool_decide_true (Messages.id r ∈ ids g)), andb_true_r by done. rewrite tint_other by done. done.
Qed.

(** *** The groups of an account *)

Definition unique_ids db : Prop := NoDup (Messages.id <$> messages db).

Lemma elem_of_read_mail db acc r : r ∈ read_mail db acc <-> r ∈ messages db /\ is_mail acc r = true.
Proof. unfold read_mail. rewrite order_by_perm. apply elem_of_select. Qed.

Lemma read_mail_ids db acc : unique_ids db -> NoDup (Messages.id <$> read_mail db acc).
Proof.
  intros Hu. unfold read_mail. rewrite order_by_perm. eapply sublist_NoDup; [exact Hu|]. apply fmap_sublist, sublist_filter.
Qed.

Lemma groups_cut db acc : exists cs, Cut cs (read_mail db acc) /\ groups_of db acc = rev (summary <$> cs).
Proof.
  destruct (add_row_cut (read_mail db acc)) as (cs & Hc & Ef).
  { apply order_by_sorted; [apply by_group_total|apply by_group_trans]. }
  exists cs. split; [done|]. unfold groups_of. unfold read_mail in Ef. by rewrite Ef.
Qed.

Lemma id_unique db r r' : unique_ids db -> r ∈ messages db -> r' ∈ messages db -> Messages.id r = Messages.id r' -> r = r'.
Proof. intros Hu Hr Hr' E. by apply (key_unique Messages.id (Messages.id r') (messages db)); rewrite ?bool_decide_eq_true. Qed.

Lemma piece_read cs db acc c r : Cut cs (read_mail db acc) -> c ∈ cs -> r ∈ c -> r ∈ messages db /\ is_mail acc r = true.
Proof.
  intros [Hw _ _] Hc Hr. apply elem_of_read_mail. rewrite <- Hw. apply list_elem_of_In, in_concat.
  exists c. split; [by rewrite <- in_rev; apply list_elem_of_In|by apply list_elem_of_In].
Qed.

Lemma elem_of_ids db acc cs c r : unique_ids db -> Cut cs (read_mail db acc) -> c ∈ cs -> r ∈ messages db ->
  Messages.id r ∈ ids (summary c) <-> r ∈ c.
Proof.
  intros Hu Hcut Hc Hr. cbn. rewrite list_elem_of_fmap. split; [|by exists r].
  intros (r' & E & Hr'). destruct (piece_read _ _ _ _ _ Hcut Hc Hr') as [Hin _]. by rewrite (id_unique db r r').
Qed.

Lemma group_own db acc r : unique_ids db -> r ∈ messages db -> is_mail acc r = true ->
  exists gs1 gs2, groups_of db acc = gs1 ++ summary (select (in_group (group_key r)) (read_mail db acc)) :: gs2 /\
    Forall (fun g => Messages.id r ∉ ids g) gs1 /\ Forall (fun g => Messages.id r ∉ ids g) gs2.
Proof.
  intros Hu Hr Hm. destruct (groups_cut db acc) as (cs & Hcut & ->).
  assert (exists c, c ∈ cs /\ r ∈ c) as (c & Hc & Hrc).
  { assert (r ∈ concat (rev cs)) as Hin by (rewrite (cut_whole _ _ Hcut); by apply elem_of_read_mail).
    apply list_elem_of_In, in_concat in Hin as (c & Hc & Hin). exists c. split; [|by apply list_elem_of_In].
    apply list_elem_of_In. by apply in_rev. }
  pose proof Hc as (a & b & ->)%list_elem_of_split. pose proof (piece_is_group a c b _ r Hcut Hrc) as Ec.
  assert (forall c', c' ∈ a ++ b -> Messages.id r ∉ ids (summary c')) as Hother.
  { intros c' Hc' Hin. assert (c' ∈ a ++ c :: b) as Hc'' by (revert Hc'; rewrite !elem_of_app, elem_of_cons; tauto).
    apply (elem_of_ids db acc _ c' r Hu Hcut Hc'' Hr) in Hin.
    apply elem_of_app in Hc' as [Hc'|Hc'].
    - destruct (StronglySorted_app_1_elem_of _ _ _ c' c (cut_apart _ _ Hcut) Hc' (list_elem_of_here _ _) r r Hin Hrc) as [_ []]. done.
    - pose proof (StronglySorted_app_1_r _ _ _ (cut_apart _ _ Hcut)) as Ha. inversion Ha as [|? ? _ Hab]; subst.
      rewrite Forall_forall in Hab. destruct (Hab c' Hc' r r Hrc Hin) as [_ []]. done. }
  exists (rev (summary <$> b)), (rev (summary <$> a)). rewrite <- Ec. split; [|split].
  - rewrite fmap_app, rev_app_distr. cbn [fmap list_fmap rev]. by rewrite <- app_assoc.
  - apply Forall_rev, Forall_fmap, Forall_forall. intros c' Hc'. apply Hother. apply elem_of_app. by right.
  - apply Forall_rev, Forall_fmap, Forall_forall. intros c' Hc'. apply Hother. apply elem_of_app. by left.
Qed.

Lemma group_other db acc r : unique_ids db -> r ∈ messages db -> is_mail acc r = false ->
  Forall (fun g => Messages.id r ∉ ids g) (groups_of db acc).
Proof.
  intros Hu Hr Hm. destruct (groups_cut db acc) as (cs & Hcut & ->). apply Forall_rev, Forall_fmap, Forall_forall.
  intros c Hc Hin. apply (elem_of_ids db acc cs c r Hu Hcut Hc Hr) in Hin.
  destruct (piece_read _ _ _ _ _ Hcut Hc Hin) as [_ Hm']. congruence.
Qed.

Lemma groups_found db acc : unique_ids db -> Forall (fun g => is_Some (query_row (with_id (first g)) (messages db))) (groups_of db acc).
Proof.
  intros Hu. destruct (groups_cut db acc) as (cs & Hcut & ->). apply Forall_rev, Forall_fmap, Forall_forall. intros c Hc.
  pose proof (cut_uniform _ _ Hcut) as Hun. rewrite Forall_forall in Hun. destruct (Hun c Hc) as (r & c' & -> & _).
  destruct (piece_read _ _ _ _ r Hcut Hc) as [Hin _]; [by left|]. cbn.
  destruct (query_row (with_id (Messages.id r)) (messages db)) eqn:E; [done|].
  pose proof (proj1 (query_row_None _ _) E r Hin) as Hf. unfold with_id in Hf. by rewrite Z.eqb_refl in Hf.
Qed.

Lemma own_ids db acc r : r ∈ messages db -> is_mail acc r = true ->
  Messages.id r ∈ ids (summary (select (in_group (group_key r)) (read_mail db acc))).
Proof.
  intros Hr Hm. cbn. apply list_elem_of_fmap_2, elem_of_select. rewrite elem_of_read_mail. split; [done|]. by apply bool_decide_eq_true.
Qed.

(** ** The result of judging *)

(** A conversation that holds a message not judged yet. *)
Definition is_open db acc (r : Messages.Row) : bool :=
  existsb (fun m => is_mail acc m && in_group (group_key r) m && is_unjudged m) (messages db).

(** The newest message of a conversation in its folder. *)
Definition newest_of db acc (k : text * text) : option Messages.Row :=
  head (order_by newer (select (fun m => is_mail acc m && in_group k m) (messages db))).

Definition placed db acc (r : Messages.Row) : option text :=
  (fun m => category (verdict_for db (list_categories db) acc (read_row m))) <$> newest_of db acc (group_key r).

Lemma select_select {R} (p q : R -> bool) t : select p (select q t) = select (fun r => q r && p r) t.
Proof.
  induction t as [|r t IH]; [done|]. rewrite !chosen_cons. destruct (q r) eqn:Eq; cbn [andb]; [|done].
  rewrite chosen_cons, IH. done.
Qed.

Lemma group_newest db acc k :
  select (in_group k) (read_mail db acc) = order_by newer (select (fun m => is_mail acc m && in_group k m) (messages db)).
Proof.
  unfold read_mail. rewrite (select_order_by by_group newer), select_select.
  - done.
  - apply by_group_total.
  - apply by_group_trans.
  - intros a b Ha%bool_decide_eq_true Hb%bool_decide_eq_true. unfold by_group. by rewrite bool_decide_true by congruence.
Qed.

Lemma newest_first db acc k r : r ∈ messages db -> is_mail acc r = true -> group_key r = k ->
  exists m, newest_of db acc k = Some m /\ m ∈ messages db /\ is_mail acc m = true /\ group_key m = k.
Proof.
  intros Hr Hm Hk. unfold newest_of.
  assert (r ∈ order_by newer (select (fun m => is_mail acc m && in_group k m) (messages db))) as Hin.
  { rewrite order_by_perm. apply elem_of_select. split; [done|]. unfold in_group. by rewrite Hm, bool_decide_true. }
  destruct (order_by newer _) as [|m l] eqn:E; [by apply not_elem_of_nil in Hin|].
  exists m. split; [done|]. assert (m ∈ m :: l) as Hm' by by left.
  rewrite <- E, order_by_perm in Hm'. apply elem_of_select in Hm' as [Hmi [Hmm Hmk%bool_decide_eq_true]%andb_true_iff]. done.
Qed.

Lemma verdict_first db acc r : unique_ids db -> r ∈ messages db -> is_mail acc r = true ->
  verdict_at db (list_categories db) acc (messages db) (first (summary (select (in_group (group_key r)) (read_mail db acc))))
  = placed db acc r.
Proof.
  intros Hu Hr Hm. destruct (newest_first db acc (group_key r) r Hr Hm eq_refl) as (m & Hn & Hmi & _ & _).
  unfold placed. rewrite Hn. unfold newest_of in Hn. rewrite group_newest. unfold summary. rewrite Hn. cbn. unfold verdict_at.
  destruct (query_row (with_id (Messages.id m)) (messages db)) as [m'|] eqn:E.
  - apply query_row_Some in E as [Hm' Hi%Z.eqb_eq]. by rewrite (id_unique db m' m).
  - pose proof (proj1 (query_row_None _ _) E m Hmi) as Hf. unfold with_id in Hf. by rewrite Z.eqb_refl in Hf.
Qed.

Lemma unjudged_group db acc k :
  unjudged (summary (select (in_group k) (read_mail db acc))) = existsb (fun m => is_mail acc m && in_group k m && is_unjudged m) (messages db).
Proof.
  cbn. apply eq_bool_prop_intro. rewrite !Is_true_true, !existsb_exists. split.
  - intros (m & Hm%list_elem_of_In & Hu). apply elem_of_select in Hm as [[Hin Hmail]%elem_of_read_mail Hk].
    exists m. split; [by apply list_elem_of_In|]. by rewrite Hmail, Hk.
  - intros (m & Hm%list_elem_of_In & [[Hmail Hk]%andb_true_iff Hu]%andb_true_iff). exists m. split; [|done].
    apply list_elem_of_In, elem_of_select. by rewrite elem_of_read_mail.
Qed.

(** A look judges the conversations that are open, or all of them. *)
Lemma rejudge_rows db acc only : unique_ids db ->
  messages (fst (rejudge db acc only)) =
  (fun r => if is_mail acc r && (negb only || is_open db acc r) then set_category (placed db acc r) r else r) <$> messages db.
Proof.
  intros Hu. unfold rejudge. destruct (only && _) eqn:E0.
  - apply andb_true_iff in E0 as [-> Hn%negb_true_iff]. cbn [fst]. rewrite <- (list_fmap_id (messages db)) at 1.
    apply list_fmap_ext. intros i r Hr%list_elem_of_lookup_2. cbn [negb orb id].
    destruct (is_mail acc r && is_open db acc r) eqn:E; [|done]. apply andb_true_iff in E as [_ Ho]. exfalso.
    revert Ho. unfold is_open. rewrite existsb_exists. intros (m & Hm & [[Hmail _]%andb_true_iff Huj]%andb_true_iff).
    rewrite <- not_true_iff_false, existsb_exists in Hn. apply Hn. exists m. by rewrite Hmail.
  - destruct (foldl _ _ _) as [msgs judged] eqn:Ef. cbn [fst with_messages messages].
    pose proof (judge_groups_tint db (list_categories db) acc only (messages db) (groups_of db acc) Messages.row_category 0%nat
      (groups_found db acc Hu)) as E. rewrite recolor_own, Ef in E. cbn [fst] in E. rewrite E.
    apply list_fmap_ext. intros i r Hr%list_elem_of_lookup_2. destruct (is_mail acc r) eqn:Em; cbn [andb].
    + destruct (group_own db acc r Hu Hr Em) as (gs1 & gs2 & -> & H1 & H2). rewrite tint_own; [|by apply own_ids|done|done].
      rewrite unjudged_group. fold (is_open db acc r).
      destruct (negb only || is_open db acc r); [|by apply set_category_own]. f_equal. by apply verdict_first.
    + rewrite tint_other by by apply group_other. apply set_category_own.
Qed.

End Judging.
End CategoryLaws.

(** * The verdicts kept are the verdicts due

    Whatever is saved, corrected, judged, deleted or has arrived, a message is
    to be judged, or the newest of its conversation is, or it is where that
    one puts it ([settled]): so judging only what is new comes to judging everything, and
    the counts agree with the reasons. *)

#[local] Open Scope Z_scope.

Module CategoryKept.
Import Categories CategoryLaws.

(** A change that leaves what is judged by as it was. *)
Record keeps (f : Messages.Row -> Messages.Row) : Prop := {
  keeps_id r : Messages.id (f r) = Messages.id r;
  keeps_account r : Messages.account (f r) = Messages.account r;
  keeps_uid r : Messages.row_uid (f r) = Messages.row_uid r;
  keeps_date r : Messages.row_date (f r) = Messages.row_date r;
  keeps_folder r : Messages.row_folder (f r) = Messages.row_folder r;
  keeps_key r : Messages.row_thread_key (f r) = Messages.row_thread_key r;
  keeps_subject r : Messages.row_subject (f r) = Messages.row_subject r;
  keeps_from_name r : Messages.row_from_name (f r) = Messages.row_from_name r;
  keeps_from_addr r : Messages.row_from_addr (f r) = Messages.row_from_addr r;
  keeps_to r : Messages.json_to (f r) = Messages.json_to r;
  keeps_cc r : Messages.json_cc (f r) = Messages.json_cc r;
}.

#[local] Arguments address_form : simpl never.

Section Kept.
Context `{Unicode} {CJ : CategoryJson} {RJ : RecipientsJson}.
Implicit Types (db : Db) (acc : text) (f : Messages.Row -> Messages.Row).

Lemma keeps_read f r : keeps f -> read_row (f r) = read_row r.
Proof.
  intros []. unfold read_row, Messages.sql_thread_key.
  by rewrite keeps_key0, keeps_uid0, keeps_subject0, keeps_from_name0, keeps_from_addr0, keeps_to0, keeps_cc0.
Qed.

Lemma keeps_group f r : keeps f -> group_key (f r) = group_key r.
Proof. intros []. unfold group_key, Messages.sql_thread_key. by rewrite keeps_key0, keeps_uid0, keeps_folder0. Qed.

Lemma keeps_mail f acc r : keeps f -> is_mail acc (f r) = is_mail acc r.
Proof. intros []. unfold is_mail. by rewrite keeps_account0, keeps_uid0. Qed.

Lemma keeps_newer f a b : keeps f -> newer (f a) (f b) = newer a b.
Proof. intros []. unfold newer. by rewrite !keeps_date0, !keeps_uid0. Qed.

Lemma keeps_if (p : Messages.Row -> bool) g : keeps g -> keeps (fun r => if p r then g r else r).
Proof. intros []. split; intros r; by destruct (p r). Qed.

Lemma keeps_recolor (s : Messages.Row -> option text) : keeps (fun r => set_category (s r) r).
Proof. by split. Qed.

Lemma order_by_ext {R} (le le' : R -> R -> bool) t : (forall a b, le a b = le' a b) -> order_by le t = order_by le' t.
Proof.
  intros Hle. induction t as [|r t IH]; [done|]. cbn. rewrite IH. generalize (order_by le' t). intros l.
  induction l as [|x l IHl]; cbn; [done|]. by rewrite Hle, IHl.
Qed.

Lemma select_fmap {R S} (g : R -> S) (p : S -> bool) t : select p (g <$> t) = g <$> select (fun r => p (g r)) t.
Proof. induction t as [|r t IH]; [done|]. cbn [fmap list_fmap]. rewrite !chosen_cons, IH. by destruct (p (g r)). Qed.

Lemma select_ext {R} (p q : R -> bool) t : (forall r, r ∈ t -> p r = q r) -> select p t = select q t.
Proof.
  induction t as [|r t IH]; [done|]. intros Hpq. rewrite !chosen_cons, Hpq by by left.
  rewrite IH; [done|]. intros x Hx. apply Hpq. by right.
Qed.

Lemma newest_keeps f db db' acc k : keeps f -> messages db' = f <$> messages db -> newest_of db' acc k = f <$> newest_of db acc k.
Proof.
  intros Hf E. unfold newest_of. rewrite E, select_fmap, order_by_fmap.
  rewrite (order_by_ext _ newer) by (intros a b; by apply keeps_newer).
  rewrite (select_ext _ (fun m => is_mail acc m && in_group k m)).
  - by destruct (order_by _ _).
  - intros r _. unfold in_group. by rewrite keeps_mail, keeps_group.
Qed.

(** ** What is settled *)

(** SQLite's [lower] gives what the engine makes of the address. *)
Definition plain_sender (r : Messages.Row) : Prop :=
  to_ascii_lowercase (unwrap_or [] (Messages.row_from_addr r)) = address_form (unwrap_or [] (Messages.row_from_addr r)).

(** The message itself, or the newest of its conversation, is to be judged;
    or it is where the newest puts it. *)
Definition due db acc (r : Messages.Row) : Prop :=
  Messages.row_category r = None \/
  (exists m, newest_of db acc (group_key r) = Some m /\ Messages.row_category m = None) \/
  Messages.row_category r = placed db acc r.

Record settled db : Prop := {
  settled_ids : unique_ids db;
  settled_plain : Forall plain_sender (messages db);
  settled_due acc r : r ∈ messages db -> is_mail acc r = true -> due db acc r
}.

Lemma is_open_spec db acc r : is_open db acc r = true <->
  exists m, m ∈ messages db /\ is_mail acc m = true /\ group_key m = group_key r /\ Messages.row_category m = None.
Proof.
  unfold is_open. rewrite existsb_exists. split.
  - intros (m & Hm%list_elem_of_In & [[Hmm Hk%bool_decide_eq_true]%andb_true_iff Hc%bool_decide_eq_true]%andb_true_iff). by exists m.
  - intros (m & Hm%list_elem_of_In & Hmm & Hk & Hc). exists m. split; [done|]. unfold in_group, is_unjudged.
    by rewrite Hmm, !bool_decide_true.
Qed.

Lemma keeps_ids f db db' : keeps f -> messages db' = f <$> messages db -> unique_ids db -> unique_ids db'.
Proof.
  intros Hf E. unfold unique_ids. rewrite E, <- list_fmap_compose.
  replace (Messages.id ∘ f <$> messages db) with (Messages.id <$> messages db); [done|].
  apply list_fmap_ext. intros i r _. symmetry. apply (keeps_id f Hf).
Qed.

Lemma keeps_plain_senders f db db' : keeps f -> messages db' = f <$> messages db -> Forall plain_sender (messages db) -> Forall plain_sender (messages db').
Proof.
  intros Hf -> Hp. apply Forall_fmap. eapply Forall_impl; [exact Hp|]. intros r. cbn. unfold plain_sender. by rewrite (keeps_from_addr f Hf).
Qed.

(** A conversation whose verdict is what it was stays settled. *)
Lemma due_kept f db db' acc r : keeps f -> messages db' = f <$> messages db ->
  (forall m, Messages.row_category m = None -> Messages.row_category (f m) = None) ->
  (Messages.row_category (f r) = Messages.row_category r) ->
  (forall m, newest_of db acc (group_key r) = Some m ->
     verdict_for db' (list_categories db') acc (read_row m) = verdict_for db (list_categories db) acc (read_row m)) ->
  due db acc r -> due db' acc (f r).
Proof.
  intros Hf E Hn Hc Hv [Hu|[(m & Hm & Hu)|Hd]].
  - left. by rewrite Hc.
  - right. left. exists (f m). rewrite keeps_group, (newest_keeps f db db'), Hm by done. auto.
  - right. right. rewrite Hc, Hd. unfold placed. rewrite keeps_group, (newest_keeps f db db') by done.
    destruct (newest_of db acc (group_key r)) as [m|]; [|done]. cbn. by rewrite keeps_read, Hv.
Qed.

Lemma newest_of_in db acc k m : newest_of db acc k = Some m -> m ∈ messages db /\ is_mail acc m = true /\ group_key m = k.
Proof.
  unfold newest_of. intros Hm%head_Some_elem_of. rewrite order_by_perm in Hm.
  by apply elem_of_select in Hm as [Hmi [Hmm Hk%bool_decide_eq_true]%andb_true_iff].
Qed.

Lemma due_open db acc r : r ∈ messages db -> is_mail acc r = true -> due db acc r ->
  is_open db acc r = true \/ Messages.row_category r = placed db acc r.
Proof.
  intros Hr Hm [Hu|[(m & Hn & Hu)|Hp]]; [left|left|by right]; apply is_open_spec.
  - by exists r.
  - apply newest_of_in in Hn as (Hmi & Hmm & Hk). by exists m.
Qed.

Lemma newest_snoc db acc k r :
  let db' := with_messages (fun t => t ++ [r]) db in
  newest_of db' acc k = newest_of db acc k \/ newest_of db' acc k = Some r.
Proof.
  unfold newest_of. cbn [with_messages messages]. rewrite chosen_app, (chosen_cons _ r []).
  destruct (is_mail acc r && in_group k r); [|left; by rewrite app_nil_r].
  generalize (select (fun m => is_mail acc m && in_group k m) (messages db)). intros t. cbn.
  induction t as [|x t IH]; [by right|]. cbn [app order_by].
  destruct (order_by newer (t ++ [r])) as [|a la] eqn:Ea, (order_by newer t) as [|b lb] eqn:Eb; cbn in *.
  - by left.
  - destruct IH as [IH|IH]; done.
  - destruct IH as [IH|[= ->]]; [done|]. destruct (newer x r); [by left|by right].
  - destruct IH as [[= ->]|[= ->]].
    + left. by destruct (newer x b).
    + destruct (newer x r) eqn:Er; [|by right]. destruct (newer x b) eqn:Exb; [by left|exfalso].
      assert (newer b x = true) as Hbx by (destruct (newest_total b x) as [|H']; [done|congruence]).
      assert (newer r b = true) as Hrb.
      { assert (StronglySorted (fun a b => newer a b = true) (order_by newer (t ++ [r]))) as Hs
          by (apply order_by_sorted; [apply newest_total|apply newest_trans]).
        rewrite Ea in Hs. assert (b ∈ r :: la) as Hb.
        { rewrite <- Ea, order_by_perm. apply elem_of_app. left. rewrite <- (order_by_perm newer t), Eb. by left. }
        apply elem_of_cons in Hb as [->|Hb]; [by destruct (newest_total r r)|].
        inversion Hs as [|? ? _ Hall]; subst. rewrite Forall_forall in Hall. by apply Hall. }
      pose proof (newest_trans _ _ _ Er Hrb). congruence.
Qed.

(** ** What changes the tables *)

(** A conversation of a folder that keeps a message keeps its newest. *)
Definition keeps_newest db (p : Messages.Row -> bool) : Prop :=
  forall acc r, r ∈ messages db -> is_mail acc r = true -> p r = false ->
    newest_of (with_messages (delete_where p) db) acc (group_key r) = newest_of db acc (group_key r).

Inductive step db : Db -> Prop :=
| deletes p : keeps_newest db p -> step db (with_messages (delete_where p) db)
| arrives r : Messages.row_category r = None -> plain_sender r -> Messages.id r ∉ Messages.id <$> messages db ->
    step db (with_messages (fun t => t ++ [r]) db)
| is_marked f : keeps f -> (forall r, Messages.row_category (f r) = Messages.row_category r) ->
    step db (with_messages (fun t => f <$> t) db)
| saves cats db' : save db cats = Ok db' -> step db db'
| corrects_conversation acc key c db' : correct_conversation db acc key c = Ok db' -> step db db'
| corrects_sender acc addr c db' : correct_sender db acc addr c = Ok db' -> step db db'
| judges acc only : step db (fst (rejudge db acc only)).

Definition empty : Db := {| messages := []; inbox_categories := []; category_threads := []; category_senders := [] |}.

Lemma settled_arrives db r : settled db -> Messages.row_category r = None -> plain_sender r ->
  Messages.id r ∉ Messages.id <$> messages db -> settled (with_messages (fun t => t ++ [r]) db).
Proof.
  intros [Hu Hp Hd] Hc Hpr Hid. split; cbn.
  - unfold unique_ids. cbn. rewrite fmap_app. apply NoDup_app. split; [done|]. split; [|by apply NoDup_singleton].
    intros i Hi Hi'. apply list_elem_of_singleton in Hi'. by subst.
  - apply Forall_app. by repeat constructor.
  - intros acc m [Hm|Hm%list_elem_of_singleton]%elem_of_app Hmm; [|subst; by left].
    destruct (newest_snoc db acc (group_key m) r) as [En|En]; [|right; left; by exists r].
    unfold due, placed. rewrite En. exact (Hd acc m Hm Hmm).
Qed.

Lemma settled_deletes db p : settled db -> keeps_newest db p -> settled (with_messages (delete_where p) db).
Proof.
  intros [Hu Hp Hd] Hk. split.
  - by apply (delete_where_key Messages.id).
  - rewrite Forall_forall in *. intros r [Hr _]%elem_of_delete_where. by apply Hp.
  - intros acc r [Hr Hpr]%elem_of_delete_where Hm. pose proof (Hk acc r Hr Hm Hpr) as En.
    destruct (Hd acc r Hr Hm) as [Hc|[(m & Hn & Hc)|Hc]]; [by left|right; left; exists m; by rewrite En|right; right].
    rewrite Hc. unfold placed. rewrite En. done.
Qed.

Lemma settled_marked db f : settled db -> keeps f -> (forall r, Messages.row_category (f r) = Messages.row_category r) ->
  settled (with_messages (fun t => f <$> t) db).
Proof.
  intros [Hu Hp Hd] Hf Hc. split.
  - by apply (keeps_ids f db).
  - by apply (keeps_plain_senders f db).
  - intros acc r (r0 & -> & Hr0)%list_elem_of_fmap Hm. rewrite keeps_mail in Hm by done.
    apply (due_kept f db); try done; [|by apply Hd]. intros m Em. by rewrite Hc.
Qed.

Lemma settled_unjudged db db' f : settled db -> keeps f -> messages db' = f <$> messages db ->
  (forall acc r, r ∈ messages db -> is_mail acc r = true -> due db acc r -> due db' acc (f r)) -> settled db'.
Proof.
  intros [Hu Hp Hd] Hf E Hdue. split; [by apply (keeps_ids f db)|by apply (keeps_plain_senders f db)|].
  intros acc r Hr Hm. rewrite E in Hr. apply list_elem_of_fmap in Hr as (r0 & -> & Hr0). rewrite keeps_mail in Hm by done.
  apply Hdue; [done..|]. by apply Hd.
Qed.

Lemma settled_saves db cats db' : settled db -> save db cats = Ok db' -> settled db'.
Proof.
  intros Hs E. unfold save in E. destruct (validate cats) as [u|i]; [|done]. injection E as <-.
  apply (settled_unjudged db _ (set_category None) Hs); [by split|done|]. intros acc r Hr Hm _. by left.
Qed.

(** A correction is of one conversation, or of one sender. *)
Lemma replaced_other {R} (q same : R -> bool) r t : q r = false -> (forall x, same x = true -> q x = false) ->
  query_row q (insert_or_replace same r t) = query_row q t.
Proof.
  intros Hr Hs. unfold insert_or_replace. rewrite query_row_app, query_row_delete_other, query_row_singleton, Hr by done.
  by destruct (query_row q t).
Qed.

Lemma correct_conversation_effect db acc key c db' : correct_conversation db acc key c = Ok db' ->
  messages db' = update (in_thread acc key) (set_category None) (messages db) /\
  inbox_categories db' = inbox_categories db /\ category_senders db' = category_senders db /\
  forall acc' key', acc' <> acc \/ key' <> key -> conversation_correction db' acc' key' = conversation_correction db acc' key'.
Proof.
  assert (forall acc' key', acc' <> acc \/ key' <> key -> forall x, same_thread acc key x = true -> same_thread acc' key' x = false) as Hx.
  { intros acc' key' Hne x. unfold same_thread. rewrite andb_true_iff, andb_false_iff, !bool_decide_eq_true, !bool_decide_eq_false.
    intros [<- <-]. destruct Hne; [left|right]; congruence. }
  unfold correct_conversation, write_conversation, reset_conversation, conversation_correction. destruct c as [i|]; cbn.
  - destruct (known db i); [|done]. cbn. intros [= <-]. split_and!; try done. intros acc' key' Hne. cbn. f_equal.
    apply replaced_other; [|by apply Hx]. apply (Hx _ _ Hne). unfold same_thread. cbn. by rewrite !bool_decide_true.
  - intros [= <-]. split_and!; try done. intros acc' key' Hne. cbn. f_equal. by apply query_row_delete_other, Hx.
Qed.

Lemma correct_sender_effect db acc addr c db' : correct_sender db acc addr c = Ok db' ->
  messages db' = update (is_from acc (address_form addr)) (set_category None) (messages db) /\
  inbox_categories db' = inbox_categories db /\ category_threads db' = category_threads db /\
  forall acc' addr', acc' <> acc \/ address_form addr' <> address_form addr -> sender_correction db' acc' addr' = sender_correction db acc' addr'.
Proof.
  assert (forall acc' addr', acc' <> acc \/ address_form addr' <> address_form addr ->
    forall x, same_sender acc (address_form addr) x = true -> same_sender acc' (address_form addr') x = false) as Hx.
  { intros acc' addr' Hne x. unfold same_sender. rewrite andb_true_iff, andb_false_iff, !bool_decide_eq_true, !bool_decide_eq_false.
    intros [E1 E2]. destruct Hne; [left|right]; congruence. }
  unfold correct_sender, write_sender, reset_sender, sender_correction.
  destruct (is_empty (address_form addr)); [done|]. destruct c as [i|]; cbn.
  - destruct (known db i); [|done]. cbn. intros [= <-]. split_and!; try done. intros acc' addr' Hne. cbn. f_equal.
    apply replaced_other; [|by apply Hx]. apply (Hx _ _ Hne). unfold same_sender. cbn. by rewrite !bool_decide_true.
  - intros [= <-]. split_and!; try done. intros acc' addr' Hne. cbn. f_equal. by apply query_row_delete_other, Hx.
Qed.

Lemma same_verdict db db' acc m : inbox_categories db' = inbox_categories db ->
  conversation_correction db' acc (thread_key m) = conversation_correction db acc (thread_key m) ->
  sender_correction db' acc (from_addr m) = sender_correction db acc (from_addr m) ->
  verdict_for db' (list_categories db') acc m = verdict_for db (list_categories db) acc m.
Proof. intros E1 E2 E3. unfold verdict_for, list_categories. by rewrite E1, E2, E3. Qed.

Lemma updated p f (t : list Messages.Row) : update p f t = (fun r => if p r then f r else r) <$> t.
Proof. done. Qed.

Lemma settled_corrects_conversation db acc key c db' : settled db -> correct_conversation db acc key c = Ok db' -> settled db'.
Proof.
  intros Hs (E & Ei & Es & Hc)%correct_conversation_effect. rewrite updated in E.
  assert (keeps (fun r => if in_thread acc key r then set_category None r else r)) as Hk by (by apply keeps_if).
  apply (settled_unjudged db _ _ Hs Hk E). intros acc' r Hr Hm Hd. destruct (in_thread acc key r) eqn:Et.
  - by left.
  - pose proof (due_kept _ db db' acc' r Hk E) as Hdue. cbn beta in Hdue. rewrite Et in Hdue. apply Hdue; [|done| |done].
    { intros m Hcm. by destruct (in_thread acc key m). }
    intros m Hn. unfold newest_of in Hn. apply head_Some_elem_of in Hn. rewrite order_by_perm in Hn.
    apply elem_of_select in Hn as [Hmi [Hmm Hg%bool_decide_eq_true]%andb_true_iff].
    apply same_verdict; [done| |unfold sender_correction; by rewrite Es]. apply Hc. cbn.
    replace (Messages.sql_thread_key m) with (Messages.sql_thread_key r) by (by injection Hg as _ ->).
    unfold is_mail in Hm. apply andb_true_iff in Hm as [Ha%bool_decide_eq_true _].
    unfold in_thread in Et. apply andb_false_iff in Et. rewrite !bool_decide_eq_false in Et. rewrite Ha in Et. done.
Qed.

Lemma settled_corrects_sender db acc addr c db' : settled db -> correct_sender db acc addr c = Ok db' -> settled db'.
Proof.
  intros Hs (E & Ei & Es & Hc)%correct_sender_effect. rewrite updated in E. set (p := is_from acc (address_form addr)) in *.
  assert (keeps (fun r => if p r then set_category None r else r)) as Hk by (by apply keeps_if).
  apply (settled_unjudged db _ _ Hs Hk E). intros acc' r Hr Hm Hd. destruct (p r) eqn:Ep; [by left|].
  destruct (newest_first db acc' (group_key r) r Hr Hm eq_refl) as (m & Hn & Hmi & Hmm & Hg). destruct (p m) eqn:Epm.
  - right. left. exists (set_category None m). split; [|done]. rewrite (newest_keeps _ db db' acc' _ Hk E), Hn. cbn. by rewrite Epm.
  - pose proof (due_kept _ db db' acc' r Hk E) as Hdue. cbn beta in Hdue. rewrite Ep in Hdue. apply Hdue; [|done| |done].
    { intros x Hcx. by destruct (p x). }
    intros m' Hn'. rewrite Hn in Hn'. injection Hn' as <-.
    apply same_verdict; [done|unfold conversation_correction; by rewrite Es|]. apply Hc. cbn.
    unfold p, is_from in Epm. apply andb_false_iff in Epm. rewrite !bool_decide_eq_false in Epm.
    unfold is_mail in Hmm. apply andb_true_iff in Hmm as [Ha%bool_decide_eq_true _]. rewrite Ha in Epm.
    destruct Epm as [|Epm]; [by left|right]. pose proof (settled_plain db Hs) as Hp. rewrite Forall_forall in Hp. by rewrite <- (Hp m Hmi).
Qed.


Definition same_tables db db' : Prop :=
  inbox_categories db' = inbox_categories db /\ category_threads db' = category_threads db /\ category_senders db' = category_senders db.

Lemma placed_keeps f db db' acc r : keeps f -> messages db' = f <$> messages db -> same_tables db db' ->
  placed db' acc (f r) = placed db acc r.
Proof.
  intros Hf E (Ei & Et & Es). unfold placed. rewrite keeps_group, (newest_keeps f db db') by done.
  destruct (newest_of db acc (group_key r)) as [m|]; [|done]. cbn. rewrite keeps_read by done. f_equal.
  rewrite (same_verdict db db'); [done|done| |]; unfold conversation_correction, sender_correction; by rewrite ?Et, ?Es.
Qed.

Lemma rejudge_tables db acc only : same_tables db (fst (rejudge db acc only)).
Proof. unfold rejudge, same_tables. destruct (only && _); [done|]. by destruct (foldl _ _ _). Qed.

Definition judge_row db acc only (r : Messages.Row) : Messages.Row :=
  if is_mail acc r && (negb only || is_open db acc r) then set_category (placed db acc r) r else r.

Lemma keeps_judge db acc only : keeps (judge_row db acc only).
Proof. split; intros r; unfold judge_row; by destruct (_ && _). Qed.

Lemma one_account acc acc' r : is_mail acc r = true -> is_mail acc' r = true -> acc = acc'.
Proof. unfold is_mail. rewrite !andb_true_iff, !bool_decide_eq_true. intros [<- _] [<- _]. done. Qed.

Lemma settled_judges db acc only : settled db -> settled (fst (rejudge db acc only)).
Proof.
  intros Hs. pose proof (rejudge_rows db acc only (settled_ids db Hs)) as E. fold (judge_row db acc only) in E.
  pose proof (keeps_judge db acc only) as Hk. pose proof (rejudge_tables db acc only) as Ht.
  apply (settled_unjudged db _ _ Hs Hk E). intros acc' r Hr Hm Hd.
  assert (placed (fst (rejudge db acc only)) acc' (judge_row db acc only r) = placed db acc' r) as Hp by by apply placed_keeps.
  destruct (is_mail acc r && (negb only || is_open db acc r)) eqn:Ec.
  - right. right. rewrite Hp. unfold judge_row. rewrite Ec. apply andb_true_iff in Ec as [Hm' _]. by rewrite (one_account acc' acc r).
  - assert (judge_row db acc only r = r) as Er by (unfold judge_row; by rewrite Ec).
    destruct Hd as [Hu|[(m & Hn & Hu)|Hc]]; [left; by rewrite Er| |right; right; by rewrite Hp, Er].
    right. left. exists m. split; [|done]. rewrite keeps_group, (newest_keeps _ db _ acc' _ Hk E), Hn by done. cbn. f_equal.
    destruct (newest_of_in _ _ _ _ Hn) as (Hmi & Hmm & Hg). unfold judge_row.
    destruct (is_mail acc m) eqn:E'; [|done]. exfalso. assert (acc' = acc) as -> by by apply (one_account _ _ m).
    assert (is_open db acc r = true) as Ho by (apply is_open_spec; by exists m). by rewrite Hm, Ho, orb_true_r in Ec.
Qed.

Lemma settled_step db db' : step db db' -> settled db -> settled db'.
Proof.
  destruct 1; intros Hs; eauto using settled_deletes, settled_arrives, settled_marked, settled_saves, settled_corrects_conversation,
    settled_corrects_sender, settled_judges.
Qed.

Lemma settled_reach db : rtc step empty db -> settled db.
Proof.
  intros Hr. assert (settled empty) as He.
  { split; [by apply NoDup_nil|constructor|]. intros acc r Hr'. by apply not_elem_of_nil in Hr'. }
  induction Hr; eauto using settled_step.
Qed.

Lemma same_db db db' : messages db' = messages db -> same_tables db db' -> db' = db.
Proof. destruct db, db'. cbn. intros -> (H1 & H2 & H3). cbn in *. by subst. Qed.

Lemma rejudge_new_all db acc : settled db -> fst (rejudge db acc true) = fst (rejudge db acc false).
Proof.
  intros Hs. pose proof (rejudge_tables db acc true) as (A1 & A2 & A3). pose proof (rejudge_tables db acc false) as (B1 & B2 & B3).
  apply same_db; [|split_and!; congruence]. rewrite !rejudge_rows by apply (settled_ids db Hs).
  apply list_fmap_ext. intros i r Hr%list_elem_of_lookup_2. cbn [negb orb].
  destruct (is_mail acc r) eqn:Em; [|done]. cbn [andb]. destruct (due_open db acc r Hr Em (settled_due db Hs acc r Hr Em)) as [->|Hc]; [done|].
  destruct (is_open db acc r); [done|]. by rewrite <- Hc, set_category_own.
Qed.

(** C24. Whatever was saved, corrected, marked or judged before and has arrived
    since, each correction to its end, from senders whose address SQLite
    lowers as the engine does ([plain_sender]), and whatever was deleted that
    left each conversation of a folder its newest message or nothing: judging
    only the conversations that hold a message not judged yet leaves the
    tables as judging every conversation of the account does.  Another
    deletion and a correction stopped halfway leave verdicts behind: see
    [a_deletion_leaves_its_verdict] and [a_stop_leaves_the_verdicts]. *)
Theorem judging_the_new_is_enough db acc : rtc step empty db -> fst (rejudge db acc true) = fst (rejudge db acc false).
Proof. intros Hs%settled_reach. by apply rejudge_new_all. Qed.

End Kept.
End CategoryKept.

(** * The counts of the tabs

    A conversation is counted in the category its reason names, each once
    ([counted_where_the_reason_says]); and a small mailbox on which the
    judging runs, with what a deletion leaves behind. *)

#[local] Open Scope Z_scope.

Module CategoryCounts.
Import Categories CategoryLaws CategoryKept.

Definition of_thread (k : text) (r : Messages.Row) : bool := bool_decide (Messages.sql_thread_key r = k).

Lemma elem_of_first_of_thread seen l r : r ∈ first_of_thread seen l <->
  Messages.sql_thread_key r ∉ seen /\ head (select (of_thread (Messages.sql_thread_key r)) l) = Some r.
Proof.
  revert seen. induction l as [|x l IH]; intros seen; cbn [first_of_thread].
  { split; [by intros ?%not_elem_of_nil|by intros [_ H]]. }
  rewrite chosen_cons. unfold of_thread at 1.
  destruct (bool_decide_reflect (Messages.sql_thread_key x ∈ seen)) as [Hx|Hx];
    destruct (bool_decide_reflect (Messages.sql_thread_key x = Messages.sql_thread_key r)) as [E|E].
  - rewrite IH, <- E. split; intros [? _]; done.
  - apply IH.
  - rewrite elem_of_cons, IH, E. cbn. split.
    + intros [->|[Hn _]]; [done|]. destruct Hn. by left.
    + intros [_ [= ->]]. by left.
  - rewrite elem_of_cons, IH, elem_of_cons. split.
    + intros [->|[Hn Hh]]; [done|]. split; [|done]. intros Hs. apply Hn. by right.
    + intros [Hn Hh]. right. split; [|done]. intros [Ek|Hs]; [by rewrite Ek in E|done].
Qed.

Lemma first_of_thread_NoDup seen l : NoDup (Messages.sql_thread_key <$> first_of_thread seen l).
Proof.
  revert seen. induction l as [|x l IH]; intros seen; cbn [first_of_thread]; [constructor|].
  destruct (bool_decide (Messages.sql_thread_key x ∈ seen)); [done|]. cbn. constructor; [|done].
  intros (r & E & Hr)%list_elem_of_fmap. apply elem_of_first_of_thread in Hr as [Hn _]. apply Hn. rewrite E. by left.
Qed.

(** Sorted into categories, every row is counted once. *)
Lemma sum_cons {K} (g : K -> nat) c ks : list_sum (g <$> c :: ks) = (g c + list_sum (g <$> ks))%nat.
Proof. done. Qed.

Lemma sum_of_ones {K} `{EqDecision K} (k : K) ks : NoDup ks -> k ∈ ks ->
  list_sum ((fun c => if bool_decide (k = c) then 1%nat else 0%nat) <$> ks) = 1%nat.
Proof.
  intros Hnd Hk. induction Hnd as [|c ks Hc Hnd IH]; [by apply not_elem_of_nil in Hk|].
  rewrite sum_cons. destruct (bool_decide_reflect (k = c)) as [->|E].
  - assert (list_sum ((fun d => if bool_decide (c = d) then 1%nat else 0%nat) <$> ks) = 0%nat) as ->; [|done].
    clear -Hc. induction ks as [|d ks IH]; [done|]. rewrite sum_cons. rewrite bool_decide_false; [apply IH|]; intros ?; apply Hc; subst; [by right|by left].
  - apply IH. by apply elem_of_cons in Hk as [|].
Qed.

Lemma counted_once {R K} `{EqDecision K} (g : R -> K) (ks : list K) (l : list R) :
  NoDup ks -> (forall r, r ∈ l -> g r ∈ ks) ->
  list_sum ((fun c => length (select (fun r => bool_decide (g r = c)) l)) <$> ks) = length l.
Proof.
  intros Hnd. induction l as [|r l IH]; intros Hin.
  - cbn. clear. induction ks as [|c ks IH]; [done|]. cbn. apply IH.
  - pose proof (sum_of_ones (g r) ks Hnd (Hin r (list_elem_of_here _ _))) as Hone.
    specialize (IH (fun x Hx => Hin x (list_elem_of_further _ _ _ Hx))). cbn [length]. rewrite <- IH, <- (Nat.add_1_l (list_sum _)), <- Hone.
    clear. induction ks as [|c ks IH]; [done|]. rewrite !sum_cons, chosen_cons, IH. destruct (bool_decide (g r = c)); cbn [length]; lia.
Qed.

Lemma list_sum_perm (a b : list nat) : a ≡ₚ b -> list_sum a = list_sum b.
Proof. unfold list_sum. induction 1; cbn in *; lia. Qed.

Lemma select_perm {R} (p : R -> bool) (a b : list R) : a ≡ₚ b -> length (select p a) = length (select p b).
Proof. intros E. unfold select. by rewrite E. Qed.

Section Counts.
Context `{Unicode} {CJ : CategoryJson} {RJ : RecipientsJson}.

(** The conversations of a folder. *)
Definition threads (db : Db) (acc fol : text) : list text :=
  remove_dups (Messages.sql_thread_key <$> select (mail_in acc fol) (messages db)).

Definition whose_reason (db : Db) (acc fol c k : text) : bool := bool_decide (category <$> reason db acc fol k = Some c).

(** A message of it in the folder was not read. *)
Definition holds_unread (db : Db) (acc fol k : text) : bool :=
  existsb (fun m => mail_in acc fol m && (Messages.row_seen m =? 0) && of_thread k m) (messages db).

Definition only_mail (db : Db) (acc : text) : Prop :=
  Forall (fun r => Messages.account r = acc -> Messages.row_uid r <> 0) (messages db).

Lemma threads_newest db acc fol : Messages.sql_thread_key <$> newest db acc fol ≡ₚ threads db acc fol.
Proof.
  apply NoDup_Permutation; [apply first_of_thread_NoDup|apply NoDup_remove_dups|]. intros k. unfold threads, newest.
  rewrite elem_of_remove_dups, !list_elem_of_fmap. split.
  - intros (r & -> & Hr). exists r. split; [done|]. apply elem_of_first_of_thread in Hr as [_ Hh%head_Some_elem_of].
    apply elem_of_select in Hh as [Hr _]. by rewrite order_by_perm in Hr.
  - intros (r & -> & Hr). assert (r ∈ select (of_thread (Messages.sql_thread_key r)) (order_by newer (select (mail_in acc fol) (messages db)))) as Hin.
    { apply elem_of_select. split; [by rewrite order_by_perm|by apply bool_decide_eq_true]. }
    destruct (select (of_thread _) _) as [|m l] eqn:E; [by apply not_elem_of_nil in Hin|].
    assert (m ∈ m :: l) as Hm by by left. rewrite <- E in Hm. apply elem_of_select in Hm as [_ Hk%bool_decide_eq_true].
    exists m. split; [done|]. apply elem_of_first_of_thread. split; [apply not_elem_of_nil|]. by rewrite Hk, E.
Qed.

Lemma newest_is_newest db acc fol r : r ∈ newest db acc fol ->
  r ∈ messages db /\ is_mail acc r = true /\ group_key r = (fol, Messages.sql_thread_key r) /\
  newest_of db acc (group_key r) = Some r.
Proof.
  intros Hr. apply elem_of_first_of_thread in Hr as [_ Hh]. pose proof Hh as Hin%head_Some_elem_of.
  apply elem_of_select in Hin as [Hin _]. rewrite order_by_perm in Hin. apply elem_of_select in Hin as [Hin Hf].
  unfold mail_in in Hf. apply andb_true_iff in Hf as [Hm Hf%bool_decide_eq_true].
  assert (group_key r = (fol, Messages.sql_thread_key r)) as Hg by (unfold group_key; by rewrite Hf).
  split_and!; [done..|]. rewrite (select_order_by newer newer) in Hh by (done || apply newest_total || apply newest_trans).
  rewrite select_select in Hh. unfold newest_of. rewrite <- Hh. do 2 f_equal. apply select_ext. intros m _.
  unfold mail_in, in_group, of_thread. rewrite Hg. unfold group_key. rewrite <- andb_assoc. f_equal.
  apply eq_bool_prop_intro. rewrite andb_True, !bool_decide_spec. split; [by intros [= -> ->]|by intros [-> ->]].
Qed.

(** The reason given for a conversation is the verdict due. *)
Lemma reason_due db acc fol r : only_mail db acc -> r ∈ newest db acc fol ->
  category <$> reason db acc fol (Messages.sql_thread_key r) = placed db acc r.
Proof.
  intros Hmail Hr. apply newest_is_newest in Hr as (Hin & Hm & Hg & Hn). unfold reason, placed.
  assert (head (order_by newer (select (of_conversation acc fol (Messages.sql_thread_key r)) (messages db))) = newest_of db acc (group_key r)) as ->.
  { unfold newest_of. do 2 f_equal. apply select_ext. intros m Hmi. unfold only_mail in Hmail. rewrite Forall_forall in Hmail. specialize (Hmail m Hmi).
    unfold of_conversation, is_mail, in_group. rewrite Hg. unfold group_key.
    destruct (bool_decide_reflect (Messages.account m = acc)) as [E|E]; [|done]. cbn [andb].
    rewrite (proj2 (Z.eqb_neq _ _) (Hmail E)). cbn [negb andb].
    apply eq_bool_prop_intro. rewrite andb_True, !bool_decide_spec. split; [by intros [-> ->]|by intros [= -> ->]]. }
  by rewrite Hn.
Qed.

Lemma judged_all db acc r : settled db -> r ∈ messages (fst (rejudge db acc false)) -> is_mail acc r = true ->
  Messages.row_category r = placed (fst (rejudge db acc false)) acc r.
Proof.
  intros Hs. pose proof (rejudge_rows db acc false (settled_ids db Hs)) as E. fold (judge_row db acc false) in E.
  rewrite E. intros (r0 & -> & Hr0)%list_elem_of_fmap. pose proof (keeps_judge db acc false) as Hk. rewrite keeps_mail by done. intros Hm.
  rewrite (placed_keeps (judge_row db acc false) db) by (done || apply rejudge_tables). unfold judge_row. by rewrite Hm.
Qed.

(** C25. In an account without rows of uid 0, from tables reached by steps whose
    deletions leave each conversation its newest message or nothing: the
    counts of a folder, each category once, say of the category how many
    conversations of the folder have a reason that names it, and how many of
    those hold an unread message; and their sum is the number of
    conversations. *)
Theorem counted_where_the_reason_says db acc fol : rtc step empty db -> only_mail db acc ->
  let '(db', cs) := counts db acc fol in
  Forall (fun c =>
    conversations c = length (select (whose_reason db' acc fol (count_category c)) (threads db' acc fol)) /\
    unread c = length (select (fun k => whose_reason db' acc fol (count_category c) k && holds_unread db' acc fol k)
                         (threads db' acc fol))) (counts_of cs) /\
  NoDup (count_category <$> counts_of cs) /\ all_conversations cs = length (threads db' acc fol).
Proof.
  intros Hr Hmail. unfold counts. apply settled_reach in Hr. rewrite (rejudge_new_all db acc Hr). cbn [counts_of all_conversations].
  set (db' := fst (rejudge db acc false)).
  assert (only_mail db' acc) as Hmail'.
  { unfold only_mail, db'. rewrite rejudge_rows by apply (settled_ids db Hr). fold (judge_row db acc false). apply Forall_fmap.
    eapply Forall_impl; [exact Hmail|]. cbn. intros r. by rewrite (keeps_account _ (keeps_judge db acc false)), (keeps_uid _ (keeps_judge db acc false)). }
  assert (forall r, r ∈ newest db' acc fol -> category <$> reason db' acc fol (Messages.sql_thread_key r) = Some (shown_category r)) as Hdue.
  { intros r Hin. rewrite reason_due by done. pose proof Hin as (Hin' & Hm & _ & Hn)%newest_is_newest.
    pose proof (judged_all db acc r Hr Hin' Hm) as Hc. fold db' in Hc. unfold shown_category. rewrite Hc. unfold placed. by rewrite Hn. }
  assert (forall c r, r ∈ newest db' acc fol ->
    whose_reason db' acc fol c (Messages.sql_thread_key r) = in_category c r) as Hsame.
  { intros c r Hin. unfold in_category, whose_reason. rewrite (Hdue r Hin).
    apply bool_decide_ext. split; [by intros [= ->]|by intros ->]. }
  split; [|split].
  - unfold count_rows. apply Forall_fmap, Forall_forall. intros c _. cbn.
    rewrite <- !(select_perm _ _ _ (threads_newest db' acc fol)), !select_fmap, !length_fmap.
    split; f_equal; apply select_ext; intros r Hin; by rewrite Hsame.
  - unfold count_rows. rewrite <- list_fmap_compose. change (count_category ∘ _) with (fun c : text => c).
    rewrite list_fmap_id, order_by_perm. apply NoDup_remove_dups.
  - rewrite <- (Permutation_length (threads_newest db' acc fol)), length_fmap. unfold count_rows. rewrite <- list_fmap_compose.
    rewrite (list_sum_perm _ ((fun c => length (select (in_category c) (newest db' acc fol))) <$> remove_dups (shown_category <$> newest db' acc fol))).
    + apply counted_once; [apply NoDup_remove_dups|]. intros r Hin. apply elem_of_remove_dups. by apply list_elem_of_fmap_2.
    + apply fmap_Permutation, order_by_perm.
Qed.

(** The set saved is the set listed. *)
Lemma saved_categories_listed db cats db' : (forall c, category_from_str (category_to_string c) = Some c) ->
  save db cats = Ok db' -> list_categories db' = cats.
Proof.
  intros Hj E. unfold save in E. destruct (validate cats); [|done]. injection E as <-. unfold list_categories. cbn.
  assert (forall n, order_by by_position (imap (fun i c => stored (n + i) c) cats) = imap (fun i c => stored (n + i) c) cats) as Hs.
  { induction cats as [|c cats IH]; intros n; [done|]. cbn [imap order_by].
    assert (imap ((fun i c => stored (n + i) c) ∘ S) cats = imap (fun i c => stored (S n + i) c) cats) as -> by (apply imap_ext; intros; cbn; f_equal; lia).
    rewrite IH. destruct cats as [|c' cats]; [done|]. cbn. unfold by_position, stored. cbn. destruct (Z.leb_spec (Z.of_nat (n + 0)) (Z.of_nat (S (n + 0)))); [done|lia]. }
  change (imap stored cats) with (imap (fun i c => stored (0 + i) c) cats). rewrite (Hs 0%nat). clear Hs. assert (forall n, omap (fun r => category_from_str (json r)) (imap (fun i c => stored (n + i) c) cats) = cats) as Hl; [|by apply (Hl 0%nat)].
  induction cats as [|c cats IH]; intros n; [done|]. cbn. rewrite Hj. f_equal.
  rewrite <- (IH (S n)) at 2. f_equal. apply imap_ext. intros. cbn. f_equal. lia.
Qed.

End Counts.
(** ** A small mailbox *)

Module Demo.

Definition news : Category :=
  {| id := lit "n"; name := lit "News"; colour := lit "#00aaff"; match_mode := Rules.Any;
     conditions := [{| Rules.field := Rules.SubjectField; Rules.op := Rules.Contains; Rules.value := lit "news" |}] |}.
Definition work : Category :=
  {| id := lit "w"; name := lit "Work"; colour := lit "#ff0000"; match_mode := Rules.Any; conditions := [] |}.

#[export] Instance demo_json : CategoryJson :=
  {| category_to_string := id; category_from_str t := find_by (fun c => bool_decide (id c = t)) [news; work] |}.
#[export] Instance demo_recipients : RecipientsJson := fun _ => None.

Definition mail (i uid date : Z) (key subject from : string) : Messages.Row :=
  {| Messages.id := i; Messages.account := lit "a"; Messages.row_folder := lit "INBOX"; Messages.msg_id := show_Z uid;
     Messages.row_uid := uid; Messages.row_subject := Some (lit subject); Messages.row_from_name := None;
     Messages.row_from_addr := Some (lit from); Messages.row_date := date; Messages.row_seen := 0; Messages.row_starred := 0;
     Messages.row_thread_key := Some (lit key); Messages.json_to := None; Messages.json_cc := None;
     Messages.json_message_id := None; Messages.json_in_reply_to := None; Messages.row_has_attachments := None;
     Messages.row_priority := None; Messages.row_category := None |}.

Definition arrive (db : Db) (r : Messages.Row) : Db := with_messages (fun t => t ++ [r]) db.
Definition done_or (db : Db) (r : result Error Db) : Db := match r with Ok d => d | Err _ => db end.

Definition db1 : Db := arrive (done_or empty (save empty [news; work])) (mail 1 1 10 "t" "the news" "ann@x").
Definition db2 : Db := arrive (arrive (fst (rejudge db1 (lit "a") true)) (mail 2 2 20 "t" "an answer" "bob@x")) (mail 3 3 5 "u" "hello" "bob@x").
Definition db3 : Db := done_or db2 (correct_sender (fst (rejudge db2 (lit "a") true)) (lit "a") (lit " Bob@x") (Some (lit "w"))).

Lemma db3_reached : rtc step empty db3.
Proof.
  apply (rtc_l _ _ (done_or empty (save empty [news; work]))); [by apply (saves _ [news; work]); vm_compute|].
  apply (rtc_l _ _ db1); [apply arrives; [done|vm_compute; done|vm_compute; by intros ?%not_elem_of_nil]|].
  apply (rtc_l _ _ (fst (rejudge db1 (lit "a") true))); [apply judges|].
  apply (rtc_l _ _ (arrive (fst (rejudge db1 (lit "a") true)) (mail 2 2 20 "t" "an answer" "bob@x"))).
  { apply arrives; [done|vm_compute; done|]. by apply (bool_decide_unpack _); vm_compute. }
  apply (rtc_l _ _ db2); [apply arrives; [done|vm_compute; done|by apply (bool_decide_unpack _); vm_compute]|].
  apply (rtc_l _ _ (fst (rejudge db2 (lit "a") true))); [apply judges|].
  apply rtc_once. apply (corrects_sender _ (lit "a") (lit " Bob@x") (Some (lit "w"))). by vm_compute.
Qed.

(** An answer comes back, and the message it answered is deleted. *)
Definition db4 : Db := with_messages (delete_where (with_id 1)) (arrive db3 (mail 4 4 30 "t" "thanks" "ann@x")).

Lemma db4_reached : rtc step empty db4.
Proof.
  apply (rtc_r _ (arrive db3 (mail 4 4 30 "t" "thanks" "ann@x"))).
  { apply (rtc_r _ db3); [exact db3_reached|].
    apply arrives; [done|vm_compute; done|by apply (bool_decide_unpack _); vm_compute]. }
  apply deletes. intros acc r Hr Hm _.
  assert (acc = lit "a") as ->.
  { unfold is_mail in Hm. apply andb_true_iff in Hm as [<-%bool_decide_eq_true _].
    assert (Forall (fun r => Messages.account r = lit "a") (messages (arrive db3 (mail 4 4 30 "t" "thanks" "ann@x")))) as Ha
      by (apply (bool_decide_unpack _); vm_compute; done).
    rewrite Forall_forall in Ha. by apply Ha. }
  assert (Forall (fun k => newest_of db4 (lit "a") k = newest_of (arrive db3 (mail 4 4 30 "t" "thanks" "ann@x")) (lit "a") k)
    (group_key <$> messages (arrive db3 (mail 4 4 30 "t" "thanks" "ann@x")))) as Hn.
  { vm_compute. repeat constructor. }
  rewrite Forall_forall in Hn. apply Hn. by apply list_elem_of_fmap_2.
Qed.

Lemma judging_the_new_is_enough_witness :
  rtc step empty db4 /\ fst (rejudge db4 (lit "a") true) = fst (rejudge db4 (lit "a") false) /\
  Messages.row_category <$> messages db4 = [None; None; None].
Proof.
  split; [exact db4_reached|]. split; [|by vm_compute].
  apply (judging_the_new_is_enough db4 (lit "a")), db4_reached.
Defined.

Lemma counted_where_the_reason_says_witness :
  only_mail db3 (lit "a") /\
  let '(db', cs) := counts db3 (lit "a") (lit "INBOX") in
  Forall (fun c =>
    conversations c = length (select (whose_reason db' (lit "a") (lit "INBOX") (count_category c)) (threads db' (lit "a") (lit "INBOX"))) /\
    unread c = length (select (fun k => whose_reason db' (lit "a") (lit "INBOX") (count_category c) k
                                        && holds_unread db' (lit "a") (lit "INBOX") k)
                         (threads db' (lit "a") (lit "INBOX")))) (counts_of cs) /\
  NoDup (count_category <$> counts_of cs) /\ all_conversations cs = length (threads db' (lit "a") (lit "INBOX")).
Proof.
  assert (only_mail db3 (lit "a")) as Hm by (apply (bool_decide_unpack _); vm_compute; done).
  split; [exact Hm|]. apply (counted_where_the_reason_says db3 (lit "a") (lit "INBOX")); [exact db3_reached|exact Hm].
Defined.

Example the_counts : snd (counts db3 (lit "a") (lit "INBOX")) =
  {| counts_of := [{| count_category := lit "w"; conversations := 2; unread := 2 |}]; all_conversations := 2; all_messages := 3 |}.
Proof. by vm_compute. Qed.

(** What the reader said of a sender, stopped before the messages are to be
    judged again: they stay counted where they were, while the reason names
    what was said. *)
Definition half_corrected : Db :=
  done_or db2 (write_sender (fst (rejudge db2 (lit "a") true)) (lit "a") (lit "bob@x") (Some (lit "w"))).

Example a_stop_leaves_the_verdicts :
  count_category <$> counts_of (snd (counts half_corrected (lit "a") (lit "INBOX"))) = [lit ""] /\
  reason half_corrected (lit "a") (lit "INBOX") (lit "u") = Some {| category := lit "w"; reason_of := Sender (lit "bob@x") |}.
Proof. by vm_compute. Qed.

(** A message deleted takes its verdict with it, and the others of its
    conversation keep the verdict it gave them: they are counted there while
    the reason names another category. *)
Definition deleted : Db := with_messages (delete_where (with_id 2)) (fst (rejudge db3 (lit "a") true)).

Example a_deletion_leaves_its_verdict :
  count_category <$> counts_of (snd (counts deleted (lit "a") (lit "INBOX"))) = [lit "w"] /\
  reason deleted (lit "a") (lit "INBOX") (lit "t") = Some {| category := lit "n"; reason_of := Conditions [0%nat] |}.
Proof. by vm_compute. Qed.

End Demo.
End CategoryCounts.
