(* ===== verification/PersonGroups.v ===== *)
(** * The groups of people suggested

    The union-find of [PersonLinks.suggestions] answers with any fuel above
    the number of pairs, and what it gives are the connected components of
    the pairs, in order: whatever the order of the two hash maps
    ([suggestions_are_components]).  A pair the reader dismissed is in one
    group all the same when a third person is like both
    ([a_dismissed_pair_is_suggested]). *)
From stdpp Require Import relations.
From S2P Require Import Prelude.
From S2P Require Import Text.
From S2P Require Import Table.
From S2P Require Import PersonLinks.

#[local] Open Scope Z_scope.

Module PersonGroups.
Import PersonLinks.

(** ** The forest

    [top] is who stands for each person and [depth] how far that is. *)
Record Forest (p : gmap text text) (top : text -> text) (depth : text -> nat) : Prop := {
  forest_step i : match p !! i with
                  | None => top i = i
                  | Some u => if bool_decide (u = i) then top i = i else top i = top u /\ (depth u < depth i)%nat
                  end;
  forest_roots i : top i = i -> depth i = 0%nat;
  forest_closed i u : p !! i = Some u -> u ∈ dom p;
}.

Lemma forest_top p top depth i : Forest p top depth -> top (top i) = top i /\ (depth (top i) <= depth i)%nat.
Proof.
  intros HF. remember (depth i) as n eqn:En. revert i En. induction n as [n IH] using lt_wf_ind. intros i ->.
  pose proof (forest_step _ _ _ HF i) as Hs. destruct (p !! i) as [u|]; [|by rewrite !Hs].
  destruct (bool_decide_reflect (u = i)) as [E|Hne]; [by rewrite !Hs|].
  destruct Hs as [Ht Hd]. destruct (IH (depth u) Hd u eq_refl) as [H1 H2]. rewrite Ht. split; [done|lia].
Qed.

Lemma root_depth p top depth i : Forest p top depth -> depth (top i) = 0%nat.
Proof. intros HF. apply (forest_roots _ _ _ HF). by apply (forest_top p top depth). Qed.

Lemma top_in_dom p top depth i : Forest p top depth -> i ∈ dom p -> top i ∈ dom p.
Proof.
  intros HF. remember (depth i) as n eqn:En. revert i En. induction n as [n IH] using lt_wf_ind. intros i -> Hi.
  pose proof (forest_step _ _ _ HF i) as Hs. apply elem_of_dom in Hi as [u Hu]. rewrite Hu in Hs.
  destruct (bool_decide_reflect (u = i)) as [E|Hne]; [rewrite Hs; by apply elem_of_dom|].
  destruct Hs as [-> Hd]. apply (IH (depth u)); [done..|]. by apply (forest_closed _ _ _ HF i).
Qed.

(** Finding a root answers, and keeps who stands for whom. *)
Lemma root_spec fuel p top depth i : Forest p top depth -> (depth i < fuel)%nat ->
  exists p', root fuel p i = Some (p', top i) /\ Forest p' top depth /\ dom p' = dom p.
Proof.
  revert p i. induction fuel as [|fuel IH]; intros p i HF Hd; [lia|]. cbn.
  pose proof (forest_step _ _ _ HF i) as Hs. destruct (p !! i) as [u|] eqn:Ei; cbn.
  - destruct (bool_decide_reflect (u = i)) as [E|Hne].
    + exists p. by rewrite Hs, E.
    + destruct Hs as [Ht Hlt]. destruct (IH p u HF) as (p' & -> & HF' & Hdom); [lia|]. cbn.
      exists (<[i := top u]> p'). rewrite Ht. split; [done|]. split; [|rewrite dom_insert_L, Hdom; apply elem_of_dom_2 in Ei; set_solver].
      destruct (forest_top p top depth u HF) as [Htt Htd].
      split; [|apply (forest_roots _ _ _ HF)|].
      2:{ intros j v. rewrite dom_insert_L, elem_of_union, Hdom. destruct (decide (j = i)) as [->|Hj].
          - rewrite lookup_insert_eq. intros [= <-]. right. apply (top_in_dom p top depth); [done|]. by apply (forest_closed _ _ _ HF i).
          - rewrite lookup_insert_ne by done. intros Hj'. right. rewrite <- Hdom. by apply (forest_closed _ _ _ HF' j). }
      intros j. destruct (decide (j = i)) as [->|Hj].
      * rewrite lookup_insert_eq. rewrite bool_decide_false.
        -- split; [congruence|lia].
        -- intros E. rewrite <- E in Ht. rewrite Htt in Ht. rewrite E in Ht. pose proof (forest_roots _ _ _ HF i). rewrite E in *. lia.
      * rewrite lookup_insert_ne by done. apply (forest_step _ _ _ HF' j).
  - rewrite bool_decide_true by done. exists p. by rewrite Hs.
Qed.

Lemma forest_entry p top depth i : Forest p top depth -> Forest (or_insert i p) top depth.
Proof.
  intros HF. unfold or_insert. destruct (p !! i) as [u|] eqn:Ei; [done|].
  split; [|apply (forest_roots _ _ _ HF)|].
  2:{ intros j v. rewrite dom_insert_L, elem_of_union. destruct (decide (j = i)) as [->|Hj].
      - rewrite lookup_insert_eq. intros [= <-]. left. by apply elem_of_singleton.
      - rewrite lookup_insert_ne by done. intros Hj'. right. by apply (forest_closed _ _ _ HF j). }
  intros j. destruct (decide (j = i)) as [->|Hj].
  - rewrite lookup_insert_eq, bool_decide_true by done. pose proof (forest_step _ _ _ HF i) as Hs. by rewrite Ei in Hs.
  - rewrite lookup_insert_ne by done. apply (forest_step _ _ _ HF j).
Qed.

Lemma dom_entry i p : dom (or_insert i p) = dom p ∪ {[i]}.
Proof.
  unfold or_insert. destruct (p !! i) eqn:Ei; [apply elem_of_dom_2 in Ei; set_solver|]. rewrite dom_insert_L. set_solver.
Qed.

(** ** Joining two *)

Definition top_joined (top : text -> text) (ra rb i : text) : text := if bool_decide (top i = ra) then rb else top i.
Definition depth_joined (top : text -> text) (depth : text -> nat) (ra i : text) : nat :=
  if bool_decide (top i = ra) then S (depth i) else depth i.

Lemma forest_join p top depth a b : Forest p top depth -> b ∈ dom p -> top a <> top b ->
  Forest (<[top a := top b]> p) (top_joined top (top a) (top b)) (depth_joined top depth (top a)).
Proof.
  intros HF Hb' Hab. destruct (forest_top p top depth a HF) as [Ha _], (forest_top p top depth b HF) as [Hb _].
  unfold top_joined, depth_joined. split.
  - intros j. destruct (decide (j = top a)) as [->|Hj].
    + rewrite lookup_insert_eq, bool_decide_false by congruence. rewrite Ha, Hb, (bool_decide_true (top a = top a)), bool_decide_false by congruence.
      rewrite !(root_depth p top) by done. split; [done|lia].
    + rewrite lookup_insert_ne by done. pose proof (forest_step _ _ _ HF j) as Hs. destruct (p !! j) as [u|].
      * destruct (bool_decide_reflect (u = j)) as [E|Hu]; [by rewrite Hs, bool_decide_false by congruence|].
        destruct Hs as [-> Hd]. split; [done|]. destruct (bool_decide _); lia.
      * by rewrite Hs, bool_decide_false by congruence.
  - intros j. destruct (bool_decide_reflect (top j = top a)) as [E|E].
    + intros <-. congruence.
    + apply (forest_roots _ _ _ HF).
  - intros j v. rewrite dom_insert_L, elem_of_union. destruct (decide (j = top a)) as [->|Hj].
    + rewrite lookup_insert_eq. intros [= <-]. right. by apply (top_in_dom p top depth).
    + rewrite lookup_insert_ne by done. intros Hj'. right. by apply (forest_closed _ _ _ HF j).
Qed.

(** ** The pairs gone through *)

Definition joined (ps : list (text * text)) (a b : text) : Prop := (a, b) ∈ ps.

Record Grouped (ps : list (text * text)) (p : gmap text text) (top : text -> text) : Prop := {
  grouped_top a b : top a = top b <-> rtsc (joined ps) a b;
  grouped_dom i : i ∈ dom p <-> i ∈ (fst <$> ps) ++ (snd <$> ps);
}.

Lemma rtsc_mono {A} (R S : relation A) a b : (forall x y, R x y -> S x y) -> rtsc R a b -> rtsc S a b.
Proof. intros HRS H. exact (rtsc_congruence id S a b HRS H). Qed.

Lemma rtsc_top {A B} (R : relation A) (f : A -> B) a b : (forall x y, R x y -> f x = f y) -> rtsc R a b -> f a = f b.
Proof. intros HR. induction 1 as [|x y z [Hxy|Hxy] _ IH]; [done| |]; rewrite <- IH; [|symmetry]; by apply HR. Qed.

Lemma joined_snoc ps a b x y : joined ps x y -> joined (ps ++ [(a, b)]) x y.
Proof. intros H. apply elem_of_app. by left. Qed.

Lemma grouped_join ps p p' top a b : Grouped ps p top -> dom p' = dom p ∪ {[a]} ∪ {[b]} ->
  Grouped (ps ++ [(a, b)]) p' (top_joined top (top a) (top b)).
Proof.
  intros [Ht Hd] Hdom. assert (rtsc (joined (ps ++ [(a, b)])) a b) as Hab.
  { apply rtsc_lr. unfold joined. apply elem_of_app. right. by left. }
  assert (forall x y, top x = top y -> rtsc (joined (ps ++ [(a, b)])) x y) as Hold.
  { intros x y E. apply Ht in E. revert E. apply rtsc_mono. intros. by apply joined_snoc. }
  split.
  - intros x y. split.
    + unfold top_joined. destruct (bool_decide_reflect (top x = top a)) as [Ex|Ex], (bool_decide_reflect (top y = top a)) as [Ey|Ey]; intros E.
      * apply Hold. congruence.
      * etrans; [by apply Hold|]. etrans; [exact Hab|]. by apply Hold.
      * etrans; [by apply Hold|]. etrans; [symmetry; exact Hab|]. by apply Hold.
      * by apply Hold.
    + apply rtsc_top. intros x' y' [H|[= -> ->]%list_elem_of_singleton]%elem_of_app; unfold top_joined.
      * assert (top x' = top y') as -> by (apply Ht; by apply rtsc_lr). done.
      * rewrite bool_decide_true by done. by destruct (bool_decide_reflect (top b = top a)).
  - intros i. rewrite Hdom, !elem_of_union, !elem_of_singleton, Hd, !fmap_app, !elem_of_app. cbn. rewrite !list_elem_of_singleton. tauto.
Qed.

Lemma join_spec fuel ps p top depth a b : Forest p top depth -> Grouped ps p top -> (forall i, depth i < fuel)%nat ->
  exists p' top' depth', join fuel p (a, b) = Some p' /\ Forest p' top' depth' /\ Grouped (ps ++ [(a, b)]) p' top' /\
    forall i, (depth' i <= S (depth i))%nat.
Proof.
  intros HF HG Hd. unfold join. cbn [fst snd].
  pose proof (forest_entry _ _ _ b (forest_entry _ _ _ a HF)) as HF0.
  destruct (root_spec fuel _ _ _ a HF0 (Hd a)) as (p1 & -> & HF1 & Hdom1). cbn.
  destruct (root_spec fuel _ _ _ b HF1 (Hd b)) as (p2 & -> & HF2 & Hdom2). cbn.
  assert (dom p2 = dom p ∪ {[a]} ∪ {[b]}) as Hdom by (by rewrite Hdom2, Hdom1, !dom_entry).
  destruct (bool_decide_reflect (top a = top b)) as [E|E].
  - exists p2, top, depth. split_and!; [done..| |lia].
    pose proof (grouped_join ps p p2 top a b HG Hdom) as HG'. split; [|apply (grouped_dom _ _ _ HG')].
    intros x y. rewrite <- (grouped_top _ _ _ HG'). unfold top_joined. rewrite E.
    destruct (bool_decide_reflect (top x = top b)) as [->|], (bool_decide_reflect (top y = top b)) as [->|]; done.
  - exists (<[top a := top b]> p2), (top_joined top (top a) (top b)), (depth_joined top depth (top a)).
    split_and!; [done|apply forest_join; [done| |done]; rewrite Hdom; set_solver| |].
    + apply grouped_join with p; [done|]. rewrite dom_insert_L, Hdom.
      assert (top a ∈ dom p ∪ {[a]} ∪ {[b]}); [|set_solver].
      rewrite <- Hdom. apply (top_in_dom p2 top depth); [done|]. rewrite Hdom. set_solver.
    + intros i. unfold depth_joined. destruct (bool_decide _); lia.
Qed.

Lemma joins_spec fuel ps1 ps2 p top depth : Forest p top depth -> Grouped ps1 p top ->
  (forall i, depth i <= length ps1)%nat -> (length ps1 + length ps2 < fuel)%nat ->
  exists p' top' depth', joins fuel p ps2 = Some p' /\ Forest p' top' depth' /\ Grouped (ps1 ++ ps2) p' top' /\
    forall i, (depth' i < fuel)%nat.
Proof.
  revert ps1 p top depth. induction ps2 as [|[a b] ps2 IH]; intros ps1 p top depth HF HG Hd Hf; cbn [joins length] in *.
  - exists p, top, depth. rewrite app_nil_r. split_and!; [done..|]. intros i. specialize (Hd i). lia.
  - destruct (join_spec fuel ps1 p top depth a b HF HG) as (p1 & top1 & depth1 & E & HF1 & HG1 & Hd1).
    { intros i. specialize (Hd i). lia. }
    rewrite E. cbn [mbind option_bind]. destruct (IH (ps1 ++ [(a, b)]) p1 top1 depth1 HF1 HG1) as (p' & top' & depth' & ? & ? & HG' & ?).
    + intros i. rewrite length_app. cbn. specialize (Hd i). specialize (Hd1 i). lia.
    + rewrite length_app. cbn. lia.
    + exists p', top', depth'. rewrite <- app_assoc in HG'. done.
Qed.

Lemma forest_empty : Forest ∅ id (fun _ => 0%nat).
Proof. split; [intros i; by rewrite lookup_empty|done|intros i u; by rewrite lookup_empty]. Qed.

Lemma grouped_empty : Grouped [] ∅ id.
Proof.
  split.
  - intros a b. split; [unfold id; by intros ->|]. apply (rtsc_top _ id). by intros x y ?%not_elem_of_nil.
  - intros i. rewrite dom_empty_L. split; [by intros ?%not_elem_of_empty|by intros ?%not_elem_of_nil].
Qed.

(** ** Filling the groups *)

Record Filled (top : text -> text) (seen : list text) (groups : gmap text (list text)) : Prop := {
  filled_some t g : groups !! t = Some g -> g <> [] /\ NoDup g /\ forall i, i ∈ g <-> i ∈ seen /\ top i = t;
  filled_none t i : groups !! t = None -> i ∈ seen -> top i <> t;
}.

Lemma filled_add top seen groups i : Filled top seen groups -> i ∉ seen ->
  Filled top (i :: seen) (<[top i := i :: unwrap_or [] (groups !! top i)]> groups).
Proof.
  intros [Hs Hn] Hi. split.
  - intros t g. destruct (decide (t = top i)) as [->|Ht].
    + rewrite lookup_insert_eq. intros [= <-]. destruct (groups !! top i) as [g|] eqn:E; cbn.
      * destruct (Hs _ _ E) as (_ & Hnd & Hg). split; [done|]. split.
        -- constructor; [|done]. by intros [? _]%Hg.
        -- intros j. rewrite !elem_of_cons, Hg. split; [intros [->|[? ?]]; auto|]. intros [[->|?] ?]; auto.
      * split; [done|]. split; [by apply NoDup_singleton|]. intros j. rewrite list_elem_of_singleton, elem_of_cons.
        split; [intros ->; auto|]. intros [[->|Hj] Ej]; [done|]. by destruct (Hn _ _ E Hj).
    + rewrite lookup_insert_ne by done. intros Hg. destruct (Hs _ _ Hg) as (H1 & H2 & H3). split_and!; [done..|].
      intros j. rewrite H3, elem_of_cons. split; [tauto|]. intros [[->|?] ?]; [by destruct Ht|done].
  - intros t j. destruct (decide (t = top i)) as [->|Ht]; [by rewrite lookup_insert_eq|]. rewrite lookup_insert_ne by done.
    intros Hg [->|Hj]%elem_of_cons; [by intros E; apply Ht|by apply Hn].
Qed.

Lemma fill_fills fuel p top depth seen groups is_ : Forest p top depth -> (forall i, depth i < fuel)%nat ->
  Filled top seen groups -> NoDup (is_ ++ seen) -> exists groups', fill fuel p groups is_ = Some groups' /\ Filled top (rev is_ ++ seen) groups'.
Proof.
  revert p seen groups. induction is_ as [|i is_ IH]; intros p seen groups HF Hd HFi Hnd; cbn [fill]; [by exists groups|].
  destruct (root_spec fuel p top depth i HF (Hd i)) as (p' & E & HF' & _). rewrite E. cbn [mbind option_bind].
  cbn in Hnd. apply NoDup_cons in Hnd as [Hi Hnd]. destruct (IH p' (i :: seen) _ HF' Hd (filled_add top seen groups i HFi ltac:(set_solver))) as (g' & E' & HF2).
  - rewrite <- Permutation_middle. by constructor.
  - exists g'. split; [done|]. cbn. by rewrite <- app_assoc.
Qed.

(** ** The components *)

Lemma list_le_refl a : list_le a a = true.
Proof. induction a as [|x a IH]; [done|]. cbn. by rewrite bool_decide_true. Qed.

Lemma list_le_total a b : list_le a b = true \/ list_le b a = true.
Proof.
  revert b. induction a as [|x a IH]; intros [|y b]; cbn; [auto..|]. destruct (bool_decide_reflect (x = y)) as [->|E].
  - rewrite bool_decide_true by done. apply IH.
  - rewrite bool_decide_false by congruence. apply text_le_total.
Qed.

Lemma list_le_trans a b c : list_le a b = true -> list_le b c = true -> list_le a c = true.
Proof.
  revert b c. induction a as [|x a IH]; intros [|y b] [|z c]; cbn; try done.
  destruct (bool_decide_reflect (x = y)) as [->|E].
  - destruct (bool_decide_reflect (y = z)) as [->|E']; [apply IH|done].
  - destruct (bool_decide_reflect (y = z)) as [->|E'].
    + by rewrite bool_decide_false.
    + intros H1 H2. destruct (bool_decide_reflect (x = z)) as [->|E'']; [|by apply (text_le_trans x y)]. by rewrite (text_le_antisym z y) in E.
Qed.

Lemma list_le_antisym a b : list_le a b = true -> list_le b a = true -> a = b.
Proof.
  revert b. induction a as [|x a IH]; intros [|y b]; cbn; try done. destruct (bool_decide_reflect (x = y)) as [->|E].
  - rewrite bool_decide_true by done. intros H1 H2. by rewrite (IH b).
  - rewrite bool_decide_false by congruence. intros H1 H2. by rewrite (text_le_antisym x y) in E.
Qed.

Definition named (ps : list (text * text)) (i : text) : Prop := i ∈ (fst <$> ps) ++ (snd <$> ps).
Lemma named_chain ps a b : named ps a -> rtsc (joined ps) a b -> named ps b.
Proof.
  intros Ha Hab. induction Hab as [|x y z [H|H] _ IH]; [done| |]; apply IH; unfold named; rewrite elem_of_app, !list_elem_of_fmap.
  - right. by exists (x, y).
  - left. by exists (y, x).
Qed.

Definition together (out : list (list text)) (a b : text) : Prop := exists g, g ∈ out /\ a ∈ g /\ b ∈ g.

(** The people named by pairs, in groups: two are in one group when a chain
    of pairs leads from one to the other.  Nobody is in two, and both the
    groups and who is in them are in order. *)
Record components (ps : list (text * text)) (out : list (list text)) : Prop := {
  comp_together a b : together out a b <-> named ps a /\ rtsc (joined ps) a b;
  comp_apart g h a : g ∈ out -> h ∈ out -> a ∈ g -> a ∈ h -> g = h;
  comp_groups : Forall (fun g => g <> [] /\ NoDup g /\ StronglySorted (fun a b => text_le a b = true) g) out;
  comp_order : StronglySorted (fun a b => list_le a b = true) out;
  comp_once : NoDup out;
}.

Lemma sorted_unique {A} (le : A -> A -> bool) (a b : list A) :
  (forall x y, le x y = true -> le y x = true -> x = y) ->
  StronglySorted (fun x y => le x y = true) a -> StronglySorted (fun x y => le x y = true) b ->
  NoDup a -> NoDup b -> (forall x, x ∈ a <-> x ∈ b) -> a = b.
Proof.
  intros Hanti Ha Hb Hna Hnb Hab.
  assert (AntiSymm (=) (fun x y => le x y = true)) by done.
  apply (StronglySorted_unique (fun x y => le x y = true)); [done..|]. by apply NoDup_Permutation.
Qed.

Lemma components_same ps out1 out2 g : components ps out1 -> components ps out2 -> g ∈ out1 -> g ∈ out2.
Proof.
  intros H1 H2 Hg. pose proof (comp_groups _ _ H1) as Hs1. rewrite Forall_forall in Hs1. destruct (Hs1 g Hg) as (Hne & Hnd & Hs).
  destruct g as [|a g]; [done|]. assert (together out1 a a) as Ha by (exists (a :: g); split_and!; [done|by left..]).
  apply (comp_together _ _ H1), (comp_together _ _ H2) in Ha as (h & Hh & Hah & _).
  pose proof (comp_groups _ _ H2) as Hs2. rewrite Forall_forall in Hs2. destruct (Hs2 h Hh) as (_ & Hnd' & Hs').
  replace (a :: g) with h; [done|]. apply (sorted_unique text_le); try done; [apply text_le_antisym|]. intros x. split; intros Hx.
  - assert (together out2 a x) as Hax by (by exists h). apply (comp_together _ _ H2), (comp_together _ _ H1) in Hax as (g' & Hg' & Hag & Hxg).
    by rewrite (comp_apart _ _ H1 (a :: g) g' a) by (done || by left).
  - assert (together out1 a x) as Hax by (exists (a :: g); split_and!; [done|by left|done]).
    apply (comp_together _ _ H1), (comp_together _ _ H2) in Hax as (h' & Hh' & Hah' & Hxh). by rewrite (comp_apart _ _ H2 h h' a).
Qed.

Lemma components_unique ps out1 out2 : components ps out1 -> components ps out2 -> out1 = out2.
Proof.
  intros H1 H2. apply (sorted_unique list_le).
  - apply list_le_antisym.
  - apply (comp_order _ _ H1).
  - apply (comp_order _ _ H2).
  - apply (comp_once _ _ H1).
  - apply (comp_once _ _ H2).
  - intros g. split; by apply (components_same ps).
Qed.

Lemma components_of_groups {OG : HashOrder text (list text)} (ps : list (text * text)) (p : gmap text text) (top : text -> text) (groups : gmap text (list text)) : Grouped ps p top ->
  (forall t g, groups !! t = Some g -> g <> [] /\ NoDup g /\ forall i, i ∈ g <-> i ∈ dom p /\ top i = t) /\
  (forall t i, groups !! t = None -> i ∈ dom p -> top i <> t) ->
  components ps (order_by list_le ((fun g => order_by text_le (snd g)) <$> iter groups)).
Proof.
  intros HG [Hs Hn]. set (out := order_by _ _).
  assert (forall g, g ∈ out <-> exists t h, groups !! t = Some h /\ g = order_by text_le h) as Hout.
  { intros g. unfold out. rewrite order_by_perm, list_elem_of_fmap. split.
    - intros ([t h] & -> & Hth%elem_of_iter). by exists t, h.
    - intros (t & h & Hth & ->). exists (t, h). split; [done|]. by apply elem_of_iter. }
  assert (forall t h i, groups !! t = Some h -> i ∈ order_by text_le h <-> i ∈ dom p /\ top i = t) as Hin.
  { intros t h i Hth. rewrite order_by_perm. by apply (Hs t h Hth). }
  assert (forall g h a, g ∈ out -> h ∈ out -> a ∈ g -> a ∈ h -> g = h) as Hap.
  { intros g h a (t & g' & Hg & ->)%Hout (t' & h' & Hh & ->)%Hout Ha Ha'. apply (Hin _ _ a Hg) in Ha as [_ <-]. apply (Hin _ _ a Hh) in Ha' as [_ <-]. congruence. }
  split.
  - intros a b. split.
    + intros (g & (t & h & Hth & ->)%Hout & [Ha <-]%(Hin _ _ a Hth) & [Hb Eb]%(Hin _ _ b Hth)). split; [by apply (grouped_dom _ _ _ HG)|].
      by apply (grouped_top _ _ _ HG).
    + intros [Ha Hab]. apply (grouped_dom _ _ _ HG) in Ha. destruct (groups !! top a) as [h|] eqn:E; [|by destruct (Hn _ a E Ha)].
      exists (order_by text_le h). split; [apply Hout; eauto|]. split; [by apply (Hin _ _ a E)|]. apply (Hin _ _ b E).
      split; [|symmetry; by apply (grouped_top _ _ _ HG)]. apply (grouped_dom _ _ _ HG). apply (grouped_dom _ _ _ HG) in Ha. by apply (named_chain ps a b).
  - exact Hap.
  - apply Forall_forall. intros g (t & h & Hth & ->)%Hout. destruct (Hs t h Hth) as (Hne & Hnd & _). split_and!.
    + intros E. apply Hne. apply Permutation_nil_r. rewrite <- E. symmetry. apply order_by_perm.
    + by rewrite order_by_perm.
    + apply order_by_sorted; [apply text_le_total|apply text_le_trans].
  - apply order_by_sorted; [apply list_le_total|apply list_le_trans].
  - unfold out. rewrite order_by_perm. assert (NoDup (iter groups)) as Hnd by (rewrite iter_perm; apply NoDup_map_to_list).
    apply NoDup_fmap_2_strong; [|done]. intros [t g] [t' h] Hg%elem_of_iter Hh%elem_of_iter E. cbn in E.
    destruct (Hs t g Hg) as (Hne & _ & _). destruct g as [|a g]; [done|].
    assert (a ∈ order_by text_le (a :: g)) as Ha by (rewrite order_by_perm; by left). pose proof Ha as Ha'. rewrite E in Ha'.
    apply (Hin _ _ a Hg) in Ha as [_ <-]. apply (Hin _ _ a Hh) in Ha' as [_ <-]. congruence.
Qed.

(** C23. Whatever order the hash maps are gone through, the groups suggested are
    the connected components of the pairs that share an address and are neither
    linked nor dismissed ([pairs]). A dismissal takes away one pair: two people
    dismissed are in one group again when other pairs join them
    ([Demo.a_dismissed_pair_is_suggested]). *)
Theorem suggestions_are_components db : exists out, components (pairs db) out /\
  forall (OP : HashOrder text text) (OG : HashOrder text (list text)), suggestions db = Some out.
Proof.
  assert (forall (OP : HashOrder text text) (OG : HashOrder text (list text)),
    exists out, components (pairs db) out /\ suggestions db = Some out) as Hall.
  { intros OP OG. unfold suggestions. set (ps := pairs db).
    destruct (joins_spec (S (length ps)) [] ps ∅ id (fun _ => 0%nat) forest_empty grouped_empty) as (p & top & depth & -> & HF & HG & Hd).
    { cbn. lia. } { cbn. lia. }
    cbn [mbind option_bind].
    assert (NoDup (iter p).*1) as Hnd by (rewrite iter_perm; apply NoDup_fst_map_to_list).
    destruct (fill_fills (S (length ps)) p top depth [] ∅ (iter p).*1 HF Hd) as (groups & -> & HFi).
    { split; [intros t g; by rewrite lookup_empty|]. intros t i _ Hi. by apply not_elem_of_nil in Hi. }
    { by rewrite app_nil_r. }
    cbn [mbind option_bind]. eexists. split; [|reflexivity]. apply (components_of_groups ps p top groups); [done|].
    rewrite app_nil_r in HFi. destruct HFi as [Hs Hn]. 
    assert (forall i, i ∈ rev (iter p).*1 <-> i ∈ dom p) as Hdom.
    { intros i. rewrite <- (Permutation_rev (iter p).*1), iter_perm, elem_of_dom. rewrite list_elem_of_fmap. split.
      - intros ([j u] & -> & Hj%elem_of_map_to_list). by exists u.
      - intros [u Hu]. exists (i, u). split; [done|]. by apply elem_of_map_to_list. }
    split.
    - intros t g Hg. destruct (Hs t g Hg) as (H1 & H2 & H3). split_and!; [done..|]. intros i. by rewrite H3, Hdom.
    - intros t i Hg Hi. apply Hn; [done|]. by apply Hdom. }
  destruct (Hall _ _) as (out & Hc & _). exists out. split; [done|]. intros OP OG. destruct (Hall OP OG) as (out' & Hc' & ->).
  by rewrite (components_unique (pairs db) out out').
Qed.

(** Three cards with one address: the reader said that two of them are not
    the same person, and the third brings them together again. *)
Module Demo.

Definition card (i a : string) : Email := {| e_person := lit i; addr := lit a |}.
Definition db : Db :=
  {| people := [lit "ana"; lit "bea"; lit "cy"];
     person_emails := [card "ana" "office@x"; card "bea" "Office@x"; card "cy" "office@x"];
     person_links := []; person_link_dismissals := [] |}.

Example all_suggested : suggestions db = Some [[lit "ana"; lit "bea"; lit "cy"]].
Proof. by vm_compute. Qed.

Example a_dismissed_pair_is_suggested :
  suggestions (dismiss db [lit "bea"; lit "ana"]) = Some [[lit "ana"; lit "bea"; lit "cy"]].
Proof. by vm_compute. Qed.

Example all_dismissed : suggestions (dismiss db [lit "bea"; lit "ana"; lit "cy"]) = Some [].
Proof. by vm_compute. Qed.

End Demo.
End PersonGroups.

(** * What linking people does

    A link takes in whoever was linked to the people joined, and nobody else
    ([linking_joins]); taking somebody out leaves the others as they were
    ([unlinking_parts]); and no link is left with one person
    ([links_are_of_two]). *)

#[local] Open Scope Z_scope.

Module PersonLinkLaws.
Import PersonLinks.

Definition one_link_each (t : list LinkRow) : Prop := NoDup (person_id <$> t).

(** Two people are shown as one. *)
Definition same_person (t : list LinkRow) (a b : text) : Prop := exists l, link_of t a = Some l /\ link_of t b = Some l.

Lemma link_of_spec t i l : one_link_each t -> link_of t i = Some l <-> {| person_id := i; link_id := l |} ∈ t.
Proof.
  intros Hnd. unfold link_of. split.
  - intros (r & [Hr Hi%bool_decide_eq_true]%query_row_Some & ->)%fmap_Some. destruct r. cbn in *. by subst.
  - intros Hr. assert (query_row (of_person i) t = Some {| person_id := i; link_id := l |}) as ->; [|done].
    by apply (query_row_key person_id i t).
Qed.

(** ** Renaming a link, and giving one *)

Lemma link_of_rename t other l i :
  link_of (update (of_link other) (set_link l) t) i = (fun k => if bool_decide (k = other) then l else k) <$> link_of t i.
Proof.
  unfold link_of. rewrite query_row_update by done. destruct (query_row (of_person i) t) as [r|]; [|done]. cbn.
  unfold of_link. by destruct (bool_decide (link_id r = other)).
Qed.

Lemma one_each_rename t other l : one_link_each t -> one_link_each (update (of_link other) (set_link l) t).
Proof. unfold one_link_each. by rewrite update_key. Qed.

Lemma link_of_give t j l i : link_of (insert_or_replace (of_person j) {| person_id := j; link_id := l |} t) i =
  if bool_decide (i = j) then Some l else link_of t i.
Proof.
  unfold link_of, insert_or_replace. rewrite query_row_app, query_row_singleton. unfold of_person at 3. cbn [person_id].
  destruct (bool_decide_reflect (i = j)) as [->|E].
  - rewrite bool_decide_true by done. destruct (query_row (of_person j) (delete_where _ t)) as [r|] eqn:Eq; [|done].
    apply query_row_Some in Eq as [[_ H1]%elem_of_delete_where H2]. congruence.
  - rewrite bool_decide_false by congruence. rewrite query_row_delete_other; [by destruct (query_row _ t)|].
    intros r Hr%bool_decide_eq_true. apply bool_decide_eq_false. congruence.
Qed.

Lemma one_each_give t j l : one_link_each t -> one_link_each (insert_or_replace (of_person j) {| person_id := j; link_id := l |} t).
Proof.
  intros Hnd. unfold one_link_each, insert_or_replace. rewrite fmap_app. apply NoDup_app. split; [by apply delete_where_key|].
  split; [|by apply NoDup_singleton]. intros i (r & -> & [_ Hr]%elem_of_delete_where)%list_elem_of_fmap Hi%list_elem_of_singleton.
  apply bool_decide_eq_false in Hr. by apply Hr.
Qed.

Lemma rename_all t os l i :
  link_of (foldl (fun t other => update (of_link other) (set_link l) t) t os) i =
  (fun k => if bool_decide (k ∈ os) then l else k) <$> link_of t i.
Proof.
  revert t. induction os as [|o os IH]; intros t; cbn [foldl].
  - destruct (link_of t i); [|done]. cbn. by rewrite bool_decide_false by apply not_elem_of_nil.
  - rewrite IH, link_of_rename. destruct (link_of t i) as [k|]; [|done]. cbn. f_equal.
    destruct (bool_decide_reflect (k = o)) as [->|E].
    + rewrite (bool_decide_true (o ∈ o :: os)) by by left. by destruct (bool_decide _).
    + apply (f_equal (fun b : bool => if b then l else k)). apply bool_decide_ext. rewrite elem_of_cons. tauto.
Qed.

Lemma one_each_rename_all t os l : one_link_each t -> one_link_each (foldl (fun t other => update (of_link other) (set_link l) t) t os).
Proof. revert t. induction os as [|o os IH]; intros t Hnd; [done|]. by apply IH, one_each_rename. Qed.

Lemma give_all t js l i :
  link_of (foldl (fun t j => insert_or_replace (of_person j) {| person_id := j; link_id := l |} t) t js) i =
  if bool_decide (i ∈ js) then Some l else link_of t i.
Proof.
  revert t. induction js as [|j js IH]; intros t; cbn [foldl].
  - by rewrite bool_decide_false by apply not_elem_of_nil.
  - rewrite IH, link_of_give. destruct (bool_decide_reflect (i ∈ js)) as [Hi|Hi].
    + by rewrite bool_decide_true by by right.
    + apply (f_equal (fun b : bool => if b then Some l else link_of t i)). apply bool_decide_ext. rewrite elem_of_cons. tauto.
Qed.

Lemma one_each_give_all t js l : one_link_each t ->
  one_link_each (foldl (fun t j => insert_or_replace (of_person j) {| person_id := j; link_id := l |} t) t js).
Proof. revert t. induction js as [|j js IH]; intros t Hnd; [done|]. by apply IH, one_each_give. Qed.

Lemma elem_of_id_set ids i : i ∈ id_set ids <-> i ∈ ids.
Proof. unfold id_set. by rewrite order_by_perm, elem_of_remove_dups. Qed.

(** ** Linking *)

(** A link not used before. *)
Definition new_link (t : list LinkRow) (new : text) : Prop := Forall (fun r => link_id r <> lit "link:" ++ new) t.

(** Whether somebody is one of those linked, or already linked with one. *)
Definition reached (t : list LinkRow) (ids : list text) (i : text) : Prop := i ∈ ids \/ exists j, j ∈ ids /\ same_person t i j.

(** What a link makes of the link of each person. *)
Lemma link_effect db ids new l db' : link db ids new = Ok (l, db') ->
  (forall i, link_of (person_links db') i =
    if bool_decide (i ∈ ids) then Some l
    else (fun k => if bool_decide (Some k ∈ (link_of (person_links db) <$> ids)) then l else k) <$> link_of (person_links db) i) /\
  (one_link_each (person_links db) -> one_link_each (person_links db')) /\
  (l = lit "link:" ++ new \/ exists j, j ∈ ids /\ link_of (person_links db) j = Some l) /\
  (2 <= length (id_set ids))%nat.
Proof.
  unfold link. destruct (Nat.ltb_spec (length (id_set ids)) 2) as [|Hlen]; [done|]. destruct (negb _); [done|]. intros [= <- <-].
  set (ex := omap (link_of (person_links db)) (id_set ids)).
  assert (forall k, k ∈ ex <-> Some k ∈ (link_of (person_links db) <$> ids)) as Hex.
  { intros k. unfold ex. rewrite list_elem_of_omap, list_elem_of_fmap. split.
    - intros (i & Hi & E). exists i. by rewrite <- elem_of_id_set.
    - intros (i & E & Hi). exists i. by rewrite elem_of_id_set. }
  split; [|split; [|split]]; [| | |done].
  - intros i. cbn [with_links person_links]. rewrite give_all.
    rewrite (bool_decide_ext _ _ (elem_of_id_set ids i)). destruct (bool_decide (i ∈ ids)); [done|].
    rewrite rename_all. destruct (link_of (person_links db) i) as [k|]; [|done]. cbn. f_equal.
    rewrite <- (bool_decide_ext _ _ (Hex k)). destruct ex as [|e ex']; cbn [head tail unwrap_or]; [by rewrite !bool_decide_false by apply not_elem_of_nil|].
    destruct (bool_decide_reflect (k ∈ ex')) as [Hk|Hk]; [by rewrite bool_decide_true by by right|].
    destruct (bool_decide_reflect (k = e)) as [->|E]; [by destruct (bool_decide _)|].
    rewrite bool_decide_false; [done|]. by intros [|]%elem_of_cons.
  - intros Hnd. cbn. by apply one_each_give_all, one_each_rename_all.
  - destruct ex as [|e ex'] eqn:E; cbn [head unwrap_or]; [by left|]. right.
    assert (e ∈ e :: ex') as He by by left. apply Hex in He as (j & Ej & Hj)%list_elem_of_fmap. by exists j.
Qed.

(** The people of the link made, and those it leaves alone. *)
Lemma link_shape db ids new l db' : one_link_each (person_links db) -> new_link (person_links db) new ->
  link db ids new = Ok (l, db') ->
  (forall i, link_of (person_links db') i = Some l <-> reached (person_links db) ids i) /\
  (forall i, ~ reached (person_links db) ids i -> link_of (person_links db') i = link_of (person_links db) i).
Proof.
  intros Hnd Hnew E. destruct (link_effect _ _ _ _ _ E) as (He & _ & Hl & _). clear E. split; intros i.
  - rewrite He. destruct (bool_decide_reflect (i ∈ ids)) as [Hi|Hi]; [by split; [left|]|]. split.
    + intros (k & Ek & Hk)%fmap_Some. right. destruct (bool_decide_reflect (Some k ∈ (link_of (person_links db) <$> ids))) as [(j & Ej & Hj)%list_elem_of_fmap|Hn].
      * exists j. split; [done|]. by exists k.
      * subst k. destruct Hl as [->|(j & Hj & Ej)].
        -- exfalso. apply link_of_spec in Ek; [|done]. unfold new_link in Hnew. rewrite Forall_forall in Hnew. by apply (Hnew _ Ek).
        -- exists j. split; [done|]. by exists l.
    + intros [Hi'|(j & Hj & k & Ek & Ej)]; [done|]. rewrite Ek. cbn. rewrite bool_decide_true; [done|].
      rewrite <- Ej. by apply list_elem_of_fmap_2.
  - intros Hn. rewrite He. rewrite bool_decide_false by (intros Hi; apply Hn; by left).
    destruct (link_of (person_links db) i) as [k|] eqn:Ek; [|done]. cbn. f_equal. rewrite bool_decide_false; [done|].
    intros (j & Ej & Hj)%list_elem_of_fmap. apply Hn. right. exists j. split; [done|]. by exists k.
Qed.

Lemma reached_spread t ids k i j : link_of t i = Some k -> link_of t j = Some k -> reached t ids i -> reached t ids j.
Proof.
  intros Ei Ej [Hi|(x & Hx & m & Em & Ex)]; right; [exists i|exists x]; (split; [done|]); [by exists k|].
  exists m. split; congruence.
Qed.

(** C28. Linking joins the people named, with whoever each was linked to, and
    changes nobody else. *)
Theorem linking_joins db ids new l db' : one_link_each (person_links db) -> new_link (person_links db) new ->
  link db ids new = Ok (l, db') ->
  forall a b, same_person (person_links db') a b <->
    same_person (person_links db) a b \/ (reached (person_links db) ids a /\ reached (person_links db) ids b).
Proof.
  intros Hnd Hnew E. destruct (link_shape _ _ _ _ _ Hnd Hnew E) as [Hreach Hother].
  assert (forall i, {reached (person_links db) ids i} + {~ reached (person_links db) ids i}) as Hdec.
  { intros i. destruct (decide (link_of (person_links db') i = Some l)) as [H|H]; [left|right]; by rewrite <- Hreach. }
  intros a b. split.
  - intros (k & Ea & Eb). destruct (Hdec a) as [Ra|Ra], (Hdec b) as [Rb|Rb]; [by right| | |].
    + exfalso. apply Rb, Hreach. apply Hreach in Ra. congruence.
    + exfalso. apply Ra, Hreach. apply Hreach in Rb. congruence.
    + left. exists k. by rewrite <- (Hother a), <- (Hother b).
  - intros [(k & Ea & Eb)|[Ra Rb]]; [|exists l; by rewrite !Hreach].
    destruct (Hdec a) as [Ra|Ra].
    + exists l. rewrite !Hreach. split; [done|]. by apply (reached_spread _ ids k a b).
    + exists k. rewrite !Hother; [done| |done]. intros Rb. apply Ra. by apply (reached_spread _ ids k b a).
Qed.

(** ** Taking somebody out *)

Lemma unlink_effect db i a : one_link_each (person_links db) -> link_of (person_links (unlink db i)) a =
  if bool_decide (a = i) then None
  else k ← link_of (person_links db) a;
       if bool_decide (link_of (person_links db) i = Some k) && Nat.ltb (length (select (of_link k) (delete_where (of_person i) (person_links db)))) 2
       then None else Some k.
Proof.
  intros Hnd. unfold unlink. cbn [with_links person_links]. set (t := person_links db) in *. set (t1 := delete_where (of_person i) t).
  assert (one_link_each t1) as Hnd1 by by apply delete_where_key.
  assert (forall b, link_of t1 b = if bool_decide (b = i) then None else link_of t b) as H1.
  { intros b. unfold link_of, t1. destruct (bool_decide_reflect (b = i)) as [->|E].
    - destruct (query_row (of_person i) _) as [r|] eqn:Eq; [|done].
      apply query_row_Some in Eq as [[_ Ha]%elem_of_delete_where Hb]. congruence.
    - rewrite query_row_delete_other; [done|]. intros r Hr%bool_decide_eq_true. apply bool_decide_eq_false. congruence. }
  assert (forall k b, link_of (delete_where (of_link k) t1) b = (m ← link_of t1 b; if bool_decide (m = k) then None else Some m)) as H2.
  { intros k b. unfold link_of at 1. rewrite query_row_delete by (intros; by apply (key_unique person_id b t1)).
    unfold link_of. destruct (query_row (of_person b) t1) as [r|]; [|done]. cbn. unfold of_link. by destruct (bool_decide (link_id r = k)). }
  destruct (link_of t i) as [l|] eqn:El; [destruct (Nat.ltb_spec (length (select (of_link l) t1)) 2) as [Hlt|Hge]|].
  - rewrite H2, H1. destruct (bool_decide (a = i)); [done|]. destruct (link_of t a) as [k|]; [|done]. cbn [mbind option_bind].
    destruct (bool_decide_reflect (k = l)) as [->|E].
    + rewrite bool_decide_true by done. by rewrite (proj2 (Nat.ltb_lt _ _) Hlt).
    + by rewrite bool_decide_false by congruence.
  - rewrite H1. destruct (bool_decide (a = i)); [done|]. destruct (link_of t a) as [k|]; [|done]. cbn [mbind option_bind].
    destruct (bool_decide_reflect (Some l = Some k)) as [[= ->]|E]; [|done]. by rewrite (proj2 (Nat.ltb_ge _ _) Hge).
  - rewrite H1. destruct (bool_decide (a = i)); [done|]. by destruct (link_of t a).
Qed.

(** Two rows of one link, and no fewer. *)
Lemma two_of_link t k a b : one_link_each t -> a <> b -> link_of t a = Some k -> link_of t b = Some k ->
  (2 <= length (select (of_link k) t))%nat.
Proof.
  intros Hnd Hab Ea Eb. apply link_of_spec in Ea, Eb; [|done..].
  assert (forall i, {| person_id := i; link_id := k |} ∈ t -> {| person_id := i; link_id := k |} ∈ select (of_link k) t) as Hs.
  { intros i Hi. apply elem_of_select. split; [done|]. by apply bool_decide_eq_true. }
  apply Hs in Ea, Eb. destruct (select (of_link k) t) as [|x [|y s]]; [by apply not_elem_of_nil in Ea| |cbn; lia].
  apply list_elem_of_singleton in Ea, Eb. congruence.
Qed.

(** Whoever is taken out is linked to nobody; the others are as they were. *)
Lemma unlinking_parts db i a b : one_link_each (person_links db) -> a <> b ->
  same_person (person_links (unlink db i)) a b <-> same_person (person_links db) a b /\ a <> i /\ b <> i.
Proof.
  intros Hnd Hab. unfold same_person. pose proof (fun c => unlink_effect db i c Hnd) as He. setoid_rewrite He.
  destruct (bool_decide_reflect (a = i)) as [->|Ea]; [split; [by intros (l & H & _)|by intros (_ & H & _)]|].
  destruct (bool_decide_reflect (b = i)) as [->|Eb]; [split; [by intros (l & _ & H)|by intros (_ & _ & H)]|].
  split.
  - intros (l & Ha & Hb). split; [|done]. exists l.
    destruct (link_of (person_links db) a) as [k|], (link_of (person_links db) b) as [k'|]; try done. cbn in Ha, Hb.
    destruct (_ && _); [done|]. destruct (_ && _); [done|]. split; congruence.
  - intros ((l & Ha & Hb) & _ & _). exists l. rewrite Ha, Hb. cbn [mbind option_bind].
    assert (one_link_each (delete_where (of_person i) (person_links db))) as Hnd1 by by apply delete_where_key.
    assert (2 <= length (select (of_link l) (delete_where (of_person i) (person_links db))))%nat as Hlen.
    { apply (two_of_link _ l a b); [done..| |]; (apply link_of_spec; [done|]); apply elem_of_delete_where;
        (split; [by apply link_of_spec|by apply bool_decide_eq_false]). }
    by rewrite (proj2 (Nat.ltb_ge _ _) Hlen), andb_false_r.
Qed.

(** ** No link of one *)

Definition of_two (t : list LinkRow) : Prop := forall a l, link_of t a = Some l -> exists b, b <> a /\ link_of t b = Some l.

Lemma two_ids ids a : (2 <= length (id_set ids))%nat -> exists b, b ∈ ids /\ b <> a.
Proof.
  intros Hlen. assert (NoDup (id_set ids)) as Hnd by (unfold id_set; rewrite order_by_perm; apply NoDup_remove_dups).
  pose proof (elem_of_id_set ids) as Hin. destruct (id_set ids) as [|x [|y s]]; cbn in Hlen; [lia..|].
  destruct (decide (x = a)) as [->|E].
  - exists y. split; [apply Hin; right; by left|]. intros ->. apply NoDup_cons in Hnd as [Hn _]. apply Hn. by left.
  - exists x. split; [apply Hin; by left|done].
Qed.

Inductive step (db : Db) : Db -> Prop :=
| links_people ids new l db' : new_link (person_links db) new -> link db ids new = Ok (l, db') -> step db db'
| unlinks i : step db (unlink db i).

Lemma link_of_two db ids new l db' : one_link_each (person_links db) -> new_link (person_links db) new ->
  link db ids new = Ok (l, db') -> of_two (person_links db) -> of_two (person_links db').
Proof.
  intros Hnd Hnew E Ht a k Ea. destruct (link_shape _ _ _ _ _ Hnd Hnew E) as [Hreach Hother].
  destruct (link_effect _ _ _ _ _ E) as (_ & _ & _ & Hlen).
  destruct (decide (link_of (person_links db') a = Some l)) as [Hl|Hl].
  - assert (k = l) as -> by congruence. destruct (two_ids ids a Hlen) as (b & Hb & Hne). exists b. split; [done|]. apply Hreach. by left.
  - assert (~ reached (person_links db) ids a) as Hn by by rewrite <- Hreach. rewrite (Hother a Hn) in Ea.
    destruct (Ht a k Ea) as (b & Hne & Eb). exists b. split; [done|]. rewrite Hother; [done|].
    intros Hb. apply Hn. by apply (reached_spread _ ids k b a).
Qed.

Lemma one_each_unlink db i : one_link_each (person_links db) -> one_link_each (person_links (unlink db i)).
Proof.
  intros Hnd. unfold unlink. cbn. destruct (link_of _ i) as [l|]; [|by apply delete_where_key].
  case_match; [by apply delete_where_key, delete_where_key|by apply delete_where_key].
Qed.

Lemma unlink_of_two db i : one_link_each (person_links db) -> of_two (person_links db) -> of_two (person_links (unlink db i)).
Proof.
  intros Hnd Ht a k. pose proof (fun c => unlink_effect db i c Hnd) as He. setoid_rewrite He. destruct (bool_decide_reflect (a = i)) as [|Ea]; [done|].
  destruct (link_of (person_links db) a) as [k'|] eqn:Ek; [|done]. cbn [mbind option_bind].
  destruct (bool_decide_reflect (link_of (person_links db) i = Some k')) as [Ei|Ei]; cbn [andb].
  - set (t1 := delete_where (of_person i) (person_links db)). destruct (Nat.ltb_spec (length (select (of_link k') t1)) 2) as [|Hlen]; [done|].
    intros [= <-]. assert (one_link_each t1) as Hnd1 by by apply delete_where_key.
    assert (exists r, r ∈ select (of_link k') t1 /\ person_id r <> a) as (r & [[Hr Hri]%elem_of_delete_where Hrk]%elem_of_select & Hne).
    { assert (NoDup (person_id <$> select (of_link k') t1)) as Hnds by (eapply sublist_NoDup; [exact Hnd1|]; apply fmap_sublist, sublist_filter).
      destruct (select (of_link k') t1) as [|x [|y s]]; cbn in Hlen; [lia..|]. destruct (decide (person_id x = a)) as [E|E].
      - exists y. split; [right; by left|]. intros E'. apply NoDup_cons in Hnds as [Hn _]. apply Hn. rewrite E, <- E'. by left.
      - exists x. split; [by left|done]. }
    apply bool_decide_eq_false in Hri. apply bool_decide_eq_true in Hrk.
    exists (person_id r). split; [done|]. rewrite bool_decide_false by done.
    assert (link_of (person_links db) (person_id r) = Some k') as -> by (apply link_of_spec; [done|]; rewrite <- Hrk; by destruct r).
    cbn [mbind option_bind]. fold t1. by rewrite (proj2 (Nat.ltb_ge _ _) Hlen), andb_false_r.
  - intros [= <-]. destruct (Ht a k' Ek) as (b & Hne & Eb). exists b. split; [done|]. rewrite bool_decide_false by congruence.
    rewrite Eb. cbn [mbind option_bind]. by rewrite bool_decide_false.
Qed.

(** Linking and unlinking leave no link with one person. *)
Lemma links_are_of_two db db' : rtc step db db' -> one_link_each (person_links db) -> of_two (person_links db) ->
  one_link_each (person_links db') /\ of_two (person_links db').
Proof.
  induction 1 as [db|db db1 db' Hs _ IH]; [done|]. intros Hnd Ht. apply IH.
  - destruct Hs as [ids new l db1 _ E|i]; [by apply (link_effect _ _ _ _ _ E)|by apply one_each_unlink].
  - destruct Hs as [ids new l db1 Hnew E|i]; [by apply (link_of_two db ids new l)|by apply unlink_of_two].
Qed.

(** ** A small book *)

Definition book : Db :=
  {| people := [lit "ana"; lit "bea"; lit "cy"; lit "dan"]; person_emails := [];
     person_links := [{| person_id := lit "ana"; link_id := lit "link:1" |}; {| person_id := lit "bea"; link_id := lit "link:1" |}];
     person_link_dismissals := [] |}.
Definition linked_book : Db := match link book [lit "cy"; lit "bea"] (lit "2") with Ok (_, db) => db | Err _ => book end.

Lemma linking_joins_witness : same_person (person_links linked_book) (lit "ana") (lit "cy").
Proof.
  apply (linking_joins book [lit "cy"; lit "bea"] (lit "2") (lit "link:1") linked_book).
  - by apply (bool_decide_unpack _); vm_compute.
  - by apply (bool_decide_unpack _); vm_compute.
  - by vm_compute.
  - right. split.
    + right. exists (lit "bea"). split; [by right; left|]. by exists (lit "link:1").
    + left. by left.
Defined.

End PersonLinkLaws.
