(* ===== verification/Search.v ===== *)
(** * Reading what someone typed into the search box

    Models [meron-core/src/search/mod.rs]: the words of the box ([tokenize]),
    the query read from them ([parse]), what is said of it ([describe]) and
    its text written again ([compose]).  The date [chrono] writes for an
    instant is the class [DayText]; what the server is asked, with the dates
    of [meron-core/src/imap.rs], is [search_criteria]. *)
From S2P Require Import Prelude.
From S2P Require Import Text.
From S2P Require Import Calendar.
#[local] Open Scope Z_scope.

(** [DateTime::from_timestamp(at, 0)] in the format [%Y-%m-%d], or nothing
    outside chrono's range. *)
Class DayText := day_of : Z -> text.

Module Search.

Inductive Field := From | To | Subject.
Inductive Flag := Unread | Read | Starred | HasAttachment.

#[export] Instance Flag_eq_dec : EqDecision Flag.
Proof. solve_decision. Defined.

Record Query := {
  free : text;
  from : list text;
  to : list text;
  subject : list text;
  flags : list Flag;
  label : option text;
  after : option Z;
  before : option Z
}.

(** [Query::default()] *)
Definition empty_query : Query :=
  {| free := []; from := []; to := []; subject := []; flags := []; label := None; after := None; before := None |}.

Definition is_empty_query (q : Query) : bool :=
  is_empty (free q) && is_nil (from q) && is_nil (to q) && is_nil (subject q) && is_nil (flags q)
  && bool_decide (label q = None) && bool_decide (after q = None) && bool_decide (before q = None).

Definition needs_local_only (q : Query) : bool := negb (bool_decide (label q = None)).

Definition needs_local_check (q : Query) (gmail : bool) : bool :=
  negb (bool_decide (label q = None)) || (negb gmail && bool_decide (HasAttachment ∈ flags q)).

Definition terms_for (q : Query) (f : Field) : list text :=
  match f with From => from q | To => to q | Subject => subject q end.

(** ** Reading *)

Definition QUOTE : Z := 34.

(** The loop of [tokenize]: the word so far, and whether a quote is open. *)
Fixpoint tokens (current : text) (quoted : bool) (s : text) : list text :=
  match s with
  | [] => if is_empty current then [] else [current]
  | c :: s' =>
      if c =? QUOTE then tokens current (negb quoted) s'
      else if is_whitespace c && negb quoted
      then if is_empty current then tokens [] quoted s' else current :: tokens [] quoted s'
      else tokens (current ++ [c]) quoted s'
  end.
Definition tokenize (input : text) : list text := tokens [] false input.

(** [i64] arithmetic, wrapped as a release build does. *)
Definition i64 (z : Z) : Z := (z + 2 ^ 63) mod 2 ^ 64 - 2 ^ 63.
Definition parse_i64 : text -> option Z := parse_signed (- 2 ^ 63) (2 ^ 63 - 1).

Definition parse_day (value : text) : option Z :=
  match split_char 45 value with
  | [ys; ms; ds] =>
      year ← parse_i64 ys;
      month ← parse_i64 ms;
      day ← parse_i64 ds;
      if negb ((1 <=? month) && (month <=? 12)) || negb ((1 <=? day) && (day <=? 31)) then None
      else
        let y := if month <=? 2 then year - 1 else year in
        let era := Z.quot (if 0 <=? y then y else y - 399) 400 in
        let yoe := y - era * 400 in
        let doy := Z.quot (153 * (if 2 <? month then month - 3 else month + 9) + 2) 5 + day - 1 in
        let doe := yoe * 365 + Z.quot yoe 4 - Z.quot yoe 100 + doy in
        Some (i64 ((i64 (i64 (i64 (era * 146097) + doe) - 719468)) * 86400))
  | _ => None
  end.

Definition add_word (st : Query * list text) (w : text) : Query * list text := (fst st, snd st ++ [w]).
Definition with_query (f : Query -> Query) (st : Query * list text) : Query * list text := (f (fst st), snd st).

Definition add_from (v : text) (q : Query) : Query :=
  {| free := free q; from := from q ++ [v]; to := to q; subject := subject q; flags := flags q;
     label := label q; after := after q; before := before q |}.
Definition add_to (v : text) (q : Query) : Query :=
  {| free := free q; from := from q; to := to q ++ [v]; subject := subject q; flags := flags q;
     label := label q; after := after q; before := before q |}.
Definition add_subject (v : text) (q : Query) : Query :=
  {| free := free q; from := from q; to := to q; subject := subject q ++ [v]; flags := flags q;
     label := label q; after := after q; before := before q |}.
Definition add_flag (f : Flag) (q : Query) : Query :=
  {| free := free q; from := from q; to := to q; subject := subject q; flags := flags q ++ [f];
     label := label q; after := after q; before := before q |}.
Definition set_label (v : text) (q : Query) : Query :=
  {| free := free q; from := from q; to := to q; subject := subject q; flags := flags q;
     label := Some v; after := after q; before := before q |}.
Definition set_after (at_ : Z) (q : Query) : Query :=
  {| free := free q; from := from q; to := to q; subject := subject q; flags := flags q;
     label := label q; after := Some at_; before := before q |}.
Definition set_before (at_ : Z) (q : Query) : Query :=
  {| free := free q; from := from q; to := to q; subject := subject q; flags := flags q;
     label := label q; after := after q; before := Some at_ |}.
Definition set_free (t : text) (q : Query) : Query :=
  {| free := t; from := from q; to := to q; subject := subject q; flags := flags q;
     label := label q; after := after q; before := before q |}.

Definition is_name (s : string) (name : text) : bool := bool_decide (name = lit s).

(** One token of [parse]. *)
Definition read_token (st : Query * list text) (token : text) : Query * list text :=
  match split_once 58 token with
  | None => add_word st token
  | Some (name, value) =>
      let value := trim value in
      if is_empty value then st
      else
        let lowered := to_ascii_lowercase name in
        if is_name "from" lowered then with_query (add_from value) st
        else if is_name "to" lowered then with_query (add_to value) st
        else if is_name "subject" lowered then with_query (add_subject value) st
        else if is_name "label" lowered then with_query (set_label value) st
        else if is_name "has" lowered && eq_ignore_ascii_case value (lit "attachment") then with_query (add_flag HasAttachment) st
        else if is_name "is" lowered && eq_ignore_ascii_case value (lit "unread") then with_query (add_flag Unread) st
        else if is_name "is" lowered && eq_ignore_ascii_case value (lit "read") then with_query (add_flag Read) st
        else if is_name "is" lowered && eq_ignore_ascii_case value (lit "starred") then with_query (add_flag Starred) st
        else if is_name "after" lowered || is_name "since" lowered
        then match parse_day value with Some at_ => with_query (set_after at_) st | None => add_word st token end
        else if is_name "before" lowered || is_name "until" lowered
        then match parse_day value with Some at_ => with_query (set_before at_) st | None => add_word st token end
        else add_word st token
  end.

Definition read_all (input : text) : Query * list text := foldl read_token (empty_query, []) (tokenize input).

(** The words that are no operator. *)
Definition free_words (input : text) : list text := snd (read_all input).

Definition parse (input : text) : Query := set_free (join (lit " ") (free_words input)) (fst (read_all input)).

(** ** Writing *)

Definition flag_text (f : Flag) : text :=
  match f with
  | Unread => lit "is:unread"
  | Read => lit "is:read"
  | Starred => lit "is:starred"
  | HasAttachment => lit "has:attachment"
  end.

Definition named (name : string) (value : text) : text := lit name ++ lit ":" ++ value.

Definition describe (q : Query) : list text :=
  (if is_empty (free q) then [] else [named "text" (free q)]) ++
  (if is_nil (from q) then [] else [named "from" (join (lit "|") (from q))]) ++
  (if is_nil (to q) then [] else [named "to" (join (lit "|") (to q))]) ++
  (if is_nil (subject q) then [] else [named "subject" (join (lit "|") (subject q))]) ++
  (flag_text <$> flags q) ++
  match label q with Some l => [named "label" l] | None => [] end ++
  match after q with Some a => [named "after" (show_Z a)] | None => [] end ++
  match before q with Some b => [named "before" (show_Z b)] | None => [] end.

Definition quoted (value : text) : option text :=
  let clean := trim (base.filter (fun c => c <> QUOTE) value) in
  if is_empty clean then None
  else Some (if existsb is_whitespace clean then QUOTE :: clean ++ [QUOTE] else clean).

Definition named_terms (name : string) (terms : list text) : list text := named name <$> omap quoted terms.

Section Compose.
Context {DT : DayText}.

Definition parts (q : Query) : list text :=
  (if is_empty (trim (free q)) then [] else [trim (free q)]) ++
  named_terms "from" (from q) ++ named_terms "to" (to q) ++ named_terms "subject" (subject q) ++
  (flag_text <$> flags q) ++
  match label q ≫= quoted with Some v => [named "label" v] | None => [] end ++
  match after q with Some a => [named "after" (day_of a)] | None => [] end ++
  match before q with Some b => [named "before" (day_of b)] | None => [] end.

Definition compose (q : Query) : text := join (lit " ") (parts q).

End Compose.

(** ** What the server is asked *)

Definition imap_quote (value : text) : text :=
  let escaped := (fun c => if (c =? 13) || (c =? 10) then 32 else c) <$>
    replace_char QUOTE [92; QUOTE] (replace_char 92 [92; 92] (trim value)) in
  QUOTE :: escaped ++ [QUOTE].

Definition civil_from_days (z : Z) : Z * Z * Z :=
  let z := z + 719468 in
  let era := Z.quot (if 0 <=? z then z else z - 146096) 146097 in
  let doe := z - era * 146097 in
  let yoe := Z.quot (doe - Z.quot doe 1460 + Z.quot doe 36524 - Z.quot doe 146096) 365 in
  let y := yoe + era * 400 in
  let doy := doe - (365 * yoe + Z.quot yoe 4 - Z.quot yoe 100) in
  let mp := Z.quot (5 * doy + 2) 153 in
  let d := doy - Z.quot (153 * mp + 2) 5 + 1 in
  let m := if mp <? 10 then mp + 3 else mp - 9 in
  (y + (if m <=? 2 then 1 else 0), m, d).

Definition MONTHS : list text :=
  lit <$> ["Jan"; "Feb"; "Mar"; "Apr"; "May"; "Jun"; "Jul"; "Aug"; "Sep"; "Oct"; "Nov"; "Dec"]%string.

Definition imap_date (at_ : Z) : text :=
  let '(year, month, day) := civil_from_days (at_ / 86400) in
  show_Z day ++ lit "-" ++ nth (Nat.min (Z.to_nat (month - 1)) 11) MONTHS [] ++ lit "-" ++ show_Z year.

Definition raw_terms (name : string) (terms : list text) : list text :=
  (fun t => lit name ++ lit ":(" ++ t ++ lit ")") <$> terms.

(** The keys, in their order. *)
Definition search_keys (gmail : bool) (q : Query) : list text :=
  let keys :=
    if gmail then
      let raw := raw_terms "from" (from q) ++ raw_terms "to" (to q) ++ raw_terms "subject" (subject q)
                 ++ (flag_text <$> flags q) ++ (if is_empty (free q) then [] else [free q]) in
      if is_nil raw then [] else [lit "X-GM-RAW " ++ imap_quote (join (lit " ") raw)]
    else
      ((fun t => lit "FROM " ++ imap_quote t) <$> from q) ++
      ((fun t => lit "TO " ++ imap_quote t) <$> to q) ++
      ((fun t => lit "SUBJECT " ++ imap_quote t) <$> subject q) ++
      omap (fun f => match f with
                     | Unread => Some (lit "UNSEEN") | Read => Some (lit "SEEN") | Starred => Some (lit "FLAGGED")
                     | HasAttachment => None
                     end) (flags q) ++
      (if is_empty (free q) then []
       else [lit "OR OR SUBJECT " ++ imap_quote (free q) ++ lit " FROM " ++ imap_quote (free q) ++ lit " TEXT " ++ imap_quote (free q)])
  in
  keys ++ match after q with Some a => [lit "SINCE " ++ imap_date a] | None => [] end
       ++ match before q with Some b => [lit "BEFORE " ++ imap_date b] | None => [] end.

Definition search_criteria (gmail : bool) (q : Query) (charset : bool) : text :=
  let keys := search_keys gmail q in
  let joined := join (lit " ") (if is_nil keys then [lit "ALL"] else keys) in
  if charset then lit "CHARSET UTF-8 " ++ joined else joined.

End Search.
