(* ===== verification/SearchLaws.v ===== *)
(** * What is written in the box is what was read from it

    A search read and written again is read as the same search
    ([compose_reads_back]), unless a quoted phrase is among its free words:
    those are written without their quotes, so a phrase may come back as an
    operator ([a_phrase_becomes_an_operator]).  And the server is asked for
    both of two senders where the box means either
    ([two_senders_are_asked_as_both]). *)
From S2P Require Import Prelude.
From S2P Require Import Text.
From S2P Require Import Calendar.
From S2P Require Import Search.

(** * The dates of the search box

    The day typed is the day of the Gregorian calendar ([parse_day_reads]),
    and the server is asked for that day ([imap_date_writes]). *)

#[local] Open Scope Z_scope.

Module SearchDates.
Import Search Gregorian.

(** 1 January 1970, as a day of the calendar. *)
Definition EPOCH : Z := 719468.

Ltac quots := unfold year_start, month_start in *; Z.to_euclidean_division_equations; lia.

(** The year in an era of 400 years, from its days. *)
Lemma year_of_era doe : 0 <= doe <= 146096 ->
  let yoe := Z.quot (doe - Z.quot doe 1460 + Z.quot doe 36524 - Z.quot doe 146096) 365 in
  0 <= yoe <= 399 /\ 365 * yoe + yoe / 4 - yoe / 100 <= doe /\
  doe < 365 * (yoe + 1) + (yoe + 1) / 4 - (yoe + 1) / 100 + (yoe + 1) / 400.
Proof.
  intros Hd yoe. subst yoe. quots.
Qed.

Lemma year_start_era era yoe : 0 <= yoe <= 400 ->
  year_start (400 * era + yoe) = 146097 * era + 365 * yoe + yoe / 4 - yoe / 100 + yoe / 400.
Proof. intros Hy. quots. Qed.

Lemma floor_era k n : 0 < n -> Z.quot (if 0 <=? k then k else k - (n - 1)) n = k / n.
Proof.
  intros Hn. destruct (Z.leb_spec 0 k) as [H|H]; [by rewrite Z.quot_div_nonneg by lia|].
  rewrite <- (Z.opp_involutive (k - (n - 1))), Z.quot_opp_l, Z.quot_div_nonneg by lia.
  Z.to_euclidean_division_equations. nia.
Qed.

Lemma month_of_year doy : 0 <= doy <= 365 ->
  let mp := Z.quot (5 * doy + 2) 153 in
  0 <= mp <= 11 /\ month_start mp <= doy < month_start (mp + 1).
Proof. intros Hd mp. subst mp. quots. Qed.

(** [civil_from_days] is the Gregorian calendar. *)
Lemma civil_from_days_spec z :
  civil_from_days z = (g_year (z + EPOCH), g_month (z + EPOCH), g_day (z + EPOCH)).
Proof.
  unfold civil_from_days, EPOCH. set (t := z + 719468). change 146096 with (146097 - 1). rewrite floor_era by lia.
  set (era := t / 146097). set (doe := t - era * 146097). change (146097 - 1) with 146096.
  assert (0 <= doe <= 146096) as Hdoe by (unfold doe, era; Z.to_euclidean_division_equations; lia).
  pose proof (year_of_era doe Hdoe) as Hy. cbn zeta in Hy.
  set (yoe := Z.quot _ 365) in *. destruct Hy as (Hy & Hlo & Hhi).
  replace (365 * yoe + Z.quot yoe 4 - Z.quot yoe 100) with (365 * yoe + yoe / 4 - yoe / 100) by (rewrite !Z.quot_div_nonneg by lia; lia).
  set (doy := doe - _). assert (0 <= doy <= 365) as Hdoy by (unfold doy; Z.to_euclidean_division_equations; lia).
  pose proof (month_of_year doy Hdoy) as Hm. cbn zeta in Hm. set (mp := Z.quot _ 153) in *. destruct Hm as (Hm & Hmlo & Hmhi).
  replace (Z.quot (153 * mp + 2) 5) with (month_start mp) by (unfold month_start; rewrite Z.quot_div_nonneg by lia; done).
  destruct (split_unique (400 * era + yoe) mp (doy - month_start mp + 1) t) as (E1 & E2 & E3).
  - done.
  - lia.
  - rewrite year_start_era by lia. replace (yoe / 400) with 0 by (Z.to_euclidean_division_equations; lia). unfold doy, doe. lia.
  - lia.
  - replace (400 * era + yoe + 1) with (400 * era + (yoe + 1)) by lia. rewrite year_start_era by lia. unfold doe in *. lia.
  - unfold g_year, g_month. rewrite E1, E2, E3. destruct (Z.ltb_spec mp 10) as [H|H].
    + destruct (Z.leb_spec (mp + 3) 2); [lia|]. f_equal. f_equal. lia.
    + destruct (Z.leb_spec (mp - 9) 2); [|lia]. f_equal. f_equal. lia.
Qed.

(** ** The day typed *)

Lemma i64_id z : - 2 ^ 63 <= z < 2 ^ 63 -> i64 z = z.
Proof. intros Hz. unfold i64. rewrite Z.mod_small by lia. lia. Qed.

Lemma parse_day_reads ys ms ds y m d :
  parse_i64 ys = Some y -> parse_i64 ms = Some m -> parse_i64 ds = Some d ->
  45 ∉ ys -> 45 ∉ ms -> 45 ∉ ds -> 0 <= y <= 10 ^ 9 -> 1 <= m <= 12 -> 1 <= d <= 31 ->
  parse_day (ys ++ 45 :: ms ++ 45 :: ds) = Some ((days_of y m d - EPOCH) * 86400).
Proof.
  intros Hy Hm Hd Ny Nm Nd By Bm Bd. unfold parse_day.
  rewrite !split_char_app, split_char_none by done. rewrite Hy, Hm, Hd. cbn [mbind option_bind].
  replace ((1 <=? m) && (m <=? 12)) with true by (symmetry; bools; lia).
  replace ((1 <=? d) && (d <=? 31)) with true by (symmetry; bools; lia). cbn [negb orb]. f_equal.
  change 399 with (400 - 1). rewrite floor_era by lia.
  set (y' := if m <=? 2 then y - 1 else y). assert (-1 <= y' <= 10 ^ 9) as By' by (unfold y'; destruct (m <=? 2); lia).
  set (k := if 2 <? m then m - 3 else m + 9).
  assert ((if m <=? 2 then m + 9 else m - 3) = k) as Ek by (unfold k; destruct (Z.leb_spec m 2), (Z.ltb_spec 2 m); lia).
  assert (0 <= k <= 11) as Bk by (unfold k; destruct (Z.ltb_spec 2 m); lia).
  set (era := y' / 400). set (yoe := y' - era * 400).
  assert (0 <= yoe <= 399) as Byoe by (unfold yoe, era; Z.to_euclidean_division_equations; lia).
  assert (-1 <= era <= 2500000) as Bera by (unfold era; Z.to_euclidean_division_equations; lia).
  rewrite !Z.quot_div_nonneg by lia. fold (month_start k).
  assert (0 <= month_start k <= 337) as Bms by (unfold month_start; Z.to_euclidean_division_equations; lia).
  unfold days_of. fold y'. rewrite Ek. replace y' with (400 * era + yoe) by (unfold yoe; lia). rewrite year_start_era by lia.
  replace (yoe / 400) with 0 by (Z.to_euclidean_division_equations; lia). unfold EPOCH.
  assert (0 <= yoe / 4 <= 100 /\ 0 <= yoe / 100 <= 4) as [B1 B2] by (Z.to_euclidean_division_equations; lia).
  rewrite (i64_id (era * 146097)) by lia. rewrite (i64_id (era * 146097 + _)) by lia. rewrite (i64_id (_ - 719468)) by lia.
  rewrite i64_id by lia. lia.
Qed.
(** ** Dates as they are written *)

Definition pad (n : nat) (k : Z) : text := repeat 48 (n - length (show_Z k)) ++ show_Z k.

Definition all_digits (s : text) : Prop := Forall (fun c => is_ascii_digit c = true) s.

Lemma pad_digits n k : 0 <= k -> all_digits (pad n k).
Proof.
  intros Hk. unfold pad. apply Forall_app. split; [|by apply show_Z_digits].
  rewrite Forall_forall. intros c Hc%list_elem_of_In%repeat_spec. by subst.
Qed.

Lemma digits_value_zeros j s : digits_value 0 (repeat 48 j ++ s) = digits_value 0 s.
Proof. induction j as [|j IH]; [done|]. cbn. apply IH. Qed.

Lemma parse_i64_digits s n : all_digits s -> parse_digits s = Some n -> 0 <= n < 2 ^ 63 -> parse_i64 s = Some n.
Proof.
  intros Hd Hp Hn. unfold parse_i64, parse_signed.
  assert (match s with 45 :: r => Z.opp <$> parse_digits r | 43 :: r => parse_digits r | _ => parse_digits s end = Some n) as ->.
  { destruct Hd as [|c s Hc _]; [done|]. destruct (decide (c = 45)) as [->|]; [done|]. destruct (decide (c = 43)) as [->|]; [done|].
    by repeat (destruct c as [|c|c]; try done). }
  cbn [mbind option_bind]. by rewrite (proj2 (Z.leb_le _ _)), (proj2 (Z.leb_le _ _)) by lia.
Qed.

Lemma parse_i64_pad n k : 0 <= k < 2 ^ 63 -> parse_i64 (pad n k) = Some k.
Proof.
  intros Hk. apply parse_i64_digits; [by apply pad_digits; lia| |done]. destruct (show_Z_digits k) as [_ Hp]; [lia|].
  unfold pad. unfold parse_digits in *. destruct (show_Z k) as [|c s] eqn:E; [done|].
  destruct (repeat 48 _ ++ c :: s) as [|c' s'] eqn:E'; [by destruct (repeat 48 _)|].
  rewrite <- E', digits_value_zeros. done.
Qed.

Lemma digits_no_dash s : all_digits s -> 45 ∉ s.
Proof. intros Hd Hin. unfold all_digits in Hd. rewrite Forall_forall in Hd. by specialize (Hd _ Hin). Qed.

(** [%Y-%m-%d] of a day of the years 0 to 9999. *)
Definition written (t : Z) : text := pad 4 (g_year t) ++ 45 :: pad 2 (g_month t) ++ 45 :: pad 2 (g_day t).

Lemma written_reads t : 0 <= g_year t <= 9999 -> parse_day (written t) = Some ((t - EPOCH) * 86400).
Proof.
  intros Hy. pose proof (g_month_bounds t) as Hm. pose proof (g_day_bounds t) as Hd.
  unfold written. rewrite (parse_day_reads _ _ _ (g_year t) (g_month t) (g_day t)); [by rewrite days_of_split|..];
    try (apply parse_i64_pad; lia); try (apply digits_no_dash, pad_digits; lia); lia.
Qed.

(** C29. A year, a month and a day typed with dashes between them that are a
    day of the Gregorian calendar, in the years 0 to 262142, are read as the
    midnight that begins it, counted in seconds from 1 January 1970, UTC; and
    the server is asked, in the words of IMAP, for that day of that month of
    that year. *)
Theorem the_day_typed_is_asked ys ms ds y m d t :
  parse_i64 ys = Some y -> parse_i64 ms = Some m -> parse_i64 ds = Some d ->
  45 ∉ ys -> 45 ∉ ms -> 45 ∉ ds -> 0 <= y -> g_from_ymd y m d = Some t ->
  exists at_, parse_day (ys ++ 45 :: ms ++ 45 :: ds) = Some at_ /\ at_ = (t - EPOCH) * 86400 /\
    imap_date at_ = show_Z d ++ lit "-" ++ nth (Z.to_nat (m - 1)) MONTHS [] ++ lit "-" ++ show_Z y.
Proof.
  intros Hys Hms Hds Ny Nm Nd By Ht. apply g_from_ymd_spec in Ht as (Hr & Ey & Em & Ed).
  pose proof (g_month_bounds t) as Bm. pose proof (g_day_bounds t) as Bd. pose proof (g_year_bounds t Hr) as Byr.
  unfold g_min_year, g_max_year in Byr. pose proof (days_of_split t) as Et. rewrite Ey, Em, Ed in *.
  eexists. split; [by rewrite (parse_day_reads ys ms ds y m d), Et by (done || lia)|]. split; [done|].
  unfold imap_date. rewrite Z.div_mul by lia. rewrite civil_from_days_spec. replace (t - EPOCH + EPOCH) with t by lia.
  rewrite Ey, Em, Ed. by rewrite Nat.min_l by lia.
Qed.

Lemma the_day_typed_is_asked_witness :
  parse_day (lit "2026-01-02") = Some 1767312000 /\ imap_date 1767312000 = lit "2-Jan-2026".
Proof.
  assert (exists at_, parse_day (lit "2026-01-02") = Some at_ /\ at_ = (EPOCH + 20455 - EPOCH) * 86400 /\
    imap_date at_ = lit "2-Jan-2026") as (at_ & Hp & -> & Hd); [|by split].
  apply (the_day_typed_is_asked (lit "2026") (lit "01") (lit "02") 2026 1 2 (EPOCH + 20455)); try (by vm_compute);
    by apply (bool_decide_unpack _); vm_compute.
Defined.

End SearchDates.

(** ** What is written in the box is what was read from it *)

#[local] Open Scope Z_scope.

(** What [chrono] documents of its dates from the years 0 to 9999. *)
Class DayTextLaws `(DT : DayText) := {
  day_of_written t : 0 <= Gregorian.g_year t <= 9999 -> day_of ((t - SearchDates.EPOCH) * 86400) = SearchDates.written t
}.

Module SearchLaws.
Import Search SearchDates.

(** ** Tokens *)

Definition no_blank (s : text) : Prop := Forall (fun c => is_whitespace c = false) s.

Lemma tokens_app w s cur b : QUOTE ∉ w -> (b = true \/ no_blank w) -> tokens cur b (w ++ s) = tokens (cur ++ w) b s.
Proof.
  revert cur. induction w as [|c w IH]; intros cur Hq Hb; [by rewrite app_nil_r|].
  apply not_elem_of_cons in Hq as [Hc Hq]. cbn [tokens app]. rewrite (proj2 (Z.eqb_neq c QUOTE)) by congruence.
  assert (is_whitespace c && negb b = false) as ->.
  { destruct Hb as [->|Hb]; [by rewrite andb_false_r|]. apply Forall_cons in Hb as [-> _]. done. }
  rewrite IH; [by rewrite <- app_assoc|done|]. destruct Hb as [|Hb]; [by left|right]. by apply Forall_cons in Hb as [_ Hb].
Qed.

(** A part that is read as one token. *)
Definition one_token (part token : text) : Prop :=
  token <> [] /\ forall s, tokens [] false (part ++ s) = tokens token false s.

Lemma plain_token w : w <> [] -> QUOTE ∉ w -> no_blank w -> one_token w w.
Proof. intros Hw Hq Hb. split; [done|]. intros s. rewrite tokens_app; [done|done|by right]. Qed.

Lemma quoted_token n v : n <> [] -> QUOTE ∉ n -> no_blank n -> QUOTE ∉ v -> one_token (n ++ QUOTE :: v ++ [QUOTE]) (n ++ v).
Proof.
  intros Hn Hq Hb Hv. split; [by destruct n|]. intros s. rewrite <- app_assoc, tokens_app by (done || by right).
  cbn [app tokens]. rewrite Z.eqb_refl. cbn [negb]. rewrite <- app_assoc, tokens_app by (done || by left).
  cbn [app tokens]. rewrite Z.eqb_refl. done.
Qed.

Lemma blank_after cur s : cur <> [] -> tokens cur false (32 :: s) = cur :: tokens [] false s.
Proof. by destruct cur. Qed.

Lemma tokenize_join ps ts : Forall2 one_token ps ts -> tokenize (join (lit " ") ps) = ts.
Proof.
  unfold tokenize. induction 1 as [|p t ps ts [Ht Hp] H IH]; [done|]. destruct ps as [|p' ps].
  - inversion H; subst. cbn [join]. rewrite <- (app_nil_r p), Hp. by destruct t.
  - change (join (lit " ") (p :: p' :: ps)) with (p ++ 32 :: join (lit " ") (p' :: ps)). by rewrite Hp, blank_after, IH.
Qed.

Lemma tokens_good cur b s : QUOTE ∉ cur -> Forall (fun t => t <> [] /\ QUOTE ∉ t) (tokens cur b s).
Proof.
  revert cur b. induction s as [|c s IH]; intros cur b Hc; cbn [tokens].
  - destruct cur; [constructor|]. by repeat constructor.
  - destruct (Z.eqb_spec c QUOTE) as [|Hq]; [by apply IH|]. destruct (is_whitespace c && negb b).
    + destruct cur as [|x cur]; cbn [is_empty]; [apply IH; apply not_elem_of_nil|]. constructor; [done|]. apply IH, not_elem_of_nil.
    + apply IH. rewrite elem_of_app, list_elem_of_singleton. intros [|]; [done|congruence].
Qed.

(** ** What a token does *)

(** A term as it is kept: trimmed, not empty and without quotes. *)
Definition kept (v : text) : Prop := v <> [] /\ trim v = v /\ QUOTE ∉ v.

Inductive effect (t : text) : Type :=
| Nothing : (forall st, read_token st t = st) -> effect t
| Word : (forall st, read_token st t = add_word st t) -> effect t
| AddsFrom v : kept v -> (forall st, read_token st t = with_query (add_from v) st) -> effect t
| AddsTo v : kept v -> (forall st, read_token st t = with_query (add_to v) st) -> effect t
| AddsSubject v : kept v -> (forall st, read_token st t = with_query (add_subject v) st) -> effect t
| SetsLabel v : kept v -> (forall st, read_token st t = with_query (set_label v) st) -> effect t
| AddsFlag f : (forall st, read_token st t = with_query (add_flag f) st) -> effect t
| SetsAfter a : (forall st, read_token st t = with_query (set_after a) st) -> effect t
| SetsBefore a : (forall st, read_token st t = with_query (set_before a) st) -> effect t.

Lemma elem_of_trim c s : c ∈ trim s -> c ∈ s.
Proof.
  intros Hc. unfold trim in Hc.
  assert (forall u, c ∈ trim_start u -> c ∈ u) as Hs.
  { intros u Hu. destruct (trim_start_matches_suffix is_whitespace u) as (a & -> & _). apply elem_of_app. by right. }
  apply Hs. unfold trim_end, trim_end_matches in Hc.
  apply list_elem_of_In, in_rev, list_elem_of_In in Hc. apply Hs in Hc.
  apply list_elem_of_In, in_rev. by apply list_elem_of_In.
Qed.

Lemma split_once_value c s a b x : split_once c s = Some (a, b) -> x ∈ b -> x ∈ s.
Proof.
  unfold split_once. destruct (find_char c s) as [i|]; [|done]. intros [= <- <-] Hx.
  rewrite <- (take_drop (S i) s). apply elem_of_app. by right.
Qed.

Lemma token_effect t : t <> [] -> QUOTE ∉ t -> effect t.
Proof.
  intros Ht Hq. destruct (split_once 58 t) as [[name value]|] eqn:E.
  2:{ apply Word. intros st. unfold read_token. by rewrite E. }
  destruct (is_empty (trim value)) eqn:Ev.
  { apply Nothing. intros st. unfold read_token. by rewrite E, Ev. }
  assert (kept (trim value)) as Hk.
  { split; [by intros H; rewrite H in Ev|]. split; [apply trim_idem|]. intros Hx. apply Hq. apply (split_once_value 58 t name value); [done|].
    by apply elem_of_trim. }
  remember (to_ascii_lowercase name) as lo eqn:El.
  destruct (is_name "from" lo) eqn:E1; [apply (AddsFrom t (trim value) Hk); intros st; unfold read_token; by rewrite E, Ev, <- El, E1|].
  destruct (is_name "to" lo) eqn:E2; [apply (AddsTo t (trim value) Hk); intros st; unfold read_token; by rewrite E, Ev, <- El, E1, E2|].
  destruct (is_name "subject" lo) eqn:E3; [apply (AddsSubject t (trim value) Hk); intros st; unfold read_token; by rewrite E, Ev, <- El, E1, E2, E3|].
  destruct (is_name "label" lo) eqn:E4; [apply (SetsLabel t (trim value) Hk); intros st; unfold read_token; by rewrite E, Ev, <- El, E1, E2, E3, E4|].
  destruct (is_name "has" lo && eq_ignore_ascii_case (trim value) (lit "attachment")) eqn:E5;
    [apply (AddsFlag t HasAttachment); intros st; unfold read_token; by rewrite E, Ev, <- El, E1, E2, E3, E4, E5|].
  destruct (is_name "is" lo && eq_ignore_ascii_case (trim value) (lit "unread")) eqn:E6;
    [apply (AddsFlag t Unread); intros st; unfold read_token; by rewrite E, Ev, <- El, E1, E2, E3, E4, E5, E6|].
  destruct (is_name "is" lo && eq_ignore_ascii_case (trim value) (lit "read")) eqn:E7;
    [apply (AddsFlag t Read); intros st; unfold read_token; by rewrite E, Ev, <- El, E1, E2, E3, E4, E5, E6, E7|].
  destruct (is_name "is" lo && eq_ignore_ascii_case (trim value) (lit "starred")) eqn:E8;
    [apply (AddsFlag t Starred); intros st; unfold read_token; by rewrite E, Ev, <- El, E1, E2, E3, E4, E5, E6, E7, E8|].
  destruct (is_name "after" lo || is_name "since" lo) eqn:E9.
  { destruct (parse_day (trim value)) as [a|] eqn:Ed; [apply (SetsAfter t a)|apply Word]; intros st; unfold read_token;
      by rewrite E, Ev, <- El, E1, E2, E3, E4, E5, E6, E7, E8, E9, Ed. }
  destruct (is_name "before" lo || is_name "until" lo) eqn:E10.
  { destruct (parse_day (trim value)) as [a|] eqn:Ed; [apply (SetsBefore t a)|apply Word]; intros st; unfold read_token;
      by rewrite E, Ev, <- El, E1, E2, E3, E4, E5, E6, E7, E8, E9, E10, Ed. }
  apply Word. intros st. unfold read_token. by rewrite E, Ev, <- El, E1, E2, E3, E4, E5, E6, E7, E8, E9, E10.
Qed.

(** ** What a search read holds *)

Definition is_word (w : text) : Prop := w <> [] /\ QUOTE ∉ w /\ forall st, read_token st w = add_word st w.

Record sound (st : Query * list text) : Prop := {
  sound_words : Forall is_word (snd st);
  sound_from : Forall kept (from (fst st));
  sound_to : Forall kept (to (fst st));
  sound_subject : Forall kept (subject (fst st));
  sound_label v : label (fst st) = Some v -> kept v;
  sound_free : free (fst st) = []
}.

Lemma sound_token st t : t <> [] -> QUOTE ∉ t -> sound st -> sound (read_token st t).
Proof.
  intros Ht Hq [H1 H2 H3 H4 H5 H6]. destruct st as [q ws]. cbn in *.
  destruct (token_effect t Ht Hq) as [E|E|v Hv E|v Hv E|v Hv E|v Hv E|f E|a E|a E]; rewrite E; split; cbn; try done;
    try (apply Forall_app; split; [done|]; by constructor); by intros v' [= <-].
Qed.

Lemma sound_all st ts : Forall (fun t => t <> [] /\ QUOTE ∉ t) ts -> sound st -> sound (foldl read_token st ts).
Proof. intros H. revert st. induction H as [|t ts [Ht Hq] _ IH]; intros st Hs; [done|]. by apply IH, sound_token. Qed.

Lemma read_all_sound s : sound (read_all s).
Proof. apply sound_all; [apply tokens_good, not_elem_of_nil|]. by split. Qed.

(** ** Writing it *)

Lemma reads_from v st : kept v -> read_token st (named "from" v) = with_query (add_from v) st.
Proof. intros (Hne & Ht & _). unfold read_token, named. change (lit "from" ++ lit ":" ++ v) with (lit "from" ++ 58 :: v).
  rewrite split_once_app by (by apply (bool_decide_unpack _); vm_compute). rewrite Ht. by destruct v. Qed.
Lemma reads_to v st : kept v -> read_token st (named "to" v) = with_query (add_to v) st.
Proof. intros (Hne & Ht & _). unfold read_token, named. change (lit "to" ++ lit ":" ++ v) with (lit "to" ++ 58 :: v).
  rewrite split_once_app by (by apply (bool_decide_unpack _); vm_compute). rewrite Ht. by destruct v. Qed.
Lemma reads_subject v st : kept v -> read_token st (named "subject" v) = with_query (add_subject v) st.
Proof. intros (Hne & Ht & _). unfold read_token, named. change (lit "subject" ++ lit ":" ++ v) with (lit "subject" ++ 58 :: v).
  rewrite split_once_app by (by apply (bool_decide_unpack _); vm_compute). rewrite Ht. by destruct v. Qed.
Lemma reads_label v st : kept v -> read_token st (named "label" v) = with_query (set_label v) st.
Proof. intros (Hne & Ht & _). unfold read_token, named. change (lit "label" ++ lit ":" ++ v) with (lit "label" ++ 58 :: v).
  rewrite split_once_app by (by apply (bool_decide_unpack _); vm_compute). rewrite Ht. by destruct v. Qed.
Lemma reads_flag f st : read_token st (flag_text f) = with_query (add_flag f) st.
Proof. by destruct f. Qed.

Lemma quoted_kept v : kept v -> quoted v = Some (if existsb is_whitespace v then QUOTE :: v ++ [QUOTE] else v).
Proof.
  intros (Hne & Ht & Hq). unfold quoted. assert (base.filter (fun c => c <> QUOTE) v = v) as ->.
  { clear -Hq. induction v as [|c v IH]; [done|]. apply not_elem_of_cons in Hq as [Hc Hq]. rewrite filter_cons_True by congruence. by rewrite IH. }
  rewrite Ht. by destruct v.
Qed.

Definition plain_name (n : string) : Prop := QUOTE ∉ lit n ++ lit ":" /\ no_blank (lit n ++ lit ":").

Lemma named_token n v : plain_name n -> kept v ->
  Forall2 one_token (named_terms n [v]) [named n v].
Proof.
  intros [Hq Hb] Hk. unfold named_terms. cbn [omap list_omap]. rewrite quoted_kept by done. constructor; [|constructor].
  unfold named. rewrite !app_assoc. destruct Hk as (Hne & _ & Hqv). destruct (existsb is_whitespace v) eqn:E.
  - apply quoted_token; [by destruct n|done|done|done].
  - apply plain_token.
    + by destruct n.
    + rewrite elem_of_app. tauto.
    + apply Forall_app. split; [done|]. rewrite Forall_forall. intros c Hc. by apply (existsb_none _ _ E).
Qed.

Lemma named_tokens n vs : plain_name n -> Forall kept vs -> Forall2 one_token (named_terms n vs) (named n <$> vs).
Proof.
  intros Hn. induction 1 as [|v vs Hv _ IH]; [constructor|].
  replace (named_terms n (v :: vs)) with (named_terms n [v] ++ named_terms n vs).
  - change (named n <$> v :: vs) with ([named n v] ++ (named n <$> vs)). apply Forall2_app; [by apply named_token|done].
  - unfold named_terms. cbn [omap list_omap]. by rewrite quoted_kept.
Qed.

Lemma flag_tokens fs : Forall2 one_token (flag_text <$> fs) (flag_text <$> fs).
Proof.
  induction fs as [|f fs IH]; constructor; [|done]. apply plain_token; destruct f; try done; by apply (bool_decide_unpack _); vm_compute.
Qed.

(** *** The free words, written one after the other *)

Lemma join_cons_join ws ps : ws <> [] -> join (lit " ") (join (lit " ") ws :: ps) = join (lit " ") (ws ++ ps).
Proof.
  intros Hws. induction ws as [|w ws IH]; [done|]. destruct ws as [|w' ws].
  - done.
  - specialize (IH ltac:(done)). destruct ps as [|p ps].
    + by rewrite app_nil_r.
    + change (join (lit " ") (w :: w' :: ws)) with (w ++ lit " " ++ join (lit " ") (w' :: ws)).
      change (join (lit " ") ((w :: w' :: ws) ++ p :: ps)) with (w ++ lit " " ++ join (lit " ") ((w' :: ws) ++ p :: ps)).
      rewrite <- IH. set (J := join (lit " ") (w' :: ws)).
      transitivity ((w ++ lit " " ++ J) ++ lit " " ++ join (lit " ") (p :: ps)); [done|]. by rewrite <- !app_assoc.
Qed.

Lemma trim_ends a : (exists c r, a = c :: r /\ is_whitespace c = false) -> (exists r c, a = r ++ [c] /\ is_whitespace c = false) -> trim a = a.
Proof.
  intros (c & r & -> & Hc) (r' & c' & E & Hc'). unfold trim. rewrite trim_start_stop by done. rewrite E. by rewrite trim_end_stop.
Qed.

Lemma join_has_ends ws : ws <> [] -> Forall (fun w => w <> [] /\ no_blank w) ws ->
  (exists c r, join (lit " ") ws = c :: r /\ is_whitespace c = false) /\ (exists r c, join (lit " ") ws = r ++ [c] /\ is_whitespace c = false).
Proof.
  intros Hne H. induction H as [|w ws [Hw Hb] H IH]; [done|].
  assert (exists c r, w = c :: r /\ is_whitespace c = false) as (c & r & Ew & Hc).
  { destruct w as [|c r]; [done|]. exists c, r. by apply Forall_cons in Hb as [? _]. }
  assert (exists r c, w = r ++ [c] /\ is_whitespace c = false) as (r' & c' & Ew' & Hc').
  { destruct w as [|d u] using rev_ind; [done|]. exists u, d. split; [done|]. apply Forall_app in Hb as [_ Hb]. by apply Forall_cons in Hb as [? _]. }
  destruct ws as [|w' ws].
  - cbn. split; [by exists c, r|by exists r', c'].
  - destruct (IH ltac:(done)) as [_ (r2 & c2 & E2 & Hc2)].
    change (join (lit " ") (w :: w' :: ws)) with (w ++ lit " " ++ join (lit " ") (w' :: ws)). rewrite E2. split.
    + exists c, (r ++ lit " " ++ r2 ++ [c2]). by rewrite Ew.
    + exists (w ++ lit " " ++ r2), c2. by rewrite <- !app_assoc.
Qed.

(** ** Reading what was written *)

Section RoundTrip.
Context {DT : DayText} {DL : DayTextLaws DT}.

(** An instant that is a day of the years 0 to 9999, at midnight. *)
Definition is_day (a : Z) : Prop := a mod 86400 = 0 /\ 0 <= Gregorian.g_year (a / 86400 + EPOCH) <= 9999.

Lemma day_text a : is_day a -> day_of a = written (a / 86400 + EPOCH) /\ parse_day (day_of a) = Some a.
Proof.
  intros [Hm Hy]. assert (a = (a / 86400 + EPOCH - EPOCH) * 86400) as Ea by (Z.to_euclidean_division_equations; lia).
  assert (day_of a = written (a / 86400 + EPOCH)) as E by (rewrite Ea at 1; by apply day_of_written).
  split; [done|]. rewrite E, written_reads by done. by rewrite <- Ea.
Qed.

Lemma written_chars t : 0 <= Gregorian.g_year t -> Forall (fun c => is_ascii_digit c = true \/ c = 45) (written t).
Proof.
  intros Hy. pose proof (Gregorian.g_month_bounds t). pose proof (Gregorian.g_day_bounds t). unfold written.
  assert (forall n k, 0 <= k -> Forall (fun c => is_ascii_digit c = true \/ c = 45) (pad n k)) as Hp.
  { intros n k Hk. eapply Forall_impl; [by apply pad_digits|]. auto. }
  apply Forall_app. split; [by apply Hp|]. constructor; [by right|]. apply Forall_app. split; [apply Hp; lia|].
  constructor; [by right|]. apply Hp. lia.
Qed.

Lemma day_plain a : is_day a -> day_of a <> [] /\ trim (day_of a) = day_of a /\ QUOTE ∉ day_of a /\ no_blank (day_of a).
Proof.
  intros Hd. destruct (day_text a Hd) as [E Hp]. pose proof (written_chars (a / 86400 + EPOCH) ltac:(apply Hd)) as Hc. rewrite <- E in Hc.
  assert (no_blank (day_of a)) as Hb.
  { eapply Forall_impl; [exact Hc|]. intros c [Hc'|Hc']; [|by subst]. unfold is_ascii_digit in Hc'. unfold is_whitespace. bools in Hc'.
    repeat match goal with |- context [?x =? ?y] => destruct (Z.eqb_spec x y); [lia|] end.
    repeat match goal with |- context [?x <=? ?y] => destruct (Z.leb_spec x y) end; try lia; done. }
  split_and!; [|by apply trim_id| |done].
  - intros H0. by rewrite H0 in Hp.
  - intros Hin. rewrite Forall_forall in Hc. destruct (Hc _ Hin); done.
Qed.

Lemma reads_after a st : is_day a -> read_token st (named "after" (day_of a)) = with_query (set_after a) st.
Proof.
  intros Hd. destruct (day_text a Hd) as [_ Hp]. destruct (day_plain a Hd) as (Hne & Ht & _ & _).
  unfold read_token, named. change (lit "after" ++ lit ":" ++ day_of a) with (lit "after" ++ 58 :: day_of a).
  rewrite split_once_app by (by apply (bool_decide_unpack _); vm_compute). rewrite Ht.
  assert (is_empty (day_of a) = false) as -> by (by destruct (day_of a)). cbn zeta. by rewrite Hp.
Qed.

Lemma reads_before a st : is_day a -> read_token st (named "before" (day_of a)) = with_query (set_before a) st.
Proof.
  intros Hd. destruct (day_text a Hd) as [_ Hp]. destruct (day_plain a Hd) as (Hne & Ht & _ & _).
  unfold read_token, named. change (lit "before" ++ lit ":" ++ day_of a) with (lit "before" ++ 58 :: day_of a).
  rewrite split_once_app by (by apply (bool_decide_unpack _); vm_compute). rewrite Ht.
  assert (is_empty (day_of a) = false) as -> by (by destruct (day_of a)). cbn zeta. by rewrite Hp.
Qed.

Lemma day_token n a : plain_name n -> is_day a -> one_token (named n (day_of a)) (named n (day_of a)).
Proof.
  intros [Hq Hb] Hd. destruct (day_plain a Hd) as (Hne & _ & Hqd & Hbd). unfold named. rewrite app_assoc. apply plain_token.
  - by destruct n.
  - rewrite elem_of_app. tauto.
  - by apply Forall_app.
Qed.

(** The tokens of a search written. *)
Definition written_tokens (q : Query) (ws : list text) : list text :=
  ws ++ (named "from" <$> from q) ++ (named "to" <$> to q) ++ (named "subject" <$> subject q) ++ (flag_text <$> flags q) ++
  match label q with Some v => [named "label" v] | None => [] end ++
  match after q with Some a => [named "after" (day_of a)] | None => [] end ++
  match before q with Some b => [named "before" (day_of b)] | None => [] end.

Definition days_of_query (q : Query) : Prop :=
  (forall a, after q = Some a -> is_day a) /\ (forall b, before q = Some b -> is_day b).

Lemma name_plain n : n ∈ ["from"; "to"; "subject"; "label"; "after"; "before"]%string -> plain_name n.
Proof.
  intros Hn. apply list_elem_of_In in Hn. cbn in Hn.
  destruct Hn as [<-|[<-|[<-|[<-|[<-|[<-|[]]]]]]]; split; by apply (bool_decide_unpack _); vm_compute.
Qed.

Lemma compose_tokens q ws : sound (q, ws) -> Forall no_blank ws -> days_of_query q ->
  tokenize (compose (set_free (join (lit " ") ws) q)) = written_tokens q ws.
Proof.
  intros [Hw Hf Ht Hs Hl _] Hb [Ha Hbf]. cbn in *. unfold compose.
  assert (exists ps, join (lit " ") (parts (set_free (join (lit " ") ws) q)) = join (lit " ") (ws ++ ps) /\
    Forall2 one_token ps (drop (length ws) (written_tokens q ws))) as (ps & -> & Hps).
  { unfold written_tokens. rewrite drop_app_length. unfold parts. cbn [free from to subject flags label after before set_free].
    eexists (named_terms "from" (from q) ++ named_terms "to" (to q) ++ named_terms "subject" (subject q) ++ (flag_text <$> flags q) ++
      match label q ≫= quoted with Some v => [named "label" v] | None => [] end ++
      match after q with Some a => [named "after" (day_of a)] | None => [] end ++
      match before q with Some b => [named "before" (day_of b)] | None => [] end). split.
    - destruct (decide (ws = [])) as [->|Hne]; [done|].
      assert (Forall (fun w => w <> [] /\ no_blank w) ws) as Hwb.
      { apply Forall_and. split; [|done]. eapply Forall_impl; [exact Hw|]. by intros w [? _]. }
      destruct (join_has_ends ws Hne Hwb) as [H1 H2]. rewrite (trim_ends _ H1 H2). destruct H1 as (c & r & E & _). rewrite E. cbn [is_empty]. rewrite <- E.
      apply (join_cons_join ws _ Hne).
    - repeat apply Forall2_app; try (by apply named_tokens; [apply name_plain; set_solver|]); [apply flag_tokens| | |].
      + destruct (label q) as [v|] eqn:El; [|constructor]. specialize (Hl v eq_refl). cbn [mbind option_bind].
        pose proof (named_token "label" v ltac:(apply name_plain; set_solver) Hl) as Hn. unfold named_terms in Hn. cbn [omap list_omap] in Hn.
        destruct (quoted v); [done|]. inversion Hn.
      + destruct (after q) as [a|]; [|constructor]. constructor; [|constructor]. apply day_token; [apply name_plain; set_solver|by apply Ha].
      + destruct (before q) as [b|]; [|constructor]. constructor; [|constructor]. apply day_token; [apply name_plain; set_solver|by apply Hbf]. }
  apply tokenize_join. rewrite <- (take_drop (length ws) (written_tokens q ws)). apply Forall2_app; [|done].
  unfold written_tokens. rewrite take_app_length. clear Hps. induction Hw as [|w ws (Hne & Hq & _) _ IH]; [constructor|].
  apply Forall_cons in Hb as [Hbw Hb]. constructor; [by apply plain_token|]. by apply IH.
Qed.

(** *** Their effect *)

Lemma fold_words st ws : Forall is_word ws -> foldl read_token st ws = (fst st, snd st ++ ws).
Proof.
  intros H. revert st. induction H as [|w ws (_ & _ & E) _ IH]; intros [q u]; cbn; [by rewrite app_nil_r|].
  rewrite IH, E. cbn. by rewrite <- app_assoc.
Qed.

Lemma fold_terms {A} (w : A -> text) (add : A -> Query -> Query) st vs :
  (forall v st, v ∈ vs -> read_token st (w v) = with_query (add v) st) ->
  foldl read_token st (w <$> vs) = (foldl (fun q v => add v q) (fst st) vs, snd st).
Proof.
  revert st. induction vs as [|v vs IH]; intros [q u] Hr; [done|]. cbn. rewrite Hr by by left. rewrite IH; [done|].
  intros x st' Hx. apply Hr. by right.
Qed.

Lemma written_effect q ws : sound (q, ws) -> days_of_query q -> foldl read_token (empty_query, []) (written_tokens q ws) = (q, ws).
Proof.
  intros [Hw Hf Ht Hs Hl Hfree] [Ha Hb]. cbn in *. unfold written_tokens. rewrite !foldl_app. rewrite (fold_words (empty_query, []) ws Hw). cbn [fst snd app].
  rewrite Forall_forall in Hf, Ht, Hs.
  rewrite (fold_terms (named "from") add_from) by (intros; by apply reads_from, Hf).
  rewrite (fold_terms (named "to") add_to) by (intros; by apply reads_to, Ht).
  rewrite (fold_terms (named "subject") add_subject) by (intros; by apply reads_subject, Hs).
  rewrite (fold_terms flag_text add_flag) by (intros; by apply reads_flag). cbn [fst snd].
  assert (forall q0 vs, foldl (fun q v => add_from v q) q0 vs =
    {| free := free q0; from := from q0 ++ vs; to := to q0; subject := subject q0; flags := flags q0; label := label q0; after := after q0; before := before q0 |}) as ->.
  { intros q0 vs. revert q0. induction vs as [|v vs IH]; intros []; cbn; [by rewrite app_nil_r|]. rewrite IH. cbn. by rewrite <- app_assoc. }
  assert (forall q0 vs, foldl (fun q v => add_to v q) q0 vs =
    {| free := free q0; from := from q0; to := to q0 ++ vs; subject := subject q0; flags := flags q0; label := label q0; after := after q0; before := before q0 |}) as ->.
  { intros q0 vs. revert q0. induction vs as [|v vs IH]; intros []; cbn; [by rewrite app_nil_r|]. rewrite IH. cbn. by rewrite <- app_assoc. }
  assert (forall q0 vs, foldl (fun q v => add_subject v q) q0 vs =
    {| free := free q0; from := from q0; to := to q0; subject := subject q0 ++ vs; flags := flags q0; label := label q0; after := after q0; before := before q0 |}) as ->.
  { intros q0 vs. revert q0. induction vs as [|v vs IH]; intros []; cbn; [by rewrite app_nil_r|]. rewrite IH. cbn. by rewrite <- app_assoc. }
  assert (forall q0 vs, foldl (fun q v => add_flag v q) q0 vs =
    {| free := free q0; from := from q0; to := to q0; subject := subject q0; flags := flags q0 ++ vs; label := label q0; after := after q0; before := before q0 |}) as ->.
  { intros q0 vs. revert q0. induction vs as [|v vs IH]; intros []; cbn; [by rewrite app_nil_r|]. rewrite IH. cbn. by rewrite <- app_assoc. }
  cbn [free from to subject flags label after before empty_query app].
  destruct q as [qf qfr qt qs qfl ql qa qb]. cbn in *. subst qf.
  destruct ql as [v|]; cbn; rewrite ?reads_label by (by apply Hl);
    destruct qa as [a|]; cbn; rewrite ?reads_after by (by apply Ha);
    destruct qb as [b|]; cbn; rewrite ?reads_before by (by apply Hb); done.
Qed.

(** C26. A search with no quoted phrase among its free words, whose days are of the
    years 0 to 9999, is read back from the text written for it. *)
Theorem compose_reads_back s : Forall no_blank (free_words s) -> days_of_query (parse s) -> parse (compose (parse s)) = parse s.
Proof.
  intros Hb Hd. unfold parse at 2 3. unfold free_words in *. pose proof (read_all_sound s) as Hs.
  destruct (read_all s) as [q ws] eqn:E. cbn [fst snd] in *.
  assert (days_of_query q) as Hdq.
  { unfold parse, free_words in Hd. rewrite E in Hd. exact Hd. }
  unfold parse, free_words, read_all. rewrite (compose_tokens q ws Hs Hb Hdq), (written_effect q ws Hs Hdq). done.
Qed.

End RoundTrip.

(** ** Dates as chrono writes them *)

#[export] Instance civil_text : DayText := fun a => written (a / 86400 + EPOCH).
#[export] Instance civil_text_laws : DayTextLaws civil_text.
Proof. split. intros t _. unfold day_of, civil_text. rewrite Z.div_mul by done. f_equal. lia. Qed.

(** A text typed; its quotes are written [']. *)
Definition typed (s : string) : text := (fun c => if c =? 39 then QUOTE else c) <$> lit s.

Lemma compose_reads_back_witness :
  let s := typed "FROM:'Ann Example' https://x/a:b invoice is:unread since:2026-02-31 label:'My work' before:next" in
  parse (compose (parse s)) = parse s /\
  compose (parse s) = typed "https://x/a:b invoice before:next from:'Ann Example' is:unread label:'My work' after:2026-03-03".
Proof.
  cbn zeta. split; [|by vm_compute]. apply (compose_reads_back (typed "FROM:'Ann Example' https://x/a:b invoice is:unread since:2026-02-31 label:'My work' before:next")).
  - by apply (bool_decide_unpack _); vm_compute.
  - split; intros a Ha; vm_compute in Ha; [injection Ha as <-|done]. by split; [vm_compute|apply (bool_decide_unpack _); vm_compute].
Defined.

(** A phrase among the free words is written without its quotes: what was
    text is an operator when it is read again. *)
Example a_phrase_becomes_an_operator :
  parse (typed "'re from:ann'") = set_free (lit "re from:ann") empty_query /\
  parse (compose (parse (typed "'re from:ann'"))) = set_free (lit "re") (add_from (lit "ann") empty_query).
Proof. by vm_compute. Qed.

(** Two senders mean either ([any_term_in]); the server is asked for mail
    from both, as the keys of a search are all to hold (RFC 3501, 6.4.4). *)
Example two_senders_are_asked_as_both :
  search_keys false (parse (lit "from:ann from:bob")) = [typed "FROM 'ann'"; typed "FROM 'bob'"].
Proof. by vm_compute. Qed.

End SearchLaws.
