(* ===== verification/Unified.v ===== *)
(** * Several accounts in one list

    Models [meron-core/src/unified.rs] and the request that uses it
    ([messages.unifiedRecent] of [meron-core/src/main.rs], where a source is
    not mail and there is no page of conversations): every account answers
    with a page of its own, the pages are merged, and the cursors of the
    accounts that have more become one.  Walking the list out shows what
    walking each account out shows ([the_walk_shows_every_account]); an
    account that fails once is not asked again
    ([a_failure_ends_an_account]). *)
From S2P Require Import Prelude.
From S2P Require Import Text.
From S2P Require Import Table.
From S2P Require Import Json.
From S2P Require Import ThreadList.

#[local] Open Scope Z_scope.

(** [serde_json] on a map from accounts to cursors. *)
Class CursorsJson := {
  cursors_to_json : gmap text text -> text;
  cursors_from_json : text -> option (gmap text text)
}.

Class CursorsJsonLaws (J : CursorsJson) := { cursors_read_back m : cursors_from_json (cursors_to_json m) = Some m }.

Module Unified.

(** ** The cursor *)

Section WithFormats.
Context {B : Base64} {J : CursorsJson}.

Definition PREFIX : text := lit "unified:".

Definition encode_cursor (cursors : gmap text text) : text := PREFIX ++ b64 (cursors_to_json cursors).

Definition decode_cursor (cursor : text) : option (gmap text text) :=
  encoded ← strip_prefix PREFIX cursor; json ← unb64 encoded; cursors_from_json json.

(** ** Merging *)

Definition as_array (v : Value) : option (list Value) := match v with Array l => Some l | _ => None end.
Definition as_i64 (v : Value) : option Z :=
  match v with Number n => parse_signed (- 2 ^ 63) (2 ^ 63 - 1) n | _ => None end.

Definition items_of (field : text) (v : Value) : list Value := unwrap_or [] (get field v ≫= as_array).
Definition unread_of (v : Value) : Z := unwrap_or 0 (get (lit "folder_unread") v ≫= ThreadList.as_u64).
Definition cursor_of (v : Value) : option text := get_str (lit "next_cursor") v.

Definition date_of (v : Value) : option Z := get (lit "date") v ≫= as_i64.

(** [b.date.cmp(&a.date)] is not [Greater]: the newest first, and what has no
    date last. *)
Definition newer (a b : Value) : bool :=
  match date_of a, date_of b with
  | _, None => true
  | None, Some _ => false
  | Some x, Some y => y <=? x
  end.

Definition Page : Type := text * result text Value.

Record Merged := { items : list Value; next_cursors : gmap text text; folder_unreads : gmap text Z; failures : list (text * text) }.

(** One page of the loop. *)
Definition add_page (field : text) (m : Merged) (p : Page) : Merged :=
  match snd p with
  | Ok v =>
      {| items := items m ++ items_of field v;
         next_cursors := match cursor_of v with Some c => <[fst p := c]> (next_cursors m) | None => next_cursors m end;
         folder_unreads := <[fst p := unread_of v]> (folder_unreads m); failures := failures m |}
  | Err e =>
      {| items := items m; next_cursors := next_cursors m; folder_unreads := folder_unreads m; failures := failures m ++ [(fst p, e)] |}
  end.

Definition no_pages : Merged := {| items := []; next_cursors := ∅; folder_unreads := ∅; failures := [] |}.
Definition merged (field : text) (pages : list Page) : Merged := foldl (add_page field) no_pages pages.

(** The sum of [u64]s, wrapped. *)
Definition total (m : gmap text Z) : Z := foldr Z.add 0 (snd <$> map_to_list m) mod 2 ^ 64.

(** A [serde_json] map is in the order of its keys. *)
Definition unread_members (m : gmap text Z) : list (text * Value) :=
  order_by (fun a b => text_le (fst a) (fst b)) ((fun p => (fst p, Number (show_Z (snd p)))) <$> map_to_list m).

Definition failure_value (f : text * text) : Value :=
  Object [(lit "account_id", String (fst f)); (lit "message", String (snd f))].

Definition merge_pages (pages : list Page) (field : text) : Value :=
  let m := merged field pages in
  Object ([(field, Array (order_by newer (items m)));
           (lit "folder_unread", Number (show_Z (total (folder_unreads m))));
           (lit "folder_unreads", Object (unread_members (folder_unreads m)));
           (lit "failures", Array (failure_value <$> failures m))]
          ++ if bool_decide (next_cursors m = ∅) then []
             else [(lit "next_cursor", String (encode_cursor (next_cursors m)))]).

(** ** The request *)

(** What is asked: the accounts in the list, the folder each has for the
    role, and the page it answers with from a cursor. *)
Record Sources := {
  accounts : list (option text * option bool);
  folder_for_role : text -> result text (option text);
  recent : text -> text -> option text -> result text Value
}.

(** The accounts in the unified list that are asked for a page. *)
Definition asked (s : Sources) (cursors : gmap text text) : list text :=
  base.filter (fun a => cursors = ∅ \/ is_Some (cursors !! a))
    (omap fst (base.filter (fun a => unwrap_or true (snd a) = true) (accounts s))).

(** The loop over the accounts; one without a folder for the role drops out,
    and a failing look for it ends the request. *)
Fixpoint folders_of (s : Sources) (accs : list text) : result text (list (text * text)) :=
  match accs with
  | [] => Ok []
  | a :: rest =>
      f ← folder_for_role s a;
      fs ← folders_of s rest;
      Ok (match f with Some f => (a, f) :: fs | None => fs end)
  end.

Definition unified_recent (s : Sources) (before : option text) : result text Value :=
  let cursors := unwrap_or ∅ (before ≫= decode_cursor) in
  fs ← folders_of s (asked s cursors);
  Ok (merge_pages ((fun af => (fst af, recent s (fst af) (snd af) (cursors !! (fst af)))) <$> fs) (lit "threads")).

End WithFormats.
End Unified.

(** * The list of several accounts, walked out

    Asked again with the cursor of each answer, the unified list shows what
    each account shows when it is walked out alone, as long as every page
    comes ([the_walk_shows_every_account]); an account whose page fails is
    left out of the rest of the walk ([a_failure_ends_an_account]). *)

#[local] Open Scope Z_scope.

Module UnifiedLaws.
Import Unified.

Section Walk.
Context {B : Base64} {J : CursorsJson} {BL : Base64Laws B} {JL : CursorsJsonLaws J}.
Implicit Types (s : Sources) (af : text * text) (m : gmap text text).

Lemma cursor_read_back m : decode_cursor (encode_cursor m) = Some m.
Proof.
  unfold decode_cursor, encode_cursor. rewrite strip_prefix_app. cbn [mbind option_bind]. rewrite unb64_b64. cbn [mbind option_bind].
  apply cursors_read_back.
Qed.

(** ** One account, and all of them *)

Definition THREADS : text := lit "threads".

Fixpoint own s (n : nat) af (c : option text) : option (list Value) :=
  match n with
  | O => None
  | S n =>
      match recent s (fst af) (snd af) c with
      | Err _ => None
      | Ok v => match cursor_of v with
                | None => Some (items_of THREADS v)
                | Some c => rest ← own s n af (Some c); Some (items_of THREADS v ++ rest)
                end
      end
  end.

Fixpoint walk s (n : nat) (before : option text) : option (list Value) :=
  match n with
  | O => None
  | S n =>
      match unified_recent s before with
      | Err _ => None
      | Ok v => match cursor_of v with
                | None => Some (items_of THREADS v)
                | Some c => rest ← walk s n (Some c); Some (items_of THREADS v ++ rest)
                end
      end
  end.

Definition included s : list text := omap fst (base.filter (fun a => unwrap_or true (snd a) = true) (accounts s)).

(** ** A merged answer *)

Lemma merge_items field pages : field = THREADS -> items_of THREADS (merge_pages pages field) = order_by newer (items (merged field pages)).
Proof. by intros ->. Qed.

Lemma merge_cursor pages : cursor_of (merge_pages pages THREADS) =
  if bool_decide (next_cursors (merged THREADS pages) = ∅) then None else Some (encode_cursor (next_cursors (merged THREADS pages))).
Proof. unfold merge_pages, cursor_of, get_str, get. by destruct (bool_decide (next_cursors (merged THREADS pages) = ∅)). Qed.

Definition answers (l : list (text * Value)) : list Page := (fun av => (fst av, Ok (snd av))) <$> l.

Lemma merged_answers l : NoDup (fst <$> l) ->
  items (merged THREADS (answers l)) = concat ((fun av => items_of THREADS (snd av)) <$> l) /\
  forall a, next_cursors (merged THREADS (answers l)) !! a = (v ← (list_to_map l : gmap text Value) !! a; cursor_of v).
Proof.
  induction l as [|[a v] l IH] using rev_ind; intros Hnd; [split; [done|]; intros a; cbn; by rewrite lookup_empty|].
  rewrite fmap_app in Hnd. apply NoDup_app in Hnd as (Hnd & Hn & _). destruct (IH Hnd) as [Hi Hc].
  assert (merged THREADS (answers (l ++ [(a, v)])) = add_page THREADS (merged THREADS (answers l)) (a, Ok v)) as ->.
  { unfold merged, answers. by rewrite fmap_app, foldl_app. }
  split.
  - cbn [add_page snd items]. rewrite Hi, fmap_app, concat_app. cbn. by rewrite app_nil_r.
  - intros b. cbn [add_page snd fst next_cursors].
    assert ((list_to_map (l ++ [(a, v)]) : gmap text Value) !! b = if bool_decide (b = a) then Some v else (list_to_map l : gmap text Value) !! b) as ->.
    { assert (a ∉ fst <$> l) as Ha by (intros Hin; apply (Hn a Hin); by left). rewrite list_to_map_app, lookup_union. cbn.
      destruct (bool_decide_reflect (b = a)) as [->|E].
      - rewrite (not_elem_of_list_to_map_1 l a Ha), lookup_insert_eq. done.
      - rewrite lookup_insert_ne, lookup_empty by done. by rewrite right_id by apply _. }
    destruct (bool_decide_reflect (b = a)) as [->|E]; cbn [mbind option_bind].
    + destruct (cursor_of v) as [c|]; [by rewrite lookup_insert_eq|]. rewrite Hc.
      rewrite (not_elem_of_list_to_map_1 l a); [done|]. intros Hin. apply (Hn a Hin). by left.
    + destruct (cursor_of v) as [c|]; [by rewrite lookup_insert_ne by congruence|]. apply Hc.
Qed.

(** ** The accounts asked *)

Lemma folders_filter s (P : text -> Prop) `{forall a, Decision (P a)} accs fs : folders_of s accs = Ok fs ->
  folders_of s (base.filter P accs) = Ok (base.filter (fun af => P (fst af)) fs).
Proof.
  revert fs. induction accs as [|a accs IH]; intros fs E; cbn in E; [by injection E as <-|].
  destruct (folder_for_role s a) as [f|] eqn:Ef; [|done]. cbn in E. destruct (folders_of s accs) as [fs'|] eqn:Er; [|done]. cbn in E.
  injection E as <-. specialize (IH fs' eq_refl). rewrite filter_cons. destruct (decide (P a)) as [Ha|Ha].
  - cbn. rewrite Ef. cbn. rewrite IH. cbn. f_equal. destruct f as [f|]; [by rewrite filter_cons_True|done].
  - rewrite IH. f_equal. destruct f as [f|]; [by rewrite filter_cons_False|done].
Qed.

Lemma folders_accounts s accs fs af : folders_of s accs = Ok fs -> NoDup accs -> (NoDup (fst <$> fs)) /\ (af ∈ fs -> fst af ∈ accs).
Proof.
  intros E Hnd. assert (sublist (fst <$> fs) accs) as Hs.
  { clear Hnd. revert fs E. induction accs as [|a accs IH]; intros fs E; cbn in E; [by injection E as <-|].
    destruct (folder_for_role s a) as [f|]; [|done]. cbn in E. destruct (folders_of s accs) as [fs'|]; [|done]. cbn in E.
    injection E as <-. specialize (IH fs' eq_refl). destruct f; by constructor. }
  split; [by eapply sublist_NoDup|]. intros Hin. eapply elem_of_sublist; [|exact Hs]. by apply list_elem_of_fmap_2.
Qed.

Lemma asked_filter s m : asked s m = base.filter (fun a => m = ∅ \/ is_Some (m !! a)) (included s).
Proof. done. Qed.

Lemma asked_all s : asked s ∅ = included s.
Proof.
  rewrite asked_filter. induction (included s) as [|a l IH]; [done|]. rewrite filter_cons_True by by left. by rewrite IH.
Qed.

(** ** The walk *)

(** What an account shows from here on: its items now, and those after. *)
Definition value_of s m af : Value := match recent s (fst af) (snd af) (m !! fst af) with Ok v => v | Err _ => Null end.

Lemma concat_now_later {A} (f g : text * text -> list A) (P : text * text -> Prop) `{forall x, Decision (P x)} (h : text * text -> list A) l :
  (forall x, x ∈ l -> h x = f x ++ if decide (P x) then g x else []) ->
  concat (h <$> l) ≡ₚ concat (f <$> l) ++ concat (g <$> base.filter P l).
Proof.
  induction l as [|x l IH]; intros Hh; [done|]. cbn [fmap list_fmap concat]. rewrite IH by (intros y Hy; apply Hh; by right).
  rewrite (Hh x) by by left. rewrite filter_cons. destruct (decide (P x)).
  - cbn [fmap list_fmap concat]. rewrite <- !app_assoc. f_equiv. rewrite !app_assoc. f_equiv. apply Permutation_app_comm.
  - by rewrite app_nil_r, app_assoc.
Qed.

Lemma walk_round s fs0 : NoDup (included s) -> folders_of s (included s) = Ok fs0 ->
  forall n m before (w : text * text -> list Value), (0 < n)%nat ->
  unwrap_or ∅ (before ≫= decode_cursor) = m ->
  (forall af, af ∈ base.filter (fun af => m = ∅ \/ is_Some (m !! fst af)) fs0 -> own s n af (m !! fst af) = Some (w af)) ->
  exists all, walk s n before = Some all /\ all ≡ₚ concat (w <$> base.filter (fun af => m = ∅ \/ is_Some (m !! fst af)) fs0).
Proof.
  intros Hnd Hf0. destruct (folders_accounts s (included s) fs0 (lit "", lit "") Hf0 Hnd) as [Hnd0 _].
  induction n as [|n IH]; intros m before w Hn Hm Hown; [lia|].
  set (fs := base.filter (fun af => m = ∅ \/ is_Some (m !! fst af)) fs0) in *.
  assert (NoDup (fst <$> fs)) as Hndf by (eapply sublist_NoDup; [exact Hnd0|]; apply fmap_sublist, sublist_filter).
  set (l := (fun af => (fst af, value_of s m af)) <$> fs).
  assert (fst <$> l = fst <$> fs) as Hl by (unfold l; by rewrite <- list_fmap_compose).
  assert (forall af, af ∈ fs -> recent s (fst af) (snd af) (m !! fst af) = Ok (value_of s m af)) as Hval.
  { intros af Haf. specialize (Hown af Haf). cbn in Hown. unfold value_of. by destruct (recent _ _ _ _). }
  assert (unified_recent s before = Ok (merge_pages (answers l) THREADS)) as Eu.
  { unfold unified_recent. rewrite Hm, asked_filter, (folders_filter s (fun a => m = ∅ \/ is_Some (m !! a)) (included s) fs0 Hf0).
    cbn [mbind result_bind]. do 2 f_equal. unfold answers, l. rewrite <- list_fmap_compose. apply list_fmap_ext.
    intros i af Haf%list_elem_of_lookup_2. cbn. f_equal. by apply Hval. }
  destruct (merged_answers l) as [Hitems Hcur]; [by rewrite Hl|].
  set (m' := next_cursors (merged THREADS (answers l))) in *.
  assert (forall af, af ∈ fs -> m' !! fst af = cursor_of (value_of s m af)) as Hm'.
  { intros af Haf. rewrite Hcur. assert ((list_to_map l : gmap text Value) !! fst af = Some (value_of s m af)) as ->; [|done].
    apply elem_of_list_to_map_1; [by rewrite Hl|]. unfold l. apply list_elem_of_fmap. by exists af. }
  assert (forall a, is_Some (m' !! a) -> exists af, af ∈ fs /\ fst af = a) as Hdom.
  { intros a Ha. rewrite Hcur in Ha. destruct ((list_to_map l : gmap text Value) !! a) as [v|] eqn:E; [|by destruct Ha].
    apply elem_of_list_to_map_2 in E. unfold l in E. apply list_elem_of_fmap in E as (af & [= -> ->] & Haf). by exists af. }
  set (now := fun af => items_of THREADS (value_of s m af)).
  assert (items (merged THREADS (answers l)) = concat (now <$> fs)) as Hnow.
  { rewrite Hitems. unfold l. by rewrite <- list_fmap_compose. }
  set (later := fun af => unwrap_or [] (own s n af (m' !! fst af))).
  assert (forall af, af ∈ fs -> w af = now af ++ if decide (is_Some (m' !! fst af)) then later af else []) as Hw.
  { intros af Haf. specialize (Hown af Haf). cbn in Hown. rewrite (Hval af Haf) in Hown. unfold later. rewrite (Hm' af Haf).
    destruct (cursor_of (value_of s m af)) as [c|].
    - rewrite decide_True by done. destruct (own s n af (Some c)); [|done]. cbn in Hown. by injection Hown as <-.
    - injection Hown as <-. rewrite decide_False by (by intros []). by rewrite app_nil_r. }
  cbn [walk]. rewrite Eu, merge_cursor, merge_items by done. fold m'.
  pose proof (concat_now_later now later (fun af => is_Some (m' !! fst af)) w fs Hw) as Hsplit.
  destruct (bool_decide_reflect (m' = ∅)) as [E|E].
  - eexists. split; [done|]. rewrite Hsplit, order_by_perm, Hnow. assert (base.filter (fun af => is_Some (m' !! fst af)) fs = []) as ->.
    { clear -E. generalize fs; intros l0; induction l0 as [|af l0 IH]; [done|]. rewrite filter_cons_False; [done|]. rewrite E, lookup_empty. by intros []. }
    by rewrite app_nil_r.
  - assert (base.filter (fun af => m' = ∅ \/ is_Some (m' !! fst af)) fs0 = base.filter (fun af => is_Some (m' !! fst af)) fs) as Hfs.
    { unfold fs. rewrite list_filter_filter. apply list_filter_iff. intros af. split.
      - intros [|Hs]; [done|]. split; [done|]. destruct (Hdom _ Hs) as (af' & Haf' & Ea).
        unfold fs in Haf'. apply list_elem_of_filter in Haf' as [Hp _]. by rewrite <- Ea.
      - intros [Hs _]. by right. }
    destruct (IH m' (Some (encode_cursor m')) later) as (all & -> & Hall).
    + apply map_choose in E as (a & c & Ec). destruct (Hdom a) as (af & Haf & <-); [by exists c|].
      specialize (Hown af Haf). cbn in Hown. rewrite (Hval af Haf) in Hown. rewrite (Hm' af Haf) in Ec. rewrite Ec in Hown.
      destruct n; [done|lia].
    + cbn [mbind option_bind]. by rewrite cursor_read_back.
    + intros af. rewrite Hfs. intros [Hs Haf]%list_elem_of_filter. specialize (Hown af Haf). cbn in Hown.
      rewrite (Hval af Haf) in Hown. unfold later. rewrite (Hm' af Haf) in *. destruct Hs as [c Hc]. rewrite Hc in *.
      by destruct (own s n af (Some c)).
    + eexists. split; [done|]. by rewrite Hsplit, order_by_perm, Hnow, Hall, Hfs.
Qed.

(** C22. Walked out from page to page, the unified list shows each item of each
    account once: what each account shows when it is walked out alone. *)
Theorem the_walk_shows_every_account s n fs (w : text * text -> list Value) :
  NoDup (included s) -> folders_of s (included s) = Ok fs -> (0 < n)%nat ->
  (forall af, af ∈ fs -> own s n af None = Some (w af)) ->
  exists all, walk s n None = Some all /\ all ≡ₚ concat (w <$> fs).
Proof.
  intros Hnd Hf Hn Hown. assert (forall m, m = ∅ -> base.filter (fun af => m = ∅ \/ is_Some (m !! fst af)) fs = fs) as E.
  { clear. intros m Hm. induction fs as [|af fs IH]; [done|]. rewrite filter_cons_True by by left. by rewrite IH. }
  assert (unwrap_or ∅ (None ≫= decode_cursor) = (∅ : gmap text text)) as Hm by done.
  specialize (walk_round s fs Hnd Hf n _ None w Hn Hm). rewrite (E ∅ eq_refl). intros Hw. apply Hw.
  intros af Haf. rewrite lookup_empty. by apply Hown.
Qed.

(** An account whose page failed has no cursor in the answer. *)
Lemma failed_is_dropped field pages a e : NoDup (fst <$> pages) -> (a, Err e) ∈ pages ->
  next_cursors (merged field pages) !! a = None.
Proof.
  induction pages as [|[b r] pages IH] using rev_ind; intros Hnd Hin; [by apply not_elem_of_nil in Hin|].
  assert (merged field (pages ++ [(b, r)]) = add_page field (merged field pages) (b, r)) as -> by (unfold merged; by rewrite foldl_app).
  rewrite fmap_app in Hnd. apply NoDup_app in Hnd as (Hnd & Hb & _).
  assert (forall ps x, x ∉ (fst <$> ps) -> next_cursors (merged field ps) !! x = None) as Hnone.
  { intros ps x. induction ps as [|[y q] ps IHp] using rev_ind; intros Hx; [done|].
    assert (merged field (ps ++ [(y, q)]) = add_page field (merged field ps) (y, q)) as -> by (unfold merged; by rewrite foldl_app).
    rewrite fmap_app in Hx. cbn in Hx. rewrite elem_of_app, list_elem_of_singleton in Hx.
    unfold add_page. cbn [fst snd]. destruct q as [v|]; cbn [next_cursors]; [destruct (cursor_of v); [rewrite lookup_insert_ne by naive_solver|]|]; apply IHp; tauto. }
  apply elem_of_app in Hin as [Hin|[= <- <-]%list_elem_of_singleton].
  - assert (a <> b) as Hab. { intros ->. apply (Hb b); [|by left]. apply list_elem_of_fmap. by exists (b, Err e). }
    unfold add_page. cbn [fst snd]. destruct r as [v|]; cbn [next_cursors]; [destruct (cursor_of v); [rewrite lookup_insert_ne by congruence|]|]; by apply IH.
  - cbn. apply Hnone. intros Hin. apply (Hb a Hin). by left.
Qed.

End Walk.
(** ** Two accounts *)

Module Demo.
Import ThreadList.Demo.

(** A map as the number that stands for it. *)
#[export] Instance numbered : CursorsJson :=
  {| cursors_to_json m := show_Z (Z.pos (encode m)); cursors_from_json t := n ← parse_digits t; decode (Z.to_pos n) |}.

#[export] Instance numbered_laws : CursorsJsonLaws numbered.
Proof.
  split. intros m. unfold cursors_from_json, cursors_to_json, numbered. destruct (show_Z_digits (Z.pos (encode m))) as [_ ->]; [lia|].
  cbn [mbind option_bind Z.to_pos]. apply decode_encode.
Qed.

(** Pages given by a table: the account, the cursor, the items, the next. *)
Record row := { account : string; at_ : string; shown : list string; next : option string }.

Definition page (r : row) : Value :=
  Object ([(lit "threads", Array ((fun i => Object [(lit "id", String (lit i))]) <$> shown r)); (lit "folder_unread", Number (lit "1"))]
          ++ match next r with Some c => [(lit "next_cursor", String (lit c))] | None => [] end).

Definition answer (rows : list row) (a f : text) (c : option text) : result text Value :=
  match find_by (fun r => bool_decide (lit (account r) = a) && bool_decide (lit (at_ r) = unwrap_or [] c)) rows with
  | Some r => Ok (page r)
  | None => Err (lit "offline")
  end.

Definition sources (rows : list row) : Sources :=
  {| accounts := [(Some (lit "a"), None); (Some (lit "b"), Some true); (Some (lit "c"), Some false)];
     folder_for_role _ := Ok (Some (lit "INBOX")); recent := answer rows |}.

Definition first_of_a : row := {| account := "a"; at_ := ""; shown := ["a1"; "a2"]; next := Some "1"%string |}.
Definition rest_of_a : row := {| account := "a"; at_ := "1"; shown := ["a3"]; next := None |}.
Definition pages_of_b : list row :=
  [{| account := "b"; at_ := ""; shown := ["b1"]; next := Some "x"%string |};
   {| account := "b"; at_ := "x"; shown := ["b2"]; next := Some "y"%string |};
   {| account := "b"; at_ := "y"; shown := ["b3"]; next := None |}].
Definition rows : list row := first_of_a :: rest_of_a :: pages_of_b.

Definition ids_of (o : option (list Value)) : option (list text) :=
  (fun l : list Value => (fun v => unwrap_or [] (get_str (lit "id") v)) <$> l) <$> o.
Definition names (l : list string) : list text := lit <$> l.

Lemma the_walk_shows_every_account_witness :
  exists all, walk (sources rows) 3 None = Some all /\
    all ≡ₚ concat ((fun af => unwrap_or [] (own (sources rows) 3 af None)) <$> [(lit "a", lit "INBOX"); (lit "b", lit "INBOX")]).
Proof.
  apply (the_walk_shows_every_account (sources rows) 3 [(lit "a", lit "INBOX"); (lit "b", lit "INBOX")]
    (fun af => unwrap_or [] (own (sources rows) 3 af None))).
  - by apply (bool_decide_unpack _); vm_compute.
  - by vm_compute.
  - lia.
  - intros af Haf. apply list_elem_of_In in Haf as [<-|[<-|[]]]; by vm_compute.
Defined.

Example the_walk : ids_of (walk (sources rows) 3 None) = Some (names ["a1"; "a2"; "b1"; "a3"; "b2"; "b3"]%string).
Proof. by vm_compute. Qed.

(** The second page of [a] does not come. The list goes on without [a]:
    the third request names [b] alone, whatever [a] would answer by then. *)
Definition broken : list row := first_of_a :: pages_of_b.

Example a_failure_ends_an_account :
  let c1 := encode_cursor (list_to_map [(lit "a", lit "1"); (lit "b", lit "x")]) in
  let c2 := encode_cursor (list_to_map [(lit "b", lit "y")]) in
  ok (unified_recent (sources rows) None) ≫= cursor_of = Some c1 /\
  ok (unified_recent (sources broken) (Some c1)) ≫= cursor_of = Some c2 /\
  ids_of (items_of THREADS <$> ok (unified_recent (sources rows) (Some c2))) = Some (names ["b3"]%string).
Proof. by vm_compute. Qed.

End Demo.
End UnifiedLaws.
