(* ===== verification/Overlap.v ===== *)
(** * Which of the person's own events a proposed time falls on

    Models [meron-core/src/calendar/overlap.rs].  The statement looks in a
    window two days wider than the time proposed, and the exact test is made
    after it: nothing that overlaps is missed, in any zone
    ([the_window_misses_nothing]), and what is said to overlap is exactly
    what does ([overlapping_is_exact]). *)
From S2P Require Import Prelude.
From S2P Require Import Text.
From S2P Require Import Table.
#[local] Open Scope Z_scope.

Module Overlap.

(** The columns of a kept event that are read here. *)
Record Event := {
  id : text; calendar_id : text; series_id : option text; subject : text; start : Z; end_ : Z; all_day : bool
}.

Record EventRow := {
  e_account : text; event : Event; is_cancelled : bool; free_busy : option text; my_response : option text
}.
Record CalendarRow := { c_account : text; provider_id : text; kind : text }.
Record Db := { calendar_events : list EventRow; calendars : list CalendarRow }.

Record Overlap := {
  o_account : text; o_calendar_id : text; event_id : text; o_subject : text; o_start : Z; o_end : Z; o_all_day : bool
}.

(** ** Whose event it is *)

(** [ics::occurrence_of] *)
Definition occurrence_of (i : text) : option (text * Z) :=
  '(uid, at_) ← rsplit_once 64 i;
  start ← parse_signed (- 2 ^ 63) (2 ^ 63 - 1) at_;
  Some (uid, start).

Definition from_uid (key i : text) : bool :=
  let i := unwrap_or i (strip_prefix (lit "local:import:") i) in
  is_some_and (fun p => bool_decide (fst p = key)) (occurrence_of i).

Definition is_of (e : Event) (key : text) : bool :=
  if is_empty key then false
  else bool_decide (id e = key) || bool_decide (series_id e = Some key) || from_uid key (id e).

(** ** The test *)

Definition overlaps (s e : Z) (whole_day : bool) (offset : Z) (ev : Event) : bool :=
  let '(s, e, es, ee) :=
    match whole_day, all_day ev with
    | false, true => (s + offset, e + offset, start ev, end_ ev)
    | true, false => (s, e, start ev + offset, end_ ev + offset)
    | _, _ => (s, e, start ev, end_ ev)
    end in
  let ee := Z.max ee (es + 1) in
  (s <? ee) && (es <? e).

(** ** The statement *)

Definition margin : Z := 2 * 86400.

Definition lower_is_not (word : string) (o : option text) : bool :=
  negb (bool_decide (to_ascii_lowercase (unwrap_or [] o) = lit word)).

(** The calendars an event is joined with. *)
Definition own_calendar (db : Db) (r : EventRow) : bool :=
  existsb (fun c => bool_decide (c_account c = e_account r) && bool_decide (provider_id c = calendar_id (event r))
                    && negb (bool_decide (kind c = lit "subscribed"))) (calendars db).

(** The events that count: a calendar of the person's own, not cancelled, not
    free, not declined. *)
Definition counts (db : Db) (account : option text) (r : EventRow) : bool :=
  is_none_or (fun a => bool_decide (e_account r = a)) account && own_calendar db r && negb (is_cancelled r)
  && lower_is_not "free" (free_busy r) && lower_is_not "decline" (my_response r).

Definition in_window (s e : Z) (r : EventRow) : bool :=
  (s - margin <? end_ (event r)) && (start (event r) <? e + margin).

(** [ORDER BY e.start_utc, e.subject, e.account, e.event_id] *)
Definition earliest (a b : EventRow) : bool :=
  let t (x y : text) (k : bool) := if bool_decide (x = y) then k else text_le x y in
  if start (event a) =? start (event b)
  then t (subject (event a)) (subject (event b)) (t (e_account a) (e_account b) (text_le (id (event a)) (id (event b))))
  else start (event a) <? start (event b).

Definition said (r : EventRow) : Overlap :=
  {| o_account := e_account r; o_calendar_id := calendar_id (event r); event_id := id (event r);
     o_subject := subject (event r); o_start := start (event r); o_end := end_ (event r); o_all_day := all_day (event r) |}.

Definition overlapping (db : Db) (account : option text) (s e : Z) (whole_day : bool) (offset : Z) (exclude : list text) : list Overlap :=
  if e <=? s then []
  else
    said <$> select (fun r => negb (existsb (is_of (event r)) exclude))
      (select (fun r => overlaps s e whole_day offset (event r))
        (order_by earliest (select (fun r => counts db account r && in_window s e r) (calendar_events db)))).

(** ** What is shown *)

(** An offset of a zone, and an event that does not end before it starts. *)
Definition zone (offset : Z) : Prop := - 86400 < offset < 86400.
Definition sane (ev : Event) : Prop := start ev <= end_ ev.

(** Whatever overlaps the time proposed is in the window of the statement. *)
Lemma the_window_misses_nothing s e whole_day offset r : zone offset -> sane (event r) -> s < e ->
  overlaps s e whole_day offset (event r) = true -> in_window s e r = true.
Proof.
  unfold zone, sane, overlaps, in_window, margin. intros Hz Hs He.
  destruct whole_day, (all_day (event r)); rewrite !andb_true_iff, !Z.ltb_lt; lia.
Qed.

Lemma chosen_both {R} (p q : R -> bool) t : select p (select q t) = select (fun r => q r && p r) t.
Proof.
  unfold select. rewrite list_filter_filter. apply list_filter_iff. intros r. rewrite andb_true_iff. tauto.
Qed.

(** C27. What is said to overlap is what does: the events that count, overlap the
    time proposed and are not excluded, the earliest first; the window has no
    part in it. *)
Theorem overlapping_is_exact db account s e whole_day offset exclude : zone offset -> s < e ->
  Forall (fun r => sane (event r)) (calendar_events db) ->
  overlapping db account s e whole_day offset exclude ≡ₚ
  said <$> select (fun r => counts db account r && overlaps s e whole_day offset (event r)
                            && negb (existsb (is_of (event r)) exclude)) (calendar_events db).
Proof.
  intros Hz He Hs. unfold overlapping. destruct (Z.leb_spec e s); [lia|]. apply fmap_Permutation.
  transitivity (select (fun r => negb (existsb (is_of (event r)) exclude))
    (select (fun r => overlaps s e whole_day offset (event r)) (select (fun r => counts db account r && in_window s e r) (calendar_events db)))).
  { unfold select. by rewrite order_by_perm. }
  rewrite !chosen_both. apply reflexive_eq. unfold select. generalize dependent (calendar_events db). intros t0 Hs. induction Hs as [|r t Hr _ IH]; [done|]. rewrite !filter_cons.
  assert (counts db account r && in_window s e r && (overlaps s e whole_day offset (event r))
    = counts db account r && overlaps s e whole_day offset (event r)) as Ew.
  { destruct (overlaps s e whole_day offset (event r)) eqn:Eo; [|by rewrite !andb_false_r].
    by rewrite (the_window_misses_nothing s e whole_day offset r Hz Hr He Eo), !andb_true_r. }
  rewrite andb_assoc, Ew, IH. done.
Qed.

(** ** A day of two events *)

Definition at_ten : EventRow :=
  {| e_account := lit "a"; is_cancelled := false; free_busy := None; my_response := None;
     event := {| id := lit "m@36000"; calendar_id := lit "c"; series_id := None; subject := lit "Meeting"; start := 36000; end_ := 39600; all_day := false |} |}.
Definition holiday : EventRow :=
  {| e_account := lit "a"; is_cancelled := false; free_busy := Some (lit "Free"); my_response := None;
     event := {| id := lit "h"; calendar_id := lit "c"; series_id := None; subject := lit "Holiday"; start := 0; end_ := 86400; all_day := true |} |}.
Definition day : Db :=
  {| calendar_events := [at_ten; holiday]; calendars := [{| c_account := lit "a"; provider_id := lit "c"; kind := lit "caldav" |}] |}.

Lemma overlapping_is_exact_witness :
  overlapping day None 37800 38000 false 3600 [] ≡ₚ [said at_ten].
Proof.
  apply (overlapping_is_exact day None 37800 38000 false 3600 []); [unfold zone; lia|lia|].
  repeat constructor; unfold sane; cbn; lia.
Defined.

Example excluded_by_its_uid : overlapping day None 37800 38000 false 3600 [lit "m"] = [].
Proof. by vm_compute. Qed.

End Overlap.
