(* ===== verification/Spam.v ===== *)
(** * Spam the reader has taught the engine about

    Models [meron-core/src/spam.rs] and the spam functions of
    [meron-core/src/store/mod.rs]: what the reader said of a message
    ([spam_judgments]), the counts learned from it per sender and per word
    ([sender_spam], [spam_triggers]), the senders blocked and allowed
    ([sender_lists]), the verdict shown with a message, undo, and what is
    carried along when messages move.  The two tables of counts are alike:
    a row is a [CountRow], its key an address or a word. *)
From S2P Require Import Prelude.
From S2P Require Import Text.
From S2P Require Import Table.
From S2P Require Import Json.
From S2P Require Import ThreadList.
#[local] Open Scope Z_scope.

(** [serde_json::from_str] *)
Class JsonText := json_from_str : text -> option Value.

Module Spam.

(** ** The verdict *)

Definition TRIGGER_MIN_COUNT : Z := 3.
Definition TRIGGER_MIN_RATIO : Z := 3.
Definition SENDER_MIN_LEAD : Z := 2.

Record Signals := {
  sender_spam_count : Z;
  sender_ham_count : Z;
  trigger_words : list text;
  listed : option bool
}.

Inductive Reason := YouBlocked | YouAllowed | SenderMarkedBefore | TriggerWords | NothingKnown.

Record Verdict := { is_spam : bool; reasons : list Reason }.

Definition saturating_sub (a b : Z) : Z := Z.max 0 (a - b).

Definition verdict (s : Signals) : Verdict :=
  match listed s with
  | Some false => {| is_spam := false; reasons := [YouAllowed] |}
  | Some true => {| is_spam := true; reasons := [YouBlocked] |}
  | None =>
      let sender_says_spam := SENDER_MIN_LEAD <=? saturating_sub (sender_spam_count s) (sender_ham_count s) in
      let reasons := (if sender_says_spam then [SenderMarkedBefore] else [])
                     ++ (if is_nil (trigger_words s) then [] else [TriggerWords]) in
      {| is_spam := sender_says_spam || negb (is_nil (trigger_words s));
         reasons := if is_nil reasons then [NothingKnown] else reasons |}
  end.

(** The [f64]s of the code are exact: the counts are [u32]s. *)
Definition is_trigger (spam_count ham_count : Z) : bool :=
  (TRIGGER_MIN_COUNT <=? spam_count) && (TRIGGER_MIN_RATIO * Z.max ham_count 1 <=? spam_count).

(** [Vec::dedup] *)
Fixpoint dedup (l : list text) : list text :=
  match l with
  | a :: (b :: _) as r => if bool_decide (a = b) then dedup r else a :: dedup r
  | _ => l
  end.

(** ** The tables *)

Record SpamJudgmentState := { spam : bool; from_addr : text; subject : text }.

#[export] Instance SpamJudgmentState_eq_dec : EqDecision SpamJudgmentState.
Proof. solve_decision. Defined.

Record Message := {
  id : Z; account : text; folder : text; uid : Z; m_from_addr : option text; m_subject : option text;
  thread_key : option text; date : Z; json : text; m_spam : option bool
}.
Record Judgment := { j_account : text; message_id : Z; state : SpamJudgmentState }.
Record CountRow := { c_account : text; key : text; spam_count : Z; ham_count : Z }.
Record ListRow := { l_account : text; pattern : text; allow : bool }.

Record Db := {
  messages : list Message;
  sender_spam : list CountRow;
  spam_triggers : list CountRow;
  spam_judgments : list Judgment;
  sender_lists : list ListRow
}.

Definition with_messages (f : list Message -> list Message) (db : Db) : Db :=
  {| messages := f (messages db); sender_spam := sender_spam db; spam_triggers := spam_triggers db;
     spam_judgments := spam_judgments db; sender_lists := sender_lists db |}.
Definition with_senders (f : list CountRow -> list CountRow) (db : Db) : Db :=
  {| messages := messages db; sender_spam := f (sender_spam db); spam_triggers := spam_triggers db;
     spam_judgments := spam_judgments db; sender_lists := sender_lists db |}.
Definition with_triggers (f : list CountRow -> list CountRow) (db : Db) : Db :=
  {| messages := messages db; sender_spam := sender_spam db; spam_triggers := f (spam_triggers db);
     spam_judgments := spam_judgments db; sender_lists := sender_lists db |}.
Definition with_judgments (f : list Judgment -> list Judgment) (db : Db) : Db :=
  {| messages := messages db; sender_spam := sender_spam db; spam_triggers := spam_triggers db;
     spam_judgments := f (spam_judgments db); sender_lists := sender_lists db |}.
Definition with_lists (f : list ListRow -> list ListRow) (db : Db) : Db :=
  {| messages := messages db; sender_spam := sender_spam db; spam_triggers := spam_triggers db;
     spam_judgments := spam_judgments db; sender_lists := f (sender_lists db) |}.

(** ** Counts *)

Definition of_key (acc k : text) (r : CountRow) : bool := bool_decide (c_account r = acc) && bool_decide (key r = k).

Definition add_counts (s h : Z) (r : CountRow) : CountRow :=
  {| c_account := c_account r; key := key r; spam_count := spam_count r + s; ham_count := ham_count r + h |}.

Definition is_zero (r : CountRow) : bool := (spam_count r =? 0) && (ham_count r =? 0).

(** The two statements of an adjustment: the upsert and the deletion of a row
    that has come to nothing. *)
Definition adjust (t : list CountRow) (acc k : text) (said_spam : bool) (multiplier : Z) : list CountRow :=
  let '(s, h) := if said_spam then (multiplier, 0) else (0, multiplier) in
  let t := upsert (of_key acc k) {| c_account := acc; key := k; spam_count := s; ham_count := h |} (add_counts s h) t in
  delete_where (fun r => of_key acc k r && is_zero r) t.

Definition counts_at (t : list CountRow) (acc k : text) : option (Z * Z) :=
  (fun r => (spam_count r, ham_count r)) <$> query_row (of_key acc k) t.

(** [as u32] *)
Definition u32 (z : Z) : Z := z mod 2 ^ 32.

Section WithUnicode.
Context `{Unicode}.

Definition tokenize (t : text) : list text :=
  dedup (order_by text_le (base.filter (fun w => (4 <=? length w)%nat = true) (to_lowercase <$> split_on (fun c => negb (is_alphanumeric c)) t))).

Definition address_form (addr : text) : text := to_lowercase (trim addr).

Definition sender_spam_counts (db : Db) (acc addr : text) : Z * Z :=
  match counts_at (sender_spam db) acc (address_form addr) with
  | Some (s, h) => (u32 s, u32 h)
  | None => (0, 0)
  end.

Definition adjust_sender_spam (db : Db) (acc addr : text) (said_spam : bool) (multiplier : Z) : Db :=
  let addr := address_form addr in
  if is_empty addr then db else with_senders (fun t => adjust t acc addr said_spam multiplier) db.

Definition note_sender_spam (db : Db) (acc addr : text) (said_spam : bool) : Db :=
  let addr := address_form addr in
  if is_empty addr then db else adjust_sender_spam db acc addr said_spam 1.

Definition adjust_spam_trigger_words (db : Db) (acc subj : text) (said_spam : bool) (multiplier : Z) : Db :=
  with_triggers (fun t => foldl (fun t w => adjust t acc w said_spam multiplier) t (tokenize subj)) db.

Definition note_spam_trigger_words (db : Db) (acc subj : text) (said_spam : bool) : Db :=
  adjust_spam_trigger_words db acc subj said_spam 1.

Definition spam_trigger_words (db : Db) (acc subj : text) : list text :=
  base.filter (fun w => is_some_and (fun c => is_trigger (u32 (fst c)) (u32 (snd c))) (counts_at (spam_triggers db) acc w) = true)
    (tokenize subj).

(** ** Blocked and allowed senders *)

Definition valid_domain (d : text) : bool :=
  contains_char 46 d && negb (existsb (fun c => is_whitespace c || (c =? 64)) d).

Definition sender_pattern (t : text) : option text :=
  let t := to_lowercase (trim_matches (fun c => (c =? 60) || (c =? 62)) (trim t)) in
  match split_once 64 t with
  | Some (local, domain) =>
      if is_empty local then if valid_domain domain then Some (64 :: domain) else None
      else if valid_domain domain && negb (existsb is_whitespace local) then Some t else None
  | None => if valid_domain t then Some (64 :: t) else None
  end.

Definition of_pattern (acc p : text) (r : ListRow) : bool := bool_decide (l_account r = acc) && bool_decide (pattern r = p).

(** The closure [lookup]. *)
Definition blocked (db : Db) (acc p : text) : option bool :=
  (fun r => negb (allow r)) <$> query_row (of_pattern acc p) (sender_lists db).

Definition sender_listed (db : Db) (acc from : text) : option bool :=
  let addr := address_form from in
  if is_empty addr then None
  else
    let domain := match rsplit_once 64 addr with Some (_, d) => 64 :: d | None => [] end in
    match blocked db acc addr with
    | Some b => Some b
    | None => if is_empty domain then None else blocked db acc domain
    end.

Definition spam_signals (db : Db) (acc from subj : text) : Signals :=
  let '(s, h) := sender_spam_counts db acc from in
  {| sender_spam_count := s; sender_ham_count := h; trigger_words := spam_trigger_words db acc subj;
     listed := sender_listed db acc from |}.

(** The lists, the allowed first, by pattern. *)
Definition listed_before (a b : ListRow) : bool :=
  if Bool.eqb (allow a) (allow b) then text_le (pattern a) (pattern b) else allow a.
Definition lists_of (db : Db) (acc : text) : list (text * bool) :=
  (fun r => (pattern r, allow r)) <$> order_by listed_before (select (fun r => bool_decide (l_account r = acc)) (sender_lists db)).

(** ** The verdicts shown *)

Definition with_id (i : Z) (m : Message) : bool := id m =? i.
Definition set_spam (b : bool) (m : Message) : Message :=
  {| id := id m; account := account m; folder := folder m; uid := uid m; m_from_addr := m_from_addr m;
     m_subject := m_subject m; thread_key := thread_key m; date := date m; json := json m; m_spam := Some b |}.

Definition is_mail (acc : text) (m : Message) : bool := bool_decide (account m = acc) && negb (uid m =? 0).
Definition is_unjudged (m : Message) : bool := bool_decide (m_spam m = None).

Definition verdict_of (db : Db) (acc : text) (m : Message) : bool :=
  is_spam (verdict (spam_signals db acc (unwrap_or [] (m_from_addr m)) (unwrap_or [] (m_subject m)))).

Definition rejudge_spam_rows (db : Db) (acc : text) (only_unjudged : bool) : Db * nat :=
  let rows := select (fun m => is_mail acc m && (negb only_unjudged || is_unjudged m)) (messages db) in
  (with_messages (fun t => foldl (fun t m => update (with_id (id m)) (set_spam (verdict_of db acc m)) t) t rows) db, length rows).

Definition rejudge_spam := rejudge_spam_rows.

Inductive Error := NoPattern.

(** One statement; the judging is a transaction after it. *)
Definition write_sender_listed (db : Db) (acc p : text) (a : option bool) : Db :=
  with_lists (fun t =>
    match a with
    | Some a => insert_or_replace (of_pattern acc p) {| l_account := acc; pattern := p; allow := a |} t
    | None => delete_where (of_pattern acc p) t
    end) db.

Definition set_sender_listed (db : Db) (acc t : text) (a : option bool) : result Error (text * Db) :=
  match sender_pattern t with
  | None => Err NoPattern
  | Some p => Ok (p, fst (rejudge_spam (write_sender_listed db acc p a) acc false))
  end.

(** ** What the reader says of a message *)

Definition sql_thread_key (m : Message) : text :=
  match thread_key m with Some (c :: k) => c :: k | _ => lit "uid:" ++ show_Z (uid m) end.

Definition of_conversation (acc fol k : text) (m : Message) : bool :=
  bool_decide (account m = acc) && bool_decide (folder m = fol) && bool_decide (sql_thread_key m = k).

(** [date DESC, uid DESC] *)
Definition newer (a b : Message) : bool := if date a =? date b then uid b <=? uid a else date b <? date a.

Definition newest_message_for_spam_judgment (db : Db) (acc fol k : text) : option (Z * text * text) :=
  m ← head (order_by newer (select (of_conversation acc fol k) (messages db)));
  Some (id m, unwrap_or [] (m_from_addr m), unwrap_or [] (m_subject m)).

Definition newest_message_sender_and_subject (db : Db) (acc fol k : text) : option (text * text) :=
  m ← head (order_by newer (select (of_conversation acc fol k) (messages db)));
  Some (unwrap_or [] (m_from_addr m), unwrap_or [] (m_subject m)).

Definition thread_spam_signals (db : Db) (acc fol k : text) : option (text * Signals) :=
  '(from, subj) ← newest_message_sender_and_subject db acc fol k;
  Some (from, spam_signals db acc from subj).

Definition of_message (acc : text) (i : Z) (j : Judgment) : bool := bool_decide (j_account j = acc) && (message_id j =? i).

Definition spam_judgment_state (db : Db) (acc : text) (i : Z) : option SpamJudgmentState :=
  state <$> query_row (of_message acc i) (spam_judgments db).

Record SpamJudgmentChange := {
  ch_account : text; ch_message_id : Z; before : option SpamJudgmentState; after : option SpamJudgmentState
}.

Definition inverse (c : SpamJudgmentChange) : SpamJudgmentChange :=
  {| ch_account := ch_account c; ch_message_id := ch_message_id c; before := after c; after := before c |}.

Record RecordedSpamJudgment := { sender : text; change : SpamJudgmentChange }.

(** What a judgment brought to the counts, added or taken away. *)
Definition adjust_for (db : Db) (acc : text) (s : SpamJudgmentState) (multiplier : Z) : Db :=
  adjust_spam_trigger_words (adjust_sender_spam db acc (from_addr s) (spam s) multiplier) acc (subject s) (spam s) multiplier.

Definition set_state (s : SpamJudgmentState) (j : Judgment) : Judgment :=
  {| j_account := j_account j; message_id := message_id j; state := s |}.

Definition write_spam_judgment (db : Db) (acc : text) (i : Z) (current next : option SpamJudgmentState) : Db :=
  if bool_decide (current = next) then db
  else
    let db := match current with Some c => adjust_for db acc c (-1) | None => db end in
    match next with
    | Some n =>
        let db := with_judgments (upsert (of_message acc i) {| j_account := acc; message_id := i; state := n |} (set_state n)) db in
        adjust_for db acc n 1
    | None => with_judgments (delete_where (of_message acc i)) db
    end.

Definition record_spam_judgment_change (db : Db) (acc fol k : text) (said_spam : bool) : option (RecordedSpamJudgment * Db) :=
  '(i, from, subj) ← newest_message_for_spam_judgment db acc fol k;
  let before := spam_judgment_state db acc i in
  let after :=
    match before with
    | Some previous => if Bool.eqb (spam previous) said_spam then before
                       else Some {| spam := said_spam; from_addr := from; subject := subj |}
    | None => Some {| spam := said_spam; from_addr := from; subject := subj |}
    end in
  let db := write_spam_judgment db acc i before after in
  let db := fst (rejudge_spam_rows db acc false) in
  Some ({| sender := from; change := {| ch_account := acc; ch_message_id := i; before := before; after := after |} |}, db).

Definition record_spam_judgment (db : Db) (acc fol k : text) (said_spam : bool) : option (text * Db) :=
  '(r, db) ← record_spam_judgment_change db acc fol k said_spam; Some (sender r, db).

Definition cached (db : Db) (acc : text) (i : Z) : bool :=
  existsb (fun m => with_id i m && bool_decide (account m = acc)) (messages db).

Definition is_none {A} (o : option A) : bool := match o with None => true | Some _ => false end.

Definition revert_spam_judgment (db : Db) (c : SpamJudgmentChange) : option (SpamJudgmentChange * Db) :=
  let current := spam_judgment_state db (ch_account c) (ch_message_id c) in
  if negb (bool_decide (current = after c)) then None
  else if is_none current && negb (is_none (before c)) && negb (cached db (ch_account c) (ch_message_id c)) then None
  else
    let db := write_spam_judgment db (ch_account c) (ch_message_id c) current (before c) in
    let db := fst (rejudge_spam_rows db (ch_account c) false) in
    Some (inverse c, db).

(** ** Messages that move, and messages that go *)

Section WithJson.
Context {J : JsonText}.

(** [str::trim], and nothing of what is left empty. *)
Definition non_empty_trim (s : text) : option text := let s := trim s in if is_empty s then None else Some s.

Definition gmail_id (v : Value) : option text :=
  match ThreadList.as_u64 v with Some n => Some (show_Z n) | None => as_str v ≫= non_empty_trim end.

Definition stable_cached_message_identity (j : text) : option text :=
  value ← (json_from_str j : option Value);
  match get (lit "gmail_msg_id") value ≫= gmail_id with
  | Some i => Some (lit "gmail:" ++ i)
  | None =>
      s ← get_str (lit "message_id") value;
      i ← non_empty_trim s;
      Some (lit "message-id:" ++ to_lowercase i)
  end.

Definition in_folder (acc fol : text) (m : Message) : bool := bool_decide (account m = acc) && bool_decide (folder m = fol).
Definition with_uid (acc fol : text) (u : Z) (m : Message) : bool := in_folder acc fol m && (uid m =? u).

Definition target_ids (db : Db) (acc fol : text) : gmap text Z :=
  foldl (fun ids m => match stable_cached_message_identity (json m) with Some i => <[i := id m]> ids | None => ids end)
    ∅ (select (in_folder acc fol) (messages db)).

Definition set_message (i : Z) (j : Judgment) : Judgment :=
  {| j_account := j_account j; message_id := i; state := state j |}.

(** One uid of the loop; each [None] is a [continue]. *)
Definition transfer_one (acc source : text) (targets : gmap text Z) (db : Db) (u : Z) : option Db :=
  s ← query_row (with_uid acc source u) (messages db);
  identity ← stable_cached_message_identity (json s);
  target ← targets !! identity;
  if target =? id s then None
  else
    _ ← spam_judgment_state db acc (id s);
    let db := match spam_judgment_state db acc target with
              | Some t => with_judgments (delete_where (of_message acc target)) (adjust_for db acc t (-1))
              | None => db
              end in
    Some (with_judgments (update (of_message acc (id s)) (set_message target)) db).

Definition preserve_spam_judgments_for_move (db : Db) (acc source target : text) (uids : list Z) : Db * nat :=
  if bool_decide (source = target) || is_nil uids then (db, 0%nat)
  else
    let targets := target_ids db acc target in
    foldl (fun '(db, n) u => match transfer_one acc source targets db u with Some db' => (db', S n) | None => (db, n) end) (db, 0%nat) uids.

End WithJson.

(** [DELETE FROM messages WHERE p]; the judgments of what goes are deleted
    with it ([ON DELETE CASCADE]). *)
Definition drop_messages (p : Message -> bool) (db : Db) : Db :=
  let gone := id <$> select p (messages db) in
  with_judgments (delete_where (fun j => bool_decide (message_id j ∈ gone))) (with_messages (delete_where p) db).

Definition delete_messages_by_uid (db : Db) (acc fol : text) (uids : list Z) : Db * nat :=
  foldl (fun '(db, n) u => (drop_messages (with_uid acc fol u) db, (n + changed (with_uid acc fol u) (messages db))%nat)) (db, 0%nat) uids.

(** [delete_account], what it does to these tables. *)
Definition forget_account (acc : text) (db : Db) : Db :=
  let db := drop_messages (fun m => bool_decide (account m = acc)) db in
  {| messages := messages db;
     sender_spam := delete_where (fun r => bool_decide (c_account r = acc)) (sender_spam db);
     spam_triggers := delete_where (fun r => bool_decide (c_account r = acc)) (spam_triggers db);
     spam_judgments := delete_where (fun j => bool_decide (j_account j = acc)) (spam_judgments db);
     sender_lists := delete_where (fun r => bool_decide (l_account r = acc)) (sender_lists db) |}.

End WithUnicode.
End Spam.
