(* ===== verification/SpamLaws.v ===== *)
(** * The counts are what was judged

    Whatever the reader judges, corrects, undoes, blocks, moves or removes,
    the counts learned per sender and per word are those of the judgments
    that stand and of the messages that have gone from the cache
    ([counts_are_what_was_judged]); taking a judgment back puts the one
    before it back and touches no other ([a_revert_is_exact]); and what is
    shown with a message is the verdict of what is learned
    ([verdicts_are_of_what_is_learned]).  A message that goes and is fetched
    and judged again counts twice ([a_message_seen_again_counts_twice]). *)
From S2P Require Import Prelude.
From S2P Require Import Text.
From S2P Require Import Table.
From S2P Require Import Json.
From S2P Require Import ThreadList.
From S2P Require Import Spam.
#[local] Open Scope Z_scope.

Module SpamLaws.
Import Spam.

(** ** One table of counts *)

Definition row_key (r : CountRow) : text * text := (c_account r, key r).

Record clean (t : list CountRow) : Prop := {
  clean_keys : NoDup (row_key <$> t);
  clean_rows : Forall (fun r => is_zero r = false) t
}.

Definition count (b : bool) (t : list CountRow) (acc k : text) : Z :=
  match counts_at t acc k with Some (s, h) => if b then s else h | None => 0 end.

Lemma of_key_spec acc k r : of_key acc k r = bool_decide (row_key r = (acc, k)).
Proof.
  unfold of_key, row_key. rewrite <- bool_decide_and. apply bool_decide_ext. split; [intros [-> ->]; done|by intros [= -> ->]].
Qed.

Lemma of_key_other acc k acc' k' r : (acc', k') <> (acc, k) -> of_key acc k r = true -> of_key acc' k' r = false.
Proof. rewrite !of_key_spec, bool_decide_eq_true, bool_decide_eq_false. congruence. Qed.

Lemma upsert_key {R K} `{EqDecision K} (key : R -> K) (same : R -> bool) r f t :
  (forall x, same x = bool_decide (key x = key r)) -> (forall x, key (f x) = key x) ->
  NoDup (key <$> t) -> NoDup (key <$> upsert same r f t).
Proof.
  intros Hs Hf Hn. unfold upsert. destruct (existsb same t) eqn:E; [by rewrite update_key|].
  rewrite fmap_app. apply NoDup_app. split_and!; [done| |apply NoDup_singleton].
  intros k Hk Hk'%list_elem_of_singleton. cbn in Hk'. subst k. apply list_elem_of_fmap in Hk as (x & Hx & Hin).
  pose proof (existsb_none _ _ E x Hin) as Ef. rewrite Hs, bool_decide_eq_false in Ef. congruence.
Qed.

Section Adjust.
Context (acc k : text) (b : bool) (m : Z).

Definition deltas : Z * Z := if b then (m, 0) else (0, m).
Definition adjusted (t : list CountRow) : list CountRow :=
  upsert (of_key acc k) {| c_account := acc; key := k; spam_count := fst deltas; ham_count := snd deltas |}
    (add_counts (fst deltas) (snd deltas)) t.

Lemma adjust_eq t : adjust t acc k b m = delete_where (fun r => of_key acc k r && is_zero r) (adjusted t).
Proof. unfold adjust, adjusted, deltas. by destruct b. Qed.

Lemma adjusted_keys t : NoDup (row_key <$> t) -> NoDup (row_key <$> adjusted t).
Proof. apply upsert_key; [|done]. intros x. by rewrite of_key_spec. Qed.

Lemma adjust_clean t : clean t -> clean (adjust t acc k b m).
Proof.
  intros [Hk Hr]. rewrite adjust_eq. constructor; [by apply delete_where_key, adjusted_keys|].
  apply Forall_forall. intros r [Hin Hd]%elem_of_delete_where. destruct (of_key acc k r) eqn:Ek; [done|].
  unfold adjusted, upsert in Hin. destruct (existsb (of_key acc k) t).
  - apply elem_of_update in Hin as (r0 & Hin & ->). destruct (of_key acc k r0) eqn:E0.
    + change (of_key acc k (add_counts (fst deltas) (snd deltas) r0)) with (of_key acc k r0) in Ek. congruence.
    + by apply (proj1 (Forall_forall _ _) Hr).
  - apply elem_of_app in Hin as [Hin| ->%list_elem_of_singleton]; [by apply (proj1 (Forall_forall _ _) Hr)|].
    rewrite of_key_spec, bool_decide_eq_false in Ek. done.
Qed.

Lemma count_adjust b' t a k' : NoDup (row_key <$> t) ->
  count b' (adjust t acc k b m) a k' =
  count b' t a k' + (if bool_decide ((a, k') = (acc, k)) && Bool.eqb b b' then m else 0).
Proof.
  intros Hn. unfold count, counts_at. rewrite adjust_eq. case_bool_decide as Hd.
  - injection Hd as -> ->. rewrite query_row_delete.
    2:{ intros r r' Hr Hr'. rewrite !of_key_spec. by apply (key_unique row_key (acc, k) (adjusted t)); [apply adjusted_keys|..]. }
    unfold adjusted. rewrite query_row_upsert; [|by rewrite of_key_spec, bool_decide_true|done].
    unfold is_zero, add_counts, deltas. destruct (query_row (of_key acc k) t) as [r|] eqn:Eq; cbn.
    + apply query_row_Some in Eq as [_ Eq]. rewrite of_key_spec in *. cbn. unfold row_key in *. cbn. rewrite Eq. cbn.
      destruct b, b'; cbn; match goal with |- context [(?x =? 0) && (?y =? 0)] => destruct (Z.eqb_spec x 0), (Z.eqb_spec y 0) end; cbn; lia.
    + rewrite of_key_spec, bool_decide_true by done. destruct b, b'; cbn; destruct (Z.eqb_spec m 0); cbn; lia.
  - rewrite query_row_delete_other by (intros x [Hx _]%andb_true_iff; by apply (of_key_other acc k)).
    unfold adjusted. rewrite query_row_upsert_other; [cbn; lia| |intros x; by apply of_key_other|done].
    rewrite of_key_spec. cbn. by rewrite bool_decide_false by (unfold row_key; cbn; congruence).
Qed.

End Adjust.

Lemma adjusts_clean acc ws b m t : clean t -> clean (foldl (fun t w => adjust t acc w b m) t ws).
Proof. revert t. induction ws as [|w ws IH]; intros t Ht; [done|]. by apply IH, adjust_clean. Qed.

Lemma count_adjusts acc ws b m b' t a k : NoDup ws -> clean t ->
  count b' (foldl (fun t w => adjust t acc w b m) t ws) a k =
  count b' t a k + (if bool_decide (a = acc) && bool_decide (k ∈ ws) && Bool.eqb b b' then m else 0).
Proof.
  intros Hn. revert t. induction Hn as [|w ws Hw Hn IH]; intros t Ht; cbn.
  - rewrite (bool_decide_false (k ∈ [])) by apply not_elem_of_nil. rewrite andb_false_r. cbn. lia.
  - rewrite IH by by apply adjust_clean. rewrite count_adjust by apply clean_keys, Ht.
    destruct (decide (a = acc)) as [->|Ha].
    2:{ rewrite !(bool_decide_false (a = acc)), bool_decide_false by congruence. cbn. lia. }
    rewrite !(bool_decide_true (acc = acc)) by done. cbn. destruct (decide (k = w)) as [->|Hk].
    + rewrite (bool_decide_true ((acc, w) = (acc, w))), (bool_decide_false (w ∈ ws)), (bool_decide_true (w ∈ w :: ws)) by (done || by left). cbn. lia.
    + rewrite (bool_decide_false ((acc, k) = (acc, w))) by congruence. rewrite (bool_decide_ext (k ∈ w :: ws) (k ∈ ws)); [cbn; lia|].
      rewrite elem_of_cons. tauto.
Qed.

(** ** The words of a subject *)

Lemma dedup_subset l x : x ∈ dedup l -> x ∈ l.
Proof.
  induction l as [|a l IH]; [done|]. destruct l as [|b l]; [done|]. cbn [dedup]. case_bool_decide.
  - intros Hx. right. by apply IH.
  - rewrite elem_of_cons. intros [->|Hx]; [by left|]. right. by apply IH.
Qed.

Lemma dedup_nodup l : StronglySorted (fun a b => text_le a b = true) l -> NoDup (dedup l).
Proof.
  induction 1 as [|a l Hs IH Ha]; [constructor|]. destruct l as [|b l]; [apply NoDup_singleton|]. cbn [dedup].
  case_bool_decide as Hab; [done|]. constructor; [|done]. intros Hin%(dedup_subset (b :: l)).
  apply StronglySorted_inv in Hs as [_ Hb]. apply Forall_cons in Ha as [Hle _]. apply elem_of_cons in Hin as [->|Hin]; [done|].
  apply Hab. apply text_le_antisym; [done|]. by apply (proj1 (Forall_forall _ _) Hb).
Qed.

Section WithUnicode.
Context `{Unicode}.

Lemma tokens_once t : NoDup (tokenize t).
Proof. apply dedup_nodup, order_by_sorted; [apply text_le_total|apply text_le_trans]. Qed.

(** ** What a judgment brings *)

Definition says_sender (b : bool) (a k : text) (j : Judgment) : bool :=
  bool_decide (j_account j = a) && negb (is_empty k) && bool_decide (address_form (from_addr (state j)) = k) && Bool.eqb (spam (state j)) b.
Definition says_word (b : bool) (a k : text) (j : Judgment) : bool :=
  bool_decide (j_account j = a) && bool_decide (k ∈ tokenize (subject (state j))) && Bool.eqb (spam (state j)) b.

Definition number (p : Judgment -> bool) (js : list Judgment) : Z := Z.of_nat (length (select p js)).
Definition one (b : bool) : Z := if b then 1 else 0.

Lemma number_cons p j js : number p (j :: js) = one (p j) + number p js.
Proof. unfold number, select, one. rewrite filter_cons. destruct (p j); cbn [length]; [rewrite decide_True by done; cbn; lia|by rewrite decide_False]. Qed.
Lemma number_app p js js' : number p (js ++ js') = number p js + number p js'.
Proof. unfold number, select. rewrite filter_app, length_app. lia. Qed.

(** The judgments but for those that pass [q], and those. *)
Lemma number_split p q js : number p js = number p (delete_where q js) + number p (select q js).
Proof.
  induction js as [|j js IH]; [done|]. rewrite number_cons, IH. unfold delete_where, select at 2. rewrite !filter_cons.
  destruct (q j) eqn:E.
  - rewrite decide_False, decide_True by done. rewrite number_cons. unfold delete_where, select. lia.
  - rewrite decide_True, decide_False by done. rewrite number_cons. unfold delete_where, select. lia.
Qed.

Lemma number_ext p p' js : (forall j, j ∈ js -> p j = p' j) -> number p js = number p' js.
Proof.
  induction js as [|j js IH]; intros Hp; [done|]. rewrite !number_cons.
  rewrite IH by (intros; apply Hp; by right). by rewrite (Hp j) by left.
Qed.

Lemma number_none p js : (forall j, j ∈ js -> p j = false) -> number p js = 0.
Proof.
  intros Hp. rewrite (number_ext p (fun _ => false)) by done. unfold number, select. induction js as [|j js IH]; [done|].
  rewrite filter_cons, decide_False by done. apply IH. intros; apply Hp. by right.
Qed.

Lemma number_fmap p f js : number p (f <$> js) = number (fun j => p (f j)) js.
Proof. induction js as [|j js IH]; [done|]. rewrite fmap_cons, !number_cons. by rewrite IH. Qed.

(** A test that looks at the account and at what was said. *)
Definition stands (p : Judgment -> bool) : Prop :=
  forall j j', j_account j = j_account j' -> state j = state j' -> p j = p j'.

Lemma says_sender_stands b a k : stands (says_sender b a k).
Proof. intros j j' E1 E2. unfold says_sender. by rewrite E1, E2. Qed.
Lemma says_word_stands b a k : stands (says_word b a k).
Proof. intros j j' E1 E2. unfold says_word. by rewrite E1, E2. Qed.

Definition said (acc : text) (i : Z) (s : SpamJudgmentState) : Judgment := {| j_account := acc; message_id := i; state := s |}.

(** ** The counts of some judgments *)

Record Ledger (says : bool -> text -> text -> Judgment -> bool) (t : list CountRow) (js : list Judgment) : Prop := {
  ledger_clean : clean t;
  ledger_count b a k : count b t a k = number (says b a k) js
}.

Record Counted (db : Db) (js : list Judgment) : Prop := {
  senders_counted : Ledger says_sender (sender_spam db) js;
  words_counted : Ledger says_word (spam_triggers db) js
}.

Lemma counted_same db js js' : (forall p, stands p -> number p js' = number p js) -> Counted db js -> Counted db js'.
Proof.
  intros Hn [[C1 N1] [C2 N2]]. split; split; [done| |done|]; intros b a k.
  - by rewrite N1, (Hn _ (says_sender_stands b a k)).
  - by rewrite N2, (Hn _ (says_word_stands b a k)).
Qed.

Lemma counted_adjust db acc s m i js js' :
  (forall p, stands p -> number p js' = number p js + m * one (p (said acc i s))) ->
  Counted db js -> Counted (adjust_for db acc s m) js'.
Proof.
  intros Hn [[C1 N1] [C2 N2]]. split; split.
  - cbn. unfold adjust_sender_spam. destruct (is_empty _); [done|]. by apply adjust_clean.
  - intros b a k. rewrite (Hn _ (says_sender_stands b a k)), <- N1. cbn. unfold adjust_sender_spam, says_sender. cbn.
    destruct (is_empty (address_form (from_addr s))) eqn:Ee.
    + destruct (decide (address_form (from_addr s) = k)) as [<-|Hk].
      * rewrite Ee, andb_false_r. cbn. lia.
      * rewrite (bool_decide_false (_ = k)), andb_false_r by done. cbn. lia.
    + cbn. rewrite count_adjust by apply clean_keys, C1. destruct (decide (k = address_form (from_addr s))) as [->|Hk].
      * rewrite Ee, (bool_decide_true (address_form _ = _)) by done. cbn. destruct (decide (a = acc)) as [->|Ha].
        -- rewrite !bool_decide_true by done. cbn. destruct (Bool.eqb (spam s) b); cbn; lia.
        -- rewrite !bool_decide_false by congruence. cbn. lia.
      * rewrite (bool_decide_false ((a, k) = _)), (bool_decide_false (_ = k)), andb_false_r by congruence. cbn. lia.
  - cbn. apply adjusts_clean. by unfold adjust_sender_spam; destruct (is_empty _).
  - intros b a k. rewrite (Hn _ (says_word_stands b a k)), <- N2. cbn.
    replace (spam_triggers (adjust_sender_spam db acc (from_addr s) (spam s) m)) with (spam_triggers db)
      by (unfold adjust_sender_spam; by destruct (is_empty _)).
    rewrite count_adjusts by (apply tokens_once || done). unfold says_word. cbn.
    rewrite (bool_decide_ext (acc = a) (a = acc)) by (split; congruence).
    destruct (bool_decide (a = acc) && bool_decide (k ∈ tokenize (subject s)) && Bool.eqb (spam s) b); cbn; lia.
Qed.

Lemma adjust_for_keeps db acc s m :
  messages (adjust_for db acc s m) = messages db /\ spam_judgments (adjust_for db acc s m) = spam_judgments db
  /\ sender_lists (adjust_for db acc s m) = sender_lists db.
Proof. unfold adjust_for, adjust_sender_spam. cbn. by destruct (is_empty _). Qed.

(** ** The judgments that stand *)

Definition judgment_key (j : Judgment) : text * Z := (j_account j, message_id j).

Lemma of_message_spec acc i j : of_message acc i j = bool_decide (judgment_key j = (acc, i)).
Proof.
  unfold of_message, judgment_key. destruct (Z.eqb_spec (message_id j) i) as [->|Hi].
  - rewrite andb_true_r. apply bool_decide_ext. split; [by intros ->|by intros [= ->]].
  - rewrite andb_false_r. symmetry. rewrite bool_decide_eq_false. congruence.
Qed.

Lemma of_message_said acc i s : of_message acc i (said acc i s) = true.
Proof. by rewrite of_message_spec, bool_decide_true. Qed.

Lemma select_of_message acc i js : NoDup (judgment_key <$> js) ->
  select (of_message acc i) js = match query_row (of_message acc i) js with Some j => [j] | None => [] end.
Proof.
  intros Hn. unfold query_row. destruct (select (of_message acc i) js) as [|j [|j' l]] eqn:E; [done..|].
  assert (NoDup (judgment_key <$> select (of_message acc i) js)) as Hs.
  { eapply sublist_NoDup; [exact Hn|]. apply fmap_sublist, sublist_filter. }
  assert (forall x, x ∈ select (of_message acc i) js -> judgment_key x = (acc, i)) as Hk.
  { intros x [_ Hx]%elem_of_select. by rewrite of_message_spec, bool_decide_eq_true in Hx. }
  rewrite E in Hs, Hk. cbn in Hs. apply NoDup_cons in Hs as [Hs _]. destruct Hs.
  rewrite (Hk j), (Hk j') by (by left || by right; left). by left.
Qed.

Definition held_of (p : Judgment -> bool) (acc : text) (i : Z) (o : option SpamJudgmentState) : Z :=
  match o with Some s => one (p (said acc i s)) | None => 0 end.

Lemma number_state db p acc i : stands p -> NoDup (judgment_key <$> spam_judgments db) ->
  number p (spam_judgments db) =
  held_of p acc i (spam_judgment_state db acc i) + number p (delete_where (of_message acc i) (spam_judgments db)).
Proof.
  intros Hp Hn. rewrite (number_split p (of_message acc i)), select_of_message by done. unfold spam_judgment_state.
  destruct (query_row (of_message acc i) (spam_judgments db)) as [j|] eqn:E; cbn; [|change (number p []) with 0; lia].
  apply query_row_Some in E as [_ E]. rewrite of_message_spec, bool_decide_eq_true in E. injection E as E _.
  rewrite number_cons, (Hp j (said acc i (state j))) by done. change (number p []) with 0. lia.
Qed.

Lemma delete_upsert {R} (same : R -> bool) r f (t : list R) :
  same r = true -> (forall x, same (f x) = same x) -> delete_where same (upsert same r f t) = delete_where same t.
Proof.
  intros Hr Hf. unfold upsert. destruct (existsb same t).
  - unfold update, delete_where. induction t as [|x t IH]; [done|]. rewrite fmap_cons, !filter_cons.
    destruct (same x) eqn:E; [rewrite Hf, E, !decide_False by done; done|]. rewrite E, !decide_True by done. by rewrite IH.
  - unfold delete_where. rewrite filter_app, filter_cons, decide_False, filter_nil, app_nil_r by congruence. done.
Qed.

Definition put (acc : text) (i : Z) (s : SpamJudgmentState) (js : list Judgment) : list Judgment :=
  upsert (of_message acc i) (said acc i s) (set_state s) js.

Lemma put_keys acc i s js : NoDup (judgment_key <$> js) -> NoDup (judgment_key <$> put acc i s js).
Proof. apply upsert_key; [|done]. intros x. by rewrite of_message_spec. Qed.

Lemma query_put acc i s js : state <$> query_row (of_message acc i) (put acc i s js) = Some s.
Proof.
  unfold put. rewrite query_row_upsert by (apply of_message_said || done). by destruct (query_row _ js).
Qed.

Lemma query_other acc i acc' i' : (acc', i') <> (acc, i) ->
  forall j, of_message acc i j = true -> of_message acc' i' j = false.
Proof. intros Hne j. rewrite !of_message_spec, bool_decide_eq_true, bool_decide_eq_false. congruence. Qed.

Lemma number_put p acc i s js : stands p -> NoDup (judgment_key <$> js) ->
  number p (put acc i s js) = one (p (said acc i s)) + number p (delete_where (of_message acc i) js).
Proof.
  intros Hp Hn. pose proof (number_state (with_judgments (put acc i s) {| messages := []; sender_spam := []; spam_triggers := []; spam_judgments := js; sender_lists := [] |}) p acc i Hp (put_keys acc i s js Hn)) as E.
  unfold spam_judgment_state in E. cbn [spam_judgments with_judgments] in E. rewrite E, query_put. cbn [held_of]. unfold put. by rewrite delete_upsert by (apply of_message_said || done).
Qed.

(** ** One judgment written *)

(** The judgments a database holds, those of messages gone besides, are what
    is counted. *)
Record Balanced (db : Db) (gone : list Judgment) : Prop := {
  balanced_counted : Counted db (spam_judgments db ++ gone);
  balanced_keys : NoDup (judgment_key <$> spam_judgments db)
}.

Lemma balanced_write db gone acc i next : Balanced db gone ->
  Balanced (write_spam_judgment db acc i (spam_judgment_state db acc i) next) gone.
Proof.
  intros [Hc Hn]. unfold write_spam_judgment. case_bool_decide as Hne; [done|].
  set (rest := delete_where (of_message acc i) (spam_judgments db)).
  set (db1 := match spam_judgment_state db acc i with Some c => adjust_for db acc c (-1) | None => db end).
  assert (Counted db1 (rest ++ gone) /\ spam_judgments db1 = spam_judgments db) as [Hc1 E1].
  { unfold db1. destruct (spam_judgment_state db acc i) as [c|] eqn:Es; (split; [|by try apply adjust_for_keeps]).
    - apply (counted_adjust db acc c (-1) i (spam_judgments db ++ gone)); [|done]. intros p Hp.
      rewrite !number_app, (number_state db p acc i Hp Hn), Es. cbn. fold rest. lia.
    - apply (counted_same db (spam_judgments db ++ gone)); [|done]. intros p Hp.
      rewrite !number_app, (number_state db p acc i Hp Hn), Es. cbn. fold rest. lia. }
  destruct next as [n|].
  - split.
    + destruct (adjust_for_keeps (with_judgments (put acc i n) db1) acc n 1) as (_ & E2 & _).
      change (Counted (adjust_for (with_judgments (put acc i n) db1) acc n 1) (spam_judgments (adjust_for (with_judgments (put acc i n) db1) acc n 1) ++ gone)).
      rewrite E2. cbn. rewrite E1. apply (counted_adjust _ acc n 1 i (rest ++ gone)); [|by destruct Hc1].
      intros p Hp. rewrite !number_app, number_put by done. fold rest. lia.
    + rewrite (proj1 (proj2 (adjust_for_keeps _ _ _ _))). cbn. rewrite E1. by apply put_keys.
  - split; cbn; rewrite E1; [by destruct Hc1|]. by apply delete_where_key.
Qed.

Lemma written_state db acc i next a i' : NoDup (judgment_key <$> spam_judgments db) ->
  spam_judgment_state (write_spam_judgment db acc i (spam_judgment_state db acc i) next) a i' =
  if bool_decide ((a, i') = (acc, i)) then next else spam_judgment_state db a i'.
Proof.
  intros Hn. unfold write_spam_judgment. case_bool_decide as Hne.
  { case_bool_decide as E; [by injection E as -> ->|done]. }
  set (db1 := match spam_judgment_state db acc i with Some c => adjust_for db acc c (-1) | None => db end).
  assert (spam_judgments db1 = spam_judgments db) as E1 by (unfold db1; destruct (spam_judgment_state db acc i); [apply adjust_for_keeps|done]).
  destruct next as [n|]; unfold spam_judgment_state; [rewrite (proj1 (proj2 (adjust_for_keeps _ _ _ _)))|]; cbn; rewrite E1.
  - case_bool_decide as E; [injection E as -> ->; apply (query_put acc i n)|]. f_equal. apply query_row_upsert_other; [|by apply query_other|done].
    by apply (query_other acc i); [|apply of_message_said].
  - case_bool_decide as E.
    + injection E as -> ->. rewrite query_row_delete; [by destruct (query_row _ _) eqn:Eq; [apply query_row_Some in Eq as [_ ->]|]|].
      intros r r' Hr Hr'. rewrite !of_message_spec. by apply (key_unique judgment_key (acc, i) (spam_judgments db)).
    + f_equal. apply query_row_delete_other. by apply query_other.
Qed.

Lemma written_keeps db acc i cur next :
  messages (write_spam_judgment db acc i cur next) = messages db /\ sender_lists (write_spam_judgment db acc i cur next) = sender_lists db.
Proof.
  unfold write_spam_judgment. case_bool_decide; [done|].
  destruct cur as [c|], next as [n|]; rewrite ?(proj1 (adjust_for_keeps _ _ _ _)), ?(proj2 (proj2 (adjust_for_keeps _ _ _ _)));
    cbn [messages sender_lists with_judgments]; rewrite ?(proj1 (adjust_for_keeps _ _ _ _)), ?(proj2 (proj2 (adjust_for_keeps _ _ _ _))); done.
Qed.

(** ** Everything else that happens *)

Lemma balanced_same db db' gone :
  sender_spam db' = sender_spam db -> spam_triggers db' = spam_triggers db -> spam_judgments db' = spam_judgments db ->
  Balanced db gone -> Balanced db' gone.
Proof. intros E1 E2 E3 [[H1 H2] Hn]. split; [split|]; by rewrite ?E1, ?E2, ?E3 in *. Qed.

Lemma balanced_rename db gone acc i i' : Balanced db gone -> spam_judgment_state db acc i' = None ->
  Balanced (with_judgments (update (of_message acc i) (set_message i')) db) gone.
Proof.
  intros [Hc Hn] Hi. assert (forall j, j ∈ spam_judgments db -> judgment_key j <> (acc, i')) as Hfree.
  { intros j Hj E. unfold spam_judgment_state in Hi. apply fmap_None in Hi. rewrite query_row_None in Hi.
    specialize (Hi j Hj). by rewrite of_message_spec, bool_decide_eq_false in Hi. }
  split; cbn.
  - assert (Counted db (update (of_message acc i) (set_message i') (spam_judgments db) ++ gone)) as [? ?]; [|done].
    apply (counted_same db (spam_judgments db ++ gone)); [|done]. intros p Hp. rewrite !number_app. f_equal.
    unfold update. rewrite number_fmap. apply number_ext. intros j _. destruct (of_message acc i j); [|done]. by apply Hp.
  - unfold update. rewrite <- list_fmap_compose.
    rewrite (list_fmap_ext _ ((fun k => if bool_decide (k = (acc, i)) then (acc, i') else k) ∘ judgment_key)).
    2:{ intros _ j _. cbn. rewrite of_message_spec. case_bool_decide as E; [|done]. injection E as E _. unfold judgment_key, set_message. cbn. by rewrite E. }
    rewrite list_fmap_compose. apply NoDup_fmap_2_strong; [|done]. intros k k' Hk Hk'.
    apply list_elem_of_fmap in Hk as (j & -> & Hj). apply list_elem_of_fmap in Hk' as (j' & -> & Hj').
    repeat case_bool_decide; try congruence; intros E; exfalso; [by apply (Hfree j')|by apply (Hfree j)].
Qed.

Section WithJson.
Context {J : JsonText}.

Lemma transfer_spec acc source targets db u db' : transfer_one acc source targets db u = Some db' ->
  exists i i' s, i' <> i /\ spam_judgment_state db acc i = Some s
  /\ db' = with_judgments (update (of_message acc i) (set_message i')) (write_spam_judgment db acc i' (spam_judgment_state db acc i') None).
Proof.
  unfold transfer_one. destruct (query_row _ (messages db)) as [s|]; [|done]. cbn.
  destruct (stable_cached_message_identity _) as [identity|]; [|done]. cbn.
  destruct (targets !! identity) as [i'|]; [|done]. cbn. destruct (Z.eqb_spec i' (id s)); [done|].
  destruct (spam_judgment_state db acc (id s)) as [st|] eqn:Es; [|done]. cbn. intros [= <-].
  exists (id s), i', st. split_and!; [done..|]. unfold write_spam_judgment. by destruct (spam_judgment_state db acc i').
Qed.

Lemma balanced_transfer acc source targets db u db' gone :
  transfer_one acc source targets db u = Some db' -> Balanced db gone -> Balanced db' gone.
Proof.
  intros (i & i' & s & _ & _ & ->)%transfer_spec Hb. apply balanced_rename; [by apply balanced_write|].
  rewrite written_state by apply (balanced_keys _ _ Hb). by rewrite bool_decide_true.
Qed.

Lemma balanced_move db gone acc source target uids :
  Balanced db gone -> Balanced (fst (preserve_spam_judgments_for_move db acc source target uids)) gone.
Proof.
  unfold preserve_spam_judgments_for_move. destruct (bool_decide _ || _); [done|].
  generalize (target_ids db acc target), 0%nat. intros targets n. revert db n. induction uids as [|u uids IH]; intros db n Hb; [done|]. cbn.
  destruct (transfer_one acc source targets db u) as [db'|] eqn:E; apply IH; [by eapply balanced_transfer|done].
Qed.

(** The judgments that go with messages dropped. *)
Definition dropped (p : Message -> bool) (db : Db) : list Judgment :=
  select (fun j => bool_decide (message_id j ∈ id <$> select p (messages db))) (spam_judgments db).

Lemma balanced_drop p db gone : Balanced db gone -> Balanced (drop_messages p db) (dropped p db ++ gone).
Proof.
  intros [Hc Hn]. split; cbn; [|by apply delete_where_key].
  assert (Counted db (delete_where (fun j => bool_decide (message_id j ∈ id <$> select p (messages db))) (spam_judgments db) ++ dropped p db ++ gone)) as [? ?]; [|done].
  apply (counted_same db (spam_judgments db ++ gone)); [|done]. intros q _. unfold dropped.
  rewrite !number_app, (number_split q (fun j => bool_decide (message_id j ∈ id <$> select p (messages db))) (spam_judgments db)). lia.
Qed.

Definition of_account (acc : text) (j : Judgment) : bool := bool_decide (j_account j = acc).

Lemma ledger_forget says t js acc : (forall b a k j, says b a k j = true -> j_account j = a) ->
  Ledger says t js ->
  Ledger says (delete_where (fun r => bool_decide (c_account r = acc)) t) (delete_where (of_account acc) js).
Proof.
  intros Hs [[Hk Hr] Hl]. split.
  - split; [by apply delete_where_key|]. apply Forall_forall. intros r [Hin _]%elem_of_delete_where. by apply (proj1 (Forall_forall _ _) Hr).
  - intros b a k. unfold count, counts_at. destruct (decide (a = acc)) as [->|Ha].
    + rewrite (proj2 (query_row_None _ _)).
      2:{ intros r [_ Hr']%elem_of_delete_where. unfold of_key. by rewrite Hr'. }
      symmetry. apply number_none. intros j [_ Hj]%elem_of_delete_where. apply not_true_iff_false. intros E%Hs.
      unfold of_account in Hj. by rewrite bool_decide_true in Hj.
    + rewrite query_row_delete_other.
      2:{ intros r E%bool_decide_eq_true. unfold of_key. by rewrite bool_decide_false by congruence. }
      fold (counts_at t a k). fold (count b t a k). rewrite Hl, (number_split (says b a k) (of_account acc) js).
      rewrite (number_none _ (select _ _)); [lia|]. intros j [_ E%bool_decide_eq_true]%elem_of_select. apply not_true_iff_false. intros E'%Hs. congruence.
Qed.

Lemma balanced_forget acc db gone : Balanced db gone ->
  Balanced (forget_account acc db) (delete_where (of_account acc) (dropped (fun m => bool_decide (account m = acc)) db ++ gone)).
Proof.
  intros Hb. destruct (balanced_drop (fun m => bool_decide (account m = acc)) db gone Hb) as [[H1 H2] Hn].
  split; [split|]; cbn [forget_account sender_spam spam_triggers spam_judgments].
  - unfold delete_where at 2 3. rewrite <- filter_app. apply (ledger_forget _ _ _ acc) in H1; [done|].
    intros b a k j. unfold says_sender. rewrite !andb_true_iff, bool_decide_eq_true. tauto.
  - unfold delete_where at 2 3. rewrite <- filter_app. apply (ledger_forget _ _ _ acc) in H2; [done|].
    intros b a k j. unfold says_word. rewrite !andb_true_iff, bool_decide_eq_true. tauto.
  - by apply delete_where_key.
Qed.

(** ** Whatever happens *)

Definition nothing : Db := {| messages := []; sender_spam := []; spam_triggers := []; spam_judgments := []; sender_lists := [] |}.

(** What happens to a database, with the judgments of the messages gone
    from it beside: a judgment, an undo, a sender put on a list, a look at
    what was not judged, a move, mail that comes or changes, messages that
    go, an account that goes. *)
Inductive step : Db * list Judgment -> Db * list Judgment -> Prop :=
| step_record db gone acc fol k b r db' :
    record_spam_judgment_change db acc fol k b = Some (r, db') -> step (db, gone) (db', gone)
| step_revert db gone c c' db' : revert_spam_judgment db c = Some (c', db') -> step (db, gone) (db', gone)
| step_listed db gone acc s a p db' : set_sender_listed db acc s a = Ok (p, db') -> step (db, gone) (db', gone)
| step_rejudge db gone acc only : step (db, gone) (fst (rejudge_spam db acc only), gone)
| step_move db gone acc source target uids :
    step (db, gone) (fst (preserve_spam_judgments_for_move db acc source target uids), gone)
| step_mail db gone ms : NoDup (id <$> ms) -> Forall (fun j => message_id j ∈ id <$> ms) (spam_judgments db) ->
    step (db, gone) (with_messages (fun _ => ms) db, gone)
| step_drop db gone p : step (db, gone) (drop_messages p db, dropped p db ++ gone)
| step_forget db gone acc :
    step (db, gone) (forget_account acc db, delete_where (of_account acc) (dropped (fun m => bool_decide (account m = acc)) db ++ gone)).

Definition reached (db : Db) (gone : list Judgment) : Prop := rtc step (nothing, []) (db, gone).

(** A judgment written and everything judged again. *)
Definition rewritten (db : Db) (acc : text) (i : Z) (next : option SpamJudgmentState) : Db :=
  fst (rejudge_spam_rows (write_spam_judgment db acc i (spam_judgment_state db acc i) next) acc false).

Lemma recorded db acc fol k b r db' : record_spam_judgment_change db acc fol k b = Some (r, db') ->
  ch_account (change r) = acc /\ before (change r) = spam_judgment_state db acc (ch_message_id (change r))
  /\ db' = rewritten db acc (ch_message_id (change r)) (after (change r)).
Proof.
  unfold record_spam_judgment_change, rewritten.
  destruct (newest_message_for_spam_judgment db acc fol k) as [[[i from] subj]|]; [|done]. cbn. by intros [= <- <-].
Qed.

Lemma reverted db c c' db' : revert_spam_judgment db c = Some (c', db') ->
  after c = spam_judgment_state db (ch_account c) (ch_message_id c) /\ c' = inverse c
  /\ db' = rewritten db (ch_account c) (ch_message_id c) (before c).
Proof.
  unfold revert_spam_judgment, rewritten. case_bool_decide as E; [|done]. cbn. destruct (_ && _); [done|]. by intros [= <- <-].
Qed.

Lemma listed_rejudges db acc s a p db' : set_sender_listed db acc s a = Ok (p, db') ->
  exists f, db' = fst (rejudge_spam_rows (with_lists f db) acc false).
Proof.
  unfold set_sender_listed. destruct (sender_pattern s) as [q|]; [|done]. intros E.
  apply (f_equal (fun r => match r with Ok (_, d) => d | Err _ => db' end)) in E. eexists. symmetry. exact E.
Qed.

Lemma balanced_rewritten db gone acc i next : Balanced db gone -> Balanced (rewritten db acc i next) gone.
Proof. intros Hb. by apply (balanced_same (write_spam_judgment db acc i (spam_judgment_state db acc i) next)), balanced_write. Qed.

Lemma balanced_step c c' : step c c' -> Balanced (fst c) (snd c) -> Balanced (fst c') (snd c').
Proof.
  intros [] Hb; cbn [fst snd] in *.
  - match goal with H : record_spam_judgment_change _ _ _ _ _ = _ |- _ => destruct (recorded _ _ _ _ _ _ _ H) as (_ & _ & ->) end.
    by apply balanced_rewritten.
  - match goal with H : revert_spam_judgment _ _ = _ |- _ => destruct (reverted _ _ _ _ H) as (_ & _ & ->) end.
    by apply balanced_rewritten.
  - match goal with H : set_sender_listed _ _ _ _ = _ |- _ => apply listed_rejudges in H as (f & ->) end. by apply (balanced_same db).
  - by apply (balanced_same db).
  - by apply balanced_move.
  - by apply (balanced_same db).
  - by apply balanced_drop.
  - by apply balanced_forget.
Qed.

Lemma balanced_reached db gone : reached db gone -> Balanced db gone.
Proof.
  unfold reached. intros Hr. change (Balanced (fst (db, gone)) (snd (db, gone))).
  assert (Balanced nothing []) as H0.
  { split; [|apply NoDup_nil_2]. split; (split; [split; [apply NoDup_nil_2|constructor]|done]). }
  change (Balanced (fst (nothing, @nil Judgment)) (snd (nothing, @nil Judgment))) in H0. revert H0.
  induction Hr as [|c1 c2 c3 Hs _ IH]; [done|]. intros H0. by apply IH, (balanced_step c1).
Qed.

(** What a row of counts says of the judgments told. *)
Definition told (says : bool -> Judgment -> bool) (js : list Judgment) : option (Z * Z) :=
  let n b := number (says b) js in if (n true =? 0) && (n false =? 0) then None else Some (n true, n false).

Lemma ledger_told says t js a k : Ledger says t js -> counts_at t a k = told (fun b => says b a k) js.
Proof.
  intros [[_ Hr] Hc]. unfold told. rewrite <- !Hc. unfold count. destruct (counts_at t a k) as [[s h]|] eqn:E; [|done].
  unfold counts_at in E. apply fmap_Some in E as (r & [Hin _]%query_row_Some & [= -> ->]).
  apply (proj1 (Forall_forall _ _) Hr) in Hin. unfold is_zero in Hin. by rewrite Hin.
Qed.

(** However messages are judged, judged otherwise, undone, moved, refetched
    and removed: a sender and a word have a row of counts exactly when
    something was said of them, and it holds how many judgments said spam and
    how many said not, those that stand and those of messages that have
    gone. *)
Theorem counts_are_what_was_judged db gone a k : reached db gone ->
  counts_at (sender_spam db) a k = told (fun b => says_sender b a k) (spam_judgments db ++ gone)
  /\ counts_at (spam_triggers db) a k = told (fun b => says_word b a k) (spam_judgments db ++ gone).
Proof. intros [[H1 H2] _]%balanced_reached. split; by apply ledger_told. Qed.

(** ** Undo *)

Lemma rewritten_state db gone acc i next a i' : Balanced db gone ->
  spam_judgment_state (rewritten db acc i next) a i' =
  if bool_decide ((a, i') = (acc, i)) then next else spam_judgment_state db a i'.
Proof. intros [_ Hn]. unfold rewritten, rejudge_spam_rows, spam_judgment_state. cbn. by apply written_state. Qed.

Lemma written_others db acc i cur next :
  delete_where (of_message acc i) (spam_judgments (write_spam_judgment db acc i cur next)) = delete_where (of_message acc i) (spam_judgments db).
Proof.
  unfold write_spam_judgment. case_bool_decide; [done|].
  set (db1 := match cur with Some c => adjust_for db acc c (-1) | None => db end).
  assert (spam_judgments db1 = spam_judgments db) as <- by (unfold db1; destruct cur; [apply adjust_for_keeps|done]).
  destruct next as [n|].
  - rewrite (proj1 (proj2 (adjust_for_keeps _ _ _ _))). cbn. by apply delete_upsert; [apply of_message_said|].
  - cbn. unfold delete_where. rewrite list_filter_filter. apply list_filter_iff. tauto.
Qed.

Lemma rewritten_number db gone acc i next p : Balanced db gone -> stands p ->
  number p (spam_judgments (rewritten db acc i next) ++ gone) =
  number p (spam_judgments db ++ gone) - held_of p acc i (spam_judgment_state db acc i) + held_of p acc i next.
Proof.
  intros Hb Hp. pose proof (balanced_rewritten db gone acc i next Hb) as Hb'.
  rewrite !number_app, (number_state (rewritten db acc i next) p acc i Hp (balanced_keys _ _ Hb')), (number_state db p acc i Hp (balanced_keys _ _ Hb)).
  rewrite (rewritten_state db gone acc i next acc i Hb), bool_decide_true by done.
  unfold rewritten, rejudge_spam_rows. cbn [fst with_messages spam_judgments]. rewrite written_others. lia.
Qed.

(** An undo is made only where the judgment is still the one it takes back;
    it puts the one before it back, leaves every other judgment as it is,
    and moves each count from what the one taken back brought to what the
    one before it brings. *)
Lemma a_revert_is_exact db gone c c' db' : reached db gone -> revert_spam_judgment db c = Some (c', db') ->
  after c = spam_judgment_state db (ch_account c) (ch_message_id c)
  /\ (forall a i, spam_judgment_state db' a i =
      if bool_decide ((a, i) = (ch_account c, ch_message_id c)) then before c else spam_judgment_state db a i)
  /\ (forall b a k, count b (sender_spam db') a k = count b (sender_spam db) a k
      - held_of (says_sender b a k) (ch_account c) (ch_message_id c) (after c)
      + held_of (says_sender b a k) (ch_account c) (ch_message_id c) (before c))
  /\ (forall b a k, count b (spam_triggers db') a k = count b (spam_triggers db) a k
      - held_of (says_word b a k) (ch_account c) (ch_message_id c) (after c)
      + held_of (says_word b a k) (ch_account c) (ch_message_id c) (before c)).
Proof.
  intros Hb%balanced_reached (Ea & _ & ->)%reverted.
  destruct (balanced_rewritten db gone (ch_account c) (ch_message_id c) (before c) Hb) as [[[_ S'] [_ W']] _].
  pose proof Hb as [[[_ S] [_ W]] _]. rewrite Ea. split; [done|]. split; [intros a i; by apply (rewritten_state db gone)|].
  split; intros b a k; [rewrite S', S|rewrite W', W]; apply rewritten_number;
    first [done|apply says_sender_stands|apply says_word_stands].
Qed.

(** ** What is shown *)

Lemma set_all (v : Z -> bool) is_ t :
  foldl (fun t i => update (with_id i) (set_spam (v i)) t) t is_ = (fun m => if bool_decide (id m ∈ is_) then set_spam (v (id m)) m else m) <$> t.
Proof.
  revert t. induction is_ as [|i is_ IH]; intros t; cbn.
  - rewrite <- (list_fmap_id t) at 1. apply list_fmap_ext. intros n m _. cbn. by rewrite bool_decide_false by apply not_elem_of_nil.
  - rewrite IH. unfold update. rewrite <- list_fmap_compose. apply list_fmap_ext. intros n m _. cbn. unfold with_id.
    destruct (Z.eqb_spec (id m) i) as [<-|Hi]; cbn.
    + rewrite (bool_decide_true (id m ∈ id m :: is_)) by by left. by case_bool_decide.
    + rewrite (bool_decide_ext (id m ∈ i :: is_) (id m ∈ is_)) by (rewrite elem_of_cons; naive_solver). done.
Qed.

(** With ids that are not shared, a look at an account says each of its
    messages' verdict and leaves the others. *)
Lemma rejudge_spam_all db acc only : NoDup (id <$> messages db) ->
  messages (fst (rejudge_spam_rows db acc only)) =
  (fun m => if is_mail acc m && (negb only || is_unjudged m) then set_spam (verdict_of db acc m) m else m) <$> messages db.
Proof.
  intros Hn. unfold rejudge_spam_rows. cbn. set (p := fun m => is_mail acc m && (negb only || is_unjudged m)).
  set (v := fun i => default false (verdict_of db acc <$> query_row (with_id i) (messages db))).
  assert (forall m, m ∈ messages db -> v (id m) = verdict_of db acc m) as Hv.
  { intros m Hm. unfold v. rewrite (query_row_unique _ _ m); [done|done|apply Z.eqb_refl|].
    intros x Hx E%Z.eqb_eq. by apply (key_unique id (id m) (messages db)); [..|by apply bool_decide_eq_true|by apply bool_decide_eq_true]. }
  replace (foldl _ (messages db) (select p (messages db)))
    with (foldl (fun t i => update (with_id i) (set_spam (v i)) t) (messages db) (id <$> select p (messages db))).
  2:{ assert (forall l t, (forall m, m ∈ l -> m ∈ messages db) ->
        foldl (fun t i => update (with_id i) (set_spam (v i)) t) t (id <$> l) =
        foldl (fun t m => update (with_id (id m)) (set_spam (verdict_of db acc m)) t) t l) as Hf.
      { intros l. induction l as [|m l IH]; intros t Hs; [done|]. cbn. rewrite Hv by (apply Hs; by left). apply IH. intros m' Hm'. apply Hs. by right. }
      apply Hf. by intros m [Hm _]%elem_of_select. }
  rewrite set_all. apply list_fmap_ext. intros n m Hm%list_elem_of_lookup_2. cbn. rewrite Hv by done. fold (p m).
  destruct (p m) eqn:Ep.
  - rewrite bool_decide_true; [done|]. apply list_elem_of_fmap_2, elem_of_select. done.
  - rewrite bool_decide_false; [done|]. intros (m' & E & [Hm' Ep']%elem_of_select)%list_elem_of_fmap.
    rewrite (key_unique id (id m) (messages db) m m') in Ep; [congruence|done..| |]; by apply bool_decide_eq_true.
Qed.

(** Rows keep their ids, and two rows have two. *)
Definition unique_ids (db : Db) : Prop := NoDup (id <$> messages db).

Lemma rejudge_ids db acc only : id <$> messages (fst (rejudge_spam_rows db acc only)) = id <$> messages db.
Proof.
  unfold rejudge_spam_rows. cbn. generalize (messages db) at 1 3. intros t.
  generalize (select (fun m => is_mail acc m && (negb only || is_unjudged m)) (messages db)). intros l. revert t.
  induction l as [|m l IH]; intros t; [done|]. cbn. rewrite IH. by apply update_key.
Qed.

Lemma moved_messages db acc source target uids : messages (fst (preserve_spam_judgments_for_move db acc source target uids)) = messages db.
Proof.
  unfold preserve_spam_judgments_for_move. destruct (bool_decide _ || _); [done|].
  generalize (target_ids db acc target), 0%nat. intros targets n. revert db n. induction uids as [|u uids IH]; intros db n; [done|]. cbn.
  destruct (transfer_one acc source targets db u) as [db'|] eqn:E; rewrite IH; [|done].
  apply transfer_spec in E as (i & i' & s & _ & _ & ->). cbn. apply written_keeps.
Qed.

Lemma unique_step c c' : step c c' -> unique_ids (fst c) -> unique_ids (fst c').
Proof.
  unfold unique_ids. intros [] Hu; cbn [fst] in *.
  - match goal with H : record_spam_judgment_change _ _ _ _ _ = _ |- _ => destruct (recorded _ _ _ _ _ _ _ H) as (_ & _ & ->) end.
    unfold rewritten. by rewrite rejudge_ids, (proj1 (written_keeps _ _ _ _ _)).
  - match goal with H : revert_spam_judgment _ _ = _ |- _ => destruct (reverted _ _ _ _ H) as (_ & _ & ->) end.
    unfold rewritten. by rewrite rejudge_ids, (proj1 (written_keeps _ _ _ _ _)).
  - match goal with H : set_sender_listed _ _ _ _ = _ |- _ => apply listed_rejudges in H as (f & ->) end. by rewrite rejudge_ids.
  - unfold rejudge_spam. by rewrite rejudge_ids.
  - by rewrite moved_messages.
  - done.
  - by apply delete_where_key.
  - by apply delete_where_key.
Qed.

Lemma unique_reached db gone : reached db gone -> unique_ids db.
Proof.
  unfold reached. intros Hr. change (unique_ids (fst (db, gone))). assert (unique_ids (fst (nothing, @nil Judgment))) as H0 by apply NoDup_nil_2.
  revert H0. induction Hr as [|c1 c2 c3 Hs _ IH]; [done|]. intros H0. by apply IH, (unique_step c1).
Qed.

(** The three things the reader says: of a message, that it was said by
    mistake, of a sender. *)
Inductive says (db : Db) (acc : text) : Db -> Prop :=
| says_message fol k b r db' : record_spam_judgment_change db acc fol k b = Some (r, db') -> says db acc db'
| says_undo c c' db' : ch_account c = acc -> revert_spam_judgment db c = Some (c', db') -> says db acc db'
| says_listed s a p db' : set_sender_listed db acc s a = Ok (p, db') -> says db acc db'.

Lemma says_rejudges db gone acc db' : reached db gone -> says db acc db' ->
  exists db1, unique_ids db1 /\ db' = fst (rejudge_spam_rows db1 acc false).
Proof.
  intros Hu%unique_reached Hs. destruct Hs as [fol k b r db' Hs|c c' db' <- Hs|s a p db' Hs].
  - destruct (recorded _ _ _ _ _ _ _ Hs) as (_ & _ & ->). eexists. split; [|done]. unfold unique_ids. by rewrite (proj1 (written_keeps _ _ _ _ _)).
  - destruct (reverted _ _ _ _ Hs) as (_ & _ & ->). eexists. split; [|done]. unfold unique_ids. by rewrite (proj1 (written_keeps _ _ _ _ _)).
  - apply listed_rejudges in Hs as (f & ->). by exists (with_lists f db).
Qed.

(** As soon as the reader says something of an account's mail, every message
    of the account shows the verdict of what is learned and listed then, the
    thing just said included. *)
Theorem verdicts_are_of_what_is_learned db gone acc db' m : reached db gone -> says db acc db' ->
  m ∈ messages db' -> is_mail acc m = true -> m_spam m = Some (verdict_of db' acc m).
Proof.
  intros Hr Hs. destruct (says_rejudges db gone acc db' Hr Hs) as (db1 & Hu & ->). rewrite rejudge_spam_all by done.
  intros (m0 & -> & _)%list_elem_of_fmap Hm. cbn [negb orb] in *. rewrite andb_true_r in *.
  destruct (is_mail acc m0) eqn:E; [reflexivity|congruence].
Qed.

Lemma verdict_same db db' acc m :
  (forall k, counts_at (sender_spam db') acc k = counts_at (sender_spam db) acc k) ->
  (forall k, counts_at (spam_triggers db') acc k = counts_at (spam_triggers db) acc k) ->
  sender_lists db' = sender_lists db -> verdict_of db' acc m = verdict_of db acc m.
Proof.
  intros H1 H2 H3. unfold verdict_of, spam_signals, sender_spam_counts, spam_trigger_words, sender_listed, blocked.
  rewrite H1, H3. do 2 f_equal. destruct (match counts_at _ _ _ with Some _ => _ | None => _ end). f_equal.
  apply list_filter_iff. intros w. by rewrite H2.
Qed.

Lemma rewritten_messages db acc i next : unique_ids db ->
  messages (rewritten db acc i next) =
  (fun m => if is_mail acc m then set_spam (verdict_of (rewritten db acc i next) acc m) m else m) <$> messages db.
Proof.
  intros Hu. unfold rewritten at 1. rewrite rejudge_spam_all by (by rewrite (proj1 (written_keeps _ _ _ _ _))).
  rewrite (proj1 (written_keeps _ _ _ _ _)). apply list_fmap_ext. intros n m _. cbn. by rewrite andb_true_r.
Qed.

(** A judgment taken back at once leaves what was learned, judged and shown
    as if it had not been made. *)
Theorem an_undo_restores db gone acc fol k b r db1 : reached db gone -> record_spam_judgment_change db acc fol k b = Some (r, db1) ->
  exists c db2, revert_spam_judgment db1 (change r) = Some (c, db2)
  /\ (forall a i, spam_judgment_state db2 a i = spam_judgment_state db a i)
  /\ (forall a w, counts_at (sender_spam db2) a w = counts_at (sender_spam db) a w /\ counts_at (spam_triggers db2) a w = counts_at (spam_triggers db) a w)
  /\ messages db2 = messages (fst (rejudge_spam db acc false)).
Proof.
  intros Hr Hc. pose proof (balanced_reached _ _ Hr) as Hb. pose proof (unique_reached _ _ Hr) as Hu.
  pose proof (step_record db gone acc fol k b r db1 Hc) as Hs1. destruct (recorded _ _ _ _ _ _ _ Hc) as (Ea & Eb & E1).
  assert (reached db1 gone) as Hr1 by (by eapply rtc_r). pose proof (balanced_reached _ _ Hr1) as Hb1.
  set (i := ch_message_id (change r)) in *.
  assert (spam_judgment_state db1 acc i = after (change r)) as Es by (rewrite E1, (rewritten_state db gone), bool_decide_true; done).
  assert (is_none (after (change r)) = false) as Hsome.
  { revert Hc. unfold record_spam_judgment_change. destruct (newest_message_for_spam_judgment db acc fol k) as [[[x from] subj]|]; [|done].
    cbn. intros [= <- _]. cbn. destruct (spam_judgment_state db acc x) as [s|]; [|done]. by destruct (Bool.eqb _ _). }
  assert (revert_spam_judgment db1 (change r) = Some (inverse (change r), rewritten db1 acc i (before (change r)))) as Ev.
  { unfold revert_spam_judgment. rewrite Ea. fold i. rewrite Es, bool_decide_true, Hsome by done. unfold rewritten. by rewrite Es. }
  exists (inverse (change r)), (rewritten db1 acc i (before (change r))). split; [exact Ev|].
  pose proof (step_revert db1 gone _ _ _ Ev) as Hs2. assert (reached (rewritten db1 acc i (before (change r))) gone) as [[L2 W2] _]%balanced_reached by (by eapply rtc_r).
  assert (forall p, stands p -> number p (spam_judgments (rewritten db1 acc i (before (change r))) ++ gone) = number p (spam_judgments db ++ gone)) as Hnum.
  { intros p Hp. rewrite rewritten_number, Es by done. rewrite E1, rewritten_number, <- Eb by done. lia. }
  assert (forall a w, counts_at (sender_spam (rewritten db1 acc i (before (change r)))) a w = counts_at (sender_spam db) a w
    /\ counts_at (spam_triggers (rewritten db1 acc i (before (change r)))) a w = counts_at (spam_triggers db) a w) as Hcounts.
  { intros a w. destruct Hb as [[L W] _]. rewrite (ledger_told _ _ _ _ _ L2), (ledger_told _ _ _ _ _ L), (ledger_told _ _ _ _ _ W2), (ledger_told _ _ _ _ _ W).
    unfold told. by rewrite !Hnum by (apply says_sender_stands || apply says_word_stands). }
  split_and!; [|exact Hcounts|].
  - intros a j. rewrite (rewritten_state db1 gone) by done. case_bool_decide as E; [injection E as -> ->; by rewrite Eb|].
    by rewrite E1, (rewritten_state db gone), bool_decide_false.
  - unfold rejudge_spam. rewrite rejudge_spam_all, rewritten_messages by (done || by apply (unique_reached _ _ Hr1)).
    assert (messages db1 = messages (rewritten db acc i (after (change r)))) as -> by (by rewrite E1). rewrite rewritten_messages by done. rewrite <- list_fmap_compose. apply list_fmap_ext. intros n m _. cbn.
    rewrite andb_true_r. destruct (is_mail acc m) eqn:Em; [|by rewrite Em].
    match goal with |- context [is_mail acc ?x] => change (is_mail acc x) with (is_mail acc m) end. rewrite Em.
    match goal with |- set_spam ?v _ = _ => change v with (verdict_of (rewritten db1 acc i (before (change r))) acc m) end.
    rewrite (verdict_same db); [done|intros w; apply (Hcounts acc w)..|].
    unfold rewritten, rejudge_spam_rows. cbn [fst with_messages sender_lists]. rewrite (proj2 (written_keeps _ _ _ _ _)), E1.
    unfold rewritten, rejudge_spam_rows. cbn [fst with_messages sender_lists]. apply written_keeps.
Qed.

End WithJson.
End WithUnicode.

(** ** A small mailbox *)

Module Demo.

(** The JSON of a message here is its Message-ID. *)
#[export] Instance only_ids : JsonText := fun t => Some (Object [(lit "message_id", String t)]).

Definition mail (i : Z) (fol : string) (u : Z) (k from subj mid : string) : Message :=
  {| id := i; account := lit "a"; folder := lit fol; uid := u; m_from_addr := Some (lit from); m_subject := Some (lit subj);
     thread_key := Some (lit k); date := i; json := lit mid; m_spam := None |}.

Definition first_mail := mail 1 "INBOX" 1 "k1" "Ann@x.org" "free money" "<1>".
Definition box : Db := with_messages (fun _ => [first_mail; mail 2 "INBOX" 2 "k2" "ann@x.org" "free lunch" "<2>"]) nothing.

Definition after_judging (db : Db) (fol k : string) (b : bool) : Db :=
  match record_spam_judgment_change db (lit "a") (lit fol) (lit k) b with Some (_, db) => db | None => db end.

Definition judged : Db := after_judging (after_judging box "INBOX" "k1" true) "INBOX" "k2" true.

Lemma judging_reached db gone fol k b : reached db gone -> reached (after_judging db fol k b) gone.
Proof.
  intros Hr. unfold after_judging. destruct (record_spam_judgment_change _ _ _ _ _) as [[r db']|] eqn:E; [|done].
  eapply rtc_r; [exact Hr|]. by eapply step_record.
Qed.

Lemma box_reached : reached box [].
Proof. apply rtc_once, step_mail; [by apply (bool_decide_unpack _); vm_compute|constructor]. Qed.

Lemma judged_reached : reached judged [].
Proof. apply judging_reached, judging_reached, box_reached. Qed.

(** The sender of the two and the word both subjects hold. *)
Lemma counts_are_what_was_judged_witness :
  counts_at (sender_spam judged) (lit "a") (lit "ann@x.org") = Some (2, 0)
  /\ counts_at (spam_triggers judged) (lit "a") (lit "free") = Some (2, 0).
Proof.
  destruct (counts_are_what_was_judged judged [] (lit "a") (lit "ann@x.org") judged_reached) as [H1 _].
  destruct (counts_are_what_was_judged judged [] (lit "a") (lit "free") judged_reached) as [_ H2].
  rewrite H1, H2. split; vm_compute; reflexivity.
Defined.

Lemma an_undo_restores_witness : exists c db2,
  revert_spam_judgment judged {| ch_account := lit "a"; ch_message_id := 2; before := None;
    after := Some {| spam := true; from_addr := lit "ann@x.org"; subject := lit "free lunch" |} |} = Some (c, db2)
  /\ counts_at (sender_spam db2) (lit "a") (lit "ann@x.org") = Some (1, 0).
Proof.
  destruct (record_spam_judgment_change (after_judging box "INBOX" "k1" true) (lit "a") (lit "INBOX") (lit "k2") true) as [[r db1]|] eqn:E; [|by vm_compute in E].
  assert (db1 = judged) as Ed by (unfold judged; unfold after_judging at 1; by rewrite E).
  destruct (an_undo_restores (after_judging box "INBOX" "k1" true) [] (lit "a") (lit "INBOX") (lit "k2") true r db1
    (judging_reached _ _ _ _ _ box_reached) E) as (c & db2 & Hv & _ & Hc & _).
  exists c, db2. split; [|rewrite (proj1 (Hc _ _)); vm_compute; reflexivity].
  rewrite <- Ed, <- Hv. f_equal. vm_compute in E. injection E as <- _. vm_compute. reflexivity.
Defined.

Lemma judging_says db fol k b : is_some_and (fun _ => true) (record_spam_judgment_change db (lit "a") (lit fol) (lit k) b) = true ->
  says db (lit "a") (after_judging db fol k b).
Proof.
  unfold after_judging. destruct (record_spam_judgment_change _ _ _ _ _) as [[r db']|] eqn:E; [|done]. intros _. by eapply says_message.
Qed.

Lemma verdicts_are_of_what_is_learned_witness :
  Forall (fun m => m_spam m = Some (verdict_of judged (lit "a") m)) (messages judged).
Proof.
  apply Forall_forall. intros m Hm.
  apply (verdicts_are_of_what_is_learned (after_judging box "INBOX" "k1" true) [] (lit "a") judged m); [apply judging_reached, box_reached| |exact Hm|].
  - apply judging_says. vm_compute. reflexivity.
  - assert (Forall (fun m => is_mail (lit "a") m = true) (messages judged)) as Hall by (vm_compute; repeat constructor).
    exact (proj1 (Forall_forall _ _) Hall m Hm).
Defined.

(** One message, fetched again after it had gone and judged again, counts
    for two, and its sender is called a spammer on the word of one message. *)
Example a_message_seen_again_counts_twice :
  let db1 := after_judging (with_messages (fun _ => [first_mail]) nothing) "INBOX" "k1" true in
  let db2 := fst (delete_messages_by_uid db1 (lit "a") (lit "INBOX") [1]) in
  let db3 := after_judging (with_messages (fun _ => [mail 2 "INBOX" 1 "k1" "Ann@x.org" "free money" "<1>"]) db2) "INBOX" "k1" true in
  length (spam_judgments db3) = 1%nat /\ counts_at (sender_spam db3) (lit "a") (lit "ann@x.org") = Some (2, 0)
  /\ m_spam <$> messages db3 = [Some true].
Proof. vm_compute. done. Qed.

(** A move drops what was said of the message it lands on, and the verdicts
    shown stay those of before. *)
Example a_move_leaves_the_verdicts :
  let there := mail 3 "Archive" 7 "k3" "ann@x.org" "free money" "<1>" in
  let db := after_judging (with_messages (fun t => there :: t) judged) "Archive" "k3" false in
  let moved := fst (preserve_spam_judgments_for_move db (lit "a") (lit "INBOX") (lit "Archive") [1]) in
  m_spam <$> messages moved = [Some false; Some false; Some false]
  /\ verdict_of moved (lit "a") first_mail = true.
Proof. vm_compute. done. Qed.

End Demo.
End SpamLaws.
